(* ===== verification/_CoqProject ===== *)
-Q . S2P
Prelude.v
Digits.v
Utf8.v
Base32.v
Codec.v
Common.v
Identity.v
Mapping.v
LeaseSet.v
RouterInfo.v
LeaseSet2.v
EncryptedLeaseSet.v
I2np.v
NetValidate.v
NetStore.v
Routing.v
Lookup.v
LeaseStore.v
Els2.v
Provenance.v
ServerStore.v
Fragment.v
TunnelData.v
BTree.v
Tunnel.v
TunnelPool.v
TunnelLayer.v
TunnelRoles.v
TunnelRegistry.v
Ntcp2Crypto.v
Ntcp2Block.v
Ntcp2Frame.v
Ntcp2Handshake.v
Ntcp2Machine.v
Ntcp2Driver.v
BuildRecord.v
BuildCrypto.v
TunnelBuild.v
ShortBuild.v
Resource.v
TransportManager.v
TransportSelect.v
Reachability.v
StreamPacket.v
StreamConfig.v
RecvWindow.v
SendWindow.v
Stream.v
Congestion.v
StreamEvents.v
Connection.v
