(* ===== verification/Prelude.v ===== *)
(** * A verification of the protocol core of i2pr

    i2pr is an I2P router.  Routers publish signed records about themselves and
    about the destinations they serve (RouterInfos and LeaseSets), keep the
    records of others in a network database, and ask each other for records they
    miss.  Messages between routers are I2NP messages, read and written with a
    bounded codec; a message that travels through a tunnel is split into
    fixed-size cells, encrypted once for each hop, and reassembled at the far
    end; on top of tunnels, streaming connections give applications a reliable
    byte stream.  Neighbouring routers talk over NTCP2 sessions: a Noise
    handshake, then encrypted frames of blocks.  This library models these parts
    and proves what each one promises to the part above it.

    ** Files

    - [Prelude]: results and the state-and-error monad, machine integers
      (checked, saturating and wrapping), byte slices, big-endian integers, sums
      over maps, the tactic [breflect] and the hint database [i2pr].
    - [Digits]: numbers in bases that are powers of two, and the accumulator that
      repacks digits, shared by base 32 and base 64.  [Base32] models
      [crates/i2pr-proto/src/common/base32.rs]: base 32, its checksum, the
      addresses of encrypted services.
    - [Utf8]: the validity test of [std::str::from_utf8].
    - [Codec] models [crates/i2pr-proto/src/codec.rs].  [Cursor] and [Buffer]
      are [DecodeCursor] and [EncodeBuffer]; a decoder is a state transformer on
      the cursor, an encoder one on the buffer.  [reads], [writes], [consumes]
      and [canonical] are the specifications the other codecs are composed from.
    - [Common], [Identity], [Mapping], [LeaseSet], [RouterInfo], [LeaseSet2] and
      [EncryptedLeaseSet] model [crates/i2pr-proto/src/common/]: key and
      signature types ([keys.rs]), certificates, identities and destinations,
      mappings, classic LeaseSets ([lease.rs]), router addresses and
      RouterInfos, LeaseSet2s and MetaLeaseSets ([lease2.rs]), encrypted
      LeaseSet2 envelopes ([els2.rs]).  [Common] declares the class [WireRecord],
      what I2NP asks of a record, with its laws [WireRecordLaws], and the
      decoding of records that end in a signature over their own bytes.
    - [I2np] models [crates/i2pr-proto/src/i2np/]: message types, headers, all
      fifteen bodies and the standard, short SSU and short transport framings.
      The LeaseSet records enter through [WireRecord]; SHA-256 is a parameter.
    - [NetValidate] models the validation of records: [router_info.rs] and
      [lease_set2.rs] of [crates/i2pr-netdb/src/] and the verification wrappers
      of [crates/i2pr-crypto/src/lib.rs].  Ed25519 and SHA-256 are parameters.
    - [NetStore] models the bounded stores, [store.rs] and the store of
      [lease_set2.rs]; the class [StoreRecord] is what they ask of a record.
    - [Routing] models [routing.rs]: the date in the routing key, XOR distance,
      nearest records.
    - [Lookup] models [lookup_policy.rs], [lookup_id.rs], [lookup_action.rs],
      [databaselookup.rs] and [lookup_engine.rs]: the lookup state machine.  The
      gzip decoder is a parameter.
    - [LeaseStore] models [lease_set.rs]: validation and stores of classic
      LeaseSets and MetaLeaseSets.  [Els2] models the validation and the store of
      [els2.rs], [els2_transcript.rs], and the signature checks of [red25519.rs]
      and [red25519_deployed.rs] of [crates/i2pr-crypto/src/]: encrypted
      LeaseSet2s at a floodfill.  The curve is the record [Curve] of operations.
      [Provenance] models [provenance.rs]: how each stored record came in, and
      what may be done with it.  [ServerStore] models [server_store.rs]: the
      stores of a floodfill under one quota, the answers it gives, and the
      maintenance that resumes from a cursor.  The gzip compressor is a
      parameter; the class [StoreRecordLaws] is what the server needs of a
      record, and [sweep] repeats batches until the pass is complete.
    - [Fragment] models [crates/i2pr-tunnel/src/fragment.rs]: [Partial] is
      [PartialMessage], [Reassembler] is [BoundedReassembler].
    - [TunnelData] models [crates/i2pr-tunnel/src/data.rs]: delivery
      instructions, fragmentation of a message, padded and checksummed cells,
      the payload parser.  SHA-256 and the random source are parameters.
    - [Tunnel] models [identity.rs], [config.rs], [established.rs] and
      [zero_hop.rs] of [crates/i2pr-tunnel/src/]: identifiers, lifetimes and the
      hop chains of built tunnels; [TunnelPool] models [pool.rs].
    - [TunnelLayer] models [layer.rs]: the encryption layers and the replay
      window.  AES-256 in ECB and CBC mode is the class [TunnelCipher], whose
      law is that decryption inverts encryption.
    - [TunnelRoles] models [roles.rs]: gateways, participants and endpoints of
      both directions, with their reassemblers; [TunnelRegistry] models
      [data_plane_registry.rs], the tables that find a role by slot or by
      receive identifier.
    - [Ntcp2Crypto], [Ntcp2Block] and [Ntcp2Frame] model [crypto.rs] with
      [constants.rs], [block.rs] and [frame.rs] of
      [crates/i2pr-transport-ntcp2/src/].  SHA-256, HMAC, ChaCha20-Poly1305,
      SipHash and AES are the class [Ntcp2Primitives], with the laws
      [Ntcp2Laws]: output lengths and that decryption inverts encryption.
    - [Ntcp2Handshake] models [handshake.rs]: the three handshake messages, the
      clock policy, the base64 of published keys, the check of a peer's
      RouterInfo; and the replay cache of
      [crates/i2pr-runtime/src/ntcp2_runtime.rs].  [Ntcp2Machine] models
      [state_machine.rs]: initiator and responder as functions from a phase and
      an input to the next phase and the actions for the runtime.  X25519 is the
      class [X25519], with the laws [X25519Laws]: key lengths and agreement.
    - [Ntcp2Driver] models [crates/i2pr-runtime/src/ntcp2_driver.rs]: the loop
      that performs those actions, generic in the class [HandshakeMachine], its
      clock and its deadlines ([driver_fails] is an exit by deadline,
      cancellation or a failed stream), and the network of two drivers
      connected by byte streams.
    - [BuildRecord], [BuildCrypto], [TunnelBuild] and [ShortBuild] model tunnel
      building: [short_record.rs], [build_crypto.rs] (with
      [crates/i2pr-crypto/src/hkdf.rs]), [multirecord.rs], and [short.rs] with
      [short_state.rs] and [build.rs], of [crates/i2pr-tunnel/src/].  Request and
      reply records; HKDF, the Noise transcript of a record, layer keys; the
      message of records in random slots under layers of ChaCha20, the step of a
      hop and the creator's reading of the replies; the state machine of an
      attempt and the admission of its tunnel to the pool.  The ChaCha20
      keystream is the class [ChaCha20]; the random generator is a pair of
      functions on its state, whose bytes may fail to come.  [HopNode] and
      [run_hops] are the other routers, each running the hop's code.
    - [Resource] models the resource governor of [crates/i2pr-core/src/lib.rs]
      (budgets, leases, bundles) and [crates/i2pr-transport/src/resource.rs].
      [TransportManager] models [types.rs], [lifecycle.rs], [delivery.rs],
      [snapshot.rs] and [manager.rs] of [crates/i2pr-transport/src/]: links,
      handshakes, duplicate links, delivery queues.  What callers own
      (candidates, leases, queued deliveries) is a list of [Owner]s, and
      [sys_step] interleaves every operation, the two halves of an enqueue
      included.  [TransportSelect] models [selection.rs]; [Reachability] models
      [reachability.rs] and [network_status.rs].
    - [StreamPacket] models [crates/i2pr-proto/src/streaming/packet.rs]: the
      packet header, the options its flags announce, signature placement, SYN
      validation.
    - [BTree]: the ascending iteration order of [BTreeMap].
    - [StreamConfig], [RecvWindow], [SendWindow], [Congestion], [StreamEvents]
      and [Connection] model [config.rs], [recv_window.rs], [send_window.rs],
      [congestion.rs] with [retransmit.rs], [events.rs] with [errors.rs], and
      [connection.rs] of [crates/i2pr-client/src/streaming/].
    - [Stream] connects a [SendWindow] and a [RecvWindow] by a network that may
      lose, repeat, delay and reorder packets and acknowledgements, while the
      sender may give packets up ([link_remove]).

    ** What the theorems show

    - Codec and records: strict decoding, all-or-nothing writes; a mapping, an
      identity, a RouterInfo, each LeaseSet kind and each I2NP message has one
      encoding: an input is decoded to a value exactly when the value is well
      formed and encodes to that input.  Constructors accept exactly the
      combinations that give well-formed records.  Base 32 text is read exactly,
      and a host name is an encrypted service in exactly two spellings.  A signature over a record of
      the LeaseSet2 family fits no other record of the family.
    - Validation: a record is accepted exactly when it is authentic, fresh and
      within the limits.  Stores: memory bounds hold in every reachable
      state, a stored record is the newest of those offered, and everything
      stored is authentic when only validated records are offered.  The
      one-step accounting of the classic stores is that of the others.  An
      encrypted LeaseSet2 is accepted exactly when one of the two type-11
      transcripts verifies, and only one.  A floodfill store keeps its accounts
      in every reachable state and answers exactly what it may; a maintenance
      pass ends and leaves what has not run out, except that it leaves no
      encrypted LeaseSet2 at all.
    - Routing: the date conversion is the Gregorian calendar, routing keys
      change exactly at midnight, and nearest selection is exact.
    - Lookups: no peer is asked twice, every candidate that the 256 exclusions
      leave room for is asked before a lookup gives up, and only a valid record of the target completes one.
    - I2NP: the standard framing is exact, nested messages included; the short
      framings round trip, with one exception, Garlic in the short transport
      framing, that is proved to be one.
    - Tunnel cells: splitting is total on accepted messages, a cell parses back
      to its record, the parser accepts only canonical cells, and a message sent
      through cells arrives whole in whatever order the cells arrive.
    - Reassembly: every bound on memory holds in every reachable state;
      completion is exact; insertion touches one key only.
    - Tunnels: a pool respects its limits and hands out the key material of a
      tunnel once; a message given to an outbound gateway leaves the endpoint of
      the chain unchanged, a message given to an inbound gateway reaches the
      creator, and a hop forwards no cell twice.  The seven tables of the
      registry behave as two, one per direction, keyed by slot.
    - Tunnel building: HKDF is that of RFC 5869 up to 254 blocks, and refuses the
      last block its limit allows; records are read back as written; every hop of
      a path has one slot.  A message processed by all hops in turn gives the
      creator exactly the answers of the hops, and an attempt ends with the first
      refusal or with a tunnel whose hops, identifiers and keys are those of the
      path and of the hops, extracted once; what is admitted to the pool is what
      the pool activates.
    - NTCP2: when both sides use the same Diffie-Hellman secrets every message
      of the handshake is accepted and the data-phase keys are crossed; keys
      exist only behind the complete order of calls; the block parser accepts
      exactly the well-ordered block sequences; all frames sent after a
      handshake are received in order; the receiver stops at the first error.
    - NTCP2 handshake: messages and payloads parse exactly; a peer is accepted
      exactly when its RouterInfo is valid and publishes the key it proved; a
      replayed request is refused within the clock window; base 64 text is read
      exactly; a responder authenticates only after all checks have passed, in
      order, on one transcript, and its session keys are those that the Noise
      pattern, written down on its own ([noise_responder]), gives for the three
      messages; no input makes a machine panic; two drivers that can connect
      finish under every uninterrupted schedule of their steps, with crossed keys
      and the same parameters, and every schedule with interruptions ends too,
      each side with that outcome or with the error of an interruption.
    - Transport management: in every interleaving the resources in use are
      exactly those that links and callers hold, and nothing is in use when they
      are gone; a bundle is granted as a whole or not at all; registration never
      fails and decides as the duplicate policy says; two routers that dial each
      other keep the same connection; the transport chosen is the best eligible
      one, and a link chosen for reuse delivers; the router is reported reachable
      exactly on fresh, corroborated, uncontradicted evidence.
    - Streaming windows: in-order, exactly-once delivery; complete delivery;
      exact acknowledgements on both sides.  The stream theorem composes them:
      what the application receives is always a prefix of what was sent, and
      nothing leaves the sender's buffer before the receiver has it, unless
      the sender gives it up.
    - Streaming packets: one encoding per packet; the receiver verifies exactly
      the bytes the sender signed; a SYN is accepted by one destination only.
    - Connection: bounds, the lifecycle order, exact admission of sends, the
      exact effect of a clock tick.

    ** Modelling choices

    Integers are [Z]; every operation that is checked, saturating or wrapping in
    the code is so here, and the ranges of arguments are stated as [fits w].
    [usize] has 64 bits.  Errors are values of [result]; a panic is [None] of an
    option.  Hash maps are [gmap]s, as are ordered maps, whose iteration order is
    [keys_asc] where it matters.  Loops of the code are structural recursions
    where there is a natural one; the others count down a fuel that is proved
    sufficient: the fragment limit for [follow_on_records] and the number of
    unread bytes for [parse_records] in [TunnelData], the number of buffered
    packets for [drain] and the width of the gap for [missing_from] in
    [RecvWindow], the number of unread bytes for [decode_entries] in [Mapping],
    and the length of the message for [decode_standard_fuel] in [I2np], where a
    nested message is shorter than the message around it
    ([decode_standard_fuel_irrelevant]).  [drive] in [Lookup] takes one unit of
    fuel for each candidate and one for the end, and [sweep] in [ServerStore] one
    for each record and one more.  [parse_loop] in [Ntcp2Block]
    counts down the blocks a frame may still hold, which is the code's own limit,
    and [payload_blocks] in [Ntcp2Handshake] the unread bytes.
    [hkdf_expand_loop] counts down the 255 values of the block counter.  The
    rejection sampling of record slots ([pick_loop]) has no bound in the code: the
    model stops after [attempts] draws, and the theorems assume [fair_draws], that
    among so many draws one ends in three zero bits, under which it never stops.
    Counters keep their width.  A nonce counter ends at 2^64 - 2 and refuses to
    go on.  The slot counter of a pool saturates: slot [u32_max] is given out
    again and again ([saturated_slot_reused]), and the pool theorems speak of
    pools that have not come that far.  Sequence numbers of a stream wrap at
    2^32; the stream theorems speak of links that have sent fewer packets.

    Points where a model is coarser than the code: the link check and the
    admission to the queue are one step of [enqueue_reserve], between which the
    code releases its lock (the commit checks the link again); identifiers of
    link candidates always come from the counter, as they do in the runtime.

    ** Not modelled yet

    The floodfill service, publication and replication of the network database;
    the streaming manager; transit tunnels and garlic-wrapped build replies; NTCP2
    addresses, the observer of its handshakes and the reading of timers (when a
    deadline passes is the network's choice); SSU2, but for the
    registration of its sessions and the network condition it reports; the client
    APIs.  Out of scope: cryptographic primitives (parameters), sockets, files,
    poisoned locks, task scheduling. *)
From stdpp Require Export base tactics list numbers option strings gmap fin_maps.
From Stdlib Require Export ZArith Lia.

#[global] Open Scope Z_scope.

(** ** Results

    Rust's [Result<A, E>], with the error type first so that [result E] is a
    monad in stdpp's sense and [x ← e; k] reads like the [?] operator. *)
Inductive result (E A : Type) : Type :=
  | Ok (a : A)
  | Err (e : E).
Arguments Ok {E A} a.
Arguments Err {E A} e.

Lemma Ok_inj {E A} (a b : A) : @Ok E A a = Ok b → a = b.
Proof. by intros [= ->]. Qed.

Definition is_ok {E A} (r : result E A) : bool :=
  match r with Ok _ => true | Err _ => false end.

Definition ok_or {E A} (e : E) (o : option A) : result E A :=
  match o with Some a => Ok a | None => Err e end.

Definition map_err {E F A} (f : E → F) (r : result E A) : result F A :=
  match r with Ok a => Ok a | Err e => Err (f e) end.

#[global] Instance result_eq_dec {E A} `{EqDecision E, EqDecision A} :
  EqDecision (result E A).
Proof. solve_decision. Defined.

#[global] Instance result_ret {E} : MRet (result E) := λ A a, Ok a.
#[global] Instance result_bind {E} : MBind (result E) := λ A B f r,
  match r with Ok a => f a | Err e => Err e end.
#[global] Instance result_fmap {E} : FMap (result E) := λ A B f r,
  match r with Ok a => Ok (f a) | Err e => Err e end.

(** ** State and errors

    A method that takes [&mut self] and returns [Result<A, E>] is a function
    [S → S * result E A]: the state reached is part of the outcome also when
    the method returns an error, as it is in Rust. *)
Definition M (S E A : Type) : Type := S → S * result E A.

#[global] Instance M_ret {S E} : MRet (M S E) := λ A a s, (s, Ok a).
#[global] Instance M_bind {S E} : MBind (M S E) := λ A B f m s,
  match m s with
  | (s', Ok a) => f a s'
  | (s', Err e) => (s', Err e)
  end.

Definition fail {S E A} (e : E) : M S E A := λ s, (s, Err e).
Definition lift {S E A} (r : result E A) : M S E A := λ s, (s, r).
Definition gets {S E A} (f : S → A) : M S E A := λ s, (s, Ok (f s)).
Definition fail_at {S E A} (f : S → E) : M S E A := λ s, (s, Err (f s)).
(** [.map_err(f)?] *)
Definition with_err {S E F A} (f : E → F) (m : M S E A) : M S F A :=
  λ s, let '(s', r) := m s in (s', map_err f r).

(** ** Machine integers

    A [w]-bit unsigned integer is a [Z] in [0 .. 2^w - 1].  [usize] has 64
    bits.  The overflow behaviour of each operation is written out. *)
Definition fits (w v : Z) : Prop := 0 ≤ v < 2 ^ w.
#[global] Instance fits_dec w v : Decision (fits w v).
Proof. unfold fits. apply _. Defined.

Definition u8_max : Z := 255.
Definition u16_max : Z := 65535.
Definition u32_max : Z := 4294967295.
Definition u64_max : Z := 18446744073709551615.
Definition usize_max : Z := 18446744073709551615.

Definition checked_add (max a b : Z) : option Z :=
  if a + b <=? max then Some (a + b) else None.
Definition checked_mul (max a b : Z) : option Z :=
  if a * b <=? max then Some (a * b) else None.
Definition saturating_add (max a b : Z) : Z := Z.min max (a + b).
Definition saturating_mul (max a b : Z) : Z := Z.min max (a * b).
Definition saturating_sub (a b : Z) : Z := Z.max 0 (a - b).
Definition wrapping_add (w a b : Z) : Z := (a + b) mod 2 ^ w.
Definition abs_diff (a b : Z) : Z := Z.abs (a - b).
(** [uN::try_from] on a wider unsigned value. *)
Definition try_from (max v : Z) : option Z := if v <=? max then Some v else None.

(** ** Bytes and slices *)
Abbreviation bytes := (list Z) (only parsing).

Abbreviation is_u8 := (fits 8).
Abbreviation bytes_ok := (Forall (fits 8)).

Definition zlen {A} (l : list A) : Z := Z.of_nat (length l).
Definition slice {A} (a b : Z) (l : list A) : list A :=
  firstn (Z.to_nat (b - a)) (skipn (Z.to_nat a) l).

(** [n.to_be_bytes()] with [n] bytes, and [uN::from_be_bytes]. *)
Fixpoint to_be (n : nat) (v : Z) : bytes :=
  match n with
  | O => []
  | S n' => (v / 256 ^ Z.of_nat n') mod 256 :: to_be n' v
  end.
Definition from_be (l : bytes) : Z := fold_left (λ acc b, acc * 256 + b) l 0.

(** ** Tactics *)

(** Reflects the boolean comparisons of a hypothesis or the goal. *)
Ltac breflect :=
  repeat match goal with
  | H : (_ <=? _) = true |- _ => apply Z.leb_le in H
  | H : (_ <=? _) = false |- _ => apply Z.leb_gt in H
  | H : (_ <? _) = true |- _ => apply Z.ltb_lt in H
  | H : (_ <? _) = false |- _ => apply Z.ltb_ge in H
  | H : (_ >? _) = true |- _ => rewrite Z.gtb_ltb in H; apply Z.ltb_lt in H
  | H : (_ >? _) = false |- _ => rewrite Z.gtb_ltb in H; apply Z.ltb_ge in H
  | H : (_ >=? _) = true |- _ => rewrite Z.geb_leb in H; apply Z.leb_le in H
  | H : (_ >=? _) = false |- _ => rewrite Z.geb_leb in H; apply Z.leb_gt in H
  | H : (_ =? _) = true |- _ => apply Z.eqb_eq in H
  | H : (_ =? _) = false |- _ => apply Z.eqb_neq in H
  | H : (_ && _) = true |- _ => apply andb_true_iff in H; destruct H
  | H : (_ || _) = false |- _ => apply orb_false_iff in H; destruct H
  | H : negb _ = true |- _ => apply negb_true_iff in H
  | H : negb _ = false |- _ => apply negb_false_iff in H
  end.

(** Splits on the scrutinee of the first [match] or [if] of the goal. *)
Ltac step_match :=
  match goal with
  | |- context [match ?x with _ => _ end] =>
      lazymatch x with
      | context [match _ with _ => _ end] => fail
      | _ => let E := fresh "E" in destruct x eqn:E
      end
  end.

Create HintDb i2pr discriminated.
#[global] Hint Constants Opaque : i2pr.

(** ** Lengths and slices *)
Section slices.
Context {A : Type}.
Implicit Types l k : list A.

Lemma zlen_nil : zlen (@nil A) = 0.
Proof. reflexivity. Qed.
Lemma zlen_cons x l : zlen (x :: l) = 1 + zlen l.
Proof. unfold zlen. simpl. lia. Qed.
Lemma zlen_one (x : A) : zlen [x] = 1.
Proof. reflexivity. Qed.
Lemma zlen_app l k : zlen (l ++ k) = zlen l + zlen k.
Proof. unfold zlen. rewrite length_app. lia. Qed.
Lemma zlen_nonneg l : 0 ≤ zlen l.
Proof. unfold zlen. lia. Qed.
Lemma zlen_0_nil l : zlen l = 0 → l = [].
Proof. unfold zlen. intros H. apply length_zero_iff_nil. lia. Qed.

Lemma slice_app l k m : slice (zlen l) (zlen l + zlen k) (l ++ k ++ m) = k.
Proof.
  unfold slice, zlen.
  replace (Z.to_nat _) with (length k) by lia.
  rewrite Nat2Z.id, drop_app_length. apply take_app_length.
Qed.

Lemma slice_length a b l :
  0 ≤ a ≤ b → b ≤ zlen l → zlen (slice a b l) = b - a.
Proof. unfold slice, zlen. intros. rewrite length_take, length_drop. lia. Qed.

(** Every in-range slice splits the list around it. *)
Lemma slice_split a b l :
  0 ≤ a ≤ b → b ≤ zlen l →
  l = firstn (Z.to_nat a) l ++ slice a b l ++ skipn (Z.to_nat b) l.
Proof.
  unfold slice, zlen. intros Hab Hb.
  rewrite <- (take_drop (Z.to_nat a) l) at 1. f_equal.
  rewrite <- (take_drop (Z.to_nat (b - a)) (drop (Z.to_nat a) l)) at 1. f_equal.
  rewrite drop_drop. f_equal. lia.
Qed.

Lemma slice_full l : slice 0 (zlen l) l = l.
Proof.
  unfold slice, zlen. replace (Z.to_nat _) with (length l) by lia. apply firstn_all.
Qed.

Lemma slice_nil a l : slice a a l = [].
Proof. unfold slice. replace (a - a) with 0 by lia. reflexivity. Qed.

(** Two adjacent slices make one. *)
Lemma slice_slice a b c l :
  0 ≤ a ≤ b → b ≤ c → slice a b l ++ slice b c l = slice a c l.
Proof.
  unfold slice. intros.
  replace (Z.to_nat b) with (Z.to_nat a + Z.to_nat (b - a))%nat by lia.
  rewrite <- drop_drop.
  replace (Z.to_nat (c - b)) with (Z.to_nat (c - a) - Z.to_nat (b - a))%nat by lia.
  generalize (drop (Z.to_nat a) l). intros k.
  rewrite <- (take_drop (Z.to_nat (b - a)) (take (Z.to_nat (c - a)) k)).
  f_equal.
  - rewrite take_take. f_equal. lia.
  - by rewrite skipn_firstn_comm.
Qed.

Lemma Forall_slice (P : A → Prop) a b l : Forall P l → Forall P (slice a b l).
Proof. intros. unfold slice. by apply Forall_take, Forall_drop. Qed.
End slices.

Create Rewrite HintDb zlen.
#[export] Hint Rewrite @zlen_nil @zlen_cons @zlen_app : zlen.

(** Normalises lengths and calls [lia], knowing that lengths are not
    negative. *)
Ltac zlen_lia :=
  repeat match goal with
  | l : list _ |- _ =>
      lazymatch goal with
      | _ : 0 ≤ zlen l |- _ => fail
      | _ => pose proof (zlen_nonneg l)
      end
  end;
  autorewrite with zlen in *; try lia.

(** ** Big-endian integers *)
Section big_endian.
Lemma length_to_be n v : length (to_be n v) = n.
Proof. induction n; simpl; auto. Qed.

Lemma zlen_to_be n v : zlen (to_be n v) = Z.of_nat n.
Proof. unfold zlen. by rewrite length_to_be. Qed.

Lemma to_be_ok n v : bytes_ok (to_be n v).
Proof.
  induction n as [|n IH]; simpl; constructor; [|done].
  unfold fits. pose proof (Z.mod_pos_bound (v / 256 ^ Z.of_nat n) 256). lia.
Qed.

Lemma from_be_acc l acc :
  fold_left (λ a b, a * 256 + b) l acc = acc * 256 ^ zlen l + from_be l.
Proof.
  unfold from_be. revert acc.
  induction l as [|b l IH]; intros acc.
  - simpl. rewrite zlen_nil. lia.
  - cbn [fold_left]. rewrite (IH (acc * 256 + b)), (IH (0 * 256 + b)), zlen_cons.
    rewrite Z.pow_add_r by (pose proof (zlen_nonneg l); lia). lia.
Qed.

Lemma from_be_cons b l : from_be (b :: l) = b * 256 ^ zlen l + from_be l.
Proof. unfold from_be at 1. cbn [fold_left]. by rewrite from_be_acc. Qed.

Lemma from_be_bound l : bytes_ok l → 0 ≤ from_be l < 256 ^ zlen l.
Proof.
  induction l as [|b l IH]; intros Hok; [cbv; split; congruence|].
  apply Forall_cons in Hok as [Hb Hl]. specialize (IH Hl).
  rewrite from_be_cons, zlen_cons.
  pose proof (zlen_nonneg l).
  rewrite Z.pow_add_r by lia. unfold fits in Hb.
  assert (0 < 256 ^ zlen l) by (apply Z.pow_pos_nonneg; lia). nia.
Qed.

(** Reading back the bytes of a value that fits gives the value. *)
Lemma from_to_be n v : 0 ≤ v < 256 ^ Z.of_nat n → from_be (to_be n v) = v.
Proof.
  assert (Hmod : ∀ n v, 0 ≤ v → from_be (to_be n v) = v mod 256 ^ Z.of_nat n).
  { clear. induction n as [|n IH]; intros v Hv.
    - simpl. by rewrite Z.mod_1_r.
    - cbn [to_be]. rewrite from_be_cons, IH, zlen_to_be by done.
      rewrite Nat2Z.inj_succ, Z.pow_succ_r by lia.
      rewrite (Z.mul_comm 256).
      rewrite Z.rem_mul_r by (try apply Z.pow_nonzero; try apply Z.pow_pos_nonneg; lia).
      lia. }
  intros. rewrite Hmod by lia. by apply Z.mod_small.
Qed.

(** The bytes of a value do not depend on what is above them. *)
Lemma to_be_high m k c r :
  (k ≤ m)%nat → to_be k (c * 256 ^ Z.of_nat m + r) = to_be k r.
Proof.
  induction k as [|k IHk]; intros Hk; [done|].
  cbn [to_be]. f_equal; [|apply IHk; lia].
  replace (256 ^ Z.of_nat m) with
    (256 ^ Z.of_nat (m - S k) * 256 * 256 ^ Z.of_nat k).
  2: { rewrite <- Z.mul_assoc, <- Z.pow_succ_r, <- Z.pow_add_r by lia.
       f_equal. lia. }
  rewrite !Z.mul_assoc, Z.div_add_l by (apply Z.pow_nonzero; lia).
  by rewrite Z.add_comm, Z.mod_add by lia.
Qed.

Lemma to_from_be l : bytes_ok l → to_be (length l) (from_be l) = l.
Proof.
  induction l as [|b l IH]; intros Hok; [done|].
  apply Forall_cons in Hok as [Hb Hl].
  pose proof (from_be_bound l Hl) as Hbnd. unfold zlen in Hbnd.
  cbn [length to_be]. rewrite from_be_cons. unfold zlen, fits in *.
  assert (0 < 256 ^ Z.of_nat (length l)) by (apply Z.pow_pos_nonneg; lia).
  rewrite to_be_high, IH by done. f_equal.
  rewrite Z.div_add_l, (Z.div_small (from_be l)) by lia.
  rewrite Z.add_0_r. apply Z.mod_small. lia.
Qed.
End big_endian.

(** ** Arithmetic helpers *)
Lemma checked_add_Some max a b c :
  checked_add max a b = Some c ↔ c = a + b ∧ a + b ≤ max.
Proof. unfold checked_add. case_match; breflect; naive_solver lia. Qed.

Lemma checked_add_None max a b : checked_add max a b = None ↔ max < a + b.
Proof. unfold checked_add. case_match; breflect; naive_solver lia. Qed.

(** ** Sums over finite maps

    The byte counters of the windows, stores and reassemblers are sums over a
    map; [map_sum f m] is the sum the counter should hold. *)
Definition map_sum `{Countable K} {A} (f : A → Z) (m : gmap K A) : Z :=
  map_fold (λ _ a acc, f a + acc) 0 m.

Section map_sum.
Context `{Countable K} {A : Type} (f : A → Z).
Implicit Types m : gmap K A.

Lemma map_sum_empty : map_sum f (∅ : gmap K A) = 0.
Proof. apply map_fold_empty. Qed.

Lemma map_sum_insert_new m k a :
  m !! k = None → map_sum f (<[k := a]> m) = f a + map_sum f m.
Proof.
  intros Hk. unfold map_sum. rewrite map_fold_insert_L; [done| |done]. intros. lia.
Qed.

Lemma map_sum_delete m k a :
  m !! k = Some a → map_sum f (delete k m) = map_sum f m - f a.
Proof.
  intros Hk. rewrite <- (insert_delete_id m k a Hk) at 2.
  rewrite map_sum_insert_new by apply lookup_delete_eq. lia.
Qed.

Lemma map_sum_insert m k a :
  map_sum f (<[k := a]> m) = f a + map_sum f m - default 0 (f <$> m !! k).
Proof.
  destruct (m !! k) as [b|] eqn:E; cbn.
  - rewrite <- insert_delete_eq, map_sum_insert_new by apply lookup_delete_eq.
    rewrite (map_sum_delete m k b E). lia.
  - rewrite map_sum_insert_new by done. lia.
Qed.

Lemma map_sum_filter (P : K * A → Prop) `{∀ x, Decision (P x)} m :
  map_sum f (filter P m) + map_sum f (filter (λ x, ¬ P x) m) = map_sum f m.
Proof.
  induction m as [|k a m Hk IH] using map_ind.
  - by rewrite !map_filter_empty, map_sum_empty.
  - rewrite (map_sum_insert_new m k a) by done. destruct (decide (P (k, a))).
    + rewrite (map_filter_insert_True P) by done.
      rewrite (map_filter_insert_False (λ x, ¬ P x)), delete_id by auto.
      rewrite map_sum_insert_new; [lia|]. apply map_lookup_filter_None. auto.
    + rewrite (map_filter_insert_True (λ x, ¬ P x)) by done.
      rewrite (map_filter_insert_False P), delete_id by done.
      rewrite map_sum_insert_new; [lia|]. apply map_lookup_filter_None. auto.
Qed.

Lemma map_sum_nonneg m : (∀ k a, m !! k = Some a → 0 ≤ f a) → 0 ≤ map_sum f m.
Proof.
  revert m. apply (map_ind (λ m, (∀ k a, m !! k = Some a → 0 ≤ f a) → 0 ≤ map_sum f m)).
  - intros _. by rewrite map_sum_empty.
  - intros k a m Hk IH Hall. rewrite map_sum_insert_new by done.
    pose proof (Hall k a (lookup_insert_eq _ _ _)).
    enough (0 ≤ map_sum f m) by lia. apply IH.
    intros k' a' Hk'. apply (Hall k' a').
    rewrite lookup_insert_ne; [done|]. intros ->. congruence.
Qed.

Lemma map_sum_ge m k a :
  (∀ k a, m !! k = Some a → 0 ≤ f a) → m !! k = Some a → f a ≤ map_sum f m.
Proof.
  intros Hall Hk. pose proof (map_sum_delete m k a Hk) as Hd.
  enough (0 ≤ map_sum f (delete k m)) by lia. apply map_sum_nonneg.
  intros k' a' [_ Hk']%lookup_delete_Some. eauto.
Qed.
End map_sum.

(** ** Slices of concatenations *)
Lemma slice_app_eq {A} (a b : Z) (l k m : list A) :
  zlen l = a → b = a + zlen k → slice a b (l ++ k ++ m) = k.
Proof. intros <- ->. apply slice_app. Qed.

Lemma slice_app_end {A} (a b : Z) (l k : list A) :
  zlen l = a → b = a + zlen k → slice a b (l ++ k) = k.
Proof. intros. rewrite <- (app_nil_r k) at 1. by apply slice_app_eq. Qed.

Lemma slice_app_start {A} (b : Z) (k m : list A) : b = zlen k → slice 0 b (k ++ m) = k.
Proof. intros ->. by apply (slice_app_eq 0 _ []). Qed.

Lemma skipn_app_eq {A} (n : Z) (l k : list A) :
  zlen l = n → skipn (Z.to_nat n) (l ++ k) = k.
Proof. intros <-. unfold zlen. rewrite Nat2Z.id. apply drop_app_length. Qed.

#[global] Arguments to_be : simpl never.
#[global] Arguments from_be : simpl never.
#[global] Arguments slice : simpl never.
#[global] Arguments zlen : simpl never.

(** Bytes are checked by evaluation. *)
Lemma bytes_okb l : forallb (λ b, (0 <=? b) && (b <? 256)) l = true → bytes_ok l.
Proof.
  intros H. apply Forall_forall. intros x Hx. apply list_elem_of_In in Hx.
  rewrite forallb_forall in H. apply H in Hx. breflect. unfold fits. lia.
Qed.
