(* ===== verification/Digits.v ===== *)
(** * Digit strings

    Numbers written in a base that is a power of two, and the accumulator with
    which the text codecs of the router (base 32 addresses, base 64 keys) repack
    digits of one width as digits of another: new digits are shifted in at the low
    end of a 32-bit word, complete ones are read off above the bits that are left. *)
From S2P Require Import Prelude.

(** The number with the digits [ds] of [k] bits, the highest first. *)
Definition radix_value (k : Z) (ds : list Z) : Z := fold_left (λ acc d, acc * 2 ^ k + d) ds 0.

Lemma radix_value_snoc k ds d : radix_value k (ds ++ [d]) = radix_value k ds * 2 ^ k + d.
Proof. unfold radix_value. by rewrite fold_left_app. Qed.
Lemma radix_value_bytes l : radix_value 8 l = from_be l.
Proof. done. Qed.

Lemma radix_value_inj k ds es : 0 ≤ k → Forall (fits k) ds → Forall (fits k) es → length ds = length es →
  radix_value k ds = radix_value k es → ds = es.
Proof.
  intros Hk. revert es. induction ds as [|d ds IH] using rev_ind; intros es Hds Hes Hl Hv.
  - by destruct es.
  - destruct es as [|e es _] using rev_ind; [rewrite length_app in Hl; cbn in Hl; lia|]. rewrite !length_app in Hl. cbn in Hl.
    rewrite !radix_value_snoc in Hv. apply Forall_app in Hds as [Hds [Hd _]%Forall_cons]. apply Forall_app in Hes as [Hes [He _]%Forall_cons].
    unfold fits in Hd, He. assert (0 < 2 ^ k) by (apply Z.pow_pos_nonneg; lia).
    rewrite !(Z.mul_comm (radix_value k _)) in Hv.
    destruct (Z.div_mod_unique (2 ^ k) (radix_value k ds) (radix_value k es) d e) as [Hq ->]; [lia..|]. f_equal. apply IH; (done || lia).
Qed.

(** A digit below the bits of a shifted word. *)
Lemma lor_low k y d : 0 ≤ k → 0 ≤ d < 2 ^ k → Z.lor (y * 2 ^ k) d = y * 2 ^ k + d.
Proof.
  intros Hk Hd. assert (Hl : Z.land (y * 2 ^ k) d = 0).
  { apply Z.bits_inj'. intros n Hn. rewrite Z.land_spec, Z.bits_0.
    destruct (decide (n < k)); [by rewrite Z.mul_pow2_bits_low|].
    rewrite <- (Z.mod_small d (2 ^ k)), Z.mod_pow2_bits_high by lia. apply andb_false_r. }
  by rewrite <- Z.lxor_lor, <- Z.add_nocarry_lxor.
Qed.

(** Shifting a digit into a 32-bit word keeps the low bits, whatever falls out at
    the high end. *)
Lemma shift_in k acc d bits : 0 ≤ acc → 0 ≤ k → 0 ≤ d < 2 ^ k → 0 ≤ bits → bits + k ≤ 32 →
  let acc' := Z.lor (Z.shiftl acc k mod 2 ^ 32) d in
  0 ≤ acc' < 2 ^ 32 ∧ acc' mod 2 ^ (bits + k) = acc mod 2 ^ bits * 2 ^ k + d.
Proof.
  intros Ha Hk Hd Hb Hw acc'. assert (Hpk : 0 < 2 ^ k) by (apply Z.pow_pos_nonneg; lia).
  assert (Hpb : 0 < 2 ^ bits) by (apply Z.pow_pos_nonneg; lia).
  assert (H32 : 2 ^ 32 = 2 ^ (32 - k) * 2 ^ k) by (rewrite <- Z.pow_add_r by lia; f_equal; lia).
  assert (Hpr : 0 < 2 ^ (32 - k)) by (apply Z.pow_pos_nonneg; lia).
  assert (E : acc' = acc mod 2 ^ (32 - k) * 2 ^ k + d).
  { unfold acc'. rewrite <- lor_low by done. f_equal. rewrite Z.shiftl_mul_pow2, H32 by lia. apply Z.mul_mod_distr_r; lia. }
  pose proof (Z.mod_pos_bound acc (2 ^ (32 - k)) Hpr). split; [rewrite E, H32; nia|].
  rewrite Z.pow_add_r, E by lia. symmetry. pose proof (Z.mod_pos_bound acc (2 ^ bits) Hpb).
  apply (Z.mod_unique_pos _ _ (acc mod 2 ^ (32 - k) / 2 ^ bits)); [nia|].
  assert (Hm : acc mod 2 ^ bits = (acc mod 2 ^ (32 - k)) mod 2 ^ bits).
  { symmetry. apply Z.mod_mod_divide. exists (2 ^ (32 - k - bits)). rewrite <- Z.pow_add_r by lia. f_equal. lia. }
  rewrite Hm. pose proof (Z.div_mod (acc mod 2 ^ (32 - k)) (2 ^ bits) ltac:(lia)). nia.
Qed.

(** Reading a digit above the low bits of a word. *)
Lemma shift_out k acc bits : 0 ≤ k → 0 ≤ bits →
  let digit := Z.land (Z.shiftr acc bits) (Z.ones k) in
  fits k digit ∧ acc mod 2 ^ (bits + k) = digit * 2 ^ bits + acc mod 2 ^ bits.
Proof.
  intros Hk Hb digit. assert (Hpk : 0 < 2 ^ k) by (apply Z.pow_pos_nonneg; lia).
  assert (Hpb : 0 < 2 ^ bits) by (apply Z.pow_pos_nonneg; lia).
  assert (Hd : digit = (acc / 2 ^ bits) mod 2 ^ k) by (unfold digit; by rewrite Z.land_ones, Z.shiftr_div_pow2).
  rewrite Hd. split; [apply Z.mod_pos_bound; lia|]. rewrite Z.pow_add_r, Z.rem_mul_r by lia. lia.
Qed.

(** ** Repacking

    After the digits [ds] of [k] bits: the digits [out] of [j] bits and the low
    [bits] bits of the accumulator hold the same number. *)
Record packed (k j : Z) (ds : list Z) (acc bits : Z) (out : list Z) : Prop := {
  pk_word : 0 ≤ acc < 2 ^ 32;
  pk_bits : 0 ≤ bits;
  pk_length : j * zlen out + bits = k * zlen ds;
  pk_digits : Forall (fits j) out;
  pk_value : radix_value j out * 2 ^ bits + acc mod 2 ^ bits = radix_value k ds;
}.

Lemma packed_nil k j : packed k j [] 0 0 [].
Proof. split; rewrite ?zlen_nil; try done; lia. Qed.
Lemma packed_in k j ds acc bits out d : 0 ≤ k → packed k j ds acc bits out → fits k d → bits + k ≤ 32 →
  packed k j (ds ++ [d]) (Z.lor (Z.shiftl acc k mod 2 ^ 32) d) (bits + k) out.
Proof.
  intros Hk [Hw Hb Hl Hd Hv] Hf H32. destruct (shift_in k acc d bits) as [Hw' Hm]; [done || lia..|]. split; [done|lia| |done|].
  - rewrite zlen_app, zlen_one. lia.
  - rewrite Hm, radix_value_snoc, <- Hv, Z.pow_add_r by lia. lia.
Qed.
Lemma packed_out k j ds acc bits out : 0 ≤ j → packed k j ds acc bits out → j ≤ bits →
  packed k j ds acc (bits - j) (out ++ [Z.land (Z.shiftr acc (bits - j)) (Z.ones j)]).
Proof.
  intros Hj [Hw Hb Hl Hd Hv] Hge. destruct (shift_out j acc (bits - j)) as [Hf Hm]; [lia..|]. rewrite Z.sub_add in Hm. split; [done|lia| | |].
  - rewrite zlen_app, zlen_one. lia.
  - apply Forall_app. split; [done|]. by constructor.
  - rewrite radix_value_snoc, <- Hv, Hm. replace (2 ^ bits) with (2 ^ j * 2 ^ (bits - j)); [lia|].
    rewrite <- Z.pow_add_r by lia. f_equal. lia.
Qed.
