(* ===== verification/Utf8.v ===== *)
(** * UTF-8 and UTF-16 as Rust's standard library defines them

    [str] values are modelled by their UTF-8 bytes.  This file gives the
    pieces of the standard library the protocol code calls on them:
    [str::from_utf8] (validity), [str::chars], [char::is_control] and
    [str::encode_utf16]. *)
From S2P Require Import Prelude.

(** A continuation byte, [10xxxxxx]. *)
Definition utf8_cont (b : Z) : bool := (0x80 <=? b) && (b <=? 0xBF).

Definition between (lo b hi : Z) : bool := (lo <=? b) && (b <=? hi).

(** [str::chars]: the scalar values of a byte string, [None] when the bytes
    are not well-formed UTF-8 (overlong forms, surrogates and values above
    [U+10FFFF] are not). *)
Fixpoint utf8_decode (l : bytes) : option (list Z) :=
  match l with
  | [] => Some []
  | b0 :: t0 =>
    if b0 <? 0x80 then cons b0 <$> utf8_decode t0
    else match t0 with
    | [] => None
    | b1 :: t1 =>
      if between 0xC2 b0 0xDF && utf8_cont b1
      then cons ((b0 - 0xC0) * 64 + (b1 - 0x80)) <$> utf8_decode t1
      else match t1 with
      | [] => None
      | b2 :: t2 =>
        if (((b0 =? 0xE0) && between 0xA0 b1 0xBF)
            || (between 0xE1 b0 0xEC && utf8_cont b1)
            || ((b0 =? 0xED) && between 0x80 b1 0x9F)
            || (between 0xEE b0 0xEF && utf8_cont b1)) && utf8_cont b2
        then cons ((b0 - 0xE0) * 4096 + (b1 - 0x80) * 64 + (b2 - 0x80)) <$> utf8_decode t2
        else match t2 with
        | [] => None
        | b3 :: t3 =>
          if (((b0 =? 0xF0) && between 0x90 b1 0xBF)
              || (between 0xF1 b0 0xF3 && utf8_cont b1)
              || ((b0 =? 0xF4) && between 0x80 b1 0x8F))
             && utf8_cont b2 && utf8_cont b3
          then cons ((b0 - 0xF0) * 262144 + (b1 - 0x80) * 4096
                     + (b2 - 0x80) * 64 + (b3 - 0x80)) <$> utf8_decode t3
          else None
        end
      end
    end
  end.

(** [str::from_utf8]: the bytes themselves when they are valid. *)
Definition from_utf8 (l : bytes) : option bytes :=
  match utf8_decode l with Some _ => Some l | None => None end.

Definition valid_utf8 (l : bytes) : Prop := is_Some (utf8_decode l).
#[global] Instance valid_utf8_dec l : Decision (valid_utf8 l).
Proof. unfold valid_utf8. apply _. Defined.

(** [str::chars] on a valid string. *)
Definition chars (s : bytes) : list Z := default [] (utf8_decode s).

(** [char::is_control]: the Unicode general category Cc. *)
Definition is_control (c : Z) : bool := between 0 c 0x1F || between 0x7F c 0x9F.

(** [str::encode_utf16]. *)
Definition utf16_units (c : Z) : list Z :=
  if c <? 0x10000 then [c]
  else [0xD800 + (c - 0x10000) / 1024; 0xDC00 + (c - 0x10000) mod 1024].
Definition encode_utf16 (s : bytes) : list Z := flat_map utf16_units (chars s).

Lemma from_utf8_valid l : valid_utf8 l → from_utf8 l = Some l.
Proof. intros [cs Hcs]. unfold from_utf8. by rewrite Hcs. Qed.

Lemma from_utf8_Some l k : from_utf8 l = Some k → k = l ∧ valid_utf8 l.
Proof.
  unfold from_utf8, valid_utf8. destruct (utf8_decode l); naive_solver.
Qed.

(** ** Distinct strings have distinct UTF-16 forms *)
Definition scalar (c : Z) : Prop := 0 ≤ c < 0xD800 ∨ 0xE000 ≤ c ≤ 0x10FFFF.

(** The UTF-8 form of a scalar value. *)
Definition utf8_char (c : Z) : bytes :=
  if c <? 0x80 then [c]
  else if c <? 0x800 then [0xC0 + c / 64; 0x80 + c mod 64]
  else if c <? 0x10000 then [0xE0 + c / 4096; 0x80 + c / 64 mod 64; 0x80 + c mod 64]
  else [0xF0 + c / 262144; 0x80 + c / 4096 mod 64; 0x80 + c / 64 mod 64; 0x80 + c mod 64].

(** Linear arithmetic with quotients and remainders by constants. *)
Ltac dlia := Z.to_euclidean_division_equations; lia.

Lemma utf8_char_2 b0 b1 :
  0xC2 ≤ b0 ≤ 0xDF → 0x80 ≤ b1 ≤ 0xBF →
  let c := (b0 - 0xC0) * 64 + (b1 - 0x80) in utf8_char c = [b0; b1] ∧ scalar c.
Proof.
  intros H0 H1 c. unfold utf8_char, scalar. subst c.
  destruct (_ <? 0x80) eqn:E1; breflect; [lia|]. destruct (_ <? 0x800) eqn:E2; breflect; [|lia].
  split; [f_equal; [dlia|f_equal; dlia]|lia].
Qed.

Lemma utf8_char_3 b0 b1 b2 :
  0xE0 ≤ b0 ≤ 0xEF → 0x80 ≤ b1 ≤ 0xBF → 0x80 ≤ b2 ≤ 0xBF →
  let c := (b0 - 0xE0) * 4096 + (b1 - 0x80) * 64 + (b2 - 0x80) in
  0x800 ≤ c → ¬ 0xD800 ≤ c ≤ 0xDFFF → utf8_char c = [b0; b1; b2] ∧ scalar c.
Proof.
  intros H0 H1 H2 c Hc Hs. unfold utf8_char, scalar.
  destruct (_ <? 0x80) eqn:E1; breflect; [lia|]. destruct (_ <? 0x800) eqn:E2; breflect; [lia|].
  destruct (_ <? 0x10000) eqn:E3; breflect; [|lia]. subst c.
  assert (Hd : ((b0 - 0xE0) * 4096 + (b1 - 0x80) * 64 + (b2 - 0x80)) / 64 =
    (b0 - 0xE0) * 64 + (b1 - 0x80)) by dlia.
  split; [|lia]. rewrite Hd. f_equal; [dlia|]. f_equal; [dlia|f_equal; dlia].
Qed.

Lemma utf8_char_4 b0 b1 b2 b3 :
  0xF0 ≤ b0 ≤ 0xF4 → 0x80 ≤ b1 ≤ 0xBF → 0x80 ≤ b2 ≤ 0xBF → 0x80 ≤ b3 ≤ 0xBF →
  let c := (b0 - 0xF0) * 262144 + (b1 - 0x80) * 4096 + (b2 - 0x80) * 64 + (b3 - 0x80) in
  0x10000 ≤ c ≤ 0x10FFFF → utf8_char c = [b0; b1; b2; b3] ∧ scalar c.
Proof.
  intros H0 H1 H2 H3 c Hc. unfold utf8_char, scalar.
  destruct (_ <? 0x80) eqn:E1; breflect; [lia|]. destruct (_ <? 0x800) eqn:E2; breflect; [lia|].
  destruct (_ <? 0x10000) eqn:E3; breflect; [lia|]. subst c. split; [|lia].
  f_equal; [dlia|]. f_equal; [dlia|]. f_equal; [dlia|f_equal; dlia].
Qed.

Lemma utf8_decode_encode l cs :
  bytes_ok l → utf8_decode l = Some cs → l = flat_map utf8_char cs ∧ Forall scalar cs.
Proof.
  remember (length l) as n eqn:Hn. revert l cs Hn.
  induction n as [n IH] using lt_wf_ind. intros l cs Hn Hok.
  assert (Hstep : ∀ c w t, l = w ++ t → (0 < length w)%nat → utf8_char c = w → scalar c →
    cons c <$> utf8_decode t = Some cs → l = flat_map utf8_char cs ∧ Forall scalar cs).
  { intros c w t -> Hw Hc Hs. rewrite fmap_Some. intros (cs' & Hd & ->).
    apply Forall_app in Hok as [_ Hok].
    destruct (IH (length t)) with (l := t) (cs := cs') as [Ht Hf];
      [subst n; rewrite length_app; lia|done..|].
    cbn [flat_map]. rewrite Hc. split; [by rewrite <- Ht|by constructor]. }
  destruct l as [|b0 t0]; [by intros [= <-]|]. cbn [utf8_decode].
  apply Forall_cons in Hok as [Hb0 _]. unfold fits in Hb0.
  destruct (b0 <? 0x80) eqn:E0; breflect.
  { apply (Hstep b0 [b0] t0); [done|cbn; lia| |unfold scalar; lia].
    unfold utf8_char. destruct (b0 <? 0x80) eqn:E; breflect; [done|lia]. }
  destruct t0 as [|b1 t1]; [done|]. unfold utf8_cont, between.
  destruct (_ && _) eqn:E1; breflect.
  { destruct (utf8_char_2 b0 b1); [lia..|]. by apply (Hstep _ [b0; b1] t1); [|cbn; lia|..]. }
  destruct t1 as [|b2 t2]; [done|].
  match goal with |- context [if ?b then _ else _] => destruct b eqn:E2 end.
  { apply andb_true_iff in E2 as [E2 E3]. rewrite !orb_true_iff in E2.
    destruct (utf8_char_3 b0 b1 b2); [..|by apply (Hstep _ [b0; b1; b2] t2); [|cbn; lia|..]];
      destruct E2 as [[[E2|E2]|E2]|E2]; breflect; lia. }
  destruct t2 as [|b3 t3]; [done|].
  match goal with |- context [if ?b then _ else _] => destruct b eqn:E3 end; [|done].
  apply andb_true_iff in E3 as [E3 E5]. apply andb_true_iff in E3 as [E3 E4].
  rewrite !orb_true_iff in E3.
  destruct (utf8_char_4 b0 b1 b2 b3); [..|by apply (Hstep _ [b0; b1; b2; b3] t3); [|cbn; lia|..]];
    destruct E3 as [[E3|E3]|E3]; breflect; lia.
Qed.

(** The UTF-16 units determine the scalar values. *)
Lemma utf16_units_inj cs1 cs2 :
  Forall scalar cs1 → Forall scalar cs2 →
  flat_map utf16_units cs1 = flat_map utf16_units cs2 → cs1 = cs2.
Proof.
  intros H1. revert cs2. induction H1 as [|c1 cs1 Hc1 _ IH]; intros cs2 H2.
  - destruct H2 as [|c2 cs2 _ _]; [done|]. cbn [flat_map]. unfold utf16_units.
    by destruct (c2 <? _).
  - destruct H2 as [|c2 cs2 Hc2 H2]; cbn [flat_map].
    { unfold utf16_units. by destruct (c1 <? _). }
    unfold scalar in *. unfold utf16_units at 1 3.
    destruct (c1 <? 0x10000) eqn:E1, (c2 <? 0x10000) eqn:E2; breflect; cbn [app].
    + intros [= -> Heq]. f_equal. by apply IH.
    + intros [= Heq _]. dlia.
    + intros [= Heq _]. dlia.
    + intros [= Hq Hr Heq]. f_equal; [dlia|by apply IH].
Qed.

Lemma encode_utf16_inj s1 s2 :
  bytes_ok s1 → bytes_ok s2 → valid_utf8 s1 → valid_utf8 s2 →
  encode_utf16 s1 = encode_utf16 s2 → s1 = s2.
Proof.
  intros Hb1 Hb2 [cs1 H1] [cs2 H2]. unfold encode_utf16, chars. rewrite H1, H2. cbn [default].
  apply utf8_decode_encode in H1 as [-> Hf1]; [|done].
  apply utf8_decode_encode in H2 as [-> Hf2]; [|done].
  intros Heq. f_equal. by apply utf16_units_inj.
Qed.
