(* ===== verification/Base32.v ===== *)
(** * Base 32 addresses

    Models [crates/i2pr-proto/src/common/base32.rs]: unpadded base 32, the CRC-32
    of the first bytes, and the addresses of encrypted services in their one-byte
    and two-byte forms.  Text is a list of code points. *)
From S2P Require Import Prelude Digits.

Definition text_of (s : string) : list Z := (λ a, Z.of_N (Ascii.N_of_ascii a)) <$> String.list_ascii_of_string s.

Definition B32_SUFFIX : list Z := Eval vm_compute in text_of ".b32.i2p".
Definition B32_HASH_CHARS : Z := 52.
Definition B32_HASH_DECODED_LEN : Z := 32.
Definition B32_SERVICE_CHARS : Z := 56.
Definition B32_SERVICE_DECODED_LEN : Z := 35.
Definition B32_SERVICE_WIDE_CHARS : Z := 60.
Definition B32_SERVICE_WIDE_DECODED_LEN : Z := 37.
Definition B32_SERVICE_KEY_LEN : Z := 32.
Definition ALPHABET : list Z := Eval vm_compute in text_of "abcdefghijklmnopqrstuvwxyz234567".

Inductive Base32Error :=
  | MissingSuffix
  | UnexpectedLength (actual : Z) (expected : string)
  | InvalidCharacter (index : Z)
  | NonCanonicalTrailingBits
  | NonCanonicalEncoding
  | ReservedFlagSet (mask : Z)
  | SigtypeWidthMismatch
  | UnsupportedUnblindedSigtype (value : Z)
  | UnsupportedBlindedSigtype (value : Z)
  | SigtypeTooWide (value : Z)
  | PublicKeyLength (actual expected : Z).

Definition B32_FLAG_WIDE_SIGTYPES : Z := 0x01.
Definition B32_FLAG_REQUIRES_BLINDING_SECRET : Z := 0x02.
Definition B32_FLAG_REQUIRES_CLIENT_KEY : Z := 0x04.
Definition B32_FLAG_RESERVED_MASK : Z := 0xf8.
Definition B32_UNBLINDED_SIGTYPE_ED25519 : Z := 7.
Definition B32_UNBLINDED_SIGTYPE_RED25519 : Z := 11.
Definition B32_BLINDED_SIGTYPE : Z := 11.

(** ** The checksum *)
(** [0_u32.wrapping_sub(crc & 1)] is all ones or zero. *)
Definition crc32_bit (crc : Z) : Z :=
  let mask := (0 - Z.land crc 1) mod 2 ^ 32 in
  Z.lxor (Z.shiftr crc 1) (Z.land 0xedb88320 mask).
Definition crc32_byte (crc byte : Z) : Z := Nat.iter 8 crc32_bit (Z.lxor crc byte).
Definition crc32 (data : bytes) : Z := Z.lxor (fold_left crc32_byte data 0xffffffff) 0xffffffff.

(** ** Base 32 *)
(** [while bits >= 5]; every round takes five bits. *)
Fixpoint emit_digits (fuel : nat) (accumulator bits : Z) (out : list Z) : Z * list Z :=
  match fuel with
  | O => (bits, out)
  | S fuel' =>
      if bits >=? 5 then
        let bits := bits - 5 in
        emit_digits fuel' accumulator bits (out ++ [nth (Z.to_nat (Z.land (Z.shiftr accumulator bits) 0x1f)) ALPHABET 0])
      else (bits, out)
  end.
Fixpoint base32_encode_loop (input : bytes) (accumulator bits : Z) (out : list Z) : Z * Z * list Z :=
  match input with
  | [] => (accumulator, bits, out)
  | byte :: rest =>
      let accumulator := Z.lor (Z.shiftl accumulator 8 mod 2 ^ 32) byte in
      let bits := bits + 8 in
      let '(bits, out) := emit_digits (Z.to_nat bits) accumulator bits out in
      base32_encode_loop rest accumulator bits out
  end.
Definition base32_encode (input : bytes) : list Z :=
  let '(accumulator, bits, out) := base32_encode_loop input 0 0 [] in
  if bits >? 0 then out ++ [nth (Z.to_nat (Z.land (Z.shiftl accumulator (5 - bits) mod 2 ^ 32) 0x1f)) ALPHABET 0] else out.

Definition to_ascii_lowercase (c : Z) : Z := if (65 <=? c) && (c <=? 90) then c + 32 else c.
(** The cast to [u8] keeps the low byte of the code point. *)
Definition base32_value (character : Z) : option Z :=
  let lowered := to_ascii_lowercase character mod 256 in
  (λ found, Z.of_nat found.1) <$> list_find (λ candidate, candidate = lowered) ALPHABET.

Fixpoint decode_loop (index : Z) (text : list Z) (accumulator bits : Z) (out : bytes) : result Base32Error (Z * Z * bytes) :=
  match text with
  | [] => Ok (accumulator, bits, out)
  | character :: rest =>
      value ← ok_or (InvalidCharacter index) (base32_value character);
      let accumulator := Z.lor (Z.shiftl accumulator 5 mod 2 ^ 32) value in
      let bits := bits + 5 in
      if bits >=? 8 then
        let bits := bits - 8 in
        decode_loop (index + 1) rest accumulator bits (out ++ [Z.land (Z.shiftr accumulator bits) 0xff])
      else decode_loop (index + 1) rest accumulator bits out
  end.
Definition base32_decode (text : list Z) (expected_decoded_len : Z) : result Base32Error bytes :=
  let expected_chars := ((expected_decoded_len * 8) mod 2 ^ 64 + 4) / 5 in
  if negb (zlen text =? expected_chars)
  then Err (UnexpectedLength (zlen text) "a form whose length matches the requested decoded size")
  else
  '(accumulator, bits, out) ← decode_loop 0 text 0 0 [];
  if (bits >? 0) && negb (Z.land accumulator (Z.shiftl 1 bits - 1) =? 0) then Err NonCanonicalTrailingBits
  else if negb (zlen out =? expected_decoded_len)
  then Err (UnexpectedLength (zlen out) "a form whose length matches the requested decoded size")
  else Ok out.

(** ** Addresses of encrypted services *)
Record EncryptedServiceAddress := mkService {
  sa_flags : Z;
  sa_unblinded_sigtype : Z;
  sa_blinded_sigtype : Z;
  sa_public_key : bytes;
}.

Definition check_sigtypes (unblinded_sigtype blinded_sigtype : Z) : result Base32Error () :=
  if negb (unblinded_sigtype =? B32_UNBLINDED_SIGTYPE_ED25519) && negb (unblinded_sigtype =? B32_UNBLINDED_SIGTYPE_RED25519)
  then Err (UnsupportedUnblindedSigtype unblinded_sigtype)
  else if negb (blinded_sigtype =? B32_BLINDED_SIGTYPE) then Err (UnsupportedBlindedSigtype blinded_sigtype)
  else Ok ().
Definition service_address_new (unblinded_sigtype blinded_sigtype : Z) (public_key : bytes)
    (requires_blinding_secret requires_client_key : bool) : result Base32Error EncryptedServiceAddress :=
  _ ← check_sigtypes unblinded_sigtype blinded_sigtype;
  let flags := 0 in
  let flags := if requires_blinding_secret then Z.lor flags B32_FLAG_REQUIRES_BLINDING_SECRET else flags in
  let flags := if requires_client_key then Z.lor flags B32_FLAG_REQUIRES_CLIENT_KEY else flags in
  Ok (mkService flags unblinded_sigtype blinded_sigtype public_key).

(** The first three bytes, xored with the checksum of the others. *)
Definition fold_checksum (data : bytes) : bytes :=
  match data with
  | d0 :: d1 :: d2 :: rest =>
      let checksum := crc32 rest in
      Z.lxor d0 (Z.land checksum 0xff) :: Z.lxor d1 (Z.land (Z.shiftr checksum 8) 0xff) ::
      Z.lxor d2 (Z.land (Z.shiftr checksum 16) 0xff) :: rest
  | _ => data
  end.
Definition NOT_WIDE : Z := Z.lxor B32_FLAG_WIDE_SIGTYPES 0xff.
Definition to_text (a : EncryptedServiceAddress) : result Base32Error (list Z) :=
  if sa_unblinded_sigtype a >? 255 then Err (SigtypeTooWide (sa_unblinded_sigtype a))
  else
  let data := Z.land (sa_flags a) NOT_WIDE :: sa_unblinded_sigtype a mod 256 :: sa_blinded_sigtype a mod 256 :: sa_public_key a in
  Ok (base32_encode (fold_checksum data) ++ B32_SUFFIX).
Definition to_text_wide (a : EncryptedServiceAddress) : list Z :=
  let data := Z.lor (sa_flags a) B32_FLAG_WIDE_SIGTYPES :: Z.land (sa_unblinded_sigtype a) 0xff :: Z.shiftr (sa_unblinded_sigtype a) 8 mod 256 ::
    Z.land (sa_blinded_sigtype a) 0xff :: Z.shiftr (sa_blinded_sigtype a) 8 mod 256 :: sa_public_key a in
  base32_encode (fold_checksum data) ++ B32_SUFFIX.

Definition strip_suffix (suffix text : list Z) : option (list Z) :=
  let n := (length text - length suffix)%nat in
  if bool_decide (drop n text = suffix) then Some (take n text) else None.

(** The fields behind the checksum. *)
Definition read_sigtypes (wide : bool) (data : bytes) : Z * Z :=
  if wide then (Z.lor (nth 1 data 0) (Z.shiftl (nth 2 data 0) 8), Z.lor (nth 3 data 0) (Z.shiftl (nth 4 data 0) 8))
  else (nth 1 data 0, nth 2 data 0).
(** The address behind the checksum; it must be spelled the way it is written. *)
Definition read_address (wide : bool) (data lowered : list Z) : result Base32Error EncryptedServiceAddress :=
  let flags := nth 0 data 0 in
  if negb (Z.land flags B32_FLAG_RESERVED_MASK =? 0) then Err (ReservedFlagSet (Z.land flags B32_FLAG_RESERVED_MASK))
  else if negb (Bool.eqb (negb (Z.land flags B32_FLAG_WIDE_SIGTYPES =? 0)) wide) then Err SigtypeWidthMismatch
  else
  let '(unblinded_sigtype, blinded_sigtype) := read_sigtypes wide data in
  _ ← check_sigtypes unblinded_sigtype blinded_sigtype;
  let key_offset := if wide then 5%nat else 3%nat in
  let public_key : bytes := drop key_offset data in
  if negb (zlen public_key =? B32_SERVICE_KEY_LEN)
  then Err (PublicKeyLength (saturating_sub (zlen data) (Z.of_nat key_offset)) B32_SERVICE_KEY_LEN)
  else
  let address := mkService (Z.land flags NOT_WIDE) unblinded_sigtype blinded_sigtype public_key in
  canonical ← (if wide then Ok (to_text_wide address) else to_text address);
  if bool_decide (canonical ≠ lowered) then Err NonCanonicalEncoding else Ok address.
Definition from_text (host : list Z) : result Base32Error EncryptedServiceAddress :=
  let lowered := to_ascii_lowercase <$> host in
  body ← ok_or MissingSuffix (strip_suffix B32_SUFFIX lowered);
  '(decoded_len, wide) ←
    (if zlen body =? B32_SERVICE_CHARS then Ok (B32_SERVICE_DECODED_LEN, false)
     else if zlen body =? B32_SERVICE_WIDE_CHARS then Ok (B32_SERVICE_WIDE_DECODED_LEN, true)
     else Err (UnexpectedLength (zlen body) "52, 56, or 60") : result Base32Error (Z * bool));
  decoded ← base32_decode body decoded_len;
  read_address wide (fold_checksum decoded) lowered.

Definition address_flags (a : EncryptedServiceAddress) : Z := Z.land (sa_flags a) NOT_WIDE.
Definition requires_blinding_secret (a : EncryptedServiceAddress) : bool := negb (Z.land (sa_flags a) B32_FLAG_REQUIRES_BLINDING_SECRET =? 0).
Definition requires_client_key (a : EncryptedServiceAddress) : bool := negb (Z.land (sa_flags a) B32_FLAG_REQUIRES_CLIENT_KEY =? 0).
Definition is_encrypted_service_address (host : list Z) : bool :=
  match strip_suffix B32_SUFFIX (to_ascii_lowercase <$> host) with
  | None => false
  | Some body => (zlen body =? B32_SERVICE_CHARS) || (zlen body =? B32_SERVICE_WIDE_CHARS)
  end.

(** ** The alphabet *)
Definition digit_char (d : Z) : Z := nth (Z.to_nat d) ALPHABET 0.
#[global] Arguments digit_char : simpl never.
(** What a character is compared as: the low byte of its lower case. *)
Definition folded (c : Z) : Z := to_ascii_lowercase c mod 256.
#[global] Arguments folded : simpl never.

Lemma digit_char_inj d e : fits 5 d → fits 5 e → digit_char d = digit_char e → d = e.
Proof.
  intros Hd He H. assert (Hc : forallb (λ d, forallb (λ e, negb (digit_char d =? digit_char e) || (d =? e)) (seqZ 0 32)) (seqZ 0 32) = true)
    by (vm_compute; reflexivity).
  rewrite forallb_forall in Hc. unfold fits in Hd, He. specialize (Hc d ltac:(apply list_elem_of_In, elem_of_seqZ; lia)).
  rewrite forallb_forall in Hc. specialize (Hc e ltac:(apply list_elem_of_In, elem_of_seqZ; lia)). rewrite H, Z.eqb_refl in Hc. by apply Z.eqb_eq.
Qed.
Lemma base32_value_Some c d : base32_value c = Some d ↔ fits 5 d ∧ folded c = digit_char d.
Proof.
  unfold base32_value. fold (folded c). split.
  - destruct (list_find _ _) as [[i x]|] eqn:E; [|done]. cbn. intros [= <-]. apply list_find_Some in E as (Hl & -> & _).
    pose proof (lookup_lt_Some _ _ _ Hl) as Hi. change (length ALPHABET) with 32%nat in Hi. split; [unfold fits; change (2 ^ 5) with 32; lia|].
    unfold digit_char. rewrite Nat2Z.id. symmetry. by apply nth_lookup_Some.
  - intros [Hd Hc]. assert (Hr : 0 ≤ d < 32) by exact Hd. destruct (lookup_lt_is_Some_2 ALPHABET (Z.to_nat d)) as [x Hx]; [change (length ALPHABET) with 32%nat; lia|].
    assert (digit_char d = x) as Hdx by (unfold digit_char; by apply nth_lookup_Some).
    destruct (list_find _ _) as [[i y]|] eqn:E.
    + cbn. f_equal. apply list_find_Some in E as (Hl & -> & _). pose proof (lookup_lt_Some _ _ _ Hl) as Hi. change (length ALPHABET) with 32%nat in Hi.
      apply digit_char_inj; [unfold fits; change (2 ^ 5) with 32; lia|done|]. rewrite <- Hc. unfold digit_char. rewrite Nat2Z.id. by apply nth_lookup_Some.
    + exfalso. apply list_find_None in E. rewrite Forall_lookup in E. apply (E _ _ Hx). congruence.
Qed.
Lemma base32_values text ds : mapM base32_value text = Some ds ↔ Forall (fits 5) ds ∧ folded <$> text = digit_char <$> ds.
Proof.
  rewrite mapM_Some. split.
  - induction 1 as [|c d text ds [Hd Hc]%base32_value_Some _ [IH1 IH2]]; [done|]. split; [by constructor|]. by rewrite !fmap_cons, Hc, IH2.
  - intros [Hf Hm]. revert text Hm. induction Hf as [|d ds Hd _ IH]; intros [|c text] Hm; try done. rewrite !fmap_cons in Hm. injection Hm as Hc Hm. constructor.
    + by apply base32_value_Some.
    + by apply IH.
Qed.

(** ** Encoding is exact *)
Lemma emit_digits_ok fuel bs acc bits es : packed 8 5 bs acc bits es → bits < 5 * (Z.of_nat fuel + 1) →
  ∃ bits' es', emit_digits fuel acc bits (digit_char <$> es) = (bits', digit_char <$> es') ∧ packed 8 5 bs acc bits' es' ∧ bits' < 5.
Proof.
  revert bits es. induction fuel as [|fuel IH]; intros bits es Hp Hf; cbn [emit_digits]; [eexists _, _; split; [done|]; split; [done|lia]|].
  destruct (bits >=? 5) eqn:E; breflect; [|eexists _, _; split; [done|]; split; [done|lia]].
  apply packed_out in Hp; [|lia..]. destruct (IH _ _ Hp ltac:(lia)) as (bits' & es' & He & Hp' & Hb). exists bits', es'. split; [|done].
  rewrite <- He, fmap_app. done.
Qed.
Lemma base32_encode_loop_ok rest bs acc bits es : packed 8 5 bs acc bits es → bits < 5 → bytes_ok rest →
  ∃ acc' bits' es', base32_encode_loop rest acc bits (digit_char <$> es) = (acc', bits', digit_char <$> es') ∧ packed 8 5 (bs ++ rest) acc' bits' es' ∧ bits' < 5.
Proof.
  revert bs acc bits es. induction rest as [|b rest IH]; intros bs acc bits es Hp Hb Hok; cbn [base32_encode_loop].
  { eexists _, _, _. split; [done|]. by rewrite app_nil_r. }
  apply Forall_cons in Hok as [Hfit Hok]. pose proof (pk_bits _ _ _ _ _ _ Hp). apply (packed_in 8 5 _ _ _ _ b) in Hp; [|lia|done|lia].
  destruct (emit_digits_ok (Z.to_nat (bits + 8)) _ _ _ _ Hp ltac:(lia)) as (bits' & es' & -> & Hp' & Hb').
  destruct (IH _ _ _ _ Hp' Hb' Hok) as (acc2 & bits2 & es2 & -> & Hp2 & Hb2). rewrite <- app_assoc in Hp2. by eexists _, _, _.
Qed.

(** The characters are the digits of the bytes, as one number, shifted by the bits
    that fill up the last digit. *)
Lemma base32_encode_spec bs : bytes_ok bs → ∃ ds, base32_encode bs = digit_char <$> ds ∧ Forall (fits 5) ds ∧
  zlen ds = (8 * zlen bs + 4) / 5 ∧ radix_value 5 ds = from_be bs * 2 ^ (5 * zlen ds - 8 * zlen bs).
Proof.
  intros Hok. unfold base32_encode. destruct (base32_encode_loop_ok bs [] 0 0 [] (packed_nil 8 5) ltac:(lia) Hok) as (acc & bits & es & He & Hp & Hb).
  change (digit_char <$> []) with (@nil Z) in He. rewrite He. cbn [app] in Hp. destruct Hp as [Hw Hb0 Hl Hd Hv]. rewrite radix_value_bytes in Hv.
  destruct (bits >? 0) eqn:E; breflect.
  - set (x := Z.land _ _). assert (Hx : x = acc mod 2 ^ bits * 2 ^ (5 - bits)).
    { unfold x. change 31 with (Z.ones 5). rewrite Z.land_ones, Z.shiftl_mul_pow2, Z.mod_mod_divide by (lia || (by exists (2 ^ 27))).
      replace (2 ^ 5) with (2 ^ bits * 2 ^ (5 - bits)) by (rewrite <- Z.pow_add_r by lia; f_equal; lia). apply Z.mul_mod_distr_r; apply Z.pow_nonzero; lia. }
    assert (Hpb : 0 < 2 ^ bits) by (apply Z.pow_pos_nonneg; lia). assert (Hpr : 0 < 2 ^ (5 - bits)) by (apply Z.pow_pos_nonneg; lia).
    assert (H32 : 2 ^ bits * 2 ^ (5 - bits) = 2 ^ 5) by (rewrite <- Z.pow_add_r by lia; f_equal; lia).
    pose proof (Z.mod_pos_bound acc _ Hpb). exists (es ++ [x]). rewrite zlen_app, zlen_one. split_and!.
    + by rewrite fmap_app.
    + apply Forall_app. split; [done|]. constructor; [|done]. unfold fits. rewrite <- H32, Hx. nia.
    + apply (Z.div_unique _ _ _ (4 - (5 - bits))); lia.
    + rewrite radix_value_snoc, <- Hv, Hx. replace (5 * (zlen es + 1) - 8 * zlen bs) with (5 - bits) by lia. rewrite <- H32. lia.
  - assert (bits = 0) as -> by lia. exists es. split_and!; [done..| |].
    + apply (Z.div_unique _ _ _ 4); lia.
    + rewrite <- Hv, Z.mod_1_r. replace (5 * zlen es - 8 * zlen bs) with 0 by lia. lia.
Qed.

(** ** Decoding is exact *)
Lemma decode_loop_sound index text ds acc bits out acc' bits' out' : packed 5 8 ds acc bits out → bits < 8 →
  decode_loop index text acc bits out = Ok (acc', bits', out') →
  ∃ ds', mapM base32_value text = Some ds' ∧ packed 5 8 (ds ++ ds') acc' bits' out' ∧ bits' < 8.
Proof.
  revert index ds acc bits out. induction text as [|c text IH]; intros index ds acc bits out Hp Hb H; cbn [decode_loop] in H.
  { injection H as <- <- <-. exists []. by rewrite app_nil_r. }
  cbn [mapM]. destruct (base32_value c) as [d|] eqn:Ed; [|done]. cbn [ok_or mbind result_bind option_bind] in H |- *.
  apply base32_value_Some in Ed as [Hd _]. pose proof (pk_bits _ _ _ _ _ _ Hp). apply (packed_in 5 8 _ _ _ _ d) in Hp; [|lia|done|lia].
  destruct (_ >=? 8) eqn:E; breflect.
  - apply packed_out in Hp; [|lia..]. destruct (IH _ _ _ _ _ Hp ltac:(lia) H) as (ds' & -> & Hp' & Hb'). exists (d :: ds'). by rewrite <- app_assoc in Hp'.
  - destruct (IH _ _ _ _ _ Hp ltac:(lia) H) as (ds' & -> & Hp' & Hb'). exists (d :: ds'). by rewrite <- app_assoc in Hp'.
Qed.
Lemma decode_loop_total index text ds acc bits out : mapM base32_value text = Some ds → is_ok (decode_loop index text acc bits out) = true.
Proof.
  revert index ds acc bits out. induction text as [|c text IH]; intros index ds acc bits out Hm; [done|]. cbn [mapM decode_loop] in *.
  destruct (base32_value c); [|done]. cbn [ok_or mbind result_bind option_bind] in *. destruct (mapM _ text) as [ds1|]; [|done].
  destruct (_ >=? 8); by eapply IH.
Qed.

Lemma trailing_zero acc bits : 0 ≤ bits → (bits >? 0) && negb (Z.land acc (Z.shiftl 1 bits - 1) =? 0) = negb (acc mod 2 ^ bits =? 0).
Proof.
  intros Hb. rewrite Z.shiftl_mul_pow2, Z.mul_1_l, Z.sub_1_r, <- Z.ones_equiv, Z.land_ones by lia.
  destruct (bits >? 0) eqn:E; breflect; [done|]. assert (bits = 0) as -> by lia. by rewrite Z.mod_1_r.
Qed.

(** Text decodes to bytes exactly when it is their encoding, character for
    character, after case folding and reduction to a byte. *)
Lemma base32_decode_iff text n bs : 0 ≤ n → n * 8 < 2 ^ 64 →
  base32_decode text n = Ok bs ↔ zlen bs = n ∧ bytes_ok bs ∧ folded <$> text = base32_encode bs.
Proof.
  intros Hn Hmax. unfold base32_decode. rewrite (Z.mod_small (n * 8)) by lia. cbv zeta.
  pose proof (Z.div_mod (n * 8 + 4) 5 ltac:(done)) as Hdm. pose proof (Z.mod_pos_bound (n * 8 + 4) 5 eq_refl) as Hmb. split.
  - destruct (zlen text =? _) eqn:El; [|done]. breflect. cbn [negb]. destruct (decode_loop _ _ _ _ _) as [[[acc bits] out]|] eqn:Ed; [|done].
    cbn [mbind result_bind]. destruct (decode_loop_sound 0 text [] 0 0 [] _ _ _ (packed_nil 5 8) ltac:(lia) Ed) as (ds & Hm & [Hw Hb Hlen Hok Hv] & Hb8).
    cbn [app] in Hlen, Hv. rewrite trailing_zero by done. destruct (_ =? 0) eqn:Ez; [|done]. breflect. cbn [negb]. destruct (zlen out =? n) eqn:Eo; [|done]. breflect.
    intros <-%Ok_inj. split_and!; [done..|]. apply base32_values in Hm as [Hf Ht].
    assert (Hlt : zlen text = zlen ds) by (unfold zlen; by rewrite <- (length_fmap folded text), Ht, length_fmap). rewrite Ht.
    destruct (base32_encode_spec out Hok) as (es & -> & Hes & Hle & Hve). f_equal.
    assert (Hsame : zlen ds = zlen es) by (rewrite Hle, Eo, (Z.mul_comm 8); lia).
    apply (radix_value_inj 5); [done..|unfold zlen in Hsame; lia|]. rewrite Hve, <- Hsame, <- Hv, Ez, radix_value_bytes.
    replace (5 * zlen ds - 8 * zlen out) with bits by lia. lia.
  - intros (Hl & Hok & Ht). destruct (base32_encode_spec bs Hok) as (ds & He & Hf & Hld & Hv). rewrite He in Ht.
    assert (Hlt : zlen text = zlen ds) by (unfold zlen; by rewrite <- (length_fmap folded text), Ht, length_fmap).
    rewrite Hlt, Hld, Hl, (Z.mul_comm 8), Z.eqb_refl. cbn [negb].
    assert (Hm : mapM base32_value text = Some ds) by (by apply base32_values).
    destruct (decode_loop 0 text 0 0 []) as [[[acc bits] out]|e] eqn:Ed; [|by pose proof (decode_loop_total 0 text ds 0 0 [] Hm) as Hc; rewrite Ed in Hc].
    cbn [mbind result_bind]. destruct (decode_loop_sound 0 text [] 0 0 [] _ _ _ (packed_nil 5 8) ltac:(lia) Ed) as (ds' & Hm' & [Hw Hb Hlen Hok' Hv'] & Hb8).
    rewrite Hm in Hm'. injection Hm' as <-. cbn [app] in Hlen, Hv'. rewrite radix_value_bytes in Hv'.
    assert (Hz : zlen out = n) by (rewrite Hld, Hl, (Z.mul_comm 8 n) in Hlen; lia). assert (Hbits : 5 * zlen ds - 8 * zlen bs = bits) by lia. rewrite Hbits in Hv.
    assert (Hp : 0 < 2 ^ bits) by (apply Z.pow_pos_nonneg; lia). pose proof (Z.mod_pos_bound acc _ Hp).
    destruct (Z.div_mod_unique (2 ^ bits) (from_be out) (from_be bs) (acc mod 2 ^ bits) 0) as [Ho Hz0]; [lia..|].
    rewrite trailing_zero, Hz0, Hz, Z.eqb_refl by done. cbn [negb]. rewrite Z.eqb_refl. cbn [negb]. f_equal.
    apply (radix_value_inj 8); [done..|unfold zlen in *; lia|done].
Qed.

(** ** Addresses *)
Record service_ok (a : EncryptedServiceAddress) : Prop := {
  so_flags : sa_flags a ∈ [0; 2; 4; 6];
  so_unblinded : sa_unblinded_sigtype a = 7 ∨ sa_unblinded_sigtype a = 11;
  so_blinded : sa_blinded_sigtype a = 11;
  so_key : zlen (sa_public_key a) = 32 ∧ bytes_ok (sa_public_key a);
}.
Abbreviation lowercase host := (to_ascii_lowercase <$> host).

Lemma fits_lxor a b : fits 8 a → fits 8 (Z.lxor a (Z.land b 0xff)).
Proof.
  unfold fits. intros Ha. change 255 with (Z.ones 8). rewrite Z.land_ones by lia. pose proof (Z.mod_pos_bound b (2 ^ 8) eq_refl).
  set (m := b mod 2 ^ 8) in *. assert (H0 : 0 ≤ Z.lxor a m) by (apply Z.lxor_nonneg; lia). split; [done|].
  destruct (decide (Z.lxor a m = 0)) as [->|]; [done|]. apply Z.log2_lt_pow2; [lia|].
  eapply Z.le_lt_trans; [apply Z.log2_lxor; lia|]. apply Z.max_lub_lt;
    [destruct (decide (0 < a))|destruct (decide (0 < m))]; first [apply Z.log2_lt_pow2; lia | rewrite Z.log2_nonpos; lia].
Qed.
Lemma fold_checksum_ok data : bytes_ok data → bytes_ok (fold_checksum data) ∧ zlen (fold_checksum data) = zlen data.
Proof.
  destruct data as [|d0 [|d1 [|d2 rest]]]; [done..|]. cbn [fold_checksum].
  intros [H0 [H1 [H2 Hr]%Forall_cons]%Forall_cons]%Forall_cons. split; [|by rewrite !zlen_cons]. repeat (constructor; [by apply fits_lxor|]). done.
Qed.
Lemma fold_checksum_twice data : fold_checksum (fold_checksum data) = data.
Proof.
  destruct data as [|d0 [|d1 [|d2 rest]]]; [done..|]. cbn [fold_checksum]. by rewrite !Z.lxor_assoc, !Z.lxor_nilpotent, !Z.lxor_0_r.
Qed.
Lemma strip_suffix_Some suffix text body : strip_suffix suffix text = Some body ↔ text = body ++ suffix.
Proof.
  unfold strip_suffix. split.
  - case_bool_decide as E; [|done]. intros [= <-]. rewrite <- E at 2. by rewrite take_drop.
  - intros ->. rewrite length_app, Nat.add_sub, take_app_length, drop_app_length. by rewrite bool_decide_true.
Qed.

Lemma folded_digit d : fits 5 d → folded (digit_char d) = digit_char d.
Proof.
  intros Hd. assert (Hc : forallb (λ d, folded (digit_char d) =? digit_char d) (seqZ 0 32) = true) by (vm_compute; reflexivity).
  rewrite forallb_forall in Hc. unfold fits in Hd. by apply Z.eqb_eq, Hc, list_elem_of_In, elem_of_seqZ.
Qed.
(** An encoding is text that decodes to what was encoded. *)
Lemma base32_round_trip bs : bytes_ok bs → zlen bs * 8 < 2 ^ 64 →
  base32_decode (base32_encode bs) (zlen bs) = Ok bs ∧ zlen (base32_encode bs) = (8 * zlen bs + 4) / 5.
Proof.
  intros Hok Hmax. pose proof (zlen_nonneg bs). destruct (base32_encode_spec bs Hok) as (ds & He & Hf & Hl & _). split.
  - apply base32_decode_iff; [done..|]. split_and!; [done..|]. rewrite He, <- list_fmap_compose. apply list_fmap_ext. intros i d Hi.
    apply folded_digit. by eapply Forall_lookup_1 in Hf.
  - rewrite He. unfold zlen at 1. rewrite length_fmap. exact Hl.
Qed.

Definition spelled (wide : bool) (a : EncryptedServiceAddress) (text : list Z) : Prop :=
  if wide then to_text_wide a = text else to_text a = Ok text.

Lemma flags_cases f : fits 8 f → Z.land f B32_FLAG_RESERVED_MASK = 0 → Z.land f NOT_WIDE ∈ [0; 2; 4; 6].
Proof.
  intros Hf. assert (Hc : forallb (λ f, negb (Z.land f B32_FLAG_RESERVED_MASK =? 0) || bool_decide (Z.land f NOT_WIDE ∈ [0; 2; 4; 6])) (seqZ 0 256) = true)
    by (vm_compute; reflexivity).
  rewrite forallb_forall in Hc. unfold fits in Hf. specialize (Hc f ltac:(apply list_elem_of_In, elem_of_seqZ; lia)). intros H. rewrite H in Hc. by apply bool_decide_eq_true in Hc.
Qed.
Lemma check_sigtypes_Ok u b : check_sigtypes u b = Ok () ↔ (u = 7 ∨ u = 11) ∧ b = 11.
Proof.
  unfold check_sigtypes, B32_UNBLINDED_SIGTYPE_ED25519, B32_UNBLINDED_SIGTYPE_RED25519, B32_BLINDED_SIGTYPE.
  destruct (u =? 7) eqn:E1, (u =? 11) eqn:E2, (b =? 11) eqn:E3; cbn; breflect; split; (done || lia).
Qed.

Lemma read_address_sound wide data lowered a : bytes_ok data → read_address wide data lowered = Ok a → service_ok a ∧ spelled wide a lowered.
Proof.
  intros Hok. unfold read_address. cbv zeta. destruct (_ =? 0) eqn:Ef; [|done]. breflect. cbn [negb]. destruct (Bool.eqb _ _); [|done]. cbn [negb].
  destruct (read_sigtypes wide data) as [u b]. destruct (check_sigtypes u b) as [[]|] eqn:Es; [|done]. cbn [mbind result_bind]. apply check_sigtypes_Ok in Es as [Hu Hb].
  destruct (zlen _ =? _) eqn:Ek; [|done]. breflect. cbn [negb]. set (address := mkService _ _ _ _).
  assert (Ha : service_ok address).
  { split; cbn; [|done..|split; [done|by apply Forall_drop]]. apply flags_cases; [|done]. destruct data as [|d data]; [done|]. by inversion Hok. }
  destruct wide.
  - cbn [mbind result_bind]. case_bool_decide as E; [done|]. intros <-%Ok_inj. split; [done|]. exact E.
  - destruct (to_text address) as [t|] eqn:Et; [|done]. cbn [mbind result_bind]. case_bool_decide as E; [done|]. intros <-%Ok_inj. split; [done|].
    unfold spelled. rewrite Et. f_equal. exact E.
Qed.

(** The bytes of an address. *)
Definition service_bytes (wide : bool) (a : EncryptedServiceAddress) : bytes :=
  if wide then sa_flags a + 1 :: sa_unblinded_sigtype a :: 0 :: sa_blinded_sigtype a :: 0 :: sa_public_key a
  else sa_flags a :: sa_unblinded_sigtype a :: sa_blinded_sigtype a :: sa_public_key a.
Lemma spelled_bytes wide a text : service_ok a → spelled wide a text ↔ text = base32_encode (fold_checksum (service_bytes wide a)) ++ B32_SUFFIX.
Proof.
  destruct a as [f u b key]. intros [Hf Hu Hb Hk]. cbn [sa_flags sa_unblinded_sigtype sa_blinded_sigtype sa_public_key] in *. subst b.
  rewrite !elem_of_cons in Hf. unfold spelled, to_text_wide, to_text, service_bytes. cbn [sa_flags sa_unblinded_sigtype sa_blinded_sigtype sa_public_key].
  destruct Hf as [->|[->|[->|[->|Hf]]]]; [..|by apply elem_of_nil in Hf]; destruct Hu as [-> | ->]; destruct wide; split; (by intros <-) || (by intros ->) || (by intros [= <-]).
Qed.
Lemma read_address_complete wide a lowered : service_ok a → spelled wide a lowered → read_address wide (service_bytes wide a) lowered = Ok a.
Proof.
  intros Ha Hs. destruct a as [f u b key]. destruct (Ha) as [Hf Hu Hb [Hk _]]. cbn [sa_flags sa_unblinded_sigtype sa_blinded_sigtype sa_public_key] in *. subst b.
  rewrite !elem_of_cons in Hf. unfold read_address, service_bytes.
  unfold spelled in Hs. destruct Hf as [->|[->|[->|[->|Hf]]]]; [..|by apply elem_of_nil in Hf]; destruct Hu as [-> | ->]; destruct wide;
    cbn -[to_text to_text_wide zlen]; rewrite drop_0, Hk;
    lazy -[to_text to_text_wide bool_decide zlen saturating_sub list_eq_dec]; rewrite Hs; by case_bool_decide.
Qed.

Lemma service_bytes_ok wide a : service_ok a → bytes_ok (service_bytes wide a) ∧ zlen (service_bytes wide a) = if wide then 37 else 35.
Proof.
  destruct a as [f u b key]. intros [Hf Hu Hb [Hl Hk]]. cbn [sa_flags sa_unblinded_sigtype sa_blinded_sigtype sa_public_key] in *. subst b.
  assert (Hr : 0 ≤ f ≤ 6) by (rewrite !elem_of_cons, elem_of_nil in Hf; lia). unfold service_bytes. cbn [sa_flags sa_unblinded_sigtype sa_blinded_sigtype sa_public_key].
  destruct wide; rewrite !zlen_cons; (split; [|lia]); repeat (constructor; [unfold fits; lia|]); done.
Qed.

Lemma from_text_iff host a : from_text host = Ok a ↔ service_ok a ∧ (spelled false a (lowercase host) ∨ spelled true a (lowercase host)).
Proof.
  unfold from_text. cbv zeta. split.
  - destruct (strip_suffix _ _) as [body|]; [|done]. cbn [ok_or mbind result_bind].
    destruct (zlen body =? _); [|destruct (zlen body =? _); [|done]]; cbn [mbind result_bind];
      destruct (base32_decode body _) as [decoded|] eqn:Ed; try done; cbn [mbind result_bind];
      apply base32_decode_iff in Ed as (_ & Hok & _); try done; intros Hr; apply read_address_sound in Hr; try (by apply fold_checksum_ok); tauto.
  - intros [Ha Hs]. assert (∃ wide, spelled wide a (lowercase host)) as [wide Hw] by (destruct Hs; eauto). clear Hs.
    pose proof (proj1 (spelled_bytes wide a _ Ha) Hw) as Hb. destruct (service_bytes_ok wide a Ha) as [Hok Hl].
    destruct (fold_checksum_ok _ Hok) as [Hokf Hlf]. rewrite Hl in Hlf.
    destruct (base32_round_trip _ Hokf) as [Hd He]; [rewrite Hlf; by destruct wide|]. rewrite Hlf in Hd, He.
    rewrite (proj2 (strip_suffix_Some _ _ _) Hb). cbn [ok_or mbind result_bind]. destruct wide.
    + change ((8 * 37 + 4) / 5) with 60 in He. rewrite He. change (60 =? B32_SERVICE_CHARS) with false. change (60 =? B32_SERVICE_WIDE_CHARS) with true.
      cbn [mbind result_bind]. change B32_SERVICE_WIDE_DECODED_LEN with 37. rewrite Hd. cbn [mbind result_bind]. rewrite fold_checksum_twice. by apply read_address_complete.
    + change ((8 * 35 + 4) / 5) with 56 in He. rewrite He. change (56 =? B32_SERVICE_CHARS) with true.
      cbn [mbind result_bind]. change B32_SERVICE_DECODED_LEN with 35. rewrite Hd. cbn [mbind result_bind]. rewrite fold_checksum_twice. by apply read_address_complete.
Qed.

Lemma lowercase_spelled wide a text : service_ok a → spelled wide a text → lowercase text = text.
Proof.
  intros Ha ->%spelled_bytes; [|done]. destruct (service_bytes_ok wide a Ha) as [Hok _]. destruct (fold_checksum_ok _ Hok) as [Hokf _].
  destruct (base32_encode_spec _ Hokf) as (ds & -> & Hf & _). rewrite fmap_app. f_equal. rewrite <- list_fmap_compose. apply list_fmap_ext. intros i d Hi.
  assert (Hd : fits 5 d) by (by eapply Forall_lookup_1 in Hf). unfold fits in Hd.
  assert (Hc : forallb (λ d, to_ascii_lowercase (digit_char d) =? digit_char d) (seqZ 0 32) = true) by (vm_compute; reflexivity).
  rewrite forallb_forall in Hc. by apply Z.eqb_eq, Hc, list_elem_of_In, elem_of_seqZ.
Qed.
Lemma to_text_total a : service_ok a → ∃ text, to_text a = Ok text.
Proof. intros [_ Hu _ _]. unfold to_text. destruct (_ >? 255) eqn:E; breflect; [lia|eauto]. Qed.

(** Base 32 text decodes to bytes exactly when it is their encoding.  Letter case
    does not matter, and neither does anything above the low byte of a code point. *)
Theorem base32_decode_exact text n bs (Hn : 0 ≤ n) (Hmax : n * 8 < 2 ^ 64) :
  base32_decode text n = Ok bs ↔ zlen bs = n ∧ bytes_ok bs ∧ (λ c, to_ascii_lowercase c mod 256) <$> text = base32_encode bs.
Proof. by apply base32_decode_iff. Qed.
(** The letter ũ is read as an i. *)
Example decode_accepts_non_ascii : base32_decode [361; 97] 1 = Ok [64] ∧ base32_decode [105; 97] 1 = Ok [64] ∧ base32_encode [64] = text_of "ia".
Proof. by vm_compute. Qed.

(** C22: addresses of encrypted services are read exactly.  A host name is read as an
    address exactly when the address is valid (known flags, an unblinded signature
    type of 7 or 11, a blinded one of 11, a key of 32 bytes) and the name is, in any
    letter case, one of the two texts the address is written as, the short or the
    wide one; so no two addresses share a name.  Every address that can be
    constructed is valid and is read back from both of its texts. *)
Theorem service_address_exact :
  (∀ host a, from_text host = Ok a ↔ service_ok a ∧ (to_text a = Ok (lowercase host) ∨ to_text_wide a = lowercase host)) ∧
  (∀ unblinded blinded key secret client, zlen key = 32 → bytes_ok key →
     match service_address_new unblinded blinded key secret client with
     | Err e => (e = UnsupportedUnblindedSigtype unblinded ∧ unblinded ≠ 7 ∧ unblinded ≠ 11) ∨ (e = UnsupportedBlindedSigtype blinded ∧ blinded ≠ 11)
     | Ok a => requires_blinding_secret a = secret ∧ requires_client_key a = client ∧ sa_public_key a = key ∧
         from_text (to_text_wide a) = Ok a ∧ ∃ text, to_text a = Ok text ∧ from_text text = Ok a
     end).
Proof.
  split; [exact from_text_iff|]. intros unblinded blinded key secret client Hl Hk. unfold service_address_new.
  destruct (check_sigtypes unblinded blinded) as [[]|e] eqn:Es; cbn [mbind result_bind].
  - apply check_sigtypes_Ok in Es as [Hu Hb]. set (a := mkService _ _ _ _).
    assert (Ha : service_ok a) by (split; cbn; [apply (bool_decide_unpack _); by destruct secret, client|done..]).
    split_and!; [by destruct secret, client..|done| |].
    + apply from_text_iff. split; [done|]. right. symmetry. by apply (lowercase_spelled true a).
    + destruct (to_text_total a Ha) as [text Ht]. exists text. split; [done|]. apply from_text_iff. split; [done|]. left. unfold spelled.
      by rewrite (lowercase_spelled false a text Ha Ht).
  - revert Es. unfold check_sigtypes, B32_UNBLINDED_SIGTYPE_ED25519, B32_UNBLINDED_SIGTYPE_RED25519, B32_BLINDED_SIGTYPE.
    destruct (unblinded =? 7) eqn:E1, (unblinded =? 11) eqn:E2, (blinded =? 11) eqn:E3; cbn; breflect; intros [= <-]; auto.
Qed.
(** One name in both forms and in capitals. *)
Example sample_service_address : let a := mkService 2 11 11 (seqZ 1 32) in
  from_text (to_text_wide a) = Ok a ∧ ∃ text, to_text a = Ok text ∧ from_text ((λ c, if (97 <=? c) && (c <=? 122) then c - 32 else c) <$> text) = Ok a.
Proof. split; [by vm_compute|]. eexists. split; [by vm_compute|]. by vm_compute. Qed.

Lemma service_address_exact_witness :
  service_ok (mkService 2 11 11 (seqZ 1 32)) ∧ from_text (to_text_wide (mkService 2 11 11 (seqZ 1 32))) = Ok (mkService 2 11 11 (seqZ 1 32)).
Proof.
  assert (Ha : service_ok (mkService 2 11 11 (seqZ 1 32))).
  { split; cbn [sa_flags sa_unblinded_sigtype sa_blinded_sigtype sa_public_key]; [by right; left|by right|done|split; [done|apply bytes_okb; by vm_compute]]. }
  split; [exact Ha|]. apply (proj1 service_address_exact). split; [exact Ha|]. right. by vm_compute.
Defined.
