(* ===== verification/Codec.v ===== *)
(** * The bounded primitive codec

    Models [src/crates/i2pr-proto/src/codec.rs]: the read cursor
    [DecodeCursor], the bounded writer [EncodeBuffer], [decode_exact] and
    [encode_to_vec].  Both sides are state-and-error computations that return
    the state they reached also when they fail. *)
From S2P Require Import Prelude Utf8.

(** The error categories of [lib.rs] and the structured codec errors. *)
Inductive ProtocolErrorKind :=
  | KMalformed | KTruncated | KLimitExceeded | KInvalidValue | KTrailingBytes
  | KPolicyRejected | KUnsupported.

Inductive CodecError :=
  | Truncated (offset needed remaining : Z)
  | LengthExceeded (offset declared maximum : Z) (context : string)
  | ArithmeticOverflow (offset : Z) (context : string)
  | InvalidUtf8 (offset : Z)
  | InvalidFieldValue (offset : Z) (context : string)
  | NonCanonical (offset : Z) (context : string)
  | Unsupported (offset : Z) (context : string) (value : Z)
  | TrailingBytes (offset remaining : Z)
  | DuplicateField (offset : Z) (context : string)
  | PolicyRejected (offset : Z) (context : string).

#[global] Instance CodecError_eq_dec : EqDecision CodecError.
Proof. solve_decision. Defined.

(** [CodecError::kind] *)
Definition kind (e : CodecError) : ProtocolErrorKind :=
  match e with
  | Truncated _ _ _ => KTruncated
  | LengthExceeded _ _ _ _ => KLimitExceeded
  | PolicyRejected _ _ => KPolicyRejected
  | Unsupported _ _ _ => KUnsupported
  | InvalidFieldValue _ _ => KInvalidValue
  | TrailingBytes _ _ => KTrailingBytes
  | ArithmeticOverflow _ _ | InvalidUtf8 _ | NonCanonical _ _
  | DuplicateField _ _ => KMalformed
  end.

(** ** The read cursor *)
Record DecodeCursor := mkCursor { input : bytes; offset : Z }.

Abbreviation decoder := (M DecodeCursor CodecError).

Module Cursor.
Definition new (inp : bytes) (maximum : Z) : result CodecError DecodeCursor :=
  if zlen inp >? maximum
  then Err (LengthExceeded 0 (zlen inp) maximum "cursor input")
  else Ok (mkCursor inp 0).

Definition remaining (c : DecodeCursor) : Z :=
  saturating_sub (zlen (input c)) (offset c).

Definition is_empty (c : DecodeCursor) : bool := remaining c =? 0.

Definition take (len : Z) : decoder bytes := λ c,
  match checked_add usize_max (offset c) len with
  | None => (c, Err (ArithmeticOverflow (offset c) "cursor offset"))
  | Some stop =>
      if stop >? zlen (input c)
      then (c, Err (Truncated (offset c) len (remaining c)))
      else (mkCursor (input c) stop, Ok (slice (offset c) stop (input c)))
  end.

Definition read_u8 : decoder Z := bs ← take 1; mret (hd 0 bs).
Definition read_u16 : decoder Z := bs ← take 2; mret (from_be bs).
Definition read_u32 : decoder Z := bs ← take 4; mret (from_be bs).
Definition read_u64 : decoder Z := bs ← take 8; mret (from_be bs).

Definition read_length_prefixed (len maximum : Z) : decoder bytes :=
  if len >? maximum
  then fail_at (λ c, LengthExceeded (offset c) len maximum "length-prefixed field")
  else take len.

Definition read_bytes_u8 (maximum : Z) : decoder bytes :=
  len ← read_u8; read_length_prefixed len maximum.
Definition read_bytes_u16 (maximum : Z) : decoder bytes :=
  len ← read_u16; read_length_prefixed len maximum.
(** [usize::try_from] on a [u32] is checked in the source; with a 64-bit
    [usize] the conversion is the identity. *)
Definition read_bytes_u32 (maximum : Z) : decoder bytes :=
  v ← read_u32;
  match try_from usize_max v with
  | Some len => read_length_prefixed len maximum
  | None => fail_at (λ c, ArithmeticOverflow (offset c) "32-bit length conversion")
  end.

Definition read_utf8 (bs : bytes) (off : Z) : result CodecError bytes :=
  ok_or (InvalidUtf8 off) (from_utf8 bs).

Definition read_utf8_u8 (maximum : Z) : decoder bytes :=
  bs ← read_bytes_u8 maximum;
  off ← gets offset;
  lift (read_utf8 bs (saturating_sub off (zlen bs))).
Definition read_utf8_u16 (maximum : Z) : decoder bytes :=
  bs ← read_bytes_u16 maximum;
  off ← gets offset;
  lift (read_utf8 bs (saturating_sub off (zlen bs))).
Definition read_utf8_u32 (maximum : Z) : decoder bytes :=
  bs ← read_bytes_u32 maximum;
  off ← gets offset;
  lift (read_utf8 bs (saturating_sub off (zlen bs))).

Definition finish (c : DecodeCursor) : result CodecError () :=
  if is_empty c then Ok () else Err (TrailingBytes (offset c) (remaining c)).
End Cursor.

(** [decode_exact] *)
Definition decode_exact {A} (inp : bytes) (maximum : Z) (decode : decoder A)
    : result CodecError A :=
  cursor ← Cursor.new inp maximum;
  match decode cursor with
  | (cursor', Ok value) => _ ← Cursor.finish cursor'; mret value
  | (_, Err e) => Err e
  end.

(** ** The bounded writer *)
Record EncodeBuffer := mkBuffer { output : bytes; start_len : Z; maximum : Z }.

Abbreviation encoder := (M EncodeBuffer CodecError).

Module Buffer.
Definition new (out : bytes) (max : Z) : result CodecError EncodeBuffer :=
  if zlen out >? max
  then Err (LengthExceeded (zlen out) (zlen out) max "encoder output")
  else Ok (mkBuffer out (zlen out) max).

Definition len (b : EncodeBuffer) : Z := zlen (output b) - start_len b.
Definition is_empty (b : EncodeBuffer) : bool := len b =? 0.

Definition append (bs : bytes) (b : EncodeBuffer) : EncodeBuffer :=
  mkBuffer (output b ++ bs) (start_len b) (maximum b).

Definition write (bs : bytes) : encoder () := λ b,
  match checked_add usize_max (zlen (output b)) (zlen bs) with
  | None => (b, Err (ArithmeticOverflow (zlen (output b)) "encoder output length"))
  | Some new_length =>
      if new_length >? maximum b
      then (b, Err (LengthExceeded (zlen (output b)) new_length (maximum b) "encoder output"))
      else (append bs b, Ok ())
  end.

Definition write_u8 (v : Z) : encoder () := write [v].
Definition write_u16 (v : Z) : encoder () := write (to_be 2 v).
Definition write_u32 (v : Z) : encoder () := write (to_be 4 v).
Definition write_u64 (v : Z) : encoder () := write (to_be 8 v).
Definition write_raw (bs : bytes) : encoder () := write bs.

Definition write_length_prefixed (bs : bytes) (max width_maximum : Z) (context : string)
    : encoder () := λ b,
  if zlen bs >? max
  then (b, Err (LengthExceeded (zlen (output b)) (zlen bs) max context))
  else if zlen bs >? width_maximum
  then (b, Err (InvalidFieldValue (zlen (output b)) context))
  else
  match (if width_maximum =? 0xff then Some 1%nat
         else if width_maximum =? 0xffff then Some 2%nat
         else if width_maximum =? u32_max then Some 4%nat
         else None) with
  | None => (b, Err (InvalidFieldValue (zlen (output b)) context))
  | Some prefix_len =>
    match checked_add usize_max (Z.of_nat prefix_len) (zlen bs) with
    | None => (b, Err (ArithmeticOverflow (zlen (output b)) "length-prefixed field length"))
    | Some field_len =>
      match checked_add usize_max (zlen (output b)) field_len with
      | None => (b, Err (ArithmeticOverflow (zlen (output b)) "encoder output length"))
      | Some new_length =>
        if new_length >? maximum b
        then (b, Err (LengthExceeded (zlen (output b)) new_length (maximum b) context))
        else (_ ← write (to_be prefix_len (zlen bs)); write bs) b
      end
    end
  end.

Definition write_bytes_u8 (bs : bytes) (max : Z) : encoder () :=
  write_length_prefixed bs max u8_max "u8-prefixed field".
Definition write_bytes_u16 (bs : bytes) (max : Z) : encoder () :=
  write_length_prefixed bs max u16_max "u16-prefixed field".
Definition write_bytes_u32 (bs : bytes) (max : Z) : encoder () :=
  write_length_prefixed bs max u32_max "u32-prefixed field".
Definition write_utf8_u8 (s : bytes) (max : Z) : encoder () :=
  write_length_prefixed s max u8_max "UTF-8 field".
Definition write_utf8_u16 (s : bytes) (max : Z) : encoder () :=
  write_length_prefixed s max u16_max "UTF-8 field".
Definition write_utf8_u32 (s : bytes) (max : Z) : encoder () :=
  write_length_prefixed s max u32_max "UTF-8 field".
End Buffer.

(** [encode_to_vec] *)
Definition encode_to_vec (max : Z) (encode : encoder ()) : result CodecError bytes :=
  b ← Buffer.new [] max;
  match encode b with
  | (b', Ok _) => Ok (output b')
  | (_, Err e) => Err e
  end.

(** ** What decoders read and encoders write

    [reads d w a]: placed anywhere in an input, in front of the bytes [w], the
    decoder [d] consumes exactly [w] and returns [a].  [writes e w]: the
    encoder [e] appends exactly [w], and succeeds whenever [w] fits.  The two
    relations compose along [bind], so the codec of a structure is proved from
    the codecs of its fields. *)
Definition reads {Er A} (d : M DecodeCursor Er A) (w : bytes) (a : A) : Prop :=
  ∀ pre post, zlen (pre ++ w ++ post) ≤ usize_max →
    d (mkCursor (pre ++ w ++ post) (zlen pre)) =
    (mkCursor (pre ++ w ++ post) (zlen pre + zlen w), Ok a).

Record writes (e : encoder ()) (w : bytes) : Prop := {
  writes_ok b :
    zlen (output b) + zlen w ≤ maximum b → maximum b ≤ usize_max →
    e b = (Buffer.append w b, Ok ());
  writes_inv b b' :
    zlen (output b) ≤ maximum b → e b = (b', Ok ()) →
    b' = Buffer.append w b ∧ zlen (output b) + zlen w ≤ maximum b;
}.

Section reads.
Lemma reads_ret {Er A} (a : A) : reads (Er := Er) (mret a) [] a.
Proof. intros pre post _. rewrite zlen_nil, Z.add_0_r. done. Qed.

Lemma reads_bind {Er A B} (d : M DecodeCursor Er A) (k : A → M DecodeCursor Er B) w1 w2 a b :
  reads d w1 a → reads (k a) w2 b → reads (d ≫= k) (w1 ++ w2) b.
Proof.
  intros Hd Hk pre post Hlen. unfold mbind, M_bind.
  rewrite <- app_assoc in *. rewrite (Hd pre (w2 ++ post)) by done.
  assert (Heq : pre ++ w1 ++ w2 ++ post = (pre ++ w1) ++ w2 ++ post)
    by by rewrite <- app_assoc.
  rewrite Heq in *. rewrite <- zlen_app, (Hk (pre ++ w1) post) by done.
  by rewrite !zlen_app, Z.add_assoc.
Qed.

(** A final step that reads nothing. *)
Lemma reads_map {Er A B} (d : M DecodeCursor Er A) (k : A → M DecodeCursor Er B) w a b :
  reads d w a → reads (k a) [] b → reads (d ≫= k) w b.
Proof. intros. rewrite <- (app_nil_r w). eauto using reads_bind. Qed.

(** A first step that reads nothing. *)
Lemma reads_silent {Er A B} (d : M DecodeCursor Er A) (k : A → M DecodeCursor Er B) w a b :
  reads d [] a → reads (k a) w b → reads (d ≫= k) w b.
Proof. apply (reads_bind d k []). Qed.

Lemma reads_take w : reads (Cursor.take (zlen w)) w w.
Proof.
  intros pre post Hlen. unfold Cursor.take. cbn [offset input].
  rewrite !zlen_app in Hlen. pose proof (zlen_nonneg post).
  destruct (checked_add usize_max (zlen pre) (zlen w)) as [stop|] eqn:E.
  2: { apply checked_add_None in E. lia. }
  apply checked_add_Some in E as [-> _].
  destruct (_ >? _) eqn:E2; breflect.
  { rewrite !zlen_app in E2. lia. }
  by rewrite slice_app.
Qed.

Lemma reads_take_n n w : zlen w = n → reads (Cursor.take n) w w.
Proof. intros <-. apply reads_take. Qed.

Lemma reads_u8 v : reads Cursor.read_u8 [v] v.
Proof. eapply reads_map; [apply (reads_take [v])|apply reads_ret]. Qed.

Lemma reads_from_be n v :
  fits (8 * Z.of_nat n) v →
  reads (bs ← Cursor.take (Z.of_nat n); mret (from_be bs)) (to_be n v) v.
Proof.
  intros Hv. eapply reads_map; [apply reads_take_n, zlen_to_be|].
  rewrite from_to_be; [apply reads_ret|].
  unfold fits in Hv. replace (2 ^ (8 * Z.of_nat n)) with (256 ^ Z.of_nat n) in Hv; [done|].
  by rewrite (Z.pow_mul_r 2 8) by lia.
Qed.

Lemma reads_u16 v : fits 16 v → reads Cursor.read_u16 (to_be 2 v) v.
Proof. apply (reads_from_be 2). Qed.
Lemma reads_u32 v : fits 32 v → reads Cursor.read_u32 (to_be 4 v) v.
Proof. apply (reads_from_be 4). Qed.
Lemma reads_u64 v : fits 64 v → reads Cursor.read_u64 (to_be 8 v) v.
Proof. apply (reads_from_be 8). Qed.

Lemma reads_length_prefixed w maximum :
  zlen w ≤ maximum → reads (Cursor.read_length_prefixed (zlen w) maximum) w w.
Proof.
  intros Hm. unfold Cursor.read_length_prefixed.
  destruct (_ >? _) eqn:E; breflect; [lia|]. apply reads_take.
Qed.

Lemma reads_gets_offset {Er A} (k : Z → M DecodeCursor Er A) w a :
  (∀ off, reads (k off) w a) → reads (off ← gets offset; k off) w a.
Proof. intros Hk pre post Hlen. apply (Hk (zlen pre) pre post Hlen). Qed.

Lemma reads_lift {Er A} (r : result Er A) a : r = Ok a → reads (lift r) [] a.
Proof. intros ->. apply reads_ret. Qed.

Lemma reads_with_err {Er F A} (f : Er → F) (d : M DecodeCursor Er A) w a :
  reads d w a → reads (with_err f d) w a.
Proof. intros Hd pre post Hlen. unfold with_err. by rewrite (Hd pre post Hlen). Qed.

Lemma reads_bytes_u8 w maximum :
  zlen w ≤ maximum → zlen w ≤ u8_max →
  reads (Cursor.read_bytes_u8 maximum) (to_be 1 (zlen w) ++ w) w.
Proof.
  intros Hm Hw. eapply reads_bind; [|by apply reads_length_prefixed].
  unfold to_be. cbn [Z.of_nat Z.pow]. rewrite Z.div_1_r, Z.mod_small.
  - apply reads_u8.
  - pose proof (zlen_nonneg w). unfold u8_max in Hw. lia.
Qed.

Lemma reads_bytes_u16 w maximum :
  zlen w ≤ maximum → zlen w ≤ u16_max →
  reads (Cursor.read_bytes_u16 maximum) (to_be 2 (zlen w) ++ w) w.
Proof.
  intros Hm Hw. eapply reads_bind; [apply reads_u16|by apply reads_length_prefixed].
  pose proof (zlen_nonneg w). unfold fits, u16_max in *. lia.
Qed.

Lemma reads_bytes_u32 w maximum :
  zlen w ≤ maximum → zlen w ≤ u32_max →
  reads (Cursor.read_bytes_u32 maximum) (to_be 4 (zlen w) ++ w) w.
Proof.
  intros Hm Hw. eapply reads_bind; [apply reads_u32|].
  - pose proof (zlen_nonneg w). unfold fits, u32_max in *. lia.
  - unfold try_from. destruct (_ <=? _) eqn:E; breflect.
    + by apply reads_length_prefixed.
    + unfold u32_max, usize_max in *. lia.
Qed.

Lemma reads_utf8_step w :
  valid_utf8 w →
  reads (off ← gets offset;
         lift (Cursor.read_utf8 w (saturating_sub off (zlen w)))) [] w.
Proof.
  intros Hv. apply reads_gets_offset. intros off. apply reads_lift.
  unfold Cursor.read_utf8. by rewrite from_utf8_valid.
Qed.

Lemma reads_utf8_u8 w maximum :
  valid_utf8 w → zlen w ≤ maximum → zlen w ≤ u8_max →
  reads (Cursor.read_utf8_u8 maximum) (to_be 1 (zlen w) ++ w) w.
Proof.
  intros. eapply reads_map; [by apply reads_bytes_u8|by apply reads_utf8_step].
Qed.

(** A decoder that reads a whole input decodes it exactly. *)
Lemma reads_decode_exact {A} (d : decoder A) w a max :
  reads d w a → zlen w ≤ max → zlen w ≤ usize_max → decode_exact w max d = Ok a.
Proof.
  intros Hd Hm Hu. unfold decode_exact, Cursor.new.
  destruct (_ >? _) eqn:E; breflect; [lia|]. cbn.
  specialize (Hd [] []). cbn [app] in Hd. rewrite app_nil_r, zlen_nil in Hd.
  rewrite Hd by done. cbn.
  unfold Cursor.finish, Cursor.is_empty, Cursor.remaining, saturating_sub. cbn.
  destruct (_ =? _) eqn:E2; [done|]. breflect. lia.
Qed.

(** [reads_end d w a]: the decoder reads [w] when [w] is all that is left, as
    a final field that takes the rest of the input does. *)
Definition reads_end {A} (d : decoder A) (w : bytes) (a : A) : Prop :=
  ∀ pre, zlen (pre ++ w) ≤ usize_max →
    d (mkCursor (pre ++ w) (zlen pre)) = (mkCursor (pre ++ w) (zlen pre + zlen w), Ok a).

Lemma reads_reads_end {A} (d : decoder A) w a : reads d w a → reads_end d w a.
Proof. intros Hd pre Hlen. specialize (Hd pre []). rewrite app_nil_r in Hd. auto. Qed.

Lemma reads_end_bind {A B} (d : decoder A) (k : A → decoder B) w1 w2 a b :
  reads d w1 a → reads_end (k a) w2 b → reads_end (d ≫= k) (w1 ++ w2) b.
Proof.
  intros Hd Hk pre Hlen. unfold mbind, M_bind.
  specialize (Hd pre w2). rewrite Hd by done. rewrite app_assoc in *.
  rewrite <- zlen_app, (Hk (pre ++ w1)) by done. by rewrite !zlen_app, Z.add_assoc.
Qed.

Lemma reads_end_map {A B} (d : decoder A) (k : A → decoder B) w a b :
  reads_end d w a → reads (k a) [] b → reads_end (d ≫= k) w b.
Proof.
  intros Hd Hk pre Hlen. unfold mbind, M_bind. rewrite Hd by done.
  specialize (Hk (pre ++ w) []). cbn [app] in Hk. rewrite app_nil_r, zlen_nil, Z.add_0_r in Hk.
  rewrite <- zlen_app. by apply Hk.
Qed.

Lemma reads_end_rest w : reads_end (rem ← gets Cursor.remaining; Cursor.take rem) w w.
Proof.
  intros pre Hlen. unfold mbind, M_bind, gets, Cursor.remaining, saturating_sub.
  cbn [input offset]. rewrite zlen_app. pose proof (zlen_nonneg w).
  replace (Z.max 0 (zlen pre + zlen w - zlen pre)) with (zlen w) by lia.
  pose proof (reads_take w pre []) as Ht. rewrite app_nil_r in Ht. by apply Ht.
Qed.

Lemma reads_end_decode_exact {A} (d : decoder A) w a max :
  reads_end d w a → zlen w ≤ max → zlen w ≤ usize_max → decode_exact w max d = Ok a.
Proof.
  intros Hd Hm Hu. unfold decode_exact, Cursor.new.
  destruct (_ >? _) eqn:E; breflect; [lia|]. cbn.
  specialize (Hd []). cbn [app] in Hd. rewrite zlen_nil in Hd. rewrite Hd by done. cbn.
  unfold Cursor.finish, Cursor.is_empty, Cursor.remaining, saturating_sub. cbn.
  destruct (_ =? _) eqn:E2; [done|]. breflect. lia.
Qed.
End reads.

Section writes.
Lemma append_nil b : Buffer.append [] b = b.
Proof. destruct b. unfold Buffer.append. cbn. by rewrite app_nil_r. Qed.

Lemma append_append w1 w2 b :
  Buffer.append w2 (Buffer.append w1 b) = Buffer.append (w1 ++ w2) b.
Proof. unfold Buffer.append. cbn. by rewrite app_assoc. Qed.

Lemma writes_ret : writes (mret ()) [].
Proof.
  constructor.
  - intros b _ _. by rewrite append_nil.
  - intros b b' Hb. intros [= <-]. rewrite append_nil, zlen_nil. split; [done|lia].
Qed.

Lemma writes_write w : writes (Buffer.write w) w.
Proof.
  constructor; unfold Buffer.write.
  - intros b H1 H2. destruct (checked_add _ _ _) as [n|] eqn:E.
    + apply checked_add_Some in E as [-> _]. destruct (_ >? _) eqn:E2; breflect; [lia|done].
    + apply checked_add_None in E. lia.
  - intros b b' _. destruct (checked_add _ _ _) as [n|] eqn:E; [|done].
    apply checked_add_Some in E as [-> _]. destruct (_ >? _) eqn:E2; [done|].
    intros [= <-]. breflect. split; [done|lia].
Qed.

Lemma writes_bind (e : encoder ()) (k : () → encoder ()) w1 w2 :
  writes e w1 → writes (k ()) w2 → writes (e ≫= k) (w1 ++ w2).
Proof.
  intros [He1 He2] [Hk1 Hk2]. constructor; unfold mbind, M_bind.
  - intros b H1 H2. rewrite zlen_app in H1. pose proof (zlen_nonneg w2).
    rewrite He1 by lia. rewrite Hk1.
    + by rewrite append_append.
    + cbn. rewrite zlen_app. lia.
    + done.
  - intros b b' Hb. destruct (e b) as [b1 [[]|]] eqn:E; [|done].
    intros H. apply He2 in E as [-> E]; [|done].
    apply Hk2 in H as [-> H]; [|cbn; rewrite zlen_app; lia].
    cbn in H. rewrite zlen_app in H. rewrite append_append, zlen_app.
    split; [done|lia].
Qed.

(** The prefix width selected by [width_maximum]. *)
Definition prefix_width (width_maximum : Z) : option nat :=
  if width_maximum =? 0xff then Some 1%nat
  else if width_maximum =? 0xffff then Some 2%nat
  else if width_maximum =? u32_max then Some 4%nat
  else None.

Lemma writes_length_prefixed w max width n context :
  zlen w ≤ max → zlen w ≤ width → prefix_width width = Some n →
  writes (Buffer.write_length_prefixed w max width context) (to_be n (zlen w) ++ w).
Proof.
  intros Hm Hw Hp. unfold Buffer.write_length_prefixed.
  destruct (writes_bind _ (λ _, Buffer.write w) _ _
    (writes_write (to_be n (zlen w))) (writes_write w)) as [Hok Hinv].
  assert (zlen w ≤ width ≤ u32_max).
  { split; [done|]. unfold prefix_width, u32_max in *. revert Hp.
    repeat step_match; breflect; intros [= <-] || intros; lia. }
  assert (1 ≤ Z.of_nat n ≤ 4).
  { unfold prefix_width in Hp. revert Hp. repeat step_match; intros [= <-]; lia. }
  fold (prefix_width width). rewrite Hp.
  destruct (zlen w >? max) eqn:E1; breflect; [lia|].
  destruct (zlen w >? width) eqn:E2; breflect; [lia|].
  constructor.
  - intros b H1 H2. rewrite zlen_app, zlen_to_be in H1.
    destruct (checked_add _ (Z.of_nat n) _) as [f|] eqn:E3.
    2: { apply checked_add_None in E3. unfold usize_max, u32_max in *. lia. }
    apply checked_add_Some in E3 as [-> _].
    destruct (checked_add _ (zlen (output b)) _) as [g|] eqn:E4.
    2: { apply checked_add_None in E4. lia. }
    apply checked_add_Some in E4 as [-> _].
    destruct (_ >? maximum b) eqn:E5; breflect; [lia|].
    apply Hok; [|done]. rewrite zlen_app, zlen_to_be. lia.
  - intros b b' Hb. repeat step_match; try done. by apply Hinv.
Qed.

(** Encoding into a fresh vector gives exactly the written bytes. *)
Lemma writes_encode_to_vec e w max out :
  writes e w → 0 ≤ max → encode_to_vec max e = Ok out → out = w ∧ zlen w ≤ max.
Proof.
  intros [_ Hinv] Hm. unfold encode_to_vec, Buffer.new.
  destruct (_ >? _) eqn:E; [done|]. cbn.
  destruct (e _) as [b' [[]|]] eqn:E2; [|done]. intros [= <-].
  apply Hinv in E2 as [-> H]; cbn in *; [split; [done|]|]; rewrite zlen_nil in *; lia.
Qed.

Lemma encode_to_vec_writes e w max :
  writes e w → zlen w ≤ max → max ≤ usize_max → encode_to_vec max e = Ok w.
Proof.
  intros [Hok _] Hm Hu. unfold encode_to_vec, Buffer.new. pose proof (zlen_nonneg w).
  destruct (_ >? _) eqn:E; breflect; [rewrite zlen_nil in E; lia|]. cbn.
  rewrite Hok; cbn; rewrite ?zlen_nil; try lia. done.
Qed.
End writes.

(** ** Cursor safety

    A cursor is well formed when its offset lies inside the input.  A safe
    decoder never changes the input, never moves backwards and never leaves
    the input, whether it succeeds or fails. *)
Definition cursor_ok (c : DecodeCursor) : Prop := 0 ≤ offset c ≤ zlen (input c).

Definition safe {A} (d : decoder A) : Prop := ∀ c,
  cursor_ok c →
  input (d c).1 = input c ∧ offset c ≤ offset (d c).1 ≤ zlen (input c).

Section safe.
Lemma safe_ret {A} (a : A) : safe (mret a).
Proof. intros c Hc. unfold cursor_ok in Hc. cbn. split; [done|lia]. Qed.
Lemma safe_fail_at {A} f : safe (@fail_at DecodeCursor CodecError A f).
Proof. intros c Hc. unfold cursor_ok in Hc. cbn. split; [done|lia]. Qed.
Lemma safe_lift {A} (r : result CodecError A) : safe (lift r).
Proof. intros c Hc. unfold cursor_ok in Hc. cbn. split; [done|lia]. Qed.
Lemma safe_gets {A} (f : DecodeCursor → A) : safe (gets f).
Proof. intros c Hc. unfold cursor_ok in Hc. cbn. split; [done|lia]. Qed.

Lemma safe_bind {A B} (d : decoder A) (k : A → decoder B) :
  safe d → (∀ a, safe (k a)) → safe (d ≫= k).
Proof.
  intros Hd Hk c Hc. unfold mbind, M_bind. specialize (Hd c Hc).
  destruct (d c) as [c1 [a|e]] eqn:E; cbn in *; [|done].
  destruct Hd as [Hi Ho]. assert (Hc1 : cursor_ok c1).
  { unfold cursor_ok in *. rewrite Hi. lia. }
  destruct (Hk a c1 Hc1) as [Hi' Ho']. rewrite Hi, Hi' in *. split; [done|lia].
Qed.

Lemma safe_take len : 0 ≤ len → safe (Cursor.take len).
Proof.
  intros Hlen c Hc. unfold Cursor.take, cursor_ok in *.
  destruct (checked_add _ _ _) as [stop|] eqn:E; cbn; [|split; [done|lia]].
  apply checked_add_Some in E as [-> _].
  destruct (_ >? _) eqn:E; breflect; cbn; (split; [done|lia]).
Qed.

Lemma safe_if {A} (b : bool) (d e : decoder A) : safe d → safe e → safe (if b then d else e).
Proof. by destruct b. Qed.
End safe.

#[export] Hint Resolve safe_ret safe_fail_at safe_lift safe_gets safe_bind safe_if : i2pr.

(** What a successful [take] returns. *)
Lemma take_Ok len c c' bs :
  Cursor.take len c = (c', Ok bs) →
  bs = slice (offset c) (offset c + len) (input c) ∧
  c' = mkCursor (input c) (offset c + len) ∧ offset c + len ≤ zlen (input c).
Proof.
  unfold Cursor.take. destruct (checked_add _ _ _) as [stop|] eqn:E; [|done].
  apply checked_add_Some in E as [-> _]. destruct (_ >? _) eqn:E; [done|].
  intros [= <- <-]. breflect. done.
Qed.

(** The integer readers return values that fit their width. *)
Lemma take_be_fits n c c' v :
  cursor_ok c → bytes_ok (input c) →
  (bs ← Cursor.take (Z.of_nat n); mret (from_be bs)) c = (c', Ok v) →
  fits (8 * Z.of_nat n) v.
Proof.
  intros Hc Hok. unfold mbind, M_bind. cbn.
  destruct (Cursor.take _ c) as [c1 [bs|]] eqn:E; [|done]. intros [= <- <-].
  apply take_Ok in E as (-> & -> & Hle). unfold cursor_ok in Hc.
  pose proof (from_be_bound (slice (offset c) (offset c + Z.of_nat n) (input c))
    (Forall_slice _ _ _ _ Hok)) as Hb.
  rewrite slice_length in Hb by lia. unfold fits.
  rewrite (Z.pow_mul_r 2 8) by lia. by replace (offset c + Z.of_nat n - offset c)
    with (Z.of_nat n) in Hb by lia.
Qed.

(** ** What a successful decoder has read

    [consumes d P]: whenever [d] succeeds, it has read some bytes [w] from the
    front of what is left and its result is related to them by [P].  Where
    [reads] says that a decoder accepts an encoding, [consumes] says that it
    accepts nothing else. *)
Definition consumes {Er A} (d : M DecodeCursor Er A) (P : A → bytes → Prop) : Prop :=
  ∀ pre rest c' a, bytes_ok rest →
    d (mkCursor (pre ++ rest) (zlen pre)) = (c', Ok a) →
    ∃ w post, rest = w ++ post ∧ c' = mkCursor (pre ++ rest) (zlen pre + zlen w) ∧ P a w.

Section consumes.
Lemma consumes_ret {Er A} (a : A) (P : A → bytes → Prop) : P a [] → consumes (Er := Er) (mret a) P.
Proof.
  intros HP pre rest c' a' _ [= <- <-]. exists [], rest.
  by rewrite zlen_nil, Z.add_0_r.
Qed.

Lemma consumes_fail_at {Er A} f (P : A → bytes → Prop) : consumes (Er := Er) (fail_at f) P.
Proof. intros pre rest c' a _ [=]. Qed.
Lemma consumes_fail {Er A} e (P : A → bytes → Prop) : consumes (Er := Er) (fail e) P.
Proof. intros pre rest c' a _ [=]. Qed.

Lemma consumes_lift {Er A} (r : result Er A) (P : A → bytes → Prop) :
  (∀ a, r = Ok a → P a []) → consumes (lift r) P.
Proof.
  intros HP pre rest c' a _ [= <- ->]. exists [], rest.
  rewrite zlen_nil, Z.add_0_r. split_and!; [done..|by apply HP].
Qed.

Lemma consumes_bind {Er A B} (d : M DecodeCursor Er A) (k : A → M DecodeCursor Er B) P Q :
  consumes d P →
  (∀ a w, bytes_ok w → P a w → consumes (k a) (λ b w', Q b (w ++ w'))) →
  consumes (d ≫= k) Q.
Proof.
  intros Hd Hk pre rest c' b Hok. unfold mbind, M_bind.
  destruct (d _) as [c1 [a|e]] eqn:E; [|done]. intros Eb.
  destruct (Hd _ _ _ _ Hok E) as (w & post & -> & -> & HP).
  apply Forall_app in Hok as [Hw Hpost].
  rewrite app_assoc, <- zlen_app in Eb.
  destruct (Hk _ _ Hw HP _ _ _ _ Hpost Eb) as (w' & post' & -> & -> & HQ).
  exists (w ++ w'), post'. rewrite !app_assoc, !zlen_app, Z.add_assoc. done.
Qed.

Lemma consumes_gets {Er A B} (f : DecodeCursor → A) (k : A → M DecodeCursor Er B) Q :
  (∀ c, consumes (k (f c)) Q) → consumes (a ← gets f; k a) Q.
Proof. intros Hk pre rest c' b Hok E. exact (Hk (mkCursor (pre ++ rest) (zlen pre)) pre rest c' b Hok E). Qed.

Lemma consumes_impl {Er A} (d : M DecodeCursor Er A) (P Q : A → bytes → Prop) :
  consumes d P → (∀ a w, bytes_ok w → P a w → Q a w) → consumes d Q.
Proof.
  intros Hd HPQ pre rest c' a Hok E. destruct (Hd _ _ _ _ Hok E) as (w & post & -> & -> & HP).
  apply Forall_app in Hok as [Hw _]. exists w, post. split_and!; auto.
Qed.

Lemma consumes_if {Er A} (b : bool) (d1 d2 : M DecodeCursor Er A) P :
  (b = true → consumes d1 P) → (b = false → consumes d2 P) →
  consumes (if b then d1 else d2) P.
Proof. destruct b; auto. Qed.

Lemma consumes_with_err {Er F A} (f : Er → F) (d : M DecodeCursor Er A) P :
  consumes d P → consumes (with_err f d) P.
Proof.
  intros Hd pre rest c' a Hok. unfold with_err. destruct (d _) as [c1 [x|e]] eqn:Ed; [|done].
  intros [= <- <-]. exact (Hd pre rest c1 x Hok Ed).
Qed.

Lemma consumes_take n : 0 ≤ n → consumes (Cursor.take n) (λ bs w, w = bs ∧ zlen bs = n).
Proof.
  intros Hn pre rest c' bs _ (-> & -> & Hle)%take_Ok. cbn [offset input] in *.
  rewrite zlen_app in Hle. exists (take (Z.to_nat n) rest), (drop (Z.to_nat n) rest).
  assert (Hl : zlen (take (Z.to_nat n) rest) = n).
  { unfold zlen in *. rewrite length_take. lia. }
  rewrite take_drop, Hl. split_and!; [done..| |].
  - unfold slice. replace (Z.to_nat (_ - _)) with (Z.to_nat n) by lia.
    unfold zlen. by rewrite Nat2Z.id, drop_app_length.
  - rewrite slice_length; [lia|pose proof (zlen_nonneg pre); lia|rewrite zlen_app; lia].
Qed.

Lemma consumes_from_be n :
  consumes (bs ← Cursor.take (Z.of_nat n); mret (from_be bs))
    (λ v w, w = to_be n v ∧ fits (8 * Z.of_nat n) v).
Proof.
  eapply consumes_bind; [apply consumes_take; lia|]. intros bs w Hok [-> Hl].
  apply consumes_ret. rewrite app_nil_r. split.
  - unfold zlen in Hl. assert (n = length bs) as -> by lia. by rewrite to_from_be.
  - pose proof (from_be_bound bs Hok) as Hb. rewrite Hl in Hb. unfold fits.
    by rewrite (Z.pow_mul_r 2 8) by lia.
Qed.

Lemma consumes_u16 : consumes Cursor.read_u16 (λ v w, w = to_be 2 v ∧ fits 16 v).
Proof. apply (consumes_from_be 2). Qed.
Lemma consumes_u32 : consumes Cursor.read_u32 (λ v w, w = to_be 4 v ∧ fits 32 v).
Proof. apply (consumes_from_be 4). Qed.
Lemma consumes_u64 : consumes Cursor.read_u64 (λ v w, w = to_be 8 v ∧ fits 64 v).
Proof. apply (consumes_from_be 8). Qed.

Lemma consumes_u8 : consumes Cursor.read_u8 (λ v w, w = [v] ∧ fits 8 v).
Proof.
  eapply consumes_bind; [by apply consumes_take|]. intros bs w Hok [-> Hl].
  destruct bs as [|b [|? ?]]; [done| |rewrite !zlen_cons in Hl; pose proof (zlen_nonneg l); lia].
  apply consumes_ret. by apply Forall_cons_1 in Hok as [? _].
Qed.

Lemma consumes_rest :
  consumes (rem ← gets Cursor.remaining; Cursor.take rem) (λ bs w, w = bs).
Proof.
  apply consumes_gets. intros c. eapply consumes_impl; [apply consumes_take|by intros ? ? _ []].
  unfold Cursor.remaining, saturating_sub. lia.
Qed.

Lemma consumes_utf8_u8 max :
  consumes (Cursor.read_utf8_u8 max)
    (λ s w, w = to_be 1 (zlen s) ++ s ∧ valid_utf8 s ∧ zlen s ≤ max ∧ zlen s ≤ u8_max).
Proof.
  eapply (consumes_bind _ _ (λ bs w, w = to_be 1 (zlen bs) ++ bs ∧ zlen bs ≤ max ∧ zlen bs ≤ u8_max)).
  - eapply consumes_bind; [apply consumes_u8|]. intros len w _ [-> Hlen].
    unfold Cursor.read_length_prefixed. apply consumes_if; intros E; breflect;
      [apply consumes_fail_at|].
    unfold fits in Hlen. eapply consumes_impl; [apply consumes_take; lia|].
    intros bs w _ [-> Hl]. rewrite Hl. unfold u8_max. split; [|lia].
    unfold to_be. cbn [Z.of_nat Z.pow]. by rewrite Z.div_1_r, Z.mod_small.
  - intros bs w _ (-> & Hm & Hu). apply consumes_gets. intros c. apply consumes_lift.
    unfold Cursor.read_utf8, ok_or. intros s. destruct (from_utf8 bs) eqn:E; [|done].
    intros <-%Ok_inj. apply from_utf8_Some in E as [-> Hv]. by rewrite app_nil_r.
Qed.

(** A decoder run on a whole input. *)
Lemma consumes_decode_exact {A} inp max (d : decoder A) P a :
  consumes d P → bytes_ok inp → decode_exact inp max d = Ok a → zlen inp ≤ max ∧ P a inp.
Proof.
  intros Hd Hok. unfold decode_exact, Cursor.new.
  destruct (_ >? _) eqn:E; breflect; [done|]. cbn [mbind result_bind].
  destruct (d _) as [c' [x|e]] eqn:Ed; [|done].
  destruct (Hd [] inp c' x Hok Ed) as (w & post & -> & -> & HP).
  unfold Cursor.finish, Cursor.is_empty, Cursor.remaining, saturating_sub. cbn [offset input app].
  change (zlen (@nil Z)) with 0. rewrite zlen_app. pose proof (zlen_nonneg post).
  destruct (_ =? _) eqn:E2; cbn; breflect; [|done]. intros [= ->]. rewrite zlen_app in E.
  assert (post = []) as -> by (apply zlen_0_nil; lia). rewrite app_nil_r in *.
  change (zlen (@nil Z)) with 0 in E. split; [rewrite zlen_nil; lia|done].
Qed.
End consumes.

(** ** Canonical codecs

    What the codec of one structure promises to the codecs built from it: for
    the well-formed values [ok], the decoder reads the wire format [wire], it
    accepts nothing else and builds only well-formed values, and the encoder
    writes the wire format. *)
Record canonical {A} (ok : A → Prop) (wire : A → bytes) (d : decoder A) (e : A → encoder ())
    : Prop := {
  canonical_reads a : ok a → reads d (wire a) a;
  canonical_consumes : consumes d (λ a w, ok a ∧ w = wire a);
  canonical_writes a : ok a → writes (e a) (wire a);
}.

Lemma canonical_exact {A} ok wire (d : decoder A) e inp max a :
  canonical ok wire d e → bytes_ok inp → zlen inp ≤ usize_max →
  decode_exact inp max d = Ok a ↔
  zlen inp ≤ max ∧ ok a ∧ encode_to_vec usize_max (e a) = Ok inp.
Proof.
  intros [Hr Hc Hw] Hb Hu. split.
  - intros (Hm & Hok & ->)%(consumes_decode_exact _ _ _ _ _ Hc); [|done].
    split_and!; [done..|]. apply encode_to_vec_writes; [by apply Hw|done|done].
  - intros (Hm & Hok & He). assert (inp = wire a) as ->.
    { by apply (writes_encode_to_vec _ (wire a)) in He as [-> _]; [|by apply Hw|]. }
    apply reads_decode_exact; auto.
Qed.

(** ** Counted sequences: the loops that read or write [n] records *)
Fixpoint read_n {A} (d : decoder A) (n : nat) : decoder (list A) :=
  match n with
  | O => mret []
  | S n' => x ← d; rest ← read_n d n'; mret (x :: rest)
  end.

Fixpoint write_each {A} (e : A → encoder ()) (l : list A) : encoder () :=
  match l with
  | [] => mret ()
  | x :: l' => _ ← e x; write_each e l'
  end.

Section sequences.
Context {A} {ok : A → Prop} {wire : A → bytes} {d : decoder A} {e : A → encoder ()}.
Context (Hd : canonical ok wire d e).

Lemma reads_n l : Forall ok l → reads (read_n d (length l)) (concat (wire <$> l)) l.
Proof using Hd.
  induction 1 as [|x l Hx _ IH]; [apply reads_ret|]. cbn [read_n length].
  rewrite fmap_cons. cbn [concat]. eapply reads_bind; [by apply Hd|].
  eapply reads_map; [exact IH|apply reads_ret].
Qed.

Lemma consumes_n n :
  consumes (read_n d n) (λ l w, Forall ok l ∧ length l = n ∧ w = concat (wire <$> l)).
Proof using Hd.
  induction n as [|n IH]; cbn [read_n]; [by apply consumes_ret|].
  eapply consumes_bind; [apply Hd|intros x w _ [Hx ->]].
  eapply consumes_bind; [exact IH|intros l w _ (Hl & <- & ->)].
  apply consumes_ret. rewrite app_nil_r. split; [by constructor|done].
Qed.

Lemma writes_each l : Forall ok l → writes (write_each e l) (concat (wire <$> l)).
Proof using Hd.
  induction 1 as [|x l Hx _ IH]; [apply writes_ret|]. cbn [write_each].
  rewrite fmap_cons. cbn [concat]. by apply writes_bind; [apply Hd|].
Qed.
End sequences.

(** ** Signed regions

    A record that retains the bytes before its signature reads the cursor's
    offset after them; decoding starts at offset zero, so that offset is their
    length. *)
Lemma signed_reads {A B} (d : decoder A) (k : A → Z → decoder B) w1 w2 a b max :
  reads d w1 a → reads (k a (zlen w1)) w2 b → zlen (w1 ++ w2) ≤ max → max ≤ usize_max →
  decode_exact (w1 ++ w2) max (a ← d; off ← gets offset; k a off) = Ok b.
Proof.
  intros Hd Hk Hm Hu. unfold decode_exact, Cursor.new.
  destruct (_ >? _) eqn:E; breflect; [lia|]. unfold mbind, result_bind, M_bind, gets. cbv beta iota.
  pose proof (Hd [] w2) as Hd'. cbn [app] in Hd'. change (zlen (@nil Z)) with 0 in Hd'.
  rewrite Hd' by lia. cbn [offset]. rewrite Z.add_0_l.
  pose proof (Hk w1 []) as Hk'. rewrite app_nil_r in Hk'. rewrite Hk' by lia.
  unfold Cursor.finish, Cursor.is_empty, Cursor.remaining, saturating_sub. cbn [offset input].
  rewrite zlen_app. replace (Z.max 0 _) with 0 by lia. done.
Qed.

Lemma signed_consumes {A B} inp max (d : decoder A) (k : A → Z → decoder B) P Q b :
  consumes d P → (∀ a off w, P a w → consumes (k a off) (Q a off)) → bytes_ok inp →
  decode_exact inp max (a ← d; off ← gets offset; k a off) = Ok b →
  zlen inp ≤ max ∧ ∃ a w1 w2, inp = w1 ++ w2 ∧ P a w1 ∧ Q a (zlen w1) b w2.
Proof.
  intros Hd Hk Hok. unfold decode_exact, Cursor.new.
  destruct (_ >? _) eqn:E; breflect; [done|]. unfold mbind, result_bind, M_bind, gets. cbv beta iota.
  destruct (d _) as [c1 [a|e]] eqn:Ed; [|done].
  destruct (Hd [] inp c1 a Hok Ed) as (w1 & post & -> & -> & HP). cbn [app offset].
  change (zlen (@nil Z)) with 0. rewrite Z.add_0_l. apply Forall_app in Hok as [_ Hok].
  destruct (k a _ _) as [c2 [b'|e]] eqn:Ek; [|done].
  destruct (Hk _ _ _ HP _ _ _ _ Hok Ek) as (w2 & post' & -> & -> & HQ).
  unfold Cursor.finish, Cursor.is_empty, Cursor.remaining, saturating_sub. cbn [offset input].
  rewrite !zlen_app in *. pose proof (zlen_nonneg post').
  destruct (_ =? _) eqn:E2; cbn; breflect; [|done]. intros [= ->]. split; [lia|].
  assert (post' = []) as -> by (apply zlen_0_nil; lia). rewrite app_nil_r.
  by exists a, w1, w2.
Qed.

(** ** How far a decoder gets

    The facts that show a fuel sufficient.
    [yields inp lo d lo' P]: started at offset [lo] or later over [inp], a
    success of [d] ends at offset [lo'] or later with a value in [P]. *)
Definition at_least (inp : bytes) (lo : Z) (c : DecodeCursor) : Prop :=
  input c = inp ∧ lo ≤ offset c ∧ lo ≤ zlen inp.

Definition agree {A} (inp : bytes) (lo : Z) (d1 d2 : decoder A) : Prop :=
  ∀ c, at_least inp lo c → d1 c = d2 c.

Definition yields {A} (inp : bytes) (lo : Z) (d : decoder A) (lo' : Z) (P : A → Prop) : Prop :=
  ∀ c c' a, at_least inp lo c → d c = (c', Ok a) → at_least inp lo' c' ∧ P a.

Lemma at_least_start inp : at_least inp 0 (mkCursor inp 0).
Proof. repeat split; cbn; pose proof (zlen_nonneg inp); lia. Qed.

Lemma decode_exact_Ok {A} inp max (d : decoder A) a :
  decode_exact inp max d = Ok a → ∃ c', d (mkCursor inp 0) = (c', Ok a).
Proof.
  unfold decode_exact, Cursor.new. destruct (_ >? _); [done|]. cbn [mbind result_bind].
  destruct (d _) as [c' [x|e]]; [|done].
  destruct (Cursor.finish c'); [|done]. intros [= ->]. by eexists.
Qed.

Lemma agree_bind {A B} inp lo lo' (d : decoder A) P (k1 k2 : A → decoder B) :
  yields inp lo d lo' P → (∀ a, P a → agree inp lo' (k1 a) (k2 a)) →
  agree inp lo (d ≫= k1) (d ≫= k2).
Proof.
  intros Hd Hk c Hc. unfold mbind, M_bind.
  destruct (d c) as [c' [a|e]] eqn:E; [|done]. destruct (Hd _ _ _ Hc E). by apply Hk.
Qed.

Lemma yields_bind {A B} inp lo lo' lo'' (d : decoder A) (k : A → decoder B) P Q :
  yields inp lo d lo' P → (∀ a, P a → yields inp lo' (k a) lo'' Q) →
  yields inp lo (d ≫= k) lo'' Q.
Proof.
  intros Hd Hk c c' b Hc. unfold mbind, M_bind.
  destruct (d c) as [c1 [a|e]] eqn:E; [|done]. destruct (Hd _ _ _ Hc E) as [Hc1 Ha].
  by apply Hk.
Qed.

(** What a decoder returns, wherever it stops. *)
Definition returns {A} (inp : bytes) (lo : Z) (d : decoder A) (P : A → Prop) : Prop :=
  ∀ c c' a, at_least inp lo c → d c = (c', Ok a) → P a.

Lemma returns_bind {A B} inp lo lo' (d : decoder A) (k : A → decoder B) P Q :
  yields inp lo d lo' P → (∀ a, P a → returns inp lo' (k a) Q) → returns inp lo (d ≫= k) Q.
Proof.
  intros Hd Hk c c' b Hc. unfold mbind, M_bind.
  destruct (d c) as [c1 [a|e]] eqn:E; [|done]. destruct (Hd _ _ _ Hc E) as [Hc1 Ha].
  by apply Hk.
Qed.

Lemma yields_ret {A} inp lo (a : A) (P : A → Prop) : P a → yields inp lo (mret a) lo P.
Proof. intros HP c c' a' Hc [= <- <-]. by split. Qed.
Lemma yields_fail_at {A} inp lo f lo' (P : A → Prop) : yields inp lo (fail_at f) lo' P.
Proof. intros c c' a' _ [=]. Qed.

Lemma yields_take inp lo n :
  0 ≤ lo → yields inp lo (Cursor.take n) (lo + n) (λ bs, zlen bs ≤ zlen inp - lo).
Proof.
  intros Hlo c c' bs (<- & Hc & Hl) (-> & -> & Hle)%take_Ok. split; [repeat split; cbn; lia|].
  unfold slice, zlen in *. rewrite length_take, length_drop. lia.
Qed.

Lemma yields_int {A} inp lo n (f : bytes → A) :
  0 ≤ lo → yields inp lo (bs ← Cursor.take n; mret (f bs)) (lo + n) (λ _, True).
Proof.
  intros Hlo. eapply yields_bind; [by apply yields_take|]. intros bs _. by apply yields_ret.
Qed.

Lemma decode_exact_agree {A} inp max (d1 d2 : decoder A) :
  agree inp 0 d1 d2 → decode_exact inp max d1 = decode_exact inp max d2.
Proof.
  intros Hd. unfold decode_exact, Cursor.new. destruct (_ >? _); [done|].
  cbn [mbind result_bind]. by rewrite (Hd _ (at_least_start inp)).
Qed.

Section safe_readers.
Lemma safe_read_u8 : safe Cursor.read_u8.
Proof. apply safe_bind; [by apply safe_take|auto with i2pr]. Qed.
Lemma safe_read_u16 : safe Cursor.read_u16.
Proof. apply safe_bind; [by apply safe_take|auto with i2pr]. Qed.
Lemma safe_read_u32 : safe Cursor.read_u32.
Proof. apply safe_bind; [by apply safe_take|auto with i2pr]. Qed.
Lemma safe_read_u64 : safe Cursor.read_u64.
Proof. apply safe_bind; [by apply safe_take|auto with i2pr]. Qed.
End safe_readers.
#[export] Hint Resolve safe_read_u8 safe_read_u16 safe_read_u32 safe_read_u64 : i2pr.

(** ** Properties *)

(** [decode_exact] accepts an input only when the decoder consumed all of
    it: for every safe decoder, success means the input respects the caller's
    limit and the decoder, started at offset zero, stopped exactly at the end
    of the input; every input above the limit is refused before decoding. *)
Theorem decode_exact_strict {A} (inp : bytes) (max : Z) (d : decoder A) (Hd : safe d) :
  (∀ a, decode_exact inp max d = Ok a ↔
        zlen inp ≤ max ∧ d (mkCursor inp 0) = (mkCursor inp (zlen inp), Ok a)) ∧
  (max < zlen inp →
   decode_exact inp max d = Err (LengthExceeded 0 (zlen inp) max "cursor input")).
Proof.
  assert (Hc : cursor_ok (mkCursor inp 0)) by (split; cbn; [lia|apply zlen_nonneg]).
  destruct (Hd _ Hc) as [Hi Ho]. unfold decode_exact, Cursor.new. split.
  - intros a. destruct (zlen inp >? max) eqn:E; breflect; cbn.
    { split; [done|]. intros [? _]. lia. }
    destruct (d (mkCursor inp 0)) as [c' [a'|e]] eqn:Ed; cbn in *;
      [|by split; [|intros [_ ?]]].
    unfold Cursor.finish, Cursor.is_empty, Cursor.remaining, saturating_sub.
    destruct c' as [i' o']. cbn in *. subst i'.
    destruct (_ =? _) eqn:E2; cbn; breflect.
    + replace o' with (zlen inp) by lia. split; [intros [= ->]; by split|].
      by intros [_ [= ->]].
    + split; [done|]. intros [_ [= Heq _]]. lia.
  - intros Hlt. destruct (zlen inp >? max) eqn:E; breflect; [done|lia].
Qed.

(** A length-prefixed field is written all or nothing.  The writer
    succeeds exactly when the field respects the caller's limit, the width of
    its prefix and the output limit, and then the output grows by the
    big-endian prefix and the bytes; in every other case it returns an error
    and leaves the output as it was. *)
Theorem write_length_prefixed_atomic bs max width n context b
    (Hb : zlen (output b) ≤ maximum b) (Hmax : maximum b ≤ usize_max)
    (Hwidth : prefix_width width = Some n) :
  if decide (zlen bs ≤ max ∧ zlen bs ≤ width ∧
             zlen (output b) + Z.of_nat n + zlen bs ≤ maximum b)
  then Buffer.write_length_prefixed bs max width context b =
       (Buffer.append (to_be n (zlen bs) ++ bs) b, Ok ())
  else (Buffer.write_length_prefixed bs max width context b).1 = b ∧
       is_ok (Buffer.write_length_prefixed bs max width context b).2 = false.
Proof.
  case_decide as Hd.
  - destruct Hd as (H1 & H2 & H3).
    eapply writes_ok; [by apply writes_length_prefixed| |done].
    rewrite zlen_app, zlen_to_be. lia.
  - unfold Buffer.write_length_prefixed. fold (prefix_width width). rewrite Hwidth.
    repeat step_match; cbn; try done. breflect. exfalso. apply Hd.
    apply checked_add_Some in E1 as [-> ?]. apply checked_add_Some in E2 as [-> ?]. lia.
Qed.

(** A byte string written behind an 8-, 16- or 32-bit length prefix is
    read back unchanged by the matching reader, wherever it stands in the
    input, and the cursor stops right behind it. *)
Theorem length_prefixed_roundtrip (w : bytes) (max : Z) (b b' : EncodeBuffer)
    (Hb : zlen (output b) ≤ maximum b) :
  (Buffer.write_bytes_u8 w max b = (b', Ok ()) →
   ∃ f, output b' = output b ++ f ∧ reads (Cursor.read_bytes_u8 max) f w) ∧
  (Buffer.write_bytes_u16 w max b = (b', Ok ()) →
   ∃ f, output b' = output b ++ f ∧ reads (Cursor.read_bytes_u16 max) f w) ∧
  (Buffer.write_bytes_u32 w max b = (b', Ok ()) →
   ∃ f, output b' = output b ++ f ∧ reads (Cursor.read_bytes_u32 max) f w).
Proof.
  assert (G : ∀ width n ctx, prefix_width width = Some n →
    Buffer.write_length_prefixed w max width ctx b = (b', Ok ()) →
    zlen w ≤ max ∧ zlen w ≤ width ∧ output b' = output b ++ to_be n (zlen w) ++ w).
  { intros width n ctx Hn He.
    assert (zlen w ≤ max ∧ zlen w ≤ width) as [H1 H2].
    { revert He. unfold Buffer.write_length_prefixed.
      destruct (zlen w >? max) eqn:E1; [done|].
      destruct (zlen w >? width) eqn:E2; [done|]. breflect. done. }
    split_and!; [done..|].
    eapply writes_inv in He as [-> _]; [done|by apply writes_length_prefixed|done]. }
  split_and!; intros He;
    (eapply G in He as (H1 & H2 & H3); [|reflexivity]); eexists; (split; [exact H3|]).
  - by apply reads_bytes_u8.
  - by apply reads_bytes_u16.
  - by apply reads_bytes_u32.
Qed.

(** ** Witnesses *)
Lemma decode_exact_strict_witness :
  decode_exact [0x01; 0x02] 16 Cursor.read_u16 = Ok 258.
Proof.
  apply (decode_exact_strict [0x01; 0x02] 16 Cursor.read_u16 safe_read_u16).
  split; [vm_compute; discriminate|reflexivity].
Defined.

Lemma write_length_prefixed_atomic_witness :
  Buffer.write_length_prefixed [7; 8] 10 u8_max "u8-prefixed field" (mkBuffer [1] 1 4) =
  (mkBuffer [1; 2; 7; 8] 1 4, Ok ()).
Proof.
  pose proof (write_length_prefixed_atomic [7; 8] 10 u8_max 1 "u8-prefixed field"
    (mkBuffer [1] 1 4) ltac:(vm_compute; discriminate) ltac:(vm_compute; discriminate)
    eq_refl) as H.
  exact H.
Defined.

Lemma length_prefixed_roundtrip_witness :
  ∃ f, output (mkBuffer [9; 0; 2; 7; 8] 1 5) = [9] ++ f ∧
       reads (Cursor.read_bytes_u16 10) f [7; 8].
Proof.
  apply (length_prefixed_roundtrip [7; 8] 10 (mkBuffer [9] 1 5)
    (mkBuffer [9; 0; 2; 7; 8] 1 5) ltac:(vm_compute; discriminate)).
  reflexivity.
Defined.
