(* ===== verification/Common.v ===== *)
(** * Shared pieces of the common structures

    Models the head of [src/crates/i2pr-proto/src/common/mod.rs], [keys.rs],
    [hash.rs] and [date.rs]: limits, error helpers, text rules, key and
    signature types with their lengths, and typed keys. *)
From S2P Require Import Prelude Utf8 Codec.

Definition MAX_COMMON_STRUCTURE_SIZE : Z := 1024 * 1024.
Definition MAX_MAPPING_BODY_SIZE : Z := u16_max.
Definition MAX_ROUTER_ADDRESSES : Z := u8_max.
Definition MAX_LEASES : Z := 16.
Definition KEY_AREA_SIZE : Z := 384.
Definition LEGACY_PUBLIC_KEY_SIZE : Z := 256.
Definition LEGACY_SIGNING_KEY_SIZE : Z := 128.

Definition invalid (off : Z) (context : string) : CodecError := InvalidFieldValue off context.
Definition unsupported (off : Z) (context : string) (value : Z) : CodecError :=
  Unsupported off context value.

Definition checked_sub (a b : Z) : option Z := if b <=? a then Some (a - b) else None.

(** Strings are compared by their UTF-16 code units, as Java does. *)
Fixpoint units_cmp (l k : list Z) : comparison :=
  match l, k with
  | [], [] => Eq
  | [], _ :: _ => Lt
  | _ :: _, [] => Gt
  | x :: l', y :: k' => match x ?= y with Eq => units_cmp l' k' | c => c end
  end.

Definition java_string_cmp (left right : bytes) : comparison :=
  units_cmp (encode_utf16 left) (encode_utf16 right).

Definition validate_text (value : bytes) (allow_empty : bool) (context : string)
    : result CodecError () :=
  let length := zlen value in
  if (negb allow_empty && (length =? 0)) || (length >? u8_max)
  then Err (LengthExceeded 0 length u8_max context)
  else if existsb is_control (chars value) then Err (invalid 0 context)
  else Ok ().

(** [take_array::<N>]: the conversion of an [N]-byte slice cannot fail. *)
Definition take_array (n : Z) : decoder bytes := Cursor.take n.

Definition hash_decode_from : decoder bytes := take_array 32.
Definition hash_encode_into (h : bytes) : encoder () := Buffer.write_raw h.
Definition date_decode_from : decoder Z := Cursor.read_u64.
Definition date_encode_into (d : Z) : encoder () := Buffer.write_u64 d.

(** ** Key types *)
Module Signing.
Inductive SigningKeyType :=
  | DsaSha1 | EcdsaSha256P256 | EcdsaSha384P384 | EcdsaSha512P521
  | RsaSha2562048 | RsaSha3843072 | RsaSha5124096
  | EdDsaSha512Ed25519 | EdDsaSha512Ed25519ph | RedDsaSha512Ed25519
  | Unknown (value : Z).

#[global] Instance SigningKeyType_eq_dec : EqDecision SigningKeyType.
Proof. solve_decision. Defined.

Definition from_code (value : Z) : SigningKeyType :=
  if value =? 0 then DsaSha1
  else if value =? 1 then EcdsaSha256P256
  else if value =? 2 then EcdsaSha384P384
  else if value =? 3 then EcdsaSha512P521
  else if value =? 4 then RsaSha2562048
  else if value =? 5 then RsaSha3843072
  else if value =? 6 then RsaSha5124096
  else if value =? 7 then EdDsaSha512Ed25519
  else if value =? 8 then EdDsaSha512Ed25519ph
  else if value =? 11 then RedDsaSha512Ed25519
  else Unknown value.

Definition code (t : SigningKeyType) : Z :=
  match t with
  | DsaSha1 => 0 | EcdsaSha256P256 => 1 | EcdsaSha384P384 => 2 | EcdsaSha512P521 => 3
  | RsaSha2562048 => 4 | RsaSha3843072 => 5 | RsaSha5124096 => 6
  | EdDsaSha512Ed25519 => 7 | EdDsaSha512Ed25519ph => 8 | RedDsaSha512Ed25519 => 11
  | Unknown value => value
  end.

Definition public_key_len (t : SigningKeyType) : option Z :=
  match t with
  | DsaSha1 => Some 128 | EcdsaSha256P256 => Some 64 | EcdsaSha384P384 => Some 96
  | EcdsaSha512P521 => Some 132 | RsaSha2562048 => Some 256 | RsaSha3843072 => Some 384
  | RsaSha5124096 => Some 512
  | EdDsaSha512Ed25519 | EdDsaSha512Ed25519ph | RedDsaSha512Ed25519 => Some 32
  | Unknown _ => None
  end.

Definition signature_len (t : SigningKeyType) : option Z :=
  match t with
  | DsaSha1 => Some 40 | EcdsaSha256P256 => Some 64 | EcdsaSha384P384 => Some 96
  | EcdsaSha512P521 => Some 132 | RsaSha2562048 => Some 256 | RsaSha3843072 => Some 384
  | RsaSha5124096 => Some 512
  | EdDsaSha512Ed25519 | EdDsaSha512Ed25519ph | RedDsaSha512Ed25519 => Some 64
  | Unknown _ => None
  end.
End Signing.
Abbreviation SigningKeyType := Signing.SigningKeyType.

Module Crypto.
Inductive CryptoKeyType :=
  | ElGamal | P256 | P384 | P521 | X25519
  | MlKem512X25519 | MlKem768X25519 | MlKem1024X25519
  | Unknown (value : Z).

#[global] Instance CryptoKeyType_eq_dec : EqDecision CryptoKeyType.
Proof. solve_decision. Defined.

Definition from_code (value : Z) : CryptoKeyType :=
  if value =? 0 then ElGamal
  else if value =? 1 then P256
  else if value =? 2 then P384
  else if value =? 3 then P521
  else if value =? 4 then X25519
  else if value =? 5 then MlKem512X25519
  else if value =? 6 then MlKem768X25519
  else if value =? 7 then MlKem1024X25519
  else Unknown value.

Definition code (t : CryptoKeyType) : Z :=
  match t with
  | ElGamal => 0 | P256 => 1 | P384 => 2 | P521 => 3 | X25519 => 4
  | MlKem512X25519 => 5 | MlKem768X25519 => 6 | MlKem1024X25519 => 7
  | Unknown value => value
  end.

Definition public_key_len (t : CryptoKeyType) : option Z :=
  match t with
  | ElGamal => Some 256 | P256 => Some 64 | P384 => Some 96 | P521 => Some 132
  | X25519 | MlKem512X25519 | MlKem768X25519 | MlKem1024X25519 => Some 32
  | Unknown _ => None
  end.

Definition allowed_in_identity (t : CryptoKeyType) : bool :=
  match t with ElGamal | X25519 => true | _ => false end.
End Crypto.
Abbreviation CryptoKeyType := Crypto.CryptoKeyType.

(** ** Typed keys and signatures *)
Record PublicKey := mkPublicKey { public_type : CryptoKeyType; public_bytes : bytes }.
Record SigningPublicKey := mkSigningKey { signing_type : SigningKeyType; signing_bytes : bytes }.
Record SignatureValue := mkSignature { signature_type : SigningKeyType; signature_bytes : bytes }.

Definition public_key_new (t : CryptoKeyType) (bs : bytes) : result CodecError PublicKey :=
  match Crypto.public_key_len t with
  | None => Err (unsupported 0 "encryption key type" (Crypto.code t))
  | Some expected =>
      if negb (zlen bs =? expected) then Err (invalid 0 "encryption public key length")
      else Ok (mkPublicKey t bs)
  end.

Definition signing_key_new (t : SigningKeyType) (bs : bytes) : result CodecError SigningPublicKey :=
  match Signing.public_key_len t with
  | None => Err (unsupported 0 "signing key type" (Signing.code t))
  | Some expected =>
      if negb (zlen bs =? expected) then Err (invalid 0 "signing public key length")
      else Ok (mkSigningKey t bs)
  end.

Definition signature_new (t : SigningKeyType) (bs : bytes) : result CodecError SignatureValue :=
  match Signing.signature_len t with
  | None => Err (unsupported 0 "signature type" (Signing.code t))
  | Some expected =>
      if negb (zlen bs =? expected) then Err (invalid 0 "signature length")
      else Ok (mkSignature t bs)
  end.

(** ** Their invariants: the lengths the constructors check *)
Definition public_key_ok (k : PublicKey) : Prop :=
  Crypto.public_key_len (public_type k) = Some (zlen (public_bytes k)).
Definition signing_key_ok (k : SigningPublicKey) : Prop :=
  Signing.public_key_len (signing_type k) = Some (zlen (signing_bytes k)).
Definition signature_ok (s : SignatureValue) : Prop :=
  Signing.signature_len (signature_type s) = Some (zlen (signature_bytes s)).

(** A constructor that succeeds exactly on values of the length [len]. *)
Ltac checked_length len bs :=
  let n := fresh "n" in let E := fresh "E" in let E2 := fresh "E2" in
  destruct len as [n|] eqn:E; [destruct (zlen bs =? n) eqn:E2; breflect; cbn [negb]|];
    (split; [first [intros <-%Ok_inj; cbn; rewrite E; split; congruence|done]
            |intros [-> ?]; cbn in *; first [done|congruence]]).

Lemma public_key_new_exact t bs k :
  public_key_new t bs = Ok k ↔ k = mkPublicKey t bs ∧ public_key_ok k.
Proof. unfold public_key_new, public_key_ok. checked_length (Crypto.public_key_len t) bs. Qed.

Lemma signing_key_new_exact t bs k :
  signing_key_new t bs = Ok k ↔ k = mkSigningKey t bs ∧ signing_key_ok k.
Proof. unfold signing_key_new, signing_key_ok. checked_length (Signing.public_key_len t) bs. Qed.

Lemma signature_new_exact t bs s :
  signature_new t bs = Ok s ↔ s = mkSignature t bs ∧ signature_ok s.
Proof. unfold signature_new, signature_ok. checked_length (Signing.signature_len t) bs. Qed.

(** Known types have codes that decode to them and lengths in range. *)
Lemma signing_code_known t n :
  Signing.public_key_len t = Some n →
  Signing.from_code (Signing.code t) = t ∧ fits 16 (Signing.code t) ∧ 32 ≤ n ≤ 512.
Proof. destruct t; intros [= <-]; unfold fits; cbn; split_and!; done || lia. Qed.

Lemma crypto_code_known t n :
  Crypto.public_key_len t = Some n →
  Crypto.from_code (Crypto.code t) = t ∧ fits 16 (Crypto.code t) ∧ 32 ≤ n ≤ 256.
Proof. destruct t; intros [= <-]; unfold fits; cbn; split_and!; done || lia. Qed.

Lemma signing_from_code_code v : Signing.code (Signing.from_code v) = v.
Proof. unfold Signing.from_code. repeat case_match; breflect; by subst. Qed.
Lemma crypto_from_code_code v : Crypto.code (Crypto.from_code v) = v.
Proof. unfold Crypto.from_code. repeat case_match; breflect; by subst. Qed.

Lemma signature_len_known t n : Signing.signature_len t = Some n → 40 ≤ n ≤ 512.
Proof. destruct t; intros [= <-]; lia. Qed.

(** ** Signatures at the end of a record *)
Definition read_typed_signature (e : CodecError) (st : SigningKeyType) : decoder SignatureValue :=
  match Signing.signature_len st with
  | None => fail e
  | Some len => bs ← Cursor.take len; lift (signature_new st bs)
  end.

Lemma reads_typed_signature e st sig :
  signature_ok sig → signature_type sig = st →
  reads (read_typed_signature e st) (signature_bytes sig) sig.
Proof.
  intros Hs <-. unfold read_typed_signature. pose proof Hs as Hl. unfold signature_ok in Hl. rewrite Hl.
  eapply reads_map; [apply reads_take|]. apply reads_lift, signature_new_exact.
  split; [by destruct sig|done].
Qed.

Lemma consumes_typed_signature e st :
  consumes (read_typed_signature e st)
    (λ sig w, signature_ok sig ∧ signature_type sig = st ∧ w = signature_bytes sig).
Proof.
  unfold read_typed_signature. destruct (Signing.signature_len st) as [len|] eqn:E; [|apply consumes_fail].
  apply signature_len_known in E. eapply consumes_bind; [apply consumes_take; lia|].
  intros bs w _ [-> _]. apply consumes_lift. intros sig [-> Hs]%signature_new_exact.
  by rewrite app_nil_r.
Qed.

(** ** Records inside other messages

    What a record codec offers to a message that carries the record, and what
    it promises: well-formed values survive, and nothing but the encoding of a
    well-formed value is accepted. *)
Class WireRecord (A : Type) := {
  record_decode : bytes → Z → result CodecError A;
  record_encode : A → Z → result CodecError bytes;
  record_ok : A → Prop;
}.

Class WireRecordLaws (A : Type) `{WireRecord A} : Prop := {
  record_roundtrip v max w :
    record_ok v → record_encode v max = Ok w → record_decode w (zlen w) = Ok v;
  record_canonical w n v max :
    bytes_ok w → record_decode w n = Ok v → zlen w ≤ max ≤ usize_max →
    record_ok v ∧ record_encode v max = Ok w;
}.

(** ** Signed records

    LeaseSets and RouterInfos keep the bytes before their signature.  Their
    decoders end the same way: read the fields, note the offset, read a
    signature of the type the fields call for, and require the end of the
    input; their encoders write the retained bytes and the signature. *)
Definition decode_signed {U V} (fields : decoder U) (signer : U → SigningKeyType)
    (unknown : U → Z → CodecError) (build : U → bytes → SignatureValue → V)
    (inp : bytes) (max : Z) : result CodecError V :=
  decode_exact inp max
    (u ← fields;
     signed_end ← gets offset;
     sig ← read_typed_signature (unknown u signed_end) (signer u);
     mret (build u (slice 0 signed_end inp) sig)).

Definition encode_signed (signed : bytes) (sig : SignatureValue) (max : Z)
    : result CodecError bytes :=
  encode_to_vec max (_ ← Buffer.write_raw signed; Buffer.write_raw (signature_bytes sig)).

Lemma writes_signed (s g : bytes) : writes (_ ← Buffer.write_raw s; Buffer.write_raw g) (s ++ g).
Proof. apply writes_bind; apply writes_write. Qed.

Section signed.
Context {U V : Type} (ok : U → Prop) (wire : U → bytes) (fields : decoder U).
Context (signer : U → SigningKeyType) (unknown : U → Z → CodecError).
Context (build : U → bytes → SignatureValue → V) (encode : V → Z → result CodecError bytes).
Context (Hreads : ∀ u, ok u → reads fields (wire u) u).
Context (Hconsumes : consumes fields (λ u w, ok u ∧ w = wire u)).
Context (Hencode : ∀ u b sig max, encode (build u b sig) max = encode_signed b sig max).
Context (Hsize : ∀ u, ok u → zlen (wire u) ≤ u32_max).

(** A record whose retained bytes are the encoding of its fields. *)
Definition signed_record (v : V) : Prop := ∃ u sig,
  ok u ∧ signature_ok sig ∧ signature_type sig = signer u ∧ v = build u (wire u) sig.

Lemma signed_fits u sig :
  ok u → signature_ok sig → zlen (wire u ++ signature_bytes sig) ≤ usize_max.
Proof using Hsize.
  intros Hu%Hsize Hs%signature_len_known. rewrite zlen_app. unfold u32_max, usize_max in *. lia.
Qed.

Lemma decode_signed_reads u sig max :
  ok u → signature_ok sig → signature_type sig = signer u →
  zlen (wire u ++ signature_bytes sig) ≤ max ≤ usize_max →
  decode_signed fields signer unknown build (wire u ++ signature_bytes sig) max =
  Ok (build u (wire u) sig).
Proof using Hreads.
  intros Hu Hs Hst [Hm Hmax].
  apply (signed_reads fields (λ u off, sig ← read_typed_signature (unknown u off) (signer u); _)
    _ _ u);
    [by apply Hreads| |done|done].
  eapply reads_map; [by apply reads_typed_signature|].
  rewrite (slice_app_start _ _ _ eq_refl). apply reads_ret.
Qed.

Lemma decode_signed_inv inp max v :
  bytes_ok inp → decode_signed fields signer unknown build inp max = Ok v →
  zlen inp ≤ max ∧ signed_record v ∧ encode v usize_max = Ok inp.
Proof using Hconsumes Hencode Hsize.
  intros Hb Hd. unfold decode_signed in Hd.
  apply (signed_consumes _ _ fields
    (λ u off, sig ← read_typed_signature (unknown u off) (signer u); _) _
    (λ u off v w, ∃ sig, signature_ok sig ∧ signature_type sig = signer u ∧
       w = signature_bytes sig ∧ v = build u (slice 0 off inp) sig) _ Hconsumes) in Hd;
    [|intros u off w _|done].
  - destruct Hd as [Hm (u & w1 & w2 & -> & [Hu ->] & sig & Hs & Hst & -> & ->)].
    rewrite (slice_app_start _ _ _ eq_refl). split_and!; [done|by exists u, sig|].
    rewrite Hencode. apply encode_to_vec_writes; [apply writes_signed|by apply signed_fits|done].
  - eapply consumes_bind; [apply consumes_typed_signature|intros sig w' _ (Hs & Hst & ->)].
    apply consumes_ret. exists sig. by rewrite app_nil_r.
Qed.

Lemma signed_encode_inv v max inp :
  signed_record v → encode v max = Ok inp → zlen inp ≤ usize_max ∧ zlen inp ≤ max ∧
  ∀ n, zlen inp ≤ n ≤ usize_max → decode_signed fields signer unknown build inp n = Ok v.
Proof using Hreads Hencode Hsize.
  intros (u & sig & Hu & Hs & Hst & ->). rewrite Hencode. intros He.
  assert (Hm : 0 ≤ max).
  { revert He. unfold encode_signed, encode_to_vec, Buffer.new. change (zlen (@nil Z)) with 0.
    destruct (0 >? max) eqn:E; breflect; done. }
  apply (writes_encode_to_vec _ (wire u ++ signature_bytes sig)) in He as [-> Hle];
    [|apply writes_signed|done].
  split_and!; [by apply signed_fits|done|]. intros n Hn. by apply decode_signed_reads.
Qed.

(** The codec of a signed record is exact. *)
Lemma signed_exact inp max v :
  bytes_ok inp → max ≤ usize_max →
  decode_signed fields signer unknown build inp max = Ok v ↔
  zlen inp ≤ max ∧ signed_record v ∧ encode v usize_max = Ok inp.
Proof using Hreads Hconsumes Hencode Hsize.
  intros Hb Hmax. split; [by apply decode_signed_inv|].
  intros (Hm & Hv & He). by apply (signed_encode_inv _ _ _ Hv He).
Qed.

(** It can be carried by other messages. *)
Lemma signed_record_laws (wf : V → Prop) :
  (∀ v, wf v ↔ signed_record v) →
  @WireRecordLaws V {| record_decode := decode_signed fields signer unknown build;
                       record_encode := encode; record_ok := wf |}.
Proof using Hreads Hconsumes Hencode Hsize.
  intros Hwf. split; cbn.
  - intros v max w Hok%Hwf He. destruct (signed_encode_inv _ _ _ Hok He) as (Hu & _ & Hd).
    by apply Hd.
  - intros w n v max Hb (Hn & Hok & He)%decode_signed_inv [Hm Hmax]; [|done].
    split; [by apply Hwf|]. destruct Hok as (u & sig & Hu & Hs & Hst & ->).
    rewrite Hencode in *.
    apply (writes_encode_to_vec _ (wire u ++ signature_bytes sig)) in He as [-> _];
      [|apply writes_signed|done].
    by apply encode_to_vec_writes; [apply writes_signed| |].
Qed.

(** Two records with the same signed bytes have the same fields: a signature
    over them covers one record only. *)
Lemma signed_fields_inj u1 u2 : ok u1 → ok u2 → wire u1 = wire u2 → u1 = u2.
Proof using Hreads Hsize.
  intros H1 H2 Heq.
  pose proof (Hreads u1 H1 [] []) as R1. pose proof (Hreads u2 H2 [] []) as R2.
  cbn [app] in R1, R2. rewrite app_nil_r in R1, R2. rewrite <- Heq in R2.
  pose proof (Hsize u1 H1). rewrite R1 in R2; [|unfold u32_max, usize_max in *; lia].
  assert (zlen (wire u1) ≤ usize_max) as Hz by (unfold u32_max, usize_max in *; lia).
  by specialize (R2 Hz) as [= ->].
Qed.
End signed.

(** A record with a canonical codec can be carried by other messages. *)
Lemma canonical_record_laws {A} ok wire (d : decoder A) e :
  canonical ok wire d e → (∀ a, ok a → zlen (wire a) ≤ u32_max) →
  @WireRecordLaws A {| record_decode := λ inp max, decode_exact inp max d;
                       record_encode := λ a max, encode_to_vec max (e a); record_ok := ok |}.
Proof.
  intros [Hr Hc Hw] Hsize. split; cbn.
  - intros v max w Hok He. pose proof (Hsize v Hok) as Hz.
    assert (Hm : 0 ≤ max).
    { revert He. unfold encode_to_vec, Buffer.new. change (zlen (@nil Z)) with 0.
      destruct (0 >? max) eqn:E; breflect; done. }
    apply (writes_encode_to_vec _ (wire v)) in He as [-> _]; [|by apply Hw|done].
    apply reads_decode_exact; [by apply Hr|done|unfold u32_max, usize_max in *; lia].
  - intros w n v max Hb (Hn & Hok & ->)%(consumes_decode_exact _ _ _ _ _ Hc) Hmax; [|done].
    split; [done|]. apply encode_to_vec_writes; [by apply Hw|lia|lia].
Qed.
