(* ===== verification/Identity.v ===== *)
(** * Certificates and identities

    Models [src/crates/i2pr-proto/src/common/certificate.rs] and
    [identity.rs]: certificates, the key area with its certificate, router
    identities and destinations. *)
From S2P Require Import Prelude Utf8 Codec Common.

(** ** Certificates *)
Record KeyCertificate := mkKeyCert {
  kc_signing_type : SigningKeyType;
  kc_crypto_type : CryptoKeyType;
  excess_signing : bytes;
  excess_crypto : bytes;
}.

Inductive Certificate :=
  | CertNull
  | CertKey (key : KeyCertificate)
  | CertUnsupported (type_code : Z) (payload : bytes).

Module KeyCert.
Definition new (st : SigningKeyType) (ct : CryptoKeyType) (es ec : bytes)
    : result CodecError KeyCertificate :=
  match Signing.public_key_len st with
  | None => Err (unsupported 0 "signing key type" (Signing.code st))
  | Some signing_len =>
  match Crypto.public_key_len ct with
  | None => Err (unsupported 0 "encryption key type" (Crypto.code ct))
  | Some crypto_len =>
      if negb (zlen es =? saturating_sub signing_len LEGACY_SIGNING_KEY_SIZE)
         || negb (zlen ec =? saturating_sub crypto_len LEGACY_PUBLIC_KEY_SIZE)
      then Err (invalid 0 "key certificate excess data length")
      else Ok (mkKeyCert st ct es ec)
  end
  end.

Definition for_types (st : SigningKeyType) (ct : CryptoKeyType)
    : result CodecError KeyCertificate :=
  match Signing.public_key_len st with
  | None => Err (unsupported 0 "signing key type" (Signing.code st))
  | Some signing_len =>
  match Crypto.public_key_len ct with
  | None => Err (unsupported 0 "encryption key type" (Crypto.code ct))
  | Some crypto_len =>
      new st ct
        (replicate (Z.to_nat (saturating_sub signing_len LEGACY_SIGNING_KEY_SIZE)) 0)
        (replicate (Z.to_nat (saturating_sub crypto_len LEGACY_PUBLIC_KEY_SIZE)) 0)
  end
  end.

Definition read_payload : decoder (SigningKeyType * CryptoKeyType * bytes * bytes) :=
  s ← Cursor.read_u16;
  c ← Cursor.read_u16;
  let st := Signing.from_code s in
  let ct := Crypto.from_code c in
  match Signing.public_key_len st with
  | None => fail (unsupported 0 "signing key type" (Signing.code st))
  | Some signing_len =>
  match Crypto.public_key_len ct with
  | None => fail (unsupported 2 "encryption key type" (Crypto.code ct))
  | Some crypto_len =>
      es ← Cursor.take (saturating_sub signing_len LEGACY_SIGNING_KEY_SIZE);
      ec ← Cursor.take (saturating_sub crypto_len LEGACY_PUBLIC_KEY_SIZE);
      mret (st, ct, es, ec)
  end
  end.

Definition decode_payload (payload : bytes) : result CodecError KeyCertificate :=
  '(st, ct, es, ec) ← decode_exact payload (zlen payload) read_payload;
  new st ct es ec.

Definition encode_payload (k : KeyCertificate) : bytes :=
  to_be 2 (Signing.code (kc_signing_type k)) ++ to_be 2 (Crypto.code (kc_crypto_type k)) ++
  excess_signing k ++ excess_crypto k.
End KeyCert.

Module Cert.
(** The arms for the types 1, 2, 3, 4 and other build the same value. *)
Definition decode_from : decoder Certificate :=
  type_code ← Cursor.read_u8;
  payload_len ← Cursor.read_u16;
  payload ← Cursor.take payload_len;
  if type_code =? 0 then
    if zlen payload =? 0 then mret CertNull else fail (invalid 0 "null certificate payload")
  else if type_code =? 5 then
    k ← lift (KeyCert.decode_payload payload); mret (CertKey k)
  else mret (CertUnsupported type_code payload).

Definition encode_into (c : Certificate) : encoder () :=
  match c with
  | CertNull => _ ← Buffer.write_u8 0; Buffer.write_u16 0
  | CertKey key =>
      let payload := KeyCert.encode_payload key in
      _ ← Buffer.write_u8 5;
      match try_from u16_max (zlen payload) with
      | None => fail (invalid 0 "key certificate")
      | Some len => _ ← Buffer.write_u16 len; Buffer.write_raw payload
      end
  | CertUnsupported type_code payload =>
      _ ← Buffer.write_u8 type_code;
      match try_from u16_max (zlen payload) with
      | None => fail (invalid 0 "certificate payload")
      | Some len => _ ← Buffer.write_u16 len; Buffer.write_raw payload
      end
  end.

Definition decode (inp : bytes) (max : Z) : result CodecError Certificate :=
  decode_exact inp max decode_from.
Definition encode (c : Certificate) (max : Z) : result CodecError bytes :=
  encode_to_vec max (encode_into c).
End Cert.

(** ** Keys and certificate *)
Record KeyAndCert := mkKeyAndCert {
  public_key : PublicKey;
  signing_key : SigningPublicKey;
  padding : bytes;
  certificate : Certificate;
}.

Module Keys.
Definition validate (k : KeyAndCert) : result CodecError () :=
  match Crypto.public_key_len (public_type (public_key k)) with
  | None => Err (unsupported 0 "encryption key type" (Crypto.code (public_type (public_key k))))
  | Some public_len =>
  match Signing.public_key_len (signing_type (signing_key k)) with
  | None => Err (unsupported 0 "signing key type" (Signing.code (signing_type (signing_key k))))
  | Some signing_len =>
  if public_len >? LEGACY_PUBLIC_KEY_SIZE
  then Err (unsupported 0 "identity encryption key layout"
              (Crypto.code (public_type (public_key k))))
  else
  match (rem ← checked_sub KEY_AREA_SIZE public_len;
         checked_sub rem (Z.min signing_len LEGACY_SIGNING_KEY_SIZE)) with
  | None => Err (invalid 0 "identity key area")
  | Some expected_padding =>
  if negb (zlen (padding k) =? expected_padding)
  then Err (invalid 0 "identity key padding length")
  else
  match certificate k with
  | CertNull =>
      if bool_decide (public_type (public_key k) ≠ Crypto.ElGamal)
         || bool_decide (signing_type (signing_key k) ≠ Signing.DsaSha1)
         || negb (zlen (public_bytes (public_key k)) =? LEGACY_PUBLIC_KEY_SIZE)
         || negb (zlen (signing_bytes (signing_key k)) =? LEGACY_SIGNING_KEY_SIZE)
         || negb (zlen (padding k) =? 0)
      then Err (invalid 0 "null certificate key material") else Ok ()
  | CertKey key =>
      if bool_decide (kc_crypto_type key ≠ public_type (public_key k))
         || bool_decide (kc_signing_type key ≠ signing_type (signing_key k))
      then Err (invalid 0 "key certificate algorithm binding")
      else
      let pb := public_bytes (public_key k) in
      let sb := signing_bytes (signing_key k) in
      let public_extra := slice (Z.min LEGACY_PUBLIC_KEY_SIZE public_len) (zlen pb) pb in
      let signing_extra := slice (Z.min LEGACY_SIGNING_KEY_SIZE signing_len) (zlen sb) sb in
      if bool_decide (public_extra ≠ excess_crypto key)
         || bool_decide (signing_extra ≠ excess_signing key)
      then Err (invalid 0 "key certificate excess key material") else Ok ()
  | CertUnsupported type_code _ => Err (unsupported 0 "identity certificate" type_code)
  end
  end
  end
  end.

Definition new (pk : PublicKey) (sk : SigningPublicKey) (pad : bytes) (cert : Certificate)
    : result CodecError KeyAndCert :=
  let key := mkKeyAndCert pk sk pad cert in
  _ ← validate key; Ok key.

(** The key area read against the certificate's key types. *)
Definition split_area (key_area : bytes) (cert : Certificate) (pt : CryptoKeyType)
    (st : SigningKeyType) : result CodecError KeyAndCert :=
  match Crypto.public_key_len pt with
  | None => Err (unsupported 0 "encryption key type" (Crypto.code pt))
  | Some public_len =>
  match Signing.public_key_len st with
  | None => Err (unsupported 0 "signing key type" (Signing.code st))
  | Some signing_len =>
  if public_len >? LEGACY_PUBLIC_KEY_SIZE
  then Err (unsupported 0 "identity encryption key layout" (Crypto.code pt))
  else
  let signing_prefix_len := Z.min signing_len LEGACY_SIGNING_KEY_SIZE in
  match checked_sub KEY_AREA_SIZE (public_len + signing_prefix_len) with
  | None => Err (invalid 0 "identity key area")
  | Some padding_len =>
  let pb := slice 0 public_len key_area in
  let signing_start := KEY_AREA_SIZE - signing_prefix_len in
  let sb := slice signing_start (zlen key_area) key_area in
  let pad := slice public_len (public_len + padding_len) key_area in
  match cert with
  | CertKey key =>
      pk ← public_key_new pt (pb ++ excess_crypto key);
      sk ← signing_key_new st (sb ++ excess_signing key);
      new pk sk pad cert
  | _ =>
      pk ← public_key_new pt pb;
      sk ← signing_key_new st sb;
      new pk sk pad cert
  end
  end
  end
  end.

Definition decode_from : decoder KeyAndCert :=
  key_area ← Cursor.take KEY_AREA_SIZE;
  cert ← Cert.decode_from;
  match cert with
  | CertNull => lift (split_area key_area cert Crypto.ElGamal Signing.DsaSha1)
  | CertKey key => lift (split_area key_area cert (kc_crypto_type key) (kc_signing_type key))
  | CertUnsupported type_code _ => fail (unsupported 384 "identity certificate" type_code)
  end.

Definition encode_into (k : KeyAndCert) : encoder () :=
  _ ← lift (validate k);
  let pb := public_bytes (public_key k) in
  let sb := signing_bytes (signing_key k) in
  _ ← Buffer.write_raw (slice 0 (Z.min (zlen pb) LEGACY_PUBLIC_KEY_SIZE) pb);
  _ ← Buffer.write_raw (padding k);
  _ ← Buffer.write_raw (slice 0 (Z.min (zlen sb) LEGACY_SIGNING_KEY_SIZE) sb);
  Cert.encode_into (certificate k).

Definition decode (inp : bytes) (max : Z) : result CodecError KeyAndCert :=
  decode_exact inp max decode_from.
Definition encode (k : KeyAndCert) (max : Z) : result CodecError bytes :=
  encode_to_vec max (encode_into k).
End Keys.

(** ** Router identities and destinations *)
Record RouterIdentity := mkRouterIdentity { identity_keys : KeyAndCert }.
Record Destination := mkDestination { destination_keys : KeyAndCert }.

Definition identity_new (k : KeyAndCert) : result CodecError RouterIdentity :=
  if negb (Crypto.allowed_in_identity (public_type (public_key k)))
  then Err (PolicyRejected 0 "router identity encryption algorithm")
  else Ok (mkRouterIdentity k).
Definition identity_decode_from : decoder RouterIdentity :=
  k ← Keys.decode_from; lift (identity_new k).
Definition identity_decode (inp : bytes) (max : Z) : result CodecError RouterIdentity :=
  decode_exact inp max identity_decode_from.
Definition identity_encode (i : RouterIdentity) (max : Z) : result CodecError bytes :=
  encode_to_vec max (Keys.encode_into (identity_keys i)).

Definition destination_new (k : KeyAndCert) : result CodecError Destination :=
  if negb (Crypto.allowed_in_identity (public_type (public_key k)))
  then Err (PolicyRejected 0 "destination encryption algorithm")
  else Ok (mkDestination k).
Definition destination_decode_from : decoder Destination :=
  k ← Keys.decode_from; lift (destination_new k).
Definition destination_decode (inp : bytes) (max : Z) : result CodecError Destination :=
  decode_exact inp max destination_decode_from.
Definition destination_encode (d : Destination) (max : Z) : result CodecError bytes :=
  encode_to_vec max (Keys.encode_into (destination_keys d)).
Definition decode_from_cursor (inp : bytes) (max : Z) : result CodecError Destination :=
  c ← Cursor.new inp max; (destination_decode_from c).2.

(** The hashes; [sha256] is the digest of the [sha2] crate. *)
Definition identity_hash (sha256 : bytes → bytes) (i : RouterIdentity) : result CodecError bytes :=
  w ← identity_encode i MAX_COMMON_STRUCTURE_SIZE; Ok (sha256 w).
Definition destination_hash (sha256 : bytes → bytes) (d : Destination) : result CodecError bytes :=
  w ← destination_encode d MAX_COMMON_STRUCTURE_SIZE; Ok (sha256 w).

(** ** The wire format and its invariants *)
Definition key_cert_ok (k : KeyCertificate) : Prop :=
  KeyCert.new (kc_signing_type k) (kc_crypto_type k) (excess_signing k) (excess_crypto k) = Ok k.

Definition cert_ok (c : Certificate) : Prop :=
  match c with
  | CertNull => True
  | CertKey key => key_cert_ok key
  | CertUnsupported type_code payload =>
      fits 8 type_code ∧ type_code ≠ 0 ∧ type_code ≠ 5 ∧ zlen payload ≤ u16_max
  end.

Definition cert_bytes (c : Certificate) : bytes :=
  match c with
  | CertNull => [0] ++ to_be 2 0
  | CertKey key =>
      [5] ++ to_be 2 (zlen (KeyCert.encode_payload key)) ++ KeyCert.encode_payload key
  | CertUnsupported type_code payload => [type_code] ++ to_be 2 (zlen payload) ++ payload
  end.

Definition key_area (k : KeyAndCert) : bytes :=
  let pb := public_bytes (public_key k) in
  let sb := signing_bytes (signing_key k) in
  slice 0 (Z.min (zlen pb) LEGACY_PUBLIC_KEY_SIZE) pb ++ padding k ++
  slice 0 (Z.min (zlen sb) LEGACY_SIGNING_KEY_SIZE) sb.

Definition keys_bytes (k : KeyAndCert) : bytes := key_area k ++ cert_bytes (certificate k).

(** What [KeyAndCert::new] guarantees of its result. *)
Record keys_ok (k : KeyAndCert) : Prop := {
  keys_public : public_key_ok (public_key k);
  keys_signing : signing_key_ok (signing_key k);
  keys_cert : cert_ok (certificate k);
  keys_valid : Keys.validate k = Ok ();
}.

Section certificates.
Lemma key_cert_lengths k :
  key_cert_ok k → ∃ sl cl,
    Signing.public_key_len (kc_signing_type k) = Some sl ∧
    Crypto.public_key_len (kc_crypto_type k) = Some cl ∧
    zlen (excess_signing k) = saturating_sub sl LEGACY_SIGNING_KEY_SIZE ∧
    zlen (excess_crypto k) = saturating_sub cl LEGACY_PUBLIC_KEY_SIZE.
Proof.
  unfold key_cert_ok, KeyCert.new.
  destruct (Signing.public_key_len _) as [sl|]; [|done].
  destruct (Crypto.public_key_len _) as [cl|]; [|done].
  destruct (_ || _) eqn:E; [done|]. breflect. intros _. by exists sl, cl.
Qed.

Lemma key_cert_payload_len k : key_cert_ok k → 4 ≤ zlen (KeyCert.encode_payload k) ≤ 388.
Proof.
  intros (sl & cl & Hs & Hc & He1 & He2)%key_cert_lengths. unfold KeyCert.encode_payload.
  rewrite !zlen_app, !zlen_to_be, He1, He2.
  apply signing_code_known in Hs. apply crypto_code_known in Hc.
  unfold saturating_sub, LEGACY_SIGNING_KEY_SIZE, LEGACY_PUBLIC_KEY_SIZE in *. lia.
Qed.

Lemma decode_payload_ok k :
  key_cert_ok k → KeyCert.decode_payload (KeyCert.encode_payload k) = Ok k.
Proof.
  intros Hk. pose proof (key_cert_payload_len k Hk) as Hlen.
  pose proof (key_cert_lengths k Hk) as (sl & cl & Hs & Hc & He1 & He2).
  unfold KeyCert.decode_payload.
  rewrite (reads_decode_exact KeyCert.read_payload (KeyCert.encode_payload k)
    (kc_signing_type k, kc_crypto_type k, excess_signing k, excess_crypto k)).
  - exact Hk.
  - apply signing_code_known in Hs as Hs'. apply crypto_code_known in Hc as Hc'.
    unfold KeyCert.read_payload, KeyCert.encode_payload.
    eapply reads_bind; [apply reads_u16; tauto|]. eapply reads_bind; [apply reads_u16; tauto|].
    cbv zeta. destruct Hs' as [-> _], Hc' as [-> _]. rewrite Hs, Hc.
    eapply reads_bind; [by apply reads_take_n|].
    eapply reads_map; [by apply reads_take_n|apply reads_ret].
  - lia.
  - unfold usize_max. lia.
Qed.

Lemma consumes_payload :
  consumes KeyCert.read_payload
    (λ '(st, ct, es, ec) w,
       w = to_be 2 (Signing.code st) ++ to_be 2 (Crypto.code ct) ++ es ++ ec).
Proof.
  eapply consumes_bind; [apply consumes_u16|intros s w _ [-> _]].
  eapply consumes_bind; [apply consumes_u16|intros c w _ [-> _]]. cbv zeta.
  destruct (Signing.public_key_len _) as [sl|]; [|apply consumes_fail].
  destruct (Crypto.public_key_len _) as [cl|]; [|apply consumes_fail].
  eapply consumes_bind; [apply consumes_take; unfold saturating_sub; lia|intros es w _ [-> _]].
  eapply consumes_bind; [apply consumes_take; unfold saturating_sub; lia|intros ec w _ [-> _]].
  apply consumes_ret. rewrite signing_from_code_code, crypto_from_code_code.
  by rewrite app_nil_r.
Qed.

Lemma decode_payload_inv p k :
  bytes_ok p → KeyCert.decode_payload p = Ok k → key_cert_ok k ∧ p = KeyCert.encode_payload k.
Proof.
  intros Hok. unfold KeyCert.decode_payload.
  destruct (decode_exact _ _ _) as [[[[st ct] es] ec]|] eqn:E; [|done].
  apply (consumes_decode_exact _ _ _ _ _ consumes_payload Hok) in E as [_ E]. cbn [mbind result_bind].
  intros Hn. assert (Hk : k = mkKeyCert st ct es ec).
  { revert Hn. unfold KeyCert.new. destruct (Signing.public_key_len _); [|done].
    destruct (Crypto.public_key_len _); [|done]. destruct (_ || _); [done|]. by intros <-%Ok_inj. }
  subst k. by split.
Qed.

Lemma reads_cert c : cert_ok c → reads Cert.decode_from (cert_bytes c) c.
Proof.
  intros Hc. unfold Cert.decode_from.
  destruct c as [|key|tc p]; cbn [cert_bytes cert_ok] in *;
    (eapply reads_bind; [apply reads_u8|]).
  - rewrite <- (app_nil_r (to_be 2 0)). eapply reads_bind; [by apply reads_u16|].
    eapply reads_map; [by apply (reads_take_n 0 [])|apply reads_ret].
  - pose proof (key_cert_payload_len key Hc).
    eapply reads_bind; [apply reads_u16; unfold fits; lia|].
    eapply reads_map; [apply reads_take|]. cbn [Z.eqb Pos.eqb].
    eapply reads_map; [by apply reads_lift, decode_payload_ok|apply reads_ret].
  - destruct Hc as (_ & H0 & H5 & Hp). pose proof (zlen_nonneg p). unfold u16_max in Hp.
    eapply reads_bind; [apply reads_u16; unfold fits; lia|].
    eapply reads_map; [apply reads_take|].
    destruct (tc =? 0) eqn:E; breflect; [done|].
    destruct (tc =? 5) eqn:E2; breflect; [done|]. apply reads_ret.
Qed.

Lemma consumes_cert : consumes Cert.decode_from (λ c w, cert_ok c ∧ w = cert_bytes c).
Proof.
  eapply consumes_bind; [apply consumes_u8|intros tc w _ [-> Htc]].
  eapply consumes_bind; [apply consumes_u16|intros len w _ [-> Hlen]].
  unfold fits in Hlen.
  eapply consumes_bind; [apply consumes_take; lia|intros p w Hp [-> Hl]]. subst len.
  apply consumes_if; intros E; breflect; [subst tc; apply consumes_if; intros E2; breflect|].
  - apply consumes_ret. rewrite app_nil_r, E2. apply zlen_0_nil in E2 as ->. done.
  - apply consumes_fail.
  - apply consumes_if; intros E2; breflect.
    + subst tc. eapply (consumes_bind _ _ (λ k w, w = [] ∧ key_cert_ok k ∧ p = KeyCert.encode_payload k)).
      * apply consumes_lift. intros k Hk. split; [done|]. by apply decode_payload_inv.
      * intros k w _ (-> & Hk & ->). apply consumes_ret. by rewrite !app_nil_r.
    + apply consumes_ret. rewrite app_nil_r. cbn [cert_ok cert_bytes]. split; [|done].
      unfold u16_max. split_and!; [done..|lia].
Qed.

Lemma writes_prefixed16 w (f : Z → encoder ()) e :
  zlen w ≤ u16_max → f (zlen w) = (_ ← Buffer.write_u16 (zlen w); Buffer.write_raw w) →
  writes (match try_from u16_max (zlen w) with None => fail e | Some len => f len end)
    (to_be 2 (zlen w) ++ w).
Proof.
  intros Hw Hf. unfold try_from. destruct (_ <=? _) eqn:E; breflect; [|lia].
  rewrite Hf. apply writes_bind; apply writes_write.
Qed.

Lemma writes_cert c : cert_ok c → writes (Cert.encode_into c) (cert_bytes c).
Proof.
  intros Hc. destruct c as [|key|tc p]; cbn [cert_bytes cert_ok Cert.encode_into] in *;
    (apply writes_bind; [apply writes_write|]); [apply writes_write|..].
  - pose proof (key_cert_payload_len key Hc). unfold u16_max.
    apply writes_prefixed16; [unfold u16_max; lia|done].
  - apply writes_prefixed16; [tauto|done].
Qed.
End certificates.

(** Comparisons that came out equal. *)
Ltac same_types :=
  repeat match goal with
  | H : bool_decide (_ ≠ _) = false |- _ => apply bool_decide_eq_false, dec_stable in H
  end.

Section keys.
(** The shape of a valid key area. *)
Lemma keys_shape k :
  keys_ok k →
  let pb := public_bytes (public_key k) in
  let sb := signing_bytes (signing_key k) in
  let sp := Z.min (zlen sb) LEGACY_SIGNING_KEY_SIZE in
  zlen pb ≤ LEGACY_PUBLIC_KEY_SIZE ∧ slice 0 (Z.min (zlen pb) LEGACY_PUBLIC_KEY_SIZE) pb = pb ∧
  zlen (padding k) = KEY_AREA_SIZE - zlen pb - sp ∧ 0 ≤ zlen (padding k) ∧
  match certificate k with
  | CertNull => public_type (public_key k) = Crypto.ElGamal ∧
                signing_type (signing_key k) = Signing.DsaSha1
  | CertKey key => public_type (public_key k) = kc_crypto_type key ∧
                   signing_type (signing_key k) = kc_signing_type key ∧
                   excess_crypto key = [] ∧ excess_signing key = slice sp (zlen sb) sb
  | CertUnsupported _ _ => False
  end.
Proof.
  intros [Hp Hs _ Hv]. unfold Keys.validate in Hv.
  unfold public_key_ok in Hp. unfold signing_key_ok in Hs. rewrite Hp, Hs in Hv.
  pose proof (crypto_code_known _ _ Hp) as (_ & _ & Hpl).
  pose proof (signing_code_known _ _ Hs) as (_ & _ & Hsl).
  unfold LEGACY_PUBLIC_KEY_SIZE, LEGACY_SIGNING_KEY_SIZE, KEY_AREA_SIZE in *.
  assert (Hfull : slice 0 (Z.min (zlen (public_bytes (public_key k))) 256)
    (public_bytes (public_key k)) = public_bytes (public_key k)).
  { rewrite Z.min_l by lia. apply slice_full. }
  destruct (_ >? 256) eqn:E1; [done|]. unfold checked_sub in Hv. cbn [mbind option_bind] in Hv.
  destruct (_ <=? 384) eqn:E2 in Hv; cbn [mbind option_bind] in Hv; [|done].
  destruct (_ <=? _) eqn:E3 in Hv; [|done].
  destruct (negb _) eqn:E4 in Hv; [done|]. breflect. cbv zeta.
  split_and!; [lia|done|lia|lia|]. destruct (certificate k) as [|key|]; [..|done].
  - destruct (_ || _) eqn:E5 in Hv; [done|]. breflect. same_types. by split.
  - destruct (_ || _) eqn:E5 in Hv; [done|]. cbv zeta in Hv.
    destruct (_ || _) eqn:E6 in Hv; [done|]. breflect. same_types.
    rewrite (Z.min_comm 128) in *. rewrite Z.min_r in * by lia.
    rewrite slice_nil in *. done.
Qed.

Lemma slice_halves {A} n (l : list A) : 0 ≤ n ≤ zlen l → slice 0 n l ++ slice n (zlen l) l = l.
Proof. intros Hn. rewrite slice_slice by lia. apply slice_full. Qed.

Lemma slice_thirds {A} a b (l : list A) :
  0 ≤ a ≤ b → b ≤ zlen l → slice 0 a l ++ slice a b l ++ slice b (zlen l) l = l.
Proof. intros Hab Hb. rewrite !slice_slice by lia. apply slice_full. Qed.

Lemma zlen_key_area k : keys_ok k → zlen (key_area k) = KEY_AREA_SIZE.
Proof.
  intros Hk. pose proof (keys_shape k Hk) as (Hpl & Hpb & Hpad & Hpad0 & _). cbv zeta in *.
  unfold key_area. rewrite !zlen_app, Hpb, Hpad.
  pose proof (zlen_nonneg (signing_bytes (signing_key k))).
  rewrite slice_length; unfold LEGACY_SIGNING_KEY_SIZE in *; lia.
Qed.

(** The key area determines the keys, given the certificate. *)
Lemma split_area_ok k :
  keys_ok k →
  Keys.split_area (key_area k) (certificate k) (public_type (public_key k))
    (signing_type (signing_key k)) = Ok k.
Proof.
  intros Hk. pose proof (keys_shape k Hk) as (Hpl & Hpb & Hpad & Hpad0 & Hcert).
  pose proof (zlen_key_area k Hk) as Hlen.
  pose proof (keys_public k Hk) as Hp. pose proof (keys_signing k Hk) as Hs.
  pose proof (keys_valid k Hk) as Hv. destruct k as [[pt pb] [st sb] pad cert].
  unfold Keys.split_area. cbn [public_key signing_key public_type signing_type public_bytes
    signing_bytes padding certificate] in *. cbv zeta in *.
  unfold public_key_ok in Hp. unfold signing_key_ok in Hs. cbn in Hp, Hs. rewrite Hp, Hs.
  destruct (_ >? _) eqn:E; breflect; [lia|].
  pose proof (zlen_nonneg sb) as Hsb0.
  assert (Hsp : zlen (slice 0 (Z.min (zlen sb) LEGACY_SIGNING_KEY_SIZE) sb) =
                Z.min (zlen sb) LEGACY_SIGNING_KEY_SIZE).
  { rewrite slice_length; unfold LEGACY_SIGNING_KEY_SIZE; lia. }
  unfold checked_sub. destruct (_ <=? _) eqn:E2; breflect; [|lia].
  assert (Harea : key_area (mkKeyAndCert (mkPublicKey pt pb) (mkSigningKey st sb) pad cert) =
    pb ++ pad ++ slice 0 (Z.min (zlen sb) LEGACY_SIGNING_KEY_SIZE) sb).
  { unfold key_area. cbn [public_key signing_key public_bytes signing_bytes padding]. by rewrite Hpb. }
  rewrite Hlen, Harea.
  rewrite (slice_app_start (zlen pb)) by done.
  rewrite (slice_app_eq (zlen pb)) by lia.
  rewrite app_assoc, slice_app_end by (rewrite ?zlen_app; lia).
  assert (Hnew : Keys.new (mkPublicKey pt pb) (mkSigningKey st sb) pad cert =
    Ok (mkKeyAndCert (mkPublicKey pt pb) (mkSigningKey st sb) pad cert)).
  { unfold Keys.new. by rewrite Hv. }
  destruct cert as [|key|]; [| |done].
  - assert (Hfull : slice 0 (Z.min (zlen sb) LEGACY_SIGNING_KEY_SIZE) sb = sb).
    { destruct Hcert as [_ ->]. injection Hs as Hl.
      rewrite Z.min_l by (unfold LEGACY_SIGNING_KEY_SIZE; lia). apply slice_full. }
    rewrite Hfull.
    rewrite (proj2 (public_key_new_exact pt pb (mkPublicKey pt pb))) by (split; done).
    cbn [mbind result_bind].
    by rewrite (proj2 (signing_key_new_exact st sb (mkSigningKey st sb))) by (split; done).
  - destruct Hcert as (_ & _ & -> & ->). rewrite app_nil_r.
    rewrite (proj2 (public_key_new_exact pt pb (mkPublicKey pt pb))) by (split; done).
    cbn [mbind result_bind]. rewrite slice_halves by (unfold LEGACY_SIGNING_KEY_SIZE; lia).
    by rewrite (proj2 (signing_key_new_exact st sb (mkSigningKey st sb))) by (split; done).
Qed.

Lemma keys_new_inv pk sk pad cert k :
  Keys.new pk sk pad cert = Ok k → k = mkKeyAndCert pk sk pad cert ∧ Keys.validate k = Ok ().
Proof.
  unfold Keys.new. destruct (Keys.validate _) as [[]|] eqn:E; [|done].
  cbn [mbind result_bind]. by intros <-%Ok_inj.
Qed.

Lemma split_area_inv area cert pt st k :
  zlen area = KEY_AREA_SIZE → cert_ok cert →
  Keys.split_area area cert pt st = Ok k →
  keys_ok k ∧ certificate k = cert ∧ area = key_area k.
Proof.
  intros Hlen Hc. unfold Keys.split_area.
  destruct (Crypto.public_key_len pt) as [pl|] eqn:Hpl; [|done].
  destruct (Signing.public_key_len st) as [sl|] eqn:Hsl; [|done].
  pose proof (crypto_code_known _ _ Hpl) as (_ & _ & Hpl').
  pose proof (signing_code_known _ _ Hsl) as (_ & _ & Hsl').
  destruct (_ >? _) eqn:E; [done|]. unfold checked_sub.
  destruct (_ <=? _) eqn:E2; [|done]. cbv zeta. rewrite Hlen.
  set (sp := Z.min sl LEGACY_SIGNING_KEY_SIZE) in *.
  unfold LEGACY_SIGNING_KEY_SIZE, LEGACY_PUBLIC_KEY_SIZE, KEY_AREA_SIZE in *. breflect.
  set (pb := slice 0 pl area). set (sb := slice (384 - sp) 384 area).
  set (pad := slice pl (pl + (384 - (pl + sp))) area).
  assert (Hpb : zlen pb = pl) by (unfold pb; rewrite slice_length; lia).
  assert (Hsb : zlen sb = sp) by (unfold sb; rewrite slice_length; lia).
  assert (Harea : area = pb ++ pad ++ sb).
  { unfold pb, pad, sb. replace (pl + (384 - (pl + sp))) with (384 - sp) by lia.
    pose proof (slice_thirds pl (384 - sp) area) as H3. rewrite Hlen in H3.
    symmetry. apply H3; lia. }
  assert (Hfin : ∀ ec es pk sk,
    public_key_new pt (pb ++ ec) = Ok pk → signing_key_new st (sb ++ es) = Ok sk →
    Keys.new pk sk pad cert = Ok k → keys_ok k ∧ certificate k = cert ∧ area = key_area k).
  { intros ec es pk sk [-> Hp]%public_key_new_exact [-> Hs]%signing_key_new_exact.
    intros [-> Hv]%keys_new_inv. split; [by constructor|]. split; [done|].
    unfold public_key_ok, signing_key_ok in Hp, Hs. cbn in Hp, Hs.
    rewrite Hpl, zlen_app in Hp. rewrite Hsl, zlen_app in Hs. injection Hp as Hp. injection Hs as Hs.
    rewrite (zlen_0_nil ec), app_nil_r by lia.
    unfold key_area. cbn [public_key signing_key public_bytes signing_bytes padding].
    unfold LEGACY_SIGNING_KEY_SIZE, LEGACY_PUBLIC_KEY_SIZE in *.
    rewrite Z.min_l, slice_full by lia.
    rewrite (slice_app_start _ sb); [done|]. rewrite zlen_app. lia. }
  destruct cert as [|key|tc p];
    (destruct (public_key_new _ _) as [pk|] eqn:Ep; [|done]; cbn [mbind result_bind];
     destruct (signing_key_new _ _) as [sk|] eqn:Es; [|done]; cbn [mbind result_bind]).
  1, 3: rewrite <- (app_nil_r sb) in Es; rewrite <- (app_nil_r pb) in Ep.
  all: by eapply Hfin.
Qed.

Lemma reads_keys k : keys_ok k → reads Keys.decode_from (keys_bytes k) k.
Proof.
  intros Hk. eapply reads_bind; [by apply reads_take_n, zlen_key_area|].
  pose proof (keys_shape k Hk) as (_ & _ & _ & _ & Hc). pose proof (split_area_ok k Hk) as Hsplit.
  eapply reads_map; [apply reads_cert, (keys_cert k Hk)|].
  destruct (certificate k) as [|key|]; [| |done]; apply reads_lift.
  - destruct Hc as [Hp Hs]. by rewrite <- Hp, <- Hs.
  - destruct Hc as (Hp & Hs & _). by rewrite <- Hp, <- Hs.
Qed.

Lemma consumes_keys : consumes Keys.decode_from (λ k w, keys_ok k ∧ w = keys_bytes k).
Proof.
  eapply consumes_bind; [by apply consumes_take|intros area w _ [-> Hl]].
  eapply consumes_bind; [apply consumes_cert|intros cert w _ [Hc ->]].
  assert (Hsplit : ∀ pt st, consumes (lift (Keys.split_area area cert pt st))
    (λ k w, keys_ok k ∧ area ++ cert_bytes cert ++ w = keys_bytes k)).
  { intros pt st. apply consumes_lift.
    intros k (Hk & Hcert & Harea)%split_area_inv; [|done..]. split; [done|].
    unfold keys_bytes. by rewrite Hcert, <- Harea, app_nil_r. }
  destruct cert; [apply Hsplit..|apply consumes_fail].
Qed.

Lemma writes_keys k : keys_ok k → writes (Keys.encode_into k) (keys_bytes k).
Proof.
  intros Hk. unfold Keys.encode_into, keys_bytes, key_area. rewrite (keys_valid k Hk).
  rewrite <- !app_assoc. apply (writes_bind (lift (Ok ())) _ []); [apply writes_ret|].
  do 3 (apply writes_bind; [apply writes_write|]). apply writes_cert, (keys_cert k Hk).
Qed.

Lemma zlen_keys_bytes k : keys_ok k → zlen (keys_bytes k) ≤ 384 + 391.
Proof.
  intros Hk. unfold keys_bytes. rewrite zlen_app, zlen_key_area by done. unfold KEY_AREA_SIZE.
  pose proof (keys_shape k Hk) as (_ & _ & _ & _ & Hs). pose proof (keys_cert k Hk) as Hc.
  destruct (certificate k) as [|key|]; [| |done]; cbn [cert_bytes];
    rewrite !zlen_app, zlen_to_be, zlen_one; [lia|].
  apply key_cert_payload_len in Hc. lia.
Qed.
End keys.

(** ** Identities *)
Definition identity_ok (i : RouterIdentity) : Prop :=
  keys_ok (identity_keys i) ∧
  Crypto.allowed_in_identity (public_type (public_key (identity_keys i))) = true.
Definition identity_bytes (i : RouterIdentity) : bytes := keys_bytes (identity_keys i).
Definition destination_ok (d : Destination) : Prop :=
  keys_ok (destination_keys d) ∧
  Crypto.allowed_in_identity (public_type (public_key (destination_keys d))) = true.
Definition destination_bytes (d : Destination) : bytes := keys_bytes (destination_keys d).

Lemma keys_canonical : canonical keys_ok keys_bytes Keys.decode_from Keys.encode_into.
Proof. split; [apply reads_keys|apply consumes_keys|apply writes_keys]. Qed.

Lemma cert_canonical : canonical cert_ok cert_bytes Cert.decode_from Cert.encode_into.
Proof. split; [apply reads_cert|apply consumes_cert|apply writes_cert]. Qed.

Lemma identity_canonical :
  canonical identity_ok identity_bytes identity_decode_from
    (λ i, Keys.encode_into (identity_keys i)).
Proof.
  split.
  - intros [k] [Hk Ha]. eapply reads_map; [by apply reads_keys|]. apply reads_lift.
    unfold identity_new. cbn in *. by rewrite Ha.
  - eapply consumes_bind; [apply consumes_keys|intros k w _ [Hk ->]]. apply consumes_lift.
    intros i. unfold identity_new. destruct (Crypto.allowed_in_identity _) eqn:E; [|done].
    intros <-%Ok_inj. by rewrite app_nil_r.
  - intros i [Hk _]. by apply writes_keys.
Qed.

Lemma destination_canonical :
  canonical destination_ok destination_bytes destination_decode_from
    (λ d, Keys.encode_into (destination_keys d)).
Proof.
  split.
  - intros [k] [Hk Ha]. eapply reads_map; [by apply reads_keys|]. apply reads_lift.
    unfold destination_new. cbn in *. by rewrite Ha.
  - eapply consumes_bind; [apply consumes_keys|intros k w _ [Hk ->]]. apply consumes_lift.
    intros i. unfold destination_new. destruct (Crypto.allowed_in_identity _) eqn:E; [|done].
    intros <-%Ok_inj. by rewrite app_nil_r.
  - intros i [Hk _]. by apply writes_keys.
Qed.

(** The constructors establish the invariants. *)
Lemma keys_new_ok pk sk pad cert k :
  public_key_ok pk → signing_key_ok sk → cert_ok cert →
  Keys.new pk sk pad cert = Ok k → keys_ok k.
Proof. intros Hp Hs Hc [-> Hv]%keys_new_inv. by constructor. Qed.

(** Hashing a well-formed identity hashes its wire format. *)
Lemma keys_encode_bytes k :
  keys_ok k → encode_to_vec MAX_COMMON_STRUCTURE_SIZE (Keys.encode_into k) = Ok (keys_bytes k).
Proof.
  intros Hk. apply encode_to_vec_writes; [by apply writes_keys| |done].
  pose proof (zlen_keys_bytes _ Hk). unfold MAX_COMMON_STRUCTURE_SIZE. lia.
Qed.

Lemma identity_hash_bytes sha256 i :
  identity_ok i → identity_hash sha256 i = Ok (sha256 (identity_bytes i)).
Proof.
  intros [Hk _]. unfold identity_hash, identity_encode. by rewrite keys_encode_bytes.
Qed.

Lemma destination_hash_bytes sha256 d :
  destination_ok d → destination_hash sha256 d = Ok (sha256 (destination_bytes d)).
Proof.
  intros [Hk _]. unfold destination_hash, destination_encode. by rewrite keys_encode_bytes.
Qed.

(** ** Properties *)

(** Destinations have one encoding.  An input is decoded to a destination
    exactly when it is within the caller's limit and is the encoding of that
    destination, and the destination satisfies the key-length, padding,
    certificate-binding and algorithm rules: nothing non-canonical is accepted
    and nothing well-formed is refused. *)
Theorem destination_decode_exact inp max d
    (Hb : bytes_ok inp) (Hu : zlen inp ≤ usize_max) :
  destination_decode inp max = Ok d ↔
  zlen inp ≤ max ∧ destination_ok d ∧ destination_encode d usize_max = Ok inp.
Proof. by apply (canonical_exact _ _ _ _ _ _ _ destination_canonical). Qed.

(** The hash of a router identity is the hash of the bytes it was received
    as.  Decoding splits the identity into keys, padding and certificate, and
    hashing re-encodes it; the digest is taken of the very bytes on the wire. *)
Theorem identity_hash_wire sha256 inp max i
    (Hb : bytes_ok inp) (Hu : zlen inp ≤ usize_max)
    (Hdec : identity_decode inp max = Ok i) :
  identity_hash sha256 i = Ok (sha256 inp).
Proof.
  unfold identity_decode in Hdec.
  apply (consumes_decode_exact _ _ _ _ _ (canonical_consumes _ _ _ _ identity_canonical) Hb)
    in Hdec as (_ & Hi & ->). by apply identity_hash_bytes.
Qed.

(** ** Witnesses *)
Definition sample_keys : KeyAndCert :=
  mkKeyAndCert (mkPublicKey Crypto.X25519 (replicate 32 7))
    (mkSigningKey Signing.EdDsaSha512Ed25519 (replicate 32 9)) (replicate 320 1)
    (CertKey (mkKeyCert Signing.EdDsaSha512Ed25519 Crypto.X25519 [] [])).

Lemma destination_decode_exact_witness :
  destination_ok (mkDestination sample_keys).
Proof.
  apply (destination_decode_exact (keys_bytes sample_keys) 1024).
  - apply bytes_okb. vm_compute. reflexivity.
  - vm_compute. discriminate.
  - vm_compute. reflexivity.
Defined.

Lemma identity_hash_wire_witness :
  identity_hash (λ b, [zlen b]) (mkRouterIdentity sample_keys) = Ok [391].
Proof.
  apply (identity_hash_wire (λ b, [zlen b]) (keys_bytes sample_keys) 1024).
  - apply bytes_okb. vm_compute. reflexivity.
  - vm_compute. discriminate.
  - vm_compute. reflexivity.
Defined.
