(* ===== verification/Mapping.v ===== *)
(** * Mappings

    Models [src/crates/i2pr-proto/src/common/mapping.rs]: the sorted,
    duplicate-free string mappings of router options, with their builder,
    lookup and wire format.  A [String] is its UTF-8 bytes. *)
From stdpp Require Import sorting.
From S2P Require Import Prelude Utf8 Codec Common.

Record MappingEntry := mkMappingEntry { entry_key : bytes; entry_value : bytes }.
Record Mapping := mkMapping { entries : list MappingEntry }.

Definition entry_new (k v : bytes) : result CodecError MappingEntry :=
  _ ← validate_text k true "mapping key";
  _ ← validate_text v true "mapping value";
  Ok (mkMappingEntry k v).

Definition mapping_empty : Mapping := mkMapping [].

Fixpoint entries_new (ps : list (bytes * bytes)) : result CodecError (list MappingEntry) :=
  match ps with
  | [] => Ok []
  | (k, v) :: ps' => e ← entry_new k v; es ← entries_new ps'; Ok (e :: es)
  end.

(** [sort_by] with the Java order on keys; Rust's sort is a stable merge sort. *)
Definition entry_le (e1 e2 : MappingEntry) : Prop :=
  java_string_cmp (entry_key e1) (entry_key e2) ≠ Gt.
#[global] Instance entry_le_dec : RelDecision entry_le.
Proof. intros e1 e2. unfold entry_le. apply _. Defined.

Fixpoint has_adjacent_duplicate (es : list MappingEntry) : bool :=
  match es with
  | e1 :: ((e2 :: _) as es') =>
      bool_decide (entry_key e1 = entry_key e2) || has_adjacent_duplicate es'
  | _ => false
  end.

Definition entry_len (e : MappingEntry) : Z :=
  1 + zlen (entry_key e) + 1 + 1 + zlen (entry_value e) + 1.

Fixpoint total_len (es : list MappingEntry) (total : Z) : result CodecError Z :=
  match es with
  | [] => Ok total
  | e :: es' =>
      match checked_add usize_max total (entry_len e) with
      | None => Err (ArithmeticOverflow 0 "mapping body length")
      | Some total' => total_len es' total'
      end
  end.

Definition encoded_body_len (m : Mapping) : result CodecError Z :=
  total ← total_len (entries m) 0;
  if total >? MAX_MAPPING_BODY_SIZE
  then Err (LengthExceeded 0 total MAX_MAPPING_BODY_SIZE "mapping body")
  else Ok total.

Definition from_entries (ps : list (bytes * bytes)) : result CodecError Mapping :=
  es ← entries_new ps;
  let sorted := merge_sort entry_le es in
  if has_adjacent_duplicate sorted then Err (DuplicateField 0 "mapping key")
  else
  let m := mkMapping sorted in
  _ ← encoded_body_len m; Ok m.

(** [slice::binary_search_by]: the range [base, base + size) holds the answer;
    [size] halves in every round. *)
Fixpoint bisect (fuel : nat) (cmp : MappingEntry → comparison) (es : list MappingEntry)
    (base size : nat) : nat :=
  match fuel with
  | O => base
  | S fuel' =>
      if (size <=? 1)%nat then base
      else
      let half := Nat.div2 size in
      let mid := (base + half)%nat in
      let base' := match es !! mid with
                   | Some e => match cmp e with Gt => base | _ => mid end
                   | None => base
                   end in
      bisect fuel' cmp es base' (size - half)
  end.

Definition binary_search_by (cmp : MappingEntry → comparison) (es : list MappingEntry)
    : option nat :=
  let i := bisect (length es) cmp es 0 (length es) in
  match es !! i with
  | Some e => match cmp e with Eq => Some i | _ => None end
  | None => None
  end.

Definition mapping_get (m : Mapping) (k : bytes) : option bytes :=
  i ← binary_search_by (λ e, java_string_cmp (entry_key e) k) (entries m);
  entry_value <$> entries m !! i.

(** The builder. *)
Definition builder_insert (k v : bytes) (ps : list (bytes * bytes))
    : list (bytes * bytes) * result CodecError () :=
  match entry_new k v with
  | Err e => (ps, Err e)
  | Ok _ => (ps ++ [(k, v)], Ok ())
  end.
Definition builder_build (ps : list (bytes * bytes)) : result CodecError Mapping :=
  from_entries ps.

(** ** Codec *)
Definition EQUALS : Z := 61.
Definition SEMICOLON : Z := 59.

(** One round of the loop of [decode_from]; [previous] is the key of the last
    entry. *)
Definition decode_entry (previous : option bytes) : decoder MappingEntry :=
  key_offset ← gets offset;
  k ← Cursor.read_utf8_u8 u8_max;
  sep ← Cursor.read_u8;
  if negb (sep =? EQUALS)
  then fail_at (λ c, invalid (saturating_sub (offset c) 1) "mapping separator")
  else
  v ← Cursor.read_utf8_u8 u8_max;
  term ← Cursor.read_u8;
  if negb (term =? SEMICOLON)
  then fail_at (λ c, invalid (saturating_sub (offset c) 1) "mapping terminator")
  else
  e ← lift (entry_new k v);
  match previous with
  | None => mret e
  | Some p =>
      match java_string_cmp p (entry_key e) with
      | Eq => fail (DuplicateField key_offset "mapping key")
      | Gt => fail (NonCanonical key_offset "mapping key order")
      | Lt => mret e
      end
  end.

(** Every round reads at least four bytes, so the number of bytes left is
    enough [fuel] ([decode_entries_fuel_irrelevant]). *)
Fixpoint decode_entries (fuel : nat) (previous : option bytes) : decoder (list MappingEntry) :=
  match fuel with
  | O => fail (ArithmeticOverflow 0 "mapping body")
  | S fuel' =>
      empty ← gets Cursor.is_empty;
      if (empty : bool) then mret []
      else
      e ← decode_entry previous;
      es ← decode_entries fuel' (Some (entry_key e));
      mret (e :: es)
  end.

Definition mapping_decode_from (max : Z) : decoder Mapping :=
  body_len ← Cursor.read_u16;
  let body_limit := Z.min max MAX_MAPPING_BODY_SIZE in
  if body_len >? body_limit
  then fail_at (λ c, LengthExceeded (saturating_sub (offset c) 2) body_len body_limit
                       "mapping body")
  else
  body ← Cursor.take body_len;
  es ← lift (decode_exact body body_len (decode_entries (S (length body)) None));
  mret (mkMapping es).

Definition mapping_decode (inp : bytes) (max : Z) : result CodecError Mapping :=
  decode_exact inp max (mapping_decode_from max).

Fixpoint write_entries (es : list MappingEntry) : encoder () :=
  match es with
  | [] => mret ()
  | e :: es' =>
      _ ← Buffer.write_utf8_u8 (entry_key e) u8_max;
      _ ← Buffer.write_raw [EQUALS];
      _ ← Buffer.write_utf8_u8 (entry_value e) u8_max;
      _ ← Buffer.write_raw [SEMICOLON];
      write_entries es'
  end.

Definition mapping_encode_into (m : Mapping) : encoder () :=
  body_len ← lift (encoded_body_len m);
  match try_from u16_max body_len with
  | None => fail (invalid 0 "mapping body length")
  | Some body_len => _ ← Buffer.write_u16 body_len; write_entries (entries m)
  end.

Definition mapping_encode (m : Mapping) (max : Z) : result CodecError bytes :=
  encode_to_vec max (mapping_encode_into m).

(** ** The Java order *)
Section order.
Lemma units_cmp_eq l k : units_cmp l k = Eq ↔ l = k.
Proof.
  revert k. induction l as [|x l IH]; intros [|y k]; cbn; try by split.
  destruct (x ?= y) eqn:E.
  - apply Z.compare_eq_iff in E as ->. rewrite IH. split; [by intros ->|by intros [= ->]].
  - split; [done|]. intros [= -> _]. by rewrite Z.compare_refl in E.
  - split; [done|]. intros [= -> _]. by rewrite Z.compare_refl in E.
Qed.

Lemma units_cmp_antisym l k : units_cmp k l = CompOpp (units_cmp l k).
Proof.
  revert k. induction l as [|x l IH]; intros [|y k]; cbn; [done..|].
  rewrite (Z.compare_antisym x y). destruct (x ?= y); cbn; auto.
Qed.

Lemma units_cmp_trans l k m :
  units_cmp l k = Lt → units_cmp k m = Lt → units_cmp l m = Lt.
Proof.
  revert k m. induction l as [|x l IH]; intros [|y k] [|z m]; cbn; try done.
  destruct (Z.compare_spec x y) as [->|Hxy|Hxy]; [| |done];
    destruct (Z.compare_spec y z) as [->|Hyz|Hyz]; try done.
  - apply IH.
  - intros _ _. by apply Z.compare_lt_iff in Hxy as ->.
  - intros _ _. assert (Hxz : x < z) by lia. by apply Z.compare_lt_iff in Hxz as ->.
Qed.

Definition text (s : bytes) : Prop := bytes_ok s ∧ valid_utf8 s.

(** Strings that compare equal are equal. *)
Lemma java_cmp_eq s1 s2 : text s1 → text s2 → java_string_cmp s1 s2 = Eq ↔ s1 = s2.
Proof.
  intros [Hb1 Hv1] [Hb2 Hv2]. unfold java_string_cmp. rewrite units_cmp_eq.
  split; [by apply encode_utf16_inj|by intros ->].
Qed.

Definition entry_lt (e1 e2 : MappingEntry) : Prop :=
  java_string_cmp (entry_key e1) (entry_key e2) = Lt.

#[export] Instance entry_lt_trans : Transitive entry_lt.
Proof. intros e1 e2 e3. apply units_cmp_trans. Qed.

#[export] Instance entry_le_total : Total entry_le.
Proof.
  intros e1 e2. unfold entry_le, java_string_cmp.
  rewrite (units_cmp_antisym (encode_utf16 (entry_key e1))). by destruct (units_cmp _ _); [left|left|right].
Qed.

#[export] Instance entry_le_trans : Transitive entry_le.
Proof.
  intros e1 e2 e3. unfold entry_le, java_string_cmp.
  destruct (units_cmp (encode_utf16 (entry_key e1)) _) eqn:E1; [|..|done].
  - apply units_cmp_eq in E1 as ->. done.
  - destruct (units_cmp (encode_utf16 (entry_key e2)) _) eqn:E2; [|..|done].
    + apply units_cmp_eq in E2 as <-. by rewrite E1.
    + by rewrite (units_cmp_trans _ _ _ E1 E2).
Qed.
End order.

(** ** Well-formed mappings and their wire format *)
Record entry_ok (e : MappingEntry) : Prop := {
  entry_key_text : text (entry_key e);
  entry_value_text : text (entry_value e);
  entry_key_valid : validate_text (entry_key e) true "mapping key" = Ok ();
  entry_value_valid : validate_text (entry_value e) true "mapping value" = Ok ();
}.

Definition entry_bytes (e : MappingEntry) : bytes :=
  (to_be 1 (zlen (entry_key e)) ++ entry_key e) ++ [EQUALS] ++
  (to_be 1 (zlen (entry_value e)) ++ entry_value e) ++ [SEMICOLON].

Definition body_of (es : list MappingEntry) : bytes := concat (entry_bytes <$> es).

Record mapping_ok (m : Mapping) : Prop := {
  mapping_entries_ok : Forall entry_ok (entries m);
  mapping_sorted : StronglySorted entry_lt (entries m);
  mapping_size : zlen (body_of (entries m)) ≤ MAX_MAPPING_BODY_SIZE;
}.

Definition mapping_bytes (m : Mapping) : bytes :=
  to_be 2 (zlen (body_of (entries m))) ++ body_of (entries m).

Section codec.
Lemma zlen_entry_bytes e : zlen (entry_bytes e) = entry_len e.
Proof. unfold entry_bytes, entry_len. rewrite !zlen_app, !zlen_to_be, !zlen_one. lia. Qed.

Lemma total_len_ok es total t :
  0 ≤ total → total_len es total = Ok t → t = total + zlen (body_of es).
Proof.
  revert total. induction es as [|e es IH]; intros total Ht; cbn [total_len].
  - intros <-%Ok_inj. change (body_of []) with (@nil Z). rewrite zlen_nil. lia.
  - destruct (checked_add _ _ _) as [t'|] eqn:E; [|done].
    apply checked_add_Some in E as [-> _]. intros Hs. unfold body_of. rewrite fmap_cons.
    cbn [concat]. rewrite zlen_app, zlen_entry_bytes.
    apply IH in Hs; [unfold body_of in Hs; lia|].
    unfold entry_len. pose proof (zlen_nonneg (entry_key e)). pose proof (zlen_nonneg (entry_value e)). lia.
Qed.

Lemma total_len_fits es total :
  0 ≤ total → total + zlen (body_of es) ≤ usize_max →
  total_len es total = Ok (total + zlen (body_of es)).
Proof.
  revert total. induction es as [|e es IH]; intros total Ht Hm; cbn [total_len].
  - change (body_of []) with (@nil Z). by rewrite zlen_nil, Z.add_0_r.
  - unfold body_of in *. rewrite fmap_cons in *. cbn [concat] in *.
    rewrite zlen_app, zlen_entry_bytes in *.
    pose proof (zlen_nonneg (concat (entry_bytes <$> es))).
    pose proof (zlen_nonneg (entry_bytes e)) as He. rewrite zlen_entry_bytes in He.
    destruct (checked_add _ _ _) as [t'|] eqn:E; [|apply checked_add_None in E; lia].
    apply checked_add_Some in E as [-> _]. rewrite IH by lia. f_equal. lia.
Qed.

(** The body length is computed exactly, and bounds the mapping. *)
Lemma encoded_body_len_exact m t :
  encoded_body_len m = Ok t ↔
  t = zlen (body_of (entries m)) ∧ zlen (body_of (entries m)) ≤ MAX_MAPPING_BODY_SIZE.
Proof.
  unfold encoded_body_len. split.
  - destruct (total_len _ _) as [t'|] eqn:E; [|done]. apply total_len_ok in E as ->; [|done].
    cbn [mbind result_bind]. destruct (_ >? _) eqn:E2; [done|]. breflect.
    intros <-%Ok_inj. lia.
  - intros [-> Hm]. rewrite total_len_fits; [|done|unfold MAX_MAPPING_BODY_SIZE, u16_max, usize_max in *; lia].
    cbn [mbind result_bind]. destruct (_ >? _) eqn:E2; breflect; [lia|]. done.
Qed.

Lemma validate_text_len s b context : validate_text s b context = Ok () → zlen s ≤ u8_max.
Proof.
  unfold validate_text. destruct (_ || _) eqn:E; [done|]. breflect. done.
Qed.

Lemma entry_new_ok e : entry_ok e → entry_new (entry_key e) (entry_value e) = Ok e.
Proof. intros [_ _ Hk Hv]. unfold entry_new. rewrite Hk, Hv. by destruct e. Qed.

Lemma entry_new_inv k v e :
  text k → text v → entry_new k v = Ok e → e = mkMappingEntry k v ∧ entry_ok e.
Proof.
  intros Hk Hv. unfold entry_new.
  destruct (validate_text k _ _) as [[]|] eqn:E1; [|done]. cbn [mbind result_bind].
  destruct (validate_text v _ _) as [[]|] eqn:E2; [|done]. cbn [mbind result_bind].
  by intros <-%Ok_inj.
Qed.

(** The order condition on an entry that follows [previous]. *)
Definition follows_key (previous : option bytes) (e : MappingEntry) : Prop :=
  match previous with None => True | Some p => java_string_cmp p (entry_key e) = Lt end.

Lemma reads_entry previous e :
  entry_ok e → follows_key previous e → reads (decode_entry previous) (entry_bytes e) e.
Proof.
  intros He Hp. unfold decode_entry, entry_bytes. apply reads_gets_offset. intros off.
  pose proof (validate_text_len _ _ _ (entry_key_valid e He)).
  pose proof (validate_text_len _ _ _ (entry_value_valid e He)).
  eapply reads_bind; [apply reads_utf8_u8; [apply He|done..]|].
  eapply reads_bind; [apply reads_u8|].
  rewrite Z.eqb_refl. cbn [negb].
  eapply reads_bind; [apply reads_utf8_u8; [apply He|done..]|].
  eapply reads_map; [apply reads_u8|]. rewrite Z.eqb_refl. cbn [negb].
  eapply reads_map; [by apply reads_lift, entry_new_ok|].
  destruct previous as [p|]; [|apply reads_ret]. cbn in Hp. rewrite Hp. apply reads_ret.
Qed.

Lemma consumes_entry previous :
  consumes (decode_entry previous)
    (λ e w, entry_ok e ∧ follows_key previous e ∧ w = entry_bytes e).
Proof.
  unfold decode_entry. apply consumes_gets. intros c0.
  eapply consumes_bind; [apply consumes_utf8_u8|intros k w Hk (-> & Hkv & _)].
  eapply consumes_bind; [apply consumes_u8|intros sep w _ [-> _]].
  apply consumes_if; intros E; breflect; [apply consumes_fail_at|subst sep].
  eapply consumes_bind; [apply consumes_utf8_u8|intros v w Hv (-> & Hvv & _)].
  eapply consumes_bind; [apply consumes_u8|intros term w _ [-> _]].
  apply consumes_if; intros E; breflect; [apply consumes_fail_at|subst term].
  apply Forall_app in Hk as [_ Hk]. apply Forall_app in Hv as [_ Hv].
  eapply (consumes_bind _ _ (λ e w, w = [] ∧ e = mkMappingEntry k v ∧ entry_ok e)).
  { apply consumes_lift. intros e He. split; [done|]. by apply entry_new_inv. }
  intros e w _ (-> & -> & He).
  assert (Hret : follows_key previous (mkMappingEntry k v) →
    consumes (Er := CodecError) (mret (mkMappingEntry k v)) (λ e w', entry_ok e ∧ follows_key previous e ∧
      (to_be 1 (zlen k) ++ k) ++ [EQUALS] ++ (to_be 1 (zlen v) ++ v) ++ [SEMICOLON] ++ [] ++ w' =
      entry_bytes e)).
  { intros Hf. apply consumes_ret. cbn [app]. done. }
  destruct previous as [p|]; [|by apply Hret].
  destruct (java_string_cmp _ _) eqn:E; [apply consumes_fail|by apply Hret|apply consumes_fail].
Qed.

Lemma body_cons e es : body_of (e :: es) = entry_bytes e ++ body_of es.
Proof. done. Qed.

Lemma reads_end_gets_empty {A} (k : bool → decoder A) w a :
  reads_end (k (zlen w =? 0)) w a → reads_end (empty ← gets Cursor.is_empty; k empty) w a.
Proof.
  intros Hk pre Hlen. unfold mbind, M_bind, gets, Cursor.is_empty, Cursor.remaining, saturating_sub.
  cbn [input offset]. rewrite zlen_app. pose proof (zlen_nonneg w).
  replace (Z.max 0 (zlen pre + zlen w - zlen pre)) with (zlen w) by lia. by apply Hk.
Qed.

Lemma reads_entries es fuel previous :
  Forall entry_ok es → StronglySorted entry_lt es → (∀ e, e ∈ es → follows_key previous e) →
  (length es < fuel)%nat → reads_end (decode_entries fuel previous) (body_of es) es.
Proof.
  revert fuel previous. induction es as [|e es IH]; intros [|fuel] previous Hok Hs Hf Hfuel;
    cbn [length] in *; try lia; cbn [decode_entries]; apply reads_end_gets_empty.
  - apply reads_reads_end, reads_ret.
  - apply Forall_cons in Hok as [He Hok]. apply StronglySorted_inv in Hs as [Hs Hlt].
    rewrite body_cons, zlen_app, zlen_entry_bytes.
    pose proof (zlen_nonneg (body_of es)). pose proof (zlen_nonneg (entry_key e)).
    pose proof (zlen_nonneg (entry_value e)).
    destruct (_ =? 0) eqn:E; breflect; [unfold entry_len in E; lia|].
    eapply reads_end_bind; [apply reads_entry; [done|apply Hf; by left]|].
    eapply reads_end_map; [apply IH; [done..| |lia]|apply reads_ret].
    intros e' He'. rewrite Forall_forall in Hlt. by apply Hlt.
Qed.

Lemma consumes_entries fuel previous :
  consumes (decode_entries fuel previous)
    (λ es w, Forall entry_ok es ∧ Sorted entry_lt es ∧
             (∀ e, head es = Some e → follows_key previous e) ∧ w = body_of es).
Proof.
  revert previous. induction fuel as [|fuel IH]; intros previous; cbn [decode_entries];
    [apply consumes_fail|].
  apply consumes_gets. intros c. apply consumes_if; intros _; [by apply consumes_ret|].
  eapply consumes_bind; [apply consumes_entry|intros e w _ (He & Hf & ->)].
  eapply consumes_bind; [apply IH|intros es w _ (Hes & Hs & Hh & ->)].
  apply consumes_ret. rewrite app_nil_r. split_and!; [by constructor|..|done].
  - constructor; [done|]. destruct es as [|e' es]; [by constructor|]. constructor. by apply Hh.
  - by intros e' [= <-].
Qed.

Lemma length_body es : (length es ≤ length (body_of es))%nat.
Proof.
  induction es as [|e es IH]; [done|]. rewrite body_cons, length_app. cbn [length].
  pose proof (zlen_entry_bytes e) as He. unfold entry_len, zlen in He. lia.
Qed.

(** Any fuel above the number of bytes left gives the same result. *)
Lemma decode_entries_fuel_irrelevant f1 f2 previous pre rest :
  bytes_ok rest → (length rest < f1)%nat → (length rest < f2)%nat →
  decode_entries f1 previous (mkCursor (pre ++ rest) (zlen pre)) =
  decode_entries f2 previous (mkCursor (pre ++ rest) (zlen pre)).
Proof.
  revert f2 previous pre rest. induction f1 as [|f1 IH]; intros [|f2] previous pre rest Hok H1 H2;
    try lia. cbn [decode_entries]. unfold mbind, M_bind, gets.
  destruct (Cursor.is_empty _); [done|].
  destruct (decode_entry _ _) as [c' [e|]] eqn:E; [|done].
  destruct (consumes_entry _ _ _ _ _ Hok E) as (w & post & -> & -> & _ & _ & ->).
  apply Forall_app in Hok as [_ Hok]. rewrite app_assoc, <- zlen_app.
  assert (Hw : (4 ≤ length (entry_bytes e))%nat).
  { pose proof (zlen_entry_bytes e) as He. unfold entry_len, zlen in He. lia. }
  rewrite length_app in *. by rewrite (IH f2) by (done || lia).
Qed.

(** The part of a mapping's wire format that depends on the caller's limit. *)
Definition mapping_fits (max : Z) (m : Mapping) : Prop :=
  mapping_ok m ∧ zlen (body_of (entries m)) ≤ max.

Lemma sorted_strongly es : Sorted entry_lt es → StronglySorted entry_lt es.
Proof. apply Sorted_StronglySorted, _. Qed.

Lemma writes_lift_ok {A} (r : result CodecError A) (k : A → encoder ()) a w :
  r = Ok a → writes (k a) w → writes (lift r ≫= k) w.
Proof. intros -> [H1 H2]. by constructor. Qed.

Lemma writes_utf8_u8 s : zlen s ≤ u8_max → writes (Buffer.write_utf8_u8 s u8_max) (to_be 1 (zlen s) ++ s).
Proof.
  intros Hs. by apply (writes_length_prefixed s u8_max u8_max 1 "UTF-8 field").
Qed.

Lemma writes_entries es : Forall entry_ok es → writes (write_entries es) (body_of es).
Proof.
  induction 1 as [|e es He _ IH]; [apply writes_ret|]. cbn [write_entries].
  rewrite body_cons. unfold entry_bytes. rewrite <- !app_assoc.
  rewrite (app_assoc (to_be 1 (zlen (entry_key e)))), (app_assoc (to_be 1 (zlen (entry_value e)))).
  pose proof (validate_text_len _ _ _ (entry_key_valid e He)).
  pose proof (validate_text_len _ _ _ (entry_value_valid e He)).
  apply writes_bind; [by apply writes_utf8_u8|]. apply writes_bind; [apply writes_write|].
  apply writes_bind; [by apply writes_utf8_u8|]. by apply writes_bind; [apply writes_write|].
Qed.

Lemma mapping_canonical max :
  canonical (mapping_fits max) mapping_bytes (mapping_decode_from max) mapping_encode_into.
Proof.
  split.
  - intros [es] [[Hok Hs Hsize] Hmax]. cbn [entries] in *. unfold mapping_bytes. cbn [entries].
    pose proof (zlen_nonneg (body_of es)). unfold mapping_decode_from.
    unfold MAX_MAPPING_BODY_SIZE in *.
    eapply reads_bind; [apply reads_u16; unfold fits, u16_max in *; lia|]. cbv zeta.
    destruct (_ >? _) eqn:E; breflect; [lia|].
    eapply reads_map; [apply reads_take|]. eapply reads_map; [|apply reads_ret].
    apply reads_lift, reads_end_decode_exact; [|done|unfold u16_max, usize_max in *; lia].
    apply reads_entries; [done..|]. pose proof (length_body es). lia.
  - eapply consumes_bind; [apply consumes_u16|intros len w _ [-> Hlen]]. cbv zeta.
    unfold fits in Hlen.
    apply consumes_if; intros E; breflect; [apply consumes_fail_at|].
    eapply consumes_bind; [apply consumes_take; lia|intros body w Hbody [-> Hl]]. subst len.
    eapply (consumes_bind _ _ (λ es w, w = [] ∧ Forall entry_ok es ∧ Sorted entry_lt es ∧ body = body_of es)).
    { apply consumes_lift. intros es Hes.
      apply (consumes_decode_exact _ _ _ _ _ (consumes_entries _ _) Hbody) in Hes.
      destruct Hes as (_ & ? & ? & _ & ?). done. }
    intros es w _ (-> & Hok & Hs & ->). apply consumes_ret. rewrite !app_nil_r.
    assert (Hm : zlen (body_of es) ≤ max ∧ zlen (body_of es) ≤ MAX_MAPPING_BODY_SIZE) by lia.
    split; [|done]. split; [|apply Hm]. constructor; [done|by apply sorted_strongly|apply Hm].
  - intros m [[Hok Hs Hsize] _]. eapply writes_lift_ok; [by apply encoded_body_len_exact|].
    cbv beta. unfold try_from, MAX_MAPPING_BODY_SIZE in *.
    destruct (_ <=? _) eqn:E; breflect; [|lia].
    apply writes_bind; [apply writes_write|by apply writes_entries].
Qed.
End codec.

(** ** Building and looking up *)
Section building.
Lemma entries_new_exact ps es :
  Forall (λ p, text p.1 ∧ text p.2) ps →
  entries_new ps = Ok es ↔ es = (λ p, mkMappingEntry p.1 p.2) <$> ps ∧ Forall entry_ok es.
Proof.
  intros Hps. revert es. induction Hps as [|[k v] ps [Hk Hv] _ IH]; intros es; cbn [entries_new].
  - split; [by intros <-%Ok_inj|by intros [-> _]].
  - rewrite fmap_cons. cbn [fst snd] in *. split.
    + destruct (entry_new k v) as [e|] eqn:E; [|done]. cbn [mbind result_bind].
      apply entry_new_inv in E as [-> He]; [|done..].
      destruct (entries_new ps) as [es'|]; [|done]. cbn [mbind result_bind].
      intros <-%Ok_inj. destruct (proj1 (IH es') eq_refl) as [-> Hes]. split; [done|by constructor].
    + intros [-> [He Hes]%Forall_cons].
      pose proof (entry_new_ok _ He) as Hn. cbn [entry_key entry_value] in Hn.
      rewrite Hn. cbn [mbind result_bind].
      by rewrite (proj2 (IH _) (conj eq_refl Hes)).
Qed.

Lemma strictly_sorted es :
  Forall entry_ok es → Sorted entry_le es → has_adjacent_duplicate es = false → Sorted entry_lt es.
Proof.
  induction es as [|e1 [|e2 es] IH]; [by constructor|by repeat constructor|].
  intros [He1 Hes]%Forall_cons [Hs Hhd]%Sorted_inv. cbn [has_adjacent_duplicate].
  intros [Hne Hdup]%orb_false_iff. constructor; [by apply IH|]. constructor.
  apply bool_decide_eq_false in Hne. inv Hhd. unfold entry_le, entry_lt in *.
  apply Forall_cons in Hes as [He2 _].
  destruct (java_string_cmp _ _) eqn:E; [|done..]. apply java_cmp_eq in E; [done|apply He1|apply He2].
Qed.

Lemma entry_lt_irrefl e1 e2 : entry_lt e1 e2 → entry_key e1 ≠ entry_key e2.
Proof.
  unfold entry_lt, java_string_cmp. intros Hlt Heq. rewrite Heq in Hlt.
  by rewrite (proj2 (units_cmp_eq _ _) eq_refl) in Hlt.
Qed.

Lemma no_adjacent_duplicate es :
  StronglySorted entry_lt es → has_adjacent_duplicate es = false.
Proof.
  induction 1 as [|e1 [|e2 es] _ IH Hlt]; [done..|].
  change (bool_decide (entry_key e1 = entry_key e2) || has_adjacent_duplicate (e2 :: es) = false).
  rewrite IH, orb_false_r. apply bool_decide_eq_false_2.
  apply Forall_cons in Hlt as [Hlt _]. by apply entry_lt_irrefl.
Qed.

Lemma sorted_key_unique es e1 e2 :
  StronglySorted entry_lt es → e1 ∈ es → e2 ∈ es → entry_key e1 = entry_key e2 → e1 = e2.
Proof.
  induction 1 as [|e es _ IH Hlt]; [by intros ?%not_elem_of_nil|].
  rewrite !elem_of_cons, Forall_forall in *. intros [->|H1] [->|H2] Heq; auto.
  - by apply Hlt, entry_lt_irrefl in H2.
  - by apply Hlt, entry_lt_irrefl in H1.
Qed.

Lemma entry_lt_le es : StronglySorted entry_lt es → StronglySorted entry_le es.
Proof.
  induction 1 as [|e es _ IH Hlt]; constructor; [done|]. eapply Forall_impl; [exact Hlt|].
  unfold entry_lt, entry_le. by intros e' ->.
Qed.

(** Sorting finds the strictly sorted arrangement when there is one. *)
Lemma merge_sort_unique es0 es :
  Forall entry_ok es → StronglySorted entry_lt es → es0 ≡ₚ es → merge_sort entry_le es0 = es.
Proof.
  intros Hok Hs Hp. rewrite Forall_forall in Hok.
  apply (StronglySorted_unique_strong entry_le); [|apply (StronglySorted_merge_sort entry_le)|
    by apply entry_lt_le|by rewrite merge_sort_Permutation].
  intros e1 e2 H1 H2 Hle1 Hle2. rewrite merge_sort_Permutation, Hp in H1.
  apply (sorted_key_unique es); [done..|]. unfold entry_le, java_string_cmp in *.
  apply java_cmp_eq; [by apply Hok|by apply Hok|]. unfold java_string_cmp.
  rewrite units_cmp_antisym in Hle2. by destruct (units_cmp _ _).
Qed.

Lemma sorted_lookup es i j ei ej :
  StronglySorted entry_lt es → (i < j)%nat → es !! i = Some ei → es !! j = Some ej → entry_lt ei ej.
Proof.
  intros Hs. revert i j. induction Hs as [|e es _ IH Hlt]; intros i j Hij; [done|].
  destruct i as [|i], j as [|j]; [lia| |lia|]; cbn.
  - intros [= <-] Hj%list_elem_of_lookup_2. rewrite Forall_forall in Hlt. by apply Hlt.
  - apply IH. lia.
Qed.

Lemma bisect_finds fuel cmp es base size j :
  (size ≤ fuel)%nat → (base ≤ j < base + size)%nat → (j < length es)%nat →
  (∀ i e, es !! i = Some e → ((i < j)%nat → cmp e = Lt) ∧ ((j < i)%nat → cmp e = Gt) ∧
                             (i = j → cmp e = Eq)) →
  (base + size ≤ length es)%nat → bisect fuel cmp es base size = j.
Proof.
  revert base size. induction fuel as [|fuel IH]; intros base size Hf Hj Hlen Hcmp Hsz; [lia|].
  cbn [bisect]. destruct (Nat.leb_spec size 1) as [Hs|Hs]; [lia|].
  assert (Hhalf : (0 < Nat.div2 size ∧ 2 * Nat.div2 size ≤ size)%nat).
  { rewrite Nat.div2_div. split; [apply Nat.div_str_pos; lia|apply Nat.Div0.mul_div_le]. }
  destruct (es !! (base + Nat.div2 size)%nat) as [e|] eqn:E.
  2: { apply lookup_ge_None in E. lia. }
  destruct (Hcmp _ _ E) as (Hlt & Hgt & Heq).
  destruct (lt_eq_lt_dec (base + Nat.div2 size) j) as [[Hm|Hm]|Hm].
  - rewrite Hlt by done. apply IH; done || lia.
  - rewrite Heq by done. apply IH; done || lia.
  - rewrite Hgt by done. apply IH; done || lia.
Qed.
End building.

(** ** Properties *)

(** A mapping is built exactly from well-formed, distinct keys.
    [Mapping::from_entries] succeeds with a mapping if and only if the mapping
    holds exactly the given pairs, is strictly sorted in the Java (UTF-16) key
    order, respects the text rules and fits the 16-bit body length; in
    particular every duplicate key is found although only neighbours are
    compared. *)
Theorem from_entries_exact ps m (Hps : Forall (λ p, text p.1 ∧ text p.2) ps) :
  from_entries ps = Ok m ↔
  mapping_ok m ∧ (λ e, (entry_key e, entry_value e)) <$> entries m ≡ₚ ps.
Proof.
  unfold from_entries. split.
  - destruct (entries_new ps) as [es|] eqn:E; [|done]. apply entries_new_exact in E as [-> Hok]; [|done].
    cbn [mbind result_bind]. cbv zeta. set (es := _ <$> ps) in *.
    destruct (has_adjacent_duplicate _) eqn:Ed; [done|].
    destruct (encoded_body_len _) as [t|] eqn:El; [|done]. cbn [mbind result_bind].
    apply encoded_body_len_exact in El as [_ Hsize]. intros <-%Ok_inj. cbn [entries] in *.
    assert (Hok' : Forall entry_ok (merge_sort entry_le es)) by by rewrite merge_sort_Permutation.
    split; [constructor; cbn [entries]; [done| |done]|].
    + apply sorted_strongly, strictly_sorted; [done| |done]. apply (Sorted_merge_sort entry_le).
    + rewrite merge_sort_Permutation. subst es. rewrite <- list_fmap_compose.
      rewrite (list_fmap_ext _ id) by by intros ? []. by rewrite list_fmap_id.
  - intros [[Hok Hs Hsize] Hp]. set (es := (λ p, mkMappingEntry p.1 p.2) <$> ps).
    assert (Hes : es ≡ₚ entries m).
    { subst es. rewrite <- Hp, <- list_fmap_compose.
      rewrite (list_fmap_ext _ id) by by intros ? []. by rewrite list_fmap_id. }
    rewrite (proj2 (entries_new_exact ps es Hps)) by (split; [done|by rewrite Hes]).
    cbn [mbind result_bind]. cbv zeta. rewrite (merge_sort_unique es (entries m)) by done.
    rewrite no_adjacent_duplicate by done. destruct m as [es']. cbn [entries] in *.
    by rewrite (proj2 (encoded_body_len_exact (mkMapping es') _) (conj eq_refl Hsize)).
Qed.

(** C31: mappings have one encoding.  Up to the caller's limit, an input is
    decoded to a mapping exactly when the mapping is well formed (text rules,
    strict key order, no duplicates) and encodes to that very input. *)
Theorem mapping_decode_exact inp max m
    (Hb : bytes_ok inp) (Hu : zlen inp ≤ usize_max) :
  mapping_decode inp max = Ok m ↔
  zlen inp ≤ max ∧ mapping_ok m ∧ mapping_encode m usize_max = Ok inp.
Proof.
  unfold mapping_decode. rewrite (canonical_exact _ _ _ _ inp max m (mapping_canonical max)) by done.
  unfold mapping_encode. split; [by intros (? & [? _] & ?)|]. intros (Hm & Hok & He).
  split_and!; [done|split; [done|]|done].
  destruct (canonical_writes _ _ _ _ (mapping_canonical (zlen (body_of (entries m)))) m) as [_ Hinv];
    [by split|].
  apply (writes_encode_to_vec _ (mapping_bytes m)) in He as [-> _];
    [|apply (canonical_writes _ _ _ _ (mapping_canonical (zlen (body_of (entries m))))); by split|done].
  unfold mapping_bytes in Hm. rewrite zlen_app, zlen_to_be in Hm. lia.
Qed.

(** Lookup by binary search is lookup.  In a well-formed mapping
    [Mapping::get] returns a value exactly when the mapping has an entry with
    that key and that value. *)
Theorem mapping_get_exact m k v (Hm : mapping_ok m) (Hk : text k) :
  mapping_get m k = Some v ↔ mkMappingEntry k v ∈ entries m.
Proof.
  destruct Hm as [Hok Hs _]. unfold mapping_get, binary_search_by. split.
  - rewrite bind_Some. intros (i & Hi & Hv). revert Hi.
    cbv zeta. destruct (entries m !! bisect _ _ _ _ _) as [e|] eqn:E; [|done].
    destruct (java_string_cmp (entry_key e) k) eqn:Ec; [|done..]. intros [= <-].
    rewrite E in Hv. injection Hv as <-. pose proof (list_elem_of_lookup_2 _ _ _ E) as Hin.
    rewrite Forall_forall in Hok. apply java_cmp_eq in Ec as <-; [|by apply Hok|done].
    by destruct e.
  - intros (j & Hj)%list_elem_of_lookup_1. pose proof (lookup_lt_Some _ _ _ Hj) as Hlt.
    assert (Hcmp : ∀ i e, entries m !! i = Some e →
      ((i < j)%nat → java_string_cmp (entry_key e) k = Lt) ∧
      ((j < i)%nat → java_string_cmp (entry_key e) k = Gt) ∧
      (i = j → java_string_cmp (entry_key e) k = Eq)).
    { intros i e Hi. split_and!.
      - intros Hij. apply (sorted_lookup _ _ _ _ _ Hs Hij Hi Hj).
      - intros Hij. pose proof (sorted_lookup _ _ _ _ _ Hs Hij Hj Hi) as Hl.
        unfold java_string_cmp. rewrite units_cmp_antisym.
        unfold entry_lt, java_string_cmp in Hl. cbn [entry_key] in Hl. by rewrite Hl.
      - intros ->. rewrite Hj in Hi. injection Hi as <-. by apply units_cmp_eq. }
    rewrite (bisect_finds _ _ _ _ _ j) by (done || lia).
    rewrite Hj. cbn [entry_key]. unfold java_string_cmp.
    rewrite (proj2 (units_cmp_eq _ _) eq_refl). cbn [mbind option_bind]. by rewrite Hj.
Qed.

(** ** Witnesses *)
Lemma text_b s :
  forallb (λ b, (0 <=? b) && (b <? 256)) s = true → bool_decide (valid_utf8 s) = true → text s.
Proof. intros H1 H2. split; [by apply bytes_okb|by apply bool_decide_eq_true in H2]. Qed.

(** The pairs [caps=R] and [a=b]. *)
Definition sample_pairs : list (bytes * bytes) := [([99; 97; 112; 115], [102]); ([97], [98])].
Definition sample_mapping : Mapping :=
  mkMapping [mkMappingEntry [97] [98]; mkMappingEntry [99; 97; 112; 115] [102]].

Lemma sample_mapping_ok : mapping_ok sample_mapping.
Proof.
  constructor; [| |by vm_compute].
  - constructor; [|constructor; [|constructor]]; (split; [by apply text_b..|done|done]).
  - constructor; [constructor; constructor|constructor; [reflexivity|constructor]].
Qed.

Lemma from_entries_exact_witness : mapping_ok sample_mapping.
Proof.
  apply (from_entries_exact sample_pairs sample_mapping).
  - constructor; [|constructor; [|constructor]]; split; by apply text_b.
  - vm_compute. reflexivity.
Defined.

Lemma mapping_decode_exact_witness :
  mapping_decode (mapping_bytes sample_mapping) 64 = Ok sample_mapping.
Proof.
  apply (mapping_decode_exact (mapping_bytes sample_mapping) 64 sample_mapping).
  - apply bytes_okb. reflexivity.
  - vm_compute. discriminate.
  - split; [vm_compute; discriminate|]. split; [apply sample_mapping_ok|].
    vm_compute. reflexivity.
Defined.

Lemma mapping_get_exact_witness :
  mkMappingEntry [99; 97; 112; 115] [102] ∈ entries sample_mapping.
Proof.
  apply (mapping_get_exact sample_mapping [99; 97; 112; 115] [102]).
  - apply sample_mapping_ok.
  - apply text_b; reflexivity.
  - vm_compute. reflexivity.
Defined.
