(* ===== verification/LeaseSet.v ===== *)
(** * Leases and classic LeaseSets

    Models [src/crates/i2pr-proto/src/common/lease.rs]: the 44-byte lease, the
    classic LeaseSet with its retained signed region, and the dispatch on the
    DatabaseStore type. *)
From S2P Require Import Prelude Utf8 Codec Common Identity.

Record Lease := mkLease { lease_gateway : bytes; lease_tunnel_id : Z; lease_end_date : Z }.

Definition lease_decode_from : decoder Lease :=
  gw ← hash_decode_from; id ← Cursor.read_u32; d ← date_decode_from; mret (mkLease gw id d).
Definition lease_encode_into (l : Lease) : encoder () :=
  _ ← hash_encode_into (lease_gateway l);
  _ ← Buffer.write_u32 (lease_tunnel_id l);
  date_encode_into (lease_end_date l).
Definition lease_decode (inp : bytes) (max : Z) : result CodecError Lease :=
  decode_exact inp max lease_decode_from.
Definition lease_encode (l : Lease) (max : Z) : result CodecError bytes :=
  encode_to_vec max (lease_encode_into l).

Record LeaseSet := mkLeaseSet {
  ls_destination : Destination;
  ls_encryption_key : PublicKey;
  ls_signing_key : SigningPublicKey;
  ls_leases : list Lease;
  ls_signed_bytes : bytes;
  ls_signature : SignatureValue;
}.

Definition destination_signing_type (d : Destination) : SigningKeyType :=
  signing_type (signing_key (destination_keys d)).

Definition write_leases (l : list Lease) : encoder () := write_each lease_encode_into l.

Definition ls_encode_unsigned (d : Destination) (ek : PublicKey) (sk : SigningPublicKey)
    (leases : list Lease) : encoder () :=
  _ ← Keys.encode_into (destination_keys d);
  _ ← Buffer.write_raw (public_bytes ek);
  _ ← Buffer.write_raw (signing_bytes sk);
  match try_from u8_max (zlen leases) with
  | None => fail (invalid 0 "LeaseSet lease count")
  | Some cnt => _ ← Buffer.write_u8 cnt; write_leases leases
  end.

(** [LeaseSet::new] *)
Definition lease_set_new (d : Destination) (ek : PublicKey) (sk : SigningPublicKey)
    (leases : list Lease) (sig : SignatureValue) : result CodecError LeaseSet :=
  if bool_decide (public_type ek ≠ Crypto.ElGamal)
     || negb (zlen (public_bytes ek) =? LEGACY_PUBLIC_KEY_SIZE)
  then Err (PolicyRejected 0 "classic LeaseSet encryption key")
  else if bool_decide (signing_type sk ≠ destination_signing_type d)
          || bool_decide (signature_type sig ≠ destination_signing_type d)
  then Err (invalid 0 "LeaseSet signing type")
  else if zlen leases >? MAX_LEASES
  then Err (LengthExceeded 0 (zlen leases) MAX_LEASES "LeaseSet lease count")
  else
  signed ← encode_to_vec MAX_COMMON_STRUCTURE_SIZE (ls_encode_unsigned d ek sk leases);
  match checked_add usize_max (zlen signed) (zlen (signature_bytes sig)) with
  | None => Err (ArithmeticOverflow (zlen signed) "LeaseSet length")
  | Some total =>
      if total >? MAX_COMMON_STRUCTURE_SIZE
      then Err (LengthExceeded (zlen signed) total MAX_COMMON_STRUCTURE_SIZE "LeaseSet")
      else Ok (mkLeaseSet d ek sk leases signed sig)
  end.

(** ** Decoding *)
Definition read_leases (n : nat) : decoder (list Lease) := read_n lease_decode_from n.

(** The signed fields. *)
Definition ls_read_unsigned
    : decoder (Destination * PublicKey * SigningPublicKey * list Lease) :=
  d ← destination_decode_from;
  eb ← Cursor.take LEGACY_PUBLIC_KEY_SIZE;
  ek ← lift (public_key_new Crypto.ElGamal eb);
  let st := destination_signing_type d in
  match Signing.public_key_len st with
  | None => fail (unsupported 0 "LeaseSet signing type" (Signing.code st))
  | Some len =>
      sb ← Cursor.take len;
      sk ← lift (signing_key_new st sb);
      cnt ← Cursor.read_u8;
      if cnt >? MAX_LEASES
      then fail_at (λ c, PolicyRejected (saturating_sub (offset c) 1) "LeaseSet lease count")
      else
      leases ← read_leases (Z.to_nat cnt);
      mret (d, ek, sk, leases)
  end.

(** [LeaseSet::decode]; the signature has the type of the destination's key. *)
Definition ls_signer '((d, _, _, _) : Destination * PublicKey * SigningPublicKey * list Lease)
    : SigningKeyType := destination_signing_type d.
Definition ls_build '((d, ek, sk, leases) : Destination * PublicKey * SigningPublicKey * list Lease)
    (signed : bytes) (sig : SignatureValue) : LeaseSet := mkLeaseSet d ek sk leases signed sig.

Definition lease_set_decode (inp : bytes) (max : Z) : result CodecError LeaseSet :=
  decode_signed ls_read_unsigned ls_signer
    (λ u _, unsupported 0 "LeaseSet signature type" (Signing.code (ls_signer u)))
    ls_build inp max.

Definition lease_set_encode (v : LeaseSet) (max : Z) : result CodecError bytes :=
  encode_signed (ls_signed_bytes v) (ls_signature v) max.

Definition decode_lease_set_variant (store_type : Z) (inp : bytes) (max : Z)
    : result CodecError LeaseSet :=
  if store_type =? 1 then lease_set_decode inp max
  else if store_type =? 3 then Err (unsupported 0 "LeaseSet2 variant" 3)
  else if store_type =? 5 then Err (unsupported 0 "EncryptedLeaseSet variant" 5)
  else if store_type =? 7 then Err (unsupported 0 "MetaLeaseSet variant" 7)
  else Err (unsupported 0 "LeaseSet DatabaseStore type" store_type).

(** ** Invariants and wire format *)
Definition lease_ok (l : Lease) : Prop :=
  zlen (lease_gateway l) = 32 ∧ fits 32 (lease_tunnel_id l) ∧ fits 64 (lease_end_date l).
Definition lease_bytes (l : Lease) : bytes :=
  lease_gateway l ++ to_be 4 (lease_tunnel_id l) ++ to_be 8 (lease_end_date l).

Definition unsigned_bytes (d : Destination) (ek : PublicKey) (sk : SigningPublicKey)
    (leases : list Lease) : bytes :=
  destination_bytes d ++ public_bytes ek ++ signing_bytes sk ++ [zlen leases] ++
  concat (lease_bytes <$> leases).

Record unsigned_ok (d : Destination) (ek : PublicKey) (sk : SigningPublicKey)
    (leases : list Lease) : Prop := {
  uo_destination : destination_ok d;
  uo_encryption : public_key_ok ek ∧ public_type ek = Crypto.ElGamal;
  uo_signing : signing_key_ok sk ∧ signing_type sk = destination_signing_type d;
  uo_leases : Forall lease_ok leases ∧ zlen leases ≤ MAX_LEASES;
}.

(** What holds of every LeaseSet, built or decoded. *)
Record lease_set_ok (v : LeaseSet) : Prop := {
  lso_unsigned : unsigned_ok (ls_destination v) (ls_encryption_key v) (ls_signing_key v) (ls_leases v);
  lso_signature : signature_ok (ls_signature v) ∧
    signature_type (ls_signature v) = destination_signing_type (ls_destination v);
  lso_signed : ls_signed_bytes v =
    unsigned_bytes (ls_destination v) (ls_encryption_key v) (ls_signing_key v) (ls_leases v);
}.

Section lease_set.
Lemma lease_canonical : canonical lease_ok lease_bytes lease_decode_from lease_encode_into.
Proof.
  split.
  - intros l (Hg & Hi & Hd). eapply reads_bind; [by apply reads_take_n|].
    eapply reads_bind; [by apply reads_u32|].
    eapply reads_map; [by apply reads_u64|]. destruct l. apply reads_ret.
  - eapply consumes_bind; [by apply consumes_take|intros gw w _ [-> Hg]].
    eapply consumes_bind; [apply consumes_u32|intros id0 w _ [-> Hi]].
    eapply consumes_bind; [apply consumes_u64|intros d w _ [-> Hd]].
    apply consumes_ret. by rewrite app_nil_r.
  - intros l _. do 2 (apply writes_bind; [apply writes_write|]). apply writes_write.
Qed.

Lemma reads_unsigned d ek sk leases :
  unsigned_ok d ek sk leases →
  reads ls_read_unsigned (unsigned_bytes d ek sk leases) (d, ek, sk, leases).
Proof.
  intros [Hd [He Het] [Hs Hst] [Hl Hmax]]. unfold ls_read_unsigned, unsigned_bytes.
  destruct ek as [et eb], sk as [st sb]. cbn [public_type signing_type public_bytes signing_bytes] in *.
  subst et st.
  eapply reads_bind; [by apply (canonical_reads _ _ _ _ destination_canonical)|].
  eapply reads_bind; [apply reads_take_n; by injection He as <-|].
  eapply reads_silent; [by apply reads_lift, public_key_new_exact|]. cbv zeta.
  pose proof Hs as Hlen. unfold signing_key_ok in Hlen. cbn [signing_type signing_bytes] in Hlen.
  rewrite Hlen.
  eapply reads_bind; [apply reads_take|].
  eapply reads_silent; [by apply reads_lift, signing_key_new_exact|].
  eapply reads_bind; [apply reads_u8|]. destruct (_ >? _) eqn:E; breflect; [lia|].
  unfold zlen. rewrite Nat2Z.id. eapply reads_map; [by apply (reads_n lease_canonical)|apply reads_ret].
Qed.

Lemma consumes_unsigned :
  consumes ls_read_unsigned
    (λ '(d, ek, sk, leases) w, unsigned_ok d ek sk leases ∧ w = unsigned_bytes d ek sk leases).
Proof.
  eapply consumes_bind; [apply (canonical_consumes _ _ _ _ destination_canonical)|intros d w _ [Hd ->]].
  eapply consumes_bind; [by apply consumes_take|intros eb w _ [-> Heb]].
  eapply (consumes_bind _ _ (λ ek w, w = [] ∧ ek = mkPublicKey Crypto.ElGamal eb ∧ public_key_ok ek)).
  { apply consumes_lift. by intros ek [-> ?]%public_key_new_exact. }
  intros ek w _ (-> & -> & He). cbv zeta.
  destruct (Signing.public_key_len _) as [len|] eqn:Hlen; [|apply consumes_fail].
  apply signing_code_known in Hlen as Hl. eapply consumes_bind; [apply consumes_take; lia|].
  intros sb w _ [-> Hsb].
  eapply (consumes_bind _ _ (λ sk w, w = [] ∧ sk = mkSigningKey (destination_signing_type d) sb ∧
    signing_key_ok sk)).
  { apply consumes_lift. by intros sk [-> ?]%signing_key_new_exact. }
  intros sk w _ (-> & -> & Hs).
  eapply consumes_bind; [apply consumes_u8|intros cnt w _ [-> Hcnt]].
  apply consumes_if; intros E; breflect; [apply consumes_fail_at|].
  eapply consumes_bind; [apply (consumes_n lease_canonical)|intros l w _ (Hls & Hn & ->)].
  unfold fits in Hcnt.
  assert (Hz : zlen l = cnt) by (unfold zlen; lia).
  apply consumes_ret. rewrite app_nil_r. split; [constructor; try done; split; (done || lia)|].
  unfold unsigned_bytes. cbn [public_bytes signing_bytes app]. by rewrite Hz.
Qed.

Lemma writes_unsigned d ek sk leases :
  unsigned_ok d ek sk leases →
  writes (ls_encode_unsigned d ek sk leases) (unsigned_bytes d ek sk leases).
Proof.
  intros [Hd _ _ [Hl Hmax]]. unfold ls_encode_unsigned, unsigned_bytes.
  apply writes_bind; [by apply (canonical_writes _ _ _ _ destination_canonical)|].
  do 2 (apply writes_bind; [apply writes_write|]).
  unfold try_from, MAX_LEASES, u8_max in *. destruct (_ <=? _) eqn:E; breflect; [|lia].
  apply writes_bind; [apply writes_write|by apply (writes_each lease_canonical)].
Qed.

Lemma zlen_concat_leases l : Forall lease_ok l → zlen (concat (lease_bytes <$> l)) = 44 * zlen l.
Proof.
  induction 1 as [|x l (Hg & _) _ IH]; [done|]. rewrite fmap_cons. cbn [concat].
  rewrite zlen_app, IH, zlen_cons. unfold lease_bytes. rewrite !zlen_app, !zlen_to_be. lia.
Qed.

(** A LeaseSet is far below the size limit of its constructor. *)
Lemma zlen_unsigned d ek sk leases :
  unsigned_ok d ek sk leases → zlen (unsigned_bytes d ek sk leases) ≤ 2248.
Proof.
  intros [[Hd _] [He Het] [Hs _] [Hl Hmax]]. unfold unsigned_bytes, destination_bytes.
  apply zlen_keys_bytes in Hd. apply crypto_code_known in He. apply signing_code_known in Hs.
  rewrite !zlen_app, zlen_one, zlen_concat_leases by done. unfold MAX_LEASES in *. lia.
Qed.
End lease_set.

(** The hypotheses of the signed-record lemmas. *)
Definition ls_fields_ok '((d, ek, sk, leases) : Destination * PublicKey * SigningPublicKey * list Lease)
    : Prop := unsigned_ok d ek sk leases.
Definition ls_fields_bytes
    '((d, ek, sk, leases) : Destination * PublicKey * SigningPublicKey * list Lease)
    : bytes := unsigned_bytes d ek sk leases.

Section signed_lease_set.
Lemma ls_fields_reads u : ls_fields_ok u → reads ls_read_unsigned (ls_fields_bytes u) u.
Proof. destruct u as [[[d ek] sk] l]. apply reads_unsigned. Qed.
Lemma ls_fields_consumes :
  consumes ls_read_unsigned (λ u w, ls_fields_ok u ∧ w = ls_fields_bytes u).
Proof. eapply consumes_impl; [apply consumes_unsigned|]. by intros [[[d ek] sk] l] w _. Qed.
Lemma ls_fields_size u : ls_fields_ok u → zlen (ls_fields_bytes u) ≤ u32_max.
Proof.
  destruct u as [[[d ek] sk] l]. intros Hu%zlen_unsigned. unfold u32_max. cbn [ls_fields_bytes]. lia.
Qed.
Lemma ls_encode_build u b sig max :
  lease_set_encode (ls_build u b sig) max = encode_signed b sig max.
Proof. by destruct u as [[[d ek] sk] l]. Qed.

Lemma lease_set_signed v :
  lease_set_ok v ↔ signed_record ls_fields_ok ls_fields_bytes ls_signer ls_build v.
Proof.
  split.
  - intros [Hu [Hs Hst] Hb]. destruct v as [d ek sk l b sig]. cbn in *. subst.
    by exists (d, ek, sk, l), sig.
  - intros ([[[d ek] sk] l] & sig & Hu & Hs & Hst & ->). by constructor.
Qed.
End signed_lease_set.

(** LeaseSets as records of a DatabaseStore. *)
#[export] Instance lease_set_record : WireRecord LeaseSet := {|
  record_decode := lease_set_decode;
  record_encode := lease_set_encode;
  record_ok := lease_set_ok;
|}.

#[export] Instance lease_set_record_laws : WireRecordLaws LeaseSet.
Proof.
  exact (signed_record_laws _ _ _ _ _ _ _ ls_fields_reads ls_fields_consumes ls_encode_build
    ls_fields_size _ lease_set_signed).
Qed.

(** ** Properties *)

(** Classic LeaseSets have one encoding, and keep the bytes that were
    signed.  An input within the caller's limit is decoded to a LeaseSet exactly
    when the LeaseSet is well formed (valid destination, ElGamal key, matching
    signature types, at most sixteen leases, and a retained signed region that
    is the encoding of its fields) and encodes to that very input. *)
Theorem lease_set_decode_exact inp max v
    (Hb : bytes_ok inp) (Hm : max ≤ usize_max) :
  lease_set_decode inp max = Ok v ↔
  zlen inp ≤ max ∧ lease_set_ok v ∧ lease_set_encode v usize_max = Ok inp.
Proof.
  rewrite lease_set_signed.
  by apply (signed_exact _ _ _ _ _ _ _ ls_fields_reads ls_fields_consumes ls_encode_build
    ls_fields_size).
Qed.

(** [LeaseSet::new] accepts exactly the combinations that make a
    well-formed LeaseSet: from valid parts it succeeds with [v] if and only if
    [v] has those parts and satisfies the LeaseSet invariant, so every LeaseSet
    it builds survives encoding and decoding. *)
Theorem lease_set_new_exact d ek sk leases sig v
    (Hd : destination_ok d) (Hek : public_key_ok ek) (Hsk : signing_key_ok sk)
    (Hl : Forall lease_ok leases) (Hsig : signature_ok sig) :
  lease_set_new d ek sk leases sig = Ok v ↔
  lease_set_ok v ∧ ls_destination v = d ∧ ls_encryption_key v = ek ∧ ls_signing_key v = sk ∧
  ls_leases v = leases ∧ ls_signature v = sig.
Proof.
  unfold lease_set_new. split.
  - destruct (bool_decide (public_type ek ≠ _) || _) eqn:E1; [done|].
    destruct (bool_decide (signing_type sk ≠ _) || _) eqn:E2; [done|].
    destruct (zlen leases >? MAX_LEASES) eqn:E3; [done|]. breflect. same_types.
    assert (Hu : unsigned_ok d ek sk leases) by (by constructor).
    rewrite (encode_to_vec_writes _ (unsigned_bytes d ek sk leases));
      [|by apply writes_unsigned|pose proof (zlen_unsigned _ _ _ _ Hu);
        unfold MAX_COMMON_STRUCTURE_SIZE; lia|done].
    cbn [mbind result_bind]. destruct (checked_add _ _ _) as [t|]; [|done].
    destruct (_ >? _); [done|]. intros <-%Ok_inj. split; [by constructor|done].
  - destruct v as [d' ek' sk' leases' sb sig'].
    cbn [ls_destination ls_encryption_key ls_signing_key ls_leases ls_signature].
    intros ([Hu [_ Hst] Hsb] & -> & -> & -> & -> & ->). cbn in Hu, Hst, Hsb.
    pose proof (zlen_unsigned _ _ _ _ Hu) as Hz. pose proof (signature_len_known _ _ Hsig).
    pose proof Hu as [_ [_ Het] [_ Hskt] [_ Hmax]].
    unfold public_key_ok in Hek. rewrite Het in Hek. injection Hek as Hek.
    rewrite !bool_decide_eq_false_2 by (intros Hn; by apply Hn).
    rewrite <- Hek. cbn [orb negb Z.eqb Pos.eqb LEGACY_PUBLIC_KEY_SIZE].
    destruct (_ >? _) eqn:E; breflect; [lia|].
    rewrite (encode_to_vec_writes _ (unsigned_bytes d ek sk leases));
      [|by apply writes_unsigned|unfold MAX_COMMON_STRUCTURE_SIZE; lia|done].
    cbn [mbind result_bind]. unfold MAX_COMMON_STRUCTURE_SIZE.
    destruct (checked_add _ _ _) as [t|] eqn:Ec;
      [|apply checked_add_None in Ec; unfold usize_max in Ec; lia].
    apply checked_add_Some in Ec as [-> _]. destruct (_ >? _) eqn:E2; breflect; [lia|].
    by rewrite Hsb.
Qed.

(** ** Witnesses *)
Definition sample_destination : Destination := mkDestination sample_keys.
Definition sample_encryption : PublicKey := mkPublicKey Crypto.ElGamal (replicate 256 3).
Definition sample_revocation : SigningPublicKey :=
  mkSigningKey Signing.EdDsaSha512Ed25519 (replicate 32 4).
Definition sample_signature : SignatureValue :=
  mkSignature Signing.EdDsaSha512Ed25519 (replicate 64 5).
Definition sample_leases : list Lease := [mkLease (replicate 32 6) 77 1000].
Definition sample_lease_set : LeaseSet :=
  mkLeaseSet sample_destination sample_encryption sample_revocation sample_leases
    (unsigned_bytes sample_destination sample_encryption sample_revocation sample_leases)
    sample_signature.

Lemma lease_set_decode_exact_witness : lease_set_ok sample_lease_set.
Proof.
  apply (lease_set_decode_exact (ls_signed_bytes sample_lease_set ++
    signature_bytes (ls_signature sample_lease_set)) 4096).
  - apply bytes_okb. vm_compute. reflexivity.
  - vm_compute. discriminate.
  - vm_compute. reflexivity.
Defined.

Lemma lease_set_new_exact_witness :
  lease_set_ok sample_lease_set.
Proof.
  apply (lease_set_new_exact sample_destination sample_encryption sample_revocation sample_leases
    sample_signature sample_lease_set).
  - split; [constructor; [reflexivity|reflexivity|reflexivity|vm_compute; reflexivity]|reflexivity].
  - reflexivity.
  - reflexivity.
  - constructor; [vm_compute; repeat split; discriminate|constructor].
  - reflexivity.
  - vm_compute. reflexivity.
Defined.
