(* ===== verification/RouterInfo.v ===== *)
(** * Router addresses and RouterInfo

    Models [src/crates/i2pr-proto/src/common/router_address.rs] and
    [router_info.rs]: transport addresses, the validated version and
    capability options, and the RouterInfo record with its retained signed
    region. *)
From S2P Require Import Prelude Utf8 Codec Common Identity Mapping.

Record RouterAddress := mkRouterAddress {
  ra_cost : Z;
  ra_expiration : Z;
  ra_transport_style : bytes;
  ra_options : Mapping;
}.

Definition router_address_new (cost expiration : Z) (style : bytes) (options : Mapping)
    : result CodecError RouterAddress :=
  _ ← validate_text style false "transport style";
  Ok (mkRouterAddress cost expiration style options).

Definition router_address_decode_from (max : Z) : decoder RouterAddress :=
  cost ← Cursor.read_u8;
  expiration ← date_decode_from;
  style ← Cursor.read_utf8_u8 u8_max;
  options ← mapping_decode_from max;
  lift (router_address_new cost expiration style options).

Definition router_address_encode_into (a : RouterAddress) : encoder () :=
  _ ← Buffer.write_u8 (ra_cost a);
  _ ← date_encode_into (ra_expiration a);
  _ ← Buffer.write_utf8_u8 (ra_transport_style a) u8_max;
  mapping_encode_into (ra_options a).

Definition router_address_decode (inp : bytes) (max : Z) : result CodecError RouterAddress :=
  decode_exact inp max (router_address_decode_from max).
Definition router_address_encode (a : RouterAddress) (max : Z) : result CodecError bytes :=
  encode_to_vec max (router_address_encode_into a).

(** ** Options with rules *)
Definition is_ascii_digit (b : Z) : bool := between 48 b 57.
Definition is_ascii_whitespace (b : Z) : bool :=
  (b =? 32) || (b =? 9) || (b =? 10) || (b =? 12) || (b =? 13).

Definition protocol_version_new (value : bytes) : result CodecError bytes :=
  _ ← validate_text value false "router version";
  if negb (forallb (λ b, is_ascii_digit b || (b =? 46)) value)
  then Err (invalid 0 "router version") else Ok value.

Definition capabilities_new (value : bytes) : result CodecError bytes :=
  _ ← validate_text value true "router capabilities";
  if existsb is_ascii_whitespace value then Err (invalid 0 "router capabilities") else Ok value.

(** The keys [router.version] and [caps]. *)
Definition KEY_VERSION : bytes := [114; 111; 117; 116; 101; 114; 46; 118; 101; 114; 115; 105; 111; 110].
Definition KEY_CAPS : bytes := [99; 97; 112; 115].

Definition validate_router_options (options : Mapping) : result CodecError () :=
  _ ← match mapping_get options KEY_VERSION with
      | Some version => _ ← protocol_version_new version; Ok ()
      | None => Ok ()
      end;
  match mapping_get options KEY_CAPS with
  | Some caps => _ ← capabilities_new caps; Ok ()
  | None => Ok ()
  end.

(** ** RouterInfo *)
Record RouterInfo := mkRouterInfo {
  ri_identity : RouterIdentity;
  ri_published : Z;
  ri_addresses : list RouterAddress;
  ri_peers : list bytes;
  ri_options : Mapping;
  ri_signed_bytes : bytes;
  ri_signature : SignatureValue;
}.

Definition identity_signing_type (i : RouterIdentity) : SigningKeyType :=
  signing_type (signing_key (identity_keys i)).

Definition write_addresses (l : list RouterAddress) : encoder () :=
  write_each router_address_encode_into l.
Definition write_peers (l : list bytes) : encoder () := write_each hash_encode_into l.

Definition ri_encode_unsigned (i : RouterIdentity) (published : Z) (addresses : list RouterAddress)
    (peers : list bytes) (options : Mapping) : encoder () :=
  _ ← Keys.encode_into (identity_keys i);
  _ ← date_encode_into published;
  _ ← match try_from u8_max (zlen addresses) with
      | None => fail (invalid 0 "RouterInfo address count")
      | Some cnt => Buffer.write_u8 cnt
      end;
  _ ← write_addresses addresses;
  _ ← match try_from u8_max (zlen peers) with
      | None => fail (invalid 0 "RouterInfo peer count")
      | Some cnt => Buffer.write_u8 cnt
      end;
  _ ← write_peers peers;
  mapping_encode_into options.

(** [RouterInfo::new] *)
Definition router_info_new (i : RouterIdentity) (published : Z) (addresses : list RouterAddress)
    (peers : list bytes) (options : Mapping) (sig : SignatureValue)
    : result CodecError RouterInfo :=
  if (zlen addresses >? MAX_ROUTER_ADDRESSES) || (zlen peers >? u8_max)
  then Err (LengthExceeded 0 (Z.max (zlen addresses) (zlen peers)) MAX_ROUTER_ADDRESSES
              "RouterInfo entry count")
  else if bool_decide (signature_type sig ≠ identity_signing_type i)
  then Err (invalid 0 "RouterInfo signature type")
  else
  _ ← validate_router_options options;
  signed ← encode_to_vec MAX_COMMON_STRUCTURE_SIZE
             (ri_encode_unsigned i published addresses peers options);
  match checked_add usize_max (zlen signed) (zlen (signature_bytes sig)) with
  | None => Err (ArithmeticOverflow (zlen signed) "RouterInfo length")
  | Some total =>
      if total >? MAX_COMMON_STRUCTURE_SIZE
      then Err (LengthExceeded (zlen signed) total MAX_COMMON_STRUCTURE_SIZE "RouterInfo")
      else Ok (mkRouterInfo i published addresses peers options signed sig)
  end.

Definition read_addresses (n : nat) (max : Z) : decoder (list RouterAddress) :=
  read_n (router_address_decode_from max) n.
Definition read_peers (n : nat) : decoder (list bytes) := read_n hash_decode_from n.

Definition ri_read_unsigned (max : Z)
    : decoder (RouterIdentity * Z * list RouterAddress * list bytes * Mapping) :=
  i ← identity_decode_from;
  published ← date_decode_from;
  address_count ← Cursor.read_u8;
  if address_count >? MAX_ROUTER_ADDRESSES
  then fail_at (λ c, PolicyRejected (saturating_sub (offset c) 1) "RouterInfo address count")
  else
  addresses ← read_addresses (Z.to_nat address_count) max;
  peer_count ← Cursor.read_u8;
  peers ← read_peers (Z.to_nat peer_count);
  options ← mapping_decode_from max;
  _ ← lift (validate_router_options options);
  mret (i, published, addresses, peers, options).

Definition ri_read_signature (st : SigningKeyType) (signed_end : Z) : decoder SignatureValue :=
  read_typed_signature (unsupported signed_end "RouterInfo signature type" (Signing.code st)) st.

Definition router_info_decode (inp : bytes) (max : Z) : result CodecError RouterInfo :=
  if zlen inp >? max then Err (LengthExceeded 0 (zlen inp) max "RouterInfo")
  else
  decode_exact inp max
    (u ← ri_read_unsigned max;
     signed_end ← gets offset;
     let '(i, published, addresses, peers, options) := u in
     sig ← ri_read_signature (identity_signing_type i) signed_end;
     mret (mkRouterInfo i published addresses peers options (slice 0 signed_end inp) sig)).

Definition router_info_encode (v : RouterInfo) (max : Z) : result CodecError bytes :=
  encode_to_vec max
    (_ ← Buffer.write_raw (ri_signed_bytes v);
     Buffer.write_raw (signature_bytes (ri_signature v))).

Definition protocol_version (v : RouterInfo) : result CodecError (option bytes) :=
  match mapping_get (ri_options v) KEY_VERSION with
  | None => Ok None
  | Some s => x ← protocol_version_new s; Ok (Some x)
  end.
Definition capabilities (v : RouterInfo) : result CodecError (option bytes) :=
  match mapping_get (ri_options v) KEY_CAPS with
  | None => Ok None
  | Some s => x ← capabilities_new s; Ok (Some x)
  end.

(** ** Invariants and wire format

    [max] is the caller's limit, which the option mappings respect. *)
Record address_ok (max : Z) (a : RouterAddress) : Prop := {
  ao_cost : fits 8 (ra_cost a);
  ao_expiration : fits 64 (ra_expiration a);
  ao_style : text (ra_transport_style a);
  ao_style_valid : validate_text (ra_transport_style a) false "transport style" = Ok ();
  ao_options : mapping_fits max (ra_options a);
}.

Definition address_bytes (a : RouterAddress) : bytes :=
  [ra_cost a] ++ to_be 8 (ra_expiration a) ++
  (to_be 1 (zlen (ra_transport_style a)) ++ ra_transport_style a) ++ mapping_bytes (ra_options a).

Definition peer_ok (h : bytes) : Prop := zlen h = 32.

Record ri_unsigned_ok (max : Z) (i : RouterIdentity) (published : Z)
    (addresses : list RouterAddress) (peers : list bytes) (options : Mapping) : Prop := {
  ruo_identity : identity_ok i;
  ruo_published : fits 64 published;
  ruo_addresses : Forall (address_ok max) addresses ∧ zlen addresses ≤ MAX_ROUTER_ADDRESSES;
  ruo_peers : Forall peer_ok peers ∧ zlen peers ≤ u8_max;
  ruo_options : mapping_fits max options;
  ruo_options_valid : validate_router_options options = Ok ();
}.

Definition ri_unsigned_bytes (i : RouterIdentity) (published : Z)
    (addresses : list RouterAddress) (peers : list bytes) (options : Mapping) : bytes :=
  identity_bytes i ++ to_be 8 published ++ [zlen addresses] ++
  concat (address_bytes <$> addresses) ++ [zlen peers] ++ concat (id <$> peers) ++
  mapping_bytes options.

(** What holds of every RouterInfo, built or decoded. *)
Record router_info_ok (v : RouterInfo) : Prop := {
  rio_unsigned : ri_unsigned_ok MAX_MAPPING_BODY_SIZE (ri_identity v) (ri_published v)
                   (ri_addresses v) (ri_peers v) (ri_options v);
  rio_signature : signature_ok (ri_signature v) ∧
    signature_type (ri_signature v) = identity_signing_type (ri_identity v);
  rio_signed : ri_signed_bytes v =
    ri_unsigned_bytes (ri_identity v) (ri_published v) (ri_addresses v) (ri_peers v) (ri_options v);
}.

Definition router_info_bytes (v : RouterInfo) : bytes :=
  ri_signed_bytes v ++ signature_bytes (ri_signature v).

Section router_info.
Lemma address_canonical max :
  canonical (address_ok max) address_bytes (router_address_decode_from max)
    router_address_encode_into.
Proof.
  split.
  - intros a [Hc He [Hb Hv] Hs Ho]. pose proof (validate_text_len _ _ _ Hs).
    unfold router_address_decode_from, address_bytes.
    eapply reads_bind; [apply reads_u8|]. eapply reads_bind; [by apply reads_u64|].
    eapply reads_bind; [by apply reads_utf8_u8|].
    eapply reads_map; [by apply (canonical_reads _ _ _ _ (mapping_canonical max))|].
    apply reads_lift. unfold router_address_new. rewrite Hs. by destruct a.
  - eapply consumes_bind; [apply consumes_u8|intros c w _ [-> Hc]].
    eapply consumes_bind; [apply consumes_u64|intros e w _ [-> He]].
    eapply consumes_bind; [apply consumes_utf8_u8|intros s w Hs (-> & Hv & _)].
    apply Forall_app in Hs as [_ Hs].
    eapply consumes_bind; [apply (canonical_consumes _ _ _ _ (mapping_canonical max))|].
    intros o w _ [Ho ->]. apply consumes_lift. intros a. unfold router_address_new.
    destruct (validate_text _ _ _) as [[]|] eqn:E; [|done]. cbn [mbind result_bind].
    intros <-%Ok_inj. rewrite app_nil_r. split; [by constructor|done].
  - intros a [_ _ _ Hs Ho]. pose proof (validate_text_len _ _ _ Hs).
    do 2 (apply writes_bind; [apply writes_write|]).
    apply writes_bind; [by apply writes_utf8_u8|].
    by apply (canonical_writes _ _ _ _ (mapping_canonical max)).
Qed.

Lemma peer_canonical : canonical peer_ok id hash_decode_from hash_encode_into.
Proof.
  split.
  - intros h Hh. by apply reads_take_n.
  - eapply consumes_impl; [by apply consumes_take|]. by intros h w _ [-> ?].
  - intros h _. apply writes_write.
Qed.

Lemma reads_ri_unsigned max i published addresses peers options :
  ri_unsigned_ok max i published addresses peers options →
  reads (ri_read_unsigned max) (ri_unsigned_bytes i published addresses peers options)
    (i, published, addresses, peers, options).
Proof.
  intros [Hi Hp [Ha Hal] [Hpe Hpl] Ho Hov]. unfold ri_read_unsigned, ri_unsigned_bytes.
  eapply reads_bind; [by apply (canonical_reads _ _ _ _ identity_canonical)|].
  eapply reads_bind; [by apply reads_u64|]. eapply reads_bind; [apply reads_u8|].
  destruct (_ >? _) eqn:E; breflect; [lia|]. clear E.
  unfold zlen at 1. rewrite Nat2Z.id.
  eapply reads_bind; [by apply (reads_n (address_canonical max))|].
  eapply reads_bind; [apply reads_u8|]. unfold zlen at 1. rewrite Nat2Z.id.
  eapply reads_bind; [by apply (reads_n peer_canonical)|].
  eapply reads_map; [by apply (canonical_reads _ _ _ _ (mapping_canonical max))|].
  eapply reads_silent; [by apply reads_lift|apply reads_ret].
Qed.

Lemma consumes_ri_unsigned max :
  consumes (ri_read_unsigned max)
    (λ '(i, published, addresses, peers, options) w,
       ri_unsigned_ok max i published addresses peers options ∧
       w = ri_unsigned_bytes i published addresses peers options).
Proof.
  eapply consumes_bind; [apply (canonical_consumes _ _ _ _ identity_canonical)|intros i w _ [Hi ->]].
  eapply consumes_bind; [apply consumes_u64|intros p w _ [-> Hp]].
  eapply consumes_bind; [apply consumes_u8|intros ac w _ [-> Hac]].
  apply consumes_if; intros E; breflect; [apply consumes_fail_at|].
  eapply consumes_bind; [apply (consumes_n (address_canonical max))|intros l w _ (Hl & Hn & ->)].
  eapply consumes_bind; [apply consumes_u8|intros pc w _ [-> Hpc]].
  eapply consumes_bind; [apply (consumes_n peer_canonical)|intros ps w _ (Hps & Hm & ->)].
  eapply consumes_bind; [apply (canonical_consumes _ _ _ _ (mapping_canonical max))|].
  intros o w _ [Ho ->].
  eapply (consumes_bind _ _ (λ _ w, w = [] ∧ validate_router_options o = Ok ())).
  { apply consumes_lift. by intros [] ?. }
  intros _ w _ [-> Hov]. unfold fits in Hac, Hpc.
  assert (zlen l = ac) as <- by (unfold zlen; lia). assert (zlen ps = pc) as <- by (unfold zlen; lia).
  apply consumes_ret. rewrite !app_nil_r. split; [|done].
  constructor; try done; split; try done. unfold u8_max. lia.
Qed.

Lemma writes_count cnt e : cnt ≤ u8_max →
  writes (match try_from u8_max cnt with None => fail e | Some c => Buffer.write_u8 c end) [cnt].
Proof. intros Hc. unfold try_from. destruct (_ <=? _) eqn:E; breflect; [apply writes_write|lia]. Qed.

Lemma writes_ri_unsigned max i published addresses peers options :
  ri_unsigned_ok max i published addresses peers options →
  writes (ri_encode_unsigned i published addresses peers options)
    (ri_unsigned_bytes i published addresses peers options).
Proof.
  intros [Hi Hp [Ha Hal] [Hpe Hpl] Ho _].
  apply writes_bind; [by apply (canonical_writes _ _ _ _ identity_canonical)|].
  apply writes_bind; [apply writes_write|]. apply writes_bind; [by apply writes_count|].
  apply writes_bind; [by apply (writes_each (address_canonical max))|].
  apply writes_bind; [by apply writes_count|].
  apply writes_bind; [by apply (writes_each peer_canonical)|].
  by apply (canonical_writes _ _ _ _ (mapping_canonical max)).
Qed.

(** The limit on mappings only matters below the length of the record. *)
Lemma mapping_fits_weaken max m : mapping_fits max m → mapping_fits MAX_MAPPING_BODY_SIZE m.
Proof. intros [Hm _]. split; [done|apply Hm]. Qed.

Lemma zlen_body_le m : zlen (body_of (entries m)) ≤ zlen (mapping_bytes m).
Proof. unfold mapping_bytes. rewrite zlen_app, zlen_to_be. lia. Qed.

Lemma zlen_concat_elem {A} (f : A → bytes) x l : x ∈ l → zlen (f x) ≤ zlen (concat (f <$> l)).
Proof.
  induction 1 as [x l|x y l _ IH]; rewrite fmap_cons; cbn [concat]; rewrite zlen_app.
  - pose proof (zlen_nonneg (concat (f <$> l))). lia.
  - pose proof (zlen_nonneg (f y)). lia.
Qed.

Lemma ri_unsigned_weaken max i p a h o :
  ri_unsigned_ok max i p a h o → ri_unsigned_ok MAX_MAPPING_BODY_SIZE i p a h o.
Proof.
  intros [Hi Hp [Ha Hal] Hpe Ho Hov]. constructor; try done.
  - split; [|done]. eapply Forall_impl; [exact Ha|]. intros x [? ? ? ? Hm]. constructor; try done.
    by apply mapping_fits_weaken in Hm.
  - by apply mapping_fits_weaken in Ho.
Qed.

Lemma ri_unsigned_at max i p a h o :
  ri_unsigned_ok MAX_MAPPING_BODY_SIZE i p a h o →
  zlen (ri_unsigned_bytes i p a h o) ≤ max → ri_unsigned_ok max i p a h o.
Proof.
  intros [Hi Hp [Ha Hal] Hpe [Ho Hos] Hov] Hmax. unfold ri_unsigned_bytes in Hmax.
  rewrite !zlen_app, !zlen_to_be, !zlen_one in Hmax.
  pose proof (zlen_nonneg (identity_bytes i)). pose proof (zlen_nonneg (concat (id <$> h))).
  pose proof (zlen_nonneg (mapping_bytes o)). pose proof (zlen_body_le o).
  pose proof (zlen_nonneg (concat (address_bytes <$> a))).
  constructor; try done.
  - split; [|done]. rewrite Forall_forall in Ha |- *. intros x Hx.
    destruct (Ha x Hx) as [? ? ? ? [Hm Hms]]. constructor; try done. split; [done|].
    pose proof (zlen_concat_elem address_bytes x a Hx) as Hc.
    pose proof (zlen_body_le (ra_options x)).
    unfold address_bytes in Hc at 1. rewrite !zlen_app, !zlen_to_be, zlen_one in Hc.
    pose proof (zlen_nonneg (ra_transport_style x)). lia.
  - split; [done|lia].
Qed.
End router_info.

Lemma router_info_decode_iff inp max v
    (Hb : bytes_ok inp) (Hm : max ≤ usize_max) :
  router_info_decode inp max = Ok v ↔
  zlen inp ≤ max ∧ router_info_ok v ∧ router_info_encode v usize_max = Ok inp.
Proof.
  unfold router_info_decode. split.
  - destruct (_ >? _) eqn:E; [done|]. breflect. intros Hd.
    apply (signed_consumes _ _ (ri_read_unsigned max)
      (λ u off, let '(i, p, a, h, o) := u in _) _
      (λ u off v w, let '(i, p, a, h, o) := u in
         signature_ok (ri_signature v) ∧ signature_type (ri_signature v) = identity_signing_type i ∧
         w = signature_bytes (ri_signature v) ∧
         v = mkRouterInfo i p a h o (slice 0 off inp) (ri_signature v)) _
      (consumes_ri_unsigned max)) in Hd; [|intros [[[[i p] a] h] o] off w _|done].
    + destruct Hd as [Hmax ([[[[i p] a] h] o] & w1 & w2 & -> & [Hu ->] & Hs & Hst & -> & Hv)].
      rewrite (slice_app_start _ _ _ eq_refl) in Hv. split; [done|].
      rewrite Hv. split; [constructor; [by apply ri_unsigned_weaken in Hu|done|done]|].
      apply encode_to_vec_writes; [apply writes_bind; apply writes_write|cbn; rewrite Hv in E; cbn in E; lia|done].
    + eapply consumes_bind; [apply consumes_typed_signature|intros sig w' _ (Hs & Hst & ->)].
      apply consumes_ret. by rewrite app_nil_r.
  - intros (Hmax & [Hu [Hs Hst] Hsb] & He).
    apply (writes_encode_to_vec _ (router_info_bytes v)) in He as [-> _];
      [|apply writes_bind; apply writes_write|done].
    unfold router_info_bytes in *. rewrite Hsb in *.
    destruct (_ >? _) eqn:E; breflect; [lia|].
    apply (signed_reads (ri_read_unsigned max) (λ u off, let '(i, p, a, h, o) := u in _) _ _
      (ri_identity v, ri_published v, ri_addresses v, ri_peers v, ri_options v)); [| |done|done].
    + apply reads_ri_unsigned, ri_unsigned_at; [done|]. rewrite zlen_app in Hmax.
      pose proof (zlen_nonneg (signature_bytes (ri_signature v))). lia.
    + eapply reads_map; [by apply reads_typed_signature|].
      rewrite (slice_app_start _ _ _ eq_refl). destruct v. cbn in *. subst. apply reads_ret.
Qed.

(** ** Properties *)

(** RouterInfos have one encoding, and keep the bytes that were signed.  An
    input within the caller's limit is decoded to a RouterInfo exactly when the
    RouterInfo is well formed (valid identity, addresses, peers and options, a
    signature of the identity's type, and a retained signed region that is the
    encoding of its fields) and encodes to that very input. *)
Theorem router_info_decode_exact inp max v
    (Hb : bytes_ok inp) (Hm : max ≤ usize_max) :
  router_info_decode inp max = Ok v ↔
  zlen inp ≤ max ∧ router_info_ok v ∧ router_info_encode v usize_max = Ok inp.
Proof. by apply router_info_decode_iff. Qed.

(** [RouterInfo::new] accepts exactly the combinations that make a
    well-formed RouterInfo of at most one megabyte, and the version and
    capability accessors of a well-formed RouterInfo never fail. *)
Theorem router_info_new_exact i p a h o sig v
    (Hi : identity_ok i) (Hp : fits 64 p)
    (Ha : Forall (address_ok MAX_MAPPING_BODY_SIZE) a) (Hh : Forall peer_ok h)
    (Ho : mapping_ok o) (Hsig : signature_ok sig) :
  (router_info_new i p a h o sig = Ok v ↔
   router_info_ok v ∧ zlen (router_info_bytes v) ≤ MAX_COMMON_STRUCTURE_SIZE ∧
   ri_identity v = i ∧ ri_published v = p ∧ ri_addresses v = a ∧ ri_peers v = h ∧
   ri_options v = o ∧ ri_signature v = sig) ∧
  (router_info_ok v → is_ok (protocol_version v) = true ∧ is_ok (capabilities v) = true).
Proof.
  split; [unfold router_info_new; split|].
  - destruct (zlen a >? _) eqn:E1; [done|]. destruct (zlen h >? _) eqn:E2; [done|]. cbn [orb].
    destruct (bool_decide _) eqn:E3; [done|]. breflect. same_types.
    destruct (validate_router_options o) as [[]|] eqn:E4; [|done]. cbn [mbind result_bind].
    assert (Hu : ri_unsigned_ok MAX_MAPPING_BODY_SIZE i p a h o).
    { constructor; try done. split; [done|apply Ho]. }
    destruct (encode_to_vec _ _) as [w|] eqn:Ew; [|done]. cbn [mbind result_bind].
    apply (writes_encode_to_vec _ (ri_unsigned_bytes i p a h o)) in Ew as [-> _];
      [|by apply (writes_ri_unsigned _ _ _ _ _ _ Hu)|done].
    destruct (checked_add _ _ _) as [t|] eqn:Et; [|done].
    apply checked_add_Some in Et as [-> _]. destruct (_ >? _) eqn:E5; [done|]. breflect.
    intros <-%Ok_inj. unfold router_info_bytes. cbn. rewrite zlen_app. by split.
  - destruct v as [i' p' a' h' o' sb sig'].
    cbn [ri_identity ri_published ri_addresses ri_peers ri_options ri_signature].
    unfold router_info_bytes.
    intros ([Hu [_ Hst] Hsb] & Hz & -> & -> & -> & -> & -> & ->). cbn in Hu, Hst, Hsb, Hz.
    pose proof Hu as [_ _ [_ Hal] [_ Hhl] _ Hov]. rewrite zlen_app, Hsb in Hz.
    pose proof (zlen_nonneg (signature_bytes sig)).
    destruct (zlen a >? _) eqn:E1; breflect; [lia|].
    destruct (zlen h >? _) eqn:E2; breflect; [lia|]. cbn [orb].
    rewrite bool_decide_eq_false_2 by (intros Hn; by apply Hn). rewrite Hov. cbn [mbind result_bind].
    rewrite (encode_to_vec_writes _ (ri_unsigned_bytes i p a h o));
      [|by apply (writes_ri_unsigned _ _ _ _ _ _ Hu)|lia|done]. cbn [mbind result_bind].
    destruct (checked_add _ _ _) as [t|] eqn:Et.
    2: { apply checked_add_None in Et. unfold MAX_COMMON_STRUCTURE_SIZE, usize_max in *. lia. }
    apply checked_add_Some in Et as [-> _]. destruct (_ >? _) eqn:E5; breflect; [lia|].
    by rewrite Hsb.
  - intros [[_ _ _ _ _ Hov] _ _]. unfold validate_router_options in Hov.
    unfold protocol_version, capabilities.
    destruct (mapping_get _ KEY_VERSION) as [ver|]; [destruct (protocol_version_new ver); [|done]|];
      cbn [mbind result_bind] in *;
      (destruct (mapping_get _ KEY_CAPS) as [c|]; [destruct (capabilities_new c); [|done]|]; done).
Qed.

(** ** Witnesses *)
Definition sample_identity : RouterIdentity := mkRouterIdentity sample_keys.
Definition sample_address : RouterAddress :=
  mkRouterAddress 10 0 [78; 84; 67; 80; 50] sample_mapping.
Definition sample_ri_signature : SignatureValue :=
  mkSignature Signing.EdDsaSha512Ed25519 (replicate 64 5).
Definition sample_router_info : RouterInfo :=
  mkRouterInfo sample_identity 123456 [sample_address] [] sample_mapping
    (ri_unsigned_bytes sample_identity 123456 [sample_address] [] sample_mapping)
    sample_ri_signature.

Lemma sample_router_info_ok : router_info_ok sample_router_info.
Proof.
  constructor; [constructor| |done].
  - split; [constructor; [reflexivity|reflexivity|reflexivity|vm_compute; reflexivity]|reflexivity].
  - by vm_compute.
  - split; [|by vm_compute]. constructor; [|constructor].
    constructor; [by vm_compute|by vm_compute|by apply text_b|done|].
    split; [apply sample_mapping_ok|by vm_compute].
  - split; [constructor|by vm_compute].
  - split; [apply sample_mapping_ok|by vm_compute].
  - vm_compute. reflexivity.
  - split; reflexivity.
Qed.

Lemma router_info_decode_exact_witness : router_info_ok sample_router_info.
Proof.
  apply (router_info_decode_exact (router_info_bytes sample_router_info) 4096).
  - apply bytes_okb. vm_compute. reflexivity.
  - vm_compute. discriminate.
  - vm_compute. reflexivity.
Defined.

Lemma router_info_new_exact_witness : router_info_ok sample_router_info.
Proof.
  apply (router_info_new_exact sample_identity 123456 [sample_address] [] sample_mapping
    sample_ri_signature sample_router_info).
  - split; [constructor; [reflexivity|reflexivity|reflexivity|vm_compute; reflexivity]|reflexivity].
  - by vm_compute.
  - constructor; [|constructor]. constructor; [by vm_compute|by vm_compute|by apply text_b|done|].
    split; [apply sample_mapping_ok|by vm_compute].
  - constructor.
  - apply sample_mapping_ok.
  - reflexivity.
  - vm_compute. reflexivity.
Defined.
