(* ===== verification/LeaseSet2.v ===== *)
(** * LeaseSet2 and MetaLeaseSet

    Leases with four-byte dates, the LeaseSet2 header with its flags and
    offline-signature block, Standard LeaseSet2 with its typed encryption keys,
    and MetaLeaseSet ([common/lease2.rs]).  Both records keep the bytes that
    were signed and implement the [WireRecord] interface of I2NP stores. *)
From S2P Require Import Prelude Codec Common Identity Mapping LeaseSet RouterInfo.

Definition MAX_LEASE_SET2_ENCRYPTION_KEYS : Z := 8.
Definition MAX_LEASE_SET2_ENCRYPTION_KEY_BYTES : Z := 8 * 1024.
Definition MAX_LEASE_SET2_OPTIONS_BYTES : Z := u16_max.
Definition LEASE_SET2_SIGNATURE_DOMAIN_BYTE : Z := 3.
Definition MAX_LEASE_SET2_BYTES : Z := MAX_COMMON_STRUCTURE_SIZE.
Definition MAX_META_LEASES : Z := 16.

(** ** Leases *)
Record Lease2 := mkLease2 { lease2_gateway : bytes; lease2_tunnel_id : Z; lease2_end_date : Z }.

Definition lease2_decode_from : decoder Lease2 :=
  gateway_bytes ← take_array 32;
  tunnel_id ← Cursor.read_u32;
  end_date_raw ← Cursor.read_u32;
  mret (mkLease2 gateway_bytes tunnel_id end_date_raw).

Definition lease2_encode_into (l : Lease2) : encoder () :=
  _ ← Buffer.write_raw (lease2_gateway l);
  _ ← Buffer.write_u32 (lease2_tunnel_id l);
  Buffer.write_u32 (lease2_end_date l).

Definition lease2_decode (inp : bytes) (max : Z) : result CodecError Lease2 :=
  decode_exact inp max lease2_decode_from.
Definition lease2_encode (l : Lease2) (max : Z) : result CodecError bytes :=
  encode_to_vec max (lease2_encode_into l).

(** ** Encryption keys *)
Record LeaseSet2EncryptionKey := mkEncryptionKey {
  ek2_type : CryptoKeyType;
  ek2_bytes : bytes;
}.

Inductive LeaseSet2EncryptionKeyError := EmptyKey.
Inductive LeaseSet2KeySelectionError := NoKeys | DuplicateX25519 | X25519NotFound.

Definition encryption_key_error_codec (e : LeaseSet2EncryptionKeyError) : CodecError :=
  match e with EmptyKey => InvalidFieldValue 0 "LeaseSet2 encryption key length" end.

Definition encryption_key_new (t : CryptoKeyType) (bs : bytes)
    : result LeaseSet2EncryptionKeyError LeaseSet2EncryptionKey :=
  if zlen bs =? 0 then Err EmptyKey else Ok (mkEncryptionKey t bs).

(** ** Flags: the raw flag word and its tests *)
Module Flags.
Definition OFFLINE_SIGNATURE : Z := 0x0001.
Definition UNPUBLISHED : Z := 0x0002.
Definition BLINDED_ON_PUBLICATION : Z := 0x0004.
Definition RESERVED_MASK : Z := 0xfff8.
Definition has_offline_signature (flags : Z) : bool := negb (Z.land flags OFFLINE_SIGNATURE =? 0).
Definition is_unpublished (flags : Z) : bool := negb (Z.land flags UNPUBLISHED =? 0).
Definition is_blinded_on_publication (flags : Z) : bool :=
  negb (Z.land flags BLINDED_ON_PUBLICATION =? 0).
Definition has_reserved_bits (flags : Z) : bool := negb (Z.land flags RESERVED_MASK =? 0).
End Flags.

(** ** Offline signatures *)
Record OfflineSignature := mkOffline {
  os_expires_seconds : Z;
  os_transient_key : SigningPublicKey;
  os_signature : SignatureValue;
}.

Definition offline_signed_bytes (o : OfflineSignature) : bytes :=
  to_be 4 (os_expires_seconds o) ++
  to_be 2 (Signing.code (signing_type (os_transient_key o))) ++
  signing_bytes (os_transient_key o).

Definition offline_decode_from (destination_type : SigningKeyType) : decoder OfflineSignature :=
  expires_seconds ← Cursor.read_u32;
  transient_code ← Cursor.read_u16;
  let transient_type := Signing.from_code transient_code in
  match Signing.public_key_len transient_type with
  | None => fail_at (λ c, unsupported (offset c) "offline transient key type"
                            (Signing.code transient_type))
  | Some key_len =>
      kb ← Cursor.take key_len;
      transient_key ← lift (signing_key_new transient_type kb);
      off ← gets offset;
      sig ← read_typed_signature
              (unsupported off "offline delegation signature type" (Signing.code destination_type))
              destination_type;
      mret (mkOffline expires_seconds transient_key sig)
  end.

Definition offline_encode_into (o : OfflineSignature) : encoder () :=
  _ ← Buffer.write_u32 (os_expires_seconds o);
  _ ← Buffer.write_u16 (Signing.code (signing_type (os_transient_key o)));
  _ ← Buffer.write_raw (signing_bytes (os_transient_key o));
  Buffer.write_raw (signature_bytes (os_signature o)).

(** ** The header *)
Record LeaseSet2Header := mkHeader {
  h_destination : Destination;
  h_published_seconds : Z;
  h_expires_offset_seconds : Z;
  h_flags : Z;
  h_offline_signature : option OfflineSignature;
}.

Inductive LeaseSet2HeaderError := ExpirationOverflow | OfflineSignatureFlagMismatch.

Definition header_error_codec (e : LeaseSet2HeaderError) : CodecError :=
  match e with
  | ExpirationOverflow => ArithmeticOverflow 0 "LeaseSet2 expiration"
  | OfflineSignatureFlagMismatch => InvalidFieldValue 0 "LeaseSet2 offline signature"
  end.

Definition new_with_offline_signature (d : Destination) (published expires_offset flags : Z)
    (offline : option OfflineSignature) : result LeaseSet2HeaderError LeaseSet2Header :=
  if negb (Bool.eqb (Flags.has_offline_signature flags) (bool_decide (is_Some offline)))
  then Err OfflineSignatureFlagMismatch
  else if match offline with
          | Some o => bool_decide (signature_type (os_signature o) ≠ destination_signing_type d)
          | None => false
          end
  then Err OfflineSignatureFlagMismatch
  else
  match checked_add u64_max published expires_offset with
  | None => Err ExpirationOverflow
  | Some expires_total =>
      if expires_total >? u32_max then Err ExpirationOverflow
      else Ok (mkHeader d published expires_offset flags offline)
  end.

Definition header_new (d : Destination) (published expires_offset flags : Z)
    : result LeaseSet2HeaderError LeaseSet2Header :=
  new_with_offline_signature d published expires_offset flags None.

Definition header_decode_from : decoder LeaseSet2Header :=
  d ← destination_decode_from;
  published_seconds ← Cursor.read_u32;
  expires_offset_seconds ← Cursor.read_u16;
  raw_flags ← Cursor.read_u16;
  if Flags.has_reserved_bits raw_flags
  then fail_at (λ c, invalid (saturating_sub (offset c) 2) "LeaseSet2 reserved flag bits")
  else
  offline ← (if Flags.has_offline_signature raw_flags
             then o ← offline_decode_from (destination_signing_type d); mret (Some o)
             else mret None);
  lift (map_err header_error_codec
          (new_with_offline_signature d published_seconds expires_offset_seconds raw_flags offline)).

Definition header_decode (inp : bytes) (max : Z) : result CodecError LeaseSet2Header :=
  decode_exact inp max header_decode_from.

Definition expires_seconds (h : LeaseSet2Header) : Z :=
  h_published_seconds h + h_expires_offset_seconds h.

Definition header_encode_into (h : LeaseSet2Header) : encoder () :=
  _ ← Keys.encode_into (destination_keys (h_destination h));
  _ ← Buffer.write_u32 (h_published_seconds h);
  _ ← Buffer.write_u16 (h_expires_offset_seconds h);
  _ ← Buffer.write_u16 (h_flags h);
  match h_offline_signature h with
  | Some o => offline_encode_into o
  | None => mret ()
  end.

(** The key that signs the record: the delegated one, when there is one. *)
Definition header_signing_type (h : LeaseSet2Header) : SigningKeyType :=
  match h_offline_signature h with
  | Some o => signing_type (os_transient_key o)
  | None => destination_signing_type (h_destination h)
  end.

(** ** Standard LeaseSet2 *)
Record LeaseSet2 := mkLeaseSet2 {
  ls2_header : LeaseSet2Header;
  ls2_options : Mapping;
  ls2_encryption_keys : list LeaseSet2EncryptionKey;
  ls2_leases : list Lease2;
  ls2_signed_bytes : bytes;
  ls2_signature : SignatureValue;
}.

Inductive LeaseSet2BuildError :=
  | ZeroEncryptionKeys
  | EncryptionKeyCountExceeded
  | EncryptionKeyBytesExceeded (aggregate maximum : Z)
  | ZeroLeases
  | LeaseCountExceeded (declared maximum : Z)
  | SignatureTypeMismatch (expected actual : Z)
  | SignatureLengthMismatch (expected actual : Z)
  | UnsupportedSigningAlgorithm (algorithm : Z)
  | BuildCodec (error : CodecError).

Definition build_error_codec (e : LeaseSet2BuildError) : CodecError :=
  match e with
  | ZeroEncryptionKeys => PolicyRejected 0 "LeaseSet2 encryption key count"
  | EncryptionKeyCountExceeded =>
      LengthExceeded 0 (MAX_LEASE_SET2_ENCRYPTION_KEYS + 1) MAX_LEASE_SET2_ENCRYPTION_KEYS
        "LeaseSet2 encryption key count"
  | EncryptionKeyBytesExceeded aggregate maximum =>
      LengthExceeded 0 aggregate maximum "LeaseSet2 encryption key aggregate bytes"
  | ZeroLeases => PolicyRejected 0 "LeaseSet2 lease count"
  | LeaseCountExceeded declared maximum =>
      LengthExceeded 0 declared maximum "LeaseSet2 lease count"
  | SignatureTypeMismatch _ _ => InvalidFieldValue 0 "LeaseSet2 signature type"
  | SignatureLengthMismatch _ _ => InvalidFieldValue 0 "LeaseSet2 signature length"
  | UnsupportedSigningAlgorithm algorithm =>
      Unsupported 0 "LeaseSet2 signing algorithm" algorithm
  | BuildCodec inner => inner
  end.

Definition key_encode_into (k : LeaseSet2EncryptionKey) : encoder () :=
  _ ← Buffer.write_u16 (Crypto.code (ek2_type k));
  match try_from u16_max (zlen (ek2_bytes k)) with
  | None => fail_at (λ b, InvalidFieldValue (Buffer.len b) "LeaseSet2 encryption key length")
  | Some key_length =>
      _ ← Buffer.write_u16 key_length;
      Buffer.write_raw (ek2_bytes k)
  end.

Definition encode_unsigned (h : LeaseSet2Header) (options : Mapping)
    (keys : list LeaseSet2EncryptionKey) (leases : list Lease2) : encoder () :=
  _ ← header_encode_into h;
  _ ← mapping_encode_into options;
  match try_from u8_max (zlen keys) with
  | None => fail_at (λ b, InvalidFieldValue (Buffer.len b) "LeaseSet2 encryption key count")
  | Some key_count =>
      _ ← Buffer.write_u8 key_count;
      _ ← write_each key_encode_into keys;
      match try_from u8_max (zlen leases) with
      | None => fail_at (λ b, InvalidFieldValue (Buffer.len b) "LeaseSet2 lease count")
      | Some lease_count =>
          _ ← Buffer.write_u8 lease_count;
          write_each lease2_encode_into leases
      end
  end.

(** The loop over the keys in [LeaseSet2::new]. *)
Fixpoint aggregate_key_bytes (keys : list LeaseSet2EncryptionKey) (aggregate : Z)
    : result LeaseSet2BuildError Z :=
  match keys with
  | [] => Ok aggregate
  | k :: keys' =>
      match checked_add usize_max aggregate (zlen (ek2_bytes k)) with
      | None => Err (EncryptionKeyBytesExceeded usize_max MAX_LEASE_SET2_ENCRYPTION_KEY_BYTES)
      | Some aggregate' => aggregate_key_bytes keys' aggregate'
      end
  end.

Definition lease_set2_new (h : LeaseSet2Header) (options : Mapping)
    (keys : list LeaseSet2EncryptionKey) (leases : list Lease2) (sig : SignatureValue)
    : result LeaseSet2BuildError LeaseSet2 :=
  if zlen keys =? 0 then Err ZeroEncryptionKeys
  else if zlen keys >? MAX_LEASE_SET2_ENCRYPTION_KEYS then Err EncryptionKeyCountExceeded
  else
  aggregate ← aggregate_key_bytes keys 0;
  if aggregate >? MAX_LEASE_SET2_ENCRYPTION_KEY_BYTES
  then Err (EncryptionKeyBytesExceeded aggregate MAX_LEASE_SET2_ENCRYPTION_KEY_BYTES)
  else if zlen leases =? 0 then Err ZeroLeases
  else if zlen leases >? MAX_LEASES then Err (LeaseCountExceeded (zlen leases) MAX_LEASES)
  else
  let st := header_signing_type h in
  if bool_decide (st ≠ signature_type sig)
  then Err (SignatureTypeMismatch (Signing.code st) (Signing.code (signature_type sig)))
  else
  match Signing.signature_len st with
  | None => Err (UnsupportedSigningAlgorithm (Signing.code st))
  | Some signature_len =>
      if negb (zlen (signature_bytes sig) =? signature_len)
      then Err (SignatureLengthMismatch signature_len (zlen (signature_bytes sig)))
      else
      signed ← map_err BuildCodec
                 (encode_to_vec MAX_LEASE_SET2_BYTES (encode_unsigned h options keys leases));
      Ok (mkLeaseSet2 h options keys leases signed sig)
  end.

(** The loop over the keys in [LeaseSet2::decode]. *)
Fixpoint read_keys (n : nat) (aggregate : Z) : decoder (list LeaseSet2EncryptionKey) :=
  match n with
  | O => mret []
  | S n' =>
      key_type_code ← Cursor.read_u16;
      key_length ← Cursor.read_u16;
      match checked_add usize_max aggregate key_length with
      | None => fail_at (λ c, ArithmeticOverflow (offset c)
                                "LeaseSet2 aggregate encryption key bytes")
      | Some aggregate' =>
          if aggregate' >? MAX_LEASE_SET2_ENCRYPTION_KEY_BYTES
          then fail_at (λ c, LengthExceeded (offset c) aggregate'
                               MAX_LEASE_SET2_ENCRYPTION_KEY_BYTES
                               "LeaseSet2 aggregate encryption key bytes")
          else if key_length =? 0
          then fail_at (λ c, invalid (offset c) "LeaseSet2 encryption key length")
          else
          bs ← Cursor.take key_length;
          k ← lift (map_err encryption_key_error_codec
                      (encryption_key_new (Crypto.from_code key_type_code) bs));
          ks ← read_keys n' aggregate';
          mret (k :: ks)
      end
  end.

Abbreviation ls2_fields :=
  (LeaseSet2Header * Mapping * list LeaseSet2EncryptionKey * list Lease2)%type.

Definition ls2_read_unsigned : decoder ls2_fields :=
  h ← header_decode_from;
  options ← mapping_decode_from MAX_LEASE_SET2_OPTIONS_BYTES;
  key_count ← Cursor.read_u8;
  if key_count >? MAX_LEASE_SET2_ENCRYPTION_KEYS
  then fail_at (λ c, LengthExceeded (saturating_sub (offset c) 1) key_count
                       MAX_LEASE_SET2_ENCRYPTION_KEYS "LeaseSet2 encryption key count")
  else
  keys ← read_keys (Z.to_nat key_count) 0;
  lease_count ← Cursor.read_u8;
  if lease_count =? 0
  then fail_at (λ c, invalid (saturating_sub (offset c) 1) "LeaseSet2 lease count")
  else if lease_count >? MAX_LEASES
  then fail_at (λ c, PolicyRejected (saturating_sub (offset c) 1) "LeaseSet2 lease count")
  else
  leases ← read_n lease2_decode_from (Z.to_nat lease_count);
  mret (h, options, keys, leases).

Definition ls2_signer '((h, _, _, _) : ls2_fields) : SigningKeyType := header_signing_type h.
Definition ls2_build '((h, options, keys, leases) : ls2_fields) (signed : bytes)
    (sig : SignatureValue) : LeaseSet2 := mkLeaseSet2 h options keys leases signed sig.

Definition lease_set2_decode (inp : bytes) (max : Z) : result CodecError LeaseSet2 :=
  decode_signed ls2_read_unsigned ls2_signer
    (λ u off, unsupported off "LeaseSet2 signing type" (Signing.code (ls2_signer u)))
    ls2_build inp max.

Definition lease_set2_encode (v : LeaseSet2) (max : Z) : result CodecError bytes :=
  encode_signed (ls2_signed_bytes v) (ls2_signature v) max.

Definition ls2_signature_preimage (v : LeaseSet2) : bytes :=
  LEASE_SET2_SIGNATURE_DOMAIN_BYTE :: ls2_signed_bytes v.

(** The loop of [usable_x25519_key]: how many X25519 keys there are, and the
    last one of the right length. *)
Fixpoint select_x25519 (keys : list LeaseSet2EncryptionKey) (count : Z)
    (usable : option LeaseSet2EncryptionKey) : Z * option LeaseSet2EncryptionKey :=
  match keys with
  | [] => (count, usable)
  | k :: keys' =>
      if bool_decide (ek2_type k = Crypto.X25519)
      then select_x25519 keys' (count + 1)
             (if zlen (ek2_bytes k) =? default 32 (Crypto.public_key_len Crypto.X25519)
              then Some k else usable)
      else select_x25519 keys' count usable
  end.

Definition usable_x25519_key (v : LeaseSet2)
    : result LeaseSet2KeySelectionError LeaseSet2EncryptionKey :=
  if zlen (ls2_encryption_keys v) =? 0 then Err NoKeys
  else
  let '(x25519_count, usable) := select_x25519 (ls2_encryption_keys v) 0 None in
  if x25519_count =? 0 then Err X25519NotFound
  else if x25519_count >? 1 then Err DuplicateX25519
  else ok_or X25519NotFound usable.

Definition key_hash (sha256 : bytes → bytes) (v : LeaseSet2) : result CodecError bytes :=
  destination_hash sha256 (h_destination (ls2_header v)).

(** ** MetaLeaseSet *)
Record MetaLease := mkMetaLease {
  ml_gateway : bytes;
  ml_entry_type : Z;
  ml_cost : Z;
  ml_end_date : Z;
}.

Definition meta_lease_new (gateway : bytes) (entry_type cost end_date : Z)
    : result CodecError MetaLease :=
  if negb (bool_decide (entry_type ∈ [0; 1; 3; 5])) then Err (invalid 0 "MetaLease entry type")
  else Ok (mkMetaLease gateway entry_type cost end_date).

Definition meta_lease_decode_from : decoder MetaLease :=
  gateway ← hash_decode_from;
  b1 ← Cursor.read_u8;
  b2 ← Cursor.read_u8;
  b3 ← Cursor.read_u8;
  let raw_flags := Z.lor (Z.lor (Z.shiftl b1 16) (Z.shiftl b2 8)) b3 in
  if negb (Z.land raw_flags 0x00fffff0 =? 0)
  then fail_at (λ c, invalid (saturating_sub (offset c) 3) "MetaLease reserved flags")
  else
  cost ← Cursor.read_u8;
  end_date ← Cursor.read_u32;
  lift (meta_lease_new gateway (Z.land raw_flags 0x0f) cost end_date).

Definition meta_lease_encode_into (m : MetaLease) : encoder () :=
  _ ← hash_encode_into (ml_gateway m);
  _ ← Buffer.write_raw [0; 0; ml_entry_type m];
  _ ← Buffer.write_u8 (ml_cost m);
  Buffer.write_u32 (ml_end_date m).

Record MetaLeaseSet := mkMetaLeaseSet {
  meta_header : LeaseSet2Header;
  meta_options : Mapping;
  meta_entries : list MetaLease;
  meta_revocations : list bytes;
  meta_signed_bytes : bytes;
  meta_signature : SignatureValue;
}.

Definition meta_encode_unsigned (h : LeaseSet2Header) (options : Mapping)
    (entries : list MetaLease) (revocations : list bytes) : encoder () :=
  _ ← header_encode_into h;
  _ ← mapping_encode_into options;
  _ ← match try_from u8_max (zlen entries) with
      | None => fail (invalid 0 "MetaLeaseSet entry count")
      | Some c => Buffer.write_u8 c
      end;
  _ ← write_each meta_lease_encode_into entries;
  _ ← match try_from u8_max (zlen revocations) with
      | None => fail (invalid 0 "MetaLeaseSet revocation count")
      | Some c => Buffer.write_u8 c
      end;
  write_each hash_encode_into revocations.

Definition meta_lease_set_new (h : LeaseSet2Header) (options : Mapping)
    (entries : list MetaLease) (revocations : list bytes) (sig : SignatureValue)
    : result CodecError MetaLeaseSet :=
  if (zlen entries =? 0) || (zlen entries >? MAX_META_LEASES)
     || (zlen revocations >? MAX_META_LEASES)
  then Err (invalid 0 "MetaLeaseSet entry/revocation count")
  else if bool_decide (signature_type sig ≠ header_signing_type h)
  then Err (invalid 0 "MetaLeaseSet signature type")
  else
  signed ← encode_to_vec MAX_COMMON_STRUCTURE_SIZE
             (meta_encode_unsigned h options entries revocations);
  Ok (mkMetaLeaseSet h options entries revocations signed sig).

Abbreviation meta_fields := (LeaseSet2Header * Mapping * list MetaLease * list bytes)%type.

Definition meta_read_unsigned : decoder meta_fields :=
  h ← header_decode_from;
  options_limit ← gets Cursor.remaining;
  options ← mapping_decode_from options_limit;
  count ← Cursor.read_u8;
  if (count =? 0) || (count >? MAX_META_LEASES)
  then fail_at (λ c, invalid (saturating_sub (offset c) 1) "MetaLeaseSet entry count")
  else
  entries ← read_n meta_lease_decode_from (Z.to_nat count);
  revocation_count ← Cursor.read_u8;
  if revocation_count >? MAX_META_LEASES
  then fail_at (λ c, invalid (saturating_sub (offset c) 1) "MetaLeaseSet revocation count")
  else
  revocations ← read_n hash_decode_from (Z.to_nat revocation_count);
  mret (h, options, entries, revocations).

Definition meta_signer '((h, _, _, _) : meta_fields) : SigningKeyType := header_signing_type h.
Definition meta_build '((h, options, entries, revocations) : meta_fields) (signed : bytes)
    (sig : SignatureValue) : MetaLeaseSet := mkMetaLeaseSet h options entries revocations signed sig.

Definition meta_lease_set_decode (inp : bytes) (max : Z) : result CodecError MetaLeaseSet :=
  decode_signed meta_read_unsigned meta_signer
    (λ u off, unsupported off "MetaLeaseSet signature type" (Signing.code (meta_signer u)))
    meta_build inp max.

Definition meta_lease_set_encode (v : MetaLeaseSet) (max : Z) : result CodecError bytes :=
  encode_signed (meta_signed_bytes v) (meta_signature v) max.

Definition meta_signature_preimage (v : MetaLeaseSet) : bytes := 7 :: meta_signed_bytes v.

(** ** Invariants and wire format *)
Definition lease2_ok (l : Lease2) : Prop :=
  zlen (lease2_gateway l) = 32 ∧ fits 32 (lease2_tunnel_id l) ∧ fits 32 (lease2_end_date l).
Definition lease2_bytes (l : Lease2) : bytes :=
  lease2_gateway l ++ to_be 4 (lease2_tunnel_id l) ++ to_be 4 (lease2_end_date l).

(** A key type is canonical when its code stands for it. *)
Record key_ok (k : LeaseSet2EncryptionKey) : Prop := {
  ko_type : Crypto.from_code (Crypto.code (ek2_type k)) = ek2_type k;
  ko_code : fits 16 (Crypto.code (ek2_type k));
  ko_bytes : 0 < zlen (ek2_bytes k);
}.
Definition key_bytes (k : LeaseSet2EncryptionKey) : bytes :=
  to_be 2 (Crypto.code (ek2_type k)) ++ to_be 2 (zlen (ek2_bytes k)) ++ ek2_bytes k.
Definition keys_total (l : list LeaseSet2EncryptionKey) : Z :=
  foldr (λ k n, zlen (ek2_bytes k) + n) 0 l.

Record offline_ok (dt : SigningKeyType) (o : OfflineSignature) : Prop := {
  oo_expires : fits 32 (os_expires_seconds o);
  oo_key : signing_key_ok (os_transient_key o);
  oo_signature : signature_ok (os_signature o);
  oo_type : signature_type (os_signature o) = dt;
}.
Definition offline_bytes (o : OfflineSignature) : bytes :=
  to_be 4 (os_expires_seconds o) ++
  to_be 2 (Signing.code (signing_type (os_transient_key o))) ++
  signing_bytes (os_transient_key o) ++ signature_bytes (os_signature o).

(** What holds of every header that was decoded, and of every header that was
    built with no reserved flag. *)
Record header_ok (h : LeaseSet2Header) : Prop := {
  ho_destination : destination_ok (h_destination h);
  ho_published : fits 32 (h_published_seconds h);
  ho_expires : fits 16 (h_expires_offset_seconds h);
  ho_total : h_published_seconds h + h_expires_offset_seconds h ≤ u32_max;
  ho_flags : fits 16 (h_flags h);
  ho_reserved : Flags.has_reserved_bits (h_flags h) = false;
  ho_flag : Flags.has_offline_signature (h_flags h) = bool_decide (is_Some (h_offline_signature h));
  ho_offline : match h_offline_signature h with
               | Some o => offline_ok (destination_signing_type (h_destination h)) o
               | None => True
               end;
}.
Definition header_bytes (h : LeaseSet2Header) : bytes :=
  destination_bytes (h_destination h) ++ to_be 4 (h_published_seconds h) ++
  to_be 2 (h_expires_offset_seconds h) ++ to_be 2 (h_flags h) ++
  match h_offline_signature h with Some o => offline_bytes o | None => [] end.

Section headers.
Lemma lease2_canonical : canonical lease2_ok lease2_bytes lease2_decode_from lease2_encode_into.
Proof.
  split.
  - intros l (Hg & Hi & Hd). eapply reads_bind; [by apply reads_take_n|].
    eapply reads_bind; [by apply reads_u32|].
    eapply reads_map; [by apply reads_u32|]. destruct l. apply reads_ret.
  - eapply consumes_bind; [by apply consumes_take|intros gw w _ [-> Hg]].
    eapply consumes_bind; [apply consumes_u32|intros id0 w _ [-> Hi]].
    eapply consumes_bind; [apply consumes_u32|intros d w _ [-> Hd]].
    apply consumes_ret. by rewrite app_nil_r.
  - intros l _. do 2 (apply writes_bind; [apply writes_write|]). apply writes_write.
Qed.

Lemma offline_canonical dt :
  canonical (offline_ok dt) offline_bytes (offline_decode_from dt) offline_encode_into.
Proof.
  split.
  - intros [e [tt tb] sig] [He Hk Hs Hst]. unfold offline_bytes, offline_decode_from.
    cbn [os_expires_seconds os_transient_key os_signature signing_type signing_bytes] in *.
    unfold signing_key_ok in Hk. cbn [signing_type signing_bytes] in Hk.
    destruct (signing_code_known _ _ Hk) as (Hc & Hf & _).
    eapply reads_bind; [by apply reads_u32|]. eapply reads_bind; [by apply reads_u16|].
    cbv zeta. rewrite Hc, Hk. eapply reads_bind; [apply reads_take|].
    eapply reads_silent; [by apply reads_lift, signing_key_new_exact|].
    apply reads_gets_offset. intros off.
    eapply reads_map; [by apply reads_typed_signature|apply reads_ret].
  - eapply consumes_bind; [apply consumes_u32|intros e w _ [-> He]].
    eapply consumes_bind; [apply consumes_u16|intros tc w _ [-> Htc]]. cbv zeta.
    destruct (Signing.public_key_len _) as [len|] eqn:Hlen; [|apply consumes_fail_at].
    apply signing_code_known in Hlen as Hl. eapply consumes_bind; [apply consumes_take; lia|].
    intros kb w _ [-> Hkb].
    eapply (consumes_bind _ _ (λ k w, w = [] ∧ k = mkSigningKey (Signing.from_code tc) kb ∧
      signing_key_ok k)).
    { apply consumes_lift. by intros k [-> ?]%signing_key_new_exact. }
    intros k w _ (-> & -> & Hk). apply consumes_gets. intros c.
    eapply consumes_bind; [apply consumes_typed_signature|intros sig w _ (Hs & Hst & ->)].
    apply consumes_ret. split; [by constructor|].
    unfold offline_bytes. cbn [os_expires_seconds os_transient_key os_signature signing_type signing_bytes app].
    by rewrite signing_from_code_code, app_nil_r.
  - intros o _. do 3 (apply writes_bind; [apply writes_write|]). apply writes_write.
Qed.

(** The constructor adds nothing to what decoding already checked. *)
Lemma header_new_exact d p e f o h :
  destination_ok d → fits 32 p → fits 16 e → fits 16 f → Flags.has_reserved_bits f = false →
  match o with Some o => offline_ok (signature_type (os_signature o)) o | None => True end →
  new_with_offline_signature d p e f o = Ok h ↔ h = mkHeader d p e f o ∧ header_ok h.
Proof.
  intros Hd Hp He Hf Hr Ho. unfold new_with_offline_signature. split.
  - destruct (negb _) eqn:E1; [done|]. apply negb_false_iff, eqb_prop in E1.
    destruct (match o with Some _ => _ | None => _ end) eqn:E2; [done|].
    destruct (checked_add _ _ _) as [t|] eqn:E3; [|done].
    apply checked_add_Some in E3 as [-> _]. destruct (_ >? _) eqn:E4; [done|]. breflect.
    intros <-%Ok_inj. split; [done|]. constructor; try done.
    cbn [h_offline_signature h_destination]. destruct o as [o|]; [|done].
    apply bool_decide_eq_false, dec_stable in E2. by rewrite <- E2.
  - intros [-> [_ _ _ Ht _ _ Hfl Hoo]]. cbn in Ht, Hfl, Hoo. rewrite Hfl, eqb_reflx. cbn [negb].
    replace (match o with Some _ => _ | None => _ end) with false.
    2: { destruct o as [o|]; [|done]. symmetry. apply bool_decide_eq_false. intros Hn.
         apply Hn, Hoo. }
    destruct (checked_add _ _ _) as [t|] eqn:E3.
    2: { apply checked_add_None in E3. unfold fits, u64_max in *. lia. }
    apply checked_add_Some in E3 as [-> _]. destruct (_ >? _) eqn:E4; breflect; [lia|done].
Qed.

Lemma map_err_Ok {E F A} (f : E → F) (r : result E A) a : map_err f r = Ok a ↔ r = Ok a.
Proof. destruct r; cbn; split; by intros [= ->]. Qed.

Lemma header_reads h : header_ok h → reads header_decode_from (header_bytes h) h.
Proof.
  intros Hok. pose proof Hok as [Hd Hp He Ht Hf Hr Hfl Ho].
  eapply reads_bind; [by apply (canonical_reads _ _ _ _ destination_canonical)|].
  eapply reads_bind; [by apply reads_u32|]. eapply reads_bind; [by apply reads_u16|].
  eapply reads_bind; [by apply reads_u16|]. rewrite Hr, Hfl.
  assert (Hn : map_err header_error_codec (new_with_offline_signature (h_destination h)
    (h_published_seconds h) (h_expires_offset_seconds h) (h_flags h) (h_offline_signature h)) = Ok h).
  { apply map_err_Ok, header_new_exact; try done; [|by destruct h].
    destruct (h_offline_signature h); [|done]. destruct Ho. by constructor. }
  destruct (h_offline_signature h) as [o|]; cbn [bool_decide].
  - rewrite bool_decide_eq_true_2 by done.
    eapply reads_map; [|by apply reads_lift].
    eapply reads_map; [by apply (canonical_reads _ _ _ _ (offline_canonical _))|apply reads_ret].
  - rewrite bool_decide_eq_false_2 by (intros [? ?]; done).
    eapply reads_map; [apply reads_ret|by apply reads_lift].
Qed.

Lemma header_consumes : consumes header_decode_from (λ h w, header_ok h ∧ w = header_bytes h).
Proof.
  eapply consumes_bind; [apply (canonical_consumes _ _ _ _ destination_canonical)|intros d w _ [Hd ->]].
  eapply consumes_bind; [apply consumes_u32|intros p w _ [-> Hp]].
  eapply consumes_bind; [apply consumes_u16|intros e w _ [-> He]].
  eapply consumes_bind; [apply consumes_u16|intros f w _ [-> Hf]].
  apply consumes_if; intros Hr; [apply consumes_fail_at|].
  eapply (consumes_bind _ _ (λ o w,
    w = match o with Some o => offline_bytes o | None => [] end ∧
    match o with Some o => offline_ok (destination_signing_type d) o | None => True end)).
  { apply consumes_if; intros _; [|by apply consumes_ret].
    eapply consumes_bind; [apply (canonical_consumes _ _ _ _ (offline_canonical _))|].
    intros o w _ [Ho ->]. apply consumes_ret. by rewrite app_nil_r. }
  intros o w _ [-> Ho]. apply consumes_lift. intros h Hn%map_err_Ok.
  apply header_new_exact in Hn as [-> Hok]; try done.
  - by rewrite app_nil_r.
  - destruct o as [o|]; [|done]. destruct Ho. by constructor.
Qed.

Lemma header_canonical : canonical header_ok header_bytes header_decode_from header_encode_into.
Proof.
  split; [apply header_reads|apply header_consumes|].
  intros h [Hd _ _ _ _ _ _ Ho].
  apply writes_bind; [by apply (canonical_writes _ _ _ _ destination_canonical)|].
  do 3 (apply writes_bind; [apply writes_write|]).
  destruct (h_offline_signature h) as [o|]; [|apply writes_ret].
  by apply (canonical_writes _ _ _ _ (offline_canonical (destination_signing_type (h_destination h)))).
Qed.
End headers.

(** *** Standard LeaseSet2 *)
Record ls2_unsigned_ok (h : LeaseSet2Header) (options : Mapping)
    (keys : list LeaseSet2EncryptionKey) (leases : list Lease2) : Prop := {
  l2o_header : header_ok h;
  l2o_options : mapping_ok options;
  l2o_keys : Forall key_ok keys;
  l2o_key_count : zlen keys ≤ MAX_LEASE_SET2_ENCRYPTION_KEYS;
  l2o_key_bytes : keys_total keys ≤ MAX_LEASE_SET2_ENCRYPTION_KEY_BYTES;
  l2o_leases : Forall lease2_ok leases;
  l2o_lease_count : 0 < zlen leases ≤ MAX_LEASES;
}.
Definition ls2_fields_ok '((h, options, keys, leases) : ls2_fields) : Prop :=
  ls2_unsigned_ok h options keys leases.
Definition ls2_fields_bytes '((h, options, keys, leases) : ls2_fields) : bytes :=
  header_bytes h ++ mapping_bytes options ++ [zlen keys] ++ concat (key_bytes <$> keys) ++
  [zlen leases] ++ concat (lease2_bytes <$> leases).

(** What holds of every LeaseSet2, built or decoded. *)
Record lease_set2_ok (v : LeaseSet2) : Prop := {
  l2_unsigned : ls2_unsigned_ok (ls2_header v) (ls2_options v) (ls2_encryption_keys v) (ls2_leases v);
  l2_signature : signature_ok (ls2_signature v);
  l2_type : signature_type (ls2_signature v) = header_signing_type (ls2_header v);
  l2_signed : ls2_signed_bytes v =
    ls2_fields_bytes (ls2_header v, ls2_options v, ls2_encryption_keys v, ls2_leases v);
}.

Section lease_set2.
Lemma keys_total_nonneg l : 0 ≤ keys_total l.
Proof.
  induction l as [|k l IH]; [done|]. cbn [keys_total foldr]. fold (keys_total l).
  pose proof (zlen_nonneg (ek2_bytes k)). lia.
Qed.

Lemma reads_keys2 l agg :
  Forall key_ok l → 0 ≤ agg → agg + keys_total l ≤ MAX_LEASE_SET2_ENCRYPTION_KEY_BYTES →
  reads (read_keys (length l) agg) (concat (key_bytes <$> l)) l.
Proof.
  intros Hl. revert agg. induction Hl as [|k l [Ht Hc Hb] _ IH]; intros agg Ha Hm; [apply reads_ret|].
  cbn [keys_total foldr] in Hm. fold (keys_total l) in Hm. pose proof (keys_total_nonneg l).
  cbn [read_keys length]. rewrite fmap_cons. cbn [concat]. unfold key_bytes at 1.
  rewrite <- !app_assoc. unfold MAX_LEASE_SET2_ENCRYPTION_KEY_BYTES in *.
  eapply reads_bind; [by apply reads_u16|].
  eapply reads_bind; [apply reads_u16; unfold fits; lia|].
  destruct (checked_add _ _ _) as [a'|] eqn:E;
    [|apply checked_add_None in E; unfold usize_max in E; lia].
  apply checked_add_Some in E as [-> _]. destruct (_ >? _) eqn:E; breflect; [lia|].
  destruct (_ =? _) eqn:E2; breflect; [lia|]. eapply reads_bind; [apply reads_take|].
  eapply reads_silent.
  { apply reads_lift, map_err_Ok. unfold encryption_key_new.
    destruct (_ =? _) eqn:E3; breflect; [lia|]. done. }
  rewrite Ht. eapply reads_map; [apply IH; lia|]. destruct k. apply reads_ret.
Qed.

Lemma consumes_keys2 n agg :
  0 ≤ agg → consumes (read_keys n agg) (λ l w,
    Forall key_ok l ∧ length l = n ∧ w = concat (key_bytes <$> l) ∧
    (n ≠ O → agg + keys_total l ≤ MAX_LEASE_SET2_ENCRYPTION_KEY_BYTES)).
Proof.
  revert agg. induction n as [|n IH]; intros agg Ha; cbn [read_keys]; [by apply consumes_ret|].
  eapply consumes_bind; [apply consumes_u16|intros tc w _ [-> Htc]].
  eapply consumes_bind; [apply consumes_u16|intros len w _ [-> Hlen]].
  destruct (checked_add _ _ _) as [a'|] eqn:E; [|apply consumes_fail_at].
  apply checked_add_Some in E as [-> _]. unfold fits in Hlen.
  apply consumes_if; intros E1; breflect; [apply consumes_fail_at|].
  apply consumes_if; intros E2; breflect; [apply consumes_fail_at|].
  eapply consumes_bind; [apply consumes_take; lia|intros bs w _ [-> Hbs]].
  eapply (consumes_bind _ _ (λ k w, w = [] ∧ k = mkEncryptionKey (Crypto.from_code tc) bs)).
  { apply consumes_lift. intros k Hk%map_err_Ok. unfold encryption_key_new in Hk.
    destruct (_ =? _); [done|]. by apply Ok_inj in Hk as <-. }
  intros k w _ [-> ->].
  eapply consumes_bind; [apply IH; lia|intros l w _ (Hl & <- & -> & Hagg)].
  apply consumes_ret. rewrite app_nil_r. split_and!.
  - constructor; [|done]. split; cbn; rewrite ?crypto_from_code_code; [done|done|lia].
  - done.
  - rewrite fmap_cons. cbn [concat]. unfold key_bytes at 2. cbn [ek2_type ek2_bytes app].
    rewrite crypto_from_code_code, Hbs, <- !app_assoc. done.
  - intros _. cbn [keys_total foldr ek2_bytes]. fold (keys_total l). rewrite Hbs.
    destruct l as [|k l]; [cbn; lia|]. assert (length (k :: l) ≠ O) as Hn by done.
    specialize (Hagg Hn). lia.
Qed.

Lemma ls2_reads u : ls2_fields_ok u → reads ls2_read_unsigned (ls2_fields_bytes u) u.
Proof.
  destruct u as [[[h o] ks] ls]. intros [Hh Ho Hk Hkc Hkb Hl [Hl0 Hlm]].
  eapply reads_bind; [by apply (canonical_reads _ _ _ _ header_canonical)|].
  eapply reads_bind; [apply (canonical_reads _ _ _ _ (mapping_canonical _)); split; [done|apply Ho]|].
  eapply reads_bind; [apply reads_u8|]. destruct (_ >? _) eqn:E; breflect; [lia|].
  unfold zlen at 1. rewrite Nat2Z.id. eapply reads_bind; [by apply reads_keys2|].
  eapply reads_bind; [apply reads_u8|]. destruct (_ =? _) eqn:E2; breflect; [lia|].
  destruct (zlen ls >? _) eqn:E3; breflect; [lia|]. unfold zlen. rewrite Nat2Z.id.
  eapply reads_map; [by apply (reads_n lease2_canonical)|apply reads_ret].
Qed.

Lemma ls2_consumes :
  consumes ls2_read_unsigned (λ u w, ls2_fields_ok u ∧ w = ls2_fields_bytes u).
Proof.
  eapply consumes_bind; [apply (canonical_consumes _ _ _ _ header_canonical)|intros h w _ [Hh ->]].
  eapply consumes_bind; [apply (canonical_consumes _ _ _ _ (mapping_canonical _))|].
  intros o w _ [[Ho _] ->].
  eapply consumes_bind; [apply consumes_u8|intros kc w _ [-> Hkc]].
  apply consumes_if; intros E; breflect; [apply consumes_fail_at|].
  eapply consumes_bind; [by apply consumes_keys2|intros ks w _ (Hks & Hkn & -> & Hagg)].
  eapply consumes_bind; [apply consumes_u8|intros lc w _ [-> Hlc]].
  apply consumes_if; intros E2; breflect; [apply consumes_fail_at|].
  apply consumes_if; intros E3; breflect; [apply consumes_fail_at|].
  eapply consumes_bind; [apply (consumes_n lease2_canonical)|intros ls w _ (Hls & Hln & ->)].
  unfold fits in Hkc, Hlc.
  assert (zlen ks = kc) as <- by (unfold zlen; lia). assert (zlen ls = lc) as <- by (unfold zlen; lia).
  apply consumes_ret. rewrite app_nil_r. split; [|done]. constructor; try done.
  - destruct ks as [|k ks]; [done|]. apply Hagg. rewrite <- Hkn. done.
  - split; [|done]. pose proof (zlen_nonneg ls). lia.
Qed.

Lemma keys_total_elem k l : k ∈ l → zlen (ek2_bytes k) ≤ keys_total l.
Proof.
  induction 1 as [k l|k k' l _ IH]; cbn [keys_total foldr]; fold (keys_total l).
  - pose proof (keys_total_nonneg l). lia.
  - pose proof (zlen_nonneg (ek2_bytes k')). lia.
Qed.

Lemma writes_keys2 l :
  keys_total l ≤ MAX_LEASE_SET2_ENCRYPTION_KEY_BYTES →
  writes (write_each key_encode_into l) (concat (key_bytes <$> l)).
Proof.
  induction l as [|k l IH]; intros Hm; [apply writes_ret|]. cbn [write_each].
  cbn [keys_total foldr] in Hm. fold (keys_total l) in Hm. pose proof (keys_total_nonneg l).
  pose proof (zlen_nonneg (ek2_bytes k)). unfold MAX_LEASE_SET2_ENCRYPTION_KEY_BYTES in *.
  rewrite fmap_cons. cbn [concat]. apply writes_bind; [|apply IH; lia].
  apply writes_bind; [apply writes_write|]. unfold try_from, u16_max.
  destruct (_ <=? _) eqn:E; breflect; [|lia]. apply writes_bind; apply writes_write.
Qed.

Lemma writes_ls2 h o ks ls :
  ls2_unsigned_ok h o ks ls → writes (encode_unsigned h o ks ls) (ls2_fields_bytes (h, o, ks, ls)).
Proof.
  intros [Hh Ho Hk Hkc Hkb Hl [Hl0 Hlm]].
  apply writes_bind; [by apply (canonical_writes _ _ _ _ header_canonical)|].
  apply writes_bind; [apply (canonical_writes _ _ _ _ (mapping_canonical u16_max)); split; [done|apply Ho]|].
  unfold try_from, u8_max, MAX_LEASES, MAX_LEASE_SET2_ENCRYPTION_KEYS in *.
  destruct (zlen ks <=? _) eqn:E1; breflect; [|lia]. apply writes_bind; [apply writes_write|].
  apply writes_bind; [by apply writes_keys2|].
  destruct (zlen ls <=? _) eqn:E2; breflect; [|lia]. apply writes_bind; [apply writes_write|].
  by apply (writes_each lease2_canonical).
Qed.

(** *** Sizes *)
Lemma zlen_header h : header_ok h → zlen (header_bytes h) ≤ 1813.
Proof.
  intros [[Hd _] _ _ _ _ _ _ Ho]. unfold header_bytes, destination_bytes. apply zlen_keys_bytes in Hd.
  rewrite !zlen_app, !zlen_to_be.
  destruct (h_offline_signature h) as [o|]; [|rewrite zlen_nil; lia].
  destruct Ho as [_ Hk Hs _]. unfold offline_bytes. rewrite !zlen_app, !zlen_to_be.
  apply signing_code_known in Hk. apply signature_len_known in Hs. lia.
Qed.

Lemma zlen_mapping m : mapping_ok m → zlen (mapping_bytes m) ≤ 65537.
Proof.
  intros [_ _ Hm]. unfold mapping_bytes, MAX_MAPPING_BODY_SIZE, u16_max in *.
  rewrite zlen_app, zlen_to_be. lia.
Qed.

Lemma zlen_keys2 l : zlen (concat (key_bytes <$> l)) = 4 * zlen l + keys_total l.
Proof.
  induction l as [|k l IH]; [done|]. rewrite fmap_cons. cbn [concat keys_total foldr].
  fold (keys_total l). rewrite zlen_app, IH, zlen_cons. unfold key_bytes.
  rewrite !zlen_app, !zlen_to_be. lia.
Qed.

Lemma zlen_concat_fixed {A} (f : A → bytes) n l :
  Forall (λ x, zlen (f x) = n) l → zlen (concat (f <$> l)) = n * zlen l.
Proof.
  induction 1 as [|x l Hx _ IH]; [change (0 = n * 0); lia|].
  rewrite fmap_cons, zlen_cons. cbn [concat]. rewrite zlen_app, IH, Hx. lia.
Qed.

Lemma zlen_leases2 l : Forall lease2_ok l → zlen (concat (lease2_bytes <$> l)) = 40 * zlen l.
Proof.
  intros Hl. apply zlen_concat_fixed. eapply Forall_impl; [exact Hl|]. intros x (Hg & _).
  unfold lease2_bytes. rewrite !zlen_app, !zlen_to_be. lia.
Qed.

Lemma zlen_ls2 h o ks ls :
  ls2_unsigned_ok h o ks ls → zlen (ls2_fields_bytes (h, o, ks, ls)) ≤ 76216.
Proof.
  intros [Hh Ho Hk Hkc Hkb Hl [Hl0 Hlm]]. cbn [ls2_fields_bytes].
  apply zlen_header in Hh. apply zlen_mapping in Ho.
  rewrite !zlen_app, !zlen_one, zlen_keys2, zlen_leases2 by done.
  unfold MAX_LEASES, MAX_LEASE_SET2_ENCRYPTION_KEYS, MAX_LEASE_SET2_ENCRYPTION_KEY_BYTES in *. lia.
Qed.

Lemma ls2_size u : ls2_fields_ok u → zlen (ls2_fields_bytes u) ≤ u32_max.
Proof. destruct u as [[[h o] ks] ls]. intros Hu%zlen_ls2. unfold u32_max. lia. Qed.

Lemma ls2_encode_build u b sig max :
  lease_set2_encode (ls2_build u b sig) max = encode_signed b sig max.
Proof. by destruct u as [[[h o] ks] ls]. Qed.

Lemma lease_set2_signed v :
  lease_set2_ok v ↔ signed_record ls2_fields_ok ls2_fields_bytes ls2_signer ls2_build v.
Proof.
  split.
  - intros [Hu Hs Hst Hb]. destruct v as [h o ks ls b sig].
    cbn [ls2_header ls2_options ls2_encryption_keys ls2_leases ls2_signed_bytes ls2_signature] in *.
    subst b. by exists (h, o, ks, ls), sig.
  - intros ([[[h o] ks] ls] & sig & Hu & Hs & Hst & ->). by constructor.
Qed.
End lease_set2.

#[export] Instance lease_set2_record : WireRecord LeaseSet2 := {|
  record_decode := lease_set2_decode;
  record_encode := lease_set2_encode;
  record_ok := lease_set2_ok;
|}.

#[export] Instance lease_set2_record_laws : WireRecordLaws LeaseSet2.
Proof.
  exact (signed_record_laws _ _ _ _ _ _ _ ls2_reads ls2_consumes ls2_encode_build ls2_size _
    lease_set2_signed).
Qed.

(** *** MetaLeaseSet *)
Record meta_lease_ok (m : MetaLease) : Prop := {
  mlo_gateway : zlen (ml_gateway m) = 32;
  mlo_type : ml_entry_type m ∈ [0; 1; 3; 5];
  mlo_cost : fits 8 (ml_cost m);
  mlo_end : fits 32 (ml_end_date m);
}.
Definition meta_lease_bytes (m : MetaLease) : bytes :=
  ml_gateway m ++ [0; 0; ml_entry_type m] ++ [ml_cost m] ++ to_be 4 (ml_end_date m).

Record meta_unsigned_ok (h : LeaseSet2Header) (options : Mapping) (entries : list MetaLease)
    (revocations : list bytes) : Prop := {
  mo_header : header_ok h;
  mo_options : mapping_ok options;
  mo_entries : Forall meta_lease_ok entries;
  mo_entry_count : 0 < zlen entries ≤ MAX_META_LEASES;
  mo_revocations : Forall peer_ok revocations;
  mo_revocation_count : zlen revocations ≤ MAX_META_LEASES;
}.
Definition meta_fields_ok '((h, options, entries, revocations) : meta_fields) : Prop :=
  meta_unsigned_ok h options entries revocations.
Definition meta_fields_bytes '((h, options, entries, revocations) : meta_fields) : bytes :=
  header_bytes h ++ mapping_bytes options ++ [zlen entries] ++
  concat (meta_lease_bytes <$> entries) ++ [zlen revocations] ++ concat (id <$> revocations).

(** What holds of every MetaLeaseSet, built or decoded. *)
Record meta_lease_set_ok (v : MetaLeaseSet) : Prop := {
  ms_unsigned : meta_unsigned_ok (meta_header v) (meta_options v) (meta_entries v) (meta_revocations v);
  ms_signature : signature_ok (meta_signature v);
  ms_type : signature_type (meta_signature v) = header_signing_type (meta_header v);
  ms_signed : meta_signed_bytes v =
    meta_fields_bytes (meta_header v, meta_options v, meta_entries v, meta_revocations v);
}.

Section meta.
Lemma fits_high_bit n b i : 0 ≤ n → fits n b → n ≤ i → Z.testbit b i = false.
Proof.
  unfold fits. intros Hn Hb Hi. destruct (Z.eq_dec b 0) as [->|]; [by rewrite Z.bits_0|].
  apply Z.bits_above_log2; [lia|]. apply Z.log2_lt_pow2; [lia|].
  eapply Z.lt_le_trans; [apply Hb|]. by apply Z.pow_le_mono_r.
Qed.

Lemma fits_bits_0 n b :
  0 ≤ n → fits n b → (∀ i, 0 ≤ i < n → Z.testbit b i = false) → b = 0.
Proof.
  intros Hn Hb H. apply Z.bits_inj_0. intros i.
  destruct (Z_lt_le_dec i 0); [by apply Z.testbit_neg_r|].
  destruct (Z_lt_le_dec i n); [by apply H|by apply (fits_high_bit n)].
Qed.

(** The 24 flag bits of an entry with no reserved bit are its type. *)
Lemma meta_flags_spec b1 b2 b3 :
  fits 8 b1 → fits 8 b2 → fits 8 b3 →
  Z.land (Z.lor (Z.lor (Z.shiftl b1 16) (Z.shiftl b2 8)) b3) 0x00fffff0 = 0 →
  b1 = 0 ∧ b2 = 0 ∧ Z.land (Z.lor (Z.lor (Z.shiftl b1 16) (Z.shiftl b2 8)) b3) 0x0f = b3.
Proof.
  intros H1 H2 H3 H.
  assert (Hb : ∀ i, 4 ≤ i < 24 →
    Z.testbit b1 (i - 16) || Z.testbit b2 (i - 8) || Z.testbit b3 i = false).
  { intros i Hi. pose proof (f_equal (λ z, Z.testbit z i) H) as Ht. cbv beta in Ht.
    rewrite Z.land_spec, Z.bits_0, !Z.lor_spec, !Z.shiftl_spec in Ht by lia.
    replace (Z.testbit 0xfffff0 i) with true in Ht; [by rewrite andb_true_r in Ht|].
    symmetry. change 0xfffff0 with (Z.shiftl (Z.ones 20) 4).
    rewrite Z.shiftl_spec, Z.ones_spec_low by lia. done. }
  assert (b1 = 0) as ->.
  { apply (fits_bits_0 8); [done|done|]. intros i Hi. specialize (Hb (i + 16) ltac:(lia)).
    rewrite !orb_false_iff in Hb. replace (i + 16 - 16) with i in Hb by lia. tauto. }
  assert (b2 = 0) as ->.
  { apply (fits_bits_0 8); [done|done|]. intros i Hi. specialize (Hb (i + 8) ltac:(lia)).
    rewrite !orb_false_iff in Hb. replace (i + 8 - 8) with i in Hb by lia. tauto. }
  rewrite !Z.shiftl_0_l, !Z.lor_0_l. clear H. split_and!; [done..|].
  apply Z.bits_inj'. intros i Hi. change 0xf with (Z.ones 4). rewrite Z.land_spec.
  destruct (Z_lt_le_dec i 4); [rewrite Z.ones_spec_low by lia; by rewrite andb_true_r|].
  rewrite Z.ones_spec_high by lia. rewrite andb_false_r. symmetry.
  destruct (Z_lt_le_dec i 8); [|by apply (fits_high_bit 8)].
  specialize (Hb i ltac:(lia)). rewrite !orb_false_iff in Hb. tauto.
Qed.

Lemma meta_type_flags t :
  t ∈ [0; 1; 3; 5] →
  Z.land (Z.lor (Z.lor (Z.shiftl 0 16) (Z.shiftl 0 8)) t) 0x00fffff0 = 0 ∧
  Z.land (Z.lor (Z.lor (Z.shiftl 0 16) (Z.shiftl 0 8)) t) 0x0f = t.
Proof. rewrite !elem_of_cons. intros [->|[->|[->|[->|[]%elem_of_nil]]]]; done. Qed.

Lemma meta_lease_canonical :
  canonical meta_lease_ok meta_lease_bytes meta_lease_decode_from meta_lease_encode_into.
Proof.
  split.
  - intros m [Hg Ht Hc He]. unfold meta_lease_decode_from, meta_lease_bytes.
    destruct (meta_type_flags _ Ht) as [H1 H2].
    eapply reads_bind; [by apply reads_take_n|].
    change ([0; 0; ml_entry_type m] ++ ?r) with ([0] ++ [0] ++ [ml_entry_type m] ++ r).
    do 3 (eapply reads_bind; [apply reads_u8|]). cbv zeta. rewrite H1, H2. cbn [Z.eqb negb].
    eapply reads_bind; [apply reads_u8|]. eapply reads_map; [by apply reads_u32|].
    apply reads_lift. unfold meta_lease_new. rewrite bool_decide_eq_true_2 by done. by destruct m.
  - eapply consumes_bind; [by apply consumes_take|intros g w _ [-> Hg]].
    eapply consumes_bind; [apply consumes_u8|intros b1 w _ [-> H1]].
    eapply consumes_bind; [apply consumes_u8|intros b2 w _ [-> H2]].
    eapply consumes_bind; [apply consumes_u8|intros b3 w _ [-> H3]]. cbv zeta.
    apply consumes_if; intros E; breflect; [apply consumes_fail_at|].
    destruct (meta_flags_spec _ _ _ H1 H2 H3 E) as (-> & -> & ->).
    eapply consumes_bind; [apply consumes_u8|intros c w _ [-> Hc]].
    eapply consumes_bind; [apply consumes_u32|intros e w _ [-> He]].
    apply consumes_lift. intros m. unfold meta_lease_new. destruct (negb _) eqn:E2; [done|].
    apply negb_false_iff, bool_decide_eq_true in E2. intros <-%Ok_inj.
    rewrite app_nil_r. split; [by constructor|done].
  - intros m _. do 3 (apply writes_bind; [apply writes_write|]). apply writes_write.
Qed.

(** A limit on the mapping that is never less than its length does not bind. *)
Lemma reads_mapping_remaining m :
  mapping_ok m →
  reads (lim ← gets Cursor.remaining; mapping_decode_from lim) (mapping_bytes m) m.
Proof.
  intros Hm pre post Hlen. unfold mbind, M_bind, gets. cbv beta iota.
  apply (canonical_reads _ _ _ _ (mapping_canonical _)); [|done]. split; [done|].
  unfold Cursor.remaining, saturating_sub. cbn [input offset]. rewrite !zlen_app.
  pose proof (zlen_body_le m). pose proof (zlen_nonneg post). lia.
Qed.

Lemma reads_remaining_bind {A B} (f : Z → decoder A) (k : A → decoder B) w1 w2 a b :
  reads (lim ← gets Cursor.remaining; f lim) w1 a → reads (k a) w2 b →
  reads (lim ← gets Cursor.remaining; x ← f lim; k x) (w1 ++ w2) b.
Proof. exact (reads_bind (lim ← gets Cursor.remaining; f lim) k w1 w2 a b). Qed.

Lemma meta_reads u : meta_fields_ok u → reads meta_read_unsigned (meta_fields_bytes u) u.
Proof.
  destruct u as [[[h o] es] rs]. intros [Hh Ho He [He0 Hem] Hr Hrm].
  eapply reads_bind; [by apply (canonical_reads _ _ _ _ header_canonical)|].
  eapply (reads_remaining_bind mapping_decode_from); [by apply reads_mapping_remaining|].
  eapply reads_bind; [apply reads_u8|].
  destruct (_ || _) eqn:E; breflect; [lia|]. unfold zlen at 1. rewrite Nat2Z.id.
  eapply reads_bind; [by apply (reads_n meta_lease_canonical)|].
  eapply reads_bind; [apply reads_u8|]. destruct (_ >? _) eqn:E2; breflect; [lia|].
  unfold zlen. rewrite Nat2Z.id.
  eapply reads_map; [by apply (reads_n peer_canonical)|apply reads_ret].
Qed.

Lemma meta_consumes :
  consumes meta_read_unsigned (λ u w, meta_fields_ok u ∧ w = meta_fields_bytes u).
Proof.
  eapply consumes_bind; [apply (canonical_consumes _ _ _ _ header_canonical)|intros h w _ [Hh ->]].
  apply consumes_gets. intros c.
  eapply consumes_bind; [apply (canonical_consumes _ _ _ _ (mapping_canonical _))|].
  intros o w _ [[Ho _] ->].
  eapply consumes_bind; [apply consumes_u8|intros ec w _ [-> Hec]].
  apply consumes_if; intros E; breflect; [apply consumes_fail_at|].
  eapply consumes_bind; [apply (consumes_n meta_lease_canonical)|intros es w _ (Hes & Hn & ->)].
  eapply consumes_bind; [apply consumes_u8|intros rc w _ [-> Hrc]].
  apply consumes_if; intros E2; breflect; [apply consumes_fail_at|].
  eapply consumes_bind; [apply (consumes_n peer_canonical)|intros rs w _ (Hrs & Hm & ->)].
  unfold fits in Hec, Hrc.
  assert (zlen es = ec) as <- by (unfold zlen; lia). assert (zlen rs = rc) as <- by (unfold zlen; lia).
  apply consumes_ret. rewrite app_nil_r. split; [|done]. constructor; try done. lia.
Qed.

Lemma writes_meta h o es rs :
  meta_unsigned_ok h o es rs →
  writes (meta_encode_unsigned h o es rs) (meta_fields_bytes (h, o, es, rs)).
Proof.
  intros [Hh Ho He [He0 Hem] Hr Hrm]. unfold MAX_META_LEASES in *.
  apply writes_bind; [by apply (canonical_writes _ _ _ _ header_canonical)|].
  apply writes_bind; [apply (canonical_writes _ _ _ _ (mapping_canonical u16_max)); split; [done|apply Ho]|].
  apply writes_bind; [apply writes_count; unfold u8_max; lia|].
  apply writes_bind; [by apply (writes_each meta_lease_canonical)|].
  apply writes_bind; [apply writes_count; unfold u8_max; lia|].
  by apply (writes_each peer_canonical).
Qed.

Lemma zlen_meta h o es rs :
  meta_unsigned_ok h o es rs → zlen (meta_fields_bytes (h, o, es, rs)) ≤ 68504.
Proof.
  intros [Hh Ho He [He0 Hem] Hr Hrm]. cbn [meta_fields_bytes].
  apply zlen_header in Hh. apply zlen_mapping in Ho.
  rewrite !zlen_app, !zlen_one, (zlen_concat_fixed meta_lease_bytes 40), (zlen_concat_fixed id 32).
  - unfold MAX_META_LEASES in *. lia.
  - eapply Forall_impl; [exact Hr|]. done.
  - eapply Forall_impl; [exact He|]. intros m [Hg _ _ _]. unfold meta_lease_bytes.
    rewrite !zlen_app, !zlen_to_be, !zlen_cons, zlen_nil. lia.
Qed.

Lemma meta_size u : meta_fields_ok u → zlen (meta_fields_bytes u) ≤ u32_max.
Proof. destruct u as [[[h o] es] rs]. intros Hu%zlen_meta. unfold u32_max. lia. Qed.

Lemma meta_encode_build u b sig max :
  meta_lease_set_encode (meta_build u b sig) max = encode_signed b sig max.
Proof. by destruct u as [[[h o] es] rs]. Qed.

Lemma meta_lease_set_signed v :
  meta_lease_set_ok v ↔ signed_record meta_fields_ok meta_fields_bytes meta_signer meta_build v.
Proof.
  split.
  - intros [Hu Hs Hst Hb]. destruct v as [h o es rs b sig].
    cbn [meta_header meta_options meta_entries meta_revocations meta_signed_bytes meta_signature] in *.
    subst b. by exists (h, o, es, rs), sig.
  - intros ([[[h o] es] rs] & sig & Hu & Hs & Hst & ->). by constructor.
Qed.
End meta.

#[export] Instance meta_lease_set_record : WireRecord MetaLeaseSet := {|
  record_decode := meta_lease_set_decode;
  record_encode := meta_lease_set_encode;
  record_ok := meta_lease_set_ok;
|}.

#[export] Instance meta_lease_set_record_laws : WireRecordLaws MetaLeaseSet.
Proof.
  exact (signed_record_laws _ _ _ _ _ _ _ meta_reads meta_consumes meta_encode_build meta_size _
    meta_lease_set_signed).
Qed.

(** ** Properties *)

(** Building adds up the key lengths. *)
Lemma aggregate_key_bytes_spec keys agg :
  0 ≤ agg → agg + keys_total keys ≤ usize_max →
  aggregate_key_bytes keys agg = Ok (agg + keys_total keys).
Proof.
  revert agg. induction keys as [|k keys IH]; intros agg Ha Hm; cbn [aggregate_key_bytes keys_total foldr] in *.
  - f_equal. lia.
  - fold (keys_total keys) in *. pose proof (keys_total_nonneg keys).
    pose proof (zlen_nonneg (ek2_bytes k)).
    destruct (checked_add _ _ _) as [t|] eqn:E; [|apply checked_add_None in E; lia].
    apply checked_add_Some in E as [-> _]. rewrite IH by lia. f_equal. lia.
Qed.

Lemma aggregate_key_bytes_inv keys agg t :
  aggregate_key_bytes keys agg = Ok t → t = agg + keys_total keys.
Proof.
  revert agg. induction keys as [|k keys IH]; intros agg; cbn [aggregate_key_bytes keys_total foldr].
  - intros <-%Ok_inj. lia.
  - fold (keys_total keys). destruct (checked_add _ _ _) as [t'|] eqn:E; [|done].
    apply checked_add_Some in E as [-> _]. intros ->%IH. lia.
Qed.

(** Standard LeaseSet2 has one encoding and keeps the bytes that were
    signed.  An input within the caller's limit is decoded to a LeaseSet2
    exactly when the LeaseSet2 is well formed (valid header whose flags agree
    with its offline-signature block, sorted options, at most eight non-empty
    keys of at most 8 KiB together, one to sixteen leases, a signature of the
    delegated or the destination's type, and a retained signed region that is
    the encoding of its fields) and encodes to that very input. *)
Theorem lease_set2_decode_exact inp max v
    (Hb : bytes_ok inp) (Hm : max ≤ usize_max) :
  lease_set2_decode inp max = Ok v ↔
  zlen inp ≤ max ∧ lease_set2_ok v ∧ lease_set2_encode v usize_max = Ok inp.
Proof.
  rewrite lease_set2_signed.
  by apply (signed_exact _ _ _ _ _ _ _ ls2_reads ls2_consumes ls2_encode_build ls2_size).
Qed.

(** MetaLeaseSet has one encoding and keeps the bytes that were signed.  An
    input within the caller's limit is decoded to a MetaLeaseSet exactly when
    it is well formed (one to sixteen entries of a known type with no reserved
    flag, at most sixteen revocations) and encodes to that very input. *)
Theorem meta_lease_set_decode_exact inp max v
    (Hb : bytes_ok inp) (Hm : max ≤ usize_max) :
  meta_lease_set_decode inp max = Ok v ↔
  zlen inp ≤ max ∧ meta_lease_set_ok v ∧ meta_lease_set_encode v usize_max = Ok inp.
Proof.
  rewrite meta_lease_set_signed.
  by apply (signed_exact _ _ _ _ _ _ _ meta_reads meta_consumes meta_encode_build meta_size).
Qed.

(** [LeaseSet2::new] builds exactly the publishable LeaseSet2s.  From valid
    parts it succeeds with [v] if and only if [v] has those parts, satisfies
    the LeaseSet2 invariant and carries at least one encryption key (which
    decoding does not ask for), so what it builds survives encoding and
    decoding. *)
Theorem lease_set2_new_exact h o keys leases sig v
    (Hh : header_ok h) (Ho : mapping_ok o) (Hk : Forall key_ok keys)
    (Hl : Forall lease2_ok leases) (Hs : signature_ok sig) :
  lease_set2_new h o keys leases sig = Ok v ↔
  lease_set2_ok v ∧ ls2_encryption_keys v ≠ [] ∧ ls2_header v = h ∧ ls2_options v = o ∧
  ls2_encryption_keys v = keys ∧ ls2_leases v = leases ∧ ls2_signature v = sig.
Proof.
  unfold lease_set2_new. split.
  - destruct (zlen keys =? 0) eqn:E0; [done|]. destruct (zlen keys >? _) eqn:E1; [done|].
    destruct (aggregate_key_bytes _ _) as [agg|] eqn:Ea; [|done]. cbn [mbind result_bind].
    apply aggregate_key_bytes_inv in Ea as ->. destruct (0 + _ >? _) eqn:E2; [done|].
    destruct (zlen leases =? 0) eqn:E3; [done|]. destruct (zlen leases >? _) eqn:E4; [done|].
    cbv zeta. destruct (bool_decide _) eqn:E5; [done|].
    apply bool_decide_eq_false, dec_stable in E5. destruct (Signing.signature_len _); [|done].
    destruct (negb _); [done|]. breflect. pose proof (zlen_nonneg leases).
    assert (Hu : ls2_unsigned_ok h o keys leases) by (constructor; try done; lia).
    rewrite (encode_to_vec_writes _ _ _ (writes_ls2 _ _ _ _ Hu));
      [|pose proof (zlen_ls2 _ _ _ _ Hu); unfold MAX_LEASE_SET2_BYTES, MAX_COMMON_STRUCTURE_SIZE; lia|done].
    cbn [mbind result_bind map_err]. intros <-%Ok_inj. split; [by constructor|].
    split_and!; try done. cbn. intros ->. by apply E0.
  - destruct v as [h' o' ks' ls' b sig'].
    cbn [ls2_header ls2_options ls2_encryption_keys ls2_leases ls2_signature].
    intros ([Hu _ Hst Hb] & Hne & -> & -> & -> & -> & ->). cbn in Hu, Hst, Hb.
    pose proof Hu as [_ _ _ Hkc Hkb _ [Hl0 Hlm]]. pose proof (keys_total_nonneg keys).
    destruct (zlen keys =? 0) eqn:E0; breflect; [by apply zlen_0_nil in E0|].
    destruct (zlen keys >? _) eqn:E1; breflect; [lia|].
    unfold MAX_LEASE_SET2_ENCRYPTION_KEY_BYTES in *.
    rewrite aggregate_key_bytes_spec by (unfold usize_max; lia). cbn [mbind result_bind].
    destruct (0 + _ >? _) eqn:E2; breflect; [lia|]. destruct (zlen leases =? 0) eqn:E3; breflect; [lia|].
    destruct (zlen leases >? _) eqn:E4; breflect; [lia|]. cbv zeta. rewrite <- Hst.
    rewrite bool_decide_eq_false_2 by (intros Hn; by apply Hn). rewrite Hs, Z.eqb_refl. cbn [negb].
    rewrite (encode_to_vec_writes _ _ _ (writes_ls2 _ _ _ _ Hu));
      [|pose proof (zlen_ls2 _ _ _ _ Hu); unfold MAX_LEASE_SET2_BYTES, MAX_COMMON_STRUCTURE_SIZE; lia|done].
    cbn [mbind result_bind map_err]. by rewrite Hb.
Qed.

Abbreviation x25519 := (filter (λ k, ek2_type k = Crypto.X25519)).

Lemma select_x25519_spec keys count usable :
  select_x25519 keys count usable =
  (count + zlen (x25519 keys),
   match last (filter (λ k, zlen (ek2_bytes k) = 32) (x25519 keys)) with
   | Some k => Some k
   | None => usable
   end).
Proof.
  revert count usable. induction keys as [|k keys IH]; intros count usable.
  - cbn. f_equal. change (zlen (@nil LeaseSet2EncryptionKey)) with 0. lia.
  - cbn [select_x25519]. rewrite (filter_cons (λ k, ek2_type k = _)).
    destruct (bool_decide _) eqn:E1; rewrite IH.
    + apply bool_decide_eq_true in E1. rewrite decide_True by done.
      rewrite filter_cons, zlen_cons. f_equal; [lia|]. cbn [default Crypto.public_key_len].
      destruct (_ =? _) eqn:E2; breflect.
      * rewrite decide_True by done. rewrite last_cons. by destruct (last _).
      * by rewrite decide_False by done.
    + apply bool_decide_eq_false in E1. by rewrite decide_False by done.
Qed.

(** The encryption key used for a destination is unambiguous.  Selection
    succeeds with [k] exactly when [k] is the only X25519 key of the LeaseSet2
    and has the length of an X25519 key; it reports a duplicate exactly when
    there are two or more, of whatever length. *)
Theorem usable_x25519_key_exact v k :
  (usable_x25519_key v = Ok k ↔
     x25519 (ls2_encryption_keys v) = [k] ∧ zlen (ek2_bytes k) = 32) ∧
  (usable_x25519_key v = Err DuplicateX25519 ↔ 2 ≤ zlen (x25519 (ls2_encryption_keys v))).
Proof.
  unfold usable_x25519_key. rewrite select_x25519_spec.
  destruct (ls2_encryption_keys v) as [|k0 ks0] eqn:Ek.
  { cbn. split; split; try done; intros H; first [by destruct H|by apply H]. }
  rewrite zlen_cons. pose proof (zlen_nonneg ks0). destruct (_ =? _) eqn:E0; breflect; [lia|].
  clear E0 Ek. destruct (x25519 (k0 :: ks0)) as [|k1 [|k2 l]].
  - cbn. split; split; try done; intros H1; first [by destruct H1|by apply H1].
  - change (0 + zlen [k1] =? 0) with false. change (0 + zlen [k1] >? 1) with false. cbv iota.
    change (zlen [k1]) with 1. rewrite filter_cons, filter_nil.
    destruct (decide _) as [E|E]; cbn [last ok_or]; (split; split); try done; try lia.
    + intros <-%Ok_inj. done.
    + by intros [[= ->] _].
    + by intros [[= ->] ?].
  - rewrite !zlen_cons. pose proof (zlen_nonneg l).
    destruct (_ =? _) eqn:E0; breflect; [lia|]. destruct (_ >? _) eqn:E1; breflect; [|lia].
    split; split; try done; intros; first [lia|by destruct_and!].
Qed.

(** ** Witnesses *)
Definition sample_offline : OfflineSignature :=
  mkOffline 900 (mkSigningKey Signing.EdDsaSha512Ed25519 (replicate 32 8))
    (mkSignature Signing.EdDsaSha512Ed25519 (replicate 64 9)).
Definition sample_header : LeaseSet2Header :=
  mkHeader sample_destination 800 600 1 (Some sample_offline).
Definition sample_key2 : LeaseSet2EncryptionKey := mkEncryptionKey Crypto.X25519 (replicate 32 7).
Definition sample_lease2 : Lease2 := mkLease2 (replicate 32 6) 77 1000.
Definition sample_signature2 : SignatureValue :=
  mkSignature Signing.EdDsaSha512Ed25519 (replicate 64 5).
Definition sample_lease_set2 : LeaseSet2 :=
  mkLeaseSet2 sample_header sample_mapping [sample_key2] [sample_lease2]
    (ls2_fields_bytes (sample_header, sample_mapping, [sample_key2], [sample_lease2]))
    sample_signature2.
Definition sample_meta_lease : MetaLease := mkMetaLease (replicate 32 6) 3 10 1000.
Definition sample_meta : MetaLeaseSet :=
  mkMetaLeaseSet sample_header sample_mapping [sample_meta_lease] [replicate 32 2]
    (meta_fields_bytes (sample_header, sample_mapping, [sample_meta_lease], [replicate 32 2]))
    sample_signature2.

Lemma sample_lease_set2_ok : lease_set2_ok sample_lease_set2.
Proof.
  destruct (record_canonical (A := LeaseSet2) (ls2_signed_bytes sample_lease_set2 ++
    signature_bytes (ls2_signature sample_lease_set2)) 4096 sample_lease_set2 4096) as [Hok _];
    [..|exact Hok].
  - apply bytes_okb. vm_compute. reflexivity.
  - vm_compute. reflexivity.
  - vm_compute. split; discriminate.
Qed.

Lemma lease_set2_decode_exact_witness : lease_set2_ok sample_lease_set2.
Proof.
  apply (lease_set2_decode_exact (ls2_signed_bytes sample_lease_set2 ++
    signature_bytes (ls2_signature sample_lease_set2)) 4096).
  - apply bytes_okb. vm_compute. reflexivity.
  - vm_compute. discriminate.
  - vm_compute. reflexivity.
Defined.

Lemma meta_lease_set_decode_exact_witness : meta_lease_set_ok sample_meta.
Proof.
  apply (meta_lease_set_decode_exact (meta_signed_bytes sample_meta ++
    signature_bytes (meta_signature sample_meta)) 4096).
  - apply bytes_okb. vm_compute. reflexivity.
  - vm_compute. discriminate.
  - vm_compute. reflexivity.
Defined.

Lemma lease_set2_new_exact_witness : lease_set2_ok sample_lease_set2.
Proof.
  apply (lease_set2_new_exact sample_header sample_mapping [sample_key2] [sample_lease2]
    sample_signature2).
  - constructor; try reflexivity; try (vm_compute; split; [discriminate|reflexivity]).
    + split; [constructor; [reflexivity|reflexivity|reflexivity|vm_compute; reflexivity]|reflexivity].
    + vm_compute. discriminate.
    + constructor; try reflexivity. vm_compute. split; [discriminate|reflexivity].
  - apply sample_mapping_ok.
  - constructor; [|constructor]. constructor; [reflexivity| |reflexivity].
    vm_compute. split; [discriminate|reflexivity].
  - constructor; [|constructor]. vm_compute. repeat split; discriminate.
  - reflexivity.
  - vm_compute. reflexivity.
Defined.
