(* ===== verification/EncryptedLeaseSet.v ===== *)
(** * Encrypted LeaseSet2

    The outer layer of DatabaseStore type 5 ([common/els2.rs]): a blinded key,
    timestamps, an optional block of offline keys, the ciphertext and a
    signature.  The signed region starts with the store type, which is not part
    of the stored bytes. *)
From S2P Require Import Prelude Codec Common Identity Mapping LeaseSet RouterInfo LeaseSet2.

Definition ENCRYPTED_LEASE_SET2_STORE_TYPE : Z := 5.
Definition ENCRYPTED_LEASE_SET2_FLAG_OFFLINE_KEYS : Z := 0x0001.
Definition ENCRYPTED_LEASE_SET2_FLAGS_RESERVED_MASK : Z := 0xfffe.
Definition ENCRYPTED_LEASE_SET2_SALT_LENGTH : Z := 32.
Definition ENCRYPTED_LEASE_SET2_MIN_OUTER_CIPHERTEXT_LENGTH : Z :=
  ENCRYPTED_LEASE_SET2_SALT_LENGTH + 1.

Definition els2_has_offline_keys (flags : Z) : bool :=
  negb (Z.land flags ENCRYPTED_LEASE_SET2_FLAG_OFFLINE_KEYS =? 0).
Definition els2_has_reserved_bits (flags : Z) : bool :=
  negb (Z.land flags ENCRYPTED_LEASE_SET2_FLAGS_RESERVED_MASK =? 0).

(** ** Offline keys *)
Record EncryptedLeaseSet2OfflineKeys := mkOfflineKeys {
  ok_expires_seconds : Z;
  ok_sigtype : SigningKeyType;
  ok_public_key : bytes;
  ok_signed_bytes : bytes;
  ok_signature : bytes;
}.

Definition offline_keys_new (expires : Z) (t : SigningKeyType) (pk sig : bytes)
    : result CodecError EncryptedLeaseSet2OfflineKeys :=
  match Signing.public_key_len t with
  | None => Err (unsupported 0 "offline transient sigtype" (Signing.code t))
  | Some expected_key =>
  if negb (zlen pk =? expected_key)
  then Err (LengthExceeded 0 (zlen pk) expected_key "encrypted LeaseSet2 transient public key")
  else
  match Signing.signature_len t with
  | None => Err (unsupported 0 "offline transient sigtype" (Signing.code t))
  | Some expected_signature =>
  if negb (zlen sig =? expected_signature)
  then Err (LengthExceeded 0 (zlen sig) expected_signature "encrypted LeaseSet2 offline signature")
  else Ok (mkOfflineKeys expires t pk (to_be 4 expires ++ to_be 2 (Signing.code t) ++ pk) sig)
  end
  end.

(** ** The record *)
Record EncryptedLeaseSet2 := mkEls2 {
  els2_blinded_sigtype : SigningKeyType;
  els2_blinded_public_key : bytes;
  els2_published_seconds : Z;
  els2_expires_offset_seconds : Z;
  els2_flags : Z;
  els2_offline_keys : option EncryptedLeaseSet2OfflineKeys;
  els2_outer_ciphertext : bytes;
  els2_signature : bytes;
  els2_signed_bytes : bytes;
}.

Definition build_signed_bytes (t : SigningKeyType) (pk : bytes) (published expires_offset : Z)
    (offline : option EncryptedLeaseSet2OfflineKeys) (ciphertext : bytes)
    : result CodecError bytes :=
  match try_from u16_max (zlen ciphertext) with
  | None => Err (LengthExceeded 0 (zlen ciphertext) u16_max "encrypted LeaseSet2 outer ciphertext")
  | Some ciphertext_len =>
      let flags := match offline with
                   | Some _ => ENCRYPTED_LEASE_SET2_FLAG_OFFLINE_KEYS
                   | None => 0
                   end in
      Ok ([ENCRYPTED_LEASE_SET2_STORE_TYPE] ++ to_be 2 (Signing.code t) ++ pk ++
          to_be 4 published ++ to_be 2 expires_offset ++ to_be 2 flags ++
          match offline with
          | Some o => ok_signed_bytes o ++ ok_signature o
          | None => []
          end ++
          to_be 2 ciphertext_len ++ ciphertext)
  end.

Definition els2_new (t : SigningKeyType) (pk : bytes) (published expires_offset : Z)
    (offline : option EncryptedLeaseSet2OfflineKeys) (ciphertext sig : bytes)
    : result CodecError EncryptedLeaseSet2 :=
  match Signing.public_key_len t with
  | None => Err (unsupported 0 "blinded sigtype" (Signing.code t))
  | Some expected_key =>
  if negb (zlen pk =? expected_key)
  then Err (LengthExceeded 0 (zlen pk) expected_key "encrypted LeaseSet2 blinded public key")
  else
  match Signing.signature_len t with
  | None => Err (unsupported 0 "blinded sigtype" (Signing.code t))
  | Some expected_signature =>
  if negb (zlen sig =? expected_signature)
  then Err (LengthExceeded 0 (zlen sig) expected_signature "encrypted LeaseSet2 signature")
  else if zlen ciphertext <? ENCRYPTED_LEASE_SET2_MIN_OUTER_CIPHERTEXT_LENGTH
  then Err (LengthExceeded 0 (zlen ciphertext) ENCRYPTED_LEASE_SET2_MIN_OUTER_CIPHERTEXT_LENGTH
              "encrypted LeaseSet2 outer ciphertext")
  else
  let flags := match offline with
               | Some _ => ENCRYPTED_LEASE_SET2_FLAG_OFFLINE_KEYS
               | None => 0
               end in
  signed ← build_signed_bytes t pk published expires_offset offline ciphertext;
  Ok (mkEls2 t pk published expires_offset flags offline ciphertext sig signed)
  end
  end.

Definition read_offline_keys : decoder EncryptedLeaseSet2OfflineKeys :=
  expires_seconds ← Cursor.read_u32;
  code ← Cursor.read_u16;
  let transient_sigtype := Signing.from_code code in
  match Signing.public_key_len transient_sigtype with
  | None => fail_at (λ c, unsupported (saturating_sub (offset c) 2)
                            "encrypted LeaseSet2 transient sigtype" (Signing.code transient_sigtype))
  | Some transient_key_len =>
  pk ← Cursor.take transient_key_len;
  match Signing.signature_len transient_sigtype with
  | None => fail_at (λ c, unsupported (saturating_sub (offset c) 2)
                            "encrypted LeaseSet2 transient sigtype" (Signing.code transient_sigtype))
  | Some signature_len =>
  sig ← Cursor.take signature_len;
  lift (offline_keys_new expires_seconds transient_sigtype pk sig)
  end
  end.

(** The ciphertext and the signature. *)
Definition read_els2_tail (blinded_sigtype : SigningKeyType) (pk : bytes)
    (published_seconds expires_offset_seconds : Z)
    (offline : option EncryptedLeaseSet2OfflineKeys) : decoder EncryptedLeaseSet2 :=
  outer_len ← Cursor.read_u16;
  if outer_len <? ENCRYPTED_LEASE_SET2_MIN_OUTER_CIPHERTEXT_LENGTH
  then fail_at (λ c, LengthExceeded (saturating_sub (offset c) 2) outer_len
                       ENCRYPTED_LEASE_SET2_MIN_OUTER_CIPHERTEXT_LENGTH
                       "encrypted LeaseSet2 outer ciphertext")
  else
  outer_ciphertext ← Cursor.take outer_len;
  match Signing.signature_len blinded_sigtype with
  | None => fail (unsupported 0 "blinded sigtype" (Signing.code blinded_sigtype))
  | Some signature_len =>
  sig ← Cursor.take signature_len;
  lift (els2_new blinded_sigtype pk published_seconds expires_offset_seconds offline
          outer_ciphertext sig)
  end.

Definition els2_decode_from : decoder EncryptedLeaseSet2 :=
  code ← Cursor.read_u16;
  let blinded_sigtype := Signing.from_code code in
  match Signing.public_key_len blinded_sigtype with
  | None => fail_at (λ c, unsupported (saturating_sub (offset c) 2)
                            "encrypted LeaseSet2 blinded sigtype" (Signing.code blinded_sigtype))
  | Some key_len =>
  pk ← Cursor.take key_len;
  published_seconds ← Cursor.read_u32;
  expires_offset_seconds ← Cursor.read_u16;
  flags ← Cursor.read_u16;
  if els2_has_reserved_bits flags
  then fail_at (λ c, NonCanonical (saturating_sub (offset c) 2)
                       "encrypted LeaseSet2 reserved flag bit")
  else
  offline ← (if els2_has_offline_keys flags
             then o ← read_offline_keys; mret (Some o)
             else mret None);
  read_els2_tail blinded_sigtype pk published_seconds expires_offset_seconds offline
  end.

Definition els2_decode (inp : bytes) (max : Z) : result CodecError EncryptedLeaseSet2 :=
  decode_exact inp max els2_decode_from.

Definition els2_encode_into (v : EncryptedLeaseSet2) : encoder () :=
  _ ← Buffer.write_raw (slice 1 (zlen (els2_signed_bytes v)) (els2_signed_bytes v));
  Buffer.write_raw (els2_signature v).

Definition els2_encode (v : EncryptedLeaseSet2) (max : Z) : result CodecError bytes :=
  encode_to_vec max (els2_encode_into v).

Definition els2_signature_preimage (v : EncryptedLeaseSet2) : bytes := els2_signed_bytes v.
Definition els2_expires_seconds (v : EncryptedLeaseSet2) : Z :=
  saturating_add u32_max (els2_published_seconds v) (els2_expires_offset_seconds v).
Definition signed_by_transient_key (v : EncryptedLeaseSet2) : bool :=
  els2_has_offline_keys (els2_flags v).
(** [None] where the code panics. *)
Definition outer_salt (v : EncryptedLeaseSet2) : option bytes :=
  if zlen (els2_outer_ciphertext v) <? ENCRYPTED_LEASE_SET2_SALT_LENGTH then None
  else Some (slice 0 ENCRYPTED_LEASE_SET2_SALT_LENGTH (els2_outer_ciphertext v)).

(** ** Invariant and wire format *)
Record offline_keys_ok (o : EncryptedLeaseSet2OfflineKeys) : Prop := {
  oko_expires : fits 32 (ok_expires_seconds o);
  oko_key : Signing.public_key_len (ok_sigtype o) = Some (zlen (ok_public_key o));
  oko_signature : Signing.signature_len (ok_sigtype o) = Some (zlen (ok_signature o));
  oko_signed : ok_signed_bytes o =
    to_be 4 (ok_expires_seconds o) ++ to_be 2 (Signing.code (ok_sigtype o)) ++ ok_public_key o;
}.

Definition els2_body (t : SigningKeyType) (pk : bytes) (published expires_offset : Z)
    (offline : option EncryptedLeaseSet2OfflineKeys) (ciphertext : bytes) : bytes :=
  to_be 2 (Signing.code t) ++ pk ++ to_be 4 published ++ to_be 2 expires_offset ++
  to_be 2 (match offline with Some _ => 1 | None => 0 end) ++
  match offline with Some o => ok_signed_bytes o ++ ok_signature o | None => [] end ++
  to_be 2 (zlen ciphertext) ++ ciphertext.

Record els2_ok (v : EncryptedLeaseSet2) : Prop := {
  eo_key : Signing.public_key_len (els2_blinded_sigtype v) = Some (zlen (els2_blinded_public_key v));
  eo_published : fits 32 (els2_published_seconds v);
  eo_expires : fits 16 (els2_expires_offset_seconds v);
  eo_flags : els2_flags v = match els2_offline_keys v with Some _ => 1 | None => 0 end;
  eo_offline : match els2_offline_keys v with Some o => offline_keys_ok o | None => True end;
  eo_ciphertext :
    ENCRYPTED_LEASE_SET2_MIN_OUTER_CIPHERTEXT_LENGTH ≤ zlen (els2_outer_ciphertext v) ≤ u16_max;
  eo_signature : Signing.signature_len (els2_blinded_sigtype v) = Some (zlen (els2_signature v));
  eo_signed : els2_signed_bytes v = ENCRYPTED_LEASE_SET2_STORE_TYPE ::
    els2_body (els2_blinded_sigtype v) (els2_blinded_public_key v) (els2_published_seconds v)
      (els2_expires_offset_seconds v) (els2_offline_keys v) (els2_outer_ciphertext v);
}.

Definition els2_bytes (v : EncryptedLeaseSet2) : bytes :=
  els2_body (els2_blinded_sigtype v) (els2_blinded_public_key v) (els2_published_seconds v)
    (els2_expires_offset_seconds v) (els2_offline_keys v) (els2_outer_ciphertext v) ++
  els2_signature v.

Section els2.
Lemma offline_keys_new_exact e t pk sig o :
  fits 32 e →
  offline_keys_new e t pk sig = Ok o ↔
  offline_keys_ok o ∧ ok_expires_seconds o = e ∧ ok_sigtype o = t ∧ ok_public_key o = pk ∧
  ok_signature o = sig.
Proof.
  intros He. unfold offline_keys_new. split.
  - destruct (Signing.public_key_len t) as [n|] eqn:E1; [|done].
    destruct (zlen pk =? n) eqn:E2; [|done]. cbn [negb].
    destruct (Signing.signature_len t) as [m|] eqn:E3; [|done].
    destruct (zlen sig =? m) eqn:E4; [|done]. cbn [negb]. breflect. subst.
    intros <-%Ok_inj. by split.
  - intros ([_ Hk Hs Hb] & <- & <- & <- & <-). rewrite Hk, Z.eqb_refl. cbn [negb].
    rewrite Hs, Z.eqb_refl. cbn [negb]. rewrite <- Hb. by destruct o.
Qed.

Definition offline_keys_bytes (o : EncryptedLeaseSet2OfflineKeys) : bytes :=
  ok_signed_bytes o ++ ok_signature o.

Lemma reads_offline_keys o :
  offline_keys_ok o → reads read_offline_keys (offline_keys_bytes o) o.
Proof.
  intros Hok. pose proof Hok as [He Hk Hs Hb]. unfold offline_keys_bytes. rewrite Hb, <- !app_assoc.
  pose proof (signing_code_known _ _ Hk) as (Hc & Hf & _).
  eapply reads_bind; [by apply reads_u32|]. eapply reads_bind; [by apply reads_u16|].
  cbv zeta. rewrite Hc, Hk. eapply reads_bind; [apply reads_take|]. rewrite Hs.
  eapply reads_map; [apply reads_take|]. by apply reads_lift, offline_keys_new_exact.
Qed.

Lemma consumes_offline_keys :
  consumes read_offline_keys (λ o w, offline_keys_ok o ∧ w = offline_keys_bytes o).
Proof.
  eapply consumes_bind; [apply consumes_u32|intros e w _ [-> He]].
  eapply consumes_bind; [apply consumes_u16|intros tc w _ [-> Htc]]. cbv zeta.
  destruct (Signing.public_key_len _) as [len|] eqn:Hlen; [|apply consumes_fail_at].
  apply signing_code_known in Hlen as Hl. eapply consumes_bind; [apply consumes_take; lia|].
  intros pk w _ [-> Hpk].
  destruct (Signing.signature_len _) as [sl|] eqn:Hsl; [|apply consumes_fail_at].
  apply signature_len_known in Hsl as Hs. eapply consumes_bind; [apply consumes_take; lia|].
  intros sig w _ [-> Hsig]. apply consumes_lift.
  intros o (Hok & <- & Ht & <- & <-)%offline_keys_new_exact; [|done]. split; [done|].
  unfold offline_keys_bytes. destruct Hok as [_ _ _ ->].
  by rewrite Ht, signing_from_code_code, app_nil_r, <- !app_assoc.
Qed.

Lemma build_signed_bytes_exact t pk p e o ct :
  zlen ct ≤ u16_max →
  build_signed_bytes t pk p e o ct = Ok (ENCRYPTED_LEASE_SET2_STORE_TYPE :: els2_body t pk p e o ct).
Proof.
  intros Hct. unfold build_signed_bytes, try_from. destruct (_ <=? _) eqn:E; breflect; [|lia].
  unfold els2_body. by destruct o.
Qed.

Lemma els2_new_exact t pk p e o ct sig v :
  fits 32 p → fits 16 e → match o with Some o => offline_keys_ok o | None => True end →
  els2_new t pk p e o ct sig = Ok v ↔
  els2_ok v ∧ els2_blinded_sigtype v = t ∧ els2_blinded_public_key v = pk ∧
  els2_published_seconds v = p ∧ els2_expires_offset_seconds v = e ∧ els2_offline_keys v = o ∧
  els2_outer_ciphertext v = ct ∧ els2_signature v = sig.
Proof.
  intros Hp He Ho. unfold els2_new. split.
  - destruct (Signing.public_key_len t) as [n|] eqn:E1; [|done].
    destruct (zlen pk =? n) eqn:E2; [|done]. cbn [negb].
    destruct (Signing.signature_len t) as [m|] eqn:E3; [|done].
    destruct (zlen sig =? m) eqn:E4; [|done]. cbn [negb].
    destruct (zlen ct <? _) eqn:E5; [done|]. breflect. subst. cbv zeta.
    destruct (decide (zlen ct ≤ u16_max)) as [Hct|Hct].
    + rewrite build_signed_bytes_exact by done. cbn [mbind result_bind]. intros <-%Ok_inj.
      split; [by constructor|done].
    + unfold build_signed_bytes, try_from. destruct (_ <=? _) eqn:E; breflect; [lia|done].
  - intros ([Hk _ _ Hf _ Hct Hs Hb] & <- & <- & <- & <- & <- & <- & <-).
    rewrite Hk, Z.eqb_refl. cbn [negb]. rewrite Hs, Z.eqb_refl. cbn [negb].
    destruct (_ <? _) eqn:E; breflect; [lia|]. cbv zeta.
    rewrite build_signed_bytes_exact by lia. cbn [mbind result_bind]. rewrite <- Hb.
    unfold ENCRYPTED_LEASE_SET2_FLAG_OFFLINE_KEYS. rewrite <- Hf. by destruct v.
Qed.

(** Without reserved bits the flag word is zero or one. *)
Lemma els2_flags_spec f :
  fits 16 f → els2_has_reserved_bits f = false →
  f = if els2_has_offline_keys f then 1 else 0.
Proof.
  unfold els2_has_reserved_bits, els2_has_offline_keys, fits. intros Hf Hr. breflect.
  unfold ENCRYPTED_LEASE_SET2_FLAG_OFFLINE_KEYS, ENCRYPTED_LEASE_SET2_FLAGS_RESERVED_MASK in *.
  assert (Hh : f / 2 = 0).
  { apply (fits_bits_0 15); [done|unfold fits; split; [apply Z.div_pos|apply Z.div_lt_upper_bound]; lia|].
    intros i Hi. change (f / 2) with (f / 2 ^ 1). rewrite <- Z.shiftr_div_pow2, Z.shiftr_spec by lia.
    pose proof (f_equal (λ z, Z.testbit z (i + 1)) Hr) as Ht. cbv beta in Ht.
    rewrite Z.land_spec, Z.bits_0 in Ht.
    replace (Z.testbit 0xfffe (i + 1)) with true in Ht; [by rewrite andb_true_r in Ht|].
    symmetry. change 0xfffe with (Z.shiftl (Z.ones 15) 1).
    rewrite Z.shiftl_spec, Z.ones_spec_low by lia. done. }
  assert (f = 0 ∨ f = 1) as [-> | ->]; [|done|done].
  pose proof (Z.div_mod f 2 ltac:(done)). pose proof (Z.mod_pos_bound f 2 ltac:(done)). lia.
Qed.

Lemma reads_els2_tail v :
  els2_ok v →
  reads (read_els2_tail (els2_blinded_sigtype v) (els2_blinded_public_key v)
           (els2_published_seconds v) (els2_expires_offset_seconds v) (els2_offline_keys v))
    (to_be 2 (zlen (els2_outer_ciphertext v)) ++ els2_outer_ciphertext v ++ els2_signature v) v.
Proof.
  intros Hok. pose proof Hok as [_ Hp He _ Ho [Hc1 Hc2] Hs _].
  pose proof (zlen_nonneg (els2_outer_ciphertext v)).
  eapply reads_bind; [apply reads_u16; unfold fits, u16_max in *; lia|].
  destruct (_ <? _) eqn:E; breflect; [lia|]. eapply reads_bind; [apply reads_take|].
  rewrite Hs. eapply reads_map; [apply reads_take|]. by apply reads_lift, els2_new_exact.
Qed.

Lemma els2_reads v : els2_ok v → reads els2_decode_from (els2_bytes v) v.
Proof.
  intros Hok. pose proof (reads_els2_tail v Hok) as Htail.
  destruct Hok as [Hk Hp He Hf Ho _ Hs Hb].
  unfold els2_bytes, els2_body. rewrite <- !app_assoc.
  pose proof (signing_code_known _ _ Hk) as (Hc & Hfc & _).
  eapply reads_bind; [by apply reads_u16|]. cbv zeta. rewrite Hc, Hk.
  eapply reads_bind; [apply reads_take|]. eapply reads_bind; [by apply reads_u32|].
  eapply reads_bind; [by apply reads_u16|].
  destruct (els2_offline_keys v) as [o|]; cbv zeta.
  - eapply reads_bind; [by apply reads_u16|].
    eapply reads_bind; [|rewrite <- ?app_assoc; exact Htail].
    eapply reads_map; [by apply reads_offline_keys|apply reads_ret].
  - eapply reads_bind; [by apply reads_u16|]. eapply reads_silent; [apply reads_ret|exact Htail].
Qed.

Lemma els2_consumes : consumes els2_decode_from (λ v w, els2_ok v ∧ w = els2_bytes v).
Proof.
  eapply consumes_bind; [apply consumes_u16|intros tc w _ [-> Htc]]. cbv zeta.
  destruct (Signing.public_key_len _) as [len|] eqn:Hlen; [|apply consumes_fail_at].
  apply signing_code_known in Hlen as Hl.
  eapply consumes_bind; [apply consumes_take; lia|intros pk w _ [-> Hpk]].
  eapply consumes_bind; [apply consumes_u32|intros p w _ [-> Hp]].
  eapply consumes_bind; [apply consumes_u16|intros e w _ [-> He]].
  eapply consumes_bind; [apply consumes_u16|intros f w _ [-> Hf]].
  apply consumes_if; intros Hr; [apply consumes_fail_at|]. apply els2_flags_spec in Hr; [|done].
  eapply (consumes_bind _ _ (λ o w,
    w = match o with Some o => offline_keys_bytes o | None => [] end ∧
    f = (match o with Some _ => 1 | None => 0 end) ∧
    match o with Some o => offline_keys_ok o | None => True end)).
  { apply consumes_if; intros E; rewrite E in Hr; [|by apply consumes_ret].
    eapply consumes_bind; [apply consumes_offline_keys|intros o w _ [Ho ->]].
    apply consumes_ret. by rewrite app_nil_r. }
  clear Hr. intros o w _ (-> & -> & Ho).
  eapply consumes_bind; [apply consumes_u16|intros n w _ [-> Hn]]. unfold fits in Hn.
  apply consumes_if; intros E; breflect; [apply consumes_fail_at|].
  eapply consumes_bind; [apply consumes_take; lia|intros ct w _ [-> Hct]].
  destruct (Signing.signature_len _) as [sl|] eqn:Hsl; [|apply consumes_fail].
  apply signature_len_known in Hsl as Hs.
  eapply consumes_bind; [apply consumes_take; lia|intros sig w _ [-> Hsig]].
  apply consumes_lift. intros v Hv. apply els2_new_exact in Hv; [|done..].
  destruct Hv as (Hok & Ht & <- & <- & <- & <- & <- & <-). split; [done|].
  unfold els2_bytes, els2_body. rewrite Ht, signing_from_code_code, Hct, <- !app_assoc, !app_nil_r.
  by destruct (els2_offline_keys v).
Qed.

Lemma els2_canonical : canonical els2_ok els2_bytes els2_decode_from els2_encode_into.
Proof.
  split; [apply els2_reads|apply els2_consumes|].
  intros v Hok. unfold els2_encode_into. rewrite (eo_signed v Hok).
  rewrite zlen_cons. change (ENCRYPTED_LEASE_SET2_STORE_TYPE :: ?l)
    with ([ENCRYPTED_LEASE_SET2_STORE_TYPE] ++ l).
  rewrite slice_app_end by (done || lia).
  apply writes_bind; apply writes_write.
Qed.
End els2.

Lemma els2_size v : els2_ok v → zlen (els2_bytes v) ≤ u32_max.
Proof.
  intros [Hk _ _ _ Ho [_ Hc] Hs _]. unfold els2_bytes, els2_body, u32_max, u16_max in *.
  apply signing_code_known in Hk. apply signature_len_known in Hs.
  rewrite !zlen_app, !zlen_to_be. destruct (els2_offline_keys v) as [o|]; [|rewrite zlen_nil; lia].
  destruct Ho as [_ Hok Hos Hob]. rewrite Hob.
  apply signing_code_known in Hok. apply signature_len_known in Hos.
  rewrite !zlen_app, !zlen_to_be. lia.
Qed.

#[export] Instance els2_record : WireRecord EncryptedLeaseSet2 := {|
  record_decode := els2_decode;
  record_encode := els2_encode;
  record_ok := els2_ok;
|}.

#[export] Instance els2_record_laws : WireRecordLaws EncryptedLeaseSet2.
Proof. exact (canonical_record_laws _ _ _ _ els2_canonical els2_size). Qed.

(** ** What a signature covers

    The records of the LeaseSet2 family, what a signer signs for each, and the
    content that is meant to be authenticated: every field but the signature. *)
Inductive signed_family :=
  | FamilyLeaseSet2 (v : LeaseSet2)
  | FamilyMeta (v : MetaLeaseSet)
  | FamilyEncrypted (v : EncryptedLeaseSet2).

Definition family_ok (r : signed_family) : Prop :=
  match r with
  | FamilyLeaseSet2 v => lease_set2_ok v
  | FamilyMeta v => meta_lease_set_ok v
  | FamilyEncrypted v => els2_ok v
  end.

Definition signature_preimage (r : signed_family) : bytes :=
  match r with
  | FamilyLeaseSet2 v => ls2_signature_preimage v
  | FamilyMeta v => meta_signature_preimage v
  | FamilyEncrypted v => els2_signature_preimage v
  end.

Definition same_content (r1 r2 : signed_family) : Prop :=
  match r1, r2 with
  | FamilyLeaseSet2 a, FamilyLeaseSet2 b =>
      (ls2_header a, ls2_options a, ls2_encryption_keys a, ls2_leases a) =
      (ls2_header b, ls2_options b, ls2_encryption_keys b, ls2_leases b)
  | FamilyMeta a, FamilyMeta b =>
      (meta_header a, meta_options a, meta_entries a, meta_revocations a) =
      (meta_header b, meta_options b, meta_entries b, meta_revocations b)
  | FamilyEncrypted a, FamilyEncrypted b =>
      (els2_blinded_sigtype a, els2_blinded_public_key a, els2_published_seconds a,
       els2_expires_offset_seconds a, els2_flags a, els2_offline_keys a, els2_outer_ciphertext a) =
      (els2_blinded_sigtype b, els2_blinded_public_key b, els2_published_seconds b,
       els2_expires_offset_seconds b, els2_flags b, els2_offline_keys b, els2_outer_ciphertext b)
  | _, _ => False
  end.

(** The record [b] with another signature. *)
Definition resigned (b : EncryptedLeaseSet2) (sig : bytes) : EncryptedLeaseSet2 :=
  mkEls2 (els2_blinded_sigtype b) (els2_blinded_public_key b) (els2_published_seconds b)
    (els2_expires_offset_seconds b) (els2_flags b) (els2_offline_keys b)
    (els2_outer_ciphertext b) sig (els2_signed_bytes b).

Lemma els2_sigtype_inj a b :
  els2_ok a → els2_ok b → els2_signed_bytes a = els2_signed_bytes b →
  els2_blinded_sigtype a = els2_blinded_sigtype b.
Proof.
  intros [Ha _ _ _ _ _ _ Hsa] [Hb _ _ _ _ _ _ Hsb] Heq. rewrite Hsa, Hsb in Heq.
  apply (f_equal tail) in Heq. cbn [tail] in Heq. unfold els2_body in Heq.
  apply app_inj_1 in Heq as [Heq _]; [|by rewrite !length_to_be].
  apply signing_code_known in Ha as (Hra & Hca & _). apply signing_code_known in Hb as (Hrb & Hcb & _).
  rewrite <- Hra, <- Hrb. f_equal. apply (f_equal from_be) in Heq.
  rewrite !from_to_be in Heq; [done|exact Hcb|exact Hca].
Qed.

Lemma els2_content_inj a b :
  els2_ok a → els2_ok b → els2_signed_bytes a = els2_signed_bytes b →
  same_content (FamilyEncrypted a) (FamilyEncrypted b).
Proof.
  intros Ha Hb Heq. pose proof (els2_sigtype_inj _ _ Ha Hb Heq) as Ht.
  assert (Hb' : els2_ok (resigned b (els2_signature a))).
  { destruct Hb. constructor; try done. cbn. rewrite <- Ht. by destruct Ha. }
  assert (Hw : els2_bytes a = els2_bytes (resigned b (els2_signature a))).
  { unfold els2_bytes. f_equal. pose proof (eo_signed a Ha) as Hsa. pose proof (eo_signed b Hb) as Hsb.
    rewrite Heq, Hsb in Hsa. by apply (f_equal tail) in Hsa. }
  pose proof (els2_size a Ha) as Hz.
  assert (Hab : a = resigned b (els2_signature a)).
  { pose proof (els2_reads a Ha) as Ra. pose proof (els2_reads _ Hb') as Rb. rewrite <- Hw in Rb.
    apply (reads_decode_exact _ _ _ (zlen (els2_bytes a))) in Ra, Rb; [congruence|..];
      unfold u32_max, usize_max in *; lia. }
  rewrite Hab. done.
Qed.

(** ** Properties *)

(** Encrypted LeaseSet2 records have one encoding.  An input within the
    caller's limit is decoded to a record exactly when the record is well formed
    (key and signature of the lengths of their types, flags that agree with the
    offline-key block, a ciphertext longer than its salt, and a retained signed
    region that is the store type followed by the stored fields) and encodes to
    that very input. *)
Theorem els2_decode_exact inp max v
    (Hb : bytes_ok inp) (Hm : zlen inp ≤ usize_max) :
  els2_decode inp max = Ok v ↔
  zlen inp ≤ max ∧ els2_ok v ∧ els2_encode v usize_max = Ok inp.
Proof. by apply (canonical_exact _ _ _ _ _ _ _ els2_canonical). Qed.

(** A signature of the LeaseSet2 family covers one record.  Two well-formed
    records, LeaseSet2, MetaLeaseSet or encrypted, have the same signature
    preimage exactly when they are of the same kind and agree on every field but
    the signature: no signature made for one record can be moved to another. *)
Theorem signature_preimage_unique r1 r2
    (H1 : family_ok r1) (H2 : family_ok r2) :
  signature_preimage r1 = signature_preimage r2 ↔ same_content r1 r2.
Proof.
  split.
  - destruct r1 as [a|a|a], r2 as [b|b|b]; cbn in H1, H2; cbn [signature_preimage];
      unfold ls2_signature_preimage, meta_signature_preimage, els2_signature_preimage; intros Heq;
      try discriminate Heq;
      try (rewrite (eo_signed a H1) in Heq; discriminate Heq);
      try (rewrite (eo_signed b H2) in Heq; discriminate Heq).
    + injection Heq as Heq. rewrite (l2_signed a H1), (l2_signed b H2) in Heq.
      by apply (signed_fields_inj ls2_fields_ok _ _ ls2_reads ls2_size) in Heq;
        [|apply l2_unsigned|apply l2_unsigned].
    + injection Heq as Heq. rewrite (ms_signed a H1), (ms_signed b H2) in Heq.
      by apply (signed_fields_inj meta_fields_ok _ _ meta_reads meta_size) in Heq;
        [|apply ms_unsigned|apply ms_unsigned].
    + by apply els2_content_inj.
  - destruct r1 as [a|a|a], r2 as [b|b|b]; cbn [same_content]; try done;
      cbn in H1, H2; cbn [signature_preimage];
      unfold ls2_signature_preimage, meta_signature_preimage, els2_signature_preimage; intros Heq.
    + by rewrite (l2_signed a H1), (l2_signed b H2), Heq.
    + by rewrite (ms_signed a H1), (ms_signed b H2), Heq.
    + rewrite (eo_signed a H1), (eo_signed b H2). by injection Heq as -> -> -> -> _ -> ->.
Qed.

(** ** Witnesses *)
Definition sample_offline_keys : EncryptedLeaseSet2OfflineKeys :=
  mkOfflineKeys 900 Signing.EdDsaSha512Ed25519 (replicate 32 8)
    (to_be 4 900 ++ to_be 2 7 ++ replicate 32 8) (replicate 64 9).
Definition sample_els2 : EncryptedLeaseSet2 :=
  mkEls2 Signing.RedDsaSha512Ed25519 (replicate 32 4) 800 600 1 (Some sample_offline_keys)
    (replicate 40 3) (replicate 64 5)
    (5 :: els2_body Signing.RedDsaSha512Ed25519 (replicate 32 4) 800 600
            (Some sample_offline_keys) (replicate 40 3)).

Lemma els2_decode_exact_witness : els2_ok sample_els2.
Proof.
  apply (els2_decode_exact (els2_bytes sample_els2) 4096).
  - apply bytes_okb. vm_compute. reflexivity.
  - vm_compute. discriminate.
  - vm_compute. reflexivity.
Defined.

Lemma signature_preimage_unique_witness :
  signature_preimage (FamilyEncrypted sample_els2) =
  signature_preimage (FamilyEncrypted (resigned sample_els2 (replicate 64 6))).
Proof.
  apply signature_preimage_unique.
  - constructor; try reflexivity; try (vm_compute; split; (discriminate || reflexivity)).
    constructor; try reflexivity. vm_compute. split; (discriminate || reflexivity).
  - constructor; try reflexivity; try (vm_compute; split; (discriminate || reflexivity)).
    constructor; try reflexivity. vm_compute. split; (discriminate || reflexivity).
  - reflexivity.
Defined.
