(* ===== verification/I2np.v ===== *)
(** * I2NP messages

    Models [src/crates/i2pr-proto/src/i2np/]: the message registry and headers
    ([header.rs]), the typed bodies ([netdb.rs], [tunnel.rs], [deferred.rs],
    [delivery.rs]) and their codecs and framing ([message.rs]).

    SHA-256 is the parameter [sha256].  The LeaseSet family, whose codecs are
    other components, enters through the interface [WireRecord]: what a record
    codec offers to a DatabaseStore, and the law it promises. *)
From S2P Require Import Prelude Utf8 Codec Common Identity LeaseSet LeaseSet2 EncryptedLeaseSet.

Definition MAX_I2NP_PAYLOAD_SIZE : Z := 62708.
Definition STANDARD_HEADER_SIZE : Z := 16.
Definition SHORT_SSU_HEADER_SIZE : Z := 5.
Definition SHORT_TRANSPORT_HEADER_SIZE : Z := 9.
Definition MAX_DATABASE_LOOKUP_EXCLUDED_PEERS : Z := 512.
Definition MAX_DATABASE_SEARCH_REPLY_PEERS : Z := 16.
Definition MAX_BUILD_RECORDS : Z := 8.
Definition VARIABLE_BUILD_RECORD_SIZE : Z := 528.
Definition SHORT_BUILD_RECORD_SIZE : Z := 218.
Definition TUNNEL_DATA_PAYLOAD_SIZE : Z := 1024.

(** ** Message types and headers *)
Inductive MessageType :=
  | TDatabaseStore | TDatabaseLookup | TDatabaseSearchReply | TDeliveryStatus | TGarlic
  | TTunnelData | TTunnelGateway | TData | TTunnelBuild | TTunnelBuildReply
  | TVariableTunnelBuild | TVariableTunnelBuildReply | TShortTunnelBuild
  | TOutboundTunnelBuildReply | TTunnelTest
  | TUnknown (code : Z).
#[export] Instance MessageType_eq_dec : EqDecision MessageType.
Proof. solve_decision. Defined.

Definition from_code (code : Z) : MessageType :=
  match code with
  | 1 => TDatabaseStore
  | 2 => TDatabaseLookup
  | 3 => TDatabaseSearchReply
  | 10 => TDeliveryStatus
  | 11 => TGarlic
  | 18 => TTunnelData
  | 19 => TTunnelGateway
  | 20 => TData
  | 21 => TTunnelBuild
  | 22 => TTunnelBuildReply
  | 23 => TVariableTunnelBuild
  | 24 => TVariableTunnelBuildReply
  | 25 => TShortTunnelBuild
  | 26 => TOutboundTunnelBuildReply
  | 231 => TTunnelTest
  | other => TUnknown other
  end.

Definition type_code (t : MessageType) : Z :=
  match t with
  | TDatabaseStore => 1
  | TDatabaseLookup => 2
  | TDatabaseSearchReply => 3
  | TDeliveryStatus => 10
  | TGarlic => 11
  | TTunnelData => 18
  | TTunnelGateway => 19
  | TData => 20
  | TTunnelBuild => 21
  | TTunnelBuildReply => 22
  | TVariableTunnelBuild => 23
  | TVariableTunnelBuildReply => 24
  | TShortTunnelBuild => 25
  | TOutboundTunnelBuildReply => 26
  | TTunnelTest => 231
  | TUnknown code => code
  end.

Definition supported (t : MessageType) : bool :=
  match t with TUnknown _ => false | _ => true end.

Inductive I2npHeader :=
  | Standard (message_type : MessageType) (message_id expiration : Z)
  | ShortSsu (message_type : MessageType) (expiration_seconds : Z)
  | ShortTransport (message_type : MessageType) (message_id expiration_seconds : Z).

Definition header_type (h : I2npHeader) : MessageType :=
  match h with Standard t _ _ | ShortSsu t _ | ShortTransport t _ _ => t end.

Definition header_message_id (h : I2npHeader) : option Z :=
  match h with
  | Standard _ id _ | ShortTransport _ id _ => Some id
  | ShortSsu _ _ => None
  end.

(** ** Deferred values *)
Definition deferred_new (bs : bytes) (max : Z) : result CodecError bytes :=
  if zlen bs >? max
  then Err (LengthExceeded 0 (zlen bs) max "deferred I2NP payload")
  else Ok bs.

Record DeferredBuildRecords := mkRecords {
  count : Z;
  record_size : Z;
  records : bytes;
}.

Definition build_records_new (cnt size : Z) (recs : bytes)
    : result CodecError DeferredBuildRecords :=
  match checked_mul usize_max cnt size with
  | None => Err (ArithmeticOverflow 0 "tunnel-build record length")
  | Some expected =>
      if (cnt =? 0) || (cnt >? MAX_BUILD_RECORDS) || negb (zlen recs =? expected)
      then Err (InvalidFieldValue 0 "tunnel-build record count or length")
      else
      match try_from u16_max size with
      | None => Err (InvalidFieldValue 0 "tunnel-build record size")
      | Some size => Ok (mkRecords cnt size recs)
      end
  end.

(** ** NetDB bodies *)
Inductive DatabaseStoreType :=
  | SRouterInfo | SLeaseSet | SLeaseSet2 | SEncryptedLeaseSet | SMetaLeaseSet.

Definition store_from_code (code : Z) : result CodecError DatabaseStoreType :=
  match code with
  | 0 => Ok SRouterInfo
  | 1 => Ok SLeaseSet
  | 3 => Ok SLeaseSet2
  | 5 => Ok SEncryptedLeaseSet
  | 7 => Ok SMetaLeaseSet
  | other => Err (Unsupported 0 "DatabaseStore type" other)
  end.

Definition store_code (t : DatabaseStoreType) : Z :=
  match t with
  | SRouterInfo => 0
  | SLeaseSet => 1
  | SLeaseSet2 => 3
  | SEncryptedLeaseSet => 5
  | SMetaLeaseSet => 7
  end.

Inductive ReplyEncryption :=
  | NoEncryption
  | ElGamal (reply_key : bytes) (reply_tags : list bytes)
  | Ecies (reply_key : bytes) (reply_tags : list bytes).

Record DatabaseLookupMessage := mkLookup {
  lookup_key : bytes;
  lookup_from : bytes;
  delivery_flag : bool;
  lookup_reply_tunnel_id : option Z;
  lookup_type : Z;
  excluded_peers : list bytes;
  reply_encryption : ReplyEncryption;
}.

Record DatabaseSearchReplyMessage := mkSearchReply {
  search_key : bytes;
  peer_hashes : list bytes;
  search_from : bytes;
}.

Record DeliveryStatusMessage := mkDeliveryStatus {
  status_message_id : Z;
  timestamp : Z;
}.

Record TunnelDataMessage := mkTunnelData { data_tunnel_id : Z; tunnel_data : bytes }.
Record TunnelTestMessage := mkTunnelTest { msg_id : Z; test_timestamp : Z }.

Section i2np.
Context (sha256 : bytes → bytes).
Context (LeaseSet LeaseSet2 MetaLeaseSet EncryptedLeaseSet2 : Type).
Context `{WireRecord LeaseSet, WireRecord LeaseSet2, WireRecord MetaLeaseSet,
  WireRecord EncryptedLeaseSet2}.

Inductive DatabaseStoreData :=
  | RouterInfoCompressed (payload : bytes)
  | LeaseSetData (value : LeaseSet)
  | LeaseSet2Data (value : LeaseSet2)
  | MetaLeaseSetData (value : MetaLeaseSet)
  | EncryptedLeaseSetData (value : EncryptedLeaseSet2)
  | DeferredData (store_type : DatabaseStoreType) (payload : bytes).

Record DatabaseStoreMessage := mkStore {
  store_key : bytes;
  reply_token : Z;
  reply_tunnel_id : option Z;
  reply_gateway : option bytes;
  store_data : DatabaseStoreData;
}.

Inductive I2npBody :=
  | DatabaseStore (value : DatabaseStoreMessage)
  | DatabaseLookup (value : DatabaseLookupMessage)
  | DatabaseSearchReply (value : DatabaseSearchReplyMessage)
  | DeliveryStatus (value : DeliveryStatusMessage)
  | Garlic (payload : bytes)
  | TunnelData (value : TunnelDataMessage)
  | TunnelGateway (tunnel_id : Z) (message : I2npMessage)
  | Data (payload : bytes)
  | TunnelBuild (value : DeferredBuildRecords)
  | TunnelBuildReply (value : DeferredBuildRecords)
  | VariableTunnelBuild (value : DeferredBuildRecords)
  | VariableTunnelBuildReply (value : DeferredBuildRecords)
  | ShortTunnelBuild (value : DeferredBuildRecords)
  | OutboundTunnelBuildReply (value : DeferredBuildRecords)
  | TunnelTest (value : TunnelTestMessage)
with I2npMessage :=
  | mkMessage (header : I2npHeader) (body : I2npBody).

Definition message_type (b : I2npBody) : MessageType :=
  match b with
  | DatabaseStore _ => TDatabaseStore
  | DatabaseLookup _ => TDatabaseLookup
  | DatabaseSearchReply _ => TDatabaseSearchReply
  | DeliveryStatus _ => TDeliveryStatus
  | Garlic _ => TGarlic
  | TunnelData _ => TTunnelData
  | TunnelGateway _ _ => TTunnelGateway
  | Data _ => TData
  | TunnelBuild _ => TTunnelBuild
  | TunnelBuildReply _ => TTunnelBuildReply
  | VariableTunnelBuild _ => TVariableTunnelBuild
  | VariableTunnelBuildReply _ => TVariableTunnelBuildReply
  | ShortTunnelBuild _ => TShortTunnelBuild
  | OutboundTunnelBuildReply _ => TOutboundTunnelBuildReply
  | TunnelTest _ => TTunnelTest
  end.

(** ** Encoding *)
Definition checksum (payload : bytes) : Z := hd 0 (sha256 payload).

Definition write_hash (h : bytes) : encoder () := Buffer.write_raw h.

Fixpoint write_all (l : list bytes) : encoder () :=
  match l with
  | [] => mret ()
  | bs :: l' => _ ← Buffer.write_raw bs; write_all l'
  end.

Definition store_type_of (d : DatabaseStoreData) : DatabaseStoreType :=
  match d with
  | RouterInfoCompressed _ => SRouterInfo
  | LeaseSetData _ => SLeaseSet
  | LeaseSet2Data _ => SLeaseSet2
  | MetaLeaseSetData _ => SMetaLeaseSet
  | EncryptedLeaseSetData _ => SEncryptedLeaseSet
  | DeferredData t _ => t
  end.

Definition write_store_data (d : DatabaseStoreData) : encoder () :=
  match d with
  | RouterInfoCompressed payload =>
      match try_from u16_max (zlen payload) with
      | None => fail_at (λ b, LengthExceeded (Buffer.len b) (zlen payload) u16_max
                              "DatabaseStore RouterInfo")
      | Some len => _ ← Buffer.write_u16 len; Buffer.write_raw payload
      end
  | LeaseSetData value =>
      bs ← lift (record_encode value MAX_I2NP_PAYLOAD_SIZE); Buffer.write_raw bs
  | LeaseSet2Data value =>
      bs ← lift (record_encode value MAX_I2NP_PAYLOAD_SIZE); Buffer.write_raw bs
  | MetaLeaseSetData value =>
      bs ← lift (record_encode value MAX_I2NP_PAYLOAD_SIZE); Buffer.write_raw bs
  | EncryptedLeaseSetData value =>
      bs ← lift (record_encode value MAX_I2NP_PAYLOAD_SIZE); Buffer.write_raw bs
  | DeferredData _ payload => Buffer.write_raw payload
  end.

Definition is_none {A} (o : option A) : bool := match o with None => true | Some _ => false end.

Definition encode_database_store (v : DatabaseStoreMessage) : encoder () :=
  if negb (Bool.eqb (reply_token v =? 0)
             (is_none (reply_tunnel_id v) && is_none (reply_gateway v)))
  then fail (InvalidFieldValue 32 "DatabaseStore reply fields")
  else
  _ ← write_hash (store_key v);
  _ ← Buffer.write_u8 (store_code (store_type_of (store_data v)));
  _ ← Buffer.write_u32 (reply_token v);
  _ ← (if reply_token v =? 0 then mret ()
       else
         _ ← match reply_tunnel_id v with
             | None => fail_at (λ b, InvalidFieldValue (Buffer.len b)
                                       "DatabaseStore reply tunnel ID")
             | Some id => Buffer.write_u32 id
             end;
         match reply_gateway v with
         | None => fail_at (λ b, InvalidFieldValue (Buffer.len b) "DatabaseStore reply gateway")
         | Some gw => write_hash gw
         end);
  write_store_data (store_data v).

Definition validate_tag_count (cnt off : Z) : result CodecError () :=
  if (1 <=? cnt) && (cnt <=? 32) then Ok ()
  else Err (InvalidFieldValue off "DatabaseLookup reply tag count").

Definition lookup_flags (v : DatabaseLookupMessage) : Z :=
  let encryption_flag := match reply_encryption v with ElGamal _ _ => true | _ => false end in
  let ecies_flag := match reply_encryption v with Ecies _ _ => true | _ => false end in
  Z.lor (Z.lor (Z.lor (Z.b2z (delivery_flag v)) (Z.shiftl (Z.b2z encryption_flag) 1))
           (Z.shiftl (lookup_type v) 2))
    (Z.shiftl (Z.b2z ecies_flag) 4).

Definition write_tags (key : bytes) (tags : list bytes) : encoder () :=
  off ← gets Buffer.len;
  _ ← lift (validate_tag_count (zlen tags) off);
  _ ← Buffer.write_raw key;
  _ ← Buffer.write_u8 (zlen tags mod 256);
  write_all tags.

Definition encode_database_lookup (v : DatabaseLookupMessage) : encoder () :=
  if zlen (excluded_peers v) >? MAX_DATABASE_LOOKUP_EXCLUDED_PEERS
  then fail_at (λ b, LengthExceeded (Buffer.len b) (zlen (excluded_peers v))
                       MAX_DATABASE_LOOKUP_EXCLUDED_PEERS "DatabaseLookup excluded peer count")
  else if lookup_type v >? 3
  then fail_at (λ b, InvalidFieldValue (Buffer.len b) "DatabaseLookup lookup type")
  else if delivery_flag v
          && negb (match lookup_reply_tunnel_id v with Some id => negb (id =? 0) | None => false end)
  then fail_at (λ b, InvalidFieldValue (Buffer.len b) "DatabaseLookup reply tunnel ID")
  else if negb (delivery_flag v) && negb (is_none (lookup_reply_tunnel_id v))
  then fail_at (λ b, InvalidFieldValue (Buffer.len b) "DatabaseLookup delivery fields")
  else
  _ ← write_hash (lookup_key v);
  _ ← write_hash (lookup_from v);
  _ ← Buffer.write_u8 (lookup_flags v);
  _ ← (if delivery_flag v then
         match lookup_reply_tunnel_id v with
         | None => fail_at (λ b, InvalidFieldValue (Buffer.len b) "DatabaseLookup reply tunnel ID")
         | Some id => Buffer.write_u32 id
         end
       else mret ());
  _ ← match try_from u16_max (zlen (excluded_peers v)) with
      | None => fail_at (λ b, InvalidFieldValue (Buffer.len b)
                                "DatabaseLookup excluded peer count")
      | Some cnt => Buffer.write_u16 cnt
      end;
  _ ← write_all (excluded_peers v);
  match reply_encryption v with
  | NoEncryption => mret ()
  | ElGamal key tags => write_tags key tags
  | Ecies key tags => write_tags key tags
  end.

Definition encode_database_search_reply (v : DatabaseSearchReplyMessage) : encoder () :=
  if zlen (peer_hashes v) >? MAX_DATABASE_SEARCH_REPLY_PEERS
  then fail_at (λ b, LengthExceeded (Buffer.len b) (zlen (peer_hashes v))
                       MAX_DATABASE_SEARCH_REPLY_PEERS "DatabaseSearchReply peer count")
  else
  _ ← write_hash (search_key v);
  _ ← Buffer.write_u8 (zlen (peer_hashes v) mod 256);
  _ ← write_all (peer_hashes v);
  write_hash (search_from v).

Definition encode_fixed_records (v : DeferredBuildRecords) (expected_count expected_size : Z)
    : encoder () :=
  if negb (count v =? expected_count) || negb (record_size v =? expected_size)
  then fail_at (λ b, InvalidFieldValue (Buffer.len b) "fixed tunnel-build record shape")
  else Buffer.write_raw (records v).

Definition encode_variable_records (v : DeferredBuildRecords) (expected_size : Z) : encoder () :=
  if negb (record_size v =? expected_size) || (count v =? 0) || (count v >? MAX_BUILD_RECORDS)
  then fail_at (λ b, InvalidFieldValue (Buffer.len b) "variable tunnel-build record shape")
  else
  _ ← Buffer.write_u8 (count v);
  Buffer.write_raw (records v).

Definition write_body_length (len : Z) : encoder () :=
  match try_from u16_max len with
  | None => fail_at (λ b, LengthExceeded (Buffer.len b) len u16_max "I2NP payload length")
  | Some len => Buffer.write_u16 len
  end.

Definition write_opaque (payload : bytes) : encoder () :=
  match try_from u32_max (zlen payload) with
  | None => fail_at (λ b, InvalidFieldValue (Buffer.len b) "opaque I2NP payload length")
  | Some len => _ ← Buffer.write_u32 len; Buffer.write_raw payload
  end.

(** [encode_message] on the encoded body. *)
Definition frame_message (max header_size : Z) (write_header : bytes → encoder ())
    (body : result CodecError bytes) : result CodecError bytes :=
  body_bytes ← body;
  if zlen body_bytes >? MAX_I2NP_PAYLOAD_SIZE
  then Err (LengthExceeded header_size (zlen body_bytes) MAX_I2NP_PAYLOAD_SIZE "I2NP payload")
  else
  match checked_add usize_max header_size (zlen body_bytes) with
  | None => Err (ArithmeticOverflow header_size "I2NP message length")
  | Some total =>
      if total >? max then Err (LengthExceeded 0 total max "I2NP message")
      else encode_to_vec max (write_header body_bytes)
  end.

Fixpoint encode_into (b : I2npBody) : encoder () :=
  match b with
  | DatabaseStore v => encode_database_store v
  | DatabaseLookup v => encode_database_lookup v
  | DatabaseSearchReply v => encode_database_search_reply v
  | DeliveryStatus v =>
      _ ← Buffer.write_u32 (status_message_id v); Buffer.write_u64 (timestamp v)
  | Garlic payload => write_opaque payload
  | Data payload => write_opaque payload
  | TunnelData v =>
      if data_tunnel_id v =? 0 then fail (InvalidFieldValue 0 "TunnelData tunnel ID")
      else _ ← Buffer.write_u32 (data_tunnel_id v); Buffer.write_raw (tunnel_data v)
  | TunnelGateway tunnel_id message =>
      if tunnel_id =? 0 then fail (InvalidFieldValue 0 "TunnelGateway tunnel ID")
      else
      nested ← lift (encode_standard_to_vec message MAX_I2NP_PAYLOAD_SIZE);
      match try_from u16_max (zlen nested) with
      | None => fail (LengthExceeded 4 (zlen nested) u16_max "TunnelGateway nested message")
      | Some len =>
          _ ← Buffer.write_u32 tunnel_id;
          _ ← Buffer.write_u16 len;
          Buffer.write_raw nested
      end
  | TunnelBuild v | TunnelBuildReply v => encode_fixed_records v 8 VARIABLE_BUILD_RECORD_SIZE
  | VariableTunnelBuild v | VariableTunnelBuildReply v =>
      encode_variable_records v VARIABLE_BUILD_RECORD_SIZE
  | ShortTunnelBuild v | OutboundTunnelBuildReply v =>
      encode_variable_records v SHORT_BUILD_RECORD_SIZE
  | TunnelTest v => _ ← Buffer.write_u32 (msg_id v); Buffer.write_u64 (test_timestamp v)
  end
with encode_standard_to_vec (m : I2npMessage) (max : Z) : result CodecError bytes :=
  match m with
  | mkMessage (Standard mt id expiration) body =>
      if bool_decide (mt ≠ message_type body)
      then Err (InvalidFieldValue 0 "I2NP message type/body")
      else
      frame_message max STANDARD_HEADER_SIZE
        (λ body_bytes,
           _ ← Buffer.write_u8 (type_code mt);
           _ ← Buffer.write_u32 id;
           _ ← Buffer.write_u64 expiration;
           _ ← write_body_length (zlen body_bytes);
           _ ← Buffer.write_u8 (checksum body_bytes);
           Buffer.write_raw body_bytes)
        (encode_to_vec MAX_I2NP_PAYLOAD_SIZE (encode_into body))
  | mkMessage _ _ => Err (InvalidFieldValue 0 "I2NP header variant")
  end.

Definition body_to_vec (b : I2npBody) (max : Z) : result CodecError bytes :=
  encode_to_vec max (encode_into b).

Definition encode_short_ssu_to_vec (m : I2npMessage) (max : Z) : result CodecError bytes :=
  match m with
  | mkMessage (ShortSsu mt expiration_seconds) body =>
      if bool_decide (mt ≠ message_type body)
      then Err (InvalidFieldValue 0 "I2NP message type/body")
      else
      frame_message max SHORT_SSU_HEADER_SIZE
        (λ body_bytes,
           _ ← Buffer.write_u8 (type_code mt);
           _ ← Buffer.write_u32 expiration_seconds;
           Buffer.write_raw body_bytes)
        (body_to_vec body MAX_I2NP_PAYLOAD_SIZE)
  | mkMessage _ _ => Err (InvalidFieldValue 0 "I2NP header variant")
  end.

Definition encode_short_transport_to_vec (m : I2npMessage) (max : Z)
    : result CodecError bytes :=
  match m with
  | mkMessage (ShortTransport mt id expiration_seconds) body =>
      if bool_decide (mt ≠ message_type body)
      then Err (InvalidFieldValue 0 "I2NP message type/body")
      else
      frame_message max SHORT_TRANSPORT_HEADER_SIZE
        (λ body_bytes,
           _ ← Buffer.write_u8 (type_code mt);
           _ ← Buffer.write_u32 id;
           _ ← Buffer.write_u32 expiration_seconds;
           Buffer.write_raw body_bytes)
        (match body with
         | Data payload | Garlic payload => Ok payload
         | _ => body_to_vec body MAX_I2NP_PAYLOAD_SIZE
         end)
  | mkMessage _ _ => Err (InvalidFieldValue 0 "I2NP header variant")
  end.

Definition validate_body_size (b : I2npBody) : result CodecError () :=
  encoded ← body_to_vec b MAX_I2NP_PAYLOAD_SIZE;
  if zlen encoded >? MAX_I2NP_PAYLOAD_SIZE
  then Err (LengthExceeded 0 (zlen encoded) MAX_I2NP_PAYLOAD_SIZE "I2NP payload")
  else Ok ().

Definition new_standard (id expiration : Z) (b : I2npBody) : result CodecError I2npMessage :=
  _ ← validate_body_size b; Ok (mkMessage (Standard (message_type b) id expiration) b).
Definition new_short_ssu (expiration_seconds : Z) (b : I2npBody)
    : result CodecError I2npMessage :=
  _ ← validate_body_size b; Ok (mkMessage (ShortSsu (message_type b) expiration_seconds) b).
Definition new_short_transport (id expiration_seconds : Z) (b : I2npBody)
    : result CodecError I2npMessage :=
  _ ← validate_body_size b;
  Ok (mkMessage (ShortTransport (message_type b) id expiration_seconds) b).

(** ** Decoding *)
Definition read_hash : decoder bytes := Cursor.take 32.

Fixpoint read_many (n : nat) (size : Z) : decoder (list bytes) :=
  match n with
  | O => mret []
  | S n' => bs ← Cursor.take size; rest ← read_many n' size; mret (bs :: rest)
  end.

Definition take_rest : decoder bytes := rem ← gets Cursor.remaining; Cursor.take rem.

Definition read_nonzero_u32 (context : string) : decoder Z :=
  value ← Cursor.read_u32;
  if value =? 0 then fail_at (λ c, InvalidFieldValue (saturating_sub (offset c) 4) context)
  else mret value.

Definition read_message_type : decoder MessageType :=
  code ← Cursor.read_u8;
  let mt := from_code code in
  if negb (supported mt)
  then fail_at (λ c, Unsupported (saturating_sub (offset c) 1) "I2NP message type" code)
  else mret mt.

Definition decode_length_prefixed_u32 (max : Z) (context : string) : decoder bytes :=
  v ← Cursor.read_u32;
  match try_from usize_max v with
  | None => fail_at (λ c, ArithmeticOverflow (saturating_sub (offset c) 4)
                            "I2NP payload length conversion")
  | Some len =>
      if len >? max
      then fail_at (λ c, LengthExceeded (saturating_sub (offset c) 4) len max context)
      else bs ← Cursor.take len; lift (deferred_new bs max)
  end.

Definition decode_fixed_records (cnt size : Z) : decoder DeferredBuildRecords :=
  if (cnt =? 0) || (cnt >? MAX_BUILD_RECORDS)
  then fail_at (λ c, InvalidFieldValue (offset c) "tunnel-build record count")
  else
  match checked_mul usize_max cnt size with
  | None => fail_at (λ c, ArithmeticOverflow (offset c) "tunnel-build records")
  | Some len => bs ← Cursor.take len; lift (build_records_new cnt size bs)
  end.

Definition decode_variable_records (size : Z) : decoder DeferredBuildRecords :=
  cnt ← Cursor.read_u8; decode_fixed_records cnt size.

Definition read_store_data (t : DatabaseStoreType) (max : Z) : decoder DatabaseStoreData :=
  match t with
  | SRouterInfo =>
      len ← Cursor.read_u16;
      bs ← Cursor.take len;
      payload ← lift (deferred_new bs (Z.min max MAX_I2NP_PAYLOAD_SIZE));
      mret (RouterInfoCompressed payload)
  | SLeaseSet =>
      bs ← take_rest; v ← lift (record_decode bs (zlen bs)); mret (LeaseSetData v)
  | SLeaseSet2 =>
      bs ← take_rest; v ← lift (record_decode bs (Z.min (zlen bs) max)); mret (LeaseSet2Data v)
  | SMetaLeaseSet =>
      bs ← take_rest; v ← lift (record_decode bs (zlen bs)); mret (MetaLeaseSetData v)
  | SEncryptedLeaseSet =>
      bs ← take_rest;
      v ← lift (record_decode bs (Z.min (zlen bs) max)); mret (EncryptedLeaseSetData v)
  end.

Definition decode_database_store (max : Z) : decoder DatabaseStoreMessage :=
  key ← read_hash;
  code ← Cursor.read_u8;
  if negb (Z.land code 0xf0 =? 0)
  then fail_at (λ c, InvalidFieldValue (saturating_sub (offset c) 1)
                       "DatabaseStore reserved type bits")
  else
  store_type ← lift (store_from_code code);
  token ← Cursor.read_u32;
  '(tunnel_id, gateway) ←
    (if token =? 0 then mret (None, None)
     else id ← Cursor.read_u32; gw ← read_hash; mret (Some id, Some gw));
  data ← read_store_data store_type max;
  mret (mkStore key token tunnel_id gateway data).

Definition read_tags (size : Z) : decoder (list bytes) :=
  cnt ← Cursor.read_u8;
  off ← gets offset;
  _ ← lift (validate_tag_count cnt (saturating_sub off 1));
  read_many (Z.to_nat cnt) size.

Definition decode_database_lookup : decoder DatabaseLookupMessage :=
  key ← read_hash;
  from ← read_hash;
  flags ← Cursor.read_u8;
  if negb (Z.land flags 0xe0 =? 0)
  then fail_at (λ c, InvalidFieldValue (saturating_sub (offset c) 1)
                       "DatabaseLookup reserved flags")
  else
  let delivery := negb (Z.land flags 1 =? 0) in
  let encryption := negb (Z.land flags 2 =? 0) in
  let ltype := Z.land (Z.shiftr flags 2) 3 in
  let ecies := negb (Z.land flags 0x10 =? 0) in
  tunnel_id ← (if delivery
               then id ← read_nonzero_u32 "DatabaseLookup reply tunnel ID"; mret (Some id)
               else mret None);
  excluded_count ← Cursor.read_u16;
  if excluded_count >? MAX_DATABASE_LOOKUP_EXCLUDED_PEERS
  then fail_at (λ c, PolicyRejected (saturating_sub (offset c) 2)
                       "DatabaseLookup excluded peer count")
  else
  excluded ← read_many (Z.to_nat excluded_count) 32;
  encryption_fields ←
    match encryption, ecies with
    | false, false => mret NoEncryption
    | true, false => key ← Cursor.take 32; tags ← read_tags 32; mret (ElGamal key tags)
    | false, true => key ← Cursor.take 32; tags ← read_tags 8; mret (Ecies key tags)
    | true, true => fail_at (λ c, Unsupported (saturating_sub (offset c) 1)
                                    "DatabaseLookup ECIES key-derivation mode" 1)
    end;
  mret (mkLookup key from delivery tunnel_id ltype excluded encryption_fields).

Definition decode_database_search_reply : decoder DatabaseSearchReplyMessage :=
  key ← read_hash;
  cnt ← Cursor.read_u8;
  if cnt >? MAX_DATABASE_SEARCH_REPLY_PEERS
  then fail_at (λ c, PolicyRejected (saturating_sub (offset c) 1)
                       "DatabaseSearchReply peer count")
  else
  peers ← read_many (Z.to_nat cnt) 32;
  from ← read_hash;
  mret (mkSearchReply key peers from).

(** The closure of [decode_body]; [nested] decodes the message inside a
    TunnelGateway. *)
Definition decode_body_into (nested : bytes → Z → result CodecError I2npMessage)
    (mt : MessageType) (max : Z) : decoder I2npBody :=
  match mt with
  | TDatabaseStore => v ← decode_database_store max; mret (DatabaseStore v)
  | TDatabaseLookup => v ← decode_database_lookup; mret (DatabaseLookup v)
  | TDatabaseSearchReply => v ← decode_database_search_reply; mret (DatabaseSearchReply v)
  | TDeliveryStatus =>
      id ← Cursor.read_u32; ts ← Cursor.read_u64; mret (DeliveryStatus (mkDeliveryStatus id ts))
  | TGarlic => p ← decode_length_prefixed_u32 max "Garlic payload"; mret (Garlic p)
  | TTunnelData =>
      id ← read_nonzero_u32 "TunnelData tunnel ID";
      bs ← Cursor.take TUNNEL_DATA_PAYLOAD_SIZE;
      mret (TunnelData (mkTunnelData id bs))
  | TTunnelGateway =>
      id ← read_nonzero_u32 "TunnelGateway tunnel ID";
      len ← Cursor.read_u16;
      bs ← Cursor.take len;
      m ← lift (nested bs (zlen bs));
      mret (TunnelGateway id m)
  | TData => p ← decode_length_prefixed_u32 max "Data payload"; mret (Data p)
  | TTunnelBuild => v ← decode_fixed_records 8 VARIABLE_BUILD_RECORD_SIZE; mret (TunnelBuild v)
  | TTunnelBuildReply =>
      v ← decode_fixed_records 8 VARIABLE_BUILD_RECORD_SIZE; mret (TunnelBuildReply v)
  | TVariableTunnelBuild =>
      v ← decode_variable_records VARIABLE_BUILD_RECORD_SIZE; mret (VariableTunnelBuild v)
  | TVariableTunnelBuildReply =>
      v ← decode_variable_records VARIABLE_BUILD_RECORD_SIZE; mret (VariableTunnelBuildReply v)
  | TShortTunnelBuild =>
      v ← decode_variable_records SHORT_BUILD_RECORD_SIZE; mret (ShortTunnelBuild v)
  | TOutboundTunnelBuildReply =>
      v ← decode_variable_records SHORT_BUILD_RECORD_SIZE; mret (OutboundTunnelBuildReply v)
  | TTunnelTest =>
      id ← Cursor.read_u32; ts ← Cursor.read_u64; mret (TunnelTest (mkTunnelTest id ts))
  | TUnknown code => fail (Unsupported 0 "I2NP message type" code)
  end.

Definition decode_body (nested : bytes → Z → result CodecError I2npMessage)
    (mt : MessageType) (inp : bytes) (max : Z) : result CodecError I2npBody :=
  if zlen inp >? MAX_I2NP_PAYLOAD_SIZE
  then Err (LengthExceeded 0 (zlen inp) MAX_I2NP_PAYLOAD_SIZE "I2NP payload")
  else
  let body_maximum := Z.min max MAX_I2NP_PAYLOAD_SIZE in
  decode_exact inp body_maximum (decode_body_into nested mt body_maximum).

Definition verify_checksum (payload : bytes) (expected off : Z) : result CodecError () :=
  if negb (checksum payload =? expected)
  then Err (InvalidFieldValue off "I2NP payload checksum") else Ok ().

(** The standard header and the payload behind it. *)
Definition read_standard : decoder (MessageType * Z * Z * Z * bytes) :=
  mt ← read_message_type;
  id ← Cursor.read_u32;
  expiration ← Cursor.read_u64;
  payload_length ← Cursor.read_u16;
  if payload_length >? MAX_I2NP_PAYLOAD_SIZE
  then fail_at (λ c, LengthExceeded (saturating_sub (offset c) 2) payload_length
                       MAX_I2NP_PAYLOAD_SIZE "I2NP payload")
  else
  sum ← Cursor.read_u8;
  payload ← Cursor.take payload_length;
  mret (mt, id, expiration, sum, payload).

(** [I2npMessage::decode_standard].  A nested message is shorter than the one
    around it, so the number of input bytes bounds the recursion; [fuel] is
    never used up ([decode_standard_fuel_irrelevant]). *)
Fixpoint decode_standard_fuel (fuel : nat) (inp : bytes) (max : Z)
    : result CodecError I2npMessage :=
  match fuel with
  | O => Err (ArithmeticOverflow 0 "nesting")
  | S fuel' =>
      '(mt, id, expiration, sum, payload) ← decode_exact inp max read_standard;
      _ ← verify_checksum payload sum (STANDARD_HEADER_SIZE - 1);
      body ← decode_body (decode_standard_fuel fuel') mt payload max;
      Ok (mkMessage (Standard mt id expiration) body)
  end.

Definition decode_standard (inp : bytes) (max : Z) : result CodecError I2npMessage :=
  decode_standard_fuel (S (length inp)) inp max.

Definition decode_short_ssu (inp : bytes) (max : Z) : result CodecError I2npMessage :=
  '(mt, expiration_seconds, payload) ←
    decode_exact inp max
      (mt ← read_message_type; e ← Cursor.read_u32; p ← take_rest; mret (mt, e, p));
  body ← decode_body decode_standard mt payload max;
  Ok (mkMessage (ShortSsu mt expiration_seconds) body).

Definition decode_short_transport (inp : bytes) (max : Z) : result CodecError I2npMessage :=
  '(mt, id, expiration_seconds, payload) ←
    decode_exact inp max
      (mt ← read_message_type; id ← Cursor.read_u32; e ← Cursor.read_u32; p ← take_rest;
       mret (mt, id, e, p));
  body ← match mt with
         | TData => p ← deferred_new payload max; Ok (Data p)
         | TGarlic =>
             let body_maximum := Z.min max MAX_I2NP_PAYLOAD_SIZE in
             p ← decode_exact payload body_maximum
                   (decode_length_prefixed_u32 body_maximum "Garlic payload");
             Ok (Garlic p)
         | _ => decode_body decode_standard mt payload max
         end;
  Ok (mkMessage (ShortTransport mt id expiration_seconds) body).

(** ** The wire format

    [body_bytes] and [message_bytes] are the format the specification gives,
    written down once; [body_ok] and [message_ok] are the messages it covers. *)
Definition store_data_bytes (d : DatabaseStoreData) : bytes :=
  let of_record (r : result CodecError bytes) := match r with Ok w => w | Err _ => [] end in
  match d with
  | RouterInfoCompressed p => to_be 2 (zlen p) ++ p
  | LeaseSetData v => of_record (record_encode v MAX_I2NP_PAYLOAD_SIZE)
  | LeaseSet2Data v => of_record (record_encode v MAX_I2NP_PAYLOAD_SIZE)
  | MetaLeaseSetData v => of_record (record_encode v MAX_I2NP_PAYLOAD_SIZE)
  | EncryptedLeaseSetData v => of_record (record_encode v MAX_I2NP_PAYLOAD_SIZE)
  | DeferredData _ p => p
  end.

Definition store_data_ok (d : DatabaseStoreData) : Prop :=
  match d with
  | RouterInfoCompressed p => zlen p ≤ u16_max
  | LeaseSetData v => record_ok v ∧ is_ok (record_encode v MAX_I2NP_PAYLOAD_SIZE) = true
  | LeaseSet2Data v => record_ok v ∧ is_ok (record_encode v MAX_I2NP_PAYLOAD_SIZE) = true
  | MetaLeaseSetData v => record_ok v ∧ is_ok (record_encode v MAX_I2NP_PAYLOAD_SIZE) = true
  | EncryptedLeaseSetData v => record_ok v ∧ is_ok (record_encode v MAX_I2NP_PAYLOAD_SIZE) = true
  | DeferredData _ _ => False
  end.

Definition hash_ok (h : bytes) : Prop := zlen h = 32.

Definition store_bytes (v : DatabaseStoreMessage) : bytes :=
  store_key v ++ [store_code (store_type_of (store_data v))] ++ to_be 4 (reply_token v) ++
  (if reply_token v =? 0 then []
   else to_be 4 (default 0 (reply_tunnel_id v)) ++ default [] (reply_gateway v)) ++
  store_data_bytes (store_data v).

Definition store_ok (v : DatabaseStoreMessage) : Prop :=
  hash_ok (store_key v) ∧ fits 32 (reply_token v) ∧ store_data_ok (store_data v) ∧
  (if decide (reply_token v = 0) then reply_tunnel_id v = None ∧ reply_gateway v = None
   else ∃ id gw, reply_tunnel_id v = Some id ∧ fits 32 id ∧
                 reply_gateway v = Some gw ∧ hash_ok gw).

Definition encryption_bytes (e : ReplyEncryption) : bytes :=
  match e with
  | NoEncryption => []
  | ElGamal key tags | Ecies key tags => key ++ [zlen tags] ++ concat tags
  end.

Definition encryption_ok (e : ReplyEncryption) : Prop :=
  match e with
  | NoEncryption => True
  | ElGamal key tags =>
      hash_ok key ∧ 1 ≤ zlen tags ≤ 32 ∧ Forall (λ t, zlen t = 32) tags
  | Ecies key tags => hash_ok key ∧ 1 ≤ zlen tags ≤ 32 ∧ Forall (λ t, zlen t = 8) tags
  end.

Definition lookup_bytes (v : DatabaseLookupMessage) : bytes :=
  lookup_key v ++ lookup_from v ++ [lookup_flags v] ++
  (if delivery_flag v then to_be 4 (default 0 (lookup_reply_tunnel_id v)) else []) ++
  to_be 2 (zlen (excluded_peers v)) ++ concat (excluded_peers v) ++
  encryption_bytes (reply_encryption v).

Definition lookup_ok (v : DatabaseLookupMessage) : Prop :=
  hash_ok (lookup_key v) ∧ hash_ok (lookup_from v) ∧ 0 ≤ lookup_type v ≤ 3 ∧
  (if delivery_flag v then ∃ id, lookup_reply_tunnel_id v = Some id ∧ fits 32 id ∧ id ≠ 0
   else lookup_reply_tunnel_id v = None) ∧
  zlen (excluded_peers v) ≤ MAX_DATABASE_LOOKUP_EXCLUDED_PEERS ∧
  Forall hash_ok (excluded_peers v) ∧ encryption_ok (reply_encryption v).

Definition search_reply_bytes (v : DatabaseSearchReplyMessage) : bytes :=
  search_key v ++ [zlen (peer_hashes v)] ++ concat (peer_hashes v) ++ search_from v.

Definition search_reply_ok (v : DatabaseSearchReplyMessage) : Prop :=
  hash_ok (search_key v) ∧ hash_ok (search_from v) ∧ Forall hash_ok (peer_hashes v) ∧
  zlen (peer_hashes v) ≤ MAX_DATABASE_SEARCH_REPLY_PEERS.

Definition records_ok (size : Z) (v : DeferredBuildRecords) : Prop :=
  1 ≤ count v ≤ MAX_BUILD_RECORDS ∧ record_size v = size ∧ zlen (records v) = count v * size.

Fixpoint body_bytes (b : I2npBody) : bytes :=
  match b with
  | DatabaseStore v => store_bytes v
  | DatabaseLookup v => lookup_bytes v
  | DatabaseSearchReply v => search_reply_bytes v
  | DeliveryStatus v => to_be 4 (status_message_id v) ++ to_be 8 (timestamp v)
  | Garlic p | Data p => to_be 4 (zlen p) ++ p
  | TunnelData v => to_be 4 (data_tunnel_id v) ++ tunnel_data v
  | TunnelGateway id m => to_be 4 id ++ to_be 2 (zlen (message_bytes m)) ++ message_bytes m
  | TunnelBuild v | TunnelBuildReply v => records v
  | VariableTunnelBuild v | VariableTunnelBuildReply v | ShortTunnelBuild v
  | OutboundTunnelBuildReply v => [count v] ++ records v
  | TunnelTest v => to_be 4 (msg_id v) ++ to_be 8 (test_timestamp v)
  end
with message_bytes (m : I2npMessage) : bytes :=
  match m with
  | mkMessage h b =>
      let bs := body_bytes b in
      match h with
      | Standard mt id expiration =>
          [type_code mt] ++ to_be 4 id ++ to_be 8 expiration ++ to_be 2 (zlen bs) ++
          [checksum bs] ++ bs
      | ShortSsu mt expiration => [type_code mt] ++ to_be 4 expiration ++ bs
      | ShortTransport mt id expiration =>
          [type_code mt] ++ to_be 4 id ++ to_be 4 expiration ++ bs
      end
  end.

Fixpoint body_ok (b : I2npBody) : Prop :=
  match b with
  | DatabaseStore v => store_ok v
  | DatabaseLookup v => lookup_ok v
  | DatabaseSearchReply v => search_reply_ok v
  | DeliveryStatus v => fits 32 (status_message_id v) ∧ fits 64 (timestamp v)
  | Garlic p | Data p => True
  | TunnelData v =>
      fits 32 (data_tunnel_id v) ∧ data_tunnel_id v ≠ 0 ∧
      zlen (tunnel_data v) = TUNNEL_DATA_PAYLOAD_SIZE
  | TunnelGateway id m =>
      fits 32 id ∧ id ≠ 0 ∧ standard_ok m ∧ zlen (message_bytes m) ≤ MAX_I2NP_PAYLOAD_SIZE
  | TunnelBuild v | TunnelBuildReply v =>
      records_ok VARIABLE_BUILD_RECORD_SIZE v ∧ count v = 8
  | VariableTunnelBuild v | VariableTunnelBuildReply v =>
      records_ok VARIABLE_BUILD_RECORD_SIZE v
  | ShortTunnelBuild v | OutboundTunnelBuildReply v => records_ok SHORT_BUILD_RECORD_SIZE v
  | TunnelTest v => fits 32 (msg_id v) ∧ fits 64 (test_timestamp v)
  end
with standard_ok (m : I2npMessage) : Prop :=
  match m with
  | mkMessage (Standard mt id expiration) b =>
      mt = message_type b ∧ fits 32 id ∧ fits 64 expiration ∧ body_ok b ∧
      zlen (body_bytes b) ≤ MAX_I2NP_PAYLOAD_SIZE
  | mkMessage _ _ => False
  end.

(** Only a TunnelGateway contains another message. *)
Lemma body_nested_ind (P : I2npBody → Prop) :
  (∀ b, (∀ id h b', b = TunnelGateway id (mkMessage h b') → P b') → P b) → ∀ b, P b.
Proof.
  intros HP. fix IH 1. intros b. apply HP. destruct b as [| | | | | |id [h0 b0]| | | | | | | | ];
    try (intros ? ? ? [=]; fail).
  pose proof (IH b0) as IHb. intros id' h' b' Heq. injection Heq as <- <- <-. exact IHb.
Qed.

(** ** What the encoders write *)
Lemma writes_all l : writes (write_all l) (concat l).
Proof.
  induction l as [|bs l IH]; cbn [write_all concat]; [apply writes_ret|].
  apply writes_bind; [apply writes_write|done].
Qed.

Lemma writes_lift_bind {A} (r : result CodecError A) (k : A → encoder ()) a w :
  r = Ok a → writes (k a) w → writes (x ← lift r; k x) w.
Proof. intros ->. intros [Hok Hinv]. constructor; [apply Hok|apply Hinv]. Qed.

Lemma writes_gets_bind {A} (f : EncodeBuffer → A) (k : A → encoder ()) w :
  (∀ a, writes (k a) w) → writes (x ← gets f; k x) w.
Proof.
  intros Hk. constructor; intros b; unfold mbind, M_bind, gets; apply Hk.
Qed.

Lemma writes_store_data d :
  store_data_ok d → writes (write_store_data d) (store_data_bytes d).
Proof.
  destruct d as [p|v|v|v|v|t p]; cbn [store_data_ok write_store_data store_data_bytes];
    [|intros [_ Hv]; destruct (record_encode v _) as [w|] eqn:E; [|done];
      eapply writes_lift_bind; [done|apply writes_write]..|done].
  intros Hp. unfold try_from. destruct (_ <=? _) eqn:E; breflect; [|lia].
  apply writes_bind; apply writes_write.
Qed.

Lemma writes_store v : store_ok v → writes (encode_database_store v) (store_bytes v).
Proof.
  intros (Hk & Ht & Hd & Hr). unfold encode_database_store, store_bytes.
  destruct (reply_token v =? 0) eqn:E; breflect.
  - rewrite decide_True in Hr by done. destruct Hr as [-> ->]. cbn [is_none andb Bool.eqb negb].
    repeat (apply writes_bind; [apply writes_write|]).
    apply writes_bind; [apply writes_ret|]. by apply writes_store_data.
  - rewrite decide_False in Hr by done. destruct Hr as (tid & gw & -> & Hid & -> & Hgw).
    cbn [is_none andb Bool.eqb negb default from_option id].
    repeat (apply writes_bind; [apply writes_write|]).
    apply writes_bind; [|by apply writes_store_data].
    apply writes_bind; apply writes_write.
Qed.

Lemma writes_tags key tags :
  1 ≤ zlen tags ≤ 32 → writes (write_tags key tags) (key ++ [zlen tags] ++ concat tags).
Proof.
  intros Ht. unfold write_tags. apply writes_gets_bind. intros off.
  eapply (writes_lift_bind _ _ ()).
  { unfold validate_tag_count. destruct (_ && _) eqn:E; [done|].
    apply andb_false_iff in E as [E|E]; breflect; lia. }
  rewrite Z.mod_small by lia.
  repeat (apply writes_bind; [apply writes_write|]). apply writes_all.
Qed.

Lemma writes_encryption e :
  encryption_ok e →
  writes (match e with
          | NoEncryption => mret ()
          | ElGamal key tags => write_tags key tags
          | Ecies key tags => write_tags key tags
          end) (encryption_bytes e).
Proof.
  destruct e; cbn [encryption_ok encryption_bytes]; intros Hok;
    [apply writes_ret|apply writes_tags; tauto..].
Qed.

Lemma writes_lookup v : lookup_ok v → writes (encode_database_lookup v) (lookup_bytes v).
Proof.
  intros (Hk & Hf & Hlt & Hdel & Hn & Hex & Henc). unfold encode_database_lookup, lookup_bytes.
  destruct (_ >? MAX_DATABASE_LOOKUP_EXCLUDED_PEERS) eqn:E1; breflect; [lia|].
  destruct (_ >? 3) eqn:E2; breflect; [lia|].
  unfold MAX_DATABASE_LOOKUP_EXCLUDED_PEERS, try_from, u16_max in *.
  destruct (_ <=? 65535) eqn:E3; breflect; [|lia].
  destruct (delivery_flag v).
  - destruct Hdel as (tid & -> & Hid & Hid0). destruct (tid =? 0) eqn:E4; breflect; [done|].
    cbn [negb andb is_none default from_option id].
    do 3 (apply writes_bind; [apply writes_write|]).
    do 2 (apply writes_bind; [apply writes_write|]).
    apply writes_bind; [apply writes_all|]. by apply writes_encryption.
  - rewrite Hdel. cbn [negb andb is_none].
    do 3 (apply writes_bind; [apply writes_write|]).
    apply writes_bind; [apply writes_ret|]. apply writes_bind; [apply writes_write|].
    apply writes_bind; [apply writes_all|]. by apply writes_encryption.
Qed.

Lemma writes_search_reply v :
  search_reply_ok v → writes (encode_database_search_reply v) (search_reply_bytes v).
Proof.
  intros (Hk & Hf & Hp & Hn). unfold encode_database_search_reply, search_reply_bytes.
  unfold MAX_DATABASE_SEARCH_REPLY_PEERS in *. pose proof (zlen_nonneg (peer_hashes v)).
  destruct (_ >? _) eqn:E; breflect; [lia|]. rewrite Z.mod_small by lia.
  do 2 (apply writes_bind; [apply writes_write|]).
  apply writes_bind; [apply writes_all|apply writes_write].
Qed.

Lemma writes_opaque p : zlen p ≤ u32_max → writes (write_opaque p) (to_be 4 (zlen p) ++ p).
Proof.
  intros Hp. unfold write_opaque, try_from. destruct (_ <=? _) eqn:E; breflect; [|lia].
  apply writes_bind; apply writes_write.
Qed.

Lemma writes_fixed size v :
  records_ok size v → count v = 8 → writes (encode_fixed_records v 8 size) (records v).
Proof.
  intros (Hc & Hs & _) H8. unfold encode_fixed_records. rewrite Hs, H8, !Z.eqb_refl.
  apply writes_write.
Qed.

Lemma writes_variable size v :
  records_ok size v → writes (encode_variable_records v size) ([count v] ++ records v).
Proof.
  intros (Hc & Hs & _). unfold encode_variable_records. rewrite Hs, Z.eqb_refl.
  destruct (count v =? 0) eqn:E1; breflect; [lia|].
  destruct (_ >? _) eqn:E2; breflect; [lia|]. apply writes_bind; apply writes_write.
Qed.

(** A framed message is its header and its body. *)
Lemma frame_message_writes max hsize hdr wh bs :
  writes (hdr bs) wh → zlen wh = hsize + zlen bs → 0 ≤ hsize →
  zlen bs ≤ MAX_I2NP_PAYLOAD_SIZE → hsize + zlen bs ≤ max ≤ usize_max →
  frame_message max hsize hdr (Ok bs) = Ok wh.
Proof.
  intros Hw Hlen Hh Hbs Hmax. unfold frame_message. cbn [mbind result_bind].
  destruct (_ >? MAX_I2NP_PAYLOAD_SIZE) eqn:E1; breflect; [lia|].
  destruct (checked_add _ _ _) as [t|] eqn:E2; [|apply checked_add_None in E2; lia].
  apply checked_add_Some in E2 as [-> _]. destruct (_ >? max) eqn:E3; breflect; [lia|].
  apply encode_to_vec_writes; [done|lia|lia].
Qed.

Lemma writes_body_length len : len ≤ u16_max → writes (write_body_length len) (to_be 2 len).
Proof.
  intros Hl. unfold write_body_length, try_from.
  destruct (_ <=? _) eqn:E; breflect; [apply writes_write|lia].
Qed.

Lemma encode_standard_from_body mt id expiration b max :
  mt = message_type b → writes (encode_into b) (body_bytes b) →
  zlen (body_bytes b) ≤ MAX_I2NP_PAYLOAD_SIZE →
  zlen (message_bytes (mkMessage (Standard mt id expiration) b)) ≤ max ≤ usize_max →
  encode_standard_to_vec (mkMessage (Standard mt id expiration) b) max =
  Ok (message_bytes (mkMessage (Standard mt id expiration) b)).
Proof.
  intros Hmt Hb Hlen Hmax. cbn [encode_standard_to_vec].
  rewrite bool_decide_eq_false_2 by (intros Hn; by apply Hn).
  rewrite (encode_to_vec_writes (encode_into b) (body_bytes b)); [|done|done|done].
  cbn [message_bytes] in *. rewrite !zlen_app, !zlen_to_be in Hmax.
  unfold MAX_I2NP_PAYLOAD_SIZE in *.
  apply frame_message_writes.
  - do 3 (apply writes_bind; [apply writes_write|]).
    apply writes_bind; [apply writes_body_length; unfold u16_max; lia|].
    apply writes_bind; apply writes_write.
  - rewrite !zlen_app, !zlen_to_be, !zlen_one. unfold STANDARD_HEADER_SIZE. lia.
  - done.
  - done.
  - rewrite !zlen_one in Hmax. unfold STANDARD_HEADER_SIZE. lia.
Qed.

(** Every well-formed body is encoded as the format says. *)
Lemma writes_body b :
  body_ok b → zlen (body_bytes b) ≤ MAX_I2NP_PAYLOAD_SIZE → writes (encode_into b) (body_bytes b).
Proof.
  induction b as [b IH] using body_nested_ind. intros Hok Hlen.
  destruct b as [v|v|v|v|p|v|tid [h b']|p|v|v|v|v|v|v|v]; cbn [body_ok encode_into body_bytes] in *.
  - by apply writes_store.
  - by apply writes_lookup.
  - by apply writes_search_reply.
  - apply writes_bind; apply writes_write.
  - apply writes_opaque. rewrite zlen_app, zlen_to_be in Hlen.
    unfold MAX_I2NP_PAYLOAD_SIZE, u32_max in *. lia.
  - destruct Hok as (_ & Hne & _). destruct (_ =? 0) eqn:E; breflect; [done|].
    apply writes_bind; apply writes_write.
  - destruct Hok as (Hf & Hne & Hstd & Hmax). destruct (_ =? 0) eqn:E; breflect; [done|].
    destruct h as [mt id0 ex| |]; try done. destruct Hstd as (Hmt & _ & _ & Hb & Hbl).
    eapply writes_lift_bind.
    { apply encode_standard_from_body; [done| |done|split; [exact Hmax|done]].
      by eapply IH. }
    cbv beta. unfold try_from, MAX_I2NP_PAYLOAD_SIZE in *.
    destruct (_ <=? u16_max) eqn:E2; breflect; [|unfold u16_max in *; lia].
    do 2 (apply writes_bind; [apply writes_write|]). apply writes_write.
  - apply writes_opaque. rewrite zlen_app, zlen_to_be in Hlen.
    unfold MAX_I2NP_PAYLOAD_SIZE, u32_max in *. lia.
  - apply writes_fixed; tauto.
  - apply writes_fixed; tauto.
  - by apply writes_variable.
  - by apply writes_variable.
  - by apply writes_variable.
  - by apply writes_variable.
  - apply writes_bind; apply writes_write.
Qed.

(** ** What the decoders read *)
Lemma reads_many l size :
  Forall (λ bs, zlen bs = size) l → reads (read_many (length l) size) (concat l) l.
Proof.
  induction l as [|bs l IH]; intros Hall; cbn [read_many concat length]; [apply reads_ret|].
  apply Forall_cons in Hall as [Hb Hall].
  eapply reads_bind; [by apply reads_take_n|]. eapply reads_map; [by apply IH|apply reads_ret].
Qed.

Lemma reads_many_n n l size :
  n = zlen l → Forall (λ bs, zlen bs = size) l →
  reads (read_many (Z.to_nat n) size) (concat l) l.
Proof.
  intros -> Hall. replace (Z.to_nat (zlen l)) with (length l) by (unfold zlen; lia).
  by apply reads_many.
Qed.

Lemma reads_hash h : hash_ok h → reads read_hash h h.
Proof. apply reads_take_n. Qed.

Lemma reads_nonzero v context :
  fits 32 v → v ≠ 0 → reads (read_nonzero_u32 context) (to_be 4 v) v.
Proof.
  intros Hv Hne. eapply reads_map; [by apply reads_u32|].
  destruct (v =? 0) eqn:E; breflect; [done|apply reads_ret].
Qed.

Lemma reads_message_type mt :
  supported mt = true → reads read_message_type [type_code mt] mt.
Proof.
  intros Hs. eapply reads_map; [apply reads_u8|]. destruct mt; try done; apply reads_ret.
Qed.

Lemma deferred_new_fits bs max : zlen bs ≤ max → deferred_new bs max = Ok bs.
Proof. intros Hb. unfold deferred_new. destruct (_ >? _) eqn:E; breflect; [lia|done]. Qed.

Lemma reads_opaque p max context :
  zlen p ≤ max → zlen p ≤ u32_max →
  reads (decode_length_prefixed_u32 max context) (to_be 4 (zlen p) ++ p) p.
Proof.
  intros Hm Hp. pose proof (zlen_nonneg p). unfold u32_max in Hp.
  eapply reads_bind; [apply reads_u32; unfold fits; lia|].
  unfold try_from. destruct (_ <=? _) eqn:E; breflect; [|unfold usize_max in E; lia].
  destruct (_ >? _) eqn:E2; breflect; [lia|].
  eapply reads_map; [apply reads_take|]. by apply reads_lift, deferred_new_fits.
Qed.

Lemma reads_fixed cnt size v :
  records_ok size v → cnt = count v → 0 ≤ size ≤ u16_max →
  reads (decode_fixed_records cnt size) (records v) v.
Proof.
  intros (Hc & Hs & Hl) -> Hsz. unfold decode_fixed_records, MAX_BUILD_RECORDS in *.
  destruct (_ || _) eqn:E.
  { apply orb_true_iff in E as [E|E]; breflect; lia. }
  unfold u16_max in Hsz.
  destruct (checked_mul _ _ _) as [len|] eqn:Em.
  2: { unfold checked_mul in Em. destruct (_ <=? _) eqn:E2; [done|]. unfold usize_max in *.
       breflect. nia. }
  pose proof Em as Em'. unfold checked_mul in Em'.
  destruct (_ <=? usize_max) eqn:E2 in Em'; [|done]. injection Em' as <-.
  eapply reads_map; [by apply reads_take_n|]. apply reads_lift. unfold build_records_new.
  rewrite Em. unfold MAX_BUILD_RECORDS. rewrite E, Hl, Z.eqb_refl. cbn [orb negb].
  unfold try_from, u16_max. destruct (size <=? _) eqn:E3; breflect; [|lia].
  rewrite <- Hs. by destruct v.
Qed.

Lemma reads_variable size v :
  records_ok size v → 0 ≤ size ≤ u16_max →
  reads (decode_variable_records size) ([count v] ++ records v) v.
Proof. intros Hv Hs. eapply reads_bind; [apply reads_u8|by apply reads_fixed]. Qed.

Context `{!WireRecordLaws LeaseSet, !WireRecordLaws LeaseSet2, !WireRecordLaws MetaLeaseSet,
  !WireRecordLaws EncryptedLeaseSet2}.

(** A record that takes the rest of the body. *)
Lemma reads_record {A B} `{WireRecordLaws A} (v : A) w max (lim : bytes → Z) (K : A → B) :
  record_ok v → record_encode v max = Ok w → lim w = zlen w →
  reads_end (bs ← take_rest; x ← lift (record_decode bs (lim bs)); mret (K x)) w (K v).
Proof.
  intros Hv Henc Hlim. eapply reads_end_map; [apply reads_end_rest|]. rewrite Hlim.
  eapply reads_map; [by eapply reads_lift, record_roundtrip|apply reads_ret].
Qed.

Lemma reads_store_data d max :
  store_data_ok d → zlen (store_data_bytes d) ≤ max → max ≤ MAX_I2NP_PAYLOAD_SIZE →
  reads_end (read_store_data (store_type_of d) max) (store_data_bytes d) d.
Proof.
  destruct d as [p|v|v|v|v|t p];
    cbn [store_data_ok store_type_of read_store_data store_data_bytes]; intros Hok Hlen Hmax.
  - apply reads_reads_end. rewrite zlen_app, zlen_to_be in Hlen. pose proof (zlen_nonneg p).
    eapply reads_bind; [apply reads_u16; unfold fits, u16_max in *; lia|].
    eapply reads_map; [apply reads_take|].
    eapply reads_map; [apply reads_lift, deferred_new_fits; lia|apply reads_ret].
  - destruct Hok as [Hv Henc]. destruct (record_encode v _) as [w|] eqn:E; [|done].
    by apply (reads_record v w MAX_I2NP_PAYLOAD_SIZE zlen).
  - destruct Hok as [Hv Henc]. destruct (record_encode v _) as [w|] eqn:E; [|done].
    apply (reads_record v w MAX_I2NP_PAYLOAD_SIZE (λ bs, Z.min (zlen bs) max)); [done|done|lia].
  - destruct Hok as [Hv Henc]. destruct (record_encode v _) as [w|] eqn:E; [|done].
    by apply (reads_record v w MAX_I2NP_PAYLOAD_SIZE zlen).
  - destruct Hok as [Hv Henc]. destruct (record_encode v _) as [w|] eqn:E; [|done].
    apply (reads_record v w MAX_I2NP_PAYLOAD_SIZE (λ bs, Z.min (zlen bs) max)); [done|done|lia].
  - done.
Qed.

Lemma store_code_spec t :
  Z.land (store_code t) 0xf0 = 0 ∧ store_from_code (store_code t) = Ok t.
Proof. by destruct t. Qed.

Lemma reads_store v max :
  store_ok v → zlen (store_bytes v) ≤ max → max ≤ MAX_I2NP_PAYLOAD_SIZE →
  reads_end (decode_database_store max) (store_bytes v) v.
Proof.
  intros (Hk & Ht & Hd & Hr) Hlen Hmax. unfold store_bytes in *.
  rewrite !zlen_app in Hlen.
  assert (Hsd : zlen (store_data_bytes (store_data v)) ≤ max).
  { pose proof (zlen_nonneg (store_key v)). rewrite zlen_to_be, zlen_one in Hlen.
    pose proof (zlen_nonneg (if reply_token v =? 0 then []
      else to_be 4 (default 0 (reply_tunnel_id v)) ++ default [] (reply_gateway v))). lia. }
  eapply reads_end_bind; [by apply reads_hash|]. eapply reads_end_bind; [apply reads_u8|].
  destruct (store_code_spec (store_type_of (store_data v))) as [H240 Hcode].
  rewrite H240. cbn [Z.eqb negb].
  rewrite <- (app_nil_l (to_be 4 _ ++ _)).
  eapply reads_end_bind; [by apply reads_lift|]. eapply reads_end_bind; [by apply reads_u32|].
  eapply (reads_end_bind _ _ _ _ (reply_tunnel_id v, reply_gateway v)).
  - destruct (reply_token v =? 0) eqn:E; breflect.
    + rewrite decide_True in Hr by done. destruct Hr as [-> ->]. apply reads_ret.
    + rewrite decide_False in Hr by done. destruct Hr as (tid & gw & -> & Hid & -> & Hgw).
      eapply reads_bind; [by apply reads_u32|].
      eapply reads_map; [by apply reads_hash|apply reads_ret].
  - eapply reads_end_map; [by apply reads_store_data|]. destruct v. apply reads_ret.
Qed.

Lemma lookup_flags_spec v :
  0 ≤ lookup_type v ≤ 3 →
  let f := lookup_flags v in
  Z.land f 0xe0 = 0 ∧ negb (Z.land f 1 =? 0) = delivery_flag v ∧
  negb (Z.land f 2 =? 0) = match reply_encryption v with ElGamal _ _ => true | _ => false end ∧
  Z.land (Z.shiftr f 2) 3 = lookup_type v ∧
  negb (Z.land f 0x10 =? 0) = match reply_encryption v with Ecies _ _ => true | _ => false end.
Proof.
  intros Ht. unfold lookup_flags.
  assert (lookup_type v = 0 ∨ lookup_type v = 1 ∨ lookup_type v = 2 ∨ lookup_type v = 3)
    as [-> |[-> |[-> | ->]]] by lia;
    destruct (delivery_flag v), (reply_encryption v); vm_compute; done.
Qed.

Lemma reads_tags size tags :
  1 ≤ zlen tags ≤ 32 → Forall (λ t, zlen t = size) tags →
  reads (read_tags size) ([zlen tags] ++ concat tags) tags.
Proof.
  intros Hn Hall. eapply reads_bind; [apply reads_u8|]. apply reads_gets_offset. intros off.
  rewrite <- (app_nil_l (concat tags)). eapply (reads_bind _ _ _ _ ()).
  - apply reads_lift. unfold validate_tag_count. destruct (_ && _) eqn:E; [done|].
    apply andb_false_iff in E as [E|E]; breflect; lia.
  - by apply reads_many_n.
Qed.

Lemma reads_encryption e :
  encryption_ok e →
  reads (match match e with ElGamal _ _ => true | _ => false end,
               match e with Ecies _ _ => true | _ => false end with
         | false, false => mret NoEncryption
         | true, false => key ← Cursor.take 32; tags ← read_tags 32; mret (ElGamal key tags)
         | false, true => key ← Cursor.take 32; tags ← read_tags 8; mret (Ecies key tags)
         | true, true => fail_at (λ c, Unsupported (saturating_sub (offset c) 1)
                                         "DatabaseLookup ECIES key-derivation mode" 1)
         end) (encryption_bytes e) e.
Proof.
  destruct e as [|key tags|key tags]; cbn [encryption_ok encryption_bytes].
  - intros _. apply reads_ret.
  - intros (Hk & Hn & Ht). eapply reads_bind; [by apply reads_take_n|].
    eapply reads_map; [by apply reads_tags|apply reads_ret].
  - intros (Hk & Hn & Ht). eapply reads_bind; [by apply reads_take_n|].
    eapply reads_map; [by apply reads_tags|apply reads_ret].
Qed.

Lemma reads_lookup v : lookup_ok v → reads decode_database_lookup (lookup_bytes v) v.
Proof.
  intros (Hk & Hf & Hlt & Hdel & Hn & Hex & Henc). unfold decode_database_lookup, lookup_bytes.
  destruct (lookup_flags_spec v Hlt) as (F1 & F2 & F3 & F4 & F5).
  unfold MAX_DATABASE_LOOKUP_EXCLUDED_PEERS in *. pose proof (zlen_nonneg (excluded_peers v)).
  eapply reads_bind; [by apply reads_hash|]. eapply reads_bind; [by apply reads_hash|].
  eapply reads_bind; [apply reads_u8|]. rewrite F1, F2, F3, F4, F5. cbn [Z.eqb negb].
  eapply (reads_bind _ _ _ _ (lookup_reply_tunnel_id v)).
  { destruct (delivery_flag v).
    - destruct Hdel as (tid & -> & Hid & Hne).
      eapply reads_map; [by apply reads_nonzero|apply reads_ret].
    - rewrite Hdel. apply reads_ret. }
  eapply reads_bind; [apply reads_u16; unfold fits; lia|].
  destruct (_ >? 512) eqn:E; breflect; [lia|].
  eapply reads_bind; [by apply reads_many_n|].
  eapply reads_map; [by apply reads_encryption|]. destruct v. apply reads_ret.
Qed.

Lemma reads_search_reply v :
  search_reply_ok v → reads decode_database_search_reply (search_reply_bytes v) v.
Proof.
  intros (Hk & Hf & Hp & Hn). unfold decode_database_search_reply, search_reply_bytes.
  eapply reads_bind; [by apply reads_hash|]. eapply reads_bind; [apply reads_u8|].
  destruct (_ >? _) eqn:E; breflect; [lia|].
  eapply reads_bind; [by apply reads_many_n|].
  eapply reads_map; [by apply reads_hash|]. destruct v. apply reads_ret.
Qed.

(** A decoder for nested messages that gets this body's one right. *)
Definition nested_ok (nested : bytes → Z → result CodecError I2npMessage) (b : I2npBody) : Prop :=
  match b with
  | TunnelGateway _ m => nested (message_bytes m) (zlen (message_bytes m)) = Ok m
  | _ => True
  end.

Lemma reads_body nested b max :
  nested_ok nested b → body_ok b → zlen (body_bytes b) ≤ max → max ≤ MAX_I2NP_PAYLOAD_SIZE →
  reads_end (decode_body_into nested (message_type b) max) (body_bytes b) b.
Proof.
  intros Hnest Hok Hlen Hmax. unfold MAX_I2NP_PAYLOAD_SIZE in Hmax.
  assert (Hv : 0 ≤ VARIABLE_BUILD_RECORD_SIZE ≤ u16_max) by done.
  assert (Hs : 0 ≤ SHORT_BUILD_RECORD_SIZE ≤ u16_max) by done.
  destruct b as [v|v|v|v|p|v|tid m|p|v|v|v|v|v|v|v];
    cbn [body_ok decode_body_into message_type body_bytes nested_ok] in *;
    [eapply reads_end_map; [by apply reads_store|apply reads_ret]|apply reads_reads_end..].
  - eapply reads_map; [by apply reads_lookup|apply reads_ret].
  - eapply reads_map; [by apply reads_search_reply|apply reads_ret].
  - eapply reads_bind; [apply reads_u32; tauto|].
    eapply reads_map; [apply reads_u64; tauto|]. destruct v. apply reads_ret.
  - rewrite zlen_app, zlen_to_be in Hlen.
    eapply reads_map; [apply reads_opaque; unfold u32_max; lia|apply reads_ret].
  - eapply reads_bind; [apply reads_nonzero; tauto|].
    eapply reads_map; [apply reads_take_n; tauto|]. destruct v. apply reads_ret.
  - rewrite !zlen_app, !zlen_to_be in Hlen. destruct Hok as (Hf & Hne & _).
    pose proof (zlen_nonneg (message_bytes m)).
    eapply reads_bind; [by apply reads_nonzero|].
    eapply reads_bind; [apply reads_u16; unfold fits; lia|].
    eapply reads_map; [apply reads_take|].
    eapply reads_map; [by apply reads_lift|apply reads_ret].
  - rewrite zlen_app, zlen_to_be in Hlen.
    eapply reads_map; [apply reads_opaque; unfold u32_max; lia|apply reads_ret].
  - destruct Hok as [Hr H8]. eapply reads_map; [by apply reads_fixed|apply reads_ret].
  - destruct Hok as [Hr H8]. eapply reads_map; [by apply reads_fixed|apply reads_ret].
  - eapply reads_map; [by apply reads_variable|apply reads_ret].
  - eapply reads_map; [by apply reads_variable|apply reads_ret].
  - eapply reads_map; [by apply reads_variable|apply reads_ret].
  - eapply reads_map; [by apply reads_variable|apply reads_ret].
  - eapply reads_bind; [apply reads_u32; tauto|].
    eapply reads_map; [apply reads_u64; tauto|]. destruct v. apply reads_ret.
Qed.

Lemma decode_body_ok nested b max :
  nested_ok nested b → body_ok b → zlen (body_bytes b) ≤ MAX_I2NP_PAYLOAD_SIZE →
  zlen (body_bytes b) ≤ max →
  decode_body nested (message_type b) (body_bytes b) max = Ok b.
Proof.
  intros Hn Hok Hlen Hmax. unfold decode_body.
  destruct (_ >? _) eqn:E; breflect; [lia|].
  apply reads_end_decode_exact; [apply reads_body; try done; lia|lia|].
  unfold MAX_I2NP_PAYLOAD_SIZE, usize_max in *. lia.
Qed.

Lemma message_type_supported b : supported (message_type b) = true.
Proof. by destruct b. Qed.

Lemma reads_standard mt id expiration bs :
  supported mt = true → fits 32 id → fits 64 expiration → zlen bs ≤ MAX_I2NP_PAYLOAD_SIZE →
  reads read_standard
    ([type_code mt] ++ to_be 4 id ++ to_be 8 expiration ++ to_be 2 (zlen bs) ++
     [checksum bs] ++ bs) (mt, id, expiration, checksum bs, bs).
Proof.
  intros Hs Hid Hex Hbs. pose proof (zlen_nonneg bs). unfold MAX_I2NP_PAYLOAD_SIZE in *.
  eapply reads_bind; [by apply reads_message_type|]. eapply reads_bind; [by apply reads_u32|].
  eapply reads_bind; [by apply reads_u64|].
  eapply reads_bind; [apply reads_u16; unfold fits; lia|].
  unfold MAX_I2NP_PAYLOAD_SIZE. destruct (_ >? _) eqn:E; breflect; [lia|].
  eapply reads_bind; [apply reads_u8|]. eapply reads_map; [apply reads_take|apply reads_ret].
Qed.

(** The standard decoder inverts the format, for any fuel above the length. *)
Lemma decode_standard_bytes fuel m max :
  standard_ok m → (length (message_bytes m) < fuel)%nat → zlen (message_bytes m) ≤ max →
  decode_standard_fuel fuel (message_bytes m) max = Ok m.
Proof.
  revert m max. induction fuel as [|fuel IH]; intros m max Hok Hfuel Hmax; [lia|].
  destruct m as [[mt id0 ex| |] b]; try done. destruct Hok as (-> & Hid & Hex & Hb & Hbl).
  assert (Hm : zlen (message_bytes (mkMessage (Standard (message_type b) id0 ex) b)) =
    16 + zlen (body_bytes b)).
  { cbn [message_bytes]. rewrite !zlen_app, !zlen_to_be, !zlen_one. lia. }
  cbn [decode_standard_fuel].
  pose proof (reads_standard (message_type b) id0 ex (body_bytes b)
    (message_type_supported b) Hid Hex Hbl) as Hrs.
  apply reads_decode_exact with (max := max) in Hrs; [|done|].
  2: { unfold MAX_I2NP_PAYLOAD_SIZE, usize_max in *. cbn [message_bytes] in Hm. lia. }
  cbn [message_bytes]. rewrite Hrs. cbn [mbind result_bind].
  unfold verify_checksum. rewrite Z.eqb_refl. cbn [negb mbind result_bind].
  rewrite decode_body_ok; [done| |done|done|lia].
  destruct b as [| | | | | |tid m| | | | | | | | ]; try done. cbn [nested_ok body_ok] in *.
  destruct Hb as (_ & _ & Hst & _). apply IH; [done| |lia].
  cbn [body_bytes] in Hm. unfold zlen in Hm. rewrite !length_app, !length_to_be in Hm. lia.
Qed.

(** ** Fuel

    The message inside a TunnelGateway is shorter than the message around it. *)
Lemma yields_nonzero inp lo context :
  0 ≤ lo → yields inp lo (read_nonzero_u32 context) (lo + 4) (λ _, True).
Proof.
  intros Hlo. eapply yields_bind; [by apply yields_int|]. intros v _. destruct (v =? 0);
    [apply yields_fail_at|by apply yields_ret].
Qed.

Lemma yields_message_type inp lo :
  0 ≤ lo → yields inp lo read_message_type (lo + 1) (λ _, True).
Proof.
  intros Hlo. eapply yields_bind; [by apply yields_int|]. intros v _.
  cbv zeta. destruct (supported _); cbn [negb]; [by apply yields_ret|apply yields_fail_at].
Qed.

Lemma read_standard_payload inp max mt id0 ex sum payload :
  decode_exact inp max read_standard = Ok (mt, id0, ex, sum, payload) →
  (length payload < length inp)%nat.
Proof.
  intros (c' & E)%decode_exact_Ok.
  assert (Hr : returns inp 0 read_standard (λ x, zlen x.2 ≤ zlen inp - 16)).
  { eapply returns_bind; [by apply yields_message_type|intros mt1 _].
    do 3 (eapply returns_bind; [by apply yields_int|intros ? _]).
    destruct (_ >? _); [intros ? ? ? _ [=]|].
    eapply returns_bind; [by apply yields_int|intros s1 _].
    eapply returns_bind; [by apply yields_take|intros p Hp].
    intros ? ? ? _ [= <- <-]. exact Hp. }
  apply Hr in E; [|apply at_least_start].
  unfold zlen in E. cbn in E. lia.
Qed.

Lemma decode_body_cong n1 n2 mt inp max :
  (∀ bs m, (length bs ≤ length inp)%nat → n1 bs m = n2 bs m) →
  decode_body n1 mt inp max = decode_body n2 mt inp max.
Proof.
  intros Hn. unfold decode_body. destruct (_ >? _); [done|].
  destruct mt; try done. apply decode_exact_agree. cbn [decode_body_into].
  eapply agree_bind; [by apply yields_nonzero|intros id0 _].
  eapply agree_bind; [by apply yields_int|intros len _].
  eapply agree_bind; [by apply yields_take|intros bs Hbs].
  intros c Hc. rewrite Hn; [done|]. unfold zlen in Hbs. lia.
Qed.

(** Any fuel above the input's length gives the same result, so the recursion
    [decode_standard_fuel] is the unbounded recursion of the code. *)
Lemma decode_standard_fuel_irrelevant fuel1 fuel2 inp max :
  (length inp < fuel1)%nat → (length inp < fuel2)%nat →
  decode_standard_fuel fuel1 inp max = decode_standard_fuel fuel2 inp max.
Proof.
  revert fuel2 inp max. induction fuel1 as [|f1 IH]; intros [|f2] inp max H1' H2'; try lia.
  cbn [decode_standard_fuel].
  destruct (decode_exact inp max read_standard) as [[[[[mt id0] ex] sum] payload]|e] eqn:E; [|done].
  apply read_standard_payload in E. cbn [mbind result_bind].
  destruct (verify_checksum _ _ _); [|done]. cbn [mbind result_bind].
  rewrite (decode_body_cong (decode_standard_fuel f1) (decode_standard_fuel f2)); [done|].
  intros bs m Hbs. apply IH; lia.
Qed.

(** ** The short headers *)
Lemma nested_standard_ok b :
  body_ok b → nested_ok decode_standard b.
Proof.
  destruct b as [| | | | | |tid m| | | | | | | | ]; try done. cbn [nested_ok body_ok].
  intros (_ & _ & Hst & _). apply decode_standard_bytes; [done|lia|done].
Qed.

(** A short SSU message is its header and its body. *)
Lemma encode_short_ssu_bytes e b max :
  let m := mkMessage (ShortSsu (message_type b) e) b in
  body_ok b → zlen (body_bytes b) ≤ MAX_I2NP_PAYLOAD_SIZE →
  zlen (message_bytes m) ≤ max ≤ usize_max →
  encode_short_ssu_to_vec m max = Ok (message_bytes m).
Proof.
  intros m Hb Hl Hmax. subst m. cbn [encode_short_ssu_to_vec message_bytes] in *.
  rewrite bool_decide_eq_false_2 by (intros Hn; by apply Hn).
  rewrite !zlen_app, !zlen_to_be, zlen_one in Hmax.
  unfold body_to_vec.
  rewrite (encode_to_vec_writes (encode_into b) (body_bytes b)); [|by apply writes_body|done|done].
  apply frame_message_writes; [|rewrite !zlen_app, !zlen_to_be, zlen_one| |done|];
    unfold SHORT_SSU_HEADER_SIZE; [|lia..].
  do 2 (apply writes_bind; [apply writes_write|]). apply writes_write.
Qed.

(** In the short transport form opaque payloads travel unframed. *)
Definition transport_body (b : I2npBody) : bytes :=
  match b with Data p | Garlic p => p | _ => body_bytes b end.

Definition transport_bytes (id expiration : Z) (b : I2npBody) : bytes :=
  [type_code (message_type b)] ++ to_be 4 id ++ to_be 4 expiration ++ transport_body b.

Lemma encode_short_transport_bytes id e b max :
  body_ok b → zlen (transport_body b) ≤ MAX_I2NP_PAYLOAD_SIZE →
  zlen (transport_bytes id e b) ≤ max ≤ usize_max →
  encode_short_transport_to_vec (mkMessage (ShortTransport (message_type b) id e) b) max =
  Ok (transport_bytes id e b).
Proof.
  intros Hb Hl Hmax. unfold transport_bytes in *. cbn [encode_short_transport_to_vec] in *.
  rewrite bool_decide_eq_false_2 by (intros Hn; by apply Hn).
  rewrite !zlen_app, !zlen_to_be, zlen_one in Hmax.
  assert (Hbody : match b with
                  | Data payload | Garlic payload => Ok payload
                  | _ => body_to_vec b MAX_I2NP_PAYLOAD_SIZE
                  end = Ok (transport_body b)).
  { destruct b; try done; unfold body_to_vec;
      (apply encode_to_vec_writes; [by apply writes_body|done|done]). }
  rewrite Hbody.
  apply frame_message_writes; [|rewrite !zlen_app, !zlen_to_be, zlen_one| |done|];
    unfold SHORT_TRANSPORT_HEADER_SIZE; [|lia..].
  do 3 (apply writes_bind; [apply writes_write|]). apply writes_write.
Qed.

Lemma decode_short_transport_header mt id e p max :
  supported mt = true → fits 32 id → fits 32 e → 9 + zlen p ≤ max ≤ usize_max →
  decode_exact ([type_code mt] ++ to_be 4 id ++ to_be 4 e ++ p) max
    (mt ← read_message_type; id ← Cursor.read_u32; e ← Cursor.read_u32; p ← take_rest;
     mret (mt, id, e, p)) = Ok (mt, id, e, p).
Proof.
  intros Hs Hid He Hmax. apply reads_end_decode_exact;
    [|rewrite !zlen_app, !zlen_to_be, zlen_one; lia..].
  eapply reads_end_bind; [by apply reads_message_type|].
  do 2 (eapply reads_end_bind; [by apply reads_u32|]).
  eapply reads_end_map; [apply reads_end_rest|apply reads_ret].
Qed.

(** A u32-framed payload is shorter than its frame. *)
Lemma decode_length_prefixed_shorter inp max m context q :
  decode_exact inp max (decode_length_prefixed_u32 m context) = Ok q →
  zlen q ≤ zlen inp - 4.
Proof.
  intros (c' & E)%decode_exact_Ok.
  assert (Hr : returns inp 0 (decode_length_prefixed_u32 m context) (λ q, zlen q ≤ zlen inp - 4)).
  { eapply returns_bind; [by apply yields_int|intros v _].
    destruct (try_from _ _); [|intros ? ? ? _ [=]].
    destruct (_ >? _); [intros ? ? ? _ [=]|].
    eapply returns_bind; [by apply yields_take|intros p Hp].
    intros ? ? ? _ [= _ Hq]. unfold deferred_new in Hq. destruct (_ >? _); [done|].
    by apply Ok_inj in Hq as <-. }
  eapply Hr; [apply at_least_start|exact E].
Qed.

(** ** What the decoders accept *)
Lemma consumes_many n size :
  0 ≤ size → consumes (read_many n size)
    (λ l w, length l = n ∧ Forall (λ x, zlen x = size) l ∧ w = concat l).
Proof.
  intros Hs. induction n as [|n IH]; cbn [read_many]; [by apply consumes_ret|].
  eapply consumes_bind; [by apply consumes_take|intros x w _ [-> Hx]].
  eapply consumes_bind; [exact IH|intros l w _ (<- & Hl & ->)].
  apply consumes_ret. rewrite app_nil_r. split; [done|]. split; [by constructor|done].
Qed.

Lemma consumes_hash : consumes read_hash (λ h w, hash_ok h ∧ w = h).
Proof. eapply consumes_impl; [by apply consumes_take|]. by intros h w _ [-> ?]. Qed.

Lemma consumes_nonzero context :
  consumes (read_nonzero_u32 context) (λ v w, w = to_be 4 v ∧ fits 32 v ∧ v ≠ 0).
Proof.
  eapply consumes_bind; [apply consumes_u32|intros v w _ [-> Hv]].
  apply consumes_if; intros E; breflect; [apply consumes_fail_at|].
  apply consumes_ret. by rewrite app_nil_r.
Qed.

Lemma type_code_from_code c : fits 8 c → type_code (from_code c) = c.
Proof. intros _. unfold from_code. repeat case_match; breflect; by subst. Qed.

Lemma consumes_message_type :
  consumes read_message_type (λ mt w, w = [type_code mt] ∧ supported mt = true).
Proof.
  eapply consumes_bind; [apply consumes_u8|intros c w _ [-> Hc]]. cbv zeta.
  apply consumes_if; intros E; [apply consumes_fail_at|]. breflect.
  apply consumes_ret. rewrite type_code_from_code by done. done.
Qed.

Lemma consumes_opaque max context :
  consumes (decode_length_prefixed_u32 max context) (λ p w, w = to_be 4 (zlen p) ++ p).
Proof.
  eapply consumes_bind; [apply consumes_u32|intros v w _ [-> Hv]]. unfold fits in Hv.
  unfold try_from. destruct (v <=? usize_max); [|apply consumes_fail_at].
  apply consumes_if; intros E; [apply consumes_fail_at|].
  eapply consumes_bind; [apply consumes_take; lia|intros bs w _ [-> <-]].
  apply consumes_lift. intros p. unfold deferred_new. destruct (_ >? _); [done|].
  intros <-%Ok_inj. by rewrite app_nil_r.
Qed.

Lemma consumes_fixed cnt size :
  0 ≤ cnt → 0 ≤ size ≤ u16_max →
  consumes (decode_fixed_records cnt size)
    (λ v w, records_ok size v ∧ count v = cnt ∧ w = records v).
Proof.
  intros Hcnt Hsize. unfold decode_fixed_records.
  apply consumes_if; intros E; [apply consumes_fail_at|].
  unfold checked_mul. destruct (_ <=? _) eqn:E2; [|apply consumes_fail_at].
  eapply consumes_bind; [apply consumes_take; lia|intros bs w _ [-> Hl]].
  apply consumes_lift. intros v. unfold build_records_new, checked_mul. rewrite E2.
  rewrite E. cbn [orb]. destruct (negb _) eqn:E3; [done|]. unfold try_from.
  destruct (size <=? u16_max) eqn:E4; [|done]. intros <-%Ok_inj. breflect.
  rewrite app_nil_r. unfold records_ok. cbn. split; [|done]. split_and!; try done; lia.
Qed.

Lemma consumes_variable size :
  0 ≤ size ≤ u16_max →
  consumes (decode_variable_records size)
    (λ v w, records_ok size v ∧ w = [count v] ++ records v).
Proof.
  intros Hs. eapply consumes_bind; [apply consumes_u8|intros c w _ [-> Hc]]. unfold fits in Hc.
  eapply consumes_impl; [apply consumes_fixed; [lia|done]|]. by intros v w _ (Hv & <- & ->).
Qed.

(** The size bound that [decode_body] has checked. *)
Definition small (w : bytes) : Prop := zlen w ≤ MAX_I2NP_PAYLOAD_SIZE.

Lemma small_app w1 w2 : small (w1 ++ w2) → small w1 ∧ small w2.
Proof.
  unfold small. rewrite zlen_app. pose proof (zlen_nonneg w1). pose proof (zlen_nonneg w2). lia.
Qed.

Lemma consumes_record {A B} `{WireRecordLaws A} (lim : bytes → Z) (K : A → B) :
  consumes (bs ← take_rest; x ← lift (record_decode bs (lim bs)); mret (K x))
    (λ b w, small w → ∃ v, b = K v ∧ record_ok v ∧ record_encode v MAX_I2NP_PAYLOAD_SIZE = Ok w).
Proof.
  eapply consumes_bind; [apply consumes_rest|intros bs w Hbs ->].
  eapply (consumes_bind _ _ (λ v w, w = [] ∧ record_decode bs (lim bs) = Ok v)).
  { by apply consumes_lift. }
  intros v w _ [-> Hv]. apply consumes_ret. rewrite !app_nil_r. intros Hs.
  exists v. split; [done|]. eapply record_canonical; [done|exact Hv|by split].
Qed.

Lemma consumes_store_data t max :
  consumes (read_store_data t max)
    (λ d w, small w → store_data_ok d ∧ store_type_of d = t ∧ w = store_data_bytes d).
Proof.
  destruct t; cbn [read_store_data].
  - eapply consumes_bind; [apply consumes_u16|intros len w _ [-> Hlen]]. unfold fits in Hlen.
    eapply consumes_bind; [apply consumes_take; lia|intros bs w _ [-> <-]].
    eapply (consumes_bind _ _ (λ p w, w = [] ∧ p = bs)).
    { apply consumes_lift. intros p. unfold deferred_new. destruct (_ >? _); [done|].
      by intros <-%Ok_inj. }
    intros p w _ [-> ->]. apply consumes_ret. rewrite !app_nil_r. intros _.
    cbn [store_data_ok store_type_of store_data_bytes]. unfold u16_max. split_and!; [lia|done..].
  - eapply consumes_impl; [apply (consumes_record zlen)|].
    intros d w _ Hd (v & -> & Hv & He)%Hd. cbn [store_data_ok store_type_of store_data_bytes].
    by rewrite He.
  - eapply consumes_impl; [apply (consumes_record (λ bs, Z.min (zlen bs) max))|].
    intros d w _ Hd (v & -> & Hv & He)%Hd. cbn [store_data_ok store_type_of store_data_bytes].
    by rewrite He.
  - eapply consumes_impl; [apply (consumes_record (λ bs, Z.min (zlen bs) max))|].
    intros d w _ Hd (v & -> & Hv & He)%Hd. cbn [store_data_ok store_type_of store_data_bytes].
    by rewrite He.
  - eapply consumes_impl; [apply (consumes_record zlen)|].
    intros d w _ Hd (v & -> & Hv & He)%Hd. cbn [store_data_ok store_type_of store_data_bytes].
    by rewrite He.
Qed.

Lemma store_code_from_code c t : store_from_code c = Ok t → store_code t = c.
Proof. unfold store_from_code. repeat case_match; breflect; intros Ht; try done; apply Ok_inj in Ht; by subst. Qed.

Lemma consumes_store max :
  consumes (decode_database_store max) (λ v w, small w → store_ok v ∧ w = store_bytes v).
Proof.
  eapply consumes_bind; [apply consumes_hash|intros key w _ [Hkey ->]].
  eapply consumes_bind; [apply consumes_u8|intros code w _ [-> Hcode]].
  apply consumes_if; intros E; [apply consumes_fail_at|].
  eapply (consumes_bind _ _ (λ t w, w = [] ∧ store_code t = code)).
  { apply consumes_lift. intros t Ht. split; [done|]. by apply store_code_from_code. }
  intros t w _ [-> <-].
  eapply consumes_bind; [apply consumes_u32|intros token w _ [-> Htok]].
  eapply (consumes_bind _ _ (λ x w,
    (token = 0 ∧ x = (None, None) ∧ w = []) ∨
    (token ≠ 0 ∧ ∃ id gw, x = (Some id, Some gw) ∧ fits 32 id ∧ hash_ok gw ∧ w = to_be 4 id ++ gw))).
  { apply consumes_if; intros E0; breflect; [by apply consumes_ret; left|].
    eapply consumes_bind; [apply consumes_u32|intros i w _ [-> Hi]].
    eapply consumes_bind; [apply consumes_hash|intros gw w _ [Hgw ->]].
    apply consumes_ret. right. rewrite app_nil_r. eauto 10. }
  intros [tid gw] w _ Hx.
  eapply consumes_bind; [apply consumes_store_data|intros d w' _ Hd].
  apply consumes_ret. rewrite !app_nil_r.
  intros Hsm. repeat apply small_app in Hsm as [_ Hsm].
  apply Hd in Hsm as (Hdok & <- & ->). unfold store_ok, store_bytes. cbn [store_key reply_token
    reply_tunnel_id reply_gateway store_data].
  destruct Hx as [(-> & [= -> ->] & ->)|(Hne & id0 & g & [= -> ->] & Hid & Hg & ->)].
  - rewrite decide_True by done. done.
  - rewrite decide_False by done. destruct (token =? 0) eqn:E0; breflect; [done|].
    split; [split_and!; try done; by exists id0, g|]. cbn [default app]. by rewrite <- !app_assoc.
Qed.

Lemma consumes_tags size :
  0 ≤ size → consumes (read_tags size)
    (λ l w, 1 ≤ zlen l ≤ 32 ∧ Forall (λ t, zlen t = size) l ∧ w = [zlen l] ++ concat l).
Proof.
  intros Hs. eapply consumes_bind; [apply consumes_u8|intros c w _ [-> Hc]].
  apply consumes_gets. intros c0.
  eapply (consumes_bind _ _ (λ _ w, w = [] ∧ 1 ≤ c ≤ 32)).
  { apply consumes_lift. intros []. unfold validate_tag_count.
    destruct (_ && _) eqn:E; [|done]. breflect. done. }
  intros _ w _ [-> Hr]. eapply consumes_impl; [by apply consumes_many|].
  intros l w _ (Hn & Hl & ->). assert (zlen l = c) as <- by (unfold zlen; lia). done.
Qed.

(** The flag byte of a lookup is determined by its five fields. *)
Lemma lookup_flags_bits flags :
  fits 8 flags → Z.land flags 0xe0 = 0 →
  Z.lor (Z.lor (Z.lor (Z.b2z (negb (Z.land flags 1 =? 0)))
                  (Z.shiftl (Z.b2z (negb (Z.land flags 2 =? 0))) 1))
           (Z.shiftl (Z.land (Z.shiftr flags 2) 3) 2))
    (Z.shiftl (Z.b2z (negb (Z.land flags 0x10 =? 0))) 4) = flags.
Proof.
  intros Hf Hz. apply Z.eqb_eq.
  assert (Hall : forallb (λ flags, negb (Z.land flags 0xe0 =? 0) ||
    (Z.lor (Z.lor (Z.lor (Z.b2z (negb (Z.land flags 1 =? 0)))
                  (Z.shiftl (Z.b2z (negb (Z.land flags 2 =? 0))) 1))
           (Z.shiftl (Z.land (Z.shiftr flags 2) 3) 2))
    (Z.shiftl (Z.b2z (negb (Z.land flags 0x10 =? 0))) 4) =? flags)) (seqZ 0 256) = true)
    by (vm_compute; reflexivity).
  rewrite forallb_forall in Hall. specialize (Hall flags). rewrite Hz in Hall.
  apply Hall, list_elem_of_In, elem_of_seqZ. unfold fits in Hf. lia.
Qed.

Lemma consumes_lookup :
  consumes decode_database_lookup (λ v w, lookup_ok v ∧ w = lookup_bytes v).
Proof.
  eapply consumes_bind; [apply consumes_hash|intros key w _ [Hkey ->]].
  eapply consumes_bind; [apply consumes_hash|intros from w _ [Hfrom ->]].
  eapply consumes_bind; [apply consumes_u8|intros flags w _ [-> Hfl]].
  apply consumes_if; intros E; [apply consumes_fail_at|]. breflect. cbv zeta.
  pose proof (lookup_flags_bits flags Hfl E) as Hbits.
  assert (Hlt : 0 ≤ Z.land (Z.shiftr flags 2) 3 ≤ 3).
  { assert (Hp : 3 = Z.ones 2) by done. rewrite Hp, Z.land_ones by done.
    pose proof (Z.mod_pos_bound (Z.shiftr flags 2) (2 ^ 2)). lia. }
  set (delivery := negb (Z.land flags 1 =? 0)) in *.
  eapply (consumes_bind _ _ (λ t w,
    (if delivery then ∃ id, t = Some id ∧ fits 32 id ∧ id ≠ 0 else t = None) ∧
    w = if delivery then to_be 4 (default 0 t) else [])).
  { apply consumes_if; intros ->; [|by apply consumes_ret].
    eapply consumes_bind; [apply consumes_nonzero|intros i w _ (-> & Hi & Hne)].
    apply consumes_ret. rewrite app_nil_r. split; [by exists i|done]. }
  intros tid w _ [Htid ->].
  eapply consumes_bind; [apply consumes_u16|intros cnt w _ [-> Hcnt]].
  apply consumes_if; intros E2; [apply consumes_fail_at|]. breflect.
  eapply consumes_bind; [by apply consumes_many|intros ex w _ (Hn & Hex & ->)].
  unfold fits in Hcnt. assert (zlen ex = cnt) as <- by (unfold zlen; lia).
  eapply (consumes_bind _ _ (λ e w, encryption_ok e ∧ w = encryption_bytes e ∧
    negb (Z.land flags 2 =? 0) = match e with ElGamal _ _ => true | _ => false end ∧
    negb (Z.land flags 0x10 =? 0) = match e with Ecies _ _ => true | _ => false end)).
  { destruct (negb (Z.land flags 2 =? 0)), (negb (Z.land flags 16 =? 0));
      [apply consumes_fail_at| | |by apply consumes_ret].
    all: eapply consumes_bind; [by apply consumes_take|intros k w _ [-> Hk]].
    all: eapply consumes_bind; [by apply consumes_tags|intros tags w _ (Hc & Ht & ->)].
    all: apply consumes_ret; rewrite app_nil_r; by split. }
  intros e w _ (He & -> & Hg & Hy). apply consumes_ret. rewrite app_nil_r.
  split.
  { unfold lookup_ok. cbn [lookup_key lookup_from delivery_flag lookup_reply_tunnel_id lookup_type
      excluded_peers reply_encryption]. split_and!; done || lia. }
  assert (Hlf : lookup_flags (mkLookup key from delivery tid (Z.land (Z.shiftr flags 2) 3) ex e) =
    flags).
  { unfold lookup_flags. cbn [reply_encryption delivery_flag lookup_type].
    by rewrite Hg, Hy in Hbits. }
  unfold lookup_bytes. by rewrite Hlf.
Qed.

Lemma consumes_search_reply :
  consumes decode_database_search_reply (λ v w, search_reply_ok v ∧ w = search_reply_bytes v).
Proof.
  eapply consumes_bind; [apply consumes_hash|intros key w _ [Hkey ->]].
  eapply consumes_bind; [apply consumes_u8|intros c w _ [-> Hc]].
  apply consumes_if; intros E; [apply consumes_fail_at|]. breflect.
  eapply consumes_bind; [by apply consumes_many|intros ps w _ (Hn & Hps & ->)].
  unfold fits in Hc. assert (zlen ps = c) as <- by (unfold zlen; lia).
  eapply consumes_bind; [apply consumes_hash|intros from w _ [Hfrom ->]].
  apply consumes_ret. by rewrite app_nil_r.
Qed.

Lemma consumes_body nested mt max :
  (∀ bs n m, bytes_ok bs → nested bs n = Ok m → standard_ok m ∧ bs = message_bytes m) →
  consumes (decode_body_into nested mt max)
    (λ b w, small w → body_ok b ∧ message_type b = mt ∧ w = body_bytes b).
Proof.
  intros Hnest.
  assert (Hv : 0 ≤ VARIABLE_BUILD_RECORD_SIZE ≤ u16_max) by done.
  assert (Hs : 0 ≤ SHORT_BUILD_RECORD_SIZE ≤ u16_max) by done.
  assert (Hfix : consumes (decode_fixed_records 8 VARIABLE_BUILD_RECORD_SIZE)
    (λ v w, (records_ok VARIABLE_BUILD_RECORD_SIZE v ∧ count v = 8) ∧ w = records v)).
  { eapply consumes_impl; [by apply consumes_fixed|]. by intros v w _ (? & ? & ?). }
  assert (Hpair : ∀ {A} (d : decoder A) (P : A → Prop) (f : A → bytes) (K : A → I2npBody),
    consumes d (λ v w, P v ∧ w = f v) → (∀ v, P v → body_ok (K v)) →
    (∀ v, message_type (K v) = mt) → (∀ v, body_bytes (K v) = f v) →
    consumes (v ← d; mret (K v)) (λ b w, small w → body_ok b ∧ message_type b = mt ∧ w = body_bytes b)).
  { intros A d P f K Hd HP Hm Hf. eapply consumes_bind; [exact Hd|intros v w _ [Hv' ->]].
    apply consumes_ret. intros _. rewrite app_nil_r, Hf. auto. }
  destruct mt; cbn [decode_body_into].
  - eapply consumes_bind; [apply consumes_store|intros v w _ Hst]. apply consumes_ret.
    rewrite app_nil_r. by intros [? ?]%Hst.
  - eapply Hpair; [apply consumes_lookup|done..].
  - eapply Hpair; [apply consumes_search_reply|done..].
  - eapply consumes_bind; [apply consumes_u32|intros i w _ [-> Hi]].
    eapply consumes_bind; [apply consumes_u64|intros ts w _ [-> Ht]].
    apply consumes_ret. by rewrite app_nil_r.
  - eapply (Hpair _ _ (λ _, True)); [|done..]. eapply consumes_impl; [apply consumes_opaque|done].
  - eapply consumes_bind; [apply consumes_nonzero|intros i w _ (-> & Hi & Hne)].
    eapply consumes_bind; [by apply consumes_take|intros bs w _ [-> Hl]].
    apply consumes_ret. by rewrite app_nil_r.
  - eapply consumes_bind; [apply consumes_nonzero|intros i w _ (-> & Hi & Hne)].
    eapply consumes_bind; [apply consumes_u16|intros len w _ [-> Hlen]]. unfold fits in Hlen.
    eapply consumes_bind; [apply consumes_take; lia|intros bs w Hbs [-> <-]].
    eapply (consumes_bind _ _ (λ m w, w = [] ∧ standard_ok m ∧ bs = message_bytes m)).
    { apply consumes_lift. intros m Hm. split; [done|]. by eapply Hnest. }
    intros m w _ (-> & Hm & ->). apply consumes_ret. rewrite !app_nil_r. intros Hsm.
    cbn [body_ok message_type body_bytes]. split; [|done]. split_and!; try done.
    by apply small_app in Hsm as [_ [_ Hsm]%small_app].
  - eapply (Hpair _ _ (λ _, True)); [|done..]. eapply consumes_impl; [apply consumes_opaque|done].
  - eapply Hpair; [exact Hfix|done..].
  - eapply Hpair; [exact Hfix|done..].
  - eapply Hpair; [by apply consumes_variable|done..].
  - eapply Hpair; [by apply consumes_variable|done..].
  - eapply Hpair; [by apply consumes_variable|done..].
  - eapply Hpair; [by apply consumes_variable|done..].
  - eapply consumes_bind; [apply consumes_u32|intros i w _ [-> Hi]].
    eapply consumes_bind; [apply consumes_u64|intros ts w _ [-> Ht]].
    apply consumes_ret. by rewrite app_nil_r.
  - apply consumes_fail.
Qed.

Lemma decode_body_inv nested mt inp max b :
  (∀ bs n m, bytes_ok bs → nested bs n = Ok m → standard_ok m ∧ bs = message_bytes m) →
  bytes_ok inp → decode_body nested mt inp max = Ok b →
  body_ok b ∧ message_type b = mt ∧ inp = body_bytes b ∧ small inp.
Proof.
  intros Hn Hb. unfold decode_body. destruct (_ >? _) eqn:E; [done|]. breflect.
  intros [_ Hc]%(consumes_decode_exact _ _ _ _ _ (consumes_body nested mt _ Hn)); [|done].
  destruct (Hc E) as (? & ? & ?). by split_and!.
Qed.

Lemma consumes_standard :
  consumes read_standard
    (λ '(mt, id, expiration, sum, payload) w,
       bytes_ok payload ∧ fits 32 id ∧ fits 64 expiration ∧ zlen payload ≤ MAX_I2NP_PAYLOAD_SIZE ∧
       w = [type_code mt] ++ to_be 4 id ++ to_be 8 expiration ++ to_be 2 (zlen payload) ++
           [sum] ++ payload).
Proof.
  eapply consumes_bind; [apply consumes_message_type|intros mt w _ [-> _]].
  eapply consumes_bind; [apply consumes_u32|intros i w _ [-> Hi]].
  eapply consumes_bind; [apply consumes_u64|intros e w _ [-> He]].
  eapply consumes_bind; [apply consumes_u16|intros len w _ [-> Hlen]]. unfold fits in Hlen.
  apply consumes_if; intros E; [apply consumes_fail_at|]. breflect.
  eapply consumes_bind; [apply consumes_u8|intros s w _ [-> _]].
  eapply consumes_bind; [apply consumes_take; lia|intros p w Hp [-> <-]].
  apply consumes_ret. by rewrite app_nil_r.
Qed.

(** The standard decoder accepts nothing but the wire format. *)
Lemma decode_standard_inv fuel inp max m :
  bytes_ok inp → decode_standard_fuel fuel inp max = Ok m →
  zlen inp ≤ max ∧ standard_ok m ∧ inp = message_bytes m.
Proof.
  revert inp max m. induction fuel as [|fuel IH]; intros inp max m Hb; [done|].
  cbn [decode_standard_fuel].
  destruct (decode_exact _ _ _) as [[[[[mt i] e] sum] p]|] eqn:E; [|done].
  apply (consumes_decode_exact _ _ _ _ _ consumes_standard Hb) in E
    as (Hmax & Hp & Hi & He & Hl & ->). cbn [mbind result_bind].
  unfold verify_checksum. destruct (negb _) eqn:Ec; [done|]. breflect. cbn [mbind result_bind].
  destruct (decode_body _ _ _ _) as [b|] eqn:Eb; [|done]. cbn [mbind result_bind].
  intros <-%Ok_inj. apply decode_body_inv in Eb as (Hbok & <- & -> & Hsm); [|by intros ? ? ? ? [_ ?]%IH|done].
  split; [done|]. split; [by split_and!|]. cbn [message_bytes]. by rewrite Ec.
Qed.

(** Every well-formed message survives the standard framing. *)
Lemma standard_roundtrip m max
    (Hok : standard_ok m) (Hmax : zlen (message_bytes m) ≤ max ≤ usize_max) :
  encode_standard_to_vec m max = Ok (message_bytes m) ∧
  decode_standard (message_bytes m) max = Ok m.
Proof.
  split; [|apply decode_standard_bytes; [done|lia|lia]].
  destruct m as [[mt id0 ex| |] b]; try done. destruct Hok as (-> & _ & _ & Hb & Hbl).
  apply encode_standard_from_body; [done|by apply writes_body|done|done].
Qed.

Lemma writes_standard_frame mt id expiration bs :
  zlen bs ≤ MAX_I2NP_PAYLOAD_SIZE →
  writes (_ ← Buffer.write_u8 (type_code mt);
          _ ← Buffer.write_u32 id;
          _ ← Buffer.write_u64 expiration;
          _ ← write_body_length (zlen bs);
          _ ← Buffer.write_u8 (checksum bs);
          Buffer.write_raw bs)
    ([type_code mt] ++ to_be 4 id ++ to_be 8 expiration ++ to_be 2 (zlen bs) ++
     [checksum bs] ++ bs).
Proof.
  intros Hl. do 3 (apply writes_bind; [apply writes_write|]).
  apply writes_bind; [apply writes_body_length; unfold MAX_I2NP_PAYLOAD_SIZE, u16_max in *; lia|].
  apply writes_bind; apply writes_write.
Qed.

Lemma encode_standard_inv m max w :
  standard_ok m → encode_standard_to_vec m max = Ok w → w = message_bytes m.
Proof.
  destruct m as [[mt i e| |] b]; try done. intros (-> & _ & _ & Hb & Hl).
  cbn [encode_standard_to_vec message_bytes].
  rewrite bool_decide_eq_false_2 by (intros Hn; by apply Hn).
  rewrite (encode_to_vec_writes (encode_into b) (body_bytes b)); [|by apply writes_body|done|done].
  unfold frame_message. cbn [mbind result_bind]. destruct (_ >? _); [done|].
  destruct (checked_add _ _ _) as [t|] eqn:E; [|done]. apply checked_add_Some in E as [-> _].
  destruct (_ >? max) eqn:E2; [done|]. breflect.
  intros [-> _]%(writes_encode_to_vec _ _ _ _ (writes_standard_frame _ _ _ _ Hl)); [done|].
  pose proof (zlen_nonneg (body_bytes b)). unfold STANDARD_HEADER_SIZE in *. lia.
Qed.

(** The codec of the standard framing is exact, whatever records it carries. *)
Lemma standard_exact inp max m (Hb : bytes_ok inp) (Hmax : max ≤ usize_max) :
  decode_standard inp max = Ok m ↔
  zlen inp ≤ max ∧ standard_ok m ∧ encode_standard_to_vec m max = Ok inp.
Proof.
  split.
  - intros (Hl & Hok & ->)%decode_standard_inv; [|done]. split_and!; [done..|].
    by apply standard_roundtrip.
  - intros (Hl & Hok & ->%encode_standard_inv); [|done].
    apply decode_standard_bytes; [done|lia|done].
Qed.

(** The five-byte SSU framing carries every well-formed body: encoding
    writes type, expiration and body, and [decode_short_ssu] reads the same
    message back. *)
Theorem short_ssu_roundtrip e b max (m := mkMessage (ShortSsu (message_type b) e) b)
    (He : fits 32 e) (Hb : body_ok b) (Hl : zlen (body_bytes b) ≤ MAX_I2NP_PAYLOAD_SIZE)
    (Hmax : zlen (message_bytes m) ≤ max ≤ usize_max) :
  encode_short_ssu_to_vec m max = Ok (message_bytes m) ∧
  decode_short_ssu (message_bytes m) max = Ok m.
Proof.
  split; [by apply encode_short_ssu_bytes|]. subst m. cbn [message_bytes] in *.
  rewrite !zlen_app, !zlen_to_be, zlen_one in Hmax. unfold decode_short_ssu.
  rewrite (reads_end_decode_exact _ _ (message_type b, e, body_bytes b));
    [| |rewrite !zlen_app, !zlen_to_be, zlen_one; lia..].
  2: { eapply reads_end_bind; [apply reads_message_type, message_type_supported|].
       eapply reads_end_bind; [by apply reads_u32|].
       eapply reads_end_map; [apply reads_end_rest|apply reads_ret]. }
  cbn [mbind result_bind].
  rewrite decode_body_ok; [done|by apply nested_standard_ok|done|done|lia].
Qed.

(** The nine-byte NTCP2/SSU2 framing carries every well-formed body but
    Garlic: [decode_short_transport] reads back the message that
    [encode_short_transport_to_vec] wrote, a Data payload without its length
    prefix. *)
Theorem short_transport_roundtrip id e b max
    (m := mkMessage (ShortTransport (message_type b) id e) b)
    (Hng : message_type b ≠ TGarlic) (Hid : fits 32 id) (He : fits 32 e) (Hb : body_ok b)
    (Hl : zlen (transport_body b) ≤ MAX_I2NP_PAYLOAD_SIZE)
    (Hmax : zlen (transport_bytes id e b) ≤ max ≤ usize_max) :
  encode_short_transport_to_vec m max = Ok (transport_bytes id e b) ∧
  decode_short_transport (transport_bytes id e b) max = Ok m.
Proof.
  split; [by apply encode_short_transport_bytes|]. subst m. unfold transport_bytes in *.
  rewrite !zlen_app, !zlen_to_be, zlen_one in Hmax. unfold decode_short_transport.
  rewrite decode_short_transport_header; [|apply message_type_supported|done|done|lia].
  cbn [mbind result_bind].
  pose proof (decode_body_ok decode_standard b max (nested_standard_ok b Hb) Hb) as Hd.
  destruct b; try done; cbn [message_type transport_body] in *;
    first [rewrite deferred_new_fits by lia; done|rewrite Hd by lia; done].
Qed.

(** C39: the nine-byte framing is not symmetric for Garlic: whatever the
    payload, the encoder writes it unframed while the decoder strips a four-byte
    length, so decoding an encoded Garlic message never gives that message
    back. *)
Theorem short_transport_garlic_mismatch id e p max
    (m := mkMessage (ShortTransport TGarlic id e) (Garlic p))
    (Hid : fits 32 id) (He : fits 32 e) (Hl : zlen p ≤ MAX_I2NP_PAYLOAD_SIZE)
    (Hmax : 9 + zlen p ≤ max ≤ usize_max) :
  encode_short_transport_to_vec m max = Ok (transport_bytes id e (Garlic p)) ∧
  decode_short_transport (transport_bytes id e (Garlic p)) max ≠ Ok m.
Proof.
  split.
  { apply (encode_short_transport_bytes id e (Garlic p)); [done..|].
    unfold transport_bytes. rewrite !zlen_app, !zlen_to_be, zlen_one. cbn [transport_body]. lia. }
  subst m. unfold decode_short_transport, transport_bytes. cbn [transport_body message_type].
  rewrite decode_short_transport_header by done. cbn [mbind result_bind].
  destruct (decode_exact p _ _) as [q|] eqn:E; [|done].
  apply decode_length_prefixed_shorter in E. cbn. intros [= ->]. lia.
Qed.
End i2np.

Arguments mkMessage {_ _ _ _} header body.
Arguments DatabaseStore {_ _ _ _} value.
Arguments TunnelGateway {_ _ _ _} tunnel_id message.
Arguments Data {_ _ _ _} payload.
Arguments mkStore {_ _ _ _} _ _ _ _ _.
Arguments LeaseSet2Data {_ _ _ _} value.

(** C21: the standard framing of I2NP messages is exact.  An input within the
    caller's limit is decoded to a message exactly when the message is well
    formed and encodes to that very input: encoding writes the wire format
    (header, big-endian length, SHA-256 checksum byte, body), decoding inverts
    it, and no other input is accepted.  This covers all fifteen bodies,
    TunnelGateway messages nested to any depth included, and DatabaseStore
    messages with the LeaseSet, LeaseSet2, MetaLeaseSet and encrypted LeaseSet2
    records of the router. *)
Theorem standard_decode_exact sha256
    (m : I2npMessage LeaseSet LeaseSet2 MetaLeaseSet EncryptedLeaseSet2) inp max
    (Hb : bytes_ok inp) (Hmax : max ≤ usize_max) :
  decode_standard sha256 _ _ _ _ inp max = Ok m ↔
  zlen inp ≤ max ∧ standard_ok sha256 _ _ _ _ m ∧
  encode_standard_to_vec sha256 _ _ _ _ m max = Ok inp.
Proof. apply (standard_exact sha256 LeaseSet LeaseSet2 MetaLeaseSet EncryptedLeaseSet2); done. Qed.

(** ** Witnesses

    The records of the router and a stand-in digest. *)
Module Sample.
Definition digest (p : bytes) : bytes := [zlen p mod 256].

Abbreviation body := (I2npBody LeaseSet LeaseSet2 MetaLeaseSet EncryptedLeaseSet2).
Abbreviation message := (I2npMessage LeaseSet LeaseSet2 MetaLeaseSet EncryptedLeaseSet2).

Definition store : message :=
  mkMessage (Standard TDatabaseStore 7 1000)
    (DatabaseStore (mkStore (repeat 1 32) 9 (Some 5) (Some (repeat 2 32))
       (LeaseSet2Data sample_lease_set2))).

Definition gateway : body := TunnelGateway 42 store.

Lemma gateway_ok : body_ok digest _ _ _ _ gateway.
Proof.
  cbn [gateway body_ok store standard_ok]. unfold store_ok.
  cbn [reply_token store_data store_data_ok].
  split_and!; lazymatch goal with
    | |- if _ then _ else _ => idtac
    | |- record_ok _ => apply sample_lease_set2_ok
    | _ => by vm_compute
    end.
  destruct (decide (9 = 0)); [done|]. exists 5, (repeat 2 32). split_and!; by vm_compute.
Qed.

Definition packet : bytes :=
  message_bytes digest _ _ _ _ (mkMessage (Standard TTunnelGateway 1 2000) gateway).

Lemma standard_decode_exact_witness :
  standard_ok digest _ _ _ _ (mkMessage (Standard TTunnelGateway 1 2000) gateway).
Proof.
  apply (standard_decode_exact digest (mkMessage (Standard TTunnelGateway 1 2000) gateway) packet 2048).
  - apply bytes_okb. vm_compute. reflexivity.
  - vm_compute. discriminate.
  - vm_compute. reflexivity.
Defined.

Lemma short_ssu_roundtrip_witness :
  let m := mkMessage (ShortSsu TTunnelGateway 2000) gateway in
  decode_short_ssu digest LeaseSet LeaseSet2 MetaLeaseSet EncryptedLeaseSet2 (message_bytes digest _ _ _ _ m) 2048 = Ok m.
Proof.
  apply (short_ssu_roundtrip digest LeaseSet LeaseSet2 MetaLeaseSet EncryptedLeaseSet2 2000 gateway 2048);
    [by vm_compute|apply gateway_ok|by vm_compute|by vm_compute].
Defined.

Lemma short_transport_roundtrip_witness :
  decode_short_transport digest LeaseSet LeaseSet2 MetaLeaseSet EncryptedLeaseSet2
    (transport_bytes digest _ _ _ _ 3 2000 (Data [1; 2; 3])) 1024 =
  Ok (mkMessage (ShortTransport TData 3 2000) (Data [1; 2; 3])).
Proof.
  apply (short_transport_roundtrip digest LeaseSet LeaseSet2 MetaLeaseSet EncryptedLeaseSet2 3 2000 (Data [1; 2; 3]) 1024);
    by vm_compute.
Defined.

Lemma short_transport_garlic_mismatch_witness :
  decode_short_transport digest LeaseSet LeaseSet2 MetaLeaseSet EncryptedLeaseSet2
    (transport_bytes digest _ _ _ _ 3 2000 (Garlic _ _ _ _ [0; 0; 0; 1; 9])) 1024 ≠
  Ok (mkMessage (ShortTransport TGarlic 3 2000) (Garlic _ _ _ _ [0; 0; 0; 1; 9])).
Proof.
  apply (short_transport_garlic_mismatch digest LeaseSet LeaseSet2 MetaLeaseSet EncryptedLeaseSet2 3 2000
    [0; 0; 0; 1; 9] 1024); by vm_compute.
Defined.
End Sample.
