(* ===== verification/NetValidate.v ===== *)
(** * Validation of NetDB records

    What the network database checks of a RouterInfo or a LeaseSet2 before it
    keeps it: [i2pr-netdb/src/router_info.rs], the validation half of
    [i2pr-netdb/src/lease_set2.rs], and the signature checks of
    [i2pr-crypto/src/lib.rs] they call.  SHA-256 and the Ed25519 primitives come
    from other packages and are parameters. *)
From S2P Require Import Prelude Utf8 Codec Common Identity Mapping LeaseSet RouterInfo LeaseSet2.

(** ** Signature verification ([i2pr-crypto]) *)
Inductive CryptoError :=
  | RandomnessUnavailable
  | UnsupportedAlgorithm (algorithm : Z) (context : string)
  | InvalidKey (context : string)
  | AllZeroSharedSecret
  | InvalidSignature
  | NetDbReplyAeadFailed
  | Protocol (error : CodecError).

Definition ROUTER_SIGNING_KEY_TYPE : SigningKeyType := Signing.EdDsaSha512Ed25519.
Definition PRIVATE_KEY_LENGTH : Z := 32.
Definition SIGNATURE_LENGTH : Z := 64.

(** ** Policies *)
Definition DEFAULT_MAX_AGE : Z := 24 * 60 * 60 * 1000000000.
Definition DEFAULT_MAX_FUTURE_SKEW : Z := 60 * 60 * 1000000000.
Definition DEFAULT_MAX_ENCODED_LEN : Z := 16 * 1024.

(** Durations are in nanoseconds. *)
Record RouterInfoValidationPolicy := mkRiPolicy {
  max_age : Z;
  max_future_skew : Z;
  max_encoded_len : Z;
}.
Definition default_const : RouterInfoValidationPolicy :=
  mkRiPolicy DEFAULT_MAX_AGE DEFAULT_MAX_FUTURE_SKEW DEFAULT_MAX_ENCODED_LEN.

Record ValidationContext := mkRiContext { vc_now : Z; vc_policy : RouterInfoValidationPolicy }.
Definition validation_context_new (now : Z) : ValidationContext := mkRiContext now default_const.

Definition saturating_duration_to_millis (duration : Z) : Z :=
  let millis := duration / 1000000 in
  if millis >? u64_max then u64_max else millis.

Inductive RouterInfoValidationError :=
  | RiEncodedTooLarge (actual maximum : Z)
  | RiUnsupportedAlgorithm (algorithm : Z)
  | RiInvalidSignature
  | RiKeyMismatch
  | RiStale (age_secs max_age_secs : Z)
  | RiExcessiveFuture (skew_secs max_skew_secs : Z)
  | RiArithmeticOverflow
  | RiCrypto (error : CryptoError).

(** A RouterInfo with its hash and the length it counts for. *)
Record ValidatedRouterInfo := mkValidatedRi {
  vri_key : bytes;
  vri_router_info : RouterInfo;
  vri_encoded_len : Z;
}.

Record LeaseSet2ValidationPolicy := mkLs2Policy {
  max_future_skew_seconds : Z;
  ls2_max_encoded_len : Z;
  allow_blinded_on_publication : bool;
}.
Definition ls2_policy_default : LeaseSet2ValidationPolicy :=
  mkLs2Policy (60 * 60) MAX_COMMON_STRUCTURE_SIZE false.
Definition ls2_policy_new (skew len : Z) : LeaseSet2ValidationPolicy := mkLs2Policy skew len false.

Record LeaseSet2ValidationContext := mkLs2Context {
  lvc_now_seconds : Z;
  lvc_policy : LeaseSet2ValidationPolicy;
}.
Definition ls2_context_new (now : Z) : LeaseSet2ValidationContext :=
  mkLs2Context now ls2_policy_default.

Inductive LeaseSet2ValidationError :=
  | L2EncodedTooLarge (actual maximum : Z)
  | L2InvalidSignature
  | L2DestinationMismatch
  | L2NoUsableX25519
  | L2DuplicateX25519
  | L2BlindedPublicationDeferred
  | L2OfflineSignatureExpired
  | L2AllLeasesExpired
  | L2ExcessiveFuture (skew_secs max_skew_secs : Z)
  | L2Expired (expires_secs now_secs : Z)
  | L2ArithmeticOverflow
  | L2Crypto (error : CryptoError).

Record ValidatedLeaseSet2 := mkValidatedLs2 {
  vls_key : bytes;
  vls_lease_set2 : LeaseSet2;
  vls_encoded_len : Z;
}.

Inductive LeaseSetDisclosureBlock := Unpublished | BlindedPublicationDeferred.

Section validation.
(** SHA-256; whether 32 bytes are an Ed25519 public key; and strict Ed25519
    verification of a signature under a key and a message. *)
Context (sha256 : bytes → bytes) (ed25519_key : bytes → bool)
  (ed25519_verify : bytes → bytes → bytes → bool).

Definition verify_signature (pk : SigningPublicKey) (message : bytes) (sig : SignatureValue)
    : result CryptoError () :=
  if bool_decide (signing_type pk ≠ ROUTER_SIGNING_KEY_TYPE)
  then Err (UnsupportedAlgorithm (Signing.code (signing_type pk)) "signature verification")
  else if bool_decide (signature_type sig ≠ ROUTER_SIGNING_KEY_TYPE)
  then Err (UnsupportedAlgorithm (Signing.code (signature_type sig)) "signature verification")
  else if negb (zlen (signing_bytes pk) =? PRIVATE_KEY_LENGTH) then Err (InvalidKey "signing public")
  else if negb (ed25519_key (signing_bytes pk)) then Err (InvalidKey "signing public")
  else if negb (zlen (signature_bytes sig) =? SIGNATURE_LENGTH) then Err InvalidSignature
  else if ed25519_verify (signing_bytes pk) message (signature_bytes sig) then Ok ()
  else Err InvalidSignature.

Definition verify_router_info (info : RouterInfo) : result CryptoError () :=
  verify_signature (signing_key (identity_keys (ri_identity info))) (ri_signed_bytes info)
    (ri_signature info).

Definition verify_lease_set2 (v : LeaseSet2) : result CryptoError () :=
  let preimage := ls2_signature_preimage v in
  let destination_key := signing_key (destination_keys (h_destination (ls2_header v))) in
  match h_offline_signature (ls2_header v) with
  | Some offline =>
      _ ← verify_signature destination_key (offline_signed_bytes offline) (os_signature offline);
      verify_signature (os_transient_key offline) preimage (ls2_signature v)
  | None => verify_signature destination_key preimage (ls2_signature v)
  end.

Definition verify_meta_lease_set (v : MetaLeaseSet) : result CryptoError () :=
  let preimage := meta_signature_preimage v in
  let destination_key := signing_key (destination_keys (h_destination (meta_header v))) in
  match h_offline_signature (meta_header v) with
  | Some offline =>
      _ ← verify_signature destination_key (offline_signed_bytes offline) (os_signature offline);
      verify_signature (os_transient_key offline) preimage (meta_signature v)
  | None => verify_signature destination_key preimage (meta_signature v)
  end.

Definition router_identity_hash (i : RouterIdentity) : result CryptoError bytes :=
  map_err Protocol (identity_hash sha256 i).

(** ** RouterInfo *)
Definition router_hash (i : RouterIdentity) : result RouterInfoValidationError bytes :=
  map_err RiCrypto (router_identity_hash i).

Definition ri_crypto_error (e : CryptoError) : RouterInfoValidationError :=
  match e with
  | UnsupportedAlgorithm algorithm _ => RiUnsupportedAlgorithm algorithm
  | InvalidSignature => RiInvalidSignature
  | other => RiCrypto other
  end.

(** The publication policy at the end of [from_router_info]. *)
Definition check_published (published_ms : Z) (context : ValidationContext)
    : result RouterInfoValidationError () :=
  let now_ms := vc_now context in
  let max_age_ms := saturating_duration_to_millis (max_age (vc_policy context)) in
  let max_skew_ms := saturating_duration_to_millis (max_future_skew (vc_policy context)) in
  if published_ms <=? now_ms
  then
    let age_ms := saturating_sub now_ms published_ms in
    if age_ms >? max_age_ms then Err (RiStale (age_ms / 1000) (max_age_ms / 1000)) else Ok ()
  else
    let skew_ms := saturating_sub published_ms now_ms in
    if skew_ms >? max_skew_ms
    then Err (RiExcessiveFuture (skew_ms / 1000) (max_skew_ms / 1000)) else Ok ().

Definition from_router_info (info : RouterInfo) (expected_key : option bytes)
    (context : ValidationContext) : result RouterInfoValidationError ValidatedRouterInfo :=
  match checked_add usize_max (zlen (ri_signed_bytes info)) (zlen (signature_bytes (ri_signature info))) with
  | None => Err RiArithmeticOverflow
  | Some encoded_len =>
  if encoded_len >? max_encoded_len (vc_policy context)
  then Err (RiEncodedTooLarge encoded_len (max_encoded_len (vc_policy context)))
  else
  key ← router_hash (ri_identity info);
  if match expected_key with
     | Some expected => bool_decide (expected ≠ key)
     | None => false
     end
  then Err RiKeyMismatch
  else
  let key_type := signing_type (signing_key (identity_keys (ri_identity info))) in
  match Signing.public_key_len key_type with
  | None => Err (RiUnsupportedAlgorithm (Signing.code key_type))
  | Some _ =>
  _ ← map_err ri_crypto_error (verify_router_info info);
  _ ← check_published (ri_published info) context;
  Ok (mkValidatedRi key info encoded_len)
  end
  end.

Definition advertises_floodfill (v : ValidatedRouterInfo) : bool :=
  match capabilities (vri_router_info v) with
  | Ok (Some caps) => existsb (λ byte, byte =? 102) caps
  | _ => false
  end.

(** ** LeaseSet2 *)
Definition ls2_crypto_error (e : CryptoError) : LeaseSet2ValidationError :=
  match e with InvalidSignature => L2InvalidSignature | other => L2Crypto other end.

Definition ls2_key_error (e : LeaseSet2KeySelectionError) : LeaseSet2ValidationError :=
  match e with
  | NoKeys | X25519NotFound => L2NoUsableX25519
  | DuplicateX25519 => L2DuplicateX25519
  end.

(** The freshness rules at the end of [from_lease_set2]. *)
Definition check_fresh (v : LeaseSet2) (context : LeaseSet2ValidationContext)
    : result LeaseSet2ValidationError () :=
  let now_secs := lvc_now_seconds context in
  let published_secs := h_published_seconds (ls2_header v) in
  let max_skew := max_future_skew_seconds (lvc_policy context) in
  if (published_secs >? now_secs) && (saturating_sub published_secs now_secs >? max_skew)
  then Err (L2ExcessiveFuture (saturating_sub published_secs now_secs) max_skew)
  else
  let expires_secs := expires_seconds (ls2_header v) in
  if expires_secs <=? now_secs then Err (L2Expired expires_secs now_secs)
  else if negb (existsb (λ lease, lease2_end_date lease >? now_secs) (ls2_leases v))
  then Err L2AllLeasesExpired
  else Ok ().

Definition from_lease_set2 (v : LeaseSet2) (expected_key : option bytes)
    (context : LeaseSet2ValidationContext) : result LeaseSet2ValidationError ValidatedLeaseSet2 :=
  match checked_add usize_max (zlen (ls2_signed_bytes v)) (zlen (signature_bytes (ls2_signature v))) with
  | None => Err L2ArithmeticOverflow
  | Some encoded_len =>
  if encoded_len >? ls2_max_encoded_len (lvc_policy context)
  then Err (L2EncodedTooLarge encoded_len (ls2_max_encoded_len (lvc_policy context)))
  else
  key ← map_err (λ e, L2Crypto (Protocol e)) (key_hash sha256 v);
  if match expected_key with
     | Some expected => bool_decide (expected ≠ key)
     | None => false
     end
  then Err L2DestinationMismatch
  else
  _ ← map_err ls2_crypto_error (verify_lease_set2 v);
  if Flags.is_blinded_on_publication (h_flags (ls2_header v))
     && negb (allow_blinded_on_publication (lvc_policy context))
  then Err L2BlindedPublicationDeferred
  else if match h_offline_signature (ls2_header v) with
          | Some offline => os_expires_seconds offline <=? lvc_now_seconds context
          | None => false
          end
  then Err L2OfflineSignatureExpired
  else
  _ ← map_err ls2_key_error (usable_x25519_key v);
  _ ← check_fresh v context;
  Ok (mkValidatedLs2 key v encoded_len)
  end.

Definition disclosure_block (v : ValidatedLeaseSet2) : option LeaseSetDisclosureBlock :=
  let flags := h_flags (ls2_header (vls_lease_set2 v)) in
  if Flags.is_unpublished flags then Some Unpublished
  else if Flags.is_blinded_on_publication flags then Some BlindedPublicationDeferred
  else None.
End validation.

(** ** What validation establishes *)
Section accepted.
Context (sha256 : bytes → bytes) (ed25519_key : bytes → bool)
  (ed25519_verify : bytes → bytes → bytes → bool).

(** The key [pk] has signed [message]. *)
Record signed_by (pk : SigningPublicKey) (message : bytes) (sig : SignatureValue) : Prop := {
  sb_key_type : signing_type pk = Signing.EdDsaSha512Ed25519;
  sb_signature_type : signature_type sig = Signing.EdDsaSha512Ed25519;
  sb_key_len : zlen (signing_bytes pk) = 32;
  sb_key : ed25519_key (signing_bytes pk) = true;
  sb_signature_len : zlen (signature_bytes sig) = 64;
  sb_verified : ed25519_verify (signing_bytes pk) message (signature_bytes sig) = true;
}.

Lemma verify_signature_exact pk message sig :
  verify_signature ed25519_key ed25519_verify pk message sig = Ok () ↔ signed_by pk message sig.
Proof.
  unfold verify_signature, ROUTER_SIGNING_KEY_TYPE, PRIVATE_KEY_LENGTH, SIGNATURE_LENGTH. split.
  - destruct (bool_decide _) eqn:E1; [done|]. destruct (bool_decide (signature_type _ ≠ _)) eqn:E2; [done|].
    destruct (zlen (signing_bytes pk) =? 32) eqn:E3; [|done]. cbn [negb].
    destruct (ed25519_key _) eqn:E4; [|done]. cbn [negb].
    destruct (zlen (signature_bytes sig) =? 64) eqn:E5; [|done]. cbn [negb].
    destruct (ed25519_verify _ _ _) eqn:E6; [|done]. intros _. breflect. same_types. by constructor.
  - intros [H1 H2 H3 H4 H5 H6]. rewrite H1, H2, H3, H4, H5, H6. done.
Qed.

(** The signature chain of a LeaseSet2: the destination's key, or a transient
    key that the destination delegated to and whose delegation is not over. *)
Definition ls2_authorized (v : LeaseSet2) (now : Z) : Prop :=
  let destination_key := signing_key (destination_keys (h_destination (ls2_header v))) in
  match h_offline_signature (ls2_header v) with
  | Some offline =>
      signed_by destination_key (offline_signed_bytes offline) (os_signature offline) ∧
      signed_by (os_transient_key offline) (ls2_signature_preimage v) (ls2_signature v) ∧
      now < os_expires_seconds offline
  | None => signed_by destination_key (ls2_signature_preimage v) (ls2_signature v)
  end.

Record ri_accepted (info : RouterInfo) (expected : option bytes) (context : ValidationContext)
    (key : bytes) : Prop := {
  ra_length : zlen (router_info_bytes info) ≤ max_encoded_len (vc_policy context);
  ra_key : key = sha256 (identity_bytes (ri_identity info));
  ra_expected : from_option (λ e, e = key) True expected;
  ra_signed : signed_by (signing_key (identity_keys (ri_identity info))) (ri_signed_bytes info)
                (ri_signature info);
  ra_not_stale : vc_now context - ri_published info ≤
    saturating_duration_to_millis (max_age (vc_policy context));
  ra_not_future : ri_published info - vc_now context ≤
    saturating_duration_to_millis (max_future_skew (vc_policy context));
}.

Record ls2_accepted (v : LeaseSet2) (expected : option bytes)
    (context : LeaseSet2ValidationContext) (key : bytes) : Prop := {
  la_length : zlen (ls2_signed_bytes v) + zlen (signature_bytes (ls2_signature v)) ≤
    ls2_max_encoded_len (lvc_policy context);
  la_key : key = sha256 (destination_bytes (h_destination (ls2_header v)));
  la_expected : from_option (λ e, e = key) True expected;
  la_signed : ls2_authorized v (lvc_now_seconds context);
  la_blinded : Flags.is_blinded_on_publication (h_flags (ls2_header v)) = true →
    allow_blinded_on_publication (lvc_policy context) = true;
  la_key_usable : ∃ k, usable_x25519_key v = Ok k;
  la_not_future : h_published_seconds (ls2_header v) - lvc_now_seconds context ≤
    max_future_skew_seconds (lvc_policy context);
  la_not_expired : lvc_now_seconds context < expires_seconds (ls2_header v);
  la_lease : ∃ l, l ∈ ls2_leases v ∧ lvc_now_seconds context < lease2_end_date l;
}.

Lemma duration_nonneg d : 0 ≤ d → 0 ≤ saturating_duration_to_millis d.
Proof.
  intros Hd. unfold saturating_duration_to_millis. cbv zeta.
  pose proof (Z.div_pos d 1000000 Hd ltac:(lia)). destruct (_ >? _); [unfold u64_max|]; lia.
Qed.

Lemma check_published_exact p ctx :
  0 ≤ max_age (vc_policy ctx) → 0 ≤ max_future_skew (vc_policy ctx) →
  check_published p ctx = Ok () ↔
  vc_now ctx - p ≤ saturating_duration_to_millis (max_age (vc_policy ctx)) ∧
  p - vc_now ctx ≤ saturating_duration_to_millis (max_future_skew (vc_policy ctx)).
Proof.
  intros Ha%duration_nonneg Hs%duration_nonneg. unfold check_published, saturating_sub. cbv zeta.
  destruct (p <=? _) eqn:E1; breflect; destruct (_ >? _) eqn:E2; breflect; split; try done; lia.
Qed.

Lemma existsb_lease now l :
  existsb (λ lease, lease2_end_date lease >? now) l = true ↔
  ∃ x, x ∈ l ∧ now < lease2_end_date x.
Proof.
  rewrite existsb_exists. split; intros (x & Hin & Hx); exists x.
  - split; [by apply list_elem_of_In|lia].
  - split; [by apply list_elem_of_In|lia].
Qed.

Lemma check_fresh_exact v ctx :
  0 ≤ max_future_skew_seconds (lvc_policy ctx) →
  check_fresh v ctx = Ok () ↔
  h_published_seconds (ls2_header v) - lvc_now_seconds ctx ≤ max_future_skew_seconds (lvc_policy ctx) ∧
  lvc_now_seconds ctx < expires_seconds (ls2_header v) ∧
  ∃ l, l ∈ ls2_leases v ∧ lvc_now_seconds ctx < lease2_end_date l.
Proof.
  intros Hs. unfold check_fresh, saturating_sub. cbv zeta. rewrite <- existsb_lease.
  destruct (_ && _) eqn:E1; breflect; [split; [done|]; intros (? & _); lia|].
  destruct (expires_seconds _ <=? _) eqn:E2; breflect; [split; [done|]; intros (_ & ? & _); lia|].
  destruct (existsb _ _); cbn [negb]; (split; [|by intros (_ & _ & ?)]); [|done].
  intros _. split_and!; [lia|lia|done].
Qed.

Lemma checked_total a b max n :
  0 ≤ a → 0 ≤ b → max ≤ usize_max →
  (∃ t, checked_add usize_max a b = Some t ∧ (t >? max) = false ∧ t = n) ↔ n = a + b ∧ n ≤ max.
Proof.
  intros Ha Hb Hm. split.
  - intros (t & Ht & E & <-). apply checked_add_Some in Ht as [-> _]. breflect. done.
  - intros [-> Hn]. exists (a + b). split_and!; [|breflect; lia|done].
    unfold checked_add. destruct (_ <=? _) eqn:E; breflect; [done|lia].
Qed.

Lemma expected_exact (expected : option bytes) key :
  match expected with Some e => bool_decide (e ≠ key) | None => false end = false ↔
  from_option (λ e, e = key) True expected.
Proof.
  destruct expected as [e|]; cbn; [|done]. rewrite bool_decide_eq_false. split; [apply dec_stable|].
  intros -> Hn. by apply Hn.
Qed.

Lemma from_router_info_iff info expected ctx v
    (Hok : router_info_ok info)
    (Hage : 0 ≤ max_age (vc_policy ctx)) (Hskew : 0 ≤ max_future_skew (vc_policy ctx))
    (Hlen : max_encoded_len (vc_policy ctx) ≤ usize_max) :
  from_router_info sha256 ed25519_key ed25519_verify info expected ctx = Ok v ↔
  ri_accepted info expected ctx (vri_key v) ∧
  vri_router_info v = info ∧ vri_encoded_len v = zlen (router_info_bytes info).
Proof.
  pose proof (ruo_identity _ _ _ _ _ _ (rio_unsigned info Hok)) as Hid.
  unfold from_router_info, router_hash, router_identity_hash.
  rewrite (identity_hash_bytes _ _ Hid). cbn [map_err mbind result_bind].
  pose proof (zlen_nonneg (ri_signed_bytes info)) as Hz1.
  pose proof (zlen_nonneg (signature_bytes (ri_signature info))) as Hz2.
  pose proof (checked_total _ _ _ (zlen (router_info_bytes info)) Hz1 Hz2 Hlen) as Htot.
  unfold router_info_bytes in *. rewrite zlen_app in *.
  split.
  - destruct (checked_add _ _ _) as [t|] eqn:Et; [|done].
    destruct (t >? _) eqn:El; [done|]. apply checked_add_Some in Et as Ht. destruct Ht as [-> _].
    breflect. destruct (match expected with Some _ => _ | None => _ end) eqn:Ee; [done|].
    apply expected_exact in Ee. cbv zeta. destruct (Signing.public_key_len _); [|done].
    destruct (verify_router_info _ _ _) as [[]|] eqn:Ev; [|done]. cbn [map_err mbind result_bind].
    apply verify_signature_exact in Ev.
    destruct (check_published _ _) as [[]|] eqn:Ep; [|done]. cbn [mbind result_bind].
    apply check_published_exact in Ep as [Hp1 Hp2]; [|done|done]. intros <-%Ok_inj.
    split; [|done]. constructor; try done. unfold router_info_bytes. rewrite zlen_app. done.
  - intros ([Hl Hk He Hs Hp1 Hp2] & Hi & Hn). unfold router_info_bytes in Hl. rewrite zlen_app in Hl.
    destruct (proj2 Htot (conj eq_refl Hl)) as (t & -> & -> & ->).
    rewrite (proj2 (expected_exact expected _)) by (by rewrite <- Hk).
    cbv zeta. rewrite (sb_key_type _ _ _ Hs). cbn [Signing.public_key_len].
    unfold verify_router_info. rewrite (proj2 (verify_signature_exact _ _ _) Hs).
    cbn [map_err mbind result_bind].
    rewrite (proj2 (check_published_exact _ _ Hage Hskew) (conj Hp1 Hp2)). cbn [mbind result_bind].
    destruct v. cbn in *. by subst.
Qed.

Lemma verify_lease_set2_exact v now :
  (verify_lease_set2 ed25519_key ed25519_verify v = Ok () ∧
   match h_offline_signature (ls2_header v) with
   | Some offline => os_expires_seconds offline <=? now
   | None => false
   end = false) ↔ ls2_authorized v now.
Proof.
  unfold verify_lease_set2, ls2_authorized. cbv zeta.
  destruct (h_offline_signature _) as [o|].
  - rewrite <- !verify_signature_exact.
    destruct (verify_signature _ _ _ (offline_signed_bytes o) _) as [[]|]; cbn [mbind result_bind];
      [|by split; intros []].
    rewrite Z.leb_gt. tauto.
  - rewrite verify_signature_exact. tauto.
Qed.

Lemma from_lease_set2_iff v expected ctx r
    (Hok : lease_set2_ok v) (Hskew : 0 ≤ max_future_skew_seconds (lvc_policy ctx))
    (Hlen : ls2_max_encoded_len (lvc_policy ctx) ≤ usize_max) :
  from_lease_set2 sha256 ed25519_key ed25519_verify v expected ctx = Ok r ↔
  ls2_accepted v expected ctx (vls_key r) ∧ vls_lease_set2 r = v ∧
  vls_encoded_len r = zlen (ls2_signed_bytes v) + zlen (signature_bytes (ls2_signature v)).
Proof.
  pose proof (ho_destination _ (l2o_header _ _ _ _ (l2_unsigned v Hok))) as Hd.
  unfold from_lease_set2, key_hash. rewrite (destination_hash_bytes _ _ Hd).
  cbn [map_err mbind result_bind].
  pose proof (zlen_nonneg (ls2_signed_bytes v)) as Hz1.
  pose proof (zlen_nonneg (signature_bytes (ls2_signature v))) as Hz2.
  pose proof (checked_total _ _ _ (zlen (ls2_signed_bytes v) + zlen (signature_bytes (ls2_signature v)))
    Hz1 Hz2 Hlen) as Htot.
  split.
  - destruct (checked_add _ _ _) as [t|] eqn:Et; [|done].
    destruct (t >? _) eqn:El; [done|]. apply checked_add_Some in Et as Ht. destruct Ht as [-> _].
    breflect. destruct (match expected with Some _ => _ | None => _ end) eqn:Ee; [done|].
    apply expected_exact in Ee.
    destruct (verify_lease_set2 _ _ _) as [[]|] eqn:Ev; [|done]. cbn [map_err mbind result_bind].
    destruct (_ && _) eqn:Eb; [done|].
    destruct (match h_offline_signature _ with Some _ => _ | None => _ end) eqn:Eo; [done|].
    destruct (usable_x25519_key v) as [k|] eqn:Ek; [|done]. cbn [map_err mbind result_bind].
    destruct (check_fresh _ _) as [[]|] eqn:Ef; [|done]. cbn [mbind result_bind].
    apply check_fresh_exact in Ef as (Hf1 & Hf2 & Hf3); [|done]. intros <-%Ok_inj.
    split; [|done]. constructor; try done; [by apply verify_lease_set2_exact| |by exists k].
    intros Hb. rewrite Hb in Eb. cbn in Eb. by apply negb_false_iff.
  - intros ([Hl Hk He Hs Hb [k Hu] Hf1 Hf2 Hf3] & Hv & Hn).
    destruct (proj2 Htot (conj eq_refl Hl)) as (t & -> & -> & ->).
    rewrite (proj2 (expected_exact expected _)) by (by rewrite <- Hk).
    apply verify_lease_set2_exact in Hs as [-> ->]. cbn [map_err mbind result_bind].
    replace (_ && _) with false.
    2: { symmetry. destruct (Flags.is_blinded_on_publication _); [|done]. by rewrite Hb. }
    rewrite Hu. cbn [map_err mbind result_bind].
    rewrite (proj2 (check_fresh_exact _ _ Hskew)) by done. cbn [mbind result_bind].
    destruct r. cbn in *. by subst.
Qed.

(** A LeaseSet2 is accepted exactly when it should be.  For a well-formed
    LeaseSet2, validation succeeds if and only if the record is within the size
    limit, hashes to the key it was asked for, is signed by its destination or by
    a transient key under a delegation that the destination signed and that has
    not run out, is not blinded unless that is allowed, has one usable X25519 key,
    is not from too far in the future, and neither it nor all of its leases have
    expired. *)
Theorem from_lease_set2_exact v expected ctx r
    (Hok : lease_set2_ok v) (Hskew : 0 ≤ max_future_skew_seconds (lvc_policy ctx))
    (Hlen : ls2_max_encoded_len (lvc_policy ctx) ≤ usize_max) :
  from_lease_set2 sha256 ed25519_key ed25519_verify v expected ctx = Ok r ↔
  ls2_accepted v expected ctx (vls_key r) ∧ vls_lease_set2 r = v ∧
  vls_encoded_len r = zlen (ls2_signed_bytes v) + zlen (signature_bytes (ls2_signature v)).
Proof. by apply from_lease_set2_iff. Qed.

(** A RouterInfo is accepted exactly when it should be.  For a well-formed
    RouterInfo, validation succeeds if and only if the record is within the size
    limit, hashes to the key it was asked for, carries a valid Ed25519 signature
    of its retained bytes under its own identity's key, and was published neither
    longer ago nor further ahead than the policy allows; the result carries the
    hash of the identity and the exact encoded length. *)
Theorem from_router_info_exact info expected ctx v
    (Hok : router_info_ok info)
    (Hage : 0 ≤ max_age (vc_policy ctx)) (Hskew : 0 ≤ max_future_skew (vc_policy ctx))
    (Hlen : max_encoded_len (vc_policy ctx) ≤ usize_max) :
  from_router_info sha256 ed25519_key ed25519_verify info expected ctx = Ok v ↔
  ri_accepted info expected ctx (vri_key v) ∧
  vri_router_info v = info ∧ vri_encoded_len v = zlen (router_info_bytes info).
Proof. by apply from_router_info_iff. Qed.
End accepted.

(** ** Witnesses: a stand-in digest and a verifier that checks lengths *)
Definition toy_sha256 (w : bytes) : bytes := replicate 32 (zlen w mod 256).
Definition toy_key (w : bytes) : bool := zlen w =? 32.
Definition toy_verify (k w s : bytes) : bool := zlen s =? 64.

Lemma from_router_info_exact_witness :
  ri_accepted toy_sha256 toy_key toy_verify sample_router_info None
    (validation_context_new 200000) (toy_sha256 (identity_bytes sample_identity)).
Proof.
  apply (from_router_info_exact toy_sha256 toy_key toy_verify sample_router_info None
    (validation_context_new 200000)
    (mkValidatedRi (toy_sha256 (identity_bytes sample_identity)) sample_router_info
       (zlen (router_info_bytes sample_router_info)))).
  - apply sample_router_info_ok.
  - vm_compute. discriminate.
  - vm_compute. discriminate.
  - vm_compute. discriminate.
  - vm_compute. reflexivity.
Defined.

Lemma from_lease_set2_exact_witness :
  ls2_accepted toy_sha256 toy_key toy_verify sample_lease_set2 None
    (ls2_context_new 850) (toy_sha256 (destination_bytes sample_destination)).
Proof.
  apply (from_lease_set2_exact toy_sha256 toy_key toy_verify sample_lease_set2 None
    (ls2_context_new 850)
    (mkValidatedLs2 (toy_sha256 (destination_bytes sample_destination)) sample_lease_set2
       (zlen (ls2_signed_bytes sample_lease_set2) + 64))).
  - apply sample_lease_set2_ok.
  - vm_compute. discriminate.
  - vm_compute. discriminate.
  - vm_compute. reflexivity.
Defined.
