(* ===== verification/NetStore.v ===== *)
(** * Bounded record stores

    The in-memory stores of the network database: [i2pr-netdb/src/store.rs]
    (RouterInfos by router hash) and the store half of
    [i2pr-netdb/src/lease_set2.rs] (LeaseSet2s by destination hash).  The two
    are the same code over different records; the interface [StoreRecord] is
    what the code asks of a record.  An [expect] that would panic is [None]. *)
From S2P Require Import Prelude Utf8 Codec Common Identity Mapping LeaseSet RouterInfo LeaseSet2 NetValidate.

Class StoreRecord (V : Type) := {
  rec_key : V → bytes;
  rec_encoded_len : V → Z;
  rec_published : V → Z;
  rec_same : V → V → bool;
}.

(** Two RouterInfos, two LeaseSet2s of the same age are the same record when
    they agree on the signed bytes and on the signature. *)
Definition same_record_bytes (left right : ValidatedRouterInfo) : bool :=
  let l := vri_router_info left in
  let r := vri_router_info right in
  bool_decide (ri_signed_bytes l = ri_signed_bytes r)
  && bool_decide (signature_bytes (ri_signature l) = signature_bytes (ri_signature r)).
Definition same_lease_set2_bytes (left right : ValidatedLeaseSet2) : bool :=
  let l := vls_lease_set2 left in
  let r := vls_lease_set2 right in
  bool_decide (ls2_signed_bytes l = ls2_signed_bytes r)
  && bool_decide (signature_bytes (ls2_signature l) = signature_bytes (ls2_signature r)).

#[export] Instance router_info_store_record : StoreRecord ValidatedRouterInfo := {|
  rec_key := vri_key;
  rec_encoded_len := vri_encoded_len;
  rec_published v := ri_published (vri_router_info v);
  rec_same := same_record_bytes;
|}.

#[export] Instance lease_set2_store_record : StoreRecord ValidatedLeaseSet2 := {|
  rec_key := vls_key;
  rec_encoded_len := vls_encoded_len;
  rec_published v := h_published_seconds (ls2_header (vls_lease_set2 v));
  rec_same := same_lease_set2_bytes;
|}.

Inductive InsertOutcome :=
  | Inserted | Idempotent | Replaced | Conflict | StaleReplacement | CapacityExceeded.

#[export] Instance InsertOutcome_eq_dec : EqDecision InsertOutcome.
Proof. solve_decision. Defined.

Record StoreConfig := mkStoreConfig { max_records : Z; max_total_encoded_bytes : Z }.
Definition store_config_default : StoreConfig := mkStoreConfig 4096 (4 * 1024 * 1024).

Record StoreStats := mkStats {
  st_record_count : Z;
  st_total_encoded_bytes : Z;
  st_max_records : Z;
  st_max_total_encoded_bytes : Z;
}.

Record BoundedStore (V : Type) := mkStore {
  records : gmap bytes V;
  total_encoded_bytes : Z;
  config : StoreConfig;
}.
Arguments mkStore {V} _ _ _.
Arguments records {V} _.
Arguments total_encoded_bytes {V} _.
Arguments config {V} _.

Section store.
Context {V : Type} `{StoreRecord V}.
Implicit Types (s : BoundedStore V) (v : V).

Definition with_config (c : StoreConfig) : BoundedStore V := mkStore ∅ 0 c.

(** [total.checked_add(n).is_none_or(|total| total > max)] *)
Definition exceeds (s : BoundedStore V) (n : Z) : bool :=
  match checked_add usize_max (total_encoded_bytes s) n with
  | None => true
  | Some total => total >? max_total_encoded_bytes (config s)
  end.

Definition store_insert (s : BoundedStore V) (v : V) : option (BoundedStore V * InsertOutcome) :=
  let key := rec_key v in
  let encoded_len := rec_encoded_len v in
  match records s !! key with
  | Some existing =>
      if rec_published v <? rec_published existing then Some (s, StaleReplacement)
      else if rec_published v =? rec_published existing
      then Some (s, if rec_same existing v then Idempotent else Conflict)
      else if (encoded_len >? rec_encoded_len existing)
              && exceeds s (encoded_len - rec_encoded_len existing)
      then Some (s, CapacityExceeded)
      else
        freed ← checked_sub (total_encoded_bytes s) (rec_encoded_len existing);
        total ← checked_add usize_max freed encoded_len;
        Some (mkStore (<[key := v]> (records s)) total (config s), Replaced)
  | None =>
      if Z.of_nat (size (records s)) >=? max_records (config s) then Some (s, CapacityExceeded)
      else if exceeds s encoded_len then Some (s, CapacityExceeded)
      else
        total ← checked_add usize_max (total_encoded_bytes s) encoded_len;
        Some (mkStore (<[key := v]> (records s)) total (config s), Inserted)
  end.

Definition store_get (s : BoundedStore V) (key : bytes) : option V := records s !! key.
Definition store_contains (s : BoundedStore V) (key : bytes) : bool :=
  bool_decide (is_Some (records s !! key)).

Definition store_remove (s : BoundedStore V) (key : bytes) : option (BoundedStore V * bool) :=
  match records s !! key with
  | Some removed =>
      total ← checked_sub (total_encoded_bytes s) (rec_encoded_len removed);
      Some (mkStore (delete key (records s)) total (config s), true)
  | None => Some (s, false)
  end.

Definition store_len (s : BoundedStore V) : Z := Z.of_nat (size (records s)).
Definition store_is_empty (s : BoundedStore V) : bool := store_len s =? 0.
Definition store_stats (s : BoundedStore V) : StoreStats :=
  mkStats (store_len s) (total_encoded_bytes s) (max_records (config s))
    (max_total_encoded_bytes (config s)).

(** The keys [prune] collects. *)
Definition is_stale (now max_age_ms : Z) (v : V) : bool :=
  saturating_sub now (rec_published v) >? max_age_ms.
Definition stale_keys (s : BoundedStore V) (now max_age_ms : Z) : list bytes :=
  (filter (λ '(_, v), is_stale now max_age_ms v = true) (map_to_list (records s))).*1.

Fixpoint prune_keys (s : BoundedStore V) (keys : list bytes) (removed : Z)
    : option (BoundedStore V * Z) :=
  match keys with
  | [] => Some (s, removed)
  | key :: keys' =>
      '(s', was) ← store_remove s key;
      prune_keys s' keys' (if was : bool then removed + 1 else removed)
  end.

Definition store_prune (s : BoundedStore V) (now max_age_ms : Z) : option (BoundedStore V * Z) :=
  prune_keys s (stale_keys s now max_age_ms) 0.
End store.

(** Records that advertise the floodfill capability. *)
Definition floodfill_advertisers (s : BoundedStore ValidatedRouterInfo) : list ValidatedRouterInfo :=
  filter (λ v, advertises_floodfill v = true) (map_to_list (records s)).*2.
(** The statistics of the RouterInfo store also count them. *)
Definition router_info_stats (s : BoundedStore ValidatedRouterInfo) : StoreStats * Z :=
  (store_stats s, zlen (floodfill_advertisers s)).

(** ** The invariant *)
Section invariant.
Context {V : Type} `{StoreRecord V}.
Implicit Types (s : BoundedStore V) (v : V).

Record store_ok s : Prop := {
  so_total : total_encoded_bytes s = map_sum rec_encoded_len (records s);
  so_records : ∀ k v, records s !! k = Some v → rec_key v = k ∧ 0 ≤ rec_encoded_len v;
  so_bytes : total_encoded_bytes s ≤ max_total_encoded_bytes (config s);
  so_count : store_len s ≤ max_records (config s);
  so_config : 0 ≤ max_records (config s) ∧ 0 ≤ max_total_encoded_bytes (config s) ≤ usize_max;
}.

Lemma with_config_ok c :
  0 ≤ max_records c → 0 ≤ max_total_encoded_bytes c ≤ usize_max → store_ok (with_config c).
Proof.
  intros Hr Hb. constructor; unfold store_len; cbn [records total_encoded_bytes config with_config].
  - by rewrite map_sum_empty.
  - intros k v Hk. by rewrite lookup_empty in Hk.
  - apply Hb.
  - by rewrite map_size_empty.
  - done.
Qed.

Lemma exceeds_false s n :
  exceeds s n = false →
  checked_add usize_max (total_encoded_bytes s) n = Some (total_encoded_bytes s + n) ∧
  total_encoded_bytes s + n ≤ max_total_encoded_bytes (config s).
Proof.
  unfold exceeds. destruct (checked_add _ _ _) as [t|] eqn:E; [|done].
  apply checked_add_Some in E as [-> _]. intros ?. breflect. done.
Qed.

Lemma record_fits s k v :
  store_ok s → records s !! k = Some v → 0 ≤ rec_encoded_len v ≤ total_encoded_bytes s.
Proof.
  intros [Ht Hr _ _ _] Hk. split; [by destruct (Hr _ _ Hk)|]. rewrite Ht.
  eapply map_sum_ge; [|done]. intros k' a Ha. by destruct (Hr _ _ Ha).
Qed.

(** Insertion never panics: it refuses, leaving the store as it is, or it puts
    the record under its key. *)
Lemma store_insert_cases s v :
  store_ok s → 0 ≤ rec_encoded_len v →
  ∃ s' o, store_insert s v = Some (s', o) ∧ store_ok s' ∧ config s' = config s ∧
    ((s' = s ∧ o ≠ Inserted ∧ o ≠ Replaced) ∨
     (records s' = <[rec_key v := v]> (records s) ∧ (o = Inserted ∨ o = Replaced))).
Proof.
  intros Hok Hv. pose proof Hok as [Ht Hr Hb Hc [Hm1 Hm2]]. unfold store_insert. cbv zeta.
  assert (Hput : ∀ t, t = total_encoded_bytes s + rec_encoded_len v -
      default 0 (rec_encoded_len <$> records s !! rec_key v) →
    t ≤ max_total_encoded_bytes (config s) →
    Z.of_nat (size (<[rec_key v := v]> (records s))) ≤ max_records (config s) →
    store_ok (mkStore (<[rec_key v := v]> (records s)) t (config s))).
  { intros t -> Hle Hsz. constructor; try done; cbn [records total_encoded_bytes config].
    - rewrite map_sum_insert, Ht. lia.
    - intros k u [[<- <-]|[? Hu]]%lookup_insert_Some; [done|]. by apply Hr. }
  destruct (records s !! rec_key v) as [e|] eqn:Ee.
  - destruct (_ <? _); [exists s, StaleReplacement; naive_solver|].
    destruct (rec_published v =? _).
    { eexists s, _. split; [done|]. destruct (rec_same _ _); naive_solver. }
    pose proof (record_fits _ _ _ Hok Ee) as He.
    destruct (_ && _) eqn:E; [exists s, CapacityExceeded; naive_solver|].
    assert (Hle : total_encoded_bytes s - rec_encoded_len e + rec_encoded_len v ≤
      max_total_encoded_bytes (config s)).
    { apply andb_false_iff in E as [E|[_ E]%exceeds_false]; breflect; lia. }
    unfold checked_sub. destruct (_ <=? _) eqn:E1; breflect; [|lia]. cbn [mbind option_bind].
    destruct (checked_add _ _ _) as [t|] eqn:E2; [|apply checked_add_None in E2; lia].
    apply checked_add_Some in E2 as [-> _]. cbn [mbind option_bind].
    eexists _, Replaced. split; [done|]. split; [apply Hput; cbn; [lia|lia|]|naive_solver].
    rewrite map_size_insert_Some by done. exact Hc.
  - destruct (_ >=? _) eqn:E1; [exists s, CapacityExceeded; naive_solver|].
    destruct (exceeds s _) eqn:E2; [exists s, CapacityExceeded; naive_solver|].
    apply exceeds_false in E2 as [-> E2]. cbn [mbind option_bind]. eexists _, Inserted.
    split; [done|]. split; [apply Hput; cbn; [lia|lia|]|naive_solver].
    rewrite map_size_insert_None by done. breflect. lia.
Qed.

Lemma store_remove_ok s k :
  store_ok s → ∃ s' b, store_remove s k = Some (s', b) ∧ store_ok s' ∧
    records s' = delete k (records s) ∧ config s' = config s ∧
    b = bool_decide (is_Some (records s !! k)) ∧
    store_len s' = store_len s - (if b then 1 else 0).
Proof.
  intros Hok. pose proof Hok as [Ht Hr Hb Hc Hm]. unfold store_remove.
  destruct (records s !! k) as [v|] eqn:E.
  - pose proof (record_fits _ _ _ Hok E). unfold checked_sub.
    destruct (_ <=? _) eqn:E1; breflect; [|lia]. cbn [mbind option_bind].
    assert (Hlen : Z.of_nat (size (delete k (records s))) = store_len s - 1).
    { unfold store_len. rewrite map_size_delete_Some by done.
      assert (size (records s) ≠ O); [|lia]. apply map_size_ne_0_lookup. by eexists k, v. }
    eexists _, true. split; [done|]. split; [|done].
    constructor; unfold store_len; cbn [records total_encoded_bytes config].
    + rewrite (map_sum_delete _ _ _ _ E). lia.
    + intros k' u [_ Hu]%lookup_delete_Some. by apply Hr.
    + lia.
    + lia.
    + done.
  - exists s, false. split_and!; try done; [by rewrite delete_id|lia].
Qed.

Lemma prune_keys_ok s keys n :
  store_ok s → NoDup keys → (∀ k, k ∈ keys → is_Some (records s !! k)) →
  ∃ s', prune_keys s keys n = Some (s', n + zlen keys) ∧ store_ok s' ∧
    config s' = config s ∧ store_len s' = store_len s - zlen keys ∧
    ∀ k, records s' !! k = if decide (k ∈ keys) then None else records s !! k.
Proof.
  revert s n. induction keys as [|key keys IH]; intros s n Hok Hnd Hin; cbn [prune_keys].
  - exists s. rewrite zlen_nil, Z.add_0_r, Z.sub_0_r. split_and!; done.
  - apply NoDup_cons in Hnd as [Hk Hnd].
    destruct (store_remove_ok s key Hok) as (s1 & b & -> & Hok1 & Hrec & Hcfg & -> & Hl1).
    cbn [mbind option_bind]. rewrite bool_decide_eq_true_2 in * by (apply Hin; left).
    destruct (IH s1 (n + 1) Hok1 Hnd) as (s' & -> & Hok' & Hcfg' & Hl2 & Hall).
    { intros k Hk'. rewrite Hrec, lookup_delete_ne; [apply Hin; by right|]. by intros ->. }
    exists s'. rewrite zlen_cons. split_and!; [do 2 f_equal; lia|done|congruence|lia|].
    intros k. rewrite Hall, Hrec. destruct (decide (k ∈ keys)) as [Hi|Hi].
    + by rewrite decide_True by (by right).
    + destruct (decide (k = key)) as [->|Hne].
      * rewrite decide_True by (by left). apply lookup_delete_eq.
      * rewrite decide_False by (by intros [?|?]%elem_of_cons). by rewrite lookup_delete_ne.
Qed.

Lemma stale_keys_spec s now age k :
  k ∈ stale_keys s now age ↔ ∃ v, records s !! k = Some v ∧ is_stale now age v = true.
Proof.
  unfold stale_keys. rewrite list_elem_of_fmap. split.
  - intros ([k' v] & -> & [Hs Hin]%list_elem_of_filter). exists v.
    by apply elem_of_map_to_list in Hin.
  - intros (v & Hk & Hs). exists (k, v). split; [done|]. apply list_elem_of_filter. split; [done|].
    by apply elem_of_map_to_list.
Qed.

Lemma stale_keys_NoDup s now age : NoDup (stale_keys s now age).
Proof.
  unfold stale_keys. pose proof (NoDup_fst_map_to_list (records s)) as Hnd.
  eapply sublist_NoDup; [exact Hnd|]. apply fmap_sublist, sublist_filter.
Qed.
End invariant.

(** ** Runs *)
Section runs.
Context {V : Type} `{StoreRecord V}.
Implicit Types (s : BoundedStore V) (v : V).

Inductive store_op :=
  | OpInsert (v : V)
  | OpRemove (key : bytes)
  | OpPrune (now max_age_ms : Z).

Definition store_apply s (op : store_op) : option (BoundedStore V) :=
  match op with
  | OpInsert v => fst <$> store_insert s v
  | OpRemove key => fst <$> store_remove s key
  | OpPrune now age => fst <$> store_prune s now age
  end.

Fixpoint store_run s (ops : list store_op) : option (BoundedStore V) :=
  match ops with
  | [] => Some s
  | op :: ops' => s' ← store_apply s op; store_run s' ops'
  end.

(** Only records that satisfy [P] are offered. *)
Definition offers (P : V → Prop) (op : store_op) : Prop :=
  match op with OpInsert v => 0 ≤ rec_encoded_len v ∧ P v | _ => True end.

Definition all_records (P : V → Prop) s : Prop := ∀ k v, records s !! k = Some v → P v.

Lemma prune_exact s now age :
  store_ok s →
  ∃ s' n, store_prune s now age = Some (s', n) ∧ store_ok s' ∧ config s' = config s ∧
    n = store_len s - store_len s' ∧
    ∀ k v, records s' !! k = Some v ↔ records s !! k = Some v ∧ is_stale now age v = false.
Proof.
  intros Hok. destruct (prune_keys_ok s (stale_keys s now age) 0 Hok) as (s' & Hp & Hok' & Hc & Hl & Hall).
  { apply stale_keys_NoDup. }
  { intros k (v & Hk & _)%stale_keys_spec. by exists v. }
  exists s', (0 + zlen (stale_keys s now age)).
  assert (Hiff : ∀ k v, records s' !! k = Some v ↔ records s !! k = Some v ∧ is_stale now age v = false).
  { intros k v. rewrite Hall. destruct (decide _) as [Hin|Hin].
    - apply stale_keys_spec in Hin as (u & Hu & Hs). split; [done|]. intros [Hv Hf]. congruence.
    - split; [|by intros []]. intros Hv. split; [done|]. destruct (is_stale _ _ _) eqn:E; [|done].
      destruct Hin. apply stale_keys_spec. eauto. }
  split_and!; try done. lia.
Qed.

(** Every operation on a well-formed store succeeds and keeps it well formed,
    and keeps what is true of every offered record true of every stored one. *)
Lemma store_apply_ok P s op :
  store_ok s → all_records P s → offers P op →
  ∃ s', store_apply s op = Some s' ∧ store_ok s' ∧ all_records P s' ∧ config s' = config s.
Proof.
  intros Hok HP. destruct op as [v|key|now age]; cbn [offers store_apply].
  - intros [Hv HPv]. destruct (store_insert_cases s v Hok Hv) as (s' & o & -> & Hok' & Hc & Hcase).
    exists s'. split_and!; try done. destruct Hcase as [[-> _]|[Hrec _]]; [done|].
    intros k u. rewrite Hrec. intros [[_ <-]|[_ Hu]]%lookup_insert_Some; [done|by eapply HP].
  - intros _. destruct (store_remove_ok s key Hok) as (s' & b & -> & Hok' & Hrec & Hc & _).
    exists s'. split_and!; try done. intros k u. rewrite Hrec.
    intros [_ Hu]%lookup_delete_Some. by eapply HP.
  - intros _. destruct (prune_exact s now age Hok) as (s' & n & -> & Hok' & Hc & _ & Hall).
    exists s'. split_and!; try done. intros k u [Hu _]%Hall. by eapply HP.
Qed.

Lemma store_run_ok P s ops :
  store_ok s → all_records P s → Forall (offers P) ops →
  ∃ s', store_run s ops = Some s' ∧ store_ok s' ∧ all_records P s' ∧ config s' = config s.
Proof.
  intros Hok HP Hall. revert s Hok HP. induction Hall as [|op ops Hop _ IH]; intros s Hok HP.
  - by exists s.
  - destruct (store_apply_ok P s op Hok HP Hop) as (s1 & Ha & Hok1 & HP1 & Hc1).
    destruct (IH s1 Hok1 HP1) as (s' & Hr & Hok' & HP' & Hc'). exists s'. cbn [store_run].
    rewrite Ha. cbn [mbind option_bind]. split_and!; try done. congruence.
Qed.

(** *** Insert-only runs *)
Fixpoint insert_run s (vs : list V) : option (BoundedStore V * list InsertOutcome) :=
  match vs with
  | [] => Some (s, [])
  | v :: vs' =>
      '(s1, o) ← store_insert s v;
      '(s2, os) ← insert_run s1 vs';
      Some (s2, o :: os)
  end.

(** How one insertion changes the record under a key. *)
Lemma store_insert_lookup s v s' o k :
  store_insert s v = Some (s', o) →
  records s' !! k = records s !! k ∨
  rec_key v = k ∧ records s' !! k = Some v ∧
    (∀ u, records s !! k = Some u → rec_published u < rec_published v).
Proof.
  unfold store_insert. cbv zeta. destruct (records s !! rec_key v) as [e|] eqn:Ee.
  - destruct (_ <? _) eqn:E1; [intros [= <- <-]; by left|].
    destruct (_ =? _) eqn:E2; [intros [= <- <-]; by left|].
    destruct (_ && _); [intros [= <- <-]; by left|].
    destruct (checked_sub _ _); [|done]. cbn [mbind option_bind].
    destruct (checked_add _ _ _); [|done]. cbn [mbind option_bind]. intros [= <- <-]. breflect.
    cbn [records]. destruct (decide (rec_key v = k)) as [<-|Hne].
    + right. rewrite lookup_insert_eq. split_and!; [done..|]. intros u Hu.
      assert (u = e) as -> by congruence. lia.
    + left. by rewrite lookup_insert_ne.
  - destruct (_ >=? _); [intros [= <- <-]; by left|].
    destruct (exceeds _ _); [intros [= <- <-]; by left|].
    destruct (checked_add _ _ _); [|done]. cbn [mbind option_bind]. intros [= <- <-].
    cbn [records]. destruct (decide (rec_key v = k)) as [<-|Hne].
    + right. rewrite lookup_insert_eq. split_and!; [done..|]. intros u Hu. congruence.
    + left. by rewrite lookup_insert_ne.
Qed.

(** Unless it is refused for capacity, an offered record is older than the
    stored one, or as old and later, or takes its place. *)
Lemma store_insert_admitted s v s' o :
  store_insert s v = Some (s', o) → o ≠ CapacityExceeded →
  ∃ u, records s' !! rec_key v = Some u ∧ rec_published v ≤ rec_published u.
Proof.
  unfold store_insert. cbv zeta. destruct (records s !! rec_key v) as [e|] eqn:Ee.
  - destruct (_ <? _) eqn:E1; [intros [= <- <-] _; breflect; exists e; split; [done|lia]|].
    destruct (_ =? _) eqn:E2; [intros [= <- <-] _; breflect; exists e; split; [done|lia]|].
    destruct (_ && _); [by intros [= <- <-]|].
    destruct (checked_sub _ _); [|done]. cbn [mbind option_bind].
    destruct (checked_add _ _ _); [|done]. cbn [mbind option_bind]. intros [= <- <-] _.
    exists v. cbn [records]. by rewrite lookup_insert_eq.
  - destruct (_ >=? _); [by intros [= <- <-]|]. destruct (exceeds _ _); [by intros [= <- <-]|].
    destruct (checked_add _ _ _); [|done]. cbn [mbind option_bind]. intros [= <- <-] _.
    exists v. cbn [records]. by rewrite lookup_insert_eq.
Qed.

Lemma insert_run_lookup s vs s' os k u :
  insert_run s vs = Some (s', os) → records s !! k = Some u →
  ∃ u', records s' !! k = Some u' ∧ (u' = u ∨ rec_published u < rec_published u').
Proof.
  revert s os u. induction vs as [|v vs IH]; intros s os u; cbn [insert_run].
  - intros [= <- <-] Hu. exists u. auto.
  - destruct (store_insert s v) as [[s1 o]|] eqn:E1; [|done]. cbn [mbind option_bind].
    destruct (insert_run s1 vs) as [[s2 os2]|] eqn:E2; [|done]. cbn [mbind option_bind].
    intros [= <- <-] Hu. destruct (store_insert_lookup s v s1 o k E1) as [Heq|(_ & Hv & Hlt)].
    + rewrite <- Heq in Hu. by eapply IH.
    + destruct (IH s1 os2 v E2 Hv) as (u' & Hu' & Hc). exists u'. split; [done|]. right.
      specialize (Hlt _ Hu). destruct Hc as [->|?]; lia.
Qed.

(** *** The specification: the newest record offered for a key

    Among records of the same age the first one stays. *)
Definition newer (k : bytes) (best : option V) (v : V) : option V :=
  if bool_decide (rec_key v = k)
  then match best with
       | None => Some v
       | Some b => if rec_published b <? rec_published v then Some v else Some b
       end
  else best.

Lemma store_insert_newer s v s' o k :
  store_insert s v = Some (s', o) → o ≠ CapacityExceeded →
  records s' !! k = newer k (records s !! k) v.
Proof.
  intros Hi Ho. unfold newer. destruct (bool_decide _) eqn:Ek.
  - apply bool_decide_eq_true in Ek as <-.
    destruct (store_insert_admitted s v s' o Hi Ho) as (u & Hu & Hle).
    destruct (store_insert_lookup s v s' o (rec_key v) Hi) as [Heq|(_ & Hv & Hlt)].
    + rewrite Heq in *. rewrite Hu. destruct (_ <? _) eqn:E; breflect; [lia|done].
    + rewrite Hv. destruct (records s !! rec_key v) as [b|]; [|done].
      specialize (Hlt b eq_refl). destruct (_ <? _) eqn:E; breflect; [done|lia].
  - apply bool_decide_eq_false in Ek.
    destruct (store_insert_lookup s v s' o k Hi) as [Heq|(Hk & _)]; [done|by destruct Ek].
Qed.

Lemma insert_run_newest s vs s' os k :
  insert_run s vs = Some (s', os) → CapacityExceeded ∉ os →
  records s' !! k = foldl (newer k) (records s !! k) vs.
Proof.
  revert s os. induction vs as [|v vs IH]; intros s os; cbn [insert_run foldl].
  - by intros [= <- <-].
  - destruct (store_insert s v) as [[s1 o]|] eqn:E1; [|done]. cbn [mbind option_bind].
    destruct (insert_run s1 vs) as [[s2 os2]|] eqn:E2; [|done]. cbn [mbind option_bind].
    intros [= <- <-] Hn. apply not_elem_of_cons in Hn as [Ho Hn].
    rewrite (IH s1 os2 E2 Hn). f_equal. by eapply store_insert_newer.
Qed.

Definition newest_of (k : bytes) (vs : list V) (v : V) : Prop := ∃ l1 l2,
  vs = l1 ++ v :: l2 ∧ rec_key v = k ∧
  (∀ u, u ∈ l1 → rec_key u = k → rec_published u < rec_published v) ∧
  (∀ u, u ∈ l2 → rec_key u = k → rec_published u ≤ rec_published v).

Lemma newest_snoc k vs v x :
  newest_of k (vs ++ [x]) v ↔
  (newest_of k vs v ∧ (rec_key x = k → rec_published x ≤ rec_published v)) ∨
  (v = x ∧ rec_key x = k ∧ ∀ u, u ∈ vs → rec_key u = k → rec_published u < rec_published x).
Proof.
  split.
  - intros (l1 & l2 & Heq & Hk & H1 & H2). destruct l2 as [|y l2 _] using rev_ind.
    + apply app_inj_tail in Heq as [-> ->]. by right.
    + rewrite app_comm_cons, app_assoc in Heq. apply app_inj_tail in Heq as [-> ->]. left. split.
      * exists l1, l2. split_and!; try done. intros u Hu. apply H2, elem_of_app. by left.
      * apply H2, elem_of_app. right. by apply list_elem_of_singleton.
  - intros [((l1 & l2 & -> & Hk & H1 & H2) & Hx)|(-> & Hk & H1)].
    + exists l1, (l2 ++ [x]). rewrite <- app_assoc. split_and!; try done.
      intros u [Hu|Hu]%elem_of_app; [by apply H2|]. by apply list_elem_of_singleton in Hu as ->.
    + exists vs, []. split_and!; try done. by intros u Hu%elem_of_nil.
Qed.

Lemma foldl_newest k vs :
  (∀ v, foldl (newer k) None vs = Some v ↔ newest_of k vs v) ∧
  (foldl (newer k) None vs = None → ∀ u, u ∈ vs → rec_key u ≠ k).
Proof.
  induction vs as [|x vs [IH1 IH2]] using rev_ind.
  - split; [|by intros _ u Hu%elem_of_nil]. intros v. cbn. split; [done|].
    by intros (l1 & l2 & Heq%(f_equal length) & _); rewrite length_app in Heq; cbn in Heq; lia.
  - rewrite foldl_app. cbn [foldl]. unfold newer at 1 3.
    destruct (bool_decide _) eqn:Ek.
    + apply bool_decide_eq_true in Ek. split.
      * intros v. rewrite newest_snoc. destruct (foldl _ _ _) as [b|] eqn:Eb.
        -- pose proof (proj1 (IH1 b) eq_refl) as Hb.
           assert (Hmax : ∀ u, u ∈ vs → rec_key u = k → rec_published u ≤ rec_published b).
           { destruct Hb as (l1 & l2 & -> & Hbk & H1 & H2).
             intros u [Hu|Hu]%elem_of_app Hk; [specialize (H1 u Hu Hk); lia|].
             apply elem_of_cons in Hu as [->|Hu]; [done|by apply H2]. }
           destruct (_ <? _) eqn:E; breflect; split.
           ++ intros [= <-]. right. split_and!; try done. intros u Hu Hk. specialize (Hmax u Hu Hk). lia.
           ++ intros [[Hv Hle]|(-> & _)]; [|done]. apply IH1 in Hv as [= <-]. specialize (Hle Ek). lia.
           ++ intros [= <-]. left. split; [done|]. intros _. lia.
           ++ intros [[Hv _]|(-> & _ & Hlt)]; [by apply IH1|]. destruct Hb as (l1 & l2 & -> & Hbk & _).
              assert (Hin : b ∈ l1 ++ b :: l2) by (apply elem_of_app; right; left).
              specialize (Hlt b Hin Hbk). lia.
        -- specialize (IH2 eq_refl). split.
           ++ intros [= <-]. right. split_and!; try done. intros u Hu Hk. by destruct (IH2 u Hu).
           ++ intros [[Hv _]|(-> & _)]; [by apply IH1 in Hv|done].
      * destruct (foldl _ _ _) as [b|]; [by destruct (_ <? _)|done].
    + apply bool_decide_eq_false in Ek. split.
      * intros v. rewrite newest_snoc, IH1. split; [|intros [[? _]|(_ & ? & _)]; done]. by left.
      * intros Hn u [Hu|Hu]%elem_of_app; [by apply IH2|]. by apply list_elem_of_singleton in Hu as ->.
Qed.
End runs.

(** ** Properties *)
Section properties.
Context {V : Type} `{StoreRecord V}.

(** A store never leaves its bounds and never panics.  From an empty store,
    whatever sequence of insertions, removals and prunings is applied, every
    operation succeeds (no accounting [expect] is reached), each record is under
    its own key, the byte counter is the sum of the stored lengths, and neither
    the counter nor the number of records exceeds the configured limit. *)
Theorem store_bounded c (ops : list (store_op (V := V)))
    (Hr : 0 ≤ max_records c) (Hb : 0 ≤ max_total_encoded_bytes c ≤ usize_max)
    (Hops : Forall (offers (λ _, True)) ops) :
  ∃ s, store_run (with_config c) ops = Some s ∧
    (∀ k v, records s !! k = Some v → rec_key v = k) ∧
    total_encoded_bytes s = map_sum rec_encoded_len (records s) ∧
    total_encoded_bytes s ≤ max_total_encoded_bytes c ∧ store_len s ≤ max_records c.
Proof.
  destruct (store_run_ok (λ _, True) (with_config c) ops) as (s & Hrun & Hok & _ & Hc).
  - by apply with_config_ok.
  - done.
  - done.
  - exists s. destruct Hok as [Ht Hk Hbytes Hcount _]. rewrite Hc in *. split_and!; try done.
    intros k v Hv. by apply Hk in Hv as [? _].
Qed.

(** No stored record is rolled back.  Through any sequence of insertions,
    the record under a key stays or is replaced by one published strictly later:
    neither an older record nor a different record of the same age displaces it,
    and no insertion evicts it. *)
Theorem store_no_rollback s vs s' os k (u : V)
    (Hrun : insert_run s vs = Some (s', os)) (Hu : store_get s k = Some u) :
  ∃ u', store_get s' k = Some u' ∧ (u' = u ∨ rec_published u < rec_published u').
Proof. by eapply insert_run_lookup. Qed.

(** C29: the store refines a newest-record table.  When no insertion was refused
    for lack of room, the record under a key is the newest of the records offered
    for it, and the first of them among records of the same age; a key has no
    record exactly when none was offered. *)
Theorem store_refines_newest c (vs : list V) s os k
    (Hrun : insert_run (with_config c) vs = Some (s, os)) (Hroom : CapacityExceeded ∉ os) :
  (∀ v, store_get s k = Some v ↔ newest_of k vs v) ∧
  (store_get s k = None ↔ ∀ u, u ∈ vs → rec_key u ≠ k).
Proof.
  unfold store_get. rewrite (insert_run_newest _ _ _ _ k Hrun Hroom). cbn [records with_config].
  rewrite lookup_empty. destruct (foldl_newest k vs) as [H1 H2]. split; [done|]. split; [done|].
  intros Hno. destruct (foldl _ _ _) as [v|] eqn:E; [|done].
  pose proof (proj1 (H1 v) eq_refl) as (l1 & l2 & -> & Hk & _).
  destruct (Hno v); [|done]. apply elem_of_app. right. left.
Qed.

(** Pruning removes exactly the stale records: a record stays if and only if
    its age is within the limit, and the number reported is the number removed. *)
Theorem store_prune_exact (s : BoundedStore V) now age
    (Hok : store_ok s) :
  ∃ s' n, store_prune s now age = Some (s', n) ∧ store_ok s' ∧
    n = store_len s - store_len s' ∧
    ∀ k v, store_get s' k = Some v ↔
      store_get s k = Some v ∧ saturating_sub now (rec_published v) ≤ age.
Proof.
  destruct (prune_exact s now age Hok) as (s' & n & Hp & Hok' & _ & Hn & Hall).
  exists s', n. split_and!; try done. intros k v. unfold store_get. rewrite Hall.
  unfold is_stale. rewrite Z.gtb_ltb, Z.ltb_ge. done.
Qed.
End properties.

Section authentic.
Context (sha256 : bytes → bytes) (ed25519_key : bytes → bool)
  (ed25519_verify : bytes → bytes → bytes → bool).

(** A record that came out of validation, at some time and under some policy. *)
Definition validated (v : ValidatedRouterInfo) : Prop := ∃ info expected ctx,
  router_info_ok info ∧ 0 ≤ max_age (vc_policy ctx) ∧ 0 ≤ max_future_skew (vc_policy ctx) ∧
  max_encoded_len (vc_policy ctx) ≤ usize_max ∧
  from_router_info sha256 ed25519_key ed25519_verify info expected ctx = Ok v.

Definition authentic (v : ValidatedRouterInfo) : Prop :=
  let info := vri_router_info v in
  vri_key v = sha256 (identity_bytes (ri_identity info)) ∧
  signed_by ed25519_key ed25519_verify (signing_key (identity_keys (ri_identity info)))
    (ri_signed_bytes info) (ri_signature info) ∧
  vri_encoded_len v = zlen (router_info_bytes info).

Lemma validated_authentic v : validated v → authentic v.
Proof.
  intros (info & e & ctx & Hok & Ha & Hs & Hl & Hv).
  apply from_router_info_iff in Hv as ([_ Hk _ Hsig _ _] & Hi & Hlen); try done.
  unfold authentic. by rewrite Hi.
Qed.

(** Everything the network database serves is authentic.  When only
    validated RouterInfos are inserted, every record it holds, after any
    operations, is stored under the SHA-256 of the identity it contains, is
    signed by that identity, and counts for its exact encoded length. *)
Theorem store_authentic c ops
    (Hr : 0 ≤ max_records c) (Hb : 0 ≤ max_total_encoded_bytes c ≤ usize_max)
    (Hops : Forall (offers validated) ops) :
  ∃ s, store_run (with_config c) ops = Some s ∧
    ∀ k v, store_get s k = Some v →
      k = sha256 (identity_bytes (ri_identity (vri_router_info v))) ∧ authentic v.
Proof.
  destruct (store_run_ok validated (with_config c) ops) as (s & Hrun & Hok & Hall & _).
  - by apply with_config_ok.
  - intros k v Hv. cbn in Hv. by rewrite lookup_empty in Hv.
  - done.
  - exists s. split; [done|]. intros k v Hv. pose proof (validated_authentic v (Hall k v Hv)) as Hau.
    split; [|done]. destruct (so_records s Hok k v Hv) as [<- _]. apply Hau.
Qed.
End authentic.

(** ** Witnesses *)
Definition sample_record (published : Z) : ValidatedRouterInfo :=
  mkValidatedRi (toy_sha256 (identity_bytes sample_identity))
    (mkRouterInfo sample_identity published [sample_address] [] sample_mapping
       (ri_unsigned_bytes sample_identity published [sample_address] [] sample_mapping)
       sample_ri_signature)
    (zlen (router_info_bytes sample_router_info)).

Lemma store_bounded_witness :
  ∃ s, store_run (with_config store_config_default)
    [OpInsert (sample_record 5); OpInsert (sample_record 9); OpPrune 100 50] = Some s ∧
    (∀ k v, records s !! k = Some v → rec_key v = k) ∧
    total_encoded_bytes s = map_sum rec_encoded_len (records s) ∧
    total_encoded_bytes s ≤ 4 * 1024 * 1024 ∧ store_len s ≤ 4096.
Proof.
  apply (store_bounded store_config_default).
  - vm_compute. discriminate.
  - vm_compute. split; discriminate.
  - repeat constructor; vm_compute; discriminate.
Defined.

Definition sample_store : BoundedStore ValidatedRouterInfo :=
  mkStore {[ rec_key (sample_record 5) := sample_record 5 ]}
    (rec_encoded_len (sample_record 5)) store_config_default.

Lemma store_no_rollback_witness :
  ∃ u', store_get (mkStore {[ rec_key (sample_record 5) := sample_record 9 ]}
           (rec_encoded_len (sample_record 5)) store_config_default) (rec_key (sample_record 5)) = Some u' ∧
    (u' = sample_record 5 ∨ rec_published (sample_record 5) < rec_published u').
Proof.
  apply (store_no_rollback sample_store [sample_record 9; sample_record 7] _
    [Replaced; StaleReplacement]).
  - vm_compute. reflexivity.
  - vm_compute. reflexivity.
Defined.

Lemma store_refines_newest_witness :
  newest_of (rec_key (sample_record 5)) [sample_record 5; sample_record 9; sample_record 7]
    (sample_record 9).
Proof.
  apply (store_refines_newest store_config_default
    [sample_record 5; sample_record 9; sample_record 7]
    (mkStore {[ rec_key (sample_record 5) := sample_record 9 ]}
       (rec_encoded_len (sample_record 5)) store_config_default)
    [Inserted; Replaced; StaleReplacement] (rec_key (sample_record 5))).
  - vm_compute. reflexivity.
  - apply (bool_decide_unpack _). vm_compute. constructor.
  - vm_compute. reflexivity.
Defined.

Lemma sample_store_ok : store_ok sample_store.
Proof.
  constructor; [vm_compute; reflexivity| |vm_compute; discriminate|vm_compute; discriminate|].
  - unfold sample_store. cbn [records]. intros k v [<- <-]%lookup_singleton_Some.
    split; [done|]. vm_compute. discriminate.
  - vm_compute. repeat split; discriminate.
Qed.

Lemma store_prune_exact_witness :
  ∃ s' n, store_prune sample_store 100 50 = Some (s', n) ∧ store_ok s' ∧
    n = store_len sample_store - store_len s' ∧
    ∀ k v, store_get s' k = Some v ↔
      store_get sample_store k = Some v ∧ saturating_sub 100 (rec_published v) ≤ 50.
Proof. apply store_prune_exact. apply sample_store_ok. Defined.

Lemma store_authentic_witness :
  ∃ s, store_run (with_config store_config_default) [OpInsert (sample_record 123456)] = Some s ∧
    ∀ k v, store_get s k = Some v →
      k = toy_sha256 (identity_bytes (ri_identity (vri_router_info v))) ∧
      authentic toy_sha256 toy_key toy_verify v.
Proof.
  apply store_authentic.
  - vm_compute. discriminate.
  - vm_compute. split; discriminate.
  - constructor; [|constructor]. split; [vm_compute; discriminate|].
    exists sample_router_info, None, (validation_context_new 200000).
    split_and!; [apply sample_router_info_ok|vm_compute; discriminate..|vm_compute; reflexivity].
Defined.
