(* ===== verification/Routing.v ===== *)
(** * Routing keys and nearest peers

    The pure routing rules of the network database
    ([i2pr-netdb/src/routing.rs]): the UTC date in the daily routing key, the
    XOR distance, and the selection of the nearest records. *)
From stdpp Require Import sorting.
From S2P Require Import Prelude Utf8 Codec Common Identity Mapping LeaseSet RouterInfo LeaseSet2 NetValidate NetStore.

(** ** The daily key *)
Inductive RoutingKeyError := DateOutOfRange (days : Z).

(** [civil_from_days]; every quantity is non-negative, so the truncating
    division of the code is [Z.div]. *)
Definition civil_from_days (days : Z) : Z * Z * Z :=
  let z := days + 719468 in
  let era := (if z >=? 0 then z else z - 146096) / 146097 in
  let doe := z - era * 146097 in
  let yoe := (doe - doe / 1460 + doe / 36524 - doe / 146096) / 365 in
  let y := yoe + era * 400 in
  let doy := doe - (365 * yoe + yoe / 4 - yoe / 100) in
  let mp := (5 * doy + 2) / 153 in
  let d := doy - (153 * mp + 2) / 5 + 1 in
  let m := if mp <? 10 then mp + 3 else mp - 9 in
  let y := if m <=? 2 then y + 1 else y in
  (y, m, d).

Definition write_two_digits (value : Z) : result RoutingKeyError bytes :=
  if value >=? 100 then Err (DateOutOfRange 0)
  else Ok [48 + value / 10; 48 + value mod 10].

Definition format_daily_key (millis : Z) : result RoutingKeyError bytes :=
  let days := millis / 86400000 in
  if days >? 1977337 then Err (DateOutOfRange days)
  else
  let '(y, m, d) := civil_from_days days in
  if negb (between 0 y 9999) then Err (DateOutOfRange days)
  else if negb (between 1 m 12) || negb (between 1 d 31) then Err (DateOutOfRange days)
  else
  a ← write_two_digits (y / 100);
  b ← write_two_digits (y mod 100);
  c ← write_two_digits m;
  e ← write_two_digits d;
  Ok (a ++ b ++ c ++ e).

Definition daily_routing_key (sha256 : bytes → bytes) (search_key : bytes) (now : Z)
    : result RoutingKeyError bytes :=
  date ← format_daily_key now;
  Ok (sha256 (search_key ++ date)).

(** ** Distance *)
Definition xor_distance (left right : bytes) : bytes := zip_with Z.lxor left right.

Record NearestSelection := mkNearest { ns_distance : bytes; ns_key : bytes }.

(** The derived order of byte arrays is lexicographic. *)
Definition nearest_cmp (a b : NearestSelection) : comparison :=
  match units_cmp (ns_distance a) (ns_distance b) with
  | Eq => units_cmp (ns_key a) (ns_key b)
  | c => c
  end.
Definition nearest_le (a b : NearestSelection) : Prop := nearest_cmp a b ≠ Gt.

#[export] Instance nearest_le_dec : RelDecision nearest_le.
Proof. intros a b. unfold nearest_le. apply not_dec. solve_decision. Defined.

(** Selection: collect, sort, truncate. *)
Definition select_nearest (n : Z) (candidates : list NearestSelection) : list NearestSelection :=
  take (Z.to_nat n) (merge_sort nearest_le candidates).

Definition candidate_of (target : bytes) (key : bytes) : NearestSelection :=
  mkNearest (xor_distance key target) key.

Definition nearest_floodfill (s : BoundedStore ValidatedRouterInfo) (target : bytes) (n : Z)
    : list NearestSelection :=
  if n =? 0 then []
  else select_nearest n ((λ v, candidate_of target (vri_key v)) <$> floodfill_advertisers s).

Definition nearest (s : BoundedStore ValidatedRouterInfo) (target : bytes) (n : Z)
    : list NearestSelection :=
  if n =? 0 then []
  else select_nearest n (candidate_of target <$> (map_to_list (records s)).*1).

(** ** The calendar

    The reference is the Gregorian rule for the day after a day. *)
Definition is_leap (y : Z) : bool :=
  ((y mod 4 =? 0) && negb (y mod 100 =? 0)) || (y mod 400 =? 0).
Definition days_in_month (y m : Z) : Z :=
  if m =? 2 then (if is_leap y then 29 else 28)
  else if (m =? 4) || (m =? 6) || (m =? 9) || (m =? 11) then 30 else 31.
Definition next_day '((y, m, d) : Z * Z * Z) : Z * Z * Z :=
  if d <? days_in_month y m then (y, m, d + 1)
  else if m <? 12 then (y, m + 1, 1)
  else (y + 1, 1, 1).

(** The algorithm counts years from March in 400-year eras; a year is
    [100c + 4q + r] of its era, and has a 366th day when the calendar year that
    its January belongs to is leap. *)
Record era_day := mkEra { e_era : Z; e_c : Z; e_q : Z; e_r : Z; e_doy : Z }.
Definition e_leap (e : era_day) : bool := (e_r e =? 3) && (negb (e_q e =? 24) || (e_c e =? 3)).
Definition e_year (e : era_day) : Z := 400 * e_era e + 100 * e_c e + 4 * e_q e + e_r e.
Definition e_number (e : era_day) : Z :=
  146097 * e_era e + 36524 * e_c e + 1461 * e_q e + 365 * e_r e + e_doy e.
Record era_ok (e : era_day) : Prop := {
  eo_era : 0 ≤ e_era e;
  eo_c : 0 ≤ e_c e ≤ 3;
  eo_q : 0 ≤ e_q e ≤ 24;
  eo_r : 0 ≤ e_r e ≤ 3;
  eo_doy : 0 ≤ e_doy e ≤ 364 + Z.b2z (e_leap e);
}.

(** Month and day from the day of the March year. *)
Definition month_day (year doy : Z) : Z * Z * Z :=
  let mp := (5 * doy + 2) / 153 in
  let d := doy - (153 * mp + 2) / 5 + 1 in
  let m := if mp <? 10 then mp + 3 else mp - 9 in
  ((if m <=? 2 then year + 1 else year), m, d).

Section calendar.
Lemma year_of_era c q r doy leap :
  0 ≤ c ≤ 3 → 0 ≤ q ≤ 24 → 0 ≤ r ≤ 3 → 0 ≤ doy ≤ 364 + leap →
  0 ≤ leap ≤ 1 → (leap = 1 → r = 3 ∧ (q ≠ 24 ∨ c = 3)) →
  let doe := 36524 * c + 1461 * q + 365 * r + doy in
  (doe - doe / 1460 + doe / 36524 - doe / 146096) / 365 = 100 * c + 4 * q + r.
Proof.
  intros Hc Hq Hr Hd Hl Hleap doe.
  assert (Hdoe : doe = 36524 * c + 1461 * q + 365 * r + doy) by done. clearbody doe.
  assert (H1 : doe / 1460 = 25 * c + q + (24 * c + q + 365 * r + doy) / 1460).
  { replace doe with (24 * c + q + 365 * r + doy + (25 * c + q) * 1460) by lia.
    rewrite Z.div_add by lia. lia. }
  assert (H2 : doe / 36524 - doe / 146096 = c).
  { destruct (Z.eq_dec doe 146096) as [E|Hne].
    { rewrite E. change (146096 / 36524) with 4. change (146096 / 146096) with 1. lia. }
    rewrite (Z.div_small doe 146096) by lia. rewrite Z.sub_0_r. symmetry.
    apply (Z.div_unique _ _ _ (1461 * q + 365 * r + doy)); [left; lia|lia]. }
  symmetry. apply (Z.div_unique _ _ _ (doy - (24 * c + q + 365 * r + doy) / 1460)); [left|lia].
  pose proof (Z.div_mod (24 * c + q + 365 * r + doy) 1460 ltac:(lia)).
  pose proof (Z.mod_pos_bound (24 * c + q + 365 * r + doy) 1460 ltac:(lia)). lia.
Qed.

Lemma e_leap_spec e : e_leap e = true ↔ e_r e = 3 ∧ (e_q e ≠ 24 ∨ e_c e = 3).
Proof. unfold e_leap. rewrite andb_true_iff, orb_true_iff, negb_true_iff. lia. Qed.

(** The algorithm finds the year of the era and the day of the year. *)
Lemma civil_of_era e :
  era_ok e → civil_from_days (e_number e - 719468) = month_day (e_year e) (e_doy e).
Proof.
  intros [He Hc Hq Hr Hd]. unfold civil_from_days. cbv zeta.
  replace (e_number e - 719468 + 719468) with (e_number e) by lia.
  set (doe := 36524 * e_c e + 1461 * e_q e + 365 * e_r e + e_doy e) in *.
  assert (Hl : 0 ≤ Z.b2z (e_leap e) ≤ 1) by (destruct (e_leap e); cbn; lia).
  assert (Hl2 : Z.b2z (e_leap e) = 1 → e_r e = 3 ∧ (e_q e ≠ 24 ∨ e_c e = 3)).
  { intros Hb. apply e_leap_spec. by destruct (e_leap e). }
  assert (Hn : e_number e = e_era e * 146097 + doe) by (unfold e_number, doe; lia).
  assert (Hdoe : 0 ≤ doe < 146097) by (unfold doe; lia).
  assert (Hera : e_number e / 146097 = e_era e).
  { symmetry. apply (Z.div_unique _ _ _ doe); [left; lia|lia]. }
  destruct (e_number e >=? 0) eqn:E; [|breflect; lia]. rewrite Hera.
  replace (e_number e - e_era e * 146097) with doe by lia.
  pose proof (year_of_era _ _ _ _ _ Hc Hq Hr Hd Hl Hl2) as Hyoe. cbv zeta in Hyoe. fold doe in Hyoe.
  rewrite Hyoe.
  assert (H4 : (100 * e_c e + 4 * e_q e + e_r e) / 4 = 25 * e_c e + e_q e).
  { symmetry. apply (Z.div_unique _ _ _ (e_r e)); [left; lia|lia]. }
  assert (H100 : (100 * e_c e + 4 * e_q e + e_r e) / 100 = e_c e).
  { symmetry. apply (Z.div_unique _ _ _ (4 * e_q e + e_r e)); [left; lia|lia]. }
  rewrite H4, H100. unfold month_day, e_year.
  replace (doe - (365 * (100 * e_c e + 4 * e_q e + e_r e) + (25 * e_c e + e_q e) - e_c e))
    with (e_doy e) by (unfold doe; lia).
  replace (100 * e_c e + 4 * e_q e + e_r e + e_era e * 400)
    with (400 * e_era e + 100 * e_c e + 4 * e_q e + e_r e) by lia.
  done.
Qed.

(** January and February of the year after are leap with the March year. *)
Lemma era_leap e : era_ok e → is_leap (e_year e + 1) = e_leap e.
Proof.
  intros [He Hc Hq Hr _]. unfold is_leap, e_leap, e_year. apply eq_true_iff_eq.
  rewrite !orb_true_iff, !andb_true_iff, !negb_true_iff, !orb_true_iff, !negb_true_iff.
  rewrite !Z.eqb_eq, !Z.eqb_neq.
  set (y := 400 * e_era e + 100 * e_c e + 4 * e_q e + e_r e + 1).
  assert (H4 : y mod 4 = (e_r e + 1) mod 4).
  { unfold y. replace (_ + 1) with (e_r e + 1 + (100 * e_era e + 25 * e_c e + e_q e) * 4) by lia.
    apply Z.mod_add. lia. }
  assert (H100 : y mod 100 = (4 * e_q e + e_r e + 1) mod 100).
  { unfold y. replace (_ + 1) with (4 * e_q e + e_r e + 1 + (4 * e_era e + e_c e) * 100) by lia.
    apply Z.mod_add. lia. }
  assert (H400 : y mod 400 = (100 * e_c e + 4 * e_q e + e_r e + 1) mod 400).
  { unfold y. replace (_ + 1) with (100 * e_c e + 4 * e_q e + e_r e + 1 + e_era e * 400) by lia.
    apply Z.mod_add. lia. }
  rewrite H4, H100, H400. clear H4 H100 H400 y.
  generalize dependent (e_c e). generalize dependent (e_q e). generalize dependent (e_r e).
  intros r Hr q Hq c Hc. Z.div_mod_to_equations. lia.
Qed.

Definition e_next (e : era_day) : era_day :=
  if e_doy e <? 364 + Z.b2z (e_leap e) then mkEra (e_era e) (e_c e) (e_q e) (e_r e) (e_doy e + 1)
  else if e_r e <? 3 then mkEra (e_era e) (e_c e) (e_q e) (e_r e + 1) 0
  else if e_q e <? 24 then mkEra (e_era e) (e_c e) (e_q e + 1) 0 0
  else if e_c e <? 3 then mkEra (e_era e) (e_c e + 1) 0 0 0
  else mkEra (e_era e + 1) 0 0 0 0.

Lemma e_next_ok e : era_ok e → era_ok (e_next e) ∧ e_number (e_next e) = e_number e + 1.
Proof.
  intros [He Hc Hq Hr Hd]. unfold e_next, e_number.
  assert (Hl : 0 ≤ Z.b2z (e_leap e) ≤ 1) by (destruct (e_leap e); cbn; lia).
  assert (Hl2 : Z.b2z (e_leap e) = 1 ↔ e_r e = 3 ∧ (e_q e ≠ 24 ∨ e_c e = 3)).
  { rewrite <- e_leap_spec. by destruct (e_leap e). }
  assert (Hb : ∀ x, 0 ≤ Z.b2z (e_leap x)) by (intros x; destruct (e_leap x); cbn; lia).
  destruct (e_doy e <? _) eqn:E1; breflect.
  { split; [constructor; cbn [e_era e_c e_q e_r e_doy]; try done|cbn; lia].
    change (e_leap (mkEra _ _ _ _ _)) with (e_leap e). lia. }
  destruct (e_r e <? 3) eqn:E2; breflect;
    [|destruct (e_q e <? 24) eqn:E3; breflect; [|destruct (e_c e <? 3) eqn:E4; breflect]];
    (split; [constructor; cbn [e_era e_c e_q e_r e_doy]; try lia;
               (split; [lia|match goal with |- _ ≤ 364 + Z.b2z (e_leap ?x) => specialize (Hb x); lia end])
            |cbn [e_era e_c e_q e_r e_doy]; lia]).
Qed.

Lemma era_of_number z : 0 ≤ z → ∃ e, era_ok e ∧ e_number e = z.
Proof.
  intros Hz. pattern z. apply natlike_ind; [| |done].
  - exists (mkEra 0 0 0 0 0). split; [by constructor; cbn; lia|done].
  - intros x _ (e & He & <-). exists (e_next e). by apply e_next_ok.
Qed.

(** A day of the March year by its month: [mp] months have gone by. *)
Lemma month_day_at y doy mp :
  0 ≤ mp ≤ 11 → (153 * mp + 2) / 5 ≤ doy < (153 * (mp + 1) + 2) / 5 →
  month_day y doy =
    (if mp <? 10 then (y, mp + 3, doy - (153 * mp + 2) / 5 + 1)
     else (y + 1, mp - 9, doy - (153 * mp + 2) / 5 + 1)).
Proof.
  intros Hmp Hd. unfold month_day. cbv zeta.
  assert (Hdiv : (5 * doy + 2) / 153 = mp) by (Z.div_mod_to_equations; lia).
  rewrite Hdiv. destruct (mp <? 10) eqn:E; breflect.
  - destruct (mp + 3 <=? 2) eqn:E2; breflect; [lia|done].
  - destruct (mp - 9 <=? 2) eqn:E2; breflect; [done|lia].
Qed.

(** The twelve months, from March. *)
Lemma month_of_doy doy :
  0 ≤ doy < 366 → ∃ mp, 0 ≤ mp ≤ 11 ∧ (153 * mp + 2) / 5 ≤ doy < (153 * (mp + 1) + 2) / 5.
Proof. intros Hd. exists ((5 * doy + 2) / 153). Z.div_mod_to_equations. lia. Qed.

(** The day after, inside a month and at its end. *)
Lemma next_day_inside y m d : d < days_in_month y m → next_day (y, m, d) = (y, m, d + 1).
Proof. intros Hd. unfold next_day. by destruct (d <? days_in_month y m) eqn:E; breflect; [|lia]. Qed.
Lemma next_day_last y m d :
  d = days_in_month y m → next_day (y, m, d) = if m <? 12 then (y, m + 1, 1) else (y + 1, 1, 1).
Proof. intros ->. unfold next_day. by rewrite Z.ltb_irrefl. Qed.

Lemma date_eq (y m d y' m' d' : Z) : y = y' → m = m' → d = d' → (y, m, d) = (y', m', d').
Proof. congruence. Qed.

(** The slope [153 / 5] gives the months from March to January their lengths. *)
Lemma month_length y mp :
  0 ≤ mp ≤ 10 →
  days_in_month y (if mp <? 10 then mp + 3 else mp - 9) = (153 * (mp + 1) + 2) / 5 - (153 * mp + 2) / 5.
Proof.
  intros Hmp.
  assert (Hcase : mp = 0 ∨ mp = 1 ∨ mp = 2 ∨ mp = 3 ∨ mp = 4 ∨ mp = 5 ∨ mp = 6 ∨ mp = 7 ∨ mp = 8
    ∨ mp = 9 ∨ mp = 10) by lia.
  by repeat (destruct Hcase as [->|Hcase]); try subst mp.
Qed.

(** Within a March year the month rule follows the calendar. *)
Lemma month_step y doy leap :
  is_leap (y + 1) = leap → 0 ≤ doy ≤ 364 + Z.b2z leap →
  next_day (month_day y doy)
  = if doy <? 364 + Z.b2z leap then month_day y (doy + 1) else month_day (y + 1) 0.
Proof.
  intros Hleap Hd. assert (Hb : 0 ≤ Z.b2z leap ≤ 1) by (destruct leap; cbn; lia).
  assert (Hfeb : days_in_month (y + 1) 2 = 28 + Z.b2z leap).
  { unfold days_in_month. cbn. rewrite Hleap. by destruct leap. }
  clear Hleap. generalize dependent (Z.b2z leap). intros l Hd Hb Hfeb.
  destruct (month_of_doy doy ltac:(lia)) as (mp & Hmp & Hdoy).
  rewrite (month_day_at _ _ _ Hmp Hdoy).
  destruct (Z.eq_dec mp 11) as [->|Hne].
  { change (11 <? 10) with false. change (11 - 9) with 2. change ((153 * 11 + 2) / 5) with 337 in *.
    change ((153 * (11 + 1) + 2) / 5) with 367 in *. cbv iota.
    destruct (doy <? 364 + l) eqn:E; breflect.
    - rewrite (month_day_at y (doy + 1) 11); [|lia|change ((153 * (11 + 1) + 2) / 5) with 367;
        change ((153 * 11 + 2) / 5) with 337; lia].
      rewrite next_day_inside by lia. apply date_eq; [done|done|]. change ((153 * 11 + 2) / 5) with 337. lia.
    - rewrite next_day_last by lia. done. }
  destruct (doy <? 364 + l) eqn:E; breflect; [|Z.div_mod_to_equations; lia].
  pose proof (month_length y mp ltac:(lia)) as Hlen. pose proof (month_length (y + 1) mp ltac:(lia)) as Hlen1.
  destruct (Z.eq_dec (doy + 1) ((153 * (mp + 1) + 2) / 5)) as [Heq|Hneq].
  - rewrite (month_day_at y (doy + 1) (mp + 1)) by (Z.div_mod_to_equations; lia).
    destruct (mp <? 10) eqn:E10, (mp + 1 <? 10) eqn:E11; breflect; try lia;
      rewrite next_day_last by lia; case_match; breflect; try lia; apply date_eq; lia.
  - rewrite (month_day_at y (doy + 1) mp) by lia.
    destruct (mp <? 10); rewrite next_day_inside by lia; apply date_eq; lia.
Qed.

Lemma e_next_date e :
  era_ok e → next_day (month_day (e_year e) (e_doy e)) = month_day (e_year (e_next e)) (e_doy (e_next e)).
Proof.
  intros Hok. destruct Hok as [He Hc Hq Hr Hd] eqn:Hok'. clear Hok'.
  rewrite (month_step _ _ _ (era_leap e Hok)) by done. unfold e_next.
  destruct (e_doy e <? _) eqn:E; [done|]. unfold e_year.
  destruct (e_r e <? 3) eqn:E1; breflect; [cbn [e_era e_c e_q e_r e_doy]; f_equal; lia|].
  destruct (e_q e <? 24) eqn:E2; breflect; [cbn [e_era e_c e_q e_r e_doy]; f_equal; lia|].
  destruct (e_c e <? 3) eqn:E3; breflect; cbn [e_era e_c e_q e_r e_doy]; f_equal; lia.
Qed.

Lemma civil_from_days_next n :
  0 ≤ n → civil_from_days (n + 1) = next_day (civil_from_days n).
Proof.
  intros Hn. destruct (era_of_number (n + 719468) ltac:(lia)) as (e & He & Hnum).
  destruct (e_next_ok e He) as [Hok' Hnum'].
  pose proof (civil_of_era e He) as H0. pose proof (civil_of_era _ Hok') as H1.
  replace (e_number e - 719468) with n in H0 by lia.
  replace (e_number (e_next e) - 719468) with (n + 1) in H1 by lia.
  rewrite H0, H1. symmetry. by apply e_next_date.
Qed.
End calendar.

(** ** The formatted date *)
Section daily_key.
Definition MAX_DAYS : Z := 1977337.

(** Later days have larger dates. *)
Definition date_rank '((y, m, d) : Z * Z * Z) : Z := 372 * y + 31 * (m - 1) + (d - 1).
Definition date_ok '((y, m, d) : Z * Z * Z) : Prop := 0 ≤ y ∧ 1 ≤ m ≤ 12 ∧ 1 ≤ d ≤ days_in_month y m.

Lemma days_in_month_bounds y m : 28 ≤ days_in_month y m ≤ 31.
Proof. unfold days_in_month. repeat case_match; lia. Qed.

Lemma next_day_ok x : date_ok x → date_ok (next_day x) ∧ date_rank x < date_rank (next_day x).
Proof.
  destruct x as [[y m] d]. intros (Hy & Hm & Hd). unfold next_day. pose proof (days_in_month_bounds y m).
  pose proof (days_in_month_bounds y (m + 1)). pose proof (days_in_month_bounds (y + 1) 1).
  repeat case_match; breflect; unfold date_ok, date_rank; lia.
Qed.

Lemma civil_ok n : 0 ≤ n → date_ok (civil_from_days n).
Proof.
  intros Hn. pattern n. apply natlike_ind; [by vm_compute; split_and!; try done| |done].
  intros x Hx IH. change (Z.succ x) with (x + 1). rewrite civil_from_days_next by done. by apply next_day_ok.
Qed.

Lemma civil_rank_mono a b : 0 ≤ a < b → date_rank (civil_from_days a) < date_rank (civil_from_days b).
Proof.
  intros [Ha Hb]. assert (Hk : 0 ≤ b - a - 1) by lia. replace b with (a + 1 + (b - a - 1)) by lia. revert Hk.
  generalize (b - a - 1). clear b Hb. intros k Hk. pattern k. apply natlike_ind; [| |done].
  - rewrite Z.add_0_r, civil_from_days_next by done. by apply next_day_ok, civil_ok.
  - intros x Hx IH. replace (a + 1 + Z.succ x) with (a + 1 + x + 1) by lia.
    rewrite (civil_from_days_next (a + 1 + x)) by lia.
    destruct (next_day_ok (civil_from_days (a + 1 + x))) as [_ ?]; [apply civil_ok; lia|lia].
Qed.

Lemma civil_inj a b : 0 ≤ a → 0 ≤ b → civil_from_days a = civil_from_days b → a = b.
Proof.
  intros Ha Hb E. destruct (Z.lt_trichotomy a b) as [Hlt|[?|Hlt]]; [|done|].
  - pose proof (civil_rank_mono a b ltac:(lia)) as Hr. rewrite E in Hr. lia.
  - pose proof (civil_rank_mono b a ltac:(lia)) as Hr. rewrite E in Hr. lia.
Qed.

Lemma civil_year_bound n y m d :
  0 ≤ n ≤ MAX_DAYS → civil_from_days n = (y, m, d) → y ≤ 9999.
Proof.
  unfold MAX_DAYS. intros Hn. destruct (era_of_number (n + 719468) ltac:(lia)) as (e & He & Hnum).
  pose proof (civil_of_era e He) as H0. replace (e_number e - 719468) with n in H0 by lia. rewrite H0.
  unfold month_day. destruct He. unfold e_number in Hnum. unfold e_year.
  intros [= <- _ _]. case_match; lia.
Qed.

Lemma two_digits v : 0 ≤ v < 100 → write_two_digits v = Ok [48 + v / 10; 48 + v mod 10].
Proof. intros Hv. unfold write_two_digits. by destruct (v >=? 100) eqn:E; breflect; [lia|]. Qed.

Definition date_digits '((y, m, d) : Z * Z * Z) : bytes :=
  [48 + y / 1000; 48 + y / 100 mod 10; 48 + y / 10 mod 10; 48 + y mod 10;
   48 + m / 10; 48 + m mod 10; 48 + d / 10; 48 + d mod 10].

Lemma format_daily_key_ok now :
  0 ≤ now → now / 86400000 ≤ MAX_DAYS →
  format_daily_key now = Ok (date_digits (civil_from_days (now / 86400000))).
Proof.
  intros Hnow Hmax. unfold format_daily_key. cbv zeta. unfold MAX_DAYS in Hmax.
  assert (Hd0 : 0 ≤ now / 86400000) by (apply Z.div_pos; lia).
  pose proof (civil_ok _ Hd0) as Hok. pose proof (civil_year_bound (now / 86400000)) as Hb.
  destruct (_ >? _) eqn:E; breflect; [lia|]. clear E.
  destruct (civil_from_days _) as [[y m] d]. destruct Hok as (Hy & Hm & Hd).
  pose proof (days_in_month_bounds y m). specialize (Hb y m d ltac:(unfold MAX_DAYS; lia) eq_refl).
  unfold between.
  destruct (negb (_ && (y <=? 9999))) eqn:E1; [breflect; lia|].
  destruct (negb _ || negb _) eqn:E2; [breflect; lia|]. clear E1 E2.
  rewrite (two_digits (y / 100)) by (Z.div_mod_to_equations; lia).
  rewrite (two_digits (y mod 100)) by (Z.div_mod_to_equations; lia).
  rewrite (two_digits m), (two_digits d) by lia. cbn [mbind result_bind app date_digits].
  assert (y / 100 / 10 = y / 1000) as -> by (rewrite Z.div_div by lia; done).
  assert (y mod 100 / 10 = y / 10 mod 10) as -> by (Z.div_mod_to_equations; lia).
  assert ((y mod 100) mod 10 = y mod 10) as -> by (Z.div_mod_to_equations; lia). done.
Qed.

Lemma date_digits_inj x x' :
  date_digits x = date_digits x' → x = x'.
Proof.
  destruct x as [[y m] d], x' as [[y' m'] d']. intros E. cbn [date_digits] in E.
  injection E as H1 H2 H3 H4 H5 H6 H7 H8. apply date_eq; Z.div_mod_to_equations; lia.
Qed.
End daily_key.

(** ** Nearest records *)
Section nearest.
(** What a selection of the [n] keys nearest to [target] is: strictly
    increasing distances, as many as there are, and no key left out is nearer. *)
Record nearest_spec (keys : list bytes) (target : bytes) (n : Z) (l : list NearestSelection) : Prop := {
  nr_sorted : StronglySorted (λ a b, units_cmp (ns_distance a) (ns_distance b) = Lt) l;
  nr_count : zlen l = n `min` zlen keys;
  nr_from : ∀ x, x ∈ l → ns_key x ∈ keys ∧ x = candidate_of target (ns_key x);
  nr_nearest : ∀ k x, k ∈ keys → candidate_of target k ∉ l → x ∈ l →
    units_cmp (ns_distance x) (xor_distance k target) = Lt;
}.

Lemma nearest_cmp_eq a b : nearest_cmp a b = Eq ↔ a = b.
Proof.
  unfold nearest_cmp. destruct a as [da ka], b as [db kb]. cbn [ns_distance ns_key].
  destruct (units_cmp da db) eqn:E.
  - apply units_cmp_eq in E as ->. rewrite units_cmp_eq. split; [by intros ->|congruence].
  - split; [done|]. intros [= -> ->]. by rewrite (proj2 (units_cmp_eq _ _) eq_refl) in E.
  - split; [done|]. intros [= -> ->]. by rewrite (proj2 (units_cmp_eq _ _) eq_refl) in E.
Qed.

Lemma nearest_cmp_antisym a b : nearest_cmp b a = CompOpp (nearest_cmp a b).
Proof.
  unfold nearest_cmp. rewrite (units_cmp_antisym (ns_distance a)).
  destruct (units_cmp (ns_distance a) _); cbn [CompOpp]; [apply units_cmp_antisym|done..].
Qed.

Lemma nearest_cmp_trans a b c :
  nearest_cmp a b = Lt → nearest_cmp b c = Lt → nearest_cmp a c = Lt.
Proof.
  unfold nearest_cmp. destruct (units_cmp (ns_distance a) _) eqn:E1; [| |done].
  - apply units_cmp_eq in E1 as ->. destruct (units_cmp (ns_distance b) _); [|done|done].
    apply units_cmp_trans.
  - intros _. destruct (units_cmp (ns_distance b) _) eqn:E2; [| |done].
    + apply units_cmp_eq in E2 as <-. by rewrite E1.
    + by rewrite (units_cmp_trans _ _ _ E1 E2).
Qed.

#[local] Instance nearest_le_trans : Transitive nearest_le.
Proof.
  intros a b c. unfold nearest_le.
  destruct (nearest_cmp a b) eqn:E1; [apply nearest_cmp_eq in E1 as ->; done| |done]. intros _.
  destruct (nearest_cmp b c) eqn:E2; [apply nearest_cmp_eq in E2 as ->; by rewrite E1| |done].
  by rewrite (nearest_cmp_trans _ _ _ E1 E2).
Qed.
#[local] Instance nearest_le_total : Total nearest_le.
Proof.
  intros a b. unfold nearest_le. rewrite (nearest_cmp_antisym a b).
  by destruct (nearest_cmp a b); [left|left|right].
Qed.

Lemma xor_distance_inj k1 k2 target :
  length k1 = length target → length k2 = length target →
  xor_distance k1 target = xor_distance k2 target → k1 = k2.
Proof.
  revert k1 k2. induction target as [|t target IH]; intros [|a k1] [|b k2]; try done.
  cbn. intros [= H1] [= H2] [= Hab Hk]. f_equal; [|by apply IH].
  apply (f_equal (λ x, Z.lxor x t)) in Hab. by rewrite !Z.lxor_assoc, Z.lxor_nilpotent, !Z.lxor_0_r in Hab.
Qed.

(** Between two distinct keys the distance alone decides. *)
Lemma nearest_le_distance target k1 k2 :
  length k1 = length target → length k2 = length target → k1 ≠ k2 →
  nearest_le (candidate_of target k1) (candidate_of target k2) →
  units_cmp (xor_distance k1 target) (xor_distance k2 target) = Lt.
Proof.
  intros H1 H2 Hne. unfold nearest_le, nearest_cmp, candidate_of. cbn [ns_distance ns_key].
  destruct (units_cmp _ _) eqn:E; [|done|done].
  by apply units_cmp_eq, xor_distance_inj in E.
Qed.

Lemma strict_sorted target (ks : list bytes) :
  NoDup ks → Forall (λ k, length k = length target) ks →
  StronglySorted nearest_le (candidate_of target <$> ks) →
  StronglySorted (λ a b, units_cmp (ns_distance a) (ns_distance b) = Lt) (candidate_of target <$> ks).
Proof.
  induction 1 as [|k ks Hk _ IH]; intros Hlen Hs; cbn [fmap list_fmap] in *; [constructor|].
  apply StronglySorted_cons in Hs as [Hall Hs]. apply Forall_cons in Hlen as [Hlk Hlen].
  constructor; [by apply IH|]. rewrite Forall_fmap in *. rewrite Forall_forall in *.
  intros k' Hk'. cbn. apply nearest_le_distance; [done|by apply Hlen|by intros ->|by apply Hall].
Qed.

Lemma candidates_keys target (l : list NearestSelection) keys :
  l ≡ₚ candidate_of target <$> keys → ∃ ks, l = candidate_of target <$> ks ∧ ks ≡ₚ keys.
Proof. intros (ks & -> & Hp)%Permutation_map_inv. by exists ks. Qed.

Lemma select_nearest_spec keys target n :
  NoDup keys → (∀ k, k ∈ keys → length k = length target) → 0 ≤ n →
  nearest_spec keys target n (select_nearest n (candidate_of target <$> keys)).
Proof.
  intros Hnd Hlen Hn. unfold select_nearest.
  destruct (candidates_keys target _ keys (merge_sort_Permutation nearest_le _)) as (ks & Hks & Hperm).
  pose proof (StronglySorted_merge_sort nearest_le (candidate_of target <$> keys)) as Hs.
  rewrite Hks in Hs |- *. apply strict_sorted in Hs.
  2: by rewrite Hperm. 2: { apply Forall_forall. intros k Hk. apply Hlen. by rewrite <- Hperm. }
  rewrite <- (take_drop (Z.to_nat n) (candidate_of target <$> ks)) in Hs.
  apply StronglySorted_app in Hs as (Hcross & Hs1 & _). constructor.
  - done.
  - unfold zlen. rewrite length_take, length_fmap, Hperm. lia.
  - intros x Hx. apply elem_of_take in Hx as (i & Hi & _). apply list_elem_of_lookup_2 in Hi.
    apply list_elem_of_fmap in Hi as (k & -> & Hk). cbn. by rewrite <- Hperm.
  - intros k x Hk Hnot Hx. apply (Hcross x (candidate_of target k) Hx).
    rewrite <- Hperm in Hk. apply (list_elem_of_fmap_2 (candidate_of target)) in Hk.
    rewrite <- (take_drop (Z.to_nat n) (_ <$> ks)), elem_of_app in Hk. by destruct Hk.
Qed.

(** The keys of the records a selection is over. *)
Definition stored_keys (s : BoundedStore ValidatedRouterInfo) : list bytes := (map_to_list (records s)).*1.
Definition floodfill_keys (s : BoundedStore ValidatedRouterInfo) : list bytes :=
  (filter (λ kv, advertises_floodfill kv.2 = true) (map_to_list (records s))).*1.

Lemma advertiser_keys s : store_ok s → vri_key <$> floodfill_advertisers s = floodfill_keys s.
Proof.
  intros Hok. unfold floodfill_advertisers, floodfill_keys.
  assert (Hkeys : Forall (λ kv, vri_key kv.2 = kv.1) (map_to_list (records s))).
  { apply Forall_forall. intros [k v] Hin%elem_of_map_to_list. by apply (so_records s Hok) in Hin as []. }
  induction Hkeys as [|[k v] l Hk _ IH]; [done|]. cbn [fmap list_fmap fst snd] in *. rewrite !filter_cons.
  cbn [snd]. destruct (decide (advertises_floodfill v = true)); cbn [fmap list_fmap fst]; [|done].
  by f_equal.
Qed.

Lemma floodfill_keys_NoDup s : NoDup (floodfill_keys s).
Proof.
  unfold floodfill_keys. apply (sublist_NoDup _ (map_to_list (records s)).*1); [apply NoDup_fst_map_to_list|].
  apply fmap_sublist, sublist_filter.
Qed.

Lemma floodfill_keys_spec s k :
  k ∈ floodfill_keys s ↔ ∃ v, store_get s k = Some v ∧ advertises_floodfill v = true.
Proof.
  unfold floodfill_keys, store_get. rewrite list_elem_of_fmap. split.
  - intros ([k' v] & -> & [Hf Hin]%list_elem_of_filter). exists v. by rewrite <- elem_of_map_to_list.
  - intros (v & Hv & Hf). exists (k, v). split; [done|]. apply list_elem_of_filter.
    by rewrite elem_of_map_to_list.
Qed.

Lemma stored_keys_spec s k : k ∈ stored_keys s ↔ is_Some (store_get s k).
Proof.
  unfold stored_keys, store_get. rewrite list_elem_of_fmap. split.
  - intros ([k' v] & -> & Hin%elem_of_map_to_list). by exists v.
  - intros [v Hv]. exists (k, v). by rewrite elem_of_map_to_list.
Qed.

Lemma nearest_spec_NoDup keys target n l : nearest_spec keys target n l → NoDup (ns_key <$> l).
Proof.
  intros [Hs _ Hf _]. apply (NoDup_fmap_2_strong _ l).
  - intros x y Hx Hy E. destruct (Hf x Hx) as [_ ->], (Hf y Hy) as [_ ->]. cbn. by rewrite E.
  - clear Hf. induction Hs as [|x l Hs IH Hx]; constructor; [|done]. intros Hin.
    rewrite Forall_forall in Hx. specialize (Hx x Hin). by rewrite (proj2 (units_cmp_eq _ _) eq_refl) in Hx.
Qed.

Lemma nearest_spec_zero keys target : nearest_spec keys target 0 [].
Proof.
  constructor; [constructor|unfold zlen; cbn; lia|by intros x Hx%not_elem_of_nil|].
  by intros k x _ _ Hx%not_elem_of_nil.
Qed.
End nearest.

(** ** Properties *)

(** The day [n] days after 1 January 1970, counted one day at a time. *)
Definition calendar_day (n : nat) : Z * Z * Z := Nat.iter n next_day (1970, 1, 1).

(** The date conversion is the calendar.  The closed formula for the date
    of day [n] since the epoch gives what counting [n] days forward from 1 January
    1970 by the Gregorian rule gives, for every [n]. *)
Lemma civil_is_calendar (n : nat) : civil_from_days (Z.of_nat n) = calendar_day n.
Proof.
  induction n as [|n IH]; [done|]. rewrite Nat2Z.inj_succ. change (Z.succ (Z.of_nat n)) with (Z.of_nat n + 1).
  rewrite civil_from_days_next by lia. by rewrite IH.
Qed.
Lemma civil_calendar_day days : 0 ≤ days → civil_from_days days = calendar_day (Z.to_nat days).
Proof. intros H. rewrite <- civil_is_calendar. by rewrite Z2Nat.id. Qed.

Lemma format_daily_key_late now : MAX_DAYS < now / 86400000 → format_daily_key now = Err (DateOutOfRange (now / 86400000)).
Proof. unfold MAX_DAYS. intros Ht. unfold format_daily_key. cbv zeta. by destruct (_ >? _) eqn:E; breflect; [|lia]. Qed.

Lemma format_daily_key_same a b :
  0 ≤ a → 0 ≤ b → a / 86400000 ≤ MAX_DAYS → format_daily_key a = format_daily_key b ↔ a / 86400000 = b / 86400000.
Proof.
  intros Ha Hb Hmax. rewrite (format_daily_key_ok a Ha Hmax). split.
  - destruct (Z.le_gt_cases (b / 86400000) MAX_DAYS) as [Hm|Hm]; [|by rewrite format_daily_key_late by lia].
    rewrite (format_daily_key_ok b Hb Hm). intros E%Ok_inj. apply civil_inj, date_digits_inj; [..|done]; apply Z.div_pos; lia.
  - intros E. rewrite format_daily_key_ok by lia. by rewrite E.
Qed.

(** C35: the routing key of a record changes exactly at midnight UTC.  For a
    time up to the last day accepted, the date in the key is the
    eight decimal digits of the Gregorian date reached by counting days one
    by one from 1 January 1970, the routing key is the digest of the search
    key followed by these digits, and another time has the same date exactly
    when it lies on the same UTC day.  The last day accepted is 7 October 7383;
    every later time is refused with its day number. *)
Theorem daily_routing_key_exact sha256 key a b (Ha : 0 ≤ a) (Hb : 0 ≤ b) :
  let day t := t / 86400000 in
  let date := date_digits (calendar_day (Z.to_nat (day a))) in
  calendar_day (Z.to_nat MAX_DAYS) = (7383, 10, 7) ∧
  (day a ≤ MAX_DAYS →
   format_daily_key a = Ok date ∧ zlen date = 8 ∧
   daily_routing_key sha256 key a = Ok (sha256 (key ++ date)) ∧
   (format_daily_key a = format_daily_key b ↔ day a = day b)) ∧
  (MAX_DAYS < day a → daily_routing_key sha256 key a = Err (DateOutOfRange (day a))).
Proof.
  cbv zeta. rewrite <- (civil_calendar_day MAX_DAYS), <- (civil_calendar_day (a / 86400000)) by (first [done|apply Z.div_pos; lia]).
  split_and!; [vm_compute; reflexivity| |].
  - intros Hmax. unfold daily_routing_key. split_and!; [by apply format_daily_key_ok| | |by apply format_daily_key_same].
    + by destruct (civil_from_days _) as [[y m] d].
    + by rewrite format_daily_key_ok.
  - intros Hmax. unfold daily_routing_key. by rewrite format_daily_key_late.
Qed.

(** Nearest-peer selection is exact.  Over a well-formed store whose keys are
    as long as the target, [nearest] returns the [n] stored keys (all of them
    when there are fewer) nearest to the target by XOR distance, in strictly
    increasing distance; [nearest_floodfill] does the same over exactly the
    records that advertise floodfill. *)
Theorem nearest_exact (s : BoundedStore ValidatedRouterInfo) (target : bytes) n
    (Hok : store_ok s) (Hlen : ∀ k v, store_get s k = Some v → length k = length target) (Hn : 0 ≤ n) :
  nearest_spec (stored_keys s) target n (nearest s target n) ∧
  nearest_spec (floodfill_keys s) target n (nearest_floodfill s target n) ∧
  (∀ k, k ∈ stored_keys s ↔ is_Some (store_get s k)) ∧
  (∀ k, k ∈ floodfill_keys s ↔ ∃ v, store_get s k = Some v ∧ advertises_floodfill v = true).
Proof.
  split_and!; [| |apply stored_keys_spec|apply floodfill_keys_spec].
  - unfold nearest. destruct (n =? 0) eqn:E; breflect; [subst; apply nearest_spec_zero|].
    apply select_nearest_spec; [apply NoDup_fst_map_to_list| |done].
    intros k [v Hv]%stored_keys_spec. by eapply Hlen.
  - unfold nearest_floodfill. destruct (n =? 0) eqn:E; breflect; [subst; apply nearest_spec_zero|].
    change (λ v, candidate_of target (vri_key v)) with (candidate_of target ∘ vri_key).
    rewrite list_fmap_compose, (advertiser_keys s Hok).
    apply select_nearest_spec; [apply floodfill_keys_NoDup| |done].
    intros k (v & Hv & _)%floodfill_keys_spec. by eapply Hlen.
Qed.

(** ** Witnesses *)
Lemma daily_routing_key_exact_witness :
  daily_routing_key toy_sha256 [7] 5184000001 = Ok (toy_sha256 [7; 49; 57; 55; 48; 48; 51; 48; 50]) ∧
  format_daily_key 5184000001 = format_daily_key 5270399999.
Proof.
  pose proof (daily_routing_key_exact toy_sha256 [7] 5184000001 5270399999 ltac:(lia) ltac:(lia)) as (_ & H & _).
  destruct (H ltac:(vm_compute; discriminate)) as (_ & _ & Hk & Hs). split; [exact Hk|]. apply Hs. reflexivity.
Defined.

Lemma nearest_exact_witness :
  nearest_spec (stored_keys sample_store) (replicate 32 7) 1 (nearest sample_store (replicate 32 7) 1).
Proof.
  apply (nearest_exact sample_store (replicate 32 7) 1).
  - apply sample_store_ok.
  - unfold sample_store, store_get. cbn [records]. intros k v [<- <-]%lookup_singleton_Some.
    vm_compute. reflexivity.
  - lia.
Defined.
