(* ===== verification/Lookup.v ===== *)
(** * Iterative lookups

    The lookup state machine of the network database:
    [i2pr-netdb/src/lookup_policy.rs], [lookup_id.rs], [lookup_action.rs],
    [databaselookup.rs] and [lookup_engine.rs].  One lookup asks floodfill
    routers for a record, nearest first; replies complete it or add
    suggestions.  An [expect] that would panic is [None]; the counters of a
    lookup are unbounded here and shown to stay below 258. *)
From stdpp Require Import sorting.
From S2P Require Import Prelude Utf8 Codec Common Identity Mapping LeaseSet RouterInfo LeaseSet2 EncryptedLeaseSet I2np NetValidate NetStore Routing.

(** ** Policy *)
Definition MAX_SUGGESTED_HASH_LIMIT : Z := 256.
Definition DEFAULT_SUGGESTED_HASH_LIMIT : Z := 64.
Definition DEFAULT_MAX_PEERS_PER_LOOKUP : Z := 8.
Definition DEFAULT_TOTAL_DEADLINE_MS : Z := 5000.
Definition DEFAULT_PER_ATTEMPT_DEADLINE_MS : Z := 1500.
Definition DEFAULT_MAX_SUGGESTED_HASHES : Z := 128.
Definition DEFAULT_MAX_CANDIDATES_CONSIDERED : Z := 32.

Record LookupPolicy := mkLookupPolicy {
  max_candidates_considered : Z;
  max_peers_per_lookup : Z;
  max_suggested_hashes : Z;
  suggested_hash_limit : Z;
  total_deadline_ms : Z;
  per_attempt_deadline_ms : Z;
}.

Inductive LookupPolicyError :=
  | ZeroCandidates | ZeroPeers | PeerBudgetExceedsCandidates | ZeroSuggestedHashes
  | ZeroSuggestedHashLimit | SuggestedHashLimitExceedsCeiling | SuggestedHashLimitExceedsTotal
  | ZeroPerAttemptDeadline | TotalDeadlineBelowPerAttempt.

Definition lookup_policy_new (candidates peers suggested limit total per_attempt : Z)
    : result LookupPolicyError LookupPolicy :=
  if candidates =? 0 then Err ZeroCandidates
  else if peers =? 0 then Err ZeroPeers
  else if peers >? candidates then Err PeerBudgetExceedsCandidates
  else if suggested =? 0 then Err ZeroSuggestedHashes
  else if limit =? 0 then Err ZeroSuggestedHashLimit
  else if limit >? MAX_SUGGESTED_HASH_LIMIT then Err SuggestedHashLimitExceedsCeiling
  else if limit >? suggested then Err SuggestedHashLimitExceedsTotal
  else if per_attempt =? 0 then Err ZeroPerAttemptDeadline
  else if total <? per_attempt then Err TotalDeadlineBelowPerAttempt
  else Ok (mkLookupPolicy candidates peers suggested limit total per_attempt).

Definition lookup_policy_default : result LookupPolicyError LookupPolicy :=
  lookup_policy_new DEFAULT_MAX_CANDIDATES_CONSIDERED DEFAULT_MAX_PEERS_PER_LOOKUP
    DEFAULT_MAX_SUGGESTED_HASHES DEFAULT_SUGGESTED_HASH_LIMIT DEFAULT_TOTAL_DEADLINE_MS
    DEFAULT_PER_ATTEMPT_DEADLINE_MS.

(** [select_floodfill_candidates]: the excluded set always holds the target. *)
Definition select_floodfill_candidates (s : BoundedStore ValidatedRouterInfo)
    (target routing_key : bytes) (excluded_hashes : list bytes) (p : LookupPolicy)
    : list NearestSelection :=
  let excluded : gset bytes := {[ target ]} ∪ list_to_set excluded_hashes in
  let candidates :=
    candidate_of routing_key <$>
      filter (λ key, key ∉ excluded) (vri_key <$> floodfill_advertisers s) in
  select_nearest (max_candidates_considered p) candidates.

(** ** Identity, reply paths and waiters *)
Inductive LookupKind := KindRouterInfo | KindLeaseSet2.
#[export] Instance LookupKind_eq_dec : EqDecision LookupKind.
Proof. solve_decision. Defined.

Definition wire_code (k : LookupKind) : Z := match k with KindRouterInfo => 2 | KindLeaseSet2 => 1 end.

Record LookupId := mkLookupId { li_request_id : Z; li_kind : LookupKind; li_target : bytes }.
#[export] Instance LookupId_eq_dec : EqDecision LookupId.
Proof. solve_decision. Defined.

Definition MAX_WAITERS_PER_LOOKUP : Z := 32.
Definition MAX_COALESCED_LOOKUPS : Z := 8.

Record ReplyPath := mkReplyPath { rp_gateway : bytes; rp_tunnel_id : Z }.
Inductive ReplyPathError := ZeroTunnelId.
Definition reply_path_new (gateway : bytes) (tunnel_id : Z) : result ReplyPathError ReplyPath :=
  if tunnel_id =? 0 then Err ZeroTunnelId else Ok (mkReplyPath gateway tunnel_id).

(** [WaiterSet] is the list of its request ids. *)
Definition waiter_add (w : list Z) (request_id : Z) : list Z * bool :=
  if bool_decide (request_id ∈ w) then (w, false)
  else if zlen w >=? MAX_WAITERS_PER_LOOKUP then (w, false)
  else (w ++ [request_id], true).
Fixpoint waiter_remove (w : list Z) (request_id : Z) : list Z * bool :=
  match w with
  | [] => ([], false)
  | value :: w' =>
      if value =? request_id then (w', true)
      else let '(w'', found) := waiter_remove w' request_id in (value :: w'', found)
  end.

Definition coalesced_add (targets : list bytes) (target : bytes) : list bytes * bool :=
  if bool_decide (target ∈ targets) then (targets, false)
  else if zlen targets >=? MAX_COALESCED_LOOKUPS then (targets, false)
  else (targets ++ [target], true).

(** [CoalescedRouterInfoLookup] *)
Definition add_waiter (m : gmap bytes (list Z)) (target : bytes) (request_id : Z)
    : gmap bytes (list Z) * bool :=
  let '(w, added) := waiter_add (default [] (m !! target)) request_id in
  (<[target := w]> m, added).
Definition remove_waiter (m : gmap bytes (list Z)) (target : bytes) (request_id : Z)
    : gmap bytes (list Z) * bool :=
  match m !! target with
  | Some w =>
      let '(w', removed) := waiter_remove w request_id in
      (if zlen w' =? 0 then delete target m else <[target := w']> m, removed)
  | None => (m, false)
  end.
Definition target_count (m : gmap bytes (list Z)) : Z := Z.of_nat (size m).
Definition waiter_count (m : gmap bytes (list Z)) (target : bytes) : Z :=
  from_option zlen 0 (m !! target).

(** ** Actions and results *)
Definition MAX_COMPRESSED_ROUTER_INFO_BYTES : Z := 16 * 1024.
Definition MAX_DECOMPRESSED_ROUTER_INFO_BYTES : Z := 32 * 1024.
Definition LOOKUP_EXCLUDED_PEER_BUDGET : Z := 256.
Definition MAX_ELS2_INNER_LEASE_SET_LENGTH : Z := 8 * 1024.
Definition MAX_ELS2_OUTER_CIPHERTEXT_LENGTH : Z :=
  MAX_ELS2_INNER_LEASE_SET_LENGTH + 2 * ENCRYPTED_LEASE_SET2_SALT_LENGTH + 2.
Definition MAX_ELS2_RECORD_LENGTH : Z := MAX_ELS2_OUTER_CIPHERTEXT_LENGTH + 128.

(** The messages of the router, with its own record types. *)
Abbreviation StoreMessage := (DatabaseStoreMessage LeaseSet LeaseSet2 MetaLeaseSet EncryptedLeaseSet2).
Abbreviation Body := (I2npBody LeaseSet LeaseSet2 MetaLeaseSet EncryptedLeaseSet2).
Abbreviation Message := (I2npMessage LeaseSet LeaseSet2 MetaLeaseSet EncryptedLeaseSet2).

Inductive LookupFinalState :=
  | FinalSuccess | FinalPeerExhausted | FinalTimeout | FinalCancelled | FinalPathUnavailable
  | FinalNoEligibleCandidates.

Record LookupOutcome := mkOutcome {
  lo_kind : LookupKind;
  lo_target : bytes;
  lo_final_state : LookupFinalState;
  lo_attempts : Z;
  lo_suggestions_merged : Z;
}.

Inductive LookupAction :=
  | SendDatabaselookup (lookup_id : LookupId) (peer : bytes) (message : DatabaseLookupMessage)
  | NeedExploratoryReplyPath (lookup_id : LookupId)
  | Complete (lookup_id : LookupId) (outcome : LookupOutcome).

Record LookupDiagnostics := mkDiagnostics { diag_attempts : Z; diag_suggestions_merged : Z }.
Definition diagnostics_default : LookupDiagnostics := mkDiagnostics 0 0.

Inductive LookupResult :=
  | Success (lookup_id : LookupId) (router_info : ValidatedRouterInfo)
  | LeaseSet2Success (lookup_id : LookupId) (lease_set2 : ValidatedLeaseSet2)
  | EncryptedLeaseSet2Success (lookup_id : LookupId) (message : StoreMessage)
  | Failure (lookup_id : LookupId) (final_state : LookupFinalState)
      (diagnostics : LookupDiagnostics).

Inductive LookupEngineError :=
  | IdentityMismatch (actual expected : LookupId)
  | ReplyPathLate | WaiterCapacityExceeded | LookupTerminal.

Inductive DatabaseLookupBuildError :=
  | ReplyPathMissing
  | ExcludedPeersTooLarge (actual maximum : Z)
  | CodecRejected (context : string).

(** ** State *)
Record ActiveLookup := mkActive {
  al_kind : LookupKind;
  al_target : bytes;
  al_reply_path : option ReplyPath;
  al_excluded : list bytes;
  al_queried : list bytes;
  al_suggestions : list bytes;
  al_attempts : Z;
  al_suggestions_merged : Z;
}.

Definition active_new (id : LookupId) : ActiveLookup :=
  mkActive (li_kind id) (li_target id) None [li_target id] [] [] 0 0.
Definition al_diagnostics (a : ActiveLookup) : LookupDiagnostics :=
  mkDiagnostics (al_attempts a) (al_suggestions_merged a).
Definition set_reply_path (path : ReplyPath) (a : ActiveLookup) : ActiveLookup :=
  mkActive (al_kind a) (al_target a) (Some path) (al_excluded a) (al_queried a) (al_suggestions a)
    (al_attempts a) (al_suggestions_merged a).
(** [state.queried.push(key); state.attempts += 1] *)
Definition push_queried (key : bytes) (a : ActiveLookup) : ActiveLookup :=
  mkActive (al_kind a) (al_target a) (al_reply_path a) (al_excluded a) (al_queried a ++ [key])
    (al_suggestions a) (al_attempts a + 1) (al_suggestions_merged a).
(** [active.suggestions.push(peer); active.suggestions_merged += 1] *)
Definition push_suggestion (peer : bytes) (a : ActiveLookup) : ActiveLookup :=
  mkActive (al_kind a) (al_target a) (al_reply_path a) (al_excluded a) (al_queried a)
    (al_suggestions a ++ [peer]) (al_attempts a) (al_suggestions_merged a + 1).

Record RouterInfoLookup := mkRouterInfoLookup {
  policy : LookupPolicy;
  active : option ActiveLookup;
  active_request_id : option Z;
}.
Definition lookup_new (p : LookupPolicy) : RouterInfoLookup := mkRouterInfoLookup p None None.
Definition set_active_request_id (l : RouterInfoLookup) (id : Z) : RouterInfoLookup :=
  mkRouterInfoLookup (policy l) (active l) (Some id).
(** [lookup.active = None; lookup.active_request_id = None] *)
Definition clear_active (l : RouterInfoLookup) : RouterInfoLookup :=
  mkRouterInfoLookup (policy l) None None.
Definition set_active (a : ActiveLookup) (l : RouterInfoLookup) : RouterInfoLookup :=
  mkRouterInfoLookup (policy l) (Some a) (active_request_id l).

Inductive AdvanceOutcome :=
  | Attempt (peer : bytes) (message : DatabaseLookupMessage)
  | NeedsPath
  | AdvanceTerminal (reason : LookupFinalState).

Inductive StartOutcome :=
  | PendingAttempt (action : LookupAction)
  | NeedsReplyPath (action : LookupAction)
  | StartTerminal (outcome : LookupResult).

Inductive ResponseOutcome := Completed (outcome : LookupResult) | Continue | Ignored.
Inductive DeliveryOutcome := Delivered | TransportFailure | Timeout | DuplicateOrStale.

Inductive DecompressionError (ErrorKind : Type) :=
  | DecompressEmpty
  | CompressedTooLarge (actual maximum : Z)
  | DecompressedTooLarge (actual maximum : Z)
  | DecompressIo (kind : ErrorKind) (context : string)
  | RouterInfoDecode (error : CodecError).
Arguments DecompressEmpty {_}.
Arguments CompressedTooLarge {_} _ _.
Arguments DecompressedTooLarge {_} _ _.
Arguments DecompressIo {_} _ _.
Arguments RouterInfoDecode {_} _.

Section engine.
Context (sha256 : bytes → bytes) (ed25519_key : bytes → bool)
  (ed25519_verify : bytes → bytes → bytes → bool).
(** The gzip decoder: what its reads return, and the error that ends them. *)
Context (ErrorKind : Type) (gz_reads : bytes → list bytes * option ErrorKind).

(** [build_databaselookup] *)
Definition lookup_message (target : bytes) (kind : LookupKind) (path : ReplyPath)
    (excluded : list bytes) : DatabaseLookupMessage :=
  mkLookup target (rp_gateway path) true (Some (rp_tunnel_id path)) (wire_code kind) excluded NoEncryption.

Definition build_databaselookup (target : bytes) (kind : LookupKind) (reply_path : option ReplyPath)
    (excluded : list bytes) : result DatabaseLookupBuildError DatabaseLookupMessage :=
  if zlen excluded >? LOOKUP_EXCLUDED_PEER_BUDGET
  then Err (ExcludedPeersTooLarge (zlen excluded) LOOKUP_EXCLUDED_PEER_BUDGET)
  else
  match reply_path with
  | None => Err ReplyPathMissing
  | Some path =>
      let message := lookup_message target kind path excluded in
      match body_to_vec sha256 LeaseSet LeaseSet2 MetaLeaseSet EncryptedLeaseSet2
              (DatabaseLookup _ _ _ _ message) MAX_I2NP_PAYLOAD_SIZE with
      | Err _ => Err (CodecRejected "encode")
      | Ok _ => Ok message
      end
  end.

(** ** Driving a lookup *)
Definition active_lookup (l : RouterInfoLookup) : option (option LookupId) :=
  match active l with
  | None => Some None
  | Some a =>
      id ← active_request_id l;
      Some (Some (mkLookupId id (al_kind a) (al_target a)))
  end.

Fixpoint advance_attempt (l : RouterInfoLookup) (a : ActiveLookup) (entries : list NearestSelection)
    : RouterInfoLookup * AdvanceOutcome :=
  match entries with
  | [] =>
      (set_active a l,
       AdvanceTerminal (if zlen (al_queried a) =? 0 then FinalNoEligibleCandidates
                        else FinalPeerExhausted))
  | entry :: entries' =>
      let key := ns_key entry in
      if bool_decide (key ∈ al_queried a) || bool_decide (key ∈ al_excluded a)
      then advance_attempt l a entries'
      else
      match al_reply_path a with
      | None => (set_active a l, NeedsPath)
      | Some path =>
          let a' := push_queried key a in
          let excluded := filter (λ hash, hash ≠ key) (al_excluded a' ++ al_queried a') in
          match build_databaselookup (al_target a') (al_kind a') (Some path) excluded with
          | Err _ => (set_active a' l, AdvanceTerminal FinalPeerExhausted)
          | Ok message => (set_active a' l, Attempt key message)
          end
      end
  end.

Definition handle_start_outcome (l : RouterInfoLookup) (outcome : AdvanceOutcome) (id : LookupId)
    : option (RouterInfoLookup * StartOutcome) :=
  match outcome with
  | Attempt peer message => Some (l, PendingAttempt (SendDatabaselookup id peer message))
  | NeedsPath => Some (l, NeedsReplyPath (NeedExploratoryReplyPath id))
  | AdvanceTerminal reason =>
      a ← active l;
      Some (clear_active l, StartTerminal (Failure id reason (al_diagnostics a)))
  end.

Definition start (l : RouterInfoLookup) (s : BoundedStore ValidatedRouterInfo) (id : LookupId)
    (routing_key : bytes) : option (RouterInfoLookup * StartOutcome) :=
  match active l with
  | Some _ => Some (l, StartTerminal (Failure id FinalCancelled diagnostics_default))
  | None =>
      let l1 := set_active_request_id l (li_request_id id) in
      let a := active_new id in
      let selection :=
        select_floodfill_candidates s (al_target a) routing_key (al_excluded a) (policy l1) in
      let '(l2, outcome) := advance_attempt l1 a selection in
      handle_start_outcome l2 outcome id
  end.

(** [cancel] never returns an action. *)
Definition cancel (l : RouterInfoLookup) : option (RouterInfoLookup * option LookupAction) :=
  match active l with
  | None => Some (l, None)
  | Some _ => _ ← active_request_id l; Some (clear_active l, None)
  end.

Definition accept_reply_path (l : RouterInfoLookup) (id : LookupId) (path : ReplyPath)
    : option (RouterInfoLookup * bool) :=
  active_id ← active_lookup l;
  match active_id, active l with
  | Some actual, Some a =>
      if bool_decide (actual ≠ id) then Some (l, false)
      else Some (set_active (set_reply_path path a) l, true)
  | _, _ => Some (l, false)
  end.

Definition handle_pending_after_path (l : RouterInfoLookup) (s : BoundedStore ValidatedRouterInfo)
    (routing_key : bytes) : option (RouterInfoLookup * StartOutcome) :=
  active_id ← active_lookup l;
  match active_id, active l with
  | Some id, Some a =>
      match al_reply_path a with
      | None => Some (l, NeedsReplyPath (NeedExploratoryReplyPath id))
      | Some _ =>
          let selection :=
            select_floodfill_candidates s (al_target a) routing_key (al_excluded a) (policy l) in
          let '(l1, outcome) := advance_attempt l a selection in
          handle_start_outcome l1 outcome id
      end
  | _, _ =>
      Some (l, StartTerminal (Failure (mkLookupId 0 KindRouterInfo (repeat 0 32)) FinalCancelled
                                diagnostics_default))
  end.

(** ** Responses *)

(** The reads of the gzip decoder, each bounded as it arrives. *)
Fixpoint decompress_loop (buf : bytes) (chunks : list bytes) (final : option ErrorKind)
    : result (DecompressionError ErrorKind) bytes :=
  match chunks with
  | [] =>
      match final with
      | None => Ok buf
      | Some kind => Err (DecompressIo kind "decompress-input")
      end
  | chunk :: chunks' =>
      if match checked_add usize_max (zlen buf) (zlen chunk) with
         | None => true
         | Some total => total >? MAX_DECOMPRESSED_ROUTER_INFO_BYTES
         end
      then Err (DecompressedTooLarge (zlen buf + zlen chunk) MAX_DECOMPRESSED_ROUTER_INFO_BYTES)
      else decompress_loop (buf ++ chunk) chunks' final
  end.

Definition decompress_router_info (compressed : bytes) : result (DecompressionError ErrorKind) bytes :=
  if zlen compressed =? 0 then Err DecompressEmpty
  else if zlen compressed >? MAX_COMPRESSED_ROUTER_INFO_BYTES
  then Err (CompressedTooLarge (zlen compressed) MAX_COMPRESSED_ROUTER_INFO_BYTES)
  else let '(chunks, final) := gz_reads compressed in decompress_loop [] chunks final.

(** The opening of every handler: no active lookup, another lookup, or this one. *)
Definition check_active (l : RouterInfoLookup) (id : LookupId)
    : result LookupEngineError (option ActiveLookup) :=
  match active l with
  | None => Ok None
  | Some a =>
      request_id ← ok_or LookupTerminal (active_request_id l);
      let active_id := mkLookupId request_id (al_kind a) (al_target a) in
      if bool_decide (active_id ≠ id) then Err (IdentityMismatch id active_id) else Ok (Some a)
  end.

(** The RouterInfo a [DatabaseStore] carries for [target], if it is one. *)
Definition read_store_response (target : bytes) (m : StoreMessage) (context : ValidationContext)
    : option ValidatedRouterInfo :=
  if bool_decide (store_key _ _ _ _ m ≠ target) then None
  else
  match store_data _ _ _ _ m with
  | RouterInfoCompressed _ _ _ _ compressed =>
      match decompress_router_info compressed with
      | Err _ => None
      | Ok decompressed =>
          if zlen decompressed >? MAX_DECOMPRESSED_ROUTER_INFO_BYTES then None
          else
          match router_info_decode decompressed (zlen decompressed) with
          | Err _ => None
          | Ok info =>
              match router_hash sha256 (ri_identity info) with
              | Err _ => None
              | Ok derived_key =>
                  if bool_decide (derived_key ≠ target) then None
                  else
                  match from_router_info sha256 ed25519_key ed25519_verify info (Some target) context with
                  | Err _ => None
                  | Ok validated => Some validated
                  end
              end
          end
      end
  | _ => None
  end.

Definition handle_database_store (l : RouterInfoLookup) (s : BoundedStore ValidatedRouterInfo)
    (id : LookupId) (m : StoreMessage) (context : ValidationContext)
    : option (RouterInfoLookup * BoundedStore ValidatedRouterInfo
              * result LookupEngineError ResponseOutcome) :=
  match check_active l id with
  | Err e => Some (l, s, Err e)
  | Ok None => Some (l, s, Ok Ignored)
  | Ok (Some a) =>
      match read_store_response (al_target a) m context with
      | None => Some (l, s, Ok Continue)
      | Some validated =>
          '(s', _) ← store_insert s validated;
          Some (clear_active l, s', Ok (Completed (Success id validated)))
      end
  end.

Definition handle_database_store_lease_set2 (l : RouterInfoLookup) (s : BoundedStore ValidatedLeaseSet2)
    (id : LookupId) (m : StoreMessage) (context : LeaseSet2ValidationContext)
    : option (RouterInfoLookup * BoundedStore ValidatedLeaseSet2
              * result LookupEngineError ResponseOutcome) :=
  match check_active l id with
  | Err e => Some (l, s, Err e)
  | Ok None => Some (l, s, Ok Ignored)
  | Ok (Some a) =>
      if bool_decide (al_kind a ≠ KindLeaseSet2) then Some (l, s, Ok Continue)
      else if bool_decide (store_key _ _ _ _ m ≠ al_target a) then Some (l, s, Ok Continue)
      else
      match store_data _ _ _ _ m with
      | LeaseSet2Data v =>
          match from_lease_set2 sha256 ed25519_key ed25519_verify v (Some (al_target a)) context with
          | Err _ => Some (l, s, Ok Continue)
          | Ok validated =>
              '(s', _) ← store_insert s validated;
              Some (clear_active l, s', Ok (Completed (LeaseSet2Success id validated)))
          end
      | EncryptedLeaseSetData _ _ _ _ record =>
          match els2_encode record MAX_ELS2_RECORD_LENGTH with
          | Err _ => Some (l, s, Ok Continue)
          | Ok _ => Some (clear_active l, s, Ok (Completed (EncryptedLeaseSet2Success id m)))
          end
      | _ => Some (l, s, Ok Continue)
      end
  end.

(** The loop over the first [limit] hashes of a search reply. *)
Fixpoint merge_suggestions (a : ActiveLookup) (peers : list bytes) (max_suggested : Z) : ActiveLookup :=
  match peers with
  | [] => a
  | peer :: peers' =>
      if bool_decide (peer ∈ al_queried a) || bool_decide (peer ∈ al_excluded a)
      then merge_suggestions a peers' max_suggested
      else if bool_decide (peer ∈ al_suggestions a) then merge_suggestions a peers' max_suggested
      else if zlen (al_suggestions a) >=? max_suggested then a
      else merge_suggestions (push_suggestion peer a) peers' max_suggested
  end.

Definition handle_search_reply (l : RouterInfoLookup) (id : LookupId) (reply : DatabaseSearchReplyMessage)
    (max_suggested hash_limit : Z) : RouterInfoLookup * result LookupEngineError ResponseOutcome :=
  match check_active l id with
  | Err e => (l, Err e)
  | Ok None => (l, Ok Ignored)
  | Ok (Some a) =>
      let limit := hash_limit `min` zlen (peer_hashes reply) in
      (set_active (merge_suggestions a (take (Z.to_nat limit) (peer_hashes reply)) max_suggested) l,
       Ok Continue)
  end.

Definition handle_delivery_outcome (l : RouterInfoLookup) (id : LookupId) (outcome : DeliveryOutcome)
    : RouterInfoLookup * result LookupEngineError ResponseOutcome :=
  match check_active l id with
  | Err e => (l, Err e)
  | Ok None => (l, Ok Ignored)
  | Ok (Some _) =>
      match outcome with
      | Delivered => (l, Ok Continue)
      | TransportFailure | Timeout => (l, Ok Continue)
      | DuplicateOrStale => (l, Ok Continue)
      end
  end.

Definition handle_databasestore_message (l : RouterInfoLookup) (s : BoundedStore ValidatedRouterInfo)
    (id : LookupId) (m : Message) (context : ValidationContext)
    : option (RouterInfoLookup * BoundedStore ValidatedRouterInfo
              * result LookupEngineError ResponseOutcome) :=
  match m with
  | mkMessage _ (DatabaseStore body) => handle_database_store l s id body context
  | _ => Some (l, s, Ok Ignored)
  end.

Definition handle_searchreply_message (l : RouterInfoLookup) (id : LookupId) (m : Message)
    (p : LookupPolicy) : RouterInfoLookup * result LookupEngineError ResponseOutcome :=
  match m with
  | mkMessage _ (DatabaseSearchReply _ _ _ _ body) =>
      handle_search_reply l id body (max_suggested_hashes p) (suggested_hash_limit p)
  | _ => (l, Ok Ignored)
  end.
End engine.

(** ** The invariant of a lookup *)
Definition path_ok (path : ReplyPath) : Prop :=
  hash_ok (rp_gateway path) ∧ fits 32 (rp_tunnel_id path) ∧ rp_tunnel_id path ≠ 0.

Record active_ok (p : LookupPolicy) (a : ActiveLookup) : Prop := {
  ao_excluded : al_excluded a = [al_target a];
  ao_target_hash : hash_ok (al_target a);
  ao_path : from_option path_ok True (al_reply_path a);
  ao_started : al_queried a = [] ∨ is_Some (al_reply_path a);
  ao_distinct : NoDup (al_queried a);
  ao_target : al_target a ∉ al_queried a;
  ao_hashes : Forall hash_ok (al_queried a);
  ao_budget : zlen (al_queried a) ≤ LOOKUP_EXCLUDED_PEER_BUDGET;
  ao_attempts : al_attempts a = zlen (al_queried a);
  ao_suggestions : NoDup (al_suggestions a);
  ao_suggested : al_target a ∉ al_suggestions a;
  ao_merged : al_suggestions_merged a = zlen (al_suggestions a);
  ao_suggested_bound : zlen (al_suggestions a) ≤ Z.max 0 (max_suggested_hashes p);
}.

Definition engine_ok (l : RouterInfoLookup) : Prop :=
  from_option (λ a, is_Some (active_request_id l) ∧ active_ok (policy l) a) True (active l).

(** Keys of the store are hashes. *)
Definition hash_keys (s : BoundedStore ValidatedRouterInfo) : Prop :=
  ∀ k v, store_get s k = Some v → hash_ok k.

Lemma active_new_ok p id : hash_ok (li_target id) → active_ok p (active_new id).
Proof.
  intros Hid. constructor; cbn; try done; try constructor; try apply not_elem_of_nil; try done;
    rewrite ?zlen_nil; unfold LOOKUP_EXCLUDED_PEER_BUDGET; lia.
Qed.

Lemma set_reply_path_ok p a path : active_ok p a → path_ok path → active_ok p (set_reply_path path a).
Proof. intros []. constructor; cbn; eauto. Qed.

Section lookup_proofs.
Context (sha256 : bytes → bytes) (ed25519_key : bytes → bool)
  (ed25519_verify : bytes → bytes → bytes → bool)
  (ErrorKind : Type) (gz_reads : bytes → list bytes * option ErrorKind).

(** The peers a selection still offers to a lookup. *)
Definition fresh_peers (a : ActiveLookup) (selection : list NearestSelection) : list bytes :=
  filter (λ k, (k ∉ al_queried a) ∧ (k ∉ al_excluded a)) (ns_key <$> selection).

(** The next attempt goes to the first of them. *)
Lemma advance_attempt_spec l a selection :
  advance_attempt sha256 l a selection =
  match fresh_peers a selection with
  | [] => (set_active a l, AdvanceTerminal (if zlen (al_queried a) =? 0 then FinalNoEligibleCandidates
                                            else FinalPeerExhausted))
  | key :: _ =>
      match al_reply_path a with
      | None => (set_active a l, NeedsPath)
      | Some path =>
          match build_databaselookup sha256 (al_target a) (al_kind a) (Some path)
                  (filter (λ hash, hash ≠ key) (al_excluded a ++ al_queried a ++ [key])) with
          | Err _ => (set_active (push_queried key a) l, AdvanceTerminal FinalPeerExhausted)
          | Ok message => (set_active (push_queried key a) l, Attempt key message)
          end
      end
  end.
Proof.
  unfold fresh_peers. induction selection as [|e selection IH]; [done|].
  cbn [advance_attempt fmap list_fmap]. rewrite filter_cons.
  destruct (bool_decide (ns_key e ∈ al_queried a)) eqn:E1.
  { apply bool_decide_eq_true in E1. cbn [orb]. by rewrite decide_False by tauto. }
  destruct (bool_decide (ns_key e ∈ al_excluded a)) eqn:E2.
  { apply bool_decide_eq_true in E2. cbn [orb]. by rewrite decide_False by tauto. }
  apply bool_decide_eq_false in E1, E2. cbn [orb]. by rewrite decide_True by tauto.
Qed.

Lemma filter_excluded (key : bytes) (l : list bytes) :
  key ∉ l → filter (λ hash, hash ≠ key) (l ++ [key]) = l.
Proof.
  intros Hk. rewrite filter_app. cbn. rewrite decide_False by (intros Hn; by apply Hn). rewrite app_nil_r.
  induction l as [|x l IH]; [done|]. apply not_elem_of_cons in Hk as [Hx Hl]. rewrite filter_cons.
  rewrite decide_True by congruence. by rewrite IH.
Qed.

Lemma build_databaselookup_ok target kind path excluded :
  hash_ok target → path_ok path → Forall hash_ok excluded → zlen excluded ≤ LOOKUP_EXCLUDED_PEER_BUDGET →
  build_databaselookup sha256 target kind (Some path) excluded
  = Ok (lookup_message target kind path excluded).
Proof.
  intros Ht (Hg & Hid & Hid0) Hex Hlen. unfold build_databaselookup.
  destruct (_ >? _) eqn:E; breflect; [lia|]. cbv zeta. unfold body_to_vec.
  set (m := lookup_message target kind path excluded).
  assert (Hok : lookup_ok m).
  { unfold lookup_ok, m, lookup_message. cbn. unfold MAX_DATABASE_LOOKUP_EXCLUDED_PEERS.
    unfold LOOKUP_EXCLUDED_PEER_BUDGET in *. split_and!; try done; [destruct kind; cbn; lia..|eauto|lia]. }
  rewrite (encode_to_vec_writes _ (lookup_bytes m)); [done|by apply writes_lookup| |done].
  unfold lookup_bytes, m, lookup_message. 
  cbn [lookup_key lookup_from delivery_flag lookup_reply_tunnel_id excluded_peers reply_encryption
    encryption_bytes]. rewrite !zlen_app.
  rewrite !zlen_to_be, zlen_nil. unfold hash_ok in *. rewrite Ht, Hg.
  assert (Hc : zlen (concat excluded) = 32 * zlen excluded).
  { clear -Hex. induction Hex as [|x l Hx _ IH]; [done|]. cbn [concat]. rewrite zlen_app, zlen_cons, IH.
    unfold hash_ok in Hx. lia. }
  rewrite Hc. change (zlen [_]) with 1. unfold MAX_I2NP_PAYLOAD_SIZE, LOOKUP_EXCLUDED_PEER_BUDGET in *. lia.
Qed.

Lemma push_queried_ok p a key :
  active_ok p a → is_Some (al_reply_path a) → key ∉ al_queried a → key ∉ al_excluded a → hash_ok key →
  zlen (al_queried a) < LOOKUP_EXCLUDED_PEER_BUDGET → active_ok p (push_queried key a).
Proof.
  intros Hok Hpath Hq Hex Hk Hlt. destruct Hok. rewrite ao_excluded0, list_elem_of_singleton in Hex.
  constructor; cbn; try done.
  - by right.
  - apply NoDup_app. split_and!; [done| |apply NoDup_singleton]. by intros x Hx ->%list_elem_of_singleton.
  - rewrite elem_of_app, list_elem_of_singleton. intros [?|?]; [done|congruence].
  - apply Forall_app. split; [done|]. by apply Forall_singleton.
  - rewrite zlen_app, zlen_one. lia.
  - rewrite zlen_app, zlen_one. lia.
Qed.

(** What one step of a lookup with a reply path does: it asks the first fresh
    peer, telling it the target and the peers already asked, or it ends. *)
Lemma advance_attempt_cases l a path selection :
  active_ok (policy l) a → al_reply_path a = Some path →
  (∀ e, e ∈ selection → hash_ok (ns_key e)) →
  (∃ key rest, fresh_peers a selection = key :: rest ∧
     zlen (al_queried a) < LOOKUP_EXCLUDED_PEER_BUDGET ∧ active_ok (policy l) (push_queried key a) ∧
     advance_attempt sha256 l a selection =
       (set_active (push_queried key a) l,
        Attempt key (lookup_message (al_target a) (al_kind a) path (al_target a :: al_queried a)))) ∨
  (fresh_peers a selection = [] ∨ zlen (al_queried a) = LOOKUP_EXCLUDED_PEER_BUDGET) ∧
  ∃ a', advance_attempt sha256 l a selection =
    (set_active a' l, AdvanceTerminal (if zlen (al_queried a) =? 0 then FinalNoEligibleCandidates
                                       else FinalPeerExhausted)) ∧
    (∀ key rest, fresh_peers a selection = key :: rest → a' = push_queried key a) ∧ (fresh_peers a selection = [] → a' = a).
Proof.
  intros Hok Hpath Hsel. rewrite advance_attempt_spec. rewrite Hpath.
  destruct (fresh_peers a selection) as [|key rest] eqn:Ef.
  { right. split; [by left|]. by exists a. }
  assert (Hin : key ∈ fresh_peers a selection) by (rewrite Ef; apply list_elem_of_here).
  apply list_elem_of_filter in Hin as [[Hq Hex] Hin]. apply list_elem_of_fmap in Hin as (e & -> & He).
  specialize (Hsel e He). pose proof Hok as [Hexc Hth Hp Hst Hnd Htg Hhs Hbud Hat Hs1 Hs2 Hs3 Hs4].
  rewrite Hpath in Hp. cbn in Hp.
  assert (Hexcl : filter (λ hash, hash ≠ ns_key e) (al_excluded a ++ al_queried a ++ [ns_key e])
    = al_target a :: al_queried a).
  { rewrite (assoc_L app). rewrite Hexc in Hex |- *.
    apply filter_excluded. rewrite list_elem_of_singleton in Hex. by rewrite not_elem_of_cons. }
  rewrite Hexcl. destruct (Z.eq_dec (zlen (al_queried a)) LOOKUP_EXCLUDED_PEER_BUDGET) as [Hfull|Hne].
  - right. split; [by right|]. unfold build_databaselookup. rewrite zlen_cons.
    unfold LOOKUP_EXCLUDED_PEER_BUDGET in *.
    destruct (1 + zlen (al_queried a) >? 256) eqn:E; breflect; [|lia].
    destruct (zlen (al_queried a) =? 0) eqn:E0; breflect; [lia|]. eexists. split; [done|]. split; [by intros ? ? [= -> _]|done].
  - left. rewrite build_databaselookup_ok; [|done..| |rewrite zlen_cons; lia].
    + exists (ns_key e), rest. split_and!; [done|lia| |done].
      apply push_queried_ok; [done|by rewrite Hpath|done..|lia].
    + by constructor.
Qed.

(** The candidates of a lookup: the nearest floodfills other than the target. *)
Lemma selection_spec s target rk p :
  store_ok s → hash_keys s → hash_ok rk → 0 ≤ max_candidates_considered p →
  nearest_spec (filter (λ k, k ≠ target) (floodfill_keys s)) rk (max_candidates_considered p)
    (select_floodfill_candidates s target rk [target] p).
Proof.
  intros Hok Hkeys Hrk Hn. unfold select_floodfill_candidates. cbv zeta. rewrite (advertiser_keys s Hok).
  rewrite (list_filter_iff (λ key, key ∉ ({[target]} ∪ list_to_set [target] : gset bytes))
    (λ k, k ≠ target)) by (intros k; clear -k; set_solver).
  apply select_nearest_spec; [apply NoDup_filter, floodfill_keys_NoDup| |done].
  intros k [_ (v & Hv & _)%floodfill_keys_spec]%list_elem_of_filter. specialize (Hkeys k v Hv).
  unfold hash_ok, zlen in *. lia.
Qed.

Lemma selection_hashes s target rk p e :
  store_ok s → hash_keys s → hash_ok rk → 0 ≤ max_candidates_considered p →
  e ∈ select_floodfill_candidates s target rk [target] p →
  hash_ok (ns_key e) ∧ ns_key e ∈ floodfill_keys s.
Proof.
  intros Hok Hkeys Hrk Hn He. destruct (selection_spec s target rk p Hok Hkeys Hrk Hn) as [_ _ Hfrom _].
  apply Hfrom in He as [[_ Hin]%list_elem_of_filter _]. split; [|done].
  apply floodfill_keys_spec in Hin as (v & Hv & _). by eapply Hkeys.
Qed.

(** *** Runs of the state machine *)
Inductive lookup_op :=
  | LCancel
  | LPath (id : LookupId) (path : ReplyPath)
  | LNext (s : BoundedStore ValidatedRouterInfo) (routing_key : bytes)
  | LStore (s : BoundedStore ValidatedRouterInfo) (id : LookupId) (m : Message) (ctx : ValidationContext)
  | LLeaseSet2 (s : BoundedStore ValidatedLeaseSet2) (id : LookupId) (m : StoreMessage)
      (ctx : LeaseSet2ValidationContext)
  | LReply (id : LookupId) (m : Message)
  | LDelivery (id : LookupId) (outcome : DeliveryOutcome).

Abbreviation query := (bytes * DatabaseLookupMessage)%type.
Definition queries_of (o : StartOutcome) : list query :=
  match o with PendingAttempt (SendDatabaselookup _ peer m) => [(peer, m)] | _ => [] end.

(** One operation: the state after it and the query it sends. *)
Definition lookup_apply (l : RouterInfoLookup) (op : lookup_op) : option (RouterInfoLookup * list query) :=
  match op with
  | LCancel => '(l', _) ← cancel l; Some (l', [])
  | LPath id path => '(l', _) ← accept_reply_path l id path; Some (l', [])
  | LNext s rk => '(l', o) ← handle_pending_after_path sha256 l s rk; Some (l', queries_of o)
  | LStore s id m ctx =>
      '(l', _, _) ← handle_databasestore_message sha256 ed25519_key ed25519_verify ErrorKind gz_reads
                      l s id m ctx;
      Some (l', [])
  | LLeaseSet2 s id m ctx =>
      '(l', _, _) ← handle_database_store_lease_set2 sha256 ed25519_key ed25519_verify l s id m ctx;
      Some (l', [])
  | LReply id m => Some ((handle_searchreply_message l id m (policy l)).1, [])
  | LDelivery id o => Some ((handle_delivery_outcome l id o).1, [])
  end.

Fixpoint lookup_run (l : RouterInfoLookup) (ops : list lookup_op)
    : option (RouterInfoLookup * list query) :=
  match ops with
  | [] => Some (l, [])
  | op :: ops' =>
      '(l1, sent) ← lookup_apply l op;
      '(l2, sent') ← lookup_run l1 ops';
      Some (l2, sent ++ sent')
  end.

Definition lookup_op_ok (op : lookup_op) : Prop :=
  match op with
  | LPath _ path => path_ok path
  | LNext s rk => store_ok s ∧ hash_keys s ∧ hash_ok rk
  | LStore s _ _ _ => store_ok s
  | LLeaseSet2 s _ _ _ => store_ok s
  | _ => True
  end.

(** What the queries of one lookup satisfy: no peer is asked twice and the
    target is never asked; every query is for the target and names the target
    and the peers asked before it as excluded. *)
Record queries_ok (target : bytes) (kind : LookupKind) (sent : list query) : Prop := {
  qo_distinct : NoDup sent.*1;
  qo_target : target ∉ sent.*1;
  qo_budget : zlen sent ≤ LOOKUP_EXCLUDED_PEER_BUDGET;
  qo_message : ∀ i peer m, sent !! i = Some (peer, m) →
    ∃ path, path_ok path ∧ m = lookup_message target kind path (target :: take i sent.*1);
}.

(** The state knows what was sent. *)
Definition tracks (l : RouterInfoLookup) (target : bytes) (kind : LookupKind) (sent : list query) : Prop :=
  from_option (λ a, al_target a = target ∧ al_kind a = kind ∧ al_queried a = sent.*1) True (active l).

Lemma check_active_some l id a :
  check_active l id = Ok (Some a) →
  active l = Some a ∧ active_request_id l = Some (li_request_id id) ∧
  al_kind a = li_kind id ∧ al_target a = li_target id.
Proof.
  unfold check_active. destruct (active l) as [a'|]; [|done].
  destruct (active_request_id l) as [r|]; [|done]. cbn [ok_or mbind result_bind].
  destruct (bool_decide _) eqn:E; [done|]. apply bool_decide_eq_false, dec_stable in E.
  intros [= <-]. by subst id.
Qed.

Lemma merge_suggestions_ok p a peers :
  active_ok p a →
  let a' := merge_suggestions a peers (max_suggested_hashes p) in
  active_ok p a' ∧ al_target a' = al_target a ∧ al_kind a' = al_kind a ∧ al_queried a' = al_queried a.
Proof.
  cbv zeta. revert a. induction peers as [|peer peers IH]; intros a Hok; cbn [merge_suggestions]; [done|].
  destruct (bool_decide _ || _) eqn:E1; [by apply IH|].
  destruct (bool_decide (peer ∈ al_suggestions a)) eqn:E2; [by apply IH|].
  destruct (_ >=? _) eqn:E3; [done|]. apply orb_false_iff in E1 as [_ E1]. breflect.
  refine (IH (push_suggestion peer a) _). destruct Hok. constructor; cbn; try done.
  - apply NoDup_app. split_and!; [done| |apply NoDup_singleton].
    intros x Hx ->%list_elem_of_singleton. by apply bool_decide_eq_false in E2.
  - rewrite elem_of_app, list_elem_of_singleton. intros [?|Heq]; [done|].
    apply bool_decide_eq_false in E1. apply E1.
    rewrite ao_excluded0, Heq. apply list_elem_of_here.
  - rewrite zlen_app, zlen_one. lia.
  - rewrite zlen_app, zlen_one. lia.
Qed.

(** A handler that keeps the lookup, replaces its state by one with the same
    target and the same queries, or ends it. *)
Definition quiet (l l' : RouterInfoLookup) : Prop :=
  policy l' = policy l ∧
  (l' = l ∨ active l' = None ∨
   ∃ a a', active l = Some a ∧ l' = set_active a' l ∧ active_ok (policy l) a' ∧
     al_target a' = al_target a ∧ al_kind a' = al_kind a ∧ al_queried a' = al_queried a).

Lemma quiet_refl l : quiet l l.
Proof. split; auto. Qed.
Lemma quiet_clear l : quiet l (clear_active l).
Proof. split; auto. Qed.

Lemma quiet_ok l l' target kind sent :
  quiet l l' → engine_ok l → tracks l target kind sent → engine_ok l' ∧ tracks l' target kind sent.
Proof.
  unfold engine_ok, tracks.
  intros [Hp [->|[->|(a & a' & Ha & -> & Hok & Ht & Hk & Hq)]]]; [done|done|].
  rewrite Ha. cbn. rewrite Ht, Hk, Hq. intros [? _] ?. done.
Qed.

Lemma validated_len info e ctx v :
  from_router_info sha256 ed25519_key ed25519_verify info e ctx = Ok v → 0 ≤ rec_encoded_len v.
Proof.
  unfold from_router_info. destruct (checked_add _ _ _) as [n|] eqn:En; [|done].
  assert (0 ≤ n).
  { unfold checked_add in En. destruct (_ <=? _); [|done]. injection En as <-.
    pose proof (zlen_nonneg (ri_signed_bytes info)). pose proof (zlen_nonneg (signature_bytes (ri_signature info))). lia. }
  destruct (n >? _); [done|]. destruct (router_hash _ _); [|done]. cbn [mbind result_bind].
  destruct (match e with Some _ => _ | None => _ end); [done|]. destruct (Signing.public_key_len _); [|done].
  destruct (map_err _ _); [|done]. cbn [mbind result_bind]. destruct (check_published _ _); [|done].
  by intros [= <-].
Qed.

Lemma validated_ls2_len v e ctx r :
  from_lease_set2 sha256 ed25519_key ed25519_verify v e ctx = Ok r → 0 ≤ rec_encoded_len r.
Proof.
  unfold from_lease_set2. destruct (checked_add _ _ _) as [n|] eqn:En; [|done].
  assert (0 ≤ n).
  { unfold checked_add in En. destruct (_ <=? _); [|done]. injection En as <-.
    pose proof (zlen_nonneg (ls2_signed_bytes v)). pose proof (zlen_nonneg (signature_bytes (ls2_signature v))). lia. }
  destruct (n >? _); [done|]. destruct (map_err _ (key_hash _ _)); [|done]. cbn [mbind result_bind].
  destruct (match e with Some _ => _ | None => _ end); [done|]. destruct (map_err ls2_crypto_error _); [|done].
  cbn [mbind result_bind]. destruct (_ && _); [done|].
  destruct (match h_offline_signature _ with Some _ => _ | None => _ end); [done|].
  destruct (map_err ls2_key_error _); [|done]. cbn [mbind result_bind]. destruct (check_fresh _ _); [|done].
  by intros [= <-].
Qed.

Lemma read_store_response_len target m ctx v :
  read_store_response sha256 ed25519_key ed25519_verify ErrorKind gz_reads target m ctx = Some v →
  0 ≤ rec_encoded_len v.
Proof.
  unfold read_store_response. destruct (bool_decide _); [done|].
  destruct (store_data _ _ _ _ m); try done. destruct (decompress_router_info _ _ _) as [d|]; [|done].
  destruct (_ >? _); [done|]. destruct (router_info_decode _ _) as [info|]; [|done].
  destruct (router_hash _ _); [|done]. destruct (bool_decide _); [done|].
  destruct (from_router_info _ _ _ _ _ _) eqn:E; [|done]. intros [= <-]. by eapply validated_len.
Qed.

(** Responses never panic, and change nothing but the end of the lookup. *)
Lemma handle_database_store_quiet l s id m ctx :
  store_ok s →
  ∃ l' s' r, handle_database_store sha256 ed25519_key ed25519_verify ErrorKind gz_reads l s id m ctx
    = Some (l', s', r) ∧ quiet l l' ∧ store_ok s'.
Proof.
  intros Hs. unfold handle_database_store.
  destruct (check_active l id) as [[a|]|e]; [|eexists _, _, _; by split_and!; [|apply quiet_refl|]..].
  destruct (read_store_response _ _ _ _ _ _ _ _) as [v|] eqn:Er;
    [|eexists _, _, _; by split_and!; [|apply quiet_refl|]].
  destruct (store_insert_cases s v Hs (read_store_response_len _ _ _ _ Er)) as (s' & o & -> & Hs' & _).
  cbn [mbind option_bind]. eexists _, _, _. by split_and!; [|apply quiet_clear|].
Qed.

Lemma handle_lease_set2_quiet l s id m ctx :
  store_ok s →
  ∃ l' s' r, handle_database_store_lease_set2 sha256 ed25519_key ed25519_verify l s id m ctx
    = Some (l', s', r) ∧ quiet l l' ∧ store_ok s'.
Proof.
  intros Hs. unfold handle_database_store_lease_set2.
  destruct (check_active l id) as [[a|]|e]; [|eexists _, _, _; by split_and!; [|apply quiet_refl|]..].
  destruct (bool_decide _); [eexists _, _, _; by split_and!; [|apply quiet_refl|]|].
  destruct (bool_decide (store_key _ _ _ _ _ ≠ _)); [eexists _, _, _; by split_and!; [|apply quiet_refl|]|].
  destruct (store_data _ _ _ _ m) as [ | |v| |v| ];
    try (eexists _, _, _; by split_and!; [|apply quiet_refl|]).
  - destruct (from_lease_set2 _ _ _ _ _ _) as [r|] eqn:Ev;
      [|eexists _, _, _; by split_and!; [|apply quiet_refl|]].
    destruct (store_insert_cases s r Hs (validated_ls2_len _ _ _ _ Ev)) as (s' & o & -> & Hs' & _).
    cbn [mbind option_bind]. eexists _, _, _. by split_and!; [|apply quiet_clear|].
  - destruct (els2_encode _ _); eexists _, _, _; split_and!;
      [done|apply quiet_clear|done|done|apply quiet_refl|done].
Qed.

Lemma handle_search_reply_quiet l id m :
  engine_ok l → quiet l (handle_searchreply_message l id m (policy l)).1.
Proof.
  intros Hok. destruct m as [h b]. destruct b; try apply quiet_refl. cbn [handle_searchreply_message].
  unfold handle_search_reply. destruct (check_active l id) as [[a|]|e] eqn:E; try apply quiet_refl.
  cbv zeta. cbn [fst]. apply check_active_some in E as (Ha & _). unfold engine_ok in Hok. rewrite Ha in Hok.
  destruct Hok as [_ Hok]. split; [done|]. right; right. exists a. eexists. split_and!; [done|done|..];
    by apply merge_suggestions_ok.
Qed.

Lemma handle_delivery_quiet l id o : quiet l (handle_delivery_outcome l id o).1.
Proof.
  unfold handle_delivery_outcome. destruct (check_active l id) as [[a|]|e]; try apply quiet_refl.
  destruct o; apply quiet_refl.
Qed.

Lemma accept_reply_path_quiet l id path :
  engine_ok l → path_ok path → ∃ l' b, accept_reply_path l id path = Some (l', b) ∧ quiet l l'.
Proof.
  intros Hok Hp. unfold accept_reply_path, active_lookup. unfold engine_ok in Hok.
  destruct (active l) as [a|] eqn:Ha; [|eexists _, _; by split; [|apply quiet_refl]].
  cbn in Hok. destruct Hok as [[r ->] Hok]. cbn [mbind option_bind].
  destruct (bool_decide _); eexists _, _; (split; [done|]); [apply quiet_refl|].
  split; [done|]. right; right. exists a. eexists. split_and!; [done|done|by apply set_reply_path_ok|done..].
Qed.

Lemma cancel_quiet l : engine_ok l → ∃ l' o, cancel l = Some (l', o) ∧ quiet l l'.
Proof.
  intros Hok. unfold cancel, engine_ok in *. destruct (active l) as [a|]; cbn in Hok.
  - destruct Hok as [[r ->] _]. cbn [mbind option_bind]. eexists _, _. by split; [|apply quiet_clear].
  - eexists _, _. by split; [|apply quiet_refl].
Qed.

(** Every operation but [LNext] sends nothing. *)
Lemma lookup_apply_quiet l op :
  engine_ok l → lookup_op_ok op → (∀ s rk, op ≠ LNext s rk) →
  ∃ l', lookup_apply l op = Some (l', []) ∧ quiet l l'.
Proof.
  intros Hok Hop Hne. destruct op as [|id path|s rk|s id m ctx|s id m ctx|id m|id o]; cbn [lookup_apply].
  - destruct (cancel_quiet l Hok) as (l' & o & -> & Hq). by exists l'.
  - destruct (accept_reply_path_quiet l id path Hok Hop) as (l' & b & -> & Hq). by exists l'.
  - by destruct (Hne s rk).
  - destruct m as [h b]. destruct b; cbn [handle_databasestore_message];
      try (exists l; by split; [|apply quiet_refl]).
    destruct (handle_database_store_quiet l s id value ctx Hop) as (l' & s' & r & -> & Hq & _). by exists l'.
  - destruct (handle_lease_set2_quiet l s id m ctx Hop) as (l' & s' & r & -> & Hq & _). by exists l'.
  - eexists. by split; [|apply handle_search_reply_quiet].
  - eexists. by split; [|apply handle_delivery_quiet].
Qed.

(** [handle_pending_after_path] on an active lookup. *)
Lemma next_active l s rk r a :
  active l = Some a → active_request_id l = Some r → al_excluded a = [al_target a] →
  handle_pending_after_path sha256 l s rk =
  match al_reply_path a with
  | None => Some (l, NeedsReplyPath (NeedExploratoryReplyPath (mkLookupId r (al_kind a) (al_target a))))
  | Some _ =>
      let '(l1, outcome) := advance_attempt sha256 l a
        (select_floodfill_candidates s (al_target a) rk [al_target a] (policy l)) in
      handle_start_outcome l1 outcome (mkLookupId r (al_kind a) (al_target a))
  end.
Proof.
  intros Ha Hr Hex. unfold handle_pending_after_path, active_lookup. rewrite Ha, Hr.
  cbn [mbind option_bind]. rewrite Hex. done.
Qed.

Lemma queries_snoc target kind path sent key :
  queries_ok target kind sent → path_ok path → key ∉ sent.*1 → key ≠ target →
  zlen sent < LOOKUP_EXCLUDED_PEER_BUDGET →
  queries_ok target kind (sent ++ [(key, lookup_message target kind path (target :: sent.*1))]).
Proof.
  intros [Hnd Ht Hb Hm] Hp Hk Hkt Hlt. constructor; rewrite ?fmap_app; cbn [fmap list_fmap fst].
  - apply NoDup_app. split_and!; [done| |apply NoDup_singleton]. by intros x Hx ->%list_elem_of_singleton.
  - rewrite elem_of_app, list_elem_of_singleton. intros [?|?]; [done|congruence].
  - rewrite zlen_app, zlen_one. lia.
  - intros i peer m [Hi|[Hge Hx]]%lookup_app_Some.
    + destruct (Hm i peer m Hi) as (path' & Hp' & ->). exists path'. split; [done|].
      rewrite take_app_le; [done|]. apply lookup_lt_Some in Hi. rewrite length_fmap. lia.
    + apply list_lookup_singleton_Some in Hx as [Hz Hx]. injection Hx as -> <-. exists path. split; [done|]. rewrite take_app_le by (rewrite length_fmap; lia).
      by rewrite take_ge by (rewrite length_fmap; lia).
Qed.

Lemma lookup_apply_next l s rk target kind sent :
  engine_ok l → 0 ≤ max_candidates_considered (policy l) → lookup_op_ok (LNext s rk) →
  tracks l target kind sent → queries_ok target kind sent →
  ∃ l' new, lookup_apply l (LNext s rk) = Some (l', new) ∧ engine_ok l' ∧ policy l' = policy l ∧
    tracks l' target kind (sent ++ new) ∧ queries_ok target kind (sent ++ new) ∧
    ∀ k, k ∈ new.*1 → k ∈ floodfill_keys s.
Proof.
  intros Hok Hn (Hs & Hkeys & Hrk) Htr Hq. cbn [lookup_apply].
  unfold engine_ok, tracks in Hok, Htr. destruct (active l) as [a|] eqn:Ha.
  2: { unfold handle_pending_after_path, active_lookup. rewrite Ha. cbn [mbind option_bind].
       exists l, []. unfold engine_ok, tracks. rewrite Ha, app_nil_r. split_and!; try done.
       by intros k Hk%not_elem_of_nil. }
  cbn in Hok, Htr. destruct Hok as [[r Hr] Hao]. destruct Htr as (Ht & Hk & Hqs).
  rewrite (next_active l s rk r a Ha Hr (ao_excluded _ _ Hao)).
  destruct (al_reply_path a) as [path|] eqn:Epath.
  2: { cbn [mbind option_bind]. exists l, []. unfold engine_ok, tracks. rewrite Ha, app_nil_r. cbn.
       split_and!; try done. by intros k Hk'%not_elem_of_nil. }
  destruct (advance_attempt_cases l a path
    (select_floodfill_candidates s (al_target a) rk [al_target a] (policy l)) Hao Epath) as
    [(key & rest & Hf & Hlt & Hao' & ->)|(Hend & a' & -> & _)].
  { intros e He. by apply (selection_hashes s (al_target a) rk (policy l)). }
  - cbn [handle_start_outcome mbind option_bind queries_of]. eexists _, _. split; [done|].
    assert (Hin : key ∈ fresh_peers a
      (select_floodfill_candidates s (al_target a) rk [al_target a] (policy l)))
      by (rewrite Hf; apply list_elem_of_here).
    apply list_elem_of_filter in Hin as [[Hkq Hkex] Hin]. apply list_elem_of_fmap in Hin as (e & -> & He).
    rewrite (ao_excluded _ _ Hao), list_elem_of_singleton in Hkex.
    unfold engine_ok, tracks. cbn [active set_active from_option active_request_id policy].
    split_and!; try done.
    + cbn. by rewrite fmap_app, <- Hqs.
    + rewrite Ht, Hk, Hqs in *. apply queries_snoc; try done.
      * pose proof (ao_path _ _ Hao) as Hp. by rewrite Epath in Hp.
      * unfold zlen in *. by rewrite length_fmap in Hlt.
    + intros k ->%list_elem_of_singleton. by apply (selection_hashes s (al_target a) rk (policy l)).
  - cbn [handle_start_outcome active set_active mbind option_bind queries_of]. eexists _, []. split; [done|].
    rewrite app_nil_r. split_and!; try done. by intros k Hk'%not_elem_of_nil.
Qed.

Lemma lookup_run_ok l ops target kind sent :
  engine_ok l → 0 ≤ max_candidates_considered (policy l) → Forall lookup_op_ok ops →
  tracks l target kind sent → queries_ok target kind sent →
  ∃ l' new, lookup_run l ops = Some (l', new) ∧ engine_ok l' ∧ queries_ok target kind (sent ++ new) ∧
    ∀ k, k ∈ new.*1 → ∃ s rk, LNext s rk ∈ ops ∧ k ∈ floodfill_keys s.
Proof.
  intros Hok Hn Hall. revert l sent Hok Hn. induction Hall as [|op ops Hop _ IH]; intros l sent Hok Hn Htr Hq.
  { exists l, []. rewrite app_nil_r. split_and!; try done. by intros k Hk%not_elem_of_nil. }
  cbn [lookup_run].
  assert (Hstep : ∃ l1 new, lookup_apply l op = Some (l1, new) ∧ engine_ok l1 ∧ policy l1 = policy l ∧
    tracks l1 target kind (sent ++ new) ∧ queries_ok target kind (sent ++ new) ∧
    ∀ k, k ∈ new.*1 → ∃ s rk, op = LNext s rk ∧ k ∈ floodfill_keys s).
  { assert (Hcase : (∃ s rk, op = LNext s rk) ∨ ∀ s rk, op ≠ LNext s rk)
      by (destruct op; [right|right|left|right..]; eauto; done).
    destruct Hcase as [(s & rk & ->)|Hne].
    - destruct (lookup_apply_next l s rk target kind sent) as (l1 & new & H1 & H2 & H3 & H4 & H5 & H6);
        try done. exists l1, new. naive_solver.
    - destruct (lookup_apply_quiet l op Hok Hop Hne) as (l1 & H1 & Hqu).
      destruct (quiet_ok _ _ _ _ _ Hqu Hok Htr). exists l1, []. rewrite app_nil_r.
      split_and!; try done; [apply Hqu|by intros k Hk%not_elem_of_nil]. }
  destruct Hstep as (l1 & new & -> & Hok1 & Hp1 & Htr1 & Hq1 & Hk1). cbn [mbind option_bind].
  destruct (IH l1 (sent ++ new)) as (l' & new' & -> & Hok' & Hq' & Hk'); try done; [by rewrite Hp1|].
  cbn [mbind option_bind]. exists l', (new ++ new'). rewrite (assoc_L app). split_and!; try done.
  intros k. rewrite fmap_app, elem_of_app. intros [Hk|Hk].
  - destruct (Hk1 k Hk) as (s & rk & -> & ?). exists s, rk. split; [apply list_elem_of_here|done].
  - destruct (Hk' k Hk) as (s & rk & ? & ?). exists s, rk. split; [by apply list_elem_of_further|done].
Qed.

(** *** Driving a lookup to its end

    The runtime asks for the next attempt until the lookup ends. *)
Fixpoint drive (fuel : nat) (l : RouterInfoLookup) (s : BoundedStore ValidatedRouterInfo) (rk : bytes)
    : option (list bytes * LookupResult) :=
  match fuel with
  | O => None
  | S fuel' =>
      match handle_pending_after_path sha256 l s rk with
      | Some (l', PendingAttempt (SendDatabaselookup _ peer _)) =>
          '(peers, r) ← drive fuel' l' s rk; Some (peer :: peers, r)
      | Some (_, StartTerminal r) => Some ([], r)
      | _ => None
      end
  end.

Lemma fresh_push a selection key rest :
  NoDup (ns_key <$> selection) → fresh_peers a selection = key :: rest →
  fresh_peers (push_queried key a) selection = rest.
Proof.
  intros Hnd Hf.
  assert (Heq : fresh_peers (push_queried key a) selection
    = filter (λ k, k ≠ key) (fresh_peers a selection)).
  { unfold fresh_peers. rewrite list_filter_filter. apply list_filter_iff. intros k. cbn.
    clear -k. rewrite elem_of_app, list_elem_of_singleton. tauto. }
  rewrite Heq, Hf, filter_cons, decide_False by (intros Hn; by apply Hn).
  assert (Hnd' : NoDup (fresh_peers a selection)) by (by apply NoDup_filter).
  rewrite Hf in Hnd'. apply NoDup_cons in Hnd' as [Hk _].
  pose proof (filter_excluded key rest Hk) as Hfe. rewrite filter_app in Hfe. cbn in Hfe.
  rewrite decide_False in Hfe by (intros Hn; by apply Hn). by rewrite app_nil_r in Hfe.
Qed.

(** The candidates that fit into the exclusion list of a message. *)
Definition within_budget (a : ActiveLookup) (candidates : list bytes) : list bytes :=
  take (Z.to_nat (LOOKUP_EXCLUDED_PEER_BUDGET - zlen (al_queried a))) candidates.

Lemma within_push key a rest : zlen (al_queried a) < LOOKUP_EXCLUDED_PEER_BUDGET →
  within_budget a (key :: rest) = key :: within_budget (push_queried key a) rest.
Proof.
  intros Hlt. unfold within_budget. cbn [al_queried push_queried]. rewrite zlen_app, zlen_one.
  replace (Z.to_nat (LOOKUP_EXCLUDED_PEER_BUDGET - zlen (al_queried a)))
    with (S (Z.to_nat (LOOKUP_EXCLUDED_PEER_BUDGET - (zlen (al_queried a) + 1)))) by lia. done.
Qed.

Lemma drive_ok fuel l a r s rk path (selection := select_floodfill_candidates s (al_target a) rk [al_target a] (policy l)) :
  active l = Some a → active_request_id l = Some r → active_ok (policy l) a → al_reply_path a = Some path →
  NoDup (ns_key <$> selection) → (∀ e, e ∈ selection → hash_ok (ns_key e)) →
  let candidates := fresh_peers a selection in
  let asked := within_budget a candidates in
  let total := zlen (al_queried a) + zlen asked in
  (length asked < fuel)%nat →
  drive fuel l s rk = Some (asked, Failure (mkLookupId r (al_kind a) (al_target a))
    (if total =? 0 then FinalNoEligibleCandidates else FinalPeerExhausted)
    (mkDiagnostics (if decide (asked = candidates) then total else total + 1) (zlen (al_suggestions a)))).
Proof.
  intros Ha Hr Hok Hp Hnd Hh. cbv zeta. subst selection.
  revert l a Ha Hr Hok Hp Hnd Hh. induction fuel as [|fuel IH]; [lia|].
  intros l a Ha Hr Hok Hp Hnd Hh Hfuel. cbn [drive].
  rewrite (next_active l s rk r a Ha Hr (ao_excluded _ _ Hok)), Hp.
  set (selection := select_floodfill_candidates s (al_target a) rk [al_target a] (policy l)) in *.
  destruct (advance_attempt_cases l a path selection Hok Hp Hh) as
    [(key & rest & Hf & Hlt & Hok' & ->)|(Hend & a' & -> & Hpush & Ha')].
  - cbn [handle_start_outcome]. specialize (IH (set_active (push_queried key a) l) (push_queried key a)).
    cbn [active active_request_id policy set_active al_target al_kind push_queried] in IH.
    fold selection in IH. rewrite (fresh_push a selection key rest Hnd Hf) in IH. rewrite Hf in Hfuel |- *.
    change (al_queried (push_queried key a)) with (al_queried a ++ [key]) in IH.
    change (al_suggestions (push_queried key a)) with (al_suggestions a) in IH.
    change (al_reply_path (push_queried key a)) with (al_reply_path a) in IH.
    rewrite within_push in Hfuel |- * by done. cbn [length] in Hfuel. rewrite zlen_app, zlen_one in IH.
    rewrite zlen_cons. rewrite IH; try done; [|lia]. cbn [mbind option_bind]. rewrite (Z.add_assoc _ 1).
    do 3 f_equal. destruct (decide (within_budget (push_queried key a) rest = rest)) as [E|E].
    + by rewrite decide_True by (by rewrite E).
    + rewrite decide_False; [done|]. intros Heq. apply E. by injection Heq.
  - cbn [handle_start_outcome active set_active mbind option_bind].
    destruct (fresh_peers a selection) as [|key rest] eqn:Ef.
    + specialize (Ha' eq_refl) as ->. assert (within_budget a [] = []) as -> by (unfold within_budget; by rewrite take_nil).
      rewrite decide_True by done. change (zlen (@nil bytes)) with 0. rewrite Z.add_0_r.
      unfold al_diagnostics. by rewrite (ao_attempts _ _ Hok), (ao_merged _ _ Hok).
    + destruct Hend as [?|Hfull]; [done|]. specialize (Hpush _ _ eq_refl) as ->.
      assert (within_budget a (key :: rest) = []) as -> by (unfold within_budget; by rewrite Hfull, Z.sub_diag).
      rewrite decide_False by done. change (zlen (@nil bytes)) with 0. rewrite Z.add_0_r.
      unfold al_diagnostics. cbn [push_queried al_attempts al_suggestions_merged]. rewrite (ao_attempts _ _ Hok). by rewrite (ao_merged _ _ Hok).
Qed.

Lemma start_ok l s id rk :
  active l = None → hash_ok (li_target id) →
  ∃ l1 o, start sha256 l s id rk = Some (l1, o) ∧ queries_of o = [] ∧ engine_ok l1 ∧ policy l1 = policy l ∧
    tracks l1 (li_target id) (li_kind id) [].
Proof.
  intros Ha Hid. unfold start. rewrite Ha. cbv zeta. rewrite advance_attempt_spec.
  cbn [active_new al_reply_path al_queried].
  destruct (fresh_peers _ _) as [|key rest]; cbn [handle_start_outcome active set_active mbind option_bind];
    eexists _, _; (split; [done|]); (split; [done|]).
  - done.
  - unfold engine_ok, tracks. cbn [active set_active from_option active_request_id policy set_active_request_id].
    split_and!; try done. by apply (active_new_ok _ id).
Qed.

(** *** Responses *)
Lemma decompress_loop_ok chunks final buf out :
  decompress_loop ErrorKind buf chunks final = Ok out →
  bytes_ok buf → Forall bytes_ok chunks → bytes_ok out ∧ out = buf ++ concat chunks ∧ final = None ∧
  (zlen buf ≤ MAX_DECOMPRESSED_ROUTER_INFO_BYTES → zlen out ≤ MAX_DECOMPRESSED_ROUTER_INFO_BYTES).
Proof.
  revert buf. induction chunks as [|c chunks IH]; intros buf; cbn [decompress_loop concat].
  - destruct final; [done|]. intros <-%Ok_inj Hb _. by rewrite app_nil_r.
  - unfold checked_add. destruct (zlen buf + zlen c <=? usize_max); [|done].
    destruct (_ >? _) eqn:E; [done|]. breflect. intros Hd Hb [Hc Hcs]%Forall_cons.
    apply IH in Hd as (H1 & -> & H3 & H4); [|by apply Forall_app|done].
    rewrite <- (assoc_L app) in *. split_and!; try done. intros _. apply H4. rewrite zlen_app. lia.
Qed.

Definition gz_bytes : Prop := ∀ c, Forall bytes_ok (gz_reads c).1.

Lemma decompress_bytes c out :
  gz_bytes → decompress_router_info ErrorKind gz_reads c = Ok out →
  bytes_ok out ∧ zlen out ≤ MAX_DECOMPRESSED_ROUTER_INFO_BYTES.
Proof.
  intros Hgz. unfold decompress_router_info. destruct (_ =? _); [done|]. destruct (_ >? _); [done|].
  specialize (Hgz c). destruct (gz_reads c) as [chunks final]. intros Hd.
  apply decompress_loop_ok in Hd as (H1 & _ & _ & H4); [|constructor|done]. split; [done|]. apply H4. done.
Qed.

Definition context_ok (ctx : ValidationContext) : Prop :=
  0 ≤ max_age (vc_policy ctx) ∧ 0 ≤ max_future_skew (vc_policy ctx) ∧
  max_encoded_len (vc_policy ctx) ≤ usize_max.

(** A message that is taken as the answer carries a valid RouterInfo of the target. *)
Lemma read_store_response_ok target m ctx v :
  gz_bytes → context_ok ctx →
  read_store_response sha256 ed25519_key ed25519_verify ErrorKind gz_reads target m ctx = Some v →
  store_key _ _ _ _ m = target ∧ vri_key v = target ∧ router_info_ok (vri_router_info v) ∧
  ri_accepted sha256 ed25519_key ed25519_verify (vri_router_info v) (Some target) ctx target.
Proof.
  intros Hgz (Hage & Hskew & Hlen). unfold read_store_response.
  destruct (bool_decide (store_key _ _ _ _ m ≠ target)) eqn:Ek; [done|].
  apply bool_decide_eq_false, dec_stable in Ek.
  destruct (store_data _ _ _ _ m) as [c| | | | | ]; try done.
  destruct (decompress_router_info _ _ _) as [d|] eqn:Ed; [|done].
  destruct (decompress_bytes _ _ Hgz Ed) as [Hdb Hdl].
  destruct (_ >? _); [done|]. destruct (router_info_decode _ _) as [info|] eqn:Edec; [|done].
  apply router_info_decode_iff in Edec as (_ & Hinfo & _); [|done|].
  2: { unfold MAX_DECOMPRESSED_ROUTER_INFO_BYTES, usize_max in *. lia. }
  destruct (router_hash _ _); [|done]. destruct (bool_decide _); [done|].
  destruct (from_router_info _ _ _ _ _ _) as [v'|] eqn:Ev; [|done]. intros [= ->].
  apply from_router_info_iff in Ev as (Hacc & Hi & _); try done.
  assert (vri_key v = target) as Hvk by (pose proof (ra_expected _ _ _ _ _ _ _ Hacc); done).
  rewrite Hi. rewrite Hvk in Hacc. done.
Qed.

(** The lookup that a handler was called for. *)
Definition is_active (l : RouterInfoLookup) (id : LookupId) : Prop :=
  ∃ a, active l = Some a ∧ active_request_id l = Some (li_request_id id) ∧
    al_kind a = li_kind id ∧ al_target a = li_target id.

(** C23: only the record that was asked for completes a lookup.  A DatabaseStore
    reply never makes the router panic; either the lookup and the store stay as
    they are and the lookup is not completed, or the reply was for the active
    lookup and carries a well-formed RouterInfo that hashes to the target, is
    signed by the identity in it, and is neither stale nor from the future,
    and then that record is offered to the store and the lookup ends. *)
Theorem store_response_authentic l (s : BoundedStore ValidatedRouterInfo) id m ctx
    (Hs : store_ok s) (Hctx : context_ok ctx) (Hgz : gz_bytes) :
  ∃ l' s' r, handle_database_store sha256 ed25519_key ed25519_verify ErrorKind gz_reads l s id m ctx
      = Some (l', s', r) ∧
    ((l' = l ∧ s' = s ∧ ∀ x, r ≠ Ok (Completed x)) ∨
     ∃ v o, r = Ok (Completed (Success id v)) ∧ is_active l id ∧ active l' = None ∧
       store_insert s v = Some (s', o) ∧ vri_key v = li_target id ∧ router_info_ok (vri_router_info v) ∧
       ri_accepted sha256 ed25519_key ed25519_verify (vri_router_info v) (Some (li_target id)) ctx
         (li_target id)).
Proof.
  unfold handle_database_store.
  destruct (check_active l id) as [[a|]|e] eqn:Ec; [|eexists _, _, _; (split; [done|]); by left..].
  apply check_active_some in Ec as (Ha & Hr & Hk & Ht).
  destruct (read_store_response _ _ _ _ _ _ _ _) as [v|] eqn:Er;
    [|eexists _, _, _; (split; [done|]); by left].
  pose proof (read_store_response_ok _ _ _ _ Hgz Hctx Er) as (_ & Hvk & Hvi & Hacc).
  destruct (store_insert_cases s v Hs (read_store_response_len _ _ _ _ Er)) as (s' & o & Hins & _).
  rewrite Hins. cbn [mbind option_bind]. eexists _, _, _. split; [done|]. right. exists v, o.
  rewrite Ht in *. split_and!; try done. by exists a.
Qed.

(** Only the LeaseSet2 that was asked for completes a destination lookup.  A
    reply leaves the lookup and the store as they are, or it was for the
    active LeaseSet2 lookup and carries a LeaseSet2 of the target destination
    that passes validation, which is offered to the store, or it carries an
    encrypted record under the target key, which is handed on unopened and not
    stored. *)
Theorem lease_set2_response_authentic l (s : BoundedStore ValidatedLeaseSet2) id (m : StoreMessage) ctx
    (Hs : store_ok s) (Hv : store_data_ok _ _ _ _ (store_data _ _ _ _ m))
    (Hskew : 0 ≤ max_future_skew_seconds (lvc_policy ctx))
    (Hlen : ls2_max_encoded_len (lvc_policy ctx) ≤ usize_max) :
  ∃ l' s' r, handle_database_store_lease_set2 sha256 ed25519_key ed25519_verify l s id m ctx
      = Some (l', s', r) ∧
    ((l' = l ∧ s' = s ∧ ∀ x, r ≠ Ok (Completed x)) ∨
     is_active l id ∧ active l' = None ∧ li_kind id = KindLeaseSet2 ∧
     store_key _ _ _ _ m = li_target id ∧
     ((∃ v o, r = Ok (Completed (LeaseSet2Success id v)) ∧ store_insert s v = Some (s', o) ∧
         vls_key v = li_target id ∧
         ls2_accepted sha256 ed25519_key ed25519_verify (vls_lease_set2 v) (Some (li_target id)) ctx
           (li_target id)) ∨
      (∃ record, store_data _ _ _ _ m = EncryptedLeaseSetData _ _ _ _ record ∧ s' = s ∧
         r = Ok (Completed (EncryptedLeaseSet2Success id m))))).
Proof.
  unfold handle_database_store_lease_set2.
  destruct (check_active l id) as [[a|]|e] eqn:Ec; [|eexists _, _, _; (split; [done|]); by left..].
  apply check_active_some in Ec as (Ha & Hr & Hk & Ht).
  destruct (bool_decide (al_kind a ≠ _)) eqn:Ek; [eexists _, _, _; (split; [done|]); by left|].
  apply bool_decide_eq_false, dec_stable in Ek.
  destruct (bool_decide (store_key _ _ _ _ m ≠ _)) eqn:Ekey; [eexists _, _, _; (split; [done|]); by left|].
  apply bool_decide_eq_false, dec_stable in Ekey. rewrite Ht in *.
  assert (Hact : is_active l id) by (by exists a).
  destruct (store_data _ _ _ _ m) as [ | |v| |v| ] eqn:Ed;
    try (eexists _, _, _; (split; [done|]); by left).
  - destruct (from_lease_set2 _ _ _ _ _ _) as [r|] eqn:Ev; [|eexists _, _, _; (split; [done|]); by left].
    destruct (store_insert_cases s r Hs (validated_ls2_len _ _ _ _ Ev)) as (s' & o & Hins & _).
    rewrite Hins. cbn [mbind option_bind]. eexists _, _, _. split; [done|]. right.
    apply from_lease_set2_iff in Ev as (Hacc & Hi & _); [|apply Hv|done|done].
    assert (vls_key r = li_target id) as Hrk by (pose proof (la_expected _ _ _ _ _ _ _ Hacc); done).
    rewrite Hrk in Hacc. split_and!; try done; [congruence|]. left. exists r, o. by rewrite Hi.
  - destruct (els2_encode _ _); [|eexists _, _, _; (split; [done|]); by left].
    eexists _, _, _. split; [done|]. right. split_and!; try done; [congruence|]. right. by exists v.
Qed.

(** C24: a lookup asks each peer at most once.  Starting a lookup on an idle
    machine and then applying any operations in any order (reply paths, next
    attempts over changing stores, replies, delivery outcomes, cancellation)
    never panics, and all queries sent go to distinct floodfill routers of the
    stores consulted, never to the target, at most 256 of them; each query
    is for the target through a usable reply path, and excludes exactly the target
    and the peers asked before. *)
Theorem lookup_queries_distinct l s id rk ops
    (Hl : active l = None) (Hid : hash_ok (li_target id))
    (Hn : 0 ≤ max_candidates_considered (policy l)) (Hops : Forall lookup_op_ok ops) :
  ∃ l1 o l' sent, start sha256 l s id rk = Some (l1, o) ∧ lookup_run l1 ops = Some (l', sent) ∧
    engine_ok l' ∧ queries_ok (li_target id) (li_kind id) sent ∧
    ∀ k, k ∈ sent.*1 → ∃ s rk, LNext s rk ∈ ops ∧ k ∈ floodfill_keys s.
Proof.
  destruct (start_ok l s id rk Hl Hid) as (l1 & o & Hst & _ & Hok & Hp & Htr).
  destruct (lookup_run_ok l1 ops (li_target id) (li_kind id) []) as (l' & sent & Hrun & Hok' & Hq & Hk);
    try done; [by rewrite Hp|constructor; [constructor|apply not_elem_of_nil|done|by intros i]|].
  exists l1, o, l', sent. done.
Qed.

(** C25: a lookup terminates after asking its candidates.  From any state of an
    active lookup with a reply path, over a fixed store, the attempts go to
    the candidates not asked yet, nearest first, up to 256 queries in the life of
    the lookup, which is what the exclusion list of a message holds; then the lookup
    ends.  So with at most 256 candidates in all every one is asked; beyond that the lookup
    gives up with candidates left, and reports one attempt more than it made.
    It reports that it found no eligible candidate only if nobody was ever
    asked.  The candidates are the nearest floodfills other than the target,
    [max_candidates_considered] at most; the policy's [max_peers_per_lookup]
    plays no part. *)
Theorem lookup_asks_every_candidate l a r (s : BoundedStore ValidatedRouterInfo) rk path fuel
    (selection := select_floodfill_candidates s (al_target a) rk [al_target a] (policy l))
    (candidates := fresh_peers a selection)
    (asked := take (Z.to_nat (256 - zlen (al_queried a))) candidates)
    (total := zlen (al_queried a) + zlen asked)
    (Ha : active l = Some a) (Hr : active_request_id l = Some r) (Hok : active_ok (policy l) a)
    (Hp : al_reply_path a = Some path) (Hs : store_ok s) (Hkeys : hash_keys s) (Hrk : hash_ok rk)
    (Hn : 0 ≤ max_candidates_considered (policy l))
    (Hfuel : (length asked < fuel)%nat) :
  drive fuel l s rk = Some (asked, Failure (mkLookupId r (al_kind a) (al_target a))
    (if total =? 0 then FinalNoEligibleCandidates else FinalPeerExhausted)
    (mkDiagnostics (if decide (asked = candidates) then total else total + 1) (zlen (al_suggestions a)))) ∧
  nearest_spec (filter (λ k, k ≠ al_target a) (floodfill_keys s)) rk (max_candidates_considered (policy l))
    selection ∧
  (zlen (al_queried a) + zlen candidates ≤ 256 → asked = candidates).
Proof.
  pose proof (selection_spec s (al_target a) rk (policy l) Hs Hkeys Hrk Hn) as Hsel. split; [|split; [done|]].
  - apply (drive_ok fuel l a r s rk path); try done.
    + apply (nearest_spec_NoDup _ _ _ _ Hsel).
    + intros e He. by apply (selection_hashes s (al_target a) rk (policy l)).
  - intros Hle. apply take_ge. unfold zlen in *. lia.
Qed.
End lookup_proofs.

(** ** Waiters *)
Definition waiters_ok (m : gmap bytes (list Z)) : Prop :=
  ∀ t w, m !! t = Some w → NoDup w ∧ 1 ≤ zlen w ≤ MAX_WAITERS_PER_LOOKUP.

Lemma zlen_elem {A} (x : A) l : x ∈ l → 1 ≤ zlen l.
Proof. destruct 1; rewrite zlen_cons; pose proof (zlen_nonneg l); lia. Qed.

Lemma waiter_remove_elem w r x : x ∈ (waiter_remove w r).1 → x ∈ w.
Proof.
  induction w as [|y w IH]; [done|]. cbn [waiter_remove]. destruct (y =? r); cbn [fst].
  - by apply list_elem_of_further.
  - destruct (waiter_remove w r) as [w' b]. cbn [fst] in *.
    intros [->|Hx]%elem_of_cons; [apply list_elem_of_here|]. by apply list_elem_of_further, IH.
Qed.

Lemma waiter_remove_ok w r :
  NoDup w → NoDup (waiter_remove w r).1 ∧ (r ∉ (waiter_remove w r).1) ∧
  ((waiter_remove w r).2 = true ↔ r ∈ w) ∧ zlen (waiter_remove w r).1 ≤ zlen w.
Proof.
  induction 1 as [|y w Hy Hnd IH]; cbn [waiter_remove].
  { cbn. split_and!; [constructor|apply not_elem_of_nil|split; [done|by intros ?%not_elem_of_nil]|done]. }
  destruct (y =? r) eqn:E; breflect.
  - subst y. cbn [fst snd]. rewrite zlen_cons. split_and!; [done..| |lia]. split; [intros _; apply list_elem_of_here|done].
  - pose proof (waiter_remove_elem w r) as Hsub. destruct (waiter_remove w r) as [w' b]. cbn [fst snd] in *.
    destruct IH as (H1 & H2 & H3 & H4). rewrite !zlen_cons, not_elem_of_cons, elem_of_cons. split_and!.
    + constructor; [|done]. by intros ?%Hsub.
    + congruence.
    + done.
    + rewrite H3. split; [tauto|]. intros [?|?]; [congruence|done].
    + lia.
Qed.

Lemma waiter_add_ok w r :
  NoDup w → zlen w ≤ MAX_WAITERS_PER_LOOKUP →
  NoDup (waiter_add w r).1 ∧ 1 ≤ zlen (waiter_add w r).1 ≤ MAX_WAITERS_PER_LOOKUP ∧
  ((waiter_add w r).2 = true ↔ (r ∉ w) ∧ zlen w < MAX_WAITERS_PER_LOOKUP).
Proof.
  unfold waiter_add, MAX_WAITERS_PER_LOOKUP. intros Hnd Hle. destruct (bool_decide (r ∈ w)) eqn:E1.
  - apply bool_decide_eq_true in E1. pose proof (zlen_elem _ _ E1). cbn [fst snd].
    split_and!; [done|lia|lia|split; [done|tauto]].
  - apply bool_decide_eq_false in E1. destruct (_ >=? _) eqn:E2; breflect; cbn [fst snd].
    + split_and!; [done|lia|lia|]. split; [done|lia].
    + pose proof (zlen_nonneg w). rewrite zlen_app, zlen_one. split_and!; [|lia|lia|done].
      apply NoDup_app. split_and!; [done| |apply NoDup_singleton].
      by intros x Hx ->%list_elem_of_singleton.
Qed.

(** The coalescing tracker: sets are never empty, never over 32 and never hold a
    request twice; adding fails only on a repeat or a full set; removal
    removes. *)
Theorem coalesced_waiters m t r
    (Hok : waiters_ok m) :
  let '(m1, added) := add_waiter m t r in
  let '(m2, removed) := remove_waiter m t r in
  let old := default [] (m !! t) in
  waiters_ok m1 ∧ waiters_ok m2 ∧
  (added = true ↔ (r ∉ old) ∧ zlen old < MAX_WAITERS_PER_LOOKUP) ∧
  (removed = true ↔ r ∈ old) ∧ (r ∉ default [] (m2 !! t)) ∧
  ∀ t', t' ≠ t → m1 !! t' = m !! t' ∧ m2 !! t' = m !! t'.
Proof.
  unfold add_waiter, remove_waiter. specialize (Hok t) as Ht. unfold waiters_ok, MAX_WAITERS_PER_LOOKUP in *.
  set (old := default [] (m !! t)). assert (Hold : NoDup old ∧ zlen old ≤ 32).
  { unfold old. destruct (m !! t) as [w|]; cbn; [naive_solver lia|]. split; [constructor|done]. }
  destruct (waiter_add old r) as [w1 added] eqn:Ea. destruct (waiter_remove old r) as [w2 removed] eqn:Er.
  pose proof (waiter_remove_ok old r (proj1 Hold)) as (Hr1 & Hr2 & Hr3 & Hr4). rewrite Er in Hr1, Hr2, Hr3, Hr4.
  cbn [fst snd] in *.
  destruct (waiter_add_ok old r) as (Ha1 & Ha2 & Ha3); [apply Hold..|]. rewrite Ea in Ha1, Ha2, Ha3.
  cbn [fst snd] in *. unfold MAX_WAITERS_PER_LOOKUP in *.
  assert (Hm : m !! t = None ∧ w2 = [] ∧ removed = false ∨ m !! t = Some old).
  { unfold old. destruct (m !! t) as [w|] eqn:E; [by right|]. left. unfold old in Er.
    rewrite ?E in Er. cbn in Er. by injection Er as <- <-. }
  assert (Hm1 : ∀ t' w, <[t := w1]> m !! t' = Some w → NoDup w ∧ 1 ≤ zlen w ≤ 32).
  { intros t' w [[<- <-]|[_ Hw]]%lookup_insert_Some; [done|by eapply Hok]. }
  destruct Hm as [(Hm & -> & ->)|Hm].
  - rewrite Hm. split_and!; try done; [by rewrite Hm; apply not_elem_of_nil|].
    intros t' Hne. by rewrite lookup_insert_ne.
  - rewrite Hm, Er. split_and!; try done.
    + destruct (_ =? 0) eqn:E; breflect.
      * intros t' w [_ Hw]%lookup_delete_Some. by eapply Hok.
      * intros t' w [[<- <-]|[_ Hw]]%lookup_insert_Some; [|by eapply Hok].
        pose proof (zlen_nonneg w2). split; [done|lia].
    + destruct (_ =? 0); [rewrite lookup_delete_eq; apply not_elem_of_nil|by rewrite lookup_insert_eq].
    + intros t' Hne. rewrite lookup_insert_ne by done. split; [done|].
      destruct (_ =? 0); [by rewrite lookup_delete_ne|by rewrite lookup_insert_ne].
Qed.

(** ** Witnesses

    A machine with the default limits, one floodfill router in the store, and a
    stand-in decompressor whose output is its input. *)
Definition sample_policy : LookupPolicy := mkLookupPolicy 32 8 128 64 5000 1500.
Definition sample_target : bytes := repeat 9 32.
Definition sample_id : LookupId := mkLookupId 1 KindRouterInfo sample_target.
Definition sample_path : ReplyPath := mkReplyPath (repeat 8 32) 77.
Definition sample_gz (c : bytes) : list bytes * option Z :=
  ([filter (λ b, 0 ≤ b ∧ b ≤ 255) c], None).
Definition sample_active : ActiveLookup := set_reply_path sample_path (active_new sample_id).
Definition sample_lookup : RouterInfoLookup := mkRouterInfoLookup sample_policy (Some sample_active) (Some 1).

Lemma sample_policy_default : lookup_policy_default = Ok sample_policy.
Proof. reflexivity. Qed.

Lemma sample_path_ok : path_ok sample_path.
Proof. by vm_compute. Qed.

Lemma sample_hash_keys : hash_keys sample_store.
Proof.
  unfold hash_keys, store_get, sample_store. cbn [records]. intros k v [<- <-]%lookup_singleton_Some.
  by vm_compute.
Qed.

Lemma sample_gz_bytes : gz_bytes Z sample_gz.
Proof.
  intros c. cbn. constructor; [|constructor]. apply Forall_forall.
  intros b [Hb _]%list_elem_of_filter. unfold fits. lia.
Qed.

Lemma lookup_queries_distinct_witness :
  ∃ l1 o l' sent,
    start toy_sha256 (lookup_new sample_policy) sample_store sample_id sample_target = Some (l1, o) ∧
    lookup_run toy_sha256 toy_key toy_verify Z sample_gz l1
      [LPath sample_id sample_path; LNext sample_store sample_target; LDelivery sample_id Timeout;
       LNext sample_store sample_target] = Some (l', sent) ∧
    engine_ok l' ∧ queries_ok (li_target sample_id) (li_kind sample_id) sent ∧
    ∀ k, k ∈ sent.*1 → ∃ s rk,
      LNext s rk ∈ [LPath sample_id sample_path; LNext sample_store sample_target;
                    LDelivery sample_id Timeout; LNext sample_store sample_target] ∧
      k ∈ floodfill_keys s.
Proof.
  apply lookup_queries_distinct.
  - reflexivity.
  - vm_compute. reflexivity.
  - vm_compute. discriminate.
  - assert (Hn : lookup_op_ok (LNext sample_store sample_target))
      by (split_and!; [apply sample_store_ok|apply sample_hash_keys|vm_compute; reflexivity]).
    constructor; [apply sample_path_ok|]. constructor; [apply Hn|]. constructor; [exact I|].
    constructor; [apply Hn|constructor].
Defined.

Lemma lookup_asks_every_candidate_witness :
  drive toy_sha256 2 sample_lookup sample_store sample_target =
  Some ([rec_key (sample_record 5)], Failure sample_id FinalPeerExhausted (mkDiagnostics 1 0)).
Proof.
  apply (lookup_asks_every_candidate toy_sha256 sample_lookup sample_active 1 sample_store sample_target
    sample_path 2).
  - reflexivity.
  - reflexivity.
  - apply set_reply_path_ok; [apply active_new_ok; vm_compute; reflexivity|apply sample_path_ok].
  - reflexivity.
  - apply sample_store_ok.
  - apply sample_hash_keys.
  - vm_compute. reflexivity.
  - vm_compute. discriminate.
  - vm_compute. lia.
Defined.

Definition sample_response : StoreMessage :=
  I2np.mkStore (toy_sha256 (identity_bytes sample_identity)) 0 None None
    (RouterInfoCompressed _ _ _ _ (router_info_bytes sample_router_info)).

Lemma store_response_authentic_witness :
  ∃ l' s' r, handle_database_store toy_sha256 toy_key toy_verify Z sample_gz sample_lookup
      sample_store sample_id sample_response (validation_context_new 200000) = Some (l', s', r) ∧
    ((l' = sample_lookup ∧ s' = sample_store ∧ ∀ x, r ≠ Ok (Completed x)) ∨
     ∃ v o, r = Ok (Completed (Success sample_id v)) ∧ is_active sample_lookup sample_id ∧
       active l' = None ∧ store_insert sample_store v = Some (s', o) ∧
       vri_key v = li_target sample_id ∧ router_info_ok (vri_router_info v) ∧
       ri_accepted toy_sha256 toy_key toy_verify (vri_router_info v) (Some (li_target sample_id))
         (validation_context_new 200000) (li_target sample_id)).
Proof.
  apply store_response_authentic.
  - apply sample_store_ok.
  - vm_compute. repeat split; discriminate.
  - apply sample_gz_bytes.
Defined.

Lemma lease_set2_response_authentic_witness :
  ∃ l' s' r, handle_database_store_lease_set2 toy_sha256 toy_key toy_verify
      (mkRouterInfoLookup sample_policy
         (Some (active_new (mkLookupId 1 KindLeaseSet2 (toy_sha256 (destination_bytes sample_destination)))))
         (Some 1))
      (with_config store_config_default)
      (mkLookupId 1 KindLeaseSet2 (toy_sha256 (destination_bytes sample_destination)))
      (I2np.mkStore (toy_sha256 (destination_bytes sample_destination)) 0 None None
         (LeaseSet2Data sample_lease_set2)) (ls2_context_new 850) = Some (l', s', r).
Proof.
  edestruct (lease_set2_response_authentic toy_sha256 toy_key toy_verify) as (l' & s' & r & H & _);
    [| | | |exists l', s', r; exact H].
  - apply with_config_ok; vm_compute; [discriminate|split; discriminate].
  - cbn. split; [apply sample_lease_set2_ok|vm_compute; reflexivity].
  - vm_compute. discriminate.
  - vm_compute. discriminate.
Defined.

(** A full exchange: the peer is asked, its answer completes the lookup and is
    stored. *)
Definition sample_exchange :=
  let target := toy_sha256 (identity_bytes sample_identity) in
  let id := mkLookupId 1 KindRouterInfo target in
  '(l, _, r) ← handle_database_store toy_sha256 toy_key toy_verify Z sample_gz
    (mkRouterInfoLookup sample_policy (Some (active_new id)) (Some 1))
    (with_config store_config_default) id sample_response (validation_context_new 200000);
  match r with Ok (Completed (Success _ v)) => Some (active l, vri_key v) | _ => None end.

Example sample_exchange_completes :
  sample_exchange = Some (None, toy_sha256 (identity_bytes sample_identity)).
Proof. vm_compute. reflexivity. Qed.
