(* ===== verification/LeaseStore.v ===== *)
(** * Classic and meta lease sets in the network database

    [i2pr-netdb/src/lease_set.rs]: what is checked of a classic LeaseSet and of
    a MetaLeaseSet before a floodfill keeps it, and the two stores that hold
    them.  The stores account for a replacement in one step (free the old
    record, charge the new one) where the RouterInfo and LeaseSet2 stores look
    only at the growth; [classic_insert_eq] shows that the two disciplines are
    the same on every store that keeps its invariant, so that the theorems on
    bounded stores hold of both. *)
From S2P Require Import Prelude Utf8 Codec Common Identity Mapping LeaseSet RouterInfo LeaseSet2 NetValidate NetStore.

(** ** Equality of the stored structures *)
#[export] Instance SigningPublicKey_eq_dec : EqDecision SigningPublicKey.
Proof. solve_decision. Defined.
#[export] Instance PublicKey_eq_dec : EqDecision PublicKey.
Proof. solve_decision. Defined.
#[export] Instance SignatureValue_eq_dec : EqDecision SignatureValue.
Proof. solve_decision. Defined.
#[export] Instance KeyCertificate_eq_dec : EqDecision KeyCertificate.
Proof. solve_decision. Defined.
#[export] Instance Certificate_eq_dec : EqDecision Certificate.
Proof. solve_decision. Defined.
#[export] Instance KeyAndCert_eq_dec : EqDecision KeyAndCert.
Proof. solve_decision. Defined.
#[export] Instance Destination_eq_dec : EqDecision Destination.
Proof. solve_decision. Defined.
#[export] Instance Lease_eq_dec : EqDecision Lease.
Proof. solve_decision. Defined.
#[export] Instance LeaseSet_eq_dec : EqDecision LeaseSet.
Proof. solve_decision. Defined.
#[export] Instance MappingEntry_eq_dec : EqDecision MappingEntry.
Proof. solve_decision. Defined.
#[export] Instance Mapping_eq_dec : EqDecision Mapping.
Proof. solve_decision. Defined.
#[export] Instance OfflineSignature_eq_dec : EqDecision OfflineSignature.
Proof. solve_decision. Defined.
#[export] Instance LeaseSet2Header_eq_dec : EqDecision LeaseSet2Header.
Proof. solve_decision. Defined.
#[export] Instance MetaLease_eq_dec : EqDecision MetaLease.
Proof. solve_decision. Defined.
#[export] Instance MetaLeaseSet_eq_dec : EqDecision MetaLeaseSet.
Proof. solve_decision. Defined.

(** ** Validation *)
Record LeaseSetValidationContext := mkLsContext { lsc_now_ms : Z; lsc_max_encoded_len : Z }.
Definition ls_context_new (now_ms : Z) : LeaseSetValidationContext :=
  mkLsContext now_ms MAX_COMMON_STRUCTURE_SIZE.

Inductive LeaseSetValidationError :=
  | LsEncodedTooLarge
  | LsDestinationMismatch
  | LsNoLeases
  | LsExpired
  | LsInvalidSignature
  | LsCrypto (error : CryptoError)
  | LsCodec (error : CodecError).

Record ValidatedLeaseSet := mkValidatedLs {
  vcl_key : bytes;
  vcl_value : LeaseSet;
  vcl_version_ms : Z;
  vcl_encoded_len : Z;
}.
#[export] Instance ValidatedLeaseSet_eq_dec : EqDecision ValidatedLeaseSet.
Proof. solve_decision. Defined.

Record ValidatedMetaLeaseSet := mkValidatedMeta {
  vml_key : bytes;
  vml_value : MetaLeaseSet;
  vml_published_seconds : Z;
  vml_expires_seconds : Z;
  vml_encoded_len : Z;
}.
#[export] Instance ValidatedMetaLeaseSet_eq_dec : EqDecision ValidatedMetaLeaseSet.
Proof. solve_decision. Defined.

Definition ls_crypto_error (e : CryptoError) : LeaseSetValidationError :=
  match e with InvalidSignature => LsInvalidSignature | other => LsCrypto other end.

(** [Iterator::min] *)
Fixpoint list_min (l : list Z) : option Z :=
  match l with
  | [] => None
  | x :: l' => Some (match list_min l' with Some m => Z.min x m | None => x end)
  end.

(** [u32::try_from(now_ms / 1000).unwrap_or(u32::MAX)] *)
Definition now_seconds_of (now_ms : Z) : Z := Z.min (now_ms / 1000) u32_max.

Section validation.
Context (sha256 : bytes → bytes) (ed25519_key : bytes → bool)
  (ed25519_verify : bytes → bytes → bytes → bool).

(** The length and the key, checked the same way for both kinds of record. *)
Definition admit_record (encoded : result CodecError bytes) (destination : Destination)
    (expected : option bytes) (context : LeaseSetValidationContext)
    : result LeaseSetValidationError (bytes * Z) :=
  w ← map_err LsCodec encoded;
  let encoded_len := zlen w in
  if encoded_len >? lsc_max_encoded_len context then Err LsEncodedTooLarge
  else
  key ← map_err LsCodec (destination_hash sha256 destination);
  if match expected with
     | Some expected => bool_decide (expected ≠ key)
     | None => false
     end
  then Err LsDestinationMismatch
  else Ok (key, encoded_len).

Definition lease_set_validate (value : LeaseSet) (expected : option bytes)
    (context : LeaseSetValidationContext) : result LeaseSetValidationError ValidatedLeaseSet :=
  '(key, encoded_len) ← admit_record (lease_set_encode value (lsc_max_encoded_len context))
                          (ls_destination value) expected context;
  _ ← map_err ls_crypto_error
        (verify_signature ed25519_key ed25519_verify
           (signing_key (destination_keys (ls_destination value))) (ls_signed_bytes value)
           (ls_signature value));
  match list_min (lease_end_date <$> ls_leases value) with
  | None => Err LsNoLeases
  | Some version_ms =>
      if version_ms <=? lsc_now_ms context then Err LsExpired
      else Ok (mkValidatedLs key value version_ms encoded_len)
  end.

(** The offline delegation, when there is one, is over. *)
Definition offline_expired (h : LeaseSet2Header) (now_seconds : Z) : bool :=
  match h_offline_signature h with
  | Some offline => os_expires_seconds offline <=? now_seconds
  | None => false
  end.

Definition meta_lease_set_validate (value : MetaLeaseSet) (expected : option bytes)
    (context : LeaseSetValidationContext) : result LeaseSetValidationError ValidatedMetaLeaseSet :=
  '(key, encoded_len) ← admit_record (meta_lease_set_encode value (lsc_max_encoded_len context))
                          (h_destination (meta_header value)) expected context;
  _ ← map_err ls_crypto_error (verify_meta_lease_set ed25519_key ed25519_verify value);
  let published_seconds := h_published_seconds (meta_header value) in
  let expires := expires_seconds (meta_header value) in
  let now_seconds := now_seconds_of (lsc_now_ms context) in
  if offline_expired (meta_header value) now_seconds then Err LsExpired
  else if (expires <=? now_seconds)
          || negb (existsb (λ entry, ml_end_date entry >? now_seconds) (meta_entries value))
  then Err LsExpired
  else Ok (mkValidatedMeta key value published_seconds expires encoded_len).
End validation.

Definition meta_is_unpublished (v : ValidatedMetaLeaseSet) : bool :=
  Flags.is_unpublished (h_flags (meta_header (vml_value v))).
Definition meta_is_blinded_on_publication (v : ValidatedMetaLeaseSet) : bool :=
  Flags.is_blinded_on_publication (h_flags (meta_header (vml_value v))).
Definition meta_disclosure_block (v : ValidatedMetaLeaseSet) : option LeaseSetDisclosureBlock :=
  let flags := h_flags (meta_header (vml_value v)) in
  if Flags.is_unpublished flags then Some Unpublished
  else if Flags.is_blinded_on_publication flags then Some BlindedPublicationDeferred
  else None.

(** ** The stores

    The outcome [Stale] of both is [StaleReplacement]. *)
#[export] Instance lease_set_store_record : StoreRecord ValidatedLeaseSet := {|
  rec_key := vcl_key;
  rec_encoded_len := vcl_encoded_len;
  rec_published := vcl_version_ms;
  rec_same old candidate := bool_decide (candidate = old);
|}.

#[export] Instance meta_store_record : StoreRecord ValidatedMetaLeaseSet := {|
  rec_key := vml_key;
  rec_encoded_len := vml_encoded_len;
  rec_published := vml_published_seconds;
  rec_same old candidate := bool_decide (candidate = old);
|}.

Definition lease_set_store_config : StoreConfig := mkStoreConfig 2048 (2 * 1024 * 1024).
Definition meta_store_config : StoreConfig := mkStoreConfig 1024 (2 * 1024 * 1024).

Section store.
Context {V : Type} `{StoreRecord V}.

(** [next.is_none_or(|v| v > max)] *)
Definition over (next : option Z) (max : Z) : bool :=
  match next with None => true | Some v => v >? max end.

Definition classic_insert (s : BoundedStore V) (candidate : V)
    : option (BoundedStore V * InsertOutcome) :=
  let key := rec_key candidate in
  let size := rec_encoded_len candidate in
  match records s !! key with
  | Some old =>
      if rec_published candidate <? rec_published old then Some (s, StaleReplacement)
      else if rec_published candidate =? rec_published old
      then Some (s, if rec_same old candidate then Idempotent else Conflict)
      else
        let next := freed ← checked_sub (total_encoded_bytes s) (rec_encoded_len old);
                    checked_add usize_max freed size in
        if over next (max_total_encoded_bytes (config s)) then Some (s, CapacityExceeded)
        else
          total ← next;
          Some (mkStore (<[key := candidate]> (records s)) total (config s), Replaced)
  | None =>
      let next := checked_add usize_max (total_encoded_bytes s) size in
      if (Z.of_nat (base.size (records s)) >=? max_records (config s))
         || over next (max_total_encoded_bytes (config s))
      then Some (s, CapacityExceeded)
      else
        total ← next;
        Some (mkStore (<[key := candidate]> (records s)) total (config s), Inserted)
  end.

(** Freeing and charging in one step refuses and accepts what looking at the
    growth does. *)
Lemma classic_insert_eq s v :
  store_ok s → 0 ≤ rec_encoded_len v → classic_insert s v = store_insert s v.
Proof.
  intros Hok Hv. pose proof (so_bytes s Hok) as Hb. pose proof (so_config s Hok) as [_ Hm].
  unfold classic_insert, store_insert. cbv zeta.
  destruct (records s !! rec_key v) as [old|] eqn:E.
  - pose proof (record_fits _ _ _ Hok E) as He.
    destruct (_ <? _); [done|]. destruct (rec_published v =? _); [done|].
    unfold exceeds, over, checked_sub, checked_add.
    destruct (rec_encoded_len old <=? _) eqn:E1; breflect; [|lia]. cbn [mbind option_bind].
    destruct (_ <=? usize_max) eqn:E2; breflect.
    + destruct (_ >? max_total_encoded_bytes _) eqn:E3; breflect.
      * destruct (rec_encoded_len v >? _) eqn:E4; breflect; [|lia]. cbn [andb].
        destruct (_ <=? usize_max) eqn:E5; breflect; [|done].
        destruct (_ >? _) eqn:E6; breflect; [done|lia].
      * destruct (rec_encoded_len v >? _) eqn:E4; breflect; cbn [andb]; [|done].
        destruct (_ <=? usize_max) eqn:E5; breflect; [|lia].
        destruct (_ >? _) eqn:E6; breflect; [lia|done].
    + destruct (rec_encoded_len v >? _) eqn:E4; breflect; [|lia]. cbn [andb].
      destruct (_ <=? usize_max) eqn:E5; breflect; [lia|done].
  - fold (over (checked_add usize_max (total_encoded_bytes s) (rec_encoded_len v))
            (max_total_encoded_bytes (config s))).
    unfold exceeds. destruct (_ >=? _); [done|]. cbn [orb]. unfold over.
    destruct (checked_add _ _ _); [|done]. destruct (_ >? _); done.
Qed.
End store.

(** ** What validation establishes *)
Lemma encode_signed_exact signed sig max w :
  0 ≤ max ≤ usize_max →
  encode_signed signed sig max = Ok w ↔ w = signed ++ signature_bytes sig ∧ zlen w ≤ max.
Proof.
  intros Hm. unfold encode_signed. split.
  - intros He. eapply writes_encode_to_vec in He as [-> ?]; [done|apply writes_signed|lia].
  - intros [-> Hle]. apply encode_to_vec_writes; [apply writes_signed|done|lia].
Qed.

Lemma list_min_spec l m :
  list_min l = Some m ↔ m ∈ l ∧ ∀ x, x ∈ l → m ≤ x.
Proof.
  revert m. induction l as [|x l IH]; intros m; cbn [list_min].
  - split; [done|]. by intros [Hm%elem_of_nil _].
  - destruct (list_min l) as [m'|] eqn:E.
    + destruct (proj1 (IH m') eq_refl) as [Hin Hall]. split.
      * intros [= <-]. split.
        { destruct (Z.min_spec x m') as [[_ ->]|[_ ->]]; [by left|by right]. }
        intros y [->|Hy]%elem_of_cons; [lia|]. specialize (Hall y Hy). lia.
      * intros [Hm Hle]. f_equal. pose proof (Hle x ltac:(by left)).
        pose proof (Hle m' ltac:(by right)).
        apply elem_of_cons in Hm as [->|Hm%Hall]; lia.
    + assert (l = []) as -> by (destruct l; done). split.
      * intros [= <-]. split; [by left|]. by intros y [->|Hy%elem_of_nil]%elem_of_cons.
      * intros [[->|Hm%elem_of_nil]%elem_of_cons _]; done.
Qed.

Lemma list_min_above l m now :
  list_min l = Some m → now < m ↔ ∀ x, x ∈ l → now < x.
Proof.
  intros [Hin Hall]%list_min_spec. split; [|auto]. intros Hn x Hx%Hall. lia.
Qed.

Section accepted.
Context (sha256 : bytes → bytes) (ed25519_key : bytes → bool)
  (ed25519_verify : bytes → bytes → bytes → bool).

Lemma admit_record_exact signed sig d expected ctx key n :
  destination_ok d → 0 ≤ lsc_max_encoded_len ctx ≤ usize_max →
  admit_record sha256 (encode_signed signed sig (lsc_max_encoded_len ctx)) d expected ctx
    = Ok (key, n) ↔
  n = zlen signed + zlen (signature_bytes sig) ∧ n ≤ lsc_max_encoded_len ctx ∧
  key = sha256 (destination_bytes d) ∧ from_option (λ e, e = key) True expected.
Proof.
  intros Hd Hm. unfold admit_record. rewrite (destination_hash_bytes _ _ Hd).
  destruct (encode_signed _ _ _) as [w|e] eqn:E; cbn [map_err mbind result_bind].
  - apply encode_signed_exact in E as [-> Hle]; [|done]. rewrite zlen_app in *.
    destruct (_ >? _) eqn:El; breflect; [lia|]. split.
    + destruct (match expected with Some _ => _ | None => _ end) eqn:Ee; [done|].
      intros [= <- <-]. apply expected_exact in Ee. done.
    + intros (-> & _ & -> & He%expected_exact). by rewrite He.
  - split; [done|]. intros (-> & Hle & _). exfalso.
    assert (Hok : encode_signed signed sig (lsc_max_encoded_len ctx)
                  = Ok (signed ++ signature_bytes sig)); [|by rewrite E in Hok].
    apply encode_signed_exact; [done|]. by rewrite zlen_app.
Qed.

Record ls_accepted (value : LeaseSet) (expected : option bytes) (ctx : LeaseSetValidationContext)
    (v : ValidatedLeaseSet) : Prop := {
  lca_value : vcl_value v = value;
  lca_length : vcl_encoded_len v = zlen (ls_signed_bytes value) + zlen (signature_bytes (ls_signature value));
  lca_fits : vcl_encoded_len v ≤ lsc_max_encoded_len ctx;
  lca_key : vcl_key v = sha256 (destination_bytes (ls_destination value));
  lca_expected : from_option (λ e, e = vcl_key v) True expected;
  lca_signed : signed_by ed25519_key ed25519_verify
    (signing_key (destination_keys (ls_destination value))) (ls_signed_bytes value)
    (ls_signature value);
  lca_version : ∃ l, l ∈ ls_leases value ∧ lease_end_date l = vcl_version_ms v;
  lca_earliest : ∀ l, l ∈ ls_leases value → vcl_version_ms v ≤ lease_end_date l;
  lca_fresh : lsc_now_ms ctx < vcl_version_ms v;
}.

(** A classic LeaseSet is kept exactly when it fits, is bound to its key and
    signed, and every one of its leases is still running. *)
Theorem lease_set_validate_exact value expected ctx v
    (Hok : lease_set_ok value) (Hm : 0 ≤ lsc_max_encoded_len ctx ≤ usize_max) :
  lease_set_validate sha256 ed25519_key ed25519_verify value expected ctx = Ok v ↔
  ls_accepted value expected ctx v.
Proof.
  pose proof (uo_destination _ _ _ _ (lso_unsigned _ Hok)) as Hd.
  unfold lease_set_validate, lease_set_encode. split.
  - destruct (admit_record _ _ _ _ _) as [[key n]|] eqn:Ea; [|done].
    apply admit_record_exact in Ea as (Hn & Hle & Hk & He); [|done|done]. cbn [mbind result_bind].
    destruct (verify_signature _ _ _ _ _) as [[]|] eqn:Ev; [|done]. cbn [map_err mbind result_bind].
    apply verify_signature_exact in Ev.
    destruct (list_min _) as [m|] eqn:El; [|done]. apply list_min_spec in El as [Hin Hall].
    destruct (_ <=? _) eqn:Et; breflect; [done|]. intros <-%Ok_inj.
    apply list_elem_of_fmap in Hin as (l & -> & Hl). constructor; cbn; try done; [by exists l|].
    intros l' Hl'. apply Hall, list_elem_of_fmap. by exists l'.
  - intros [Hv Hn Hle Hk He Hs (l & Hl & Hlm) Hall Hf]. destruct v as [key value' m n]. cbn in *.
    subst value' n.
    rewrite (proj2 (admit_record_exact _ _ _ expected ctx key _ Hd Hm)) by done.
    cbn [mbind result_bind]. rewrite (proj2 (verify_signature_exact _ _ _ _ _) Hs).
    cbn [map_err mbind result_bind].
    rewrite (proj2 (list_min_spec _ m)).
    + destruct (_ <=? _) eqn:Et; breflect; [lia|done].
    + split; [rewrite <- Hlm; by apply list_elem_of_fmap_2|].
      intros x (l' & -> & Hl')%list_elem_of_fmap. by apply Hall.
Qed.

(** The signature chain of a MetaLeaseSet. *)
Definition meta_authorized (v : MetaLeaseSet) : Prop :=
  let destination_key := signing_key (destination_keys (h_destination (meta_header v))) in
  match h_offline_signature (meta_header v) with
  | Some offline =>
      signed_by ed25519_key ed25519_verify destination_key (offline_signed_bytes offline)
        (os_signature offline) ∧
      signed_by ed25519_key ed25519_verify (os_transient_key offline) (meta_signature_preimage v)
        (meta_signature v)
  | None => signed_by ed25519_key ed25519_verify destination_key (meta_signature_preimage v)
      (meta_signature v)
  end.

Lemma verify_meta_exact v :
  verify_meta_lease_set ed25519_key ed25519_verify v = Ok () ↔ meta_authorized v.
Proof.
  unfold verify_meta_lease_set, meta_authorized. cbv zeta.
  destruct (h_offline_signature _) as [o|]; [|apply verify_signature_exact].
  rewrite <- !verify_signature_exact.
  destruct (verify_signature _ _ _ (offline_signed_bytes o) _) as [[]|]; cbn [mbind result_bind].
  - split; [done|by intros []].
  - split; [done|by intros []].
Qed.

Lemma offline_expired_false h now :
  offline_expired h now = false ↔
  from_option (λ o, now < os_expires_seconds o) True (h_offline_signature h).
Proof.
  unfold offline_expired. destruct (h_offline_signature h) as [o|]; cbn; [|done].
  split; intros ?; breflect; lia.
Qed.

Record meta_accepted (value : MetaLeaseSet) (expected : option bytes)
    (ctx : LeaseSetValidationContext) (v : ValidatedMetaLeaseSet) : Prop := {
  mta_value : vml_value v = value;
  mta_published : vml_published_seconds v = h_published_seconds (meta_header value);
  mta_expires : vml_expires_seconds v = expires_seconds (meta_header value);
  mta_length : vml_encoded_len v =
    zlen (meta_signed_bytes value) + zlen (signature_bytes (meta_signature value));
  mta_fits : vml_encoded_len v ≤ lsc_max_encoded_len ctx;
  mta_key : vml_key v = sha256 (destination_bytes (h_destination (meta_header value)));
  mta_expected : from_option (λ e, e = vml_key v) True expected;
  mta_signed : meta_authorized value;
  mta_delegated : from_option (λ o, now_seconds_of (lsc_now_ms ctx) < os_expires_seconds o) True
    (h_offline_signature (meta_header value));
  mta_fresh : now_seconds_of (lsc_now_ms ctx) < vml_expires_seconds v;
  mta_entry : ∃ e, e ∈ meta_entries value ∧ now_seconds_of (lsc_now_ms ctx) < ml_end_date e;
}.

(** A MetaLeaseSet is kept exactly when it fits, is bound to its key, signed
    under a delegation that still holds, and neither it nor all of its entries
    are over. *)
Theorem meta_validate_exact value expected ctx v
    (Hok : meta_lease_set_ok value) (Hm : 0 ≤ lsc_max_encoded_len ctx ≤ usize_max) :
  meta_lease_set_validate sha256 ed25519_key ed25519_verify value expected ctx = Ok v ↔
  meta_accepted value expected ctx v.
Proof.
  pose proof (ho_destination _ (mo_header _ _ _ _ (ms_unsigned _ Hok))) as Hd.
  unfold meta_lease_set_validate, meta_lease_set_encode. cbv zeta. split.
  - destruct (admit_record _ _ _ _ _) as [[key n]|] eqn:Ea; [|done].
    apply admit_record_exact in Ea as (Hn & Hle & Hk & He); [|done|done]. cbn [mbind result_bind].
    destruct (verify_meta_lease_set _ _ _) as [[]|] eqn:Ev; [|done]. cbn [map_err mbind result_bind].
    apply verify_meta_exact in Ev.
    destruct (offline_expired _ _) eqn:Eo; [done|]. apply offline_expired_false in Eo.
    destruct (_ || _) eqn:Et; [done|]. apply orb_false_iff in Et as [Et Ee]. breflect.
    apply existsb_exists in Ee as (e & Hin%list_elem_of_In & Hx). intros <-%Ok_inj.
    constructor; cbn; try done; exists e. split; [done|lia].
  - intros [Hv Hp Hx Hn Hle Hk He Hs Ho Hf (e & Hin & Hend)]. destruct v as [key value' p x n].
    cbn in *. subst value' p x n.
    rewrite (proj2 (admit_record_exact _ _ _ expected ctx key _ Hd Hm)) by done.
    cbn [mbind result_bind]. rewrite (proj2 (verify_meta_exact _) Hs).
    cbn [map_err mbind result_bind]. rewrite (proj2 (offline_expired_false _ _) Ho).
    destruct (_ || _) eqn:Et; [|done]. exfalso. apply orb_true_iff in Et as [Et|Et]; breflect; [lia|].
    assert (Hex : existsb (λ entry, ml_end_date entry >? now_seconds_of (lsc_now_ms ctx))
      (meta_entries value) = true); [|congruence].
    apply existsb_exists. exists e. split; [by apply list_elem_of_In|lia].
Qed.
End accepted.
