(* ===== verification/Els2.v ===== *)
(** * Encrypted LeaseSet2 records at a floodfill

    What a floodfill checks of a type-5 record before it files it under its
    blinded key: the validation half and the store of
    [i2pr-netdb/src/els2.rs], the signature profiles of
    [i2pr-netdb/src/els2_transcript.rs], and the two Red25519 verifications of
    [i2pr-crypto/src/red25519.rs] and [red25519_deployed.rs].  Two transcripts
    of signature type 11 are in use and the wire does not say which one was
    signed; a record is accepted when exactly one of them verifies.

    Curve arithmetic, SHA-256, SHA-512 and Ed25519 come from other packages and
    are parameters. *)
From S2P Require Import Prelude Utf8 Codec Common Identity Mapping LeaseSet RouterInfo LeaseSet2 EncryptedLeaseSet I2np NetValidate NetStore Routing Lookup LeaseStore.

#[export] Instance OfflineKeys_eq_dec : EqDecision EncryptedLeaseSet2OfflineKeys.
Proof. solve_decision. Defined.
#[export] Instance EncryptedLeaseSet2_eq_dec : EqDecision EncryptedLeaseSet2.
Proof. solve_decision. Defined.

(** ** Red25519 verification *)

(** What the code uses of the curve library: compressed points, scalars reduced
    from 64 bytes and read canonically from 32, [aA + bB] with [B] the base
    point, addition, the cofactor and the identity. *)
Record Curve := mkCurve {
  point : Type;
  scalar : Type;
  decompress : bytes → option point;
  compress : point → bytes;
  from_bytes_mod_order_wide : bytes → scalar;
  from_canonical_bytes : bytes → option scalar;
  negate : scalar → scalar;
  double_scalar_mul_basepoint : scalar → point → scalar → point;
  point_add : point → point → point;
  mul_by_cofactor : point → point;
  is_identity : point → bool;
}.

Inductive Red25519Error :=
  | RedRandomnessUnavailable
  | MessageTooLong (actual maximum : Z)
  | InvalidPublicKey
  | SmallOrderPoint
  | NotPrimeOrderPoint
  | NonCanonicalScalar
  | NonCanonicalConvertedScalar
  | InvalidSignatureLength (actual expected : Z)
  | SignatureVerificationFailed
  | BlindedSignatureVerificationFailed
  | UnsupportedSigType (algorithm : Z)
  | InvalidBlindingDay (reason : string)
  | LookupSecretTooLong (actual maximum : Z)
  | ProtocolKeyRejected
  | KeyDerivationFailed.

Definition BLINDED_SIGNING_KEY_TYPE : SigningKeyType := Signing.RedDsaSha512Ed25519.
Definition ED25519_SIGNING_KEY_TYPE : SigningKeyType := Signing.EdDsaSha512Ed25519.
Definition PUBLIC_KEY_LENGTH : Z := 32.
Definition SCALAR_LENGTH : Z := 32.
Definition RED_SIGNATURE_LENGTH : Z := 64.
Definition MAX_MESSAGE_LENGTH : Z := 65534.
Definition MAX_DEPLOYED_MESSAGE_LENGTH : Z := 65534.
(** "I2P_Red25519H(x)" *)
Definition HSTAR_PREFIX : bytes :=
  [73; 50; 80; 95; 82; 101; 100; 50; 53; 53; 49; 57; 72; 40; 120; 41].

Inductive Els2Type11Profile := Deployed | Strict | NoProfile | Ambiguous.
#[export] Instance Els2Type11Profile_eq_dec : EqDecision Els2Type11Profile.
Proof. solve_decision. Defined.
Definition is_accepted (p : Els2Type11Profile) : bool :=
  match p with Deployed | Strict => true | _ => false end.

Inductive Els2RecordSignatureProfile :=
  | Type11 (profile : Els2Type11Profile)
  | Ed25519Transient.
#[export] Instance Els2RecordSignatureProfile_eq_dec : EqDecision Els2RecordSignatureProfile.
Proof. solve_decision. Defined.

(** ** Validation

    The error that wraps a failure of the decryption layers is left out: no
    check of the validation returns it. *)
Inductive Els2ValidationError :=
  | E2EncodedTooLarge (actual maximum : Z)
  | E2UnsupportedBlindedSigtype (code expected : Z)
  | E2InvalidBlindedPublicKey
  | E2StorageKeyMismatch
  | E2OfflineSignatureExpired
  | E2UnsupportedTransientSigtype (code : Z)
  | E2InvalidSignature
  | E2InvalidOfflineSignature
  | E2ExcessiveFuture (skew_secs max_skew_secs : Z)
  | E2Expired (expires_secs now_secs : Z).

Record Els2ValidationPolicy := mkEls2Policy {
  e2_max_future_skew_seconds : Z;
  e2_max_encoded_len : Z;
}.
Definition els2_policy_default : Els2ValidationPolicy :=
  mkEls2Policy (60 * 60) MAX_ELS2_RECORD_LENGTH.
Record Els2ValidationContext := mkEls2Context {
  e2_now_seconds : Z;
  e2_policy : Els2ValidationPolicy;
}.
Definition els2_context_new (now_seconds : Z) : Els2ValidationContext :=
  mkEls2Context now_seconds (mkEls2Policy (60 * 60) MAX_ELS2_RECORD_LENGTH).

Record ValidatedEncryptedLeaseSet2 := mkValidatedEls2 {
  ve_record : EncryptedLeaseSet2;
  ve_storage_key : bytes;
  ve_encoded_len : Z;
  ve_signature_profile : Els2RecordSignatureProfile;
}.
#[export] Instance ValidatedEls2_eq_dec : EqDecision ValidatedEncryptedLeaseSet2.
Proof. solve_decision. Defined.

Definition ENCRYPTED_LEASE_SET2_BLINDED_SIGTYPE : SigningKeyType := Signing.RedDsaSha512Ed25519.
Definition ENCRYPTED_LEASE_SET2_UNBLINDED_SIGTYPES : list SigningKeyType :=
  [Signing.EdDsaSha512Ed25519; Signing.RedDsaSha512Ed25519].

Section verification.
Context (curve : Curve) (sha256 sha512 : bytes → bytes) (ed25519_key : bytes → bool)
  (ed25519_verify : bytes → bytes → bytes → bool).

Definition point_from_bytes (bs : bytes) : result Red25519Error (point curve) :=
  match decompress curve bs with
  | None => Err InvalidPublicKey
  | Some p => if bool_decide (compress curve p ≠ bs) then Err InvalidPublicKey else Ok p
  end.

(** [Red25519PublicKey::decode]; a decoded key is its bytes. *)
Definition red_public_key_decode (bs : bytes) : result Red25519Error bytes :=
  if negb (zlen bs =? PUBLIC_KEY_LENGTH) then Err InvalidPublicKey
  else _ ← point_from_bytes bs; Ok bs.

Definition red_signature_decode (bs : bytes) : result Red25519Error bytes :=
  if negb (zlen bs =? RED_SIGNATURE_LENGTH)
  then Err (InvalidSignatureLength (zlen bs) RED_SIGNATURE_LENGTH)
  else Ok bs.

(** [check_equation]; [S] is the second half of the signature. *)
Definition check_equation (public_point : point curve) (r_bytes sig : bytes)
    (challenge : scalar curve) : bool :=
  match point_from_bytes r_bytes with
  | Err _ => false
  | Ok big_r =>
  match from_canonical_bytes curve (slice PUBLIC_KEY_LENGTH (PUBLIC_KEY_LENGTH + SCALAR_LENGTH) sig) with
  | None => false
  | Some s =>
      is_identity curve
        (mul_by_cofactor curve
           (point_add curve
              (double_scalar_mul_basepoint curve challenge public_point (negate curve s)) big_r))
  end
  end.

Definition h_star (prefix1 prefix2 message : bytes) : result Red25519Error (scalar curve) :=
  if zlen message >? MAX_MESSAGE_LENGTH
  then Err (MessageTooLong (zlen message) MAX_MESSAGE_LENGTH)
  else
    Ok (from_bytes_mod_order_wide curve
          (sha512 (HSTAR_PREFIX ++ prefix1 ++ prefix2 ++ reverse (to_be 2 (zlen message)) ++ message))).

(** [red25519::verify_blinded]: the transcript of the specification. *)
Definition verify_strict (public_key message sig : bytes) : result Red25519Error () :=
  match point_from_bytes public_key with
  | Err _ => Err BlindedSignatureVerificationFailed
  | Ok p =>
  let r_bytes := slice 0 PUBLIC_KEY_LENGTH sig in
  match h_star r_bytes (compress curve p) message with
  | Err _ => Err BlindedSignatureVerificationFailed
  | Ok c => if check_equation p r_bytes sig c then Ok () else Err BlindedSignatureVerificationFailed
  end
  end.

Definition challenge (r_bytes public_bytes message : bytes) : scalar curve :=
  from_bytes_mod_order_wide curve (sha512 (r_bytes ++ public_bytes ++ message)).

(** [red25519_deployed::verify_blinded]: the transcript of the deployed routers. *)
Definition verify_deployed (public_key message sig : bytes) : result Red25519Error () :=
  if zlen message >? MAX_DEPLOYED_MESSAGE_LENGTH
  then Err (MessageTooLong (zlen message) MAX_DEPLOYED_MESSAGE_LENGTH)
  else
  match point_from_bytes public_key with
  | Err _ => Err BlindedSignatureVerificationFailed
  | Ok p =>
      let r_bytes := slice 0 PUBLIC_KEY_LENGTH sig in
      if check_equation p r_bytes sig (challenge r_bytes (compress curve p) message)
      then Ok () else Err BlindedSignatureVerificationFailed
  end.

Definition blinded_storage_key (public_key : bytes) : bytes :=
  sha256 (to_be 2 (Signing.code BLINDED_SIGNING_KEY_TYPE) ++ public_key).

(** *** Profiles *)
Definition classify_type11 (public_key region sig : bytes) : Els2Type11Profile :=
  match red_signature_decode sig with
  | Err _ => NoProfile
  | Ok parsed =>
      match verify_deployed public_key region parsed, verify_strict public_key region parsed with
      | Ok _, Ok _ => Ambiguous
      | Ok _, Err _ => Deployed
      | Err _, Ok _ => Strict
      | Err _, Err _ => NoProfile
      end
  end.

(** The caller keeps only that it failed. *)
Definition verify_type11 (public_key region sig : bytes) : option Els2Type11Profile :=
  let profile := classify_type11 public_key region sig in
  if is_accepted profile then Some profile else None.

Definition verify_with_sigtype (public_key : bytes) (sigtype : SigningKeyType)
    (region sig : bytes) : option Els2RecordSignatureProfile :=
  if bool_decide (sigtype = ENCRYPTED_LEASE_SET2_BLINDED_SIGTYPE)
  then Type11 <$> verify_type11 public_key region sig
  else if bool_decide (sigtype ≠ ED25519_SIGNING_KEY_TYPE) then None
  else
    match signing_key_new sigtype public_key, signature_new sigtype sig with
    | Ok signing_public_key, Ok signature_value =>
        match verify_signature ed25519_key ed25519_verify signing_public_key region signature_value with
        | Ok _ => Some Ed25519Transient
        | Err _ => None
        end
    | _, _ => None
    end.

Definition validate_offline_block (blinded_public_key : bytes)
    (offline : EncryptedLeaseSet2OfflineKeys) (context : Els2ValidationContext)
    : result Els2ValidationError () :=
  if negb (bool_decide (ok_sigtype offline ∈ ENCRYPTED_LEASE_SET2_UNBLINDED_SIGTYPES))
  then Err (E2UnsupportedTransientSigtype (Signing.code (ok_sigtype offline)))
  else if ok_expires_seconds offline <=? e2_now_seconds context then Err E2OfflineSignatureExpired
  else
    match verify_with_sigtype blinded_public_key BLINDED_SIGNING_KEY_TYPE
            (ok_signed_bytes offline) (ok_signature offline) with
    | Some _ => Ok ()
    | None => Err E2InvalidOfflineSignature
    end.

Definition verify_record_signature (record : EncryptedLeaseSet2) (blinded_public_key : bytes)
    : result Els2ValidationError Els2RecordSignatureProfile :=
  let region := els2_signed_bytes record in
  let sig := els2_signature record in
  match els2_offline_keys record with
  | Some offline =>
      match red_public_key_decode (ok_public_key offline) with
      | Err _ => Err E2InvalidSignature
      | Ok transient =>
          match verify_with_sigtype transient (ok_sigtype offline) region sig with
          | Some profile => Ok profile
          | None => Err E2InvalidSignature
          end
      end
  | None =>
      match verify_with_sigtype blinded_public_key ENCRYPTED_LEASE_SET2_BLINDED_SIGTYPE region sig with
      | Some profile => Ok profile
      | None => Err E2InvalidSignature
      end
  end.

(** The freshness rules at the end of [validate]. *)
Definition check_els2_fresh (record : EncryptedLeaseSet2) (context : Els2ValidationContext)
    : result Els2ValidationError () :=
  let now_secs := e2_now_seconds context in
  let published_secs := els2_published_seconds record in
  let max_skew := e2_max_future_skew_seconds (e2_policy context) in
  if (published_secs >? now_secs) && (published_secs - now_secs >? max_skew)
  then Err (E2ExcessiveFuture (published_secs - now_secs) max_skew)
  else if els2_expires_seconds record <=? now_secs
  then Err (E2Expired (els2_expires_seconds record) now_secs)
  else Ok ().

Definition els2_validate (record : EncryptedLeaseSet2) (expected_key : option bytes)
    (context : Els2ValidationContext) : result Els2ValidationError ValidatedEncryptedLeaseSet2 :=
  let maximum := e2_max_encoded_len (e2_policy context) in
  match checked_add usize_max (zlen (els2_signed_bytes record)) (zlen (els2_signature record)) with
  | None => Err (E2EncodedTooLarge usize_max maximum)
  | Some encoded_len =>
  if encoded_len >? maximum then Err (E2EncodedTooLarge encoded_len maximum)
  else if bool_decide (els2_blinded_sigtype record ≠ ENCRYPTED_LEASE_SET2_BLINDED_SIGTYPE)
  then Err (E2UnsupportedBlindedSigtype (Signing.code (els2_blinded_sigtype record))
              (Signing.code ENCRYPTED_LEASE_SET2_BLINDED_SIGTYPE))
  else
  match red_public_key_decode (els2_blinded_public_key record) with
  | Err _ => Err E2InvalidBlindedPublicKey
  | Ok blinded_public_key =>
  let storage_key := blinded_storage_key blinded_public_key in
  if match expected_key with
     | Some expected => bool_decide (expected ≠ storage_key)
     | None => false
     end
  then Err E2StorageKeyMismatch
  else
  _ ← match els2_offline_keys record with
      | Some offline => validate_offline_block blinded_public_key offline context
      | None => Ok ()
      end;
  signature_profile ← verify_record_signature record blinded_public_key;
  _ ← check_els2_fresh record context;
  Ok (mkValidatedEls2 record storage_key encoded_len signature_profile)
  end
  end.
End verification.

(** ** The store

    The code is that of the LeaseSet2 store; records of the same age are the
    same when they are equal. *)
#[export] Instance els2_store_record : StoreRecord ValidatedEncryptedLeaseSet2 := {|
  rec_key := ve_storage_key;
  rec_encoded_len := ve_encoded_len;
  rec_published v := els2_published_seconds (ve_record v);
  rec_same existing validated := bool_decide (ve_record existing = ve_record validated);
|}.
Definition els2_store_config : StoreConfig := mkStoreConfig 4096 (8 * 1024 * 1024).

(** ** What validation establishes *)
Section accepted.
Context (curve : Curve) (sha256 sha512 : bytes → bytes) (ed25519_key : bytes → bool)
  (ed25519_verify : bytes → bytes → bytes → bool).

(** The bytes are the canonical encoding of the point. *)
Definition encodes_point (bs : bytes) (p : point curve) : Prop :=
  decompress curve bs = Some p ∧ compress curve p = bs.

(** [8([c]A - [S]B + R) = 0] for the signature [R || S] and the key [A]. *)
Definition equation_holds (pk sig : bytes) (c : scalar curve) : Prop := ∃ a r s,
  encodes_point pk a ∧ encodes_point (slice 0 32 sig) r ∧
  from_canonical_bytes curve (slice 32 64 sig) = Some s ∧
  is_identity curve (mul_by_cofactor curve
    (point_add curve (double_scalar_mul_basepoint curve c a (negate curve s)) r)) = true.

Definition strict_signed (pk message sig : bytes) : Prop :=
  zlen message ≤ 65534 ∧
  equation_holds pk sig (from_bytes_mod_order_wide curve
    (sha512 (HSTAR_PREFIX ++ slice 0 32 sig ++ pk ++ reverse (to_be 2 (zlen message)) ++ message))).
Definition deployed_signed (pk message sig : bytes) : Prop :=
  zlen message ≤ 65534 ∧
  equation_holds pk sig (from_bytes_mod_order_wide curve
    (sha512 (slice 0 32 sig ++ pk ++ message))).

Lemma point_from_bytes_exact bs p : point_from_bytes curve bs = Ok p ↔ encodes_point bs p.
Proof.
  unfold point_from_bytes, encodes_point. destruct (decompress curve bs) as [q|]; [|by split; [|intros []]].
  destruct (bool_decide _) eqn:E.
  - apply bool_decide_eq_true in E. split; [done|]. by intros [[= <-] ?].
  - apply bool_decide_eq_false in E. apply dec_stable in E. split.
    + by intros <-%Ok_inj.
    + by intros [[= <-] _].
Qed.

Lemma check_equation_exact a pk sig c :
  encodes_point pk a →
  check_equation curve a (slice 0 32 sig) sig c = true ↔ equation_holds pk sig c.
Proof.
  intros Ha. unfold check_equation, equation_holds, PUBLIC_KEY_LENGTH, SCALAR_LENGTH.
  change (32 + 32) with 64. split.
  - destruct (point_from_bytes _ _) as [r|] eqn:Er; [|done]. apply point_from_bytes_exact in Er.
    destruct (from_canonical_bytes _ _) as [s|] eqn:Es; [|done]. intros Hi. by exists a, r, s.
  - intros (a' & r & s & Ha' & Hr & Hs & Hi). apply point_from_bytes_exact in Hr. rewrite Hr, Hs.
    destruct Ha as [Hd _], Ha' as [Hd' _]. rewrite Hd in Hd'. by injection Hd' as <-.
Qed.

Lemma equation_point pk sig c : equation_holds pk sig c → ∃ a, encodes_point pk a.
Proof. intros (a & r & s & Ha & _). by exists a. Qed.

Lemma verify_strict_exact pk message sig :
  verify_strict curve sha512 pk message sig = Ok () ↔ strict_signed pk message sig.
Proof.
  unfold verify_strict, strict_signed, h_star, MAX_MESSAGE_LENGTH, PUBLIC_KEY_LENGTH. cbv zeta.
  destruct (point_from_bytes _ pk) as [a|] eqn:Ea.
  - apply point_from_bytes_exact in Ea. destruct (_ >? _) eqn:El; breflect; [split; [done|lia]|].
    destruct Ea as [Hd Hc]. rewrite Hc, <- (check_equation_exact a) by done.
    destruct (check_equation _ _ _ _ _); split; try done. by intros [].
  - split; [done|]. intros [_ (a & Ha)%equation_point]. apply point_from_bytes_exact in Ha.
    by rewrite Ha in Ea.
Qed.

Lemma verify_deployed_exact pk message sig :
  verify_deployed curve sha512 pk message sig = Ok () ↔ deployed_signed pk message sig.
Proof.
  unfold verify_deployed, deployed_signed, challenge, MAX_DEPLOYED_MESSAGE_LENGTH, PUBLIC_KEY_LENGTH.
  cbv zeta. destruct (_ >? _) eqn:El; breflect; [split; [done|lia]|].
  destruct (point_from_bytes _ pk) as [a|] eqn:Ea.
  - apply point_from_bytes_exact in Ea. destruct Ea as [Hd Hc].
    rewrite Hc, <- (check_equation_exact a) by done.
    destruct (check_equation _ _ _ _ _); split; try done. by intros [].
  - split; [done|]. intros [_ (a & Ha)%equation_point]. apply point_from_bytes_exact in Ha.
    by rewrite Ha in Ea.
Qed.

(** Exactly one of the transcripts verifies, and the profile says which. *)
Definition type11_signed (pk region sig : bytes) (p : Els2Type11Profile) : Prop :=
  zlen sig = 64 ∧
  match p with
  | Deployed => deployed_signed pk region sig ∧ ¬ strict_signed pk region sig
  | Strict => strict_signed pk region sig ∧ ¬ deployed_signed pk region sig
  | _ => False
  end.

Lemma verify_type11_exact pk region sig p :
  verify_type11 curve sha512 pk region sig = Some p ↔ type11_signed pk region sig p.
Proof.
  unfold verify_type11, classify_type11, red_signature_decode, RED_SIGNATURE_LENGTH, type11_signed.
  cbv zeta. destruct (zlen sig =? 64) eqn:El; breflect; cbn [negb];
    [|split; [done|by intros [? _]]].
  pose proof (verify_deployed_exact pk region sig) as Hd.
  pose proof (verify_strict_exact pk region sig) as Hs.
  destruct (verify_deployed _ _ _ _ _) as [[]|e1], (verify_strict _ _ _ _ _) as [[]|e2];
    cbn [is_accepted]; destruct p; naive_solver.
Qed.

(** The key of the record or, with offline keys, the transient key that the
    blinded key delegated to and whose delegation is not over. *)
Definition transient_signed (o : EncryptedLeaseSet2OfflineKeys) (region sig : bytes)
    (profile : Els2RecordSignatureProfile) : Prop :=
  match profile with
  | Type11 p => ok_sigtype o = Signing.RedDsaSha512Ed25519 ∧ type11_signed (ok_public_key o) region sig p
  | Ed25519Transient =>
      signed_by ed25519_key ed25519_verify (mkSigningKey (ok_sigtype o) (ok_public_key o)) region
        (mkSignature (ok_sigtype o) sig)
  end.
Definition els2_authorized (record : EncryptedLeaseSet2) (now : Z)
    (profile : Els2RecordSignatureProfile) : Prop :=
  let pk := els2_blinded_public_key record in
  match els2_offline_keys record with
  | Some o =>
      ok_sigtype o ∈ ENCRYPTED_LEASE_SET2_UNBLINDED_SIGTYPES ∧ now < ok_expires_seconds o ∧
      (∃ p, type11_signed pk (ok_signed_bytes o) (ok_signature o) p) ∧
      (zlen (ok_public_key o) = 32 ∧ ∃ a, encodes_point (ok_public_key o) a) ∧
      transient_signed o (els2_signed_bytes record) (els2_signature record) profile
  | None =>
      ∃ p, profile = Type11 p ∧ type11_signed pk (els2_signed_bytes record) (els2_signature record) p
  end.

Lemma verify_blinded_sigtype pk region sig profile :
  verify_with_sigtype curve sha512 ed25519_key ed25519_verify pk Signing.RedDsaSha512Ed25519 region
    sig = Some profile ↔ ∃ p, profile = Type11 p ∧ type11_signed pk region sig p.
Proof.
  unfold verify_with_sigtype. rewrite bool_decide_eq_true_2 by done. rewrite fmap_Some.
  setoid_rewrite verify_type11_exact. naive_solver.
Qed.

Lemma verify_ed25519_sigtype pk region sig profile :
  verify_with_sigtype curve sha512 ed25519_key ed25519_verify pk Signing.EdDsaSha512Ed25519 region
    sig = Some profile ↔
  profile = Ed25519Transient ∧
  signed_by ed25519_key ed25519_verify (mkSigningKey Signing.EdDsaSha512Ed25519 pk) region
    (mkSignature Signing.EdDsaSha512Ed25519 sig).
Proof.
  unfold verify_with_sigtype. rewrite bool_decide_eq_false_2 by done.
  rewrite bool_decide_eq_false_2 by (unfold ED25519_SIGNING_KEY_TYPE; naive_solver).
  unfold signing_key_new, signature_new. cbn [Signing.public_key_len Signing.signature_len].
  destruct (zlen pk =? 32) eqn:E1; breflect; cbn [negb];
    [|split; [done|intros [_ [_ _ Hl _ _ _]]; done]].
  destruct (zlen sig =? 64) eqn:E2; breflect; cbn [negb];
    [|split; [done|intros [_ [_ _ _ _ Hl _]]; done]].
  rewrite <- verify_signature_exact. destruct (verify_signature _ _ _ _ _) as [[]|]; naive_solver.
Qed.

Lemma red_public_key_decode_exact bs out :
  red_public_key_decode curve bs = Ok out ↔ out = bs ∧ zlen bs = 32 ∧ ∃ a, encodes_point bs a.
Proof.
  unfold red_public_key_decode, PUBLIC_KEY_LENGTH.
  destruct (zlen bs =? 32) eqn:E; breflect; cbn [negb]; [|split; [done|by intros (_ & ? & _)]].
  setoid_rewrite <- point_from_bytes_exact.
  destruct (point_from_bytes _ _) as [a|]; cbn [mbind result_bind]; [|split; [done|naive_solver]].
  split; [intros <-%Ok_inj; eauto|by intros (-> & _)].
Qed.

Lemma offline_block_exact pk o ctx :
  validate_offline_block curve sha512 ed25519_key ed25519_verify pk o ctx = Ok () ↔
  ok_sigtype o ∈ ENCRYPTED_LEASE_SET2_UNBLINDED_SIGTYPES ∧
  e2_now_seconds ctx < ok_expires_seconds o ∧
  ∃ p, type11_signed pk (ok_signed_bytes o) (ok_signature o) p.
Proof.
  unfold validate_offline_block. destruct (bool_decide _) eqn:E1; cbn [negb].
  - apply bool_decide_eq_true in E1. destruct (_ <=? _) eqn:E2; breflect; [split; [done|lia]|].
    pose proof (verify_blinded_sigtype pk (ok_signed_bytes o) (ok_signature o)) as Hv.
    change Signing.RedDsaSha512Ed25519 with BLINDED_SIGNING_KEY_TYPE in Hv.
    destruct (verify_with_sigtype _ _ _ _ _ _ _ _) as [profile|].
    + split; [|done]. intros _. destruct (proj1 (Hv profile) eq_refl) as (p & _ & Hp). eauto.
    + split; [done|]. intros (_ & _ & p & Hp). by specialize (proj2 (Hv (Type11 p)) (ex_intro _ p (conj eq_refl Hp))).
  - apply bool_decide_eq_false in E1. split; [done|]. by intros (? & _).
Qed.

Lemma record_signature_exact record profile now :
  (match els2_offline_keys record with
   | Some o => ok_sigtype o ∈ ENCRYPTED_LEASE_SET2_UNBLINDED_SIGTYPES ∧ now < ok_expires_seconds o ∧
       ∃ p, type11_signed (els2_blinded_public_key record) (ok_signed_bytes o) (ok_signature o) p
   | None => True
   end) →
  verify_record_signature curve sha512 ed25519_key ed25519_verify record
    (els2_blinded_public_key record) = Ok profile ↔ els2_authorized record now profile.
Proof.
  unfold verify_record_signature, els2_authorized. cbv zeta.
  destruct (els2_offline_keys record) as [o|].
  - intros (Ht & Hx & Hp).
    destruct (red_public_key_decode _ _) as [t|e] eqn:Ek.
    + apply red_public_key_decode_exact in Ek as (-> & Hl & Ha). unfold transient_signed.
      apply elem_of_cons in Ht as [Ht|Ht%list_elem_of_singleton]; rewrite Ht.
      * pose proof (verify_ed25519_sigtype (ok_public_key o) (els2_signed_bytes record)
          (els2_signature record)) as Hv.
        destruct (verify_with_sigtype _ _ _ _ _ _ _ _) as [pr|]; split.
        -- intros <-%Ok_inj. destruct (proj1 (Hv pr) eq_refl) as [-> Hs]. split_and!; try done. by left.
        -- intros (_ & _ & _ & _ & Hs). destruct profile as [p|]; [by destruct Hs|].
           f_equal. by apply Some_inj, Hv.
        -- done.
        -- intros (_ & _ & _ & _ & Hs). destruct profile as [p|]; [by destruct Hs|].
           by specialize (proj2 (Hv Ed25519Transient) (conj eq_refl Hs)).
      * pose proof (verify_blinded_sigtype (ok_public_key o) (els2_signed_bytes record)
          (els2_signature record)) as Hv.
        destruct (verify_with_sigtype _ _ _ _ _ _ _ _) as [pr|]; split.
        -- intros <-%Ok_inj. destruct (proj1 (Hv pr) eq_refl) as (p & -> & Hs). split_and!; try done.
           by right; left.
        -- intros (_ & _ & _ & _ & Hs). destruct profile as [p|]; [|by destruct Hs].
           f_equal. apply Some_inj, Hv. destruct Hs. eauto.
        -- done.
        -- intros (_ & _ & _ & _ & Hs). destruct profile as [p|]; [|by destruct Hs]. destruct Hs as [_ Hs].
           by specialize (proj2 (Hv (Type11 p)) (ex_intro _ p (conj eq_refl Hs))).
    + split; [done|]. intros (_ & _ & _ & Hk & _).
      assert (Hk' : red_public_key_decode curve (ok_public_key o) = Ok (ok_public_key o))
        by (by apply red_public_key_decode_exact). by rewrite Ek in Hk'.
  - intros _. change ENCRYPTED_LEASE_SET2_BLINDED_SIGTYPE with Signing.RedDsaSha512Ed25519.
    rewrite <- verify_blinded_sigtype. destruct (verify_with_sigtype _ _ _ _ _ _ _ _); naive_solver.
Qed.

Record els2_accepted (record : EncryptedLeaseSet2) (expected : option bytes)
    (ctx : Els2ValidationContext) (v : ValidatedEncryptedLeaseSet2) : Prop := {
  ela_record : ve_record v = record;
  ela_length : ve_encoded_len v = zlen (els2_signed_bytes record) + zlen (els2_signature record);
  ela_fits : ve_encoded_len v ≤ e2_max_encoded_len (e2_policy ctx);
  ela_sigtype : els2_blinded_sigtype record = Signing.RedDsaSha512Ed25519;
  ela_point : zlen (els2_blinded_public_key record) = 32 ∧
    ∃ a, encodes_point (els2_blinded_public_key record) a;
  ela_key : ve_storage_key v = sha256 ([0; 11] ++ els2_blinded_public_key record);
  ela_expected : from_option (λ e, e = ve_storage_key v) True expected;
  ela_signed : els2_authorized record (e2_now_seconds ctx) (ve_signature_profile v);
  ela_not_future : els2_published_seconds record - e2_now_seconds ctx ≤
    e2_max_future_skew_seconds (e2_policy ctx);
  ela_not_expired : e2_now_seconds ctx < els2_expires_seconds record;
}.

Lemma check_els2_fresh_exact record ctx :
  0 ≤ e2_max_future_skew_seconds (e2_policy ctx) →
  check_els2_fresh record ctx = Ok () ↔
  els2_published_seconds record - e2_now_seconds ctx ≤ e2_max_future_skew_seconds (e2_policy ctx) ∧
  e2_now_seconds ctx < els2_expires_seconds record.
Proof.
  intros Hs. unfold check_els2_fresh. cbv zeta.
  destruct (_ && _) eqn:E1; breflect; [split; [done|]; intros (? & _); lia|].
  apply andb_false_iff in E1.
  destruct (_ <=? _) eqn:E2; breflect; [split; [done|]; intros (_ & ?); lia|].
  split; [|done]. intros _. split; [|done]. destruct E1; breflect; lia.
Qed.

Lemma els2_authorized_offline record now profile :
  els2_authorized record now profile →
  match els2_offline_keys record with
  | Some o => ok_sigtype o ∈ ENCRYPTED_LEASE_SET2_UNBLINDED_SIGTYPES ∧ now < ok_expires_seconds o ∧
      ∃ p, type11_signed (els2_blinded_public_key record) (ok_signed_bytes o) (ok_signature o) p
  | None => True
  end.
Proof. unfold els2_authorized. cbv zeta. destruct (els2_offline_keys record); naive_solver. Qed.

(** C30: a type-5 record is accepted exactly when it is within the limit, names a
    Red25519 key in canonical form, is asked for under the hash of that key, is
    signed by that key or by a transient key under a running delegation of it,
    with exactly one of the two type-11 transcripts verifying for each such
    signature, and is neither expired nor too far in the future.  What is stored
    names the storage key and the transcript. *)
Theorem els2_validate_exact record expected ctx v
    (Hskew : 0 ≤ e2_max_future_skew_seconds (e2_policy ctx))
    (Hlen : e2_max_encoded_len (e2_policy ctx) ≤ usize_max) :
  els2_validate curve sha256 sha512 ed25519_key ed25519_verify record expected ctx = Ok v ↔
  els2_accepted record expected ctx v.
Proof.
  pose proof (checked_total _ _ _ (zlen (els2_signed_bytes record) + zlen (els2_signature record))
    (zlen_nonneg (els2_signed_bytes record)) (zlen_nonneg (els2_signature record)) Hlen) as Htot.
  unfold els2_validate. cbv zeta. split.
  - destruct (checked_add _ _ _) as [n|] eqn:En; [|done]. apply checked_add_Some in En as [-> _].
    destruct (_ >? _) eqn:El; breflect; [done|].
    destruct (bool_decide (els2_blinded_sigtype record ≠ _)) eqn:Et; [done|].
    apply bool_decide_eq_false in Et. apply dec_stable in Et.
    destruct (red_public_key_decode _ _) as [pk|] eqn:Ek; [|done].
    apply red_public_key_decode_exact in Ek as (-> & Hk).
    destruct (match expected with Some _ => _ | None => _ end) eqn:Ee; [done|].
    apply expected_exact in Ee.
    destruct (match els2_offline_keys record with Some _ => _ | None => _ end) as [[]|] eqn:Eo; [|done].
    cbn [mbind result_bind].
    destruct (verify_record_signature _ _ _ _ _ _) as [profile|] eqn:Es; [|done]. cbn [mbind result_bind].
    apply (record_signature_exact record profile (e2_now_seconds ctx)) in Es;
      [|destruct (els2_offline_keys record); [by apply offline_block_exact|done]].
    destruct (check_els2_fresh _ _) as [[]|] eqn:Ef; [|done]. cbn [mbind result_bind].
    apply check_els2_fresh_exact in Ef as [Hf1 Hf2]; [|done]. intros <-%Ok_inj. by constructor.
  - intros [Hr Hn Hle Ht Hp Hk He Hs Hf1 Hf2]. destruct v as [r key n profile]. cbn in *. subst r n.
    destruct (proj2 Htot (conj eq_refl Hle)) as (t & -> & -> & ->).
    rewrite bool_decide_eq_false_2 by (rewrite Ht; naive_solver).
    rewrite (proj2 (red_public_key_decode_exact _ (els2_blinded_public_key record))) by done.
    subst key. rewrite (proj2 (expected_exact expected _)) by done.
    pose proof (els2_authorized_offline _ _ _ Hs) as Ho.
    assert (match els2_offline_keys record with
      | Some o => validate_offline_block curve sha512 ed25519_key ed25519_verify
          (els2_blinded_public_key record) o ctx
      | None => Ok () end = Ok ()) as ->
      by (destruct (els2_offline_keys record); [by apply offline_block_exact|done]).
    cbn [mbind result_bind].
    rewrite (proj2 (record_signature_exact record profile (e2_now_seconds ctx) Ho) Hs).
    cbn [mbind result_bind]. rewrite (proj2 (check_els2_fresh_exact _ _ Hskew) (conj Hf1 Hf2)). done.
Qed.

(** The length a record is charged for counts the store type byte, which its
    encoding leaves out. *)
Theorem els2_charged_length record expected ctx v
    (Hok : els2_ok record) (Hskew : 0 ≤ e2_max_future_skew_seconds (e2_policy ctx))
    (Hlen : e2_max_encoded_len (e2_policy ctx) ≤ usize_max)
    (Hv : els2_validate curve sha256 sha512 ed25519_key ed25519_verify record expected ctx = Ok v) :
  ve_encoded_len v = zlen (els2_bytes record) + 1.
Proof.
  apply els2_validate_exact in Hv as [_ -> _ _ _ _ _ _ _ _]; [|done|done].
  unfold els2_bytes. rewrite (eo_signed record Hok), zlen_cons, zlen_app. lia.
Qed.
End accepted.

(** ** Witnesses *)
Definition toy_curve : Curve :=
  mkCurve bytes bytes Some id id Some id (λ c _ _, c) (λ p _, p) id
    (λ p, negb (bool_decide (take 1 p = [73]))).
Definition sample_validated_els2 : ValidatedEncryptedLeaseSet2 :=
  mkValidatedEls2 sample_els2 (toy_sha256 ([0; 11] ++ replicate 32 4))
    (zlen (els2_signed_bytes sample_els2) + zlen (els2_signature sample_els2)) Ed25519Transient.

Lemma els2_validate_exact_witness :
  els2_accepted toy_curve toy_sha256 id toy_key (λ _ _ _, true) sample_els2
    (Some (toy_sha256 ([0; 11] ++ replicate 32 4))) (els2_context_new 850) sample_validated_els2.
Proof.
  apply els2_validate_exact.
  - vm_compute. discriminate.
  - vm_compute. discriminate.
  - vm_compute. reflexivity.
Defined.

Lemma els2_charged_length_witness :
  ve_encoded_len sample_validated_els2 = zlen (els2_bytes sample_els2) + 1.
Proof.
  apply (els2_charged_length toy_curve toy_sha256 id toy_key (λ _ _ _, true) sample_els2 None
    (els2_context_new 850)).
  - constructor; try reflexivity; try (vm_compute; split; (discriminate || reflexivity)).
    constructor; try reflexivity. vm_compute. split; (discriminate || reflexivity).
  - vm_compute. discriminate.
  - vm_compute. discriminate.
  - vm_compute. reflexivity.
Defined.
