(* ===== verification/Provenance.v ===== *)
(** * Provenance of stored records

    [i2pr-netdb/src/provenance.rs]: the index that says of every record a
    floodfill holds how it came in and for what purpose, and the decisions that
    follow: whether it may answer a lookup, be replicated, or be persisted.
    Client namespaces are their numbers; [observed_at_ms] is milliseconds. *)
From stdpp Require Import sorting.
From S2P Require Import Prelude Utf8 Codec Common Identity Mapping.

Inductive NetDbNamespace := MainRouter | Client (id : Z).
#[export] Instance NetDbNamespace_eq_dec : EqDecision NetDbNamespace.
Proof. solve_decision. Defined.

Inductive InboundProvenance := AuthenticatedDirectPeer | RouterTunnel | ClientTunnel | Local.
#[export] Instance InboundProvenance_eq_dec : EqDecision InboundProvenance.
Proof. solve_decision. Defined.

Inductive StorePurpose := PublishedStore | LookupResponse | FloodReplica | LocalPublication.
#[export] Instance StorePurpose_eq_dec : EqDecision StorePurpose.
Proof. solve_decision. Defined.

Record RecordId := mkRecordId { record_type : Z; record_key : bytes }.
#[export] Instance RecordId_eq_dec : EqDecision RecordId.
Proof. solve_decision. Defined.
#[export] Instance RecordId_countable : Countable RecordId.
Proof.
  refine (inj_countable' (λ r, (record_type r, record_key r)) (λ '(t, k), mkRecordId t k) _).
  abstract (by intros []).
Defined.

(** The derived order: by type, then by key. *)
Definition id_cmp (a b : RecordId) : comparison :=
  match record_type a ?= record_type b with
  | Eq => units_cmp (record_key a) (record_key b)
  | c => c
  end.
Definition id_le (a b : RecordId) : Prop := id_cmp a b ≠ Gt.
#[export] Instance id_le_dec : RelDecision id_le.
Proof. intros a b. unfold id_le. apply not_dec. solve_decision. Defined.

Record RecordProvenance := mkProvenance {
  p_namespace : NetDbNamespace;
  p_inbound : InboundProvenance;
  p_purpose : StorePurpose;
  p_observed_at_ms : Z;
}.
#[export] Instance RecordProvenance_eq_dec : EqDecision RecordProvenance.
Proof. solve_decision. Defined.

Record ProvenanceLimits := mkProvLimits { pl_max_records : Z; pl_max_accounted_bytes : Z }.
Definition provenance_limits_default : ProvenanceLimits := mkProvLimits 8192 (512 * 1024).

Inductive Eligibility :=
  | Allowed | WrongNamespace | LookupResponseOnly | ClientTunnelOnly | ReplicaCannotReflood
  | EligExpired | NotPublished | EligCapacityExceeded.
#[export] Instance Eligibility_eq_dec : EqDecision Eligibility.
Proof. solve_decision. Defined.

Record ProvenanceIndex := mkIndex {
  pi_entries : gmap RecordId RecordProvenance;
  pi_accounted_bytes : Z;
  pi_limits : ProvenanceLimits;
}.

Definition provenance_new (limits : ProvenanceLimits) : ProvenanceIndex := mkIndex ∅ 0 limits.
Definition provenance_len (x : ProvenanceIndex) : Z := Z.of_nat (size (pi_entries x)).
Definition provenance_get (x : ProvenanceIndex) (id : RecordId) : option RecordProvenance :=
  pi_entries x !! id.

(** The keys in the order of the map. *)
Definition ids_asc (x : ProvenanceIndex) : list RecordId :=
  merge_sort id_le (map_to_list (pi_entries x)).*1.

Definition ids_after (x : ProvenanceIndex) (after : option RecordId) (limit : Z) : list RecordId :=
  take (Z.to_nat limit)
    match after with
    | Some id => filter (λ k, id_cmp id k = Lt) (ids_asc x)
    | None => ids_asc x
    end.

Definition ENTRY_COST : Z := 64.

(** [usize::from(contains) * ENTRY_COST] *)
Definition old_cost (x : ProvenanceIndex) (id : RecordId) : Z :=
  if bool_decide (is_Some (pi_entries x !! id)) then ENTRY_COST else 0.
Definition next_accounted (x : ProvenanceIndex) (id : RecordId) : option Z :=
  freed ← checked_sub (pi_accounted_bytes x) (old_cost x id);
  checked_add usize_max freed ENTRY_COST.

Definition can_insert (x : ProvenanceIndex) (id : RecordId) : result Eligibility () :=
  if (old_cost x id =? 0) && (provenance_len x >=? pl_max_records (pi_limits x))
  then Err EligCapacityExceeded
  else
  match next_accounted x id with
  | None => Err EligCapacityExceeded
  | Some next =>
      if next >? pl_max_accounted_bytes (pi_limits x) then Err EligCapacityExceeded else Ok ()
  end.

Definition provenance_insert (x : ProvenanceIndex) (id : RecordId) (p : RecordProvenance)
    : result Eligibility ProvenanceIndex :=
  _ ← can_insert x id;
  match next_accounted x id with
  | None => Err EligCapacityExceeded
  | Some next => Ok (mkIndex (<[id := p]> (pi_entries x)) next (pi_limits x))
  end.

Definition provenance_remove (x : ProvenanceIndex) (id : RecordId) : ProvenanceIndex * bool :=
  match pi_entries x !! id with
  | Some _ => (mkIndex (delete id (pi_entries x)) (pi_accounted_bytes x - 64) (pi_limits x), true)
  | None => (x, false)
  end.

(** The age of an entry is over the limit. *)
Definition too_old (now_ms max_age_ms : Z) (p : RecordProvenance) : bool :=
  saturating_sub now_ms (p_observed_at_ms p) >? max_age_ms.

Fixpoint remove_stale (x : ProvenanceIndex) (ids : list RecordId) (count : Z) : ProvenanceIndex * Z :=
  match ids with
  | [] => (x, count)
  | id :: ids' =>
      let '(x', was) := provenance_remove x id in
      remove_stale x' ids' (if was : bool then count + 1 else count)
  end.
Definition provenance_prune (x : ProvenanceIndex) (now_ms max_age_ms : Z) : ProvenanceIndex * Z :=
  remove_stale x
    (filter (λ id, from_option (too_old now_ms max_age_ms) false (pi_entries x !! id) = true)
       (ids_asc x)) 0.

(** ** Decisions *)
Definition evaluate (x : ProvenanceIndex) (id : RecordId) (namespace : NetDbNamespace)
    (now_ms max_age_ms : Z) : Eligibility :=
  match pi_entries x !! id with
  | None => NotPublished
  | Some p =>
      if bool_decide (p_namespace p ≠ namespace) then WrongNamespace
      else if too_old now_ms max_age_ms p then EligExpired
      else if bool_decide (p_purpose p = LookupResponse) then LookupResponseOnly
      else if bool_decide (p_inbound p = ClientTunnel) then ClientTunnelOnly
      else if bool_decide (p_purpose p ∈ [PublishedStore; LocalPublication; FloodReplica])
      then Allowed
      else NotPublished
  end.

Definition may_answer_router_lookup (x : ProvenanceIndex) (id : RecordId) (now_ms max_age_ms : Z)
    : Eligibility := evaluate x id MainRouter now_ms max_age_ms.
Definition may_answer_client_lookup (x : ProvenanceIndex) (id : RecordId) (namespace : Z)
    (now_ms max_age_ms : Z) : Eligibility := evaluate x id (Client namespace) now_ms max_age_ms.
Definition provenance_may_persist (x : ProvenanceIndex) (id : RecordId) (now_ms max_age_ms : Z)
    : Eligibility := evaluate x id MainRouter now_ms max_age_ms.

Definition provenance_may_replicate (x : ProvenanceIndex) (id : RecordId) (now_ms max_age_ms : Z)
    : Eligibility :=
  match pi_entries x !! id with
  | None => NotPublished
  | Some p =>
      if bool_decide (p_namespace p ≠ MainRouter) then WrongNamespace
      else if too_old now_ms max_age_ms p then EligExpired
      else if bool_decide (p_purpose p = LookupResponse) then LookupResponseOnly
      else if bool_decide (p_purpose p = FloodReplica) then ReplicaCannotReflood
      else if bool_decide (p_inbound p = ClientTunnel) then ClientTunnelOnly
      else if bool_decide (p_purpose p = PublishedStore)
              && bool_decide (p_inbound p = AuthenticatedDirectPeer)
      then Allowed
      else NotPublished
  end.

Definition eligible_records (x : ProvenanceIndex) (namespace : NetDbNamespace)
    (now_ms max_age_ms : Z) : list RecordId :=
  filter (λ id, p_namespace <$> pi_entries x !! id = Some namespace ∧
                evaluate x id namespace now_ms max_age_ms = Allowed) (ids_asc x).

(** ** The order *)
Lemma id_cmp_eq a b : id_cmp a b = Eq ↔ a = b.
Proof.
  unfold id_cmp. destruct a as [t k], b as [u l]. cbn. destruct (Z.compare_spec t u) as [->|?|?].
  - rewrite units_cmp_eq. naive_solver.
  - split; [done|]. intros [= -> _]. lia.
  - split; [done|]. intros [= -> _]. lia.
Qed.

Lemma id_cmp_antisym a b : id_cmp b a = CompOpp (id_cmp a b).
Proof.
  unfold id_cmp. rewrite (Z.compare_antisym (record_type a)).
  destruct (record_type a ?= record_type b); cbn [CompOpp]; [apply units_cmp_antisym|done..].
Qed.

Lemma id_cmp_trans a b c : id_cmp a b = Lt → id_cmp b c = Lt → id_cmp a c = Lt.
Proof.
  unfold id_cmp. destruct (Z.compare_spec (record_type a) (record_type b)) as [->|H1|?]; [| |done].
  - destruct (_ ?= _); [apply units_cmp_trans|done..].
  - intros _. destruct (Z.compare_spec (record_type b) (record_type c)) as [<-|H2|?]; [| |done].
    + rewrite (proj2 (Z.compare_lt_iff _ _) H1). done.
    + intros _. by rewrite (proj2 (Z.compare_lt_iff (record_type a) (record_type c))) by lia.
Qed.

#[export] Instance id_le_trans : Transitive id_le.
Proof.
  intros a b c. unfold id_le.
  destruct (id_cmp a b) eqn:E1; [apply id_cmp_eq in E1 as ->; done| |done]. intros _.
  destruct (id_cmp b c) eqn:E2; [apply id_cmp_eq in E2 as ->; by rewrite E1| |done].
  by rewrite (id_cmp_trans _ _ _ E1 E2).
Qed.
#[export] Instance id_le_total : Total id_le.
Proof.
  intros a b. unfold id_le. rewrite (id_cmp_antisym a b).
  by destruct (id_cmp a b); [left|left|right].
Qed.

Lemma ids_asc_perm x : ids_asc x ≡ₚ (map_to_list (pi_entries x)).*1.
Proof. apply merge_sort_Permutation. Qed.

Lemma elem_of_ids_asc x id : id ∈ ids_asc x ↔ is_Some (pi_entries x !! id).
Proof.
  rewrite ids_asc_perm, list_elem_of_fmap. split.
  - intros ([k a] & -> & Hin). apply elem_of_map_to_list in Hin. by exists a.
  - intros [a Ha]. exists (id, a). by rewrite elem_of_map_to_list.
Qed.

Lemma NoDup_ids_asc x : NoDup (ids_asc x).
Proof. rewrite ids_asc_perm. apply NoDup_fst_map_to_list. Qed.

Lemma length_ids_asc x : zlen (ids_asc x) = provenance_len x.
Proof. unfold zlen, provenance_len. by rewrite ids_asc_perm, length_fmap, length_map_to_list. Qed.

Lemma id_le_lt a b : a ≠ b → id_le a b → id_cmp a b = Lt.
Proof.
  unfold id_le. intros Hne. destruct (id_cmp a b) eqn:E; [|done|done]. by apply id_cmp_eq in E.
Qed.

Lemma ids_asc_sorted x : StronglySorted (λ a b, id_cmp a b = Lt) (ids_asc x).
Proof.
  pose proof (StronglySorted_merge_sort id_le (map_to_list (pi_entries x)).*1) as Hs.
  pose proof (NoDup_ids_asc x) as Hnd. unfold ids_asc in *.
  induction Hs as [|a l Hs IH Hall]; [constructor|]. apply NoDup_cons in Hnd as [Ha Hnd].
  constructor; [by apply IH|]. rewrite Forall_forall in *. intros b Hb.
  apply id_le_lt; [by intros ->|by apply Hall].
Qed.

(** ** The invariant *)
Record index_ok (x : ProvenanceIndex) : Prop := {
  ixo_accounted : pi_accounted_bytes x = 64 * provenance_len x;
  ixo_records : provenance_len x ≤ pl_max_records (pi_limits x);
  ixo_bytes : pi_accounted_bytes x ≤ pl_max_accounted_bytes (pi_limits x);
  ixo_limits : 0 ≤ pl_max_records (pi_limits x) ∧ 0 ≤ pl_max_accounted_bytes (pi_limits x) ≤ usize_max;
}.

Lemma provenance_new_ok limits :
  0 ≤ pl_max_records limits → 0 ≤ pl_max_accounted_bytes limits ≤ usize_max →
  index_ok (provenance_new limits).
Proof. intros Hr Hb. constructor; cbn; unfold provenance_len; cbn; rewrite ?map_size_empty; lia. Qed.

Lemma can_insert_insert x id p :
  can_insert x id = Ok () →
  ∃ n, provenance_insert x id p = Ok (mkIndex (<[id := p]> (pi_entries x)) n (pi_limits x)).
Proof.
  unfold provenance_insert. intros Hc. rewrite Hc. cbn [mbind result_bind]. revert Hc.
  unfold can_insert. destruct (_ && _); [done|]. destruct (next_accounted x id) as [n|]; [|done]. eauto.
Qed.

Lemma provenance_insert_ok x id p :
  index_ok x → can_insert x id = Ok () →
  ∃ x', provenance_insert x id p = Ok x' ∧ index_ok x' ∧ pi_entries x' = <[id := p]> (pi_entries x) ∧
    pi_limits x' = pi_limits x.
Proof.
  intros [Ha Hr Hb Hl] Hc. destruct (can_insert_insert x id p Hc) as [n Hi]. rewrite Hi.
  eexists. split; [done|]. split; [|done]. revert Hc Hi.
  unfold provenance_insert, can_insert, next_accounted, old_cost, ENTRY_COST, checked_sub, checked_add.
  destruct (bool_decide _) eqn:E; [apply bool_decide_eq_true in E|apply bool_decide_eq_false in E].
  - assert (size (pi_entries x) ≠ O) as Hne.
    { destruct E as [q Hq]. apply map_size_ne_0_lookup. by eexists id, q. }
    change (64 =? 0) with false. cbn [andb]. unfold provenance_len in *.
    destruct (64 <=? _) eqn:E1; breflect; [|lia]. cbn [mbind option_bind].
    destruct (_ <=? usize_max) eqn:E2; breflect; [|done].
    destruct (_ >? _) eqn:E3; breflect; [done|]. intros _. cbn. intros [= <-].
    constructor; cbn; unfold provenance_len; cbn; rewrite ?map_size_insert_Some by done; lia.
  - change (0 =? 0) with true. cbn [andb].
    destruct (_ >=? _) eqn:E0; breflect; [done|]. unfold provenance_len in *.
    destruct (0 <=? _) eqn:E1; breflect; [|lia]. cbn [mbind option_bind].
    destruct (_ <=? usize_max) eqn:E2; breflect; [|done].
    destruct (_ >? _) eqn:E3; breflect; [done|]. intros _. cbn. intros [= <-].
    apply eq_None_not_Some in E.
    constructor; cbn; unfold provenance_len; cbn; rewrite ?map_size_insert_None by done; lia.
Qed.

Lemma provenance_remove_ok x id :
  index_ok x →
  index_ok (provenance_remove x id).1 ∧
  pi_entries (provenance_remove x id).1 = delete id (pi_entries x) ∧
  pi_limits (provenance_remove x id).1 = pi_limits x ∧ 0 ≤ pi_accounted_bytes (provenance_remove x id).1.
Proof.
  intros Hok. pose proof Hok as [Ha Hr Hb Hl]. unfold provenance_remove.
  destruct (pi_entries x !! id) as [p|] eqn:E; cbn [fst].
  - assert (Hs : Z.of_nat (size (delete id (pi_entries x))) = provenance_len x - 1).
    { unfold provenance_len. rewrite map_size_delete_Some by done.
      assert (size (pi_entries x) ≠ O); [|lia]. apply map_size_ne_0_lookup. by eexists id, p. }
    split_and!; try done; [|cbn; unfold provenance_len in *; lia].
    constructor; cbn; unfold provenance_len in *; cbn; lia.
  - split_and!; try done; [by rewrite delete_id|unfold provenance_len in *; lia].
Qed.

(** ** What the decisions mean *)
Lemma evaluate_allowed x id ns now age :
  evaluate x id ns now age = Allowed ↔
  ∃ p, pi_entries x !! id = Some p ∧ p_namespace p = ns ∧
    saturating_sub now (p_observed_at_ms p) ≤ age ∧ p_purpose p ≠ LookupResponse ∧
    p_inbound p ≠ ClientTunnel.
Proof.
  unfold evaluate, too_old. destruct (pi_entries x !! id) as [p|]; [|naive_solver].
  destruct (bool_decide (p_namespace p ≠ ns)) eqn:E1; [apply bool_decide_eq_true in E1; naive_solver|].
  apply bool_decide_eq_false in E1. apply dec_stable in E1.
  destruct (_ >? _) eqn:E2; breflect; [split; [done|intros (? & [= <-] & _ & ? & _); lia]|].
  destruct (bool_decide (p_purpose p = _)) eqn:E3; [apply bool_decide_eq_true in E3; naive_solver|].
  apply bool_decide_eq_false in E3.
  destruct (bool_decide (p_inbound p = _)) eqn:E4; [apply bool_decide_eq_true in E4; naive_solver|].
  apply bool_decide_eq_false in E4.
  rewrite bool_decide_eq_true_2 by (destruct (p_purpose p); set_solver). split; [|done]. eauto 10.
Qed.

Lemma may_replicate_allowed x id now age :
  provenance_may_replicate x id now age = Allowed ↔
  ∃ p, pi_entries x !! id = Some p ∧ p_namespace p = MainRouter ∧
    saturating_sub now (p_observed_at_ms p) ≤ age ∧ p_purpose p = PublishedStore ∧
    p_inbound p = AuthenticatedDirectPeer.
Proof.
  unfold provenance_may_replicate, too_old. destruct (pi_entries x !! id) as [p|]; [|naive_solver].
  destruct (bool_decide (p_namespace p ≠ _)) eqn:E1; [apply bool_decide_eq_true in E1; naive_solver|].
  apply bool_decide_eq_false in E1. apply dec_stable in E1.
  destruct (_ >? _) eqn:E2; breflect; [split; [done|intros (? & [= <-] & _ & ? & _); lia]|].
  split.
  - destruct (bool_decide (p_purpose p = LookupResponse)); [done|].
    destruct (bool_decide (p_purpose p = FloodReplica)); [done|].
    destruct (bool_decide (p_inbound p = ClientTunnel)); [done|].
    destruct (_ && _) eqn:E; [|done]. intros _. exists p.
    apply andb_true_iff in E as [E3%bool_decide_eq_true E4%bool_decide_eq_true]. done.
  - intros (? & [= <-] & _ & _ & -> & ->). done.
Qed.
