(* ===== verification/ServerStore.v ===== *)
(** * The record store of a floodfill

    [i2pr-netdb/src/server_store.rs]: five bounded stores, one for each kind of
    record, the index of provenance, and a quota over all of them.  Records come
    in with their provenance, answer lookups, are replicated, and are removed by
    a maintenance pass that resumes where it stopped.  An [expect] that would
    panic is [None].  The gzip compressor is a parameter. *)
From stdpp Require Import sorting.
From S2P Require Import Prelude Utf8 Codec Common Identity Mapping LeaseSet RouterInfo LeaseSet2 EncryptedLeaseSet I2np NetValidate NetStore Routing Lookup LeaseStore Els2 Provenance.

Inductive ValidatedNetDbRecord :=
  | RecRouterInfo (value : ValidatedRouterInfo)
  | RecLeaseSet (value : ValidatedLeaseSet)
  | RecLeaseSet2 (value : ValidatedLeaseSet2)
  | RecMetaLeaseSet (value : ValidatedMetaLeaseSet)
  | RecEncryptedLeaseSet2 (value : ValidatedEncryptedLeaseSet2).

Definition record_id (r : ValidatedNetDbRecord) : RecordId :=
  match r with
  | RecRouterInfo v => mkRecordId 0 (vri_key v)
  | RecLeaseSet v => mkRecordId 1 (vcl_key v)
  | RecLeaseSet2 v => mkRecordId 3 (vls_key v)
  | RecMetaLeaseSet v => mkRecordId 7 (vml_key v)
  | RecEncryptedLeaseSet2 v => mkRecordId 5 (ve_storage_key v)
  end.
Definition record_encoded_len (r : ValidatedNetDbRecord) : Z :=
  match r with
  | RecRouterInfo v => vri_encoded_len v
  | RecLeaseSet v => vcl_encoded_len v
  | RecLeaseSet2 v => vls_encoded_len v
  | RecMetaLeaseSet v => vml_encoded_len v
  | RecEncryptedLeaseSet2 v => ve_encoded_len v
  end.

Record ServerNetDbConfig := mkServerConfig { sv_max_records : Z; sv_max_total_bytes : Z }.
Definition server_config_default : ServerNetDbConfig := mkServerConfig 8192 (16 * 1024 * 1024).

Inductive ServerInsertOutcome :=
  | SInserted | SReplaced | SIdempotent | SConflict | SStale | SCapacityExceeded.
#[export] Instance ServerInsertOutcome_eq_dec : EqDecision ServerInsertOutcome.
Proof. solve_decision. Defined.

Record ServerNetDb := mkServer {
  db_router_info : BoundedStore ValidatedRouterInfo;
  db_leases : BoundedStore ValidatedLeaseSet;
  db_leases2 : BoundedStore ValidatedLeaseSet2;
  db_meta_leases : BoundedStore ValidatedMetaLeaseSet;
  db_els2 : BoundedStore ValidatedEncryptedLeaseSet2;
  db_provenance : ProvenanceIndex;
  db_sizes : gmap RecordId Z;
  db_total_bytes : Z;
  db_config : ServerNetDbConfig;
}.

Definition server_with_config (c : ServerNetDbConfig) : ServerNetDb :=
  mkServer (with_config store_config_default) (with_config lease_set_store_config)
    (with_config store_config_default) (with_config meta_store_config)
    (with_config els2_store_config) (provenance_new provenance_limits_default) ∅ 0 c.

Definition server_outcome (o : InsertOutcome) : ServerInsertOutcome :=
  match o with
  | Inserted => SInserted
  | Replaced => SReplaced
  | Idempotent => SIdempotent
  | Conflict => SConflict
  | StaleReplacement => SStale
  | CapacityExceeded => SCapacityExceeded
  end.

(** The insertion into the store of its kind. *)
Definition insert_record (db : ServerNetDb) (r : ValidatedNetDbRecord)
    : option (ServerNetDb * InsertOutcome) :=
  let '(mkServer ri ls ls2 meta els2 prov sizes total c) := db in
  match r with
  | RecRouterInfo v => '(s, o) ← store_insert ri v; Some (mkServer s ls ls2 meta els2 prov sizes total c, o)
  | RecLeaseSet v => '(s, o) ← classic_insert ls v; Some (mkServer ri s ls2 meta els2 prov sizes total c, o)
  | RecLeaseSet2 v => '(s, o) ← store_insert ls2 v; Some (mkServer ri ls s meta els2 prov sizes total c, o)
  | RecMetaLeaseSet v => '(s, o) ← classic_insert meta v; Some (mkServer ri ls ls2 s els2 prov sizes total c, o)
  | RecEncryptedLeaseSet2 v => '(s, o) ← store_insert els2 v; Some (mkServer ri ls ls2 meta s prov sizes total c, o)
  end.

Definition with_accounts (db : ServerNetDb) (prov : ProvenanceIndex) (sizes : gmap RecordId Z)
    (total : Z) : ServerNetDb :=
  mkServer (db_router_info db) (db_leases db) (db_leases2 db) (db_meta_leases db) (db_els2 db)
    prov sizes total (db_config db).

Definition stored (o : ServerInsertOutcome) : bool :=
  match o with SInserted | SReplaced | SIdempotent => true | _ => false end.

Definition server_insert (db : ServerNetDb) (r : ValidatedNetDbRecord) (p : RecordProvenance)
    : option (ServerNetDb * result Eligibility ServerInsertOutcome) :=
  if bool_decide (p_namespace p ≠ MainRouter) then Some (db, Err WrongNamespace)
  else
  let id := record_id r in
  match can_insert (db_provenance db) id with
  | Err e => Some (db, Err e)
  | Ok _ =>
  let size := record_encoded_len r in
  let old_size := default 0 (db_sizes db !! id) in
  let next_bytes := freed ← checked_sub (db_total_bytes db) old_size;
                    checked_add usize_max freed size in
  if ((old_size =? 0) && (Z.of_nat (base.size (db_sizes db)) >=? sv_max_records (db_config db)))
     || over next_bytes (sv_max_total_bytes (db_config db))
  then Some (db, Ok SCapacityExceeded)
  else
  '(db1, o) ← insert_record db r;
  let result := server_outcome o in
  if stored result
  then
    match provenance_insert (db_provenance db1) id p with
    | Err e => Some (db1, Err e)
    | Ok prov =>
        total ← next_bytes;
        Some (with_accounts db1 prov (<[id := size]> (db_sizes db1)) total, Ok result)
    end
  else Some (db1, Ok result)
  end.

(** ** Expiry *)
Definition ri_hidden (v : ValidatedRouterInfo) : bool :=
  match capabilities (vri_router_info v) with
  | Ok (Some caps) => existsb (λ byte, byte =? 72) caps
  | _ => false
  end.
Definition ri_old (now_ms max_age_ms : Z) (v : ValidatedRouterInfo) : bool :=
  saturating_sub now_ms (ri_published (vri_router_info v)) >? max_age_ms.
Definition ls_over (now_ms : Z) (v : ValidatedLeaseSet) : bool := vcl_version_ms v <=? now_ms.
Definition ls2_over (now_ms : Z) (v : ValidatedLeaseSet2) : bool :=
  let now := now_seconds_of now_ms in
  let ls2 := vls_lease_set2 v in
  (expires_seconds (ls2_header ls2) <=? now)
  || forallb (λ lease, lease2_end_date lease <=? now) (ls2_leases ls2)
  || offline_expired (ls2_header ls2) now.
Definition meta_over (now_ms : Z) (v : ValidatedMetaLeaseSet) : bool :=
  let now := now_seconds_of now_ms in
  (vml_expires_seconds v <=? now)
  || forallb (λ entry, ml_end_date entry <=? now) (meta_entries (vml_value v))
  || offline_expired (meta_header (vml_value v)) now.
Definition els2_over (now_ms : Z) (v : ValidatedEncryptedLeaseSet2) : bool :=
  let now := now_seconds_of now_ms in
  (els2_expires_seconds (ve_record v) <=? now)
  || match els2_offline_keys (ve_record v) with
     | Some offline => ok_expires_seconds offline <=? now
     | None => false
     end.

(** ** Answers *)
Section answers.
(** [GzBuilder] with a fixed header, written to memory. *)
Context (gzip : bytes → option bytes).

(** The decision on the provenance, then the record under its key. *)
Definition eligible_value {V} (db : ServerNetDb) (id : RecordId) (value : option V)
    (expired hidden : V → bool) (now_ms max_age_ms : Z) : result Eligibility (option V) :=
  let decision := may_answer_router_lookup (db_provenance db) id now_ms max_age_ms in
  if bool_decide (decision ≠ Allowed) then Err decision
  else if from_option expired false value then Err EligExpired
  else if from_option hidden false value then Err NotPublished
  else Ok value.

Definition router_info_for_answer (db : ServerNetDb) (key : bytes) (now_ms max_age_ms : Z)
    : result Eligibility (option ValidatedRouterInfo) :=
  eligible_value db (mkRecordId 0 key) (store_get (db_router_info db) key)
    (ri_old now_ms max_age_ms) ri_hidden now_ms max_age_ms.
Definition lease_set_for_answer (db : ServerNetDb) (key : bytes) (now_ms max_age_ms : Z)
    : result Eligibility (option ValidatedLeaseSet) :=
  eligible_value db (mkRecordId 1 key) (store_get (db_leases db) key)
    (ls_over now_ms) (λ _, false) now_ms max_age_ms.
Definition lease_set2_for_answer (db : ServerNetDb) (key : bytes) (now_ms max_age_ms : Z)
    : result Eligibility (option ValidatedLeaseSet2) :=
  eligible_value db (mkRecordId 3 key) (store_get (db_leases2 db) key)
    (ls2_over now_ms) (λ v, bool_decide (is_Some (disclosure_block v))) now_ms max_age_ms.
Definition meta_lease_set_for_answer (db : ServerNetDb) (key : bytes) (now_ms max_age_ms : Z)
    : result Eligibility (option ValidatedMetaLeaseSet) :=
  eligible_value db (mkRecordId 7 key) (store_get (db_meta_leases db) key)
    (meta_over now_ms) (λ v, bool_decide (is_Some (meta_disclosure_block v))) now_ms max_age_ms.
Definition encrypted_lease_set2_for_answer (db : ServerNetDb) (key : bytes) (now_ms max_age_ms : Z)
    : result Eligibility (option ValidatedEncryptedLeaseSet2) :=
  eligible_value db (mkRecordId 5 key) (store_get (db_els2 db) key)
    (els2_over now_ms) (λ _, false) now_ms max_age_ms.

Abbreviation StoreData := (DatabaseStoreData LeaseSet LeaseSet2 MetaLeaseSet EncryptedLeaseSet2).

Definition too_large {E A} (r : result E A) : result Eligibility A :=
  map_err (λ _, EligCapacityExceeded) r.

(** The body of the answer; [None]: no record, or a type that is not served. *)
Definition answer_data (db : ServerNetDb) (type : Z) (key : bytes)
    (now_ms max_age_ms max_encoded_bytes : Z) : result Eligibility (option StoreData) :=
  if type =? 0 then
    found ← router_info_for_answer db key now_ms max_age_ms;
    match found with
    | None => Ok None
    | Some v =>
        raw ← too_large (router_info_encode (vri_router_info v) max_encoded_bytes);
        match gzip raw with
        | None => Err EligCapacityExceeded
        | Some compressed =>
            payload ← too_large (deferred_new compressed max_encoded_bytes);
            Ok (Some (RouterInfoCompressed _ _ _ _ payload))
        end
    end
  else if type =? 1 then
    found ← lease_set_for_answer db key now_ms max_age_ms;
    Ok (option_map (λ v, LeaseSetData _ _ _ _ (vcl_value v)) found)
  else if type =? 3 then
    found ← lease_set2_for_answer db key now_ms max_age_ms;
    Ok (option_map (λ v, LeaseSet2Data (vls_lease_set2 v)) found)
  else if type =? 7 then
    found ← meta_lease_set_for_answer db key now_ms max_age_ms;
    Ok (option_map (λ v, MetaLeaseSetData _ _ _ _ (vml_value v)) found)
  else if type =? 5 then
    found ← encrypted_lease_set2_for_answer db key now_ms max_age_ms;
    Ok (option_map (λ v, EncryptedLeaseSetData _ _ _ _ (ve_record v)) found)
  else Ok None.

Definition answer_size (data : StoreData) (max_encoded_bytes : Z) : result Eligibility (option Z) :=
  match data with
  | RouterInfoCompressed _ _ _ _ payload => Ok (Some (zlen payload))
  | LeaseSetData _ _ _ _ v => w ← too_large (lease_set_encode v max_encoded_bytes); Ok (Some (zlen w))
  | LeaseSet2Data v => w ← too_large (lease_set2_encode v max_encoded_bytes); Ok (Some (zlen w))
  | MetaLeaseSetData _ _ _ _ v => w ← too_large (meta_lease_set_encode v max_encoded_bytes); Ok (Some (zlen w))
  | EncryptedLeaseSetData _ _ _ _ v => w ← too_large (els2_encode v max_encoded_bytes); Ok (Some (zlen w))
  | DeferredData _ _ _ _ _ _ => Ok None
  end.

Definition database_store_for_answer (db : ServerNetDb) (type : Z) (key : bytes)
    (now_ms max_age_ms max_encoded_bytes : Z) : result Eligibility (option StoreMessage) :=
  data ← answer_data db type key now_ms max_age_ms max_encoded_bytes;
  match data with
  | None => Ok None
  | Some data =>
      size ← answer_size data max_encoded_bytes;
      match size with
      | None => Ok None
      | Some size =>
          if size >? max_encoded_bytes then Err EligCapacityExceeded
          else Ok (Some (I2np.mkStore key 0 None None data))
      end
  end.
End answers.

Definition router_info_candidates (db : ServerNetDb) (now_ms max_age_ms : Z) (want_floodfill : bool)
    (excluded : gset bytes) (maximum_work : Z) : list bytes :=
  omap (λ id,
    if negb (record_type id =? 0) || bool_decide (record_key id ∈ excluded) then None
    else
    match router_info_for_answer db (record_key id) now_ms max_age_ms with
    | Ok (Some v) =>
        if ri_hidden v then None
        else if Bool.eqb (advertises_floodfill v) want_floodfill then Some (record_key id)
        else None
    | _ => None
    end)
    (take (Z.to_nat maximum_work) (eligible_records (db_provenance db) MainRouter now_ms max_age_ms)).

(** ** Replication *)
Definition ls2_live (now_ms : Z) (v : ValidatedLeaseSet2) : bool :=
  let now := now_seconds_of now_ms in
  let ls2 := vls_lease_set2 v in
  bool_decide (disclosure_block v = None)
  && (expires_seconds (ls2_header ls2) >? now)
  && existsb (λ lease, lease2_end_date lease >? now) (ls2_leases ls2)
  && from_option (λ offline, os_expires_seconds offline >? now) true
       (h_offline_signature (ls2_header ls2)).
Definition meta_live (now_ms : Z) (v : ValidatedMetaLeaseSet) : bool :=
  let now := now_seconds_of now_ms in
  bool_decide (meta_disclosure_block v = None)
  && (vml_expires_seconds v >? now)
  && existsb (λ entry, ml_end_date entry >? now) (meta_entries (vml_value v))
  && from_option (λ offline, os_expires_seconds offline >? now) true
       (h_offline_signature (meta_header (vml_value v))).
Definition els2_live (now_ms : Z) (v : ValidatedEncryptedLeaseSet2) : bool :=
  let now := now_seconds_of now_ms in
  (els2_expires_seconds (ve_record v) >? now)
  && from_option (λ offline, ok_expires_seconds offline >? now) true (els2_offline_keys (ve_record v)).
Definition ri_replicable (now_ms max_age_ms : Z) (v : ValidatedRouterInfo) : bool :=
  let age := saturating_sub now_ms (ri_published (vri_router_info v)) in
  negb (ri_hidden v || (age >? max_age_ms) || (age >? 60 * 60 * 1000)).

Definition server_may_replicate (db : ServerNetDb) (id : RecordId) (now_ms max_age_ms : Z)
    : Eligibility :=
  let eligibility := provenance_may_replicate (db_provenance db) id now_ms max_age_ms in
  if bool_decide (eligibility ≠ Allowed) then eligibility
  else
  let live :=
    match record_type id with
    | 0 => from_option (ri_replicable now_ms max_age_ms) false (store_get (db_router_info db) (record_key id))
    | 3 => from_option (ls2_live now_ms) false (store_get (db_leases2 db) (record_key id))
    | 7 => from_option (meta_live now_ms) false (store_get (db_meta_leases db) (record_key id))
    | 1 => from_option (λ v, vcl_version_ms v >? now_ms) false (store_get (db_leases db) (record_key id))
    | 5 => from_option (els2_live now_ms) false (store_get (db_els2 db) (record_key id))
    | _ => false
    end in
  if live then Allowed else NotPublished.

Definition server_may_persist (db : ServerNetDb) (id : RecordId) (now_ms max_age_ms : Z)
    : Eligibility := provenance_may_persist (db_provenance db) id now_ms max_age_ms.
Definition record_count (db : ServerNetDb) : Z := Z.of_nat (size (db_sizes db)).

(** ** Removal and maintenance *)
Definition remove_stored (db : ServerNetDb) (id : RecordId) : option (ServerNetDb * bool) :=
  let '(mkServer ri ls ls2 meta els2 prov sizes total c) := db in
  match record_type id with
  | 0 => '(s, b) ← store_remove ri (record_key id); Some (mkServer s ls ls2 meta els2 prov sizes total c, b)
  | 1 => '(s, b) ← store_remove ls (record_key id); Some (mkServer ri s ls2 meta els2 prov sizes total c, b)
  | 3 => '(s, b) ← store_remove ls2 (record_key id); Some (mkServer ri ls s meta els2 prov sizes total c, b)
  | 7 => '(s, b) ← store_remove meta (record_key id); Some (mkServer ri ls ls2 s els2 prov sizes total c, b)
  | 5 => '(s, b) ← store_remove els2 (record_key id); Some (mkServer ri ls ls2 meta s prov sizes total c, b)
  | _ => Some (db, false)
  end.

Definition remove_record (db : ServerNetDb) (id : RecordId) : option (ServerNetDb * bool) :=
  '(db1, removed) ← remove_stored db id;
  if removed : bool then
    let size := default 0 (db_sizes db1 !! id) in
    total ← checked_sub (db_total_bytes db1) size;
    Some (with_accounts db1 (provenance_remove (db_provenance db1) id).1
            (delete id (db_sizes db1)) total, true)
  else Some (db1, false).

Definition age_expired (db : ServerNetDb) (id : RecordId) (now_ms max_age_ms : Z) : bool :=
  from_option (too_old now_ms max_age_ms) true (provenance_get (db_provenance db) id).

(** There is no case for type 5. *)
Definition time_expired (db : ServerNetDb) (id : RecordId) (now_ms max_age_ms : Z) : bool :=
  match record_type id with
  | 0 => from_option (ri_old now_ms max_age_ms) true (store_get (db_router_info db) (record_key id))
  | 1 => from_option (ls_over now_ms) true (store_get (db_leases db) (record_key id))
  | 3 => from_option (ls2_over now_ms) true (store_get (db_leases2 db) (record_key id))
  | 7 => from_option (meta_over now_ms) true (store_get (db_meta_leases db) (record_key id))
  | _ => true
  end.

Record MaintenanceBatch := mkBatch {
  mb_next : option RecordId;
  mb_examined : Z;
  mb_expired : Z;
  mb_complete : bool;
}.

Fixpoint expire_ids (db : ServerNetDb) (ids : list RecordId) (now_ms max_age_ms expired : Z)
    : option (ServerNetDb * Z) :=
  match ids with
  | [] => Some (db, expired)
  | id :: ids' =>
      if age_expired db id now_ms max_age_ms || time_expired db id now_ms max_age_ms
      then
        '(db', removed) ← remove_record db id;
        expire_ids db' ids' now_ms max_age_ms (expired + (if removed : bool then 1 else 0))
      else expire_ids db ids' now_ms max_age_ms expired
  end.

Definition maintenance_batch (db : ServerNetDb) (after : option RecordId)
    (limit now_ms max_age_ms : Z) : option (ServerNetDb * MaintenanceBatch) :=
  let ids := ids_after (db_provenance db) after (saturating_add usize_max limit 1) in
  let complete := zlen ids <=? limit in
  let examined := take (Z.to_nat limit) ids in
  '(db', expired) ← expire_ids db examined now_ms max_age_ms 0;
  Some (db', mkBatch (if complete then None else last examined) (zlen examined) expired complete).

(** [daily_rollover_due] *)
Definition daily_rollover_due (last_ms now_ms : Z) : bool :=
  (now_ms >=? last_ms) && (now_ms / 86400000 >? last_ms / 86400000).

(** ** What the stores promise the server

    A record is charged for the length that its content determines, so that two
    records that the store calls the same are charged the same. *)
Class StoreRecordLaws (V : Type) `{StoreRecord V} := {
  rec_charged : V → Prop;
  rec_charged_nonneg v : rec_charged v → 0 ≤ rec_encoded_len v;
  rec_same_len a b : rec_charged a → rec_charged b → rec_same a b = true →
    rec_encoded_len a = rec_encoded_len b;
}.

#[export] Instance router_info_laws : StoreRecordLaws ValidatedRouterInfo.
Proof.
  refine {| rec_charged v := vri_encoded_len v =
      zlen (ri_signed_bytes (vri_router_info v)) + zlen (signature_bytes (ri_signature (vri_router_info v))) |}.
  - intros v. cbn. intros ->. pose proof (zlen_nonneg (ri_signed_bytes (vri_router_info v))).
    pose proof (zlen_nonneg (signature_bytes (ri_signature (vri_router_info v)))). lia.
  - intros a b. cbn. intros -> ->. unfold same_record_bytes.
    by intros [->%bool_decide_eq_true ->%bool_decide_eq_true]%andb_true_iff.
Defined.

#[export] Instance lease_set2_laws : StoreRecordLaws ValidatedLeaseSet2.
Proof.
  refine {| rec_charged v := vls_encoded_len v =
      zlen (ls2_signed_bytes (vls_lease_set2 v)) + zlen (signature_bytes (ls2_signature (vls_lease_set2 v))) |}.
  - intros v. cbn. intros ->. pose proof (zlen_nonneg (ls2_signed_bytes (vls_lease_set2 v))).
    pose proof (zlen_nonneg (signature_bytes (ls2_signature (vls_lease_set2 v)))). lia.
  - intros a b. cbn. intros -> ->. unfold same_lease_set2_bytes.
    by intros [->%bool_decide_eq_true ->%bool_decide_eq_true]%andb_true_iff.
Defined.

#[export] Instance lease_set_laws : StoreRecordLaws ValidatedLeaseSet.
Proof.
  refine {| rec_charged v := 0 ≤ vcl_encoded_len v |}; [done|].
  intros a b _ _. cbn. by intros ->%bool_decide_eq_true.
Defined.

#[export] Instance meta_laws : StoreRecordLaws ValidatedMetaLeaseSet.
Proof.
  refine {| rec_charged v := 0 ≤ vml_encoded_len v |}; [done|].
  intros a b _ _. cbn. by intros ->%bool_decide_eq_true.
Defined.

#[export] Instance els2_laws : StoreRecordLaws ValidatedEncryptedLeaseSet2.
Proof.
  refine {| rec_charged v := ve_encoded_len v =
      zlen (els2_signed_bytes (ve_record v)) + zlen (els2_signature (ve_record v)) |}.
  - intros v. cbn. intros ->. pose proof (zlen_nonneg (els2_signed_bytes (ve_record v))).
    pose proof (zlen_nonneg (els2_signature (ve_record v))). lia.
  - intros a b. cbn. intros -> ->. by intros ->%bool_decide_eq_true.
Defined.

Section kept.
Context {V : Type} `{StoreRecordLaws V}.
Implicit Types (s : BoundedStore V) (v : V).

(** A store within its bounds whose records are charged what they should be. *)
Definition kept s : Prop := store_ok s ∧ all_records rec_charged s.
Definition len_at s (k : bytes) : option Z := rec_encoded_len <$> records s !! k.

Definition put (o : InsertOutcome) : bool := stored (server_outcome o).

Lemma insert_same_outcome s v s' o e :
  store_insert s v = Some (s', o) → records s !! rec_key v = Some e →
  o = Idempotent → s' = s ∧ rec_same e v = true.
Proof.
  unfold store_insert. cbv zeta. intros Hi He Ho. rewrite He in Hi. subst o.
  destruct (_ <? _); [by injection Hi|]. destruct (rec_published v =? _).
  { destruct (rec_same e v) eqn:E; injection Hi; auto. done. }
  destruct (_ && _); [by injection Hi|]. destruct (checked_sub _ _); [|done]. cbn in Hi.
  destruct (checked_add _ _ _); [|done]. by injection Hi.
Qed.

Lemma insert_idempotent_present s v s' :
  store_insert s v = Some (s', Idempotent) → ∃ e, records s !! rec_key v = Some e.
Proof.
  unfold store_insert. cbv zeta. destruct (records s !! rec_key v) as [e|]; [eauto|].
  destruct (_ >=? _); [done|]. destruct (exceeds _ _); [done|]. destruct (checked_add _ _ _); done.
Qed.

Lemma kept_insert s v :
  kept s → rec_charged v →
  ∃ s' o, store_insert s v = Some (s', o) ∧ kept s' ∧ config s' = config s ∧
    (put o = false → s' = s) ∧
    ∀ k, len_at s' k = if put o && bool_decide (k = rec_key v) then Some (rec_encoded_len v)
                       else len_at s k.
Proof.
  intros [Hok Hch] Hv.
  destruct (store_insert_cases s v Hok (rec_charged_nonneg v Hv)) as (s' & o & Hi & Hok' & Hc & Hcase).
  exists s', o. split; [done|]. destruct Hcase as [(-> & H1 & H2)|(Hrec & Ho)].
  - split_and!; try done. intros k. destruct o; try done; cbn [put server_outcome stored andb].
    destruct (insert_idempotent_present _ _ _ Hi) as [e He].
    destruct (insert_same_outcome _ _ _ _ _ Hi He eq_refl) as [_ Hsame].
    destruct (bool_decide _) eqn:Ek; [|done]. apply bool_decide_eq_true in Ek as ->.
    unfold len_at. rewrite He. cbn. f_equal. apply rec_same_len; [by eapply Hch|done|done].
  - split_and!; try done.
    + split; [done|]. intros k u. rewrite Hrec. intros [[_ <-]|[_ Hu]]%lookup_insert_Some; [done|].
      by eapply Hch.
    + by destruct Ho as [-> | ->].
    + intros k. unfold len_at. rewrite Hrec.
      replace (put o) with true by (by destruct Ho as [-> | ->]). cbn [andb].
      destruct (bool_decide _) eqn:Ek.
      * apply bool_decide_eq_true in Ek as ->. by rewrite lookup_insert_eq.
      * apply bool_decide_eq_false in Ek. by rewrite lookup_insert_ne.
Qed.

Lemma kept_classic s v : kept s → rec_charged v → classic_insert s v = store_insert s v.
Proof. intros [Hok _] Hv. apply classic_insert_eq; [done|by apply rec_charged_nonneg]. Qed.

Lemma kept_remove s k :
  kept s →
  ∃ s' b, store_remove s k = Some (s', b) ∧ kept s' ∧ records s' = delete k (records s) ∧
    b = bool_decide (is_Some (len_at s k)) ∧ (b = false → s' = s).
Proof.
  intros [Hok Hch]. destruct (store_remove_ok s k Hok) as (s' & b & Hr & Hok' & Hrec & _ & Hb & _).
  exists s', b. split_and!; try done.
  - split; [done|]. intros k' u. rewrite Hrec. intros [_ Hu]%lookup_delete_Some. by eapply Hch.
  - rewrite Hb. unfold len_at. apply bool_decide_ext. by rewrite fmap_is_Some.
  - intros ->. revert Hr. unfold store_remove. destruct (records s !! k) as [u|].
    + destruct (checked_sub _ _); [|done]. by intros [=].
    + by intros [= <-].
Qed.

Lemma with_config_kept c :
  0 ≤ max_records c → 0 ≤ max_total_encoded_bytes c ≤ usize_max → kept (with_config c).
Proof.
  intros Hr Hb. split; [by apply with_config_ok|]. intros k v Hk. cbn in Hk. by rewrite lookup_empty in Hk.
Qed.

Lemma len_at_nonneg s k n : kept s → len_at s k = Some n → 0 ≤ n.
Proof.
  intros [Hok _] (v & Hk & ->)%fmap_Some. by destruct (so_records s Hok k v Hk).
Qed.
End kept.

(** ** The invariant *)

(** The length of the record held under an identifier. *)
Definition held (db : ServerNetDb) (id : RecordId) : option Z :=
  match record_type id with
  | 0 => len_at (db_router_info db) (record_key id)
  | 1 => len_at (db_leases db) (record_key id)
  | 3 => len_at (db_leases2 db) (record_key id)
  | 7 => len_at (db_meta_leases db) (record_key id)
  | 5 => len_at (db_els2 db) (record_key id)
  | _ => None
  end.

(** The record held under an identifier. *)
Definition record_at (db : ServerNetDb) (id : RecordId) : option ValidatedNetDbRecord :=
  match record_type id with
  | 0 => RecRouterInfo <$> records (db_router_info db) !! record_key id
  | 1 => RecLeaseSet <$> records (db_leases db) !! record_key id
  | 3 => RecLeaseSet2 <$> records (db_leases2 db) !! record_key id
  | 7 => RecMetaLeaseSet <$> records (db_meta_leases db) !! record_key id
  | 5 => RecEncryptedLeaseSet2 <$> records (db_els2 db) !! record_key id
  | _ => None
  end.

Record stores_kept (db : ServerNetDb) : Prop := {
  sk_router_info : kept (db_router_info db);
  sk_leases : kept (db_leases db);
  sk_leases2 : kept (db_leases2 db);
  sk_meta_leases : kept (db_meta_leases db);
  sk_els2 : kept (db_els2 db);
}.

Record server_ok (db : ServerNetDb) : Prop := {
  svo_stores : stores_kept db;
  svo_index : index_ok (db_provenance db);
  svo_sizes : ∀ id, db_sizes db !! id = held db id;
  svo_provenance : ∀ id, is_Some (pi_entries (db_provenance db) !! id) ↔ is_Some (held db id);
  svo_main : ∀ id p, pi_entries (db_provenance db) !! id = Some p → p_namespace p = MainRouter;
  svo_total : db_total_bytes db = map_sum id (db_sizes db);
  svo_bytes : db_total_bytes db ≤ sv_max_total_bytes (db_config db) ≤ usize_max;
  svo_count : record_count db ≤ sv_max_records (db_config db);
}.

(** What the record says it is charged for. *)
Definition record_charged (r : ValidatedNetDbRecord) : Prop :=
  match r with
  | RecRouterInfo v => rec_charged v
  | RecLeaseSet v => rec_charged v
  | RecLeaseSet2 v => rec_charged v
  | RecMetaLeaseSet v => rec_charged v
  | RecEncryptedLeaseSet2 v => rec_charged v
  end.

(** Nothing but the stores changes. *)
Definition same_accounts (db db' : ServerNetDb) : Prop :=
  db_provenance db' = db_provenance db ∧ db_sizes db' = db_sizes db ∧
  db_total_bytes db' = db_total_bytes db ∧ db_config db' = db_config db.

(** Splits on the type of a record, one case for each kind that is served. *)
Ltac by_type id :=
  let t := fresh "t" in let k := fresh "k" in let p := fresh "p" in
  destruct id as [t k]; cbn [record_type record_key];
  destruct t as [|p|p]; [|do 3 (try destruct p as [p|p|])|].

Lemma held_record db id : held db id = record_encoded_len <$> record_at db id.
Proof. unfold held, record_at, len_at. by_type id; try done; by rewrite <- option_fmap_compose. Qed.

(** The records under one type follow their store; the others stay. *)
Lemma point_put (b : bool) id t k n (f x : bytes → option Z) :
  (∀ k', f k' = if b && bool_decide (k' = k) then Some n else x k') → record_type id = t →
  f (record_key id) = if b && bool_decide (id = mkRecordId t k) then Some n else x (record_key id).
Proof.
  destruct id as [t' k']. cbn. intros Hf <-. rewrite Hf.
  by rewrite (bool_decide_ext (k' = k) (mkRecordId t' k' = mkRecordId t' k)) by naive_solver.
Qed.
Lemma point_other (b : bool) id t k :
  record_type id ≠ t → b && bool_decide (id = mkRecordId t k) = false.
Proof. intros Hne. rewrite bool_decide_eq_false_2 by (by intros ->). apply andb_false_r. Qed.

Ltac insert_case Hkept Hr ty :=
  let s := fresh "s" in let o := fresh "o" in let Hk := fresh "Hk" in
  let Hsame := fresh "Hsame" in let Hl := fresh "Hl" in let Ht := fresh "Ht" in
  destruct (kept_insert _ _ Hkept Hr) as (s & o & -> & Hk & _ & Hsame & Hl); cbn [mbind option_bind];
  eexists _, o; split; [done|]; split; [by constructor|]; split; [by split_and!|];
  split; [intros ?; by rewrite Hsame|]; intros id; unfold held at 1 2; cbn [record_id];
  cbn [db_router_info db_leases db_leases2 db_meta_leases db_els2];
  destruct (decide (record_type id = ty)) as [Ht|Ht];
  [rewrite Ht; by eapply point_put | rewrite (point_other _ _ _ _ Ht); by_type id; done].

Lemma point_delete {V} (f : V → ValidatedNetDbRecord) (m : gmap bytes V) id t k :
  record_type id = t →
  f <$> delete k m !! record_key id =
    if bool_decide (id = mkRecordId t k) then None else f <$> m !! record_key id.
Proof.
  destruct id as [t' k']. cbn. intros <-. destruct (bool_decide _) eqn:E.
  - apply bool_decide_eq_true in E as [= ->]. by rewrite lookup_delete_eq.
  - apply bool_decide_eq_false in E. rewrite lookup_delete_ne; [done|]. by intros ->.
Qed.

Lemma insert_record_ok db r :
  stores_kept db → record_charged r →
  ∃ db' o, insert_record db r = Some (db', o) ∧ stores_kept db' ∧ same_accounts db db' ∧
    (put o = false → db' = db) ∧
    ∀ id, held db' id = if put o && bool_decide (id = record_id r) then Some (record_encoded_len r)
                        else held db id.
Proof.
  intros [H0 H1 H3 H7 H5] Hr. destruct db as [ri ls ls2 meta els2 prov sizes total c]. cbn in H0, H1, H3, H5, H7.
  destruct r as [v|v|v|v|v]; cbn [insert_record record_charged] in *.
  - insert_case H0 Hr 0.
  - rewrite (kept_classic _ _ H1 Hr). insert_case H1 Hr 1.
  - insert_case H3 Hr 3.
  - rewrite (kept_classic _ _ H7 Hr). insert_case H7 Hr 7.
  - insert_case H5 Hr 5.
Qed.

Ltac remove_case Hkept k ty :=
  let s := fresh "s" in let b := fresh "b" in let Hk := fresh "Hk" in
  let Hrec := fresh "Hrec" in let Hb := fresh "Hb" in let Hsame := fresh "Hsame" in
  let id' := fresh "id" in let Ht := fresh "Ht" in
  destruct (kept_remove _ k Hkept) as (s & b & -> & Hk & Hrec & Hb & Hsame); cbn [mbind option_bind];
  eexists _, b; split; [done|]; split; [by constructor|]; split; [by split_and!|];
  split; [exact Hb|]; split; [intros ?; by rewrite Hsame|]; intros id'; unfold record_at;
  cbn [db_router_info db_leases db_leases2 db_meta_leases db_els2];
  destruct (decide (record_type id' = ty)) as [Ht|Ht];
  [rewrite Ht, Hrec; by apply point_delete
  |rewrite (bool_decide_eq_false_2 (id' = _)) by (by intros ->); by_type id'; done].

Lemma remove_stored_ok db id :
  stores_kept db →
  ∃ db' b, remove_stored db id = Some (db', b) ∧ stores_kept db' ∧ same_accounts db db' ∧
    b = bool_decide (is_Some (held db id)) ∧ (b = false → db' = db) ∧
    ∀ id', record_at db' id' = if bool_decide (id' = id) then None else record_at db id'.
Proof.
  intros Hs. pose proof Hs as [H0 H1 H3 H7 H5]. destruct db as [ri ls ls2 meta els2 prov sizes total c].
  cbn in H0, H1, H3, H5, H7.
  assert (Hnone : ∀ db t k, record_at db (mkRecordId t k) = None →
    ∀ id', record_at db id' = if bool_decide (id' = mkRecordId t k) then None else record_at db id').
  { intros db t k Hn id'. destruct (bool_decide _) eqn:E; [|done]. by apply bool_decide_eq_true in E as ->. }
  destruct id as [t k]. destruct t as [|p|p]; [|do 3 (try destruct p as [p|p|])|].
  all: unfold remove_stored; cbn [record_type record_key].
  all: try (eexists _, false; split; [done|]; split_and!; first [done | by apply Hnone]).
  all: try remove_case H0 k 0.
  all: try remove_case H1 k 1.
  all: try remove_case H3 k 3.
  all: try remove_case H7 k 7.
  all: try remove_case H5 k 5.
Qed.

Lemma held_delete db db' id :
  (∀ id', record_at db' id' = if bool_decide (id' = id) then None else record_at db id') →
  ∀ id', held db' id' = if bool_decide (id' = id) then None else held db id'.
Proof. intros Hr id'. rewrite !held_record, Hr. by destruct (bool_decide _). Qed.

Lemma held_len_nonneg db id n : stores_kept db → held db id = Some n → 0 ≤ n.
Proof.
  intros [H0 H1 H3 H7 H5]. unfold held. by_type id; try done; by apply len_at_nonneg.
Qed.

Lemma size_fits db id : server_ok db → 0 ≤ default 0 (db_sizes db !! id) ≤ db_total_bytes db.
Proof.
  intros Hok. rewrite (svo_total db Hok).
  assert (Hnn : ∀ j n, db_sizes db !! j = Some n → 0 ≤ n).
  { intros j n. rewrite (svo_sizes db Hok). apply held_len_nonneg, Hok. }
  destruct (db_sizes db !! id) as [n|] eqn:E; cbn.
  - split; [by eapply Hnn|]. by eapply (map_sum_ge Datatypes.id).
  - split; [done|]. apply map_sum_nonneg. done.
Qed.

(** Insertion never panics and keeps the invariant: it leaves everything as it
    was, or it files the record with its provenance. *)
Lemma server_insert_ok db r p :
  server_ok db → record_charged r →
  ∃ db' res, server_insert db r p = Some (db', res) ∧ server_ok db' ∧ db_config db' = db_config db ∧
    match res with
    | Ok o =>
        if stored o
        then pi_entries (db_provenance db') = <[record_id r := p]> (pi_entries (db_provenance db)) ∧
          ∀ id, held db' id = if bool_decide (id = record_id r) then Some (record_encoded_len r)
                              else held db id
        else db' = db
    | Err _ => db' = db
    end.
Proof.
  intros Hok Hr. unfold server_insert. cbv zeta.
  destruct (bool_decide (p_namespace p ≠ _)) eqn:Ens; [by eexists _, _|].
  apply bool_decide_eq_false in Ens. apply dec_stable in Ens.
  destruct (can_insert _ _) as [[]|e] eqn:Ec; [|by eexists _, _].
  pose proof (size_fits db (record_id r) Hok) as Hold.
  pose proof Hok as [Hst Hix Hsz Hpr Hmn Htot Hby Hct].
  destruct ((_ && _) || _) eqn:Eq; [by eexists _, _|]. apply orb_false_iff in Eq as [Eq1 Eq2].
  destruct (insert_record_ok db r Hst Hr) as (db1 & o & -> & Hst1 & (Hp1 & Hs1 & Ht1 & Hc1) & Hsame & Hheld).
  cbn [mbind option_bind]. change (stored (server_outcome o)) with (put o).
  destruct (put o) eqn:Eo.
  2:{ rewrite (Hsame eq_refl) in *. eexists _, _. split; [done|]. split; [done|]. split; [done|].
      unfold put in Eo. cbv beta iota. by rewrite Eo. }
  rewrite Hp1. destruct (provenance_insert_ok _ _ p Hix Ec) as (prov & -> & Hix' & Hent & _).
  unfold over, checked_sub, checked_add in *.
  destruct (_ <=? db_total_bytes db) eqn:E1; breflect; [|lia]. cbn [mbind option_bind] in *.
  destruct (_ <=? usize_max) eqn:E2; breflect; [|done]. cbn [mbind option_bind].
  eexists _, _. split; [done|]. unfold put in Eo. cbv beta iota. rewrite Eo. split; [|done].
  assert (Hput : ∀ id, held (with_accounts db1 prov (<[record_id r := record_encoded_len r]> (db_sizes db1))
      (db_total_bytes db - default 0 (db_sizes db !! record_id r) + record_encoded_len r)) id = held db1 id)
    by done.
  constructor.
  - destruct Hst1. by constructor.
  - done.
  - intros id. rewrite Hput, Hheld. cbn. rewrite Hs1. destruct (bool_decide _) eqn:E.
    + apply bool_decide_eq_true in E as ->. by rewrite lookup_insert_eq.
    + apply bool_decide_eq_false in E. by rewrite lookup_insert_ne.
  - intros id. rewrite Hput, Hheld. cbn. rewrite Hent. destruct (bool_decide _) eqn:E.
    + apply bool_decide_eq_true in E as ->. rewrite lookup_insert_eq. split; eauto.
    + apply bool_decide_eq_false in E. rewrite lookup_insert_ne by done. apply Hpr.
  - intros id q. cbn. rewrite Hent. intros [[_ <-]|[_ Hq]]%lookup_insert_Some; [done|by eapply Hmn].
  - cbn. rewrite Hs1, map_sum_insert, Htot, option_fmap_id. cbn. lia.
  - cbn. rewrite Hc1. lia.
  - unfold record_count. cbn. rewrite Hs1, Hc1. unfold record_count in Hct.
    destruct (db_sizes db !! record_id r) as [n|] eqn:En.
    + by rewrite map_size_insert_Some.
    + rewrite map_size_insert_None by done. cbn in Eq1. breflect. lia.
Qed.

Lemma remove_record_ok db id :
  server_ok db →
  ∃ db' b, remove_record db id = Some (db', b) ∧ server_ok db' ∧ db_config db' = db_config db ∧
    b = bool_decide (is_Some (held db id)) ∧
    pi_entries (db_provenance db') = delete id (pi_entries (db_provenance db)) ∧
    ∀ id', record_at db' id' = if bool_decide (id' = id) then None else record_at db id'.
Proof.
  intros Hok. pose proof (size_fits db id Hok) as Hold. pose proof Hok as [Hst Hix Hsz Hpr Hmn Htot Hby Hct].
  unfold remove_record.
  destruct (remove_stored_ok db id Hst) as (db1 & b & -> & Hst1 & (Hp1 & Hs1 & Ht1 & Hc1) & Hb & Hsame & Hrec).
  cbn [mbind option_bind]. destruct b.
  2:{ rewrite (Hsame eq_refl) in *. eexists _, _. split_and!; try done.
      symmetry in Hb. apply bool_decide_eq_false in Hb. rewrite delete_id; [done|].
      apply eq_None_not_Some. by rewrite Hpr. }
  symmetry in Hb. apply bool_decide_eq_true in Hb. cbv zeta. rewrite Hs1, Ht1, Hp1.
  unfold checked_sub. destruct (_ <=? _) eqn:E1; breflect; [|lia]. cbn [mbind option_bind].
  destruct (provenance_remove_ok (db_provenance db) id Hix) as (Hix' & Hent & _ & _).
  eexists _, true. split; [done|]. split_and!; try done; [|by rewrite bool_decide_eq_true_2].
  destruct Hb as [n Hn]. rewrite <- Hsz in Hn.
  constructor.
  - destruct Hst1. by constructor.
  - done.
  - intros id'. change (held _ id') with (held db1 id'). rewrite (held_delete db db1 id Hrec). cbn.
    destruct (bool_decide _) eqn:E.
    + apply bool_decide_eq_true in E as ->. by rewrite lookup_delete_eq.
    + apply bool_decide_eq_false in E. by rewrite lookup_delete_ne.
  - intros id'. change (held _ id') with (held db1 id'). rewrite (held_delete db db1 id Hrec). cbn. rewrite Hent.
    destruct (bool_decide _) eqn:E.
    + apply bool_decide_eq_true in E as ->. rewrite lookup_delete_eq. by split; intros [].
    + apply bool_decide_eq_false in E. rewrite lookup_delete_ne by done. apply Hpr.
  - intros id' q. cbn. rewrite Hent. intros [_ Hq]%lookup_delete_Some. by eapply Hmn.
  - cbn. rewrite (map_sum_delete _ _ _ _ Hn), Hn, Htot. done.
  - cbn. rewrite Hc1. lia.
  - unfold record_count in *. cbn. rewrite Hc1, map_size_delete_Some by done. lia.
Qed.

(** ** Maintenance *)

(** Whether maintenance removes what is filed under an identifier. *)
Definition removable (db : ServerNetDb) (now_ms max_age_ms : Z) (id : RecordId) : bool :=
  age_expired db id now_ms max_age_ms || time_expired db id now_ms max_age_ms.

Lemma removable_local db db' now age id :
  record_at db' id = record_at db id →
  pi_entries (db_provenance db') !! id = pi_entries (db_provenance db) !! id →
  removable db' now age id = removable db now age id.
Proof.
  intros Hr Hp. unfold removable, age_expired, provenance_get. rewrite Hp. f_equal.
  revert Hr. unfold record_at, time_expired, store_get. by_type id; try done.
  all: intros Hr.
  all: repeat match type of Hr with
    | context [?m !! ?k] => destruct (m !! k); cbn in Hr
    end; try done; by injection Hr as ->.
Qed.

Lemma expire_ids_ok db ids now age n :
  server_ok db → NoDup ids → (∀ id, id ∈ ids → is_Some (held db id)) →
  ∃ db', expire_ids db ids now age n =
      Some (db', n + zlen (filter (λ id, removable db now age id = true) ids)) ∧
    server_ok db' ∧ db_config db' = db_config db ∧
    (∀ id, record_at db' id =
       if bool_decide (id ∈ ids ∧ removable db now age id = true) then None else record_at db id) ∧
    (∀ id, pi_entries (db_provenance db') !! id =
       if bool_decide (id ∈ ids ∧ removable db now age id = true) then None
       else pi_entries (db_provenance db) !! id).
Proof.
  revert db n. induction ids as [|id ids IH]; intros db n Hok Hnd Hin; cbn [expire_ids].
  - exists db. split; [by cbn; rewrite Z.add_0_r|]. split_and!; try done.
    all: intros id; rewrite bool_decide_eq_false_2; [done|]; by intros [?%elem_of_nil _].
  - apply NoDup_cons in Hnd as [Hni Hnd]. rewrite filter_cons.
    change (age_expired db id now age || time_expired db id now age) with (removable db now age id).
    destruct (removable db now age id) eqn:E.
    + rewrite decide_True by done.
      destruct (remove_record_ok db id Hok) as (db1 & b & -> & Hok1 & Hc1 & -> & Hent & Hrec).
      cbn [mbind option_bind]. rewrite bool_decide_eq_true_2 by (apply Hin; left).
      assert (Hloc : ∀ j, j ≠ id → removable db1 now age j = removable db now age j).
      { intros j Hj. apply removable_local; [by rewrite Hrec, bool_decide_eq_false_2|].
        by rewrite Hent, lookup_delete_ne. }
      destruct (IH db1 (n + 1) Hok1 Hnd) as (db' & Hx & Hok' & Hc' & Hr' & Hp').
      { intros j Hj. rewrite (held_delete db db1 id Hrec), bool_decide_eq_false_2; [|by intros ->].
        apply Hin. by right. }
      exists db'. split_and!; [|done|congruence| |].
      * rewrite Hx, zlen_cons. do 2 f_equal.
        enough (filter (λ j, removable db1 now age j = true) ids =
                filter (λ j, removable db now age j = true) ids) as -> by lia.
        clear -Hloc Hni. induction ids as [|j ids IH]; [done|]. apply not_elem_of_cons in Hni as [Hj Hni].
        rewrite !filter_cons, (Hloc j), (IH Hni) by done. done.
      * intros j. rewrite Hr', Hrec. destruct (decide (j = id)) as [->|Hne].
        -- rewrite (bool_decide_eq_true_2 (id = id)) by done.
           rewrite (bool_decide_eq_true_2 (id ∈ id :: ids ∧ _)) by (split; [by left|done]).
           by destruct (bool_decide _).
        -- rewrite (bool_decide_eq_false_2 (j = id)) by done. rewrite (Hloc j Hne).
           by rewrite (bool_decide_ext (j ∈ id :: ids ∧ _) (j ∈ ids ∧ removable db now age j = true))
             by (rewrite elem_of_cons; naive_solver).
      * intros j. rewrite Hp', Hent. destruct (decide (j = id)) as [->|Hne].
        -- rewrite (bool_decide_eq_true_2 (id ∈ id :: ids ∧ _)) by (split; [by left|done]).
           rewrite lookup_delete_eq. by destruct (bool_decide _).
        -- rewrite lookup_delete_ne by done. rewrite (Hloc j Hne).
           by rewrite (bool_decide_ext (j ∈ id :: ids ∧ _) (j ∈ ids ∧ removable db now age j = true))
             by (rewrite elem_of_cons; naive_solver).
    + rewrite decide_False by done.
      destruct (IH db n Hok Hnd) as (db' & Hx & Hok' & Hc' & Hr' & Hp').
      { intros j Hj. apply Hin. by right. }
      assert (Hiff : ∀ j, bool_decide (j ∈ id :: ids ∧ removable db now age j = true) =
        bool_decide (j ∈ ids ∧ removable db now age j = true)).
      { intros j. apply bool_decide_ext. rewrite elem_of_cons. split; [|by intros []; auto].
        intros [[->|Hj] Hx']; [by rewrite E in Hx'|done]. }
      exists db'. split_and!; try done; intros j; by rewrite Hiff.
Qed.

(** The identifiers after the cursor, in order. *)
Definition pending (db : ServerNetDb) (after : option RecordId) : list RecordId :=
  match after with
  | Some id => filter (λ k, id_cmp id k = Lt) (ids_asc (db_provenance db))
  | None => ids_asc (db_provenance db)
  end.
Definition after_cursor (after : option RecordId) (id : RecordId) : Prop :=
  from_option (λ c, id_cmp c id = Lt) True after.

Lemma elem_of_pending db after id :
  id ∈ pending db after ↔ is_Some (pi_entries (db_provenance db) !! id) ∧ after_cursor after id.
Proof.
  unfold pending. destruct after as [c|]; cbn [after_cursor from_option].
  - rewrite list_elem_of_filter, elem_of_ids_asc. tauto.
  - rewrite elem_of_ids_asc. tauto.
Qed.
Lemma NoDup_pending db after : NoDup (pending db after).
Proof. unfold pending. destruct after; [apply NoDup_filter|]; apply NoDup_ids_asc. Qed.

Lemma pending_sorted db after : StronglySorted (λ a b, id_cmp a b = Lt) (pending db after).
Proof.
  pose proof (ids_asc_sorted (db_provenance db)) as Hs. unfold pending. destruct after as [c|]; [|done].
  induction Hs as [|a l Hs IH Hall]; [constructor|]. rewrite filter_cons. destruct (decide _); [|done].
  constructor; [done|]. rewrite Forall_forall in *. intros b [_ Hb]%list_elem_of_filter. by apply Hall.
Qed.

(** One batch: what was examined, what was removed, and where it goes on. *)
Lemma maintenance_batch_ok db after limit now age :
  server_ok db → 0 ≤ limit < usize_max →
  let ids := pending db after in
  let examined := take (Z.to_nat limit) ids in
  ∃ db', maintenance_batch db after limit now age =
      Some (db', mkBatch (if zlen ids <=? limit then None else last examined) (zlen examined)
                  (zlen (filter (λ id, removable db now age id = true) examined))
                  (zlen ids <=? limit)) ∧
    server_ok db' ∧ db_config db' = db_config db ∧
    (∀ id, record_at db' id =
       if bool_decide (id ∈ examined ∧ removable db now age id = true) then None else record_at db id) ∧
    (∀ id, pi_entries (db_provenance db') !! id =
       if bool_decide (id ∈ examined ∧ removable db now age id = true) then None
       else pi_entries (db_provenance db) !! id).
Proof.
  intros Hok Hl ids examined. unfold maintenance_batch. cbv zeta.
  assert (Hids : ids_after (db_provenance db) after (saturating_add usize_max limit 1) =
    take (Z.to_nat (limit + 1)) ids).
  { unfold ids_after, saturating_add. rewrite Z.min_r by lia. done. }
  rewrite Hids, take_take. replace (Z.to_nat limit `min` Z.to_nat (limit + 1))%nat with (Z.to_nat limit) by lia.
  fold examined.
  assert ((zlen (take (Z.to_nat (limit + 1)) ids) <=? limit) = (zlen ids <=? limit)) as ->.
  { unfold zlen. rewrite length_take. apply eq_bool_prop_intro.
    rewrite !Is_true_true, !Z.leb_le. lia. }
  destruct (expire_ids_ok db examined now age 0 Hok) as (db' & -> & Hok' & Hc & Hr & Hp).
  - eapply sublist_NoDup; [apply (NoDup_pending db after)|]. apply sublist_take.
  - intros id Hid. apply (svo_provenance db Hok). apply elem_of_take in Hid as (i & Hi & _).
    apply list_elem_of_lookup_2, elem_of_pending in Hi. tauto.
  - cbn [mbind option_bind]. rewrite Z.add_0_l. exists db'. split_and!; done.
Qed.

(** A pass: batches from the cursor of the last one, until one is complete. *)
Fixpoint sweep (fuel : nat) (db : ServerNetDb) (after : option RecordId) (limit now_ms max_age_ms : Z)
    : option ServerNetDb :=
  match fuel with
  | O => None
  | S fuel' =>
      '(db', batch) ← maintenance_batch db after limit now_ms max_age_ms;
      if mb_complete batch then Some db'
      else sweep fuel' db' (mb_next batch) limit now_ms max_age_ms
  end.

(** Splitting what is pending at the last examined identifier. *)
Lemma pending_split db after limit c :
  last (take limit (pending db after)) = Some c →
  ∀ id, id ∈ pending db after →
    (id ∈ take limit (pending db after) ∧ id_cmp c id ≠ Lt) ∨
    (id ∈ drop limit (pending db after) ∧ id_cmp c id = Lt).
Proof.
  intros Hc id Hid. pose proof (pending_sorted db after) as Hs.
  rewrite <- (take_drop limit (pending db after)) in Hs, Hid.
  apply StronglySorted_app in Hs as (Hcross & Hs1 & _).
  apply elem_of_app in Hid as [Hid|Hid]; [left|right]; (split; [done|]).
  - apply last_Some in Hc as [l Hl]. rewrite Hl in *.
    apply StronglySorted_app in Hs1 as (Hcr & _ & _).
    apply elem_of_app in Hid as [Hid | ->%list_elem_of_singleton].
    + specialize (Hcr id c Hid ltac:(by apply list_elem_of_singleton)).
      rewrite id_cmp_antisym, Hcr. done.
    + by rewrite (proj2 (id_cmp_eq c c) eq_refl).
  - apply Hcross; [|done]. by apply last_Some_elem_of in Hc.
Qed.

Lemma sweep_ok fuel db after limit now age :
  server_ok db → 0 < limit < usize_max → (length (pending db after) < fuel)%nat →
  ∃ db', sweep fuel db after limit now age = Some db' ∧ server_ok db' ∧
    ∀ id, record_at db' id =
      if bool_decide (id ∈ pending db after ∧ removable db now age id = true) then None
      else record_at db id.
Proof.
  revert db after. induction fuel as [|fuel IH]; intros db after Hok Hl Hf; [lia|]. cbn [sweep].
  destruct (maintenance_batch_ok db after limit now age Hok) as (db1 & -> & Hok1 & _ & Hr1 & Hp1); [lia|].
  cbn [mbind option_bind mb_complete mb_next].
  set (ids := pending db after) in *. set (n := Z.to_nat limit) in *.
  destruct (zlen ids <=? limit) eqn:E; breflect.
  { exists db1. split_and!; try done. intros id. rewrite Hr1, take_ge by (unfold zlen in E; lia). done. }
  destruct (last (take n ids)) as [c|] eqn:Ec.
  2:{ apply last_None in Ec. apply (f_equal length) in Ec. rewrite length_take in Ec. cbn in Ec.
      unfold zlen in E. lia. }
  pose proof (pending_split db after n c Ec) as Hsplit. fold ids in Hsplit.
  assert (Hcin : c ∈ ids).
  { apply last_Some_elem_of in Ec. apply elem_of_take in Ec as (i & Hi & _). by eapply list_elem_of_lookup_2. }
  assert (Hafter : ∀ id, id_cmp c id = Lt → after_cursor after id).
  { intros id Hlt. apply elem_of_pending in Hcin as [_ Hca]. destruct after as [a|]; [|done].
    cbn in *. by eapply id_cmp_trans. }
  assert (Hleft : ∀ id, id ∈ pending db1 (Some c) ↔ id ∈ drop n ids).
  { intros id. rewrite elem_of_pending, Hp1. cbn [after_cursor from_option]. split.
    - intros [Hs Hlt]. assert (Hid : id ∈ ids).
      { apply elem_of_pending. split; [|by apply Hafter]. destruct (bool_decide _); [by destruct Hs|done]. }
      destruct (Hsplit id Hid) as [[_ Hn]|[? _]]; [done|done].
    - intros Hd. assert (Hid : id ∈ ids).
      { rewrite <- (take_drop n ids). apply elem_of_app. by right. }
      pose proof (NoDup_pending db after) as Hnd. fold ids in Hnd.
      rewrite <- (take_drop n ids) in Hnd. apply NoDup_app in Hnd as (_ & Hdisj & _).
      rewrite bool_decide_eq_false_2 by (intros [Ht _]; by apply (Hdisj id)).
      split; [by apply elem_of_pending in Hid as [? _]|].
      destruct (Hsplit id Hid) as [[Ht _]|[_ ?]]; [by destruct (Hdisj id)|done]. }
  assert (Hloc : ∀ id, id ∈ drop n ids → removable db1 now age id = removable db now age id).
  { intros id Hd%Hleft. pose proof Hd as [Hs _]%elem_of_pending.
    assert (Hb : bool_decide (id ∈ take n ids ∧ removable db now age id = true) = false).
    { rewrite Hp1 in Hs. destruct (bool_decide _); [by destruct Hs|done]. }
    apply removable_local; [by rewrite Hr1, Hb|by rewrite Hp1, Hb]. }
  destruct (IH db1 (Some c) Hok1 Hl) as (db' & Hsw & Hok' & Hr').
  { assert (Hle : (length (pending db1 (Some c)) ≤ length (drop n ids))%nat).
    { apply submseteq_length, NoDup_submseteq; [apply NoDup_pending|]. intros id. apply Hleft. }
    rewrite length_drop in Hle. unfold zlen in E. lia. }
  exists db'. split_and!; try done. intros id. rewrite Hr', Hr1. clear Hr' Hr1.
  destruct (bool_decide (id ∈ ids ∧ _)) eqn:Eid.
  - apply bool_decide_eq_true in Eid as [Hid Hrem]. destruct (Hsplit id Hid) as [[Ht _]|[Hd _]].
    + rewrite (bool_decide_eq_true_2 (id ∈ take n ids ∧ _)) by done. by destruct (bool_decide _).
    + rewrite (bool_decide_eq_true_2 (id ∈ pending db1 (Some c) ∧ _)); [done|].
      split; [by apply Hleft|]. by rewrite Hloc.
  - apply bool_decide_eq_false in Eid. rewrite !bool_decide_eq_false_2; [done| |].
    + intros [Ht Hrem]. apply Eid. split; [|done]. rewrite <- (take_drop n ids). apply elem_of_app. by left.
    + intros [Hp Hrem]. apply Hleft in Hp. apply Eid. rewrite <- Hloc by done. split; [|done].
      rewrite <- (take_drop n ids). apply elem_of_app. by right.
Qed.

(** ** When a record still counts *)
Definition ls2_running (now : Z) (v : ValidatedLeaseSet2) : Prop :=
  now < expires_seconds (ls2_header (vls_lease_set2 v)) ∧
  (∃ l, l ∈ ls2_leases (vls_lease_set2 v) ∧ now < lease2_end_date l) ∧
  from_option (λ o, now < os_expires_seconds o) True
    (h_offline_signature (ls2_header (vls_lease_set2 v))).
Definition meta_running (now : Z) (v : ValidatedMetaLeaseSet) : Prop :=
  now < vml_expires_seconds v ∧
  (∃ e, e ∈ meta_entries (vml_value v) ∧ now < ml_end_date e) ∧
  from_option (λ o, now < os_expires_seconds o) True (h_offline_signature (meta_header (vml_value v))).
Definition els2_running (now : Z) (v : ValidatedEncryptedLeaseSet2) : Prop :=
  now < els2_expires_seconds (ve_record v) ∧
  from_option (λ o, now < ok_expires_seconds o) True (els2_offline_keys (ve_record v)).
Definition ri_fresh (now_ms max_age_ms : Z) (v : ValidatedRouterInfo) : Prop :=
  saturating_sub now_ms (ri_published (vri_router_info v)) ≤ max_age_ms.

Lemma forallb_running {A} (f : A → Z) (l : list A) now :
  forallb (λ x, f x <=? now) l = false ↔ ∃ x, x ∈ l ∧ now < f x.
Proof.
  induction l as [|y l IH]; cbn [forallb].
  - split; [done|]. by intros (x & Hx%elem_of_nil & _).
  - rewrite andb_false_iff, IH, Z.leb_gt. setoid_rewrite elem_of_cons. naive_solver.
Qed.

Lemma ls2_over_false now v : ls2_over now v = false ↔ ls2_running (now_seconds_of now) v.
Proof.
  unfold ls2_over, ls2_running. cbv zeta.
  rewrite !orb_false_iff, Z.leb_gt, forallb_running, offline_expired_false. tauto.
Qed.
Lemma meta_over_false now v : meta_over now v = false ↔ meta_running (now_seconds_of now) v.
Proof.
  unfold meta_over, meta_running. cbv zeta.
  rewrite !orb_false_iff, Z.leb_gt, forallb_running, offline_expired_false. tauto.
Qed.
Lemma els2_over_false now v : els2_over now v = false ↔ els2_running (now_seconds_of now) v.
Proof.
  unfold els2_over, els2_running. cbv zeta. rewrite orb_false_iff, Z.leb_gt.
  destruct (els2_offline_keys _) as [o|]; cbn [from_option]; [by rewrite Z.leb_gt|tauto].
Qed.
Lemma ri_old_false now age v : ri_old now age v = false ↔ ri_fresh now age v.
Proof. unfold ri_old, ri_fresh. rewrite Z.gtb_ltb, Z.ltb_ge. done. Qed.
Lemma ls_over_false now v : ls_over now v = false ↔ now < vcl_version_ms v.
Proof. apply Z.leb_gt. Qed.

(** What maintenance leaves: it knows four kinds of record. *)
Definition survives (now age : Z) (p : RecordProvenance) (r : ValidatedNetDbRecord) : Prop :=
  saturating_sub now (p_observed_at_ms p) ≤ age ∧
  match r with
  | RecRouterInfo v => ri_fresh now age v
  | RecLeaseSet v => now < vcl_version_ms v
  | RecLeaseSet2 v => ls2_running (now_seconds_of now) v
  | RecMetaLeaseSet v => meta_running (now_seconds_of now) v
  | RecEncryptedLeaseSet2 _ => False
  end.

Lemma removable_survives db id r p now age :
  record_at db id = Some r → pi_entries (db_provenance db) !! id = Some p →
  removable db now age id = false ↔ survives now age p r.
Proof.
  intros Hr Hp. unfold removable, age_expired, provenance_get, survives. rewrite Hp. cbn [from_option].
  rewrite orb_false_iff. unfold too_old at 1. rewrite Z.gtb_ltb, Z.ltb_ge.
  revert Hr. unfold record_at, time_expired, store_get. by_type id; try done.
  all: intros (v & Hv & ->)%fmap_Some; rewrite ?Hv; cbn [from_option].
  all: rewrite ?ri_old_false, ?ls_over_false, ?ls2_over_false, ?meta_over_false; first [done | naive_solver].
Qed.

(** What a lookup may be told. *)
Definition disclosable (now age : Z) (r : ValidatedNetDbRecord) : Prop :=
  match r with
  | RecRouterInfo v => ri_fresh now age v ∧ ri_hidden v = false
  | RecLeaseSet v => now < vcl_version_ms v
  | RecLeaseSet2 v => ls2_running (now_seconds_of now) v ∧ disclosure_block v = None
  | RecMetaLeaseSet v => meta_running (now_seconds_of now) v ∧ meta_disclosure_block v = None
  | RecEncryptedLeaseSet2 v => els2_running (now_seconds_of now) v
  end.

(** The body of the message that carries a record, within the limit. *)
Definition carries (gzip : bytes → option bytes) (max : Z) (r : ValidatedNetDbRecord)
    (data : DatabaseStoreData LeaseSet LeaseSet2 MetaLeaseSet EncryptedLeaseSet2) : Prop :=
  match r with
  | RecRouterInfo v => ∃ raw payload, router_info_encode (vri_router_info v) max = Ok raw ∧
      gzip raw = Some payload ∧ zlen payload ≤ max ∧ data = RouterInfoCompressed _ _ _ _ payload
  | RecLeaseSet v => data = LeaseSetData _ _ _ _ (vcl_value v) ∧
      ∃ w, lease_set_encode (vcl_value v) max = Ok w ∧ zlen w ≤ max
  | RecLeaseSet2 v => data = LeaseSet2Data (vls_lease_set2 v) ∧
      ∃ w, lease_set2_encode (vls_lease_set2 v) max = Ok w ∧ zlen w ≤ max
  | RecMetaLeaseSet v => data = MetaLeaseSetData _ _ _ _ (vml_value v) ∧
      ∃ w, meta_lease_set_encode (vml_value v) max = Ok w ∧ zlen w ≤ max
  | RecEncryptedLeaseSet2 v => data = EncryptedLeaseSetData _ _ _ _ (ve_record v) ∧
      ∃ w, els2_encode (ve_record v) max = Ok w ∧ zlen w ≤ max
  end.

Lemma eligible_value_exact {V} db id (value : option V) expired hidden now age v :
  eligible_value db id value expired hidden now age = Ok (Some v) ↔
  evaluate (db_provenance db) id MainRouter now age = Allowed ∧ value = Some v ∧
  expired v = false ∧ hidden v = false.
Proof.
  unfold eligible_value, may_answer_router_lookup. cbv zeta.
  destruct (bool_decide _) eqn:E.
  - apply bool_decide_eq_true in E. split; [done|]. by intros [? _].
  - apply bool_decide_eq_false in E. apply dec_stable in E. destruct value as [u|]; cbn [from_option].
    + destruct (expired u) eqn:E1; [split; [done|]; intros (_ & [= ->] & ? & _); congruence|].
      destruct (hidden u) eqn:E2; [split; [done|]; intros (_ & [= ->] & _ & ?); congruence|].
      split; [by intros [= ->]|]. by intros (_ & [= ->] & _).
    + split; [done|]. by intros (_ & ? & _).
Qed.

(** What an answer to a lookup of a router needs of the provenance. *)
Definition answerable (now age : Z) (p : RecordProvenance) : Prop :=
  p_namespace p = MainRouter ∧ saturating_sub now (p_observed_at_ms p) ≤ age ∧
  p_purpose p ≠ LookupResponse ∧ p_inbound p ≠ ClientTunnel.

Section answered.
Context (gzip : bytes → option bytes).
Implicit Types m : StoreMessage.

(** The record behind an answer, found under its type and key. *)
Definition served (db : ServerNetDb) (t : Z) (key : bytes) (now age max : Z)
    (data : DatabaseStoreData LeaseSet LeaseSet2 MetaLeaseSet EncryptedLeaseSet2) : Prop := ∃ r,
  evaluate (db_provenance db) (mkRecordId t key) MainRouter now age = Allowed ∧
  record_at db (mkRecordId t key) = Some r ∧ disclosable now age r ∧ carries gzip max r data.

(** The record found is sent when its encoding fits. *)
Definition sized (data : DatabaseStoreData LeaseSet LeaseSet2 MetaLeaseSet EncryptedLeaseSet2)
    (max : Z) : Prop := ∃ n, answer_size data max = Ok (Some n) ∧ n ≤ max.

Lemma answered_data db t key now age max m :
  database_store_for_answer gzip db t key now age max = Ok (Some m) ↔
  ∃ data, answer_data gzip db t key now age max = Ok (Some data) ∧ sized data max ∧
    m = I2np.mkStore key 0 None None data.
Proof.
  unfold database_store_for_answer, sized.
  destruct (answer_data _ _ _ _ _ _ _) as [[data|]|]; cbn [mbind result_bind]; [|naive_solver..].
  destruct (answer_size _ _) as [[n|]|] eqn:Es; cbn [mbind result_bind].
  - destruct (n >? max) eqn:E; breflect.
    + split; [done|]. intros (d & [= <-] & (n' & Hn & Hle) & _). rewrite Es in Hn. injection Hn as <-. lia.
    + split.
      * intros Hm. injection Hm as <-. exists data. eauto.
      * intros (d & Hd & _ & ->). by injection Hd as <-.
  - split; [done|]. intros (d & [= <-] & (n & Hn & _) & _). by rewrite Es in Hn.
  - split; [done|]. intros (d & [= <-] & (n & Hn & _) & _). by rewrite Es in Hn.
Qed.

Lemma too_large_sized (enc : result CodecError bytes) (max : Z) :
  (∃ n, (w ← too_large enc; Ok (Some (zlen w))) = Ok (Some n) ∧ n ≤ max) ↔
  ∃ w, enc = Ok w ∧ zlen w ≤ max.
Proof.
  destruct enc as [w|e]; cbn; [|naive_solver]. split.
  - intros (n & [= <-] & Hle). eauto.
  - intros (w' & [= <-] & Hle). eauto.
Qed.

Lemma mapped_answer {V D} (found : result Eligibility (option V)) (f : V → D) (d : D) :
  (x ← found; Ok (option_map f x)) = Ok (Some d) ↔ ∃ v, found = Ok (Some v) ∧ d = f v.
Proof.
  destruct found as [[v|]|]; cbn; [|naive_solver..]. split.
  - intros Hd. injection Hd as <-. eauto.
  - intros (v' & Hv & ->). by injection Hv as <-.
Qed.

Lemma is_Some_false {A} (x : option A) : bool_decide (is_Some x) = false ↔ x = None.
Proof. rewrite bool_decide_eq_false. symmetry. apply eq_None_not_Some. Qed.

Lemma answer_data_router db key now age max data :
  answer_data gzip db 0 key now age max = Ok (Some data) ∧ sized data max ↔
  served db 0 key now age max data.
Proof.
  unfold answer_data, served. change (0 =? 0) with true. cbv iota.
  unfold record_at. cbn [record_type record_key].
  pose proof (eligible_value_exact db (mkRecordId 0 key) (store_get (db_router_info db) key)
    (ri_old now age) ri_hidden now age) as Hel.
  fold (router_info_for_answer db key now age) in Hel. unfold store_get in Hel.
  split.
  - intros [Hd Hsz]. destruct (router_info_for_answer db key now age) as [[v|]|]; cbn in Hd; [|done..].
    destruct (proj1 (Hel v) eq_refl) as (He & Hv & Ho%ri_old_false & Hh).
    destruct (router_info_encode _ _) as [raw|] eqn:Er; cbn in Hd; [|done].
    destruct (gzip raw) as [z|] eqn:Eg; [|done]. unfold deferred_new in Hd.
    destruct (zlen z >? max) eqn:Ez; breflect; cbn in Hd; [done|]. injection Hd as <-.
    exists (RecRouterInfo v). rewrite Hv. split_and!; try done. by exists raw, z.
  - intros (r & He & (v & Hv & ->)%fmap_Some & [Ho Hh] & raw & z & Hraw & Hz & Hle & ->).
    apply ri_old_false in Ho. rewrite (proj2 (Hel v)) by done. cbn. rewrite Hraw. cbn. rewrite Hz.
    unfold deferred_new. destruct (zlen z >? max) eqn:Ez; breflect; [lia|]. cbn. split; [done|].
    by exists (zlen z).
Qed.

(** The other kinds are sent as they are. *)
Lemma served_value {V} db t key now age max data (s : BoundedStore V) (wrap : V → ValidatedNetDbRecord)
    (f : V → DatabaseStoreData LeaseSet LeaseSet2 MetaLeaseSet EncryptedLeaseSet2)
    (enc : V → result CodecError bytes) expired hidden :
  (∀ v, disclosable now age (wrap v) ↔ expired v = false ∧ hidden v = false) →
  (∀ v, carries gzip max (wrap v) data ↔ data = f v ∧ ∃ w, enc v = Ok w ∧ zlen w ≤ max) →
  (∀ v, answer_size (f v) max = (w ← too_large (enc v); Ok (Some (zlen w)))) →
  record_at db (mkRecordId t key) = wrap <$> records s !! key →
  ((found ← eligible_value db (mkRecordId t key) (store_get s key) expired hidden now age;
    Ok (option_map f found)) = Ok (Some data) ∧ sized data max ↔
   served db t key now age max data).
Proof.
  intros Hd Hc Hz Hr. rewrite mapped_answer. unfold served, sized, store_get. split.
  - intros [(v & Hv & ->) Hsz]. apply eligible_value_exact in Hv as (He & Hv & Hx & Hh).
    rewrite Hz in Hsz. apply too_large_sized in Hsz. exists (wrap v). rewrite Hr, Hv.
    split_and!; try done; [by apply Hd|by apply Hc].
  - intros (r & He & Hrec & Hdis & Hcar). rewrite Hr in Hrec. apply fmap_Some in Hrec as (v & Hv & ->).
    apply Hc in Hcar as [-> Hw]. apply Hd in Hdis as [Hx Hh]. split.
    + exists v. split; [|done]. by apply eligible_value_exact.
    + rewrite Hz. by apply too_large_sized.
Qed.

Lemma answer_data_exact db t key now age max data :
  answer_data gzip db t key now age max = Ok (Some data) ∧ sized data max ↔
  served db t key now age max data.
Proof.
  destruct (decide (t = 0)) as [->|H0]; [apply answer_data_router|].
  destruct (decide (t = 1)) as [->|H1].
  { apply (served_value db 1 key now age max data (db_leases db) RecLeaseSet _
      (λ v, lease_set_encode (vcl_value v) max)); try done.
    intros v. rewrite ls_over_false. cbn. naive_solver. }
  destruct (decide (t = 3)) as [->|H3].
  { apply (served_value db 3 key now age max data (db_leases2 db) RecLeaseSet2 _
      (λ v, lease_set2_encode (vls_lease_set2 v) max)); try done.
    intros v. by rewrite ls2_over_false, is_Some_false. }
  destruct (decide (t = 7)) as [->|H7].
  { apply (served_value db 7 key now age max data (db_meta_leases db) RecMetaLeaseSet _
      (λ v, meta_lease_set_encode (vml_value v) max)); try done.
    intros v. by rewrite meta_over_false, is_Some_false. }
  destruct (decide (t = 5)) as [->|H5].
  { apply (served_value db 5 key now age max data (db_els2 db) RecEncryptedLeaseSet2 _
      (λ v, els2_encode (ve_record v) max)); try done.
    intros v. rewrite els2_over_false. cbn. naive_solver. }
  split.
  - unfold answer_data.
    rewrite (proj2 (Z.eqb_neq t 0) H0), (proj2 (Z.eqb_neq t 1) H1), (proj2 (Z.eqb_neq t 3) H3),
      (proj2 (Z.eqb_neq t 7) H7), (proj2 (Z.eqb_neq t 5) H5). by intros [? _].
  - intros (r & _ & Hr & _). revert Hr. unfold record_at. cbn [record_type record_key].
    destruct t as [|p|p]; [|do 3 (try destruct p as [p|p|])|]; done.
Qed.
End answered.

(** ** Runs *)
Inductive server_op :=
  | SvInsert (r : ValidatedNetDbRecord) (p : RecordProvenance)
  | SvRemove (id : RecordId)
  | SvMaintain (after : option RecordId) (limit now_ms max_age_ms : Z).

Definition server_apply (db : ServerNetDb) (op : server_op) : option ServerNetDb :=
  match op with
  | SvInsert r p => fst <$> server_insert db r p
  | SvRemove id => fst <$> remove_record db id
  | SvMaintain after limit now age => fst <$> maintenance_batch db after limit now age
  end.
Fixpoint server_run (db : ServerNetDb) (ops : list server_op) : option ServerNetDb :=
  match ops with
  | [] => Some db
  | op :: ops' => db' ← server_apply db op; server_run db' ops'
  end.

(** Records are charged for their length, as validation leaves them, and the
    batch size is a [usize]. *)
Definition op_ok (op : server_op) : Prop :=
  match op with
  | SvInsert r _ => record_charged r
  | SvRemove _ => True
  | SvMaintain _ limit _ _ => 0 ≤ limit < usize_max
  end.

Lemma server_with_config_ok c :
  0 ≤ sv_max_records c → 0 ≤ sv_max_total_bytes c ≤ usize_max → server_ok (server_with_config c).
Proof.
  intros Hr Hb.
  assert (Hempty : ∀ id, held (server_with_config c) id = None).
  { intros id. unfold held, len_at. by_type id; try done; cbn; by rewrite lookup_empty. }
  constructor; cbn.
  - constructor; apply with_config_kept; vm_compute; (split || idtac); discriminate.
  - apply provenance_new_ok; vm_compute; (split || idtac); discriminate.
  - intros id. by rewrite Hempty, lookup_empty.
  - intros id. rewrite Hempty, lookup_empty. by split; intros [].
  - intros id p. by rewrite lookup_empty.
  - by rewrite map_sum_empty.
  - lia.
  - unfold record_count. cbn. by rewrite map_size_empty.
Qed.

Lemma server_run_ok db ops :
  server_ok db → Forall op_ok ops →
  ∃ db', server_run db ops = Some db' ∧ server_ok db' ∧ db_config db' = db_config db.
Proof.
  intros Hok Hops. revert db Hok. induction Hops as [|op ops Hop _ IH]; intros db Hok; [by exists db|].
  cbn [server_run].
  assert (∃ db1, server_apply db op = Some db1 ∧ server_ok db1 ∧ db_config db1 = db_config db)
    as (db1 & -> & Hok1 & Hc1).
  { destruct op as [r p|id|after limit now age]; cbn [server_apply op_ok] in *.
    - destruct (server_insert_ok db r p Hok Hop) as (db1 & res & -> & ? & ? & _). by exists db1.
    - destruct (remove_record_ok db id Hok) as (db1 & b & -> & ? & ? & _). by exists db1.
    - destruct (maintenance_batch_ok db after limit now age Hok Hop) as (db1 & -> & ? & ? & _).
      by exists db1. }
  cbn [mbind option_bind]. destruct (IH db1 Hok1) as (db' & Hrun & Hok' & Hc'). exists db'.
  split_and!; [done|done|congruence].
Qed.

(** ** Properties *)

(** C26: the accounts of a floodfill store never go wrong.  From an empty store,
    through any sequence of insertions, removals and maintenance batches, no
    operation panics; the size index and the provenance index hold exactly the
    records of the five stores, each with its charged length; the byte count is
    the sum of those lengths; neither it nor the number of records exceeds the
    configured limit; everything stored belongs to the main router's namespace;
    and the metadata is charged 64 bytes for each record. *)
Theorem server_accounting c ops
    (Hr : 0 ≤ sv_max_records c) (Hb : 0 ≤ sv_max_total_bytes c ≤ usize_max)
    (Hops : Forall op_ok ops) :
  ∃ db, server_run (server_with_config c) ops = Some db ∧
    (∀ id, db_sizes db !! id = record_encoded_len <$> record_at db id) ∧
    (∀ id, is_Some (provenance_get (db_provenance db) id) ↔ is_Some (record_at db id)) ∧
    (∀ id p, provenance_get (db_provenance db) id = Some p → p_namespace p = MainRouter) ∧
    db_total_bytes db = map_sum id (db_sizes db) ∧
    db_total_bytes db ≤ sv_max_total_bytes c ∧ record_count db ≤ sv_max_records c ∧
    pi_accounted_bytes (db_provenance db) = 64 * provenance_len (db_provenance db).
Proof.
  destruct (server_run_ok _ ops (server_with_config_ok c Hr Hb) Hops) as (db & Hrun & Hok & Hc).
  exists db. destruct Hok as [_ Hix Hsz Hpr Hmn Htot [Hby _] Hct]. rewrite Hc in *.
  split_and!; try done.
  - intros id. by rewrite Hsz, held_record.
  - intros id. unfold provenance_get. by rewrite Hpr, held_record, fmap_is_Some.
  - apply Hix.
Qed.

(** C27: a lookup is answered exactly when it may be.  The store answers with a
    message if and only if the record is filed in the main router's namespace,
    is not too old, did not come in as a lookup response or through a client
    tunnel, is held, has not run out, and is not hidden or unpublished, and its
    encoding fits the limit; the message names the key, asks for no reply, and
    carries that record. *)
Theorem answer_exact gzip db t key now age max m :
  database_store_for_answer gzip db t key now age max = Ok (Some m) ↔
  ∃ p r data,
    provenance_get (db_provenance db) (mkRecordId t key) = Some p ∧ answerable now age p ∧
    record_at db (mkRecordId t key) = Some r ∧ disclosable now age r ∧
    carries gzip max r data ∧ m = I2np.mkStore key 0 None None data.
Proof.
  rewrite answered_data. unfold provenance_get, answerable. split.
  - intros (data & Hd & Hz & ->).
    destruct (proj1 (answer_data_exact gzip db t key now age max data) (conj Hd Hz)) as (r & He & Hr & Hdis & Hcar).
    apply evaluate_allowed in He as (p & Hp & Hns & Ha & Hpu & Hin). exists p, r, data. split_and!; done.
  - intros (p & r & data & Hp & (Hns & Ha & Hpu & Hin) & Hr & Hdis & Hcar & ->). exists data.
    destruct (proj2 (answer_data_exact gzip db t key now age max data)) as [Hd Hz]; [|done].
    exists r. split_and!; try done. apply evaluate_allowed. eauto 10.
Qed.


(** Whatever may be replicated was published by an authenticated peer, and may
    be answered. *)
Theorem replicated_answerable db id now age
    (Hrep : server_may_replicate db id now age = Allowed) :
  ∃ p r, provenance_get (db_provenance db) id = Some p ∧ p_purpose p = PublishedStore ∧
    p_inbound p = AuthenticatedDirectPeer ∧ answerable now age p ∧
    record_at db id = Some r ∧ disclosable now age r.
Proof.
  revert Hrep. unfold server_may_replicate. cbv zeta.
  destruct (bool_decide _) eqn:E; [by apply bool_decide_eq_true in E|].
  apply bool_decide_eq_false in E. apply dec_stable in E.
  apply may_replicate_allowed in E as (p & Hp & Hns & Ha & Hpu & Hin). intros Hlive.
  assert (Hans : answerable now age p) by (unfold answerable; rewrite Hpu, Hin; done).
  assert (Hoff : ∀ h n, from_option (λ offline, os_expires_seconds offline >? n) true h = true →
    from_option (λ o, n < os_expires_seconds o) True h).
  { intros [o|] n; cbn [from_option]; [|done]. intros ?. breflect. done. }
  enough (∃ r, record_at db id = Some r ∧ disclosable now age r) as (r & Hr & Hd) by eauto 10.
  revert Hlive. unfold record_at, store_get. clear -Hoff. by_type id; try done.
  all: match goal with |- context [?m !! ?k] => destruct (m !! k) as [v|]; [|done] end.
  all: cbn [from_option]; intros Hlive; eexists; (split; [done|]); cbn [disclosable].
  all: match type of Hlive with (if ?b then _ else _) = _ => destruct b eqn:E; [|done] end; clear Hlive.
  - unfold ri_replicable, ri_fresh in *. breflect. done.
  - unfold meta_live, meta_running in *.
    apply andb_true_iff in E as [[[Hd%bool_decide_eq_true Hx]%andb_true_iff Hl]%andb_true_iff Ho].
    breflect. split_and!; try done; [|by apply Hoff].
    apply existsb_exists in Hl as (e & He%list_elem_of_In & Hr). breflect. eauto.
  - unfold els2_live, els2_running in *. breflect. split; [done|].
    destruct (els2_offline_keys _) as [o|]; cbn in *; [by breflect|done].
  - unfold ls2_live, ls2_running in *.
    apply andb_true_iff in E as [[[Hd%bool_decide_eq_true Hx]%andb_true_iff Hl]%andb_true_iff Ho].
    breflect. split_and!; try done; [|by apply Hoff].
    apply existsb_exists in Hl as (e & He%list_elem_of_In & Hr). breflect. eauto.
  - by breflect.
Qed.

(** ** Witnesses *)
Definition sample_provenance : RecordProvenance :=
  mkProvenance MainRouter AuthenticatedDirectPeer PublishedStore 850000.
Definition sample_charged_record : ValidatedRouterInfo :=
  let info := vri_router_info (sample_record 5) in
  mkValidatedRi (vri_key (sample_record 5)) info
    (zlen (ri_signed_bytes info) + zlen (signature_bytes (ri_signature info))).
Definition sample_ops : list server_op :=
  [SvInsert (RecRouterInfo sample_charged_record) sample_provenance;
   SvInsert (RecEncryptedLeaseSet2 sample_validated_els2) sample_provenance].
Definition sample_server : ServerNetDb :=
  default (server_with_config server_config_default)
    (server_run (server_with_config server_config_default) sample_ops).

Lemma sample_ops_ok : Forall op_ok sample_ops.
Proof. repeat constructor. Qed.
Lemma sample_server_ok : server_ok sample_server.
Proof.
  destruct (server_run_ok (server_with_config server_config_default) sample_ops) as (db & Hrun & Hok & _).
  - apply server_with_config_ok; vm_compute; (split || idtac); discriminate.
  - apply sample_ops_ok.
  - unfold sample_server. by rewrite Hrun.
Qed.

(** Both records are there, and the encrypted one would be served. *)
Example sample_server_answers :
  record_count sample_server = 2 ∧
  encrypted_lease_set2_for_answer sample_server (ve_storage_key sample_validated_els2) 850000 1000000
    = Ok (Some sample_validated_els2).
Proof. vm_compute. done. Qed.
(** One pass later only the RouterInfo is left. *)
Example sample_server_swept :
  (record_count <$> sweep 3 sample_server None 1 850000 1000000) = Some 1.
Proof. vm_compute. done. Qed.

Lemma server_accounting_witness :
  ∃ db, server_run (server_with_config server_config_default)
      (sample_ops ++ [SvMaintain None 16 850000 1000000]) = Some db ∧
    db_total_bytes db = map_sum id (db_sizes db).
Proof.
  destruct (server_accounting server_config_default (sample_ops ++ [SvMaintain None 16 850000 1000000]))
    as (db & Hrun & _ & _ & _ & Ht & _).
  - vm_compute. discriminate.
  - vm_compute. split; discriminate.
  - repeat constructor; vm_compute; (discriminate || reflexivity).
  - exists db. split; [exact Hrun|exact Ht].
Defined.


Lemma replicated_answerable_witness :
  ∃ p r, provenance_get (db_provenance sample_server) (mkRecordId 5 (ve_storage_key sample_validated_els2)) = Some p ∧
    p_purpose p = PublishedStore ∧ p_inbound p = AuthenticatedDirectPeer ∧
    answerable 850000 1000000 p ∧
    record_at sample_server (mkRecordId 5 (ve_storage_key sample_validated_els2)) = Some r ∧
    disclosable 850000 1000000 r.
Proof. apply replicated_answerable. vm_compute. reflexivity. Defined.
