(* ===== verification/Fragment.v ===== *)
(** * Tunnel fragments and bounded reassembly

    Models [src/crates/i2pr-tunnel/src/fragment.rs]: the fragment records of
    a tunnel message, the partial message a tunnel endpoint keeps while its
    fragments arrive in any order, and [BoundedReassembler], which bounds the
    number of partial messages, the bytes of each and the bytes of all of
    them, expires old ones and drops a partial message whose fragments
    contradict each other. *)
From S2P Require Import Prelude.

(** First-fragment delivery instructions ([data.rs]). *)
Inductive DeliveryInstruction :=
  | DeliverLocal
  | DeliverTunnel (tunnel_id : Z) (gateway : bytes)
  | DeliverRouter (router : bytes).
#[global] Instance DeliveryInstruction_eq_dec : EqDecision DeliveryInstruction.
Proof. solve_decision. Defined.

Definition MAX_FRAGMENT_COUNT : Z := 64.
Definition MAX_REASSEMBLY_MESSAGES : Z := 1024.
Definition MAX_REASSEMBLY_BYTES_PER_MESSAGE : Z := 62708 + 64.
Definition FOLLOW_ON_SEQUENCE_MIN : Z := 1.
Definition FOLLOW_ON_SEQUENCE_MAX : Z := 63.
Definition MAX_REASSEMBLY_AGGREGATE_BYTES : Z :=
  (MAX_REASSEMBLY_BYTES_PER_MESSAGE + 1) * MAX_REASSEMBLY_MESSAGES / 8.

Record ReassembledFragment := mkReassembled {
  message : bytes;
  delivery : option DeliveryInstruction;
}.

Inductive TunnelFragment :=
  | Unfragmented (body : bytes)
  | First (message_id : Z) (body : bytes)
  | FollowOn (message_id sequence : Z) (is_last : bool) (body : bytes).

Definition fragment_message_id (f : TunnelFragment) : option Z :=
  match f with
  | Unfragmented _ => None
  | First message_id _ => Some message_id
  | FollowOn message_id _ _ _ => Some message_id
  end.

Definition body_len (f : TunnelFragment) : Z :=
  match f with
  | Unfragmented body => zlen body
  | First _ body => zlen body
  | FollowOn _ _ _ body => zlen body
  end.

Definition fragment_is_last (f : TunnelFragment) : bool :=
  match f with
  | Unfragmented _ => true
  | First _ _ => false
  | FollowOn _ _ is_last _ => is_last
  end.

Record ReassemblyKey := mkKey { context_id : Z; key_message_id : Z }.
#[global] Instance ReassemblyKey_eq_dec : EqDecision ReassemblyKey.
Proof. solve_decision. Defined.
#[global] Instance ReassemblyKey_countable : Countable ReassemblyKey.
Proof.
  apply (inj_countable' (λ k, (context_id k, key_message_id k))
    (λ p, mkKey p.1 p.2)). by intros [].
Defined.

Inductive FragmentInsertDisposition :=
  | Inserted (added_bytes : Z)
  | ExactDuplicate.

Inductive ReassemblyError :=
  | ConflictingDuplicate (sequence : Z)
  | ConflictingFirstMetadata
  | ConflictingFollowOnTerminalFlag (sequence : Z) (expected actual : bool)
  | UnexpectedFollowOnDeliveryInstruction
  | DuplicateFragment (sequence : Z)
  | SequenceOutOfRange (sequence : Z)
  | LastBelowObservedMax (last max : Z)
  | MessageTooLarge (bytes maximum : Z)
  | CapacityExceeded (capacity : Z)
  | UnknownMessage (context_id message_id : Z)
  | AggregateBytesExceeded (bytes maximum : Z).

(** ** Partial messages *)
Record PartialMessage := mkPartial {
  total_fragments : option Z;
  received : gmap Z bytes;
  last_flags : gmap Z bool;
  partial_bytes : Z;
  observed_max_sequence : Z;
  has_last : bool;
  last_touched_ms : Z;
  first_delivery : option DeliveryInstruction;
}.

Definition delivery_matches (left right : option DeliveryInstruction) : bool :=
  match left, right with
  | None, None => true
  | Some l, Some r => bool_decide (l = r)
  | _, _ => false
  end.

Module Partial.
Definition new (now_ms : Z) : PartialMessage :=
  mkPartial None ∅ ∅ 0 0 false now_ms None.

(** [PartialMessage::classify]: decides, without changing the partial
    message, what a fragment is to it. *)
Definition classify (p : PartialMessage) (fragment : TunnelFragment)
    (dlv : option DeliveryInstruction)
    : result ReassemblyError FragmentInsertDisposition :=
  match fragment with
  | Unfragmented body =>
      match received p !! 0 with
      | Some existing =>
          if decide (existing = body) then Ok ExactDuplicate
          else Err (ConflictingDuplicate 0)
      | None => Ok (Inserted (zlen body))
      end
  | First _ body =>
      match received p !! 0 with
      | Some existing =>
          if decide (existing = body) then
            if delivery_matches (first_delivery p) dlv then Ok ExactDuplicate
            else Err ConflictingFirstMetadata
          else Err (ConflictingDuplicate 0)
      | None => Ok (Inserted (zlen body))
      end
  | FollowOn _ sequence is_last body =>
      if bool_decide (is_Some dlv) then Err UnexpectedFollowOnDeliveryInstruction
      else if (sequence <? FOLLOW_ON_SEQUENCE_MIN) || (sequence >? FOLLOW_ON_SEQUENCE_MAX)
      then Err (SequenceOutOfRange sequence)
      else match received p !! sequence with
      | Some existing =>
          if decide (existing = body) then
            let prior_last := default false (last_flags p !! sequence) in
            if eqb prior_last is_last then Ok ExactDuplicate
            else Err (ConflictingFollowOnTerminalFlag sequence prior_last is_last)
          else Err (ConflictingDuplicate sequence)
      | None =>
          if is_last && (sequence <? observed_max_sequence p)
          then Err (LastBelowObservedMax sequence (observed_max_sequence p))
          else Ok (Inserted (zlen body))
      end
  end.

Definition set_bytes (n : Z) (p : PartialMessage) : PartialMessage :=
  mkPartial (total_fragments p) (received p) (last_flags p) n
    (observed_max_sequence p) (has_last p) (last_touched_ms p) (first_delivery p).

Definition touch (now_ms : Z) (p : PartialMessage) : PartialMessage :=
  mkPartial (total_fragments p) (received p) (last_flags p) (partial_bytes p)
    (observed_max_sequence p) (has_last p) now_ms (first_delivery p).

(** [PartialMessage::apply].  [sequence + 1] is at most 64: [classify]
    refused every sequence above 63. *)
Definition apply (fragment : TunnelFragment) (dlv : option DeliveryInstruction)
    : M PartialMessage ReassemblyError () := λ p,
  match fragment with
  | Unfragmented body =>
      let added := zlen body in
      let bytes1 := saturating_add usize_max (partial_bytes p) added in
      if bytes1 >? MAX_REASSEMBLY_BYTES_PER_MESSAGE then
        let bytes2 := saturating_sub bytes1 added in
        (set_bytes bytes2 p,
         Err (MessageTooLarge (saturating_add usize_max bytes2 added)
                MAX_REASSEMBLY_BYTES_PER_MESSAGE))
      else
        (mkPartial (total_fragments p) (<[0 := body]> (received p)) (last_flags p) bytes1
           (observed_max_sequence p) (has_last p) (last_touched_ms p) (first_delivery p),
         Ok ())
  | First _ body =>
      let added := zlen body in
      let bytes1 := saturating_add usize_max (partial_bytes p) added in
      if bytes1 >? MAX_REASSEMBLY_BYTES_PER_MESSAGE then
        let bytes2 := saturating_sub bytes1 added in
        (set_bytes bytes2 p,
         Err (MessageTooLarge (saturating_add usize_max bytes2 added)
                MAX_REASSEMBLY_BYTES_PER_MESSAGE))
      else
        (mkPartial (total_fragments p) (<[0 := body]> (received p)) (last_flags p) bytes1
           (observed_max_sequence p) (has_last p) (last_touched_ms p) dlv,
         Ok ())
  | FollowOn _ sequence is_last body =>
      let added := zlen body in
      let observed := Z.max (observed_max_sequence p) sequence in
      let bytes1 := saturating_add usize_max (partial_bytes p) added in
      if bytes1 >? MAX_REASSEMBLY_BYTES_PER_MESSAGE then
        let bytes2 := saturating_sub bytes1 added in
        (set_bytes bytes2 p,
         Err (MessageTooLarge (saturating_add usize_max bytes2 added)
                MAX_REASSEMBLY_BYTES_PER_MESSAGE))
      else
        (mkPartial
           (if is_last then Some (sequence + 1) else total_fragments p)
           (<[sequence := body]> (received p))
           (<[sequence := is_last]> (last_flags p))
           bytes1 observed
           (if is_last then true else has_last p)
           (last_touched_ms p) (first_delivery p),
         Ok ())
  end.

Definition is_complete (p : PartialMessage) : bool :=
  match total_fragments p with
  | Some total => Z.of_nat (size (received p)) =? total
  | None => false
  end.

(** The loop [for sequence in 0..total] of [PartialMessage::assemble]. *)
Fixpoint collect (m : gmap Z bytes) (start : Z) (n : nat) : option bytes :=
  match n with
  | O => Some []
  | S n' =>
      body ← m !! start;
      rest ← collect m (start + 1) n';
      Some (body ++ rest)
  end.

Definition assemble (p : PartialMessage) : option bytes :=
  if is_complete p then
    total ← total_fragments p;
    collect (received p) 0 (Z.to_nat total)
  else None.
End Partial.

(** [classify_new_partial]: the same checks for a key without a partial
    message. *)
Definition classify_new_partial (fragment : TunnelFragment) (dlv : option DeliveryInstruction)
    : result ReassemblyError FragmentInsertDisposition :=
  match fragment with
  | Unfragmented body => Ok (Inserted (zlen body))
  | First _ body => Ok (Inserted (zlen body))
  | FollowOn _ sequence _ body =>
      if bool_decide (is_Some dlv) then Err UnexpectedFollowOnDeliveryInstruction
      else if (sequence <? FOLLOW_ON_SEQUENCE_MIN) || (sequence >? FOLLOW_ON_SEQUENCE_MAX)
      then Err (SequenceOutOfRange sequence)
      else Ok (Inserted (zlen body))
  end.

Definition extract_unfragmented_body (fragment : TunnelFragment) : bytes :=
  match fragment with Unfragmented body => body | _ => [] end.

(** ** The reassembler *)
Record BoundedReassembler := mkReassembler {
  capacity : Z;
  aggregate_bytes_max : Z;
  partials : gmap ReassemblyKey PartialMessage;
  expiry_ms : Z;
  now_ms : Z;
  aggregate_bytes : Z;
}.

(** The bytes retained by a set of partial messages. *)
Definition total_bytes (m : gmap ReassemblyKey PartialMessage) : Z :=
  map_sum partial_bytes m.

Module Reassembler.
Definition new (cap agg_max expiry now : Z) : BoundedReassembler :=
  mkReassembler (Z.min cap MAX_REASSEMBLY_MESSAGES)
    (Z.min agg_max MAX_REASSEMBLY_AGGREGATE_BYTES) ∅ expiry now 0.

Definition len (r : BoundedReassembler) : Z := Z.of_nat (size (partials r)).
Definition is_empty (r : BoundedReassembler) : bool := bool_decide (partials r = ∅).

Definition set_now (now : Z) (r : BoundedReassembler) : BoundedReassembler :=
  mkReassembler (capacity r) (aggregate_bytes_max r) (partials r) (expiry_ms r) now
    (aggregate_bytes r).

Definition with_partials (m : gmap ReassemblyKey PartialMessage) (agg : Z)
    (r : BoundedReassembler) : BoundedReassembler :=
  mkReassembler (capacity r) (aggregate_bytes_max r) m (expiry_ms r) (now_ms r) agg.

Definition due (r : BoundedReassembler) (p : PartialMessage) : Prop :=
  expiry_ms r ≤ saturating_sub (now_ms r) (last_touched_ms p).
#[global] Instance due_dec r p : Decision (due r p).
Proof. unfold due. apply _. Defined.

(** [expire_due]: the keys that are due are collected first, then removed,
    and their bytes leave the aggregate in one saturating subtraction. *)
Definition expire_due (r : BoundedReassembler) : BoundedReassembler :=
  if is_empty r then r
  else
    let expired := filter (λ kp, due r kp.2) (partials r) in
    let kept := filter (λ kp, ¬ due r kp.2) (partials r) in
    with_partials kept (saturating_sub (aggregate_bytes r) (total_bytes expired)) r.

Definition purge (r : BoundedReassembler) : BoundedReassembler := with_partials ∅ 0 r.

Definition duration_to_ms (secs subsec_nanos : Z) : Z :=
  saturating_add u64_max (saturating_mul u64_max secs 1000) (subsec_nanos / 1000000).

(** [if let Some(p) = self.partials.remove(&key)] and the release of its
    bytes, on the error paths. *)
Definition drop_partial (key : ReassemblyKey) (r : BoundedReassembler) : BoundedReassembler :=
  match partials r !! key with
  | Some p =>
      with_partials (delete key (partials r))
        (saturating_sub (aggregate_bytes r) (partial_bytes p)) r
  | None => r
  end.

Definition over_budget (r : BoundedReassembler) (added : Z) : bool :=
  match checked_add usize_max (aggregate_bytes r) added with
  | Some sum => sum >? aggregate_bytes_max r
  | None => true
  end.

Definition insert_with_delivery (key : ReassemblyKey) (fragment : TunnelFragment)
    (dlv : option DeliveryInstruction)
    : M BoundedReassembler ReassemblyError (option ReassembledFragment) := λ r0,
  let message_id := default 0 (fragment_message_id fragment) in
  match fragment with
  | Unfragmented _ =>
      (r0, Ok (Some (mkReassembled (extract_unfragmented_body fragment) dlv)))
  | _ =>
    if message_id =? 0 then (r0, Err (SequenceOutOfRange 0))
    else
    let r := expire_due r0 in
    let '(r, disposition) :=
      match partials r !! key with
      | Some partial =>
          match Partial.classify partial fragment dlv with
          | Ok disposition => (r, Ok disposition)
          | Err error => (drop_partial key r, Err error)
          end
      | None =>
          if len r >=? capacity r then (r, Err (CapacityExceeded (capacity r)))
          else (r, classify_new_partial fragment dlv)
      end in
    match disposition with
    | Err error => (r, Err error)
    | Ok ExactDuplicate => (r, Ok None)
    | Ok (Inserted added_bytes) =>
      if over_budget r added_bytes
      then (r, Err (AggregateBytesExceeded
                      (saturating_add usize_max (aggregate_bytes r) added_bytes)
                      (aggregate_bytes_max r)))
      else
      let partial :=
        Partial.touch (now_ms r) (default (Partial.new (now_ms r)) (partials r !! key)) in
      let '(partial, applied) := Partial.apply fragment dlv partial in
      let r := with_partials (<[key := partial]> (partials r)) (aggregate_bytes r) r in
      match applied with
      | Err error => (drop_partial key r, Err error)
      | Ok _ =>
        let agg := saturating_add usize_max (aggregate_bytes r) added_bytes in
        match Partial.assemble partial with
        | Some msg =>
            (with_partials (delete key (partials r))
               (saturating_sub agg (partial_bytes partial)) r,
             Ok (Some (mkReassembled msg (first_delivery partial))))
        | None => (with_partials (partials r) agg r, Ok None)
        end
      end
    end
  end.

(** [insert]: the entry point without delivery instructions, a second copy
    of the same algorithm in the source. *)
Definition insert (key : ReassemblyKey) (fragment : TunnelFragment)
    : M BoundedReassembler ReassemblyError (option bytes) := λ r0,
  let message_id := default 0 (fragment_message_id fragment) in
  match fragment with
  | Unfragmented _ => (r0, Ok (Some (extract_unfragmented_body fragment)))
  | _ =>
    if message_id =? 0 then (r0, Err (SequenceOutOfRange 0))
    else
    let r := expire_due r0 in
    let '(r, disposition) :=
      match partials r !! key with
      | Some partial =>
          match Partial.classify partial fragment None with
          | Ok disposition => (r, Ok disposition)
          | Err error => (drop_partial key r, Err error)
          end
      | None =>
          if len r >=? capacity r then (r, Err (CapacityExceeded (capacity r)))
          else (r, classify_new_partial fragment None)
      end in
    match disposition with
    | Err error => (r, Err error)
    | Ok ExactDuplicate => (r, Ok None)
    | Ok (Inserted added_bytes) =>
      if over_budget r added_bytes
      then (r, Err (AggregateBytesExceeded
                      (saturating_add usize_max (aggregate_bytes r) added_bytes)
                      (aggregate_bytes_max r)))
      else
      let partial :=
        Partial.touch (now_ms r) (default (Partial.new (now_ms r)) (partials r !! key)) in
      let '(partial, applied) := Partial.apply fragment None partial in
      let r := with_partials (<[key := partial]> (partials r)) (aggregate_bytes r) r in
      match applied with
      | Err error => (drop_partial key r, Err error)
      | Ok _ =>
        let agg := saturating_add usize_max (aggregate_bytes r) added_bytes in
        match Partial.assemble partial with
        | Some msg =>
            (with_partials (delete key (partials r))
               (saturating_sub agg (partial_bytes partial)) r,
             Ok (Some msg))
        | None => (with_partials (partials r) agg r, Ok None)
        end
      end
    end
  end.
End Reassembler.

(** ** Invariants

    What a retained partial message satisfies: its byte counter is the sum of
    the retained bodies and respects the per-message ceiling, its sequences
    lie in [0 .. 63] below the observed maximum, the terminal flags belong to
    the follow-on fragments it holds, and the announced total comes from a
    retained terminal fragment. *)
Record partial_ok (p : PartialMessage) : Prop := {
  po_bytes : partial_bytes p = map_sum zlen (received p);
  po_limit : partial_bytes p ≤ MAX_REASSEMBLY_BYTES_PER_MESSAGE;
  po_observed : 0 ≤ observed_max_sequence p ≤ FOLLOW_ON_SEQUENCE_MAX;
  po_seq s : is_Some (received p !! s) → 0 ≤ s ≤ observed_max_sequence p;
  po_flags s : is_Some (last_flags p !! s) ↔ is_Some (received p !! s) ∧ s ≠ 0;
  po_total t : total_fragments p = Some t →
    2 ≤ t ≤ MAX_FRAGMENT_COUNT ∧ last_flags p !! (t - 1) = Some true;
  po_has_last : has_last p = bool_decide (is_Some (total_fragments p));
}.

Record reassembler_ok (r : BoundedReassembler) : Prop := {
  ro_capacity : 0 ≤ capacity r ≤ MAX_REASSEMBLY_MESSAGES;
  ro_len : Reassembler.len r ≤ capacity r;
  ro_max : aggregate_bytes_max r ≤ MAX_REASSEMBLY_AGGREGATE_BYTES;
  ro_sum : aggregate_bytes r = total_bytes (partials r);
  ro_budget : aggregate_bytes r ≤ aggregate_bytes_max r;
  ro_partials k p : partials r !! k = Some p → partial_ok p ∧ Partial.assemble p = None;
}.

Section partial_facts.
Lemma partial_bytes_nonneg p : partial_ok p → 0 ≤ partial_bytes p.
Proof.
  intros Hp. rewrite (po_bytes _ Hp). apply map_sum_nonneg.
  intros. apply zlen_nonneg.
Qed.

Lemma new_ok now : partial_ok (Partial.new now).
Proof.
  constructor; cbn.
  - by rewrite map_sum_empty.
  - vm_compute. discriminate.
  - vm_compute. split; discriminate.
  - intros s [? Hs]. by rewrite lookup_empty in Hs.
  - intros s. rewrite !lookup_empty. split; [|naive_solver]. by intros [? ?].
  - done.
  - done.
Qed.

Lemma touch_ok now p : partial_ok p → partial_ok (Partial.touch now p).
Proof. intros []. by constructor. Qed.

(** A key without a partial message is classified as an empty one. *)
Lemma classify_new_partial_eq now f d :
  classify_new_partial f d = Partial.classify (Partial.new now) f d.
Proof.
  destruct f as [body|id body|id s l body]; [done..|].
  unfold classify_new_partial, Partial.classify.
  destruct (bool_decide _); [done|].
  destruct (_ || _) eqn:E; [done|]. cbn [received last_flags Partial.new].
  rewrite lookup_empty. cbn. unfold FOLLOW_ON_SEQUENCE_MIN in E. breflect.
  destruct (s <? 0) eqn:E'; breflect; [lia|]. by rewrite andb_false_r.
Qed.

Lemma classify_touch now p f d :
  Partial.classify (Partial.touch now p) f d = Partial.classify p f d.
Proof. done. Qed.

(** What an accepted fragment is: where it goes and what it is not. *)
Lemma classify_inserted p f d n :
  Partial.classify p f d = Ok (Inserted n) →
  match f with
  | Unfragmented body | First _ body => n = zlen body ∧ received p !! 0 = None
  | FollowOn _ s l body =>
      n = zlen body ∧ received p !! s = None ∧ d = None ∧
      1 ≤ s ≤ 63 ∧ (l = true → observed_max_sequence p ≤ s)
  end.
Proof.
  unfold Partial.classify. destruct f as [body|id body|id s l body].
  - repeat step_match; naive_solver.
  - repeat step_match; naive_solver.
  - repeat step_match; try done. intros [= <-].
    unfold FOLLOW_ON_SEQUENCE_MIN, FOLLOW_ON_SEQUENCE_MAX in *.
    apply bool_decide_eq_false_1 in E. apply eq_None_not_Some in E.
    split_and!; [done|done|done| | |].
    all: breflect; try lia.
    intros ->. cbn in E2. breflect. lia.
Qed.

Lemma apply_saturates n added :
  0 ≤ n ≤ MAX_REASSEMBLY_BYTES_PER_MESSAGE → 0 ≤ added ≤ MAX_REASSEMBLY_AGGREGATE_BYTES →
  saturating_add usize_max n added = n + added.
Proof.
  unfold saturating_add, usize_max. intros Hn Ha.
  assert (MAX_REASSEMBLY_BYTES_PER_MESSAGE = 62772) as E1 by reflexivity.
  assert (MAX_REASSEMBLY_AGGREGATE_BYTES = 8034944) as E2 by reflexivity.
  lia.
Qed.

(** Adding a new body under a sequence keeps the counters right. *)
Lemma received_insert_bytes p s body :
  partial_ok p → received p !! s = None →
  partial_bytes p + zlen body = map_sum zlen (<[s := body]> (received p)).
Proof.
  intros Hp Hs. rewrite map_sum_insert_new, <- (po_bytes _ Hp) by done. lia.
Qed.

Lemma apply_first_ok p body d (Hp : partial_ok p) :
  received p !! 0 = None →
  partial_bytes p + zlen body ≤ MAX_REASSEMBLY_BYTES_PER_MESSAGE →
  partial_ok (mkPartial (total_fragments p) (<[0 := body]> (received p)) (last_flags p)
    (partial_bytes p + zlen body) (observed_max_sequence p) (has_last p)
    (last_touched_ms p) d).
Proof.
  intros H0 Hle. destruct Hp as [Hb Hl Ho Hs Hf Ht Hh] eqn:Heq; clear Heq.
  constructor; cbn; try done.
  - by apply received_insert_bytes.
  - intros s. rewrite lookup_insert. case_decide; [|apply Hs]. intros _. lia.
  - intros s. rewrite Hf, lookup_insert. case_decide; naive_solver.
Qed.

Lemma apply_follow_ok p s l body (Hp : partial_ok p) :
  received p !! s = None → 1 ≤ s ≤ 63 → (l = true → observed_max_sequence p ≤ s) →
  partial_bytes p + zlen body ≤ MAX_REASSEMBLY_BYTES_PER_MESSAGE →
  partial_ok (mkPartial (if l then Some (s + 1) else total_fragments p)
    (<[s := body]> (received p)) (<[s := l]> (last_flags p))
    (partial_bytes p + zlen body) (Z.max (observed_max_sequence p) s)
    (if l then true else has_last p) (last_touched_ms p) (first_delivery p)).
Proof.
  intros Hn Hs1 Hlast Hle.
  destruct Hp as [Hb Hl Ho Hs Hf Ht Hh] eqn:Heq; clear Heq.
  unfold FOLLOW_ON_SEQUENCE_MAX, MAX_FRAGMENT_COUNT in *.
  assert (Hns : last_flags p !! s = None).
  { apply eq_None_not_Some. intros [Hr _]%Hf. rewrite Hn in Hr. by destruct Hr. }
  constructor; cbn; try done.
  - by apply received_insert_bytes.
  - unfold FOLLOW_ON_SEQUENCE_MAX. lia.
  - intros s'. rewrite lookup_insert. case_decide; [lia|].
    intros H'. apply Hs in H'. lia.
  - intros s'. rewrite !lookup_insert. case_decide; [|apply Hf].
    subst. split; [intros _; split; [eauto|lia]|eauto].
  - intros t. destruct l.
    + intros [= <-]. replace (s + 1 - 1) with s by lia. rewrite lookup_insert_eq.
      unfold MAX_FRAGMENT_COUNT. split; [lia|done].
    + intros [Ht1 Ht2]%Ht. split; [done|]. rewrite lookup_insert_ne; [done|congruence].
  - destruct l; [|done]. symmetry. apply bool_decide_eq_true_2. eauto.
Qed.

(** [apply] on a classified fragment: it charges the fragment's bytes, or
    refuses the message as too large and charges nothing. *)
Lemma apply_spec p f d n (Hp : partial_ok p) :
  Partial.classify p f d = Ok (Inserted n) → 0 ≤ n ≤ MAX_REASSEMBLY_AGGREGATE_BYTES →
  match (Partial.apply f d p).2 with
  | Ok _ => partial_ok (Partial.apply f d p).1
            ∧ partial_bytes (Partial.apply f d p).1 = partial_bytes p + n
  | Err e => partial_bytes (Partial.apply f d p).1 = partial_bytes p
             ∧ e = MessageTooLarge (partial_bytes p + n) MAX_REASSEMBLY_BYTES_PER_MESSAGE
  end.
Proof.
  intros Hc Hn. apply classify_inserted in Hc.
  pose proof (partial_bytes_nonneg p Hp) as Hb0. pose proof (po_limit p Hp) as Hb1.
  assert (Hback : saturating_sub (partial_bytes p + n) n = partial_bytes p).
  { unfold saturating_sub. lia. }
  destruct f as [body|id body|id s l body]; cbn [Partial.apply].
  - destruct Hc as [-> H0]. rewrite !apply_saturates, Hback, !apply_saturates by done.
    destruct (_ >? _) eqn:E; cbn; [done|]. breflect.
    split; [by apply apply_first_ok|done].
  - destruct Hc as [-> H0]. rewrite !apply_saturates, Hback, !apply_saturates by done.
    destruct (_ >? _) eqn:E; cbn; [done|]. breflect.
    split; [by apply apply_first_ok|done].
  - destruct Hc as (-> & H0 & -> & Hs & Hlast).
    rewrite !apply_saturates, Hback, !apply_saturates by done.
    destruct (_ >? _) eqn:E; cbn; [done|]. breflect.
    split; [by apply apply_follow_ok|done].
Qed.
End partial_facts.

Section reassembler_facts.
Implicit Types r : BoundedReassembler.

Lemma partials_nonneg r k p :
  reassembler_ok r → partials r !! k = Some p → 0 ≤ partial_bytes p.
Proof. intros Hr [Hp _]%(ro_partials r Hr). by apply partial_bytes_nonneg. Qed.

Lemma total_bytes_ge r k p :
  reassembler_ok r → partials r !! k = Some p → partial_bytes p ≤ aggregate_bytes r.
Proof.
  intros Hr Hk. rewrite (ro_sum r Hr). unfold total_bytes.
  eapply map_sum_ge; [|done]. intros k' p' Hk'. by eapply partials_nonneg.
Qed.

Lemma aggregate_nonneg r : reassembler_ok r → 0 ≤ aggregate_bytes r.
Proof.
  intros Hr. rewrite (ro_sum r Hr). apply map_sum_nonneg.
  intros. by eapply partials_nonneg.
Qed.

Lemma new_reassembler_ok cap agg_max expiry now :
  0 ≤ cap → 0 ≤ agg_max → reassembler_ok (Reassembler.new cap agg_max expiry now).
Proof.
  intros Hc Ha. unfold MAX_REASSEMBLY_MESSAGES, Reassembler.new.
  constructor; cbn; unfold MAX_REASSEMBLY_MESSAGES.
  - lia.
  - unfold Reassembler.len. cbn. rewrite map_size_empty. lia.
  - lia.
  - unfold total_bytes. by rewrite map_sum_empty.
  - assert (0 ≤ MAX_REASSEMBLY_AGGREGATE_BYTES) by (vm_compute; discriminate). lia.
  - intros k p. by rewrite lookup_empty.
Qed.

(** Removing partial messages keeps the invariant when the aggregate is
    recomputed. *)
Lemma shrink_ok r m agg :
  reassembler_ok r → m ⊆ partials r → agg = total_bytes m → agg ≤ aggregate_bytes r →
  reassembler_ok (Reassembler.with_partials m agg r).
Proof.
  intros [Hc Hl Hm Hs Hb Hp] Hsub -> Hle. constructor; cbn; try done.
  - unfold Reassembler.len in *. cbn. apply map_subseteq_size in Hsub. lia.
  - lia.
  - intros k p Hk. eapply Hp, lookup_weaken; eauto.
Qed.

Lemma drop_partial_ok key r :
  reassembler_ok r → reassembler_ok (Reassembler.drop_partial key r).
Proof.
  intros Hr. unfold Reassembler.drop_partial.
  destruct (partials r !! key) as [p|] eqn:E; [|done].
  pose proof (partials_nonneg r key p Hr E). pose proof (total_bytes_ge r key p Hr E).
  apply shrink_ok; [done|apply delete_subseteq| |unfold saturating_sub; lia].
  unfold total_bytes, saturating_sub. rewrite (map_sum_delete _ _ _ p) by done.
  pose proof (ro_sum r Hr) as Hs. unfold total_bytes in Hs. lia.
Qed.

Lemma expire_due_ok r : reassembler_ok r → reassembler_ok (Reassembler.expire_due r).
Proof.
  intros Hr. unfold Reassembler.expire_due. destruct (Reassembler.is_empty r); [done|].
  pose proof (map_sum_filter partial_bytes
    (λ kp : ReassemblyKey * PartialMessage, Reassembler.due r kp.2) (partials r)) as Hf.
  pose proof (ro_sum r Hr) as Hs. unfold total_bytes in *.
  assert (G : ∀ m, m ⊆ partials r → 0 ≤ map_sum partial_bytes m).
  { intros m Hm. apply map_sum_nonneg. intros k p Hk.
    eapply partials_nonneg; [done|]. by eapply lookup_weaken. }
  pose proof (G _ (map_filter_subseteq (λ kp, Reassembler.due r kp.2) (partials r))).
  pose proof (G _ (map_filter_subseteq (λ kp, ¬ Reassembler.due r kp.2) (partials r))).
  apply shrink_ok; [done|apply map_filter_subseteq| |]; unfold total_bytes, saturating_sub; lia.
Qed.

Lemma over_budget_false r n :
  Reassembler.over_budget r n = false → aggregate_bytes r + n ≤ aggregate_bytes_max r.
Proof.
  unfold Reassembler.over_budget. destruct (checked_add _ _ _) as [x|] eqn:E; [|done].
  apply checked_add_Some in E as [-> _]. intros. by breflect.
Qed.

Lemma saturating_add_small n m :
  n + m ≤ MAX_REASSEMBLY_AGGREGATE_BYTES → saturating_add usize_max n m = n + m.
Proof.
  intros H. assert (MAX_REASSEMBLY_AGGREGATE_BYTES = 8034944) as E by reflexivity.
  unfold saturating_add, usize_max. lia.
Qed.

(** The three outcomes of an admitted fragment: refused as too large,
    completing its message, or retained. *)
Lemma store_ok r key f d n :
  reassembler_ok r →
  (partials r !! key = None → Reassembler.len r < capacity r) →
  let p := default (Partial.new (now_ms r)) (partials r !! key) in
  let p' := (Partial.apply f d (Partial.touch (now_ms r) p)).1 in
  Partial.classify p f d = Ok (Inserted n) → 0 ≤ n →
  aggregate_bytes r + n ≤ aggregate_bytes_max r →
  let r' := Reassembler.with_partials (<[key := p']> (partials r)) (aggregate_bytes r) r in
  match (Partial.apply f d (Partial.touch (now_ms r) p)).2 with
  | Err _ => reassembler_ok (Reassembler.drop_partial key r')
  | Ok _ =>
      partial_ok p' ∧
      match Partial.assemble p' with
      | Some _ => reassembler_ok (Reassembler.with_partials (delete key (partials r'))
          (saturating_sub (aggregate_bytes r + n) (partial_bytes p')) r')
      | None => reassembler_ok (Reassembler.with_partials (partials r')
          (aggregate_bytes r + n) r')
      end
  end.
Proof.
  intros Hr Hcap p p' Hc Hn Hbud r'.
  assert (Hp : partial_ok p ∧ partial_bytes p = default 0 (partial_bytes <$> partials r !! key)).
  { subst p. destruct (partials r !! key) as [q|] eqn:E; cbn.
    - split; [|done]. by apply (ro_partials r Hr) in E as [? _].
    - split; [apply new_ok|done]. }
  destruct Hp as [Hp Hpb].
  pose proof (ro_max r Hr) as Hmax. pose proof (aggregate_nonneg r Hr) as Hagg.
  pose proof (apply_spec (Partial.touch (now_ms r) p) f d n (touch_ok _ _ Hp) Hc
    ltac:(lia)) as Ha. fold p' in Ha.
  assert (Hsub : delete key (partials r) ⊆ partials r) by apply delete_subseteq.
  assert (Hdel : total_bytes (delete key (partials r)) = aggregate_bytes r - partial_bytes p
    ∧ 0 ≤ partial_bytes p ≤ aggregate_bytes r).
  { rewrite (ro_sum r Hr). subst p. unfold total_bytes.
    destruct (partials r !! key) as [q|] eqn:E; cbn in *.
    - rewrite (map_sum_delete _ _ _ q) by done.
      pose proof (partials_nonneg r key q Hr E). pose proof (total_bytes_ge r key q Hr E) as Hge.
      rewrite (ro_sum r Hr) in Hge. unfold total_bytes in Hge. lia.
    - rewrite delete_id by done. pose proof (ro_sum r Hr) as Hs. unfold total_bytes in Hs. lia. }
  destruct (Partial.apply f d _).2 as [[]|e].
  - destruct Ha as [Hok Hb]. cbn in Hb. split; [done|].
    destruct (Partial.assemble p') as [m|] eqn:Has.
    + cbn. rewrite delete_insert_eq. apply (shrink_ok r); [done|done| |];
        unfold saturating_sub; lia.
    + destruct Hr as [H1 H2 H3 H4 H5 H6]. constructor; cbn; try done.
      * unfold Reassembler.len in *. cbn.
        destruct (partials r !! key) as [q|] eqn:E.
        -- rewrite map_size_insert_Some by eauto. lia.
        -- rewrite map_size_insert_None by done. specialize (Hcap eq_refl). lia.
      * unfold total_bytes in *. rewrite map_sum_insert, Hb, H4, <- Hpb. lia.
      * intros k q Hk. destruct (decide (key = k)) as [<-|Hne].
        -- rewrite lookup_insert_eq in Hk. by injection Hk as <-.
        -- rewrite lookup_insert_ne in Hk by done. by eapply H6.
  - destruct Ha as [Hb _]. cbn in Hb. unfold Reassembler.drop_partial. cbn.
    rewrite lookup_insert_eq, delete_insert_eq, Hb. apply (shrink_ok r); [done|done| |];
      unfold saturating_sub; lia.
Qed.

Lemma insert_with_delivery_ok key f d r :
  reassembler_ok r → reassembler_ok (Reassembler.insert_with_delivery key f d r).1.
Proof.
  intros Hr0. unfold Reassembler.insert_with_delivery.
  pose proof (expire_due_ok r Hr0) as Hr. set (r1 := Reassembler.expire_due r) in *.
  assert (G : ∀ rd : BoundedReassembler * result ReassemblyError FragmentInsertDisposition,
    rd = match partials r1 !! key with
      | Some partial =>
          match Partial.classify partial f d with
          | Ok disposition => (r1, Ok disposition)
          | Err error => (Reassembler.drop_partial key r1, Err error)
          end
      | None =>
          if Reassembler.len r1 >=? capacity r1
          then (r1, Err (CapacityExceeded (capacity r1)))
          else (r1, classify_new_partial f d)
      end →
    reassembler_ok rd.1 ∧ ∀ n, rd.2 = Ok (Inserted n) → rd.1 = r1 ∧
      (partials r1 !! key = None → Reassembler.len r1 < capacity r1) ∧
      Partial.classify (default (Partial.new (now_ms r1)) (partials r1 !! key)) f d =
        Ok (Inserted n)).
  { intros rd ->. destruct (partials r1 !! key) as [p|] eqn:E; cbn.
    - destruct (Partial.classify p f d) eqn:Ec; cbn; [|by split; [apply drop_partial_ok|]].
      split; [done|]. intros n [= ->]. done.
    - destruct (_ >=? _) eqn:E2; cbn; [done|]. split; [done|]. intros n Hn. breflect.
      split_and!; [done|done|]. by rewrite <- classify_new_partial_eq. }
  destruct f as [body|id body|id s l body]; [done| |].
  all: destruct (_ =? 0); [done|].
  all: specialize (G _ eq_refl).
  all: destruct (match partials r1 !! key with Some _ => _ | None => _ end) as [r2 dsp].
  all: destruct G as [Hr2 Hins]; cbn [fst snd] in Hr2, Hins.
  all: destruct dsp as [[n|]|e]; [|done|done].
  all: destruct (Hins n eq_refl) as (-> & Hcap & Hc); clear Hins.
  all: destruct (Reassembler.over_budget r1 n) eqn:Hob; [done|].
  all: apply over_budget_false in Hob.
  all: assert (0 ≤ n) as Hn0 by
    (apply classify_inserted in Hc; destruct_and?; subst; apply zlen_nonneg).
  all: pose proof (store_ok r1 key _ d n Hr Hcap Hc Hn0 Hob) as Hst; cbv zeta in Hst.
  all: destruct (Partial.apply _ d _) as [p' [[]|e]]; cbn [fst snd] in *; [|done].
  all: destruct Hst as [_ Hst].
  all: pose proof (ro_max r1 Hr).
  all: cbn [aggregate_bytes Reassembler.with_partials].
  all: rewrite saturating_add_small by lia.
  all: destruct (Partial.assemble p'); done.
Qed.

(** The path of a fragment with a nonzero message identifier. *)
Lemma insert_unfold key f dl id r :
  fragment_message_id f = Some id → id ≠ 0 → Reassembler.expire_due r = r →
  Reassembler.insert_with_delivery key f dl r =
  let '(r, disposition) :=
    match partials r !! key with
    | Some partial =>
        match Partial.classify partial f dl with
        | Ok disposition => (r, Ok disposition)
        | Err error => (Reassembler.drop_partial key r, Err error)
        end
    | None =>
        if Reassembler.len r >=? capacity r then (r, Err (CapacityExceeded (capacity r)))
        else (r, classify_new_partial f dl)
    end in
  match disposition with
  | Err error => (r, Err error)
  | Ok ExactDuplicate => (r, Ok None)
  | Ok (Inserted added_bytes) =>
    if Reassembler.over_budget r added_bytes
    then (r, Err (AggregateBytesExceeded
                    (saturating_add usize_max (aggregate_bytes r) added_bytes)
                    (aggregate_bytes_max r)))
    else
    let partial := Partial.touch (now_ms r)
      (default (Partial.new (now_ms r)) (partials r !! key)) in
    let '(partial, applied) := Partial.apply f dl partial in
    let r := Reassembler.with_partials (<[key := partial]> (partials r)) (aggregate_bytes r) r in
    match applied with
    | Err error => (Reassembler.drop_partial key r, Err error)
    | Ok _ =>
      let agg := saturating_add usize_max (aggregate_bytes r) added_bytes in
      match Partial.assemble partial with
      | Some msg =>
          (Reassembler.with_partials (delete key (partials r))
             (saturating_sub agg (partial_bytes partial)) r,
           Ok (Some (mkReassembled msg (first_delivery partial))))
      | None => (Reassembler.with_partials (partials r) agg r, Ok None)
      end
    end
  end.
Proof.
  intros Hf Hid Hex. unfold Reassembler.insert_with_delivery. rewrite Hex.
  apply Z.eqb_neq in Hid.
  destruct f; [done|..]; injection Hf as ->; cbn [fragment_message_id];
    change (default 0 (Some id)) with id; by rewrite Hid.
Qed.

(** [insert] computes what [insert_with_delivery] does without an
    instruction. *)
Lemma insert_eq key f r :
  Reassembler.insert key f r =
  ((Reassembler.insert_with_delivery key f None r).1,
   fmap (M:=option) message <$> (Reassembler.insert_with_delivery key f None r).2).
Proof.
  unfold Reassembler.insert, Reassembler.insert_with_delivery.
  destruct f as [body|id body|id s l body]; [done| |];
    repeat (step_match; try done).
Qed.
End reassembler_facts.

(** ** Reassembly in any order

    The fragments of one message: a first fragment with the delivery
    instruction and follow-on fragments numbered from 1, the last one
    flagged. *)
Definition fragment_at (id : Z) (d : DeliveryInstruction) (bodies : list bytes) (i : Z)
    : TunnelFragment * option DeliveryInstruction :=
  let body := default [] (bodies !! Z.to_nat i) in
  if i =? 0 then (First id body, Some d)
  else (FollowOn id i (i =? zlen bodies - 1) body, None).

(** Inserting a sequence of fragments, with the result of each insertion. *)
Fixpoint insert_all (key : ReassemblyKey)
    (frs : list (TunnelFragment * option DeliveryInstruction)) (r : BoundedReassembler)
    : BoundedReassembler * list (result ReassemblyError (option ReassembledFragment)) :=
  match frs with
  | [] => (r, [])
  | (f, d) :: frs' =>
      let '(r1, res) := Reassembler.insert_with_delivery key f d r in
      let '(r2, ress) := insert_all key frs' r1 in
      (r2, res :: ress)
  end.

Lemma insert_all_app key frs frs' r :
  insert_all key (frs ++ frs') r =
  ((insert_all key frs' (insert_all key frs r).1).1,
   (insert_all key frs r).2 ++ (insert_all key frs' (insert_all key frs r).1).2).
Proof.
  revert r. induction frs as [|[f d] frs IH]; intros r; cbn.
  - by destruct (insert_all key frs' r).
  - destruct (Reassembler.insert_with_delivery key f d r) as [r1 res].
    rewrite (IH r1). by destruct (insert_all key frs r1).
Qed.

Section any_order.
Context (key : ReassemblyKey) (id : Z) (d : DeliveryInstruction) (bodies : list bytes).
Context (r0 : BoundedReassembler).
Hypothesis Hid : id ≠ 0.
Hypothesis Hn : 2 ≤ zlen bodies ≤ MAX_FRAGMENT_COUNT.
Hypothesis Hr0 : reassembler_ok r0.
Hypothesis Hfresh : partials r0 !! key = None.
Hypothesis Hroom : Reassembler.len r0 < capacity r0.
Hypothesis Hbudget : aggregate_bytes r0 + zlen (concat bodies) ≤ aggregate_bytes_max r0.
Hypothesis Hsize : zlen (concat bodies) ≤ MAX_REASSEMBLY_BYTES_PER_MESSAGE.
Hypothesis Hexpiry : 0 < expiry_ms r0.
Hypothesis Hnotdue : ∀ k p, partials r0 !! k = Some p → ¬ Reassembler.due r0 p.

Abbreviation n := (zlen bodies).
Abbreviation insert_at i :=
  (Reassembler.insert_with_delivery key
    (fragment_at id d bodies i).1 (fragment_at id d bodies i).2).

Record represents (S : gset Z) (p : PartialMessage) : Prop := {
  rep_ok : partial_ok p;
  rep_range i : i ∈ S → 0 ≤ i < n;
  rep_received i : received p !! i = if decide (i ∈ S) then bodies !! Z.to_nat i else None;
  rep_flags i : i ∈ S → i ≠ 0 → last_flags p !! i = Some (i =? n - 1);
  rep_total : total_fragments p = if decide (n - 1 ∈ S) then Some n else None;
  rep_observed : observed_max_sequence p ≤ n - 1;
  rep_delivery : 0 ∈ S → first_delivery p = Some d;
  rep_touched : last_touched_ms p = now_ms r0;
}.

Inductive holds (S : gset Z) (r : BoundedReassembler) : Prop :=
  | holds_none : S = ∅ → r = r0 → holds S r
  | holds_some p :
      represents S p →
      r = Reassembler.with_partials (<[key := p]> (partials r0))
            (aggregate_bytes r0 + partial_bytes p) r0 →
      holds S r.

Lemma body_lookup i : 0 ≤ i < n → is_Some (bodies !! Z.to_nat i).
Proof. intros Hi. apply lookup_lt_is_Some. unfold zlen in Hi. lia. Qed.

Lemma rep_new : represents ∅ (Partial.new (now_ms r0)).
Proof.
  constructor; cbn; try set_solver; [apply new_ok|lia].
Qed.

Lemma rep_dom S p : represents S p → dom (received p) = S.
Proof.
  intros Hp. apply set_eq. intros i. rewrite elem_of_dom, (rep_received _ _ Hp).
  case_decide as Hi; [|split; [intros [? ?]; done|done]].
  split; [done|]. intros _. apply body_lookup. by apply (rep_range _ _ Hp).
Qed.

(** The bodies as a map, and the bound it gives on a partial message. *)
Lemma collect_bodies m k l :
  (∀ i b, l !! i = Some b → m !! (k + Z.of_nat i) = Some b) →
  Partial.collect m k (length l) = Some (concat l).
Proof.
  revert k. induction l as [|b l IH]; intros k Hm; [done|].
  cbn. pose proof (Hm 0%nat b eq_refl) as H0. rewrite Z.add_0_r in H0. rewrite H0. cbn.
  rewrite IH; [done|]. intros i b' Hi.
  replace (k + 1 + Z.of_nat i) with (k + Z.of_nat (S i)) by lia. by apply Hm.
Qed.

Lemma map_sum_bodies (l : list bytes) (k : Z) (m : gmap Z bytes) :
  (∀ i b, m !! i = Some b → k ≤ i ∧ l !! Z.to_nat (i - k) = Some b) →
  map_sum zlen m ≤ zlen (concat l).
Proof.
  revert k m. induction l as [|b l IH]; intros k m Hm.
  - destruct (decide (m = ∅)) as [->|Hne]; [by rewrite map_sum_empty|].
    apply map_choose in Hne as (i & b & Hb). by destruct (Hm i b Hb) as [_ ?].
  - assert (Hrest : map_sum zlen (delete k m) ≤ zlen (concat l)).
    { apply (IH (k + 1)). intros i b' [Hne Hi]%lookup_delete_Some.
      apply Hm in Hi as [Hle Hi]. split; [lia|].
      replace (Z.to_nat (i - k)) with (S (Z.to_nat (i - (k + 1)))) in Hi by lia. done. }
    cbn. rewrite zlen_app. destruct (m !! k) as [b'|] eqn:E.
    + rewrite (map_sum_delete _ _ _ b') in Hrest by done.
      apply Hm in E as [_ E]. rewrite Z.sub_diag in E. injection E as ->. lia.
    + rewrite delete_id in Hrest by done. pose proof (zlen_nonneg b). lia.
Qed.

Lemma rep_bytes S p : represents S p → partial_bytes p ≤ zlen (concat bodies).
Proof.
  intros Hp. rewrite (po_bytes _ (rep_ok _ _ Hp)). apply (map_sum_bodies _ 0).
  intros i b. rewrite (rep_received _ _ Hp). case_decide as Hi; [|done].
  apply (rep_range _ _ Hp) in Hi. rewrite Z.sub_0_r. intros. split; [lia|done].
Qed.

Lemma expire_due_noop r :
  0 ≤ aggregate_bytes r → (∀ k p, partials r !! k = Some p → ¬ Reassembler.due r p) →
  Reassembler.expire_due r = r.
Proof.
  intros Hagg Hd. unfold Reassembler.expire_due. destruct (Reassembler.is_empty r); [done|].
  assert (filter (λ kp, ¬ Reassembler.due r kp.2) (partials r) = partials r) as ->.
  { apply map_filter_id. intros k p Hk. by apply (Hd k). }
  assert (filter (λ kp, Reassembler.due r kp.2) (partials r) = ∅) as ->.
  { apply map_empty. intros k. apply map_lookup_filter_None. right.
    intros p Hk. by apply (Hd k). }
  unfold total_bytes. rewrite map_sum_empty.
  destruct r as [c a m e nw g]. unfold Reassembler.with_partials, saturating_sub. cbn in *.
  f_equal. lia.
Qed.

(** The classification of the fragment [i] of the message. *)
Lemma classify_at S p i :
  represents S p → 0 ≤ i < n →
  Partial.classify p (fragment_at id d bodies i).1 (fragment_at id d bodies i).2 =
  Ok (if decide (i ∈ S) then ExactDuplicate
      else Inserted (zlen (default [] (bodies !! Z.to_nat i)))).
Proof.
  intros Hp Hi. unfold fragment_at. destruct (body_lookup i Hi) as [b Hb]. rewrite Hb. cbn.
  destruct (i =? 0) eqn:E0; breflect; cbn.
  - subst i. rewrite (rep_received _ _ Hp). cbn in Hb.
    case_decide as HS; [|done]. rewrite Hb, decide_True by done.
    rewrite (rep_delivery _ _ Hp HS). cbn. by rewrite bool_decide_eq_true_2.
  - unfold FOLLOW_ON_SEQUENCE_MIN, FOLLOW_ON_SEQUENCE_MAX, MAX_FRAGMENT_COUNT in *.
    destruct (i <? 1) eqn:E1; breflect; [lia|].
    destruct (i >? 63) eqn:E2; breflect; [lia|]. cbn.
    rewrite (rep_received _ _ Hp). case_decide as HS.
    + rewrite Hb, decide_True by done. rewrite (rep_flags _ _ Hp i) by done. cbn.
      by rewrite eqb_reflx.
    + destruct (i =? n - 1) eqn:E3; cbn; [|done]. breflect.
      pose proof (rep_observed _ _ Hp).
      destruct (i <? observed_max_sequence p) eqn:E4; breflect; [lia|done].
Qed.

Lemma rep_room S p i b :
  represents S p → 0 ≤ i < n → i ∉ S → bodies !! Z.to_nat i = Some b →
  partial_bytes p + zlen b ≤ zlen (concat bodies).
Proof.
  intros Hp Hi HS Hb.
  rewrite (received_insert_bytes p i b (rep_ok _ _ Hp)).
  2: { rewrite (rep_received _ _ Hp). by case_decide. }
  apply (map_sum_bodies _ 0). intros j b'. rewrite Z.sub_0_r, lookup_insert.
  case_decide as Hj; [subst j; intros [= <-]; split; [lia|done]|].
  rewrite (rep_received _ _ Hp). case_decide as HjS; [|done].
  apply (rep_range _ _ Hp) in HjS. intros. split; [lia|done].
Qed.

(** Applying a missing fragment extends what the partial message holds. *)
Lemma apply_at S p i b :
  represents S p → 0 ≤ i < n → i ∉ S → bodies !! Z.to_nat i = Some b →
  ∃ p', Partial.apply (fragment_at id d bodies i).1 (fragment_at id d bodies i).2 p
          = (p', Ok ())
        ∧ represents ({[i]} ∪ S) p' ∧ partial_bytes p' = partial_bytes p + zlen b.
Proof.
  intros Hp Hi HS Hb. pose proof (classify_at S p i Hp Hi) as Hc.
  rewrite decide_False, Hb in Hc by done. change (default [] (Some b)) with b in Hc.
  pose proof (rep_room S p i b Hp Hi HS Hb) as Hroomb.
  pose proof (aggregate_nonneg r0 Hr0). pose proof (ro_max r0 Hr0).
  pose proof (partial_bytes_nonneg p (rep_ok _ _ Hp)). pose proof (zlen_nonneg b).
  pose proof (apply_spec p _ _ _ (rep_ok _ _ Hp) Hc ltac:(lia)) as Hspec.
  destruct (Partial.apply _ _ p) as [p' [[]|e]] eqn:Ha; cbn in Hspec.
  2: { exfalso. destruct Hspec as [_ ->]. revert Ha. unfold fragment_at. rewrite Hb.
       destruct (i =? 0); cbn; rewrite !apply_saturates by lia;
         (destruct (_ >? _) eqn:E; [breflect; lia|done]). }
  exists p'. destruct Hspec as [Hok Hbytes]. split_and!; [done| |done].
  revert Ha. unfold fragment_at. rewrite Hb. change (default [] (Some b)) with b.
  destruct (i =? 0) eqn:E0; cbn; rewrite apply_saturates by lia;
    (destruct (_ >? _) eqn:E; [done|]); intros [= <-]; breflect.
  - subst i. constructor; cbn; try done.
    + intros j [->%elem_of_singleton|Hj]%elem_of_union; [lia|]. by apply (rep_range _ _ Hp).
    + intros j. rewrite lookup_insert. case_decide as Hj.
      * subst j. rewrite decide_True by set_solver. by rewrite Hb.
      * rewrite (rep_received _ _ Hp). by do 2 (case_decide; try set_solver).
    + intros j [->%elem_of_singleton|Hj]%elem_of_union Hj0; [done|]. by apply (rep_flags _ _ Hp).
    + rewrite (rep_total _ _ Hp).
      assert (n - 1 ≠ 0) as Hn1 by lia. by do 2 (case_decide; try set_solver).
    + apply (rep_observed _ _ Hp).
    + apply (rep_touched _ _ Hp).
  - constructor; cbn; try done.
    + intros j [->%elem_of_singleton|Hj]%elem_of_union; [lia|]. by apply (rep_range _ _ Hp).
    + intros j. rewrite lookup_insert. case_decide as Hj.
      * subst j. rewrite decide_True by set_solver. by rewrite Hb.
      * rewrite (rep_received _ _ Hp). by do 2 (case_decide; try set_solver).
    + intros j Hj Hj0. rewrite lookup_insert. case_decide as Hij; [by subst|].
      apply (rep_flags _ _ Hp); [set_solver|done].
    + destruct (i =? n - 1) eqn:E1; breflect.
      * rewrite decide_True by set_solver. f_equal. lia.
      * rewrite (rep_total _ _ Hp). by do 2 (case_decide; try set_solver).
    + pose proof (rep_observed _ _ Hp). lia.
    + intros Hj. apply (rep_delivery _ _ Hp). set_solver.
    + apply (rep_touched _ _ Hp).
Qed.

Abbreviation full := (list_to_set (seqZ 0 n) : gset Z).

Lemma full_elem i : i ∈ full ↔ 0 ≤ i < n.
Proof. rewrite elem_of_list_to_set, elem_of_seqZ. lia. Qed.

Lemma full_size : Z.of_nat (size full) = n.
Proof.
  rewrite size_list_to_set by apply NoDup_seqZ. rewrite length_seqZ. lia.
Qed.

Lemma assemble_at S p :
  represents S p →
  Partial.assemble p = if decide (S = full) then Some (concat bodies) else None.
Proof.
  intros Hp. unfold Partial.assemble, Partial.is_complete.
  rewrite (rep_total _ _ Hp). rewrite <- (size_dom (D:=gset Z)), (rep_dom _ _ Hp).
  assert (Hsub : S ⊆ full).
  { intros i Hi. apply full_elem. by apply (rep_range _ _ Hp). }
  pose proof full_size as Hfs. case_decide as Hl.
  - destruct (_ =? n) eqn:E; breflect.
    + assert (S = full) as HS.
      { apply set_eq. intros i. split; [apply Hsub|]. intros Hi.
        apply set_subseteq_size_equiv in Hsub; [|lia]. by apply Hsub. }
      rewrite decide_True by done. cbn.
      replace (Z.to_nat n) with (length bodies) by (unfold zlen; lia).
      apply collect_bodies. intros i b Hib. rewrite (rep_received _ _ Hp).
      pose proof (lookup_lt_Some _ _ _ Hib).
      rewrite decide_True; [by rewrite Z.add_0_l, Nat2Z.id|].
      rewrite HS. apply full_elem. unfold zlen. lia.
    + rewrite decide_False; [done|]. intros ->. lia.
  - rewrite decide_False; [done|]. intros ->. apply Hl, full_elem. lia.
Qed.

(** What the reassembler knows of the message in a state that holds [S]. *)
Definition current (r : BoundedReassembler) : PartialMessage :=
  default (Partial.new (now_ms r0)) (partials r !! key).

Lemma holds_current S r :
  holds S r →
  represents S (current r) ∧ now_ms r = now_ms r0 ∧ capacity r = capacity r0 ∧
  aggregate_bytes_max r = aggregate_bytes_max r0 ∧
  aggregate_bytes r = aggregate_bytes r0 + partial_bytes (current r) ∧
  delete key (partials r) = partials r0 ∧
  (partials r !! key = None → Reassembler.len r < capacity r) ∧
  Reassembler.expire_due r = r.
Proof.
  pose proof (aggregate_nonneg r0 Hr0) as Hagg.
  intros [-> ->|p Hp ->]; unfold current.
  - rewrite Hfresh. cbn. rewrite delete_id by done.
    split_and!; [apply rep_new|done|done|done|lia|done|done|].
    by apply expire_due_noop.
  - cbn. rewrite lookup_insert_eq, delete_insert_id by done. cbn.
    split_and!; try done. pose proof (partial_bytes_nonneg p (rep_ok _ _ Hp)).
    apply expire_due_noop; [cbn; lia|]. cbn. intros k q Hk.
    destruct (decide (key = k)) as [<-|Hne].
    + rewrite lookup_insert_eq in Hk. injection Hk as <-.
      unfold Reassembler.due, saturating_sub. cbn. rewrite (rep_touched _ _ Hp). lia.
    + rewrite lookup_insert_ne in Hk by done. by apply (Hnotdue k q).
Qed.

Lemma rep_touch S p : represents S p → represents S (Partial.touch (now_ms r0) p).
Proof. intros []. constructor; cbn; try done. by apply touch_ok. Qed.

Lemma holds_step S r i :
  holds S r → 0 ≤ i < n →
  if decide (i ∈ S) then insert_at i r = (r, Ok None)
  else if decide ({[i]} ∪ S = full)
  then insert_at i r = (r0, Ok (Some (mkReassembled (concat bodies) (Some d))))
  else ∃ r', insert_at i r = (r', Ok None) ∧ holds ({[i]} ∪ S) r'.
Proof.
  intros HS Hi. destruct (holds_current S r HS) as
    (Hrep & Hnw & Hcapq & Hmaxq & Haggq & Hdel & Hcap & Hex).
  rewrite (insert_unfold _ _ _ id r) by
    (done || (unfold fragment_at; by destruct (i =? 0))). cbv zeta.
  pose proof (classify_at S _ i (rep_touch _ _ Hrep) Hi) as Hc.
  destruct (body_lookup i Hi) as [b Hb]. rewrite Hb in Hc.
  change (default [] (Some b)) with b in Hc.
  assert (Hdisp : match partials r !! key with
    | Some partial =>
        match Partial.classify partial (fragment_at id d bodies i).1
                (fragment_at id d bodies i).2 with
        | Ok disposition => (r, Ok disposition)
        | Err error => (Reassembler.drop_partial key r, Err error)
        end
    | None =>
        if Reassembler.len r >=? capacity r then (r, Err (CapacityExceeded (capacity r)))
        else (r, classify_new_partial (fragment_at id d bodies i).1
                   (fragment_at id d bodies i).2)
    end = (r, Ok (if decide (i ∈ S) then ExactDuplicate else Inserted (zlen b)))).
  { unfold current in Hc. rewrite classify_touch in Hc.
    destruct (partials r !! key) as [q|] eqn:E; cbn in Hc; [by rewrite Hc|].
    destruct (_ >=? _) eqn:E2; breflect; [specialize (Hcap eq_refl); lia|].
    by rewrite (classify_new_partial_eq (now_ms r0)), Hc. }
  rewrite Hdisp. clear Hdisp. case_decide as HiS; [done|].
  destruct (apply_at S _ i b (rep_touch _ _ Hrep) Hi HiS Hb) as (p' & Hap & Hrep' & Hpb).
  pose proof (rep_bytes _ _ Hrep'). pose proof (aggregate_nonneg r0 Hr0).
  pose proof (ro_max r0 Hr0). pose proof (partial_bytes_nonneg _ (rep_ok _ _ Hrep)).
  pose proof (zlen_nonneg b). cbn in Hpb.
  assert (MAX_REASSEMBLY_AGGREGATE_BYTES < usize_max) by (vm_compute; reflexivity).
  assert (Hob : Reassembler.over_budget r (zlen b) = false).
  { unfold Reassembler.over_budget. rewrite Hmaxq, Haggq.
    destruct (checked_add _ _ _) as [x|] eqn:E.
    - apply checked_add_Some in E as [-> _]. destruct (_ >? _) eqn:E2; breflect; [lia|done].
    - apply checked_add_None in E. lia. }
  rewrite Hob, Hnw. fold (current r). rewrite Hap.
  cbn [aggregate_bytes Reassembler.with_partials partials].
  rewrite Haggq, saturating_add_small by lia.
  rewrite (assemble_at _ _ Hrep'). case_decide as Hfull.
  - rewrite (rep_delivery _ _ Hrep') by (rewrite Hfull; apply full_elem; lia).
    rewrite delete_insert_eq, Hdel, Hpb. f_equal.
    destruct HS as [_ ->|q _ ->]; unfold Reassembler.with_partials, saturating_sub; cbn;
      destruct r0; cbn in *; f_equal; lia.
  - eexists. split; [reflexivity|]. eapply holds_some; [exact Hrep'|].
    rewrite <- (insert_delete_eq (partials r)), Hdel, Hpb.
    destruct HS as [_ ->|q _ ->]; unfold Reassembler.with_partials; cbn; f_equal; lia.
Qed.

Lemma holds_ext S S' r : S = S' → holds S r → holds S' r.
Proof. by intros ->. Qed.

(** Fragments [l], in any order and with repetitions, that do not complete
    the message are all retained silently. *)
Lemma insert_all_holds l S r :
  holds S r → Forall (λ i, 0 ≤ i < n) l → list_to_set l ∪ S ≠ full → 
  ∃ r', insert_all key (fragment_at id d bodies <$> l) r =
          (r', replicate (length l) (Ok None)) ∧
        holds (list_to_set l ∪ S) r'.
Proof.
  revert S r. induction l as [|i l IH]; intros S r HS Hl Hnf.
  - exists r. split; [done|]. eapply holds_ext; [|exact HS]. set_solver.
  - apply Forall_cons in Hl as [Hi Hl]. pose proof (holds_step S r i HS Hi) as Hst.
    cbn. rewrite (surjective_pairing (fragment_at id d bodies i)).
    assert (Hsub : S ⊆ full).
    { intros j Hj. apply full_elem.
      destruct (holds_current S r HS) as [Hrep _]. by apply (rep_range _ _ Hrep). }
    assert (Hsubl : (list_to_set l : gset Z) ⊆ full).
    { intros j Hj. apply full_elem. rewrite elem_of_list_to_set in Hj.
      rewrite Forall_forall in Hl. by apply Hl. }
    case_decide as HiS.
    + rewrite Hst. destruct (IH S r HS Hl) as (r' & -> & Hr').
      { intros Heq. apply Hnf. set_solver. }
      exists r'. split; [done|]. eapply holds_ext; [|exact Hr']. set_solver.
    + rewrite decide_False in Hst.
      2: { intros Heq. apply Hnf. set_solver. }
      destruct Hst as (r1 & -> & Hr1).
      destruct (IH _ r1 Hr1 Hl) as (r' & -> & Hr').
      { intros Heq. apply Hnf. set_solver. }
      exists r'. split; [done|]. eapply holds_ext; [|exact Hr']. set_solver.
Qed.
End any_order.

(** ** The steps of a reassembler *)
Inductive reassembler_step : BoundedReassembler → BoundedReassembler → Prop :=
  | step_set_now now r : reassembler_step r (Reassembler.set_now now r)
  | step_insert_with_delivery key f d r :
      reassembler_step r (Reassembler.insert_with_delivery key f d r).1
  | step_insert key f r : reassembler_step r (Reassembler.insert key f r).1
  | step_expire_due r : reassembler_step r (Reassembler.expire_due r)
  | step_purge r : reassembler_step r (Reassembler.purge r).

Section steps.
Implicit Types r : BoundedReassembler.

(** The configuration, which no operation changes. *)
Definition limits r : Z * Z * Z := (capacity r, aggregate_bytes_max r, expiry_ms r).

Lemma expire_due_limits r : limits (Reassembler.expire_due r) = limits r.
Proof. unfold Reassembler.expire_due. by destruct (Reassembler.is_empty r). Qed.

Lemma drop_partial_limits key r : limits (Reassembler.drop_partial key r) = limits r.
Proof. unfold Reassembler.drop_partial. by destruct (partials r !! key). Qed.

Lemma insert_with_delivery_limits key f d r :
  limits (Reassembler.insert_with_delivery key f d r).1 = limits r.
Proof.
  rewrite <- (expire_due_limits r). unfold Reassembler.insert_with_delivery.
  destruct f as [body|id body|id s l body];
    [unfold Reassembler.expire_due; by destruct (Reassembler.is_empty r)|..].
  all: destruct (_ =? 0); [by rewrite expire_due_limits|].
  all: set (r1 := Reassembler.expire_due r).
  all: repeat (step_match; try done; simplify_eq; try apply drop_partial_limits).
  all: cbn [fst]; rewrite drop_partial_limits; done.
Qed.

Lemma step_limits r r' : reassembler_step r r' → limits r' = limits r.
Proof.
  intros [now r1|key f d r1|key f r1|r1|r1]; try done.
  - apply insert_with_delivery_limits.
  - rewrite insert_eq. apply insert_with_delivery_limits.
  - apply expire_due_limits.
Qed.

Lemma step_ok r r' : reassembler_step r r' → reassembler_ok r → reassembler_ok r'.
Proof.
  intros [now r1|key f d r1|key f r1|r1|r1] Hr.
  - by destruct Hr.
  - by apply insert_with_delivery_ok.
  - rewrite insert_eq. by apply insert_with_delivery_ok.
  - by apply expire_due_ok.
  - apply shrink_ok; [done|apply map_empty_subseteq| |by apply aggregate_nonneg].
    unfold total_bytes. by rewrite map_sum_empty.
Qed.

Lemma steps_ok r r' : rtc reassembler_step r r' →
  reassembler_ok r → reassembler_ok r' ∧ limits r' = limits r.
Proof.
  induction 1 as [|r1 r2 r3 H12 _ IH]; intros Hr; [done|].
  destruct (IH (step_ok _ _ H12 Hr)) as [? ->]. split; [done|]. by apply step_limits.
Qed.
End steps.

Section assemble_facts.
Lemma collect_Some m k t out :
  Partial.collect m k t = Some out →
  ∃ l, length l = t ∧ out = concat l ∧
       ∀ i b, l !! i = Some b → m !! (k + Z.of_nat i) = Some b.
Proof.
  revert k out. induction t as [|t IH]; intros k out; cbn.
  - intros [= <-]. exists []. done.
  - destruct (m !! k) as [b|] eqn:Eb; [|done]. cbn.
    destruct (Partial.collect m (k + 1) t) as [rest|] eqn:Ec; [|done].
    intros [= <-]. destruct (IH _ _ Ec) as (l & Hl & -> & Hm).
    exists (b :: l). split_and!; [cbn; lia|done|].
    intros [|i] b' Hb; cbn in Hb; [injection Hb as <-; by rewrite Z.add_0_r|].
    replace (k + Z.of_nat (S i)) with (k + 1 + Z.of_nat i) by lia. by apply Hm.
Qed.
End assemble_facts.

(** ** Properties *)

(** C36: the reassembler stays inside every one of its bounds.  In every state
    reachable from a new reassembler by any sequence of clock updates,
    insertions, expiries and purges, at most [min capacity 1024] partial
    messages are retained, the aggregate counter is exactly the number of
    retained bytes and respects the (clamped) budget, no partial message
    exceeds the per-message ceiling, its byte counter is the sum of its
    fragment bodies, and all its sequences lie in [0 .. 63]. *)
Theorem reassembler_bounded cap agg_max expiry now r
    (Hcap : 0 ≤ cap) (Hagg : 0 ≤ agg_max)
    (Hreach : rtc reassembler_step (Reassembler.new cap agg_max expiry now) r) :
  Reassembler.len r ≤ Z.min cap MAX_REASSEMBLY_MESSAGES ∧
  aggregate_bytes r = map_sum partial_bytes (partials r) ∧
  aggregate_bytes r ≤ Z.min agg_max MAX_REASSEMBLY_AGGREGATE_BYTES ∧
  ∀ k p, partials r !! k = Some p →
    partial_bytes p = map_sum zlen (received p) ∧
    partial_bytes p ≤ MAX_REASSEMBLY_BYTES_PER_MESSAGE ∧
    Partial.assemble p = None ∧
    ∀ s, is_Some (received p !! s) → 0 ≤ s ≤ FOLLOW_ON_SEQUENCE_MAX.
Proof.
  apply steps_ok in Hreach as [Hr Hlim]; [|by apply new_reassembler_ok].
  unfold limits in Hlim. injection Hlim as Hc Hm _.
  destruct Hr as [H1 H2 H3 H4 H5 H6]. rewrite Hc in H2. rewrite Hm in H5.
  split_and!; [done|done|done|]. intros k p Hk. destruct (H6 k p Hk) as [Hp Hn].
  split_and!; [by apply po_bytes|by apply po_limit|done|].
  intros s Hs%(po_seq p Hp). pose proof (po_observed p Hp). lia.
Qed.

(** A reassembler ready for a message of [size] bytes under a new [key]: it has
    room, budget, and nothing to expire. *)
Record room_for (key : ReassemblyKey) (size : Z) (r : BoundedReassembler) : Prop := {
  rf_ok : reassembler_ok r;
  rf_fresh : partials r !! key = None;
  rf_slot : Reassembler.len r < capacity r;
  rf_budget : aggregate_bytes r + size ≤ aggregate_bytes_max r;
  rf_size : size ≤ MAX_REASSEMBLY_BYTES_PER_MESSAGE;
  rf_expiry : 0 < expiry_ms r;
  rf_not_due k p : partials r !! k = Some p → ¬ Reassembler.due r p;
}.

(** An arrival order of [n] fragments in which [i] arrives last and for the
    first time: everything else arrived before, in any order, any number of
    times. *)
Definition completes (n : Z) (l : list Z) (i : Z) : Prop :=
  i ∉ l ∧ ∀ j, j ∈ l ∨ j = i ↔ 0 ≤ j < n.

Lemma insert_all_completes key id d bodies r l i :
  id ≠ 0 → 2 ≤ zlen bodies ≤ MAX_FRAGMENT_COUNT → room_for key (zlen (concat bodies)) r →
  completes (zlen bodies) l i →
  insert_all key (fragment_at id d bodies <$> (l ++ [i])) r =
  (r, replicate (length l) (Ok None) ++
      [Ok (Some (mkReassembled (concat bodies) (Some d)))]).
Proof.
  intros Hid Hn [Hr Hfresh Hroom Hbudget Hsize Hexpiry Hdue] [Hil Hl].
  assert (Hi : 0 ≤ i < zlen bodies) by (apply Hl; by right).
  assert (Hnf : list_to_set l ∪ ∅ ≠ (list_to_set (seqZ 0 (zlen bodies)) : gset Z)).
  { intros Heq. apply Hil. apply (elem_of_list_to_set (C:=gset Z)).
    assert (i ∈ (list_to_set (seqZ 0 (zlen bodies)) : gset Z)) as Hin by by apply full_elem.
    rewrite <- Heq in Hin. set_solver. }
  destruct (insert_all_holds key id d bodies r Hid Hn Hr Hfresh Hroom Hbudget Hsize Hexpiry Hdue
    l ∅ r) as (r' & Hall & Hh); [by apply holds_none| |done|].
  { apply Forall_forall. intros j Hj. apply Hl. by left. }
  pose proof (holds_step key id d bodies r Hid Hn Hr Hfresh Hroom Hbudget Hsize Hexpiry Hdue
    _ r' i Hh Hi) as Hst.
  rewrite decide_False in Hst by set_solver. rewrite decide_True in Hst.
  2: { apply set_eq. intros j. rewrite full_elem by done. rewrite <- Hl. set_solver. }
  rewrite fmap_app, insert_all_app, Hall. cbn.
  rewrite (surjective_pairing (fragment_at id d bodies i)), Hst. done.
Qed.

(** C37: a fragmented message is reassembled whatever the order of arrival.
    Take the bodies of a message of 2 to 64 fragments, a key that is not in
    use and a reassembler with room for it and nothing to expire.  Insert any
    list of its fragments, in any order and with any repetitions, that leaves
    exactly one fragment out, and then that last one: every insertion but the
    last returns nothing, the last returns the concatenated message with the
    first fragment's delivery instruction, and the reassembler ends in the
    state it started from. *)
Theorem reassemble_any_order (key : ReassemblyKey) (id : Z) (d : DeliveryInstruction)
    (bodies : list bytes) (r : BoundedReassembler) (l : list Z) (i : Z)
    (Hid : id ≠ 0) (Hn : 2 ≤ zlen bodies ≤ MAX_FRAGMENT_COUNT)
    (Hroom : room_for key (zlen (concat bodies)) r)
    (Horder : completes (zlen bodies) l i) :
  insert_all key (fragment_at id d bodies <$> (l ++ [i])) r =
  (r, replicate (length l) (Ok None) ++
      [Ok (Some (mkReassembled (concat bodies) (Some d)))]).
Proof. by apply insert_all_completes. Qed.

(** An empty reassembler has room for every message within its budget. *)
Lemma new_room_for key size cap agg_max expiry now :
  1 ≤ cap → 0 ≤ size ≤ agg_max → size ≤ MAX_REASSEMBLY_BYTES_PER_MESSAGE → 0 < expiry →
  room_for key size (Reassembler.new cap agg_max expiry now).
Proof.
  unfold MAX_REASSEMBLY_BYTES_PER_MESSAGE. intros Hcap Hsize Hmax Hexp. constructor.
  - apply new_reassembler_ok; lia.
  - apply lookup_empty.
  - unfold Reassembler.len. cbn. rewrite map_size_empty. unfold MAX_REASSEMBLY_MESSAGES. lia.
  - assert (Hagg : MAX_REASSEMBLY_AGGREGATE_BYTES = 8034944) by reflexivity.
    unfold Reassembler.new. cbn [aggregate_bytes aggregate_bytes_max]. lia.
  - unfold MAX_REASSEMBLY_BYTES_PER_MESSAGE. lia.
  - cbn. lia.
  - intros k p. cbn. by rewrite lookup_empty.
Qed.

Lemma seqZ_dom_size (m : gmap Z bytes) (l : list bytes) :
  (∀ i, 0 ≤ i < zlen l → is_Some (m !! i)) →
  Z.of_nat (size m) = zlen l ↔ ∀ i, is_Some (m !! i) → 0 ≤ i < zlen l.
Proof.
  intros Hsub. set (D := list_to_set (seqZ 0 (zlen l)) : gset Z).
  assert (HD : ∀ i, i ∈ D ↔ 0 ≤ i < zlen l).
  { intros i. unfold D. rewrite elem_of_list_to_set, elem_of_seqZ. lia. }
  assert (Hsz : Z.of_nat (size D) = zlen l).
  { unfold D. rewrite size_list_to_set by apply NoDup_seqZ. rewrite length_seqZ.
    pose proof (zlen_nonneg l). lia. }
  assert (Hincl : D ⊆ dom m).
  { intros i Hi%HD. by apply elem_of_dom, Hsub. }
  rewrite <- (size_dom (D:=gset Z)). split.
  - intros Hs i Hi%elem_of_dom. apply HD.
    apply set_subseteq_size_equiv in Hincl; [by apply Hincl|lia].
  - intros Hall. replace (dom m) with D; [done|]. apply set_eq. intros i. split; [apply Hincl|].
    intros Hi%elem_of_dom. by apply HD, Hall.
Qed.

(** A partial message is assembled exactly when its retained fragments
    are the sequences [0 .. total - 1], no fewer and no more, and the result
    is their bodies in sequence order.  A fragment retained at a sequence at
    or above the announced total therefore blocks the message. *)
Theorem assemble_exact (p : PartialMessage) (m : bytes) :
  Partial.assemble p = Some m ↔
  ∃ l, total_fragments p = Some (zlen l) ∧ m = concat l ∧
       ∀ i b, received p !! i = Some b ↔ 0 ≤ i ∧ l !! Z.to_nat i = Some b.
Proof.
  unfold Partial.assemble, Partial.is_complete. split.
  - destruct (total_fragments p) as [t|]; [|done].
    destruct (_ =? _) eqn:E; [|done]. breflect. cbn.
    intros (l & Hlen & -> & Hm)%collect_Some.
    assert (Hzt : zlen l = t) by (unfold zlen; lia).
    exists l. split_and!; [by f_equal|done|].
    assert (Hl : ∀ i, 0 ≤ i → l !! Z.to_nat i = None ∨ l !! Z.to_nat i = received p !! i).
    { intros i Hi. destruct (l !! Z.to_nat i) as [b|] eqn:Eb; [right|by left].
      rewrite <- (Hm _ _ Eb). f_equal. lia. }
    assert (Hall : ∀ i, is_Some (received p !! i) → 0 ≤ i < zlen l).
    { apply seqZ_dom_size; [|lia]. intros i Hi.
      destruct (lookup_lt_is_Some_2 l (Z.to_nat i)) as [b Hb]; [unfold zlen in Hi; lia|].
      destruct (Hl i) as [Hn|<-]; [lia|congruence|eauto]. }
    intros i b. split.
    + intros Hi. pose proof (Hall i ltac:(eauto)) as Hr. split; [lia|].
      destruct (Hl i) as [Hn| ->]; [lia| |done].
      apply lookup_ge_None in Hn. unfold zlen in Hr. lia.
    + intros [Hi Hb]. destruct (Hl i) as [Hn|Heq]; [done|congruence|congruence].
  - intros (l & -> & -> & Hrec).
    assert (Z.of_nat (size (received p)) = zlen l) as Hs.
    { apply seqZ_dom_size.
      - intros i Hi. destruct (lookup_lt_is_Some_2 l (Z.to_nat i)) as [b Hb];
          [unfold zlen in Hi; lia|]. exists b. apply Hrec. split; [lia|done].
      - intros i [b [Hi Hb]%Hrec]. apply lookup_lt_Some in Hb. unfold zlen. lia. }
    rewrite Hs, Z.eqb_refl. cbn. unfold zlen at 1. rewrite Nat2Z.id.
    apply collect_bodies. intros i b Hb. rewrite Z.add_0_l. apply Hrec.
    rewrite Nat2Z.id. split; [lia|done].
Qed.

(** [insert], the entry point without delivery instructions, is the same
    algorithm as [insert_with_delivery]: it reaches the same state, fails with
    the same error, and returns the message of the same completion. *)
Theorem insert_refines_insert_with_delivery key f r :
  (Reassembler.insert key f r).1 = (Reassembler.insert_with_delivery key f None r).1 ∧
  (∀ e, (Reassembler.insert key f r).2 = Err e ↔
        (Reassembler.insert_with_delivery key f None r).2 = Err e) ∧
  (∀ o, (Reassembler.insert key f r).2 = Ok o ↔
        ∃ c, (Reassembler.insert_with_delivery key f None r).2 = Ok c ∧ o = message <$> c).
Proof.
  rewrite insert_eq. cbn.
  destruct (Reassembler.insert_with_delivery key f None r).2 as [c|e]; cbn; naive_solver.
Qed.

(** An insertion touches only its own key.  Whatever the fragment and
    whatever the outcome, every other partial message that has not expired is
    left as it was; a fragment classified as an exact duplicate changes
    nothing beyond expiry; a fragment that contradicts the retained ones
    removes exactly the partial message of its key. *)
Theorem insert_isolated key f d r :
  (∀ k, k ≠ key → f ≠ Unfragmented (extract_unfragmented_body f) →
     default 0 (fragment_message_id f) ≠ 0 →
     partials (Reassembler.insert_with_delivery key f d r).1 !! k =
     partials (Reassembler.expire_due r) !! k) ∧
  (∀ id p, fragment_message_id f = Some id → id ≠ 0 →
     partials (Reassembler.expire_due r) !! key = Some p →
     (Partial.classify p f d = Ok ExactDuplicate →
      Reassembler.insert_with_delivery key f d r = (Reassembler.expire_due r, Ok None)) ∧
     (∀ e, Partial.classify p f d = Err e →
      Reassembler.insert_with_delivery key f d r =
        (Reassembler.with_partials (delete key (partials (Reassembler.expire_due r)))
           (saturating_sub (aggregate_bytes (Reassembler.expire_due r)) (partial_bytes p))
           (Reassembler.expire_due r), Err e))).
Proof.
  assert (Hdrop : ∀ k r', k ≠ key →
    partials (Reassembler.drop_partial key r') !! k = partials r' !! k).
  { intros k r' Hk. unfold Reassembler.drop_partial.
    destruct (partials r' !! key); [|done]. cbn. by rewrite lookup_delete_ne. }
  split.
  - intros k Hk Hf Hid. unfold Reassembler.insert_with_delivery.
    destruct f as [body|id body|id s l body]; [done|..].
    all: destruct (_ =? 0) eqn:E; [breflect; done|clear E].
    all: set (r1 := Reassembler.expire_due r).
    all: repeat (step_match; try done; simplify_eq; cbn [fst]);
      rewrite ?Hdrop by done; cbn; rewrite ?lookup_delete_ne, ?lookup_insert_ne by done; done.
  - intros id p Hid Hne Hp. set (r1 := Reassembler.expire_due r) in *.
    assert (Heq : (default 0 (fragment_message_id f) =? 0) = false).
    { rewrite Hid. by apply Z.eqb_neq. }
    split; [intros Hc|intros e Hc].
    all: unfold Reassembler.insert_with_delivery; rewrite Heq; fold r1; rewrite Hp, Hc.
    all: destruct f; [done| |]; unfold Reassembler.drop_partial; rewrite ?Hp; done.
Qed.

(** A stray follow-on fragment above the announced last one is retained, and
    the message of two fragments, both of which arrive, is never delivered. *)
Example stray_fragment_blocks :
  (insert_all (mkKey 1 7)
     [(FollowOn 7 1 true [3], None); (FollowOn 7 2 false [9], None);
      (First 7 [1; 2], Some DeliverLocal)]
     (Reassembler.new 4 1000 1000 0)).2 = [Ok None; Ok None; Ok None].
Proof. vm_compute. reflexivity. Qed.

(** ** Witnesses *)
Lemma reassembler_bounded_witness :
  Reassembler.len
    (Reassembler.insert_with_delivery (mkKey 1 7) (First 7 [1; 2]) (Some DeliverLocal)
       (Reassembler.new 4 1000 1000 0)).1 ≤ Z.min 4 MAX_REASSEMBLY_MESSAGES.
Proof.
  refine (proj1 (reassembler_bounded 4 1000 1000 0 _ _ _ _)); [lia|lia|].
  apply rtc_once, step_insert_with_delivery.
Defined.

Lemma reassemble_any_order_witness :
  insert_all (mkKey 1 7)
    (fragment_at 7 DeliverLocal [[1; 2]; [3]; [4]] <$> ([2; 0; 2] ++ [1]))
    (Reassembler.new 4 1000 1000 0) =
  (Reassembler.new 4 1000 1000 0,
   replicate (length [2; 0; 2]) (Ok None) ++
     [Ok (Some (mkReassembled (concat [[1; 2]; [3]; [4]]) (Some DeliverLocal)))]).
Proof.
  apply (reassemble_any_order (mkKey 1 7) 7 DeliverLocal [[1; 2]; [3]; [4]]
    (Reassembler.new 4 1000 1000 0) [2; 0; 2] 1).
  - lia.
  - vm_compute; split; discriminate.
  - apply new_room_for; vm_compute; try split; discriminate || reflexivity.
  - split.
    + rewrite !elem_of_cons, elem_of_nil. lia.
    + change (zlen [[1; 2]; [3]; [4]]) with 3. intros j.
      rewrite !elem_of_cons, elem_of_nil. lia.
Defined.
