(* ===== verification/TunnelData.v ===== *)
(** * The decrypted TunnelData payload

    Models [src/crates/i2pr-tunnel/src/data.rs]: splitting a complete I2NP
    message into fragment records, packing one record into a 1008-byte cell
    payload (checksum, nonzero padding, zero delimiter, record), and parsing a
    payload back into its records.

    SHA-256 and the random generator are third-party crates: they are the
    parameters [sha256] and [try_fill_bytes] of the section. *)
From S2P Require Import Prelude Fragment.

Definition MAX_PLAINTEXT_DATA_BYTES : Z := 1008.
Definition CHECKSUM_LEN : Z := 4.
Definition MAX_TUNNEL_MESSAGE_PAYLOAD_BYTES : Z := 62708.
Definition MAX_FRAGMENT_BODY_BYTES : Z := MAX_PLAINTEXT_DATA_BYTES - 32.
Definition MAX_PADDING_RETRY_PER_BYTE : nat := 32.
Definition FOLLOW_ON_OVERHEAD : Z := 1 + 4 + 2.

(** One fragment record: the delivery instruction of an unfragmented or first
    record, and the fragment. *)
Record FragmentDelivery := mkRecord {
  record_delivery : option DeliveryInstruction;
  record_fragment : TunnelFragment;
}.

Record TunnelPayloadHeader := mkHeader {
  header_delivery : DeliveryInstruction;
  header_message_id : Z;
  header_expiration_ms : Z;
}.

Inductive TunnelMessageError :=
  | PayloadLength (actual expected : Z)
  | ChecksumMismatch
  | PaddingByteZero
  | DelimiterMissing
  | ReservedDeliveryType (value : Z)
  | DelayBitUnsupported
  | ExtendedOptionsBitUnsupported
  | ReservedControlBits (bits : Z)
  | FragmentSequenceOutOfRange (actual : Z)
  | TLastBelowObservedMax (last max : Z)
  | ZeroFragmentLength
  | FragmentLengthExceedsRemaining (declared remaining : Z)
  | TMessageTooLarge (actual maximum : Z)
  | EmptyMessage
  | ZeroMessageId
  | ZeroTunnelId
  | RandomnessUnavailable
  | TooManyFragments (actual maximum : Z)
  | FragmentBodyTooLarge (actual maximum : Z)
  | PaddingRetryExhausted (attempts : Z)
  | FragmentRangeExhausted.

Definition validate_delivery (delivery : DeliveryInstruction) : result TunnelMessageError () :=
  match delivery with
  | DeliverLocal => Ok ()
  | DeliverTunnel tunnel_id _ => if tunnel_id =? 0 then Err ZeroTunnelId else Ok ()
  | DeliverRouter _ => Ok ()
  end.

Definition validate_header (header : TunnelPayloadHeader) : result TunnelMessageError () :=
  if header_message_id header =? 0 then Err ZeroMessageId
  else validate_delivery (header_delivery header).

(** ** Encoding a record *)
Definition append_delivery_extra (delivery : DeliveryInstruction) : bytes :=
  match delivery with
  | DeliverLocal => []
  | DeliverTunnel tunnel_id gateway => to_be 4 tunnel_id ++ gateway
  | DeliverRouter router => router
  end.

Definition delivery_control (delivery : DeliveryInstruction) : Z :=
  match delivery with
  | DeliverLocal => 0
  | DeliverTunnel _ _ => 0x20
  | DeliverRouter _ => 0x40
  end.

Definition fragment_length (body : bytes) : result TunnelMessageError Z :=
  ok_or (FragmentLengthExceedsRemaining (zlen body) u16_max) (try_from u16_max (zlen body)).

Definition encode_record (rec : FragmentDelivery) : result TunnelMessageError bytes :=
  match record_fragment rec, record_delivery rec with
  | Unfragmented fragment_body, Some delivery =>
      len ← fragment_length fragment_body;
      Ok (delivery_control delivery :: append_delivery_extra delivery
            ++ to_be 2 len ++ fragment_body)
  | First message_id fragment_body, Some delivery =>
      len ← fragment_length fragment_body;
      Ok (Z.lor (delivery_control delivery) 0x08 :: append_delivery_extra delivery
            ++ to_be 4 message_id ++ to_be 2 len ++ fragment_body)
  | FollowOn message_id sequence is_last fragment_body, None =>
      len ← fragment_length fragment_body;
      Ok (Z.lor (Z.lor 0x80 (Z.shiftl (Z.land sequence 0x3F) 1)) (if is_last then 1 else 0)
            :: to_be 4 message_id ++ to_be 2 len ++ fragment_body)
  | _, _ => Err (ReservedControlBits 0)
  end.

(** ** Splitting a complete message *)
Definition unfragmented_overhead (delivery : DeliveryInstruction) : Z :=
  match delivery with
  | DeliverLocal => 1 + 2
  | DeliverRouter _ => 1 + 32 + 2
  | DeliverTunnel _ _ => 1 + 4 + 32 + 2
  end.

Definition fragmented_first_overhead (delivery : DeliveryInstruction) : Z :=
  match delivery with
  | DeliverLocal => 1 + 4 + 2
  | DeliverRouter _ => 1 + 32 + 4 + 2
  | DeliverTunnel _ _ => 1 + 4 + 32 + 4 + 2
  end.

Definition cell_body_budget : Z := MAX_PLAINTEXT_DATA_BYTES - CHECKSUM_LEN - 1.

(** The [while cursor < complete_message.len()] loop.  [rest] is what is left
    of the message; the loop ends after at most 63 rounds, when the [u8]
    sequence leaves its range, so [fuel] 64 is never used up. *)
Fixpoint follow_on_records (fuel : nat) (message_id sequence budget : Z) (rest : bytes)
    : result TunnelMessageError (list FragmentDelivery) :=
  match fuel with
  | O => Err FragmentRangeExhausted
  | S fuel' =>
    if zlen rest =? 0 then Ok []
    else
    match checked_add u8_max sequence 1 with
    | None => Err FragmentRangeExhausted
    | Some sequence' =>
      if sequence' >? MAX_FRAGMENT_COUNT - 1
      then Err (TooManyFragments MAX_FRAGMENT_COUNT MAX_FRAGMENT_COUNT)
      else
      let stop := Z.min budget (zlen rest) in
      let body := slice 0 stop rest in
      let is_last := stop =? zlen rest in
      tail ← follow_on_records fuel' message_id sequence' budget (slice stop (zlen rest) rest);
      Ok (mkRecord None (FollowOn message_id sequence' is_last body) :: tail)
    end
  end.

Definition fragment_complete_message (delivery : DeliveryInstruction) (message_id : Z)
    (complete_message : bytes) : result TunnelMessageError (list FragmentDelivery) :=
  _ ← validate_delivery delivery;
  if zlen complete_message =? 0 then Err EmptyMessage
  else if zlen complete_message >? MAX_TUNNEL_MESSAGE_PAYLOAD_BYTES
  then Err (TMessageTooLarge (zlen complete_message) MAX_TUNNEL_MESSAGE_PAYLOAD_BYTES)
  else if message_id =? 0 then Err ZeroMessageId
  else if zlen complete_message + unfragmented_overhead delivery <=? cell_body_budget
  then Ok [mkRecord (Some delivery) (Unfragmented complete_message)]
  else
  let first_body_budget :=
    saturating_sub cell_body_budget (fragmented_first_overhead delivery) in
  if first_body_budget =? 0
  then Err (FragmentBodyTooLarge (zlen complete_message) MAX_FRAGMENT_BODY_BYTES)
  else
  let first_len := Z.min first_body_budget (zlen complete_message) in
  let first_body := slice 0 first_len complete_message in
  let follow_body_budget := saturating_sub cell_body_budget FOLLOW_ON_OVERHEAD in
  tail ← follow_on_records 64 message_id 0 follow_body_budget
           (slice first_len (zlen complete_message) complete_message);
  Ok (mkRecord (Some delivery) (First message_id first_body) :: tail).

(** ** Parsing *)
Inductive FirstDelivery := FirstLocal | FirstTunnel | FirstRouter.

Definition parse_first_control (byte : Z) : result TunnelMessageError FirstDelivery :=
  let delivery_type := Z.land (Z.shiftr byte 5) 0x03 in
  if negb (Z.land byte 0x10 =? 0) then Err DelayBitUnsupported
  else if negb (Z.land byte 0x04 =? 0) then Err ExtendedOptionsBitUnsupported
  else if negb (Z.land byte 0x03 =? 0) then Err (ReservedControlBits (Z.land byte 0x03))
  else if delivery_type =? 0 then Ok FirstLocal
  else if delivery_type =? 1 then Ok FirstTunnel
  else if delivery_type =? 2 then Ok FirstRouter
  else Err (ReservedDeliveryType delivery_type).

(** The index of the first zero byte from [index] on, and what follows it. *)
Fixpoint find_zero (l : bytes) (index : Z) : option (Z * bytes) :=
  match l with
  | [] => None
  | b :: l' => if b =? 0 then Some (index, l') else find_zero l' (index + 1)
  end.

Definition locate_delimiter (plaintext : bytes) : result TunnelMessageError (Z * bytes) :=
  ok_or DelimiterMissing
    (find_zero (skipn (Z.to_nat CHECKSUM_LEN) plaintext) CHECKSUM_LEN).

(** The delivery instruction of a first record: the bytes it takes behind the
    control byte, and the instruction. *)
Definition parse_delivery (kind : FirstDelivery) (remaining : bytes)
    : result TunnelMessageError (Z * DeliveryInstruction) :=
  match kind with
  | FirstLocal => Ok (0, DeliverLocal)
  | FirstTunnel =>
      if zlen remaining <? 1 + 4 + 32
      then Err (FragmentLengthExceedsRemaining (1 + 4 + 32) (zlen remaining))
      else
      let tunnel_id := from_be (slice 1 5 remaining) in
      if tunnel_id =? 0 then Err ZeroTunnelId
      else Ok (4 + 32, DeliverTunnel tunnel_id (slice 5 (5 + 32) remaining))
  | FirstRouter =>
      if zlen remaining <? 1 + 32
      then Err (FragmentLengthExceedsRemaining (1 + 32) (zlen remaining))
      else Ok (32, DeliverRouter (slice 1 (1 + 32) remaining))
  end.

(** One round of the parser's loop: the record at the front of [remaining],
    and what is left behind it. *)
Definition parse_record (remaining : bytes) (observed_first : bool) (observed_max : Z)
    : result TunnelMessageError (FragmentDelivery * bytes * bool * Z) :=
  let first_byte := hd 0 remaining in
  if Z.land first_byte 0x80 =? 0 then
    if observed_first then Err (ReservedControlBits 0)
    else
    kind ← parse_first_control first_byte;
    '(delivery_consumed, delivery) ← parse_delivery kind remaining;
    let remaining := skipn (Z.to_nat (1 + delivery_consumed)) remaining in
    if negb (Z.land first_byte 0x08 =? 0) then
      if zlen remaining <? 4 + 2
      then Err (FragmentLengthExceedsRemaining (4 + 2) (zlen remaining))
      else
      let message_id := from_be (slice 0 4 remaining) in
      if message_id =? 0 then Err ZeroMessageId
      else
      let frag_len := from_be (slice 4 6 remaining) in
      if frag_len =? 0 then Err ZeroFragmentLength
      else if frag_len + 6 >? zlen remaining
      then Err (FragmentLengthExceedsRemaining (frag_len + 6) (zlen remaining))
      else
      Ok (mkRecord (Some delivery) (First message_id (slice 6 (6 + frag_len) remaining)),
          skipn (Z.to_nat (6 + frag_len)) remaining, true, observed_max)
    else
      if zlen remaining <? 2
      then Err (FragmentLengthExceedsRemaining 2 (zlen remaining))
      else
      let frag_len := from_be (slice 0 2 remaining) in
      if frag_len =? 0 then Err ZeroFragmentLength
      else if frag_len + 2 >? zlen remaining
      then Err (FragmentLengthExceedsRemaining (frag_len + 2) (zlen remaining))
      else
      Ok (mkRecord (Some delivery) (Unfragmented (slice 2 (2 + frag_len) remaining)),
          skipn (Z.to_nat (2 + frag_len)) remaining, true, observed_max)
  else
    let sequence := Z.shiftr (Z.land first_byte 0x7E) 1 in
    let is_last := negb (Z.land first_byte 0x01 =? 0) in
    if (sequence =? 0) || (sequence >? 63)
    then Err (FragmentSequenceOutOfRange sequence)
    else if is_last && (sequence <? observed_max)
    then Err (TLastBelowObservedMax sequence observed_max)
    else
    let observed_max := Z.max observed_max sequence in
    if zlen remaining <? 1 + 4 + 2
    then Err (FragmentLengthExceedsRemaining (1 + 4 + 2) (zlen remaining))
    else
    let message_id := from_be (slice 1 5 remaining) in
    if message_id =? 0 then Err ZeroMessageId
    else
    let frag_len := from_be (slice 5 7 remaining) in
    if frag_len =? 0 then Err ZeroFragmentLength
    else if frag_len + 7 >? zlen remaining
    then Err (FragmentLengthExceedsRemaining (frag_len + 7) (zlen remaining))
    else
    Ok (mkRecord None (FollowOn message_id sequence is_last (slice 7 (7 + frag_len) remaining)),
        skipn (Z.to_nat (7 + frag_len)) remaining, observed_first, observed_max).

(** The loop [while !remaining.is_empty()].  Every round takes at least one
    byte, so the number of bytes is enough [fuel]; [None] is the model running
    out of it. *)
Fixpoint parse_records (fuel : nat) (remaining : bytes) (observed_first : bool)
    (observed_max : Z) : option (result TunnelMessageError (list FragmentDelivery)) :=
  match remaining with
  | [] => Some (Ok [])
  | _ =>
    match fuel with
    | O => None
    | S fuel' =>
      match parse_record remaining observed_first observed_max with
      | Err e => Some (Err e)
      | Ok (rec, rest, observed_first', observed_max') =>
          match parse_records fuel' rest observed_first' observed_max' with
          | None => None
          | Some (Err e) => Some (Err e)
          | Some (Ok recs) => Some (Ok (rec :: recs))
          end
      end
    end
  end.

Section cells.
Context (sha256 : bytes → bytes).
Context (Rng : Type) (try_fill_bytes : Rng → Z → Rng * option bytes).

(** The accumulated difference of the checksum comparison. *)
Definition checksum_diff (left right : bytes) : Z :=
  fold_left (λ diff p, Z.lor diff (Z.lxor p.1 p.2)) (zip left right) 0.

Definition verify_checksum (checksum_bytes post_zero iv : bytes)
    : result TunnelMessageError () :=
  if negb (zlen checksum_bytes =? CHECKSUM_LEN)
  then Err (PayloadLength (zlen checksum_bytes) CHECKSUM_LEN)
  else
  let digest := sha256 (post_zero ++ iv) in
  if negb (checksum_diff checksum_bytes (slice 0 CHECKSUM_LEN digest) =? 0)
  then Err ChecksumMismatch
  else Ok ().

(** [TunnelMessageParser::parse] *)
Definition parse (iv plaintext : bytes) : result TunnelMessageError (list FragmentDelivery) :=
  '(delimiter_index, post_zero) ← locate_delimiter plaintext;
  _ ← verify_checksum (slice 0 CHECKSUM_LEN plaintext) post_zero iv;
  let remaining := skipn (Z.to_nat (delimiter_index + 1)) plaintext in
  default (Err DelimiterMissing) (parse_records (length remaining) remaining false 0).

(** The inner loop of [fill_nonzero] on one slot: [left] is the number of
    retries this slot still has. *)
Fixpoint resample (left : nat) (slot attempts max_total : Z)
    : M Rng TunnelMessageError (Z * Z) := λ rng,
  if negb (slot =? 0) then (rng, Ok (slot, attempts))
  else
  let local_attempts := Z.of_nat (MAX_PADDING_RETRY_PER_BYTE - left) in
  match left with
  | O => (rng, Err (PaddingRetryExhausted (Z.max local_attempts attempts)))
  | S left' =>
    if attempts >=? max_total
    then (rng, Err (PaddingRetryExhausted (Z.max local_attempts attempts)))
    else
    match try_fill_bytes rng 1 with
    | (rng', None) => (rng', Err RandomnessUnavailable)
    | (rng', Some byte) =>
        resample left' (hd 0 byte) (saturating_add usize_max attempts 1) max_total rng'
    end
  end.

Fixpoint fill_slots (buf : bytes) (attempts max_total : Z)
    : M Rng TunnelMessageError bytes :=
  match buf with
  | [] => mret []
  | slot :: buf' =>
      '(slot', attempts') ← resample MAX_PADDING_RETRY_PER_BYTE slot attempts max_total;
      rest ← fill_slots buf' attempts' max_total;
      mret (slot' :: rest)
  end.

(** [fill_nonzero] on a buffer of [len] bytes. *)
Definition fill_nonzero (len : Z) : M Rng TunnelMessageError bytes := λ rng,
  if len =? 0 then (rng, Ok [])
  else
  match try_fill_bytes rng len with
  | (rng', None) => (rng', Err RandomnessUnavailable)
  | (rng', Some buf) => fill_slots buf 0 (Z.of_nat MAX_PADDING_RETRY_PER_BYTE * len) rng'
  end.

Definition pack_payload_internal (rec : FragmentDelivery) (iv : bytes)
    : M Rng TunnelMessageError bytes :=
  body ← lift (encode_record rec);
  if zlen body + CHECKSUM_LEN + 1 >? MAX_PLAINTEXT_DATA_BYTES
  then fail (FragmentLengthExceedsRemaining (zlen body + CHECKSUM_LEN + 1)
               MAX_PLAINTEXT_DATA_BYTES)
  else
  padding ← fill_nonzero (MAX_PLAINTEXT_DATA_BYTES - CHECKSUM_LEN - 1 - zlen body);
  let digest := sha256 (body ++ iv) in
  mret (slice 0 CHECKSUM_LEN digest ++ padding ++ [0] ++ body).

(** [TunnelMessageBuilder::build_single] *)
Definition build_single (header : TunnelPayloadHeader) (complete_message iv : bytes)
    : M Rng TunnelMessageError bytes :=
  _ ← lift (validate_header header);
  if zlen complete_message =? 0 then fail EmptyMessage
  else if zlen complete_message >? MAX_TUNNEL_MESSAGE_PAYLOAD_BYTES
  then fail (TMessageTooLarge (zlen complete_message) MAX_TUNNEL_MESSAGE_PAYLOAD_BYTES)
  else
  fragments ← lift (fragment_complete_message (header_delivery header)
                      (header_message_id header) complete_message);
  match fragments with
  | [fragment] => pack_payload_internal fragment iv
  | _ => fail (TMessageTooLarge (zlen complete_message) MAX_FRAGMENT_BODY_BYTES)
  end.

Fixpoint build_each (fragments : list FragmentDelivery)
    : M Rng TunnelMessageError (list (bytes * bytes)) :=
  match fragments with
  | [] => mret []
  | fragment :: fragments' =>
      _ ← lift (match record_delivery fragment with
                | Some delivery => validate_delivery delivery
                | None => Ok ()
                end);
      iv ← (λ rng, match try_fill_bytes rng 16 with
                   | (rng', None) => (rng', Err RandomnessUnavailable)
                   | (rng', Some iv) => (rng', Ok iv)
                   end);
      payload ← pack_payload_internal fragment iv;
      rest ← build_each fragments';
      mret ((iv, payload) :: rest)
  end.

(** [TunnelMessageBuilder::build_cells] *)
Definition build_cells (fragments : list FragmentDelivery)
    : M Rng TunnelMessageError (list (bytes * bytes)) :=
  if zlen fragments =? 0 then fail EmptyMessage
  else if zlen fragments >? MAX_FRAGMENT_COUNT
  then fail (TooManyFragments (zlen fragments mod 256) MAX_FRAGMENT_COUNT)
  else build_each fragments.
End cells.

(** ** Well-formed records

    The ranges the Rust types give ([u32] identifiers, 32-byte hashes) and
    the conditions the parser enforces. *)
Definition delivery_ok (d : DeliveryInstruction) : Prop :=
  match d with
  | DeliverLocal => True
  | DeliverTunnel tunnel_id gateway => fits 32 tunnel_id ∧ tunnel_id ≠ 0 ∧ zlen gateway = 32
  | DeliverRouter router => zlen router = 32
  end.

Definition record_ok (rec : FragmentDelivery) : Prop :=
  match record_fragment rec, record_delivery rec with
  | Unfragmented body, Some d => delivery_ok d ∧ 0 < zlen body
  | First id body, Some d => delivery_ok d ∧ fits 32 id ∧ id ≠ 0 ∧ 0 < zlen body
  | FollowOn id s _ body, None => fits 32 id ∧ id ≠ 0 ∧ 1 ≤ s ≤ 63 ∧ 0 < zlen body
  | _, _ => False
  end.

Section encode_parse.
Lemma zlen_delivery_extra d :
  delivery_ok d → zlen (append_delivery_extra d) = unfragmented_overhead d - 3.
Proof.
  destruct d; cbn [append_delivery_extra unfragmented_overhead delivery_ok].
  - done.
  - intros (_ & _ & H). rewrite zlen_app, zlen_to_be. lia.
  - intros ->. done.
Qed.

Lemma first_overhead d : fragmented_first_overhead d = unfragmented_overhead d + 4.
Proof. by destruct d. Qed.

Lemma fragment_length_Ok body len :
  fragment_length body = Ok len → len = zlen body ∧ fits 16 len.
Proof.
  unfold fragment_length, try_from. destruct (_ <=? _) eqn:E; cbn; [|done].
  intros [= <-]. breflect. pose proof (zlen_nonneg body). unfold fits, u16_max in *. lia.
Qed.

(** The size of an encoded record: its overhead and its body. *)
Lemma encode_record_len rec w :
  record_ok rec → encode_record rec = Ok w →
  zlen w = body_len (record_fragment rec) +
    match record_fragment rec, record_delivery rec with
    | Unfragmented _, Some d => unfragmented_overhead d
    | First _ _, Some d => fragmented_first_overhead d
    | _, _ => FOLLOW_ON_OVERHEAD
    end.
Proof.
  destruct rec as [[d|] [body|id body|id s l body]];
    cbn [record_ok encode_record body_len record_fragment record_delivery]; try done; intros Hok.
  all: destruct (fragment_length body) as [len|] eqn:E; [|done].
  all: cbn [mbind result_bind]; intros <-%Ok_inj.
  all: rewrite zlen_cons, !zlen_app, !zlen_to_be.
  - rewrite zlen_delivery_extra by tauto. lia.
  - rewrite zlen_delivery_extra, first_overhead by tauto. lia.
  - unfold FOLLOW_ON_OVERHEAD. lia.
Qed.

Lemma encode_record_total rec :
  record_ok rec → body_len (record_fragment rec) ≤ u16_max → ∃ w, encode_record rec = Ok w.
Proof.
  destruct rec as [[d|] [body|id body|id s l body]]; cbn; try done; intros Hok Hlen.
  all: unfold fragment_length, try_from; destruct (_ <=? _) eqn:E; breflect; [|lia].
  all: cbn; eauto.
Qed.

(** The follow-on control byte carries its sequence and terminal flag. *)
Definition follow_control (s : Z) (l : bool) : Z :=
  Z.lor (Z.lor 0x80 (Z.shiftl (Z.land s 0x3F) 1)) (if l then 1 else 0).

Lemma follow_control_spec s l :
  1 ≤ s ≤ 63 →
  (Z.land (follow_control s l) 0x80 =? 0) = false ∧
  Z.shiftr (Z.land (follow_control s l) 0x7E) 1 = s ∧
  negb (Z.land (follow_control s l) 0x01 =? 0) = l.
Proof.
  intros Hs.
  assert (Hall : forallb (λ s, forallb (λ l,
    negb (Z.land (follow_control s l) 0x80 =? 0) &&
    (Z.shiftr (Z.land (follow_control s l) 0x7E) 1 =? s) &&
    Bool.eqb (negb (Z.land (follow_control s l) 0x01 =? 0)) l) [true; false]) (seqZ 1 63) = true)
    by (vm_compute; reflexivity).
  rewrite forallb_forall in Hall. specialize (Hall s).
  assert (Hin : In s (seqZ 1 63)) by (apply list_elem_of_In, elem_of_seqZ; lia).
  specialize (Hall Hin). rewrite forallb_forall in Hall. specialize (Hall l).
  assert (Hinl : In l [true; false]) by (destruct l; cbn; auto). specialize (Hall Hinl).
  breflect. split_and!; [by apply Z.eqb_neq|done|by apply eqb_prop].
Qed.

Definition first_kind (d : DeliveryInstruction) : FirstDelivery :=
  match d with
  | DeliverLocal => FirstLocal
  | DeliverTunnel _ _ => FirstTunnel
  | DeliverRouter _ => FirstRouter
  end.

Lemma parse_delivery_encoded d c rest :
  delivery_ok d →
  parse_delivery (first_kind d) (c :: append_delivery_extra d ++ rest) =
  Ok (zlen (append_delivery_extra d), d).
Proof.
  intros Hd. pose proof (zlen_nonneg rest). destruct d as [|tid gw|rt]; cbn [first_kind].
  - done.
  - destruct Hd as (Hfit & Hne & Hgw). cbn [append_delivery_extra parse_delivery].
    rewrite <- !app_assoc.
    destruct (_ <? _) eqn:E; breflect.
    { rewrite zlen_cons, !zlen_app, zlen_to_be in E. lia. }
    change (c :: to_be 4 tid ++ gw ++ rest) with ([c] ++ to_be 4 tid ++ gw ++ rest).
    rewrite (slice_app_eq 1 5 [c]) by (rewrite ?zlen_to_be; done).
    rewrite from_to_be by (unfold fits in Hfit; cbn in *; lia).
    destruct (_ =? 0) eqn:E2; breflect; [done|].
    rewrite (app_assoc [c]).
    rewrite slice_app_eq by (rewrite ?zlen_app, ?zlen_to_be, ?Hgw; done).
    by rewrite zlen_app, zlen_to_be, Hgw.
  - cbn in Hd. cbn [append_delivery_extra parse_delivery].
    destruct (_ <? _) eqn:E; breflect.
    { rewrite zlen_cons, zlen_app in E. lia. }
    change (c :: rt ++ rest) with ([c] ++ rt ++ rest).
    rewrite (slice_app_eq 1 _ [c]) by (rewrite ?Hd; done). by rewrite Hd.
Qed.

Lemma parse_first_control_encoded d (fragmented : bool) :
  let c := if fragmented then Z.lor (delivery_control d) 0x08 else delivery_control d in
  Z.land c 0x80 = 0 ∧ parse_first_control c = Ok (first_kind d) ∧
  negb (Z.land c 0x08 =? 0) = fragmented.
Proof. destruct d, fragmented; done. Qed.

(** The body of a record behind a header [h]: its two-byte length and its
    bytes are found again, and the rest is what follows. *)
Lemma body_at (a b c : Z) h len body rest :
  zlen h = a → b = a + 2 → len = zlen body → fits 16 len → c = b + len →
  from_be (slice a b (h ++ to_be 2 len ++ body ++ rest)) = len ∧
  slice b c (h ++ to_be 2 len ++ body ++ rest) = body ∧
  skipn (Z.to_nat c) (h ++ to_be 2 len ++ body ++ rest) = rest ∧
  zlen (h ++ to_be 2 len ++ body ++ rest) = c + zlen rest.
Proof.
  intros Ha Hb Hl Hf Hc. split_and!.
  - rewrite slice_app_eq by (rewrite ?zlen_to_be; done).
    apply from_to_be. unfold fits in Hf. cbn. lia.
  - rewrite app_assoc. apply slice_app_eq; rewrite ?zlen_app, ?zlen_to_be; lia.
  - rewrite 2!app_assoc. apply skipn_app_eq. rewrite !zlen_app, zlen_to_be. lia.
  - rewrite !zlen_app, zlen_to_be. lia.
Qed.

(** The parser reads back what the encoder wrote, with what follows it. *)
Lemma parse_record_encoded rec w rest m :
  record_ok rec → encode_record rec = Ok w →
  match record_fragment rec with FollowOn _ s _ _ => m ≤ s | _ => True end →
  ∃ of' m', parse_record (w ++ rest) false m = Ok (rec, rest, of', m').
Proof.
  pose proof (zlen_nonneg rest) as Hrest.
  destruct rec as [[d|] [body|id body|id s l body]];
    cbn [record_ok encode_record record_fragment record_delivery]; try done; intros Hok.
  all: destruct (fragment_length body) as [len|] eqn:E; [|done].
  all: apply fragment_length_Ok in E as [Hlen Hfit].
  all: cbn [mbind result_bind]; intros <-%Ok_inj Hm.
  - destruct Hok as [Hd Hpos].
    destruct (parse_first_control_encoded d false) as (H80 & Hctl & H08).
    cbn in H80, Hctl, H08. unfold parse_record. cbn [hd app].
    rewrite H80, Hctl, H08. cbn [mbind result_bind Z.eqb].
    rewrite <- !app_assoc, parse_delivery_encoded by done. cbn [mbind result_bind].
    rewrite app_comm_cons, skipn_app_eq by (rewrite zlen_cons; done).
    destruct (body_at 0 2 (2 + len) [] len body rest) as (H1 & H2 & H3 & H4); try done; [lia..|].
    cbn [app] in H1, H2, H3, H4. rewrite H1, H2, H3, H4.
    repeat (case_match; breflect; try lia). eauto.
  - destruct Hok as (Hd & Hid & Hid0 & Hpos).
    destruct (parse_first_control_encoded d true) as (H80 & Hctl & H08).
    cbn in H80, Hctl, H08. unfold parse_record. cbn [hd app].
    rewrite H80, Hctl, H08. cbn [mbind result_bind Z.eqb].
    rewrite <- !app_assoc, parse_delivery_encoded by done. cbn [mbind result_bind].
    rewrite app_comm_cons, skipn_app_eq by (rewrite zlen_cons; done).
    destruct (body_at 4 6 (6 + len) (to_be 4 id) len body rest) as (H1 & H2 & H3 & H4);
      [by rewrite ?zlen_to_be|done..|lia|].
    rewrite H1, H2, H3, H4.
    rewrite slice_app_start by (rewrite ?zlen_to_be; done).
    rewrite from_to_be by (unfold fits in Hid; cbn in *; lia).
    repeat (case_match; breflect; try lia). eauto.
  - destruct Hok as (Hid & Hid0 & Hs & Hpos).
    destruct (follow_control_spec s l Hs) as (H80 & Hseq & Hl).
    unfold parse_record. cbn [hd app]. fold (follow_control s l).
    rewrite H80, Hseq, Hl. rewrite <- !app_assoc.
    rewrite app_comm_cons.
    destruct (body_at 5 7 (7 + len) (follow_control s l :: to_be 4 id) len body rest)
      as (H1 & H2 & H3 & H4); [by rewrite ?zlen_cons, ?zlen_to_be|done..|lia|].
    rewrite H1, H2, H3, H4. rewrite <- app_comm_cons.
    change (follow_control s l :: ?x ++ ?y) with ([follow_control s l] ++ x ++ y).
    rewrite (slice_app_eq 1 5) by (rewrite ?zlen_to_be; done).
    rewrite from_to_be by (unfold fits in Hid; cbn in *; lia).
    destruct ((s =? 0) || _) eqn:E1.
    { apply orb_true_iff in E1 as [?|?]; breflect; lia. }
    destruct (l && _) eqn:E2; breflect; [lia|].
    repeat (case_match; breflect; try lia). eauto.
Qed.
End encode_parse.

(** ** Splitting *)
Definition as_record (p : TunnelFragment * option DeliveryInstruction) : FragmentDelivery :=
  mkRecord p.2 p.1.

(** The records of the fragments of a message cut into [bodies]. *)
Definition records_of (id : Z) (d : DeliveryInstruction) (bodies : list bytes)
    : list FragmentDelivery :=
  (λ i, as_record (fragment_at id d bodies i)) <$> seqZ 0 (zlen bodies).

Section splitting.
Context (id : Z) (d : DeliveryInstruction).

Fixpoint follows (sequence : Z) (bodies : list bytes) : list FragmentDelivery :=
  match bodies with
  | [] => []
  | b :: bodies' =>
      mkRecord None (FollowOn id (sequence + 1) (zlen bodies' =? 0) b)
        :: follows (sequence + 1) bodies'
  end.

Lemma follows_records pre bodies :
  0 < zlen pre →
  follows (zlen pre - 1) bodies =
  (λ i, as_record (fragment_at id d (pre ++ bodies) i)) <$> seqZ (zlen pre) (zlen bodies).
Proof.
  revert pre. induction bodies as [|b bodies IH]; intros pre Hpre; [done|].
  pose proof (zlen_nonneg bodies).
  rewrite seqZ_cons by (rewrite zlen_cons; lia). cbn [fmap list_fmap follows]. f_equal.
  - unfold fragment_at, as_record.
    replace (zlen pre - 1 + 1) with (zlen pre) by lia.
    destruct (zlen pre =? 0) eqn:E; breflect; [lia|]. cbn [fst snd].
    replace (Z.to_nat (zlen pre)) with (length pre) by (unfold zlen; lia).
    rewrite list_lookup_middle by done. cbn [default from_option]. f_equal.
    rewrite zlen_app, zlen_cons. f_equal.
    apply eq_bool_prop_intro. rewrite !Is_true_true, !Z.eqb_eq. lia.
  - specialize (IH (pre ++ [b])). rewrite zlen_app, <- app_assoc in IH.
    change (zlen [b]) with 1 in IH.
    replace (zlen pre - 1 + 1) with (zlen pre + 1 - 1) by lia.
    rewrite IH by lia. rewrite zlen_cons.
    replace (Z.succ (zlen pre)) with (zlen pre + 1) by lia.
    by replace (Z.pred (1 + zlen bodies)) with (zlen bodies) by lia.
Qed.

(** The follow-on loop cuts what is left into at most [63 - sequence] bodies
    within the budget, and loses nothing. *)
Lemma follow_on_records_spec fuel sequence budget rest :
  0 < budget → 0 ≤ sequence ≤ 63 → (Z.to_nat (63 - sequence) < fuel)%nat →
  zlen rest ≤ (63 - sequence) * budget →
  ∃ bodies,
    follow_on_records fuel id sequence budget rest = Ok (follows sequence bodies) ∧
    concat bodies = rest ∧ Forall (λ b, 0 < zlen b ≤ budget) bodies ∧
    zlen bodies ≤ 63 - sequence ∧ (0 < zlen rest → 0 < zlen bodies).
Proof.
  intros Hb. revert sequence rest.
  induction fuel as [|fuel IH]; intros sequence rest Hs Hfuel Hlen; [lia|].
  cbn [follow_on_records]. pose proof (zlen_nonneg rest) as Hr.
  destruct (zlen rest =? 0) eqn:E0; breflect.
  { exists []. apply zlen_0_nil in E0 as ->. split_and!; [done|done|done| |done].
    change (zlen []) with 0. lia. }
  assert (Hs63 : sequence < 63) by nia.
  unfold checked_add. destruct (_ <=? u8_max) eqn:E1; [|unfold u8_max in *; breflect; lia].
  unfold MAX_FRAGMENT_COUNT. destruct (_ >? _) eqn:E2; breflect; [lia|].
  set (stop := Z.min budget (zlen rest)).
  assert (Hstop : 0 < stop ≤ budget ∧ stop ≤ zlen rest) by lia.
  pose proof (slice_length stop (zlen rest) rest) as Htl.
  pose proof (slice_length 0 stop rest) as Hhl.
  destruct (IH (sequence + 1) (slice stop (zlen rest) rest)) as (bodies & -> & Hcat & Hall & Hn & Hne).
  { lia. } { lia. }
  { rewrite Htl by lia. unfold stop. destruct (Z.min_spec budget (zlen rest)) as [[? ->]|[? ->]]; nia. }
  exists (slice 0 stop rest :: bodies). cbn [mbind result_bind follows concat].
  rewrite Hcat, slice_slice, slice_full by lia. split_and!.
  - do 4 f_equal. apply eq_bool_prop_intro. rewrite !Is_true_true, !Z.eqb_eq.
    rewrite Htl in Hne by lia. split; intros Hz.
    + assert (Hc : zlen (concat bodies) = 0) by (rewrite Hcat, Htl by lia; lia).
      destruct bodies as [|b bodies]; [done|]. apply Forall_cons in Hall as [Hb' _].
      cbn [concat] in Hc. rewrite zlen_app in Hc. pose proof (zlen_nonneg (concat bodies)). lia.
    + lia.
  - done.
  - constructor; [|done]. rewrite Hhl by lia. lia.
  - rewrite zlen_cons. lia.
  - intros _. rewrite zlen_cons. pose proof (zlen_nonneg bodies). lia.
Qed.
End splitting.

(** [fragment_complete_message] on a message too long for one record. *)
Lemma fragment_message_split d id msg :
  delivery_ok d → id ≠ 0 → zlen msg ≤ MAX_TUNNEL_MESSAGE_PAYLOAD_BYTES →
  cell_body_budget < zlen msg + unfragmented_overhead d →
  ∃ bodies,
    fragment_complete_message d id msg = Ok (records_of id d bodies) ∧
    concat bodies = msg ∧ 2 ≤ zlen bodies ≤ MAX_FRAGMENT_COUNT ∧
    (∀ i b, bodies !! i = Some b → 0 < zlen b ∧
       zlen b ≤ cell_body_budget - (if decide (i = O) then fragmented_first_overhead d
                                    else FOLLOW_ON_OVERHEAD)).
Proof.
  intros Hd Hid Hmax Hbig. unfold fragment_complete_message.
  assert (Hov : 3 ≤ unfragmented_overhead d ≤ 39) by (destruct d; cbn; lia).
  pose proof (first_overhead d) as Hfo. revert Hmax Hbig.
  unfold cell_body_budget, MAX_PLAINTEXT_DATA_BYTES, CHECKSUM_LEN,
    MAX_TUNNEL_MESSAGE_PAYLOAD_BYTES, FOLLOW_ON_OVERHEAD, MAX_FRAGMENT_COUNT. intros Hmax Hbig.
  assert (validate_delivery d = Ok ()) as ->.
  { destruct d; cbn; try done. destruct Hd as (_ & ? & _).
    destruct (_ =? 0) eqn:E; [breflect; done|done]. }
  cbn [mbind result_bind].
  destruct (zlen msg =? 0) eqn:E0; breflect; [lia|].
  destruct (zlen msg >? _) eqn:E1; breflect; [lia|].
  destruct (id =? 0) eqn:E2; breflect; [lia|].
  destruct (_ <=? _) eqn:E3; breflect; [lia|]. clear E0 E1 E2 E3.
  unfold saturating_sub. rewrite Hfo.
  destruct (Z.max _ _ =? 0) eqn:E4; breflect; [lia|].
  set (first_len := Z.min _ (zlen msg)).
  assert (Hfl : 0 < first_len < zlen msg ∧ first_len = 999 - unfragmented_overhead d) by lia.
  clearbody first_len.
  destruct (follow_on_records_spec id 64 0 996 (slice first_len (zlen msg) msg))
    as (bodies & Hrec & Hcat & Hall & Hn & Hne); [lia..| |].
  { rewrite slice_length by lia. lia. }
  replace (Z.max 0 (1008 - 4 - 1 - (1 + 4 + 2))) with 996 by lia.
  rewrite Hrec. cbn [mbind result_bind].
  rewrite slice_length in Hne by lia.
  exists (slice 0 first_len msg :: bodies). split_and!.
  - f_equal. unfold records_of. rewrite seqZ_cons by (rewrite zlen_cons; lia).
    cbn [fmap list_fmap]. f_equal.
    pose proof (follows_records id d [slice 0 first_len msg] bodies ltac:(done)) as Hfr.
    change (zlen [_]) with 1 in Hfr. rewrite zlen_cons.
    replace (Z.pred (1 + zlen bodies)) with (zlen bodies) by lia. exact Hfr.
  - cbn [concat]. rewrite Hcat, slice_slice, slice_full by lia. done.
  - rewrite zlen_cons. lia.
  - rewrite zlen_cons. lia.
  - intros [|i] b Hb; cbn in Hb.
    + injection Hb as <-. rewrite slice_length by lia. rewrite decide_True by done. lia.
    + rewrite decide_False by done. rewrite Forall_lookup in Hall. apply Hall in Hb. lia.
Qed.

(** Every record of a split message is well formed and fits one cell. *)
Lemma records_of_fit d id bodies :
  delivery_ok d → fits 32 id → id ≠ 0 → zlen bodies ≤ MAX_FRAGMENT_COUNT →
  (∀ i b, bodies !! i = Some b → 0 < zlen b ∧
     zlen b ≤ cell_body_budget - (if decide (i = O) then fragmented_first_overhead d
                                  else FOLLOW_ON_OVERHEAD)) →
  Forall (λ rec, record_ok rec ∧
    ∃ w, encode_record rec = Ok w ∧ zlen w ≤ cell_body_budget) (records_of id d bodies).
Proof.
  intros Hd Hid Hid0 Hn Hall. unfold records_of. apply Forall_fmap, Forall_forall.
  intros i Hi%elem_of_seqZ. cbn [compose].
  destruct (lookup_lt_is_Some_2 bodies (Z.to_nat i)) as [b Hb]; [unfold zlen in *; lia|].
  destruct (Hall _ _ Hb) as [Hpos Hle].
  assert (Hov : 7 ≤ fragmented_first_overhead d) by (destruct d; cbn; lia).
  assert (Hok : record_ok (as_record (fragment_at id d bodies i))).
  { unfold fragment_at. rewrite Hb. change (default [] (Some b)) with b.
    destruct (i =? 0) eqn:E; breflect; cbn; [done|].
    unfold MAX_FRAGMENT_COUNT in Hn. split_and!; [done|done|lia..]. }
  split; [done|].
  destruct (encode_record_total _ Hok) as [w Hw].
  { unfold fragment_at. rewrite Hb. change (default [] (Some b)) with b. revert Hle.
    unfold cell_body_budget, MAX_PLAINTEXT_DATA_BYTES, CHECKSUM_LEN, FOLLOW_ON_OVERHEAD, u16_max.
    destruct (i =? 0); cbn; case_decide; lia. }
  exists w. split; [done|]. rewrite (encode_record_len _ _ Hok Hw). revert Hle.
  unfold fragment_at. rewrite Hb. change (default [] (Some b)) with b.
  destruct (i =? 0) eqn:E; breflect; cbn [as_record body_len record_fragment record_delivery fst snd].
  - subst. rewrite decide_True by done. lia.
  - rewrite decide_False by lia. lia.
Qed.

(** ** What the parser accepts *)
Section canonical.
Lemma delivery_control_spec c k :
  fits 8 c → Z.land c 0x80 = 0 → parse_first_control c = Ok k →
  ∀ d, first_kind d = k →
  c = if negb (Z.land c 0x08 =? 0) then Z.lor (delivery_control d) 0x08
      else delivery_control d.
Proof.
  intros Hc H80 Hk d Hd.
  set (ctl := match k with FirstLocal => 0 | FirstTunnel => 0x20 | FirstRouter => 0x40 end).
  assert (delivery_control d = ctl) as -> by (subst; by destruct d).
  assert (Hall : forallb (λ c, negb (Z.land c 0x80 =? 0) ||
    match parse_first_control c with
    | Ok k =>
      let ctl := match k with FirstLocal => 0 | FirstTunnel => 0x20 | FirstRouter => 0x40 end in
      c =? if negb (Z.land c 0x08 =? 0) then Z.lor ctl 0x08 else ctl
    | Err _ => true
    end) (seqZ 0 256) = true) by (vm_compute; reflexivity).
  rewrite forallb_forall in Hall. specialize (Hall c).
  assert (Hin : In c (seqZ 0 256)) by (apply list_elem_of_In, elem_of_seqZ; unfold fits in Hc; lia).
  specialize (Hall Hin). rewrite H80, Hk in Hall. cbn in Hall. by breflect.
Qed.

Lemma follow_control_canonical c :
  fits 8 c → Z.land c 0x80 ≠ 0 →
  follow_control (Z.shiftr (Z.land c 0x7E) 1) (negb (Z.land c 0x01 =? 0)) = c.
Proof.
  intros Hc H80.
  assert (Hall : forallb (λ c, (Z.land c 0x80 =? 0) ||
    (follow_control (Z.shiftr (Z.land c 0x7E) 1) (negb (Z.land c 0x01 =? 0)) =? c))
    (seqZ 0 256) = true) by (vm_compute; reflexivity).
  rewrite forallb_forall in Hall. specialize (Hall c).
  assert (Hin : In c (seqZ 0 256)) by (apply list_elem_of_In, elem_of_seqZ; unfold fits in Hc; lia).
  specialize (Hall Hin). apply orb_true_iff in Hall as [?|?]; by breflect.
Qed.

(** A big-endian field of a byte string is its encoding. *)
Lemma field_canonical (n : nat) a b l :
  bytes_ok l → 0 ≤ a → b = a + Z.of_nat n → b ≤ zlen l →
  to_be n (from_be (slice a b l)) = slice a b l ∧ 0 ≤ from_be (slice a b l) < 256 ^ Z.of_nat n.
Proof.
  intros Hl Ha Hb Hle.
  assert (Hlen : zlen (slice a b l) = Z.of_nat n) by (rewrite slice_length by lia; lia).
  assert (Hok : bytes_ok (slice a b l)) by by apply Forall_slice.
  split.
  - rewrite <- (to_from_be (slice a b l)) at 2 by done. f_equal. unfold zlen in Hlen. lia.
  - rewrite <- Hlen. by apply from_be_bound.
Qed.

(** The bytes after a parsed header are the length field, the body and the
    rest. *)
Lemma body_canonical a b c l :
  bytes_ok l → 0 ≤ a → b = a + 2 → c = b + from_be (slice a b l) → c ≤ zlen l → b ≤ zlen l →
  skipn (Z.to_nat a) l =
    to_be 2 (from_be (slice a b l)) ++ slice b c l ++ skipn (Z.to_nat c) l ∧
  fits 16 (from_be (slice a b l)) ∧
  zlen (slice b c l) = from_be (slice a b l) ∧ (Z.to_nat c ≤ length l)%nat.
Proof.
  intros Hl Ha Hb Hc Hcl Hbl.
  destruct (field_canonical 2 a b l) as [Heq Hbnd]; [done|lia..|].
  rewrite Heq. split_and!.
  - rewrite app_assoc, slice_slice by lia.
    pose proof (slice_split a c l ltac:(lia) ltac:(lia)) as Hs.
    rewrite Hs at 1. apply skipn_app_eq. unfold zlen in *. rewrite length_take. lia.
  - unfold fits. cbn in Hbnd. lia.
  - rewrite slice_length by lia. lia.
  - unfold zlen in Hcl. lia.
Qed.

Lemma fragment_length_fits body : fits 16 (zlen body) → fragment_length body = Ok (zlen body).
Proof.
  intros Hf. unfold fragment_length, try_from, fits, u16_max in *.
  destruct (_ <=? _) eqn:E; breflect; [done|lia].
Qed.

Lemma parse_delivery_canonical k c l n d :
  bytes_ok (c :: l) → parse_delivery k (c :: l) = Ok (n, d) →
  first_kind d = k ∧ delivery_ok d ∧ 0 ≤ n ∧
  c :: l = (c :: append_delivery_extra d) ++ skipn (Z.to_nat (1 + n)) (c :: l).
Proof.
  intros Hok. unfold parse_delivery. destruct k.
  - intros [= <- <-]. done.
  - destruct (_ <? _) eqn:E; breflect; [done|].
    destruct (_ =? 0) eqn:E0; breflect; [done|].
    destruct (field_canonical 4 1 5 (c :: l)) as [Heq Hbnd]; [done|lia..|].
    set (tid := from_be _) in *. set (gw := slice 5 _ _). intros [= <- <-].
    split_and!; [done| |done|].
    + split_and!; [exact Hbnd|done|]. unfold gw. rewrite slice_length by lia. lia.
    + cbn [append_delivery_extra]. rewrite Heq. unfold gw.
      rewrite slice_slice by lia. change (c :: slice 1 (5 + 32) (c :: l))
        with (firstn (Z.to_nat 1) (c :: l) ++ slice 1 (5 + 32) (c :: l)).
      rewrite <- app_assoc. apply slice_split; lia.
  - destruct (_ <? _) eqn:E; breflect; [done|].
    set (rt := slice 1 _ _). intros [= <- <-]. split_and!; [done| |done|].
    + cbn. unfold rt. rewrite slice_length by lia. lia.
    + cbn [append_delivery_extra]. unfold rt.
      change (c :: slice 1 (1 + 32) (c :: l))
        with (firstn (Z.to_nat 1) (c :: l) ++ slice 1 (1 + 32) (c :: l)).
      rewrite <- app_assoc. apply slice_split; lia.
Qed.

(** The parser accepts a first or unfragmented record only in the encoding the
    encoder gives it. *)
Lemma parse_first_canonical c l o m rec rest o' m' :
  bytes_ok (c :: l) → Z.land c 0x80 = 0 →
  parse_record (c :: l) o m = Ok (rec, rest, o', m') →
  record_ok rec ∧ (length rest < length (c :: l))%nat ∧
  ∃ w, encode_record rec = Ok w ∧ c :: l = w ++ rest.
Proof.
  intros Hok E80. unfold parse_record. cbn [hd].
  pose proof Hok as [Hc Hokl]%Forall_cons.
  rewrite E80. change (0 =? 0) with true. cbv iota.
  destruct o; [done|].
  destruct (parse_first_control c) as [k|] eqn:Ek; [|done]. cbn [mbind result_bind].
  destruct (parse_delivery k (c :: l)) as [[n d]|] eqn:Ed; [|done]. cbn [mbind result_bind].
  apply parse_delivery_canonical in Ed as (Hk & Hd & Hn & Hsplit); [|done].
  pose proof (delivery_control_spec c k Hc E80 Ek d Hk) as Hctl.
  set (r := skipn _ _) in *. clearbody r.
  assert (Hokr : bytes_ok r) by (rewrite Hsplit in Hok; by apply Forall_app in Hok as [_ ?]).
  assert (Hlt : (length r < length (c :: l))%nat) by (rewrite Hsplit, length_app; cbn; lia).
  rewrite Hsplit in Hlt |- *. clear Hsplit Hok Hokl l.
  destruct (negb _) eqn:E08.
  - repeat (step_match; try done); breflect. intros [= <- <- <- <-].
    destruct (field_canonical 4 0 4 r) as [Hid Hidb]; [done|lia..|].
    destruct (body_canonical 4 6 (6 + from_be (slice 4 6 r)) r) as (Hb & Hf & Hl & Hle);
      [done|lia..|].
    pose proof (slice_split 0 4 r ltac:(lia) ltac:(lia)) as Hs4.
    split_and!.
    + cbn. split_and!; [done|exact Hidb|done|]. unfold fits in Hf. lia.
    + rewrite length_drop. lia.
    + cbn [encode_record record_fragment record_delivery].
      rewrite fragment_length_fits by (by rewrite Hl). cbn [mbind result_bind].
      eexists; split; [done|]. rewrite Hid, Hl, Hctl at 1. cbn [app]. f_equal.
      rewrite <- !app_assoc. f_equal. rewrite Hs4 at 1.
      change (firstn (Z.to_nat 0) r) with (@nil Z). cbn [app]. f_equal.
      exact Hb.
  - repeat (step_match; try done); breflect. intros [= <- <- <- <-].
    destruct (body_canonical 0 2 (2 + from_be (slice 0 2 r)) r) as (Hb & Hf & Hl & Hle);
      [done|lia..|].
    split_and!.
    + cbn. split_and!; [done|]. unfold fits in Hf. lia.
    + rewrite length_drop. lia.
    + cbn [encode_record record_fragment record_delivery].
      rewrite fragment_length_fits by (by rewrite Hl). cbn [mbind result_bind].
      eexists; split; [done|]. rewrite Hl, Hctl at 1. cbn [app]. f_equal.
      rewrite <- !app_assoc. f_equal. exact Hb.
Qed.

(** The same for a follow-on record. *)
Lemma parse_follow_canonical c l o m rec rest o' m' :
  bytes_ok (c :: l) → Z.land c 0x80 ≠ 0 →
  parse_record (c :: l) o m = Ok (rec, rest, o', m') →
  record_ok rec ∧ (length rest < length (c :: l))%nat ∧
  ∃ w, encode_record rec = Ok w ∧ c :: l = w ++ rest.
Proof.
  intros Hok E80. unfold parse_record. cbn [hd].
  pose proof Hok as [Hc Hokl]%Forall_cons.
  destruct (Z.land c 0x80 =? 0) eqn:E; [breflect; done|clear E].
  repeat (step_match; try done). breflect. intros [= <- <- <- <-].
  destruct (field_canonical 4 1 5 (c :: l)) as [Hid Hidb]; [done|lia..|].
  destruct (body_canonical 5 7 (7 + from_be (slice 5 7 (c :: l))) (c :: l))
    as (Hb & Hf & Hl & Hle); [done|lia..|].
  pose proof (slice_split 1 5 (c :: l) ltac:(lia) ltac:(lia)) as Hs5.
  set (tl := skipn (Z.to_nat (7 + _)) _) in *.
  split_and!.
  - cbn [record_ok record_fragment record_delivery]. unfold fits in Hf.
    split_and!; [exact Hidb|done| |lia|lia].
    + pose proof (Z.shiftr_nonneg (Z.land c 126) 1).
      pose proof (Z.land_nonneg c 126). lia.
  - unfold tl. rewrite length_drop. unfold fits in Hf. lia.
  - cbn [encode_record record_fragment record_delivery].
    rewrite fragment_length_fits by (by rewrite Hl). cbn [mbind result_bind].
    eexists; split; [done|]. rewrite Hid, Hl. fold (follow_control (Z.shiftr (Z.land c 126) 1) (negb (Z.land c 1 =? 0))).
    rewrite follow_control_canonical by done. rewrite Hs5 at 1. cbn [firstn app].
    change (firstn (Z.to_nat 1) (c :: l)) with [c]. cbn [app]. f_equal. rewrite <- !app_assoc. f_equal. exact Hb.
Qed.

Lemma parse_record_canonical l o m rec rest o' m' :
  bytes_ok l → l ≠ [] → parse_record l o m = Ok (rec, rest, o', m') →
  record_ok rec ∧ (length rest < length l)%nat ∧
  ∃ w, encode_record rec = Ok w ∧ l = w ++ rest.
Proof.
  destruct l as [|c l]; [done|]. intros Hok _ H. destruct (decide (Z.land c 0x80 = 0)).
  - by eapply parse_first_canonical.
  - by eapply parse_follow_canonical.
Qed.
End canonical.

(** The fuel of the record loop is never used up. *)
Lemma parse_records_spec fuel l o m :
  bytes_ok l → (length l ≤ fuel)%nat →
  ∃ r, parse_records fuel l o m = Some r ∧
    ∀ recs, r = Ok recs →
      ∃ ws, Forall2 (λ rec w, record_ok rec ∧ encode_record rec = Ok w) recs ws ∧
            l = concat ws.
Proof.
  revert l o m. induction fuel as [|fuel IH]; intros l o m Hok Hle.
  { destruct l; cbn in *; [|lia]. eexists; split; [done|]. intros recs <-%Ok_inj.
    by exists []. }
  destruct l as [|c l].
  { eexists; split; [done|]. intros recs <-%Ok_inj. by exists []. }
  cbn [parse_records].
  destruct (parse_record (c :: l) o m) as [[[[rec rest] o'] m']|e] eqn:E.
  2: { eexists; split; [done|]. discriminate. }
  apply parse_record_canonical in E as (Hrec & Hlt & w & Hw & Heq); [|done..].
  destruct (IH rest o' m') as (r & -> & Hr).
  { rewrite Heq in Hok. by apply Forall_app in Hok as [_ ?]. }
  { lia. }
  destruct r as [recs|e]; eexists; (split; [done|]); [|discriminate].
  intros recs' <-%Ok_inj. destruct (Hr recs eq_refl) as (ws & Hall & ->).
  exists (w :: ws). split; [by constructor|done].
Qed.

(** ** The delimiter and the checksum *)
Section delimiter.
Lemma find_zero_spec pad body i :
  Forall (λ b, b ≠ 0) pad → find_zero (pad ++ 0 :: body) i = Some (i + zlen pad, body).
Proof.
  revert i. induction pad as [|b pad IH]; intros i Hall; cbn [find_zero app].
  - change (0 =? 0) with true. change (zlen []) with 0. cbv iota. do 2 f_equal. lia.
  - apply Forall_cons in Hall as [Hb Hall].
    destruct (b =? 0) eqn:E; breflect; [done|].
    rewrite IH, zlen_cons, Z.add_assoc by done. done.
Qed.

Lemma find_zero_inv l i j body :
  find_zero l i = Some (j, body) →
  ∃ pad, l = pad ++ 0 :: body ∧ Forall (λ b, b ≠ 0) pad ∧ j = i + zlen pad.
Proof.
  revert i. induction l as [|b l IH]; intros i; cbn [find_zero]; [done|].
  destruct (b =? 0) eqn:E; breflect.
  - intros [= <- <-]. subst. exists []. split_and!; [done|done|]. rewrite zlen_nil. lia.
  - intros (pad & -> & Hall & ->)%IH. exists (b :: pad).
    split_and!; [done|by constructor|]. rewrite zlen_cons. lia.
Qed.

Lemma fold_diff l acc :
  fold_left (λ diff p, Z.lor diff (Z.lxor p.1 p.2)) l acc = 0 →
  acc = 0 ∧ Forall (λ p : Z * Z, p.1 = p.2) l.
Proof.
  revert acc. induction l as [|p l IH]; intros acc; cbn [fold_left]; [done|].
  intros [[-> Hp]%Z.lor_eq_0_iff Hl]%IH. split; [done|].
  constructor; [by apply Z.lxor_eq|done].
Qed.

(** The branch-free comparison finds exactly the equal checksums. *)
Lemma checksum_diff_spec l r :
  length l = length r → checksum_diff l r = 0 ↔ l = r.
Proof.
  intros Hlen. split.
  - unfold checksum_diff. intros [_ Hall]%fold_diff. revert r Hlen Hall.
    induction l as [|a l IH]; intros [|b r] Hlen Hall; try done.
    cbn in Hall. apply Forall_cons in Hall as [Hab Hall]. cbn in Hab. subst. f_equal.
    apply IH; [by injection Hlen|done].
  - intros <-. clear Hlen. unfold checksum_diff. induction l as [|a l IH]; [done|].
    cbn [zip zip_with fold_left fst snd]. by rewrite Z.lxor_nilpotent.
Qed.
End delimiter.

(** ** Cells: what packing and parsing promise *)
Section cell_theorems.
Context (sha256 : bytes → bytes).
Context (Rng : Type) (try_fill_bytes : Rng → Z → Rng * option bytes).
(** SHA-256 has a 32-byte output, and [try_fill_bytes] fills the buffer it is
    given. *)
Hypothesis sha256_len : ∀ m, zlen (sha256 m) = 32.
Hypothesis fill_len : ∀ rng n rng' buf,
  0 ≤ n → try_fill_bytes rng n = (rng', Some buf) → zlen buf = n.

Abbreviation parse := (parse sha256).
Abbreviation pack := (pack_payload_internal sha256 Rng try_fill_bytes).

Definition rng_failure (e : TunnelMessageError) : Prop :=
  e = RandomnessUnavailable ∨ ∃ n, e = PaddingRetryExhausted n.

Lemma digest_prefix m : zlen (slice 0 CHECKSUM_LEN (sha256 m)) = 4.
Proof. rewrite slice_length; rewrite ?sha256_len; done. Qed.

Lemma resample_spec left slot attempts max_total rng :
  match (resample Rng try_fill_bytes left slot attempts max_total rng).2 with
  | Ok (slot', _) => slot' ≠ 0
  | Err e => rng_failure e
  end.
Proof.
  revert slot attempts rng. induction left as [|left IH]; intros slot attempts rng;
    cbn [resample]; destruct (slot =? 0) eqn:E; breflect; cbn [negb].
  - right. by eexists.
  - done.
  - destruct (attempts >=? max_total); [right; by eexists|]. destruct (try_fill_bytes rng 1) as [rng' [byte|]].
    + apply IH.
    + by left.
  - done.
Qed.

Lemma fill_slots_spec buf attempts max_total rng :
  match (fill_slots Rng try_fill_bytes buf attempts max_total rng).2 with
  | Ok buf' => zlen buf' = zlen buf ∧ Forall (λ b, b ≠ 0) buf'
  | Err e => rng_failure e
  end.
Proof.
  revert attempts rng. induction buf as [|slot buf IH]; intros attempts rng; [done|].
  cbn [fill_slots]. unfold mbind, M_bind.
  pose proof (resample_spec MAX_PADDING_RETRY_PER_BYTE slot attempts max_total rng) as Hs.
  destruct (resample _ _ _ _ _ _ _) as [rng' [[slot' attempts']|e]]; cbn in *; [|done].
  specialize (IH attempts' rng').
  destruct (fill_slots _ _ buf _ _ _) as [rng'' [rest|e]]; cbn in *; [|done].
  destruct IH as [Hlen Hall]. rewrite !zlen_cons, Hlen. split; [done|by constructor].
Qed.

(** Padding has the length asked for and no zero byte. *)
Lemma fill_nonzero_spec len rng :
  0 ≤ len →
  match (fill_nonzero Rng try_fill_bytes len rng).2 with
  | Ok pad => zlen pad = len ∧ Forall (λ b, b ≠ 0) pad
  | Err e => rng_failure e
  end.
Proof.
  intros Hlen. unfold fill_nonzero. destruct (len =? 0) eqn:E; breflect; [by subst|].
  destruct (try_fill_bytes rng len) as [rng' [buf|]] eqn:Eb; [|by left].
  apply fill_len in Eb; [|done].
  pose proof (fill_slots_spec buf 0 (Z.of_nat MAX_PADDING_RETRY_PER_BYTE * len) rng').
  by rewrite Eb in *.
Qed.

(** Parsing the layout a packed payload has. *)
Lemma parse_layout iv pad body :
  Forall (λ b, b ≠ 0) pad →
  parse iv (slice 0 CHECKSUM_LEN (sha256 (body ++ iv)) ++ pad ++ [0] ++ body) =
  default (Err DelimiterMissing) (parse_records (length body) body false 0).
Proof.
  intros Hpad. unfold TunnelData.parse, locate_delimiter.
  rewrite (skipn_app_eq CHECKSUM_LEN) by apply digest_prefix.
  rewrite (find_zero_spec pad body) by done. cbn [ok_or mbind result_bind].
  rewrite slice_app_start by by rewrite digest_prefix.
  unfold verify_checksum. rewrite digest_prefix. change (negb (4 =? CHECKSUM_LEN)) with false.
  cbv iota. replace (checksum_diff _ _) with 0 by (symmetry; by apply checksum_diff_spec).
  cbn [Z.eqb negb mbind result_bind].
  set (r := skipn _ _). assert (r = body) as ->; [|done]. subst r.
  rewrite 2!app_assoc. apply skipn_app_eq.
  rewrite !zlen_app, digest_prefix. done.
Qed.

Lemma parse_single rec w iv pad :
  record_ok rec → encode_record rec = Ok w → Forall (λ b, b ≠ 0) pad →
  parse iv (slice 0 CHECKSUM_LEN (sha256 (w ++ iv)) ++ pad ++ [0] ++ w) = Ok [rec].
Proof.
  intros Hok Hw Hpad. rewrite parse_layout by done.
  destruct (parse_record_encoded rec w [] 0 Hok Hw) as (o' & m' & Hp).
  { destruct rec as [[d|] [body|id body|id s l body]]; cbn in *; try done; lia. }
  rewrite app_nil_r in Hp. destruct w as [|c w].
  { pose proof (encode_record_len _ _ Hok Hw) as Hl. revert Hl Hok. unfold FOLLOW_ON_OVERHEAD.
    destruct rec as [[[]|] [body|id body|id s l body]]; cbn; change (zlen []) with 0;
      pose proof (zlen_nonneg body); intros; try done; lia. }
  cbn [length parse_records]. rewrite Hp. by destruct (length w).
Qed.

(** What packing one record gives: a full-size payload that parses back to the
    record, or a failure of the random generator. *)
Lemma pack_spec rec w iv rng :
  record_ok rec → encode_record rec = Ok w → zlen w ≤ cell_body_budget →
  match (pack rec iv rng).2 with
  | Ok payload => zlen payload = MAX_PLAINTEXT_DATA_BYTES ∧ parse iv payload = Ok [rec]
  | Err e => rng_failure e
  end.
Proof.
  intros Hok Hw Hfit. unfold pack_payload_internal, cell_body_budget, lift in *.
  unfold mbind, M_bind. rewrite Hw.
  destruct (_ >? _) eqn:E; breflect; [lia|].
  pose proof (fill_nonzero_spec
    (MAX_PLAINTEXT_DATA_BYTES - CHECKSUM_LEN - 1 - zlen w) rng ltac:(lia)) as Hp.
  destruct (fill_nonzero _ _ _ _) as [rng' [pad|e]]; cbn [snd] in *; [|done].
  destruct Hp as [Hlen Hpad]. cbn. split.
  - rewrite !zlen_app, digest_prefix, Hlen, zlen_cons. unfold MAX_PLAINTEXT_DATA_BYTES, CHECKSUM_LEN. lia.
  - by apply parse_single.
Qed.

(** The inverse: what an accepted payload looks like. *)
Lemma parse_accepts iv plaintext recs :
  bytes_ok plaintext → zlen plaintext = MAX_PLAINTEXT_DATA_BYTES →
  parse iv plaintext = Ok recs →
  ∃ pad ws,
    Forall (λ b, b ≠ 0) pad ∧
    Forall2 (λ rec w, record_ok rec ∧ encode_record rec = Ok w) recs ws ∧
    plaintext = slice 0 CHECKSUM_LEN (sha256 (concat ws ++ iv)) ++ pad ++ [0] ++ concat ws.
Proof.
  intros Hok Hlen. unfold TunnelData.parse, locate_delimiter.
  destruct (find_zero _ _) as [[j body]|] eqn:Ez; [|done]. cbn [ok_or mbind result_bind].
  apply find_zero_inv in Ez as (pad & Hsplit & Hpad & ->).
  assert (Hck : zlen (slice 0 CHECKSUM_LEN plaintext) = 4).
  { rewrite slice_length; rewrite ?Hlen; done. }
  pose proof (slice_split 0 CHECKSUM_LEN plaintext ltac:(done) ltac:(by rewrite Hlen)) as Hp.
  change (firstn (Z.to_nat 0) plaintext) with (@nil Z) in Hp. cbn [app] in Hp.
  rewrite Hsplit in Hp. set (ck := slice 0 _ plaintext) in *. clearbody ck.
  unfold verify_checksum. rewrite Hck. change (negb (4 =? CHECKSUM_LEN)) with false. cbv iota.
  destruct (_ =? 0) eqn:E; cbn [negb mbind result_bind]; breflect; [|done].
  apply checksum_diff_spec in E as ->.
  2: { pose proof (digest_prefix (body ++ iv)). unfold zlen in *. lia. }
  replace (skipn _ plaintext) with body.
  2: { rewrite Hp. rewrite (app_assoc pad [0] body : pad ++ 0 :: body = _), app_assoc.
       symmetry. apply skipn_app_eq. rewrite !zlen_app, digest_prefix.
       change (zlen [0]) with 1. unfold CHECKSUM_LEN. lia. }
  destruct (parse_records_spec (length body) body false 0) as (r & -> & Hr).
  { rewrite Hp in Hok. apply Forall_app in Hok as [_ Hok]. apply Forall_app in Hok as [_ Hok].
    by apply Forall_cons in Hok as [_ ?]. }
  { done. }
  change (default (Err DelimiterMissing) (Some r)) with r. intros ->.
  destruct (Hr recs eq_refl) as (ws & Hall & ->).
  by exists pad, ws.
Qed.

(** A generator that fills every buffer, without zero bytes. *)
Definition rng_reliable : Prop := ∀ rng n, 0 ≤ n →
  ∃ rng' buf, try_fill_bytes rng n = (rng', Some buf) ∧ Forall (λ b, b ≠ 0) buf.

Lemma fill_slots_nonzero buf attempts max_total rng :
  Forall (λ b, b ≠ 0) buf →
  fill_slots Rng try_fill_bytes buf attempts max_total rng = (rng, Ok buf).
Proof.
  revert attempts. induction buf as [|slot buf IH]; intros attempts Hall; [done|].
  apply Forall_cons in Hall as [Hs Hall]. cbn [fill_slots]. unfold mbind, M_bind.
  unfold MAX_PADDING_RETRY_PER_BYTE. cbn [resample].
  destruct (slot =? 0) eqn:E; breflect; [done|]. cbn [negb]. by rewrite IH.
Qed.

Lemma pack_reliable rec w iv rng :
  rng_reliable → encode_record rec = Ok w → zlen w ≤ cell_body_budget →
  is_ok (pack rec iv rng).2 = true.
Proof.
  intros Hrel Hw Hfit. unfold pack_payload_internal, cell_body_budget, lift in *.
  unfold mbind, M_bind. rewrite Hw.
  destruct (_ >? _) eqn:E; breflect; [lia|].
  unfold fill_nonzero. destruct (_ =? 0); [done|].
  destruct (Hrel rng (MAX_PLAINTEXT_DATA_BYTES - CHECKSUM_LEN - 1 - zlen w))
    as (rng' & buf & -> & Hbuf); [lia|].
  by rewrite fill_slots_nonzero.
Qed.

Definition record_fits (rec : FragmentDelivery) : Prop :=
  record_ok rec ∧ ∃ w, encode_record rec = Ok w ∧ zlen w ≤ cell_body_budget.

Lemma validate_delivery_ok d : delivery_ok d → validate_delivery d = Ok ().
Proof.
  destruct d; cbn; try done. intros (_ & Hne & _).
  destruct (_ =? 0) eqn:E; [breflect; done|done].
Qed.

Lemma record_delivery_valid rec :
  record_ok rec →
  match record_delivery rec with Some d => validate_delivery d | None => Ok () end = Ok ().
Proof.
  destruct rec as [[d|] [body|id body|id s l body]]; cbn; try done;
    intros [Hd _]; by apply validate_delivery_ok.
Qed.

Lemma build_each_spec recs rng :
  Forall record_fits recs →
  match (build_each sha256 Rng try_fill_bytes recs rng).2 with
  | Ok cells => Forall2 (λ cell rec, zlen cell.2 = MAX_PLAINTEXT_DATA_BYTES ∧
                          parse cell.1 cell.2 = Ok [rec]) cells recs
  | Err e => rng_failure e ∧ ¬ rng_reliable
  end.
Proof.
  revert rng. induction recs as [|rec recs IH]; intros rng Hall; [constructor|].
  apply Forall_cons in Hall as [(Hok & w & Hw & Hfit) Hall].
  cbn [build_each]. unfold mbind, M_bind, lift. rewrite record_delivery_valid by done.
  destruct (try_fill_bytes rng 16) as [rng1 [iv|]] eqn:Eiv.
  2: { split; [by left|]. intros Hrel.
       destruct (Hrel rng 16) as (? & ? & ? & _); [done|congruence]. }
  pose proof (pack_spec rec w iv rng1 Hok Hw Hfit) as Hp.
  pose proof (pack_reliable rec w iv rng1) as Hr.
  destruct (pack rec iv rng1) as [rng2 [payload|e]]; cbn [snd] in *.
  2: { split; [done|]. intros Hrel. by specialize (Hr Hrel Hw Hfit). }
  specialize (IH rng2 Hall).
  destruct (build_each _ _ _ recs rng2) as [rng3 [cells|e]]; cbn [snd mret M_ret] in *; [|done].
  by constructor.
Qed.

Lemma build_cells_spec recs rng :
  recs ≠ [] → zlen recs ≤ MAX_FRAGMENT_COUNT → Forall record_fits recs →
  match (build_cells sha256 Rng try_fill_bytes recs rng).2 with
  | Ok cells => Forall2 (λ cell rec, zlen cell.2 = MAX_PLAINTEXT_DATA_BYTES ∧
                          parse cell.1 cell.2 = Ok [rec]) cells recs
  | Err e => rng_failure e ∧ ¬ rng_reliable
  end.
Proof.
  intros Hne Hle Hall. unfold build_cells.
  destruct (zlen recs =? 0) eqn:E; breflect; [by apply zlen_0_nil in E|].
  destruct (_ >? _) eqn:E2; breflect; [lia|]. by apply build_each_spec.
Qed.

(** What a tunnel endpoint gives its reassembler for a received cell. *)
Definition cell_fragments (cell : bytes * bytes)
    : list (TunnelFragment * option DeliveryInstruction) :=
  match parse cell.1 cell.2 with
  | Ok recs => (λ rec, (record_fragment rec, record_delivery rec)) <$> recs
  | Err _ => []
  end.

Lemma received_fragments id d bodies cells l :
  Forall2 (λ cell rec, zlen cell.2 = MAX_PLAINTEXT_DATA_BYTES ∧
             parse cell.1 cell.2 = Ok [rec]) cells (records_of id d bodies) →
  Forall (λ i, 0 ≤ i < zlen bodies) l →
  concat ((λ i, cell_fragments (nth (Z.to_nat i) cells ([], []))) <$> l) =
  fragment_at id d bodies <$> l.
Proof.
  intros Hcells. induction l as [|i l IH]; intros Hl; [done|].
  apply Forall_cons in Hl as [Hi Hl]. cbn [fmap list_fmap concat].
  fold (fmap (M:=list) (λ i, cell_fragments (nth (Z.to_nat i) cells ([], [])))).
  rewrite IH by done.
  assert (Hrec : records_of id d bodies !! Z.to_nat i = Some (as_record (fragment_at id d bodies i))).
  { unfold records_of. rewrite list_lookup_fmap, lookup_seqZ_lt by lia.
    cbn. do 3 f_equal. lia. }
  destruct (Forall2_lookup_r _ _ _ _ _ Hcells Hrec) as (cell & Hcell & _ & Hparse).
  apply nth_lookup_Some with (d := ([], [])) in Hcell. rewrite Hcell.
  unfold cell_fragments. rewrite Hparse. cbn. by destruct (fragment_at id d bodies i).
Qed.
End cell_theorems.

(** ** Theorems *)

(** Splitting a message is total and lossless on everything it accepts.
    For a valid delivery instruction, a nonzero message id and a message of 1 to
    62,708 bytes, [fragment_complete_message] succeeds: a message that fits one
    cell becomes one unfragmented record, any other becomes 2 to 64 records, a
    first one and follow-on ones numbered from 1 with only the last flagged
    terminal, whose bodies concatenate to the message; every record is one the
    encoder accepts and the parser admits, and fits one cell. *)
Theorem fragment_complete_message_total d id msg
    (Hd : delivery_ok d) (Hid : fits 32 id) (Hid0 : id ≠ 0)
    (Hmsg : 0 < zlen msg ≤ MAX_TUNNEL_MESSAGE_PAYLOAD_BYTES) :
  ∃ recs,
    fragment_complete_message d id msg = Ok recs ∧ Forall record_fits recs ∧
    (if decide (zlen msg + unfragmented_overhead d ≤ cell_body_budget)
     then recs = [mkRecord (Some d) (Unfragmented msg)]
     else ∃ bodies, recs = records_of id d bodies ∧ concat bodies = msg ∧
            2 ≤ zlen bodies ≤ MAX_FRAGMENT_COUNT).
Proof.
  case_decide as Hfit.
  - exists [mkRecord (Some d) (Unfragmented msg)]. split_and!; [| |done].
    + unfold fragment_complete_message. rewrite validate_delivery_ok by done.
      cbn [mbind result_bind]. repeat (case_match; breflect; try lia). done.
    + constructor; [|done].
      assert (Hok : record_ok (mkRecord (Some d) (Unfragmented msg))) by (split; [done|apply Hmsg]).
      split; [done|]. destruct (encode_record_total _ Hok) as [w Hw].
      { cbn. unfold MAX_TUNNEL_MESSAGE_PAYLOAD_BYTES, u16_max in *. lia. }
      exists w. split; [done|]. rewrite (encode_record_len _ _ Hok Hw). cbn. lia.
  - destruct (fragment_message_split d id msg) as (bodies & Hrec & Hcat & Hn & Hall);
      [done|done|lia|lia|].
    exists (records_of id d bodies). split_and!; [done| |by exists bodies].
    apply records_of_fit; try done. lia.
Qed.

(** A packed cell parses back to its record.  Whatever the random
    generator does, packing a record that fits a cell either reports a failure
    of the generator (randomness unavailable, or too many zero padding bytes)
    or gives a payload of exactly 1008 bytes that [parse], under the same IV,
    accepts as that one record; with a generator that fills its buffers with
    nonzero bytes it succeeds. *)
Theorem pack_parse_roundtrip sha256 Rng try_fill_bytes rec iv rng
    (sha256_len : ∀ m, zlen (sha256 m) = 32)
    (fill_len : ∀ rng n rng' buf,
       0 ≤ n → try_fill_bytes rng n = (rng', Some buf) → zlen buf = n)
    (Hrec : record_fits rec) :
  let r := (pack_payload_internal sha256 Rng try_fill_bytes rec iv rng).2 in
  match r with
  | Ok payload => zlen payload = MAX_PLAINTEXT_DATA_BYTES ∧ parse sha256 iv payload = Ok [rec]
  | Err e => rng_failure e
  end ∧ (rng_reliable Rng try_fill_bytes → is_ok r = true).
Proof.
  destruct Hrec as (Hok & w & Hw & Hfit). split.
  - by apply (pack_spec sha256 Rng try_fill_bytes sha256_len fill_len rec w).
  - intros Hrel. by apply (pack_reliable sha256 Rng try_fill_bytes rec w).
Qed.

(** The payload parser accepts only canonical payloads.  An accepted
    1008-byte payload is the first four bytes of SHA-256 over the record bytes
    and the IV, then padding without a zero byte, one zero byte, and the
    concatenated encodings of the returned records, each of them well formed:
    the parser invents nothing, skips nothing, and no byte behind the delimiter
    escapes the checksum. *)
Theorem parse_canonical sha256 iv plaintext recs
    (sha256_len : ∀ m, zlen (sha256 m) = 32)
    (Hbytes : bytes_ok plaintext) (Hlen : zlen plaintext = MAX_PLAINTEXT_DATA_BYTES)
    (Hparse : parse sha256 iv plaintext = Ok recs) :
  ∃ pad ws,
    Forall (λ b, b ≠ 0) pad ∧
    Forall2 (λ rec w, record_ok rec ∧ encode_record rec = Ok w) recs ws ∧
    plaintext = slice 0 CHECKSUM_LEN (sha256 (concat ws ++ iv)) ++ pad ++ [0] ++ concat ws.
Proof. by apply parse_accepts. Qed.


(** ** Witnesses *)
Definition toy_digest (m : bytes) : bytes := to_be 32 (fold_left Z.add m 0).
Definition toy_fill (rng : nat) (n : Z) : nat * option bytes :=
  (S rng, Some (repeat 1 (Z.to_nat n))).

Lemma toy_digest_len m : zlen (toy_digest m) = 32.
Proof. apply zlen_to_be. Qed.

Lemma toy_fill_len rng n rng' buf : 0 ≤ n → toy_fill rng n = (rng', Some buf) → zlen buf = n.
Proof. intros Hn [= _ <-]. unfold zlen. rewrite repeat_length. lia. Qed.

Definition toy_record : FragmentDelivery := mkRecord (Some (DeliverRouter (repeat 9 32))) (First 7 [1; 2; 3]).

Lemma toy_record_fits : record_fits toy_record.
Proof.
  split; [vm_compute; split_and!; congruence|].
  eexists. split; [vm_compute; reflexivity|vm_compute; discriminate].
Qed.

Lemma fragment_complete_message_total_witness :
  ∃ recs, fragment_complete_message DeliverLocal 7 (repeat 5 2000) = Ok recs ∧
    Forall record_fits recs.
Proof.
  destruct (fragment_complete_message_total DeliverLocal 7 (repeat 5 2000))
    as (recs & H1 & H2 & _); [done|vm_compute; split; congruence|lia| |by exists recs].
  vm_compute. split; congruence.
Defined.

Lemma pack_parse_roundtrip_witness :
  ∃ payload, (pack_payload_internal toy_digest nat toy_fill toy_record (repeat 3 16) O).2
               = Ok payload ∧
    zlen payload = MAX_PLAINTEXT_DATA_BYTES ∧
    parse toy_digest (repeat 3 16) payload = Ok [toy_record].
Proof.
  destruct (pack_parse_roundtrip toy_digest nat toy_fill toy_record (repeat 3 16) O
    toy_digest_len toy_fill_len toy_record_fits) as [H1 H2].
  destruct (pack_payload_internal _ _ _ _ _ _).2 as [payload|e].
  - by exists payload.
  - exfalso. enough (false = true) by done. apply H2. intros rng n Hn.
    exists (S rng), (repeat 1 (Z.to_nat n)). split; [done|].
    apply Forall_forall. intros x Hx%list_elem_of_In%repeat_spec. lia.
Defined.

Lemma parse_canonical_witness :
  ∃ pad ws, Forall (λ b, b ≠ 0) pad ∧
    Forall2 (λ rec w, record_ok rec ∧ encode_record rec = Ok w)
      [mkRecord (Some DeliverLocal) (Unfragmented [17; 18; 16])] ws ∧
    slice 0 CHECKSUM_LEN (toy_digest ([0; 0; 3; 17; 18; 16] ++ repeat 3 16)) ++ repeat 8 997 ++
      [0; 0; 0; 3; 17; 18; 16] =
    slice 0 CHECKSUM_LEN (toy_digest (concat ws ++ repeat 3 16)) ++ pad ++ [0] ++ concat ws.
Proof.
  apply (parse_canonical toy_digest (repeat 3 16)).
  - exact toy_digest_len.
  - apply (bool_decide_unpack _). vm_compute. exact I.
  - vm_compute. reflexivity.
  - vm_compute. reflexivity.
Defined.

