(* ===== verification/BTree.v ===== *)
(** * Ordered maps

    Rust's [BTreeMap] with integer keys is a [gmap Z]; where the code iterates
    over it, the order of the keys is ascending.  [keys_asc] is that order. *)
From stdpp Require Import sorting.
From S2P Require Import Prelude.

Definition keys_asc {A} (m : gmap Z A) : list Z :=
  merge_sort Z.le (map_to_list m).*1.

Section keys.
Context {A : Type}.
Implicit Types m : gmap Z A.

Lemma keys_asc_perm m : keys_asc m ≡ₚ (map_to_list m).*1.
Proof. apply merge_sort_Permutation. Qed.

Lemma elem_of_keys_asc m k : k ∈ keys_asc m ↔ is_Some (m !! k).
Proof.
  rewrite keys_asc_perm, list_elem_of_fmap. split.
  - intros ([k' a] & -> & Hin). apply elem_of_map_to_list in Hin. by exists a.
  - intros [a Ha]. exists (k, a). by rewrite elem_of_map_to_list.
Qed.

Lemma NoDup_keys_asc m : NoDup (keys_asc m).
Proof. rewrite keys_asc_perm. apply NoDup_fst_map_to_list. Qed.

Lemma length_keys_asc m : length (keys_asc m) = size m.
Proof. rewrite keys_asc_perm, length_fmap. apply length_map_to_list. Qed.

Lemma Sorted_keys_asc m : Sorted Z.le (keys_asc m).
Proof. apply Sorted_merge_sort. apply _. Qed.
End keys.

(** Filtering by a predicate and by its negation splits a list. *)
Lemma filter_length_split {A} (P : A → Prop) `{∀ x, Decision (P x)} (l : list A) :
  (length (filter P l) + length (filter (λ x, ¬ P x) l) = length l)%nat.
Proof.
  induction l as [|x l IH]; [done|]. rewrite !filter_cons.
  destruct (decide (P x)); [rewrite decide_False by tauto|rewrite decide_True by tauto]; cbn; lia.
Qed.
