(* ===== verification/Tunnel.v ===== *)
(** * Tunnels: identifiers, configuration, established hop chains

    Models [identity.rs], [config.rs], [established.rs] and [zero_hop.rs] of
    [src/crates/i2pr-tunnel/src/], with the layer keys of [build_crypto.rs]: the
    values that describe a tunnel once it is built, and the checks that only
    well-formed ones pass. *)
From S2P Require Import Prelude.

Definition is_some {A} (o : option A) : bool := match o with Some _ => true | None => false end.

(** ** Identifiers, directions, lifetimes ([identity.rs]) *)
Inductive TunnelIdError := TunnelIdZero.

(** A [TunnelId] is its number. *)
Definition tunnel_id_new (value : Z) : result TunnelIdError Z :=
  if value =? 0 then Err TunnelIdZero else Ok value.

Inductive TunnelDirection := Inbound | Outbound.
#[export] Instance TunnelDirection_eq_dec : EqDecision TunnelDirection.
Proof. solve_decision. Defined.

Inductive TunnelLifetimeError := LifetimeZero | LifetimeExceedsMaximum (actual maximum : Z).

Definition MAX_LIFETIME_SECONDS : Z := 30 * 60.
Definition DEFAULT_EXPLORATORY_SECONDS : Z := 10 * 60.

(** A [TunnelLifetime] is its number of seconds. *)
Definition from_seconds (seconds : Z) : result TunnelLifetimeError Z :=
  if seconds =? 0 then Err LifetimeZero
  else if seconds >? MAX_LIFETIME_SECONDS
  then Err (LifetimeExceedsMaximum seconds MAX_LIFETIME_SECONDS)
  else Ok seconds.

Inductive TunnelState := Building | Established | Expired | Failed.
#[export] Instance TunnelState_eq_dec : EqDecision TunnelState.
Proof. solve_decision. Defined.

(** ** Pool configuration ([config.rs]) *)
Definition MAX_EXPLORATORY_INBOUND : Z := 8.
Definition MAX_EXPLORATORY_OUTBOUND : Z := 8.
Definition MAX_BUILD_CONCURRENCY : Z := 4.
Definition MAX_FAILURE_THRESHOLD : Z := 16.
Definition MAX_HOPS : Z := 8.
Definition MIN_HOPS : Z := 1.

Record ExploratoryPoolConfig := mkPoolConfig {
  max_inbound : Z;
  max_outbound : Z;
  length_hops : Z;
  lifetime : Z;
  build_concurrency : Z;
  failure_threshold : Z;
}.

Inductive ExploratoryConfigError :=
  | LengthTooShort (actual minimum : Z)
  | LengthTooLong (actual maximum : Z)
  | ZeroInbound
  | InboundExceedsMaximum (actual maximum : Z)
  | OutboundExceedsMaximum (actual maximum : Z)
  | ZeroBuildConcurrency
  | BuildConcurrencyExceedsMaximum (actual maximum : Z)
  | FailureThresholdExceedsMaximum (actual maximum : Z)
  | ConfigLifetime (error : TunnelLifetimeError).

Definition pool_config_balanced : ExploratoryPoolConfig :=
  mkPoolConfig 4 4 2 DEFAULT_EXPLORATORY_SECONDS 2 8.

Definition pool_config_try_new
    (max_inbound max_outbound length_hops lifetime_seconds build_concurrency failure_threshold : Z)
    : result ExploratoryConfigError ExploratoryPoolConfig :=
  if length_hops <? MIN_HOPS then Err (LengthTooShort length_hops MIN_HOPS)
  else if length_hops >? MAX_HOPS then Err (LengthTooLong length_hops MAX_HOPS)
  else if max_inbound =? 0 then Err ZeroInbound
  else if max_inbound >? MAX_EXPLORATORY_INBOUND
  then Err (InboundExceedsMaximum max_inbound MAX_EXPLORATORY_INBOUND)
  else if max_outbound >? MAX_EXPLORATORY_OUTBOUND
  then Err (OutboundExceedsMaximum max_outbound MAX_EXPLORATORY_OUTBOUND)
  else if build_concurrency =? 0 then Err ZeroBuildConcurrency
  else if build_concurrency >? MAX_BUILD_CONCURRENCY
  then Err (BuildConcurrencyExceedsMaximum build_concurrency MAX_BUILD_CONCURRENCY)
  else if failure_threshold >? MAX_FAILURE_THRESHOLD
  then Err (FailureThresholdExceedsMaximum failure_threshold MAX_FAILURE_THRESHOLD)
  else
  lifetime ← map_err ConfigLifetime (from_seconds lifetime_seconds);
  Ok (mkPoolConfig max_inbound max_outbound length_hops lifetime build_concurrency failure_threshold).

(** ** Hops ([established.rs], [build_crypto.rs]) *)
Definition MAX_HOPS_PER_TUNNEL : Z := 8.

Record LayerKeys := mkLayerKeys {
  reply_key : bytes;
  layer_key : bytes;
  iv_key : bytes;
  garlic_reply_key : option bytes;
  garlic_reply_tag : option bytes;
}.
Definition layer_keys_new (reply_key layer_key iv_key : bytes) : LayerKeys :=
  mkLayerKeys reply_key layer_key iv_key None None.

(** A [TunnelPeer] is its router hash. *)
Record EstablishedNextHop := mkNextHop { next_router : bytes; next_tunnel : Z }.

Inductive EstablishedRole := Participant | OutboundEndpoint | InboundGateway.
#[export] Instance EstablishedRole_eq_dec : EqDecision EstablishedRole.
Proof. solve_decision. Defined.

Record EstablishedHop := mkHop {
  hop_peer : bytes;
  hop_role : EstablishedRole;
  hop_receive_tunnel : Z;
  hop_layer_keys : LayerKeys;
  hop_next : option EstablishedNextHop;
}.
Definition hop_with_next (peer : bytes) (role : EstablishedRole) (receive_tunnel : Z) (keys : LayerKeys)
    (next : EstablishedNextHop) : EstablishedHop := mkHop peer role receive_tunnel keys (Some next).
Definition hop_terminal (peer : bytes) (role : EstablishedRole) (receive_tunnel : Z) (keys : LayerKeys)
    : EstablishedHop := mkHop peer role receive_tunnel keys None.

Record EstablishedTunnel := mkTunnel {
  et_direction : TunnelDirection;
  et_creator_tunnel_id : Z;
  et_hops : list EstablishedHop;
  et_created_at_seconds : Z;
  et_inbound_gateway : bytes * Z;
  et_local_inbound_receive : Z;
}.

Inductive EstablishedTunnelError :=
  | EmptyHopList
  | TooManyHops (actual maximum : Z)
  | MissingInboundGateway
  | MissingLocalInboundReceive
  | OutboundGatewaySpecified
  | OutboundLocalReceiveSpecified
  | FirstHopRoleInvalid (expected actual : EstablishedRole)
  | LastHopRoleInvalid (expected actual : EstablishedRole)
  | FirstHopRouterMismatch (expected actual : bytes)
  | FirstHopReceiveTunnelMismatch (expected actual : Z)
  | LocalInboundReceiveMismatch (expected actual : Z)
  | MissingNextHop (hop_index : Z)
  | MissingIntermediateHopNext
  | OutboundEndpointHasNext.

Definition zero_hash : bytes := repeat 0 32.
Definition zero_peer : bytes := zero_hash.
Definition zero_id : Z := u32_max.

(** The first hop, from [index] on, without a next hop. *)
Fixpoint find_missing_next (hops : list EstablishedHop) (index : Z) : option Z :=
  match hops with
  | [] => None
  | hop :: hops' => if is_some (hop_next hop) then find_missing_next hops' (index + 1) else Some index
  end.

(** The role and next-hop checks of [EstablishedTunnel::new] by direction. *)
Definition check_direction (direction : TunnelDirection) (first last : EstablishedHop)
    (hops : list EstablishedHop) (inbound_gateway : option (bytes * Z))
    (local_inbound_receive : option Z) : result EstablishedTunnelError () :=
  match direction with
  | Inbound =>
      if negb (is_some inbound_gateway) then Err MissingInboundGateway
      else if negb (is_some local_inbound_receive) then Err MissingLocalInboundReceive
      else if negb (bool_decide (hop_role first = InboundGateway))
      then Err (FirstHopRoleInvalid InboundGateway (hop_role first))
      else match find_missing_next hops 0 with Some index => Err (MissingNextHop index) | None => Ok () end
  | Outbound =>
      if is_some inbound_gateway then Err OutboundGatewaySpecified
      else if is_some local_inbound_receive then Err OutboundLocalReceiveSpecified
      else if negb (bool_decide (hop_role last = OutboundEndpoint))
      then Err (LastHopRoleInvalid OutboundEndpoint (hop_role last))
      else if is_some (hop_next last) then Err OutboundEndpointHasNext
      else match find_missing_next (take (length hops - 1) hops) 0 with
           | Some _ => Err MissingIntermediateHopNext
           | None => Ok ()
           end
  end.

Definition check_gateway (first : EstablishedHop) (inbound_gateway : option (bytes * Z))
    : result EstablishedTunnelError () :=
  match inbound_gateway with
  | None => Ok ()
  | Some (router, tunnel) =>
      if negb (bool_decide (hop_peer first = router)) then Err (FirstHopRouterMismatch router (hop_peer first))
      else if negb (hop_receive_tunnel first =? tunnel)
      then Err (FirstHopReceiveTunnelMismatch tunnel (hop_receive_tunnel first))
      else Ok ()
  end.

Definition check_local_receive (last : EstablishedHop) (local_inbound_receive : option Z)
    : result EstablishedTunnelError () :=
  match local_inbound_receive with
  | None => Ok ()
  | Some expected =>
      let tunnel := from_option next_tunnel zero_id (hop_next last) in
      if negb (tunnel =? expected) then Err (LocalInboundReceiveMismatch expected tunnel) else Ok ()
  end.

Definition established_new (direction : TunnelDirection) (creator_tunnel_id : Z)
    (hops : list EstablishedHop) (created_at_seconds : Z) (inbound_gateway : option (bytes * Z))
    (local_inbound_receive : option Z) : result EstablishedTunnelError EstablishedTunnel :=
  match hops with
  | [] => Err EmptyHopList
  | first :: _ =>
      let last := List.last hops first in
      if zlen hops >? MAX_HOPS_PER_TUNNEL then Err (TooManyHops (zlen hops) MAX_HOPS_PER_TUNNEL)
      else
      _ ← check_direction direction first last hops inbound_gateway local_inbound_receive;
      _ ← check_gateway first inbound_gateway;
      _ ← check_local_receive last local_inbound_receive;
      Ok (mkTunnel direction creator_tunnel_id hops created_at_seconds
            (default (zero_peer, zero_id) inbound_gateway) (default zero_id local_inbound_receive))
  end.

(** [hops[0]] panics on a chain without hops. *)
Definition first_hop_router (t : EstablishedTunnel) : option bytes := hop_peer <$> head (et_hops t).
Definition first_hop_receive_tunnel (t : EstablishedTunnel) : option Z :=
  hop_receive_tunnel <$> head (et_hops t).

Record EstablishedMaterial := mkMaterial {
  em_direction : TunnelDirection;
  em_creator_tunnel_id : Z;
  em_hops : list EstablishedHop;
  em_created_at_seconds : Z;
  em_inbound_gateway : bytes * Z;
  em_local_inbound_receive : Z;
  em_extracted : bool;
}.

Definition into_extracted (t : EstablishedTunnel) : EstablishedMaterial :=
  mkMaterial (et_direction t) (et_creator_tunnel_id t) (et_hops t) (et_created_at_seconds t)
    (et_inbound_gateway t) (et_local_inbound_receive t) true.

(** The material gives its hops away at most once. *)
Definition into_established_tunnel (m : EstablishedMaterial) : EstablishedMaterial * option EstablishedTunnel :=
  if negb (em_extracted m) then (m, None)
  else
  (mkMaterial (em_direction m) (em_creator_tunnel_id m) [] (em_created_at_seconds m)
     (em_inbound_gateway m) (em_local_inbound_receive m) false,
   Some (mkTunnel (em_direction m) (em_creator_tunnel_id m) (em_hops m) (em_created_at_seconds m)
           (em_inbound_gateway m) (em_local_inbound_receive m))).

(** ** Local tunnels without hops ([zero_hop.rs]) *)
Definition MAX_ZERO_HOP_LIFETIME_SECONDS : Z := 600.
Record LocalZeroHopInbound := mkZeroInbound {
  zi_gateway : bytes;
  zi_receive_tunnel : Z;
  zi_created_at_seconds : Z;
  zi_expires_seconds : Z;
}.
Record LocalZeroHopOutbound := mkZeroOutbound {
  zo_local_route : Z;
  zo_created_at_seconds : Z;
  zo_expires_seconds : Z;
}.
Inductive ZeroHopError :=
  | ZeroGateway
  | ZeroHopTunnelId
  | SentinelTunnelId
  | LifetimeOutOfRange (actual maximum : Z).

Definition zero_hop_inbound_new (gateway : bytes) (receive_tunnel created_at_seconds lifetime_seconds : Z)
    : result ZeroHopError LocalZeroHopInbound :=
  if bool_decide (gateway = zero_hash) then Err ZeroGateway
  else if receive_tunnel =? 0 then Err ZeroHopTunnelId
  else if receive_tunnel =? u32_max then Err SentinelTunnelId
  else if (lifetime_seconds =? 0) || (lifetime_seconds >? MAX_ZERO_HOP_LIFETIME_SECONDS)
  then Err (LifetimeOutOfRange lifetime_seconds MAX_ZERO_HOP_LIFETIME_SECONDS)
  else Ok (mkZeroInbound gateway receive_tunnel created_at_seconds
             (saturating_add u64_max created_at_seconds lifetime_seconds)).
Definition zero_hop_outbound_new (local_route created_at_seconds lifetime_seconds : Z)
    : result ZeroHopError LocalZeroHopOutbound :=
  if local_route =? 0 then Err ZeroHopTunnelId
  else if local_route =? u32_max then Err SentinelTunnelId
  else if (lifetime_seconds =? 0) || (lifetime_seconds >? MAX_ZERO_HOP_LIFETIME_SECONDS)
  then Err (LifetimeOutOfRange lifetime_seconds MAX_ZERO_HOP_LIFETIME_SECONDS)
  else Ok (mkZeroOutbound local_route created_at_seconds
             (saturating_add u64_max created_at_seconds lifetime_seconds)).
Definition zero_inbound_is_usable (now_seconds : Z) (e : LocalZeroHopInbound) : bool :=
  now_seconds <? zi_expires_seconds e.
Definition zero_outbound_is_usable (now_seconds : Z) (e : LocalZeroHopOutbound) : bool :=
  now_seconds <? zo_expires_seconds e.

(** ** Well-formed chains *)
Definition has_next (hop : EstablishedHop) : Prop := hop_next hop ≠ None.

Record inbound_chain (hops : list EstablishedHop) (gateway : bytes * Z) (local : Z) : Prop := {
  ic_forwards : Forall has_next hops;
  ic_first : ∃ first, head hops = Some first ∧ hop_role first = InboundGateway ∧
    (hop_peer first, hop_receive_tunnel first) = gateway;
  ic_last : ∃ hop next, last hops = Some hop ∧ hop_next hop = Some next ∧ next_tunnel next = local;
}.
Record outbound_chain (hops : list EstablishedHop) : Prop := {
  oc_chain : ∃ before endpoint, hops = before ++ [endpoint] ∧ Forall has_next before ∧
    hop_role endpoint = OutboundEndpoint ∧ hop_next endpoint = None;
}.
Definition tunnel_shape (direction : TunnelDirection) (hops : list EstablishedHop)
    (inbound_gateway : option (bytes * Z)) (local : option Z) : Prop :=
  match direction with
  | Inbound => ∃ g r, inbound_gateway = Some g ∧ local = Some r ∧ inbound_chain hops g r
  | Outbound => inbound_gateway = None ∧ local = None ∧ outbound_chain hops
  end.

Lemma find_missing_next_None hops i : find_missing_next hops i = None ↔ Forall has_next hops.
Proof.
  revert i. induction hops as [|hop hops IH]; intros i; cbn [find_missing_next].
  { split; [constructor|done]. }
  rewrite Forall_cons. unfold has_next at 1. destruct (hop_next hop); cbn [is_some]; [|naive_solver].
  rewrite IH. naive_solver.
Qed.

Lemma list_last_last {A} (x : A) l : last (x :: l) = Some (List.last (x :: l) x).
Proof.
  destruct (exists_last (l := x :: l)) as (l' & y & Hy); [done|]. rewrite Hy.
  rewrite last_snoc, List.last_last. done.
Qed.

Lemma check_direction_inbound first hops g r :
  check_direction Inbound first (List.last (first :: hops) first) (first :: hops) g r = Ok () ↔
  g ≠ None ∧ r ≠ None ∧ hop_role first = InboundGateway ∧ Forall has_next (first :: hops).
Proof.
  cbn [check_direction]. destruct g; cbn [is_some negb]; [|naive_solver].
  destruct r; cbn [is_some negb]; [|naive_solver].
  case_bool_decide; cbn [negb]; [|naive_solver].
  rewrite <- (find_missing_next_None _ 0). destruct (find_missing_next _ 0); naive_solver.
Qed.

Lemma check_direction_outbound first hops g r :
  check_direction Outbound first (List.last (first :: hops) first) (first :: hops) g r = Ok () ↔
  g = None ∧ r = None ∧ outbound_chain (first :: hops).
Proof.
  cbn [check_direction]. destruct g; cbn [is_some]; [naive_solver|].
  destruct r; cbn [is_some]; [naive_solver|].
  destruct (exists_last (l := first :: hops)) as (before & endpoint & Hy); [done|].
  rewrite Hy, List.last_last, length_app. cbn [length].
  replace (length before + 1 - 1)%nat with (length before) by lia. rewrite take_app_length.
  assert (Hiff : outbound_chain (before ++ [endpoint]) ↔
    Forall has_next before ∧ hop_role endpoint = OutboundEndpoint ∧ hop_next endpoint = None).
  { split; [intros [(b & e & [-> [= ->]]%app_inj_tail & ?)]; done|].
    intros (?&?&?). constructor. by exists before, endpoint. }
  rewrite Hiff. case_bool_decide; cbn [negb]; [|naive_solver].
  destruct (hop_next endpoint); cbn [is_some]; [naive_solver|].
  rewrite <- (find_missing_next_None _ 0). destruct (find_missing_next _ 0); naive_solver.
Qed.

Lemma check_gateway_ok first g :
  check_gateway first (Some g) = Ok () ↔ (hop_peer first, hop_receive_tunnel first) = g.
Proof.
  destruct g as [router tunnel]. cbn [check_gateway]. case_bool_decide; cbn [negb]; [|naive_solver].
  destruct (_ =? _) eqn:E; breflect; cbn [negb]; naive_solver.
Qed.

Lemma check_local_receive_ok hop r :
  has_next hop →
  check_local_receive hop (Some r) = Ok () ↔ ∃ next, hop_next hop = Some next ∧ next_tunnel next = r.
Proof.
  unfold has_next, check_local_receive. destruct (hop_next hop) as [next|]; [intros _|done]. cbn [from_option].
  destruct (_ =? _) eqn:E; breflect; cbn [negb]; naive_solver.
Qed.

Lemma established_new_iff direction creator hops created g r :
  (∃ t, established_new direction creator hops created g r = Ok t) ↔
  1 ≤ zlen hops ≤ MAX_HOPS_PER_TUNNEL ∧ tunnel_shape direction hops g r.
Proof.
  destruct hops as [|first hops].
  { split; [intros [? ?]; done|]. change (zlen (@nil EstablishedHop)) with 0. lia. }
  assert (Hz : 1 ≤ zlen (first :: hops)) by (unfold zlen; cbn [length]; lia).
  unfold established_new. destruct (_ >? MAX_HOPS_PER_TUNNEL) eqn:E; breflect; [naive_solver lia|].
  transitivity (tunnel_shape direction (first :: hops) g r); [|naive_solver lia].
  set (hop := List.last (first :: hops) first).
  assert (Hlast : last (first :: hops) = Some hop) by apply list_last_last.
  destruct direction; cbn [tunnel_shape].
  - destruct (check_direction Inbound first hop (first :: hops) g r) as [[]|e] eqn:Ed.
    + apply check_direction_inbound in Ed as (Hg & Hr & Hrole & Hall).
      destruct g as [g|], r as [r|]; try done. cbn [mbind result_bind].
      assert (Hn : has_next hop) by (rewrite Forall_forall in Hall; apply Hall; by apply last_Some_elem_of).
      destruct (check_gateway first (Some g)) as [[]|e] eqn:Eg.
      * apply check_gateway_ok in Eg. cbn [mbind result_bind].
        destruct (check_local_receive hop (Some r)) as [[]|e] eqn:El; cbn [mbind result_bind].
        -- apply (check_local_receive_ok _ _ Hn) in El. split; [intros _|by eexists].
           exists g, r. split_and!; [done..|]. constructor; naive_solver.
        -- split; [by intros [? ?]|]. intros (? & ? & [= <-] & [= <-] & [_ _ (h & n & Hh & ? & ?)]).
           rewrite Hlast in Hh. injection Hh as <-.
           assert (check_local_receive hop (Some r) = Ok ()) by (apply check_local_receive_ok; eauto). congruence.
      * split; [by intros [? ?]|]. intros (? & ? & [= <-] & _ & [_ (f & [= <-] & _ & Hf) _]).
        apply check_gateway_ok in Hf. congruence.
    + split; [by intros [? ?]|]. intros (? & ? & -> & -> & [Hall (f & [= <-] & Hrole & _) _]).
      assert (check_direction Inbound first hop (first :: hops) (Some x) (Some x0) = Ok ())
        by (by apply check_direction_inbound). congruence.
  - destruct (check_direction Outbound first hop (first :: hops) g r) as [[]|e] eqn:Ed.
    + apply check_direction_outbound in Ed as (-> & -> & Hc). cbn. split; [done|by eexists].
    + split; [by intros [? ?]|]. intros H. apply check_direction_outbound in H. unfold hop in Ed. congruence.
Qed.

Lemma established_new_value direction creator hops created g r t :
  established_new direction creator hops created g r = Ok t →
  t = mkTunnel direction creator hops created (default (zero_peer, zero_id) g) (default zero_id r).
Proof.
  unfold established_new. destruct hops as [|first hops]; [done|]. destruct (_ >? _); [done|].
  destruct (check_direction _ _ _ _ _ _); [|done]. destruct (check_gateway _ _); [|done].
  destruct (check_local_receive _ _); [|done]. by intros <-%Ok_inj.
Qed.

(** ** Properties *)

(** Which tunnels can be established.  The constructor of
    [EstablishedTunnel] accepts a chain of hops exactly when it has one to eight
    hops and the shape of its direction: an inbound tunnel starts at the declared
    gateway, every hop forwards, and the last hop forwards to the
    local receive identifier; an outbound tunnel ends in an endpoint that
    forwards nowhere and every hop before it forwards. *)
Theorem established_new_exact direction creator hops created g r :
  (∃ t, established_new direction creator hops created g r = Ok t) ↔
  1 ≤ zlen hops ≤ MAX_HOPS_PER_TUNNEL ∧ tunnel_shape direction hops g r.
Proof. apply established_new_iff. Qed.
