(* ===== verification/TunnelPool.v ===== *)
(** * The exploratory tunnel pool

    Models [src/crates/i2pr-tunnel/src/pool.rs]: the bounded pool of inbound and
    outbound tunnels with their secret material, expiry, failure accounting, the
    one-shot hand-over of the material to the data plane and the choice of a
    reply path. *)
From stdpp Require Import sorting.
From S2P Require Import Prelude BTree Tunnel Lookup.

Record TunnelRegistration := mkRegistration {
  reg_slot : Z;
  reg_tunnel_id : Z;
  reg_direction : TunnelDirection;
  reg_state : TunnelState;
  reg_hops : list bytes;
  reg_created_at_seconds : Z;
}.

Inductive RegistrationError := RegEmptyHopList | RegTooManyHops (actual maximum : Z).

Definition registration_new (slot tunnel_id : Z) (direction : TunnelDirection) (state : TunnelState)
    (hops : list bytes) (created_at_seconds : Z) : result RegistrationError TunnelRegistration :=
  if zlen hops =? 0 then Err RegEmptyHopList
  else if zlen hops >? MAX_HOPS_PER_TUNNEL then Err (RegTooManyHops (zlen hops) MAX_HOPS_PER_TUNNEL)
  else Ok (mkRegistration slot tunnel_id direction state hops created_at_seconds).

Inductive RegisterOutcome :=
  | Inserted (slot : Z) (replaced : option Z)
  | DuplicateTunnel (slot : Z).
Inductive PoolFullError := InboundPoolFull | OutboundPoolFull.
Inductive RegisterError :=
  | RegisterFull (kind : PoolFullError) (registration : TunnelRegistration)
  | RegisterInvalid (error : RegistrationError).

Record PublicTunnelRouting := mkRouting {
  pr_first_hop_router : bytes;
  pr_first_hop_receive_tunnel : Z;
  pr_local_inbound_receive : Z;
}.

Definition from_material (m : EstablishedMaterial) : PublicTunnelRouting :=
  let '(peer, tunnel) := em_inbound_gateway m in
  mkRouting
    (if bool_decide (em_direction m = Inbound) then peer
     else match em_hops m with first :: _ => hop_peer first | [] => repeat 0 32 end)
    (if bool_decide (em_direction m = Inbound) then tunnel
     else match em_hops m with first :: _ => hop_receive_tunnel first | [] => u32_max end)
    (em_local_inbound_receive m).

Inductive MaterialState := Available (m : EstablishedMaterial) | Activated.

Record TunnelEntry := mkEntry {
  te_registration : TunnelRegistration;
  te_routing : PublicTunnelRouting;
  te_material : MaterialState;
}.
Definition entry_new (r : TunnelRegistration) (m : EstablishedMaterial) : TunnelEntry :=
  mkEntry r (from_material m) (Available m).
Definition available_material (e : TunnelEntry) : option EstablishedMaterial :=
  match te_material e with Available m => Some m | Activated => None end.

Record ExploratoryPool := mkPool {
  pool_config : ExploratoryPoolConfig;
  inbound : gmap Z TunnelEntry;
  outbound : gmap Z TunnelEntry;
  next_slot : Z;
  consecutive_failures : Z;
  paused : bool;
}.

Module Pool.
Definition new (config : ExploratoryPoolConfig) : ExploratoryPool := mkPool config ∅ ∅ 0 0 false.

Definition inbound_len (p : ExploratoryPool) : Z := Z.of_nat (size (inbound p)).
Definition outbound_len (p : ExploratoryPool) : Z := Z.of_nat (size (outbound p)).

(** Updates of the fields that an operation leaves the rest of alone. *)
Definition with_failures (n : Z) (paused : bool) (p : ExploratoryPool) : ExploratoryPool :=
  mkPool (pool_config p) (inbound p) (outbound p) (next_slot p) n paused.
Definition with_maps (ib ob : gmap Z TunnelEntry) (p : ExploratoryPool) : ExploratoryPool :=
  mkPool (pool_config p) ib ob (next_slot p) (consecutive_failures p) (paused p).

(** The failure count of [note_build_failure] and [mark_failed]. *)
Definition count_failure (p : ExploratoryPool) : ExploratoryPool :=
  let n := saturating_add u16_max (consecutive_failures p) 1 in
  with_failures n (n >=? failure_threshold (pool_config p)) p.
Definition note_build_failure (p : ExploratoryPool) : ExploratoryPool * Z :=
  let p' := count_failure p in (p', consecutive_failures p').

Definition entries_asc (m : gmap Z TunnelEntry) : list (Z * TunnelEntry) :=
  omap (λ k, e ← m !! k; Some (k, e)) (keys_asc m).

Definition inbound_registrations (p : ExploratoryPool) : list TunnelRegistration :=
  te_registration ∘ snd <$> entries_asc (inbound p).
Definition outbound_registrations (p : ExploratoryPool) : list TunnelRegistration :=
  te_registration ∘ snd <$> entries_asc (outbound p).

Fixpoint find_tunnel (tunnel_id : Z) (l : list (Z * TunnelEntry)) : option Z :=
  match l with
  | [] => None
  | (slot, e) :: l' =>
      if reg_tunnel_id (te_registration e) =? tunnel_id then Some slot else find_tunnel tunnel_id l'
  end.
Definition find_by_tunnel_id (tunnel_id : Z) (p : ExploratoryPool) : option Z :=
  find_tunnel tunnel_id (entries_asc (inbound p) ++ entries_asc (outbound p)).

Definition take_slot (p : ExploratoryPool) : ExploratoryPool * Z :=
  (mkPool (pool_config p) (inbound p) (outbound p) (saturating_add u32_max (next_slot p) 1)
     (consecutive_failures p) (paused p), next_slot p).

Definition is_established (e : TunnelEntry) : Prop := reg_state (te_registration e) = Established.
#[global] Instance is_established_dec e : Decision (is_established e).
Proof. unfold is_established. apply _. Defined.
Definition established_count (m : gmap Z TunnelEntry) : Z :=
  Z.of_nat (length (filter (λ ke, is_established ke.2) (entries_asc m))).

Definition register_inbound_with_material (established : EstablishedMaterial) (now_seconds : Z)
    (p : ExploratoryPool) : ExploratoryPool * result RegisterError RegisterOutcome :=
  let tunnel_id := em_creator_tunnel_id established in
  let hop_peers := hop_peer <$> em_hops established in
  let '(p, slot) := take_slot p in
  match registration_new slot tunnel_id Inbound Established hop_peers now_seconds with
  | Err error => (p, Err (RegisterInvalid error))
  | Ok registration =>
  match find_by_tunnel_id tunnel_id p with
  | Some existing => (p, Ok (DuplicateTunnel existing))
  | None =>
  if established_count (inbound p) >=? max_inbound (pool_config p)
  then (p, Err (RegisterFull InboundPoolFull registration))
  else (with_maps (<[slot := entry_new registration established]> (inbound p)) (outbound p) p,
        Ok (Inserted slot None))
  end end.

Definition register_outbound_with_material (established : EstablishedMaterial) (now_seconds : Z)
    (p : ExploratoryPool) : ExploratoryPool * result RegisterError RegisterOutcome :=
  let tunnel_id := em_creator_tunnel_id established in
  let hop_peers := hop_peer <$> em_hops established in
  let '(p, slot) := take_slot p in
  match registration_new slot tunnel_id Outbound Established hop_peers now_seconds with
  | Err error => (p, Err (RegisterInvalid error))
  | Ok registration =>
  match find_by_tunnel_id tunnel_id p with
  | Some existing => (p, Ok (DuplicateTunnel existing))
  | None =>
  if established_count (outbound p) >=? max_outbound (pool_config p)
  then (p, Err (RegisterFull OutboundPoolFull registration))
  else (with_maps (inbound p) (<[slot := entry_new registration established]> (outbound p)) p,
        Ok (Inserted slot None))
  end end.

Definition find_entry (slot : Z) (p : ExploratoryPool) : option TunnelEntry :=
  match inbound p !! slot with Some e => Some e | None => outbound p !! slot end.
Definition established (slot : Z) (p : ExploratoryPool) : option EstablishedMaterial :=
  e ← find_entry slot p; available_material e.
Definition registration (slot : Z) (p : ExploratoryPool) : option TunnelRegistration :=
  te_registration <$> find_entry slot p.
Definition routing (slot : Z) (p : ExploratoryPool) : option PublicTunnelRouting :=
  te_routing <$> find_entry slot p.

(** [self.inbound.get_mut(&slot).or_else(|| self.outbound.get_mut(&slot))] and an
    assignment through the reference. *)
Definition update_entry (slot : Z) (e : TunnelEntry) (p : ExploratoryPool) : ExploratoryPool :=
  match inbound p !! slot with
  | Some _ => with_maps (<[slot := e]> (inbound p)) (outbound p) p
  | None => with_maps (inbound p) (<[slot := e]> (outbound p)) p
  end.

Definition remove (slot : Z) (p : ExploratoryPool) : ExploratoryPool * option TunnelEntry :=
  match inbound p !! slot with
  | Some e => (with_maps (delete slot (inbound p)) (outbound p) p, Some e)
  | None => (with_maps (inbound p) (delete slot (outbound p)) p, outbound p !! slot)
  end.

Definition set_state (s : TunnelState) (e : TunnelEntry) : TunnelEntry :=
  let r := te_registration e in
  mkEntry (mkRegistration (reg_slot r) (reg_tunnel_id r) (reg_direction r) s (reg_hops r)
             (reg_created_at_seconds r)) (te_routing e) (te_material e).

(** An established entry whose lifetime is over. *)
Definition overdue (lifetime now_seconds : Z) (e : TunnelEntry) : bool :=
  saturating_sub now_seconds (reg_created_at_seconds (te_registration e)) >=? lifetime.
Definition expires_now (lifetime now_seconds : Z) (e : TunnelEntry) : bool :=
  bool_decide (is_established e) && overdue lifetime now_seconds e.

(** The pass of [advance_time] over one map, in the order of its slots: the map
    with its overdue entries marked, and their slots. *)
Definition mark_expired (lifetime now_seconds : Z) (m : gmap Z TunnelEntry)
    : gmap Z TunnelEntry * list Z :=
  ((λ e, if expires_now lifetime now_seconds e then set_state Expired e else e) <$> m,
   fst <$> filter (λ ke, expires_now lifetime now_seconds ke.2 = true) (entries_asc m)).

Fixpoint remove_all (slots : list Z) (p : ExploratoryPool) : ExploratoryPool :=
  match slots with [] => p | slot :: slots' => remove_all slots' (remove slot p).1 end.

Definition advance_time (now_seconds : Z) (p : ExploratoryPool) : ExploratoryPool * list Z :=
  let '(ib, evicted_in) := mark_expired (lifetime (pool_config p)) now_seconds (inbound p) in
  let '(ob, evicted_out) := mark_expired (lifetime (pool_config p)) now_seconds (outbound p) in
  let evicted := evicted_in ++ evicted_out in
  (remove_all evicted (with_maps ib ob p), evicted).

Definition mark_failed (slot : Z) (p : ExploratoryPool) : ExploratoryPool * option TunnelRegistration :=
  let '(p, removed) := remove slot p in
  let p := match removed with Some _ => count_failure p | None => p end in
  (p, te_registration <$> removed).

Inductive PoolError := UnknownSlot (slot : Z).
Definition mark_established (slot : Z) (p : ExploratoryPool) : ExploratoryPool * result PoolError () :=
  match find_entry slot p with
  | None => (p, Err (UnknownSlot slot))
  | Some e => (with_failures 0 false (update_entry slot (set_state Established e) p), Ok ())
  end.

Inductive ActivationError :=
  | ActivationUnknownSlot (slot : Z)
  | AlreadyActivated
  | PlaceholderMaterial.
Definition activate (slot : Z) (p : ExploratoryPool)
    : ExploratoryPool * result ActivationError EstablishedTunnel :=
  match find_entry slot p with
  | None => (p, Err (ActivationUnknownSlot slot))
  | Some e =>
      let p' := update_entry slot (mkEntry (te_registration e) (te_routing e) Activated) p in
      match te_material e with
      | Activated => (p', Err AlreadyActivated)
      | Available m =>
          if negb (em_extracted m) then (p', Err PlaceholderMaterial)
          else (p', ok_or PlaceholderMaterial (into_established_tunnel m).2)
      end
  end.

(** The scan of [select_inbound_reply_path] for the oldest live tunnel. *)
Definition live (lifetime now_seconds : Z) (e : TunnelEntry) : bool :=
  bool_decide (is_established e) && negb (overdue lifetime now_seconds e).
Definition created (e : TunnelEntry) : Z := reg_created_at_seconds (te_registration e).
Definition older (best : option TunnelEntry) (e : TunnelEntry) : bool :=
  match best with None => true | Some b => created e <? created b end.
Fixpoint scan_oldest (lifetime now_seconds : Z) (best : option TunnelEntry) (l : list TunnelEntry)
    : option TunnelEntry :=
  match l with
  | [] => best
  | e :: l' =>
      if negb (live lifetime now_seconds e) then scan_oldest lifetime now_seconds best l'
      else scan_oldest lifetime now_seconds (if older best e then Some e else best) l'
  end.
Definition select_inbound_reply_path (now_seconds : Z) (p : ExploratoryPool)
    : option (result ReplyPathError ReplyPath) :=
  chosen ← scan_oldest (lifetime (pool_config p)) now_seconds None (snd <$> entries_asc (inbound p));
  Some (reply_path_new (pr_first_hop_router (te_routing chosen))
          (pr_first_hop_receive_tunnel (te_routing chosen))).
End Pool.

(** ** Iteration *)
Section entries.
Implicit Types m : gmap Z TunnelEntry.

Lemma elem_of_entries_asc m k e : (k, e) ∈ Pool.entries_asc m ↔ m !! k = Some e.
Proof.
  unfold Pool.entries_asc. rewrite list_elem_of_omap. split.
  - intros (k' & _ & H). destruct (m !! k') eqn:E; [|done]. cbn in H. by injection H as -> ->.
  - intros H. exists k. rewrite elem_of_keys_asc, H. split; [by eexists|done].
Qed.

Lemma entries_asc_fst m : fst <$> Pool.entries_asc m = keys_asc m.
Proof.
  unfold Pool.entries_asc. assert (H : Forall (λ k, is_Some (m !! k)) (keys_asc m)).
  { apply Forall_forall. intros k. by rewrite elem_of_keys_asc. }
  induction H as [|k l [e He] _ IH]; [done|]. cbn [omap list_omap]. rewrite He. cbn. by f_equal.
Qed.

Lemma NoDup_entries_asc m : NoDup (Pool.entries_asc m).
Proof. apply (NoDup_fmap_1 fst). rewrite entries_asc_fst. apply NoDup_keys_asc. Qed.

Lemma length_entries_asc m : length (Pool.entries_asc m) = size m.
Proof. by rewrite <- (length_keys_asc m), <- entries_asc_fst, length_fmap. Qed.

Lemma established_count_all m :
  map_Forall (λ _, Pool.is_established) m → Pool.established_count m = Z.of_nat (size m).
Proof.
  intros H. unfold Pool.established_count. rewrite <- length_entries_asc. do 2 f_equal.
  assert (Hl : Forall (λ ke : Z * TunnelEntry, Pool.is_established ke.2) (Pool.entries_asc m)).
  { apply Forall_forall. intros [k e]. rewrite elem_of_entries_asc. apply H. }
  induction Hl as [|x l Hx _ IH]; [done|]. rewrite filter_cons_True by done. by f_equal.
Qed.

Lemma find_tunnel_None id l :
  Pool.find_tunnel id l = None ↔ Forall (λ ke, reg_tunnel_id (te_registration ke.2) ≠ id) l.
Proof.
  induction l as [|[k e] l IH]; cbn [Pool.find_tunnel]; [split; [constructor|done]|].
  rewrite Forall_cons. cbn [snd]. destruct (_ =? _) eqn:E; breflect; [naive_solver|]. rewrite IH. naive_solver.
Qed.
End entries.

Lemma find_by_tunnel_id_None id p :
  Pool.find_by_tunnel_id id p = None ↔
  ∀ k e, inbound p !! k = Some e ∨ outbound p !! k = Some e → reg_tunnel_id (te_registration e) ≠ id.
Proof.
  unfold Pool.find_by_tunnel_id. rewrite find_tunnel_None, Forall_app, !Forall_forall. split.
  - intros [Hi Ho] k e [H|H]; [apply (Hi (k, e))|apply (Ho (k, e))]; by apply elem_of_entries_asc.
  - intros H. split; intros [k e] Hk%elem_of_entries_asc; eauto.
Qed.

(** ** The invariant

    Slots are 32-bit numbers and never given twice while the counter has not
    saturated, that is, for the first [u32::MAX] attempts to register. *)
Record entry_ok (d : TunnelDirection) (bound k : Z) (e : TunnelEntry) : Prop := {
  eo_slot : reg_slot (te_registration e) = k;
  eo_below : 0 ≤ k < bound;
  eo_direction : reg_direction (te_registration e) = d;
  eo_established : Pool.is_established e;
  eo_hops : 1 ≤ zlen (reg_hops (te_registration e)) ≤ MAX_HOPS_PER_TUNNEL;
}.

Record pool_ok (p : ExploratoryPool) : Prop := {
  po_inbound : map_Forall (entry_ok Inbound (next_slot p)) (inbound p);
  po_outbound : map_Forall (entry_ok Outbound (next_slot p)) (outbound p);
  po_inbound_len : Pool.inbound_len p ≤ Z.max 0 (max_inbound (pool_config p));
  po_outbound_len : Pool.outbound_len p ≤ Z.max 0 (max_outbound (pool_config p));
  po_slots : inbound p ##ₘ outbound p;
  po_ids : ∀ k1 k2 e1 e2, Pool.find_entry k1 p = Some e1 → Pool.find_entry k2 p = Some e2 →
    reg_tunnel_id (te_registration e1) = reg_tunnel_id (te_registration e2) → k1 = k2;
  po_paused : paused p = true ↔
    0 < consecutive_failures p ∧ failure_threshold (pool_config p) ≤ consecutive_failures p;
  po_failures : 0 ≤ consecutive_failures p ≤ u16_max;
  po_next : 0 ≤ next_slot p ≤ u32_max;
}.

Lemma find_entry_Some slot p e :
  inbound p ##ₘ outbound p →
  Pool.find_entry slot p = Some e ↔ inbound p !! slot = Some e ∨ outbound p !! slot = Some e.
Proof.
  intros Hd. unfold Pool.find_entry. destruct (inbound p !! slot) as [e'|] eqn:E; [|naive_solver].
  assert (outbound p !! slot = None) by by eapply map_disjoint_Some_l. naive_solver.
Qed.

Lemma pool_ok_new config : pool_ok (Pool.new config).
Proof.
  constructor; cbn.
  - apply map_Forall_empty.
  - apply map_Forall_empty.
  - unfold Pool.inbound_len. cbn. rewrite map_size_empty. lia.
  - unfold Pool.outbound_len. cbn. rewrite map_size_empty. lia.
  - apply map_disjoint_empty_l.
  - done.
  - naive_solver lia.
  - unfold u16_max. lia.
  - unfold u32_max. lia.
Qed.

(** Operations that only drop entries or hand their material over. *)
Definition same_meta (e e' : TunnelEntry) : Prop :=
  te_registration e' = te_registration e ∧ te_routing e' = te_routing e ∧
  (te_material e' = te_material e ∨ te_material e' = Activated).
Lemma same_meta_refl e : same_meta e e.
Proof. split_and!; auto. Qed.
#[local] Hint Resolve same_meta_refl : core.
Definition shrinks (m m' : gmap Z TunnelEntry) : Prop :=
  ∀ k e', m' !! k = Some e' → ∃ e, m !! k = Some e ∧ same_meta e e'.

Lemma shrinks_size m m' : shrinks m m' → (size m' ≤ size m)%nat.
Proof.
  intros H. rewrite <- !size_dom. apply subseteq_size. intros k [e Hk]%elem_of_dom.
  destruct (H k e Hk) as (? & ? & _). apply elem_of_dom. by eexists.
Qed.

Lemma shrinks_ok d n m m' : shrinks m m' → map_Forall (entry_ok d n) m → map_Forall (entry_ok d n) m'.
Proof.
  intros Hs H k e' Hk. destruct (Hs k e' Hk) as (e & He & [Hr _]). specialize (H k e He).
  destruct H as [H1 H2 H3 H4 H5]. unfold Pool.is_established in *. constructor; unfold Pool.is_established; rewrite ?Hr; done.
Qed.

Lemma pool_ok_shrinks p ib ob n b :
  pool_ok p → shrinks (inbound p) ib → shrinks (outbound p) ob → 0 ≤ n ≤ u16_max →
  (b = true ↔ 0 < n ∧ failure_threshold (pool_config p) ≤ n) →
  pool_ok (Pool.with_failures n b (Pool.with_maps ib ob p)).
Proof.
  intros [Hi Ho Hil Hol Hd Hid Hp Hf Hn] Hsi Hso Hn' Hb. pose proof (shrinks_size _ _ Hsi).
  pose proof (shrinks_size _ _ Hso). unfold Pool.inbound_len, Pool.outbound_len in *.
  assert (Hdis : ib ##ₘ ob).
  { apply map_disjoint_spec. intros k e1 e2 H1 H2.
    destruct (Hsi _ _ H1) as (? & ? & _). destruct (Hso _ _ H2) as (? & ? & _).
    by eapply (map_disjoint_spec (inbound p) (outbound p)). }
  constructor; cbn; unfold Pool.inbound_len, Pool.outbound_len; cbn; try lia; try done.
  - by eapply shrinks_ok.
  - by eapply shrinks_ok.
  - assert (Hback : ∀ k e', Pool.find_entry k (Pool.with_failures n b (Pool.with_maps ib ob p)) = Some e' →
      ∃ e, Pool.find_entry k p = Some e ∧ te_registration e' = te_registration e).
    { intros k e'. rewrite find_entry_Some by done. cbn. intros [H1|H1].
      - destruct (Hsi _ _ H1) as (e & ? & [? _]). exists e. rewrite find_entry_Some by done. auto.
      - destruct (Hso _ _ H1) as (e & ? & [? _]). exists e. rewrite find_entry_Some by done. auto. }
    intros k1 k2 e1 e2 (e1' & H1 & R1)%Hback (e2' & H2 & R2)%Hback Heq. apply (Hid k1 k2 e1' e2'); congruence.
Qed.

(** ** Removal and expiry *)
Lemma remove_both slot p :
  inbound p ##ₘ outbound p →
  Pool.remove slot p =
  (Pool.with_maps (delete slot (inbound p)) (delete slot (outbound p)) p, Pool.find_entry slot p).
Proof.
  intros Hd. unfold Pool.remove, Pool.find_entry. destruct (inbound p !! slot) as [e|] eqn:E.
  - rewrite (delete_id (outbound p)); [done|]. by eapply map_disjoint_Some_l.
  - by rewrite (delete_id (inbound p)).
Qed.

Definition without (slots : list Z) (m : gmap Z TunnelEntry) : gmap Z TunnelEntry :=
  filter (λ ke, ke.1 ∉ slots) m.

Lemma without_delete k slots m : without slots (delete k m) = without (k :: slots) m.
Proof.
  apply map_eq. intros j. unfold without. rewrite !map_lookup_filter. destruct (decide (j = k)) as [->|Hj].
  - rewrite lookup_delete_eq. cbn. destruct (m !! k); cbn; [|done]. case_guard; [set_solver|done].
  - rewrite lookup_delete_ne by done. destruct (m !! j); cbn; [|done]. repeat case_guard; set_solver.
Qed.

Lemma remove_all_both slots p :
  inbound p ##ₘ outbound p →
  Pool.remove_all slots p = Pool.with_maps (without slots (inbound p)) (without slots (outbound p)) p.
Proof.
  revert p. induction slots as [|k slots IH]; intros p Hd; cbn [Pool.remove_all].
  - destruct p. unfold without, Pool.with_maps. cbn. f_equal; symmetry; apply map_filter_id; set_solver.
  - rewrite remove_both by done. cbn [fst]. rewrite IH.
    + cbn. rewrite !without_delete. done.
    + cbn. apply map_disjoint_delete_l. by apply map_disjoint_delete_r.
Qed.

Definition keep (lt now : Z) (m : gmap Z TunnelEntry) : gmap Z TunnelEntry :=
  filter (λ ke, Pool.expires_now lt now ke.2 = false) m.

Lemma elem_of_evicted lt now m k :
  k ∈ (Pool.mark_expired lt now m).2 ↔ ∃ e, m !! k = Some e ∧ Pool.expires_now lt now e = true.
Proof.
  cbn. rewrite list_elem_of_fmap. split.
  - intros ([k' e] & -> & H). apply list_elem_of_filter in H as [H1 H2%elem_of_entries_asc]. eauto.
  - intros (e & H1 & H2). exists (k, e). split; [done|]. apply list_elem_of_filter.
    by rewrite elem_of_entries_asc.
Qed.

Lemma without_marked lt now m slots :
  (∀ k e, m !! k = Some e → k ∈ slots ↔ Pool.expires_now lt now e = true) →
  without slots (Pool.mark_expired lt now m).1 = keep lt now m.
Proof.
  intros H. apply map_eq. intros k. unfold without, keep. cbn [fst Pool.mark_expired].
  rewrite !map_lookup_filter, lookup_fmap. destruct (m !! k) as [e|] eqn:E; cbn; [|done].
  specialize (H k e E). destruct (Pool.expires_now lt now e) eqn:Ex; cbn; repeat case_guard; cbn; try done; try tauto;
    exfalso; cbn in *; intuition congruence.
Qed.

Lemma advance_time_run now p :
  inbound p ##ₘ outbound p →
  let lt := lifetime (pool_config p) in
  Pool.advance_time now p =
  (Pool.with_maps (keep lt now (inbound p)) (keep lt now (outbound p)) p,
   (Pool.mark_expired lt now (inbound p)).2 ++ (Pool.mark_expired lt now (outbound p)).2).
Proof.
  intros Hd lt. unfold Pool.advance_time. fold lt.
  destruct (Pool.mark_expired lt now (inbound p)) as [ib ei] eqn:Ei.
  destruct (Pool.mark_expired lt now (outbound p)) as [ob eo] eqn:Eo. cbn [snd]. f_equal.
  assert (Hib : ib = (Pool.mark_expired lt now (inbound p)).1) by by rewrite Ei.
  assert (Hob : ob = (Pool.mark_expired lt now (outbound p)).1) by by rewrite Eo.
  assert (Hei : ei = (Pool.mark_expired lt now (inbound p)).2) by by rewrite Ei.
  assert (Heo : eo = (Pool.mark_expired lt now (outbound p)).2) by by rewrite Eo.
  rewrite remove_all_both.
  2:{ cbn. rewrite Hib, Hob. cbn. by apply map_disjoint_fmap. }
  cbn. unfold Pool.with_maps. cbn. rewrite Hib, Hob. f_equal; apply without_marked; intros k e Hk;
    rewrite elem_of_app, Hei, Heo, !elem_of_evicted; split.
  - intros [(e' & He & ?)|(e' & He & ?)]; [congruence|]. exfalso.
    by eapply (map_disjoint_spec (inbound p) (outbound p)).
  - eauto.
  - intros [(e' & He & ?)|(e' & He & ?)]; [|congruence]. exfalso.
    by eapply (map_disjoint_spec (inbound p) (outbound p)).
  - eauto.
Qed.

(** ** Every operation preserves the invariant *)
Inductive pool_op :=
  | OpRegisterInbound (m : EstablishedMaterial) (now_seconds : Z)
  | OpRegisterOutbound (m : EstablishedMaterial) (now_seconds : Z)
  | OpAdvance (now_seconds : Z)
  | OpRemove (slot : Z)
  | OpMarkFailed (slot : Z)
  | OpMarkEstablished (slot : Z)
  | OpActivate (slot : Z)
  | OpBuildFailure.
Definition run_op (o : pool_op) (p : ExploratoryPool) : ExploratoryPool :=
  match o with
  | OpRegisterInbound m now => (Pool.register_inbound_with_material m now p).1
  | OpRegisterOutbound m now => (Pool.register_outbound_with_material m now p).1
  | OpAdvance now => (Pool.advance_time now p).1
  | OpRemove slot => (Pool.remove slot p).1
  | OpMarkFailed slot => (Pool.mark_failed slot p).1
  | OpMarkEstablished slot => (Pool.mark_established slot p).1
  | OpActivate slot => (Pool.activate slot p).1
  | OpBuildFailure => (Pool.note_build_failure p).1
  end.
Definition run_ops (l : list pool_op) (p : ExploratoryPool) : ExploratoryPool :=
  foldl (λ p o, run_op o p) p l.

Lemma shrinks_refl m : shrinks m m.
Proof. intros k e H. eauto. Qed.
Lemma shrinks_delete k m : shrinks m (delete k m).
Proof. intros j e [_ H]%lookup_delete_Some. eauto. Qed.
Lemma shrinks_keep lt now m : shrinks m (keep lt now m).
Proof. intros j e [H _]%map_lookup_filter_Some. eauto. Qed.
Lemma shrinks_insert k e e' m : m !! k = Some e → same_meta e e' → shrinks m (<[k := e']> m).
Proof.
  intros Hk He j f. destruct (decide (j = k)) as [->|Hj].
  - rewrite lookup_insert_eq. intros [= <-]. by exists e.
  - rewrite lookup_insert_ne by done. intros Hf. eauto.
Qed.
#[local] Hint Resolve shrinks_refl shrinks_delete shrinks_keep : core.

Lemma pool_ok_maps p ib ob :
  pool_ok p → shrinks (inbound p) ib → shrinks (outbound p) ob → pool_ok (Pool.with_maps ib ob p).
Proof.
  intros Hok Hi Ho. by apply (pool_ok_shrinks p ib ob (consecutive_failures p) (paused p)); try apply Hok.
Qed.

Lemma pool_ok_failure p : pool_ok p → pool_ok (Pool.count_failure p).
Proof.
  intros Hok. unfold Pool.count_failure. set (n := saturating_add _ _ _).
  assert (Hn : 0 < n ≤ u16_max).
  { pose proof (po_failures p Hok). subst n. unfold saturating_add, u16_max in *. lia. }
  apply (pool_ok_shrinks p (inbound p) (outbound p)); auto; [lia|].
  rewrite Z.geb_leb, Z.leb_le. naive_solver lia.
Qed.

Lemma pool_ok_update slot e e' p :
  pool_ok p → Pool.find_entry slot p = Some e → same_meta e e' → pool_ok (Pool.update_entry slot e' p).
Proof.
  intros Hok He Hm. unfold Pool.find_entry, Pool.update_entry in *.
  destruct (inbound p !! slot) as [e0|] eqn:E.
  - injection He as ->. apply pool_ok_maps; auto. by eapply shrinks_insert.
  - apply pool_ok_maps; auto. by eapply shrinks_insert.
Qed.

Lemma pool_ok_remove slot p : pool_ok p → pool_ok (Pool.remove slot p).1.
Proof. intros Hok. rewrite remove_both by apply Hok. cbn. apply pool_ok_maps; auto. Qed.

Lemma find_entry_ok slot p e :
  pool_ok p → Pool.find_entry slot p = Some e → ∃ d, entry_ok d (next_slot p) slot e.
Proof.
  intros Hok. rewrite find_entry_Some by apply Hok. intros [H|H].
  - exists Inbound. by apply (po_inbound p Hok).
  - exists Outbound. by apply (po_outbound p Hok).
Qed.

Lemma set_state_established e : Pool.is_established e → same_meta e (Pool.set_state Established e).
Proof. destruct e as [[] ? ?]. unfold Pool.is_established. cbn. intros ->. split_and!; auto. Qed.

Lemma entry_ok_mono d n n' k e : n ≤ n' → entry_ok d n k e → entry_ok d n' k e.
Proof. intros Hn []. constructor; try done. lia. Qed.

(** A fresh entry under the slot just taken. *)
Lemma pool_ok_take p : pool_ok p → next_slot p < u32_max → pool_ok (Pool.take_slot p).1.
Proof.
  intros [Hi Ho Hil Hol Hd Hid Hp Hf Hn] Hlt. unfold Pool.take_slot. cbn [fst].
  assert (Hle : next_slot p ≤ saturating_add u32_max (next_slot p) 1 ≤ u32_max) by (unfold saturating_add; lia).
  constructor; cbn; try done; try lia;
    [intros k e H; apply Hi in H|intros k e H; apply Ho in H]; (eapply entry_ok_mono; [|done]; lia).
Qed.

Section fresh.
Context (p : ExploratoryPool) (r : TunnelRegistration) (m : EstablishedMaterial).
Context (Hok : pool_ok p) (Hlt : next_slot p < u32_max).
Context (Hslot : reg_slot r = next_slot p) (Hst : reg_state r = Established).
Context (Hhops : 1 ≤ zlen (reg_hops r) ≤ MAX_HOPS_PER_TUNNEL).
Context (Hid : Pool.find_by_tunnel_id (reg_tunnel_id r) p = None).
Let p' := (Pool.take_slot p).1.
Let e := entry_new r m.

Lemma fresh_slot : inbound p !! next_slot p = None ∧ outbound p !! next_slot p = None.
Proof.
  split; (destruct (_ !! _) as [x|] eqn:E; [exfalso|done]).
  - apply (po_inbound p Hok) in E. destruct E. lia.
  - apply (po_outbound p Hok) in E. destruct E. lia.
Qed.

Lemma fresh_entry_ok d : reg_direction r = d → entry_ok d (next_slot p') (next_slot p) e.
Proof.
  intros Hd. pose proof (po_next p Hok). constructor; try done.
  cbn. unfold saturating_add. lia.
Qed.

Lemma fresh_ids ib ob :
  ib ##ₘ ob →
  (∀ k x, ib !! k = Some x ∨ ob !! k = Some x →
     k = next_slot p ∧ x = e ∨ inbound p !! k = Some x ∨ outbound p !! k = Some x) →
  ∀ k1 k2 e1 e2, Pool.find_entry k1 (Pool.with_maps ib ob p') = Some e1 →
    Pool.find_entry k2 (Pool.with_maps ib ob p') = Some e2 →
    reg_tunnel_id (te_registration e1) = reg_tunnel_id (te_registration e2) → k1 = k2.
Proof.
  intros Hd Hsrc k1 k2 e1 e2. rewrite !find_entry_Some by done. cbn [inbound outbound Pool.with_maps].
  rewrite find_by_tunnel_id_None in Hid.
  intros [[-> ->]|H1]%Hsrc [[-> ->]|H2]%Hsrc Heq; [done| | |].
  - destruct (Hid k2 e2 H2). by rewrite <- Heq.
  - destruct (Hid k1 e1 H1). by rewrite Heq.
  - apply (po_ids p Hok k1 k2 e1 e2); [..|done]; by rewrite find_entry_Some by apply Hok.
Qed.

Lemma pool_ok_insert_inbound :
  reg_direction r = Inbound → Pool.established_count (inbound p) < max_inbound (pool_config p) →
  pool_ok (Pool.with_maps (<[next_slot p := e]> (inbound p)) (outbound p) p').
Proof.
  intros Hd Hroom. destruct fresh_slot as [Fi Fo]. destruct (pool_ok_take p Hok Hlt) as [Hi Ho Hil Hol Hdis _ Hp Hf Hn].
  rewrite established_count_all in Hroom by (intros k x Hx; by apply Hi in Hx as []).
  assert (Hdis' : <[next_slot p := e]> (inbound p) ##ₘ outbound p) by (by apply map_disjoint_insert_l).
  constructor; try done.
  - apply map_Forall_insert_2; [by apply fresh_entry_ok|done].
  - unfold Pool.inbound_len. cbn. rewrite map_size_insert_None by done. lia.
  - apply fresh_ids; [done|]. intros k x. rewrite lookup_insert_Some. naive_solver.
Qed.

Lemma pool_ok_insert_outbound :
  reg_direction r = Outbound → Pool.established_count (outbound p) < max_outbound (pool_config p) →
  pool_ok (Pool.with_maps (inbound p) (<[next_slot p := e]> (outbound p)) p').
Proof.
  intros Hd Hroom. destruct fresh_slot as [Fi Fo]. destruct (pool_ok_take p Hok Hlt) as [Hi Ho Hil Hol Hdis _ Hp Hf Hn].
  rewrite established_count_all in Hroom by (intros k x Hx; by apply Ho in Hx as []).
  assert (Hdis' : inbound p ##ₘ <[next_slot p := e]> (outbound p)) by (by apply map_disjoint_insert_r).
  constructor; try done.
  - apply map_Forall_insert_2; [by apply fresh_entry_ok|done].
  - unfold Pool.outbound_len. cbn. rewrite map_size_insert_None by done. lia.
  - apply fresh_ids; [done|]. intros k x. rewrite lookup_insert_Some. naive_solver.
Qed.
End fresh.

Lemma registration_new_Ok slot id d s hops now r :
  registration_new slot id d s hops now = Ok r →
  r = mkRegistration slot id d s hops now ∧ 1 ≤ zlen hops ≤ MAX_HOPS_PER_TUNNEL.
Proof.
  unfold registration_new. destruct (_ =? 0) eqn:E1; [done|]. destruct (_ >? _) eqn:E2; [done|].
  intros <-%Ok_inj. breflect. pose proof (zlen_nonneg hops). split; [done|lia].
Qed.

Lemma pool_ok_register_inbound m now p :
  pool_ok p → next_slot p < u32_max → pool_ok (Pool.register_inbound_with_material m now p).1.
Proof.
  intros Hok Hlt. unfold Pool.register_inbound_with_material. cbn [Pool.take_slot].
  destruct (registration_new _ _ _ _ _ _) as [r|e] eqn:Er; [|by apply pool_ok_take].
  apply registration_new_Ok in Er as [-> Hh].
  destruct (Pool.find_by_tunnel_id _ _) eqn:Ef; [by apply pool_ok_take|].
  destruct (_ >=? _) eqn:Ec; [by apply pool_ok_take|]. breflect. cbn [fst].
  apply (pool_ok_insert_inbound p _ m); done.
Qed.

Lemma pool_ok_register_outbound m now p :
  pool_ok p → next_slot p < u32_max → pool_ok (Pool.register_outbound_with_material m now p).1.
Proof.
  intros Hok Hlt. unfold Pool.register_outbound_with_material. cbn [Pool.take_slot].
  destruct (registration_new _ _ _ _ _ _) as [r|e] eqn:Er; [|by apply pool_ok_take].
  apply registration_new_Ok in Er as [-> Hh].
  destruct (Pool.find_by_tunnel_id _ _) eqn:Ef; [by apply pool_ok_take|].
  destruct (_ >=? _) eqn:Ec; [by apply pool_ok_take|]. breflect. cbn [fst].
  apply (pool_ok_insert_outbound p _ m); done.
Qed.

Lemma activate_run slot p :
  (Pool.activate slot p).1 =
  match Pool.find_entry slot p with
  | None => p
  | Some e => Pool.update_entry slot (mkEntry (te_registration e) (te_routing e) Activated) p
  end.
Proof.
  unfold Pool.activate. destruct (Pool.find_entry slot p) as [e|]; [|done].
  destruct (te_material e); [|done]. destruct (negb _); done.
Qed.

Lemma run_op_ok o p : pool_ok p → next_slot p < u32_max → pool_ok (run_op o p).
Proof.
  intros Hok Hlt. destruct o; cbn [run_op].
  - by apply pool_ok_register_inbound.
  - by apply pool_ok_register_outbound.
  - rewrite advance_time_run by apply Hok. cbn. apply pool_ok_maps; auto.
  - by apply pool_ok_remove.
  - pose proof (pool_ok_remove slot p Hok). unfold Pool.mark_failed.
    destruct (Pool.remove slot p) as [p' [e|]]; cbn in *; [by apply pool_ok_failure|done].
  - unfold Pool.mark_established. destruct (Pool.find_entry slot p) as [e|] eqn:E; [|done]. cbn.
    pose proof (find_entry_ok slot p e Hok E) as (d & [_ _ _ He _]).
    pose proof (pool_ok_update _ _ _ p Hok E (set_state_established e He)) as Hu.
    set (q := Pool.update_entry _ _ _) in *.
    apply (pool_ok_shrinks q (inbound q) (outbound q)); auto; [unfold u16_max; lia|naive_solver lia].
  - rewrite activate_run. destruct (Pool.find_entry slot p) as [e|] eqn:E; [|done].
    eapply pool_ok_update; [done..|]. split_and!; auto.
  - by apply pool_ok_failure.
Qed.

Lemma next_slot_mono o p : next_slot p ≤ u32_max → next_slot p ≤ next_slot (run_op o p) ≤ u32_max.
Proof.
  intros Hle. assert (Hu : ∀ slot e, next_slot (Pool.update_entry slot e p) = next_slot p).
  { intros slot e. unfold Pool.update_entry. by destruct (_ !! _). }
  assert (Hr : ∀ slot, next_slot (Pool.remove slot p).1 = next_slot p).
  { intros slot. unfold Pool.remove. by destruct (inbound p !! slot). }
  assert (Hra : ∀ l q, next_slot (Pool.remove_all l q) = next_slot q).
  { clear. induction l as [|k l IH]; intros q; cbn; [done|]. rewrite IH. unfold Pool.remove. by destruct (inbound q !! k). }
  assert (Hs : next_slot p ≤ saturating_add u32_max (next_slot p) 1 ≤ u32_max) by (unfold saturating_add; lia).
  destruct o; cbn [run_op].
  - unfold Pool.register_inbound_with_material. cbn [Pool.take_slot]. repeat case_match; cbn; lia.
  - unfold Pool.register_outbound_with_material. cbn [Pool.take_slot]. repeat case_match; cbn; lia.
  - unfold Pool.advance_time. cbn. rewrite Hra. cbn. lia.
  - rewrite Hr. lia.
  - unfold Pool.mark_failed. specialize (Hr slot). destruct (Pool.remove slot p) as [p' [e|]]; cbn in *; lia.
  - unfold Pool.mark_established. destruct (Pool.find_entry slot p); cbn; rewrite ?Hu; lia.
  - rewrite activate_run. destruct (Pool.find_entry slot p); rewrite ?Hu; lia.
  - cbn. lia.
Qed.

Lemma run_ops_mono l p : next_slot p ≤ u32_max → next_slot p ≤ next_slot (run_ops l p) ≤ u32_max.
Proof.
  revert p. induction l as [|o l IH]; intros p Hp; cbn; [lia|]. pose proof (next_slot_mono o p Hp).
  specialize (IH (run_op o p)). unfold run_ops in IH. lia.
Qed.

Lemma run_ops_ok l p : pool_ok p → next_slot (run_ops l p) < u32_max → pool_ok (run_ops l p).
Proof.
  revert p. induction l as [|o l IH]; intros p Hok Hlt; [done|].
  pose proof (po_next p Hok). pose proof (next_slot_mono o p). pose proof (run_ops_mono l (run_op o p)).
  change (run_ops (o :: l) p) with (run_ops l (run_op o p)) in *.
  apply IH; [apply run_op_ok; [done|lia]|done].
Qed.

(** ** What an operation can do to a registered tunnel *)
Lemma shrinks_entry p ib ob k e' n b :
  pool_ok p → shrinks (inbound p) ib → shrinks (outbound p) ob →
  Pool.find_entry k (Pool.with_failures n b (Pool.with_maps ib ob p)) = Some e' →
  ∃ e, Pool.find_entry k p = Some e ∧ same_meta e e'.
Proof.
  intros Hok Hi Ho H. assert (Hk : ib !! k = Some e' ∨ ob !! k = Some e').
  { unfold Pool.find_entry in H. cbn in H. destruct (ib !! k); auto. }
  destruct Hk as [Hk|Hk]; [apply Hi in Hk|apply Ho in Hk]; destruct Hk as (e & He & Hm); exists e;
    (split; [|done]); apply find_entry_Some; auto; apply Hok.
Qed.

Lemma update_entry_later slot e0 e1 p k e' :
  pool_ok p → Pool.find_entry slot p = Some e0 → same_meta e0 e1 →
  Pool.find_entry k (Pool.update_entry slot e1 p) = Some e' → ∃ e, Pool.find_entry k p = Some e ∧ same_meta e e'.
Proof.
  intros Hok He Hm. unfold Pool.update_entry. unfold Pool.find_entry at 1 in He.
  destruct (inbound p !! slot) as [x|] eqn:E.
  - injection He as ->. apply (shrinks_entry p _ _ k e' (consecutive_failures p) (paused p) Hok); [|auto].
    by eapply shrinks_insert.
  - apply (shrinks_entry p _ _ k e' (consecutive_failures p) (paused p) Hok); [auto|].
    by eapply shrinks_insert.
Qed.

Lemma find_entry_insert_ne p (ib : bool) slot x k q :
  k ≠ slot → inbound q = (if ib then <[slot := x]> (inbound p) else inbound p) →
  outbound q = (if ib then outbound p else <[slot := x]> (outbound p)) →
  Pool.find_entry k q = Pool.find_entry k p.
Proof.
  intros Hk Hi Ho. unfold Pool.find_entry. rewrite Hi, Ho. destruct ib; by rewrite !lookup_insert_ne by done.
Qed.

Lemma run_op_later o p k e' :
  pool_ok p → k < next_slot p → Pool.find_entry k (run_op o p) = Some e' →
  ∃ e, Pool.find_entry k p = Some e ∧ same_meta e e'.
Proof.
  intros Hok Hk. destruct o; cbn [run_op].
  - unfold Pool.register_inbound_with_material. cbn [Pool.take_slot].
    repeat case_match; cbn [fst]; intros Hf; try (by eauto).
    rewrite (find_entry_insert_ne p true (next_slot p) (entry_new a m)) in Hf by (done || lia). eauto.
  - unfold Pool.register_outbound_with_material. cbn [Pool.take_slot].
    repeat case_match; cbn [fst]; intros Hf; try (by eauto).
    rewrite (find_entry_insert_ne p false (next_slot p) (entry_new a m)) in Hf by (done || lia). eauto.
  - rewrite advance_time_run by apply Hok. cbn [fst]. intros Hf.
    eapply (shrinks_entry p _ _ k e' (consecutive_failures p) (paused p)); [done| | |exact Hf]; auto.
  - rewrite remove_both by apply Hok. cbn [fst]. intros Hf.
    eapply (shrinks_entry p _ _ k e' (consecutive_failures p) (paused p)); [done| | |exact Hf]; auto.
  - unfold Pool.mark_failed. rewrite remove_both by apply Hok. intros Hf.
    destruct (Pool.find_entry slot p); cbn [fst] in Hf.
    + eapply shrinks_entry; [done| | |exact Hf]; auto.
    + eapply (shrinks_entry p _ _ k e' (consecutive_failures p) (paused p)); [done| | |exact Hf]; auto.
  - unfold Pool.mark_established. destruct (Pool.find_entry slot p) as [e|] eqn:E; [|by eauto]. cbn [fst].
    pose proof (find_entry_ok slot p e Hok E) as (d & [_ _ _ He _]).
    intros Hf. eapply update_entry_later; [done|done|by apply set_state_established|exact Hf].
  - rewrite activate_run. destruct (Pool.find_entry slot p) as [e|] eqn:E; [|by eauto].
    eapply update_entry_later; [done..|]. split_and!; auto.
  - by eauto.
Qed.

(** ** The choice of a reply path *)
Section oldest.
Context (lt now : Z).
Abbreviation live := (Pool.live lt now).

(** The first of the oldest entries of a list. *)
Definition oldest (x : TunnelEntry) (l : list TunnelEntry) : Prop :=
  ∃ pre post, l = pre ++ x :: post ∧ Forall (λ e, Pool.created x < Pool.created e) pre ∧
    Forall (λ e, Pool.created x ≤ Pool.created e) post.

Lemma oldest_younger b e x l :
  Pool.created e < Pool.created b → oldest x (e :: l) → oldest x (b :: e :: l).
Proof.
  intros Hlt ([|e' pre] & post & [= <- ->] & Hpre & Hpost).
  - exists [b], post. split_and!; [done| |done]. by constructor.
  - exists (b :: e :: pre), post. split_and!; [done| |done]. constructor; [|done].
    apply Forall_cons in Hpre as [? _]. lia.
Qed.

Lemma oldest_older b e x l :
  Pool.created b ≤ Pool.created e → oldest x (b :: l) → oldest x (b :: e :: l).
Proof.
  intros Hle ([|e' pre] & post & [= <- ->] & Hpre & Hpost).
  - exists [], (e :: post). split_and!; [done|done|]. by constructor.
  - exists (b :: e :: pre), post. split_and!; [done| |done].
    apply Forall_cons in Hpre as [? Hpre]. do 2 (constructor; [lia|]). done.
Qed.

Lemma scan_oldest_spec best l :
  match Pool.scan_oldest lt now best l with
  | None => best = None ∧ filter (λ e, live e = true) l = []
  | Some x => oldest x (option_list best ++ filter (λ e, live e = true) l)
  end.
Proof.
  revert best. induction l as [|e l IH]; intros best; cbn [Pool.scan_oldest].
  { destruct best as [b|]; [|done]. exists [], []. by split_and!. }
  rewrite filter_cons. destruct (live e) eqn:El; cbn [negb].
  2:{ rewrite decide_False by done. apply IH. }
  rewrite decide_True by done. specialize (IH (if Pool.older best e then Some e else best)).
  destruct best as [b|]; cbn [Pool.older] in *.
  - destruct (Pool.created e <? Pool.created b) eqn:E; breflect; cbn [option_list app] in *;
      (destruct (Pool.scan_oldest _ _ _ _) as [x|]; [|by destruct IH]).
    + by apply oldest_younger.
    + apply oldest_older; [lia|done].
  - destruct (Pool.scan_oldest _ _ _ _) as [x|]; [done|by destruct IH].
Qed.

(** The slot of the chosen entry. *)
Definition chosen (m : gmap Z TunnelEntry) (k : Z) (e : TunnelEntry) : Prop :=
  m !! k = Some e ∧ live e = true ∧
  ∀ k' e', m !! k' = Some e' → live e' = true →
    Pool.created e < Pool.created e' ∨ Pool.created e = Pool.created e' ∧ k ≤ k'.

Lemma filter_snd (l : list (Z * TunnelEntry)) :
  filter (λ e, live e = true) (snd <$> l) = snd <$> filter (λ ke, live ke.2 = true) l.
Proof.
  induction l as [|[k e] l IH]; [done|]. cbn [fmap list_fmap]. rewrite !filter_cons. cbn [snd].
  destruct (decide (live e = true)); cbn [fmap list_fmap]; [f_equal|]; apply IH.
Qed.

Lemma live_entries m k e :
  (k, e) ∈ filter (λ ke, live ke.2 = true) (Pool.entries_asc m) ↔ m !! k = Some e ∧ live e = true.
Proof. rewrite list_elem_of_filter, elem_of_entries_asc. cbn. naive_solver. Qed.

Lemma entries_sorted m : StronglySorted (λ a b : Z * TunnelEntry, a.1 ≤ b.1) (Pool.entries_asc m).
Proof.
  assert (H : StronglySorted Z.le (fst <$> Pool.entries_asc m)).
  { rewrite entries_asc_fst. apply Sorted_StronglySorted, Sorted_keys_asc. intros x y z. lia. }
  remember (fst <$> _) as ks eqn:E. revert E. generalize (Pool.entries_asc m). clear m.
  induction H as [|k ks _ IH Hk]; intros [|[k' e] l] E; try done; [constructor|].
  rewrite fmap_cons in E. injection E as -> ->. constructor; [by apply IH|]. by rewrite Forall_fmap in Hk.
Qed.

Lemma sorted_filter {A} (R : relation A) (P : A → Prop) `{∀ x, Decision (P x)} l :
  StronglySorted R l → StronglySorted R (filter P l).
Proof.
  induction 1 as [|x l _ IH Hx]; [constructor|]. rewrite filter_cons. case_decide; [|done].
  constructor; [done|]. rewrite Forall_forall in *. intros y [_ Hy]%list_elem_of_filter. auto.
Qed.

Lemma scan_entries m :
  match Pool.scan_oldest lt now None (snd <$> Pool.entries_asc m) with
  | None => ∀ k e, m !! k = Some e → live e = false
  | Some e => ∃ k, chosen m k e
  end.
Proof.
  pose proof (scan_oldest_spec None (snd <$> Pool.entries_asc m)) as H. rewrite filter_snd in H.
  destruct (Pool.scan_oldest _ _ _ _) as [x|].
  - destruct H as (pre & post & H & Hpre & Hpost). cbn [option_list app] in H.
    pose proof (sorted_filter _ (λ ke, live ke.2 = true) _ (entries_sorted m)) as Hs.
    pose proof (live_entries m) as Hin. remember (filter _ _) as l eqn:E. clear E.
    apply fmap_app_inv in H as (l1 & l2 & -> & H & ->). symmetry in H.
    apply fmap_cons_inv in H as ([k x'] & l3 & -> & -> & ->). cbn [snd] in *. exists k.
    apply StronglySorted_app_1_r in Hs. apply StronglySorted_inv in Hs as [_ Hs].
    rewrite !Forall_fmap, !Forall_forall in *.
    split; [|split]; [apply (Hin k x'); set_solver..|]. intros k' e' Hk' Hl'.
    assert (Hin' : (k', e') ∈ l1 ++ (k, x') :: l3) by by apply Hin.
    apply elem_of_app in Hin' as [Hi|Hi]; [left; by apply (Hpre (k', e'))|].
    apply elem_of_cons in Hi as [[= -> ->]|Hi]; [right; lia|].
    specialize (Hpost (k', e') Hi). specialize (Hs (k', e') Hi). cbn in Hpost, Hs. lia.
  - destruct H as [_ H]. intros k e He. destruct (live e) eqn:El; [exfalso|done].
    assert (Hin : (k, e) ∈ filter (λ ke, live ke.2 = true) (Pool.entries_asc m)) by by apply live_entries.
    apply fmap_nil_inv in H. rewrite H in Hin. set_solver.
Qed.

Lemma chosen_unique m k e k' e' : chosen m k e → chosen m k' e' → k = k' ∧ e = e'.
Proof.
  intros (H1 & L1 & M1) (H2 & L2 & M2). specialize (M1 k' e' H2 L2). specialize (M2 k e H1 L1).
  assert (k = k') as -> by lia. split; [done|congruence].
Qed.
End oldest.

(** ** Properties *)
Definition reachable (config : ExploratoryPoolConfig) (p : ExploratoryPool) : Prop :=
  next_slot p < u32_max ∧ ∃ l, p = run_ops l (Pool.new config).

Lemma reachable_ok config p : reachable config p → pool_ok p.
Proof. intros [Hlt [l ->]]. apply run_ops_ok; [apply pool_ok_new|done]. Qed.

Lemma run_op_config o p : pool_config (run_op o p) = pool_config p.
Proof.
  assert (Hra : ∀ l q, pool_config (Pool.remove_all l q) = pool_config q).
  { clear. induction l as [|k l IH]; intros q; cbn; [done|]. rewrite IH. unfold Pool.remove. by destruct (inbound q !! k). }
  destruct o; cbn [run_op].
  - unfold Pool.register_inbound_with_material. cbn [Pool.take_slot]. by repeat case_match.
  - unfold Pool.register_outbound_with_material. cbn [Pool.take_slot]. by repeat case_match.
  - unfold Pool.advance_time. cbn. by rewrite Hra.
  - unfold Pool.remove. by destruct (inbound p !! slot).
  - unfold Pool.mark_failed, Pool.remove. by destruct (inbound p !! slot), (outbound p !! slot).
  - unfold Pool.mark_established, Pool.update_entry. destruct (Pool.find_entry slot p); [|done]. by destruct (inbound p !! slot).
  - rewrite activate_run. unfold Pool.update_entry. destruct (Pool.find_entry slot p); [|done]. by destruct (inbound p !! slot).
  - done.
Qed.

Lemma reachable_config config p : reachable config p → pool_config p = config.
Proof.
  intros [_ [l ->]]. change config with (pool_config (Pool.new config)) at 2. generalize (Pool.new config).
  induction l as [|o l IH]; intros q; [done|].
  change (run_ops (o :: l) q) with (run_ops l (run_op o q)). rewrite IH. apply run_op_config.
Qed.

Lemma pool_config_try_new_Ok a b c d e f config :
  pool_config_try_new a b c d e f = Ok config →
  config = mkPoolConfig a b c d e f ∧ a ≤ MAX_EXPLORATORY_INBOUND ∧ b ≤ MAX_EXPLORATORY_OUTBOUND.
Proof.
  unfold pool_config_try_new. repeat (case_match; [done|]). breflect. unfold from_seconds.
  repeat (case_match; [done|]). cbn. intros <-%Ok_inj. done.
Qed.

(** The pool is bounded and consistent.  Whatever sequence of registrations,
    expiries, failures, removals and activations is applied to a new pool, it
    holds at most the configured number of tunnels in each direction (at most
    eight), all of them established, with one to eight hops, filed under their
    own slot in the map of their direction; no slot and no tunnel identifier is
    used twice; and builds are paused exactly when the consecutive failures
    have reached the threshold. *)
Theorem pool_bounded a b c d e f config p
    (Ha : fits 16 a) (Hb : fits 16 b) (Hc : pool_config_try_new a b c d e f = Ok config)
    (Hp : reachable config p) :
  Pool.inbound_len p ≤ a ≤ 8 ∧ Pool.outbound_len p ≤ b ≤ 8 ∧
  map_Forall (entry_ok Inbound (next_slot p)) (inbound p) ∧
  map_Forall (entry_ok Outbound (next_slot p)) (outbound p) ∧
  inbound p ##ₘ outbound p ∧
  (∀ k1 k2 e1 e2, Pool.find_entry k1 p = Some e1 → Pool.find_entry k2 p = Some e2 →
     reg_tunnel_id (te_registration e1) = reg_tunnel_id (te_registration e2) → k1 = k2) ∧
  (paused p = true ↔ 0 < consecutive_failures p ∧ f ≤ consecutive_failures p).
Proof.
  pose proof (reachable_config _ _ Hp) as Hcfg. apply pool_config_try_new_Ok in Hc as (-> & Ha8 & Hb8).
  destruct (reachable_ok _ _ Hp) as [Hi Ho Hil Hol Hd Hid Hpause _ _]. rewrite Hcfg in *. cbn in *.
  unfold fits, MAX_EXPLORATORY_INBOUND, MAX_EXPLORATORY_OUTBOUND in *.
  split_and!; try done; lia.
Qed.

(** The slot is spent: it was handed out, and whatever is filed under it has given
    its material away. *)
Definition dry (slot : Z) (m : gmap Z TunnelEntry) : Prop := ∀ e, m !! slot = Some e → te_material e = Activated.
Definition spent (slot : Z) (p : ExploratoryPool) : Prop :=
  slot < next_slot p ≤ u32_max ∧ dry slot (inbound p) ∧ dry slot (outbound p).

Lemma dry_delete slot k m : dry slot m → dry slot (delete k m).
Proof. intros Hd e [_ He]%lookup_delete_Some. by apply Hd. Qed.
Lemma dry_insert_ne slot k e m : k ≠ slot → dry slot m → dry slot (<[k := e]> m).
Proof. intros Hk Hd e' [[? _]|[_ He]]%lookup_insert_Some; [done|by apply Hd]. Qed.
Lemma dry_insert slot k e e' m : m !! k = Some e → te_material e' = te_material e ∨ te_material e' = Activated →
  dry slot m → dry slot (<[k := e']> m).
Proof.
  intros He Hm Hd x [[<- <-]|[_ Hx]]%lookup_insert_Some; [|by apply Hd]. destruct Hm as [->|]; [by apply Hd|done].
Qed.
Lemma dry_marked slot lifetime now m : dry slot m → dry slot (Pool.mark_expired lifetime now m).1.
Proof. intros Hd e. cbn [fst Pool.mark_expired]. intros (e' & <- & He)%lookup_fmap_Some. destruct (Pool.expires_now _ _ _); [destruct e'|]; by apply (Hd _ He). Qed.

Lemma spent_remove slot k p : spent slot p → spent slot (Pool.remove k p).1.
Proof.
  intros (Hn & Hi & Ho). unfold Pool.remove. destruct (inbound p !! k); cbn; (split; [done|]); split; try done; by apply dry_delete.
Qed.
Lemma spent_remove_all slot ks p : spent slot p → spent slot (Pool.remove_all ks p).
Proof. revert p. induction ks as [|k ks IH]; intros p Hs; [done|]. cbn. by apply IH, spent_remove. Qed.
Lemma spent_update slot k e e' p : Pool.find_entry k p = Some e → te_material e' = te_material e ∨ te_material e' = Activated →
  spent slot p → spent slot (Pool.update_entry k e' p).
Proof.
  intros He Hm (Hn & Hi & Ho). unfold Pool.find_entry in He. unfold Pool.update_entry.
  destruct (inbound p !! k) as [x|] eqn:E; cbn; (split; [done|]); split; try done; [injection He as ->|]; by eapply dry_insert.
Qed.

Lemma spent_run_op slot o p : spent slot p → spent slot (run_op o p).
Proof.
  intros Hs. pose proof Hs as ([Hlt Hle] & Hi & Ho). assert (Hsat : next_slot p ≤ saturating_add u32_max (next_slot p) 1 ≤ u32_max) by (unfold saturating_add; lia).
  assert (Hne : next_slot p ≠ slot) by lia. destruct o; cbn [run_op].
  - unfold Pool.register_inbound_with_material. cbn [Pool.take_slot]. repeat case_match; (split; [cbn; lia|]); split; try done; by apply dry_insert_ne.
  - unfold Pool.register_outbound_with_material. cbn [Pool.take_slot]. repeat case_match; (split; [cbn; lia|]); split; try done; by apply dry_insert_ne.
  - unfold Pool.advance_time. cbn [fst snd]. destruct (Pool.mark_expired _ _ (inbound p)) as [ib ev] eqn:E1, (Pool.mark_expired _ _ (outbound p)) as [ob ev'] eqn:E2.
    apply spent_remove_all. apply (f_equal fst) in E1, E2. cbn [fst] in E1, E2. subst ib ob. split; [done|]. split; by apply dry_marked.
  - by apply spent_remove.
  - unfold Pool.mark_failed. pose proof (spent_remove slot slot0 p Hs) as Hr. destruct (Pool.remove slot0 p) as [p' [e|]]; by cbn in *.
  - unfold Pool.mark_established. destruct (Pool.find_entry slot0 p) as [e|] eqn:E; [|done].
    pose proof (spent_update slot slot0 e (Pool.set_state Established e) p E (or_introl eq_refl) Hs) as Hu. by cbn.
  - rewrite activate_run. destruct (Pool.find_entry slot0 p) as [e|] eqn:E; [|done]. eapply spent_update; eauto.
  - done.
Qed.

Lemma spent_run_ops slot l p : spent slot p → spent slot (run_ops l p).
Proof. revert p. induction l as [|o l IH]; intros p Hs; [done|]. cbn. by apply IH, spent_run_op. Qed.

Lemma activate_Ok slot p p' t :
  Pool.activate slot p = (p', Ok t) →
  ∃ e m, Pool.find_entry slot p = Some e ∧ te_material e = Available m ∧ em_extracted m = true ∧
    t = mkTunnel (em_direction m) (em_creator_tunnel_id m) (em_hops m) (em_created_at_seconds m)
          (em_inbound_gateway m) (em_local_inbound_receive m) ∧
    p' = Pool.update_entry slot (mkEntry (te_registration e) (te_routing e) Activated) p.
Proof.
  unfold Pool.activate. destruct (Pool.find_entry slot p) as [e|]; [|done].
  destruct (te_material e) as [m|] eqn:Em; [|done]. destruct (em_extracted m) eqn:Ex; cbn [negb]; [|done].
  unfold into_established_tunnel. rewrite Ex. cbn [negb ok_or snd]. intros [= <- <-]. eauto 10.
Qed.

Lemma spent_no_material slot p p' t : spent slot p → Pool.activate slot p ≠ (p', Ok t).
Proof.
  intros (_ & Hi & Ho) (e & m & He & Hm & _)%activate_Ok. unfold Pool.find_entry in He.
  destruct (inbound p !! slot) as [x|] eqn:E; [injection He as ->; apply Hi in E; congruence|apply Ho in He; congruence].
Qed.

Lemma update_entry_lookup slot e e' p k :
  Pool.find_entry slot p = Some e →
  Pool.find_entry k (Pool.update_entry slot e' p) = if decide (k = slot) then Some e' else Pool.find_entry k p.
Proof.
  unfold Pool.find_entry, Pool.update_entry. destruct (inbound p !! slot) eqn:Ei; intros He; cbn.
  - destruct (decide (k = slot)) as [->|]; [by rewrite lookup_insert_eq|by rewrite lookup_insert_ne].
  - destruct (decide (k = slot)) as [->|]; [by rewrite Ei, lookup_insert_eq|by rewrite lookup_insert_ne].
Qed.

Definition reply_path_of (e : TunnelEntry) : result ReplyPathError ReplyPath :=
  reply_path_new (pr_first_hop_router (te_routing e)) (pr_first_hop_receive_tunnel (te_routing e)).

Lemma select_inbound_reply_path_iff now p r :
  Pool.select_inbound_reply_path now p = Some r ↔
  ∃ k e, chosen (lifetime (pool_config p)) now (inbound p) k e ∧ r = reply_path_of e.
Proof.
  unfold Pool.select_inbound_reply_path. pose proof (scan_entries (lifetime (pool_config p)) now (inbound p)) as H.
  destruct (Pool.scan_oldest _ _ _ _) as [x|]; cbn.
  - destruct H as [k Hk]. split; [intros [= <-]; eauto|]. intros (k' & e & He & ->).
    by destruct (chosen_unique _ _ _ _ _ _ _ Hk He) as [_ ->].
  - split; [done|]. intros (k & e & (Hk & Hl & _) & _). specialize (H k e Hk). congruence.
Qed.

Lemma chosen_insert lt now m slot e e' k x :
  m !! slot = Some e → te_registration e' = te_registration e → te_routing e' = te_routing e →
  chosen lt now m k x → ∃ x', chosen lt now (<[slot := e']> m) k x' ∧ reply_path_of x' = reply_path_of x.
Proof.
  intros He Hr Ht (Hk & Hl & Hmin).
  assert (Hsame : ∀ j y', <[slot := e']> m !! j = Some y' →
    ∃ y, m !! j = Some y ∧ te_registration y' = te_registration y ∧ te_routing y' = te_routing y).
  { intros j y'. rewrite lookup_insert_Some. intros [[<- <-]|[_ Hy]]; eauto. }
  assert (Hlv : ∀ y y' : TunnelEntry, te_registration y' = te_registration y →
    Pool.live lt now y' = Pool.live lt now y ∧ Pool.created y' = Pool.created y).
  { intros [ry ty my] [ry' ty' my'] E. cbn in E. by subst ry'. }
  exists (if decide (k = slot) then e' else x).
  assert (Hx : te_registration (if decide (k = slot) then e' else x) = te_registration x ∧
    te_routing (if decide (k = slot) then e' else x) = te_routing x).
  { case_decide; [subst k; rewrite He in Hk; by injection Hk as ->|done]. }
  destruct Hx as [Hxr Hxt]. destruct (Hlv _ _ Hxr) as [Hxl Hxc]. split.
  - split; [|split; [by rewrite Hxl|]].
    + rewrite lookup_insert_Some. case_decide; [by left|by right].
    + intros k' y' (y & Hy & Hyr & _)%Hsame. destruct (Hlv _ _ Hyr) as [-> ->]. rewrite Hxc. by apply Hmin.
  - unfold reply_path_of. by rewrite Hxt.
Qed.

Lemma select_activated now slot e p :
  Pool.find_entry slot p = Some e →
  Pool.select_inbound_reply_path now (Pool.update_entry slot (mkEntry (te_registration e) (te_routing e) Activated) p) =
  Pool.select_inbound_reply_path now p.
Proof.
  intros He. unfold Pool.find_entry, Pool.update_entry in *. destruct (inbound p !! slot) as [x|] eqn:E; [|done].
  injection He as ->. set (e' := mkEntry _ _ _). apply option_eq. intros r.
  rewrite !select_inbound_reply_path_iff. cbn [inbound pool_config Pool.with_maps]. split.
  - intros (k & y & Hc & ->). apply (chosen_insert _ _ _ slot e' e) in Hc as (y' & Hc & Hr);
      [|by rewrite lookup_insert_eq|done..].
    rewrite insert_insert_eq, insert_id in Hc by done. eauto.
  - intros (k & y & Hc & ->). apply (chosen_insert _ _ _ slot e e') in Hc as (y' & Hc & Hr); [eauto|done..].
Qed.

(** C34: the secret material of a tunnel is handed over once.  In a pool that has
    given out fewer than 2^32 - 1 slots, a successful activation returns exactly
    the tunnel that was registered under the slot; it changes neither the public
    metadata of the slot nor the choice of a reply path; and whatever happens to the pool afterwards,
    for however long, activating the slot never succeeds again.  (The counter of slots stays at
    its maximum, so a pool that has given out 2^32 - 1 slots files every
    further tunnel under slot 2^32 - 1; that slot is not one of those the
    theorem speaks of.) *)
Theorem activate_once config p p' slot t
    (Hp : reachable config p) (Hact : Pool.activate slot p = (p', Ok t)) :
  (∃ m, Pool.established slot p = Some m ∧ (into_established_tunnel m).2 = Some t) ∧
  Pool.registration slot p' = Pool.registration slot p ∧ Pool.routing slot p' = Pool.routing slot p ∧
  (∀ now, Pool.select_inbound_reply_path now p' = Pool.select_inbound_reply_path now p) ∧
  ∀ l q t', Pool.activate slot (run_ops l p') ≠ (q, Ok t').
Proof.
  pose proof (reachable_ok _ _ Hp) as Hok. apply activate_Ok in Hact as (e & m & He & Hm & Hx & -> & ->).
  pose proof (find_entry_ok slot p e Hok He) as (d & Heo).
  assert (Hok' : pool_ok (Pool.update_entry slot (mkEntry (te_registration e) (te_routing e) Activated) p)).
  { eapply pool_ok_update; [done..|]. split_and!; auto. }
  pose proof (update_entry_lookup slot e (mkEntry (te_registration e) (te_routing e) Activated) p slot He) as Hlk.
  rewrite decide_True in Hlk by done. split_and!.
  - exists m. unfold Pool.established. rewrite He. cbn. unfold available_material. rewrite Hm. split; [done|].
    unfold into_established_tunnel. by rewrite Hx.
  - unfold Pool.registration. by rewrite Hlk, He.
  - unfold Pool.routing. by rewrite Hlk, He.
  - intros now. by apply select_activated.
  - intros l q t'. apply spent_no_material, spent_run_ops. split; [|split].
    + replace (next_slot (Pool.update_entry _ _ p)) with (next_slot p) by (unfold Pool.update_entry; by destruct (_ !! _)).
      destruct Heo as [_ [_ ?] _ _ _]. pose proof (po_next p Hok). lia.
    + intros e' He'. assert (Hf : Pool.find_entry slot (Pool.update_entry slot (mkEntry (te_registration e) (te_routing e) Activated) p) = Some e')
        by (apply find_entry_Some; [apply Hok'|auto]). rewrite Hlk in Hf. by injection Hf as <-.
    + intros e' He'. assert (Hf : Pool.find_entry slot (Pool.update_entry slot (mkEntry (te_registration e) (te_routing e) Activated) p) = Some e')
        by (apply find_entry_Some; [apply Hok'|auto]). rewrite Hlk in Hf. by injection Hf as <-.
Qed.

(** The counter of slots does not stop: once it has reached its maximum, every
    tunnel is filed under that one slot, in place of the tunnel before it. *)
Theorem saturated_slot_reused m now p p' slot evicted
    (Hn : next_slot p = u32_max) (Hr : Pool.register_inbound_with_material m now p = (p', Ok (Inserted slot evicted))) :
  slot = u32_max ∧ next_slot p' = u32_max.
Proof.
  revert Hr. unfold Pool.register_inbound_with_material. cbn [Pool.take_slot]. rewrite Hn.
  repeat case_match; try done. intros [= <- <- _]. by cbn.
Qed.

(** Expiry is exact.  Advancing the clock of a reachable pool reports every
    tunnel whose lifetime is over, each once, removes exactly those and leaves
    every other tunnel as it was. *)
Theorem advance_time_exact config p now (Hp : reachable config p) :
  let over e := lifetime config <=? saturating_sub now (reg_created_at_seconds (te_registration e)) in
  (∀ slot, Pool.find_entry slot (Pool.advance_time now p).1 =
     e ← Pool.find_entry slot p; if over e then None else Some e) ∧
  NoDup (Pool.advance_time now p).2 ∧
  ∀ slot, slot ∈ (Pool.advance_time now p).2 ↔ ∃ e, Pool.find_entry slot p = Some e ∧ over e = true.
Proof.
  intros over. pose proof (reachable_ok _ _ Hp) as Hok. pose proof (reachable_config _ _ Hp) as Hcfg.
  rewrite advance_time_run by apply Hok. cbn [fst snd]. rewrite Hcfg.
  assert (Hex : ∀ k e, Pool.find_entry k p = Some e → Pool.expires_now (lifetime config) now e = over e).
  { intros k e He. destruct (find_entry_ok k p e Hok He) as (d & [_ _ _ Hst _]).
    unfold Pool.expires_now, Pool.overdue. rewrite bool_decide_true by done. cbn. subst over. cbn. by rewrite Z.geb_leb. }
  split_and!.
  - intros slot. unfold Pool.find_entry, keep in *. cbn. rewrite !map_lookup_filter. specialize (Hex slot).
    pose proof (map_disjoint_spec (inbound p) (outbound p)) as [Hd _]. specialize (Hd (po_slots p Hok) slot).
    destruct (inbound p !! slot) as [e|]; cbn.
    + specialize (Hex e eq_refl). rewrite Hex. destruct (over e); cbn; [|done].
      destruct (outbound p !! slot) as [e'|]; [by destruct (Hd e e')|done].
    + destruct (outbound p !! slot) as [e|]; cbn; [|done]. specialize (Hex e eq_refl). rewrite Hex. by destruct (over e).
  - assert (Hnd : ∀ m, NoDup (Pool.mark_expired (lifetime config) now m).2).
    { intros m. cbn. apply (sublist_NoDup _ (fst <$> Pool.entries_asc m)); [rewrite entries_asc_fst; apply NoDup_keys_asc|].
      apply fmap_sublist, sublist_filter. }
    apply NoDup_app. split_and!; [apply Hnd| |apply Hnd].
    intros k. rewrite !elem_of_evicted. intros (e & He & _) (e' & He' & _).
    by eapply (map_disjoint_spec (inbound p) (outbound p)); [apply Hok|..].
  - intros slot. rewrite elem_of_app, !elem_of_evicted.
    pose proof (λ e, find_entry_Some slot p e (po_slots p Hok)) as Hf. split.
    + intros [(e & H & Hx)|(e & H & Hx)]; exists e; (rewrite <- (Hex slot) by (apply Hf; auto));
        (split; [apply Hf; auto|done]).
    + intros (e & He & Hx). rewrite <- (Hex slot e He) in Hx. apply Hf in He as [H|H]; eauto.
Qed.

(** The reply path is the oldest live tunnel.  A reachable pool answers a
    request for a reply path exactly when some inbound tunnel is within its
    lifetime, and then with the public gateway of the tunnel registered first
    (the lowest slot among those registered in the same second). *)
Theorem reply_path_exact config p now r (Hp : reachable config p) :
  let within e := bool_decide (saturating_sub now (Pool.created e) < lifetime config) in
  Pool.select_inbound_reply_path now p = Some r ↔
  ∃ slot e, inbound p !! slot = Some e ∧ within e = true ∧
    (∀ slot' e', inbound p !! slot' = Some e' → within e' = true →
       Pool.created e < Pool.created e' ∨ Pool.created e = Pool.created e' ∧ slot ≤ slot') ∧
    r = reply_path_new (pr_first_hop_router (te_routing e)) (pr_first_hop_receive_tunnel (te_routing e)).
Proof.
  intros within. pose proof (reachable_ok _ _ Hp) as Hok. pose proof (reachable_config _ _ Hp) as Hcfg.
  rewrite select_inbound_reply_path_iff, Hcfg.
  assert (Hl : ∀ k e, inbound p !! k = Some e → Pool.live (lifetime config) now e = within e).
  { intros k e He. apply (po_inbound p Hok) in He as [_ _ _ Hst _]. unfold Pool.live, Pool.overdue.
    rewrite bool_decide_true by done. subst within. cbn. unfold Pool.created.
    case_bool_decide; destruct (_ >=? _) eqn:E; breflect; cbn; lia || done. }
  unfold chosen, reply_path_of. split.
  - intros (k & e & (Hk & Hlv & Hmin) & ->). exists k, e. rewrite <- (Hl k e Hk). split_and!; [done..| |done].
    intros k' e' Hk'. rewrite <- (Hl k' e' Hk'). by apply Hmin.
  - intros (k & e & Hk & Hlv & Hmin & ->). exists k, e. rewrite <- (Hl k e Hk) in Hlv. split_and!; [done..| |done].
    intros k' e' Hk'. rewrite (Hl k' e' Hk'). by apply Hmin.
Qed.

(** ** Witnesses: a pool with two inbound tunnels *)
Definition sample_hop_keys : LayerKeys := layer_keys_new (repeat 1 32) (repeat 2 32) (repeat 3 32).
Definition sample_inbound (id : Z) : EstablishedMaterial :=
  mkMaterial Inbound id
    [hop_with_next (repeat 2 32) InboundGateway 77 sample_hop_keys (mkNextHop (repeat 3 32) 99)]
    0 (repeat 2 32, 77) 99 true.
Definition sample_pool : ExploratoryPool :=
  run_ops [OpRegisterInbound (sample_inbound 5) 10; OpRegisterInbound (sample_inbound 6) 20]
    (Pool.new pool_config_balanced).

Lemma sample_pool_reachable : reachable pool_config_balanced sample_pool.
Proof. split; [vm_compute; reflexivity|]. by eexists. Qed.

Lemma pool_bounded_witness : Pool.inbound_len sample_pool ≤ 4 ≤ 8 ∧ Pool.inbound_len sample_pool = 2.
Proof.
  split; [|vm_compute; reflexivity].
  apply (pool_bounded 4 4 2 600 2 8 pool_config_balanced sample_pool).
  - vm_compute. split; [discriminate|reflexivity].
  - vm_compute. split; [discriminate|reflexivity].
  - vm_compute. reflexivity.
  - apply sample_pool_reachable.
Defined.

Lemma activate_once_witness :
  Pool.established 0 sample_pool = Some (sample_inbound 5) ∧
  Pool.registration 0 (Pool.activate 0 sample_pool).1 = Pool.registration 0 sample_pool.
Proof.
  split; [vm_compute; reflexivity|].
  apply (activate_once pool_config_balanced sample_pool (Pool.activate 0 sample_pool).1 0
    (mkTunnel Inbound 5 (em_hops (sample_inbound 5)) 0 (repeat 2 32, 77) 99)).
  - apply sample_pool_reachable.
  - vm_compute. reflexivity.
Defined.

Lemma advance_time_exact_witness :
  0 ∈ (Pool.advance_time 610 sample_pool).2 ↔
  ∃ e, Pool.find_entry 0 sample_pool = Some e ∧
    (600 <=? saturating_sub 610 (reg_created_at_seconds (te_registration e))) = true.
Proof. apply (advance_time_exact pool_config_balanced sample_pool 610). apply sample_pool_reachable. Defined.

Lemma reply_path_exact_witness :
  Pool.select_inbound_reply_path 50 sample_pool = Some (Ok (mkReplyPath (repeat 2 32) 77)) ∧
  ∃ slot e, inbound sample_pool !! slot = Some e ∧
    bool_decide (saturating_sub 50 (Pool.created e) < 600) = true ∧
    (∀ slot' e', inbound sample_pool !! slot' = Some e' →
       bool_decide (saturating_sub 50 (Pool.created e') < 600) = true →
       Pool.created e < Pool.created e' ∨ Pool.created e = Pool.created e' ∧ slot ≤ slot') ∧
    Ok (mkReplyPath (repeat 2 32) 77) =
    reply_path_new (pr_first_hop_router (te_routing e)) (pr_first_hop_receive_tunnel (te_routing e)).
Proof.
  assert (H : Pool.select_inbound_reply_path 50 sample_pool = Some (Ok (mkReplyPath (repeat 2 32) 77)))
    by (vm_compute; reflexivity).
  split; [exact H|].
  apply (reply_path_exact pool_config_balanced sample_pool 50 (Ok (mkReplyPath (repeat 2 32) 77))).
  - apply sample_pool_reachable.
  - exact H.
Defined.
