(* ===== verification/TunnelLayer.v ===== *)
(** * Tunnel layers and the replay window

    Models [src/crates/i2pr-tunnel/src/layer.rs]: the layer a hop adds to a cell,
    the inverse the creator of the tunnel applies, and the bounded window in which
    a hop remembers the cells it has seen.  AES-256 and its CBC mode come from the
    crates [aes] and [cbc] and are the operations of the class [TunnelCipher];
    [TunnelCipherLaws] is what is documented of them: decryption inverts
    encryption and the other way around, block for block. *)
From S2P Require Import Prelude Tunnel.

Definition TUNNEL_IV_LEN : Z := 16.
Definition TUNNEL_PAYLOAD_LEN : Z := 1008.
Definition MAX_DUPLICATE_WINDOW : Z := 1024.

Class TunnelCipher := {
  aes256_ecb_encrypt_block (key block : bytes) : bytes;
  aes256_ecb_decrypt_block (key block : bytes) : bytes;
  aes256_cbc_encrypt (key iv plaintext : bytes) : bytes;
  aes256_cbc_decrypt (key iv ciphertext : bytes) : bytes;
}.

Class TunnelCipherLaws (C : TunnelCipher) : Prop := {
  ecb_encrypt_len k b : zlen b = TUNNEL_IV_LEN → zlen (aes256_ecb_encrypt_block k b) = TUNNEL_IV_LEN;
  ecb_decrypt_len k b : zlen b = TUNNEL_IV_LEN → zlen (aes256_ecb_decrypt_block k b) = TUNNEL_IV_LEN;
  ecb_decrypt_encrypt k b : zlen b = TUNNEL_IV_LEN →
    aes256_ecb_decrypt_block k (aes256_ecb_encrypt_block k b) = b;
  ecb_encrypt_decrypt k b : zlen b = TUNNEL_IV_LEN →
    aes256_ecb_encrypt_block k (aes256_ecb_decrypt_block k b) = b;
  cbc_encrypt_len k iv d : zlen iv = TUNNEL_IV_LEN → zlen d = TUNNEL_PAYLOAD_LEN →
    zlen (aes256_cbc_encrypt k iv d) = TUNNEL_PAYLOAD_LEN;
  cbc_decrypt_len k iv d : zlen iv = TUNNEL_IV_LEN → zlen d = TUNNEL_PAYLOAD_LEN →
    zlen (aes256_cbc_decrypt k iv d) = TUNNEL_PAYLOAD_LEN;
  cbc_decrypt_encrypt k iv d : zlen iv = TUNNEL_IV_LEN → zlen d = TUNNEL_PAYLOAD_LEN →
    aes256_cbc_decrypt k iv (aes256_cbc_encrypt k iv d) = d;
  cbc_encrypt_decrypt k iv d : zlen iv = TUNNEL_IV_LEN → zlen d = TUNNEL_PAYLOAD_LEN →
    aes256_cbc_encrypt k iv (aes256_cbc_decrypt k iv d) = d;
}.

(** ** Layers *)
Section layers.
Context `{TunnelCipher}.

Definition participant_forward (keys : LayerKeys) (received_iv received_data : bytes) : bytes * bytes :=
  let working_iv := aes256_ecb_encrypt_block (iv_key keys) received_iv in
  let new_data := aes256_cbc_encrypt (layer_key keys) working_iv received_data in
  let next_iv := aes256_ecb_encrypt_block (iv_key keys) working_iv in
  (next_iv, new_data).

Definition creator_inverse_one_hop (keys : LayerKeys) (received_iv received_data : bytes) : bytes * bytes :=
  let working_iv := aes256_ecb_decrypt_block (iv_key keys) received_iv in
  let new_data := aes256_cbc_decrypt (layer_key keys) working_iv received_data in
  let prev_iv := aes256_ecb_decrypt_block (iv_key keys) working_iv in
  (prev_iv, new_data).

Fixpoint outbound_preprocess (hops_reverse : list LayerKeys) (iv data : bytes) : bytes * bytes :=
  match hops_reverse with
  | [] => (iv, data)
  | keys :: hops' =>
      let '(next_iv, next_data) := creator_inverse_one_hop keys iv data in
      outbound_preprocess hops' next_iv next_data
  end.

Definition inbound_endpoint_decrypt (hops_reverse : list LayerKeys) (received_iv received_data : bytes)
    : bytes * bytes := outbound_preprocess hops_reverse received_iv received_data.
End layers.

(** ** Duplicate tokens and their window *)
Definition token_compute (received_iv received_data : bytes) : bytes :=
  zip_with Z.lxor (take (Z.to_nat TUNNEL_IV_LEN) received_iv)
    (take (Z.to_nat TUNNEL_IV_LEN) received_data).

Record DuplicateWindow := mkWindow { dw_capacity : Z; dw_tokens : gset bytes }.
Inductive DuplicateWindowError := WindowCapacityExceeded (capacity : Z).

Module Window.
Definition new (capacity : Z) : DuplicateWindow := mkWindow (Z.min capacity MAX_DUPLICATE_WINDOW) ∅.
Definition len (w : DuplicateWindow) : Z := Z.of_nat (size (dw_tokens w)).
Definition is_empty (w : DuplicateWindow) : bool := bool_decide (dw_tokens w = ∅).
Definition contains (token : bytes) (w : DuplicateWindow) : bool := bool_decide (token ∈ dw_tokens w).
Definition observe (token : bytes) (w : DuplicateWindow) : DuplicateWindow * result DuplicateWindowError bool :=
  if bool_decide (token ∈ dw_tokens w) then (w, Ok false)
  else if len w >=? dw_capacity w then (w, Err (WindowCapacityExceeded (dw_capacity w)))
  else (mkWindow (dw_capacity w) ({[token]} ∪ dw_tokens w), Ok true).
Definition clear (w : DuplicateWindow) : DuplicateWindow := mkWindow (dw_capacity w) ∅.
End Window.

(** ** Layers cancel *)
Definition cell_shape (c : bytes * bytes) : Prop := zlen c.1 = TUNNEL_IV_LEN ∧ zlen c.2 = TUNNEL_PAYLOAD_LEN.

Section cancel.
Context `{TunnelCipherLaws}.

Definition forward_pair (keys : LayerKeys) (c : bytes * bytes) : bytes * bytes :=
  participant_forward keys c.1 c.2.
Definition inverse_pair (keys : LayerKeys) (c : bytes * bytes) : bytes * bytes :=
  creator_inverse_one_hop keys c.1 c.2.
(** What the hops of a path do to a cell, one after the other. *)
Definition through (path : list LayerKeys) (c : bytes * bytes) : bytes * bytes :=
  foldl (λ c keys, forward_pair keys c) c path.

Lemma preprocess_fold hops c :
  outbound_preprocess hops c.1 c.2 = foldl (λ c keys, inverse_pair keys c) c hops.
Proof.
  revert c. induction hops as [|k hops IH]; intros [iv d]; [done|]. cbn [outbound_preprocess foldl fst snd].
  unfold inverse_pair at 2. cbn [fst snd]. destruct (creator_inverse_one_hop k iv d) as [iv' d'].
  apply (IH (iv', d')).
Qed.

Lemma preprocess_snoc hops k c :
  outbound_preprocess (hops ++ [k]) c.1 c.2 = inverse_pair k (outbound_preprocess hops c.1 c.2).
Proof. by rewrite !preprocess_fold, foldl_app. Qed.

Lemma forward_shape k c : cell_shape c → cell_shape (forward_pair k c).
Proof.
  intros [Hi Hd]. split; cbn.
  - by do 2 apply ecb_encrypt_len.
  - apply cbc_encrypt_len; [by apply ecb_encrypt_len|done].
Qed.

Lemma inverse_shape k c : cell_shape c → cell_shape (inverse_pair k c).
Proof.
  intros [Hi Hd]. split; cbn.
  - by do 2 apply ecb_decrypt_len.
  - apply cbc_decrypt_len; [by apply ecb_decrypt_len|done].
Qed.

Lemma forward_inverse k c : cell_shape c → forward_pair k (inverse_pair k c) = c.
Proof.
  destruct c as [iv d]. intros [Hi Hd]. cbn in Hi, Hd.
  unfold forward_pair, inverse_pair, participant_forward, creator_inverse_one_hop. cbn.
  rewrite (ecb_encrypt_decrypt (iv_key k) (aes256_ecb_decrypt_block (iv_key k) iv)) by by apply ecb_decrypt_len.
  rewrite ecb_encrypt_decrypt by done. rewrite cbc_encrypt_decrypt; [done|by apply ecb_decrypt_len|done].
Qed.

Lemma inverse_forward k c : cell_shape c → inverse_pair k (forward_pair k c) = c.
Proof.
  destruct c as [iv d]. intros [Hi Hd]. cbn in Hi, Hd.
  unfold forward_pair, inverse_pair, participant_forward, creator_inverse_one_hop. cbn.
  rewrite (ecb_decrypt_encrypt (iv_key k) (aes256_ecb_encrypt_block (iv_key k) iv)) by by apply ecb_encrypt_len.
  rewrite ecb_decrypt_encrypt by done. rewrite cbc_decrypt_encrypt; [done|by apply ecb_encrypt_len|done].
Qed.

Lemma through_shape path c : cell_shape c → cell_shape (through path c).
Proof. revert c. induction path as [|k path IH]; intros c Hc; [done|]. by apply IH, forward_shape. Qed.

Lemma preprocess_shape hops c : cell_shape c → cell_shape (outbound_preprocess hops c.1 c.2).
Proof.
  rewrite preprocess_fold. revert c. induction hops as [|k hops IH]; intros c Hc; [done|]. by apply IH, inverse_shape.
Qed.

(** The creator's preprocessing and the hops of the path undo each other, in
    both directions. *)
Lemma through_preprocess path c :
  cell_shape c → through path (outbound_preprocess (reverse path) c.1 c.2) = c.
Proof.
  revert c. induction path as [|k path IH]; intros c Hc; [by destruct c|].
  rewrite reverse_cons, preprocess_snoc. unfold through in *. cbn [foldl].
  rewrite forward_inverse; [by apply IH|by apply preprocess_shape].
Qed.

Lemma decrypt_through path c :
  cell_shape c → inbound_endpoint_decrypt (reverse path) (through path c).1 (through path c).2 = c.
Proof.
  unfold inbound_endpoint_decrypt. revert c. induction path as [|k path IH]; intros c Hc; [by destruct c|].
  rewrite reverse_cons, preprocess_snoc. change (through (k :: path) c) with (through path (forward_pair k c)).
  rewrite IH by by apply forward_shape. by apply inverse_forward.
Qed.
End cancel.

(** ** The window *)
Lemma observe_iff t w w' :
  Window.observe t w = (w', Ok true) ↔
  t ∉ dw_tokens w ∧ Window.len w < dw_capacity w ∧ w' = mkWindow (dw_capacity w) ({[t]} ∪ dw_tokens w).
Proof.
  unfold Window.observe. case_bool_decide; [naive_solver|].
  destruct (_ >=? _) eqn:E; breflect; [naive_solver lia|]. naive_solver lia.
Qed.

(** The window takes all of a list of tokens. *)
Record admits (w : DuplicateWindow) (tokens : list bytes) : Prop := {
  ad_fresh t : t ∈ tokens → t ∉ dw_tokens w;
  ad_distinct : NoDup tokens;
  ad_room : Window.len w + zlen tokens ≤ dw_capacity w;
}.

Lemma admits_cons w t tokens :
  admits w (t :: tokens) →
  ∃ w', Window.observe t w = (w', Ok true) ∧ admits w' tokens.
Proof.
  intros [Hf Hn Hr]. rewrite zlen_cons in Hr. pose proof (zlen_nonneg tokens).
  apply NoDup_cons in Hn as [Ht Hn]. eexists. split.
  - apply observe_iff. split; [apply Hf; set_solver|]. split; [lia|done].
  - constructor; cbn; [set_solver|done|].
    unfold Window.len in *. cbn. rewrite size_union by set_solver. rewrite size_singleton. lia.
Qed.
