(* ===== verification/TunnelRoles.v ===== *)
(** * Tunnel roles

    Models [src/crates/i2pr-tunnel/src/roles.rs]: what the routers of a tunnel do
    with a cell.  The outbound gateway splits a message into cells and applies
    the inverse layers, participants add their layer and pass the cell on, the
    outbound endpoint recovers the cells and reassembles the message; the inbound
    gateway, its participants and the local endpoint do the same in the other
    direction.  The ciphers are [TunnelCipher]; SHA-256 and the random source
    are parameters. *)
From S2P Require Import Prelude Codec Common LeaseSet LeaseSet2 EncryptedLeaseSet I2np Fragment TunnelData Tunnel TunnelLayer.

Inductive RouterDeliveryKind := KindRouter | KindTunnelGateway | KindLocal.

Record RouterDeliveryAction := mkAction {
  target_router : bytes;
  action_kind : RouterDeliveryKind;
  action_tunnel_id : option Z;
  action_message : bytes;
  action_message_id : Z;
  action_expiration_ms : Z;
}.

Inductive TunnelRoleError :=
  | TunnelUnavailable
  | DuplicateCell
  | ReceiveTunnelMismatch (actual expected : Z)
  | PreviousPeerMismatch
  | RoleDuplicateWindow (error : DuplicateWindowError)
  | RoleReassembly (error : ReassemblyError)
  | RoleTunnelMessage (error : TunnelMessageError)
  | NotTunnelGateway
  | RoleZeroTunnelId
  | GatewayTunnelMismatch (actual expected : Z)
  | UnsupportedDeliveryInstruction
  | LocalInboundNonLocalDelivery
  | RoleMissingNextHop
  | UnspecifiedDeliveryInstruction (message_id : Z).

(** How a call ends that gives no result: with an error, or with a panic where the
    code takes the first hop of a tunnel that has none. *)
Inductive role_failure := RoleError (error : TunnelRoleError) | RolePanic.

Definition split_cell (cell : TunnelDataMessage) : bytes * bytes :=
  (take (Z.to_nat TUNNEL_IV_LEN) (tunnel_data cell), drop (Z.to_nat TUNNEL_IV_LEN) (tunnel_data cell)).
Definition join_cell (tunnel_id : Z) (iv payload : bytes) : TunnelDataMessage :=
  mkTunnelData tunnel_id (iv ++ payload).

Record OBGWRouterDelivery := mkDelivery {
  ob_target_router : bytes;
  ob_receive_tunnel : Z;
  ob_cell : TunnelDataMessage;
}.
Record OutboundCell := mkOutboundCell {
  oc_target_router : bytes;
  oc_tunnel_id : Z;
  oc_iv : bytes;
  oc_data : bytes;
  oc_cell : TunnelDataMessage;
}.

Record OutboundGatewayRole := mkGateway { og_established : EstablishedTunnel; og_expires_at_ms : Z }.

Record ParticipantState := mkParticipant {
  ps_direction : TunnelDirection;
  ps_receive_tunnel : Z;
  ps_next : EstablishedNextHop;
  ps_layer_keys : LayerKeys;
  ps_locked_previous_peer : option bytes;
  ps_duplicates : DuplicateWindow;
  ps_expires_at_ms : Z;
}.

Record OutboundEndpointRole := mkEndpoint {
  oe_receive_tunnel : Z;
  oe_layer_keys : LayerKeys;
  oe_duplicates : DuplicateWindow;
  oe_expires_at_ms : Z;
  oe_reassembler : BoundedReassembler;
  oe_last_action : option RouterDeliveryAction;
}.

Record InboundGatewayRole := mkInboundGateway {
  ig_receive_tunnel : Z;
  ig_next : EstablishedNextHop;
  ig_layer_keys : LayerKeys;
  ig_duplicates : DuplicateWindow;
  ig_expires_at_ms : Z;
  ig_next_fragment_id : Z;
}.

Record LocalInboundEndpointRole := mkLocalEndpoint {
  le_established : EstablishedTunnel;
  le_reassembler : BoundedReassembler;
  le_expires_at_ms : Z;
}.

(** The layer keys of the hops, last hop first. *)
Definition keys_reverse (t : EstablishedTunnel) : list LayerKeys := reverse (hop_layer_keys <$> et_hops t).

Definition action_from_delivery (delivery : DeliveryInstruction) (message : bytes) (message_id expiration_ms : Z)
    : result TunnelRoleError RouterDeliveryAction :=
  match delivery with
  | DeliverLocal => Ok (mkAction zero_hash KindLocal None message message_id expiration_ms)
  | DeliverRouter router => Ok (mkAction router KindRouter None message message_id expiration_ms)
  | DeliverTunnel tunnel_id gateway =>
      id ← map_err (λ _, RoleZeroTunnelId) (tunnel_id_new tunnel_id);
      Ok (mkAction gateway KindTunnelGateway (Some id) message message_id expiration_ms)
  end.

(** [TunnelId::new(cell.tunnel_id)] against the identifier the role listens on. *)
Definition check_receive (tunnel_id expected : Z) : result TunnelRoleError () :=
  if tunnel_id =? 0 then Err RoleZeroTunnelId
  else
  id ← map_err (λ _, RoleZeroTunnelId) (tunnel_id_new tunnel_id);
  if negb (id =? expected) then Err (ReceiveTunnelMismatch id expected) else Ok ().

(** ** Participants *)
Definition participant_new (direction : TunnelDirection) (hop : EstablishedHop) (duplicates : DuplicateWindow)
    (expires_at_ms : Z) : result TunnelRoleError ParticipantState :=
  next ← ok_or RoleMissingNextHop (hop_next hop);
  Ok (mkParticipant direction (hop_receive_tunnel hop) next (hop_layer_keys hop) None duplicates expires_at_ms).
Definition participant_is_usable (now_ms : Z) (s : ParticipantState) : bool := ps_expires_at_ms s >? now_ms.

Definition lock_peer (peer : bytes) (s : ParticipantState) : ParticipantState :=
  mkParticipant (ps_direction s) (ps_receive_tunnel s) (ps_next s) (ps_layer_keys s) (Some peer)
    (ps_duplicates s) (ps_expires_at_ms s).
Definition with_duplicates (w : DuplicateWindow) (s : ParticipantState) : ParticipantState :=
  mkParticipant (ps_direction s) (ps_receive_tunnel s) (ps_next s) (ps_layer_keys s)
    (ps_locked_previous_peer s) w (ps_expires_at_ms s).

Section participants.
Context `{TunnelCipher}.

(** The first peer that sends a cell is the only one accepted afterwards. *)
Definition participant_process (previous_peer : bytes) (cell : TunnelDataMessage) (now_ms : Z)
    : M ParticipantState TunnelRoleError TunnelDataMessage := λ s,
  if now_ms >=? ps_expires_at_ms s then (s, Err TunnelUnavailable)
  else
  match check_receive (data_tunnel_id cell) (ps_receive_tunnel s) with
  | Err e => (s, Err e)
  | Ok _ =>
  let locked := default previous_peer (ps_locked_previous_peer s) in
  if negb (bool_decide (locked = previous_peer)) then (s, Err PreviousPeerMismatch)
  else
  let s := lock_peer locked s in
  let '(iv, ciphertext) := split_cell cell in
  match Window.observe (token_compute iv ciphertext) (ps_duplicates s) with
  | (_, Err e) => (s, Err (RoleDuplicateWindow e))
  | (w, Ok false) => (with_duplicates w s, Err DuplicateCell)
  | (w, Ok true) =>
      let '(next_iv, next_data) := participant_forward (ps_layer_keys s) iv ciphertext in
      (with_duplicates w s, Ok (join_cell (next_tunnel (ps_next s)) next_iv next_data))
  end
  end.
End participants.

(** ** The outbound endpoint *)
Definition endpoint_new (hop : EstablishedHop) (duplicates : DuplicateWindow)
    (capacity aggregate_bytes expiry_ms expires_at_ms now_ms : Z) : OutboundEndpointRole :=
  mkEndpoint (hop_receive_tunnel hop) (hop_layer_keys hop) duplicates expires_at_ms
    (Reassembler.new capacity aggregate_bytes expiry_ms now_ms) None.
Definition endpoint_is_usable (now_ms : Z) (r : OutboundEndpointRole) : bool := now_ms <? oe_expires_at_ms r.

(** The loop of [assemble_actions].  [completed] and [last_action] of the code
    always have the same value. *)
Fixpoint assemble_records (context_id : Z) (records : list FragmentDelivery)
    (completed : option RouterDeliveryAction)
    : M BoundedReassembler TunnelRoleError (option RouterDeliveryAction) := λ r,
  match records with
  | [] => (r, Ok completed)
  | record :: records' =>
      let message_id := default 0 (fragment_message_id (record_fragment record)) in
      match record_fragment record with
      | Unfragmented body =>
          match ok_or UnsupportedDeliveryInstruction (record_delivery record) with
          | Err e => (r, Err e)
          | Ok delivery =>
              match action_from_delivery delivery body message_id 0 with
              | Err e => (r, Err e)
              | Ok action => assemble_records context_id records' (Some action) r
              end
          end
      | First _ body =>
          match ok_or UnsupportedDeliveryInstruction (record_delivery record) with
          | Err e => (r, Err e)
          | Ok dlv =>
              match Reassembler.insert_with_delivery (mkKey context_id message_id)
                      (First message_id body) (Some dlv) r with
              | (r', Ok (Some reassembled)) =>
                  match action_from_delivery (default dlv (delivery reassembled))
                          (message reassembled) message_id 0 with
                  | Err e => (r', Err e)
                  | Ok action => assemble_records context_id records' (Some action) r'
                  end
              | (r', Ok None) => assemble_records context_id records' completed r'
              | (r', Err e) => (r', Err (RoleReassembly e))
              end
          end
      | FollowOn fmid sequence is_last body =>
          match Reassembler.insert_with_delivery (mkKey context_id fmid)
                  (FollowOn fmid sequence is_last body) (record_delivery record) r with
          | (r', Ok (Some reassembled)) =>
              match ok_or (UnspecifiedDeliveryInstruction fmid) (delivery reassembled) with
              | Err e => (r', Err e)
              | Ok dlv =>
                  match action_from_delivery dlv (message reassembled) fmid 0 with
                  | Err e => (r', Err e)
                  | Ok action => assemble_records context_id records' (Some action) r'
                  end
              end
          | (r', Ok None) => assemble_records context_id records' completed r'
          | (r', Err e) => (r', Err (RoleReassembly e))
          end
      end
  end.

Definition with_reassembler (x : BoundedReassembler) (last : option RouterDeliveryAction)
    (r : OutboundEndpointRole) : OutboundEndpointRole :=
  mkEndpoint (oe_receive_tunnel r) (oe_layer_keys r) (oe_duplicates r) (oe_expires_at_ms r) x last.

Definition assemble_actions (records : list FragmentDelivery) (now_ms : Z)
    : M OutboundEndpointRole TunnelRoleError (option RouterDeliveryAction) := λ r,
  let x := Reassembler.set_now now_ms (oe_reassembler r) in
  match assemble_records (oe_receive_tunnel r) records None x with
  | (x', Err e) => (with_reassembler x' (oe_last_action r) r, Err e)
  | (x', Ok completed) => (with_reassembler x' completed r, Ok completed)
  end.

Section endpoint.
Context (sha256 : bytes → bytes) `{TunnelCipher}.

Definition endpoint_process (previous_peer : bytes) (cell : TunnelDataMessage) (now_ms : Z)
    : M OutboundEndpointRole TunnelRoleError (option RouterDeliveryAction) := λ r,
  if negb (endpoint_is_usable now_ms r) then (r, Err TunnelUnavailable)
  else
  match check_receive (data_tunnel_id cell) (oe_receive_tunnel r) with
  | Err e => (r, Err e)
  | Ok _ =>
  let '(iv, ciphertext) := split_cell cell in
  match Window.observe (token_compute iv ciphertext) (oe_duplicates r) with
  | (_, Err e) => (r, Err (RoleDuplicateWindow e))
  | (_, Ok false) => (r, Err DuplicateCell)
  | (w, Ok true) =>
      let r := mkEndpoint (oe_receive_tunnel r) (oe_layer_keys r) w (oe_expires_at_ms r)
                 (oe_reassembler r) (oe_last_action r) in
      let '(next_iv, plaintext) := participant_forward (oe_layer_keys r) iv ciphertext in
      match parse sha256 next_iv plaintext with
      | Err e => (r, Err (RoleTunnelMessage e))
      | Ok records => assemble_actions records now_ms r
      end
  end
  end.
End endpoint.

(** ** The outbound gateway *)
Definition gateway_is_usable (now_ms : Z) (r : OutboundGatewayRole) : bool := now_ms <? og_expires_at_ms r.

(** The guards shared by the gateway's operations. *)
Definition gateway_guard (now_ms : Z) (header : TunnelPayloadHeader) (r : OutboundGatewayRole)
    : result TunnelRoleError () :=
  if negb (gateway_is_usable now_ms r) then Err TunnelUnavailable
  else if bool_decide (header_delivery header = DeliverLocal) then Err UnsupportedDeliveryInstruction
  else Ok ().

Section gateway.
Context (sha256 : bytes → bytes).
Context (Rng : Type) (try_fill_bytes : Rng → Z → Rng * option bytes) (next_u32 : Rng → Rng * Z).
Context `{TunnelCipher}.

Definition fresh_iv : M Rng TunnelMessageError bytes := λ rng,
  match try_fill_bytes rng TUNNEL_IV_LEN with
  | (rng', None) => (rng', Err RandomnessUnavailable)
  | (rng', Some iv) => (rng', Ok iv)
  end.

Abbreviation role_m := (M Rng role_failure).
Definition of_message {A} (m : M Rng TunnelMessageError A) : role_m A :=
  with_err (λ e, RoleError (RoleTunnelMessage e)) m.

(** The cell for the first hop. *)
Definition first_hop_delivery (r : OutboundGatewayRole) (iv data : bytes) : result role_failure OBGWRouterDelivery :=
  match first_hop_router (og_established r), first_hop_receive_tunnel (og_established r) with
  | Some first_hop, Some receive_tunnel =>
      Ok (mkDelivery first_hop receive_tunnel (join_cell receive_tunnel iv data))
  | _, _ => Err RolePanic
  end.

Definition gateway_fragment (header : TunnelPayloadHeader) (complete_message : bytes)
    (r : OutboundGatewayRole) : role_m (list (bytes * bytes)) :=
  _ ← lift (map_err RoleError (gateway_guard 0 header r));
  fragments ← lift (map_err (λ e, RoleError (RoleTunnelMessage e))
    (fragment_complete_message (header_delivery header) (header_message_id header) complete_message));
  of_message (build_cells sha256 Rng try_fill_bytes fragments).

Definition gateway_forward_with_iv (header : TunnelPayloadHeader) (complete_message iv : bytes) (now_ms : Z)
    (r : OutboundGatewayRole) : role_m OBGWRouterDelivery :=
  _ ← lift (map_err RoleError (gateway_guard now_ms header r));
  plaintext ← of_message (build_single sha256 Rng try_fill_bytes header complete_message iv);
  let '(cell_iv, cell_data) := outbound_preprocess (keys_reverse (og_established r)) iv plaintext in
  lift (first_hop_delivery r cell_iv cell_data).

Definition gateway_forward (header : TunnelPayloadHeader) (complete_message : bytes) (now_ms : Z)
    (r : OutboundGatewayRole) : role_m OBGWRouterDelivery :=
  _ ← lift (map_err RoleError (gateway_guard now_ms header r));
  iv ← of_message fresh_iv;
  plaintext ← of_message (build_single sha256 Rng try_fill_bytes header complete_message iv);
  let '(cell_iv, cell_data) := outbound_preprocess (keys_reverse (og_established r)) iv plaintext in
  lift (first_hop_delivery r cell_iv cell_data).

(** The loop of [forward_cells].  The first hop is the same for every fragment. *)
Fixpoint forward_each (r : OutboundGatewayRole) (first_hop : bytes) (receive_tunnel : Z)
    (fragments : list FragmentDelivery) : role_m (list OBGWRouterDelivery) :=
  match fragments with
  | [] => mret []
  | fragment :: fragments' =>
      iv ← of_message fresh_iv;
      plaintext ← of_message (pack_payload_internal sha256 Rng try_fill_bytes fragment iv);
      let '(cell_iv, cell_data) := outbound_preprocess (keys_reverse (og_established r)) iv plaintext in
      rest ← forward_each r first_hop receive_tunnel fragments';
      mret (mkDelivery first_hop receive_tunnel (join_cell receive_tunnel cell_iv cell_data) :: rest)
  end.

Definition gateway_forward_cells (header : TunnelPayloadHeader) (complete_message : bytes) (now_ms : Z)
    (r : OutboundGatewayRole) : role_m (list OBGWRouterDelivery) :=
  _ ← lift (map_err RoleError (gateway_guard now_ms header r));
  fragments ← lift (map_err (λ e, RoleError (RoleTunnelMessage e))
    (fragment_complete_message (header_delivery header) (header_message_id header) complete_message));
  first_hop ← lift (ok_or RolePanic (first_hop_router (og_established r)));
  receive_tunnel ← lift (ok_or RolePanic (first_hop_receive_tunnel (og_established r)));
  forward_each r first_hop receive_tunnel fragments.
End gateway.

(** ** The inbound gateway *)
Abbreviation Message := (I2npMessage LeaseSet LeaseSet2 MetaLeaseSet EncryptedLeaseSet2).
Record TunnelGatewayMessage := mkGatewayMessage { gm_tunnel_id : Z; gm_message : Message }.

Definition inbound_gateway_new (hop : EstablishedHop) (duplicates : DuplicateWindow) (expires_at_ms : Z)
    : result TunnelRoleError InboundGatewayRole :=
  next ← ok_or RoleMissingNextHop (hop_next hop);
  Ok (mkInboundGateway (hop_receive_tunnel hop) next (hop_layer_keys hop) duplicates expires_at_ms 0).
Definition inbound_gateway_is_usable (now_ms : Z) (r : InboundGatewayRole) : bool := now_ms <? ig_expires_at_ms r.

Definition with_fragment_id (id : Z) (r : InboundGatewayRole) : InboundGatewayRole :=
  mkInboundGateway (ig_receive_tunnel r) (ig_next r) (ig_layer_keys r) (ig_duplicates r) (ig_expires_at_ms r) id.

Definition inbound_gateway_guard (now_ms : Z) (tunnel_id : Z) (r : InboundGatewayRole) : result TunnelRoleError () :=
  if negb (inbound_gateway_is_usable now_ms r) then Err TunnelUnavailable
  else
  actual ← map_err (λ _, RoleZeroTunnelId) (tunnel_id_new tunnel_id);
  if negb (actual =? ig_receive_tunnel r) then Err (GatewayTunnelMismatch actual (ig_receive_tunnel r)) else Ok ().

Section inbound_gateway.
Context (sha256 : bytes → bytes).
Context (Rng : Type) (try_fill_bytes : Rng → Z → Rng * option bytes) (next_u32 : Rng → Rng * Z).
Context `{TunnelCipher}.

(** The identifier of the next message, never zero: drawn once, then counted up. *)
Definition claim_fragment_id (r : InboundGatewayRole) (rng : Rng) : InboundGatewayRole * Rng * Z :=
  let '(rng, claimed) :=
    if ig_next_fragment_id r =? 0 then
      let '(rng, seed) := next_u32 rng in (rng, if seed =? 0 then 1 else seed)
    else (rng, ig_next_fragment_id r) in
  let advanced := wrapping_add 32 claimed 1 in
  (with_fragment_id (if advanced =? 0 then 1 else advanced) r, rng, claimed).

Definition inner_bytes (m : Message) : result TunnelRoleError bytes :=
  map_err (λ _, RoleTunnelMessage EmptyMessage) (encode_standard_to_vec sha256 _ _ _ _ m MAX_I2NP_PAYLOAD_SIZE).

Definition emit_cell (r : InboundGatewayRole) (iv plaintext : bytes) : OutboundCell :=
  let '(next_iv, next_data) := participant_forward (ig_layer_keys r) iv plaintext in
  mkOutboundCell (next_router (ig_next r)) (next_tunnel (ig_next r)) next_iv next_data
    (join_cell (next_tunnel (ig_next r)) next_iv next_data).

(** The gateway and the random source, as the call leaves them, and its result. *)
Definition inbound_gateway_process (gateway : TunnelGatewayMessage) (now_ms : Z) (r : InboundGatewayRole) (rng : Rng)
    : InboundGatewayRole * Rng * result TunnelRoleError OutboundCell :=
  match inbound_gateway_guard now_ms (gm_tunnel_id gateway) r with
  | Err e => (r, rng, Err e)
  | Ok _ =>
  match fresh_iv Rng try_fill_bytes rng with
  | (rng, Err e) => (r, rng, Err (RoleTunnelMessage e))
  | (rng, Ok iv) =>
  let '(r, rng, message_id) := claim_fragment_id r rng in
  match inner_bytes (gm_message gateway) with
  | Err e => (r, rng, Err e)
  | Ok inner =>
  match build_single sha256 Rng try_fill_bytes (mkHeader DeliverLocal message_id 0) inner iv rng with
  | (rng, Err e) => (r, rng, Err (RoleTunnelMessage e))
  | (rng, Ok plaintext) => (r, rng, Ok (emit_cell r iv plaintext))
  end end end end.

Definition inbound_gateway_process_cells (gateway : TunnelGatewayMessage) (now_ms : Z) (r : InboundGatewayRole)
    (rng : Rng) : InboundGatewayRole * Rng * result TunnelRoleError (list OutboundCell) :=
  match inbound_gateway_guard now_ms (gm_tunnel_id gateway) r with
  | Err e => (r, rng, Err e)
  | Ok _ =>
  let '(r, rng, message_id) := claim_fragment_id r rng in
  match inner_bytes (gm_message gateway) with
  | Err e => (r, rng, Err e)
  | Ok inner =>
  match fragment_complete_message DeliverLocal message_id inner with
  | Err e => (r, rng, Err (RoleTunnelMessage e))
  | Ok fragments =>
  match build_cells sha256 Rng try_fill_bytes fragments rng with
  | (rng, Err e) => (r, rng, Err (RoleTunnelMessage e))
  | (rng, Ok cells) => (r, rng, Ok ((λ c, emit_cell r c.1 c.2) <$> cells))
  end end end end.
End inbound_gateway.

(** ** The local endpoint *)
Definition local_endpoint_new (established : EstablishedTunnel)
    (capacity aggregate_bytes expiry_ms now_ms expires_at_ms : Z) : LocalInboundEndpointRole :=
  mkLocalEndpoint established (Reassembler.new capacity aggregate_bytes expiry_ms now_ms) expires_at_ms.
Definition local_receive_tunnel (r : LocalInboundEndpointRole) : Z := et_local_inbound_receive (le_established r).
Definition local_endpoint_is_usable (now_ms : Z) (r : LocalInboundEndpointRole) : bool :=
  (now_ms <? le_expires_at_ms r) && bool_decide (et_direction (le_established r) = Inbound).

(** The loop of [process] over the records of a cell. *)
Fixpoint deliver_records (context_id : Z) (records : list FragmentDelivery) (completed : option bytes)
    : M BoundedReassembler TunnelRoleError (option bytes) := λ x,
  match records with
  | [] => (x, Ok completed)
  | record :: records' =>
      match record_delivery record with
      | Some (DeliverRouter _) | Some (DeliverTunnel _ _) => (x, Err LocalInboundNonLocalDelivery)
      | _ =>
      let message_id := default 0 (fragment_message_id (record_fragment record)) in
      match Reassembler.insert_with_delivery (mkKey context_id message_id) (record_fragment record)
              (record_delivery record) x with
      | (x', Ok (Some reassembled)) =>
          match delivery reassembled with
          | Some DeliverLocal => deliver_records context_id records' (Some (message reassembled)) x'
          | Some _ => (x', Err LocalInboundNonLocalDelivery)
          | None => (x', Err (UnspecifiedDeliveryInstruction message_id))
          end
      | (x', Ok None) => deliver_records context_id records' completed x'
      | (x', Err e) => (x', Err (RoleReassembly e))
      end
      end
  end.

Section local_endpoint.
Context (sha256 : bytes → bytes) `{TunnelCipher}.

Definition local_endpoint_process (cell : TunnelDataMessage) (now_ms : Z)
    : M LocalInboundEndpointRole TunnelRoleError (option bytes) := λ r,
  if negb (local_endpoint_is_usable now_ms r) then (r, Err TunnelUnavailable)
  else
  match check_receive (data_tunnel_id cell) (local_receive_tunnel r) with
  | Err e => (r, Err e)
  | Ok _ =>
  let '(iv, ciphertext) := split_cell cell in
  let '(recovered_iv, plaintext) :=
    inbound_endpoint_decrypt (keys_reverse (le_established r)) iv ciphertext in
  match parse sha256 recovered_iv plaintext with
  | Err e => (r, Err (RoleTunnelMessage e))
  | Ok [] => (r, Ok None)
  | Ok records =>
      match deliver_records (local_receive_tunnel r) records None (Reassembler.set_now now_ms (le_reassembler r)) with
      | (x, res) => (mkLocalEndpoint (le_established r) x (le_expires_at_ms r), res)
      end
  end
  end.
End local_endpoint.

(** ** Cells on the wire *)
Definition cell_of (tunnel_id : Z) (c : bytes * bytes) : TunnelDataMessage := join_cell tunnel_id c.1 c.2.
Definition token_of (c : bytes * bytes) : bytes := token_compute c.1 c.2.

Lemma split_cell_of tid c : cell_shape c → split_cell (cell_of tid c) = c.
Proof.
  destruct c as [iv d]. intros [Hi _]. unfold split_cell, cell_of, join_cell. cbn in *. unfold zlen in Hi.
  rewrite <- Hi, Nat2Z.id, take_app_length, drop_app_length. done.
Qed.

Lemma check_receive_ok tid : tid ≠ 0 → check_receive tid tid = Ok ().
Proof.
  intros Hne. unfold check_receive, tunnel_id_new. rewrite (proj2 (Z.eqb_neq tid 0)) by done. cbn.
  by rewrite Z.eqb_refl.
Qed.

(** A sequence of calls, with the result of each. *)
Fixpoint run_all {S E X A} (f : X → M S E A) (l : list X) (s : S) : S * list (result E A) :=
  match l with
  | [] => (s, [])
  | x :: l' => let '(s1, r) := f x s in let '(s2, rs) := run_all f l' s1 in (s2, r :: rs)
  end.

Lemma run_all_step {S E X A} (f : X → M S E A) x l s s1 r :
  f x s = (s1, r) → run_all f (x :: l) s = ((run_all f l s1).1, r :: (run_all f l s1).2).
Proof. intros H. cbn. rewrite H. by destruct (run_all f l s1). Qed.

(** All results, when every call succeeded. *)
Fixpoint all_ok {E A} (l : list (result E A)) : option (list A) :=
  match l with
  | [] => Some []
  | Ok x :: l' => xs ← all_ok l'; Some (x :: xs)
  | Err _ :: _ => None
  end.

Lemma all_ok_fmap {E A} (l : list A) : all_ok (E := E) (Ok <$> l) = Some l.
Proof. induction l as [|x l IH]; [done|]. rewrite fmap_cons. cbn [all_ok]. by rewrite IH. Qed.

(** ** A path of participants *)
Section path.
Context `{TunnelCipherLaws}.

(** The participant is ready for cells from [prev] on tunnel [tid]. *)
Record participant_ready (now tid : Z) (prev : bytes) (s : ParticipantState) : Prop := {
  pr_receive : ps_receive_tunnel s = tid;
  pr_nonzero : tid ≠ 0;
  pr_live : now < ps_expires_at_ms s;
  pr_peer : ps_locked_previous_peer s = None ∨ ps_locked_previous_peer s = Some prev;
}.

Lemma participant_process_ok now tid prev c s w :
  participant_ready now tid prev s → cell_shape c →
  Window.observe (token_of c) (ps_duplicates s) = (w, Ok true) →
  participant_process prev (cell_of tid c) now s =
  (with_duplicates w (lock_peer prev s),
   Ok (cell_of (next_tunnel (ps_next s)) (forward_pair (ps_layer_keys s) c))).
Proof.
  intros [Hr Hz Hl Hp] Hc Ho. unfold participant_process.
  destruct (_ >=? _) eqn:E; breflect; [lia|]. cbn [data_tunnel_id cell_of join_cell].
  rewrite Hr, check_receive_ok by done.
  assert (Hlock : default prev (ps_locked_previous_peer s) = prev) by by destruct Hp as [-> | ->].
  rewrite Hlock, bool_decide_true by done. cbn [negb].
  change (mkTunnelData tid (c.1 ++ c.2)) with (cell_of tid c). rewrite split_cell_of by done.
  destruct c as [iv d]. unfold token_of in Ho. cbn in Ho. cbn [ps_duplicates lock_peer]. rewrite Ho.
  cbn [ps_layer_keys lock_peer ps_next]. unfold forward_pair. cbn [fst snd]. by destruct (participant_forward _ _ _).
Qed.

Lemma participant_run now tid prev cs s :
  participant_ready now tid prev s → Forall cell_shape cs → admits (ps_duplicates s) (token_of <$> cs) →
  (run_all (λ c, participant_process prev c now) (cell_of tid <$> cs) s).2 =
  Ok <$> (cell_of (next_tunnel (ps_next s)) <$> (forward_pair (ps_layer_keys s) <$> cs)).
Proof.
  revert s. induction cs as [|c cs IH]; intros s Hs Hcs Ha; [done|].
  apply Forall_cons in Hcs as [Hc Hcs]. apply admits_cons in Ha as (w & Ho & Ha).
  rewrite fmap_cons. erewrite run_all_step by by apply participant_process_ok.
  cbn [snd fmap list_fmap]. f_equal.
  rewrite (IH (with_duplicates w (lock_peer prev s))); [done| |done|done].
  destruct Hs. constructor; cbn; auto.
Qed.

(** The hops of a path, each with the identity it shows to the next one; every
    hop gets the cells in the order the hop before it sent them. *)
Fixpoint relay (now : Z) (prev : bytes) (hops : list (bytes * ParticipantState)) (cells : list TunnelDataMessage)
    : option (list TunnelDataMessage) :=
  match hops with
  | [] => Some cells
  | (peer, s) :: hops' =>
      outs ← all_ok (run_all (λ c, participant_process prev c now) cells s).2;
      relay now peer hops' outs
  end.

(** The path carries cells from tunnel [tid] to tunnel [tid']. *)
Fixpoint path_ready (now tid : Z) (prev : bytes) (hops : list (bytes * ParticipantState)) (tid' : Z) : Prop :=
  match hops with
  | [] => tid = tid'
  | (peer, s) :: hops' =>
      participant_ready now tid prev s ∧ path_ready now (next_tunnel (ps_next s)) peer hops' tid'
  end.

(** No hop has seen one of the cells, and every window has room for them. *)
Fixpoint path_admits (hops : list (bytes * ParticipantState)) (cs : list (bytes * bytes)) : Prop :=
  match hops with
  | [] => True
  | (_, s) :: hops' =>
      admits (ps_duplicates s) (token_of <$> cs) ∧ path_admits hops' (forward_pair (ps_layer_keys s) <$> cs)
  end.

Definition path_keys (hops : list (bytes * ParticipantState)) : list LayerKeys := ps_layer_keys ∘ snd <$> hops.

Lemma relay_path now tid prev hops tid' cs :
  path_ready now tid prev hops tid' → path_admits hops cs → Forall cell_shape cs →
  relay now prev hops (cell_of tid <$> cs) = Some (cell_of tid' <$> (through (path_keys hops) <$> cs)).
Proof.
  revert tid prev cs. induction hops as [|[peer s] hops IH]; intros tid prev cs Hp Ha Hc; cbn [relay].
  - cbn in Hp. subst tid'. do 2 f_equal. symmetry. apply list_fmap_id.
  - destruct Hp as [Hs Hp], Ha as [Ha Hrest]. rewrite participant_run by done. rewrite all_ok_fmap. cbn [mbind option_bind].
    rewrite (IH _ _ _ Hp Hrest).
    + do 2 f_equal. rewrite <- list_fmap_compose. done.
    + apply Forall_fmap. eapply Forall_impl; [done|]. intros c. apply forward_shape.
Qed.
End path.

(** ** Reassembly at an endpoint *)
Lemma insert_now key f d r : now_ms (Reassembler.insert_with_delivery key f d r).1 = now_ms r.
Proof.
  assert (He : now_ms (Reassembler.expire_due r) = now_ms r).
  { unfold Reassembler.expire_due. by case_match. }
  assert (Hd : ∀ r', now_ms (Reassembler.drop_partial key r') = now_ms r').
  { intros r'. unfold Reassembler.drop_partial. by case_match. }
  unfold Reassembler.insert_with_delivery.
  repeat (case_match; simplify_eq/=); rewrite ?Hd; cbn; rewrite ?He; done.
Qed.

Lemma set_now_id now r : now_ms r = now → Reassembler.set_now now r = r.
Proof. destruct r. cbn. by intros ->. Qed.

(** A record that carries a piece of message [id] for delivery [d]. *)
Definition is_piece (id : Z) (d : DeliveryInstruction) (rec : FragmentDelivery) : Prop :=
  (∃ body, rec = mkRecord (Some d) (First id body)) ∨
  (∃ s l body, rec = mkRecord None (FollowOn id s l body)).

Lemma records_are_pieces id d bodies : Forall (is_piece id d) (records_of id d bodies).
Proof.
  unfold records_of. apply Forall_fmap, Forall_forall. intros i _. unfold is_piece, fragment_at. cbn.
  destruct (i =? 0); [left|right]; cbn; eauto.
Qed.

Definition pieces (recs : list FragmentDelivery) : list (TunnelFragment * option DeliveryInstruction) :=
  (λ rec, (record_fragment rec, record_delivery rec)) <$> recs.

Lemma pieces_records id d bodies : pieces (records_of id d bodies) = fragment_at id d bodies <$> seqZ 0 (zlen bodies).
Proof.
  unfold pieces, records_of. rewrite <- list_fmap_compose. apply list_fmap_ext. intros i x _. cbn.
  by destruct (fragment_at id d bodies x).
Qed.

(** The action for a message delivered by [d]. *)
Definition action_for (d : DeliveryInstruction) (m : bytes) (id : Z) : RouterDeliveryAction :=
  match d with
  | DeliverLocal => mkAction zero_hash KindLocal None m id 0
  | DeliverRouter router => mkAction router KindRouter None m id 0
  | DeliverTunnel tunnel_id gateway => mkAction gateway KindTunnelGateway (Some tunnel_id) m id 0
  end.

Lemma action_from_delivery_ok d m id : delivery_ok d → action_from_delivery d m id 0 = Ok (action_for d m id).
Proof.
  destruct d as [|t g|rt]; cbn; try done. intros (_ & Hne & _). unfold tunnel_id_new.
  rewrite (proj2 (Z.eqb_neq t 0)) by done. done.
Qed.

(** What the endpoint answers for an insertion. *)
Definition endpoint_answer (d : DeliveryInstruction) (id : Z) (r : result ReassemblyError (option ReassembledFragment))
    : result TunnelRoleError (option RouterDeliveryAction) :=
  match r with
  | Ok None => Ok None
  | Ok (Some x) => Ok (Some (action_for d (message x) id))
  | Err e => Err (RoleReassembly e)
  end.
Definition delivered_by (d : DeliveryInstruction) (r : result ReassemblyError (option ReassembledFragment)) : Prop :=
  match r with Ok (Some x) => delivery x = Some d | _ => True end.

Lemma assemble_piece id d rec now r :
  delivery_ok d → is_piece id d rec →
  let ins := Reassembler.insert_with_delivery (mkKey (oe_receive_tunnel r) id) (record_fragment rec)
               (record_delivery rec) (Reassembler.set_now now (oe_reassembler r)) in
  delivered_by d ins.2 →
  ∃ last, assemble_actions [rec] now r = (with_reassembler ins.1 last r, endpoint_answer d id ins.2).
Proof.
  intros Hd Hp. cbv zeta. unfold assemble_actions.
  destruct Hp as [(body & ->)|(s & l & body & ->)]; cbn [assemble_records record_fragment record_delivery
    fragment_message_id default ok_or];
    destruct (Reassembler.insert_with_delivery _ _ _ _) as [x [[m|]|e]]; cbn [fst snd delivered_by endpoint_answer];
    intros Hdel; try by eexists.
  - rewrite Hdel. cbn [default]. rewrite action_from_delivery_ok by done. by eexists.
  - rewrite Hdel. cbn [ok_or]. rewrite action_from_delivery_ok by done. by eexists.
Qed.

(** A role that feeds its cells, one piece each, to a reassembler: its answers
    are those of the insertions.  [inv] is what the role needs for the cells that
    are still to come. *)
Lemma run_pieces {S X A} (f : X → M S TunnelRoleError A) now key d
    (answer : result ReassemblyError (option ReassembledFragment) → result TunnelRoleError A)
    (carry : X → FragmentDelivery → Prop) (inv : list X → S → Prop) (reassembler : S → BoundedReassembler) :
  (∀ x xs rec s, inv (x :: xs) s → carry x rec →
     let ins := Reassembler.insert_with_delivery key (record_fragment rec) (record_delivery rec)
                  (Reassembler.set_now now (reassembler s)) in
     delivered_by d ins.2 → ∃ s', f x s = (s', answer ins.2) ∧ reassembler s' = ins.1 ∧ inv xs s') →
  ∀ xs recs s, inv xs s → Forall2 carry xs recs →
  let ress := (insert_all key (pieces recs) (Reassembler.set_now now (reassembler s))).2 in
  Forall (delivered_by d) ress → (run_all f xs s).2 = answer <$> ress.
Proof.
  intros Hstep xs recs s Hinv Hall. revert s Hinv. induction Hall as [|x rec xs recs Hc _ IH]; intros s Hinv ress Hress; [done|].
  subst ress. specialize (Hstep x xs rec s Hinv Hc). cbn [pieces fmap list_fmap insert_all] in *.
  fold (fmap (M := list) (λ rec : FragmentDelivery, (record_fragment rec, record_delivery rec))) in *.
  fold (pieces recs) in *.
  pose proof (insert_now key (record_fragment rec) (record_delivery rec) (Reassembler.set_now now (reassembler s))) as Hnow.
  cbv zeta in Hstep. destruct (Reassembler.insert_with_delivery _ _ _ _) as [y res]. cbn [fst snd] in *.
  destruct (insert_all _ (pieces recs) y) as [z ress'] eqn:Ez. cbn [snd] in *.
  apply Forall_cons in Hress as [Hres Hress]. destruct (Hstep Hres) as (s' & Hf & Hs' & Hinv').
  rewrite (run_all_step _ _ _ _ _ _ Hf). cbn [snd]. rewrite fmap_cons. f_equal.
  rewrite IH by (rewrite ?Hs', ?set_now_id, ?Ez; done). by rewrite Hs', set_now_id, Ez.
Qed.

Lemma run_all_fmap {S E X Y A} (f : Y → M S E A) (g : X → Y) l s : run_all f (g <$> l) s = run_all (f ∘ g) l s.
Proof. revert s. induction l as [|x l IH]; intros s; [done|]. cbn. destruct (f (g x) s) as [s1 r]. by rewrite <- IH. Qed.

Section endpoint_run.
Context (sha256 : bytes → bytes) `{TunnelCipherLaws}.

Record endpoint_ready (now tid : Z) (r : OutboundEndpointRole) : Prop := {
  er_receive : oe_receive_tunnel r = tid;
  er_nonzero : tid ≠ 0;
  er_live : now < oe_expires_at_ms r;
}.

Definition with_window (w : DuplicateWindow) (r : OutboundEndpointRole) : OutboundEndpointRole :=
  mkEndpoint (oe_receive_tunnel r) (oe_layer_keys r) w (oe_expires_at_ms r) (oe_reassembler r) (oe_last_action r).

Lemma endpoint_process_ok now tid prev x recs r w :
  endpoint_ready now tid r → cell_shape x →
  Window.observe (token_of x) (oe_duplicates r) = (w, Ok true) →
  parse sha256 (forward_pair (oe_layer_keys r) x).1 (forward_pair (oe_layer_keys r) x).2 = Ok recs →
  endpoint_process sha256 prev (cell_of tid x) now r = assemble_actions recs now (with_window w r).
Proof.
  intros [Hr Hz Hl] Hx Ho Hp. unfold endpoint_process, endpoint_is_usable.
  rewrite (proj2 (Z.ltb_lt now _)) by done. cbn [negb]. cbn [data_tunnel_id cell_of join_cell].
  rewrite Hr, check_receive_ok by done. change (mkTunnelData tid (x.1 ++ x.2)) with (cell_of tid x).
  rewrite split_cell_of by done. destruct x as [iv d]. unfold token_of in Ho. cbn in Ho. rewrite Ho.
  unfold forward_pair in Hp. cbn [fst snd oe_layer_keys] in *. destruct (participant_forward _ _ _) as [iv' d'].
  cbn [fst snd] in Hp. rewrite Hp. unfold with_window. by rewrite Hr.
Qed.

Lemma endpoint_run now tid prev id d xs recs r :
  delivery_ok d → endpoint_ready now tid r → admits (oe_duplicates r) (token_of <$> xs) →
  Forall2 (λ x rec, cell_shape x ∧ is_piece id d rec ∧
    parse sha256 (forward_pair (oe_layer_keys r) x).1 (forward_pair (oe_layer_keys r) x).2 = Ok [rec]) xs recs →
  let ress := (insert_all (mkKey tid id) (pieces recs) (Reassembler.set_now now (oe_reassembler r))).2 in
  Forall (delivered_by d) ress →
  (run_all (λ c, endpoint_process sha256 prev c now) (cell_of tid <$> xs) r).2 = endpoint_answer d id <$> ress.
Proof.
  intros Hd Hr Ha Hall ress Hress. rewrite run_all_fmap.
  apply (run_pieces _ now (mkKey tid id) d _
    (λ x rec, cell_shape x ∧ is_piece id d rec ∧
       parse sha256 (forward_pair (oe_layer_keys r) x).1 (forward_pair (oe_layer_keys r) x).2 = Ok [rec])
    (λ xs s, endpoint_ready now tid s ∧ admits (oe_duplicates s) (token_of <$> xs) ∧ oe_layer_keys s = oe_layer_keys r)
    oe_reassembler); try done.
  intros x xs' rec s (Hs & Has & Hk) (Hx & Hp & Hparse) ins Hins.
  apply admits_cons in Has as (w & Ho & Has). rewrite <- Hk in Hparse.
  pose proof (assemble_piece id d rec now (with_window w s) Hd Hp) as Hone.
  cbn [oe_receive_tunnel with_window oe_reassembler] in Hone. rewrite (er_receive _ _ _ Hs) in Hone.
  destruct (Hone Hins) as (last & Hone'). exists (with_reassembler ins.1 last (with_window w s)). split_and!; try done.
  - unfold compose. by rewrite (endpoint_process_ok now tid prev x [rec] s w).
  - destruct Hs. by constructor.
Qed.
End endpoint_run.

(** ** The outbound tunnel *)
Section outbound.
Context (sha256 : bytes → bytes).
Context (Rng : Type) (try_fill_bytes : Rng → Z → Rng * option bytes).
Context `{TunnelCipherLaws}.
Context (sha256_len : ∀ m, zlen (sha256 m) = 32).
Context (fill_len : ∀ rng n rng' buf, 0 ≤ n → try_fill_bytes rng n = (rng', Some buf) → zlen buf = n).

(** A cell whose plaintext is the record. *)
Definition carries (c : bytes * bytes) (rec : FragmentDelivery) : Prop :=
  cell_shape c ∧ parse sha256 c.1 c.2 = Ok [rec].
Definition wire_pair (t : EstablishedTunnel) (c : bytes * bytes) : bytes * bytes :=
  outbound_preprocess (keys_reverse t) c.1 c.2.

Lemma forward_each_spec r fh rt recs rng :
  Forall record_fits recs →
  match (forward_each sha256 Rng try_fill_bytes r fh rt recs rng).2 with
  | Ok ds => ∃ cs, Forall2 carries cs recs ∧
      ds = (λ c, mkDelivery fh rt (cell_of rt (wire_pair (og_established r) c))) <$> cs
  | Err f => (∃ e, f = RoleError (RoleTunnelMessage e) ∧ rng_failure e) ∧ ¬ rng_reliable Rng try_fill_bytes
  end.
Proof.
  revert rng. induction recs as [|rec recs IH]; intros rng Hall; [by exists []|].
  apply Forall_cons in Hall as [(Hok & w & Hw & Hfit) Hall].
  cbn [forward_each]. unfold mbind, M_bind, of_message, with_err, fresh_iv.
  destruct (try_fill_bytes rng TUNNEL_IV_LEN) as [rng1 [iv|]] eqn:Eiv; cbn [map_err].
  2:{ split; [eexists; split; [done|by left]|]. intros Hrel.
      destruct (Hrel rng TUNNEL_IV_LEN) as (? & ? & ? & _); [done|congruence]. }
  pose proof (pack_spec sha256 Rng try_fill_bytes sha256_len fill_len rec w iv rng1 Hok Hw Hfit) as Hp.
  pose proof (pack_reliable sha256 Rng try_fill_bytes rec w iv rng1) as Hr.
  destruct (pack_payload_internal _ _ _ rec iv rng1) as [rng2 [payload|e]]; cbn [snd map_err] in *.
  2:{ split; [by eexists|]. intros Hrel. by specialize (Hr Hrel Hw Hfit). }
  destruct Hp as [Hlen Hparse]. apply fill_len in Eiv; [|done].
  destruct (outbound_preprocess _ iv payload) as [ci cd] eqn:Epre.
  specialize (IH rng2 Hall). destruct (forward_each _ _ _ _ _ _ recs rng2) as [rng3 [ds|f]]; cbn [snd] in *; [|done].
  destruct IH as (cs & Hcs & ->). exists ((iv, payload) :: cs). split.
  - constructor; [|done]. by split; [split|].
  - cbn [fmap list_fmap]. f_equal. unfold wire_pair. cbn [fst snd]. by rewrite Epre.
Qed.

(** The hops of the tunnel as the routers on its path know it. *)
Record tunnel_built (now : Z) (prev : bytes) (t : EstablishedTunnel)
    (parts : list (bytes * ParticipantState)) (ep : OutboundEndpointRole) : Prop := {
  tb_keys : hop_layer_keys <$> et_hops t = path_keys parts ++ [oe_layer_keys ep];
  tb_path : ∃ tid, first_hop_receive_tunnel t = Some tid ∧ path_ready now tid prev parts (oe_receive_tunnel ep);
  tb_endpoint : endpoint_ready now (oe_receive_tunnel ep) ep;
}.

(** No hop has seen the cells, and the windows have room for them. *)
Definition tunnel_admits (parts : list (bytes * ParticipantState)) (ep : OutboundEndpointRole)
    (cs : list (bytes * bytes)) : Prop :=
  path_admits parts cs ∧ admits (oe_duplicates ep) (token_of <$> (through (path_keys parts) <$> cs)).

Lemma wire_recovered t parts ep c :
  hop_layer_keys <$> et_hops t = path_keys parts ++ [oe_layer_keys ep] → cell_shape c →
  forward_pair (oe_layer_keys ep) (through (path_keys parts) (wire_pair t c)) = c.
Proof.
  intros Hk Hc. unfold wire_pair, keys_reverse. rewrite Hk.
  change (forward_pair (oe_layer_keys ep) (through (path_keys parts) ?x))
    with (foldl (λ c keys, forward_pair keys c) (foldl (λ c keys, forward_pair keys c) x (path_keys parts)) [oe_layer_keys ep]).
  rewrite <- foldl_app. by apply through_preprocess.
Qed.

Lemma carries_through now prev t parts ep tid cs recs :
  tunnel_built now prev t parts ep → first_hop_receive_tunnel t = Some tid →
  Forall2 carries cs recs → tunnel_admits parts ep (wire_pair t <$> cs) →
  let xs := through (path_keys parts) <$> (wire_pair t <$> cs) in
  relay now prev parts (cell_of tid <$> (wire_pair t <$> cs)) = Some (cell_of (oe_receive_tunnel ep) <$> xs) ∧
  admits (oe_duplicates ep) (token_of <$> xs) ∧
  Forall2 (λ x rec, cell_shape x ∧
    parse sha256 (forward_pair (oe_layer_keys ep) x).1 (forward_pair (oe_layer_keys ep) x).2 = Ok [rec]) xs recs.
Proof.
  intros [Hk (tid' & Ht & Hp) He] Ht' Hcs [Ha Had] xs. rewrite Ht in Ht'. injection Ht' as ->.
  assert (Hshape : Forall cell_shape cs).
  { clear -Hcs. induction Hcs as [|c rec cs recs [Hc _] _ IH]; [constructor|]. by constructor. }
  split; [|split; [done|]].
  - apply relay_path; [done|done|]. apply Forall_fmap. eapply Forall_impl; [done|]. intros c. apply preprocess_shape.
  - subst xs. rewrite <- list_fmap_compose. apply Forall2_fmap_l. clear Ha Had He Hp.
    eapply Forall2_impl; [done|]. intros c rec [Hc Hparse]. unfold compose. split.
    + by apply through_shape, preprocess_shape.
    + by rewrite (wire_recovered t parts ep) by done.
Qed.
End outbound.

(** The identifier the endpoint reports: messages in one cell carry none. *)
Definition reported_id (d : DeliveryInstruction) (id : Z) (msg : bytes) : Z :=
  if decide (zlen msg + unfragmented_overhead d ≤ cell_body_budget) then 0 else id.

Lemma endpoint_unfragmented now d msg r :
  delivery_ok d →
  ∃ r', assemble_actions [mkRecord (Some d) (Unfragmented msg)] now r = (r', Ok (Some (action_for d msg 0))).
Proof.
  intros Hd. unfold assemble_actions. cbn [assemble_records record_fragment record_delivery fragment_message_id default ok_or].
  rewrite action_from_delivery_ok by done. by eexists.
Qed.

Lemma seqZ_completes n : 1 ≤ n → seqZ 0 n = seqZ 0 (n - 1) ++ [n - 1] ∧ completes n (seqZ 0 (n - 1)) (n - 1).
Proof.
  intros Hn. split.
  - replace n with (n - 1 + 1) at 1 by lia. rewrite seqZ_app by lia. cbn. f_equal.
  - split; [rewrite elem_of_seqZ; lia|]. intros j. rewrite elem_of_seqZ. lia.
Qed.

(** Inserting all pieces of a message in order. *)
Lemma pieces_run key id d bodies r :
  id ≠ 0 → 2 ≤ zlen bodies ≤ MAX_FRAGMENT_COUNT → room_for key (zlen (concat bodies)) r →
  (insert_all key (pieces (records_of id d bodies)) r).2 =
  replicate (length bodies - 1) (Ok None) ++ [Ok (Some (mkReassembled (concat bodies) (Some d)))].
Proof.
  intros Hid Hn Hroom. rewrite pieces_records. destruct (seqZ_completes (zlen bodies)) as [-> Hc]; [lia|].
  rewrite insert_all_completes by done. cbn [snd]. do 2 f_equal. rewrite length_seqZ. unfold zlen. lia.
Qed.

Lemma length_records id d bodies : length (records_of id d bodies) = length bodies.
Proof. unfold records_of. rewrite length_fmap, length_seqZ. unfold zlen. lia. Qed.

(** The records of a message are pieces of it. *)
Lemma carry_pieces {X} id d bodies (P Q : X → FragmentDelivery → Prop) xs :
  Forall2 (λ x rec, P x rec ∧ Q x rec) xs (records_of id d bodies) →
  Forall2 (λ x rec, P x rec ∧ is_piece id d rec ∧ Q x rec) xs (records_of id d bodies).
Proof.
  intros Hxs. pose proof (records_are_pieces id d bodies) as Hp.
  induction Hxs as [|x rec xs recs [? ?] _ IH]; [constructor|]. apply Forall_cons in Hp as [? ?]. constructor; auto.
Qed.

(** What the outbound endpoint answers for the cells of one message. *)
Lemma endpoint_delivers sha256 (C : TunnelCipher) (Hlaws : TunnelCipherLaws C) now prev d id msg recs xs ep :
  delivery_ok d → id ≠ 0 → endpoint_ready now (oe_receive_tunnel ep) ep →
  (cell_body_budget < zlen msg + unfragmented_overhead d →
   room_for (mkKey (oe_receive_tunnel ep) id) (zlen msg) (Reassembler.set_now now (oe_reassembler ep))) →
  (if decide (zlen msg + unfragmented_overhead d ≤ cell_body_budget)
   then recs = [mkRecord (Some d) (Unfragmented msg)]
   else ∃ bodies, recs = records_of id d bodies ∧ concat bodies = msg ∧ 2 ≤ zlen bodies ≤ MAX_FRAGMENT_COUNT) →
  admits (oe_duplicates ep) (token_of <$> xs) →
  Forall2 (λ x rec, cell_shape x ∧
    parse sha256 (forward_pair (oe_layer_keys ep) x).1 (forward_pair (oe_layer_keys ep) x).2 = Ok [rec]) xs recs →
  (run_all (λ c, endpoint_process sha256 prev c now) (cell_of (oe_receive_tunnel ep) <$> xs) ep).2 =
  replicate (length recs - 1) (Ok None) ++ [Ok (Some (action_for d msg (reported_id d id msg)))].
Proof.
  intros Hd Hid0 Hep Hroom Hshape Ha Hxs. unfold reported_id. case_decide.
  - subst recs. inversion Hxs as [|x ? xs' ? [Hx Hp] Hnil]; subst. inversion Hnil; subst.
    apply admits_cons in Ha as (w & Ho & _).
    cbn [fmap list_fmap run_all]. erewrite endpoint_process_ok by done.
    destruct (endpoint_unfragmented now d msg (with_window w ep) Hd) as (r' & ->). done.
  - destruct Hshape as (bodies & -> & Hcat & Hn). rewrite length_records.
    rewrite (endpoint_run sha256 now (oe_receive_tunnel ep) prev id d xs (records_of id d bodies) ep); try done.
    + rewrite pieces_run; [|done|done|rewrite Hcat; apply Hroom; lia].
      rewrite fmap_app, fmap_replicate. cbn. by rewrite Hcat.
    + by apply carry_pieces.
    + rewrite pieces_run; [|done|done|rewrite Hcat; apply Hroom; lia].
      apply Forall_app. split; [by apply Forall_replicate|]. by constructor.
Qed.

(** ** The local endpoint *)
Definition local_answer (r : result ReassemblyError (option ReassembledFragment))
    : result TunnelRoleError (option bytes) :=
  match r with
  | Ok None => Ok None
  | Ok (Some x) => Ok (Some (message x))
  | Err e => Err (RoleReassembly e)
  end.

(** A record for local delivery, whole or a piece. *)
Definition is_local (id : Z) (rec : FragmentDelivery) : Prop :=
  is_piece id DeliverLocal rec ∨ ∃ body, rec = mkRecord (Some DeliverLocal) (Unfragmented body).

Lemma deliver_local ctx id rec x :
  is_local id rec →
  let key := mkKey ctx (default 0 (fragment_message_id (record_fragment rec))) in
  let ins := Reassembler.insert_with_delivery key (record_fragment rec) (record_delivery rec) x in
  delivered_by DeliverLocal ins.2 →
  deliver_records ctx [rec] None x = (ins.1, local_answer ins.2).
Proof.
  intros Hp. cbv zeta.
  destruct Hp as [[(body & ->)|(s & l & body & ->)]|(body & ->)]; cbn [deliver_records record_fragment record_delivery
    fragment_message_id default];
    destruct (Reassembler.insert_with_delivery _ _ _ _) as [y [[m|]|e]]; cbn [fst snd delivered_by local_answer];
    intros Hdel; try done; by rewrite Hdel.
Qed.

Section local_run.
Context (sha256 : bytes → bytes) `{TunnelCipherLaws}.

Record local_ready (now tid : Z) (r : LocalInboundEndpointRole) : Prop := {
  lr_receive : local_receive_tunnel r = tid;
  lr_nonzero : tid ≠ 0;
  lr_live : now < le_expires_at_ms r;
  lr_direction : et_direction (le_established r) = Inbound;
}.

(** The plaintext the endpoint recovers from a cell. *)
Definition recovered (t : EstablishedTunnel) (x : bytes * bytes) : bytes * bytes :=
  inbound_endpoint_decrypt (keys_reverse t) x.1 x.2.

Lemma local_process_ok now tid x rec r :
  local_ready now tid r → cell_shape x →
  parse sha256 (recovered (le_established r) x).1 (recovered (le_established r) x).2 = Ok [rec] →
  local_endpoint_process sha256 (cell_of tid x) now r =
  let '(y, res) := deliver_records tid [rec] None (Reassembler.set_now now (le_reassembler r)) in
  (mkLocalEndpoint (le_established r) y (le_expires_at_ms r), res).
Proof.
  intros [Hr Hz Hl Hdir] Hx Hp. unfold local_endpoint_process, local_endpoint_is_usable.
  rewrite (proj2 (Z.ltb_lt now _)), bool_decide_true by done. cbn [negb andb data_tunnel_id cell_of join_cell].
  rewrite Hr, check_receive_ok by done. change (mkTunnelData tid (x.1 ++ x.2)) with (cell_of tid x).
  rewrite split_cell_of by done. destruct x as [iv d]. unfold recovered in Hp. cbn [fst snd] in Hp.
  destruct (inbound_endpoint_decrypt _ iv d) as [iv' d']. cbn [fst snd] in Hp. by rewrite Hp.
Qed.

Lemma local_run now tid id xs recs r :
  local_ready now tid r →
  Forall2 (λ x rec, cell_shape x ∧ is_piece id DeliverLocal rec ∧
    parse sha256 (recovered (le_established r) x).1 (recovered (le_established r) x).2 = Ok [rec]) xs recs →
  let ress := (insert_all (mkKey tid id) (pieces recs) (Reassembler.set_now now (le_reassembler r))).2 in
  Forall (delivered_by DeliverLocal) ress →
  (run_all (λ c, local_endpoint_process sha256 c now) (cell_of tid <$> xs) r).2 = local_answer <$> ress.
Proof.
  intros Hr Hall ress Hress. rewrite run_all_fmap.
  apply (run_pieces _ now (mkKey tid id) DeliverLocal _
    (λ x rec, cell_shape x ∧ is_piece id DeliverLocal rec ∧
       parse sha256 (recovered (le_established r) x).1 (recovered (le_established r) x).2 = Ok [rec])
    (λ _ s, local_ready now tid s ∧ le_established s = le_established r) le_reassembler); try done.
  intros x xs' rec s (Hs & Hk) (Hx & Hp & Hparse) ins Hins. rewrite <- Hk in Hparse.
  pose proof (deliver_local tid id rec (Reassembler.set_now now (le_reassembler s)) (or_introl Hp)) as Hone.
  assert (Hkey : default 0 (fragment_message_id (record_fragment rec)) = id)
    by by destruct Hp as [(? & ->)|(? & ? & ? & ->)].
  rewrite Hkey in Hone. exists (mkLocalEndpoint (le_established s) ins.1 (le_expires_at_ms s)). split_and!; try done.
  - unfold compose. rewrite (local_process_ok now tid x rec s) by done. by rewrite (Hone Hins).
  - destruct Hs. by constructor.
Qed.
End local_run.

(** ** Properties *)


(** ** The inbound tunnel *)
Section inbound.
Context (sha256 : bytes → bytes).
Context (Rng : Type) (try_fill_bytes : Rng → Z → Rng * option bytes) (next_u32 : Rng → Rng * Z).
Context `{TunnelCipherLaws}.
Context (sha256_len : ∀ m, zlen (sha256 m) = 32).
Context (fill_len : ∀ rng n rng' buf, 0 ≤ n → try_fill_bytes rng n = (rng', Some buf) → zlen buf = n).

Lemma build_each_ivs recs rng cells rng' :
  build_each sha256 Rng try_fill_bytes recs rng = (rng', Ok cells) → Forall (λ c, zlen c.1 = TUNNEL_IV_LEN) cells.
Proof.
  revert rng cells. induction recs as [|rec recs IH]; intros rng cells; cbn [build_each].
  { intros [= _ <-]. constructor. }
  unfold mbind, M_bind, lift. destruct (match record_delivery rec with Some _ => _ | None => _ end) as [[]|]; [|done].
  destruct (try_fill_bytes rng 16) as [rng1 [iv|]] eqn:Eiv; [|done].
  destruct (pack_payload_internal _ _ _ rec iv rng1) as [rng2 [payload|]]; [|done].
  destruct (build_each _ _ _ recs rng2) as [rng3 [rest|]] eqn:Er; [|done].
  intros Heq. injection Heq as <- <-. constructor; [by eapply (fill_len _ 16)|by eapply IH].
Qed.

Lemma build_cells_carry recs rng :
  recs ≠ [] → zlen recs ≤ MAX_FRAGMENT_COUNT → Forall record_fits recs →
  match (build_cells sha256 Rng try_fill_bytes recs rng).2 with
  | Ok cells => Forall2 (carries sha256) cells recs
  | Err e => rng_failure e ∧ ¬ rng_reliable Rng try_fill_bytes
  end.
Proof.
  intros Hne Hle Hfit. pose proof (build_cells_spec sha256 Rng try_fill_bytes sha256_len fill_len recs rng Hne Hle Hfit) as Hb.
  destruct (build_cells _ _ _ recs rng) as [rng' [cells|e]] eqn:E; cbn [snd] in *; [|done].
  assert (Hiv : Forall (λ c, zlen c.1 = TUNNEL_IV_LEN) cells).
  { unfold build_cells in E. destruct (_ =? 0); [done|]. destruct (_ >? _); [done|]. by eapply build_each_ivs. }
  clear -Hb Hiv. induction Hb as [|c rec cells recs [Hl Hp] _ IH]; [constructor|].
  apply Forall_cons in Hiv as [? ?]. constructor; [|by apply IH]. by split; [split|].
Qed.

Record inbound_built (now : Z) (prev : bytes) (ig : InboundGatewayRole)
    (parts : list (bytes * ParticipantState)) (le : LocalInboundEndpointRole) : Prop := {
  ib_keys : hop_layer_keys <$> et_hops (le_established le) = ig_layer_keys ig :: path_keys parts;
  ib_path : path_ready now (next_tunnel (ig_next ig)) prev parts (local_receive_tunnel le);
  ib_local : local_ready now (local_receive_tunnel le) le;
}.

Definition emitted_pair (o : OutboundCell) : bytes * bytes := (oc_iv o, oc_data o).

Lemma emit_cell_pair r c :
  emitted_pair (emit_cell r c.1 c.2) = forward_pair (ig_layer_keys r) c ∧
  oc_cell (emit_cell r c.1 c.2) = cell_of (next_tunnel (ig_next r)) (forward_pair (ig_layer_keys r) c).
Proof. unfold emit_cell, forward_pair. by destruct (participant_forward _ _ _). Qed.

Lemma inbound_recovered t ig parts c :
  hop_layer_keys <$> et_hops t = ig_layer_keys ig :: path_keys parts → cell_shape c →
  recovered t (through (path_keys parts) (forward_pair (ig_layer_keys ig) c)) = c.
Proof.
  intros Hk Hc. unfold recovered, keys_reverse. rewrite Hk.
  change (through (path_keys parts) (forward_pair (ig_layer_keys ig) c))
    with (through (ig_layer_keys ig :: path_keys parts) c). by apply decrypt_through.
Qed.

Lemma carries_inbound now prev ig parts le cs recs :
  inbound_built now prev ig parts le → Forall2 (carries sha256) cs recs →
  path_admits parts (forward_pair (ig_layer_keys ig) <$> cs) →
  let xs := through (path_keys parts) <$> (forward_pair (ig_layer_keys ig) <$> cs) in
  relay now prev parts (cell_of (next_tunnel (ig_next ig)) <$> (forward_pair (ig_layer_keys ig) <$> cs)) =
    Some (cell_of (local_receive_tunnel le) <$> xs) ∧
  Forall2 (λ x rec, cell_shape x ∧
    parse sha256 (recovered (le_established le) x).1 (recovered (le_established le) x).2 = Ok [rec]) xs recs.
Proof.
  intros [Hk Hp Hl] Hcs Ha xs.
  assert (Hshape : Forall cell_shape cs).
  { clear -Hcs. induction Hcs as [|c rec cs recs [Hc _] _ IH]; [constructor|]. by constructor. }
  split.
  - apply relay_path; [done|done|]. apply Forall_fmap. eapply Forall_impl; [done|]. intros c. apply forward_shape.
  - subst xs. rewrite <- list_fmap_compose. apply Forall2_fmap_l.
    eapply Forall2_impl; [done|]. intros c rec [Hc Hparse]. unfold compose. split.
    + by apply through_shape, forward_shape.
    + by rewrite (inbound_recovered _ ig parts) by done.
Qed.

(** The identifier the gateway is due to use, and the one it then holds. *)
Record claimed (ig : InboundGatewayRole) (id : Z) (ig' : InboundGatewayRole) : Prop := {
  cl_fits : fits 32 id;
  cl_nonzero : id ≠ 0;
  cl_due : ig_next_fragment_id ig ≠ 0 → id = ig_next_fragment_id ig;
  cl_next : ig' = with_fragment_id (if decide (id = u32_max) then 1 else id + 1) ig;
}.

Lemma claim_fragment_id_ok ig rng :
  (∀ rng, fits 32 (next_u32 rng).2) → fits 32 (ig_next_fragment_id ig) →
  let '(ig', _, id) := claim_fragment_id Rng next_u32 ig rng in claimed ig id ig'.
Proof.
  assert (Hadv : ∀ v, fits 32 v → (if wrapping_add 32 v 1 =? 0 then 1 else wrapping_add 32 v 1) =
      (if decide (v = u32_max) then 1 else v + 1)).
  { intros v Hv. unfold fits in Hv. destruct (decide (v = u32_max)) as [-> | Hne]; [done|].
    unfold wrapping_add. rewrite Z.mod_small by (unfold u32_max in *; lia). destruct (v + 1 =? 0) eqn:E; breflect; [lia|done]. }
  intros Hn Hi. unfold claim_fragment_id. destruct (ig_next_fragment_id ig =? 0) eqn:E; breflect.
  - specialize (Hn rng). destruct (next_u32 rng) as [rng' seed]. cbn [snd] in Hn.
    assert (Hs : fits 32 (if seed =? 0 then 1 else seed) ∧ (if seed =? 0 then 1 else seed) ≠ 0).
    { destruct (seed =? 0) eqn:Es; breflect; [by split|by split]. }
    destruct Hs as [Hs1 Hs2]. rewrite (Hadv _ Hs1). split; [done|done|by rewrite E|done].
  - rewrite (Hadv _ Hi). by split.
Qed.
End inbound.

Lemma standard_bytes_nonempty sha256 (m : Message) : 0 < zlen (message_bytes sha256 _ _ _ _ m).
Proof.
  destruct m as [[] b]; cbn [message_bytes]; rewrite zlen_app; change (zlen [_]) with 1;
    match goal with |- context [zlen ?x] => pose proof (zlen_nonneg x) end; lia.
Qed.

(** What the local endpoint answers for the cells of one message. *)
Lemma local_delivers sha256 (C : TunnelCipher) (Hlaws : TunnelCipherLaws C) now id bs recs xs le :
  id ≠ 0 → local_ready now (local_receive_tunnel le) le →
  room_for (mkKey (local_receive_tunnel le) id) (zlen bs) (Reassembler.set_now now (le_reassembler le)) →
  (if decide (zlen bs + unfragmented_overhead DeliverLocal ≤ cell_body_budget)
   then recs = [mkRecord (Some DeliverLocal) (Unfragmented bs)]
   else ∃ bodies, recs = records_of id DeliverLocal bodies ∧ concat bodies = bs ∧ 2 ≤ zlen bodies ≤ MAX_FRAGMENT_COUNT) →
  Forall2 (λ x rec, cell_shape x ∧
    parse sha256 (recovered (le_established le) x).1 (recovered (le_established le) x).2 = Ok [rec]) xs recs →
  (run_all (λ c, local_endpoint_process sha256 c now) (cell_of (local_receive_tunnel le) <$> xs) le).2 =
  replicate (length recs - 1) (Ok None) ++ [Ok (Some bs)].
Proof.
  intros Hid0 Hle Hroom Hshape Hxs. case_decide.
  - subst recs. inversion Hxs as [|x ? xs' ? [Hx Hp] Hnil]; subst. inversion Hnil; subst.
    cbn [fmap list_fmap run_all]. by rewrite (local_process_ok sha256 now _ x (mkRecord (Some DeliverLocal) (Unfragmented bs)) le).
  - destruct Hshape as (bodies & -> & Hcat & Hn). rewrite length_records.
    rewrite (local_run sha256 now (local_receive_tunnel le) id xs (records_of id DeliverLocal bodies) le); try done.
    + rewrite pieces_run, Hcat by (rewrite ?Hcat; done). by rewrite fmap_app, fmap_replicate.
    + by apply carry_pieces.
    + rewrite pieces_run by (rewrite ?Hcat; done). apply Forall_app. split; [by apply Forall_replicate|]. by constructor.
Qed.

(** C3: an inbound tunnel delivers.  A well-formed message within the I2NP
    payload limit, handed to the inbound gateway of a tunnel that has not expired,
    is encoded, split under a non-zero identifier and wrapped in the gateway's
    layer.  When the participants and the local endpoint are alive and agree with
    the gateway on keys and tunnel identifiers, the participants have not seen
    the cells and have room for them in their replay windows, and the
    endpoint has room for a message under that identifier and is not
    reassembling one, every participant passes every cell on, and the endpoint
    removes all layers, answers every cell but the last with nothing and the last
    with bytes that decode to exactly the message.  The identifier is the one the
    gateway holds (a new gateway draws it), and the gateway is left holding its
    successor, with zero skipped, and otherwise as it was, so the next message
    goes under a different one.  The gateway can fail only because the random
    source does. *)
Theorem inbound_tunnel_delivers sha256 Rng try_fill_bytes next_u32 (C : TunnelCipher)
    (m : Message) rng now ig prev parts le
    (Hlaws : TunnelCipherLaws C) (sha256_len : ∀ m, zlen (sha256 m) = 32)
    (fill_len : ∀ rng n rng' buf, 0 ≤ n → try_fill_bytes rng n = (rng', Some buf) → zlen buf = n)
    (u32_ok : ∀ rng, fits 32 (next_u32 rng).2) (Hfid : fits 32 (ig_next_fragment_id ig))
    (Hm : standard_ok sha256 _ _ _ _ m) (Hlen : zlen (message_bytes sha256 _ _ _ _ m) ≤ MAX_I2NP_PAYLOAD_SIZE)
    (Hlive : now < ig_expires_at_ms ig) (Hrecv : ig_receive_tunnel ig ≠ 0)
    (Hbuilt : inbound_built now prev ig parts le) :
  let '(ig', _, res) := inbound_gateway_process_cells sha256 Rng try_fill_bytes next_u32
           (mkGatewayMessage (ig_receive_tunnel ig) m) now ig rng in
  ∃ id, (fits 32 id ∧ id ≠ 0 ∧ (ig_next_fragment_id ig ≠ 0 → id = ig_next_fragment_id ig)) ∧
    ig' = with_fragment_id (if decide (id = u32_max) then 1 else id + 1) ig ∧
    match res with
    | Err e => (∃ e', e = RoleTunnelMessage e' ∧ rng_failure e') ∧ ¬ rng_reliable Rng try_fill_bytes
    | Ok outs =>
        room_for (mkKey (local_receive_tunnel le) id) (zlen (message_bytes sha256 _ _ _ _ m))
          (Reassembler.set_now now (le_reassembler le)) →
        path_admits parts (emitted_pair <$> outs) →
        ∃ cells bs, relay now prev parts (oc_cell <$> outs) = Some cells ∧
          (run_all (λ c, local_endpoint_process sha256 c now) cells le).2 =
          replicate (length outs - 1) (Ok None) ++ [Ok (Some bs)] ∧
          decode_standard sha256 _ _ _ _ bs MAX_I2NP_PAYLOAD_SIZE = Ok m
    end.
Proof.
  assert (Hmax : MAX_I2NP_PAYLOAD_SIZE ≤ usize_max) by by vm_compute.
  destruct (standard_roundtrip sha256 _ _ _ _ m MAX_I2NP_PAYLOAD_SIZE Hm) as [Henc Hdec]; [done|].
  pose proof (standard_bytes_nonempty sha256 m) as Hpos. set (bs := message_bytes _ _ _ _ _ m) in *. clearbody bs.
  unfold inbound_gateway_process_cells, inbound_gateway_guard, inbound_gateway_is_usable, tunnel_id_new. cbn [gm_tunnel_id gm_message].
  rewrite (proj2 (Z.ltb_lt now _)) by done. cbn [negb]. rewrite (proj2 (Z.eqb_neq (ig_receive_tunnel ig) 0)) by done.
  cbn [map_err mbind result_bind]. rewrite Z.eqb_refl. cbn [negb].
  pose proof (claim_fragment_id_ok Rng next_u32 ig rng u32_ok Hfid) as Hclaim.
  destruct (claim_fragment_id Rng next_u32 ig rng) as [[ig' rng1] id].
  destruct Hclaim as [Hid Hid0 Hdue Hig'].
  assert (Hkeys : ig_layer_keys ig' = ig_layer_keys ig ∧ ig_next ig' = ig_next ig) by (by rewrite Hig').
  destruct Hkeys as [Hkeys Hnext]. unfold inner_bytes. rewrite Henc. cbn [map_err].
  destruct (fragment_complete_message_total DeliverLocal id bs) as (recs & Hrecs & Hfit & Hshape); [done..|]. rewrite Hrecs.
  assert (Hne : recs ≠ [] ∧ zlen recs ≤ MAX_FRAGMENT_COUNT).
  { case_decide; [by subst recs|]. destruct Hshape as (bodies & -> & _ & Hn).
    pose proof (length_records id DeliverLocal bodies) as Hl. split; [|unfold zlen in *; lia].
    intros E. rewrite E in Hl. unfold zlen in Hn. cbn in Hl. lia. }
  pose proof (build_cells_carry sha256 Rng try_fill_bytes sha256_len fill_len recs rng1 (proj1 Hne) (proj2 Hne) Hfit) as Hb.
  destruct (build_cells _ _ _ recs rng1) as [rng2 [cs|e]]; cbn [snd] in *; exists id;
    (split; [done|]); (split; [done|]); [|naive_solver].
  assert (Hpairs : emitted_pair <$> ((λ c, emit_cell ig' c.1 c.2) <$> cs) = forward_pair (ig_layer_keys ig) <$> cs).
  { rewrite <- list_fmap_compose. apply list_fmap_ext. intros _ c _. unfold compose. by rewrite (proj1 (emit_cell_pair ig' c)), Hkeys. }
  assert (Hcells : oc_cell <$> ((λ c, emit_cell ig' c.1 c.2) <$> cs) =
    cell_of (next_tunnel (ig_next ig)) <$> (forward_pair (ig_layer_keys ig) <$> cs)).
  { rewrite <- !list_fmap_compose. apply list_fmap_ext. intros _ c _. unfold compose.
    by rewrite (proj2 (emit_cell_pair ig' c)), Hkeys, Hnext. }
  rewrite Hpairs, Hcells. intros Hroom Hadm.
  destruct (carries_inbound sha256 now prev ig parts le cs recs Hbuilt Hb Hadm) as (Hrelay & Hxs).
  eexists _, bs. split; [exact Hrelay|]. split; [|done]. rewrite length_fmap, (Forall2_length _ _ _ Hb).
  set (xs := through _ <$> _) in *. clearbody xs. pose proof (ib_local _ _ _ _ _ Hbuilt) as Hle.
  by apply (local_delivers sha256 C Hlaws now id bs recs).
Qed.

(** ** Replays *)
Record peer_call := mkCall { call_peer : bytes; call_cell : TunnelDataMessage; call_now : Z }.
Definition call_token (c : peer_call) : bytes := token_of (split_cell (call_cell c)).

Section replay.
Context `{TunnelCipher}.

Definition participant_call (c : peer_call) : M ParticipantState TunnelRoleError TunnelDataMessage :=
  participant_process (call_peer c) (call_cell c) (call_now c).

(** The calls that forwarded a cell. *)
Fixpoint forwarded (calls : list peer_call) (s : ParticipantState) : list peer_call :=
  match calls with
  | [] => []
  | c :: calls' =>
      let '(s', r) := participant_call c s in
      match r with Ok _ => c :: forwarded calls' s' | Err _ => forwarded calls' s' end
  end.

Lemma participant_call_ok c s s' out :
  participant_call c s = (s', Ok out) →
  (call_token c ∉ dw_tokens (ps_duplicates s)) ∧ Window.len (ps_duplicates s) < dw_capacity (ps_duplicates s) ∧
  ps_duplicates s' = mkWindow (dw_capacity (ps_duplicates s)) ({[call_token c]} ∪ dw_tokens (ps_duplicates s)) ∧
  default (call_peer c) (ps_locked_previous_peer s) = call_peer c ∧ ps_locked_previous_peer s' = Some (call_peer c).
Proof.
  unfold participant_call, participant_process, call_token, token_of.
  destruct (_ >=? _); [done|]. destruct (check_receive _ _); [|done].
  case_bool_decide as Hp; cbn [negb]; [|done]. destruct (split_cell (call_cell c)) as [iv d]. cbn [fst snd].
  destruct (Window.observe _ _) as [w [[]|e]] eqn:Ho; try done.
  cbn [ps_duplicates lock_peer] in Ho. apply observe_iff in Ho as (Hn & Hl & ->).
  destruct (participant_forward _ _ _). intros Heq. injection Heq as <- <-. cbn. by rewrite Hp.
Qed.

Lemma participant_call_err c s s' e :
  participant_call c s = (s', Err e) →
  ps_duplicates s' = ps_duplicates s ∧
  (ps_locked_previous_peer s' = ps_locked_previous_peer s ∨
   ps_locked_previous_peer s = None ∧ ps_locked_previous_peer s' = Some (call_peer c)).
Proof.
  assert (Hlock : ∀ w, ps_locked_previous_peer
      (with_duplicates w (lock_peer (default (call_peer c) (ps_locked_previous_peer s)) s)) = ps_locked_previous_peer s ∨
    ps_locked_previous_peer s = None ∧ ps_locked_previous_peer
      (with_duplicates w (lock_peer (default (call_peer c) (ps_locked_previous_peer s)) s)) = Some (call_peer c)).
  { intros w. cbn. destruct (ps_locked_previous_peer s); auto. }
  unfold participant_call, participant_process.
  destruct (_ >=? _); [intros [= <- _]; auto|]. destruct (check_receive _ _); [|intros [= <- _]; auto].
  case_bool_decide as Hp; cbn [negb]; [|intros [= <- _]; auto]. destruct (split_cell (call_cell c)) as [iv d].
  destruct (Window.observe _ _) as [w [[]|x]] eqn:Ho.
  - by destruct (participant_forward _ _ _).
  - intros [= <- _]. split; [|apply Hlock]. cbn in *. unfold Window.observe in Ho.
    case_bool_decide; [by injection Ho as <-|]. by destruct (_ >=? _).
  - intros [= <- _]. split; [done|apply (Hlock (ps_duplicates s))].
Qed.

Lemma forwarded_spec calls s :
  Window.len (ps_duplicates s) ≤ dw_capacity (ps_duplicates s) →
  let fw := forwarded calls s in
  Forall (λ c, call_token c ∉ dw_tokens (ps_duplicates s)) fw ∧ NoDup (call_token <$> fw) ∧
  Window.len (ps_duplicates s) + zlen fw ≤ dw_capacity (ps_duplicates s) ∧
  ∃ peer, (∀ p, ps_locked_previous_peer s = Some p → p = peer) ∧ Forall (λ c, call_peer c = peer) fw.
Proof.
  revert s. induction calls as [|c calls IH]; intros s Hlen; cbn [forwarded].
  { split_and!; [constructor|constructor|change (zlen []) with 0; lia|].
    exists (default [] (ps_locked_previous_peer s)). split; [by intros p ->|constructor]. }
  destruct (participant_call c s) as [s' [out|e]] eqn:Ec.
  - apply participant_call_ok in Ec as (Hf & Hroom & Hw & Hp & Hlock).
    destruct (IH s') as (Hfw & Hnd & Hcap & peer & Hpeer & Hall).
    { rewrite Hw. unfold Window.len in *. cbn. rewrite size_union by set_solver. rewrite size_singleton. lia. }
    rewrite Hw in Hfw, Hcap. cbn [dw_tokens dw_capacity] in *. rewrite Hlock in Hpeer.
    pose proof (Hpeer (call_peer c) eq_refl) as <-. split_and!.
    + constructor; [done|]. eapply Forall_impl; [exact Hfw|]. intros x. cbn. set_solver.
    + cbn [fmap list_fmap]. apply NoDup_cons. split; [|done]. intros (x & Hx & Hin)%list_elem_of_fmap.
      rewrite Forall_forall in Hfw. specialize (Hfw x Hin). rewrite Hx in Hfw. set_solver.
    + rewrite zlen_cons. unfold Window.len in *. cbn in Hcap.
      rewrite size_union, size_singleton in Hcap by set_solver. lia.
    + exists (call_peer c). split; [|by constructor]. intros p Hs. rewrite Hs in Hp. done.
  - apply participant_call_err in Ec as (Hw & Hlock).
    destruct (IH s') as (Hfw & Hnd & Hcap & peer & Hpeer & Hall); [by rewrite Hw|]. rewrite Hw in *.
    split_and!; [done..|]. exists peer. split; [|done]. intros p Hs.
    destruct Hlock as [Hl|[Hn _]]; [apply Hpeer; by rewrite Hl|congruence].
Qed.
End replay.

(** C33: a participant forwards no cell twice.  Whatever peers send it, the cells a
    participant forwards have pairwise different tokens, so a repeated
    cell is never forwarded again; all of them come from the same previous
    peer; and there are at most as many as its replay window holds (at most
    1024): the window never forgets, so after that the participant is silent. *)
Theorem participant_no_replay (C : TunnelCipher) direction hop capacity expires s calls
    (Hcap : 0 ≤ capacity)
    (Hs : participant_new direction hop (Window.new capacity) expires = Ok s) :
  let fw := forwarded calls s in
  NoDup (call_token <$> fw) ∧ (∃ peer, Forall (λ c, call_peer c = peer) fw) ∧
  zlen fw ≤ Z.min capacity MAX_DUPLICATE_WINDOW.
Proof.
  unfold participant_new in Hs. destruct (hop_next hop) as [next|]; [|done]. apply Ok_inj in Hs as <-.
  destruct (forwarded_spec calls (mkParticipant direction (hop_receive_tunnel hop) next (hop_layer_keys hop) None
    (Window.new capacity) expires)) as (_ & Hnd & Hc & peer & _ & Hp).
  { unfold Window.len, Window.new. cbn. rewrite size_empty. unfold MAX_DUPLICATE_WINDOW. lia. }
  split_and!; [done|by exists peer|]. unfold Window.len, Window.new in Hc. cbn [dw_tokens dw_capacity ps_duplicates] in Hc.
  rewrite size_empty in Hc. exact Hc.
Qed.

(** A cell may complete one message and carry the whole of another: the endpoint
    then delivers the second only, and the first has already left the
    reassembler. *)
Theorem endpoint_loses_completed id d rec x d' body now r
    (Hd : delivery_ok d) (Hd' : delivery_ok d') (Hrec : is_piece id d rec)
    (Hx : delivery x = Some d)
    (Hins : (Reassembler.insert_with_delivery (mkKey (oe_receive_tunnel r) id) (record_fragment rec)
               (record_delivery rec) (Reassembler.set_now now (oe_reassembler r))).2 = Ok (Some x)) :
  (assemble_actions [rec; mkRecord (Some d') (Unfragmented body)] now r).2 = Ok (Some (action_for d' body 0)).
Proof.
  unfold assemble_actions.
  destruct Hrec as [(b & ->)|(s & l & b & ->)]; cbn [assemble_records record_fragment record_delivery
    fragment_message_id default ok_or] in *;
    destruct (Reassembler.insert_with_delivery _ _ _ _) as [y res]; cbn [snd] in Hins; subst res; rewrite Hx; cbn [default ok_or];
    by rewrite !action_from_delivery_ok by done.
Qed.

(** ** Witnesses

    A stand-in cipher, a tunnel with two participants in each direction, and a
    message of two cells. *)
Definition toy_cipher : TunnelCipher := Build_TunnelCipher
  (λ _ b, reverse b) (λ _ b, reverse b) (λ _ _ d, reverse d) (λ _ _ d, reverse d).
Lemma toy_cipher_laws : TunnelCipherLaws toy_cipher.
Proof.
  constructor; intros; cbn [aes256_ecb_encrypt_block aes256_ecb_decrypt_block aes256_cbc_encrypt aes256_cbc_decrypt toy_cipher];
    rewrite ?reverse_involutive; try done; unfold zlen in *; by rewrite length_reverse.
Qed.

Definition toy_layer (b : Z) : LayerKeys := layer_keys_new (repeat b 32) (repeat (b + 1) 32) (repeat (b + 2) 32).
Definition hop_one : EstablishedHop := hop_with_next (repeat 1 32) Participant 11 (toy_layer 1) (mkNextHop (repeat 2 32) 12).
Definition hop_two : EstablishedHop := hop_with_next (repeat 2 32) Participant 12 (toy_layer 4) (mkNextHop (repeat 3 32) 13).
Definition hop_end : EstablishedHop := hop_terminal (repeat 3 32) OutboundEndpoint 13 (toy_layer 7).
Definition toy_gateway : OutboundGatewayRole :=
  mkGateway (mkTunnel Outbound 5 [hop_one; hop_two; hop_end] 0 (zero_peer, zero_id) zero_id) 1000.
Definition toy_participant (hop : EstablishedHop) (next : EstablishedNextHop) : ParticipantState :=
  mkParticipant Outbound (hop_receive_tunnel hop) next (hop_layer_keys hop) None (Window.new 16) 1000.
Definition toy_parts : list (bytes * ParticipantState) :=
  [(repeat 1 32, toy_participant hop_one (mkNextHop (repeat 2 32) 12));
   (repeat 2 32, toy_participant hop_two (mkNextHop (repeat 3 32) 13))].
Definition toy_endpoint : OutboundEndpointRole := endpoint_new hop_end (Window.new 16) 8 100000 60000 1000 0.
Definition toy_message : bytes := (λ i, i mod 251) <$> seqZ 0 1500.
Definition toy_random (rng : nat) (n : Z) : nat * option bytes := (S rng, Some (repeat (Z.of_nat (S rng)) (Z.to_nat n))).
Lemma toy_random_len rng n rng' buf : 0 ≤ n → toy_random rng n = (rng', Some buf) → zlen buf = n.
Proof. intros Hn [= _ <-]. unfold zlen. rewrite repeat_length. lia. Qed.

Lemma admits_new tokens capacity :
  NoDup tokens → zlen tokens ≤ Z.min capacity MAX_DUPLICATE_WINDOW → admits (Window.new capacity) tokens.
Proof.
  intros Hn Hl. constructor; [cbn; set_solver|done|]. unfold Window.len, Window.new. cbn. by rewrite size_empty.
Qed.
Lemma NoDup_bool (l : list bytes) : bool_decide (NoDup l) = true → NoDup l.
Proof. apply bool_decide_eq_true. Qed.

Ltac solve_admits := apply admits_new; [apply NoDup_bool; by vm_compute|by vm_compute].

Definition toy_deliveries : list OBGWRouterDelivery :=
  match (gateway_forward_cells (H := toy_cipher) toy_digest nat toy_random
           (mkHeader (DeliverRouter (repeat 9 32)) 7 500) toy_message 0 toy_gateway O).2 with
  | Ok ds => ds
  | Err _ => []
  end.

Lemma toy_built : tunnel_built 0 (repeat 8 32) (og_established toy_gateway) toy_parts toy_endpoint.
Proof.
  constructor; [done| |by constructor]. exists 11. split; [done|].
  cbn [path_ready toy_parts]. split_and!; by constructor; auto.
Qed.


(** The inbound tunnel: a gateway, one participant and the local endpoint. *)
Definition hop_in : EstablishedHop := hop_with_next (repeat 1 32) InboundGateway 21 (toy_layer 1) (mkNextHop (repeat 2 32) 22).
Definition hop_mid : EstablishedHop := hop_with_next (repeat 2 32) Participant 22 (toy_layer 4) (mkNextHop (repeat 3 32) 23).
Definition toy_inbound : InboundGatewayRole :=
  mkInboundGateway 21 (mkNextHop (repeat 2 32) 22) (toy_layer 1) (Window.new 16) 1000 0.
Definition toy_middle : list (bytes * ParticipantState) :=
  [(repeat 2 32, mkParticipant Inbound 22 (mkNextHop (repeat 3 32) 23) (toy_layer 4) None (Window.new 16) 1000)].
Definition toy_local : LocalInboundEndpointRole :=
  local_endpoint_new (mkTunnel Inbound 6 [hop_in; hop_mid] 0 (zero_peer, zero_id) 23) 8 100000 60000 0 1000.
Definition toy_data : Message := mkMessage (Standard TData 7 1000) (Data (repeat 3 1200)).
Definition toy_u32 (rng : nat) : nat * Z := (S rng, 5).
Definition toy_emitted : list OutboundCell :=
  match (inbound_gateway_process_cells (H := toy_cipher) toy_digest nat toy_random toy_u32
           (mkGatewayMessage 21 toy_data) 0 toy_inbound O).2 with
  | Ok outs => outs
  | Err _ => []
  end.

Lemma toy_inbound_built : inbound_built 0 (repeat 1 32) toy_inbound toy_middle toy_local.
Proof.
  constructor; [done| |by constructor]. cbn [path_ready toy_middle]. split; by constructor; auto.
Qed.

Lemma inbound_tunnel_delivers_witness :
  length toy_emitted = 2%nat ∧
  ∃ cells bs, relay (C := toy_cipher) 0 (repeat 1 32) toy_middle (oc_cell <$> toy_emitted) = Some cells ∧
    (run_all (λ c, local_endpoint_process (H := toy_cipher) toy_digest c 0) cells toy_local).2 = [Ok None; Ok (Some bs)] ∧
    decode_standard toy_digest _ _ _ _ bs MAX_I2NP_PAYLOAD_SIZE = Ok toy_data.
Proof.
  split; [by vm_compute|].
  assert (Ht := inbound_tunnel_delivers toy_digest nat toy_random toy_u32 toy_cipher toy_data O 0 toy_inbound
    (repeat 1 32) toy_middle toy_local toy_cipher_laws toy_digest_len toy_random_len).
  destruct (inbound_gateway_process_cells (H := toy_cipher) toy_digest nat toy_random toy_u32
           (mkGatewayMessage (ig_receive_tunnel toy_inbound) toy_data) 0 toy_inbound O) as [[ig' rng'] res] eqn:E.
  assert (Eres : res = Ok toy_emitted).
  { transitivity (inbound_gateway_process_cells (H := toy_cipher) toy_digest nat toy_random toy_u32
           (mkGatewayMessage (ig_receive_tunnel toy_inbound) toy_data) 0 toy_inbound O).2; [by rewrite E|by vm_compute]. }
  clear E. subst res. destruct Ht as (id & (Hid & Hid0 & _) & _ & Ht).
  - by vm_compute.
  - by vm_compute.
  - by split_and!; vm_compute.
  - by vm_compute.
  - by vm_compute.
  - done.
  - exact toy_inbound_built.
  - apply Ht; [apply new_room_for; by vm_compute|]. cbn [path_admits toy_middle]. split; [solve_admits|done].
Defined.

(** A participant offered the same cell twice and then by another peer. *)
Definition toy_calls : list peer_call :=
  [mkCall (repeat 8 32) (mkTunnelData 11 (repeat 7 1024)) 0; mkCall (repeat 8 32) (mkTunnelData 11 (repeat 7 1024)) 1;
   mkCall (repeat 9 32) (mkTunnelData 11 (repeat 7 1023 ++ [6])) 2; mkCall (repeat 8 32) (mkTunnelData 11 (4 :: repeat 6 1023)) 3].
Lemma participant_no_replay_witness :
  call_now <$> forwarded (H := toy_cipher) toy_calls (toy_participant hop_one (mkNextHop (repeat 2 32) 12)) = [0; 3] ∧
  NoDup (call_token <$> forwarded (H := toy_cipher) toy_calls (toy_participant hop_one (mkNextHop (repeat 2 32) 12))).
Proof.
  split; [by vm_compute|].
  by apply (participant_no_replay toy_cipher Outbound hop_one 16 1000 (toy_participant hop_one (mkNextHop (repeat 2 32) 12)) toy_calls).
Defined.
