(* ===== verification/TunnelRegistry.v ===== *)
(** * The data-plane registry

    Models [src/crates/i2pr-tunnel/src/data_plane_registry.rs]: the roles of the
    activated local tunnels.  Outbound roles are found by pool slot, inbound
    roles by local receive tunnel; next to them the registry keeps five
    tables of public facts, which lookups read instead of the roles.  The properties
    say that the tables never disagree with the roles. *)
From S2P Require Import Prelude Codec Common Fragment Tunnel TunnelLayer TunnelRoles.
From S2P Require Import I2np TunnelData.

Record DataPlaneCapacity := mkCapacity { cap_outbound : Z; cap_inbound : Z }.

Record InboundGatewayRoute := mkRoute {
  gateway_router : bytes;
  gateway_receive_tunnel : Z;
  route_local_receive : Z;
}.

Inductive RegistryError :=
  | OutboundFull
  | InboundFull
  | DuplicateOutbound (slot : Z)
  | DuplicateInbound (id : Z)
  | DuplicateInboundSlot (slot : Z)
  | DirectionMismatch.

Inductive RegistryRemoval :=
  | RemovedOutbound (role : OutboundGatewayRole)
  | RemovedInbound (role : LocalInboundEndpointRole)
  | RemovedUnknown (slot : Z).

Record DataPlaneRegistry := mkRegistry {
  dp_capacity : DataPlaneCapacity;
  dp_outbound : gmap Z OutboundGatewayRole;
  dp_inbound : gmap Z LocalInboundEndpointRole;
  dp_outbound_first_hop : gmap Z (bytes * Z);
  dp_inbound_first_hop : gmap Z bytes;
  dp_inbound_gateway_route : gmap Z InboundGatewayRoute;
  dp_slot_to_receive : gmap Z Z;
  dp_receive_to_slot : gmap Z Z;
}.

(** A call that gives no role: an error, or a panic where the code takes the first
    hop of a tunnel that has none. *)
Inductive registry_failure := RegistryFailed (error : RegistryError) | RegistryPanic.

Module Registry.
Definition new (capacity : DataPlaneCapacity) : DataPlaneRegistry := mkRegistry capacity ∅ ∅ ∅ ∅ ∅ ∅ ∅.
Definition outbound_len (r : DataPlaneRegistry) : Z := Z.of_nat (size (dp_outbound r)).
Definition inbound_len (r : DataPlaneRegistry) : Z := Z.of_nat (size (dp_inbound r)).
Definition inbound_receive_ids (r : DataPlaneRegistry) : gset Z := dom (dp_inbound r).

Definition activate_outbound (slot : Z) (established : EstablishedTunnel) (expires_at_ms : Z) (r : DataPlaneRegistry)
    : DataPlaneRegistry * result registry_failure OutboundGatewayRole :=
  if bool_decide (is_Some (dp_outbound r !! slot)) then (r, Err (RegistryFailed (DuplicateOutbound slot)))
  else if outbound_len r >=? cap_outbound (dp_capacity r) then (r, Err (RegistryFailed OutboundFull))
  else if bool_decide (et_direction established ≠ Outbound) then (r, Err (RegistryFailed DirectionMismatch))
  else
  match first_hop_router established, first_hop_receive_tunnel established with
  | Some first_hop, Some receive_tunnel =>
      let role := mkGateway established expires_at_ms in
      (mkRegistry (dp_capacity r) (<[slot := role]> (dp_outbound r)) (dp_inbound r)
         (<[slot := (first_hop, receive_tunnel)]> (dp_outbound_first_hop r))
         (dp_inbound_first_hop r) (dp_inbound_gateway_route r) (dp_slot_to_receive r) (dp_receive_to_slot r),
       Ok role)
  | _, _ => (r, Err RegistryPanic)
  end.

Definition activate_inbound (slot : Z) (established : EstablishedTunnel)
    (reassembler_capacity reassembler_aggregate_bytes reassembly_expiry_ms now_ms expires_at_ms : Z)
    (r : DataPlaneRegistry) : DataPlaneRegistry * result RegistryError LocalInboundEndpointRole :=
  if bool_decide (et_direction established ≠ Inbound) then (r, Err DirectionMismatch)
  else if bool_decide (is_Some (dp_slot_to_receive r !! slot)) || bool_decide (is_Some (dp_outbound r !! slot))
  then (r, Err (DuplicateInboundSlot slot))
  else
  let local_receive := et_local_inbound_receive established in
  if bool_decide (is_Some (dp_inbound r !! local_receive)) then (r, Err (DuplicateInbound local_receive))
  else if inbound_len r >=? cap_inbound (dp_capacity r) then (r, Err InboundFull)
  else
  let '(ibgw_router, ibgw_receive) := et_inbound_gateway established in
  let role := local_endpoint_new established reassembler_capacity reassembler_aggregate_bytes
                reassembly_expiry_ms now_ms expires_at_ms in
  (mkRegistry (dp_capacity r) (dp_outbound r) (<[local_receive := role]> (dp_inbound r)) (dp_outbound_first_hop r)
     (<[local_receive := ibgw_router]> (dp_inbound_first_hop r))
     (<[local_receive := mkRoute ibgw_router ibgw_receive local_receive]> (dp_inbound_gateway_route r))
     (<[slot := local_receive]> (dp_slot_to_receive r)) (<[local_receive := slot]> (dp_receive_to_slot r)),
   Ok role).

Definition inbound_first_hop (local_receive : Z) (r : DataPlaneRegistry) : option bytes :=
  dp_inbound_first_hop r !! local_receive.
Definition inbound_gateway_route (local_receive : Z) (r : DataPlaneRegistry) : option InboundGatewayRoute :=
  dp_inbound_gateway_route r !! local_receive.
Definition inbound_slot (local_receive : Z) (r : DataPlaneRegistry) : option Z := dp_receive_to_slot r !! local_receive.
Definition outbound_first_hop (slot : Z) (r : DataPlaneRegistry) : option (bytes * Z) := dp_outbound_first_hop r !! slot.
Definition outbound (slot : Z) (r : DataPlaneRegistry) : option OutboundGatewayRole := dp_outbound r !! slot.
Definition inbound (local_receive : Z) (r : DataPlaneRegistry) : option LocalInboundEndpointRole :=
  dp_inbound r !! local_receive.

(** A caller changes the role it borrows in place. *)
Definition inbound_mut (local_receive : Z) (f : LocalInboundEndpointRole → LocalInboundEndpointRole)
    (r : DataPlaneRegistry) : DataPlaneRegistry :=
  mkRegistry (dp_capacity r) (dp_outbound r) (alter f local_receive (dp_inbound r)) (dp_outbound_first_hop r)
    (dp_inbound_first_hop r) (dp_inbound_gateway_route r) (dp_slot_to_receive r) (dp_receive_to_slot r).

Definition remove_outbound (slot : Z) (r : DataPlaneRegistry) : DataPlaneRegistry * option OutboundGatewayRole :=
  (mkRegistry (dp_capacity r) (delete slot (dp_outbound r)) (dp_inbound r) (delete slot (dp_outbound_first_hop r))
     (dp_inbound_first_hop r) (dp_inbound_gateway_route r) (dp_slot_to_receive r) (dp_receive_to_slot r),
   dp_outbound r !! slot).

Definition remove_inbound (local_receive : Z) (r : DataPlaneRegistry)
    : DataPlaneRegistry * option LocalInboundEndpointRole :=
  (mkRegistry (dp_capacity r) (dp_outbound r) (delete local_receive (dp_inbound r)) (dp_outbound_first_hop r)
     (delete local_receive (dp_inbound_first_hop r)) (delete local_receive (dp_inbound_gateway_route r))
     (match dp_receive_to_slot r !! local_receive with
      | Some slot => delete slot (dp_slot_to_receive r)
      | None => dp_slot_to_receive r
      end)
     (delete local_receive (dp_receive_to_slot r)),
   dp_inbound r !! local_receive).

Definition remove_slot (slot : Z) (r : DataPlaneRegistry) : DataPlaneRegistry * RegistryRemoval :=
  match remove_outbound slot r with
  | (r, Some role) => (r, RemovedOutbound role)
  | (r, None) =>
      match dp_slot_to_receive r !! slot with
      | Some local_receive =>
          match remove_inbound local_receive r with
          | (r, Some role) => (r, RemovedInbound role)
          | (r, None) => (r, RemovedUnknown slot)
          end
      | None => (r, RemovedUnknown slot)
      end
  end.

Definition has_usable_outbound_role (now_ms : Z) (r : DataPlaneRegistry) : bool :=
  existsb (λ kr, gateway_is_usable now_ms kr.2) (map_to_list (dp_outbound r)).
Definition has_usable_inbound_role (now_ms : Z) (r : DataPlaneRegistry) : bool :=
  existsb (λ kr, local_endpoint_is_usable now_ms kr.2) (map_to_list (dp_inbound r)).
End Registry.

(** ** The specification: roles by slot

    Two tables, outbound and inbound roles by pool slot, and every answer read
    off the roles. *)
Record slot_table := mkTable {
  st_outbound : gmap Z OutboundGatewayRole;
  st_inbound : gmap Z LocalInboundEndpointRole;
}.

Definition gateway_first_hop (role : OutboundGatewayRole) : option (bytes * Z) :=
  match first_hop_router (og_established role), first_hop_receive_tunnel (og_established role) with
  | Some router, Some receive => Some (router, receive)
  | _, _ => None
  end.
Definition role_gateway (role : LocalInboundEndpointRole) : bytes := (et_inbound_gateway (le_established role)).1.
Definition role_route (role : LocalInboundEndpointRole) : InboundGatewayRoute :=
  mkRoute (role_gateway role) (et_inbound_gateway (le_established role)).2 (local_receive_tunnel role).

(** The inbound role that listens on a tunnel, with its slot. *)
Definition listening (k : Z) (t : slot_table) : option (Z * LocalInboundEndpointRole) :=
  head (filter (λ sr, local_receive_tunnel sr.2 = k) (map_to_list (st_inbound t))).

Inductive registry_op :=
  | OpActivateOutbound (slot : Z) (established : EstablishedTunnel) (expires_at_ms : Z)
  | OpActivateInbound (slot : Z) (established : EstablishedTunnel) (capacity aggregate expiry now expires_at_ms : Z)
  | OpReceive (cell : TunnelDataMessage) (now_ms : Z)
  | OpRemoveOutbound (slot : Z)
  | OpRemoveInbound (local_receive : Z)
  | OpRemoveSlot (slot : Z)
  | OpOutboundFirstHop (slot : Z)
  | OpInboundFirstHop (local_receive : Z)
  | OpInboundGatewayRoute (local_receive : Z)
  | OpInboundSlot (local_receive : Z).

Inductive registry_answer :=
  | AnsOutbound (r : result registry_failure OutboundGatewayRole)
  | AnsInbound (r : result RegistryError LocalInboundEndpointRole)
  | AnsReceive (r : option (result TunnelRoleError (option bytes)))
  | AnsRemovedOutbound (r : option OutboundGatewayRole)
  | AnsRemovedInbound (r : option LocalInboundEndpointRole)
  | AnsRemoval (r : RegistryRemoval)
  | AnsFirstHop (r : option (bytes * Z))
  | AnsGateway (r : option bytes)
  | AnsRoute (r : option InboundGatewayRoute)
  | AnsSlot (r : option Z).

Section traces.
Context (sha256 : bytes → bytes) `{TunnelCipher}.

(** The registry's own operations. *)
Definition registry_step (op : registry_op) (r : DataPlaneRegistry) : DataPlaneRegistry * registry_answer :=
  match op with
  | OpActivateOutbound s t e => prod_map id AnsOutbound (Registry.activate_outbound s t e r)
  | OpActivateInbound s t c a x n e => prod_map id AnsInbound (Registry.activate_inbound s t c a x n e r)
  | OpReceive cell now =>
      let k := data_tunnel_id cell in
      (Registry.inbound_mut k (λ role, (local_endpoint_process sha256 cell now role).1) r,
       AnsReceive ((λ role, (local_endpoint_process sha256 cell now role).2) <$> Registry.inbound k r))
  | OpRemoveOutbound s => prod_map id AnsRemovedOutbound (Registry.remove_outbound s r)
  | OpRemoveInbound k => prod_map id AnsRemovedInbound (Registry.remove_inbound k r)
  | OpRemoveSlot s => prod_map id AnsRemoval (Registry.remove_slot s r)
  | OpOutboundFirstHop s => (r, AnsFirstHop (Registry.outbound_first_hop s r))
  | OpInboundFirstHop k => (r, AnsGateway (Registry.inbound_first_hop k r))
  | OpInboundGatewayRoute k => (r, AnsRoute (Registry.inbound_gateway_route k r))
  | OpInboundSlot k => (r, AnsSlot (Registry.inbound_slot k r))
  end.

Definition spec_activate_outbound (cap : DataPlaneCapacity) (slot : Z) (established : EstablishedTunnel) (expires : Z)
    (t : slot_table) : slot_table * registry_answer :=
  let role := mkGateway established expires in
  if bool_decide (is_Some (st_outbound t !! slot)) then (t, AnsOutbound (Err (RegistryFailed (DuplicateOutbound slot))))
  else if Z.of_nat (size (st_outbound t)) >=? cap_outbound cap then (t, AnsOutbound (Err (RegistryFailed OutboundFull)))
  else if bool_decide (et_direction established ≠ Outbound) then (t, AnsOutbound (Err (RegistryFailed DirectionMismatch)))
  else if bool_decide (is_Some (gateway_first_hop role))
  then (mkTable (<[slot := role]> (st_outbound t)) (st_inbound t), AnsOutbound (Ok role))
  else (t, AnsOutbound (Err RegistryPanic)).

Definition spec_activate_inbound (cap : DataPlaneCapacity) (slot : Z) (established : EstablishedTunnel)
    (c a x n expires : Z) (t : slot_table) : slot_table * registry_answer :=
  let role := local_endpoint_new established c a x n expires in
  let k := local_receive_tunnel role in
  if bool_decide (et_direction established ≠ Inbound) then (t, AnsInbound (Err DirectionMismatch))
  else if bool_decide (is_Some (st_inbound t !! slot)) || bool_decide (is_Some (st_outbound t !! slot))
  then (t, AnsInbound (Err (DuplicateInboundSlot slot)))
  else if bool_decide (is_Some (listening k t)) then (t, AnsInbound (Err (DuplicateInbound k)))
  else if Z.of_nat (size (st_inbound t)) >=? cap_inbound cap then (t, AnsInbound (Err InboundFull))
  else (mkTable (st_outbound t) (<[slot := role]> (st_inbound t)), AnsInbound (Ok role)).

Definition spec_remove_slot (s : Z) (t : slot_table) : slot_table * registry_answer :=
  match st_outbound t !! s, st_inbound t !! s with
  | Some role, _ => (mkTable (delete s (st_outbound t)) (st_inbound t), AnsRemoval (RemovedOutbound role))
  | None, Some role => (mkTable (st_outbound t) (delete s (st_inbound t)), AnsRemoval (RemovedInbound role))
  | None, None => (t, AnsRemoval (RemovedUnknown s))
  end.

Definition spec_step (cap : DataPlaneCapacity) (op : registry_op) (t : slot_table) : slot_table * registry_answer :=
  match op with
  | OpActivateOutbound s e x => spec_activate_outbound cap s e x t
  | OpActivateInbound s e c a x n ex => spec_activate_inbound cap s e c a x n ex t
  | OpReceive cell now =>
      match listening (data_tunnel_id cell) t with
      | Some (s, role) =>
          let '(role', res) := local_endpoint_process sha256 cell now role in
          (mkTable (st_outbound t) (<[s := role']> (st_inbound t)), AnsReceive (Some res))
      | None => (t, AnsReceive None)
      end
  | OpRemoveOutbound s => (mkTable (delete s (st_outbound t)) (st_inbound t), AnsRemovedOutbound (st_outbound t !! s))
  | OpRemoveInbound k =>
      match listening k t with
      | Some (s, role) => (mkTable (st_outbound t) (delete s (st_inbound t)), AnsRemovedInbound (Some role))
      | None => (t, AnsRemovedInbound None)
      end
  | OpRemoveSlot s => spec_remove_slot s t
  | OpOutboundFirstHop s => (t, AnsFirstHop (st_outbound t !! s ≫= gateway_first_hop))
  | OpInboundFirstHop k => (t, AnsGateway (role_gateway ∘ snd <$> listening k t))
  | OpInboundGatewayRoute k => (t, AnsRoute (role_route ∘ snd <$> listening k t))
  | OpInboundSlot k => (t, AnsSlot (fst <$> listening k t))
  end.

Fixpoint answers {S} (step : registry_op → S → S * registry_answer) (ops : list registry_op) (s : S)
    : list registry_answer :=
  match ops with [] => [] | op :: ops' => (step op s).2 :: answers step ops' (step op s).1 end.

(** ** The tables agree with the roles *)
Record registry_ok (r : DataPlaneRegistry) : Prop := {
  ro_out s : dp_outbound_first_hop r !! s = dp_outbound r !! s ≫= gateway_first_hop;
  ro_gateway k : dp_inbound_first_hop r !! k = role_gateway <$> dp_inbound r !! k;
  ro_route k : dp_inbound_gateway_route r !! k = role_route <$> dp_inbound r !! k;
  ro_key k role : dp_inbound r !! k = Some role → local_receive_tunnel role = k;
  ro_inverse s k : dp_slot_to_receive r !! s = Some k ↔ dp_receive_to_slot r !! k = Some s;
  ro_dom k : is_Some (dp_inbound r !! k) ↔ is_Some (dp_receive_to_slot r !! k);
}.

(** The registry [r] represents the table [t]. *)
Record represents (r : DataPlaneRegistry) (t : slot_table) : Prop := {
  rp_ok : registry_ok r;
  rp_outbound : st_outbound t = dp_outbound r;
  rp_inbound s : st_inbound t !! s = dp_slot_to_receive r !! s ≫= λ k, dp_inbound r !! k;
  rp_size : size (st_inbound t) = size (dp_inbound r);
}.

Lemma head_filter_unique {A} (P : A → Prop) `{∀ x, Decision (P x)} (l : list A) x :
  x ∈ l → P x → (∀ y, y ∈ l → P y → y = x) → head (filter P l) = Some x.
Proof.
  intros Hx HP Hu. destruct (filter P l) as [|y l'] eqn:E.
  - assert (x ∈ filter P l) as Hin by by apply list_elem_of_filter. rewrite E in Hin. by apply elem_of_nil in Hin.
  - assert (y ∈ filter P l) as Hin by (rewrite E; set_solver). apply list_elem_of_filter in Hin as [??].
    cbn. f_equal. auto.
Qed.
Lemma head_filter_none {A} (P : A → Prop) `{∀ x, Decision (P x)} (l : list A) :
  (∀ y, y ∈ l → ¬ P y) → head (filter P l) = None.
Proof.
  intros Hu. destruct (filter P l) as [|y l'] eqn:E; [done|].
  assert (y ∈ filter P l) as Hin by (rewrite E; set_solver). apply list_elem_of_filter in Hin as [??]. naive_solver.
Qed.

(** Every inbound role of the table is the one the registry finds by its tunnel. *)
Lemma table_role r t s role :
  represents r t →
  st_inbound t !! s = Some role ↔
  dp_inbound r !! local_receive_tunnel role = Some role ∧ dp_receive_to_slot r !! local_receive_tunnel role = Some s.
Proof.
  intros [Hok _ Hin _]. rewrite Hin. split.
  - intros (k & Hs & Hk)%bind_Some. pose proof (ro_key _ Hok _ _ Hk) as ->. split; [done|]. by apply (ro_inverse _ Hok).
  - intros [Hk Hs]. apply bind_Some. exists (local_receive_tunnel role). split; [by apply (ro_inverse _ Hok)|done].
Qed.

Lemma listening_some r t k s role :
  represents r t → dp_receive_to_slot r !! k = Some s → dp_inbound r !! k = Some role → listening k t = Some (s, role).
Proof.
  intros Hr Hs Hk. pose proof (ro_key _ (rp_ok _ _ Hr) _ _ Hk) as Hkey. subst k. apply head_filter_unique.
  - apply elem_of_map_to_list, (table_role r); [done|]. by split.
  - done.
  - intros [s' role'] Hin Hrole. cbn in Hrole. apply elem_of_map_to_list, (table_role r) in Hin as [H1 H2]; [|done].
    rewrite Hrole in *. congruence.
Qed.
Lemma listening_none r t k : represents r t → dp_inbound r !! k = None → listening k t = None.
Proof.
  intros Hr Hk. apply head_filter_none. intros [s role] Hin Hrole. cbn in Hrole.
  apply elem_of_map_to_list, (table_role r) in Hin as [H1 H2]; [|done]. congruence.
Qed.
Lemma registered_slot r k role :
  registry_ok r → dp_inbound r !! k = Some role → ∃ s, dp_receive_to_slot r !! k = Some s.
Proof. intros Hok Hk. apply (ro_dom _ Hok). by eexists. Qed.
Lemma unregistered_slot r k : registry_ok r → dp_inbound r !! k = None → dp_receive_to_slot r !! k = None.
Proof.
  intros Hok Hk. apply eq_None_not_Some. intros Hs. apply (ro_dom _ Hok) in Hs. rewrite Hk in Hs. by destruct Hs.
Qed.

(** The two cases of a lookup by tunnel. *)
Lemma listening_cases r t k :
  represents r t →
  (∃ s role, dp_receive_to_slot r !! k = Some s ∧ dp_slot_to_receive r !! s = Some k ∧ dp_inbound r !! k = Some role ∧
     local_receive_tunnel role = k ∧ listening k t = Some (s, role)) ∨
  (dp_receive_to_slot r !! k = None ∧ dp_inbound r !! k = None ∧ listening k t = None).
Proof.
  intros Hr. pose proof (rp_ok _ _ Hr) as Hok. destruct (dp_inbound r !! k) as [role|] eqn:Hk.
  - left. destruct (registered_slot r k role Hok Hk) as [s Hs]. exists s, role.
    split_and!; [done|by apply (ro_inverse _ Hok)|done|by apply (ro_key _ Hok)|by eapply listening_some].
  - right. split_and!; [by apply unregistered_slot|done|by eapply listening_none].
Qed.

Lemma represents_new cap : represents (Registry.new cap) (mkTable ∅ ∅).
Proof.
  constructor; [constructor; cbn|..]; intros; rewrite ?lookup_empty in *; try done; try naive_solver.
  all: split; intros []; rewrite ?lookup_empty in *; done.
Qed.

(** Installing and removing an inbound role. *)
Definition install (slot : Z) (role : LocalInboundEndpointRole) (r : DataPlaneRegistry) : DataPlaneRegistry :=
  let k := local_receive_tunnel role in
  mkRegistry (dp_capacity r) (dp_outbound r) (<[k := role]> (dp_inbound r)) (dp_outbound_first_hop r)
    (<[k := role_gateway role]> (dp_inbound_first_hop r)) (<[k := role_route role]> (dp_inbound_gateway_route r))
    (<[slot := k]> (dp_slot_to_receive r)) (<[k := slot]> (dp_receive_to_slot r)).

Lemma install_ok slot role r :
  registry_ok r → dp_slot_to_receive r !! slot = None → dp_inbound r !! local_receive_tunnel role = None →
  registry_ok (install slot role r).
Proof.
  intros Hok Hs Hk. pose proof (unregistered_slot r _ Hok Hk) as Hrs. destruct Hok as [Ho Hg Hrt Hkey Hinv Hdom].
  constructor; cbn; intros; rewrite ?lookup_insert_Some, ?lookup_insert in *.
  - apply Ho.
  - case_decide; [done|apply Hg].
  - case_decide; [done|apply Hrt].
  - naive_solver.
  - specialize (Hinv s k). destruct (decide (slot = s)); destruct (decide (local_receive_tunnel role = k)); subst; naive_solver.
  - case_decide; [naive_solver|apply Hdom].
Qed.

Lemma install_represents slot role r t :
  represents r t → dp_slot_to_receive r !! slot = None → dp_inbound r !! local_receive_tunnel role = None →
  represents (install slot role r) (mkTable (st_outbound t) (<[slot := role]> (st_inbound t))).
Proof.
  intros [Hok Ho Hin Hsz] Hs Hk. constructor; cbn.
  - by apply install_ok.
  - done.
  - intros s. rewrite !lookup_insert. case_decide; cbn; [by rewrite lookup_insert_eq|]. rewrite Hin.
    destruct (dp_slot_to_receive r !! s) as [k|] eqn:E; cbn; [|done]. rewrite lookup_insert_ne; [done|]. intros <-.
    apply (ro_inverse _ Hok) in E. rewrite (unregistered_slot r _ Hok Hk) in E. done.
  - rewrite !map_size_insert, Hk, Hsz, Hin, Hs. done.
Qed.

(** Removing the role that listens on [k] takes its slot out of the table. *)
Lemma uninstall_represents k s r t :
  represents r t → dp_receive_to_slot r !! k = Some s →
  represents (Registry.remove_inbound k r).1 (mkTable (st_outbound t) (delete s (st_inbound t))).
Proof.
  intros Hr Hs. pose proof Hr as [Hok Ho Hin Hsz]. destruct (proj2 (ro_dom _ Hok k)) as [role Hk]; [by eexists|].
  constructor; cbn; rewrite ?Hs.
  - destruct Hok as [Hout Hg Hrt Hkey Hinv Hdom]. constructor; cbn; intros; rewrite ?Hs, ?lookup_delete_Some in *; [apply Hout|..].
    + rewrite !lookup_delete. case_decide; [done|apply Hg].
    + rewrite !lookup_delete. case_decide; [done|apply Hrt].
    + naive_solver.
    + rewrite <- Hinv. pose proof (Hinv s k) as Hi. naive_solver.
    + rewrite !lookup_delete. case_decide; [naive_solver|apply Hdom].
  - done.
  - intros s'. rewrite !lookup_delete, Hin. case_decide; [done|].
    destruct (dp_slot_to_receive r !! s') as [k'|] eqn:E; cbn; [|done]. rewrite lookup_delete_ne; [done|]. intros <-.
    apply (ro_inverse _ Hok) in E. congruence.
  - rewrite !map_size_delete, Hk, Hsz, Hin. rewrite (proj2 (ro_inverse _ Hok s k) Hs). cbn. by rewrite Hk.
Qed.

(** Work on an inbound role in place. *)
Lemma update_represents k s f role r t :
  represents r t → dp_receive_to_slot r !! k = Some s → dp_inbound r !! k = Some role →
  le_established (f role) = le_established role →
  represents (Registry.inbound_mut k f r) (mkTable (st_outbound t) (<[s := f role]> (st_inbound t))).
Proof.
  intros Hr Hs Hk Hf. pose proof Hr as [Hok Ho Hin Hsz].
  assert (Hsame : role_gateway (f role) = role_gateway role ∧ role_route (f role) = role_route role ∧
    local_receive_tunnel (f role) = local_receive_tunnel role).
  { unfold role_route, role_gateway, local_receive_tunnel. by rewrite !Hf. }
  destruct Hsame as (Hsg & Hsr & Hsl). constructor; cbn.
  - destruct Hok as [Hout Hg Hrt Hkey Hinv Hdom]. constructor; cbn; intros; [apply Hout|..|apply Hinv|].
    + rewrite lookup_alter. case_decide; [|apply Hg]. subst. rewrite Hg, Hk. cbn. by rewrite Hsg.
    + rewrite lookup_alter. case_decide; [|apply Hrt]. subst. rewrite Hrt, Hk. cbn. by rewrite Hsr.
    + rewrite lookup_alter in *. case_decide; [|by apply Hkey]. subst. rewrite Hk in *. simplify_eq/=. rewrite Hsl. by apply Hkey.
    + rewrite lookup_alter. case_decide; [|apply Hdom]. subst. rewrite fmap_is_Some. apply Hdom.
  - done.
  - intros s'. rewrite lookup_insert. case_decide as E.
    + subst s'. rewrite (proj2 (ro_inverse _ Hok s k) Hs). cbn. by rewrite lookup_alter_eq, Hk.
    + rewrite Hin. destruct (dp_slot_to_receive r !! s') as [k'|] eqn:E'; cbn; [|done].
      rewrite lookup_alter_ne; [done|]. intros <-. apply (ro_inverse _ Hok) in E'. congruence.
  - rewrite map_size_insert, <- (size_dom (D := gset Z) (alter _ _ _)), dom_alter_L, size_dom, Hsz, Hin, (proj2 (ro_inverse _ Hok s k) Hs). cbn. by rewrite Hk.
Qed.

Lemma local_process_established cell now role :
  le_established (local_endpoint_process sha256 cell now role).1 = le_established role.
Proof.
  unfold local_endpoint_process. destruct (negb _); [done|]. destruct (check_receive _ _); [|done].
  destruct (split_cell cell) as [iv c]. destruct (inbound_endpoint_decrypt _ iv c) as [iv' d].
  destruct (parse sha256 iv' d) as [[|rec recs]|e]; [done| |done]. by destruct (deliver_records _ _ _ _).
Qed.

Lemma outbound_represents r t out first :
  represents r t → (∀ s, first !! s = out !! s ≫= gateway_first_hop) →
  represents (mkRegistry (dp_capacity r) out (dp_inbound r) first (dp_inbound_first_hop r) (dp_inbound_gateway_route r)
    (dp_slot_to_receive r) (dp_receive_to_slot r)) (mkTable out (st_inbound t)).
Proof. intros [[] Ho Hin Hsz] Hf. by constructor; [constructor|..]. Qed.

Lemma remove_outbound_represents s r t :
  represents r t →
  represents (Registry.remove_outbound s r).1 (mkTable (delete s (st_outbound t)) (st_inbound t)).
Proof.
  intros Hr. pose proof Hr as [Hok Ho _ _]. rewrite Ho. apply outbound_represents; [done|].
  intros s'. rewrite !lookup_delete. case_decide; [done|apply (ro_out _ Hok)].
Qed.

Lemma activate_outbound_step s e x r t :
  represents r t →
  let '(r', res) := Registry.activate_outbound s e x r in
  let '(t', ans) := spec_activate_outbound (dp_capacity r) s e x t in
  ans = AnsOutbound res ∧ represents r' t' ∧ dp_capacity r' = dp_capacity r.
Proof.
  intros Hr. pose proof Hr as [Hok Ho Hin Hsz].
  unfold Registry.activate_outbound, spec_activate_outbound, Registry.outbound_len, gateway_first_hop. rewrite Ho. cbn [og_established].
  case_bool_decide; [done|]. destruct (_ >=? _); [done|]. case_bool_decide; [done|].
  destruct (first_hop_router e) as [router|] eqn:E1; [|by rewrite bool_decide_false by by intros []].
  destruct (first_hop_receive_tunnel e) as [recv|] eqn:E2; [|by rewrite bool_decide_false by by intros []].
  rewrite bool_decide_true by by eexists. split_and!; [done| |done]. apply outbound_represents; [done|].
  intros s'. rewrite !lookup_insert. case_decide; [|apply (ro_out _ Hok)]. cbn. unfold gateway_first_hop. cbn. by rewrite E1, E2.
Qed.

Lemma activate_inbound_step s e c a x n ex r t :
  represents r t →
  let '(r', res) := Registry.activate_inbound s e c a x n ex r in
  let '(t', ans) := spec_activate_inbound (dp_capacity r) s e c a x n ex t in
  ans = AnsInbound res ∧ represents r' t' ∧ dp_capacity r' = dp_capacity r.
Proof.
  intros Hr. pose proof Hr as [Hok Ho Hin Hsz].
  unfold Registry.activate_inbound, spec_activate_inbound, Registry.inbound_len. rewrite Ho, Hsz.
  set (role := local_endpoint_new e c a x n ex). change (et_local_inbound_receive e) with (local_receive_tunnel role).
  case_bool_decide; [done|].
  assert (Hslot : is_Some (st_inbound t !! s) ↔ is_Some (dp_slot_to_receive r !! s)).
  { rewrite Hin. split; [intros [? (k & -> & _)%bind_Some]; by eexists|]. intros [k Hk]. rewrite Hk. cbn.
    apply (ro_dom _ Hok). exists s. by apply (ro_inverse _ Hok). }
  rewrite (bool_decide_ext _ _ Hslot). destruct (bool_decide (is_Some (dp_slot_to_receive r !! s))) eqn:Es; [done|].
  apply bool_decide_eq_false in Es. destruct (bool_decide (is_Some (dp_outbound r !! s))); [done|]. cbn [orb].
  assert (Hl : is_Some (listening (local_receive_tunnel role) t) ↔ is_Some (dp_inbound r !! local_receive_tunnel role)).
  { destruct (listening_cases r t (local_receive_tunnel role) Hr) as [(s' & role' & _ & _ & -> & _ & ->)|(_ & -> & ->)]; [|done].
    split; by eexists. }
  rewrite (bool_decide_ext _ _ Hl). case_bool_decide as Hk; [done|]. destruct (_ >=? _); [done|].
  apply eq_None_not_Some in Es, Hk.
  pose proof (install_represents s role r t Hr Es Hk) as Hi. unfold install, role_route, role_gateway in Hi.
  cbn [role local_endpoint_new le_established] in Hi. destruct (et_inbound_gateway e) as [router recv]. rewrite Ho in Hi. split_and!; [done|exact Hi|done].
Qed.

Lemma remove_slot_step s r t :
  represents r t →
  let '(r', res) := Registry.remove_slot s r in
  let '(t', ans) := spec_remove_slot s t in
  ans = AnsRemoval res ∧ represents r' t' ∧ dp_capacity r' = dp_capacity r.
Proof.
  intros Hr. pose proof Hr as [Hok Ho Hin Hsz]. unfold Registry.remove_slot, spec_remove_slot.
  pose proof (remove_outbound_represents s r t Hr) as Hout. cbn [Registry.remove_outbound fst] in Hout |- *. rewrite Ho in *.
  destruct (dp_outbound r !! s) as [role|] eqn:Eo; [done|].
  rewrite delete_id in Hout |- * by done. rewrite (delete_id (dp_outbound_first_hop r)) in Hout |- * by by rewrite (ro_out _ Hok), Eo.
  cbn [dp_slot_to_receive]. rewrite Hin. destruct (dp_slot_to_receive r !! s) as [k|] eqn:Es; cbn [mbind option_bind].
  2:{ split_and!; [done| |done]. by destruct t; cbn in *; subst. }
  apply (ro_inverse _ Hok) in Es. destruct (proj2 (ro_dom _ Hok k)) as [role Hk]; [by eexists|].
  pose proof (uninstall_represents k s _ _ Hout Es) as Hu. cbn in Hu. unfold Registry.remove_inbound. cbn. rewrite Hk. done.
Qed.

Lemma registry_step_refines op r t :
  represents r t →
  let '(r', ans) := registry_step op r in
  let '(t', ans') := spec_step (dp_capacity r) op t in
  ans' = ans ∧ represents r' t' ∧ dp_capacity r' = dp_capacity r.
Proof.
  intros Hr. pose proof Hr as [Hok Ho Hin Hsz]. destruct op as [s e x|s e c a x n ex|cell now|s|k|s|s|k|k|k]; cbn [registry_step spec_step].
  - pose proof (activate_outbound_step s e x r t Hr) as Hs. by destruct (Registry.activate_outbound _ _ _ _).
  - pose proof (activate_inbound_step s e c a x n ex r t Hr) as Hs. by destruct (Registry.activate_inbound _ _ _ _ _ _ _ _).
  - destruct (listening_cases r t (data_tunnel_id cell) Hr) as [(s & role & Hs & _ & Hk & _ & ->)|(_ & Hk & ->)].
    + pose proof (update_represents (data_tunnel_id cell) s (λ role, (local_endpoint_process sha256 cell now role).1) role r t
        Hr Hs Hk (local_process_established cell now role)) as Hu. unfold Registry.inbound. rewrite Hk. cbn [fmap option_fmap option_map].
      cbv beta in Hu. unfold Registry.inbound_mut in *. destruct (local_endpoint_process _ _ _ role) as [role' res]. done.
    + unfold Registry.inbound. rewrite Hk. split_and!; [done| |done]. unfold Registry.inbound_mut.
      rewrite alter_id by (intros; congruence). by destruct r.
  - pose proof (remove_outbound_represents s r t Hr) as Hs. rewrite Ho in *. done.
  - destruct (listening_cases r t k Hr) as [(s & role & Hs & _ & Hk & _ & ->)|(Hs & Hk & ->)].
    + pose proof (uninstall_represents k s r t Hr Hs) as Hu. cbn in *. by rewrite Hk.
    + cbn. rewrite Hk, Hs. split_and!; [done| |done]. rewrite !delete_id; try done; [by destruct r|..].
      * by rewrite (ro_route _ Hok), Hk.
      * by rewrite (ro_gateway _ Hok), Hk.
  - pose proof (remove_slot_step s r t Hr) as Hs. by destruct (Registry.remove_slot _ _).
  - unfold Registry.outbound_first_hop. by rewrite (ro_out _ Hok), Ho.
  - unfold Registry.inbound_first_hop. rewrite (ro_gateway _ Hok).
    by destruct (listening_cases r t k Hr) as [(s & role & _ & _ & -> & _ & ->)|(_ & -> & ->)].
  - unfold Registry.inbound_gateway_route. rewrite (ro_route _ Hok).
    by destruct (listening_cases r t k Hr) as [(s & role & _ & _ & -> & _ & ->)|(_ & -> & ->)].
  - unfold Registry.inbound_slot.
    by destruct (listening_cases r t k Hr) as [(s & role & -> & _ & _ & _ & ->)|(-> & _ & ->)].
Qed.

Lemma answers_refine ops r t :
  represents r t → answers registry_step ops r = answers (spec_step (dp_capacity r)) ops t.
Proof.
  revert r t. induction ops as [|op ops IH]; intros r t Hr; [done|]. cbn [answers].
  pose proof (registry_step_refines op r t Hr) as Hs. destruct (registry_step op r) as [r' ans].
  destruct (spec_step (dp_capacity r) op t) as [t' ans']. destruct Hs as (-> & Hr' & Hc). cbn [fst snd].
  by rewrite (IH r' t'), Hc.
Qed.
End traces.

(** ** Properties *)

(** C17: the registry's seven tables behave as two.  On every sequence of
    activations, cells, removals and lookups, errors and panics included, the
    registry gives the answers of a specification that keeps outbound and
    inbound roles by pool slot and reads every public fact off the roles: the first
    hop, the gateway and the route of a tunnel are always those of the role that is
    active, no fact of a removed tunnel survives, and slots and receive tunnels
    name each other one to one. *)
Theorem registry_refines sha256 (C : TunnelCipher) cap ops :
  answers (registry_step sha256) ops (Registry.new cap) = answers (spec_step sha256 cap) ops (mkTable ∅ ∅).
Proof. apply (answers_refine sha256 ops (Registry.new cap)), represents_new. Qed.

(** The registry never holds more roles than its capacity. *)
Definition within (cap : DataPlaneCapacity) (t : slot_table) : Prop :=
  Z.of_nat (size (st_outbound t)) ≤ cap_outbound cap ∧ Z.of_nat (size (st_inbound t)) ≤ cap_inbound cap.

Lemma size_delete_le {A} (m : gmap Z A) k : (size (delete k m) ≤ size m)%nat.
Proof. rewrite map_size_delete. destruct (m !! k); cbn; lia. Qed.

Lemma listening_in k t s role : listening k t = Some (s, role) → st_inbound t !! s = Some role.
Proof.
  unfold listening. destruct (filter _ _) as [|x l] eqn:E; [done|]. intros [= ->].
  assert (Hin : (s, role) ∈ filter (λ sr : Z * LocalInboundEndpointRole, local_receive_tunnel sr.2 = k) (map_to_list (st_inbound t)))
    by (rewrite E; set_solver).
  apply list_elem_of_filter in Hin as [_ Hin]. by apply elem_of_map_to_list.
Qed.

Lemma spec_step_within sha256 (C : TunnelCipher) cap op t : within cap t → within cap (spec_step sha256 cap op t).1.
Proof.
  intros [Ho Hi]. destruct op as [s e x|s e c a x n ex|cell now|s|k|s|s|k|k|k]; cbn [spec_step fst]; try done.
  - unfold spec_activate_outbound. repeat case_bool_decide; try done; destruct (_ >=? _) eqn:E; breflect; try done.
    split; cbn; [|done]. rewrite map_size_insert. destruct (st_outbound t !! s); cbn; lia.
  - unfold spec_activate_inbound. repeat case_bool_decide; cbn [orb]; try done; destruct (_ >=? _) eqn:E; breflect; try done.
    split; cbn; [done|]. rewrite map_size_insert. destruct (st_inbound t !! s); cbn; lia.
  - destruct (listening _ t) as [[s role]|] eqn:El; [|done]. destruct (local_endpoint_process _ _ _ _).
    split; cbn; [done|]. by rewrite map_size_insert, (listening_in _ _ _ _ El).
  - pose proof (size_delete_le (st_outbound t) s). split; cbn [fst st_inbound st_outbound]; lia.
  - destruct (listening _ t) as [[s role]|]; [|done]. pose proof (size_delete_le (st_inbound t) s). split; cbn [fst st_inbound st_outbound]; lia.
  - unfold spec_remove_slot. pose proof (size_delete_le (st_outbound t) s). pose proof (size_delete_le (st_inbound t) s).
    destruct (st_outbound t !! s), (st_inbound t !! s); split; cbn [fst st_inbound st_outbound]; lia.
Qed.

Lemma represents_within sha256 (C : TunnelCipher) cap ops r t :
  represents r t → dp_capacity r = cap → within cap t →
  let r' := foldl (λ r op, (registry_step sha256 op r).1) r ops in
  Registry.outbound_len r' ≤ cap_outbound cap ∧ Registry.inbound_len r' ≤ cap_inbound cap ∧ registry_ok r'.
Proof.
  revert r t. induction ops as [|op ops IH]; intros r t Hr Hc Hw.
  { destruct Hr as [Hok Ho _ Hsz]. destruct Hw as [Hw1 Hw2]. cbn. unfold Registry.outbound_len, Registry.inbound_len.
    by rewrite <- Ho, <- Hsz. }
  cbn [foldl]. pose proof (registry_step_refines sha256 op r t Hr) as Hs.
  pose proof (spec_step_within sha256 C cap op t Hw) as Hw'. rewrite Hc in Hs.
  destruct (registry_step sha256 op r) as [r' ans]. destruct (spec_step sha256 cap op t) as [t' ans'].
  destruct Hs as (_ & Hr' & Hc'). by apply (IH r' t').
Qed.

(** Within its capacity, and with tables that agree with the roles, after any
    sequence of operations. *)
Theorem registry_bounded sha256 (C : TunnelCipher) cap ops (Hcap : 0 ≤ cap_outbound cap ∧ 0 ≤ cap_inbound cap) :
  let r := foldl (λ r op, (registry_step sha256 op r).1) (Registry.new cap) ops in
  Registry.outbound_len r ≤ cap_outbound cap ∧ Registry.inbound_len r ≤ cap_inbound cap ∧ registry_ok r.
Proof.
  apply (represents_within sha256 C cap ops _ (mkTable ∅ ∅)); [apply represents_new|done|].
  split; cbn; rewrite map_size_empty; lia.
Qed.
