(* ===== verification/Ntcp2Crypto.v ===== *)
(** * NTCP2 cryptographic composition

    Models [src/crates/i2pr-transport-ntcp2/src/crypto.rs]: the nonce-counting
    cipher states, the obfuscation of ephemeral keys and of frame lengths, and
    the transcript of the three handshake messages, up to the keys of the data
    phase.  SHA-256, HMAC, ChaCha20-Poly1305, SipHash and AES come from other
    crates: they are the operations of the class [Ntcp2Primitives], and
    [Ntcp2Laws] is what is documented of them. *)
From S2P Require Import Prelude.

(** ** Constants *)
Definition KEY_LENGTH : Z := 32.
Definition HASH_LENGTH : Z := 32.
Definition NONCE_LENGTH : Z := 12.
Definition AUTH_TAG_LENGTH : Z := 16.
Definition AES_BLOCK_LENGTH : Z := 16.
Definition MAX_FRAME_LENGTH : Z := 65535.
Definition MAX_FRAME_PLAINTEXT : Z := MAX_FRAME_LENGTH - AUTH_TAG_LENGTH.
Definition MAX_WIRE_FRAME_LENGTH : Z := MAX_FRAME_LENGTH + 2.
Definition MAX_SESSION_REQUEST_PADDING : Z := 880.
Definition MAX_SESSION_CREATED_PADDING : Z := 848.
Definition MAX_NONCE : Z := u64_max - 1.
Definition PROTOCOL_NAME : bytes :=
  [78; 111; 105; 115; 101; 95; 88; 75; 97; 101; 115; 111; 98; 102; 115; 101; 43; 104; 115; 50; 43; 104; 115; 51; 95;
   50; 53; 53; 49; 57; 95; 67; 104; 97; 67; 104; 97; 80; 111; 108; 121; 95; 83; 72; 65; 50; 53; 54].
Definition PROLOGUE : bytes := [].
Definition ASK_LABEL : bytes := [97; 115; 107].
Definition SIPHASH_LABEL : bytes := [115; 105; 112; 104; 97; 115; 104].

(** Little-endian integers. *)
Definition to_le (n : nat) (v : Z) : bytes := reverse (to_be n v).
Definition from_le (l : bytes) : Z := from_be (reverse l).

(** ** The primitives *)
Class Ntcp2Primitives := {
  sha256 : bytes → bytes;
  hmac (key data : bytes) : option bytes;
  aead_encrypt (key nonce ad plaintext : bytes) : option bytes;
  aead_decrypt (key nonce ad ciphertext : bytes) : option bytes;
  siphash24 (key1 key2 : Z) (message : bytes) : Z;
  aes_encrypt_block (key block : bytes) : bytes;
  aes_decrypt_block (key block : bytes) : bytes;
}.

Class Ntcp2Laws (P : Ntcp2Primitives) : Prop := {
  hmac_total key data : ∃ mac, hmac key data = Some mac ∧ zlen mac = HASH_LENGTH;
  aead_correct key nonce ad plaintext : zlen plaintext ≤ MAX_FRAME_PLAINTEXT →
    ∃ ciphertext, aead_encrypt key nonce ad plaintext = Some ciphertext ∧
      zlen ciphertext = zlen plaintext + AUTH_TAG_LENGTH ∧
      aead_decrypt key nonce ad ciphertext = Some plaintext;
  siphash_range key1 key2 message : fits 64 (siphash24 key1 key2 message);
  aes_correct key block : zlen block = AES_BLOCK_LENGTH →
    zlen (aes_encrypt_block key block) = AES_BLOCK_LENGTH ∧
    aes_decrypt_block key (aes_encrypt_block key block) = block;
}.

Inductive Ntcp2CryptoError :=
  | InvalidPublicKey
  | FieldTooLarge
  | FrameLengthOutOfRange (length : Z)
  | NonceExhausted
  | EncryptionFailed
  | AuthenticationFailed
  | InvalidState
  | WrongRole
  | PeerStaticMismatch
  | KdfInput.

Inductive Role := Initiator | Responder.
#[global] Instance Role_eq_dec : EqDecision Role.
Proof. solve_decision. Defined.

Definition public_key_new (bs : bytes) : result Ntcp2CryptoError bytes :=
  if forallb (λ b, b =? 0) bs then Err InvalidPublicKey else Ok bs.

(** ** Cipher states *)
Record CipherState := mkCipher { cs_key : bytes; cs_nonce : Z }.
Definition cipher_new (key : bytes) : CipherState := mkCipher key 0.

Definition nonce_next : M Z Ntcp2CryptoError bytes := λ counter,
  if counter >? MAX_NONCE then (counter, Err NonceExhausted)
  else
  match checked_add u64_max counter 1 with
  | None => (counter, Err NonceExhausted)
  | Some next => (next, Ok (replicate 4 0 ++ to_le 8 counter))
  end.

Section primitives.
Context `{Ntcp2Primitives}.

Definition seal (plaintext associated_data : bytes) : M CipherState Ntcp2CryptoError bytes := λ c,
  if zlen plaintext >? MAX_FRAME_PLAINTEXT then (c, Err FieldTooLarge)
  else
  match nonce_next (cs_nonce c) with
  | (n, Err e) => (mkCipher (cs_key c) n, Err e)
  | (n, Ok nonce) =>
      (mkCipher (cs_key c) n, ok_or EncryptionFailed (aead_encrypt (cs_key c) nonce associated_data plaintext))
  end.

Definition open (ciphertext associated_data : bytes) : M CipherState Ntcp2CryptoError bytes := λ c,
  if (zlen ciphertext <? AUTH_TAG_LENGTH) || (zlen ciphertext >? MAX_FRAME_LENGTH) then (c, Err FieldTooLarge)
  else
  match nonce_next (cs_nonce c) with
  | (n, Err e) => (mkCipher (cs_key c) n, Err e)
  | (n, Ok nonce) =>
      (mkCipher (cs_key c) n, ok_or AuthenticationFailed (aead_decrypt (cs_key c) nonce associated_data ciphertext))
  end.

(** ** Obfuscation of the ephemeral keys: CBC over two blocks *)
Record AesObfuscationState := mkObfuscation { ob_key : bytes; ob_chain : bytes }.

Definition xor_bytes (a b : bytes) : bytes := zip_with Z.lxor a b.

(** The 16-byte blocks of a key. *)
Definition key_blocks (key : bytes) : list bytes := [slice 0 16 key; slice 16 32 key].

Fixpoint cbc_encrypt (key chain : bytes) (blocks : list bytes) : bytes * list bytes :=
  match blocks with
  | [] => (chain, [])
  | input :: blocks' =>
      let block := aes_encrypt_block key (xor_bytes input chain) in
      let '(chain', out) := cbc_encrypt key block blocks' in (chain', block :: out)
  end.
Fixpoint cbc_decrypt (key chain : bytes) (blocks : list bytes) : bytes * list bytes :=
  match blocks with
  | [] => (chain, [])
  | input :: blocks' =>
      let block := xor_bytes (aes_decrypt_block key input) chain in
      let '(chain', out) := cbc_decrypt key input blocks' in (chain', block :: out)
  end.

Definition obfuscate_key (plaintext : bytes) (s : AesObfuscationState) : AesObfuscationState * bytes :=
  let '(chain, out) := cbc_encrypt (ob_key s) (ob_chain s) (key_blocks plaintext) in
  (mkObfuscation (ob_key s) chain, concat out).
Definition deobfuscate_key (ciphertext : bytes) : M AesObfuscationState Ntcp2CryptoError bytes := λ s,
  let '(chain, out) := cbc_decrypt (ob_key s) (ob_chain s) (key_blocks ciphertext) in
  (mkObfuscation (ob_key s) chain, public_key_new (concat out)).

(** ** Obfuscation of the frame lengths *)
Record SipHashState := mkSip { sip_key1 : Z; sip_key2 : Z; sip_iv : bytes }.
Definition sip_new (material : bytes) : SipHashState :=
  mkSip (from_le (slice 0 8 material)) (from_le (slice 8 16 material)) (slice 16 24 material).

Definition next_mask (s : SipHashState) : SipHashState * Z :=
  let next_iv := to_le 8 (siphash24 (sip_key1 s) (sip_key2 s) (sip_iv s)) in
  (mkSip (sip_key1 s) (sip_key2 s) next_iv, from_le (slice 0 2 next_iv)).

Definition obfuscate_length (length : Z) : M SipHashState Ntcp2CryptoError Z := λ s,
  if negb ((16 <=? length) && (length <=? u16_max)) then (s, Err (FrameLengthOutOfRange length))
  else let '(s', mask) := next_mask s in (s', Ok (Z.lxor length mask)).
Definition deobfuscate_length (obfuscated : Z) : M SipHashState Ntcp2CryptoError Z := λ s,
  let '(s', mask) := next_mask s in
  let length := Z.lxor obfuscated mask in
  (s', if negb ((16 <=? length) && (length <=? u16_max)) then Err (FrameLengthOutOfRange length) else Ok length).

Record SplitKeys := mkSplit {
  split_transmit : CipherState;
  split_receive : CipherState;
  split_transmit_lengths : SipHashState;
  split_receive_lengths : SipHashState;
}.

(** ** The handshake transcript *)
Inductive TranscriptStage :=
  | StageInitial | Message1Complete | Message1Padded | Message2Complete | Message2Padded | StaticEncrypted | Confirmed.
#[global] Instance TranscriptStage_eq_dec : EqDecision TranscriptStage.
Proof. solve_decision. Defined.

Record Transcript := mkTranscript {
  tr_role : Role;
  tr_peer_static : bytes;
  tr_hash : bytes;
  tr_chaining_key : bytes;
  tr_cipher : option CipherState;
  tr_stage : TranscriptStage;
}.

Definition protocol_name_hash : bytes := sha256 PROTOCOL_NAME.
Definition sha256_concat (left right : bytes) : bytes := sha256 (left ++ right).
Definition hmac_sha256 (key data : bytes) : result Ntcp2CryptoError bytes := ok_or KdfInput (hmac key data).

Definition with_hash (h : bytes) (t : Transcript) : Transcript :=
  mkTranscript (tr_role t) (tr_peer_static t) h (tr_chaining_key t) (tr_cipher t) (tr_stage t).
Definition with_cipher (c : CipherState) (t : Transcript) : Transcript :=
  mkTranscript (tr_role t) (tr_peer_static t) (tr_hash t) (tr_chaining_key t) (Some c) (tr_stage t).
Definition with_stage (s : TranscriptStage) (t : Transcript) : Transcript :=
  mkTranscript (tr_role t) (tr_peer_static t) (tr_hash t) (tr_chaining_key t) (tr_cipher t) s.

Definition transcript_new (role : Role) (responder_static : bytes) : Transcript :=
  let protocol_hash := protocol_name_hash in
  let hash := sha256_concat (sha256_concat protocol_hash PROLOGUE) responder_static in
  mkTranscript role responder_static hash protocol_hash None StageInitial.

Definition mix_hash (bs : bytes) (t : Transcript) : Transcript := with_hash (sha256_concat (tr_hash t) bs) t.

Definition mix_padding (padding : bytes) (t : Transcript) : result Ntcp2CryptoError Transcript :=
  if zlen padding >? Z.max MAX_SESSION_REQUEST_PADDING MAX_SESSION_CREATED_PADDING then Err FieldTooLarge
  else
  let mixed := if zlen padding =? 0 then t else mix_hash padding t in
  match tr_stage t with
  | Message1Complete => Ok (with_stage Message1Padded mixed)
  | Message2Complete => Ok (with_stage Message2Padded mixed)
  | _ => Err InvalidState
  end.

Definition mix_ephemeral (ephemeral_public : bytes) (t : Transcript) : Transcript := mix_hash ephemeral_public t.

Definition mix_key (shared_secret : bytes) (t : Transcript) : result Ntcp2CryptoError Transcript :=
  temp_key ← hmac_sha256 (tr_chaining_key t) shared_secret;
  next_chain ← hmac_sha256 temp_key [1];
  cipher_key ← hmac_sha256 temp_key (next_chain ++ [2]);
  Ok (mkTranscript (tr_role t) (tr_peer_static t) (tr_hash t) next_chain (Some (cipher_new cipher_key)) (tr_stage t)).

Definition encrypt_and_hash (plaintext : bytes) (t : Transcript) : result Ntcp2CryptoError (Transcript * bytes) :=
  cipher ← ok_or InvalidState (tr_cipher t);
  let '(cipher', sealed) := seal plaintext (tr_hash t) cipher in
  ciphertext ← sealed;
  Ok (with_hash (sha256_concat (tr_hash t) ciphertext) (with_cipher cipher' t), ciphertext).

Definition decrypt_and_hash (ciphertext : bytes) (t : Transcript) : result Ntcp2CryptoError (Transcript * bytes) :=
  cipher ← ok_or InvalidState (tr_cipher t);
  let '(cipher', opened) := open ciphertext (tr_hash t) cipher in
  plaintext ← opened;
  Ok (with_hash (sha256_concat (tr_hash t) ciphertext) (with_cipher cipher' t), plaintext).

(** The role and the stage an operation requires. *)
Definition require (role : Role) (stage : TranscriptStage) (t : Transcript) : result Ntcp2CryptoError () :=
  if bool_decide (tr_role t ≠ role) then Err WrongRole
  else if bool_decide (tr_stage t ≠ stage) then Err InvalidState
  else Ok ().

Definition session_request (ephemeral_public shared_secret options : bytes) (t : Transcript)
    : result Ntcp2CryptoError (Transcript * bytes) :=
  _ ← require Initiator StageInitial t;
  state ← mix_key shared_secret (mix_ephemeral ephemeral_public t);
  '(state, ciphertext) ← encrypt_and_hash options state;
  Ok (with_stage Message1Complete state, ciphertext).

Definition accept_session_request (ephemeral_public shared_secret ciphertext : bytes) (t : Transcript)
    : result Ntcp2CryptoError (Transcript * bytes) :=
  _ ← require Responder StageInitial t;
  state ← mix_key shared_secret (mix_ephemeral ephemeral_public t);
  '(state, plaintext) ← decrypt_and_hash ciphertext state;
  Ok (with_stage Message1Complete state, plaintext).

Definition session_created (ephemeral_public shared_secret options : bytes) (t : Transcript)
    : result Ntcp2CryptoError (Transcript * bytes) :=
  _ ← require Responder Message1Padded t;
  state ← mix_key shared_secret (mix_ephemeral ephemeral_public t);
  '(state, ciphertext) ← encrypt_and_hash options state;
  Ok (with_stage Message2Complete state, ciphertext).

Definition accept_session_created (ephemeral_public shared_secret ciphertext : bytes) (t : Transcript)
    : result Ntcp2CryptoError (Transcript * bytes) :=
  _ ← require Initiator Message1Padded t;
  state ← mix_key shared_secret (mix_ephemeral ephemeral_public t);
  '(state, plaintext) ← decrypt_and_hash ciphertext state;
  Ok (with_stage Message2Complete state, plaintext).

Definition encrypt_static (static_public shared_secret : bytes) (t : Transcript)
    : result Ntcp2CryptoError (Transcript * bytes) :=
  _ ← require Initiator Message2Padded t;
  '(state, ciphertext) ← encrypt_and_hash static_public t;
  state ← mix_key shared_secret state;
  Ok (with_stage StaticEncrypted state, ciphertext).

(** [try_into] a 32-byte array, then the check of the key. *)
Definition static_from (plaintext : bytes) : result Ntcp2CryptoError bytes :=
  if negb (zlen plaintext =? KEY_LENGTH) then Err InvalidPublicKey else public_key_new plaintext.

Definition decrypt_static_unchecked (ciphertext : bytes) (t : Transcript)
    : result Ntcp2CryptoError (Transcript * bytes) :=
  _ ← require Responder Message2Padded t;
  '(state, plaintext) ← decrypt_and_hash ciphertext t;
  static_public ← static_from plaintext;
  Ok (state, static_public).

Definition decrypt_static (expected_static shared_secret ciphertext : bytes) (t : Transcript)
    : result Ntcp2CryptoError (Transcript * bytes) :=
  '(state, static_public) ← decrypt_static_unchecked ciphertext t;
  if bool_decide (static_public ≠ expected_static) then Err PeerStaticMismatch
  else
  state ← mix_key shared_secret state;
  Ok (with_stage StaticEncrypted state, static_public).

Definition mix_static_secret (shared_secret : bytes) (t : Transcript) : result Ntcp2CryptoError Transcript :=
  _ ← require Responder Message2Padded t;
  state ← mix_key shared_secret t;
  Ok (with_stage StaticEncrypted state).

Definition encrypt_confirmed_payload (payload : bytes) (t : Transcript)
    : result Ntcp2CryptoError (Transcript * bytes) :=
  _ ← require Initiator StaticEncrypted t;
  '(state, ciphertext) ← encrypt_and_hash payload t;
  Ok (with_stage Confirmed state, ciphertext).

Definition decrypt_confirmed_payload (ciphertext : bytes) (t : Transcript)
    : result Ntcp2CryptoError (Transcript * bytes) :=
  _ ← require Responder StaticEncrypted t;
  '(state, plaintext) ← decrypt_and_hash ciphertext t;
  Ok (with_stage Confirmed state, plaintext).

Definition split (t : Transcript) : result Ntcp2CryptoError SplitKeys :=
  if bool_decide (tr_stage t ≠ Confirmed) || bool_decide (tr_cipher t = None) then Err InvalidState
  else
  temp_key ← hmac_sha256 (tr_chaining_key t) [];
  k_ab ← hmac_sha256 temp_key [1];
  k_ba ← hmac_sha256 temp_key (k_ab ++ [2]);
  ask_master ← hmac_sha256 temp_key (ASK_LABEL ++ [1]);
  sip_temp ← hmac_sha256 ask_master (tr_hash t ++ SIPHASH_LABEL);
  sip_master ← hmac_sha256 sip_temp [1];
  sip_temp ← hmac_sha256 sip_master [];
  sip_ab ← hmac_sha256 sip_temp [1];
  sip_ba ← hmac_sha256 sip_temp (sip_ab ++ [2]);
  Ok (match tr_role t with
      | Initiator => mkSplit (cipher_new k_ab) (cipher_new k_ba) (sip_new sip_ab) (sip_new sip_ba)
      | Responder => mkSplit (cipher_new k_ba) (cipher_new k_ab) (sip_new sip_ba) (sip_new sip_ab)
      end).
End primitives.

(** ** Cipher states in step *)
Section laws.
Context `{HL : Ntcp2Laws}.

Lemma hmac_ok key data : ∃ mac, hmac_sha256 key data = Ok mac ∧ zlen mac = HASH_LENGTH.
Proof. destruct (hmac_total key data) as (mac & Hm & Hl). exists mac. unfold hmac_sha256. by rewrite Hm. Qed.

Lemma nonce_next_ok n : 0 ≤ n ≤ MAX_NONCE → nonce_next n = (n + 1, Ok (replicate 4 0 ++ to_le 8 n)).
Proof.
  intros Hn. unfold nonce_next. destruct (n >? MAX_NONCE) eqn:E; breflect; [lia|].
  unfold checked_add. destruct (_ <=? _) eqn:E'; breflect; [done|]. unfold MAX_NONCE in *. lia.
Qed.

(** Two cipher states with the same key and counter: what one seals the other opens,
    and both count on. *)
Lemma seal_open plaintext ad c :
  0 ≤ cs_nonce c ≤ MAX_NONCE → zlen plaintext ≤ MAX_FRAME_PLAINTEXT →
  ∃ ciphertext, let c' := mkCipher (cs_key c) (cs_nonce c + 1) in
    seal plaintext ad c = (c', Ok ciphertext) ∧ open ciphertext ad c = (c', Ok plaintext) ∧
    zlen ciphertext = zlen plaintext + AUTH_TAG_LENGTH.
Proof.
  intros Hn Hp. destruct (aead_correct (cs_key c) (replicate 4 0 ++ to_le 8 (cs_nonce c)) ad plaintext Hp) as (ct & He & Hl & Hd).
  exists ct. pose proof (zlen_nonneg plaintext). unfold seal, open. rewrite nonce_next_ok, He, Hd by done.
  destruct (_ >? MAX_FRAME_PLAINTEXT) eqn:E1; breflect; [lia|].
  assert (MAX_FRAME_LENGTH = MAX_FRAME_PLAINTEXT + AUTH_TAG_LENGTH) by done.
  destruct (_ <? AUTH_TAG_LENGTH) eqn:E2; breflect; [unfold AUTH_TAG_LENGTH in *; lia|].
  destruct (_ >? MAX_FRAME_LENGTH) eqn:E3; breflect; [lia|]. done.
Qed.

(** ** Transcripts in step *)
Definition counter_ok (t : Transcript) : Prop :=
  match tr_cipher t with Some c => 0 ≤ cs_nonce c ≤ 1 | None => True end.

(** The two transcripts differ in the role only. *)
Record in_step (i r : Transcript) : Prop := {
  is_initiator : tr_role i = Initiator;
  is_responder : tr_role r = Responder;
  is_hash : tr_hash r = tr_hash i;
  is_chain : tr_chaining_key r = tr_chaining_key i;
  is_cipher : tr_cipher r = tr_cipher i;
  is_stage : tr_stage r = tr_stage i;
}.

Lemma in_step_new rs : in_step (transcript_new Initiator rs) (transcript_new Responder rs).
Proof. done. Qed.

Lemma in_step_hash i r h : in_step i r → in_step (with_hash h i) (with_hash h r).
Proof. by intros []. Qed.
Lemma in_step_cipher i r c : in_step i r → in_step (with_cipher c i) (with_cipher c r).
Proof. by intros []. Qed.
Lemma in_step_stage i r s : in_step i r → in_step (with_stage s i) (with_stage s r).
Proof. by intros []. Qed.
Lemma in_step_mix_hash i r bs : in_step i r → in_step (mix_hash bs i) (mix_hash bs r).
Proof. intros Hs. unfold mix_hash. rewrite (is_hash _ _ Hs). by apply in_step_hash. Qed.

Lemma mix_padding_step i r pad s :
  in_step i r → zlen pad ≤ 880 →
  tr_stage i = Message1Complete ∧ s = Message1Padded ∨ tr_stage i = Message2Complete ∧ s = Message2Padded →
  ∃ i' r', mix_padding pad i = Ok i' ∧ mix_padding pad r = Ok r' ∧ in_step i' r' ∧ tr_stage i' = s ∧
    tr_cipher i' = tr_cipher i.
Proof.
  intros Hs Hp Hst. unfold mix_padding. rewrite (is_stage _ _ Hs).
  change (Z.max MAX_SESSION_REQUEST_PADDING MAX_SESSION_CREATED_PADDING) with 880.
  destruct (_ >? 880) eqn:E; breflect; [lia|].
  destruct Hst as [[-> ->]|[-> ->]]; (eexists _, _; split_and!; [done..| |done|by destruct (_ =? 0)]);
    apply in_step_stage; destruct (_ =? 0); auto using in_step_mix_hash.
Qed.

Lemma mix_key_step i r secret :
  in_step i r →
  ∃ i' r' key, mix_key secret i = Ok i' ∧ mix_key secret r = Ok r' ∧ in_step i' r' ∧
    tr_stage i' = tr_stage i ∧ tr_cipher i' = Some (cipher_new key).
Proof.
  intros [Hi Hr Hh Hc Hci Hst]. unfold mix_key. rewrite Hc.
  destruct (hmac_ok (tr_chaining_key i) secret) as (tk & -> & _). cbn [mbind result_bind].
  destruct (hmac_ok tk [1]) as (nc & -> & _). cbn [mbind result_bind].
  destruct (hmac_ok tk (nc ++ [2])) as (ck & -> & _). cbn [mbind result_bind]. by eexists _, _, ck.
Qed.

(** One side encrypts, the other decrypts: the initiator to the responder and
    the other way around. *)
Lemma encrypt_step i r plaintext c :
  in_step i r → tr_cipher i = Some c → 0 ≤ cs_nonce c ≤ 1 → zlen plaintext ≤ MAX_FRAME_PLAINTEXT →
  ∃ i' r' ct, in_step i' r' ∧ tr_stage i' = tr_stage i ∧ tr_cipher i' = Some (mkCipher (cs_key c) (cs_nonce c + 1)) ∧
    encrypt_and_hash plaintext i = Ok (i', ct) ∧ decrypt_and_hash ct r = Ok (r', plaintext) ∧
    encrypt_and_hash plaintext r = Ok (r', ct) ∧ decrypt_and_hash ct i = Ok (i', plaintext).
Proof.
  intros Hs Hc Hn Hp. pose proof Hs as [_ _ Hh _ Hci _]. unfold encrypt_and_hash, decrypt_and_hash. rewrite Hci, Hc, Hh.
  cbn [ok_or mbind result_bind].
  destruct (seal_open plaintext (tr_hash i) c) as (ct & Hse & Hop & _); [unfold MAX_NONCE, u64_max; lia|done|].
  set (c' := mkCipher _ _) in *. set (h := sha256_concat (tr_hash i) ct).
  exists (with_hash h (with_cipher c' i)), (with_hash h (with_cipher c' r)), ct. rewrite Hse, Hop.
  split; [by apply in_step_hash, in_step_cipher|done].
Qed.

Lemma require_ok role stage t : tr_role t = role → tr_stage t = stage → require role stage t = Ok ().
Proof. intros. unfold require. by rewrite !bool_decide_false by naive_solver. Qed.

(** A message from the initiator: both mix the ephemeral key and the secret, then
    one encrypts and the other decrypts. *)
Lemma key_and_encrypt i r eph secret plaintext :
  in_step i r → zlen plaintext ≤ MAX_FRAME_PLAINTEXT →
  ∃ im rm i' r' ct key, mix_key secret (mix_ephemeral eph i) = Ok im ∧ mix_key secret (mix_ephemeral eph r) = Ok rm ∧
    in_step i' r' ∧ tr_stage i' = tr_stage i ∧ tr_cipher i' = Some (mkCipher key 1) ∧
    encrypt_and_hash plaintext im = Ok (i', ct) ∧ decrypt_and_hash ct rm = Ok (r', plaintext) ∧
    encrypt_and_hash plaintext rm = Ok (r', ct) ∧ decrypt_and_hash ct im = Ok (i', plaintext).
Proof.
  intros Hs Hp. destruct (mix_key_step (mix_ephemeral eph i) (mix_ephemeral eph r) secret) as (im & rm & key & Hi & Hr & Hs' & Hst & Hc);
    [by apply in_step_mix_hash|].
  destruct (encrypt_step im rm plaintext _ Hs' Hc) as (i' & r' & ct & Hs2 & Hst2 & Hc2 & Hrest); [cbn; lia|done|].
  exists im, rm, i', r', ct, key. split_and!; try done; try apply Hrest. rewrite Hst2, Hst. done.
Qed.

(** ** Splitting *)
Definition crossed (a b : SplitKeys) : Prop :=
  split_transmit b = split_receive a ∧ split_receive b = split_transmit a ∧
  split_transmit_lengths b = split_receive_lengths a ∧ split_receive_lengths b = split_transmit_lengths a.
Definition fresh_keys (k : SplitKeys) : Prop := cs_nonce (split_transmit k) = 0 ∧ cs_nonce (split_receive k) = 0.

Lemma split_step i r :
  in_step i r → tr_stage i = Confirmed → is_Some (tr_cipher i) →
  ∃ ki kr, split i = Ok ki ∧ split r = Ok kr ∧ crossed ki kr ∧ fresh_keys ki.
Proof.
  intros [Hi Hr Hh Hc Hci Hst] Hcf Hsome. unfold split. rewrite Hst, Hci, Hc, Hh, Hi, Hr, Hcf.
  rewrite bool_decide_false by naive_solver. rewrite bool_decide_false by (intros E; rewrite E in Hsome; by destruct Hsome).
  cbn [orb]. repeat match goal with
    | |- context [hmac_sha256 ?k ?d] =>
        let m := fresh "m" in let E := fresh "E" in destruct (hmac_ok k d) as (m & E & _); rewrite E; cbn [mbind result_bind]
    end.
  eexists _, _. split_and!; done.
Qed.
End laws.

(** ** An exchange over an honest network

    The calls of the two sides in the order of the messages.  The three shared
    secrets are what the key agreement gives both sides. *)
Record Exchange := mkExchange {
  ex_initiator : SplitKeys;
  ex_responder : SplitKeys;
  ex_options1 : bytes;
  ex_options2 : bytes;
  ex_static : bytes;
  ex_payload : bytes;
}.

Section exchange.
Context `{Ntcp2Primitives}.

(** The responder reads the static key before it can check it against the RouterInfo. *)
Definition receive_static (secret ciphertext : bytes) (t : Transcript) : result Ntcp2CryptoError (Transcript * bytes) :=
  '(state, static_public) ← decrypt_static_unchecked ciphertext t;
  state ← mix_static_secret secret state;
  Ok (state, static_public).

Definition exchange (responder_static eph_i eph_r es ee se options1 pad1 options2 pad2 static_i payload : bytes)
    : result Ntcp2CryptoError Exchange :=
  let i := transcript_new Initiator responder_static in
  let r := transcript_new Responder responder_static in
  '(i, message1) ← session_request eph_i es options1 i;
  i ← mix_padding pad1 i;
  '(r, seen1) ← accept_session_request eph_i es message1 r;
  r ← mix_padding pad1 r;
  '(r, message2) ← session_created eph_r ee options2 r;
  r ← mix_padding pad2 r;
  '(i, seen2) ← accept_session_created eph_r ee message2 i;
  i ← mix_padding pad2 i;
  '(i, part1) ← encrypt_static static_i se i;
  '(r, seen_static) ← receive_static se part1 r;
  '(i, part2) ← encrypt_confirmed_payload payload i;
  '(r, seen_payload) ← decrypt_confirmed_payload part2 r;
  ki ← split i;
  kr ← split r;
  Ok (mkExchange ki kr seen1 seen2 seen_static seen_payload).
End exchange.

Section agreement.
Context `{HL : Ntcp2Laws}.

Lemma message1_step i r eph secret options :
  in_step i r → tr_stage i = StageInitial → zlen options ≤ MAX_FRAME_PLAINTEXT →
  ∃ i' r' ct key, session_request eph secret options i = Ok (i', ct) ∧
    accept_session_request eph secret ct r = Ok (r', options) ∧
    in_step i' r' ∧ tr_stage i' = Message1Complete ∧ tr_cipher i' = Some (mkCipher key 1).
Proof.
  intros Hs Hst Ho. pose proof (is_stage _ _ Hs) as Hst'. rewrite Hst in Hst'.
  destruct (key_and_encrypt i r eph secret options Hs Ho) as (im & rm & i' & r' & ct & key & Hi & Hr & Hs' & _ & Hc & He & Hd & _).
  exists (with_stage Message1Complete i'), (with_stage Message1Complete r'), ct, key.
  unfold session_request, accept_session_request. rewrite !require_ok by (done || apply Hs).
  cbn [mbind result_bind]. rewrite Hi, Hr. cbn [mbind result_bind]. rewrite He, Hd. by split_and!; [..|apply in_step_stage| |].
Qed.

Lemma message2_step i r eph secret options :
  in_step i r → tr_stage i = Message1Padded → zlen options ≤ MAX_FRAME_PLAINTEXT →
  ∃ i' r' ct key, session_created eph secret options r = Ok (r', ct) ∧
    accept_session_created eph secret ct i = Ok (i', options) ∧
    in_step i' r' ∧ tr_stage i' = Message2Complete ∧ tr_cipher i' = Some (mkCipher key 1).
Proof.
  intros Hs Hst Ho. pose proof (is_stage _ _ Hs) as Hst'. rewrite Hst in Hst'.
  destruct (key_and_encrypt i r eph secret options Hs Ho) as (im & rm & i' & r' & ct & key & Hi & Hr & Hs' & _ & Hc & _ & _ & He & Hd).
  exists (with_stage Message2Complete i'), (with_stage Message2Complete r'), ct, key.
  unfold session_created, accept_session_created. rewrite !require_ok by (done || apply Hs).
  cbn [mbind result_bind]. rewrite Hi, Hr. cbn [mbind result_bind]. rewrite He, Hd. by split_and!; [..|apply in_step_stage| |].
Qed.

Lemma static_step i r static secret key :
  in_step i r → tr_stage i = Message2Padded → tr_cipher i = Some (mkCipher key 1) →
  zlen static = KEY_LENGTH → public_key_new static = Ok static →
  ∃ i' r' ct key', encrypt_static static secret i = Ok (i', ct) ∧ receive_static secret ct r = Ok (r', static) ∧
    in_step i' r' ∧ tr_stage i' = StaticEncrypted ∧ tr_cipher i' = Some (cipher_new key').
Proof.
  intros Hs Hst Hc Hl Hk. pose proof (is_stage _ _ Hs) as Hst'. rewrite Hst in Hst'.
  destruct (encrypt_step i r static _ Hs Hc) as (im & rm & ct & Hs1 & Hst1 & _ & He & Hd & _); [cbn; lia|rewrite Hl; by vm_compute|].
  destruct (mix_key_step im rm secret Hs1) as (i' & r' & key' & Hi & Hr & Hs2 & _ & Hc').
  exists (with_stage StaticEncrypted i'), (with_stage StaticEncrypted r'), ct, key'.
  unfold encrypt_static, receive_static, decrypt_static_unchecked, mix_static_secret.
  rewrite (require_ok Initiator), (require_ok Responder Message2Padded r) by (done || apply Hs).
  cbn [mbind result_bind]. rewrite He, Hd. cbn [mbind result_bind]. unfold static_from. rewrite Hl, Hk. cbn [Z.eqb negb].
  replace (KEY_LENGTH =? KEY_LENGTH) with true by done. cbn [negb mbind result_bind].
  rewrite require_ok; [|by apply (is_responder _ _ Hs1)|by rewrite (is_stage _ _ Hs1), Hst1].
  cbn [mbind result_bind]. rewrite Hi, Hr. cbn [mbind result_bind]. by split_and!; [..|apply in_step_stage| |].
Qed.

Lemma confirmed_step i r payload key :
  in_step i r → tr_stage i = StaticEncrypted → tr_cipher i = Some (cipher_new key) → zlen payload ≤ MAX_FRAME_PLAINTEXT →
  ∃ i' r' ct, encrypt_confirmed_payload payload i = Ok (i', ct) ∧ decrypt_confirmed_payload ct r = Ok (r', payload) ∧
    in_step i' r' ∧ tr_stage i' = Confirmed ∧ is_Some (tr_cipher i').
Proof.
  intros Hs Hst Hc Hp. pose proof (is_stage _ _ Hs) as Hst'. rewrite Hst in Hst'.
  destruct (encrypt_step i r payload _ Hs Hc) as (i' & r' & ct & Hs1 & Hst1 & Hc' & He & Hd & _); [cbn; lia|done|].
  exists (with_stage Confirmed i'), (with_stage Confirmed r'), ct.
  unfold encrypt_confirmed_payload, decrypt_confirmed_payload. rewrite !require_ok by (done || apply Hs).
  cbn [mbind result_bind]. rewrite He, Hd. split_and!; [done..|by apply in_step_stage|done|]. cbn. rewrite Hc'. by eexists.
Qed.
End agreement.

Lemma exchange_crossed (P : Ntcp2Primitives)
    responder_static eph_i eph_r es ee se options1 pad1 options2 pad2 static_i payload
    (HL : Ntcp2Laws P) (Ho1 : zlen options1 ≤ MAX_FRAME_PLAINTEXT) (Ho2 : zlen options2 ≤ MAX_FRAME_PLAINTEXT)
    (Hp1 : zlen pad1 ≤ 880) (Hp2 : zlen pad2 ≤ 880)
    (Hst : zlen static_i = KEY_LENGTH) (Hkey : public_key_new static_i = Ok static_i)
    (Hpl : zlen payload ≤ MAX_FRAME_PLAINTEXT) :
  ∃ ki kr, exchange responder_static eph_i eph_r es ee se options1 pad1 options2 pad2 static_i payload =
      Ok (mkExchange ki kr options1 options2 static_i payload) ∧ crossed ki kr ∧ fresh_keys ki.
Proof.
  destruct (message1_step _ _ eph_i es options1 (in_step_new responder_static) eq_refl Ho1)
    as (i1 & r1 & m1 & k1 & E1 & E2 & S1 & T1 & C1).
  destruct (mix_padding_step i1 r1 pad1 Message1Padded S1 Hp1 ltac:(auto)) as (i2 & r2 & E3 & E4 & S2 & T2 & C2).
  destruct (message2_step i2 r2 eph_r ee options2 S2 T2 Ho2) as (i3 & r3 & m2 & k2 & E5 & E6 & S3 & T3 & C3).
  destruct (mix_padding_step i3 r3 pad2 Message2Padded S3 Hp2 ltac:(auto)) as (i4 & r4 & E7 & E8 & S4 & T4 & C4).
  rewrite C3 in C4. destruct (static_step i4 r4 static_i se k2 S4 T4 C4 Hst Hkey) as (i5 & r5 & m3 & k3 & E9 & E10 & S5 & T5 & C5).
  destruct (confirmed_step i5 r5 payload k3 S5 T5 C5 Hpl) as (i6 & r6 & m4 & E11 & E12 & S6 & T6 & C6).
  destruct (split_step i6 r6 S6 T6 C6) as (ki & kr & E13 & E14 & Hx & Hf). exists ki, kr. split; [|done].
  unfold exchange.
  rewrite E1; cbn [mbind result_bind]; rewrite E3; cbn [mbind result_bind]; rewrite E2; cbn [mbind result_bind];
  rewrite E4; cbn [mbind result_bind]; rewrite E5; cbn [mbind result_bind]; rewrite E8; cbn [mbind result_bind];
  rewrite E6; cbn [mbind result_bind]; rewrite E7; cbn [mbind result_bind]; rewrite E9; cbn [mbind result_bind];
  rewrite E10; cbn [mbind result_bind]; rewrite E11; cbn [mbind result_bind]; rewrite E12; cbn [mbind result_bind];
  rewrite E13; cbn [mbind result_bind]; rewrite E14. done.
Qed.

(** ** Properties *)

(** The two sides of an NTCP2 handshake agree.  When the messages arrive as
    they were sent and the key agreement gives both sides the same three
    secrets, no step fails: the responder reads the initiator's options,
    static key and payload, the initiator the responder's options, and both
    derive the same four data-phase states with transmit and receive
    exchanged, counters at zero. *)
Theorem exchange_agrees (P : Ntcp2Primitives)
    responder_static eph_i eph_r es ee se options1 pad1 options2 pad2 static_i payload
    (HL : Ntcp2Laws P) (Ho1 : zlen options1 ≤ MAX_FRAME_PLAINTEXT) (Ho2 : zlen options2 ≤ MAX_FRAME_PLAINTEXT)
    (Hp1 : zlen pad1 ≤ 880) (Hp2 : zlen pad2 ≤ 880)
    (Hst : zlen static_i = KEY_LENGTH) (Hkey : public_key_new static_i = Ok static_i)
    (Hpl : zlen payload ≤ MAX_FRAME_PLAINTEXT) :
  ∃ ki kr, exchange responder_static eph_i eph_r es ee se options1 pad1 options2 pad2 static_i payload =
      Ok (mkExchange ki kr options1 options2 static_i payload) ∧ crossed ki kr ∧ fresh_keys ki.
Proof. by apply exchange_crossed. Qed.

(** ** The order of the calls *)
Inductive transcript_op :=
  | TMixHash (bs : bytes)
  | TMixPadding (padding : bytes)
  | TSessionRequest (eph secret options : bytes)
  | TAcceptRequest (eph secret ciphertext : bytes)
  | TSessionCreated (eph secret options : bytes)
  | TAcceptCreated (eph secret ciphertext : bytes)
  | TEncryptStatic (static secret : bytes)
  | TDecryptStatic (expected secret ciphertext : bytes)
  | TDecryptUnchecked (ciphertext : bytes)
  | TMixStatic (secret : bytes)
  | TEncryptConfirmed (payload : bytes)
  | TDecryptConfirmed (ciphertext : bytes).

(** What a call contributes to the order; [mix_hash] is allowed everywhere. *)
Inductive call_kind :=
  | CPadding | CRequest | CAcceptRequest | CCreated | CAcceptCreated | CEncryptStatic | CDecryptStatic
  | CReadStatic | CMixStatic | CEncryptConfirmed | CDecryptConfirmed.
Definition op_kind (op : transcript_op) : list call_kind :=
  match op with
  | TMixHash _ => []
  | TMixPadding _ => [CPadding]
  | TSessionRequest _ _ _ => [CRequest]
  | TAcceptRequest _ _ _ => [CAcceptRequest]
  | TSessionCreated _ _ _ => [CCreated]
  | TAcceptCreated _ _ _ => [CAcceptCreated]
  | TEncryptStatic _ _ => [CEncryptStatic]
  | TDecryptStatic _ _ _ => [CDecryptStatic]
  | TDecryptUnchecked _ => [CReadStatic]
  | TMixStatic _ => [CMixStatic]
  | TEncryptConfirmed _ => [CEncryptConfirmed]
  | TDecryptConfirmed _ => [CDecryptConfirmed]
  end.

(** The calls that lead from a stage to the end. *)
Definition responder_end (ks : list call_kind) : Prop :=
  ∃ n x, ks = replicate n CReadStatic ++ [x; CDecryptConfirmed] ∧ (x = CDecryptStatic ∨ x = CMixStatic).
Definition remaining (role : Role) (stage : TranscriptStage) (ks : list call_kind) : Prop :=
  match role, stage with
  | _, Confirmed => ks = []
  | Initiator, StaticEncrypted => ks = [CEncryptConfirmed]
  | Initiator, Message2Padded => ks = [CEncryptStatic; CEncryptConfirmed]
  | Initiator, Message2Complete => ks = [CPadding; CEncryptStatic; CEncryptConfirmed]
  | Initiator, Message1Padded => ks = [CAcceptCreated; CPadding; CEncryptStatic; CEncryptConfirmed]
  | Initiator, Message1Complete => ks = [CPadding; CAcceptCreated; CPadding; CEncryptStatic; CEncryptConfirmed]
  | Initiator, StageInitial => ks = [CRequest; CPadding; CAcceptCreated; CPadding; CEncryptStatic; CEncryptConfirmed]
  | Responder, StaticEncrypted => ks = [CDecryptConfirmed]
  | Responder, Message2Padded => responder_end ks
  | Responder, Message2Complete => ∃ l, ks = CPadding :: l ∧ responder_end l
  | Responder, Message1Padded => ∃ l, ks = [CCreated; CPadding] ++ l ∧ responder_end l
  | Responder, Message1Complete => ∃ l, ks = [CPadding; CCreated; CPadding] ++ l ∧ responder_end l
  | Responder, StageInitial => ∃ l, ks = [CAcceptRequest; CPadding; CCreated; CPadding] ++ l ∧ responder_end l
  end.

Section order.
Context `{Ntcp2Primitives}.

Definition run_op (op : transcript_op) (t : Transcript) : result Ntcp2CryptoError Transcript :=
  match op with
  | TMixHash bs => Ok (mix_hash bs t)
  | TMixPadding p => mix_padding p t
  | TSessionRequest e s o => fst <$> session_request e s o t
  | TAcceptRequest e s c => fst <$> accept_session_request e s c t
  | TSessionCreated e s o => fst <$> session_created e s o t
  | TAcceptCreated e s c => fst <$> accept_session_created e s c t
  | TEncryptStatic p s => fst <$> encrypt_static p s t
  | TDecryptStatic p s c => fst <$> decrypt_static p s c t
  | TDecryptUnchecked c => fst <$> decrypt_static_unchecked c t
  | TMixStatic s => mix_static_secret s t
  | TEncryptConfirmed p => fst <$> encrypt_confirmed_payload p t
  | TDecryptConfirmed c => fst <$> decrypt_confirmed_payload c t
  end.
Fixpoint run_ops (ops : list transcript_op) (t : Transcript) : result Ntcp2CryptoError Transcript :=
  match ops with [] => Ok t | op :: ops' => t' ← run_op op t; run_ops ops' t' end.

Lemma bind_Ok {E A B} (r : result E A) (f : A → result E B) b : r ≫= f = Ok b → ∃ a, r = Ok a ∧ f a = Ok b.
Proof. destruct r as [a|e]; [by exists a|done]. Qed.
Lemma fmap_Ok {E A B} (r : result E A) (f : A → B) b : f <$> r = Ok b → ∃ a, r = Ok a ∧ f a = b.
Proof. destruct r as [a|e]; [|done]. intros Hb%Ok_inj. by exists a. Qed.

Lemma require_inv role stage t x : require role stage t = Ok x → tr_role t = role ∧ tr_stage t = stage.
Proof.
  unfold require. case_bool_decide as E1; [done|]. case_bool_decide as E2; [done|]. intros _.
  done.
Qed.

Definition same_place (t t' : Transcript) : Prop := tr_role t' = tr_role t ∧ tr_stage t' = tr_stage t.
Lemma mix_key_place s t t' : mix_key s t = Ok t' → same_place t t'.
Proof.
  intros (? & _ & H1)%bind_Ok. apply bind_Ok in H1 as (? & _ & H2). apply bind_Ok in H2 as (? & _ & H3).
  by apply Ok_inj in H3 as <-.
Qed.
Lemma encrypt_place p t t' c : encrypt_and_hash p t = Ok (t', c) → same_place t t'.
Proof.
  intros (ci & _ & H1)%bind_Ok. destruct (seal _ _ ci). by apply bind_Ok in H1 as (? & _ & [= <- _]%Ok_inj).
Qed.
Lemma decrypt_place p t t' c : decrypt_and_hash p t = Ok (t', c) → same_place t t'.
Proof.
  intros (ci & _ & H1)%bind_Ok. destruct (open _ _ ci). by apply bind_Ok in H1 as (? & _ & [= <- _]%Ok_inj).
Qed.
End order.

(** Takes apart a successful call. *)
Ltac invert_call :=
  repeat match goal with
  | H : _ <$> _ = Ok _ |- _ => apply fmap_Ok in H as (? & ? & <-)
  | H : Ok _ = Ok _ |- _ => apply Ok_inj in H
  | H : (_, _) = (_, _) |- _ => injection H as <- <-
  | H : require _ _ _ = Ok _ |- _ => apply require_inv in H as [? ?]
  | H : mix_key _ _ = Ok _ |- _ => apply mix_key_place in H as [? ?]
  | H : encrypt_and_hash _ _ = Ok (_, _) |- _ => apply encrypt_place in H as [? ?]
  | H : decrypt_and_hash _ _ = Ok (_, _) |- _ => apply decrypt_place in H as [? ?]
  | x : (_ * _)%type |- _ => destruct x
  | H : _ ≫= _ = Ok _ |- _ => apply bind_Ok in H as (? & ? & ?)
  end.

Section order_proofs.
Context `{Ntcp2Primitives}.

Lemma op_remaining op t t' ks :
  run_op op t = Ok t' → remaining (tr_role t') (tr_stage t') ks →
  tr_role t' = tr_role t ∧ remaining (tr_role t) (tr_stage t) (op_kind op ++ ks).
Proof.
  destruct op; cbn [run_op op_kind]; unfold session_request, accept_session_request, session_created, accept_session_created,
    encrypt_static, decrypt_static_unchecked, mix_static_secret, encrypt_confirmed_payload, decrypt_confirmed_payload; intros Hop.
  { by apply Ok_inj in Hop as <-. }
  { unfold mix_padding in Hop. destruct (_ >? _); [done|].
    destruct (tr_stage t) eqn:Est; try done; apply Ok_inj in Hop as <-; cbn [with_stage tr_role tr_stage];
      destruct (_ =? 0); cbn; destruct (tr_role t); cbn; intros Hk; (split; [done|]); subst; naive_solver. }
  all: try (unfold decrypt_static, decrypt_static_unchecked in Hop); invert_call; try (case_bool_decide; [done|]); invert_call;
    subst; cbn [with_stage with_hash mix_hash mix_ephemeral tr_role tr_stage fst app] in *; intros Hk.
  all: match goal with |- tr_role ?t1 = tr_role ?t ∧ _ =>
      let Hr := fresh "Hr" in assert (Hr : tr_role t1 = tr_role t) by congruence; rewrite Hr in Hk; split; [done|];
      try (let Hs := fresh "Hs" in assert (Hs : tr_stage t1 = tr_stage t) by congruence; rewrite Hs in Hk);
      repeat match goal with
      | H : tr_role t = _ |- _ => rewrite H in *; clear H
      | H : tr_stage t = _ |- _ => rewrite H in *; clear H
      end
    end; cbn [remaining] in *; subst; try done.
  all: try (destruct Hk as (l & -> & Hl); by exists l).
  - exists 0%nat, CDecryptStatic. auto.
  - destruct Hk as (n & y & -> & Hy). by exists (S n), y.
  - exists 0%nat, CMixStatic. auto.
Qed.

Lemma ops_remaining ops t t' :
  run_ops ops t = Ok t' → tr_stage t' = Confirmed →
  tr_role t' = tr_role t ∧ remaining (tr_role t) (tr_stage t) (ops ≫= op_kind).
Proof.
  revert t. induction ops as [|op ops IH]; intros t; cbn [run_ops].
  { intros <-%Ok_inj ->. split; [done|]. cbn. by destruct (tr_role t). }
  intros (t1 & Ho & Hr)%bind_Ok Hc. destruct (IH t1 Hr Hc) as [E1 E2].
  destruct (op_remaining op t t1 _ Ho E2) as [E3 E4]. split; [congruence|done].
Qed.
End order_proofs.

(** A transcript yields keys only at the end of the handshake.  Whatever calls
    are made on it, if they all succeed and the data-phase keys come out, then,
    apart from hashing public bytes, they were exactly the calls of the
    protocol in its order: for the initiator request, padding, reply,
    padding, static key, confirmation; for the responder the mirror image, with
    the static key checked at once or read first and bound by its secret
    before the confirmation. *)
Theorem split_only_at_end (P : Ntcp2Primitives) role rs ops t keys
    (Hops : run_ops ops (transcript_new role rs) = Ok t) (Hkeys : split t = Ok keys) :
  remaining role StageInitial (ops ≫= op_kind).
Proof.
  assert (Hc : tr_stage t = Confirmed).
  { unfold split in Hkeys. by case_bool_decide. }
  by destruct (ops_remaining ops _ t Hops Hc) as [_ Hr].
Qed.

(** ** Obfuscation in step *)
Lemma lxor_fits n a b : 0 ≤ n → fits n a → fits n b → fits n (Z.lxor a b).
Proof.
  intros Hn [Ha Ha'] [Hb Hb']. split; [by apply Z.lxor_nonneg|].
  destruct (Z.eq_dec (Z.lxor a b) 0) as [->|E]; [lia|]. apply Z.log2_lt_pow2; [pose proof (proj2 (Z.lxor_nonneg a b)); lia|].
  pose proof (Z.log2_lxor a b Ha Hb). assert (Z.max (Z.log2 a) (Z.log2 b) < n); [|lia].
  destruct (Z.eq_dec n 0) as [->|]; [assert (a = 0) by lia; assert (b = 0) by lia; subst; done|].
  apply Z.max_lub_lt; [destruct (Z.eq_dec a 0) as [->|]; [cbn; lia|apply Z.log2_lt_pow2; lia]|
    destruct (Z.eq_dec b 0) as [->|]; [cbn; lia|apply Z.log2_lt_pow2; lia]].
Qed.

Lemma xor_bytes_cancel (a b : bytes) : length a = length b → xor_bytes (xor_bytes a b) b = a.
Proof.
  revert b. induction a as [|x a IH]; intros [|y b] Hl; try done. cbn. f_equal.
  - by rewrite Z.lxor_assoc, Z.lxor_nilpotent, Z.lxor_0_r.
  - apply IH. cbn in Hl. lia.
Qed.

Section obfuscation.
Context `{HL : Ntcp2Laws}.

Lemma mask_fits s : fits 16 (next_mask s).2.
Proof.
  unfold next_mask. cbn [snd]. set (iv := to_le 8 _). assert (Hl : zlen iv = 8).
  { unfold iv, to_le, zlen. rewrite length_reverse, length_to_be. lia. }
  assert (Hok : bytes_ok iv) by (apply Forall_reverse, to_be_ok).
  unfold from_le. pose proof (from_be_bound (reverse (slice 0 2 iv))) as Hb.
  assert (Hs : zlen (reverse (slice 0 2 iv)) = 2).
  { unfold zlen. rewrite length_reverse. fold (zlen (slice 0 2 iv)). rewrite slice_length; lia. }
  rewrite Hs in Hb. apply Hb, Forall_reverse, Forall_slice, Hok.
Qed.

(** Two length states in step: what one masks the other unmasks. *)
Lemma length_roundtrip len s :
  16 ≤ len ≤ u16_max →
  ∃ s' wire, obfuscate_length len s = (s', Ok wire) ∧ deobfuscate_length wire s = (s', Ok len) ∧ fits 16 wire.
Proof.
  intros Hlen. unfold obfuscate_length, deobfuscate_length. pose proof (mask_fits s) as Hm.
  destruct (next_mask s) as [s' mask]. cbn [snd] in Hm. exists s', (Z.lxor len mask).
  assert (Hr : Z.lxor (Z.lxor len mask) mask = len) by (by rewrite Z.lxor_assoc, Z.lxor_nilpotent, Z.lxor_0_r).
  rewrite Hr. rewrite (proj2 (Z.leb_le 16 len)), (proj2 (Z.leb_le len u16_max)) by lia. cbn [andb negb]. split_and!; [done..|].
  apply lxor_fits; [lia| |done]. unfold fits, u16_max in *. lia.
Qed.

Lemma cbc_roundtrip key chain blocks :
  zlen chain = AES_BLOCK_LENGTH → Forall (λ b, zlen b = AES_BLOCK_LENGTH) blocks →
  let '(chain', out) := cbc_encrypt key chain blocks in
  cbc_decrypt key chain out = (chain', blocks) ∧ zlen chain' = AES_BLOCK_LENGTH ∧
  Forall (λ b, zlen b = AES_BLOCK_LENGTH) out ∧ length out = length blocks.
Proof.
  intros Hc Hb. revert chain Hc. induction Hb as [|b blocks Hl _ IH]; intros chain Hc; [done|]. cbn [cbc_encrypt].
  assert (Hx : zlen (xor_bytes b chain) = AES_BLOCK_LENGTH).
  { unfold xor_bytes, zlen in *. rewrite length_zip_with. lia. }
  destruct (aes_correct key (xor_bytes b chain) Hx) as [He Hd]. specialize (IH _ He).
  destruct (cbc_encrypt key _ blocks) as [chain' out]. destruct IH as (Hdec & Hlen & Hall & Hn). cbn [cbc_decrypt].
  rewrite Hdec, Hd, xor_bytes_cancel by (unfold zlen in *; lia). split_and!; [done..|by constructor|cbn; lia].
Qed.

Lemma key_blocks_spec key :
  zlen key = KEY_LENGTH → Forall (λ b, zlen b = AES_BLOCK_LENGTH) (key_blocks key) ∧ concat (key_blocks key) = key.
Proof.
  unfold KEY_LENGTH, key_blocks, AES_BLOCK_LENGTH. intros Hl. split.
  - repeat constructor; rewrite slice_length; lia.
  - cbn [concat]. rewrite app_nil_r, slice_slice by lia. rewrite <- Hl. apply slice_full.
Qed.
Lemma key_blocks_concat b1 b2 :
  zlen b1 = AES_BLOCK_LENGTH → zlen b2 = AES_BLOCK_LENGTH → key_blocks (concat [b1; b2]) = [b1; b2].
Proof.
  unfold AES_BLOCK_LENGTH, key_blocks. intros H1 H2. cbn [concat]. rewrite app_nil_r. f_equal; [by apply slice_app_start|].
  f_equal. apply slice_app_end; lia.
Qed.

(** The obfuscation of an ephemeral key is undone by a state in step with it. *)
Lemma key_roundtrip key s :
  zlen (ob_chain s) = AES_BLOCK_LENGTH → zlen key = KEY_LENGTH → public_key_new key = Ok key →
  let '(s', wire) := obfuscate_key key s in
  deobfuscate_key wire s = (s', Ok key) ∧ zlen (ob_chain s') = AES_BLOCK_LENGTH ∧ zlen wire = KEY_LENGTH.
Proof.
  intros Hc Hk Hn. destruct (key_blocks_spec key Hk) as [Hb Hcat]. unfold obfuscate_key, deobfuscate_key.
  pose proof (cbc_roundtrip (ob_key s) (ob_chain s) (key_blocks key) Hc Hb) as Hr.
  destruct (cbc_encrypt _ _ _) as [chain out]. destruct Hr as (Hdec & Hl & Hall & Hlen).
  destruct out as [|b1 [|b2 [|? ?]]]; try done. apply Forall_cons in Hall as [H1 Hall]. apply Forall_cons in Hall as [H2 _].
  rewrite key_blocks_concat by done. rewrite Hdec, Hcat, Hn. split_and!; [done..|].
  cbn [concat]. rewrite app_nil_r, zlen_app, H1, H2. done.
Qed.
End obfuscation.

(** ** Witnesses *)
Definition toy_primitives : Ntcp2Primitives := Build_Ntcp2Primitives
  (λ m, to_be 32 (fold_left Z.add m 1)) (λ k d, Some (to_be 32 (fold_left Z.add (k ++ d) 2)))
  (λ _ _ _ p, Some (p ++ repeat 7 16)) (λ _ _ _ c, Some (take (length c - 16) c))
  (λ _ _ _, 77) (λ _ b, reverse b) (λ _ b, reverse b).

Lemma toy_laws : Ntcp2Laws toy_primitives.
Proof.
  constructor; cbn [hmac aead_encrypt aead_decrypt siphash24 aes_encrypt_block aes_decrypt_block toy_primitives].
  - intros. eexists. split; [done|]. apply zlen_to_be.
  - intros key nonce ad p _. exists (p ++ repeat 7 16). split_and!; [done|by rewrite zlen_app|].
    rewrite length_app, Nat.add_sub. by rewrite take_app_length.
  - by vm_compute.
  - intros key b Hb. rewrite reverse_involutive. split; [|done]. unfold zlen in *. by rewrite length_reverse.
Qed.

Lemma exchange_agrees_witness :
  ∃ ki kr, exchange (H := toy_primitives) (repeat 1 32) (repeat 2 32) (repeat 3 32) [4] [5] [6] [7; 8] [9] [10] [] (repeat 11 32) [12; 13] =
      Ok (mkExchange ki kr [7; 8] [10] (repeat 11 32) [12; 13]) ∧ crossed ki kr ∧ fresh_keys ki.
Proof. by apply (exchange_agrees toy_primitives _ _ _ _ _ _ _ _ _ _ _ _ toy_laws). Defined.

Definition toy_ops : list transcript_op :=
  [TSessionRequest (repeat 2 32) [4] [7]; TMixPadding []; TMixHash [1]; TAcceptCreated (repeat 3 32) [5] (repeat 1 20);
   TMixPadding [9]; TEncryptStatic (repeat 11 32) [6]; TEncryptConfirmed [12]].
Lemma split_only_at_end_witness :
  remaining Initiator StageInitial (toy_ops ≫= op_kind).
Proof.
  destruct (run_ops (H := toy_primitives) toy_ops (transcript_new (H := toy_primitives) Initiator (repeat 1 32))) as [t|e] eqn:E;
    [|by vm_compute in E].
  destruct (split (H := toy_primitives) t) as [keys|e] eqn:Ek.
  - exact (split_only_at_end toy_primitives Initiator (repeat 1 32) toy_ops t keys E Ek).
  - exfalso. vm_compute in E. injection E as <-. by vm_compute in Ek.
Defined.
