(* ===== verification/Ntcp2Block.v ===== *)
(** * NTCP2 payload blocks

    Models [src/crates/i2pr-transport-ntcp2/src/block.rs]: the blocks of an
    authenticated plaintext, their encoder and the parser of the data phase.
    Blocks are type, big-endian length and body; termination comes after
    everything but padding, padding is last, and unknown blocks are skipped
    within a budget.  RouterInfo blocks are decoded and their signature verified
    with the definitions of RouterInfo.v and NetValidate.v. *)
From S2P Require Import Prelude Codec Common Identity RouterInfo I2np NetValidate Ntcp2Crypto.

Definition MAX_I2NP_MESSAGE_BYTES : Z := MAX_I2NP_PAYLOAD_SIZE + STANDARD_HEADER_SIZE.

Definition BLOCK_HEADER_LENGTH : Z := 3.
Definition BLOCK_DATETIME : Z := 0.
Definition BLOCK_OPTIONS : Z := 1.
Definition BLOCK_ROUTER_INFO : Z := 2.
Definition BLOCK_I2NP : Z := 3.
Definition BLOCK_TERMINATION : Z := 4.
Definition BLOCK_PADDING : Z := 254.
Definition OPTIONS_MIN_LENGTH : Z := 12.
Definition MAX_OPTIONS_BYTES : Z := 4 * 1024.
Definition MAX_ROUTER_INFO_BYTES : Z := MAX_FRAME_PLAINTEXT - BLOCK_HEADER_LENGTH - 1.
Definition MAX_PADDING_BYTES : Z := MAX_FRAME_PLAINTEXT - BLOCK_HEADER_LENGTH.
Definition MAX_TERMINATION_ADDITIONAL_BYTES : Z := 256.
Definition MAX_BLOCK_COUNT : Z := 256.
Definition MAX_UNKNOWN_BLOCK_BYTES : Z := 4 * 1024.

Inductive BlockError :=
  | BlockTruncated
  | LengthExceedsFrame
  | ExcessiveBlockCount
  | ExcessiveUnknownBytes
  | BlockInvalidLength
  | DuplicateBlock
  | InvalidOrder
  | InvalidTermination
  | RouterInfoMalformed
  | RouterInfoSignatureInvalid
  | BlockPeerIdentityMismatch
  | BlockPeerStaticKeyMismatch
  | I2npMalformed
  | OptionsMalformed
  | BlockPayloadTooLarge.

Record OptionsBlock := mkOptionsBlock {
  transmit_min_padding : Z;
  transmit_max_padding : Z;
  receive_min_padding : Z;
  receive_max_padding : Z;
  transmit_dummy_rate : Z;
  receive_dummy_rate : Z;
  transmit_delay_ms : Z;
  receive_delay_ms : Z;
  option_extensions : bytes;
}.

Definition options_block_new (tmin tmax rmin rmax tdummy rdummy tdelay rdelay : Z) (extensions : bytes)
    : result BlockError OptionsBlock :=
  total ← ok_or BlockPayloadTooLarge (checked_add usize_max OPTIONS_MIN_LENGTH (zlen extensions));
  if total >? MAX_OPTIONS_BYTES then Err BlockPayloadTooLarge
  else if (tmin >? tmax) || (rmin >? rmax) then Err OptionsMalformed
  else Ok (mkOptionsBlock tmin tmax rmin rmax tdummy rdummy tdelay rdelay extensions).

Definition options_block_decode (payload : bytes) : result BlockError OptionsBlock :=
  if negb ((OPTIONS_MIN_LENGTH <=? zlen payload) && (zlen payload <=? MAX_OPTIONS_BYTES)) then Err BlockInvalidLength
  else
  let byte i := from_be (slice i (i + 1) payload) in
  let word i := from_be (slice i (i + 2) payload) in
  options_block_new (byte 0) (byte 1) (byte 2) (byte 3) (word 4) (word 6) (word 8) (word 10)
    (slice OPTIONS_MIN_LENGTH (zlen payload) payload).

Definition options_block_bytes (o : OptionsBlock) : bytes :=
  [transmit_min_padding o; transmit_max_padding o; receive_min_padding o; receive_max_padding o] ++
  to_be 2 (transmit_dummy_rate o) ++ to_be 2 (receive_dummy_rate o) ++
  to_be 2 (transmit_delay_ms o) ++ to_be 2 (receive_delay_ms o) ++ option_extensions o.

Record RouterInfoBlock := mkRouterInfoBlock {
  rb_flags : Z;
  rb_encoded : bytes;
  rb_info : RouterInfo;
  rb_hash : bytes;
}.

Definition encoded_i2np_new (bs : bytes) : option bytes :=
  if zlen bs =? 0 then None else if zlen bs >? MAX_I2NP_MESSAGE_BYTES then None else Some bs.
(** [I2npMessageBlock::from_bytes]: [EncodedI2npMessage::new], then [new]. *)
Definition i2np_block_from_bytes (bs : bytes) : result BlockError bytes :=
  message ← ok_or I2npMalformed (encoded_i2np_new bs);
  if zlen message <? SHORT_TRANSPORT_HEADER_SIZE then Err I2npMalformed else Ok message.

Definition padding_block_new (bs : bytes) : result BlockError bytes :=
  if zlen bs >? MAX_PADDING_BYTES then Err BlockPayloadTooLarge else Ok bs.

Inductive TerminationReason :=
  | Normal | Received | IdleTimeout | RouterShutdown | AeadFailure | IncompatibleOptions
  | IncompatibleSignatureType | ClockSkew | PaddingViolation | AeadFramingError | PayloadFormatError
  | Message1Error | Message2Error | Message3Error | IntraFrameReadTimeout | RouterInfoSignatureFailure
  | RouterInfoStaticKeyFailure | Banned
  | UnknownReason (code : Z).

Module Reason.
Definition code (r : TerminationReason) : Z :=
  match r with
  | Normal => 0 | Received => 1 | IdleTimeout => 2 | RouterShutdown => 3 | AeadFailure => 4
  | IncompatibleOptions => 5 | IncompatibleSignatureType => 6 | ClockSkew => 7 | PaddingViolation => 8
  | AeadFramingError => 9 | PayloadFormatError => 10 | Message1Error => 11 | Message2Error => 12
  | Message3Error => 13 | IntraFrameReadTimeout => 14 | RouterInfoSignatureFailure => 15
  | RouterInfoStaticKeyFailure => 16 | Banned => 17 | UnknownReason c => c
  end.
Definition from_code (c : Z) : TerminationReason :=
  match c with
  | 0 => Normal | 1 => Received | 2 => IdleTimeout | 3 => RouterShutdown | 4 => AeadFailure
  | 5 => IncompatibleOptions | 6 => IncompatibleSignatureType | 7 => ClockSkew | 8 => PaddingViolation
  | 9 => AeadFramingError | 10 => PayloadFormatError | 11 => Message1Error | 12 => Message2Error
  | 13 => Message3Error | 14 => IntraFrameReadTimeout | 15 => RouterInfoSignatureFailure
  | 16 => RouterInfoStaticKeyFailure | 17 => Banned | other => UnknownReason other
  end.
End Reason.

Record TerminationBlock := mkTermination {
  valid_frames_received : Z;
  term_reason : TerminationReason;
  additional_length : Z;
}.
Definition termination_new (frames : Z) (reason : TerminationReason) : TerminationBlock := mkTermination frames reason 0.

Inductive Block :=
  | BTimestamp (seconds : Z)
  | BOptions (o : OptionsBlock)
  | BRouterInfo (r : RouterInfoBlock)
  | BI2np (message : bytes)
  | BTermination (t : TerminationBlock)
  | BPadding (padding : bytes).

Definition block_kind (b : Block) : Z :=
  match b with
  | BTimestamp _ => BLOCK_DATETIME
  | BOptions _ => BLOCK_OPTIONS
  | BRouterInfo _ => BLOCK_ROUTER_INFO
  | BI2np _ => BLOCK_I2NP
  | BTermination _ => BLOCK_TERMINATION
  | BPadding _ => BLOCK_PADDING
  end.

Definition block_encoded_len (b : Block) : Z :=
  BLOCK_HEADER_LENGTH +
  match b with
  | BTimestamp _ => 4
  | BOptions o => OPTIONS_MIN_LENGTH + zlen (option_extensions o)
  | BRouterInfo r => 1 + zlen (rb_encoded r)
  | BI2np m => zlen m
  | BTermination t => 9 + additional_length t
  | BPadding p => zlen p
  end.

(** The payload the encoder writes behind the header. *)
Definition block_payload (b : Block) : bytes :=
  match b with
  | BTimestamp s => to_be 4 s
  | BOptions o => options_block_bytes o
  | BRouterInfo r => rb_flags r :: rb_encoded r
  | BI2np m => m
  | BTermination t => to_be 8 (valid_frames_received t) ++ [Reason.code (term_reason t)]
  | BPadding p => p
  end.

(** [encode_into]: the bytes appended to the output. *)
Definition block_encode (b : Block) : result BlockError bytes :=
  let payload_len := block_encoded_len b - BLOCK_HEADER_LENGTH in
  length ← ok_or BlockPayloadTooLarge (try_from u16_max payload_len);
  Ok (block_kind b :: to_be 2 length ++ block_payload b).

Definition is_padding (kind : Z) : bool := kind =? BLOCK_PADDING.
Definition is_termination (kind : Z) : bool := kind =? BLOCK_TERMINATION.

(** The loop of [encode_blocks]; the state is the output and the two flags. *)
Fixpoint encode_loop (blocks : list Block) (output : bytes) (padding_seen termination_seen : bool)
    : result BlockError bytes :=
  match blocks with
  | [] => Ok output
  | b :: blocks' =>
      let kind := block_kind b in
      if is_padding kind && (padding_seen || (zlen output + block_encoded_len b >? MAX_FRAME_PLAINTEXT))
      then Err (if padding_seen then DuplicateBlock else BlockPayloadTooLarge)
      else if negb (is_padding kind) && padding_seen then Err InvalidOrder
      else
      let padding_seen := padding_seen || is_padding kind in
      if is_termination kind && termination_seen then Err DuplicateBlock
      else if negb (is_termination kind) && (termination_seen && negb (is_padding kind)) then Err InvalidOrder
      else
      let termination_seen := termination_seen || is_termination kind in
      if zlen output + block_encoded_len b >? MAX_FRAME_PLAINTEXT then Err BlockPayloadTooLarge
      else
      encoded ← block_encode b;
      encode_loop blocks' (output ++ encoded) padding_seen termination_seen
  end.

Definition encode_blocks (blocks : list Block) : result BlockError bytes :=
  if zlen blocks >? MAX_BLOCK_COUNT then Err ExcessiveBlockCount
  else encode_loop blocks [] false false.

(** ** Parsing *)
Inductive DecodedBlock :=
  | DTimestamp (seconds : Z)
  | DOptions (o : OptionsBlock)
  | DRouterInfo (r : RouterInfoBlock)
  | DI2np (message : bytes)
  | DTermination (t : TerminationBlock)
  | DPadding (length : Z)
  | DUnknown (block_type length : Z).

Record ParsedBlocks := mkParsed { parsed_blocks : list DecodedBlock; parsed_unknown_bytes : Z }.

Section parsing.
Context (sha256 : bytes → bytes) (ed25519_key : bytes → bool) (ed25519_verify : bytes → bytes → bytes → bool).

Definition router_info_block_new (flags : Z) (encoded : bytes) : result BlockError RouterInfoBlock :=
  if negb (Z.land flags 254 =? 0) || (zlen encoded =? 0) || (zlen encoded >? MAX_ROUTER_INFO_BYTES)
  then Err RouterInfoMalformed
  else
  info ← map_err (λ _, RouterInfoMalformed) (router_info_decode encoded MAX_ROUTER_INFO_BYTES);
  _ ← map_err (λ _, RouterInfoSignatureInvalid) (verify_router_info ed25519_key ed25519_verify info);
  hash ← map_err (λ _, RouterInfoMalformed) (router_identity_hash sha256 (ri_identity info));
  Ok (mkRouterInfoBlock flags encoded info hash).

(** The [match] on the type of a block, the accounting of unknown blocks apart. *)
Definition decode_block (block_type : Z) (body : bytes) : result BlockError DecodedBlock :=
  if block_type =? BLOCK_DATETIME then
    if negb (zlen body =? 4) then Err BlockInvalidLength else Ok (DTimestamp (from_be body))
  else if block_type =? BLOCK_OPTIONS then DOptions <$> options_block_decode body
  else if block_type =? BLOCK_ROUTER_INFO then
    match body with
    | [] => Err RouterInfoMalformed
    | flags :: encoded => DRouterInfo <$> router_info_block_new flags encoded
    end
  else if block_type =? BLOCK_I2NP then
    if (zlen body <? SHORT_TRANSPORT_HEADER_SIZE) || (zlen body >? MAX_I2NP_MESSAGE_BYTES)
    then Err I2npMalformed else Ok (DI2np body)
  else if block_type =? BLOCK_TERMINATION then
    if negb ((9 <=? zlen body) && (zlen body <=? 9 + MAX_TERMINATION_ADDITIONAL_BYTES)) then Err InvalidTermination
    else Ok (DTermination (mkTermination (from_be (slice 0 8 body))
               (Reason.from_code (from_be (slice 8 9 body))) (zlen body - 9)))
  else if block_type =? BLOCK_PADDING then Ok (DPadding (zlen body))
  else Ok (DUnknown block_type (zlen body)).

Definition is_known (block_type : Z) : bool :=
  (block_type =? BLOCK_DATETIME) || (block_type =? BLOCK_OPTIONS) || (block_type =? BLOCK_ROUTER_INFO) ||
  (block_type =? BLOCK_I2NP) || (block_type =? BLOCK_TERMINATION) || (block_type =? BLOCK_PADDING).

(** The loop of [parse_blocks] over the rest of the input; [room] is how many
    more blocks are allowed. *)
Fixpoint parse_loop (room : nat) (rest : bytes) (unknown_bytes : Z) (padding_seen termination_seen : bool)
    : result BlockError ParsedBlocks :=
  if zlen rest =? 0 then Ok (mkParsed [] unknown_bytes)
  else
  match room with
  | O => Err ExcessiveBlockCount
  | S room' =>
      if BLOCK_HEADER_LENGTH >? zlen rest then Err BlockTruncated
      else
      let block_type := from_be (slice 0 1 rest) in
      let body_end := BLOCK_HEADER_LENGTH + from_be (slice 1 3 rest) in
      if body_end >? zlen rest then Err BlockTruncated
      else
      let body := slice BLOCK_HEADER_LENGTH body_end rest in
      if is_padding block_type && padding_seen then Err DuplicateBlock
      else if negb (is_padding block_type) && padding_seen then Err InvalidOrder
      else
      let padding_seen := padding_seen || is_padding block_type in
      if is_termination block_type && termination_seen then Err DuplicateBlock
      else if negb (is_termination block_type) && (termination_seen && negb (is_padding block_type)) then Err InvalidOrder
      else
      let termination_seen := termination_seen || is_termination block_type in
      decoded ← decode_block block_type body;
      let unknown_bytes := if is_known block_type then unknown_bytes else unknown_bytes + zlen body in
      if negb (is_known block_type) && (unknown_bytes >? MAX_UNKNOWN_BLOCK_BYTES) then Err ExcessiveUnknownBytes
      else
      p ← parse_loop room' (slice body_end (zlen rest) rest) unknown_bytes padding_seen termination_seen;
      Ok (mkParsed (decoded :: parsed_blocks p) (parsed_unknown_bytes p))
  end.

Definition parse_blocks (inp : bytes) : result BlockError ParsedBlocks :=
  if zlen inp >? MAX_FRAME_PLAINTEXT then Err BlockPayloadTooLarge
  else parse_loop (Z.to_nat MAX_BLOCK_COUNT) inp 0 false false.
End parsing.

(** ** What the parser accepts *)
Abbreviation raw := (Z * bytes)%type.
Definition raw_bytes (r : raw) : bytes := r.1 :: to_be 2 (zlen r.2) ++ r.2.
Definition raw_ok (r : raw) : Prop := fits 8 r.1 ∧ fits 16 (zlen r.2).
Definition unknown_len (r : raw) : Z := if is_known r.1 then 0 else zlen r.2.
Definition unknown_total (rs : list raw) : Z := foldr (λ r acc, unknown_len r + acc) 0 rs.

(** Ordinary blocks, then at most one termination, then at most one padding. *)
Definition ordered (kinds : list Z) : Prop :=
  ∃ main term pad, kinds = main ++ term ++ pad ∧
    Forall (λ k, k ≠ BLOCK_TERMINATION ∧ k ≠ BLOCK_PADDING) main ∧
    (term = [] ∨ term = [BLOCK_TERMINATION]) ∧ (pad = [] ∨ pad = [BLOCK_PADDING]).

Fixpoint order_from (padding_seen termination_seen : bool) (kinds : list Z) : bool :=
  match kinds with
  | [] => true
  | k :: kinds' =>
      negb padding_seen && negb (termination_seen && negb (is_padding k)) &&
      order_from (is_padding k) (termination_seen || is_termination k) kinds'
  end.

Lemma order_after_padding term kinds : order_from true term kinds = true ↔ kinds = [].
Proof. destruct kinds; cbn; [done|]. split; by intros. Qed.
Lemma order_after_termination kinds : order_from false true kinds = true ↔ kinds = [] ∨ kinds = [BLOCK_PADDING].
Proof.
  destruct kinds as [|k kinds]; cbn [order_from]; [naive_solver|]. unfold is_padding. destruct (k =? BLOCK_PADDING) eqn:E; cbn.
  - apply Z.eqb_eq in E as ->. rewrite order_after_padding. naive_solver.
  - breflect. naive_solver.
Qed.
Lemma order_from_spec kinds : order_from false false kinds = true ↔ ordered kinds.
Proof.
  induction kinds as [|k kinds IH]; cbn [order_from negb andb orb].
  { split; [|done]. intros _. exists [], [], []. split_and!; auto. }
  unfold is_padding, is_termination. destruct (k =? BLOCK_PADDING) eqn:E1; [|destruct (k =? BLOCK_TERMINATION) eqn:E2]; breflect.
  - subst. rewrite order_after_padding. split.
    + intros ->. exists [], [], [BLOCK_PADDING]. split_and!; auto.
    + intros (main & term & pad & Heq & Hm & Ht & Hp). destruct main as [|m main].
      * destruct Ht as [->| ->]; [|done]. destruct Hp as [->| ->]; [done|]. by injection Heq as ->.
      * injection Heq as <- _. by apply Forall_cons in Hm as [[_ ?] _].
  - subst. rewrite order_after_termination. split.
    + intros Hk. exists [], [BLOCK_TERMINATION], kinds. split_and!; naive_solver.
    + intros (main & term & pad & Heq & Hm & Ht & Hp). destruct main as [|m main].
      * destruct Ht as [->| ->]; [|by injection Heq as ->]. by destruct Hp as [->| ->].
      * injection Heq as <- _. by apply Forall_cons in Hm as [[? _] _].
  - rewrite IH. split.
    + intros (main & term & pad & -> & Hm & Ht & Hp). exists (k :: main), term, pad. split_and!; auto.
    + intros (main & term & pad & Heq & Hm & Ht & Hp). destruct main as [|m main].
      * destruct Ht as [->| ->]; [destruct Hp as [->| ->]|]; by injection Heq as -> _ || done.
      * injection Heq as -> ->. apply Forall_cons in Hm as [_ Hm]. by exists main, term, pad.
Qed.

Lemma zlen_raw r : zlen (raw_bytes r) = 3 + zlen r.2.
Proof. unfold raw_bytes. rewrite zlen_cons, zlen_app, zlen_to_be. lia. Qed.
Lemma unknown_nonneg rs : 0 ≤ unknown_total rs.
Proof.
  induction rs as [|r rs IH]; [done|]. change (unknown_total (r :: rs)) with (unknown_len r + unknown_total rs).
  unfold unknown_len. pose proof (zlen_nonneg r.2). destruct (is_known _); lia.
Qed.

Section exact.
Context (sha256 : bytes → bytes) (ed25519_key : bytes → bool) (ed25519_verify : bytes → bytes → bytes → bool).
Abbreviation loop := (parse_loop sha256 ed25519_key ed25519_verify).
Abbreviation decode := (decode_block sha256 ed25519_key ed25519_verify).

(** The parts of a block at the front of the input. *)
Lemma raw_parts r tail :
  raw_ok r →
  zlen (raw_bytes r ++ tail) = 3 + zlen r.2 + zlen tail ∧
  from_be (slice 0 1 (raw_bytes r ++ tail)) = r.1 ∧ from_be (slice 1 3 (raw_bytes r ++ tail)) = zlen r.2 ∧
  slice 3 (3 + zlen r.2) (raw_bytes r ++ tail) = r.2 ∧
  slice (3 + zlen r.2) (3 + zlen r.2 + zlen tail) (raw_bytes r ++ tail) = tail.
Proof.
  intros [Ht Hb]. destruct r as [t b]. cbn [fst snd] in *. split_and!.
  - rewrite zlen_app, zlen_raw. cbn. lia.
  - change (raw_bytes (t, b) ++ tail) with ([t] ++ (to_be 2 (zlen b) ++ b) ++ tail). rewrite slice_app_start by done.
    unfold from_be. cbn. lia.
  - change (raw_bytes (t, b) ++ tail) with ([t] ++ (to_be 2 (zlen b) ++ b) ++ tail). rewrite <- app_assoc.
    rewrite (slice_app_eq 1 3 [t]) by (rewrite ?zlen_to_be; done). by rewrite from_to_be.
  - replace (raw_bytes (t, b) ++ tail) with ((t :: to_be 2 (zlen b)) ++ b ++ tail) by (unfold raw_bytes; cbn; by rewrite <- app_assoc).
    apply slice_app_eq; rewrite ?zlen_cons, ?zlen_to_be; lia.
  - apply slice_app_end; rewrite ?zlen_raw; cbn; lia.
Qed.

Lemma loop_step n r tail u pad term :
  raw_ok r →
  loop (S n) (raw_bytes r ++ tail) u pad term =
  if is_padding r.1 && pad then Err DuplicateBlock
  else if negb (is_padding r.1) && pad then Err InvalidOrder
  else if is_termination r.1 && term then Err DuplicateBlock
  else if negb (is_termination r.1) && (term && negb (is_padding r.1)) then Err InvalidOrder
  else
  d ← decode r.1 r.2;
  if negb (is_known r.1) && (u + unknown_len r >? MAX_UNKNOWN_BLOCK_BYTES) then Err ExcessiveUnknownBytes
  else
  p ← loop n tail (u + unknown_len r) (pad || is_padding r.1) (term || is_termination r.1);
  Ok (mkParsed (d :: parsed_blocks p) (parsed_unknown_bytes p)).
Proof.
  intros Hr. destruct (raw_parts r tail Hr) as (Hl & Ht & Hn & Hb & Htail). pose proof (zlen_nonneg r.2). pose proof (zlen_nonneg tail).
  cbn [parse_loop]. unfold BLOCK_HEADER_LENGTH. rewrite Ht, Hn, Hb, Hl.
  destruct (_ =? 0) eqn:E; breflect; [lia|]. destruct (3 >? _) eqn:E2; breflect; [lia|]. destruct (_ + _ >? _) eqn:E3; breflect; [lia|].
  rewrite Htail. unfold unknown_len. destruct (is_known r.1); [by rewrite Z.add_0_r|]. done.
Qed.

Record accepts (n : nat) (rest : bytes) (u : Z) (pad term : bool) (p : ParsedBlocks) (rs : list raw) : Prop := {
  ac_bytes : rest = concat (raw_bytes <$> rs);
  ac_ok : Forall raw_ok rs;
  ac_count : (length rs ≤ n)%nat;
  ac_order : order_from pad term rs.*1 = true;
  ac_decoded : Forall2 (λ r d, decode r.1 r.2 = Ok d) rs (parsed_blocks p);
  ac_unknown : parsed_unknown_bytes p = u + unknown_total rs;
  ac_budget : u + unknown_total rs ≤ MAX_UNKNOWN_BLOCK_BYTES;
}.

(** The four order checks of the loop are one step of [order_from]. *)
Lemma order_checks {A} k pad term (x : result BlockError A) a :
  (if is_padding k && pad then Err DuplicateBlock
   else if negb (is_padding k) && pad then Err InvalidOrder
   else if is_termination k && term then Err DuplicateBlock
   else if negb (is_termination k) && (term && negb (is_padding k)) then Err InvalidOrder
   else x) = Ok a ↔
  negb pad && negb (term && negb (is_padding k)) = true ∧ x = Ok a.
Proof.
  assert (is_termination k = true → is_padding k = false).
  { unfold is_termination, is_padding. intros ->%Z.eqb_eq. done. }
  destruct (is_padding k) eqn:E1, pad, (is_termination k) eqn:E2, term; cbn; naive_solver.
Qed.

Lemma loop_sound n rest u pad term p :
  bytes_ok rest → u ≤ MAX_UNKNOWN_BLOCK_BYTES → loop n rest u pad term = Ok p → ∃ rs, accepts n rest u pad term p rs.
Proof.
  revert rest u pad term p. induction n as [|n IH]; intros rest u pad term p Hok Hu.
  - cbn [parse_loop]. destruct (_ =? 0) eqn:E; breflect; [|done]. apply zlen_0_nil in E as ->. intros <-%Ok_inj.
    exists []. by constructor; cbn; rewrite ?Z.add_0_r; try done; constructor.
  - intros Hp. destruct (decide (zlen rest = 0)) as [E|E].
    { apply zlen_0_nil in E as ->. apply Ok_inj in Hp as <-. exists []. constructor; cbn; rewrite ?Z.add_0_r; try done; try constructor; lia. }
    assert (Hraw : ∃ r tail, raw_ok r ∧ rest = raw_bytes r ++ tail).
    { cbn [parse_loop] in Hp. unfold BLOCK_HEADER_LENGTH in Hp. destruct (zlen rest =? 0) eqn:E0; breflect; [lia|].
      destruct (3 >? zlen rest) eqn:E1; breflect; [done|]. destruct (3 + _ >? zlen rest) eqn:E2; breflect; [done|]. clear Hp.
      set (len := from_be (slice 1 3 rest)) in *.
      assert (Hlen : fits 16 len /\ to_be 2 len = slice 1 3 rest).
      { assert (Hs : zlen (slice 1 3 rest) = 2) by (rewrite slice_length; lia).
        assert (Ho : bytes_ok (slice 1 3 rest)) by by apply Forall_slice.
        pose proof (from_be_bound _ Ho) as Hb. rewrite Hs in Hb. split; [exact Hb|].
        transitivity (to_be (length (slice 1 3 rest)) len); [|by apply to_from_be]. f_equal. unfold zlen in Hs. lia. }
      destruct Hlen as [Hlen Hbe]. destruct rest as [|t rest']; [done|]. set (rest := t :: rest') in *.
      exists (t, slice 3 (3 + len) rest), (slice (3 + len) (zlen rest) rest). destruct Hlen.
      assert (Hsl : zlen (slice 3 (3 + len) rest) = len) by (rewrite slice_length; lia).
      split; [split; cbn [fst snd]; [by apply Forall_cons in Hok as [? _]|rewrite Hsl; done]|].
      unfold raw_bytes. cbn [fst snd]. rewrite Hsl, Hbe. change (t :: ?x) with ([t] ++ x).
      change [t] with (slice 0 1 rest). rewrite <- !app_assoc. rewrite !slice_slice by lia. symmetry. apply slice_full. }
    destruct Hraw as (r & tail & Hr & ->). rewrite loop_step in Hp by done. apply order_checks in Hp as [Hord Hp].
    destruct (decode r.1 r.2) as [d|] eqn:Ed; [|done]. cbn [mbind result_bind] in Hp.
    destruct (_ && (_ >? _)) eqn:Eb; [done|].
    destruct (loop n tail _ _ _) as [p'|] eqn:El; [|done]. cbn [mbind result_bind] in Hp. apply Ok_inj in Hp as <-.
    apply Forall_app in Hok as [_ Htail].
    destruct (IH tail (u + unknown_len r) (pad || is_padding r.1) (term || is_termination r.1) p' Htail) as (rs & [Hb Ho Hc Hor Hd Hun Hbu]); [|done|].
    { unfold unknown_len in *. destruct (is_known r.1); cbn in Eb; breflect; lia. }
    exists (r :: rs). constructor; cbn [fmap list_fmap concat parsed_blocks parsed_unknown_bytes order_from].
    + by rewrite Hb.
    + by constructor.
    + cbn. lia.
    + rewrite Hord. cbn. destruct pad; [done|]. done.
    + by constructor.
    + change (unknown_total (r :: rs)) with (unknown_len r + unknown_total rs). lia.
    + change (unknown_total (r :: rs)) with (unknown_len r + unknown_total rs). lia.
Qed.

Lemma loop_complete n rest u pad term p rs :
  accepts n rest u pad term p rs → loop n rest u pad term = Ok p.
Proof.
  revert n rest u pad term p. induction rs as [|r rs IH]; intros n rest u pad term p [Hb Ho Hc Hor Hd Hun Hbu].
  { subst rest. destruct p as [bl un]. cbn in Hd. apply Forall2_nil_inv_l in Hd as ->. cbn in Hun. subst un. rewrite Z.add_0_r. by destruct n. }
  destruct n as [|n]; [cbn in Hc; lia|]. apply Forall_cons in Ho as [Hr Ho]. subst rest. cbn [fmap list_fmap concat].
  rewrite loop_step by done. change (unknown_total (r :: rs)) with (unknown_len r + unknown_total rs) in *.
  cbn [fmap list_fmap order_from] in Hor. apply andb_prop in Hor as [Hord Hor].
  apply order_checks. split; [done|]. destruct p as [bl un]. cbn [parsed_blocks parsed_unknown_bytes] in *.
  inversion Hd as [|? d ? ds Hdec Hds]; subst. rewrite Hdec. cbn [mbind result_bind].
  pose proof (unknown_nonneg rs). destruct (_ && (_ >? _)) eqn:Eb.
  { apply andb_prop in Eb as [_ Eb]. breflect. lia. }
  fold (fmap (M := list) raw_bytes). erewrite (IH n _ _ _ _ (mkParsed ds (u + (unknown_len r + unknown_total rs)))); [done|].
  constructor; cbn [parsed_blocks parsed_unknown_bytes]; try done; try lia.
  - cbn in Hc. lia.
  - destruct pad; [done|]. done.
Qed.
End exact.

(** ** What the encoder writes *)
Definition raw_of (b : Block) : raw := (block_kind b, block_payload b).
Definition decoded_of (b : Block) : DecodedBlock :=
  match b with
  | BTimestamp s => DTimestamp s
  | BOptions o => DOptions o
  | BRouterInfo r => DRouterInfo r
  | BI2np m => DI2np m
  | BTermination t => DTermination t
  | BPadding p => DPadding (zlen p)
  end.

Definition options_ok (o : OptionsBlock) : Prop :=
  options_block_new (transmit_min_padding o) (transmit_max_padding o) (receive_min_padding o) (receive_max_padding o)
    (transmit_dummy_rate o) (receive_dummy_rate o) (transmit_delay_ms o) (receive_delay_ms o) (option_extensions o) = Ok o ∧
  fits 8 (transmit_min_padding o) ∧ fits 8 (transmit_max_padding o) ∧ fits 8 (receive_min_padding o) ∧
  fits 8 (receive_max_padding o) ∧ fits 16 (transmit_dummy_rate o) ∧ fits 16 (receive_dummy_rate o) ∧
  fits 16 (transmit_delay_ms o) ∧ fits 16 (receive_delay_ms o).

Section encoding.
Context (sha256 : bytes → bytes) (ed25519_key : bytes → bool) (ed25519_verify : bytes → bytes → bytes → bool).
Abbreviation decode := (decode_block sha256 ed25519_key ed25519_verify).

(** A block as the constructors of the module build it. *)
Definition block_ok (b : Block) : Prop :=
  match b with
  | BTimestamp s => fits 32 s
  | BOptions o => options_ok o
  | BRouterInfo r => fits 8 (rb_flags r) ∧ router_info_block_new sha256 ed25519_key ed25519_verify (rb_flags r) (rb_encoded r) = Ok r
  | BI2np m => i2np_block_from_bytes m = Ok m
  | BTermination t => additional_length t = 0 ∧ fits 64 (valid_frames_received t) ∧
      fits 8 (Reason.code (term_reason t)) ∧ Reason.from_code (Reason.code (term_reason t)) = term_reason t
  | BPadding _ => True
  end.

Lemma zlen_options_bytes o : zlen (options_block_bytes o) = OPTIONS_MIN_LENGTH + zlen (option_extensions o).
Proof. unfold options_block_bytes. rewrite !zlen_app, !zlen_to_be. change (zlen [_; _; _; _]) with 4. unfold OPTIONS_MIN_LENGTH. lia. Qed.

Lemma payload_len b : block_ok b → block_encoded_len b = 3 + zlen (block_payload b).
Proof.
  unfold block_encoded_len, BLOCK_HEADER_LENGTH. destruct b; cbn [block_payload block_ok].
  - intros _. by rewrite zlen_to_be.
  - intros _. by rewrite zlen_options_bytes.
  - intros _. by rewrite zlen_cons.
  - done.
  - intros [-> _]. rewrite zlen_app, zlen_to_be. done.
  - done.
Qed.

Lemma block_encode_spec b : block_ok b →
  block_encode b = if decide (zlen (block_payload b) ≤ u16_max) then Ok (raw_bytes (raw_of b)) else Err BlockPayloadTooLarge.
Proof.
  intros Hb. unfold block_encode. rewrite (payload_len b Hb). unfold BLOCK_HEADER_LENGTH.
  replace (3 + zlen (block_payload b) - 3) with (zlen (block_payload b)) by lia. unfold try_from.
  destruct (_ <=? _) eqn:E; breflect; case_decide; try lia; done.
Qed.

(** The integer between two parts of a list of bytes. *)
Lemma read_between (pre mid post bs : bytes) a b v :
  bs = pre ++ mid ++ post → zlen pre = a → a + zlen mid = b → from_be mid = v → from_be (slice a b bs) = v.
Proof. intros -> <- <- <-. by rewrite slice_app. Qed.

Lemma options_roundtrip o : options_ok o → options_block_decode (options_block_bytes o) = Ok o.
Proof.
  intros (Hnew & H1 & H2 & H3 & H4 & H5 & H6 & H7 & H8). unfold options_block_decode.
  pose proof (zlen_options_bytes o) as Hl. pose proof (zlen_nonneg (option_extensions o)).
  assert (Hmax : OPTIONS_MIN_LENGTH + zlen (option_extensions o) ≤ MAX_OPTIONS_BYTES).
  { unfold options_block_new in Hnew. destruct (checked_add _ _ _) eqn:E; [|done]. apply checked_add_Some in E as [-> _].
    cbn [ok_or mbind result_bind] in Hnew. destruct (_ >? _) eqn:E'; [done|]. breflect. lia. }
  rewrite Hl. destruct (negb _) eqn:E.
  { apply negb_true_iff, andb_false_iff in E as [E|E]; breflect; lia. }
  destruct o as [tmin tmax rmin rmax td rd tde rde ex].
  cbn [transmit_min_padding transmit_max_padding receive_min_padding receive_max_padding transmit_dummy_rate
    receive_dummy_rate transmit_delay_ms receive_delay_ms option_extensions] in *.
  set (hd := [tmin; tmax; rmin; rmax]). set (w := to_be 2).
  assert (Hone : ∀ v, from_be [v] = v) by (intros v; unfold from_be; cbn; lia).
  assert (Hw : ∀ v, zlen (w v) = 2) by (intros; apply zlen_to_be).
  assert (Hbe : ∀ v, fits 16 v → from_be (w v) = v) by (intros; by apply from_to_be).
  set (bs := options_block_bytes _). assert (Hbs : bs = hd ++ w td ++ w rd ++ w tde ++ w rde ++ ex) by done.
  assert (Hlen : OPTIONS_MIN_LENGTH = zlen (hd ++ w td ++ w rd ++ w tde ++ w rde)) by (rewrite !zlen_app, !Hw; done).
  clearbody bs w.
  rewrite (read_between [] [tmin] ([tmax; rmin; rmax] ++ w td ++ w rd ++ w tde ++ w rde ++ ex) bs 0 (0 + 1) tmin) by done.
  rewrite (read_between [tmin] [tmax] ([rmin; rmax] ++ w td ++ w rd ++ w tde ++ w rde ++ ex) bs 1 (1 + 1) tmax) by done.
  rewrite (read_between [tmin; tmax] [rmin] ([rmax] ++ w td ++ w rd ++ w tde ++ w rde ++ ex) bs 2 (2 + 1) rmin) by done.
  rewrite (read_between [tmin; tmax; rmin] [rmax] (w td ++ w rd ++ w tde ++ w rde ++ ex) bs 3 (3 + 1) rmax) by done.
  rewrite (read_between hd (w td) (w rd ++ w tde ++ w rde ++ ex) bs 4 (4 + 2) td) by (rewrite ?Hw; auto).
  rewrite (read_between (hd ++ w td) (w rd) (w tde ++ w rde ++ ex) bs 6 (6 + 2) rd)
    by (rewrite ?Hbs, <- ?app_assoc, ?zlen_app, ?Hw; auto).
  rewrite (read_between (hd ++ w td ++ w rd) (w tde) (w rde ++ ex) bs 8 (8 + 2) tde)
    by (rewrite ?Hbs, <- ?app_assoc, ?zlen_app, ?Hw; auto).
  rewrite (read_between (hd ++ w td ++ w rd ++ w tde) (w rde) ex bs 10 (10 + 2) rde)
    by (rewrite ?Hbs, <- ?app_assoc, ?zlen_app, ?Hw; auto).
  replace (slice _ _ bs) with ex; [done|]. symmetry.
  replace bs with ((hd ++ w td ++ w rd ++ w tde ++ w rde) ++ ex) by (rewrite Hbs, <- ?app_assoc; done).
  by apply slice_app_end; rewrite ?Hlen.
Qed.

Lemma decode_encoded b : block_ok b → decode (block_kind b) (block_payload b) = Ok (decoded_of b).
Proof.
  destruct b as [s|o|r|m|t|p]; cbn [block_kind block_payload block_ok decoded_of]; intros Hb.
  - unfold decode_block. change (BLOCK_DATETIME =? BLOCK_DATETIME) with true. rewrite zlen_to_be. cbn [Z.eqb negb Z.of_nat].
    change (4 =? 4) with true. cbn [negb]. by rewrite from_to_be.
  - change (decode BLOCK_OPTIONS (options_block_bytes o)) with (DOptions <$> options_block_decode (options_block_bytes o)).
    by rewrite options_roundtrip.
  - destruct Hb as [_ Hb].
    change (decode BLOCK_ROUTER_INFO (rb_flags r :: rb_encoded r)) with
      (DRouterInfo <$> router_info_block_new sha256 ed25519_key ed25519_verify (rb_flags r) (rb_encoded r)).
    by rewrite Hb.
  - change (decode BLOCK_I2NP m) with
      (if (zlen m <? SHORT_TRANSPORT_HEADER_SIZE) || (zlen m >? MAX_I2NP_MESSAGE_BYTES) then Err I2npMalformed else Ok (DI2np m)).
    unfold i2np_block_from_bytes, encoded_i2np_new in Hb. destruct (_ =? 0); [done|]. destruct (_ >? _); [done|].
    cbn [ok_or mbind result_bind] in Hb. by destruct (_ <? _).
  - destruct Hb as (Ha & Hf & Hc & Hr). destruct t as [f r a]. cbn [additional_length valid_frames_received term_reason] in *. subst a.
    set (body := to_be 8 f ++ [Reason.code r]). assert (Hl : zlen body = 9) by (unfold body; rewrite zlen_app, zlen_to_be; done).
    assert (H1 : from_be (slice 0 8 body) = f).
    { unfold body. rewrite slice_app_start by (by rewrite zlen_to_be). by apply from_to_be. }
    assert (H2 : from_be (slice 8 9 body) = Reason.code r).
    { unfold body. rewrite (slice_app_end 8 9); rewrite ?zlen_to_be; [unfold from_be; cbn; lia|done..]. }
    unfold decode_block. change (BLOCK_TERMINATION =? BLOCK_DATETIME) with false. change (BLOCK_TERMINATION =? BLOCK_OPTIONS) with false.
    change (BLOCK_TERMINATION =? BLOCK_ROUTER_INFO) with false. change (BLOCK_TERMINATION =? BLOCK_I2NP) with false.
    change (BLOCK_TERMINATION =? BLOCK_TERMINATION) with true. rewrite Hl, H1, H2, Hr. done.
  - done.
Qed.

Lemma raw_of_ok b : block_ok b → zlen (block_payload b) ≤ u16_max → raw_ok (raw_of b).
Proof.
  intros Hb Hl. pose proof (zlen_nonneg (block_payload b)). split; cbn [raw_of fst snd].
  - by destruct b; vm_compute.
  - unfold fits, u16_max in *. lia.
Qed.
Lemma known_kind b : is_known (block_kind b) = true.
Proof. by destruct b. Qed.
Lemma unknown_encoded bs : unknown_total (raw_of <$> bs) = 0.
Proof.
  induction bs as [|b bs IH]; [done|]. cbn [fmap list_fmap]. change (unknown_total (?r :: ?l)) with (unknown_len r + unknown_total l).
  fold (fmap (M := list) raw_of). rewrite IH. unfold unknown_len. cbn [raw_of fst]. by rewrite known_kind.
Qed.

Definition encoding (bs : list Block) : bytes := concat (raw_bytes ∘ raw_of <$> bs).

Lemma encoding_raw_ok bs :
  Forall block_ok bs → zlen (encoding bs) ≤ MAX_FRAME_PLAINTEXT → Forall raw_ok (raw_of <$> bs).
Proof.
  intros Hbs Hl. induction Hbs as [|b bs Hb _ IH]; [constructor|].
  change (encoding (b :: bs)) with (raw_bytes (raw_of b) ++ encoding bs) in Hl. rewrite zlen_app, zlen_raw in Hl. cbn [raw_of snd] in Hl.
  pose proof (zlen_nonneg (encoding bs)). pose proof (zlen_nonneg (block_payload b)). constructor; [|apply IH; lia].
  apply raw_of_ok; [done|]. unfold MAX_FRAME_PLAINTEXT, MAX_FRAME_LENGTH, AUTH_TAG_LENGTH, u16_max in *. lia.
Qed.

(** The encoder succeeds exactly on blocks in order that fit a frame. *)
Lemma encode_loop_spec bs out pad term w :
  Forall block_ok bs → zlen out ≤ MAX_FRAME_PLAINTEXT →
  encode_loop bs out pad term = Ok w ↔
  w = out ++ encoding bs ∧ order_from pad term (block_kind <$> bs) = true ∧ zlen w ≤ MAX_FRAME_PLAINTEXT.
Proof.
  intros Hbs. revert out pad term. induction Hbs as [|b bs Hb _ IH]; intros out pad term Hout.
  { cbn. rewrite app_nil_r. split; [intros <-%Ok_inj; done|]. by intros (-> & _ & _). }
  cbn [encode_loop fmap list_fmap order_from]. fold (fmap (M := list) block_kind).
  change (encoding (b :: bs)) with (raw_bytes (raw_of b) ++ encoding bs).
  rewrite block_encode_spec, (payload_len b Hb) by done. pose proof (zlen_nonneg (block_payload b)).
  assert (Hlen : zlen (raw_bytes (raw_of b)) = 3 + zlen (block_payload b)) by apply zlen_raw.
  assert (Ht : is_termination (block_kind b) = true → is_padding (block_kind b) = false).
  { unfold is_termination, is_padding. intros ->%Z.eqb_eq. done. }
  pose proof (zlen_nonneg (encoding bs)). pose proof (zlen_nonneg out).
  destruct (decide (zlen out + (3 + zlen (block_payload b)) ≤ MAX_FRAME_PLAINTEXT)) as [Hfit|Hfit].
  - destruct (_ >? _) eqn:E; breflect; [lia|]. rewrite decide_True by (unfold MAX_FRAME_PLAINTEXT, MAX_FRAME_LENGTH, AUTH_TAG_LENGTH, u16_max in *; lia).
    cbn [mbind result_bind].
    destruct (is_padding (block_kind b)) eqn:E1, pad, (is_termination (block_kind b)) eqn:E2, term; cbn [andb orb negb];
      rewrite ?IH, <- ?app_assoc by (rewrite zlen_app; lia); naive_solver.
  - destruct (_ >? _) eqn:E; breflect; [|lia].
    assert (∀ x : BlockError, Err x = Ok w ↔ w = out ++ raw_bytes (raw_of b) ++ encoding bs ∧
      negb pad && negb (term && negb (is_padding (block_kind b))) &&
      order_from (is_padding (block_kind b)) (term || is_termination (block_kind b)) (block_kind <$> bs) = true ∧
      zlen w ≤ MAX_FRAME_PLAINTEXT) as Hx.
    { intros x. split; [done|]. intros (-> & _ & Hw). rewrite !zlen_app in Hw. lia. }
    destruct (is_padding (block_kind b)) eqn:E1, pad, (is_termination (block_kind b)) eqn:E2, term; cbn [andb orb negb] in *; apply Hx.
Qed.

Lemma encode_blocks_spec bs w :
  Forall block_ok bs →
  encode_blocks bs = Ok w ↔
  zlen bs ≤ MAX_BLOCK_COUNT ∧ w = encoding bs ∧ ordered (block_kind <$> bs) ∧ zlen w ≤ MAX_FRAME_PLAINTEXT.
Proof.
  intros Hbs. unfold encode_blocks. destruct (_ >? _) eqn:E; breflect; [split; [done|lia]|].
  rewrite encode_loop_spec by done. rewrite order_from_spec. cbn [app]. naive_solver.
Qed.

Lemma parse_encoding bs :
  Forall block_ok bs → zlen bs ≤ MAX_BLOCK_COUNT → ordered (block_kind <$> bs) → zlen (encoding bs) ≤ MAX_FRAME_PLAINTEXT →
  parse_blocks sha256 ed25519_key ed25519_verify (encoding bs) = Ok (mkParsed (decoded_of <$> bs) 0).
Proof.
  intros Hbs Hn Hord Hl. unfold parse_blocks. destruct (_ >? _) eqn:E; breflect; [lia|].
  apply (loop_complete _ _ _ _ _ _ _ _ _ (raw_of <$> bs)). constructor; cbn [parsed_blocks parsed_unknown_bytes].
  - unfold encoding. by rewrite list_fmap_compose.
  - by apply encoding_raw_ok.
  - rewrite length_fmap. unfold zlen, MAX_BLOCK_COUNT in *. lia.
  - rewrite <- list_fmap_compose. by apply order_from_spec.
  - apply Forall2_fmap. apply Forall_Forall2_diag. eapply Forall_impl; [exact Hbs|]. intros b. apply decode_encoded.
  - by rewrite unknown_encoded.
  - by rewrite unknown_encoded.
Qed.
End encoding.

(** ** Properties *)

(** C11: what the data-phase parser accepts, exactly.  It accepts a plaintext if and
    only if it is at most one frame long and is a sequence of at most 256 blocks,
    ordinary blocks first, then at most one termination, then at most one
    padding, each of whose bodies decodes, with at most 4096 bytes in blocks of
    unknown type; and it returns the decoded blocks in order and the number of skipped
    bytes. *)
Theorem parse_blocks_exact sha256 ed25519_key ed25519_verify inp p (Hok : bytes_ok inp) :
  parse_blocks sha256 ed25519_key ed25519_verify inp = Ok p ↔
  zlen inp ≤ MAX_FRAME_PLAINTEXT ∧
  ∃ rs, inp = concat (raw_bytes <$> rs) ∧ Forall raw_ok rs ∧ zlen rs ≤ MAX_BLOCK_COUNT ∧ ordered rs.*1 ∧
    Forall2 (λ r d, decode_block sha256 ed25519_key ed25519_verify r.1 r.2 = Ok d) rs (parsed_blocks p) ∧
    parsed_unknown_bytes p = unknown_total rs ∧ unknown_total rs ≤ MAX_UNKNOWN_BLOCK_BYTES.
Proof.
  unfold parse_blocks. destruct (_ >? _) eqn:E; breflect.
  { split; [done|]. lia. }
  split.
  - intros Hp. destruct (loop_sound sha256 ed25519_key ed25519_verify _ inp 0 false false p Hok ltac:(by vm_compute) Hp)
      as (rs & [Hb Ho Hc Hor Hd Hun Hbu]). split; [done|]. exists rs. rewrite order_from_spec in Hor.
    split_and!; try done. unfold zlen, MAX_BLOCK_COUNT in *. lia.
  - intros (_ & rs & Hb & Ho & Hc & Hor & Hd & Hun & Hbu). apply (loop_complete _ _ _ _ _ _ _ _ _ rs).
    constructor; try done; try lia. + unfold zlen, MAX_BLOCK_COUNT in *. lia. + by apply order_from_spec.
Qed.

(** Blocks survive the wire.  The encoder accepts a list of well-built blocks
    exactly when there are at most 256, termination and padding come last in
    that order and everything fits a frame; and the parser then returns the same blocks,
    of padding its length, with nothing skipped. *)
Theorem blocks_roundtrip sha256 ed25519_key ed25519_verify bs
    (Hbs : Forall (block_ok sha256 ed25519_key ed25519_verify) bs) :
  (is_ok (encode_blocks bs) = true ↔
     zlen bs ≤ MAX_BLOCK_COUNT ∧ ordered (block_kind <$> bs) ∧ zlen (encoding bs) ≤ MAX_FRAME_PLAINTEXT) ∧
  (∀ w, encode_blocks bs = Ok w →
     w = encoding bs ∧ parse_blocks sha256 ed25519_key ed25519_verify w = Ok (mkParsed (decoded_of <$> bs) 0)).
Proof.
  pose proof (λ w, encode_blocks_spec sha256 ed25519_key ed25519_verify bs w Hbs) as Hsp. split.
  - split.
    + destruct (encode_blocks bs) as [w|]; [|done]. by destruct (proj1 (Hsp w) eq_refl) as (? & -> & ? & ?).
    + intros (H1 & H2 & H3). by rewrite (proj2 (Hsp (encoding bs))).
  - intros w (Hn & -> & Hord & Hl)%Hsp. split; [done|]. by apply parse_encoding.
Qed.

(** A termination block that was received with additional data is not encoded back to
    a valid block: the header announces the additional bytes, the encoder
    does not write them, and the parser finds the block truncated. *)
Theorem termination_reencoded sha256 ed25519_key ed25519_verify t w
    (Ha : 0 < additional_length t ≤ MAX_TERMINATION_ADDITIONAL_BYTES)
    (Hw : encode_blocks [BTermination t] = Ok w) :
  parse_blocks sha256 ed25519_key ed25519_verify w = Err BlockTruncated.
Proof.
  unfold MAX_TERMINATION_ADDITIONAL_BYTES in Ha. set (n := 9 + additional_length t).
  assert (Hw' : w = [4] ++ to_be 2 n ++ to_be 8 (valid_frames_received t) ++ [Reason.code (term_reason t)]).
  { unfold encode_blocks in Hw. cbn [encode_loop block_kind] in Hw. change (zlen [BTermination t] >? MAX_BLOCK_COUNT) with false in Hw.
    change (is_padding BLOCK_TERMINATION) with false in Hw. change (is_termination BLOCK_TERMINATION) with true in Hw. cbn [andb orb negb] in Hw.
    destruct (_ >? _) eqn:E; [done|]. unfold block_encode, block_encoded_len, BLOCK_HEADER_LENGTH, try_from in Hw.
    replace (3 + (9 + additional_length t) - 3) with n in Hw by (unfold n; lia).
    destruct (n <=? u16_max) eqn:E2; [|done]. cbn [ok_or mbind result_bind app] in Hw. by apply Ok_inj in Hw as <-. }
  assert (Hl : zlen w = 12) by (rewrite Hw', !zlen_app, !zlen_to_be; done).
  assert (Hlen : from_be (slice 1 3 w) = n).
  { rewrite Hw'. rewrite (slice_app_eq 1 3 [4]) by (by rewrite ?zlen_to_be). apply from_to_be. unfold n. cbn. lia. }
  assert (Hn : 9 < n) by (unfold n; lia). clearbody n. unfold parse_blocks. rewrite Hl. change (12 >? MAX_FRAME_PLAINTEXT) with false.
  destruct (Z.to_nat MAX_BLOCK_COUNT) as [|room] eqn:Er; [done|]. cbn [parse_loop]. rewrite Hl, Hlen. unfold BLOCK_HEADER_LENGTH.
  cbn [Z.eqb]. change (3 >? 12) with false. destruct (3 + n >? 12) eqn:E; [done|]. breflect. lia.
Qed.

(** ** Witnesses *)
Definition toy_blocks : list Block :=
  [BTimestamp 1700000000; BOptions (mkOptionsBlock 0 10 1 20 100 200 3 4 [9; 9]); BI2np (repeat 5 12);
   BTermination (termination_new 7 ClockSkew); BPadding [0; 0; 0]].
Definition block_digest (m : bytes) : bytes := to_be 32 (fold_left Z.add m 0).

Lemma blocks_roundtrip_witness :
  ∃ w, encode_blocks toy_blocks = Ok w ∧
    parse_blocks block_digest (λ _, true) (λ _ _ _, true) w = Ok (mkParsed (decoded_of <$> toy_blocks) 0).
Proof.
  exists (encoding toy_blocks).
  destruct (blocks_roundtrip block_digest (λ _, true) (λ _ _ _, true) toy_blocks) as [_ Hp].
  - repeat constructor; by vm_compute.
  - assert (E : encode_blocks toy_blocks = Ok (encoding toy_blocks)) by by vm_compute. split; [done|]. by apply Hp.
Defined.

Lemma parse_blocks_exact_witness :
  zlen (encoding toy_blocks ++ []) ≤ MAX_FRAME_PLAINTEXT ∧
  ∃ rs, encoding toy_blocks ++ [] = concat (raw_bytes <$> rs) ∧ Forall raw_ok rs ∧ zlen rs ≤ MAX_BLOCK_COUNT ∧ ordered rs.*1 ∧
    Forall2 (λ r d, decode_block block_digest (λ _, true) (λ _ _ _, true) r.1 r.2 = Ok d) rs
      (parsed_blocks (mkParsed (decoded_of <$> toy_blocks) 0)) ∧
    0 = unknown_total rs ∧ unknown_total rs ≤ MAX_UNKNOWN_BLOCK_BYTES.
Proof.
  apply (parse_blocks_exact block_digest (λ _, true) (λ _ _ _, true) (encoding toy_blocks ++ []) (mkParsed (decoded_of <$> toy_blocks) 0)).
  - apply bytes_okb. by vm_compute.
  - by vm_compute.
Defined.
