(* ===== verification/Ntcp2Frame.v ===== *)
(** * NTCP2 data frames

    Models [src/crates/i2pr-transport-ntcp2/src/frame.rs]: the sending and the receiving
    half of a data-phase connection.  A frame is the masked length of the ciphertext
    and the sealed blocks; the receiver unmasks the length, waits for that many
    bytes, authenticates them and only then parses blocks.  The properties are
    that the blocks of every frame arrive, in order and unchanged, on a
    connection whose keys come from the handshake of Ntcp2Crypto.v, and that a
    receiver that has failed once never accepts a frame again. *)
From S2P Require Import Prelude Ntcp2Crypto Ntcp2Block.

Definition MIN_FRAME_LENGTH : Z := AUTH_TAG_LENGTH.
Definition MAX_PLAINTEXT_LENGTH : Z := MAX_FRAME_PLAINTEXT.

Inductive FrameError :=
  | TruncatedLength
  | FrameInvalidLength
  | TruncatedCiphertext
  | FrameAuthenticationFailure
  | CounterExhausted
  | FrameStateViolation
  | FramePayloadTooLarge
  | FrameBlocks (error : BlockError)
  | FrameCrypto (error : Ntcp2CryptoError).

Definition map_crypto (e : Ntcp2CryptoError) : FrameError :=
  match e with
  | AuthenticationFailed => FrameAuthenticationFailure
  | NonceExhausted => CounterExhausted
  | FieldTooLarge => FramePayloadTooLarge
  | FrameLengthOutOfRange _ => FrameInvalidLength
  | other => FrameCrypto other
  end.

Definition encoded_frame_new (bs : bytes) : result FrameError bytes :=
  if negb ((2 + MIN_FRAME_LENGTH <=? zlen bs) && (zlen bs <=? MAX_WIRE_FRAME_LENGTH)) then Err FramePayloadTooLarge
  else Ok bs.

Record FrameLength := mkFrameLength { ciphertext_length : Z; plaintext_length : Z }.
Definition from_ciphertext_length (length : Z) : result FrameError FrameLength :=
  if negb ((MIN_FRAME_LENGTH <=? length) && (length <=? MAX_FRAME_LENGTH)) then Err FrameInvalidLength
  else Ok (mkFrameLength length (length - AUTH_TAG_LENGTH)).

Record FrameAssemblyPolicy := mkFramePolicy {
  maximum_frame_length : Z;
  minimum_padding : Z;
  maximum_padding : Z;
  selected_padding : Z;
  coalescing_allowed : bool;
}.
Definition frame_policy_new (maximum_frame minimum maximum selected : Z) (coalescing : bool)
    : result FrameError FrameAssemblyPolicy :=
  if negb ((MIN_FRAME_LENGTH <=? maximum_frame) && (maximum_frame <=? MAX_FRAME_LENGTH))
     || (minimum >? maximum) || (selected <? minimum) || (selected >? maximum) || (maximum >? MAX_PADDING_BYTES)
  then Err FramePayloadTooLarge
  else Ok (mkFramePolicy maximum_frame minimum maximum selected coalescing).

Record ReceivedFrame := mkReceived {
  rf_length : FrameLength;
  rf_plaintext : bytes;
  rf_termination : option TerminationBlock;
}.

Record TransmitState := mkTransmit {
  ts_cipher : CipherState;
  ts_lengths : SipHashState;
  ts_frames_sent : Z;
  ts_terminated : bool;
}.
Definition transmit_new (cipher : CipherState) (lengths : SipHashState) : TransmitState := mkTransmit cipher lengths 0 false.

Inductive ReceiveStage := StageReady | AwaitingCiphertext (length : FrameLength) | StageTerminated.
Record ReceiveState := mkReceive {
  rs_cipher : CipherState;
  rs_lengths : SipHashState;
  rs_frames_received : Z;
  rs_stage : ReceiveStage;
}.
Definition receive_new (cipher : CipherState) (lengths : SipHashState) : ReceiveState := mkReceive cipher lengths 0 StageReady.
Definition is_terminated (s : ReceiveState) : bool := match rs_stage s with StageTerminated => true | _ => false end.

Definition into_directional_states (keys : SplitKeys) : TransmitState * ReceiveState :=
  (transmit_new (split_transmit keys) (split_transmit_lengths keys),
   receive_new (split_receive keys) (split_receive_lengths keys)).

Definition rs_with_stage (stage : ReceiveStage) (s : ReceiveState) : ReceiveState :=
  mkReceive (rs_cipher s) (rs_lengths s) (rs_frames_received s) stage.

(** The first termination block of a frame. *)
Fixpoint find_termination (blocks : list DecodedBlock) : option TerminationBlock :=
  match blocks with
  | [] => None
  | DTermination t :: _ => Some t
  | _ :: blocks' => find_termination blocks'
  end.

Section frames.
Context `{P : Ntcp2Primitives} (ed25519_key : bytes → bool) (ed25519_verify : bytes → bytes → bytes → bool).
Abbreviation parse := (parse_blocks sha256 ed25519_key ed25519_verify).

(** ** Sending *)
Definition seal_plaintext (plaintext : bytes) : M TransmitState FrameError bytes := λ s,
  if ts_terminated s then (s, Err FrameStateViolation)
  else if zlen plaintext >? MAX_PLAINTEXT_LENGTH then (s, Err FramePayloadTooLarge)
  else
  match ok_or FramePayloadTooLarge (checked_add usize_max (zlen plaintext) AUTH_TAG_LENGTH) ≫=
        λ n, ok_or FramePayloadTooLarge (try_from u16_max n) with
  | Err e => (s, Err e)
  | Ok clear_length =>
  match seal plaintext [] (ts_cipher s) with
  | (c, Err e) =>
      (mkTransmit c (ts_lengths s) (ts_frames_sent s)
         (match e with NonceExhausted => true | _ => ts_terminated s end), Err (map_crypto e))
  | (c, Ok ciphertext) =>
  match obfuscate_length clear_length (ts_lengths s) with
  | (l, Err e) => (mkTransmit c l (ts_frames_sent s) (ts_terminated s), Err (map_crypto e))
  | (l, Ok obfuscated) =>
      (mkTransmit c l (saturating_add u64_max (ts_frames_sent s) 1) (ts_terminated s),
       encoded_frame_new (to_be 2 obfuscated ++ ciphertext))
  end end end.

Definition is_padding_block (d : DecodedBlock) : bool := match d with DPadding _ => true | _ => false end.

(** The plaintext of a frame: the blocks and the padding the policy selects. *)
Definition assemble (blocks : list Block) (policy : FrameAssemblyPolicy) : result FrameError bytes :=
  plaintext ← map_err FrameBlocks (encode_blocks blocks);
  plaintext ←
    (if selected_padding policy >? 0 then
       parsed ← map_err FrameBlocks (parse plaintext);
       if existsb is_padding_block (parsed_blocks parsed) then Err (FrameBlocks DuplicateBlock)
       else if zlen plaintext + 3 + selected_padding policy >? MAX_PLAINTEXT_LENGTH then Err FramePayloadTooLarge
       else Ok (plaintext ++ [BLOCK_PADDING] ++ to_be 2 (selected_padding policy mod 2 ^ 16) ++
                replicate (Z.to_nat (selected_padding policy)) 0)
     else Ok plaintext);
  let maximum_plaintext := maximum_frame_length policy - AUTH_TAG_LENGTH in
  if maximum_plaintext <? 0 then Err FramePayloadTooLarge
  else if zlen plaintext >? maximum_plaintext then Err FramePayloadTooLarge
  else Ok plaintext.

Definition seal_blocks (blocks : list Block) (policy : FrameAssemblyPolicy) : M TransmitState FrameError bytes := λ s,
  match assemble blocks policy with
  | Err e => (s, Err e)
  | Ok plaintext => seal_plaintext plaintext s
  end.

(** ** Receiving *)
Definition authenticated_plaintext_new (bs : bytes) : result FrameError bytes :=
  if zlen bs >? MAX_PLAINTEXT_LENGTH then Err FramePayloadTooLarge
  else _ ← map_err FrameBlocks (parse bs); Ok bs.

Definition decode_length (prefix : bytes) : M ReceiveState FrameError FrameLength := λ s,
  match rs_stage s with
  | StageReady =>
      let '(l, clear) := deobfuscate_length (from_be prefix) (rs_lengths s) in
      let s := mkReceive (rs_cipher s) l (rs_frames_received s) (rs_stage s) in
      match map_err map_crypto clear ≫= from_ciphertext_length with
      | Err e => (rs_with_stage StageTerminated s, Err e)
      | Ok length => (rs_with_stage (AwaitingCiphertext length) s, Ok length)
      end
  | _ => (s, Err FrameStateViolation)
  end.

Definition open_ciphertext (ciphertext : bytes) : M ReceiveState FrameError ReceivedFrame := λ s,
  match rs_stage s with
  | AwaitingCiphertext length =>
      if negb (zlen ciphertext =? ciphertext_length length)
      then (rs_with_stage StageTerminated s, Err TruncatedCiphertext)
      else
      let '(c, opened) := open ciphertext [] (rs_cipher s) in
      let s := mkReceive c (rs_lengths s) (rs_frames_received s) (rs_stage s) in
      match map_err map_crypto opened ≫= authenticated_plaintext_new with
      | Err e => (rs_with_stage StageTerminated s, Err e)
      | Ok plaintext =>
          match parse plaintext with
          | Err e => (rs_with_stage StageTerminated s, Err (FrameBlocks e))
          | Ok parsed =>
              let termination := find_termination (parsed_blocks parsed) in
              (mkReceive (rs_cipher s) (rs_lengths s) (saturating_add u64_max (rs_frames_received s) 1)
                 (match termination with Some _ => StageTerminated | None => StageReady end),
               Ok (mkReceived length plaintext termination))
          end
      end
  | _ => (s, Err FrameStateViolation)
  end.

Definition open_wire_frame (wire : bytes) : M ReceiveState FrameError ReceivedFrame := λ s,
  if zlen wire <? 2 then (rs_with_stage StageTerminated s, Err TruncatedLength)
  else
  match decode_length (slice 0 2 wire) s with
  | (s, Err e) => (s, Err e)
  | (s, Ok length) =>
      if negb (zlen wire =? 2 + ciphertext_length length) then (rs_with_stage StageTerminated s, Err TruncatedCiphertext)
      else open_ciphertext (slice 2 (zlen wire) wire) s
  end.
End frames.

(** ** Frames in step *)
Record in_sync (tx : TransmitState) (rx : ReceiveState) : Prop := {
  sy_cipher : rs_cipher rx = ts_cipher tx;
  sy_lengths : rs_lengths rx = ts_lengths tx;
  sy_nonce : 0 ≤ cs_nonce (ts_cipher tx);
  sy_ready : rs_stage rx = StageReady;
  sy_open : ts_terminated tx = false;
}.

Section in_step.
Context `{P : Ntcp2Primitives} {HL : Ntcp2Laws P} (ed25519_key : bytes → bool) (ed25519_verify : bytes → bytes → bytes → bool).
Abbreviation parse := (parse_blocks sha256 ed25519_key ed25519_verify).
Abbreviation receive := (open_wire_frame ed25519_key ed25519_verify).

Lemma clear_length_ok n :
  0 ≤ n ≤ MAX_PLAINTEXT_LENGTH →
  (ok_or FramePayloadTooLarge (checked_add usize_max n AUTH_TAG_LENGTH) ≫=
     λ n, ok_or FramePayloadTooLarge (try_from u16_max n)) = Ok (n + AUTH_TAG_LENGTH).
Proof.
  unfold MAX_PLAINTEXT_LENGTH, MAX_FRAME_PLAINTEXT, MAX_FRAME_LENGTH, AUTH_TAG_LENGTH. intros Hn.
  unfold checked_add. destruct (_ <=? usize_max) eqn:E; breflect; [|unfold usize_max in *; lia].
  cbn [ok_or mbind result_bind]. unfold try_from. destruct (_ <=? u16_max) eqn:E2; breflect; [done|]. unfold u16_max in *. lia.
Qed.

(** One frame: what the sender seals the receiver opens, and both move on. *)
Lemma frame_step plaintext p tx rx :
  in_sync tx rx → cs_nonce (ts_cipher tx) ≤ MAX_NONCE → zlen plaintext ≤ MAX_PLAINTEXT_LENGTH → parse plaintext = Ok p →
  find_termination (parsed_blocks p) = None →
  ∃ tx' rx' wire, seal_plaintext plaintext tx = (tx', Ok wire) ∧
    receive wire rx = (rx', Ok (mkReceived (mkFrameLength (zlen plaintext + AUTH_TAG_LENGTH) (zlen plaintext)) plaintext None)) ∧
    in_sync tx' rx' ∧ cs_nonce (ts_cipher tx') = cs_nonce (ts_cipher tx) + 1.
Proof.
  intros [Hc Hl Hn Hr Ho] Hmax Hp Hparse Hterm. pose proof (zlen_nonneg plaintext).
  destruct (seal_open plaintext [] (ts_cipher tx) (conj Hn Hmax) Hp) as (ct & Hs & Hopen & Hctl).
  assert (Hb : AUTH_TAG_LENGTH ≤ zlen ct ≤ u16_max).
  { rewrite Hctl. unfold MAX_PLAINTEXT_LENGTH, MAX_FRAME_PLAINTEXT, MAX_FRAME_LENGTH, AUTH_TAG_LENGTH, u16_max in *. lia. }
  destruct (length_roundtrip (zlen ct) (ts_lengths tx)) as (l & wire & Hob & Hde & Hw); [done|].
  set (c' := mkCipher _ _) in *. exists (mkTransmit c' l (saturating_add u64_max (ts_frames_sent tx) 1) false),
    (mkReceive c' l (saturating_add u64_max (rs_frames_received rx) 1) StageReady), (to_be 2 wire ++ ct).
  assert (Hwl : zlen (to_be 2 wire ++ ct) = 2 + zlen ct) by (rewrite zlen_app, zlen_to_be; done).
  split_and!; [| |by constructor; cbn; try done; unfold c'; cbn; lia|done].
  - unfold seal_plaintext. rewrite Ho. destruct (_ >? _) eqn:E; breflect; [lia|]. rewrite clear_length_ok by lia.
    rewrite Hs, <- Hctl, Hob. f_equal. unfold encoded_frame_new. rewrite Hwl. unfold MIN_FRAME_LENGTH, MAX_WIRE_FRAME_LENGTH, MAX_FRAME_LENGTH.
    rewrite (proj2 (Z.leb_le (2 + AUTH_TAG_LENGTH) _)), (proj2 (Z.leb_le _ (65535 + 2))) by (unfold u16_max in *; lia). done.
  - unfold open_wire_frame. rewrite Hwl. destruct (_ <? 2) eqn:E; breflect; [unfold AUTH_TAG_LENGTH in *; lia|].
    unfold decode_length. rewrite Hr, slice_app_start, from_to_be, Hl, Hde by (rewrite ?zlen_to_be; done). cbn [map_err mbind result_bind].
    unfold from_ciphertext_length, MIN_FRAME_LENGTH, MAX_FRAME_LENGTH.
    rewrite (proj2 (Z.leb_le AUTH_TAG_LENGTH _)), (proj2 (Z.leb_le _ 65535)) by (unfold u16_max in *; lia). cbn [negb andb ciphertext_length].
    rewrite Z.eqb_refl. cbn [negb]. rewrite slice_app_end by (rewrite ?zlen_to_be; done || lia).
    unfold open_ciphertext. cbn [rs_with_stage rs_stage rs_cipher rs_lengths rs_frames_received ciphertext_length].
    rewrite Z.eqb_refl, Hc. cbn [negb]. rewrite Hopen. cbn [map_err mbind result_bind]. unfold authenticated_plaintext_new.
    destruct (_ >? _) eqn:E2; breflect; [lia|]. rewrite Hparse. cbn [map_err mbind result_bind]. rewrite Hparse, Hterm.
    replace (zlen ct - AUTH_TAG_LENGTH) with (zlen plaintext) by lia. by rewrite Hctl.
Qed.

Abbreviation message := (list Block * FrameAssemblyPolicy)%type.

(** Well-built blocks without a termination, and one block fewer than the limit when
    the policy adds padding. *)
Record sendable (m : message) : Prop := {
  sd_blocks : Forall (block_ok sha256 ed25519_key ed25519_verify) m.1;
  sd_no_termination : Forall (λ b, block_kind b ≠ BLOCK_TERMINATION) m.1;
  sd_padding : 0 ≤ selected_padding m.2;
  sd_room : 0 < selected_padding m.2 → zlen m.1 < MAX_BLOCK_COUNT;
}.

Definition padding_of (m : message) : list Block :=
  if selected_padding m.2 >? 0 then [BPadding (replicate (Z.to_nat (selected_padding m.2)) 0)] else [].
Definition expected (m : message) : list DecodedBlock := decoded_of <$> (m.1 ++ padding_of m).

Lemma encoding_app bs1 bs2 : encoding (bs1 ++ bs2) = encoding bs1 ++ encoding bs2.
Proof. unfold encoding. by rewrite fmap_app, concat_app. Qed.

Lemma no_padding_block bs : existsb is_padding_block (decoded_of <$> bs) = false → Forall (λ b, block_kind b ≠ BLOCK_PADDING) bs.
Proof.
  induction bs as [|b bs IH]; [constructor|]. cbn. intros Hb. apply orb_false_iff in Hb as [H1 H2].
  constructor; [by destruct b|by apply IH].
Qed.

Lemma ordered_snoc_padding kinds :
  ordered kinds → Forall (λ k, k ≠ BLOCK_PADDING) kinds → ordered (kinds ++ [BLOCK_PADDING]).
Proof.
  intros (main & term & pad & -> & Hm & Ht & Hp) Hall. apply Forall_app in Hall as [_ Hall]. apply Forall_app in Hall as [_ Hall].
  destruct Hp as [->| ->]; [|by apply Forall_cons in Hall as [? _]].
  exists main, term, [BLOCK_PADDING]. rewrite app_nil_r, <- app_assoc. auto.
Qed.

Lemma find_termination_none bs : Forall (λ b, block_kind b ≠ BLOCK_TERMINATION) bs → find_termination (decoded_of <$> bs) = None.
Proof. induction 1 as [|b bs Hb _ IH]; [done|]. cbn. destruct b; cbn in *; try done. Qed.

(** A plaintext that the sender assembles is a frame the receiver understands. *)
Lemma assemble_parses m plaintext :
  sendable m → assemble ed25519_key ed25519_verify m.1 m.2 = Ok plaintext →
  zlen plaintext ≤ MAX_PLAINTEXT_LENGTH ∧ parse plaintext = Ok (mkParsed (expected m) 0) ∧
  find_termination (expected m) = None.
Proof.
  intros [Hb Ht Hp0 Hroom] Ha. unfold assemble in Ha. unfold expected, padding_of, MAX_PLAINTEXT_LENGTH in *. pose proof (find_termination_none _ Ht).
  destruct (encode_blocks m.1) as [w|] eqn:Ew; [|done]. cbn [map_err mbind result_bind] in Ha.
  apply (encode_blocks_spec sha256 ed25519_key ed25519_verify) in Ew as (Hn & -> & Hord & Hl); [|done].
  pose proof (parse_encoding sha256 ed25519_key ed25519_verify m.1 Hb Hn Hord Hl) as Hparse.
  destruct (selected_padding m.2 >? 0) eqn:Esel; breflect.
  2:{ cbn [mbind result_bind] in Ha. destruct (_ <? 0); [done|]. destruct (_ >? _); [done|]. apply Ok_inj in Ha as <-.
      by rewrite app_nil_r. }
  rewrite Hparse in Ha. cbn [map_err mbind result_bind parsed_blocks] in Ha.
  destruct (existsb _ _) eqn:Epad; [done|]. destruct (_ >? MAX_FRAME_PLAINTEXT) eqn:Esz; breflect; [done|]. cbn [mbind result_bind] in Ha.
  destruct (_ <? 0); [done|]. destruct (_ >? _); [done|]. apply Ok_inj in Ha as <-.
  set (zeros := replicate (Z.to_nat (selected_padding m.2)) 0) in *.
  assert (Hz : zlen zeros = selected_padding m.2) by (unfold zeros, zlen; rewrite length_replicate; lia).
  assert (Henc : encoding m.1 ++ [BLOCK_PADDING] ++ to_be 2 (selected_padding m.2 mod 2 ^ 16) ++ zeros = encoding (m.1 ++ [BPadding zeros])).
  { rewrite encoding_app. f_equal. unfold encoding. cbn [fmap list_fmap concat compose]. rewrite app_nil_r. unfold raw_bytes.
    cbn [raw_of fst snd block_kind block_payload]. rewrite Hz. rewrite Z.mod_small; [done|]. pose proof (zlen_nonneg (encoding m.1)).
    unfold MAX_FRAME_PLAINTEXT, MAX_FRAME_LENGTH, AUTH_TAG_LENGTH in *. lia. }
  rewrite Henc. assert (Hlen : zlen (encoding (m.1 ++ [BPadding zeros])) = zlen (encoding m.1) + 3 + selected_padding m.2).
  { rewrite <- Henc, !zlen_app, zlen_to_be, Hz. change (zlen [BLOCK_PADDING]) with 1. lia. }
  rewrite Hlen. split; [lia|]. split.
  - apply parse_encoding; [apply Forall_app; split; [done|by repeat constructor]|rewrite zlen_app; change (zlen [_]) with 1; lia| |lia].
    rewrite fmap_app. apply ordered_snoc_padding; [done|]. apply Forall_fmap. by apply no_padding_block.
  - apply find_termination_none, Forall_app. split; [done|]. by repeat constructor.
Qed.

(** ** A connection *)
Definition accepted (m : message) : bool := is_ok (assemble ed25519_key ed25519_verify m.1 m.2).

Fixpoint send_all (ms : list message) (tx : TransmitState) : list (result FrameError bytes) :=
  match ms with
  | [] => []
  | m :: ms' =>
      let '(tx', r) := seal_blocks ed25519_key ed25519_verify m.1 m.2 tx in r :: send_all ms' tx'
  end.

(** The blocks a receiver reads from the frames it is given. *)
Definition blocks_of (r : result FrameError ReceivedFrame) : option (list DecodedBlock) :=
  match r with
  | Ok f => match parse (rf_plaintext f) with Ok p => Some (parsed_blocks p) | Err _ => None end
  | Err _ => None
  end.
Fixpoint receive_all (wires : list bytes) (rx : ReceiveState) : list (option (list DecodedBlock)) :=
  match wires with
  | [] => []
  | w :: wires' => let '(rx', r) := receive w rx in blocks_of r :: receive_all wires' rx'
  end.

Definition sent (r : result FrameError bytes) : option bytes := match r with Ok w => Some w | Err _ => None end.

(** Every message the sender accepts arrives, in order and unchanged. *)
Definition delivers (tx : TransmitState) (rx : ReceiveState) : Prop :=
  ∀ ms, Forall sendable ms → zlen ms ≤ MAX_NONCE →
    is_ok <$> send_all ms tx = accepted <$> ms ∧
    receive_all (omap sent (send_all ms tx)) rx = Some ∘ expected <$> filter (λ m, accepted m = true) ms.

Lemma sync_delivers ms tx rx :
  in_sync tx rx → Forall sendable ms → cs_nonce (ts_cipher tx) + zlen ms ≤ MAX_NONCE + 1 →
  is_ok <$> send_all ms tx = accepted <$> ms ∧
  receive_all (omap sent (send_all ms tx)) rx = Some ∘ expected <$> filter (λ m, accepted m = true) ms.
Proof.
  intros Hs Hms. revert tx rx Hs. induction Hms as [|m ms Hm _ IH]; intros tx rx Hs Hn; [done|].
  rewrite zlen_cons in Hn. pose proof (zlen_nonneg ms). cbn [send_all]. unfold seal_blocks.
  destruct (assemble ed25519_key ed25519_verify m.1 m.2) as [plaintext|e] eqn:Ea.
  - destruct (assemble_parses m plaintext Hm Ea) as (Hl & Hp & Ht).
    destruct (frame_step plaintext _ tx rx Hs ltac:(lia) Hl Hp Ht) as (tx' & rx' & wire & -> & Hrx & Hs' & Hnn).
    destruct (IH tx' rx' Hs' ltac:(lia)) as [IH1 IH2]. cbn [fmap list_fmap is_ok omap list_omap sent receive_all].
    rewrite Hrx. cbn [blocks_of rf_plaintext]. rewrite Hp. split.
    + unfold accepted at 1. rewrite Ea. cbn. f_equal. exact IH1.
    + rewrite filter_cons_True by (unfold accepted; by rewrite Ea). cbn [fmap list_fmap]. f_equal. exact IH2.
  - destruct (IH tx rx Hs ltac:(lia)) as [IH1 IH2]. cbn [fmap list_fmap is_ok omap list_omap sent]. split.
    + unfold accepted at 1. rewrite Ea. cbn. f_equal. exact IH1.
    + rewrite filter_cons_False by (unfold accepted; by rewrite Ea). exact IH2.
Qed.
End in_step.

(** ** Properties *)
Section crossed_keys.
Context `{P : Ntcp2Primitives} {HL : Ntcp2Laws P}.

Lemma crossed_sync a b :
  crossed a b → fresh_keys a →
  in_sync (into_directional_states a).1 (into_directional_states b).2 ∧
  in_sync (into_directional_states b).1 (into_directional_states a).2.
Proof.
  intros (H1 & H2 & H3 & H4) [F1 F2]. split; constructor; cbn; try done.
  - by rewrite F1.
  - by rewrite H1, F2.
Qed.
End crossed_keys.

(** C10: an NTCP2 session delivers.  After a handshake over an honest network, each
    side's sending half and the other side's receiving half are in step.  Take up to
    2^64 - 2 messages of well-built blocks, with no Termination block among them (one
    would end the session) and, where the policy of a message adds padding, fewer than 256
    blocks (the sender does not count the padding block, and the receiver refuses 257):
    sealing succeeds exactly for those that can be assembled within the
    policy, and the other side reads exactly the blocks of those frames, in order, with
    the padding the policy added. *)
Theorem session_delivers (P : Ntcp2Primitives) ed25519_key ed25519_verify
    responder_static eph_i eph_r es ee se options1 pad1 options2 pad2 static_i payload
    (HL : Ntcp2Laws P) (Ho1 : zlen options1 ≤ MAX_FRAME_PLAINTEXT) (Ho2 : zlen options2 ≤ MAX_FRAME_PLAINTEXT)
    (Hp1 : zlen pad1 ≤ 880) (Hp2 : zlen pad2 ≤ 880)
    (Hst : zlen static_i = KEY_LENGTH) (Hkey : public_key_new static_i = Ok static_i)
    (Hpl : zlen payload ≤ MAX_FRAME_PLAINTEXT) :
  ∃ ex, exchange responder_static eph_i eph_r es ee se options1 pad1 options2 pad2 static_i payload = Ok ex ∧
    delivers ed25519_key ed25519_verify (into_directional_states (ex_initiator ex)).1
      (into_directional_states (ex_responder ex)).2 ∧
    delivers ed25519_key ed25519_verify (into_directional_states (ex_responder ex)).1
      (into_directional_states (ex_initiator ex)).2.
Proof.
  destruct (exchange_crossed P responder_static eph_i eph_r es ee se options1 pad1 options2 pad2 static_i payload)
    as (ki & kr & Hex & Hx & Hf); [done..|].
  destruct (crossed_sync ki kr Hx Hf) as [Hs1 Hs2]. eexists. split; [exact Hex|]. cbn [ex_initiator ex_responder].
  destruct Hx as (H1 & _), Hf as [F1 F2].
  split; intros ms Hms Hn; apply sync_delivers; try done; cbn; [rewrite F1|rewrite H1, F2]; unfold MAX_NONCE in *; lia.
Qed.

(** ** Failing closed *)
Section fail_closed.
Context `{P : Ntcp2Primitives} (ed25519_key : bytes → bool) (ed25519_verify : bytes → bytes → bytes → bool).
Abbreviation receive := (open_wire_frame ed25519_key ed25519_verify).

Fixpoint receive_results (wires : list bytes) (rx : ReceiveState) : list (result FrameError ReceivedFrame) :=
  match wires with
  | [] => []
  | w :: wires' => let '(rx', r) := receive w rx in r :: receive_results wires' rx'
  end.

(** Between frames a receiver is ready or terminated. *)
Definition at_rest (rx : ReceiveState) : Prop := rs_stage rx = StageReady ∨ rs_stage rx = StageTerminated.

Lemma open_ciphertext_stage ct length rx rx' r :
  rs_stage rx = AwaitingCiphertext length → open_ciphertext ed25519_key ed25519_verify ct rx = (rx', r) →
  match r with
  | Ok f => rs_stage rx' = (match rf_termination f with Some _ => StageTerminated | None => StageReady end) ∧
            rs_frames_received rx' = saturating_add u64_max (rs_frames_received rx) 1
  | Err _ => rs_stage rx' = StageTerminated ∧ rs_frames_received rx' = rs_frames_received rx
  end.
Proof.
  intros Hs. unfold open_ciphertext. rewrite Hs. destruct (negb _); [by intros [= <- <-]|].
  destruct (open _ _ _) as [c opened]. destruct (map_err map_crypto opened ≫= _) as [pt|e]; [|by intros [= <- <-]].
  destruct (parse_blocks _ _ _ pt) as [p|e]; by intros [= <- <-].
Qed.

Lemma receive_stage w rx rx' r :
  at_rest rx → receive w rx = (rx', r) →
  match r with
  | Ok f => rs_stage rx = StageReady ∧
            rs_stage rx' = (match rf_termination f with Some _ => StageTerminated | None => StageReady end) ∧
            rs_frames_received rx' = saturating_add u64_max (rs_frames_received rx) 1
  | Err _ => rs_stage rx' = StageTerminated ∧ rs_frames_received rx' = rs_frames_received rx
  end.
Proof.
  intros Hr. unfold open_wire_frame. destruct (_ <? 2); [by intros [= <- <-]|]. unfold decode_length.
  destruct Hr as [Hr|Hr]; rewrite Hr; [|by intros [= <- <-]].
  destruct (deobfuscate_length _ _) as [l clear]. destruct (map_err map_crypto clear ≫= _) as [length|e]; [|by intros [= <- <-]].
  destruct (negb _); [by intros [= <- <-]|]. intros Ho.
  apply (open_ciphertext_stage _ length) in Ho; [|done]. by destruct r.
Qed.

Lemma terminated_results wires rx :
  rs_stage rx = StageTerminated → Forall (λ r, is_ok r = false) (receive_results wires rx).
Proof.
  revert rx. induction wires as [|w wires IH]; intros rx Hr; cbn [receive_results]; [constructor|].
  destruct (receive w rx) as [rx' r] eqn:E. pose proof (receive_stage w rx rx' r (or_intror Hr) E) as Hst.
  destruct r as [f|e]; [by destruct Hst as [Hst _]; rewrite Hr in Hst|]. constructor; [done|]. by apply IH, Hst.
Qed.

Definition ends (r : result FrameError ReceivedFrame) : bool :=
  match r with Ok f => match rf_termination f with Some _ => true | None => false end | Err _ => true end.

Lemma results_shape wires rx :
  at_rest rx →
  ∃ good rest, receive_results wires rx = good ++ rest ∧ Forall (λ r, ends r = false) good ∧
    match rest with [] => True | r :: bad => ends r = true ∧ Forall (λ r, is_ok r = false) bad end.
Proof.
  revert rx. induction wires as [|w wires IH]; intros rx Hr; cbn [receive_results].
  { exists [], []. auto. }
  destruct (receive w rx) as [rx' r] eqn:E. pose proof (receive_stage w rx rx' r Hr E) as Hst.
  destruct (ends r) eqn:Er.
  - exists [], (r :: receive_results wires rx'). split_and!; [done|constructor|done|]. apply terminated_results.
    destruct r as [f|e]; cbn in Er; [destruct Hst as (_ & -> & _); by destruct (rf_termination f)|by destruct Hst].
  - destruct r as [f|e]; [|done]. cbn in Er. destruct Hst as (_ & Hs & _).
    destruct (IH rx') as (good & rest & -> & Hg & Hb); [left; by destruct (rf_termination f)|].
    exists (Ok f :: good), rest. split_and!; [done|by constructor|done].
Qed.
End fail_closed.

(** C16: a receiver fails closed.  Whatever bytes are fed to a new receiver as frames,
    honest or not, its answers are frames without a termination, then at most one
    frame with a termination or one error, and errors for ever after: no
    frame is accepted behind a bad length, a failed authentication, a malformed block
    sequence or a termination. *)
Theorem receiver_fails_closed (P : Ntcp2Primitives) ed25519_key ed25519_verify cipher lengths wires :
  ∃ good rest, receive_results ed25519_key ed25519_verify wires (receive_new cipher lengths) = good ++ rest ∧
    Forall (λ r, ends r = false) good ∧
    match rest with [] => True | r :: bad => ends r = true ∧ Forall (λ r, is_ok r = false) bad end.
Proof. apply results_shape. by left. Qed.

(** ** Witnesses *)
Definition toy_key (bs : bytes) : bool := true.
Definition toy_verify (key message signature : bytes) : bool := true.
Lemma session_delivers_witness :
  ∃ ex, exchange (H := toy_primitives) (repeat 1 32) (repeat 2 32) (repeat 3 32) [4] [5] [6] [7; 8] [9] [10] [] (repeat 11 32) [12; 13] = Ok ex ∧
    delivers (P := toy_primitives) toy_key toy_verify (into_directional_states (ex_initiator ex)).1
      (into_directional_states (ex_responder ex)).2 ∧
    delivers (P := toy_primitives) toy_key toy_verify (into_directional_states (ex_responder ex)).1
      (into_directional_states (ex_initiator ex)).2.
Proof.
  by apply (session_delivers toy_primitives toy_key toy_verify _ _ _ _ _ _ _ _ _ _ _ _ toy_laws).
Defined.

Definition toy_cipher : CipherState := cipher_new (repeat 4 32).
Definition toy_lengths : SipHashState := sip_new (repeat 5 32).
Definition toy_policy : FrameAssemblyPolicy := mkFramePolicy 4096 0 16 5 true.

(** Two frames over a toy connection, the second not sendable: the first arrives
    with its padding. *)
Example toy_connection :
  let tx := transmit_new toy_cipher toy_lengths in
  let rx := receive_new toy_cipher toy_lengths in
  let ms := [([BTimestamp 9; BI2np (repeat 5 12)], toy_policy); ([BPadding [1]], toy_policy)] in
  receive_all (P := toy_primitives) toy_key toy_verify (omap sent (send_all (P := toy_primitives) toy_key toy_verify ms tx)) rx =
    [Some [DTimestamp 9; DI2np (repeat 5 12); DPadding 5]].
Proof. by vm_compute. Qed.

(** A frame of 256 blocks to which the policy adds padding is sealed, and its
    receiver counts 257 blocks, refuses the frame and ends the connection. *)
Theorem full_frame_padding_rejected :
  let blocks := replicate 256 (BTimestamp 9) in
  let '(_, sealed) := seal_blocks (P := toy_primitives) toy_key toy_verify blocks toy_policy (transmit_new toy_cipher toy_lengths) in
  match sealed with
  | Ok wire =>
      let '(rx, answer) := open_wire_frame (P := toy_primitives) toy_key toy_verify wire (receive_new toy_cipher toy_lengths) in
      answer = Err (FrameBlocks ExcessiveBlockCount) ∧ is_terminated rx = true
  | Err _ => False
  end.
Proof. by vm_compute. Qed.
