(* ===== verification/Ntcp2Handshake.v ===== *)
(** * The NTCP2 handshake messages

    Models [i2pr-transport-ntcp2/src/handshake.rs]: the options blocks, the
    three messages, the payload of the third, the clock-skew policy, the replay
    tokens, and the check of the RouterInfo a peer presents; [validate_peer] of
    [block.rs], which repeats that check during a session; and the replay cache
    of [i2pr-runtime/src/ntcp2_runtime.rs]. *)
From stdpp Require Import sorting.
From S2P Require Import Prelude Digits Utf8 Codec Common Identity Mapping RouterInfo NetValidate I2np Ntcp2Crypto Ntcp2Block.

Definition OPTION_BLOCK_LENGTH : Z := 16.
Definition MAX_SESSION_CONFIRMED_PART2 : Z := 65487.
Definition MAX_SESSION_CONFIRMED_PART2_PLAINTEXT : Z := 65471.
Definition HANDSHAKE_EPHEMERAL_LENGTH : Z := KEY_LENGTH.
Definition HANDSHAKE_OPTIONS_FRAME_LENGTH : Z := OPTION_BLOCK_LENGTH + AUTH_TAG_LENGTH.
Definition MIN_HANDSHAKE_MESSAGE_LENGTH : Z := HANDSHAKE_EPHEMERAL_LENGTH + HANDSHAKE_OPTIONS_FRAME_LENGTH.
Definition SESSION_CONFIRMED_PART1_LENGTH : Z := KEY_LENGTH + AUTH_TAG_LENGTH.
Definition MAX_HANDSHAKE_MESSAGE_LENGTH : Z := MAX_FRAME_LENGTH.
Definition MAX_SESSION_CONFIRMED_LENGTH : Z := MAX_FRAME_LENGTH.
Definition MAX_ROUTER_INFO_PAYLOAD : Z := 64 * 1024.
Definition MAX_CONFIRMED_OPTIONS : Z := 4 * 1024.
Definition MAX_HANDSHAKE_ACTIONS : Z := 32.
Definition MAX_HANDSHAKE_BUFFERED_INPUT : Z := MAX_SESSION_CONFIRMED_LENGTH.
Definition NTCP2_VERSION : Z := 2.

Inductive HandshakeError :=
  | HsTruncated
  | HsInvalidFixedLength
  | HsExcessivePadding
  | HsMalformedOptions
  | HsDeobfuscationFailure
  | HsAuthenticationFailure
  | HsTranscriptMismatch
  | HsInvalidKeyAgreement
  | HsWrongNetwork
  | HsStaleTimestamp
  | HsFutureTimestamp
  | HsReplayDetected
  | HsReplayCacheUnavailable
  | HsPeerIdentityMismatch
  | HsTransportStaticKeyMismatch
  | HsRouterInfoMalformed
  | HsRouterInfoSignatureInvalid
  | HsUnsupportedPeerKey
  | HsStateViolation
  | HsCancelled
  | HsDeadlineExpired
  | HsDisconnected
  | HsLocalPolicyDenied
  | HsCodec (error : CodecError)
  | HsCrypto (error : Ntcp2CryptoError).

Definition hs_from_crypto (e : CryptoError) : HandshakeError :=
  match e with
  | InvalidSignature => HsRouterInfoSignatureInvalid
  | UnsupportedAlgorithm _ _ | InvalidKey _ => HsUnsupportedPeerKey
  | AllZeroSharedSecret => HsInvalidKeyAgreement
  | Protocol _ => HsRouterInfoMalformed
  | RandomnessUnavailable | NetDbReplyAeadFailed => HsLocalPolicyDenied
  end.

Definition map_router_info_codec (e : CodecError) : HandshakeError :=
  match e with Unsupported _ _ _ => HsUnsupportedPeerKey | _ => HsRouterInfoMalformed end.

(** ** Reading at an offset *)
Definition checked_range (inp : bytes) (length : Z) : M Z HandshakeError bytes := λ offset,
  match checked_add usize_max offset length with
  | None => (offset, Err HsInvalidFixedLength)
  | Some stop => if stop <=? zlen inp then (stop, Ok (slice offset stop inp)) else (offset, Err HsTruncated)
  end.
Definition get_u8 (inp : bytes) : M Z HandshakeError Z := b ← checked_range inp 1; mret (from_be b).
Definition get_u16 (inp : bytes) : M Z HandshakeError Z := b ← checked_range inp 2; mret (from_be b).
Definition get_u32 (inp : bytes) : M Z HandshakeError Z := b ← checked_range inp 4; mret (from_be b).

(** ** Options *)
Record SessionRequestOptions := mkRequestOptions {
  ro_network_id : Z;
  ro_version : Z;
  ro_padding_length : Z;
  ro_part2_length : Z;
  ro_timestamp : Z;
}.

Definition part2_in_range (length : Z) : bool :=
  (AUTH_TAG_LENGTH <=? length) && (length <=? MAX_SESSION_CONFIRMED_PART2).

Definition request_options_new (network_id padding_length part2_length timestamp : Z)
    : result HandshakeError SessionRequestOptions :=
  timestamp ← ok_or HsMalformedOptions (try_from u32_max timestamp);
  padding_length ← ok_or HsExcessivePadding (try_from u16_max padding_length);
  frame_length ← ok_or HsInvalidFixedLength (try_from u16_max part2_length);
  if negb (part2_in_range part2_length) then Err HsInvalidFixedLength
  else Ok (mkRequestOptions network_id NTCP2_VERSION padding_length frame_length timestamp).

Definition request_options_encode (o : SessionRequestOptions) : bytes :=
  [ro_network_id o; ro_version o] ++ to_be 2 (ro_padding_length o) ++ to_be 2 (ro_part2_length o) ++
  [0; 0] ++ to_be 4 (ro_timestamp o) ++ [0; 0; 0; 0].

Definition request_options_read (inp : bytes) : M Z HandshakeError SessionRequestOptions :=
  network_id ← get_u8 inp;
  version ← get_u8 inp;
  padding_length ← get_u16 inp;
  part2_length ← get_u16 inp;
  reserved ← get_u16 inp;
  if negb (reserved =? 0) then fail HsMalformedOptions
  else
  timestamp ← get_u32 inp;
  reserved ← get_u32 inp;
  if negb (reserved =? 0) || negb (version =? NTCP2_VERSION) then fail HsMalformedOptions
  else if negb (part2_in_range part2_length) then fail HsInvalidFixedLength
  else mret (mkRequestOptions network_id version padding_length part2_length timestamp).
Definition request_options_decode (inp : bytes) : result HandshakeError SessionRequestOptions :=
  if negb (zlen inp =? OPTION_BLOCK_LENGTH) then Err HsInvalidFixedLength
  else (request_options_read inp 0).2.

Record SessionCreatedOptions := mkCreatedOptions { co_padding_length : Z; co_timestamp : Z }.

Definition created_options_new (padding_length timestamp : Z) : result HandshakeError SessionCreatedOptions :=
  padding_length ← ok_or HsExcessivePadding (try_from u16_max padding_length);
  timestamp ← ok_or HsMalformedOptions (try_from u32_max timestamp);
  Ok (mkCreatedOptions padding_length timestamp).

Definition created_options_encode (o : SessionCreatedOptions) : bytes :=
  [0; 0] ++ to_be 2 (co_padding_length o) ++ [0; 0; 0; 0] ++ to_be 4 (co_timestamp o) ++ [0; 0; 0; 0].

Definition created_options_read (inp : bytes) : M Z HandshakeError SessionCreatedOptions :=
  reserved ← get_u16 inp;
  if negb (reserved =? 0) then fail HsMalformedOptions
  else
  padding_length ← get_u16 inp;
  reserved ← get_u16 inp;
  if negb (reserved =? 0) then fail HsMalformedOptions
  else
  reserved ← get_u16 inp;
  if negb (reserved =? 0) then fail HsMalformedOptions
  else
  timestamp ← get_u32 inp;
  reserved ← get_u32 inp;
  if negb (reserved =? 0) then fail HsMalformedOptions
  else mret (mkCreatedOptions padding_length timestamp).
Definition created_options_decode (inp : bytes) : result HandshakeError SessionCreatedOptions :=
  if negb (zlen inp =? OPTION_BLOCK_LENGTH) then Err HsInvalidFixedLength
  else (created_options_read inp 0).2.

(** ** Messages

    SessionRequest and SessionCreated have the same fields and differ in the
    padding they allow. *)
Record HandshakeMessage := mkMessage {
  msg_encrypted_ephemeral : bytes;
  msg_encrypted_options : bytes;
  msg_padding : bytes;
}.
Definition message_encoded_len (m : HandshakeMessage) : Z :=
  HANDSHAKE_EPHEMERAL_LENGTH + zlen (msg_encrypted_options m) + zlen (msg_padding m).
Definition message_encode (m : HandshakeMessage) : bytes :=
  msg_encrypted_ephemeral m ++ msg_encrypted_options m ++ msg_padding m.

Definition message_new (maximum_padding : Z) (encrypted_ephemeral encrypted_options padding : bytes)
    : result HandshakeError HandshakeMessage :=
  if negb (zlen encrypted_options =? HANDSHAKE_OPTIONS_FRAME_LENGTH) then Err HsInvalidFixedLength
  else if zlen padding >? maximum_padding then Err HsExcessivePadding
  else
  let message := mkMessage encrypted_ephemeral encrypted_options padding in
  if message_encoded_len message >? MAX_HANDSHAKE_MESSAGE_LENGTH then Err HsInvalidFixedLength else Ok message.

Definition message_read (maximum_padding : Z) (inp : bytes) : M Z HandshakeError HandshakeMessage :=
  encrypted_ephemeral ← checked_range inp KEY_LENGTH;
  encrypted_options ← checked_range inp HANDSHAKE_OPTIONS_FRAME_LENGTH;
  padding ← gets (λ offset, slice offset (zlen inp) inp);
  lift (message_new maximum_padding encrypted_ephemeral encrypted_options padding).
Definition message_decode (maximum_padding : Z) (inp : bytes) (maximum : Z) : result HandshakeError HandshakeMessage :=
  if zlen inp <? MIN_HANDSHAKE_MESSAGE_LENGTH then Err HsTruncated
  else if (zlen inp >? maximum) || (zlen inp >? MAX_HANDSHAKE_MESSAGE_LENGTH) then Err HsInvalidFixedLength
  else (message_read maximum_padding inp 0).2.

Definition session_request_new := message_new MAX_SESSION_REQUEST_PADDING.
Definition session_request_decode := message_decode MAX_SESSION_REQUEST_PADDING.
Definition session_created_new := message_new MAX_SESSION_CREATED_PADDING.
Definition session_created_decode := message_decode MAX_SESSION_CREATED_PADDING.

Record SessionConfirmed := mkConfirmed { sc_static_frame : bytes; sc_payload_frame : bytes }.

Definition session_confirmed_new (static_frame payload_frame : bytes) : result HandshakeError SessionConfirmed :=
  if negb (zlen static_frame =? SESSION_CONFIRMED_PART1_LENGTH) || negb (part2_in_range (zlen payload_frame))
  then Err HsInvalidFixedLength
  else
  total ← ok_or HsInvalidFixedLength (checked_add usize_max (zlen static_frame) (zlen payload_frame));
  if total >? MAX_SESSION_CONFIRMED_LENGTH then Err HsInvalidFixedLength
  else Ok (mkConfirmed static_frame payload_frame).

Definition session_confirmed_decode (inp : bytes) (expected_part2_length maximum : Z) : result HandshakeError SessionConfirmed :=
  if (zlen inp >? maximum) || (zlen inp >? MAX_SESSION_CONFIRMED_LENGTH) then Err HsInvalidFixedLength
  else
  expected ← ok_or HsInvalidFixedLength (checked_add usize_max SESSION_CONFIRMED_PART1_LENGTH expected_part2_length);
  if negb (zlen inp =? expected) then Err (if zlen inp <? expected then HsTruncated else HsInvalidFixedLength)
  else session_confirmed_new (slice 0 SESSION_CONFIRMED_PART1_LENGTH inp)
         (slice SESSION_CONFIRMED_PART1_LENGTH (zlen inp) inp).

Definition session_confirmed_encode (m : SessionConfirmed) : bytes := sc_static_frame m ++ sc_payload_frame m.

(** ** The payload of SessionConfirmed *)
Record ConfirmedPayload := mkPayload {
  cp_router_info : bytes;
  cp_options : option bytes;
  cp_padding : option bytes;
}.

Definition block_size (o : option bytes) : Z := match o with Some v => 3 + zlen v | None => 0 end.
Definition payload_encoded_len (p : ConfirmedPayload) : Z :=
  3 + 1 + zlen (cp_router_info p) + block_size (cp_options p) + block_size (cp_padding p).

Definition longer_than (o : option bytes) (n : Z) : bool := match o with Some v => zlen v >? n | None => false end.

Definition confirmed_payload_new (router_info : bytes) (options padding : option bytes)
    : result HandshakeError ConfirmedPayload :=
  if (zlen router_info =? 0) || (zlen router_info >? MAX_ROUTER_INFO_PAYLOAD) then Err HsRouterInfoMalformed
  else if longer_than options MAX_CONFIRMED_OPTIONS || longer_than padding MAX_SESSION_CONFIRMED_PART2_PLAINTEXT
  then Err HsExcessivePadding
  else
  let payload := mkPayload router_info options padding in
  if payload_encoded_len payload >? MAX_SESSION_CONFIRMED_PART2_PLAINTEXT then Err HsInvalidFixedLength else Ok payload.

(** The blocks behind the RouterInfo.  Each turn of the loop reads at least
    three bytes, so the length of the input is enough fuel. *)
Fixpoint payload_blocks (fuel : nat) (inp : bytes) (options padding : option bytes)
    : M Z HandshakeError (option bytes * option bytes) := λ offset,
  if offset <? zlen inp then
    match fuel with
    | O => (offset, Err HsStateViolation)
    | S fuel' =>
        (block_type ← get_u8 inp;
         block_length ← get_u16 inp;
         block ← checked_range inp block_length;
         if block_type =? 1 then
           if bool_decide (is_Some options) || bool_decide (is_Some padding) || (zlen block <? 12) ||
              (zlen block >? MAX_CONFIRMED_OPTIONS)
           then fail HsMalformedOptions
           else payload_blocks fuel' inp (Some block) padding
         else if block_type =? 254 then
           if bool_decide (is_Some padding) then fail HsMalformedOptions
           else payload_blocks fuel' inp options (Some block)
         else fail HsMalformedOptions) offset
    end
  else (offset, Ok (options, padding)).

Definition confirmed_payload_read (inp : bytes) (maximum_router_info : Z) : M Z HandshakeError ConfirmedPayload :=
  router_type ← get_u8 inp;
  router_length ← get_u16 inp;
  if negb (router_type =? 2) || (router_length <? 1) then fail HsMalformedOptions
  else
  router_block ← checked_range inp router_length;
  if negb (Z.land (default 0 (head router_block)) 254 =? 0) then fail HsMalformedOptions
  else
  let router_info := tail router_block in
  if (zlen router_info =? 0) || (zlen router_info >? maximum_router_info) || (zlen router_info >? MAX_ROUTER_INFO_PAYLOAD)
  then fail HsRouterInfoMalformed
  else
  blocks ← payload_blocks (length inp) inp None None;
  lift (confirmed_payload_new router_info blocks.1 blocks.2).

Definition confirmed_payload_decode (inp : bytes) (maximum_router_info : Z) : result HandshakeError ConfirmedPayload :=
  if (zlen inp =? 0) || (zlen inp >? MAX_SESSION_CONFIRMED_PART2_PLAINTEXT) then Err HsInvalidFixedLength
  else (confirmed_payload_read inp maximum_router_info 0).2.

(** A block with its header.  [None] is the panic of [expect] on a length
    beyond 16 bits. *)
Definition payload_block (kind : Z) (body : bytes) : option bytes :=
  length ← try_from u16_max (zlen body); Some (kind :: to_be 2 length ++ body).
Definition optional_block (kind : Z) (body : option bytes) : option bytes :=
  match body with Some b => payload_block kind b | None => Some [] end.
Definition confirmed_payload_encode (p : ConfirmedPayload) : option bytes :=
  router ← payload_block 2 (0 :: cp_router_info p);
  options ← optional_block 1 (cp_options p);
  padding ← optional_block 254 (cp_padding p);
  Some (router ++ options ++ padding).

(** ** Clock skew *)
Record ClockSkewPolicy := mkSkew { sk_maximum_delta : Z; sk_replay_retention : Z }.
Definition skew_new (maximum_delta replay_retention : Z) : option ClockSkewPolicy :=
  if (maximum_delta =? 0) || (replay_retention <? saturating_mul u64_max maximum_delta 2) then None
  else Some (mkSkew maximum_delta replay_retention).
Definition default_compatibility : ClockSkewPolicy := mkSkew 60 120.
Definition skew_classify (s : ClockSkewPolicy) (local_ peer : Z) : result HandshakeError () :=
  let delta := peer - local_ in
  if delta <? - sk_maximum_delta s then Err HsStaleTimestamp
  else if delta >? sk_maximum_delta s then Err HsFutureTimestamp
  else Ok ().

(** ** Replay protection *)
Inductive ReplayDecision := ReplayFresh | Replayed | ReplayCacheFull | ReplayUnavailable.

Record ReferenceReplayCache := mkReference {
  rc_retention : Z;
  rc_maximum_entries : Z;
  rc_entries : list (bytes * Z);
}.
Definition reference_new (maximum_entries retention : Z) : result HandshakeError ReferenceReplayCache :=
  if (maximum_entries =? 0) || (retention =? 0) || (maximum_entries >? MAX_HANDSHAKE_ACTIONS * 32)
  then Err HsLocalPolicyDenied else Ok (mkReference retention maximum_entries []).
Definition reference_check (token : bytes) (now : Z) (c : ReferenceReplayCache) : ReferenceReplayCache * ReplayDecision :=
  let kept := filter (λ e, saturating_sub now e.2 < rc_retention c) (rc_entries c) in
  let c := mkReference (rc_retention c) (rc_maximum_entries c) kept in
  if existsb (λ e, bool_decide (e.1 = token)) kept then (c, Replayed)
  else if zlen kept >=? rc_maximum_entries c then (c, ReplayCacheFull)
  else (mkReference (rc_retention c) (rc_maximum_entries c) (kept ++ [(token, now)]), ReplayFresh).

(** The cache of the runtime: when the entry of each token expires. *)
Record ReplayCache := mkReplayCache { rp_maximum : Z; rp_entries : gmap bytes Z }.
Inductive ReplayCacheDecision := CacheFresh | CacheReplayed | CacheFull.
Definition replay_cache_new (maximum : Z) : option ReplayCache :=
  if maximum =? 0 then None else Some (mkReplayCache maximum ∅).
Definition check_and_record (token : bytes) (now retention : Z) (c : ReplayCache) : ReplayCache * ReplayCacheDecision :=
  let kept := filter (λ e, e.2 > now) (rp_entries c) in
  let c := mkReplayCache (rp_maximum c) kept in
  if bool_decide (is_Some (kept !! token)) then (c, CacheReplayed)
  else if Z.of_nat (size kept) >=? rp_maximum c then (c, CacheFull)
  else (mkReplayCache (rp_maximum c) (<[token := saturating_add u64_max now retention]> kept), CacheFresh).
Definition replay_clear (c : ReplayCache) : ReplayCache := mkReplayCache (rp_maximum c) ∅.

(** ** Base64 with I2P's alphabet, and the two signs of the standard one *)
Definition base64_digit (b : Z) : option Z :=
  if (65 <=? b) && (b <=? 90) then Some (b - 65)
  else if (97 <=? b) && (b <=? 122) then Some (b - 97 + 26)
  else if (48 <=? b) && (b <=? 57) then Some (b - 48 + 52)
  else if (b =? 45) || (b =? 43) then Some 62
  else if (b =? 126) || (b =? 47) then Some 63
  else None.

Fixpoint skip_to_padding (value : bytes) : bytes :=
  match value with
  | [] => []
  | b :: value' => if b =? 61 then value else skip_to_padding value'
  end.

(** The loop over the digits, with a 32-bit accumulator of which the low
    [bits] bits are not written yet. *)
Fixpoint base64_loop (expected_length : Z) (digits : bytes) (accumulator bits : Z) (output : bytes)
    : option (Z * Z * bytes) :=
  match digits with
  | [] => Some (accumulator, bits, output)
  | b :: digits' =>
      digit ← base64_digit b;
      let accumulator := Z.lor (Z.shiftl accumulator 6 mod 2 ^ 32) digit in
      let bits := saturating_add u8_max bits 6 in
      if 8 <=? bits then
        let bits := bits - 8 in
        let output := output ++ [Z.land (Z.shiftr accumulator bits) 255] in
        if zlen output >? expected_length then None
        else base64_loop expected_length digits' accumulator bits output
      else base64_loop expected_length digits' accumulator bits output
  end.

Definition unpadded_length (expected_length : Z) : Z :=
  expected_length / 3 * 4 +
  (if expected_length mod 3 =? 0 then 0 else if expected_length mod 3 =? 1 then 2 else 3).

Definition decode_i2p_base64 (value : bytes) (expected_length : Z) : option bytes :=
  if expected_length =? 0 then None
  else
  let unpadded_length := unpadded_length expected_length in
  let one := if expected_length mod 3 =? 0 then 0 else 1 in
  let padding_length := zlen (skip_to_padding value) in
  let unpadded := (padding_length =? 0) && (zlen value =? unpadded_length) in
  let padded := (zlen value =? unpadded_length + one) && (padding_length =? one) in
  if negb unpadded && negb padded then None
  else if (padding_length >? 0) && negb (forallb (λ b, b =? 61) (drop (Z.to_nat unpadded_length) value)) then None
  else
  '(accumulator, bits, output) ← base64_loop expected_length (take (Z.to_nat unpadded_length) value) 0 0 [];
  if negb (zlen output =? expected_length) || ((bits >? 0) && negb (Z.land accumulator (Z.shiftl 1 bits - 1) =? 0))
  then None else Some output.

(** ** The RouterInfo of the peer *)
Definition STYLE_NTCP : bytes := [78; 84; 67; 80].
Definition STYLE_NTCP2 : bytes := [78; 84; 67; 80; 50].
Definition KEY_V : bytes := [118].
Definition KEY_S : bytes := [115].

(** [value.split(',')] *)
Fixpoint split_commas (value : bytes) : list bytes :=
  match value with
  | [] => [[]]
  | b :: value' =>
      if b =? 44 then [] :: split_commas value'
      else match split_commas value' with
           | part :: parts => (b :: part) :: parts
           | [] => [[b]]
           end
  end.

Record AuthenticatedPeer := mkPeer { peer_router_hash : bytes; peer_static_key : bytes }.

Definition offers_ntcp2 (a : RouterAddress) : option bytes :=
  if negb (bool_decide (ra_transport_style a = STYLE_NTCP) || bool_decide (ra_transport_style a = STYLE_NTCP2)) then None
  else
  version ← mapping_get (ra_options a) KEY_V;
  if negb (existsb (λ v, bool_decide (v = [50])) (split_commas version)) then None
  else mapping_get (ra_options a) KEY_S.

Definition address_key (encoded_key : bytes) : result HandshakeError bytes :=
  key ← ok_or HsTransportStaticKeyMismatch (decode_i2p_base64 encoded_key KEY_LENGTH);
  map_err (λ _, HsTransportStaticKeyMismatch) (public_key_new key).

Fixpoint find_static_key (addresses : list RouterAddress) (found : option bytes) : result HandshakeError (option bytes) :=
  match addresses with
  | [] => Ok found
  | a :: addresses' =>
      match offers_ntcp2 a with
      | None => find_static_key addresses' found
      | Some encoded_key =>
          key ← address_key encoded_key;
          match found with
          | Some old => if bool_decide (old ≠ key) then Err HsTransportStaticKeyMismatch
                        else find_static_key addresses' (Some key)
          | None => find_static_key addresses' (Some key)
          end
      end
  end.

Section peer.
Context (sha256 : bytes → bytes) (ed25519_key : bytes → bool) (ed25519_verify : bytes → bytes → bytes → bool).

Definition validate_router_info (bs : bytes) (maximum : Z) (expected_hash : option bytes) (expected_static_key : bytes)
    : result HandshakeError AuthenticatedPeer :=
  if (zlen bs =? 0) || (zlen bs >? maximum) || (zlen bs >? MAX_ROUTER_INFO_PAYLOAD) then Err HsRouterInfoMalformed
  else
  info ← map_err map_router_info_codec (router_info_decode bs maximum);
  _ ← map_err hs_from_crypto (verify_router_info ed25519_key ed25519_verify info);
  router_hash ← map_err hs_from_crypto (router_identity_hash sha256 (ri_identity info));
  if match expected_hash with Some expected => bool_decide (expected ≠ router_hash) | None => false end
  then Err HsPeerIdentityMismatch
  else if bool_decide (public_type (public_key (identity_keys (ri_identity info))) ≠ Crypto.X25519)
  then Err HsUnsupportedPeerKey
  else
  found ← find_static_key (ri_addresses info) None;
  found ← ok_or HsTransportStaticKeyMismatch found;
  if negb (bool_decide (found = expected_static_key)) then Err HsTransportStaticKeyMismatch
  else Ok (mkPeer router_hash found).

Definition validate_peer (b : RouterInfoBlock) (expected_hash expected_static_key : bytes) : result BlockError () :=
  match validate_router_info (rb_encoded b) MAX_ROUTER_INFO_BYTES (Some expected_hash) expected_static_key with
  | Ok _ => Ok ()
  | Err HsPeerIdentityMismatch => Err BlockPeerIdentityMismatch
  | Err HsTransportStaticKeyMismatch => Err BlockPeerStaticKeyMismatch
  | Err HsRouterInfoSignatureInvalid => Err RouterInfoSignatureInvalid
  | Err _ => Err RouterInfoMalformed
  end.
End peer.

(** ** Reading and writing *)
Lemma range_app inp pre mid post offset :
  inp = pre ++ mid ++ post → zlen pre = offset → zlen inp ≤ usize_max →
  checked_range inp (zlen mid) offset = (offset + zlen mid, Ok mid).
Proof.
  intros -> <- Hl. unfold checked_range. pose proof (zlen_nonneg post).
  rewrite (proj2 (checked_add_Some usize_max (zlen pre) (zlen mid) (zlen pre + zlen mid))); [|split; [done|zlen_lia]].
  rewrite (proj2 (Z.leb_le _ _)) by zlen_lia. by rewrite slice_app.
Qed.

Lemma range_inv inp n offset offset' b :
  checked_range inp n offset = (offset', Ok b) → 0 ≤ offset → 0 ≤ n →
  offset' = offset + n ∧ offset' ≤ zlen inp ∧ b = slice offset offset' inp ∧ zlen b = n.
Proof.
  unfold checked_range. intros H Ho Hn. destruct (checked_add _ _ _) as [stop|] eqn:E; [|by inversion H].
  apply checked_add_Some in E as [-> _]. destruct (_ <=? _) eqn:El; [|by inversion H]. inversion H; subst. breflect.
  split_and!; [done..|]. rewrite slice_length; lia.
Qed.

(** Reading an integer off its bytes. *)
Lemma get_app (n : nat) inp pre post offset v :
  inp = pre ++ to_be n v ++ post → zlen pre = offset → zlen inp ≤ usize_max → 0 ≤ v < 256 ^ Z.of_nat n →
  (b ← checked_range inp (Z.of_nat n); mret (from_be b)) offset = (offset + Z.of_nat n, Ok v).
Proof.
  intros Hi Hp Hl Hv. pose proof (range_app inp pre (to_be n v) post offset Hi Hp Hl) as Hr. rewrite zlen_to_be in Hr.
  cbn [mbind M_bind]. unfold mbind, M_bind. rewrite Hr. cbn. by rewrite from_to_be.
Qed.

(** Options blocks: the decoder written out on sixteen bytes. *)
Lemma sixteen (w : bytes) : zlen w = 16 → ∃ b0 b1 b2 b3 b4 b5 b6 b7 b8 b9 b10 b11 b12 b13 b14 b15,
  w = [b0; b1; b2; b3; b4; b5; b6; b7; b8; b9; b10; b11; b12; b13; b14; b15].
Proof.
  unfold zlen. intros Hl. do 16 (destruct w as [|? w]; [cbn in Hl; lia|]). destruct w; [|cbn in Hl; lia]. by repeat eexists.
Qed.

Ltac read_list :=
  repeat (match goal with
  | |- context [checked_range ?l ?n ?o] =>
      let r := eval vm_compute in (checked_range l n o) in change (checked_range l n o) with r
  end; cbn beta iota).

Lemma request_decode_list b0 b1 b2 b3 b4 b5 b6 b7 b8 b9 b10 b11 b12 b13 b14 b15 :
  request_options_decode [b0; b1; b2; b3; b4; b5; b6; b7; b8; b9; b10; b11; b12; b13; b14; b15] =
  if negb (from_be [b6; b7] =? 0) then Err HsMalformedOptions
  else if negb (from_be [b12; b13; b14; b15] =? 0) || negb (from_be [b1] =? NTCP2_VERSION) then Err HsMalformedOptions
  else if negb (part2_in_range (from_be [b4; b5])) then Err HsInvalidFixedLength
  else Ok (mkRequestOptions (from_be [b0]) (from_be [b1]) (from_be [b2; b3]) (from_be [b4; b5]) (from_be [b8; b9; b10; b11])).
Proof.
  unfold request_options_decode, request_options_read, get_u8, get_u16, get_u32, mbind, M_bind, mret, M_ret, fail.
  change (negb (_ =? OPTION_BLOCK_LENGTH)) with false. cbn iota. read_list.
  destruct (negb (from_be [b6; b7] =? 0)); [done|]. read_list.
  destruct (_ || _); [done|]. by destruct (negb (part2_in_range _)).
Qed.

Lemma created_decode_list b0 b1 b2 b3 b4 b5 b6 b7 b8 b9 b10 b11 b12 b13 b14 b15 :
  created_options_decode [b0; b1; b2; b3; b4; b5; b6; b7; b8; b9; b10; b11; b12; b13; b14; b15] =
  if negb (from_be [b0; b1] =? 0) then Err HsMalformedOptions
  else if negb (from_be [b4; b5] =? 0) then Err HsMalformedOptions
  else if negb (from_be [b6; b7] =? 0) then Err HsMalformedOptions
  else if negb (from_be [b12; b13; b14; b15] =? 0) then Err HsMalformedOptions
  else Ok (mkCreatedOptions (from_be [b2; b3]) (from_be [b8; b9; b10; b11])).
Proof.
  unfold created_options_decode, created_options_read, get_u8, get_u16, get_u32, mbind, M_bind, mret, M_ret, fail.
  change (negb (_ =? OPTION_BLOCK_LENGTH)) with false. cbn iota. read_list.
  destruct (negb (from_be [b0; b1] =? 0)); [done|]. read_list.
  destruct (negb (from_be [b4; b5] =? 0)); [done|]. read_list.
  destruct (negb (from_be [b6; b7] =? 0)); [done|]. read_list. by destruct (negb (from_be [b12; b13; b14; b15] =? 0)).
Qed.

Record request_options_ok (o : SessionRequestOptions) : Prop := {
  ro_network_fits : fits 8 (ro_network_id o);
  ro_version_is : ro_version o = NTCP2_VERSION;
  ro_padding_fits : fits 16 (ro_padding_length o);
  ro_part2_range : AUTH_TAG_LENGTH ≤ ro_part2_length o ≤ MAX_SESSION_CONFIRMED_PART2;
  ro_timestamp_fits : fits 32 (ro_timestamp o);
}.
Definition created_options_ok (o : SessionCreatedOptions) : Prop := fits 16 (co_padding_length o) ∧ fits 32 (co_timestamp o).

Lemma part2_in_range_spec n : part2_in_range n = true ↔ AUTH_TAG_LENGTH ≤ n ≤ MAX_SESSION_CONFIRMED_PART2.
Proof. unfold part2_in_range. rewrite andb_true_iff, !Z.leb_le. done. Qed.

Lemma two_bytes v : to_be 2 v = [(v / 256) mod 256; v mod 256].
Proof. unfold to_be. change (256 ^ Z.of_nat 1) with 256. change (256 ^ Z.of_nat 0) with 1. by rewrite Z.div_1_r. Qed.
Lemma four_bytes v : to_be 4 v = [(v / 256 ^ 3) mod 256; (v / 256 ^ 2) mod 256; (v / 256) mod 256; v mod 256].
Proof. unfold to_be. change (256 ^ Z.of_nat 1) with 256. change (256 ^ Z.of_nat 0) with 1. by rewrite Z.div_1_r. Qed.

Lemma request_options_decode_encode o : request_options_ok o → request_options_decode (request_options_encode o) = Ok o.
Proof.
  destruct o as [n v p l t]. intros [Hn Hv Hp Hl Ht]; cbn in *. unfold request_options_encode. cbn [ro_network_id ro_version ro_padding_length ro_part2_length ro_timestamp].
  pose proof (two_bytes p) as Ep. pose proof (two_bytes l) as El. pose proof (four_bytes t) as Et.
  assert (Fl : fits 16 l). { unfold fits, AUTH_TAG_LENGTH, MAX_SESSION_CONFIRMED_PART2 in *. lia. }
  rewrite Ep, El, Et. cbn [app]. rewrite request_decode_list, <- Ep, <- El, <- Et, !from_to_be by done.
  change (from_be [0; 0]) with 0. change (from_be [0; 0; 0; 0]) with 0. subst v.
  rewrite (proj2 (part2_in_range_spec l)) by done. unfold from_be. cbn [fold_left]. done.
Qed.

Ltac bytes_by := solve [repeat first [apply Forall_nil_2 | apply Forall_cons_2; [assumption|]]].

Lemma created_options_decode_encode o : created_options_ok o → created_options_decode (created_options_encode o) = Ok o.
Proof.
  destruct o as [p t]. intros [Hp Ht]; cbn in *. unfold created_options_encode. cbn [co_padding_length co_timestamp].
  pose proof (two_bytes p) as Ep. pose proof (four_bytes t) as Et.
  rewrite Ep, Et. cbn [app]. rewrite created_decode_list, <- Ep, <- Et, !from_to_be by done.
  change (from_be [0; 0]) with 0. change (from_be [0; 0; 0; 0]) with 0. done.
Qed.

Lemma from_be_zero (l : bytes) : bytes_ok l → from_be l = 0 → l = replicate (length l) 0.
Proof. intros Hok Hz. rewrite <- (to_from_be l Hok), Hz at 1. generalize (length l) as n. induction n as [|n IH]; [done|]. unfold to_be; fold to_be. by rewrite IH, Z.div_0_l by (apply Z.pow_nonzero; lia). Qed.

(** An options block is accepted exactly when it encodes well-formed options. *)
Lemma request_options_exact w o (Hok : bytes_ok w) :
  request_options_decode w = Ok o ↔ request_options_ok o ∧ w = request_options_encode o.
Proof.
  split; [|intros [Ho ->]; by apply request_options_decode_encode].
  intros H. assert (Hl : zlen w = 16).
  { unfold request_options_decode in H. destruct (zlen w =? _) eqn:E; [by breflect|done]. }
  destruct (sixteen w Hl) as (b0 & b1 & b2 & b3 & b4 & b5 & b6 & b7 & b8 & b9 & b10 & b11 & b12 & b13 & b14 & b15 & ->).
  rewrite request_decode_list in H. repeat case_match; breflect; try done. apply Ok_inj in H as <-.
  repeat match goal with Hx : part2_in_range _ = true |- _ => apply part2_in_range_spec in Hx end.
  rewrite !Forall_cons in Hok. destruct_and!.
  assert (Hb : ∀ l, bytes_ok l → 0 ≤ from_be l < 256 ^ zlen l) by apply from_be_bound.
  assert (H67 : [b6; b7] = [0; 0]) by (apply (from_be_zero [b6; b7]); [bytes_by|done]).
  assert (H1215 : [b12; b13; b14; b15] = [0; 0; 0; 0]) by (apply (from_be_zero [b12; b13; b14; b15]); [bytes_by|done]).
  split.
  - constructor; cbn; [apply (Hb [b0])|done|apply (Hb [b2; b3])|done|apply (Hb [b8; b9; b10; b11])]; bytes_by.
  - unfold request_options_encode. cbn [ro_network_id ro_version ro_padding_length ro_part2_length ro_timestamp].
    change 2%nat with (length [b2; b3]) at 1. change 2%nat with (length [b4; b5]) at 1. change 4%nat with (length [b8; b9; b10; b11]).
    rewrite !to_from_be by (bytes_by). injection H67 as -> ->. injection H1215 as -> -> -> ->.
    unfold from_be. cbn [fold_left app]. by rewrite !Z.add_0_l.
Qed.

Lemma created_options_exact w o (Hok : bytes_ok w) :
  created_options_decode w = Ok o ↔ created_options_ok o ∧ w = created_options_encode o.
Proof.
  split; [|intros [Ho ->]; by apply created_options_decode_encode].
  intros H. assert (Hl : zlen w = 16).
  { unfold created_options_decode in H. destruct (zlen w =? _) eqn:E; [by breflect|done]. }
  destruct (sixteen w Hl) as (b0 & b1 & b2 & b3 & b4 & b5 & b6 & b7 & b8 & b9 & b10 & b11 & b12 & b13 & b14 & b15 & ->).
  rewrite created_decode_list in H. repeat case_match; breflect; try done. apply Ok_inj in H as <-.
  rewrite !Forall_cons in Hok. destruct_and!.
  assert (Hb : ∀ l, bytes_ok l → 0 ≤ from_be l < 256 ^ zlen l) by apply from_be_bound.
  assert (Hz : ∀ a b, is_u8 a → is_u8 b → from_be [a; b] = 0 → [a; b] = [0; 0]) by
    (intros a b Ha Hb' Hab; apply (from_be_zero [a; b]); [bytes_by|done]).
  assert (H1215 : [b12; b13; b14; b15] = [0; 0; 0; 0]) by (apply (from_be_zero [b12; b13; b14; b15]); [bytes_by|done]).
  assert (H01 : [b0; b1] = [0; 0]) by auto. assert (H45 : [b4; b5] = [0; 0]) by auto. assert (H67 : [b6; b7] = [0; 0]) by auto.
  split; [split; cbn; [apply (Hb [b2; b3])|apply (Hb [b8; b9; b10; b11])]; bytes_by|].
  unfold created_options_encode. cbn [co_padding_length co_timestamp].
  change 2%nat with (length [b2; b3]) at 1. change 4%nat with (length [b8; b9; b10; b11]).
  rewrite !to_from_be by (bytes_by). injection H01 as -> ->. injection H45 as -> ->. injection H67 as -> ->.
  by injection H1215 as -> -> -> ->.
Qed.

(** ** The first two messages *)
Record message_ok (maximum_padding : Z) (m : HandshakeMessage) : Prop := {
  msg_ephemeral_len : zlen (msg_encrypted_ephemeral m) = KEY_LENGTH;
  msg_options_len : zlen (msg_encrypted_options m) = HANDSHAKE_OPTIONS_FRAME_LENGTH;
  msg_padding_len : zlen (msg_padding m) ≤ maximum_padding;
  msg_total_len : zlen (message_encode m) ≤ MAX_HANDSHAKE_MESSAGE_LENGTH;
}.

Lemma message_total m : zlen (msg_encrypted_ephemeral m) = KEY_LENGTH → message_encoded_len m = zlen (message_encode m).
Proof. intros He. unfold message_encoded_len, message_encode, HANDSHAKE_EPHEMERAL_LENGTH. rewrite !zlen_app. lia. Qed.

Lemma message_new_ok maxp e o p m : zlen e = KEY_LENGTH →
  message_new maxp e o p = Ok m ↔ m = mkMessage e o p ∧ message_ok maxp m.
Proof.
  intros He. unfold message_new. cbv zeta. rewrite message_total by done. split.
  - repeat case_match; try done. intros <-%Ok_inj. breflect. by split.
  - intros [-> [_ Ho Hp Ht]]. cbn [msg_encrypted_options msg_padding] in *.
    rewrite (proj2 (Z.eqb_eq _ _) Ho). cbn [negb].
    destruct (_ >? maxp) eqn:E1; breflect; [lia|]. destruct (_ >? MAX_HANDSHAKE_MESSAGE_LENGTH) eqn:E2; breflect; [lia|done].
Qed.

(** A message is accepted exactly when it is the encoding of a well-formed one. *)
Lemma message_exact maxp inp maximum m :
  message_decode maxp inp maximum = Ok m ↔ inp = message_encode m ∧ message_ok maxp m ∧ zlen inp ≤ maximum.
Proof.
  unfold message_decode. split.
  - destruct (_ <? _) eqn:E1; [done|]. destruct (_ || _) eqn:E2; [done|]. breflect.
    assert (Hm : MIN_HANDSHAKE_MESSAGE_LENGTH = 64) by done. unfold message_read, mbind, M_bind.
    destruct (checked_range inp KEY_LENGTH 0) as [o1 [e|?]] eqn:R1; [|done].
    apply range_inv in R1 as (-> & Hl1 & -> & He); [|done..].
    destruct (checked_range inp HANDSHAKE_OPTIONS_FRAME_LENGTH _) as [o2 [o|?]] eqn:R2; [|done].
    apply range_inv in R2 as (-> & Hl2 & -> & Ho); [|done..]. cbn [snd gets lift].
    intros [-> Hok]%message_new_ok; [|done]. split_and!; [|done..].
    unfold message_encode. cbn [msg_encrypted_ephemeral msg_encrypted_options msg_padding].
    assert (0 ≤ KEY_LENGTH ∧ 0 ≤ HANDSHAKE_OPTIONS_FRAME_LENGTH) as [??] by done.
    rewrite !slice_slice by lia. by rewrite slice_full.
  - intros (-> & Hok & Hmax). pose proof Hok as [He Ho Hp Ht].
    assert (Hmin : MIN_HANDSHAKE_MESSAGE_LENGTH ≤ zlen (message_encode m)).
    { unfold message_encode. rewrite !zlen_app, He, Ho. pose proof (zlen_nonneg (msg_padding m)).
      change MIN_HANDSHAKE_MESSAGE_LENGTH with (KEY_LENGTH + HANDSHAKE_OPTIONS_FRAME_LENGTH). lia. }
    destruct (_ <? _) eqn:E1; breflect; [lia|]. destruct (_ || _) eqn:E2.
    { apply orb_true_iff in E2 as [|]; breflect; lia. }
    unfold message_read, mbind, M_bind. assert (Hu : zlen (message_encode m) ≤ usize_max) by (etrans; [exact Ht|done]).
    unfold message_encode in *. rewrite <- He, (range_app (msg_encrypted_ephemeral m ++ _) [] _ _ 0 eq_refl eq_refl Hu). rewrite Z.add_0_l.
    rewrite <- Ho, (range_app _ (msg_encrypted_ephemeral m) _ (msg_padding m)) by done. cbn [gets lift snd].
    rewrite app_assoc, slice_app_end by (rewrite ?zlen_app; lia).
    apply message_new_ok; [done|]. by destruct m.
Qed.

(** ** The third message *)
Definition confirmed_ok (part2_length : Z) (c : SessionConfirmed) : Prop :=
  zlen (sc_static_frame c) = SESSION_CONFIRMED_PART1_LENGTH ∧ zlen (sc_payload_frame c) = part2_length ∧
  AUTH_TAG_LENGTH ≤ part2_length ≤ MAX_SESSION_CONFIRMED_PART2.

Lemma confirmed_new_ok s p c :
  session_confirmed_new s p = Ok c ↔ c = mkConfirmed s p ∧ confirmed_ok (zlen p) c.
Proof.
  unfold session_confirmed_new, confirmed_ok. split.
  - destruct (_ || _) eqn:E; [done|]. breflect. apply part2_in_range_spec in H0.
    destruct (checked_add _ _ _); [|done]. cbn [ok_or mbind result_bind]. destruct (_ >? _); [done|]. by intros <-%Ok_inj.
  - intros [-> (Hs & _ & Hp)]. cbn [sc_static_frame sc_payload_frame] in *.
    rewrite (proj2 (part2_in_range_spec _) Hp), (proj2 (Z.eqb_eq _ _) Hs). cbn [negb orb].
    assert (zlen s + zlen p ≤ MAX_SESSION_CONFIRMED_LENGTH) as Ht.
    { unfold SESSION_CONFIRMED_PART1_LENGTH, MAX_SESSION_CONFIRMED_PART2, MAX_SESSION_CONFIRMED_LENGTH, MAX_FRAME_LENGTH, KEY_LENGTH, AUTH_TAG_LENGTH in *. lia. }
    rewrite (proj2 (checked_add_Some usize_max (zlen s) (zlen p) (zlen s + zlen p))); [|split; [done|etrans; [exact Ht|done]]].
    cbn [ok_or mbind result_bind]. destruct (_ >? _) eqn:E; breflect; [lia|done].
Qed.

Lemma confirmed_exact inp n maximum c :
  0 ≤ n → session_confirmed_decode inp n maximum = Ok c ↔
    inp = session_confirmed_encode c ∧ confirmed_ok n c ∧ zlen inp ≤ maximum.
Proof.
  intros Hn. assert (H48 : SESSION_CONFIRMED_PART1_LENGTH = 48) by done. unfold session_confirmed_decode. split.
  - destruct (_ || _) eqn:E; [done|]. breflect. destruct (checked_add _ _ _) as [x|] eqn:Ec; [|done].
    apply checked_add_Some in Ec as [-> _]. cbn [ok_or mbind result_bind]. destruct (_ =? _) eqn:El; [|done]. breflect. cbn [negb].
    intros [-> Hok]%confirmed_new_ok. unfold session_confirmed_encode. cbn [sc_static_frame sc_payload_frame].
    rewrite slice_slice, slice_full by lia. rewrite slice_length in Hok by lia. split_and!; [done| |done].
    by replace (zlen inp - SESSION_CONFIRMED_PART1_LENGTH) with n in Hok by lia.
  - intros (-> & Hok & Hm). pose proof Hok as (Hs & Hp & Hr). unfold session_confirmed_encode in *.
    assert (Hl : zlen (sc_static_frame c ++ sc_payload_frame c) = SESSION_CONFIRMED_PART1_LENGTH + n) by (rewrite zlen_app; lia).
    rewrite Hl in *. assert (SESSION_CONFIRMED_PART1_LENGTH + n ≤ MAX_SESSION_CONFIRMED_LENGTH) as Ht.
    { unfold MAX_SESSION_CONFIRMED_PART2, MAX_SESSION_CONFIRMED_LENGTH, MAX_FRAME_LENGTH in *. lia. }
    destruct (_ || _) eqn:E; [apply orb_true_iff in E as [|]; breflect; lia|].
    rewrite (proj2 (checked_add_Some usize_max SESSION_CONFIRMED_PART1_LENGTH n (SESSION_CONFIRMED_PART1_LENGTH + n)));
      [|split; [done|etrans; [exact Ht|done]]].
    cbn [ok_or mbind result_bind]. rewrite Z.eqb_refl. cbn [negb].
    rewrite slice_app_start, slice_app_end by lia. apply confirmed_new_ok. rewrite Hp. by destruct c.
Qed.

(** ** The payload *)
Definition block_bytes (kind : Z) (body : option bytes) : bytes :=
  match body with Some b => kind :: to_be 2 (zlen b) ++ b | None => [] end.
Definition payload_bytes (flags : Z) (p : ConfirmedPayload) : bytes :=
  block_bytes 2 (Some (flags :: cp_router_info p)) ++ block_bytes 1 (cp_options p) ++ block_bytes 254 (cp_padding p).

Record payload_ok (maximum : Z) (p : ConfirmedPayload) : Prop := {
  po_router_info : 0 < zlen (cp_router_info p) ≤ maximum;
  po_options : ∀ o, cp_options p = Some o → 12 ≤ zlen o ≤ MAX_CONFIRMED_OPTIONS;
  po_total : payload_encoded_len p ≤ MAX_SESSION_CONFIRMED_PART2_PLAINTEXT;
}.

Lemma block_bytes_size kind body : zlen (block_bytes kind body) = block_size body.
Proof. destruct body as [b|]; [|done]. cbn [block_bytes block_size]. rewrite zlen_cons, zlen_app, zlen_to_be. lia. Qed.
Lemma payload_bytes_len flags p : zlen (payload_bytes flags p) = payload_encoded_len p.
Proof. unfold payload_bytes, payload_encoded_len. rewrite !zlen_app, !block_bytes_size. cbn [block_size]. rewrite zlen_cons. lia. Qed.
Lemma block_size_nonneg o : 0 ≤ block_size o.
Proof. destruct o as [b|]; cbn; [pose proof (zlen_nonneg b)|]; lia. Qed.

(** Reading a block at an offset: its header, then its body. *)
Lemma read_header {A} inp pre kind n rest offset (k : Z → Z → M Z HandshakeError A) :
  inp = pre ++ kind :: to_be 2 n ++ rest → zlen pre = offset → zlen inp ≤ usize_max → fits 16 n → fits 8 kind →
  (block_type ← get_u8 inp; block_length ← get_u16 inp; k block_type block_length) offset = k kind n (offset + 3).
Proof.
  intros Hi Hp Hu Hn Hk. unfold get_u8, get_u16.
  assert (E1 : checked_range inp 1 offset = (offset + 1, Ok [kind])).
  { change 1 with (zlen [kind]). by apply (range_app inp pre [kind] (to_be 2 n ++ rest)). }
  assert (E2 : checked_range inp 2 (offset + 1) = (offset + 3, Ok (to_be 2 n))).
  { pose proof (range_app inp (pre ++ [kind]) (to_be 2 n) rest (offset + 1)) as Hr.
    rewrite zlen_to_be in Hr. replace (offset + 3) with (offset + 1 + Z.of_nat 2) by lia.
    apply Hr; [by rewrite <- app_assoc|by rewrite zlen_app, zlen_one, Hp|done]. }
  unfold mbind, M_bind. rewrite E1. cbn [mret M_ret]. rewrite E2. cbn [mret M_ret].
  by rewrite from_to_be; [|unfold fits in Hn].
Qed.

Lemma read_block {A} inp pre kind body rest offset (k : Z → Z → bytes → M Z HandshakeError A) :
  inp = pre ++ block_bytes kind (Some body) ++ rest → zlen pre = offset → zlen inp ≤ usize_max → zlen body ≤ u16_max →
  fits 8 kind →
  (block_type ← get_u8 inp; block_length ← get_u16 inp; block ← checked_range inp block_length; k block_type block_length block) offset =
  k kind (zlen body) body (offset + block_size (Some body)).
Proof.
  intros Hi Hp Hu Hb Hk. pose proof (zlen_nonneg body). cbn [block_bytes] in Hi. cbn [app] in Hi. rewrite <- app_assoc in Hi.
  rewrite (read_header inp pre kind (zlen body) (body ++ rest)); [|done..|unfold fits, u16_max in *; lia|done].
  unfold mbind, M_bind. rewrite (range_app inp (pre ++ kind :: to_be 2 (zlen body)) body rest (offset + 3));
    [|by rewrite Hi, <- app_assoc|rewrite zlen_app, zlen_cons, zlen_to_be, Hp; lia|done].
  cbn [block_size]. by replace (offset + 3 + zlen body) with (offset + (3 + zlen body)) by lia.
Qed.

Lemma drop_slice (pre rest : bytes) : slice (zlen pre) (zlen (pre ++ rest)) (pre ++ rest) = rest.
Proof. apply slice_app_end; [done|apply zlen_app]. Qed.

(** A successful read takes a prefix of what is left. *)
Lemma range_inv_app inp pre rest n offset' b :
  inp = pre ++ rest → checked_range inp n (zlen pre) = (offset', Ok b) → 0 ≤ n →
  ∃ rest', rest = b ++ rest' ∧ zlen b = n ∧ offset' = zlen (pre ++ b).
Proof.
  intros Hi H Hn. pose proof (zlen_nonneg pre). apply range_inv in H as (-> & Hl & -> & Hb); [|done..].
  exists (slice (zlen pre + n) (zlen inp) inp). split_and!; [|done|by rewrite zlen_app, Hb].
  rewrite slice_slice by lia. by rewrite Hi, drop_slice.
Qed.

Lemma read_header_inv {A} inp pre rest offset' (k : Z → Z → M Z HandshakeError A) a :
  inp = pre ++ rest → bytes_ok inp →
  (block_type ← get_u8 inp; block_length ← get_u16 inp; k block_type block_length) (zlen pre) = (offset', Ok a) →
  ∃ kind n rest', rest = kind :: to_be 2 n ++ rest' ∧ fits 8 kind ∧ fits 16 n ∧
    k kind n (zlen (pre ++ kind :: to_be 2 n)) = (offset', Ok a).
Proof.
  intros Hi Hok. unfold get_u8, get_u16, mbind, M_bind, mret, M_ret.
  destruct (checked_range inp 1 _) as [o1 [b1|?]] eqn:R1; [|done].
  destruct (range_inv_app _ _ _ _ _ _ Hi R1) as (r1 & -> & Hb1 & ->); [done|]. rewrite app_assoc in Hi.
  destruct (checked_range inp 2 _) as [o2 [b2|?]] eqn:R2; [|done].
  destruct (range_inv_app _ _ _ _ _ _ Hi R2) as (r2 & -> & Hb2 & ->); [done|]. intros Hk.
  rewrite Hi, !Forall_app in Hok. destruct Hok as [[_ Ok1] [Ok2 _]].
  destruct b1 as [|kind [|? l]]; try (by cbn in Hb1); [|rewrite !zlen_cons in Hb1; pose proof (zlen_nonneg l); lia].
  exists kind, (from_be b2), r2. pose proof (from_be_bound b2 Ok2) as Hf. rewrite Hb2 in Hf.
  replace 2%nat with (length b2) by (unfold zlen in Hb2; lia). rewrite to_from_be by done.
  split_and!; [done|by inversion Ok1|done|]. rewrite <- app_assoc in Hk. exact Hk.
Qed.

Lemma read_block_inv {A} inp pre rest offset' (k : Z → Z → bytes → M Z HandshakeError A) a :
  inp = pre ++ rest → bytes_ok inp →
  (block_type ← get_u8 inp; block_length ← get_u16 inp; block ← checked_range inp block_length; k block_type block_length block) (zlen pre) =
    (offset', Ok a) →
  ∃ kind body rest', rest = block_bytes kind (Some body) ++ rest' ∧ fits 8 kind ∧ zlen body ≤ u16_max ∧
    k kind (zlen body) body (zlen pre + block_size (Some body)) = (offset', Ok a).
Proof.
  intros Hi Hok H. destruct (read_header_inv _ _ _ _ _ _ Hi Hok H) as (kind & n & r & -> & Hk & Hn & H').
  assert (Hi' : inp = (pre ++ kind :: to_be 2 n) ++ r) by (by rewrite Hi, <- app_assoc). unfold mbind, M_bind in H'.
  destruct (checked_range inp n _) as [o [b|?]] eqn:R; [|done].
  destruct (range_inv_app _ _ _ _ _ _ Hi' R) as (r' & -> & Hb & ->); [by destruct Hn|].
  exists kind, b, r'. cbn [block_bytes block_size]. rewrite Hb. split_and!; [by cbn; rewrite <- app_assoc|done|unfold fits, u16_max in *; lia|].
  rewrite <- H'. f_equal. rewrite !zlen_app, zlen_cons, zlen_to_be. lia.
Qed.

(** The loop reads at most one options block and one padding block, in this
    order. *)
Lemma payload_blocks_sound fuel inp pre rest o p offset' r :
  inp = pre ++ rest → bytes_ok inp → payload_blocks fuel inp o p (zlen pre) = (offset', Ok r) →
  ∃ o' p', rest = block_bytes 1 o' ++ block_bytes 254 p' ∧
    (∀ v, o' = Some v → o = None ∧ p = None ∧ 12 ≤ zlen v ≤ MAX_CONFIRMED_OPTIONS) ∧ (is_Some p' → p = None) ∧
    r = (match o' with Some _ => o' | None => o end, match p' with Some _ => p' | None => p end).
Proof.
  revert pre rest o p. induction fuel as [|fuel IH]; intros pre rest o p Hi Hok H; cbn [payload_blocks] in H.
  all: destruct (_ <? _) eqn:E; breflect; [|injection H as _ <-; exists None, None; split_and!; [|done|by intros []|done];
    apply zlen_0_nil; rewrite Hi, zlen_app in E; pose proof (zlen_nonneg rest); lia].
  { done. }
  apply (read_block_inv inp pre rest) in H as (kind & body & rest' & -> & Hk & Hb & H); [|done..].
  assert (Hn : zlen (pre ++ block_bytes kind (Some body)) = zlen pre + block_size (Some body)) by (by rewrite zlen_app, block_bytes_size).
  rewrite <- Hn in H. rewrite app_assoc in Hi. destruct (kind =? 1) eqn:E1; breflect.
  - destruct (_ || _) eqn:E2; [done|]. breflect. subst kind.
    destruct (IH _ _ _ _ Hi Hok H) as (o' & p' & -> & Ho & Hp & ->).
    destruct o' as [v|]; [by destruct (Ho v eq_refl)|]. exists (Some body), p'. split_and!; [done| |done|done].
    intros v [= <-]. repeat match goal with Hx : bool_decide (is_Some ?x) = false |- _ => apply bool_decide_eq_false in Hx; apply eq_None_not_Some in Hx end.
    split_and!; try done; lia.
  - destruct (kind =? 254) eqn:E3; breflect; [|done]. destruct (bool_decide _) eqn:E2; [done|]. subst kind.
    destruct (IH _ _ _ _ Hi Hok H) as (o' & p' & -> & Ho & Hp & ->).
    destruct o' as [v|]; [by destruct (Ho v eq_refl) as (_ & ? & _)|]. destruct p' as [v|]; [by specialize (Hp ltac:(eauto))|].
    exists None, (Some body). split_and!; [by cbn; rewrite app_nil_r|done| |done].
    intros _. apply bool_decide_eq_false in E2. by apply eq_None_not_Some.
Qed.

Lemma payload_blocks_complete fuel inp pre o p :
  inp = pre ++ block_bytes 1 o ++ block_bytes 254 p → zlen inp ≤ usize_max → (2 ≤ fuel)%nat →
  (∀ v, o = Some v → 12 ≤ zlen v ≤ MAX_CONFIRMED_OPTIONS) → (∀ v, p = Some v → zlen v ≤ u16_max) →
  payload_blocks fuel inp None None (zlen pre) = (zlen inp, Ok (o, p)).
Proof.
  intros Hi Hu Hf Ho Hp. destruct fuel as [|[|fuel]]; [lia..|].
  assert (Hend : ∀ fuel o p, payload_blocks fuel inp o p (zlen inp) = (zlen inp, Ok (o, p))).
  { intros f' ? ?. destruct f'; cbn [payload_blocks]; by rewrite Z.ltb_irrefl. }
  assert (Hpad : ∀ fuel pre' q, inp = pre' ++ block_bytes 254 p → payload_blocks (S fuel) inp q None (zlen pre') = (zlen inp, Ok (q, p))).
  { intros f' pre' q Hi'. destruct p as [v|].
    - cbn [payload_blocks]. pose proof (zlen_nonneg v).
      assert (Hl : zlen inp = zlen pre' + block_size (Some v)) by (by rewrite Hi', zlen_app, block_bytes_size).
      rewrite (proj2 (Z.ltb_lt _ _)) by (cbn [block_size] in Hl; lia).
      rewrite (read_block inp pre' 254 v []); [|by rewrite app_nil_r|done..|by apply Hp|done].
      change (254 =? 1) with false. change (254 =? 254) with true. cbn iota. rewrite <- Hl. apply Hend.
    - cbn [block_bytes] in Hi'. rewrite app_nil_r in Hi'. subst pre'. apply Hend. }
  destruct o as [v|]; [|by apply Hpad].
  cbn [payload_blocks]. pose proof (zlen_nonneg v). pose proof (block_size_nonneg p). specialize (Ho v eq_refl).
  assert (Hl : zlen inp = zlen pre + block_size (Some v) + block_size p) by (rewrite Hi, !zlen_app, !block_bytes_size; lia).
  rewrite (proj2 (Z.ltb_lt _ _)) by (cbn [block_size] in Hl; lia).
  rewrite (read_block inp pre 1 v (block_bytes 254 p)); [|done..|unfold MAX_CONFIRMED_OPTIONS, u16_max in *; lia|done].
  replace (1 =? 1) with true by done. destruct (_ || _) eqn:E.
  { repeat (apply orb_true_iff in E as [E|E]); try done; breflect; lia. }
  rewrite <- (block_bytes_size 1 (Some v)), <- zlen_app. apply Hpad. by rewrite <- app_assoc.
Qed.

Lemma land_flags f : fits 8 f → Z.land f 254 = 0 ↔ f = 0 ∨ f = 1.
Proof.
  intros Hf. split; [|intros [-> | ->]; done]. intros Hl. unfold fits in Hf.
  assert (Hb : ∀ n, 1 ≤ n → Z.testbit f n = false).
  { intros n Hn. destruct (decide (n < 8)) as [Hlt|Hge].
    - assert (Ht : Z.testbit (Z.land f 254) n = false) by (by rewrite Hl, Z.bits_0).
      rewrite Z.land_spec in Ht. apply andb_false_iff in Ht as [Ht|Ht]; [done|].
      assert (n = 1 ∨ n = 2 ∨ n = 3 ∨ n = 4 ∨ n = 5 ∨ n = 6 ∨ n = 7) as Hc by lia. by repeat destruct Hc as [->|Hc]; subst.
    - rewrite <- (Z.mod_small f (2 ^ 8)) by lia. apply Z.mod_pow2_bits_high. lia. }
  destruct (Z.testbit f 0) eqn:E0; [right|left]; apply Z.bits_inj'; intros n Hn;
    (destruct (Z.eq_dec n 0) as [->|]; [done|rewrite Hb by lia]).
  - symmetry. change 1 with (2 ^ 0). by apply Z.pow2_bits_false; lia.
  - by rewrite Z.bits_0.
Qed.

Lemma payload_new_ok ri o p q :
  confirmed_payload_new ri o p = Ok q ↔
    q = mkPayload ri o p ∧ 0 < zlen ri ∧ (∀ v, o = Some v → zlen v ≤ MAX_CONFIRMED_OPTIONS) ∧
    payload_encoded_len q ≤ MAX_SESSION_CONFIRMED_PART2_PLAINTEXT.
Proof.
  unfold confirmed_payload_new. cbv zeta. pose proof (zlen_nonneg ri). split.
  - repeat case_match; try done. intros <-%Ok_inj. breflect. split_and!; [done|lia| |done].
    intros v ->. cbn [longer_than] in *. by breflect.
  - intros (-> & Hr & Ho & Ht). pose proof Ht as Ht'. unfold payload_encoded_len in Ht'. cbn [cp_router_info cp_options cp_padding] in Ht'.
    pose proof (block_size_nonneg o). pose proof (block_size_nonneg p).
    assert (longer_than o MAX_CONFIRMED_OPTIONS = false) as ->.
    { destruct o as [v|]; [|done]. cbn [longer_than]. rewrite Z.gtb_ltb. by apply Z.ltb_ge, Ho. }
    assert (longer_than p MAX_SESSION_CONFIRMED_PART2_PLAINTEXT = false) as ->.
    { destruct p as [v|]; [|done]. cbn [longer_than block_size] in *. rewrite Z.gtb_ltb. apply Z.ltb_ge. lia. }
    change (false || false) with false. destruct (_ || _) eqn:E1.
    { unfold MAX_SESSION_CONFIRMED_PART2_PLAINTEXT, MAX_ROUTER_INFO_PAYLOAD in *. apply orb_true_iff in E1 as [|]; breflect; lia. }
    destruct (_ >? MAX_SESSION_CONFIRMED_PART2_PLAINTEXT) eqn:E2; breflect; [lia|done].
Qed.

(** A payload is accepted exactly when it holds a RouterInfo block with a
    flags byte of 0 or 1, then at most one options block, then at most one
    padding block. *)
Lemma payload_exact w maximum p (Hok : bytes_ok w) :
  confirmed_payload_decode w maximum = Ok p ↔
    payload_ok maximum p ∧ ∃ flags, (flags = 0 ∨ flags = 1) ∧ w = payload_bytes flags p.
Proof.
  unfold confirmed_payload_decode. split.
  - destruct (_ || _) eqn:E; [done|]. breflect. destruct (confirmed_payload_read _ _ _) as [off [q|]] eqn:Hread; [|done].
    intros <-%Ok_inj. unfold confirmed_payload_read in Hread. change 0 with (zlen (@nil Z)) in Hread at 2.
    destruct (read_header_inv w [] w _ _ _ eq_refl Hok Hread) as (kind & n & r & -> & Hk & Hn & H'). cbn [app] in H'.
    destruct (_ || _) eqn:E1; [done|]. breflect. subst kind. unfold mbind, M_bind in H'.
    destruct (checked_range _ n _) as [o [b|?]] eqn:R; [|done].
    destruct (range_inv_app _ (2 :: to_be 2 n) r _ _ _ eq_refl R) as (r' & -> & Hb & ->); [lia|].
    destruct b as [|flags ri]; [rewrite zlen_nil in Hb; lia|]. cbn [head default tail] in H'.
    destruct (negb _) eqn:E2; [done|]. breflect. destruct (_ || _) eqn:E3; [done|]. breflect.
    assert (Hf : is_u8 flags). { rewrite Forall_cons, !Forall_app, Forall_cons in Hok. by destruct Hok as (_ & _ & [? _] & _). }
    destruct (payload_blocks _ _ _ _ _) as [o' [bs|?]] eqn:Hbs; [|done].
    change (2 :: to_be 2 n ++ ?x) with ((2 :: to_be 2 n) ++ x) in Hok, Hbs |- *. rewrite app_assoc in Hok, Hbs |- *.
    destruct (payload_blocks_sound _ _ _ r' _ _ _ _ eq_refl Hok Hbs) as (op & pad & -> & Ho & Hp & ->).
    unfold lift in H'. injection H' as _ H'. apply payload_new_ok in H' as (-> & Hri & _ & Ht).
    cbn [fst snd] in *. rewrite zlen_cons in Hb. split.
    + constructor; cbn [cp_router_info cp_options]; [lia| |by destruct op, pad]. intros v Hv. apply (Ho v). by destruct op.
    + exists flags. split; [by apply land_flags|]. unfold payload_bytes. cbn [cp_router_info cp_options cp_padding block_bytes].
      rewrite zlen_cons, Hb. by destruct op, pad.
  - intros [[Hri Ho Ht] (flags & Hf & ->)]. pose proof (payload_bytes_len flags p) as Hl.
    pose proof (block_size_nonneg (cp_options p)). pose proof (block_size_nonneg (cp_padding p)).
    pose proof Ht as Ht'. unfold payload_encoded_len in Ht'. assert (Hm : MAX_SESSION_CONFIRMED_PART2_PLAINTEXT = 65471) by done.
    destruct (_ || _) eqn:E; [rewrite Hl in E; apply orb_true_iff in E as [E|E]; breflect; unfold payload_encoded_len in E; lia|].
    set (ri := cp_router_info p) in *. set (rest := block_bytes 1 (cp_options p) ++ block_bytes 254 (cp_padding p)).
    assert (Hw : payload_bytes flags p = (2 :: to_be 2 (zlen (flags :: ri))) ++ (flags :: ri) ++ rest)
      by (unfold payload_bytes; cbn [block_bytes app]; by rewrite <- app_assoc).
    assert (Hu : zlen (payload_bytes flags p) ≤ usize_max) by (rewrite Hl; unfold usize_max; lia).
    unfold confirmed_payload_read. pose proof (zlen_cons flags ri) as Hc.
    rewrite (read_header _ [] 2 (zlen (flags :: ri)) ((flags :: ri) ++ rest)); [|done..|unfold fits; lia|done].
    destruct (negb (2 =? 2) || _) eqn:E1; [apply orb_true_iff in E1 as [|]; breflect; lia|].
    assert (Hh : zlen (2 :: to_be 2 (zlen (flags :: ri))) = 0 + 3) by (by rewrite zlen_cons, zlen_to_be).
    unfold mbind, M_bind. rewrite (range_app _ (2 :: to_be 2 (zlen (flags :: ri))) (flags :: ri) rest) by done.
    cbn [head default from_option id tail]. rewrite (proj2 (land_flags flags ltac:(unfold fits; lia)) Hf). cbn [Z.eqb negb].
    destruct ((zlen ri =? 0) || _ || _) eqn:E2; [repeat (apply orb_true_iff in E2 as [E2|E2]); breflect; unfold MAX_ROUTER_INFO_PAYLOAD in *; lia|].
    rewrite <- Hh, <- zlen_app.
    rewrite (payload_blocks_complete _ _ ((2 :: to_be 2 (zlen (flags :: ri))) ++ flags :: ri) (cp_options p) (cp_padding p)).
    + cbn [lift snd fst]. apply payload_new_ok. split_and!; [by destruct p|lia|by intros v Hv; apply Ho|done].
    + by rewrite Hw, <- app_assoc.
    + done.
    + rewrite Hw in Hl |- *. unfold zlen in Hl. rewrite !length_app in *. cbn [length] in *. rewrite length_to_be in *. lia.
    + done.
    + intros v Hv. rewrite Hv in Ht'. cbn [block_size] in Ht'. unfold u16_max. lia.
Qed.

(** What the encoder writes is read back. *)
Lemma payload_roundtrip maximum p : payload_ok maximum p →
  confirmed_payload_encode p = Some (payload_bytes 0 p) ∧
  (bytes_ok (payload_bytes 0 p) → confirmed_payload_decode (payload_bytes 0 p) maximum = Ok p).
Proof.
  intros Hp. split; [|intros Hok; apply payload_exact; [done|]; split; [done|]; exists 0; auto].
  destruct Hp as [Hri Ho Ht]. unfold payload_encoded_len in Ht.
  pose proof (block_size_nonneg (cp_options p)). pose proof (block_size_nonneg (cp_padding p)).
  assert (Hm : MAX_SESSION_CONFIRMED_PART2_PLAINTEXT = 65471) by done.
  assert (Hb : ∀ kind b, zlen b ≤ u16_max → payload_block kind b = Some (block_bytes kind (Some b))).
  { intros kind b Hb. unfold payload_block, try_from. by rewrite (proj2 (Z.leb_le _ _) Hb). }
  assert (Hob : ∀ kind o, block_size o ≤ 65535 → optional_block kind o = Some (block_bytes kind o)).
  { intros kind [b|] Hs; [|done]. apply Hb. cbn [block_size] in Hs. unfold u16_max. lia. }
  unfold confirmed_payload_encode. rewrite Hb by (rewrite zlen_cons; unfold u16_max; lia). cbn [mbind option_bind].
  rewrite !Hob by lia. done.
Qed.

(** ** Replay protection *)
Record replay_call := mkCall { call_token : bytes; call_now : Z; call_retention : Z }.
Fixpoint decisions (calls : list replay_call) (c : ReplayCache) : list ReplayCacheDecision :=
  match calls with
  | [] => []
  | a :: calls' =>
      let '(c, d) := check_and_record (call_token a) (call_now a) (call_retention a) c in d :: decisions calls' c
  end.

Lemma check_keeps token now retention c k e :
  rp_entries c !! k = Some e → now < e →
  rp_entries (check_and_record token now retention c).1 !! k = Some e ∧
  (token = k → (check_and_record token now retention c).2 = CacheReplayed).
Proof.
  intros Hk Hn. assert (Hf : filter (λ x : bytes * Z, x.2 > now) (rp_entries c) !! k = Some e).
  { apply map_lookup_filter_Some. split; [done|cbn; lia]. }
  unfold check_and_record. cbv zeta. destruct (bool_decide (is_Some _)) eqn:E1.
  { done. }
  assert (token ≠ k) by (intros ->; apply bool_decide_eq_false in E1; rewrite Hf in E1; eauto).
  destruct (_ >=? _); cbn [fst snd rp_entries]; [done|]. by rewrite lookup_insert_ne.
Qed.

Lemma check_fresh token now retention c :
  (check_and_record token now retention c).2 = CacheFresh →
  rp_entries (check_and_record token now retention c).1 !! token = Some (saturating_add u64_max now retention).
Proof.
  unfold check_and_record. cbv zeta. repeat case_match; try done. intros _. cbn. apply lookup_insert_eq.
Qed.

Lemma kept_rejects calls c k e b j :
  rp_entries c !! k = Some e → calls !! j = Some b → call_token b = k →
  (∀ a, a ∈ take (S j) calls → call_now a < e) → decisions calls c !! j = Some CacheReplayed.
Proof.
  revert c j. induction calls as [|a calls IH]; intros c j Hk Hb Ht Hn; [done|]. cbn [decisions].
  assert (Ha : call_now a < e) by (apply Hn; cbn; left).
  pose proof (check_keeps (call_token a) (call_now a) (call_retention a) c k e Hk Ha) as [Hkeep Hrej].
  destruct (check_and_record _ _ _ _) as [c' d]. cbn [fst snd] in *. destruct j as [|j].
  - injection Hb as ->. cbn. by rewrite Hrej.
  - cbn [lookup list_lookup]. apply (IH c' j); [done..|]. intros x Hx. apply Hn. cbn. by right.
Qed.

Lemma fresh_twice calls c i j a b :
  StronglySorted (λ x y, call_now x ≤ call_now y) calls → (i < j)%nat → calls !! i = Some a → calls !! j = Some b →
  call_token a = call_token b → decisions calls c !! i = Some CacheFresh → decisions calls c !! j = Some CacheFresh →
  saturating_add u64_max (call_now a) (call_retention a) ≤ call_now b.
Proof.
  revert c i j. induction calls as [|x calls IH]; intros c i j Hs Hij Ha Hb Ht Hi Hj; [done|].
  apply StronglySorted_inv in Hs as [Hs Hx]. destruct j as [|j]; [lia|]. cbn [decisions] in Hi, Hj.
  destruct i as [|i].
  - injection Ha as ->. pose proof (check_fresh (call_token a) (call_now a) (call_retention a) c) as Hf.
    destruct (check_and_record _ _ _ _) as [c' d]. cbn in Hi, Hf. injection Hi as ->. specialize (Hf eq_refl).
    change (calls !! j = Some b) in Hb.
    destruct (Z.le_gt_cases (saturating_add u64_max (call_now a) (call_retention a)) (call_now b)) as [|Hlt]; [done|].
    exfalso. assert (Hj' : decisions calls c' !! j = Some CacheFresh) by exact Hj.
    enough (decisions calls c' !! j = Some CacheReplayed) by congruence.
    apply (kept_rejects calls c' (call_token a) _ b j Hf Hb (eq_sym Ht)).
    intros y Hy. apply list_elem_of_lookup in Hy as [n Hn]. apply lookup_take_Some in Hn as [Hn Hlt'].
    destruct (decide (n = j)) as [->|]; [by rewrite Hb in Hn; injection Hn as <-|].
    enough (call_now y ≤ call_now b) by lia.
    clear -Hs Hn Hb Hlt' n0. revert n j Hn Hb Hlt' n0. induction Hs as [|z l Hl IH Hz]; intros n j Hn Hb Hlt Hne; [done|].
    destruct j as [|j]; [destruct n; [done|lia]|]. cbn in Hb. destruct n as [|n]; cbn in Hn.
    + injection Hn as ->. rewrite Forall_lookup in Hz. by eapply Hz.
    + eapply IH; [done..|lia|congruence].
  - destruct (check_and_record _ _ _ _) as [c' d]. apply (IH c' i j); try done. lia.
Qed.

Lemma check_bounded token now retention c :
  Z.of_nat (size (rp_entries c)) ≤ rp_maximum c →
  Z.of_nat (size (rp_entries (check_and_record token now retention c).1)) ≤ rp_maximum c.
Proof.
  intros Hb. unfold check_and_record. cbv zeta.
  assert (Hle : (size (filter (λ e : bytes * Z, (e.2 > now)%Z) (rp_entries c)) ≤ size (rp_entries c))%nat).
  { apply map_subseteq_size, map_filter_subseteq. }
  destruct (bool_decide _) eqn:E; [cbn; lia|]. destruct (_ >=? _) eqn:E2; breflect; cbn [fst rp_entries]; [lia|].
  apply bool_decide_eq_false in E. rewrite map_size_insert_None by (by apply eq_None_not_Some). cbn in E2. lia.
Qed.

Lemma classify_exact s l p : skew_classify s l p = Ok () ↔ Z.abs (p - l) ≤ sk_maximum_delta s.
Proof. unfold skew_classify. cbv zeta. repeat case_match; breflect; split; (done || lia). Qed.

(** ** Base64 *)
Abbreviation digits_value := (radix_value 6).

(** Six-bit digits repacked as bytes, less than a byte waiting. *)
Definition base64_inv (ds : list Z) (accumulator bits : Z) (output : bytes) : Prop := packed 6 8 ds accumulator bits output ∧ bits < 8.

Lemma base64_digit_range b d : base64_digit b = Some d → 0 ≤ d < 64.
Proof. unfold base64_digit. repeat case_match; intros [= <-]; breflect; lia. Qed.

Lemma base64_step ds acc bits out b d :
  base64_inv ds acc bits out → base64_digit b = Some d →
  let acc' := Z.lor (Z.shiftl acc 6 mod 2 ^ 32) d in
  saturating_add u8_max bits 6 = bits + 6 ∧
  (8 ≤ bits + 6 → base64_inv (ds ++ [d]) acc' (bits - 2) (out ++ [Z.land (Z.shiftr acc' (bits - 2)) 255])) ∧
  (bits + 6 < 8 → base64_inv (ds ++ [d]) acc' (bits + 6) out).
Proof.
  intros [Hp Hb] Hd%base64_digit_range acc'. pose proof (pk_bits _ _ _ _ _ _ Hp) as Hb0.
  apply (packed_in 6 8 _ _ _ _ d) in Hp; [|lia|done|lia]. fold acc' in Hp. split_and!; [unfold saturating_add, u8_max; lia| |by split].
  intros Hge. apply packed_out in Hp; [|lia..]. replace (bits + 6 - 8) with (bits - 2) in Hp by lia. split; [done|lia].
Qed.

Lemma base64_loop_sound n l ds acc bits out acc' bits' out' :
  base64_inv ds acc bits out → base64_loop n l acc bits out = Some (acc', bits', out') →
  ∃ ds', mapM base64_digit l = Some ds' ∧ base64_inv (ds ++ ds') acc' bits' out'.
Proof.
  revert ds acc bits out. induction l as [|b l IH]; intros ds acc bits out Hi H; cbn [base64_loop] in H.
  - injection H as <- <- <-. exists []. by rewrite app_nil_r.
  - cbn [mapM]. destruct (base64_digit b) as [d|] eqn:Ed; [|done]. cbn [mbind option_bind] in H |- *.
    destruct (base64_step ds acc bits out b d Hi Ed) as (Hs & H1 & H2). rewrite Hs in H.
    assert (∃ acc1 bits1 out1, base64_inv (ds ++ [d]) acc1 bits1 out1 ∧ base64_loop n l acc1 bits1 out1 = Some (acc', bits', out')) as (? & ? & ? & Hi' & H').
    { destruct (8 <=? _) eqn:E8; breflect.
      - replace (bits + 6 - 8) with (bits - 2) in H by lia. destruct (_ >? n); [done|].
        eexists _, _, _. split; [apply H1; lia|done].
      - eexists _, _, _. split; [apply H2; lia|done]. }
    destruct (IH _ _ _ _ Hi' H') as (ds' & -> & Hinv). exists (d :: ds'). split; [done|].
    by rewrite <- app_assoc in Hinv.
Qed.

Lemma base64_loop_total n l ds ds' acc bits out :
  base64_inv ds acc bits out → mapM base64_digit l = Some ds' → 6 * (zlen ds + zlen ds') < 8 * (n + 1) →
  is_Some (base64_loop n l acc bits out).
Proof.
  revert ds ds' acc bits out. induction l as [|b l IH]; intros ds ds' acc bits out Hi Hm Hn; cbn [base64_loop]; [eauto|].
  cbn [mapM] in Hm. destruct (base64_digit b) as [d|] eqn:Ed; [|done]. cbn [mbind option_bind] in Hm |- *.
  destruct (mapM base64_digit l) as [ds1|] eqn:El; [|done]. injection Hm as <-. rewrite zlen_cons in Hn.
  destruct (base64_step ds acc bits out b d Hi Ed) as (-> & H1 & H2).
  assert (Hn' : 6 * (zlen (ds ++ [d]) + zlen ds1) < 8 * (n + 1)) by (rewrite zlen_app, zlen_one; lia).
  destruct (8 <=? _) eqn:E8; breflect; [|by eapply IH; eauto].
  replace (bits + 6 - 8) with (bits - 2) by lia. specialize (H1 E8). destruct (_ >? n) eqn:E9; breflect; [|by eapply IH; eauto].
  exfalso. destruct H1 as [[_ Hb1 Hl1 _ _] H8]. pose proof (zlen_nonneg ds1). lia.
Qed.

Lemma skip_to_padding_nil value : zlen (skip_to_padding value) = 0 ↔ 61 ∉ value.
Proof.
  induction value as [|b l IH]; cbn [skip_to_padding]; [split; [intros _; apply not_elem_of_nil|done]|].
  destruct (b =? 61) eqn:E; breflect.
  - subst. split; [rewrite zlen_cons; pose proof (zlen_nonneg l); lia|]. intros H. destruct H. left.
  - rewrite IH, not_elem_of_cons. naive_solver.
Qed.
Lemma skip_to_padding_one value : zlen (skip_to_padding value) = 1 ↔ (∃ l, value = l ++ [61] ∧ 61 ∉ l).
Proof.
  induction value as [|b l IH]; cbn [skip_to_padding].
  { split; [done|]. by intros ([] & ? & _). }
  destruct (b =? 61) eqn:E; breflect.
  - subst. rewrite zlen_cons. split.
    + intros H. assert (l = []) as -> by (apply zlen_0_nil; lia). exists []. split; [done|apply not_elem_of_nil].
    + intros ([|x l'] & Hl & Hn); [by injection Hl as ->|]. injection Hl as <- ->. destruct Hn. left.
  - rewrite IH. split.
    + intros (l' & -> & Hn). exists (b :: l'). split; [done|]. rewrite not_elem_of_cons. naive_solver.
    + intros ([|x l'] & Hl & Hn); [by injection Hl as ->|]. injection Hl as <- ->. rewrite not_elem_of_cons in Hn. exists l'. naive_solver.
Qed.

Lemma digits_not_padding l ds : mapM base64_digit l = Some ds → (61 ∉ l) ∧ zlen ds = zlen l.
Proof.
  revert ds. induction l as [|b l IH]; intros ds; cbn [mapM].
  - intros [= <-]. split; [apply not_elem_of_nil|done].
  - destruct (base64_digit b) as [d|] eqn:Ed; [|done]. cbn [mbind option_bind]. destruct (mapM _ l) as [ds1|]; [|done].
    intros [= <-]. destruct (IH ds1 eq_refl) as [Hn Hl]. rewrite not_elem_of_cons, !zlen_cons. split; [split; [by intros <-|done]|lia].
Qed.

Lemma unpadded_bits n : 0 < n → 8 * n ≤ 6 * unpadded_length n < 8 * (n + 1).
Proof.
  intros Hn. unfold unpadded_length. pose proof (Z.div_mod n 3 ltac:(done)). pose proof (Z.mod_pos_bound n 3 ltac:(done)).
  repeat case_match; breflect; lia.
Qed.

Lemma base64_inv_nil : base64_inv [] 0 0 [].
Proof. split; [apply packed_nil|lia]. Qed.

(** The spelling of a value: its digits, with or without one padding sign. *)
Definition base64_spelling (n : Z) (value digits : bytes) : Prop :=
  value = digits ∨ n mod 3 ≠ 0 ∧ value = digits ++ [61].

(** A string decodes to [out] exactly when its digits are, as a number in base
    64, the bytes as a number in base 256, shifted by the unused low bits. *)
Lemma base64_exact value n out (Hn : 0 < n) :
  decode_i2p_base64 value n = Some out ↔
    zlen out = n ∧ bytes_ok out ∧ ∃ digits ds, base64_spelling n value digits ∧ mapM base64_digit digits = Some ds ∧
      zlen ds = unpadded_length n ∧ digits_value ds = from_be out * 2 ^ (6 * unpadded_length n - 8 * n).
Proof.
  pose proof (unpadded_bits n Hn) as Hbits. unfold decode_i2p_base64.
  rewrite (proj2 (Z.eqb_neq n 0)) by lia. cbv zeta. set (u := unpadded_length n) in *.
  set (one := if n mod 3 =? 0 then 0 else 1).
  assert (Hsplit : ∀ digits, zlen digits = u → 61 ∉ digits → base64_spelling n value digits →
    take (Z.to_nat u) value = digits ∧
    (negb ((zlen (skip_to_padding value) =? 0) && (zlen value =? u)) &&
     negb ((zlen value =? u + one) && (zlen (skip_to_padding value) =? one))) = false ∧
    (zlen (skip_to_padding value) >? 0) && negb (forallb (λ b, b =? 61) (drop (Z.to_nat u) value)) = false).
  { intros digits Hl Hnp [-> | [Hmod ->]].
    - rewrite (proj2 (skip_to_padding_nil digits) Hnp), Hl, !Z.eqb_refl. split_and!; [|done..].
      rewrite <- Hl. unfold zlen. by rewrite Nat2Z.id, firstn_all.
    - assert (Hs : zlen (skip_to_padding (digits ++ [61])) = 1) by (apply skip_to_padding_one; eauto).
      assert (Ho : one = 1) by (unfold one; by rewrite (proj2 (Z.eqb_neq _ _) Hmod)). rewrite Hs, Ho, zlen_app, Hl, !Z.eqb_refl.
      change (zlen [61]) with 1. rewrite ?Z.eqb_refl. split_and!; [|by rewrite ?andb_false_r|].
      + rewrite <- Hl. unfold zlen. by rewrite Nat2Z.id, take_app_length.
      + rewrite <- Hl. unfold zlen. by rewrite Nat2Z.id, drop_app_length. }
  split.
  - destruct (negb _ && negb _) eqn:E1; [done|]. destruct ((_ >? 0) && _) eqn:E2; [done|].
    destruct (base64_loop _ _ _ _ _) as [[[acc bits] o]|] eqn:El; [|done]. cbn [mbind option_bind].
    destruct (_ || _) eqn:E3; [done|]. intros [= <-]. apply orb_false_iff in E3 as [E3 E4]. breflect.
    destruct (base64_loop_sound _ _ _ _ _ _ _ _ _ base64_inv_nil El) as (ds & Hm & [[Ha Hb Hlen Hok Hv] Hb8]). rewrite radix_value_bytes in Hv. cbn [app] in *.
    assert (Hz : acc mod 2 ^ bits = 0).
    { destruct (bits >? 0) eqn:E5; breflect; [|replace bits with 0 by lia; apply Z.mod_1_r].
      cbn [andb] in E4. breflect. rewrite Z.shiftl_mul_pow2, Z.mul_1_l in E4 by lia.
      replace (2 ^ bits - 1) with (Z.ones bits) in E4 by (rewrite Z.ones_equiv; lia). by rewrite Z.land_ones in E4 by lia. }
    destruct (digits_not_padding _ _ Hm) as [Hnp Hdl].
    assert (∃ digits, base64_spelling n value digits ∧ zlen digits = u ∧ take (Z.to_nat u) value = digits) as (digits & Hsp & Hu & Htake).
    { assert (Hcase : zlen value = u ∧ zlen (skip_to_padding value) = 0 ∨ n mod 3 ≠ 0 ∧ zlen value = u + 1 ∧ zlen (skip_to_padding value) = 1).
      { apply andb_false_iff in E1 as [E1|E1]; breflect; [auto|]. unfold one in *. destruct (n mod 3 =? 0) eqn:E6; breflect; [left; lia|right; lia]. }
      destruct Hcase as [[Hlv _]|(Hmod & Hlv & (l & -> & Hl)%skip_to_padding_one)].
      - exists value. split_and!; [by left|done|]. rewrite <- Hlv. unfold zlen. by rewrite Nat2Z.id, firstn_all.
      - rewrite zlen_app in Hlv. change (zlen [61]) with 1 in Hlv. exists l. split_and!; [by right|lia|].
        replace u with (zlen l) by lia. unfold zlen. by rewrite Nat2Z.id, take_app_length. }
    rewrite Htake in Hm, Hdl. split_and!; [done..|]. exists digits, ds. split_and!; [done..|lia|].
    rewrite <- Hv, Hz. replace (6 * u - 8 * n) with bits by lia. lia.
  - intros (Hl & Hok & digits & ds & Hsp & Hm & Hu & Hv). destruct (digits_not_padding _ _ Hm) as [Hnp Hdl].
    destruct (Hsplit digits ltac:(lia) Hnp Hsp) as (-> & -> & ->).
    destruct (base64_loop_total n digits [] ds 0 0 [] base64_inv_nil Hm) as [[[acc bits] o] El]; [rewrite zlen_nil; lia|].
    rewrite El. cbn [mbind option_bind]. destruct (base64_loop_sound _ _ _ _ _ _ _ _ _ base64_inv_nil El) as (ds' & Hm' & [[Ha Hb Hlen Hok' Hv'] Hb8]). rewrite radix_value_bytes in Hv'.
    rewrite Hm in Hm'. injection Hm' as <-. cbn [app] in *. assert (Hn' : zlen o = n) by lia. assert (Hbits' : bits = 6 * u - 8 * n) by lia.
    assert (Hp : 0 < 2 ^ bits) by (apply Z.pow_pos_nonneg; lia). pose proof (Z.mod_pos_bound acc _ Hp).
    rewrite <- Hbits' in Hv. assert (Ho : from_be o = from_be out).
    { transitivity (digits_value ds / 2 ^ bits); [by rewrite <- Hv', Z.div_add_l, Z.div_small, Z.add_0_r by lia|by rewrite Hv, Z.div_mul by lia]. }
    assert (Hz : acc mod 2 ^ bits = 0) by (rewrite Ho in Hv'; lia).
    assert (o = out) as ->.
    { rewrite <- (to_from_be o Hok'), <- (to_from_be out Hok), Ho. f_equal. unfold zlen in *. lia. }
    rewrite (proj2 (Z.eqb_eq _ _) Hl). rewrite Z.shiftl_mul_pow2, Z.mul_1_l by lia.
    replace (2 ^ bits - 1) with (Z.ones bits) by (rewrite Z.ones_equiv; lia). rewrite Z.land_ones, Hz by lia.
    by rewrite andb_false_r.
Qed.

(** *** What the decoder promises *)

(** I2P's alphabet, the digit of a sign being its place in it.  The decoder takes
    the signs [+] and [/] of the standard alphabet too, for the last two digits. *)
Definition base64_alphabet : bytes := (λ a, Z.of_N (Ascii.N_of_ascii a)) <$>
  String.list_ascii_of_string "ABCDEFGHIJKLMNOPQRSTUVWXYZabcdefghijklmnopqrstuvwxyz0123456789-~".
Definition base64_char (b d : Z) : Prop :=
  0 ≤ d ∧ base64_alphabet !! Z.to_nat d = Some b ∨ b = 43 ∧ d = 62 ∨ b = 47 ∧ d = 63.
(** The text spells the [n] bytes [out]. *)
Definition base64_text (n : Z) (value out : bytes) : Prop :=
  zlen out = n ∧ bytes_ok out ∧
  ∃ digits ds, base64_spelling n value digits ∧ Forall2 base64_char digits ds ∧
    zlen ds = (8 * n + 5) / 6 ∧ digits_value ds = from_be out * 2 ^ (6 * zlen ds - 8 * n).

Lemma base64_digit_char b d : base64_digit b = Some d ↔ base64_char b d.
Proof.
  assert (Hback : Forall (λ p : nat * Z, base64_digit p.2 = Some (Z.of_nat p.1)) (imap pair base64_alphabet)) by (vm_compute; repeat constructor).
  split.
  - intros Hd. pose proof (base64_digit_range b d Hd) as Hr.
    assert (Hb : 0 ≤ b < 128) by (revert Hd; unfold base64_digit; repeat case_match; breflect; intros [= <-]; lia).
    assert (Hall : Forall (λ b, from_option (λ d, base64_alphabet !! Z.to_nat d = Some b ∨ b = 43 ∧ d = 62 ∨ b = 47 ∧ d = 63) True (base64_digit b)) (seqZ 0 128)).
    { set (l := seqZ 0 128). vm_compute in l. unfold l. repeat (constructor; [vm_compute; tauto|]). constructor. }
    rewrite Forall_forall in Hall. specialize (Hall b ltac:(apply elem_of_seqZ; lia)). rewrite Hd in Hall. cbn in Hall. unfold base64_char. naive_solver lia.
  - intros [[Hd Ha]|[[-> ->]|[-> ->]]]; [|done..]. rewrite Forall_lookup in Hback. specialize (Hback (Z.to_nat d) (Z.to_nat d, b)).
    rewrite list_lookup_imap, Ha in Hback. specialize (Hback eq_refl). cbn in Hback. by rewrite Z2Nat.id in Hback by lia.
Qed.

Lemma unpadded_length_eq n : 0 < n → unpadded_length n = (8 * n + 5) / 6.
Proof.
  intros Hn. unfold unpadded_length. pose proof (Z.div_mod n 3 ltac:(done)). pose proof (Z.mod_pos_bound n 3 ltac:(done)).
  repeat case_match; breflect; [apply (Z.div_unique _ _ _ 5)|apply (Z.div_unique _ _ _ 1)|apply (Z.div_unique _ _ _ 3)]; lia.
Qed.

Lemma base64_text_iff value n out (Hn : 0 < n) : decode_i2p_base64 value n = Some out ↔ base64_text n value out.
Proof.
  rewrite base64_exact by done. rewrite unpadded_length_eq by done. unfold base64_text.
  assert (Hm : ∀ digits ds, mapM base64_digit digits = Some ds ↔ Forall2 base64_char digits ds).
  { intros digits ds. rewrite mapM_Some. split; intros H; (eapply Forall2_impl; [exact H|]); intros b d; apply base64_digit_char. }
  split; intros (H1 & H2 & digits & ds & H3 & H4 & H5 & H6); (split_and!; [done..|]); exists digits, ds; (split_and!; [done|by apply Hm|done|]).
  - by rewrite H5.
  - by rewrite H5 in H6.
Qed.

(** ** The RouterInfo of the peer *)

(** The parts between the commas of a text. *)
Fixpoint join_commas (parts : list bytes) : bytes :=
  match parts with
  | [] => []
  | [part] => part
  | part :: parts' => part ++ 44 :: join_commas parts'
  end.

Lemma split_commas_join v : split_commas v ≠ [] ∧ Forall (λ part, 44 ∉ part) (split_commas v) ∧ join_commas (split_commas v) = v.
Proof.
  induction v as [|b v (Hne & Hf & Hj)]; cbn [split_commas].
  { split_and!; [done| |done]. constructor; [apply not_elem_of_nil|constructor]. }
  destruct (split_commas v) as [|part parts]; [done|]. destruct (b =? 44) eqn:E; breflect.
  - subst b. split_and!; [done| |]; [constructor; [apply not_elem_of_nil|done]|].
    change (join_commas ([] :: part :: parts)) with (44 :: join_commas (part :: parts)). by rewrite Hj.
  - apply Forall_cons in Hf as [Hp Hf]. split_and!; [done| |].
    + constructor; [|done]. rewrite not_elem_of_cons. split; [by intros <-|done].
    + destruct parts; cbn [join_commas app] in *; by rewrite Hj.
Qed.
Lemma split_no_comma part : 44 ∉ part → split_commas part = [part].
Proof.
  induction part as [|b l IH]; [done|]. rewrite not_elem_of_cons. intros [Hb Hl]. cbn [split_commas]. rewrite (IH Hl).
  destruct (b =? 44) eqn:E; breflect; [by subst|done].
Qed.
Lemma split_comma_app part v : 44 ∉ part → split_commas (part ++ 44 :: v) = part :: split_commas v.
Proof.
  induction part as [|b l IH]; [done|]. rewrite not_elem_of_cons. intros [Hb Hl]. cbn [split_commas app]. rewrite (IH Hl).
  destruct (b =? 44) eqn:E; breflect; [by subst|done].
Qed.
Lemma join_commas_split parts : parts ≠ [] → Forall (λ part, 44 ∉ part) parts → split_commas (join_commas parts) = parts.
Proof.
  intros Hne. induction 1 as [|part parts Hp Hf IH]; [done|]. destruct parts as [|p2 parts]; [by apply split_no_comma|].
  change (join_commas (part :: p2 :: parts)) with (part ++ 44 :: join_commas (p2 :: parts)). rewrite split_comma_app by done. by rewrite IH.
Qed.

(** The address offers NTCP2 in version 2 and publishes the text [encoded] as
    its static key. *)
Record publishes (a : RouterAddress) (encoded : bytes) : Prop := {
  pb_style : ra_transport_style a = [78; 84; 67; 80] ∨ ra_transport_style a = [78; 84; 67; 80; 50];
  pb_version : ∃ versions, mkMappingEntry [118] (join_commas versions) ∈ entries (ra_options a) ∧
    Forall (λ part, 44 ∉ part) versions ∧ [50] ∈ versions;
  pb_key : mkMappingEntry [115] encoded ∈ entries (ra_options a);
}.

Lemma offers_publishes a encoded : mapping_ok (ra_options a) → offers_ntcp2 a = Some encoded ↔ publishes a encoded.
Proof.
  intros Hm. assert (Hv : ∀ v, mapping_get (ra_options a) KEY_V = Some v ↔ mkMappingEntry [118] v ∈ entries (ra_options a))
    by (intros v; apply mapping_get_exact; [done|by apply text_b]).
  assert (Hs : ∀ v, mapping_get (ra_options a) KEY_S = Some v ↔ mkMappingEntry [115] v ∈ entries (ra_options a))
    by (intros v; apply mapping_get_exact; [done|by apply text_b]).
  unfold offers_ntcp2. split.
  - destruct (_ || _) eqn:Est; [|done]. cbn [negb]. destruct (mapping_get (ra_options a) KEY_V) as [v|] eqn:Ev; [|done]. cbn [mbind option_bind].
    destruct (existsb _ _) eqn:Ex; [|done]. cbn [negb]. intros Hk%Hs. specialize (proj1 (Hv v) eq_refl) as Hin.
    destruct (split_commas_join v) as (_ & Hf & Hj). constructor; [|exists (split_commas v)|done].
    + apply orb_true_iff in Est as [E|E]; apply bool_decide_eq_true in E; auto.
    + rewrite Hj. split_and!; [done..|]. apply existsb_exists in Ex as (x & Hx & E). apply bool_decide_eq_true in E as ->. by apply list_elem_of_In.
  - intros [Hst (vs & Hin & Hf & H2) Hk]. apply Hv in Hin. apply Hs in Hk. rewrite Hin. cbn [mbind option_bind].
    assert (bool_decide (ra_transport_style a = STYLE_NTCP) || bool_decide (ra_transport_style a = STYLE_NTCP2) = true) as ->.
    { apply orb_true_iff. destruct Hst as [E|E]; [left|right]; by apply bool_decide_eq_true. }
    cbn [negb]. rewrite join_commas_split; [|by intros ->; apply elem_of_nil in H2|done].
    assert (existsb (λ v, bool_decide (v = [50])) vs = true) as ->; [|done].
    apply existsb_exists. exists [50]. split; [by apply list_elem_of_In|done].
Qed.

(** The static key that all NTCP2 version 2 addresses with a key agree on. *)
Definition address_agrees (key : bytes) (a : RouterAddress) : Prop :=
  ∀ encoded, offers_ntcp2 a = Some encoded → address_key encoded = Ok key.
Definition agreed_key (addresses : list RouterAddress) (key : bytes) : Prop :=
  Exists (λ a, is_Some (offers_ntcp2 a)) addresses ∧ Forall (address_agrees key) addresses.
Definition published_key (addresses : list RouterAddress) (key : bytes) : Prop :=
  (∃ a encoded, a ∈ addresses ∧ publishes a encoded) ∧
  ∀ a encoded, a ∈ addresses → publishes a encoded → base64_text KEY_LENGTH encoded key ∧ Exists (λ b, b ≠ 0) key.

Lemma address_key_exact encoded key : address_key encoded = Ok key ↔ base64_text KEY_LENGTH encoded key ∧ Exists (λ b, b ≠ 0) key.
Proof.
  rewrite <- base64_text_iff by done. unfold address_key, public_key_new.
  assert (Hz : ∀ l : bytes, forallb (λ b, b =? 0) l = false ↔ Exists (λ b, b ≠ 0) l).
  { induction l as [|b l IH]; cbn [forallb]; [split; [done|by intros ?%Exists_nil]|]. rewrite Exists_cons, <- IH, andb_false_iff. by rewrite Z.eqb_neq. }
  destruct (decode_i2p_base64 encoded KEY_LENGTH) as [k|]; cbn [ok_or mbind result_bind]; [|split; [done|by intros [? _]]].
  destruct (forallb _ k) eqn:E; cbn [map_err].
  - split; [done|]. intros [[= ->] Hx%Hz]. congruence.
  - split; [intros <-%Ok_inj; split; [done|by apply Hz]|by intros [[= ->] _]].
Qed.

Lemma agreed_published addresses key : Forall (λ a, mapping_ok (ra_options a)) addresses → agreed_key addresses key ↔ published_key addresses key.
Proof.
  intros Hm. rewrite Forall_forall in Hm. unfold agreed_key, published_key. rewrite Exists_exists, Forall_forall. split.
  - intros [(a & Ha & [e He]) Hall]. split; [exists a, e; split; [done|by apply offers_publishes; [apply Hm|]]|].
    intros a' e' Ha' Hp. apply address_key_exact, (Hall a' Ha'). by apply offers_publishes; [apply Hm|].
  - intros [(a & e & Ha & Hp) Hall]. split; [exists a; split; [done|exists e; by apply offers_publishes; [apply Hm|]]|].
    intros a' Ha' e' He'. apply address_key_exact, (Hall a' e' Ha'). by apply offers_publishes; [apply Hm|].
Qed.

Lemma address_agrees_none key a : offers_ntcp2 a = None → address_agrees key a.
Proof. intros Ho encoded Hs. by rewrite Ho in Hs. Qed.
Lemma address_agrees_some key a encoded :
  offers_ntcp2 a = Some encoded → address_agrees key a ↔ address_key encoded = Ok key.
Proof. intros Ho. split; [intros H; by apply H|]. intros H enc' Hs. rewrite Ho in Hs. by injection Hs as <-. Qed.

Lemma find_static_key_found addresses old key :
  find_static_key addresses (Some old) = Ok (Some key) ↔ key = old ∧ Forall (address_agrees old) addresses.
Proof.
  induction addresses as [|a l IH]; cbn [find_static_key].
  { split; [by intros [= ->]|by intros [-> _]]. }
  rewrite Forall_cons. destruct (offers_ntcp2 a) as [enc|] eqn:Eo.
  - rewrite (address_agrees_some old a enc Eo). destruct (address_key enc) as [k|e]; cbn [mbind result_bind]; [|split; [done|by intros (_ & ? & _)]].
    destruct (decide (old = k)) as [<-|Hne].
    + rewrite bool_decide_eq_false_2 by (intros Hn; by apply Hn). rewrite IH. split; [by intros [? ?]|by intros (? & _ & ?)].
    + rewrite bool_decide_eq_true_2 by done. split; [done|]. intros (_ & [= ->] & _). by destruct Hne.
  - rewrite IH. split; [intros [? ?]; split_and!; [done|by apply address_agrees_none|done]|by intros (? & _ & ?)].
Qed.

Lemma find_static_key_exact addresses key :
  find_static_key addresses None = Ok (Some key) ↔ agreed_key addresses key.
Proof.
  unfold agreed_key. induction addresses as [|a l IH]; cbn [find_static_key].
  { split; [done|]. intros [H _]. by inversion H. }
  rewrite Forall_cons, Exists_cons. destruct (offers_ntcp2 a) as [enc|] eqn:Eo.
  - rewrite (address_agrees_some key a enc Eo). destruct (address_key enc) as [k|e]; cbn [mbind result_bind]; [|split; [done|by intros (_ & ? & _)]].
    rewrite find_static_key_found. split; [intros [-> ?]; split; [left; eauto|done]|by intros (_ & [= ->] & ?)].
  - rewrite IH. split; [intros [? ?]; split_and!; [by right|by apply address_agrees_none|done]|].
    intros ([[? ?]|?] & _ & ?); done.
Qed.

Section peer_exact.
Context (sha256 : bytes → bytes) (ed25519_key : bytes → bool) (ed25519_verify : bytes → bytes → bytes → bool).

Record peer_valid (bs : bytes) (maximum : Z) (expected_hash : option bytes) (static_key : bytes) (hash : bytes)
    (info : RouterInfo) : Prop := {
  pv_length : 0 < zlen bs ≤ maximum ∧ zlen bs ≤ MAX_ROUTER_INFO_PAYLOAD;
  pv_info : router_info_ok info;
  pv_bytes : router_info_encode info usize_max = Ok bs;
  pv_signed : signed_by ed25519_key ed25519_verify (signing_key (identity_keys (ri_identity info)))
                (ri_signed_bytes info) (ri_signature info);
  pv_hash : hash = sha256 (identity_bytes (ri_identity info));
  pv_expected : from_option (λ e, e = hash) True expected_hash;
  pv_x25519 : public_type (public_key (identity_keys (ri_identity info))) = Crypto.X25519;
  pv_key : published_key (ri_addresses info) static_key;
}.

Lemma info_mappings info : router_info_ok info → Forall (λ a, mapping_ok (ra_options a)) (ri_addresses info).
Proof. intros [Hu _ _]. eapply Forall_impl; [apply (proj1 (ruo_addresses _ _ _ _ _ _ Hu))|]. intros a Ha. apply (ao_options _ _ Ha). Qed.

Lemma peer_iff bs maximum expected_hash static_key peer (Hok : bytes_ok bs) (Hm : maximum ≤ usize_max) :
  validate_router_info sha256 ed25519_key ed25519_verify bs maximum expected_hash static_key = Ok peer ↔
    peer_static_key peer = static_key ∧ ∃ info, peer_valid bs maximum expected_hash static_key (peer_router_hash peer) info.
Proof.
  unfold validate_router_info. split.
  - destruct (_ || _) eqn:E; [done|]. breflect. destruct (router_info_decode _ _) as [info|] eqn:Ed; [|done].
    cbn [map_err mbind result_bind]. apply router_info_decode_iff in Ed as (_ & Hinfo & Henc); [|done..].
    destruct (verify_router_info _ _ _) as [[]|] eqn:Ev; [|done]. cbn [map_err mbind result_bind].
    apply verify_signature_exact in Ev. unfold router_identity_hash.
    rewrite identity_hash_bytes by apply (ruo_identity _ _ _ _ _ _ (rio_unsigned info Hinfo)). cbn [map_err mbind result_bind].
    destruct (match expected_hash with Some _ => _ | None => _ end) eqn:Ee; [done|]. apply expected_exact in Ee.
    destruct (bool_decide _) eqn:Et; [done|]. apply bool_decide_eq_false in Et.
    destruct (find_static_key _ _) as [[key|]|] eqn:Ef; [|done..]. cbn [ok_or mbind result_bind].
    destruct (bool_decide (key = _)) eqn:Ek; [|done]. apply bool_decide_eq_true in Ek as ->. cbn [negb]. intros <-%Ok_inj.
    split; [done|]. exists info. apply find_static_key_exact, agreed_published in Ef; [|by apply info_mappings]. pose proof (zlen_nonneg bs). constructor; try done; [lia|].
    destruct (decide (public_type (public_key (identity_keys (ri_identity info))) = Crypto.X25519)); [done|by destruct Et].
  - intros [Hs (info & [[Hl1 Hl2] Hinfo Henc Hsig Hh He Hx Hk])].
    destruct (_ || _) eqn:E; [repeat (apply orb_true_iff in E as [E|E]); breflect; lia|].
    rewrite (proj2 (router_info_decode_iff bs maximum info Hok Hm)) by (split_and!; [lia|done|done]). cbn [map_err mbind result_bind].
    unfold verify_router_info. rewrite (proj2 (verify_signature_exact _ _ _ _ _) Hsig). cbn [map_err mbind result_bind].
    unfold router_identity_hash. rewrite identity_hash_bytes by apply (ruo_identity _ _ _ _ _ _ (rio_unsigned info Hinfo)).
    cbn [map_err mbind result_bind]. rewrite (proj2 (expected_exact expected_hash _)) by (by rewrite <- Hh).
    rewrite bool_decide_eq_false_2 by (intros Hn; by apply Hn). rewrite (proj2 (find_static_key_exact _ _) (proj2 (agreed_published _ _ (info_mappings _ Hinfo)) Hk)).
    cbn [ok_or mbind result_bind]. rewrite bool_decide_eq_true_2 by done. cbn [negb]. by destruct peer; cbn in *; subst.
Qed.
End peer_exact.

Lemma decisions_length calls c : length (decisions calls c) = length calls.
Proof.
  revert c. induction calls as [|a l IH]; intros c; [done|]. cbn [decisions]. destruct (check_and_record _ _ _ _). cbn. by rewrite IH.
Qed.

(** ** Properties *)

(** C12: a peer is authenticated by its RouterInfo exactly when the bytes are the
    one encoding of a well-formed RouterInfo within the limits, signed by its
    own identity, with the expected identity hash if there is one and an
    X25519 identity key, and when it publishes the static key the handshake used: at least
    one address of style NTCP or NTCP2 has an option v that lists version 2 and
    an option s, and on every such address the text of s spells this key in base64, which is
    not all zero (an address of version 2 without an s is passed over).  The
    peer then has that static key and the hash of that identity. *)
Theorem validate_router_info_exact sha256 ed25519_key ed25519_verify bs maximum expected_hash static_key peer
    (Hok : bytes_ok bs) (Hm : maximum ≤ usize_max) :
  validate_router_info sha256 ed25519_key ed25519_verify bs maximum expected_hash static_key = Ok peer ↔
    peer_static_key peer = static_key ∧
    ∃ info, peer_valid sha256 ed25519_key ed25519_verify bs maximum expected_hash static_key (peer_router_hash peer) info.
Proof. by apply peer_iff. Qed.

(** C14: the base64 decoder is exact.  A text decodes to a given number of bytes
    exactly when it is, without padding or with the one padding sign if the
    number is not a multiple of three, as many signs as these bytes need; each is a sign of I2P's alphabet,
    standing for its place there, or one of the two signs + and / of the standard
    alphabet, which the decoder takes for the last two digits as well; and the number the digits
    spell in base 64 is the number the bytes spell in base 256, shifted left by
    the unused bits of the last digit, which are therefore zero. *)
Theorem decode_i2p_base64_exact value n out (Hn : 0 < n) :
  decode_i2p_base64 value n = Some out ↔
    zlen out = n ∧ bytes_ok out ∧
    ∃ digits ds, (value = digits ∨ n mod 3 ≠ 0 ∧ value = digits ++ [61]) ∧ Forall2 base64_char digits ds ∧
      zlen ds = (8 * n + 5) / 6 ∧ digits_value ds = from_be out * 2 ^ (6 * zlen ds - 8 * n).
Proof. by apply base64_text_iff. Qed.

(** The payload of SessionConfirmed is parsed exactly.  An input is decoded to
    a payload exactly when the payload is within its limits and the input is a
    RouterInfo block with a flags byte of 0 or 1, then the options block if
    there is one, then the padding block if there is one, and nothing else. *)
Theorem confirmed_payload_exact w maximum p (Hok : bytes_ok w) :
  confirmed_payload_decode w maximum = Ok p ↔
    payload_ok maximum p ∧ ∃ flags, (flags = 0 ∨ flags = 1) ∧ w = payload_bytes flags p.
Proof. by apply payload_exact. Qed.

(** C13: no SessionRequest is accepted twice.  Take a skew policy whose replay
    retention exceeds twice the skew by more than the time between the replay
    decision and the timestamp check, and any history of a replay cache under a
    clock that does not run backwards.  When a token was fresh and the timestamp
    of its request passed the check, a later request with the same token and
    timestamp that would pass the check again is not fresh. *)
Theorem replay_rejected maximum c delta retention lag s calls i j a b ti tj timestamp
    (Hs : skew_new delta retention = Some s) (Hstrict : 2 * delta + lag < retention)
    (Hc : replay_cache_new maximum = Some c)
    (Hsorted : StronglySorted (λ x y, call_now x ≤ call_now y) calls)
    (Hij : (i < j)%nat) (Ha : calls !! i = Some a) (Hb : calls !! j = Some b)
    (Htoken : call_token b = call_token a) (Hret : call_retention a = sk_replay_retention s)
    (Hwidth : call_now a + retention ≤ u64_max)
    (Hti : call_now a ≤ ti ≤ call_now a + lag) (Htj : call_now b ≤ tj)
    (Hfresh : decisions calls c !! i = Some CacheFresh)
    (Hci : skew_classify s ti timestamp = Ok ()) (Hcj : skew_classify s tj timestamp = Ok ()) :
  ∃ d, decisions calls c !! j = Some d ∧ d ≠ CacheFresh.
Proof.
  destruct (decisions calls c !! j) as [d|] eqn:Ej.
  2: { apply lookup_ge_None in Ej. rewrite decisions_length in Ej. apply lookup_lt_Some in Hb. lia. }
  exists d. split; [done|]. intros ->.
  pose proof (fresh_twice calls c i j a b Hsorted Hij Ha Hb (eq_sym Htoken) Hfresh Ej) as Hw.
  apply classify_exact in Hci. apply classify_exact in Hcj.
  unfold skew_new in Hs. destruct (_ || _); [done|]. injection Hs as <-. cbn in *. unfold saturating_add in Hw. lia.
Qed.

(** With the default policy the retention is exactly twice the skew and an entry
    is dropped in the second in which it expires, so a request is accepted at
    both ends of the skew window: by the cache of the runtime and by the
    reference cache. *)
Theorem default_policy_accepts_replay :
  let s := default_compatibility in
  let token := replicate 32 7 in
  let timestamp := 1060 in
  skew_new 60 120 = Some s ∧
  skew_classify s 1000 timestamp = Ok () ∧ skew_classify s 1120 timestamp = Ok () ∧
  decisions [mkCall token 1000 (sk_replay_retention s); mkCall token 1120 (sk_replay_retention s)]
    (mkReplayCache 16 ∅) = [CacheFresh; CacheFresh] ∧
  let '(c, d) := reference_check token 1000 (mkReference (sk_replay_retention s) 16 []) in
  d = ReplayFresh ∧ (reference_check token 1120 c).2 = ReplayFresh.
Proof. vm_compute. split_and!; reflexivity. Qed.

(** Options that the constructor takes and the decoder of the peer refuses. *)
Theorem short_options_not_decoded :
  ∃ p w, confirmed_payload_new [1] (Some [9]) None = Ok p ∧ confirmed_payload_encode p = Some w ∧
    confirmed_payload_decode w MAX_ROUTER_INFO_PAYLOAD = Err HsMalformedOptions.
Proof. eexists _, _. split_and!; reflexivity. Qed.

(** ** Witnesses *)

(** A published NTCP2 key: the digits [BAAA...], the bytes [4; 0; ...]. *)
Definition sample_static : bytes := 4 :: replicate 31 0.
Definition sample_static_text : bytes := 66 :: replicate 42 65.
Definition ntcp2_options : Mapping :=
  mkMapping [mkMappingEntry KEY_S sample_static_text; mkMappingEntry KEY_V [50; 44; 51]].
Definition ntcp2_address : RouterAddress := mkRouterAddress 10 0 STYLE_NTCP2 ntcp2_options.
Definition ntcp2_router_info : RouterInfo :=
  mkRouterInfo sample_identity 123456 [sample_address; ntcp2_address] [] sample_mapping
    (ri_unsigned_bytes sample_identity 123456 [sample_address; ntcp2_address] [] sample_mapping) sample_ri_signature.
Definition ntcp2_router_info_bytes : bytes := router_info_bytes ntcp2_router_info.

Lemma ntcp2_router_info_checked :
  validate_router_info toy_sha256 toy_key toy_verify ntcp2_router_info_bytes MAX_ROUTER_INFO_PAYLOAD None sample_static =
  Ok (mkPeer (toy_sha256 (identity_bytes sample_identity)) sample_static).
Proof. vm_compute. reflexivity. Qed.

Lemma validate_router_info_exact_witness :
  ∃ info, peer_valid toy_sha256 toy_key toy_verify ntcp2_router_info_bytes MAX_ROUTER_INFO_PAYLOAD None sample_static
    (toy_sha256 (identity_bytes sample_identity)) info.
Proof.
  apply (validate_router_info_exact toy_sha256 toy_key toy_verify ntcp2_router_info_bytes MAX_ROUTER_INFO_PAYLOAD None
    sample_static (mkPeer (toy_sha256 (identity_bytes sample_identity)) sample_static)).
  - apply bytes_okb. vm_compute. reflexivity.
  - vm_compute. discriminate.
  - apply ntcp2_router_info_checked.
Defined.

Lemma decode_i2p_base64_exact_witness :
  decode_i2p_base64 sample_static_text 32 = Some sample_static.
Proof.
  apply (decode_i2p_base64_exact sample_static_text 32 sample_static); [lia|].
  split_and!; [done|apply bytes_okb; done|]. exists sample_static_text, (1 :: replicate 42 0). split_and!; [by left| |done|done].
  unfold sample_static_text. cbn [replicate]. repeat (constructor; [left; split; [lia|reflexivity]|]). constructor.
Defined.

Lemma confirmed_payload_exact_witness :
  confirmed_payload_decode (2 :: [0; 3] ++ [1; 5; 6] ++ 254 :: [0; 1] ++ [9]) 100 = Ok (mkPayload [5; 6] None (Some [9])).
Proof.
  apply confirmed_payload_exact; [apply bytes_okb; done|]. split; [constructor; [done|done|done]|]. exists 1. split; [by right|done].
Defined.

Lemma replay_rejected_witness :
  ∃ d, decisions [mkCall [7] 1000 130; mkCall [8] 1050 130; mkCall [7] 1120 130] (mkReplayCache 16 ∅) !! 2%nat = Some d ∧
    d ≠ CacheFresh.
Proof.
  apply (replay_rejected 16 (mkReplayCache 16 ∅) 60 130 5 (mkSkew 60 130)
    [mkCall [7] 1000 130; mkCall [8] 1050 130; mkCall [7] 1120 130] 0 2 (mkCall [7] 1000 130) (mkCall [7] 1120 130) 1001 1120 1060);
    try done; try lia; try (by vm_compute).
  repeat constructor; cbn; lia.
Defined.
