(* ===== verification/Ntcp2Machine.v ===== *)
(** * The NTCP2 handshake machines

    Models [i2pr-transport-ntcp2/src/state_machine.rs]: the initiator and the
    responder as functions from a phase and one runtime input to the next phase
    and the actions for the runtime.  X25519 is a parameter; its checked use,
    [diffie_hellman], is that of [i2pr-crypto/src/lib.rs]. *)
From S2P Require Import Prelude Codec Common Identity Mapping RouterInfo NetValidate I2np Ntcp2Crypto Ntcp2Block Ntcp2Frame Ntcp2Handshake.

(** ** Key agreement *)
Class X25519 := {
  x25519_public : bytes → bytes;
  x25519 (private peer : bytes) : bytes;
}.

Class X25519Laws (X : X25519) : Prop := {
  x25519_public_length k : zlen (x25519_public k) = KEY_LENGTH;
  x25519_agrees a b : x25519 a (x25519_public b) = x25519 b (x25519_public a);
}.

(** ** Actions and inputs *)
Inductive PaddingMessage := PadSessionRequest | PadSessionCreated | PadSessionConfirmed.
Inductive TimestampPurpose := ForSessionRequest | ForSessionCreated | ForPeerValidation.

Record NegotiatedParameters := mkNegotiated {
  np_network_id : Z;
  np_part2_length : Z;
  np_request_padding_length : Z;
  np_created_padding_length : Z;
  np_plaintext_length : Z;
}.

Record AuthenticatedHandshake := mkAuthenticated {
  ah_role : Role;
  ah_peer : AuthenticatedPeer;
  ah_negotiated : NegotiatedParameters;
  ah_split_keys : SplitKeys;
}.
Definition into_data_phase (h : AuthenticatedHandshake) : TransmitState * ReceiveState :=
  into_directional_states (ah_split_keys h).

Inductive HandshakeAction :=
  | ReadBounded (minimum maximum : Z)
  | ReadExact (length : Z)
  | Write (bs : bytes)
  | RequestTimestamp (purpose : TimestampPurpose)
  | RequestReplay (token : bytes) (retention : Z)
  | RequestPadding (message : PaddingMessage) (maximum : Z)
  | RequestRouterInfo (maximum : Z)
  | Authenticated (handshake : AuthenticatedHandshake)
  | Terminate (error : HandshakeError).

Inductive HandshakeInput :=
  | InBytes (bs : bytes)
  | InTimestamp (now : Z)
  | InReplay (decision : ReplayDecision)
  | InPadding (bs : bytes)
  | InRouterInfo (bs : bytes)
  | InCancelled
  | InDeadlineExpired
  | InDisconnected.

Definition handshake_bytes_new (bs : bytes) : result HandshakeError bytes :=
  if zlen bs >? MAX_HANDSHAKE_BUFFERED_INPUT then Err HsInvalidFixedLength else Ok bs.

(** The crypto error of a machine; frames have their own mapping. *)
Definition machine_crypto (e : Ntcp2CryptoError) : HandshakeError :=
  match e with
  | InvalidPublicKey => HsDeobfuscationFailure
  | AuthenticationFailed | EncryptionFailed => HsAuthenticationFailure
  | PeerStaticMismatch => HsTransportStaticKeyMismatch
  | InvalidState | WrongRole => HsTranscriptMismatch
  | other => HsCrypto other
  end.

Definition check_padding (actual expected : Z) : result HandshakeError () :=
  if negb (actual =? expected) then Err (if actual >? expected then HsExcessivePadding else HsInvalidFixedLength)
  else Ok ().

Definition replay_result (d : ReplayDecision) : result HandshakeError () :=
  match d with
  | ReplayFresh => Ok ()
  | Replayed => Err HsReplayDetected
  | ReplayCacheFull | ReplayUnavailable => Err HsReplayCacheUnavailable
  end.

(** [Cancelled], [DeadlineExpired] and [Disconnected] end a machine in any phase. *)
Definition interruption (input : HandshakeInput) : option HandshakeError :=
  match input with
  | InCancelled => Some HsCancelled
  | InDeadlineExpired => Some HsDeadlineExpired
  | InDisconnected => Some HsDisconnected
  | _ => None
  end.

Record InitiatorCommon := mkInitiatorCommon {
  ic_local_static : bytes;
  ic_ephemeral : bytes;
  ic_responder_static : bytes;
  ic_expected_peer_hash : option bytes;
  ic_network_id : Z;
  ic_skew : ClockSkewPolicy;
}.

Inductive InitiatorPhase :=
  | NeedRouterInfo (common : InitiatorCommon) (obfuscation : AesObfuscationState) (transcript : Transcript)
  | NeedRequestTimestamp (common : InitiatorCommon) (obfuscation : AesObfuscationState) (transcript : Transcript)
      (router_info : bytes)
  | NeedRequestPadding (common : InitiatorCommon) (obfuscation : AesObfuscationState) (transcript : Transcript)
      (router_info : bytes) (timestamp : Z)
  | NeedConfirmedPadding (common : InitiatorCommon) (obfuscation : AesObfuscationState) (transcript : Transcript)
      (router_info : bytes) (timestamp : Z) (request_padding : bytes)
  | AwaitCreated (common : InitiatorCommon) (obfuscation : AesObfuscationState) (transcript : Transcript)
      (confirmed_plaintext : bytes) (request_padding_length expected_part2_length : Z)
  | AwaitCreatedPadding (common : InitiatorCommon) (transcript : Transcript) (confirmed_plaintext : bytes)
      (request_padding_length expected_part2_length : Z) (responder_ephemeral : bytes) (created_timestamp : Z)
      (replay_token : bytes) (expected_padding_length : Z)
  | INeedPeerTimestamp (common : InitiatorCommon) (transcript : Transcript) (confirmed_plaintext : bytes)
      (request_padding_length expected_part2_length created_padding_length created_timestamp : Z)
      (replay_token responder_ephemeral : bytes)
  | NeedConfirmedReplay (common : InitiatorCommon) (transcript : Transcript) (confirmed_plaintext : bytes)
      (request_padding_length expected_part2_length created_padding_length : Z) (responder_ephemeral : bytes)
  | InitiatorDone.

Record ResponderCommon := mkResponderCommon {
  rc_local_static : bytes;
  rc_ephemeral : bytes;
  rc_local_static_public : bytes;
  rc_expected_peer_hash : option bytes;
  rc_network_id : Z;
  rc_skew : ClockSkewPolicy;
}.

Inductive ResponderPhase :=
  | NeedRequest (common : ResponderCommon) (obfuscation : AesObfuscationState)
  | AwaitReplay (common : ResponderCommon) (obfuscation : AesObfuscationState) (request : HandshakeMessage)
  | AwaitRequestPadding (common : ResponderCommon) (obfuscation : AesObfuscationState)
      (request_options : SessionRequestOptions) (initiator_ephemeral : bytes) (transcript : Transcript)
      (expected_padding_length : Z)
  | RNeedPeerTimestamp (common : ResponderCommon) (obfuscation : AesObfuscationState) (request_padding : bytes)
      (request_options : SessionRequestOptions) (initiator_ephemeral : bytes) (transcript : Transcript)
  | NeedCreatedPadding (common : ResponderCommon) (obfuscation : AesObfuscationState) (request_padding : bytes)
      (request_options : SessionRequestOptions) (initiator_ephemeral : bytes) (transcript : Transcript) (timestamp : Z)
  | AwaitConfirmed (common : ResponderCommon) (transcript : Transcript)
      (expected_part2_length request_padding_length created_padding_length network_id : Z)
  | ResponderDone.

Definition phase_label (p : ResponderPhase) : string :=
  match p with
  | NeedRequest _ _ => "need_request"
  | AwaitReplay _ _ _ => "await_replay"
  | AwaitRequestPadding _ _ _ _ _ _ => "await_request_padding"
  | RNeedPeerTimestamp _ _ _ _ _ _ => "need_peer_timestamp"
  | NeedCreatedPadding _ _ _ _ _ _ _ => "need_created_padding"
  | AwaitConfirmed _ _ _ _ _ _ => "await_confirmed"
  | ResponderDone => "done"
  end.

Section machines.
Context `{P : Ntcp2Primitives} `{X : X25519}
  (ed25519_key : bytes → bool) (ed25519_verify : bytes → bytes → bytes → bool).

Definition diffie_hellman (private peer : bytes) : result CryptoError bytes :=
  let shared := x25519 private peer in
  if forallb (λ b, b =? 0) shared then Err AllZeroSharedSecret else Ok shared.

Definition machine_public_key (key : bytes) : result HandshakeError bytes :=
  map_err (λ _, HsDeobfuscationFailure) (public_key_new (x25519_public key)).

Definition validate := validate_router_info sha256 ed25519_key ed25519_verify.

Definition itransition : Type := result HandshakeError (InitiatorPhase * list HandshakeAction).
Definition rtransition : Type := result HandshakeError (ResponderPhase * list HandshakeAction).

(** ** The initiator *)
Definition initiator_new (local_static ephemeral responder_static : bytes) (expected_peer_hash : option bytes)
    (responder_router_hash obfuscation_iv : bytes) (network_id : Z) (skew : ClockSkewPolicy) : result HandshakeError InitiatorPhase :=
  Ok (NeedRouterInfo (mkInitiatorCommon local_static ephemeral responder_static expected_peer_hash network_id skew)
        (mkObfuscation responder_router_hash obfuscation_iv) (transcript_new Initiator responder_static)).

Definition initiator_start (p : InitiatorPhase) : itransition :=
  match p with
  | NeedRouterInfo _ _ _ => Ok (p, [RequestRouterInfo MAX_ROUTER_INFO_PAYLOAD])
  | _ => Err HsStateViolation
  end.

(** The first message, once the payload of the third is known. *)
Definition initiator_request (common : InitiatorCommon) (obfuscation : AesObfuscationState) (transcript : Transcript)
    (router_info : bytes) (timestamp : Z) (request_padding confirmed_padding : bytes) : option itransition :=
  match confirmed_payload_new router_info None (Some confirmed_padding) with
  | Err e => Some (Err e)
  | Ok payload =>
  confirmed_plaintext ← confirmed_payload_encode payload;
  Some (
    expected_part2_length ← ok_or HsInvalidFixedLength (checked_add usize_max (zlen confirmed_plaintext) AUTH_TAG_LENGTH);
    if expected_part2_length >? MAX_SESSION_CONFIRMED_PART2 then Err HsInvalidFixedLength
    else
    options ← request_options_new (ic_network_id common) (zlen request_padding) expected_part2_length timestamp;
    ephemeral ← machine_public_key (ic_ephemeral common);
    shared ← map_err hs_from_crypto (diffie_hellman (ic_ephemeral common) (ic_responder_static common));
    '(transcript, encrypted_options) ←
      map_err machine_crypto (session_request ephemeral shared (request_options_encode options) transcript);
    let '(obfuscation, encrypted_ephemeral) := obfuscate_key ephemeral obfuscation in
    request ← session_request_new encrypted_ephemeral encrypted_options request_padding;
    request_bytes ← handshake_bytes_new (message_encode request);
    transcript ← map_err machine_crypto (mix_padding (msg_padding request) transcript);
    Ok (AwaitCreated common obfuscation transcript confirmed_plaintext (zlen (msg_padding request)) expected_part2_length,
        [Write request_bytes; ReadExact MIN_HANDSHAKE_MESSAGE_LENGTH]))
  end.

Definition initiator_created (common : InitiatorCommon) (obfuscation : AesObfuscationState) (transcript : Transcript)
    (confirmed_plaintext : bytes) (request_padding_length expected_part2_length : Z) (bs : bytes) : itransition :=
  if negb (zlen bs =? MIN_HANDSHAKE_MESSAGE_LENGTH) then Err HsInvalidFixedLength
  else
  created ← session_created_decode bs MAX_HANDSHAKE_MESSAGE_LENGTH;
  responder_ephemeral ← map_err machine_crypto (deobfuscate_key (msg_encrypted_ephemeral created) obfuscation).2;
  shared ← map_err hs_from_crypto (diffie_hellman (ic_ephemeral common) responder_ephemeral);
  '(transcript, plaintext) ←
    map_err machine_crypto (accept_session_created responder_ephemeral shared (msg_encrypted_options created) transcript);
  options ← created_options_decode plaintext;
  let expected_padding_length := co_padding_length options in
  let replay_token := sha256 (msg_encrypted_ephemeral created) in
  if expected_padding_length =? 0 then
    transcript ← map_err machine_crypto (mix_padding [] transcript);
    Ok (INeedPeerTimestamp common transcript confirmed_plaintext request_padding_length expected_part2_length 0
          (co_timestamp options) replay_token responder_ephemeral, [RequestTimestamp ForPeerValidation])
  else
    Ok (AwaitCreatedPadding common transcript confirmed_plaintext request_padding_length expected_part2_length
          responder_ephemeral (co_timestamp options) replay_token expected_padding_length, [ReadExact expected_padding_length]).

Definition initiator_confirm (common : InitiatorCommon) (transcript : Transcript) (confirmed_plaintext : bytes)
    (request_padding_length expected_part2_length created_padding_length : Z) (responder_ephemeral : bytes)
    (decision : ReplayDecision) : itransition :=
  _ ← replay_result decision;
  local_static ← machine_public_key (ic_local_static common);
  se ← map_err hs_from_crypto (diffie_hellman (ic_local_static common) responder_ephemeral);
  '(transcript, static_frame) ← map_err machine_crypto (encrypt_static local_static se transcript);
  '(transcript, payload_frame) ← map_err machine_crypto (encrypt_confirmed_payload confirmed_plaintext transcript);
  if negb (zlen payload_frame =? expected_part2_length) then Err HsInvalidFixedLength
  else
  confirmed ← session_confirmed_new static_frame payload_frame;
  peer_hash ← ok_or HsPeerIdentityMismatch (ic_expected_peer_hash common);
  split_keys ← map_err machine_crypto (split transcript);
  let result := mkAuthenticated Initiator (mkPeer peer_hash (ic_responder_static common))
    (mkNegotiated (ic_network_id common) expected_part2_length request_padding_length created_padding_length
       (zlen confirmed_plaintext)) split_keys in
  bs ← handshake_bytes_new (session_confirmed_encode confirmed);
  Ok (InitiatorDone, [Write bs; Authenticated result]).

(** [None] is a panic. *)
Definition initiator_transition (p : InitiatorPhase) (input : HandshakeInput) : option itransition :=
  match interruption input with
  | Some e => Some (Ok (InitiatorDone, [Terminate e]))
  | None =>
  match p, input with
  | NeedRouterInfo common obfuscation transcript, InRouterInfo router_info =>
      Some (local_static ← machine_public_key (ic_local_static common);
            _ ← validate router_info MAX_ROUTER_INFO_PAYLOAD None local_static;
            Ok (NeedRequestTimestamp common obfuscation transcript router_info, [RequestTimestamp ForSessionRequest]))
  | NeedRequestTimestamp common obfuscation transcript router_info, InTimestamp timestamp =>
      Some (Ok (NeedRequestPadding common obfuscation transcript router_info timestamp,
                [RequestPadding PadSessionRequest MAX_SESSION_REQUEST_PADDING]))
  | NeedRequestPadding common obfuscation transcript router_info timestamp, InPadding request_padding =>
      Some (if zlen request_padding >? MAX_SESSION_REQUEST_PADDING then Err HsExcessivePadding
            else Ok (NeedConfirmedPadding common obfuscation transcript router_info timestamp request_padding,
                     [RequestPadding PadSessionConfirmed MAX_SESSION_CONFIRMED_PART2_PLAINTEXT]))
  | NeedConfirmedPadding common obfuscation transcript router_info timestamp request_padding, InPadding confirmed_padding =>
      initiator_request common obfuscation transcript router_info timestamp request_padding confirmed_padding
  | AwaitCreated common obfuscation transcript confirmed_plaintext request_padding_length expected_part2_length, InBytes bs =>
      Some (initiator_created common obfuscation transcript confirmed_plaintext request_padding_length expected_part2_length bs)
  | AwaitCreatedPadding common transcript confirmed_plaintext request_padding_length expected_part2_length
      responder_ephemeral created_timestamp replay_token expected_padding_length, InBytes padding =>
      Some (_ ← check_padding (zlen padding) expected_padding_length;
            transcript ← map_err machine_crypto (mix_padding padding transcript);
            Ok (INeedPeerTimestamp common transcript confirmed_plaintext request_padding_length expected_part2_length
                  expected_padding_length created_timestamp replay_token responder_ephemeral,
                [RequestTimestamp ForPeerValidation]))
  | INeedPeerTimestamp common transcript confirmed_plaintext request_padding_length expected_part2_length
      created_padding_length created_timestamp replay_token responder_ephemeral, InTimestamp local_timestamp =>
      Some (_ ← skew_classify (ic_skew common) local_timestamp created_timestamp;
            Ok (NeedConfirmedReplay common transcript confirmed_plaintext request_padding_length expected_part2_length
                  created_padding_length responder_ephemeral,
                [RequestReplay replay_token (sk_replay_retention (ic_skew common))]))
  | NeedConfirmedReplay common transcript confirmed_plaintext request_padding_length expected_part2_length
      created_padding_length responder_ephemeral, InReplay decision =>
      Some (initiator_confirm common transcript confirmed_plaintext request_padding_length expected_part2_length
              created_padding_length responder_ephemeral decision)
  | _, _ => Some (Err HsStateViolation)
  end
  end.

(** ** The responder *)
Definition responder_new (local_static ephemeral : bytes) (expected_peer_hash : option bytes)
    (local_router_hash obfuscation_iv : bytes) (network_id : Z) (skew : ClockSkewPolicy) : result HandshakeError ResponderPhase :=
  local_static_public ← machine_public_key local_static;
  Ok (NeedRequest (mkResponderCommon local_static ephemeral local_static_public expected_peer_hash network_id skew)
        (mkObfuscation local_router_hash obfuscation_iv)).

Definition responder_start (p : ResponderPhase) : rtransition :=
  match p with
  | NeedRequest _ _ => Ok (p, [ReadExact MIN_HANDSHAKE_MESSAGE_LENGTH])
  | _ => Err HsStateViolation
  end.

Definition responder_request (common : ResponderCommon) (obfuscation : AesObfuscationState) (bs : bytes) : rtransition :=
  if negb (zlen bs =? MIN_HANDSHAKE_MESSAGE_LENGTH) then Err HsInvalidFixedLength
  else
  request ← session_request_decode bs MAX_HANDSHAKE_MESSAGE_LENGTH;
  let token := sha256 (msg_encrypted_ephemeral request) in
  Ok (AwaitReplay common obfuscation request, [RequestReplay token (sk_replay_retention (rc_skew common))]).

Definition responder_replay (common : ResponderCommon) (obfuscation : AesObfuscationState) (request : HandshakeMessage)
    (decision : ReplayDecision) : rtransition :=
  _ ← replay_result decision;
  let '(obfuscation, deobfuscated) := deobfuscate_key (msg_encrypted_ephemeral request) obfuscation in
  initiator_ephemeral ← map_err machine_crypto deobfuscated;
  shared ← map_err hs_from_crypto (diffie_hellman (rc_local_static common) initiator_ephemeral);
  let transcript := transcript_new Responder (rc_local_static_public common) in
  '(transcript, plaintext) ←
    map_err machine_crypto (accept_session_request initiator_ephemeral shared (msg_encrypted_options request) transcript);
  options ← request_options_decode plaintext;
  if negb (ro_network_id options =? rc_network_id common) then Err HsWrongNetwork
  else
  let expected_padding_length := ro_padding_length options in
  if expected_padding_length =? 0 then
    transcript ← map_err machine_crypto (mix_padding [] transcript);
    Ok (RNeedPeerTimestamp common obfuscation [] options initiator_ephemeral transcript, [RequestTimestamp ForPeerValidation])
  else
    Ok (AwaitRequestPadding common obfuscation options initiator_ephemeral transcript expected_padding_length,
        [ReadExact expected_padding_length]).

Definition responder_created (common : ResponderCommon) (obfuscation : AesObfuscationState) (request_padding : bytes)
    (request_options : SessionRequestOptions) (initiator_ephemeral : bytes) (transcript : Transcript) (timestamp : Z)
    (created_padding : bytes) : rtransition :=
  if zlen created_padding >? MAX_SESSION_CREATED_PADDING then Err HsExcessivePadding
  else
  responder_ephemeral ← machine_public_key (rc_ephemeral common);
  shared ← map_err hs_from_crypto (diffie_hellman (rc_ephemeral common) initiator_ephemeral);
  options ← created_options_new (zlen created_padding) timestamp;
  '(transcript, encrypted_options) ←
    map_err machine_crypto (session_created responder_ephemeral shared (created_options_encode options) transcript);
  transcript ← map_err machine_crypto (mix_padding created_padding transcript);
  let '(obfuscation, encrypted_ephemeral) := obfuscate_key responder_ephemeral obfuscation in
  created ← session_created_new encrypted_ephemeral encrypted_options created_padding;
  let expected_part2_length := ro_part2_length request_options in
  created_bytes ← handshake_bytes_new (message_encode created);
  length ← ok_or HsInvalidFixedLength (checked_add usize_max SESSION_CONFIRMED_PART1_LENGTH expected_part2_length);
  Ok (AwaitConfirmed common transcript expected_part2_length (zlen request_padding) (zlen (msg_padding created))
        (ro_network_id request_options),
      [Write created_bytes; ReadExact length]).

Definition responder_confirmed (common : ResponderCommon) (transcript : Transcript)
    (expected_part2_length request_padding_length created_padding_length network_id : Z) (bs : bytes) : rtransition :=
  confirmed ← session_confirmed_decode bs expected_part2_length MAX_SESSION_CONFIRMED_LENGTH;
  '(transcript, initiator_static) ← map_err machine_crypto (decrypt_static_unchecked (sc_static_frame confirmed) transcript);
  se ← map_err hs_from_crypto (diffie_hellman (rc_ephemeral common) initiator_static);
  transcript ← map_err machine_crypto (mix_static_secret se transcript);
  '(transcript, plaintext) ← map_err machine_crypto (decrypt_confirmed_payload (sc_payload_frame confirmed) transcript);
  payload ← confirmed_payload_decode plaintext MAX_ROUTER_INFO_PAYLOAD;
  peer ← validate (cp_router_info payload) MAX_ROUTER_INFO_PAYLOAD (rc_expected_peer_hash common) initiator_static;
  split_keys ← map_err machine_crypto (split transcript);
  let result := mkAuthenticated Responder peer
    (mkNegotiated network_id expected_part2_length request_padding_length created_padding_length (zlen plaintext)) split_keys in
  Ok (ResponderDone, [Authenticated result]).

Definition responder_transition (p : ResponderPhase) (input : HandshakeInput) : rtransition :=
  match interruption input with
  | Some e => Ok (ResponderDone, [Terminate e])
  | None =>
  match p, input with
  | NeedRequest common obfuscation, InBytes bs => responder_request common obfuscation bs
  | AwaitReplay common obfuscation request, InReplay decision => responder_replay common obfuscation request decision
  | AwaitRequestPadding common obfuscation request_options initiator_ephemeral transcript expected_padding_length,
      InBytes padding =>
      _ ← check_padding (zlen padding) expected_padding_length;
      transcript ← map_err machine_crypto (mix_padding padding transcript);
      Ok (RNeedPeerTimestamp common obfuscation padding request_options initiator_ephemeral transcript,
          [RequestTimestamp ForPeerValidation])
  | RNeedPeerTimestamp common obfuscation request_padding request_options initiator_ephemeral transcript,
      InTimestamp local_timestamp =>
      _ ← skew_classify (rc_skew common) local_timestamp (ro_timestamp request_options);
      Ok (NeedCreatedPadding common obfuscation request_padding request_options initiator_ephemeral transcript local_timestamp,
          [RequestPadding PadSessionCreated MAX_SESSION_CREATED_PADDING])
  | NeedCreatedPadding common obfuscation request_padding request_options initiator_ephemeral transcript timestamp,
      InPadding created_padding =>
      responder_created common obfuscation request_padding request_options initiator_ephemeral transcript timestamp created_padding
  | AwaitConfirmed common transcript expected_part2_length request_padding_length created_padding_length network_id,
      InBytes bs =>
      responder_confirmed common transcript expected_part2_length request_padding_length created_padding_length network_id bs
  | _, _ => Err HsStateViolation
  end
  end.
End machines.

(** ** Two honest machines *)
Section lengths.
Context `{HL : Ntcp2Laws}.

Lemma seal_length p ad c c' ct : zlen p ≤ MAX_FRAME_PLAINTEXT → seal p ad c = (c', Ok ct) → zlen ct = zlen p + AUTH_TAG_LENGTH.
Proof.
  intros Hp. unfold seal. destruct (_ >? _); [done|]. destruct (nonce_next _) as [n [nonce|]]; [|done].
  destruct (aead_correct (cs_key c) nonce ad p Hp) as (ct' & -> & Hl & _). by intros [= _ <-].
Qed.
Lemma encrypt_length p t t' ct : zlen p ≤ MAX_FRAME_PLAINTEXT → encrypt_and_hash p t = Ok (t', ct) → zlen ct = zlen p + AUTH_TAG_LENGTH.
Proof.
  intros Hp. unfold encrypt_and_hash. destruct (tr_cipher t) as [c|]; [|done]. cbn [ok_or mbind result_bind].
  destruct (seal p _ c) as [c' [w|e]] eqn:Es; [|done]. intros [= _ <-]. by eapply seal_length.
Qed.
Lemma session_request_length eph s p t t' ct :
  zlen p ≤ MAX_FRAME_PLAINTEXT → session_request eph s p t = Ok (t', ct) → zlen ct = zlen p + AUTH_TAG_LENGTH.
Proof.
  intros Hp. unfold session_request. destruct (require _ _ _); [|done]. cbn [mbind result_bind]. destruct (mix_key _ _); [|done].
  cbn [mbind result_bind]. destruct (encrypt_and_hash _ _) as [[? ?]|] eqn:E; [|done]. cbn. intros [= _ <-]. by eapply encrypt_length.
Qed.
Lemma session_created_length eph s p t t' ct :
  zlen p ≤ MAX_FRAME_PLAINTEXT → session_created eph s p t = Ok (t', ct) → zlen ct = zlen p + AUTH_TAG_LENGTH.
Proof.
  intros Hp. unfold session_created. destruct (require _ _ _); [|done]. cbn [mbind result_bind]. destruct (mix_key _ _); [|done].
  cbn [mbind result_bind]. destruct (encrypt_and_hash _ _) as [[? ?]|] eqn:E; [|done]. cbn. intros [= _ <-]. by eapply encrypt_length.
Qed.
Lemma encrypt_static_length p s t t' ct :
  zlen p ≤ MAX_FRAME_PLAINTEXT → encrypt_static p s t = Ok (t', ct) → zlen ct = zlen p + AUTH_TAG_LENGTH.
Proof.
  intros Hp. unfold encrypt_static. destruct (require _ _ _); [|done]. cbn [mbind result_bind].
  destruct (encrypt_and_hash _ _) as [[? ?]|] eqn:E; [|done]. cbn [mbind result_bind]. destruct (mix_key _ _); [|done].
  cbn. intros [= _ <-]. by eapply encrypt_length.
Qed.
Lemma encrypt_confirmed_length p t t' ct :
  zlen p ≤ MAX_FRAME_PLAINTEXT → encrypt_confirmed_payload p t = Ok (t', ct) → zlen ct = zlen p + AUTH_TAG_LENGTH.
Proof.
  intros Hp. unfold encrypt_confirmed_payload. destruct (require _ _ _); [|done]. cbn [mbind result_bind].
  destruct (encrypt_and_hash _ _) as [[? ?]|] eqn:E; [|done]. cbn. intros [= _ <-]. by eapply encrypt_length.
Qed.
End lengths.

Lemma dh_ok `{X : X25519} private peer :
  forallb (λ b, b =? 0) (x25519 private peer) = false → diffie_hellman private peer = Ok (x25519 private peer).
Proof. intros H. unfold diffie_hellman. by rewrite H. Qed.

Lemma handshake_bytes_ok bs : zlen bs ≤ MAX_HANDSHAKE_BUFFERED_INPUT → handshake_bytes_new bs = Ok bs.
Proof. intros H. unfold handshake_bytes_new. destruct (_ >? _) eqn:E; breflect; [lia|done]. Qed.

Lemma zlen_request_options o : zlen (request_options_encode o) = OPTION_BLOCK_LENGTH.
Proof. unfold request_options_encode. by rewrite !zlen_app, !zlen_to_be. Qed.
Lemma zlen_created_options o : zlen (created_options_encode o) = OPTION_BLOCK_LENGTH.
Proof. unfold created_options_encode. by rewrite !zlen_app, !zlen_to_be. Qed.

(** What the two sides of an honest handshake are given. *)
Record honest `{X : X25519} (si ei sr er : bytes) : Prop := {
  ho_si : public_key_new (x25519_public si) = Ok (x25519_public si);
  ho_ei : public_key_new (x25519_public ei) = Ok (x25519_public ei);
  ho_sr : public_key_new (x25519_public sr) = Ok (x25519_public sr);
  ho_er : public_key_new (x25519_public er) = Ok (x25519_public er);
  ho_es : forallb (λ b, b =? 0) (x25519 ei (x25519_public sr)) = false;
  ho_ee : forallb (λ b, b =? 0) (x25519 ei (x25519_public er)) = false;
  ho_se : forallb (λ b, b =? 0) (x25519 si (x25519_public er)) = false;
}.

Section honest.
Context `{P : Ntcp2Primitives} {HL : Ntcp2Laws P} `{X : X25519} {XL : X25519Laws X}.
Context (ed25519_key : bytes → bool) (ed25519_verify : bytes → bytes → bytes → bool).
Context (si ei sr er : bytes) (Hkeys : honest si ei sr er).

Lemma public_ok k : public_key_new (x25519_public k) = Ok (x25519_public k) → machine_public_key k = Ok (x25519_public k).
Proof. intros H. unfold machine_public_key. by rewrite H. Qed.

Abbreviation es := (x25519 ei (x25519_public sr)).
Abbreviation ee := (x25519 ei (x25519_public er)).
Abbreviation se := (x25519 si (x25519_public er)).

(** The options of the first message. *)
Definition request_of (net : Z) (p1 : bytes) (n2 ti : Z) : SessionRequestOptions :=
  mkRequestOptions net NTCP2_VERSION (zlen p1) n2 ti.

Lemma request_options_new_ok net p1 n2 ti :
  zlen p1 ≤ MAX_SESSION_REQUEST_PADDING → AUTH_TAG_LENGTH ≤ n2 ≤ MAX_SESSION_CONFIRMED_PART2 → fits 32 ti →
  request_options_new net (zlen p1) n2 ti = Ok (request_of net p1 n2 ti).
Proof.
  intros Hp Hn Ht. unfold request_options_new, try_from. unfold fits, MAX_SESSION_REQUEST_PADDING, MAX_SESSION_CONFIRMED_PART2, u16_max, u32_max in *.
  rewrite (proj2 (Z.leb_le ti _)) by lia. cbn [ok_or mbind result_bind]. rewrite (proj2 (Z.leb_le (zlen p1) _)) by lia.
  cbn [ok_or mbind result_bind]. rewrite (proj2 (Z.leb_le n2 _)) by lia. cbn [ok_or mbind result_bind].
  by rewrite (proj2 (part2_in_range_spec n2)) by done.
Qed.

Lemma request_step common ob ri ti p1 p3 w :
  ic_ephemeral common = ei → ic_responder_static common = x25519_public sr → zlen (ob_chain ob) = AES_BLOCK_LENGTH →
  zlen p1 ≤ MAX_SESSION_REQUEST_PADDING → fits 32 ti → payload_ok MAX_ROUTER_INFO_PAYLOAD (mkPayload ri None (Some p3)) →
  w = payload_bytes 0 (mkPayload ri None (Some p3)) →
  let n2 := zlen w + AUTH_TAG_LENGTH in
  ∃ ob1 i1 r0 r1 e1 ct1,
    initiator_request common ob (transcript_new Initiator (x25519_public sr)) ri ti p1 p3 =
      Some (Ok (AwaitCreated common ob1 i1 w (zlen p1) n2,
                [Write (e1 ++ ct1 ++ p1); ReadExact MIN_HANDSHAKE_MESSAGE_LENGTH])) ∧
    zlen e1 = KEY_LENGTH ∧ zlen ct1 = HANDSHAKE_OPTIONS_FRAME_LENGTH ∧
    deobfuscate_key e1 ob = (ob1, Ok (x25519_public ei)) ∧ zlen (ob_chain ob1) = AES_BLOCK_LENGTH ∧
    accept_session_request (x25519_public ei) es ct1 (transcript_new Responder (x25519_public sr)) =
      Ok (r0, request_options_encode (request_of (ic_network_id common) p1 n2 ti)) ∧
    mix_padding p1 r0 = Ok r1 ∧ in_step i1 r1 ∧ tr_stage i1 = Message1Padded ∧ obfuscate_key (x25519_public ei) ob = (ob1, e1).
Proof.
  intros He Hrs Hob Hp1 Hti Hpay Hw n2.
  destruct (payload_roundtrip _ _ Hpay) as [Henc _]. pose proof Hpay as [Hri _ Htot].
  pose proof (payload_bytes_len 0 (mkPayload ri None (Some p3))) as Hlen. rewrite <- Hw in Hlen, Henc.
  assert (Hn2 : AUTH_TAG_LENGTH ≤ n2 ≤ MAX_SESSION_CONFIRMED_PART2).
  { unfold n2. pose proof (zlen_nonneg w). unfold MAX_SESSION_CONFIRMED_PART2_PLAINTEXT, MAX_SESSION_CONFIRMED_PART2, AUTH_TAG_LENGTH in *. lia. }
  set (opts := request_of (ic_network_id common) p1 n2 ti).
  destruct (message1_step (transcript_new Initiator (x25519_public sr)) (transcript_new Responder (x25519_public sr))
    (x25519_public ei) es (request_options_encode opts)) as (i0 & r0 & ct1 & key & E1 & E2 & S1 & T1 & C1);
    [apply in_step_new|done|by rewrite zlen_request_options|].
  destruct (mix_padding_step i0 r0 p1 Message1Padded S1 Hp1 ltac:(auto)) as (i1 & r1 & E3 & E4 & S2 & T2 & C2).
  pose proof (session_request_length _ _ _ _ _ _ ltac:(by rewrite zlen_request_options) E1) as Hct. rewrite zlen_request_options in Hct.
  pose proof (key_roundtrip (x25519_public ei) ob Hob (x25519_public_length ei) (ho_ei _ _ _ _ Hkeys)) as Hkey.
  destruct (obfuscate_key (x25519_public ei) ob) as [ob1 e1] eqn:Eo. destruct Hkey as (Hde & Hob1 & He1).
  exists ob1, i1, r0, r1, e1, ct1. split_and!; try done.
  unfold initiator_request. rewrite (proj2 (payload_new_ok _ _ _ (mkPayload ri None (Some p3)))) by
    (split_and!; [done|apply Hri|done|done]).
  rewrite Henc. cbn [mbind option_bind]. f_equal.
  rewrite (proj2 (checked_add_Some usize_max (zlen w) AUTH_TAG_LENGTH n2)) by
    (split; [done|]; unfold n2, MAX_SESSION_CONFIRMED_PART2, usize_max in *; lia).
  cbn [ok_or mbind result_bind]. destruct (_ >? _) eqn:E; breflect; [lia|].
  rewrite request_options_new_ok by done. fold opts. cbn [mbind result_bind]. rewrite He, Hrs.
  rewrite public_ok by apply (ho_ei _ _ _ _ Hkeys). cbn [mbind result_bind]. rewrite dh_ok by apply (ho_es _ _ _ _ Hkeys).
  cbn [map_err mbind result_bind]. rewrite E1. cbn [map_err mbind result_bind]. rewrite Eo.
  assert (Hm : message_ok MAX_SESSION_REQUEST_PADDING (mkMessage e1 ct1 p1)).
  { constructor; try done. unfold message_encode. cbn [msg_encrypted_ephemeral msg_encrypted_options msg_padding]. rewrite !zlen_app, He1, Hct.
    unfold KEY_LENGTH, OPTION_BLOCK_LENGTH, AUTH_TAG_LENGTH, MAX_HANDSHAKE_MESSAGE_LENGTH, MAX_FRAME_LENGTH, MAX_SESSION_REQUEST_PADDING in *. lia. }
  unfold session_request_new. rewrite (proj2 (message_new_ok _ e1 ct1 p1 (mkMessage e1 ct1 p1) He1)) by done.
  cbn [mbind result_bind]. rewrite handshake_bytes_ok by apply (msg_total_len _ _ Hm). cbn [mbind result_bind msg_padding].
  rewrite E3. done.
Qed.

(** A message without its padding, as the receiver first reads it. *)
Lemma decode_head maxp e ct :
  0 ≤ maxp → zlen e = KEY_LENGTH → zlen ct = HANDSHAKE_OPTIONS_FRAME_LENGTH →
  zlen (e ++ ct) = MIN_HANDSHAKE_MESSAGE_LENGTH ∧
  message_decode maxp (e ++ ct) MAX_HANDSHAKE_MESSAGE_LENGTH = Ok (mkMessage e ct []).
Proof.
  intros Hm He Hc. assert (Hl : zlen (e ++ ct) = MIN_HANDSHAKE_MESSAGE_LENGTH) by (rewrite zlen_app, He, Hc; done).
  split; [done|]. apply message_exact. unfold message_encode. cbn [msg_encrypted_ephemeral msg_encrypted_options msg_padding].
  rewrite app_nil_r. split_and!; [done| |by rewrite Hl]. constructor; try done. unfold message_encode.
  cbn [msg_encrypted_ephemeral msg_encrypted_options msg_padding]. by rewrite app_nil_r, Hl.
Qed.

Lemma responder_request_step common ob e ct :
  zlen e = KEY_LENGTH → zlen ct = HANDSHAKE_OPTIONS_FRAME_LENGTH →
  responder_request common ob (e ++ ct) =
    Ok (AwaitReplay common ob (mkMessage e ct []), [RequestReplay (sha256 e) (sk_replay_retention (rc_skew common))]).
Proof.
  intros He Hc. destruct (decode_head MAX_SESSION_REQUEST_PADDING e ct ltac:(done) He Hc) as [Hl Hd].
  unfold responder_request, session_request_decode. rewrite Hl, Hd. done.
Qed.

Lemma responder_replay_step common ob ob1 e1 ct1 r0 r1 p1 n2 ti :
  rc_local_static common = sr → rc_local_static_public common = x25519_public sr →
  deobfuscate_key e1 ob = (ob1, Ok (x25519_public ei)) →
  accept_session_request (x25519_public ei) es ct1 (transcript_new Responder (x25519_public sr)) =
    Ok (r0, request_options_encode (request_of (rc_network_id common) p1 n2 ti)) →
  mix_padding p1 r0 = Ok r1 → request_options_ok (request_of (rc_network_id common) p1 n2 ti) →
  let opts := request_of (rc_network_id common) p1 n2 ti in
  responder_replay common ob (mkMessage e1 ct1 []) ReplayFresh =
    Ok (if zlen p1 =? 0 then (RNeedPeerTimestamp common ob1 [] opts (x25519_public ei) r1, [RequestTimestamp ForPeerValidation])
        else (AwaitRequestPadding common ob1 opts (x25519_public ei) r0 (zlen p1), [ReadExact (zlen p1)])).
Proof.
  intros Hs Hp Hd Ha Hm Ho opts. unfold responder_replay. cbn [replay_result mbind result_bind msg_encrypted_ephemeral msg_encrypted_options].
  rewrite Hd. cbn [map_err mbind result_bind]. rewrite Hs, Hp.
  rewrite dh_ok by (rewrite x25519_agrees; apply (ho_es _ _ _ _ Hkeys)). cbn [map_err mbind result_bind].
  rewrite (x25519_agrees sr ei), Ha. cbn [map_err mbind result_bind].
  rewrite request_options_decode_encode by done. cbn [mbind result_bind ro_network_id request_of]. rewrite Z.eqb_refl. cbn [negb ro_padding_length].
  destruct (_ =? 0) eqn:E; [|done]. breflect. apply zlen_0_nil in E as ->. rewrite Hm. done.
Qed.

Lemma created_step common ob i1 r1 p1 opts tr p2 :
  rc_ephemeral common = er → zlen (ob_chain ob) = AES_BLOCK_LENGTH → in_step i1 r1 → tr_stage i1 = Message1Padded →
  zlen p2 ≤ MAX_SESSION_CREATED_PADDING → fits 32 tr → 0 ≤ ro_part2_length opts ≤ MAX_SESSION_CONFIRMED_PART2 →
  ∃ i2 i3 r3 e2 ct2 key,
    responder_created common ob p1 opts (x25519_public ei) r1 tr p2 =
      Ok (AwaitConfirmed common r3 (ro_part2_length opts) (zlen p1) (zlen p2) (ro_network_id opts),
          [Write (e2 ++ ct2 ++ p2); ReadExact (SESSION_CONFIRMED_PART1_LENGTH + ro_part2_length opts)]) ∧
    zlen e2 = KEY_LENGTH ∧ zlen ct2 = HANDSHAKE_OPTIONS_FRAME_LENGTH ∧
    (deobfuscate_key e2 ob).2 = Ok (x25519_public er) ∧
    accept_session_created (x25519_public er) ee ct2 i1 = Ok (i2, created_options_encode (mkCreatedOptions (zlen p2) tr)) ∧
    mix_padding p2 i2 = Ok i3 ∧ in_step i3 r3 ∧ tr_stage i3 = Message2Padded ∧ tr_cipher i3 = Some (mkCipher key 1) ∧
    e2 = (obfuscate_key (x25519_public er) ob).2.
Proof.
  intros He Hob Hs Hst Hp2 Htr Hn. set (copts := mkCreatedOptions (zlen p2) tr).
  destruct (message2_step i1 r1 (x25519_public er) ee (created_options_encode copts) Hs Hst) as (i2 & r2 & ct2 & key & E1 & E2 & S1 & T1 & C1);
    [by rewrite zlen_created_options|].
  destruct (mix_padding_step i2 r2 p2 Message2Padded S1 ltac:(unfold MAX_SESSION_CREATED_PADDING in *; lia) ltac:(auto)) as (i3 & r3 & E3 & E4 & S2 & T2 & C2).
  pose proof (session_created_length _ _ _ _ _ _ ltac:(by rewrite zlen_created_options) E1) as Hct. rewrite zlen_created_options in Hct.
  pose proof (key_roundtrip (x25519_public er) ob Hob (x25519_public_length er) (ho_er _ _ _ _ Hkeys)) as Hkey.
  destruct (obfuscate_key (x25519_public er) ob) as [ob2 e2] eqn:Eo. destruct Hkey as (Hde & _ & He2).
  exists i2, i3, r3, e2, ct2, key. rewrite C1 in C2. split_and!; try done; [|by rewrite Hde].
  unfold responder_created. destruct (_ >? _) eqn:E; breflect; [lia|].
  rewrite He, public_ok by apply (ho_er _ _ _ _ Hkeys). cbn [mbind result_bind].
  rewrite dh_ok by (rewrite x25519_agrees; apply (ho_ee _ _ _ _ Hkeys)). cbn [map_err mbind result_bind]. rewrite (x25519_agrees er ei).
  assert (created_options_new (zlen p2) tr = Ok copts) as ->.
  { unfold created_options_new, try_from, fits, MAX_SESSION_CREATED_PADDING, u16_max, u32_max in *.
    rewrite (proj2 (Z.leb_le (zlen p2) _)) by lia. cbn [ok_or mbind result_bind]. by rewrite (proj2 (Z.leb_le tr _)) by lia. }
  cbn [mbind result_bind]. rewrite E1. cbn [map_err mbind result_bind]. rewrite E4. cbn [map_err mbind result_bind]. rewrite Eo.
  assert (Hm : message_ok MAX_SESSION_CREATED_PADDING (mkMessage e2 ct2 p2)).
  { constructor; try done. unfold message_encode. cbn [msg_encrypted_ephemeral msg_encrypted_options msg_padding]. rewrite !zlen_app, He2, Hct.
    unfold KEY_LENGTH, OPTION_BLOCK_LENGTH, AUTH_TAG_LENGTH, MAX_HANDSHAKE_MESSAGE_LENGTH, MAX_FRAME_LENGTH, MAX_SESSION_CREATED_PADDING in *. lia. }
  unfold session_created_new. rewrite (proj2 (message_new_ok _ e2 ct2 p2 (mkMessage e2 ct2 p2) He2)) by done.
  cbn [mbind result_bind]. rewrite handshake_bytes_ok by apply (msg_total_len _ _ Hm). cbn [mbind result_bind msg_padding].
  rewrite (proj2 (checked_add_Some usize_max _ _ (SESSION_CONFIRMED_PART1_LENGTH + ro_part2_length opts))).
  - done.
  - split; [done|]. unfold SESSION_CONFIRMED_PART1_LENGTH, KEY_LENGTH, AUTH_TAG_LENGTH, MAX_SESSION_CONFIRMED_PART2, usize_max in *. lia.
Qed.

Lemma initiator_created_step common ob i1 i2 i3 w n1 n2 e2 ct2 p2 tr :
  ic_ephemeral common = ei → zlen e2 = KEY_LENGTH → zlen ct2 = HANDSHAKE_OPTIONS_FRAME_LENGTH →
  (deobfuscate_key e2 ob).2 = Ok (x25519_public er) →
  accept_session_created (x25519_public er) ee ct2 i1 = Ok (i2, created_options_encode (mkCreatedOptions (zlen p2) tr)) →
  mix_padding p2 i2 = Ok i3 → fits 16 (zlen p2) → fits 32 tr →
  initiator_created common ob i1 w n1 n2 (e2 ++ ct2) =
    Ok (if zlen p2 =? 0 then
          (INeedPeerTimestamp common i3 w n1 n2 0 tr (sha256 e2) (x25519_public er), [RequestTimestamp ForPeerValidation])
        else (AwaitCreatedPadding common i2 w n1 n2 (x25519_public er) tr (sha256 e2) (zlen p2), [ReadExact (zlen p2)])).
Proof.
  intros He Hl Hc Hd Ha Hm Hp Ht. destruct (decode_head MAX_SESSION_CREATED_PADDING e2 ct2 ltac:(done) Hl Hc) as [Hlen Hdec].
  unfold initiator_created, session_created_decode. rewrite Hlen, Hdec. cbn [Z.eqb negb mbind result_bind msg_encrypted_ephemeral msg_encrypted_options].
  replace (MIN_HANDSHAKE_MESSAGE_LENGTH =? MIN_HANDSHAKE_MESSAGE_LENGTH) with true by done. cbn [negb].
  rewrite Hd. cbn [map_err mbind result_bind]. rewrite He, dh_ok by apply (ho_ee _ _ _ _ Hkeys). cbn [map_err mbind result_bind].
  rewrite Ha. cbn [map_err mbind result_bind]. rewrite created_options_decode_encode by done.
  cbn [mbind result_bind co_padding_length co_timestamp]. destruct (_ =? 0) eqn:E; [|done].
  breflect. apply zlen_0_nil in E as ->. rewrite Hm. done.
Qed.

Lemma confirm_step ic rc i3 r3 key w n1 np net ri p3 h eh peer :
  ic_local_static ic = si → ic_expected_peer_hash ic = Some h → rc_ephemeral rc = er → rc_expected_peer_hash rc = eh →
  in_step i3 r3 → tr_stage i3 = Message2Padded → tr_cipher i3 = Some (mkCipher key 1) →
  payload_ok MAX_ROUTER_INFO_PAYLOAD (mkPayload ri None (Some p3)) → w = payload_bytes 0 (mkPayload ri None (Some p3)) → bytes_ok w →
  validate ed25519_key ed25519_verify ri MAX_ROUTER_INFO_PAYLOAD eh (x25519_public si) = Ok peer →
  let n2 := zlen w + AUTH_TAG_LENGTH in
  ∃ w3 ki kr,
    initiator_confirm ic i3 w n1 n2 np (x25519_public er) ReplayFresh =
      Ok (InitiatorDone, [Write w3; Authenticated (mkAuthenticated Initiator (mkPeer h (ic_responder_static ic))
            (mkNegotiated (ic_network_id ic) n2 n1 np (zlen w)) ki)]) ∧
    zlen w3 = SESSION_CONFIRMED_PART1_LENGTH + n2 ∧
    responder_confirmed ed25519_key ed25519_verify rc r3 n2 n1 np net w3 =
      Ok (ResponderDone, [Authenticated (mkAuthenticated Responder peer (mkNegotiated net n2 n1 np (zlen w)) kr)]) ∧
    crossed ki kr ∧ fresh_keys ki.
Proof.
  intros Hsi Hh Her Heh Hs Hst Hc Hpay Hw Hok Hval n2.
  pose proof (payload_bytes_len 0 (mkPayload ri None (Some p3))) as Hlen. rewrite <- Hw in Hlen.
  destruct (payload_roundtrip _ _ Hpay) as [_ Hdec]. rewrite <- Hw in Hdec. specialize (Hdec Hok).
  pose proof (po_total _ _ Hpay) as Htot. rewrite <- Hlen in Htot.
  assert (Hwl : zlen w ≤ MAX_FRAME_PLAINTEXT) by (etrans; [exact Htot|done]).
  destruct (static_step i3 r3 (x25519_public si) se key Hs Hst Hc (x25519_public_length si) (ho_si _ _ _ _ Hkeys))
    as (i4 & r4 & ct3 & k4 & E1 & E2 & S4 & T4 & C4).
  destruct (confirmed_step i4 r4 w k4 S4 T4 C4 Hwl) as (i5 & r5 & ct4 & E3 & E4 & S5 & T5 & C5).
  destruct (split_step i5 r5 S5 T5 C5) as (ki & kr & E5 & E6 & Hx & Hf).
  pose proof (encrypt_static_length _ _ _ _ _ ltac:(by rewrite x25519_public_length) E1) as L3. rewrite x25519_public_length in L3.
  pose proof (encrypt_confirmed_length _ _ _ _ Hwl E3) as L4. fold n2 in L4.
  assert (Hn2 : AUTH_TAG_LENGTH ≤ n2 ≤ MAX_SESSION_CONFIRMED_PART2).
  { unfold n2. pose proof (zlen_nonneg w). unfold MAX_SESSION_CONFIRMED_PART2_PLAINTEXT, MAX_SESSION_CONFIRMED_PART2, AUTH_TAG_LENGTH in *. lia. }
  assert (Hco : confirmed_ok n2 (mkConfirmed ct3 ct4)) by done.
  assert (Hl3 : zlen (ct3 ++ ct4) = SESSION_CONFIRMED_PART1_LENGTH + n2) by (rewrite zlen_app, L3, L4; done).
  exists (ct3 ++ ct4), ki, kr. split_and!; try done.
  - unfold initiator_confirm. cbn [replay_result mbind result_bind].
    rewrite Hsi, public_ok by apply (ho_si _ _ _ _ Hkeys). cbn [mbind result_bind]. rewrite dh_ok by apply (ho_se _ _ _ _ Hkeys).
    cbn [map_err mbind result_bind]. rewrite E1. cbn [map_err mbind result_bind]. rewrite E3. cbn [map_err mbind result_bind].
    rewrite L4, Z.eqb_refl. cbn [negb]. rewrite (proj2 (confirmed_new_ok ct3 ct4 (mkConfirmed ct3 ct4))) by (split; [done|by rewrite L4]).
    cbn [mbind result_bind]. rewrite Hh. cbn [ok_or mbind result_bind]. rewrite E5. cbn [map_err mbind result_bind].
    unfold session_confirmed_encode. cbn [sc_static_frame sc_payload_frame].
    rewrite handshake_bytes_ok; [done|]. rewrite Hl3. unfold SESSION_CONFIRMED_PART1_LENGTH, KEY_LENGTH, AUTH_TAG_LENGTH,
      MAX_SESSION_CONFIRMED_PART2, MAX_HANDSHAKE_BUFFERED_INPUT, MAX_SESSION_CONFIRMED_LENGTH, MAX_FRAME_LENGTH in *. lia.
  - unfold responder_confirmed. rewrite (proj2 (confirmed_exact (ct3 ++ ct4) n2 MAX_SESSION_CONFIRMED_LENGTH (mkConfirmed ct3 ct4) ltac:(unfold AUTH_TAG_LENGTH in *; lia))).
    2: { split_and!; [done..|]. rewrite Hl3. unfold SESSION_CONFIRMED_PART1_LENGTH, KEY_LENGTH, AUTH_TAG_LENGTH, MAX_SESSION_CONFIRMED_PART2, MAX_SESSION_CONFIRMED_LENGTH, MAX_FRAME_LENGTH in *. lia. }
    cbn [mbind result_bind sc_static_frame sc_payload_frame]. unfold receive_static in E2.
    destruct (decrypt_static_unchecked ct3 r3) as [[rs st]|] eqn:Ed; [|done]. cbn [mbind result_bind map_err] in E2 |- *.
    destruct (mix_static_secret se rs) as [rm|] eqn:Em; [|done]. cbn [mbind result_bind] in E2. injection E2 as -> ->.
    rewrite Her, dh_ok by (rewrite x25519_agrees; apply (ho_se _ _ _ _ Hkeys)). cbn [map_err mbind result_bind]. rewrite (x25519_agrees er si), Em.
    cbn [map_err mbind result_bind]. rewrite E4. cbn [map_err mbind result_bind]. rewrite Hdec. cbn [mbind result_bind cp_router_info].
    rewrite Heh, Hval. cbn [mbind result_bind]. rewrite E6. done.
Qed.
End honest.

(** ** What a responder that authenticates has checked *)
(** ** The Noise XK handshake, from the responder's side

    A specification of the handshake that is written against the primitives
    alone: one chaining key and one hash run through all three messages. *)
Section noise.
Context `{P : Ntcp2Primitives} `{X : X25519}.

Record NoiseState := mkNoise { nz_chain : bytes; nz_hash : bytes }.
Record NoiseRun := mkNoiseRun {
  nr_request_options : bytes;
  nr_created_frame : bytes;
  nr_initiator_static : bytes;
  nr_payload : bytes;
  nr_keys : SplitKeys;
}.

Definition noise_begin (responder_static : bytes) : NoiseState :=
  let protocol := sha256 PROTOCOL_NAME in
  mkNoise protocol (sha256 (sha256 protocol ++ responder_static)).
Definition noise_absorb (data : bytes) (s : NoiseState) : NoiseState := mkNoise (nz_chain s) (sha256 (nz_hash s ++ data)).
Definition noise_pad (padding : bytes) (s : NoiseState) : NoiseState :=
  match padding with [] => s | _ => noise_absorb padding s end.
(** The agreed secret of [private] and [peer] goes into the chaining key. *)
Definition noise_agree (private peer : bytes) (s : NoiseState) : option (NoiseState * bytes) :=
  let secret := x25519 private peer in
  if forallb (λ b, b =? 0) secret then None
  else
  temp ← hmac (nz_chain s) secret;
  chain ← hmac temp [1];
  key ← hmac temp (chain ++ [2]);
  Some (mkNoise chain (nz_hash s), key).
Definition noise_nonce (n : Z) : bytes := [0; 0; 0; 0] ++ to_le 8 n.
Definition noise_read (key : bytes) (n : Z) (ciphertext : bytes) (s : NoiseState) : option (NoiseState * bytes) :=
  plaintext ← aead_decrypt key (noise_nonce n) (nz_hash s) ciphertext;
  Some (noise_absorb ciphertext s, plaintext).
Definition noise_write (key : bytes) (n : Z) (plaintext : bytes) (s : NoiseState) : option (NoiseState * bytes) :=
  ciphertext ← aead_encrypt key (noise_nonce n) (nz_hash s) plaintext;
  Some (noise_absorb ciphertext s, ciphertext).
(** The keys of the data phase, as the responder holds them. *)
Definition noise_keys (s : NoiseState) : option SplitKeys :=
  temp ← hmac (nz_chain s) [];
  from_initiator ← hmac temp [1];
  to_initiator ← hmac temp (from_initiator ++ [2]);
  ask ← hmac temp (ASK_LABEL ++ [1]);
  sip ← hmac ask (nz_hash s ++ SIPHASH_LABEL);
  sip ← hmac sip [1];
  sip ← hmac sip [];
  sip_from_initiator ← hmac sip [1];
  sip_to_initiator ← hmac sip (sip_from_initiator ++ [2]);
  Some (mkSplit (mkCipher to_initiator 0) (mkCipher from_initiator 0) (sip_new sip_to_initiator) (sip_new sip_from_initiator)).

Definition noise_responder (static ephemeral peer_ephemeral request_frame request_padding created_options created_padding
    static_frame payload_frame : bytes) : option NoiseRun :=
  let s := noise_absorb peer_ephemeral (noise_begin (x25519_public static)) in
  '(s, key) ← noise_agree static peer_ephemeral s;
  '(s, request_options) ← noise_read key 0 request_frame s;
  let s := noise_absorb (x25519_public ephemeral) (noise_pad request_padding s) in
  '(s, key) ← noise_agree ephemeral peer_ephemeral s;
  '(s, created_frame) ← noise_write key 0 created_options s;
  '(s, peer_static) ← noise_read key 1 static_frame (noise_pad created_padding s);
  '(s, key) ← noise_agree ephemeral peer_static s;
  '(s, payload) ← noise_read key 0 payload_frame s;
  keys ← noise_keys s;
  Some (mkNoiseRun request_options created_frame peer_static payload keys).

(** *** The transcript of the machine is that state *)
Definition as_transcript (rs : bytes) (s : NoiseState) (c : option CipherState) (st : TranscriptStage) : Transcript :=
  mkTranscript Responder rs (nz_hash s) (nz_chain s) c st.

Lemma transcript_begin rs : transcript_new Responder rs = as_transcript rs (noise_begin rs) None StageInitial.
Proof. unfold transcript_new, as_transcript, noise_begin, sha256_concat, protocol_name_hash, PROLOGUE. by rewrite app_nil_r. Qed.

Lemma mix_key_noise rs s c st private peer secret t' :
  diffie_hellman private peer = Ok secret → mix_key secret (as_transcript rs s c st) = Ok t' →
  ∃ s' key, noise_agree private peer s = Some (s', key) ∧ t' = as_transcript rs s' (Some (mkCipher key 0)) st.
Proof.
  unfold diffie_hellman, noise_agree. cbv zeta. destruct (forallb _ _); [done|]. intros <-%Ok_inj. unfold mix_key, hmac_sha256. cbn [tr_chaining_key as_transcript].
  destruct (hmac (nz_chain s) _) as [temp|]; [|done]. cbn [ok_or mbind result_bind option_bind].
  destruct (hmac temp [1]) as [chain|]; [|done]. cbn [ok_or mbind result_bind option_bind].
  destruct (hmac temp _) as [key|]; [|done]. cbn [ok_or mbind result_bind option_bind]. intros <-%Ok_inj. by eexists _, _.
Qed.

Lemma small_nonce n : 0 ≤ n ≤ 1 → nonce_next n = (n + 1, Ok (noise_nonce n)).
Proof. intros Hn. assert (n = 0 ∨ n = 1) as [-> | ->] by lia; done. Qed.

Lemma decrypt_noise rs s key n st ct t' pt : 0 ≤ n ≤ 1 →
  decrypt_and_hash ct (as_transcript rs s (Some (mkCipher key n)) st) = Ok (t', pt) →
  ∃ s', noise_read key n ct s = Some (s', pt) ∧ t' = as_transcript rs s' (Some (mkCipher key (n + 1))) st.
Proof.
  intros Hn. unfold decrypt_and_hash, open, noise_read. cbn [tr_cipher as_transcript ok_or mbind result_bind cs_nonce cs_key tr_hash].
  destruct (_ || _); [done|]. rewrite small_nonce by done. destruct (aead_decrypt _ _ _ _) as [p|]; [|done].
  cbn. intros [= <- <-]. by eexists.
Qed.
Lemma encrypt_noise rs s key st pt t' ct :
  encrypt_and_hash pt (as_transcript rs s (Some (mkCipher key 0)) st) = Ok (t', ct) →
  ∃ s', noise_write key 0 pt s = Some (s', ct) ∧ t' = as_transcript rs s' (Some (mkCipher key 1)) st.
Proof.
  unfold encrypt_and_hash, seal, noise_write. cbn [tr_cipher as_transcript ok_or mbind result_bind cs_nonce cs_key tr_hash].
  destruct (_ >? _); [done|]. rewrite small_nonce by lia. destruct (aead_encrypt _ _ _ _) as [c|]; [|done].
  cbn. intros [= <- <-]. by eexists.
Qed.
Lemma padding_noise rs s c st padding t' : mix_padding padding (as_transcript rs s c st) = Ok t' →
  ∃ st', t' = as_transcript rs (noise_pad padding s) c st' ∧ (st = Message1Complete ∧ st' = Message1Padded ∨ st = Message2Complete ∧ st' = Message2Padded).
Proof.
  unfold mix_padding. destruct (_ >? _); [done|]. cbn [tr_stage as_transcript].
  assert (Hm : (if zlen padding =? 0 then as_transcript rs s c st else mix_hash padding (as_transcript rs s c st)) = as_transcript rs (noise_pad padding s) c st).
  { destruct padding as [|b l]; [done|]. rewrite (proj2 (Z.eqb_neq _ 0)); [done|]. rewrite zlen_cons. pose proof (zlen_nonneg l). lia. }
  rewrite Hm. destruct st; try done; intros <-%Ok_inj; eexists; (split; [done|]); auto.
Qed.

Lemma request_noise rs private peer secret ct t pt :
  diffie_hellman private peer = Ok secret → accept_session_request peer secret ct (transcript_new Responder rs) = Ok (t, pt) →
  ∃ s key s', noise_agree private peer (noise_absorb peer (noise_begin rs)) = Some (s, key) ∧ noise_read key 0 ct s = Some (s', pt) ∧
    t = as_transcript rs s' (Some (mkCipher key 1)) Message1Complete.
Proof.
  intros Hd. rewrite transcript_begin. unfold accept_session_request. cbn [require mbind result_bind].
  change (mix_ephemeral peer (as_transcript rs (noise_begin rs) None StageInitial)) with (as_transcript rs (noise_absorb peer (noise_begin rs)) None StageInitial).
  unfold require. rewrite !bool_decide_false by (by intros []). cbn [mbind result_bind].
  destruct (mix_key _ _) as [t1|] eqn:Em; [|done]. cbn [mbind result_bind]. apply (mix_key_noise _ _ _ _ _ _ _ _ Hd) in Em as (s & key & Hs & ->).
  destruct (decrypt_and_hash _ _) as [[t2 p]|] eqn:Ed; [|done]. apply decrypt_noise in Ed as (s' & Hr & ->); [|lia].
  cbn. intros [= <- <-]. by exists s, key, s'.
Qed.

Lemma created_noise rs s c private peer secret pub pt t ct :
  diffie_hellman private peer = Ok secret → session_created pub secret pt (as_transcript rs s c Message1Padded) = Ok (t, ct) →
  ∃ s1 key s', noise_agree private peer (noise_absorb pub s) = Some (s1, key) ∧ noise_write key 0 pt s1 = Some (s', ct) ∧
    t = as_transcript rs s' (Some (mkCipher key 1)) Message2Complete.
Proof.
  intros Hd. unfold session_created, require. rewrite !bool_decide_false by (by intros []). cbn [mbind result_bind].
  change (mix_ephemeral pub (as_transcript rs s c Message1Padded)) with (as_transcript rs (noise_absorb pub s) c Message1Padded).
  destruct (mix_key _ _) as [t1|] eqn:Em; [|done]. cbn [mbind result_bind]. apply (mix_key_noise _ _ _ _ _ _ _ _ Hd) in Em as (s1 & key & Hs & ->).
  destruct (encrypt_and_hash _ _) as [[t2 p]|] eqn:Ed; [|done]. apply encrypt_noise in Ed as (s' & Hr & ->).
  cbn. intros [= <- <-]. by exists s1, key, s'.
Qed.

Lemma static_noise rs s key ct t static :
  decrypt_static_unchecked ct (as_transcript rs s (Some (mkCipher key 1)) Message2Padded) = Ok (t, static) →
  ∃ s', noise_read key 1 ct s = Some (s', static) ∧ t = as_transcript rs s' (Some (mkCipher key 2)) Message2Padded.
Proof.
  unfold decrypt_static_unchecked, require. rewrite !bool_decide_false by (by intros []). cbn [mbind result_bind].
  destruct (decrypt_and_hash _ _) as [[t1 p]|] eqn:Ed; [|done]. apply decrypt_noise in Ed as (s' & Hr & ->); [|lia]. cbn [mbind result_bind].
  unfold static_from, public_key_new. destruct (negb _); [done|]. destruct (forallb _ _); [done|]. cbn. intros [= <- <-]. by exists s'.
Qed.

Lemma confirmed_noise rs s c private peer secret ct t1 t2 payload keys :
  diffie_hellman private peer = Ok secret → mix_static_secret secret (as_transcript rs s c Message2Padded) = Ok t1 →
  decrypt_confirmed_payload ct t1 = Ok (t2, payload) → split t2 = Ok keys →
  ∃ s1 key s2, noise_agree private peer s = Some (s1, key) ∧ noise_read key 0 ct s1 = Some (s2, payload) ∧ noise_keys s2 = Some keys.
Proof.
  intros Hd. unfold mix_static_secret, require. rewrite !bool_decide_false by (by intros []). cbn [mbind result_bind].
  destruct (mix_key _ _) as [t0|] eqn:Em; [|done]. apply (mix_key_noise _ _ _ _ _ _ _ _ Hd) in Em as (s1 & key & Hs & ->).
  cbn [mbind result_bind]. intros <-%Ok_inj. change (with_stage StaticEncrypted (as_transcript ?rs ?s ?c ?st)) with (as_transcript rs s c StaticEncrypted).
  unfold decrypt_confirmed_payload, require. rewrite !bool_decide_false by (by intros []). cbn [mbind result_bind].
  destruct (decrypt_and_hash _ _) as [[t3 p]|] eqn:Ed; [|done]. apply decrypt_noise in Ed as (s2 & Hr & ->); [|lia]. cbn [mbind result_bind].
  intros [= <- <-]. intros Hk. exists s1, key, s2. split_and!; [done..|]. revert Hk. unfold split, noise_keys, hmac_sha256. cbn [tr_stage with_stage as_transcript tr_cipher tr_chaining_key tr_hash tr_role].
  rewrite !bool_decide_false by (done || by intros []). cbn [orb].
  repeat (match goal with |- context [hmac ?k ?d] => destruct (hmac k d); [|done]; cbn [ok_or mbind result_bind option_bind] end).
  by intros <-%Ok_inj.
Qed.
End noise.

Section runs.
Context `{P : Ntcp2Primitives} `{X : X25519} (ed25519_key : bytes → bool) (ed25519_verify : bytes → bytes → bytes → bool).
Abbreviation step := (responder_transition ed25519_key ed25519_verify).

(** The actions of a responder on a sequence of inputs; an error consumes it. *)
Fixpoint responder_actions (inputs : list HandshakeInput) (p : ResponderPhase) : list HandshakeAction :=
  match inputs with
  | [] => []
  | input :: inputs' =>
      match step p input with
      | Err _ => []
      | Ok (p', actions) => actions ++ responder_actions inputs' p'
      end
  end.

Lemma done_actions inputs h : Authenticated h ∉ responder_actions inputs ResponderDone.
Proof.
  induction inputs as [|i l IH]; cbn [responder_actions]; [apply not_elem_of_nil|].
  unfold responder_transition. destruct (interruption i); [|destruct i; apply not_elem_of_nil].
  rewrite elem_of_app. intros [H|H]; [|done]. by apply list_elem_of_singleton in H.
Qed.

Lemma actions_inv inputs p h :
  Authenticated h ∈ responder_actions inputs p →
  ∃ input inputs' p' actions, inputs = input :: inputs' ∧ interruption input = None ∧ step p input = Ok (p', actions) ∧
    (Authenticated h ∈ actions ∨ Authenticated h ∈ responder_actions inputs' p').
Proof.
  destruct inputs as [|i l]; cbn [responder_actions]; [by intros ?%elem_of_nil|].
  destruct (step p i) as [[p' acts]|] eqn:E; [|by intros ?%elem_of_nil]. rewrite elem_of_app. intros H.
  exists i, l, p', acts. split_and!; try done. unfold responder_transition in E.
  destruct (interruption i) as [e|]; [|done]. injection E as <- <-. exfalso.
  destruct H as [H|H]; [by apply list_elem_of_singleton in H|by apply done_actions in H].
Qed.

Lemma confirmed_actions common t n a b net bs p acts :
  responder_confirmed ed25519_key ed25519_verify common t n a b net bs = Ok (p, acts) →
  p = ResponderDone ∧ ∃ conf t1 static se t2 t3 plaintext payload peer keys,
    session_confirmed_decode bs n MAX_SESSION_CONFIRMED_LENGTH = Ok conf ∧
    decrypt_static_unchecked (sc_static_frame conf) t = Ok (t1, static) ∧
    diffie_hellman (rc_ephemeral common) static = Ok se ∧ mix_static_secret se t1 = Ok t2 ∧
    decrypt_confirmed_payload (sc_payload_frame conf) t2 = Ok (t3, plaintext) ∧
    confirmed_payload_decode plaintext MAX_ROUTER_INFO_PAYLOAD = Ok payload ∧
    validate ed25519_key ed25519_verify (cp_router_info payload) MAX_ROUTER_INFO_PAYLOAD (rc_expected_peer_hash common) static = Ok peer ∧
    split t3 = Ok keys ∧ acts = [Authenticated (mkAuthenticated Responder peer (mkNegotiated net n a b (zlen plaintext)) keys)].
Proof.
  unfold responder_confirmed.
  destruct (session_confirmed_decode _ _ _) as [conf|] eqn:E1; [|done]. cbn [mbind result_bind].
  destruct (decrypt_static_unchecked _ _) as [[t1 static]|] eqn:E2; [|done]. cbn [map_err mbind result_bind].
  destruct (diffie_hellman _ _) as [s|] eqn:E3; [|done]. cbn [map_err mbind result_bind].
  destruct (mix_static_secret _ _) as [t2|] eqn:E4; [|done]. cbn [map_err mbind result_bind].
  destruct (decrypt_confirmed_payload _ _) as [[t3 plaintext]|] eqn:E5; [|done]. cbn [map_err mbind result_bind].
  destruct (confirmed_payload_decode _ _) as [payload|] eqn:E6; [|done]. cbn [mbind result_bind].
  destruct (validate _ _ _ _ _ _) as [peer|] eqn:E7; [|done]. cbn [mbind result_bind].
  destruct (split _) as [keys|] eqn:E8; [|done]. cbn [map_err mbind result_bind]. intros [= <- <-].
  split; [done|]. by exists conf, t1, static, s, t2, t3, plaintext, payload, peer, keys.
Qed.

Lemma created_actions common ob rp opts eph t ts pad p acts :
  responder_created common ob rp opts eph t ts pad = Ok (p, acts) →
  ∃ shared o t1 ct t' n, diffie_hellman (rc_ephemeral common) eph = Ok shared ∧ created_options_new (zlen pad) ts = Ok o ∧
    session_created (x25519_public (rc_ephemeral common)) shared (created_options_encode o) t = Ok (t1, ct) ∧ mix_padding pad t1 = Ok t' ∧
    p = AwaitConfirmed common t' (ro_part2_length opts) (zlen rp) (zlen pad) (ro_network_id opts) ∧
    acts = [Write ((obfuscate_key (x25519_public (rc_ephemeral common)) ob).2 ++ ct ++ pad); ReadExact n].
Proof.
  unfold responder_created. destruct (_ >? _); [done|]. unfold machine_public_key, public_key_new.
  destruct (forallb _ _); [done|]. cbn [map_err mbind result_bind]. destruct (diffie_hellman _ _) as [shared|]; [|done]. cbn [map_err mbind result_bind].
  destruct (created_options_new _ _) as [o|]; [|done]. cbn [mbind result_bind]. destruct (session_created _ _ _ _) as [[t1 ct]|] eqn:Es; [|done].
  cbn [map_err mbind result_bind]. destruct (mix_padding _ _) as [t'|] eqn:Em; [|done]. cbn [map_err mbind result_bind].
  destruct (obfuscate_key _ _) as [ob' enc]. destruct (session_created_new _ _ _) as [m|] eqn:En; [|done]. cbn [mbind result_bind].
  assert (m = mkMessage enc ct pad) as ->.
  { unfold session_created_new, message_new in En. destruct (negb _); [done|]. destruct (_ >? _); [done|]. destruct (_ >? _); [done|]. by injection En. }
  unfold handshake_bytes_new. destruct (_ >? _); [done|]. cbn [mbind result_bind]. destruct (checked_add _ _ _) as [n|]; [|done]. cbn [ok_or mbind result_bind].
  intros [= <- <-]. by exists shared, o, t1, ct, t', n.
Qed.

Lemma replay_actions common ob req d p acts :
  responder_replay common ob req d = Ok (p, acts) →
  d = ReplayFresh ∧ ∃ ob1 eph es t plaintext opts,
    deobfuscate_key (msg_encrypted_ephemeral req) ob = (ob1, Ok eph) ∧ diffie_hellman (rc_local_static common) eph = Ok es ∧
    accept_session_request eph es (msg_encrypted_options req) (transcript_new Responder (rc_local_static_public common)) = Ok (t, plaintext) ∧
    request_options_decode plaintext = Ok opts ∧ ro_network_id opts = rc_network_id common ∧
    (ro_padding_length opts = 0 ∧ (∃ t', mix_padding [] t = Ok t' ∧ p = RNeedPeerTimestamp common ob1 [] opts eph t') ∧ acts = [RequestTimestamp ForPeerValidation] ∨
     ro_padding_length opts ≠ 0 ∧ p = AwaitRequestPadding common ob1 opts eph t (ro_padding_length opts) ∧ acts = [ReadExact (ro_padding_length opts)]).
Proof.
  unfold responder_replay. destruct d; try done. cbn [replay_result mbind result_bind].
  destruct (deobfuscate_key _ _) as [ob1 [eph|]] eqn:E1; [|done]. cbn [map_err mbind result_bind].
  destruct (diffie_hellman _ _) as [s|] eqn:E2; [|done]. cbn [map_err mbind result_bind].
  destruct (accept_session_request _ _ _ _) as [[t plaintext]|] eqn:E3; [|done]. cbn [map_err mbind result_bind].
  destruct (request_options_decode _) as [opts|] eqn:E4; [|done]. cbn [mbind result_bind].
  destruct (_ =? rc_network_id _) eqn:E5; [|done]. cbn [negb]. breflect. intros H. split; [done|].
  exists ob1, eph, s, t, plaintext, opts. split_and!; try done. destruct (_ =? 0) eqn:E6; breflect.
  - left. destruct (mix_padding _ _) as [t'|] eqn:Em; [|done]. cbn in H. injection H as <- <-. eauto.
  - right. injection H as <- <-. eauto.
Qed.

(** The request a responder has accepted: for this network, with all its padding,
    and of the present. *)
Record request_checked (net : Z) (skew : ClockSkewPolicy) (head padding : bytes) (now : Z) (opts : SessionRequestOptions) : Prop := {
  rk_length : zlen head = MIN_HANDSHAKE_MESSAGE_LENGTH;
  rk_network : ro_network_id opts = net;
  rk_padding : zlen padding = ro_padding_length opts;
  rk_skew : Z.abs (ro_timestamp opts - now) ≤ sk_maximum_delta skew;
}.

(** The peer a responder reports on the payload of the third message: the
    RouterInfo in it is valid and bound to the static key the message opened to. *)
Record peer_checked (expected : option bytes) (static payload : bytes) (h : AuthenticatedHandshake) : Prop := {
  pk_role : ah_role h = Responder;
  pk_peer : ∃ fields, confirmed_payload_decode payload MAX_ROUTER_INFO_PAYLOAD = Ok fields ∧
    validate ed25519_key ed25519_verify (cp_router_info fields) MAX_ROUTER_INFO_PAYLOAD expected static = Ok (ah_peer h);
}.

(** What the third message has to be for a responder that holds the transcript [t]. *)
Definition confirmed_checked (t : Transcript) (ephemeral : bytes) (expected : option bytes) (part2_length : Z) (confirmed : bytes)
    (h : AuthenticatedHandshake) : Prop :=
  zlen confirmed = SESSION_CONFIRMED_PART1_LENGTH + part2_length ∧
  ∃ t1 t2 t3 static secret payload,
    decrypt_static_unchecked (slice 0 SESSION_CONFIRMED_PART1_LENGTH confirmed) t = Ok (t1, static) ∧
    diffie_hellman ephemeral static = Ok secret ∧ mix_static_secret secret t1 = Ok t2 ∧
    decrypt_confirmed_payload (slice SESSION_CONFIRMED_PART1_LENGTH (zlen confirmed) confirmed) t2 = Ok (t3, payload) ∧
    split t3 = Ok (ah_split_keys h) ∧ peer_checked expected static payload h.

(** From each phase, what is left to be seen. *)
Lemma auth_confirmed common t n a b net inputs h :
  0 ≤ n → Authenticated h ∈ responder_actions inputs (AwaitConfirmed common t n a b net) →
  ∃ confirmed rest, inputs = InBytes confirmed :: rest ∧ confirmed_checked t (rc_ephemeral common) (rc_expected_peer_hash common) n confirmed h.
Proof.
  intros Hn (i & l & p' & acts & -> & Hi & Hs & Hin)%actions_inv. unfold responder_transition in Hs. rewrite Hi in Hs.
  destruct i as [confirmed| | | | | | |]; try done. exists confirmed, l. split; [done|].
  apply confirmed_actions in Hs as (-> & conf & t1 & static & secret & t2 & t3 & plaintext & payload & peer & keys & E1 & E2 & E3 & E4 & E5 & E6 & E7 & E8 & ->).
  destruct Hin as [Hin|Hin]; [|by apply done_actions in Hin]. apply list_elem_of_singleton in Hin. injection Hin as ->.
  apply confirmed_exact in E1 as (-> & (L1 & L2 & _) & _); [|done]. unfold session_confirmed_encode. split; [rewrite zlen_app; lia|].
  exists t1, t2, t3, static, secret, plaintext. rewrite slice_app_start, slice_app_end by (rewrite ?zlen_app; lia).
  split_and!; [done..|]. split; [done|by exists payload].
Qed.

(** The answer and the third message, for a responder that holds the transcript [t] of the request. *)
Definition answered (t : Transcript) (ob : AesObfuscationState) (ephemeral eph : bytes) (expected : option bytes) (part2_length now : Z)
    (created confirmed : bytes) (actions : list HandshakeAction) (h : AuthenticatedHandshake) : Prop :=
  ∃ shared o t1 ct t', diffie_hellman ephemeral eph = Ok shared ∧ created_options_new (zlen created) now = Ok o ∧
    session_created (x25519_public ephemeral) shared (created_options_encode o) t = Ok (t1, ct) ∧ mix_padding created t1 = Ok t' ∧
    Write ((obfuscate_key (x25519_public ephemeral) ob).2 ++ ct ++ created) ∈ actions ∧
    confirmed_checked t' ephemeral expected part2_length confirmed h.

Lemma actions_app i l p p' acts : step p i = Ok (p', acts) → responder_actions (i :: l) p = acts ++ responder_actions l p'.
Proof. intros Hs. cbn [responder_actions]. by rewrite Hs. Qed.

Lemma answered_later t ob ephemeral eph expected n now created confirmed actions more h :
  answered t ob ephemeral eph expected n now created confirmed actions h →
  answered t ob ephemeral eph expected n now created confirmed (more ++ actions) h.
Proof.
  intros (shared & o & t1 & ct & t' & ? & ? & ? & ? & ? & ?). exists shared, o, t1, ct, t'. split_and!; try done. apply elem_of_app. by right.
Qed.

Lemma auth_created common ob rp opts eph t ts inputs h :
  0 ≤ ro_part2_length opts → Authenticated h ∈ responder_actions inputs (NeedCreatedPadding common ob rp opts eph t ts) →
  ∃ created confirmed rest, inputs = InPadding created :: InBytes confirmed :: rest ∧
    answered t ob (rc_ephemeral common) eph (rc_expected_peer_hash common) (ro_part2_length opts) ts created confirmed
      (responder_actions inputs (NeedCreatedPadding common ob rp opts eph t ts)) h.
Proof.
  intros Hn (i & l & p' & acts & -> & Hi & Hs & Hin)%actions_inv. rewrite (actions_app _ _ _ _ _ Hs). unfold responder_transition in Hs. rewrite Hi in Hs.
  destruct i as [| | |created| | | |]; try done. apply created_actions in Hs as (shared & o & t1 & ct & t' & n & E1 & E2 & E3 & E4 & -> & ->).
  destruct Hin as [Hin|Hin]; [by rewrite !elem_of_cons in Hin; destruct Hin as [?|[?|?%elem_of_nil]]|].
  apply auth_confirmed in Hin as (confirmed & rest & -> & Hp); [|done]. exists created, confirmed, rest. split; [done|].
  exists shared, o, t1, ct, t'. split_and!; try done. apply elem_of_app. left. by left.
Qed.

Lemma auth_timestamp common ob rp opts eph t inputs h :
  0 ≤ ro_part2_length opts → Authenticated h ∈ responder_actions inputs (RNeedPeerTimestamp common ob rp opts eph t) →
  ∃ now created confirmed rest, inputs = InTimestamp now :: InPadding created :: InBytes confirmed :: rest ∧
    Z.abs (ro_timestamp opts - now) ≤ sk_maximum_delta (rc_skew common) ∧
    answered t ob (rc_ephemeral common) eph (rc_expected_peer_hash common) (ro_part2_length opts) now created confirmed
      (responder_actions inputs (RNeedPeerTimestamp common ob rp opts eph t)) h.
Proof.
  intros Hn (i & l & p' & acts & -> & Hi & Hs & Hin)%actions_inv. rewrite (actions_app _ _ _ _ _ Hs). unfold responder_transition in Hs. rewrite Hi in Hs.
  destruct i as [|now| | | | | |]; try done. destruct (skew_classify _ _ _) as [[]|] eqn:Ec; [|done]. cbn in Hs. injection Hs as <- <-.
  apply classify_exact in Ec. destruct Hin as [Hin|Hin]; [by apply list_elem_of_singleton in Hin|].
  apply auth_created in Hin as (created & confirmed & rest & -> & Hp); [|done]. exists now, created, confirmed, rest. split_and!; [done..|].
  by apply answered_later.
Qed.

Lemma opts_part2 plaintext opts : request_options_decode plaintext = Ok opts → 0 ≤ ro_part2_length opts.
Proof.
  intros H. assert (Hl : zlen plaintext = 16).
  { unfold request_options_decode in H. destruct (zlen plaintext =? _) eqn:E; [by breflect|done]. }
  destruct (sixteen plaintext Hl) as (b0 & b1 & b2 & b3 & b4 & b5 & b6 & b7 & b8 & b9 & b10 & b11 & b12 & b13 & b14 & b15 & ->).
  rewrite request_decode_list in H. destruct (negb _); [done|]. destruct (_ || _); [done|]. destruct (part2_in_range _) eqn:E; [|done].
  apply part2_in_range_spec in E. injection H as <-. cbn. unfold AUTH_TAG_LENGTH in E. lia.
Qed.

(** The transcript of the machine followed through all three messages. *)
Lemma noise_follows static ephemeral eph head padding secret t plaintext t' ob expected n now created confirmed actions h :
  diffie_hellman static eph = Ok secret →
  accept_session_request eph secret head (transcript_new Responder (x25519_public static)) = Ok (t, plaintext) →
  mix_padding padding t = Ok t' → answered t' ob ephemeral eph expected n now created confirmed actions h →
  zlen confirmed = SESSION_CONFIRMED_PART1_LENGTH + n ∧
  ∃ o run, created_options_new (zlen created) now = Ok o ∧
    noise_responder static ephemeral eph head padding (created_options_encode o) created
      (slice 0 SESSION_CONFIRMED_PART1_LENGTH confirmed) (slice SESSION_CONFIRMED_PART1_LENGTH (zlen confirmed) confirmed) = Some run ∧
    nr_request_options run = plaintext ∧ nr_keys run = ah_split_keys h ∧
    Write ((obfuscate_key (x25519_public ephemeral) ob).2 ++ nr_created_frame run ++ created) ∈ actions ∧
    peer_checked expected (nr_initiator_static run) (nr_payload run) h.
Proof.
  intros Hd1 Ha Hp1 (shared & o & t1 & ct & t2 & Hd2 & Ho & Hc & Hp2 & Hw & Hlen & t3 & t4 & t5 & peer & se & payload & Hst & Hd3 & Hm & Hpl & Hsp & Hpk).
  split; [done|]. apply (request_noise _ _ _ _ _ _ _ Hd1) in Ha as (s1 & k1 & s2 & N1 & N2 & ->).
  apply padding_noise in Hp1 as (st & -> & [[_ ->]|[? _]]); [|done].
  apply (created_noise _ _ _ _ _ _ _ _ _ _ Hd2) in Hc as (s3 & k2 & s4 & N3 & N4 & ->).
  apply padding_noise in Hp2 as (st & -> & [[? _]|[_ ->]]); [done|].
  apply static_noise in Hst as (s5 & N5 & ->).
  destruct (confirmed_noise _ _ _ _ _ _ _ _ _ _ _ Hd3 Hm Hpl Hsp) as (s6 & k3 & s7 & N6 & N7 & N8).
  exists o, (mkNoiseRun plaintext ct peer payload (ah_split_keys h)). split; [done|]. split; [|done].
  unfold noise_responder. rewrite N1. cbn [mbind option_bind]. rewrite N2. cbn [mbind option_bind]. rewrite N3. cbn [mbind option_bind].
  rewrite N4. cbn [mbind option_bind]. rewrite N5. cbn [mbind option_bind]. rewrite N6. cbn [mbind option_bind]. rewrite N7. cbn [mbind option_bind]. by rewrite N8.
Qed.

Lemma responder_evidence local_static ephemeral expected hash iv net skew p inputs h :
  responder_new local_static ephemeral expected hash iv net skew = Ok p →
  Authenticated h ∈ responder_actions inputs p →
  ∃ head padding now created confirmed rest opts ob eph answer run,
    inputs = InBytes head :: InReplay ReplayFresh :: (if ro_padding_length opts =? 0 then [] else [InBytes padding]) ++
             InTimestamp now :: InPadding created :: InBytes confirmed :: rest ∧
    responder_actions [InBytes head] p = [RequestReplay (sha256 (slice 0 KEY_LENGTH head)) (sk_replay_retention skew)] ∧
    request_checked net skew head padding now opts ∧
    deobfuscate_key (slice 0 KEY_LENGTH head) (mkObfuscation hash iv) = (ob, Ok eph) ∧
    created_options_new (zlen created) now = Ok answer ∧
    zlen confirmed = SESSION_CONFIRMED_PART1_LENGTH + ro_part2_length opts ∧
    noise_responder local_static ephemeral eph (slice KEY_LENGTH MIN_HANDSHAKE_MESSAGE_LENGTH head) padding (created_options_encode answer) created
      (slice 0 SESSION_CONFIRMED_PART1_LENGTH confirmed) (slice SESSION_CONFIRMED_PART1_LENGTH (zlen confirmed) confirmed) = Some run ∧
    request_options_decode (nr_request_options run) = Ok opts ∧
    Write ((obfuscate_key (x25519_public ephemeral) ob).2 ++ nr_created_frame run ++ created) ∈ responder_actions inputs p ∧
    peer_checked expected (nr_initiator_static run) (nr_payload run) h ∧ ah_split_keys h = nr_keys run.
Proof.
  unfold responder_new, machine_public_key. destruct (public_key_new _) as [pub|] eqn:Epub; [|done]. cbn. intros <-%Ok_inj.
  assert (pub = x25519_public local_static) as ->. { unfold public_key_new in Epub. destruct (forallb _ _); [done|]. by injection Epub. }
  set (common := mkResponderCommon _ _ _ _ _ _).
  intros (i & l & p' & acts & -> & Hi & Hs & Hin)%actions_inv. rewrite (actions_app _ _ _ _ _ Hs). unfold responder_transition in Hs. rewrite Hi in Hs.
  destruct i as [head| | | | | | |]; try done.
  assert (Ha : responder_actions [InBytes head] (NeedRequest common (mkObfuscation hash iv)) = acts).
  { cbn [responder_actions]. unfold responder_transition. cbn [interruption]. rewrite Hs. by rewrite app_nil_r. }
  unfold responder_request in Hs. destruct (_ =? _) eqn:El; [|done]. breflect. cbn [negb] in Hs.
  destruct (session_request_decode _ _) as [req|] eqn:Ed; [|done]. cbn [mbind result_bind] in Hs. injection Hs as <- <-.
  apply message_exact in Ed as (Henc & Hreq & _). destruct Hin as [Hin|Hin]; [by apply list_elem_of_singleton in Hin|].
  assert (Hh : slice 0 KEY_LENGTH head = msg_encrypted_ephemeral req ∧ slice KEY_LENGTH MIN_HANDSHAKE_MESSAGE_LENGTH head = msg_encrypted_options req).
  { destruct Hreq as [L1 L2 _ _]. rewrite Henc. unfold message_encode. split; [apply slice_app_start; lia|apply slice_app_eq; [lia|]].
    rewrite L2. done. }
  destruct Hh as [Hh1 Hh2].
  apply actions_inv in Hin as (i & l' & p' & acts & -> & Hi' & Hs & Hin). rewrite (actions_app _ _ _ _ _ Hs). unfold responder_transition in Hs. rewrite Hi' in Hs.
  destruct i as [| |d| | | | |]; try done.
  apply replay_actions in Hs as (-> & ob1 & eph & es & t & plaintext & opts & E1 & E2 & E3 & E4 & Hnet & Hcase).
  pose proof (opts_part2 _ _ E4) as Hn. rewrite <- Hh1 in E1, Ha. rewrite <- Hh1. rewrite <- Hh2 in E3.
  destruct Hcase as [(Hz & (t' & Hmix & ->) & ->)|(Hz & -> & ->)].
  - destruct Hin as [Hin|Hin]; [by apply list_elem_of_singleton in Hin|].
    apply auth_timestamp in Hin as (now & created & confirmed & rest & -> & Hskew & Hans); [|done].
    apply (answered_later _ _ _ _ _ _ _ _ _ _ [RequestTimestamp ForPeerValidation]) in Hans.
    apply (answered_later _ _ _ _ _ _ _ _ _ _ [RequestReplay (sha256 (slice 0 KEY_LENGTH head)) (sk_replay_retention (rc_skew common))]) in Hans.
    destruct (noise_follows local_static ephemeral eph _ [] _ _ _ _ _ _ _ _ _ _ _ _ E2 E3 Hmix Hans)
      as (Hlen & o & run & Ho & Hrun & Hopts & Hk & Hw & Hpeer).
    exists head, [], now, created, confirmed, rest, opts, ob1, eph, o, run. rewrite Hz. split_and!; try done. by rewrite Hopts.
  - destruct Hin as [Hin|Hin]; [by apply list_elem_of_singleton in Hin|].
    apply actions_inv in Hin as (i & l & p' & acts & -> & Hi'' & Hs & Hin). rewrite (actions_app _ _ _ _ _ Hs). unfold responder_transition in Hs. rewrite Hi'' in Hs.
    destruct i as [padding| | | | | | |]; try done. unfold check_padding in Hs. destruct (_ =? _) eqn:Ep; [|done]. breflect.
    cbn [negb mbind result_bind] in Hs. destruct (mix_padding _ _) as [t'|] eqn:Hmix; [|done]. cbn in Hs. injection Hs as <- <-.
    destruct Hin as [Hin|Hin]; [by apply list_elem_of_singleton in Hin|].
    apply auth_timestamp in Hin as (now & created & confirmed & rest & -> & Hskew & Hans); [|done].
    apply (answered_later _ _ _ _ _ _ _ _ _ _ [RequestTimestamp ForPeerValidation]) in Hans.
    apply (answered_later _ _ _ _ _ _ _ _ _ _ [ReadExact (ro_padding_length opts)]) in Hans.
    apply (answered_later _ _ _ _ _ _ _ _ _ _ [RequestReplay (sha256 (slice 0 KEY_LENGTH head)) (sk_replay_retention (rc_skew common))]) in Hans.
    destruct (noise_follows local_static ephemeral eph _ padding _ _ _ _ _ _ _ _ _ _ _ _ E2 E3 Hmix Hans)
      as (Hlen & o & run & Ho & Hrun & Hopts & Hk & Hw & Hpeer).
    exists head, padding, now, created, confirmed, rest, opts, ob1, eph, o, run. rewrite (proj2 (Z.eqb_neq _ _) Hz). split_and!; try done. by rewrite Hopts.
Qed.
End runs.

(** ** No panic *)
Lemma payload_new_encodes ri p3 p : confirmed_payload_new ri None (Some p3) = Ok p → is_Some (confirmed_payload_encode p).
Proof.
  intros (-> & Hri & _ & Ht)%payload_new_ok.
  destruct (payload_roundtrip (zlen ri) (mkPayload ri None (Some p3))) as [He _]; [|by rewrite He; eauto]. by constructor.
Qed.

(** Building the first message never panics: a payload that the constructor
    accepts has 16-bit block lengths. *)
Lemma initiator_never_panics `{P : Ntcp2Primitives} `{X : X25519} ed25519_key ed25519_verify p input :
  is_Some (initiator_transition ed25519_key ed25519_verify p input).
Proof.
  unfold initiator_transition. destruct (interruption input); [eauto|]. destruct p, input; try (by eexists).
  unfold initiator_request. destruct (confirmed_payload_new _ _ _) as [q|] eqn:E; [|by eexists].
  destruct (payload_new_encodes _ _ _ E) as [w ->]. by eexists.
Qed.

(** ** Properties *)

(** C9: a responder authenticates only on evidence.  Whatever inputs a responder is
    given, if it ever reports a handshake as authenticated then the inputs
    began with: a first message of the fixed length whose ephemeral key the runtime was asked
    about and had not seen before, for its network and of the present; the padding it
    announces; the padding of the answer, which was written with the responder's
    ephemeral key in front; and a third message of exactly the announced length.
    These messages are a run of Noise XK as [noise_responder] writes it out from
    the primitives, one chaining key and one hash through all three: the first
    opens under the key agreed with the responder's static key, the answer is sealed under the key
    agreed between the ephemeral keys, the third opens under it to a static key and
    under the key agreed with that to a RouterInfo that is valid, of the expected router and published
    with that static key.  The peer reported is that router, and the session
    keys reported are the ones this run ends with. *)
Theorem responder_authentic (P : Ntcp2Primitives) (X : X25519) ed25519_key ed25519_verify
    local_static ephemeral expected hash iv net skew p inputs h
    (Hp : responder_new local_static ephemeral expected hash iv net skew = Ok p)
    (Hh : Authenticated h ∈ responder_actions ed25519_key ed25519_verify inputs p) :
  ∃ head padding now created confirmed rest opts ob eph answer run,
    inputs = InBytes head :: InReplay ReplayFresh :: (if ro_padding_length opts =? 0 then [] else [InBytes padding]) ++
             InTimestamp now :: InPadding created :: InBytes confirmed :: rest ∧
    responder_actions ed25519_key ed25519_verify [InBytes head] p =
      [RequestReplay (sha256 (slice 0 KEY_LENGTH head)) (sk_replay_retention skew)] ∧
    request_checked net skew head padding now opts ∧
    deobfuscate_key (slice 0 KEY_LENGTH head) (mkObfuscation hash iv) = (ob, Ok eph) ∧
    created_options_new (zlen created) now = Ok answer ∧
    zlen confirmed = SESSION_CONFIRMED_PART1_LENGTH + ro_part2_length opts ∧
    noise_responder local_static ephemeral eph (slice KEY_LENGTH MIN_HANDSHAKE_MESSAGE_LENGTH head) padding (created_options_encode answer) created
      (slice 0 SESSION_CONFIRMED_PART1_LENGTH confirmed) (slice SESSION_CONFIRMED_PART1_LENGTH (zlen confirmed) confirmed) = Some run ∧
    request_options_decode (nr_request_options run) = Ok opts ∧
    Write ((obfuscate_key (x25519_public ephemeral) ob).2 ++ nr_created_frame run ++ created)
      ∈ responder_actions ed25519_key ed25519_verify inputs p ∧
    peer_checked ed25519_key ed25519_verify expected (nr_initiator_static run) (nr_payload run) h ∧ ah_split_keys h = nr_keys run.
Proof. by apply responder_evidence. Qed.

(** ** Witnesses *)
Definition toy_x25519_public (k : bytes) : bytes := take 32 (k ++ replicate 32 0).
Definition toy_x25519 : X25519 := {|
  x25519_public := toy_x25519_public;
  x25519 k peer := zip_with Z.add (toy_x25519_public k) peer;
|}.

Lemma toy_x25519_laws : X25519Laws toy_x25519.
Proof.
  constructor; cbn [x25519_public x25519 toy_x25519].
  - intros k. unfold zlen, toy_x25519_public. rewrite length_take, length_app, length_replicate. unfold KEY_LENGTH. lia.
  - intros a b. generalize (toy_x25519_public a) (toy_x25519_public b). induction l as [|x l IH]; intros [|y k]; cbn; [done..|].
    by rewrite IH, Z.add_comm.
Qed.

(** The bytes the machines write on a conversation. *)
Definition written (actions : list HandshakeAction) : list bytes :=
  omap (λ a, match a with Write bs => Some bs | _ => None end) actions.
Definition reported (actions : list HandshakeAction) : option AuthenticatedHandshake :=
  head (omap (λ a, match a with Authenticated h => Some h | _ => None end) actions).
Lemma reported_in actions h : reported actions = Some h → Authenticated h ∈ actions.
Proof.
  unfold reported. intros H%head_Some_elem_of. apply list_elem_of_omap in H as (a & Ha & E). destruct a; try done. by injection E as <-.
Qed.

Section sample.
#[local] Existing Instance toy_primitives.
#[local] Existing Instance toy_x25519.

Definition sample_responder : result HandshakeError ResponderPhase :=
  responder_new [2] [3] None (replicate 32 9) (replicate 16 8) 2 default_compatibility.
Definition sample_initiator : result HandshakeError InitiatorPhase :=
  initiator_new [4] [5] (x25519_public [2]) (Some (replicate 32 9)) (replicate 32 9) (replicate 16 8) 2 default_compatibility.

(** The actions of an initiator on a sequence of inputs. *)
Fixpoint initiator_actions (inputs : list HandshakeInput) (p : InitiatorPhase) : list HandshakeAction :=
  match inputs with
  | [] => []
  | input :: inputs' =>
      match initiator_transition toy_key toy_verify p input with
      | Some (Ok (p', actions)) => actions ++ initiator_actions inputs' p'
      | _ => []
      end
  end.

Definition nth_write (n : nat) (actions : list HandshakeAction) : bytes := default [] (written actions !! n).
Definition sample_opening : list HandshakeInput :=
  [InRouterInfo ntcp2_router_info_bytes; InTimestamp 1000; InPadding [0; 0]; InPadding [0]].
Definition sample_inputs : list HandshakeInput :=
  match sample_initiator, sample_responder with
  | Ok i, Ok r =>
      let first := nth_write 0 (initiator_actions sample_opening i) in
      let heard := [InBytes (take 64 first); InReplay ReplayFresh; InBytes (drop 64 first); InTimestamp 1010; InPadding []] in
      let second := nth_write 0 (responder_actions toy_key toy_verify heard r) in
      let third := nth_write 1 (initiator_actions (sample_opening ++ [InBytes second; InTimestamp 1000; InReplay ReplayFresh]) i) in
      heard ++ [InBytes third]
  | _, _ => []
  end.

Lemma responder_authentic_witness :
  match sample_responder with
  | Ok p =>
      match reported (responder_actions toy_key toy_verify sample_inputs p) with
      | Some h =>
          ∃ head padding now created confirmed rest opts ob eph answer run,
            sample_inputs = InBytes head :: InReplay ReplayFresh :: (if ro_padding_length opts =? 0 then [] else [InBytes padding]) ++
                     InTimestamp now :: InPadding created :: InBytes confirmed :: rest ∧
            responder_actions toy_key toy_verify [InBytes head] p =
              [RequestReplay (sha256 (slice 0 KEY_LENGTH head)) (sk_replay_retention default_compatibility)] ∧
            request_checked 2 default_compatibility head padding now opts ∧
            deobfuscate_key (slice 0 KEY_LENGTH head) (mkObfuscation (replicate 32 9) (replicate 16 8)) = (ob, Ok eph) ∧
            created_options_new (zlen created) now = Ok answer ∧
            zlen confirmed = SESSION_CONFIRMED_PART1_LENGTH + ro_part2_length opts ∧
            noise_responder [2] [3] eph (slice KEY_LENGTH MIN_HANDSHAKE_MESSAGE_LENGTH head) padding (created_options_encode answer) created
              (slice 0 SESSION_CONFIRMED_PART1_LENGTH confirmed) (slice SESSION_CONFIRMED_PART1_LENGTH (zlen confirmed) confirmed) = Some run ∧
            request_options_decode (nr_request_options run) = Ok opts ∧
            Write ((obfuscate_key (x25519_public [3]) ob).2 ++ nr_created_frame run ++ created)
              ∈ responder_actions toy_key toy_verify sample_inputs p ∧
            peer_checked toy_key toy_verify None (nr_initiator_static run) (nr_payload run) h ∧ ah_split_keys h = nr_keys run
      | None => False
      end
  | Err _ => False
  end.
Proof.
  destruct sample_responder as [p|e] eqn:Ep; [|vm_compute in Ep; discriminate Ep].
  destruct (reported _) as [h|] eqn:E; [|exfalso; revert E; unfold sample_responder in Ep; vm_compute in Ep; apply Ok_inj in Ep as <-; vm_compute; discriminate].
  apply (responder_authentic toy_primitives toy_x25519 toy_key toy_verify [2] [3] None (replicate 32 9) (replicate 16 8) 2 default_compatibility p sample_inputs h).
  - exact Ep.
  - by apply reported_in.
Defined.
End sample.
