(* ===== verification/Ntcp2Driver.v ===== *)
(** * Driving the NTCP2 handshake

    Models [i2pr-runtime/src/ntcp2_driver.rs]: the loop that performs the actions
    of a handshake machine on a byte stream, with the clock, the padding profile
    and the replay cache of the runtime.  Two drivers connected by two byte
    streams are a network in which either side may move at any time.  The deadline
    of the handshake, the deadlines of its reads and writes, cancellation and
    failures of the stream are steps of their own, that may come at any time;
    the time they are measured with is not modelled, nor is the progress observer. *)
From stdpp Require Import relations.
From S2P Require Import Prelude Codec Common Identity Mapping RouterInfo NetValidate I2np Ntcp2Crypto Ntcp2Block Ntcp2Frame Ntcp2Handshake Ntcp2Machine.

Inductive IoErrorKind := IoCancelled | IoDeadline | IoClosed | IoFailed.
Inductive HandshakeDriverError :=
  | DriverIo (kind : IoErrorKind)
  | DriverProtocol (error : HandshakeError)
  | InvalidAction
  | PaddingOutOfRange
  | RouterInfoTooLarge
  | ResponderStage (label : string) (inner : HandshakeDriverError).

Inductive PaddingProfile := PadMinimum | PadRepresentative | PadMaximum | PadDeterministic (length fill : Z).

Definition select_padding (profile : PaddingProfile) (maximum : Z) : result HandshakeDriverError bytes :=
  let length := match profile with
                | PadMinimum => 0
                | PadRepresentative => Z.min maximum 16
                | PadMaximum => maximum
                | PadDeterministic length _ => length
                end in
  if length >? maximum then Err PaddingOutOfRange
  else Ok (replicate (Z.to_nat length) (match profile with PadDeterministic _ fill => fill | _ => 0 end)).

Definition replay_decision (token : bytes) (now retention : Z) (c : ReplayCache) : ReplayCache * ReplayDecision :=
  let '(c, d) := check_and_record token now retention c in
  (c, match d with CacheFresh => ReplayFresh | CacheReplayed => Replayed | CacheFull => ReplayCacheFull end).

Inductive HandshakeClock := ClockSystem | ClockFixed (value : Z).
(** [time k] is what the system clock shows at the [k]th action of a driver. *)
Definition clock_now (clock : HandshakeClock) (time : Z → Z) (k : Z) : Z :=
  match clock with ClockSystem => time k | ClockFixed value => value end.

(** Durations in nanoseconds. *)
Record Ntcp2RuntimeDeadlines := mkDeadlines {
  dl_connect : Z; dl_handshake : Z; dl_read_idle : Z; dl_write : Z; dl_queue_wait : Z; dl_drain : Z;
}.
Definition MAX_NTCP2_RUNTIME_DURATION : Z := 3600 * 1000000000.
Inductive RuntimeLimitKind :=
  | PendingInbound | PendingPerIp | PendingPerSubnet | ActiveLinks | ReplayEntries | BackoffEntries | LinkQueueItems | LinkQueueBytes.
Inductive Ntcp2RuntimeConfigError :=
  | RuntimeZeroLimit (kind : RuntimeLimitKind)
  | RuntimeLimitTooLarge (kind : RuntimeLimitKind) (maximum : Z)
  | InconsistentLimits
  | ZeroDeadline (field : string)
  | DeadlineTooLong (field : string)
  | InvalidPrefix.
Definition deadlines_default : Ntcp2RuntimeDeadlines :=
  mkDeadlines (5 * 1000000000) (30 * 1000000000) (120 * 1000000000) (30 * 1000000000) (5 * 1000000000) (5 * 1000000000).
Fixpoint check_deadlines (values : list (string * Z)) : result Ntcp2RuntimeConfigError () :=
  match values with
  | [] => Ok ()
  | (field, value) :: values' =>
      if value =? 0 then Err (ZeroDeadline field)
      else if value >? MAX_NTCP2_RUNTIME_DURATION then Err (DeadlineTooLong field)
      else check_deadlines values'
  end.
Definition deadlines_validate (d : Ntcp2RuntimeDeadlines) : result Ntcp2RuntimeConfigError Ntcp2RuntimeDeadlines :=
  _ ← check_deadlines [("connect", dl_connect d); ("handshake", dl_handshake d); ("read_idle", dl_read_idle d);
                       ("write", dl_write d); ("queue_wait", dl_queue_wait d); ("drain", dl_drain d)];
  Ok d.

Record HandshakeDriverConfig := mkConfig { dc_deadlines : Ntcp2RuntimeDeadlines; dc_clock : HandshakeClock; dc_padding : PaddingProfile }.
Definition config_default : HandshakeDriverConfig := mkConfig deadlines_default ClockSystem PadRepresentative.

Record Counters := mkCounters {
  read_bytes : Z;
  written_bytes : Z;
  action_count : Z;
  read_count : Z;
  write_count : Z;
}.
Definition no_counters : Counters := mkCounters 0 0 0 0 0.
Definition count_action (c : Counters) : Counters :=
  mkCounters (read_bytes c) (written_bytes c) (saturating_add u32_max (action_count c) 1) (read_count c) (write_count c).
Definition count_read (n : Z) (c : Counters) : Counters :=
  mkCounters (saturating_add u64_max (read_bytes c) n) (written_bytes c) (action_count c)
    (saturating_add u32_max (read_count c) 1) (write_count c).
Definition count_write (n : Z) (c : Counters) : Counters :=
  mkCounters (read_bytes c) (saturating_add u64_max (written_bytes c) n) (action_count c) (read_count c)
    (saturating_add u32_max (write_count c) 1).

Record HandshakeRun := mkRun {
  run_authenticated : AuthenticatedHandshake;
  run_read_bytes : Z;
  run_written_bytes : Z;
  run_action_count : Z;
}.

(** The trait the driver is written against. *)
Class HandshakeMachine (S : Type) := {
  hm_start : S → result HandshakeError (S * list HandshakeAction);
  hm_transition : S → HandshakeInput → option (result HandshakeError (S * list HandshakeAction));
  hm_label : S → option string;
}.

Record DriverState (S : Type) := mkDriver {
  d_state : S;
  d_actions : list HandshakeAction;
  d_replay : ReplayCache;
  d_counters : Counters;
}.
Arguments mkDriver {S}. Arguments d_state {S}. Arguments d_actions {S}. Arguments d_replay {S}. Arguments d_counters {S}.

Inductive DriverProgress (S : Type) :=
  | DBlocked
  | DPanicked
  | DStep (d : DriverState S) (inbox outbox : bytes)
  | DFinished (r : result HandshakeDriverError HandshakeRun).
Arguments DBlocked {S}. Arguments DPanicked {S}. Arguments DStep {S}. Arguments DFinished {S}.

Section driver.
Context {S : Type} `{HandshakeMachine S} (config : HandshakeDriverConfig) (time : Z → Z) (local_router_info : bytes).

(** The wrappers around the loop add the phase in which a responder failed. *)
Definition stage_error (s : S) (e : HandshakeDriverError) : HandshakeDriverError :=
  match hm_label s with Some label => ResponderStage label e | None => e end.

Definition driver_fail (d : DriverState S) (e : HandshakeDriverError) : DriverProgress S :=
  DFinished (Err (stage_error (d_state d) e)).

(** [state.transition(input)], and the start of the next turn of the loop. *)
Definition driver_input (d : DriverState S) (input : HandshakeInput) (replay : ReplayCache) (counters : Counters)
    (inbox : bytes) : DriverProgress S :=
  match hm_transition (d_state d) input with
  | None => DPanicked
  | Some (Err e) => driver_fail d (DriverProtocol e)
  | Some (Ok (s, actions)) => DStep (mkDriver s actions replay counters) inbox []
  end.

(** One action of the loop, when nothing interrupts it. *)
Definition driver_step (inbox : bytes) (d : DriverState S) : DriverProgress S :=
  match d_actions d with
  | [] => driver_fail d InvalidAction
  | action :: rest =>
      let counters := count_action (d_counters d) in
      let now := clock_now (dc_clock config) time (action_count counters) in
      match action with
      | ReadExact length =>
          if length >? MAX_HANDSHAKE_BUFFERED_INPUT then driver_fail d InvalidAction
          else if zlen inbox <? length then DBlocked
          else driver_input d (InBytes (slice 0 length inbox)) (d_replay d) (count_read length counters)
                 (slice length (zlen inbox) inbox)
      | ReadBounded _ _ => driver_fail d InvalidAction
      | Write bs =>
          if zlen bs >? MAX_HANDSHAKE_BUFFERED_INPUT then driver_fail d InvalidAction
          else DStep (mkDriver (d_state d) rest (d_replay d) (count_write (zlen bs) counters)) inbox bs
      | RequestTimestamp _ => driver_input d (InTimestamp now) (d_replay d) counters inbox
      | RequestReplay token retention =>
          let '(replay, decision) := replay_decision token now retention (d_replay d) in
          driver_input d (InReplay decision) replay counters inbox
      | RequestPadding _ maximum =>
          match select_padding (dc_padding config) maximum with
          | Err e => driver_fail d e
          | Ok padding => driver_input d (InPadding padding) (d_replay d) counters inbox
          end
      | RequestRouterInfo maximum =>
          if (zlen local_router_info =? 0) || (zlen local_router_info >? maximum) then driver_fail d RouterInfoTooLarge
          else driver_input d (InRouterInfo local_router_info) (d_replay d) counters inbox
      | Authenticated authenticated =>
          DFinished (Ok (mkRun authenticated (read_bytes counters) (written_bytes counters) (action_count counters)))
      | Terminate e => driver_fail d (DriverProtocol e)
      end
  end.

(** The exits of the loop that its surroundings cause: the deadline of the whole
    handshake, looked at before a turn and before each read and write; and a
    read or a write that was cancelled, came too late or failed, which may have
    taken or sent some of its bytes.  Of the first the model says nothing about when: it may fire
    at any step. *)
Inductive driver_fails (inbox : bytes) (d : DriverState S) : HandshakeDriverError → bytes → bytes → Prop :=
  | fails_deadline :
      driver_fails inbox d (stage_error (d_state d) (DriverProtocol HsDeadlineExpired)) inbox []
  | fails_read length rest kind taken :
      d_actions d = ReadExact length :: rest → length ≤ MAX_HANDSHAKE_BUFFERED_INPUT →
      driver_fails inbox d (stage_error (d_state d) (DriverIo kind)) (drop taken inbox) []
  | fails_write bs rest kind sent :
      d_actions d = Write bs :: rest → zlen bs ≤ MAX_HANDSHAKE_BUFFERED_INPUT →
      driver_fails inbox d (stage_error (d_state d) (DriverIo kind)) inbox (take sent bs).

Inductive Side := Running (d : DriverState S) | Finished (r : result HandshakeDriverError HandshakeRun).

Definition driver_start (s : S) (replay : ReplayCache) : Side :=
  match deadlines_validate (dc_deadlines config) with
  | Err _ => Finished (Err (stage_error s InvalidAction))
  | Ok _ =>
  match hm_start s with
  | Err e => Finished (Err (stage_error s (DriverProtocol e)))
  | Ok (s, actions) => Running (mkDriver s actions replay no_counters)
  end end.

(** A step looks at a prefix of the inbox only. *)
Lemma driver_input_more d input replay counters inbox more d' inbox' out :
  driver_input d input replay counters inbox = DStep d' inbox' out →
  driver_input d input replay counters (inbox ++ more) = DStep d' (inbox' ++ more) out.
Proof. unfold driver_input, driver_fail. repeat case_match; intros [= <- <- <-]; done. Qed.
Lemma driver_input_finish d input replay counters inbox more r :
  driver_input d input replay counters inbox = DFinished r → driver_input d input replay counters (inbox ++ more) = DFinished r.
Proof. unfold driver_input, driver_fail. repeat case_match; intros [= <-]; done. Qed.

Lemma slices_more n (inbox more : bytes) : n ≤ zlen inbox →
  slice 0 n (inbox ++ more) = slice 0 n inbox ∧
  slice n (zlen (inbox ++ more)) (inbox ++ more) = slice n (zlen inbox) inbox ++ more.
Proof.
  intros Hn. unfold slice, zlen in *. rewrite length_app, !Nat2Z.inj_add. split.
  - rewrite !drop_0, take_app_le by lia. done.
  - rewrite drop_app_le by lia. rewrite !firstn_all2; [done|rewrite length_drop; lia|rewrite length_app, length_drop; lia].
Qed.

Lemma driver_step_more inbox more d d' inbox' out :
  driver_step inbox d = DStep d' inbox' out → driver_step (inbox ++ more) d = DStep d' (inbox' ++ more) out.
Proof.
  unfold driver_step. destruct (d_actions d) as [|a rest]; [by unfold driver_fail|].
  destruct a as [|n| | | | | | |]; try apply driver_input_more; try done.
  - destruct (_ >? _); [done|]. destruct (zlen inbox <? n) eqn:E; [done|]. breflect.
    pose proof (zlen_nonneg more). rewrite (proj2 (Z.ltb_ge _ _)) by zlen_lia.
    destruct (slices_more n inbox more) as [-> ->]; [lia|]. apply driver_input_more.
  - destruct (_ >? _); [done|]. by intros [= <- <- <-].
  - destruct (replay_decision _ _ _ _). apply driver_input_more.
  - destruct (select_padding _ _); [apply driver_input_more|done].
  - destruct (_ || _); [done|apply driver_input_more].
Qed.

Lemma driver_step_finish inbox more d r :
  driver_step inbox d = DFinished r → driver_step (inbox ++ more) d = DFinished r.
Proof.
  unfold driver_step. destruct (d_actions d) as [|a rest]; [done|].
  destruct a as [|n| | | | | | |]; try apply driver_input_finish; try done.
  - destruct (_ >? _); [done|]. destruct (zlen inbox <? n) eqn:E; [done|]. breflect.
    pose proof (zlen_nonneg more). rewrite (proj2 (Z.ltb_ge _ _)) by zlen_lia.
    destruct (slices_more n inbox more) as [-> ->]; [lia|]. apply driver_input_finish.
  - by destruct (_ >? _).
  - destruct (replay_decision _ _ _ _). apply driver_input_finish.
  - destruct (select_padding _ _); [apply driver_input_finish|done].
  - destruct (_ || _); [done|apply driver_input_finish].
Qed.
End driver.
Arguments Side : clear implicits.

(** ** The machines of the trait *)
Section instances.
Context `{P : Ntcp2Primitives} `{X : X25519} (ed25519_key : bytes → bool) (ed25519_verify : bytes → bytes → bytes → bool).

Definition initiator_machine : HandshakeMachine InitiatorPhase :=
  {| hm_start := initiator_start;
     hm_transition := initiator_transition ed25519_key ed25519_verify;
     hm_label := λ _, None |}.
Definition responder_machine : HandshakeMachine ResponderPhase :=
  {| hm_start := responder_start;
     hm_transition := λ p input, Some (responder_transition ed25519_key ed25519_verify p input);
     hm_label := λ p, Some (phase_label p) |}.
End instances.

(** The errors of an interrupted driver. *)
Inductive interrupted : HandshakeDriverError → Prop :=
  | interrupted_io kind : interrupted (DriverIo kind)
  | interrupted_deadline : interrupted (DriverProtocol HsDeadlineExpired)
  | interrupted_stage label e : interrupted e → interrupted (ResponderStage label e).

Definition side_ends {S : Type} (s : Side S) (run : HandshakeRun) : Prop :=
  match s with Running _ => True | Finished (Ok r) => r = run | Finished (Err e) => interrupted e end.
Definition is_stopped {S : Type} (s : Side S) : bool := match s with Finished (Err _) => true | _ => false end.

(** ** Two drivers on one connection *)
Section network.
Context {A B : Type} (MA : HandshakeMachine A) (MB : HandshakeMachine B).
Context (ca cb : HandshakeDriverConfig) (ta tb : Z → Z) (ra rb : bytes).

Record network := mkNet {
  net_a : Side A;
  net_b : Side B;
  net_ab : bytes;
  net_ba : bytes;
}.

(** Either side makes one step of its driver. *)
Inductive net_step : network → network → Prop :=
  | net_step_a d d' inbox' out b ab ba :
      driver_step ca ta ra ba d = DStep d' inbox' out →
      net_step (mkNet (Running d) b ab ba) (mkNet (Running d') b (ab ++ out) inbox')
  | net_finish_a d r b ab ba :
      driver_step ca ta ra ba d = DFinished r →
      net_step (mkNet (Running d) b ab ba) (mkNet (Finished r) b ab ba)
  | net_step_b d d' inbox' out a ab ba :
      driver_step cb tb rb ab d = DStep d' inbox' out →
      net_step (mkNet a (Running d) ab ba) (mkNet a (Running d') inbox' (ba ++ out))
  | net_finish_b d r a ab ba :
      driver_step cb tb rb ab d = DFinished r →
      net_step (mkNet a (Running d) ab ba) (mkNet a (Finished r) ab ba).

(** Steps of different sides commute, steps of one side are the same. *)
Lemma net_diamond x y z : net_step x y → net_step x z → y = z ∨ ∃ w, net_step y w ∧ net_step z w.
Proof.
  intros H1 H2. destruct H1; inversion H2; subst; clear H2;
    repeat match goal with
    | E : driver_step ?c ?t ?r ?i ?d = _, E' : driver_step ?c ?t ?r ?i ?d = _ |- _ => rewrite E in E'; simplify_eq
    end; try (by left); right.
  - eexists. split; [eapply net_step_b, driver_step_more; eassumption|]. eapply net_step_a, driver_step_more; eassumption.
  - eexists. split; [eapply net_finish_b, driver_step_finish; eassumption|]. eapply net_step_a; eassumption.
  - eexists. split; [eapply net_step_b; eassumption|]. eapply net_finish_a, driver_step_finish; eassumption.
  - eexists. split; [eapply net_finish_b; eassumption|]. eapply net_finish_a; eassumption.
  - eexists. split; [eapply net_step_a, driver_step_more; eassumption|]. eapply net_step_b, driver_step_more; eassumption.
  - eexists. split; [eapply net_finish_a, driver_step_finish; eassumption|]. eapply net_step_b; eassumption.
  - eexists. split; [eapply net_step_a; eassumption|]. eapply net_finish_b, driver_step_finish; eassumption.
  - eexists. split; [eapply net_finish_a; eassumption|]. eapply net_finish_b; eassumption.
Qed.

(** Every schedule ends in the same place: after finitely many steps, and from
    wherever it has come to. *)
Definition always_ends (x z : network) : Prop :=
  nf net_step z ∧ ∃ n, ∀ m y, nsteps net_step m x y → (m ≤ n)%nat ∧ rtc net_step y z.

Lemma diamond_normal n x z : nf net_step z → nsteps net_step n x z →
  ∀ m y, nsteps net_step m x y → (m ≤ n)%nat ∧ nsteps net_step (n - m) y z.
Proof.
  intros Hz. revert x. induction n as [|n IH]; intros x Hn m y Hm.
  - inversion Hn; subst. inversion Hm; subst; [split; [lia|constructor]|]. destruct Hz. by eexists.
  - inversion Hn as [|? ? x1 ? Hx Hn']; subst.
    inversion Hm as [|m' ? y1 ? Hy Hm']; subst; [rewrite Nat.sub_0_r; split; [lia|by econstructor]|].
    assert (Hy1 : nsteps net_step n y1 z).
    { destruct (net_diamond _ _ _ Hx Hy) as [<-|(w & Hw1 & Hw2)]; [done|].
      destruct (IH x1 Hn' 1%nat w) as [Hle Hw]; [by apply nsteps_once|]. destruct n as [|n]; [lia|].
      rewrite Nat.sub_succ, Nat.sub_0_r in Hw. by econstructor. }
    destruct (IH y1 Hy1 m' y Hm') as [Hle Hr]. split; [lia|done].
Qed.

Lemma ends_finished ra' rb' ab ba : nf net_step (mkNet (Finished ra') (Finished rb') ab ba).
Proof. intros [y Hy]. inversion Hy. Qed.

Lemma rtc_always_ends x z : nf net_step z → rtc net_step x z → always_ends x z.
Proof.
  intros Hz [n Hn]%rtc_nsteps. split; [done|]. exists n. intros m y Hm.
  destruct (diamond_normal n x z Hz Hn m y Hm) as [Hle Hr]. split; [done|]. by eapply rtc_nsteps_2.
Qed.

(** *** Interruptions *)

(** Either side moves, or its surroundings make it stop. *)
Inductive net_event : network → network → Prop :=
  | net_moves x y : net_step x y → net_event x y
  | net_fails_a d e inbox' out b ab ba :
      driver_fails ba d e inbox' out → net_event (mkNet (Running d) b ab ba) (mkNet (Finished (Err e)) b (ab ++ out) inbox')
  | net_fails_b d e inbox' out a ab ba :
      driver_fails ab d e inbox' out → net_event (mkNet a (Running d) ab ba) (mkNet a (Finished (Err e)) inbox' (ba ++ out)).

(** Whatever interrupts the drivers, there is a bound on their steps; a driver that
    finishes does so with the given run or with an error that says it was
    interrupted; and as long as one has not finished, there is another step. *)
Definition survives_interruptions (x : network) (run_a run_b : HandshakeRun) : Prop :=
  ∃ n, ∀ m y, nsteps net_event m x y →
    (m ≤ n)%nat ∧ side_ends (net_a y) run_a ∧ side_ends (net_b y) run_b ∧
    (nf net_event y → ∃ r r', net_a y = Finished r ∧ net_b y = Finished r').

(** A network that was interrupted follows one that was not: a stopped side has
    sent a part of what it would have sent. *)
Record lags (y x : network) : Prop := {
  lag_a : is_stopped (net_a y) = false → net_a y = net_a x;
  lag_b : is_stopped (net_b y) = false → net_b y = net_b x;
  lag_ab : is_stopped (net_b y) = false → ∃ more, net_ab x = net_ab y ++ more ∧ (is_stopped (net_a y) = false → more = []);
  lag_ba : is_stopped (net_a y) = false → ∃ more, net_ba x = net_ba y ++ more ∧ (is_stopped (net_b y) = false → more = []);
  lag_error_a e : net_a y = Finished (Err e) → interrupted e;
  lag_error_b e : net_b y = Finished (Err e) → interrupted e;
}.
Definition stops (y : network) : nat := (if is_stopped (net_a y) then 1 else 0) + (if is_stopped (net_b y) then 1 else 0).

Lemma stage_interrupted {S : Type} `{HandshakeMachine S} (s : S) e : interrupted e → interrupted (stage_error s e).
Proof. intros He. unfold stage_error. destruct (hm_label s); [by constructor|done]. Qed.
Lemma fails_interrupted {S : Type} `{HandshakeMachine S} inbox (d : DriverState S) e inbox' out : driver_fails inbox d e inbox' out → interrupted e.
Proof. intros []; apply stage_interrupted; constructor. Qed.

Lemma step_keeps_finished x y :
  net_step x y → (∀ r, net_a x = Finished r → net_a y = Finished r) ∧ (∀ r, net_b x = Finished r → net_b y = Finished r).
Proof. intros []; split; intros r'; done. Qed.
Lemma reach_keeps_finished x y : rtc net_step x y →
  (∀ r, net_a x = Finished r → net_a y = Finished r) ∧ (∀ r, net_b x = Finished r → net_b y = Finished r).
Proof.
  induction 1 as [|x y z Hs _ [IHa IHb]]; [done|]. destruct (step_keeps_finished x y Hs) as [Ha Hb]. split; intros r Hr; auto.
Qed.

(** What an interruption sends is a part of what the step would have. *)
Lemma fails_step {S : Type} `{HandshakeMachine S} c t ri inbox inbox2 (d : DriverState S) e inbox' out :
  driver_fails inbox d e inbox' out →
  out = [] ∨ ∃ d' all more, driver_step c t ri inbox2 d = DStep d' inbox2 all ∧ all = out ++ more.
Proof.
  intros [| |bs rest kind sent Ha Hl]; [by left|by left|right].
  unfold driver_step. rewrite Ha. cbv zeta. destruct (_ >? _) eqn:E; breflect; [lia|].
  eexists _, bs, (drop sent bs). split; [done|]. by rewrite take_drop.
Qed.

Lemma lags_step x y y' (Hok : ∀ x', net_step x x' → is_stopped (net_a x') = false ∧ is_stopped (net_b x') = false) :
  lags y x → net_event y y' → ∃ j x', nsteps net_step j x x' ∧ lags y' x' ∧ (1 + stops y ≤ j + stops y')%nat.
Proof.
  intros Hlag Hev. destruct x as [xa xb xab xba].
  destruct Hev as [y y' Hstep|d e inbox' out b ab ba Hf|d e inbox' out a ab ba Hf].
  - destruct Hstep as [d d' inbox' out b ab ba Hd|d r b ab ba Hd|d d' inbox' out a ab ba Hd|d r a ab ba Hd];
      destruct Hlag as [La Lb Lab Lba Ea Eb]; cbn [net_a net_b net_ab net_ba] in *.
    + specialize (La eq_refl). subst xa. destruct (Lba eq_refl) as (more & -> & Hmore).
      exists 1%nat. eexists. split; [apply nsteps_once, net_step_a, driver_step_more, Hd|]. split; [|unfold stops; cbn; lia].
      constructor; cbn [net_a net_b net_ab net_ba is_stopped]; try done; [|by intros _; exists more].
      intros Hb. destruct (Lab Hb) as (more' & -> & Hm'). rewrite (Hm' eq_refl). exists []. by rewrite !app_nil_r.
    + specialize (La eq_refl). subst xa. destruct (Lba eq_refl) as (more & -> & Hmore).
      assert (Hst : net_step (mkNet (Running d) xb xab (ba ++ more)) (mkNet (Finished r) xb xab (ba ++ more))) by (by apply net_finish_a, driver_step_finish).
      destruct (Hok _ Hst) as [Hs _]. cbn in Hs. destruct r as [run|e]; [|done].
      exists 1%nat. eexists. split; [apply nsteps_once, Hst|]. split; [|unfold stops; cbn; lia].
      by constructor; cbn [net_a net_b net_ab net_ba is_stopped].
    + specialize (Lb eq_refl). subst xb. destruct (Lab eq_refl) as (more & -> & Hmore).
      exists 1%nat. eexists. split; [apply nsteps_once, net_step_b, driver_step_more, Hd|]. split; [|unfold stops; cbn; lia].
      constructor; cbn [net_a net_b net_ab net_ba is_stopped]; try done; [by intros _; exists more|].
      intros Hb. destruct (Lba Hb) as (more' & -> & Hm'). rewrite (Hm' eq_refl). exists []. by rewrite !app_nil_r.
    + specialize (Lb eq_refl). subst xb. destruct (Lab eq_refl) as (more & -> & Hmore).
      assert (Hst : net_step (mkNet xa (Running d) (ab ++ more) xba) (mkNet xa (Finished r) (ab ++ more) xba)) by (by apply net_finish_b, driver_step_finish).
      destruct (Hok _ Hst) as [_ Hs]. cbn in Hs. destruct r as [run|e]; [|done].
      exists 1%nat. eexists. split; [apply nsteps_once, Hst|]. split; [|unfold stops; cbn; lia].
      by constructor; cbn [net_a net_b net_ab net_ba is_stopped].
  - pose proof (fails_interrupted _ _ _ _ _ Hf) as He. destruct Hlag as [La Lb Lab Lba Ea Eb]; cbn [net_a net_b net_ab net_ba] in *.
    specialize (La eq_refl). subst xa. destruct (fails_step ca ta ra _ xba _ _ _ _ Hf) as [-> | (d' & all & more & Hd & ->)].
    + exists 0%nat. eexists. split; [constructor|]. split; [|unfold stops; cbn; lia].
      constructor; cbn [net_a net_b net_ab net_ba is_stopped]; try done; [|congruence].
      intros Hb. destruct (Lab Hb) as (more' & -> & Hm'). exists []. by rewrite (Hm' eq_refl), !app_nil_r.
    + exists 1%nat. eexists. split; [apply nsteps_once, net_step_a, Hd|]. split; [|unfold stops; cbn; lia].
      constructor; cbn [net_a net_b net_ab net_ba is_stopped]; try done; [|congruence].
      intros Hb. destruct (Lab Hb) as (more' & -> & Hm'). exists more. by rewrite (Hm' eq_refl), app_nil_r, app_assoc.
  - pose proof (fails_interrupted _ _ _ _ _ Hf) as He. destruct Hlag as [La Lb Lab Lba Ea Eb]; cbn [net_a net_b net_ab net_ba] in *.
    specialize (Lb eq_refl). subst xb. destruct (fails_step cb tb rb _ xab _ _ _ _ Hf) as [-> | (d' & all & more & Hd & ->)].
    + exists 0%nat. eexists. split; [constructor|]. split; [|unfold stops; cbn; lia].
      constructor; cbn [net_a net_b net_ab net_ba is_stopped]; try done; [|congruence].
      intros Hb. destruct (Lba Hb) as (more' & -> & Hm'). exists []. by rewrite (Hm' eq_refl), !app_nil_r.
    + exists 1%nat. eexists. split; [apply nsteps_once, net_step_b, Hd|]. split; [|unfold stops; cbn; lia].
      constructor; cbn [net_a net_b net_ab net_ba is_stopped]; try done; [|congruence].
      intros Hb. destruct (Lba Hb) as (more' & -> & Hm'). exists more. by rewrite (Hm' eq_refl), app_nil_r, app_assoc.
Qed.

Lemma finished_not_stopped x run_a run_b ab ba :
  rtc net_step x (mkNet (Finished (Ok run_a)) (Finished (Ok run_b)) ab ba) →
  is_stopped (net_a x) = false ∧ is_stopped (net_b x) = false ∧ side_ends (net_a x) run_a ∧ side_ends (net_b x) run_b.
Proof.
  intros [Ha Hb]%reach_keeps_finished. cbn [net_a net_b] in *.
  destruct (net_a x) as [|ra'] eqn:Ea, (net_b x) as [|rb'] eqn:Eb; cbn; try specialize (Ha _ eq_refl); try specialize (Hb _ eq_refl); simplify_eq; cbn; done.
Qed.

Lemma always_ends_interrupted x run_a run_b ab ba :
  always_ends x (mkNet (Finished (Ok run_a)) (Finished (Ok run_b)) ab ba) → survives_interruptions x run_a run_b.
Proof.
  intros [_ [n Hn]]. exists (n + 2)%nat.
  assert (Hsim : ∀ m y, nsteps net_event m x y → ∃ j x', nsteps net_step j x x' ∧ lags y x' ∧ (m ≤ j + stops y)%nat).
  { induction m as [|m IH]; intros y Hm.
    - inversion Hm; subst. exists 0%nat, y. split; [constructor|]. split; [|lia].
      destruct (Hn 0%nat y ltac:(constructor)) as [_ Hr]. destruct (finished_not_stopped _ _ _ _ _ Hr) as (Ha & Hb & _ & _).
      constructor; try done; try (intros _; exists []; by rewrite app_nil_r); intros e He; by rewrite He in *.
    - apply nsteps_inv_r in Hm as (y0 & Hm & Hev). destruct (IH _ Hm) as (j & x' & Hj & Hl & Hle).
      destruct (lags_step x' y0 y) as (j' & x'' & Hj' & Hl' & Hle'); [|done..|].
      + intros x'' Hs. destruct (Hn (S j) x'') as [_ Hr]; [by eapply nsteps_r|]. by destruct (finished_not_stopped _ _ _ _ _ Hr) as (? & ? & _).
      + exists (j + j')%nat, x''. split; [by eapply nsteps_trans|]. split; [done|lia]. }
  intros m y Hm. destruct (Hsim m y Hm) as (j & x' & Hj & [La Lb _ _ Ea Eb] & Hle).
  destruct (Hn j x' Hj) as [Hjn Hr]. destruct (finished_not_stopped _ _ _ _ _ Hr) as (_ & _ & Sa & Sb). split_and!.
  - unfold stops in Hle. destruct (is_stopped (net_a y)), (is_stopped (net_b y)); lia.
  - destruct (net_a y) as [|[r|e]] eqn:E; cbn; [done|rewrite <- La in Sa by done; done|by apply Ea].
  - destruct (net_b y) as [|[r|e]] eqn:E; cbn; [done|rewrite <- Lb in Sb by done; done|by apply Eb].
  - intros Hnf. destruct y as [[da|r] [db|r'] ab' ba']; try (exfalso; apply Hnf; eexists; first [apply net_fails_a, fails_deadline|apply net_fails_b, fails_deadline]).
    by exists r, r'.
Qed.
End network.

(** ** Runs of one driver *)
Section side_runs.
Context {S : Type} `{HandshakeMachine S} (c : HandshakeDriverConfig) (time : Z → Z) (ri : bytes).

(** Steps of a driver that take its inbox from one value to another and write
    [out]. *)
Inductive drives : DriverState S → bytes → DriverState S → bytes → bytes → Prop :=
  | drives_nil d inbox : drives d inbox d inbox []
  | drives_cons d inbox d1 inbox1 out1 d2 inbox2 out2 :
      driver_step c time ri inbox d = DStep d1 inbox1 out1 → drives d1 inbox1 d2 inbox2 out2 →
      drives d inbox d2 inbox2 (out1 ++ out2).

Lemma drives_trans d inbox d1 inbox1 out1 d2 inbox2 out2 :
  drives d inbox d1 inbox1 out1 → drives d1 inbox1 d2 inbox2 out2 → drives d inbox d2 inbox2 (out1 ++ out2).
Proof. induction 1; [done|]. intros. rewrite <- app_assoc. econstructor; eauto. Qed.

(** A step that performs one request. *)
Lemma drives_input d inbox s actions replay counters input d2 inbox2 out inbox1 :
  driver_step c time ri inbox d = driver_input d input replay counters inbox1 →
  hm_transition (d_state d) input = Some (Ok (s, actions)) →
  drives (mkDriver s actions replay counters) inbox1 d2 inbox2 out → drives d inbox d2 inbox2 out.
Proof.
  intros Hd Ht Hr. change out with ([] ++ out). econstructor; [|exact Hr]. rewrite Hd. unfold driver_input. by rewrite Ht.
Qed.

Lemma drives_write s bs rest replay counters inbox d2 inbox2 out :
  zlen bs ≤ MAX_HANDSHAKE_BUFFERED_INPUT →
  drives (mkDriver s rest replay (count_write (zlen bs) (count_action counters))) inbox d2 inbox2 out →
  drives (mkDriver s (Write bs :: rest) replay counters) inbox d2 inbox2 (bs ++ out).
Proof.
  intros Hl Hr. econstructor; [|exact Hr]. unfold driver_step. cbn [d_actions d_counters d_replay d_state].
  destruct (_ >? _) eqn:E; breflect; [lia|done].
Qed.

Lemma drives_write_last s bs rest replay counters inbox :
  zlen bs ≤ MAX_HANDSHAKE_BUFFERED_INPUT →
  drives (mkDriver s (Write bs :: rest) replay counters) inbox
    (mkDriver s rest replay (count_write (zlen bs) (count_action counters))) inbox bs.
Proof. intros Hl. rewrite <- (app_nil_r bs) at 3. apply drives_write; [done|constructor]. Qed.

Lemma drives_read s n rest replay counters bs inbox s' actions d2 inbox2 out :
  zlen bs = n → n ≤ MAX_HANDSHAKE_BUFFERED_INPUT → hm_transition s (InBytes bs) = Some (Ok (s', actions)) →
  drives (mkDriver s' actions replay (count_read n (count_action counters))) inbox d2 inbox2 out →
  drives (mkDriver s (ReadExact n :: rest) replay counters) (bs ++ inbox) d2 inbox2 out.
Proof.
  intros Hl Hm Ht Hr. eapply (drives_input _ _ _ _ _ _ (InBytes bs)); [|exact Ht|exact Hr].
  unfold driver_step. cbn [d_actions d_counters d_replay]. destruct (_ >? _) eqn:E; breflect; [lia|].
  rewrite (proj2 (Z.ltb_ge _ _)) by zlen_lia. rewrite slice_app_start, slice_app_end by (rewrite ?zlen_app; lia). done.
Qed.

Lemma drives_read_last s n rest replay counters bs s' actions d2 inbox2 out :
  zlen bs = n → n ≤ MAX_HANDSHAKE_BUFFERED_INPUT → hm_transition s (InBytes bs) = Some (Ok (s', actions)) →
  drives (mkDriver s' actions replay (count_read n (count_action counters))) [] d2 inbox2 out →
  drives (mkDriver s (ReadExact n :: rest) replay counters) bs d2 inbox2 out.
Proof. intros. rewrite <- (app_nil_r bs). by eapply drives_read. Qed.

(** A cache that has room and has not seen the token. *)
Definition cache_admits (token : bytes) (cache : ReplayCache) : Prop :=
  Z.of_nat (size (rp_entries cache)) < rp_maximum cache ∧ rp_entries cache !! token = None.

Lemma drives_replay s token retention rest cache counters inbox s' actions :
  cache_admits token cache → hm_transition s (InReplay ReplayFresh) = Some (Ok (s', actions)) →
  ∃ cache', ∀ d2 inbox2 out, drives (mkDriver s' actions cache' (count_action counters)) inbox d2 inbox2 out →
    drives (mkDriver s (RequestReplay token retention :: rest) cache counters) inbox d2 inbox2 out.
Proof.
  intros [Hroom Hnew] Ht. set (now := clock_now (dc_clock c) time (action_count (count_action counters))).
  destruct (replay_decision token now retention cache) as [cache' d] eqn:Ed.
  assert (d = ReplayFresh) as ->.
  { unfold replay_decision, check_and_record in Ed. cbv zeta in Ed. cbn [rp_entries rp_maximum] in Ed.
    rewrite bool_decide_eq_false_2 in Ed.
    2:{ intros [e He]. apply map_lookup_filter_Some in He as [He _]. by rewrite Hnew in He. }
    assert (Hle : (size (filter (λ e : bytes * Z, (e.2 > now)%Z) (rp_entries cache)) ≤ size (rp_entries cache))%nat) by apply map_subseteq_size, map_filter_subseteq.
    destruct (_ >=? _) eqn:E; breflect; [lia|]. by injection Ed. }
  exists cache'. intros d2 inbox2 out Hr. eapply (drives_input _ _ _ _ cache' _ (InReplay ReplayFresh)); [|exact Ht|exact Hr].
  unfold driver_step. cbn [d_actions d_counters d_replay]. cbv zeta. fold now. by rewrite Ed.
Qed.
End side_runs.

Section lift.
Context {A B : Type} (MA : HandshakeMachine A) (MB : HandshakeMachine B).
Context (ca cb : HandshakeDriverConfig) (ta tb : Z → Z) (ra rb : bytes).
Abbreviation reach := (rtc (net_step MA MB ca cb ta tb ra rb)).

Lemma drives_a d inbox d' inbox' out b ab :
  drives ca ta ra d inbox d' inbox' out → reach (mkNet (Running d) b ab inbox) (mkNet (Running d') b (ab ++ out) inbox').
Proof.
  intros H. revert ab. induction H as [|d inbox d1 inbox1 out1 d2 inbox2 out2 Hs _ IH]; intros ab; [by rewrite app_nil_r|].
  eapply rtc_l; [by apply net_step_a|]. rewrite app_assoc. apply IH.
Qed.
Lemma drives_b d inbox d' inbox' out a ba :
  drives cb tb rb d inbox d' inbox' out → reach (mkNet a (Running d) inbox ba) (mkNet a (Running d') inbox' (ba ++ out)).
Proof.
  intros H. revert ba. induction H as [|d inbox d1 inbox1 out1 d2 inbox2 out2 Hs _ IH]; intros ba; [by rewrite app_nil_r|].
  eapply rtc_l; [by apply net_step_b|]. rewrite app_assoc. apply IH.
Qed.

(** The last action of a machine that authenticates. *)
Lemma finish_a s h replay counters b ab ba :
  ∃ n1 n2 n3, reach (mkNet (Running (mkDriver s [Authenticated h] replay counters)) b ab ba)
    (mkNet (Finished (Ok (mkRun h n1 n2 n3))) b ab ba).
Proof. eexists _, _, _. apply rtc_once. apply net_finish_a. done. Qed.
Lemma finish_b s h replay counters a ab ba :
  ∃ n1 n2 n3, reach (mkNet a (Running (mkDriver s [Authenticated h] replay counters)) ab ba)
    (mkNet a (Finished (Ok (mkRun h n1 n2 n3))) ab ba).
Proof. eexists _, _, _. apply rtc_once. apply net_finish_b. done. Qed.

(** A conversation of four turns, after which both sides authenticate. *)
Lemma four_turns da da1 db db1 sa sb ha hb reca recb ka kb o1 o2 o3 :
  drives ca ta ra da [] da1 [] o1 → drives cb tb rb db o1 db1 [] o2 →
  drives ca ta ra da1 o2 (mkDriver sa [Authenticated ha] reca ka) [] o3 →
  drives cb tb rb db1 o3 (mkDriver sb [Authenticated hb] recb kb) [] [] →
  ∃ runa runb, reach (mkNet (Running da) (Running db) [] []) (mkNet (Finished (Ok runa)) (Finished (Ok runb)) [] []) ∧
    run_authenticated runa = ha ∧ run_authenticated runb = hb.
Proof.
  intros H1 H2 H3 H4. destruct (finish_a sa ha reca ka (Running db1) o3 []) as (a1 & a2 & a3 & Ha).
  destruct (finish_b sb hb recb kb (Finished (Ok (mkRun ha a1 a2 a3))) [] []) as (b1 & b2 & b3 & Hb).
  exists (mkRun ha a1 a2 a3), (mkRun hb b1 b2 b3). split; [|done].
  etrans; [apply (drives_a _ _ _ _ _ _ [] H1)|]. etrans; [apply (drives_b _ _ _ _ _ _ [] H2)|].
  etrans; [apply (drives_a _ _ _ _ _ _ [] H3)|]. etrans; [exact Ha|]. etrans; [apply (drives_b _ _ _ _ _ _ [] H4)|]. exact Hb.
Qed.
End lift.

Section handshake.
Context `{P : Ntcp2Primitives} {HL : Ntcp2Laws P} `{X : X25519} {XL : X25519Laws X}.
Context (ed25519_key : bytes → bool) (ed25519_verify : bytes → bytes → bytes → bool).
Context (si ei sr er : bytes) (Hkeys : honest si ei sr er).
Context (hash iv : bytes) (Hiv : zlen iv = AES_BLOCK_LENGTH) (net : Z) (Hnet : fits 8 net) (ski skr : ClockSkewPolicy).
Context (h : bytes) (expected : option bytes) (ri : bytes) (peer : AuthenticatedPeer).
Context (Hri : bytes_ok ri) (Hpeer : validate ed25519_key ed25519_verify ri MAX_ROUTER_INFO_PAYLOAD expected (x25519_public si) = Ok peer).
Context (ci cr : HandshakeDriverConfig) (ti tr : Z → Z) (p1 p2 p3 : bytes).
Abbreviation now_i := (clock_now (dc_clock ci) ti).
Abbreviation now_r := (clock_now (dc_clock cr) tr).
Context (Hp1 : select_padding (dc_padding ci) MAX_SESSION_REQUEST_PADDING = Ok p1).
Context (Hp3 : select_padding (dc_padding ci) MAX_SESSION_CONFIRMED_PART2_PLAINTEXT = Ok p3).
Context (Hp2 : select_padding (dc_padding cr) MAX_SESSION_CREATED_PADDING = Ok p2).
Context (Hpay : payload_encoded_len (mkPayload ri None (Some p3)) ≤ MAX_SESSION_CONFIRMED_PART2_PLAINTEXT).
Context (Hfill : bytes_ok p3).
Context (Hti : ∀ k, fits 32 (now_i k)) (Htr : ∀ k, fits 32 (now_r k)).
Context (Hskr : ∀ k k', Z.abs (now_i k - now_r k') ≤ sk_maximum_delta skr) (Hski : ∀ k k', Z.abs (now_i k - now_r k') ≤ sk_maximum_delta ski).
Context (Hdi : is_ok (deadlines_validate (dc_deadlines ci)) = true) (Hdr : is_ok (deadlines_validate (dc_deadlines cr)) = true).
Context (cachei cacher : ReplayCache).

#[local] Instance MI : HandshakeMachine InitiatorPhase := initiator_machine ed25519_key ed25519_verify.
#[local] Instance MR : HandshakeMachine ResponderPhase := responder_machine ed25519_key ed25519_verify.

Definition icommon : InitiatorCommon := mkInitiatorCommon si ei (x25519_public sr) (Some h) net ski.
Definition rcommon : ResponderCommon := mkResponderCommon sr er (x25519_public sr) expected net skr.
Definition ob0 : AesObfuscationState := mkObfuscation hash iv.
Definition wconf : bytes := payload_bytes 0 (mkPayload ri None (Some p3)).
Definition n2 : Z := zlen wconf + AUTH_TAG_LENGTH.
(** The readings of the clocks that are sent: at the second action of the
    initiator, and at the first of the responder behind the request. *)
Definition time1 : Z := now_i 2.
Definition time2 : Z := now_r (if zlen p1 =? 0 then 3 else 4).

Lemma select_padding_length profile maximum p : 0 ≤ maximum → select_padding profile maximum = Ok p → zlen p ≤ maximum.
Proof.
  intros Hm. unfold select_padding. destruct (_ >? _) eqn:E; [done|]. breflect. intros <-%Ok_inj.
  unfold zlen. rewrite length_replicate. destruct profile; lia.
Qed.

(** The RouterInfo is valid without an expected hash too. *)
Lemma own_valid : ∃ own, validate ed25519_key ed25519_verify ri MAX_ROUTER_INFO_PAYLOAD None (x25519_public si) = Ok own.
Proof.
  revert Hpeer. unfold validate, validate_router_info. destruct (_ || _); [done|]. destruct (router_info_decode _ _); [|done].
  cbn [map_err mbind result_bind]. destruct (verify_router_info _ _ _); [|done]. cbn [map_err mbind result_bind].
  destruct (router_identity_hash _ _); [|done]. cbn [map_err mbind result_bind]. destruct (match expected with Some _ => _ | None => _ end); [done|].
  destruct (bool_decide _); [done|]. destruct (find_static_key _ _); [|done]. cbn [mbind result_bind].
  destruct (ok_or _ _); [|done]. cbn [mbind result_bind]. destruct (negb _); [done|]. eauto.
Qed.

Lemma ri_length : 0 < zlen ri ≤ MAX_ROUTER_INFO_PAYLOAD.
Proof.
  revert Hpeer. unfold validate, validate_router_info. destruct (_ || _) eqn:E; [done|]. breflect. pose proof (zlen_nonneg ri). lia.
Qed.
Lemma payload_fine : payload_ok MAX_ROUTER_INFO_PAYLOAD (mkPayload ri None (Some p3)).
Proof. constructor; [apply ri_length|done|done]. Qed.
Lemma wconf_bytes : bytes_ok wconf.
Proof.
  unfold wconf, payload_bytes. cbn [block_bytes cp_router_info cp_options cp_padding app].
  constructor; [done|]. rewrite !Forall_app, !Forall_cons, Forall_app.
  split_and!; try done; apply to_be_ok.
Qed.
Lemma n2_range : AUTH_TAG_LENGTH ≤ n2 ≤ MAX_SESSION_CONFIRMED_PART2.
Proof.
  unfold n2, wconf. rewrite payload_bytes_len. pose proof ri_length. unfold payload_encoded_len in *. cbn [cp_router_info cp_options cp_padding] in *.
  pose proof (block_size_nonneg (Some p3)). cbn [block_size] in *.
  unfold MAX_SESSION_CONFIRMED_PART2_PLAINTEXT, MAX_SESSION_CONFIRMED_PART2, AUTH_TAG_LENGTH in *. lia.
Qed.

Lemma responder_hm p input t : responder_transition ed25519_key ed25519_verify p input = t → hm_transition p input = Some t.
Proof. by intros <-. Qed.
Lemma initiator_hm p input t : initiator_transition ed25519_key ed25519_verify p input = t → hm_transition p input = t.
Proof. by intros <-. Qed.

Lemma initiator_sends inbox next w rest :
  initiator_request icommon ob0 (transcript_new Initiator (x25519_public sr)) ri time1 p1 p3 = Some (Ok (next, Write w :: rest)) →
  zlen w ≤ MAX_HANDSHAKE_BUFFERED_INPUT →
  ∃ counters, drives ci ti ri (mkDriver (NeedRouterInfo icommon ob0 (transcript_new Initiator (x25519_public sr)))
      [RequestRouterInfo MAX_ROUTER_INFO_PAYLOAD] cachei no_counters) inbox (mkDriver next rest cachei counters) inbox w.
Proof.
  intros Hreq Hw. destruct own_valid as [own Hown]. pose proof ri_length as Hl. eexists.
  eapply (drives_input _ _ _ _ _ _ _ _ _ (InRouterInfo ri)).
  { unfold driver_step. cbn [d_actions d_counters d_replay]. destruct (_ || _) eqn:E; [apply orb_true_iff in E as [|]; breflect; lia|done]. }
  { cbn. unfold initiator_transition. cbn [interruption ic_local_static icommon]. rewrite (public_ok si (ho_si _ _ _ _ Hkeys)).
    cbn [mbind result_bind]. rewrite Hown. done. }
  eapply (drives_input _ _ _ _ _ _ _ _ _ (InTimestamp time1)); [done|done|].
  eapply (drives_input _ _ _ _ _ _ _ _ _ (InPadding p1)); [unfold driver_step; cbn [d_actions]; by rewrite Hp1| |].
  { cbn. unfold initiator_transition. cbn [interruption]. pose proof (select_padding_length _ MAX_SESSION_REQUEST_PADDING _ ltac:(done) Hp1).
    destruct (_ >? _) eqn:E; breflect; [lia|done]. }
  eapply (drives_input _ _ _ _ _ _ _ _ _ (InPadding p3)); [unfold driver_step; cbn [d_actions]; by rewrite Hp3|by cbn; rewrite Hreq|].
  by apply drives_write_last.
Qed.

Lemma responder_answers rr ob1 head req opts r0 r1 next w rest token retention :
  responder_request rcommon ob0 head = Ok (AwaitReplay rcommon ob0 req, [RequestReplay token retention]) →
  zlen head = MIN_HANDSHAKE_MESSAGE_LENGTH →
  responder_replay rcommon ob0 req ReplayFresh =
    Ok (if zlen p1 =? 0 then (RNeedPeerTimestamp rcommon ob1 [] opts (x25519_public ei) r1, [RequestTimestamp ForPeerValidation])
        else (AwaitRequestPadding rcommon ob1 opts (x25519_public ei) r0 (zlen p1), [ReadExact (zlen p1)])) →
  mix_padding p1 r0 = Ok r1 → ro_timestamp opts = time1 → cache_admits token cacher →
  responder_created rcommon ob1 p1 opts (x25519_public ei) r1 time2 p2 = Ok (next, Write w :: rest) →
  zlen w ≤ MAX_HANDSHAKE_BUFFERED_INPUT →
  ∃ cache counters, drives cr tr rr (mkDriver (NeedRequest rcommon ob0) [ReadExact MIN_HANDSHAKE_MESSAGE_LENGTH] cacher no_counters) (head ++ p1)
    (mkDriver next rest cache counters) [] w.
Proof.
  intros Hreq Hh Hrep Hmix Hts Hcache Hcre Hw.
  assert (Hclass : skew_classify skr time2 time1 = Ok ()) by (apply classify_exact, Hskr).
  assert (Htail : ∀ cache counters, action_count (count_action counters) = (if zlen p1 =? 0 then 3 else 4) → ∃ counters', drives cr tr rr
    (mkDriver (RNeedPeerTimestamp rcommon ob1 p1 opts (x25519_public ei) r1) [RequestTimestamp ForPeerValidation] cache counters) []
    (mkDriver next rest cache counters') [] w).
  { intros cache counters Hk. eexists. eapply (drives_input _ _ _ _ _ _ _ _ _ (InTimestamp time2)).
    { unfold driver_step, time2. cbn [d_actions d_counters d_replay]. cbv zeta. by rewrite Hk. }
    { apply responder_hm. unfold responder_transition. cbn [d_state interruption]. change (rc_skew rcommon) with skr. rewrite Hts, Hclass. reflexivity. }
    eapply (drives_input _ _ _ _ _ _ _ _ _ (InPadding p2)); [unfold driver_step; cbn [d_actions]; by rewrite Hp2|apply responder_hm; unfold responder_transition; cbn [d_state interruption]; rewrite Hcre; reflexivity|].
    by apply drives_write_last. }
  revert Htail. destruct (zlen p1 =? 0) eqn:E0; intros Htail; breflect.
  - assert (Hnil : p1 = []) by (by apply zlen_0_nil). rewrite Hnil in Htail |- *.
    edestruct (drives_replay cr tr rr (AwaitReplay rcommon ob0 req) token retention [] cacher (count_read MIN_HANDSHAKE_MESSAGE_LENGTH (count_action no_counters)) [])
      as [cache Hgo]; [done|apply responder_hm; unfold responder_transition; cbn [d_state interruption]; rewrite Hrep; reflexivity|].
    destruct (Htail cache (count_action (count_read MIN_HANDSHAKE_MESSAGE_LENGTH (count_action no_counters))) eq_refl) as [counters Hend]. eexists cache, counters.
    eapply drives_read; [done|done|apply responder_hm; unfold responder_transition; cbn [d_state interruption]; rewrite Hreq; reflexivity|]. by apply Hgo.
  - edestruct (drives_replay cr tr rr (AwaitReplay rcommon ob0 req) token retention [] cacher (count_read MIN_HANDSHAKE_MESSAGE_LENGTH (count_action no_counters)) p1)
      as [cache Hgo]; [done|apply responder_hm; unfold responder_transition; cbn [d_state interruption]; rewrite Hrep; reflexivity|].
    destruct (Htail cache (count_read (zlen p1) (count_action (count_action (count_read MIN_HANDSHAKE_MESSAGE_LENGTH (count_action no_counters))))) eq_refl) as [counters Hend].
    eexists cache, counters.
    eapply drives_read; [done|done|apply responder_hm; unfold responder_transition; cbn [d_state interruption]; rewrite Hreq; reflexivity|]. apply Hgo.
    pose proof (select_padding_length _ MAX_SESSION_REQUEST_PADDING _ ltac:(done) Hp1) as Hpl.
    eapply drives_read_last; [done|unfold MAX_HANDSHAKE_BUFFERED_INPUT, MAX_SESSION_CONFIRMED_LENGTH, MAX_FRAME_LENGTH, MAX_SESSION_REQUEST_PADDING in *; lia| |exact Hend].
    apply responder_hm. unfold responder_transition, check_padding. cbn [d_state interruption]. rewrite Z.eqb_refl. cbn [negb mbind result_bind]. rewrite Hmix. reflexivity.
Qed.

Lemma initiator_finishes ob i1 i2 i3 head token next w hi counters :
  zlen head = MIN_HANDSHAKE_MESSAGE_LENGTH →
  initiator_created icommon ob i1 wconf (zlen p1) n2 head =
    Ok (if zlen p2 =? 0 then
          (INeedPeerTimestamp icommon i3 wconf (zlen p1) n2 0 time2 token (x25519_public er), [RequestTimestamp ForPeerValidation])
        else (AwaitCreatedPadding icommon i2 wconf (zlen p1) n2 (x25519_public er) time2 token (zlen p2), [ReadExact (zlen p2)])) →
  mix_padding p2 i2 = Ok i3 → cache_admits token cachei →
  initiator_confirm icommon i3 wconf (zlen p1) n2 (zlen p2) (x25519_public er) ReplayFresh = Ok (next, [Write w; Authenticated hi]) →
  zlen w ≤ MAX_HANDSHAKE_BUFFERED_INPUT →
  ∃ cache counters', drives ci ti ri (mkDriver (AwaitCreated icommon ob i1 wconf (zlen p1) n2) [ReadExact MIN_HANDSHAKE_MESSAGE_LENGTH] cachei counters)
    (head ++ p2) (mkDriver next [Authenticated hi] cache counters') [] w.
Proof.
  intros Hh Hcre Hmix Hcache Hconf Hw.
  assert (Hclass : ∀ k, skew_classify ski (now_i k) time2 = Ok ()).
  { intros k. apply classify_exact. specialize (Hski k (if zlen p1 =? 0 then 3 else 4)). unfold time2. lia. }
  assert (Htail : ∀ counters, ∃ cache counters', drives ci ti ri
    (mkDriver (INeedPeerTimestamp icommon i3 wconf (zlen p1) n2 (zlen p2) time2 token (x25519_public er)) [RequestTimestamp ForPeerValidation] cachei counters) []
    (mkDriver next [Authenticated hi] cache counters') [] w).
  { intros counters0. edestruct (drives_replay ci ti ri (NeedConfirmedReplay icommon i3 wconf (zlen p1) n2 (zlen p2) (x25519_public er)) token
      (sk_replay_retention ski) [] cachei (count_action counters0) []) as [cache Hgo];
      [done|apply initiator_hm; unfold initiator_transition; cbn [interruption]; rewrite Hconf; reflexivity|].
    eexists cache, _. eapply (drives_input _ _ _ _ _ _ _ _ _ (InTimestamp (now_i (action_count (count_action counters0))))); [done| |apply Hgo; by apply drives_write_last].
    apply initiator_hm. unfold initiator_transition. cbn [d_state interruption]. change (ic_skew icommon) with ski. rewrite Hclass. reflexivity. }
  destruct (zlen p2 =? 0) eqn:E0; breflect.
  - assert (Hnil : p2 = []) by (by apply zlen_0_nil). rewrite Hnil in Htail |- *.
    edestruct Htail as (cache & counters' & Hend). eexists cache, counters'.
    eapply drives_read; [done|done|apply initiator_hm; unfold initiator_transition; cbn [interruption]; rewrite Hcre; reflexivity|]. exact Hend.
  - edestruct Htail as (cache & counters' & Hend). eexists cache, counters'.
    eapply drives_read; [done|done|apply initiator_hm; unfold initiator_transition; cbn [interruption]; rewrite Hcre; reflexivity|].
    pose proof (select_padding_length _ MAX_SESSION_CREATED_PADDING _ ltac:(done) Hp2) as Hpl.
    eapply drives_read_last; [done|unfold MAX_HANDSHAKE_BUFFERED_INPUT, MAX_SESSION_CONFIRMED_LENGTH, MAX_FRAME_LENGTH, MAX_SESSION_CREATED_PADDING in *; lia| |exact Hend].
    apply initiator_hm. unfold initiator_transition, check_padding. cbn [interruption]. rewrite Z.eqb_refl. cbn [negb mbind result_bind]. rewrite Hmix. reflexivity.
Qed.

Lemma message_fits (e ct p : bytes) maxp :
  zlen e = KEY_LENGTH → zlen ct = HANDSHAKE_OPTIONS_FRAME_LENGTH → zlen p ≤ maxp → maxp ≤ 880 →
  zlen (e ++ ct ++ p) ≤ MAX_HANDSHAKE_BUFFERED_INPUT.
Proof.
  intros He Hc Hp Hm. rewrite !zlen_app, He, Hc. unfold KEY_LENGTH, HANDSHAKE_OPTIONS_FRAME_LENGTH, OPTION_BLOCK_LENGTH, AUTH_TAG_LENGTH,
    MAX_HANDSHAKE_BUFFERED_INPUT, MAX_SESSION_CONFIRMED_LENGTH, MAX_FRAME_LENGTH. lia.
Qed.

(** One schedule: the initiator, the responder, the initiator, the responder. *)
Lemma handshake_reaches rr pi pr :
  let '(ob1, e1) := obfuscate_key (x25519_public ei) ob0 in
  cache_admits (sha256 e1) cacher → cache_admits (sha256 (obfuscate_key (x25519_public er) ob1).2) cachei →
  initiator_new si ei (x25519_public sr) (Some h) hash iv net ski = Ok pi →
  responder_new sr er expected hash iv net skr = Ok pr →
  ∃ ri_run rr_run ki kr,
    rtc (net_step MI MR ci cr ti tr ri rr) (mkNet (driver_start ci pi cachei) (driver_start cr pr cacher) [] [])
      (mkNet (Finished (Ok ri_run)) (Finished (Ok rr_run)) [] []) ∧
    run_authenticated ri_run = mkAuthenticated Initiator (mkPeer h (x25519_public sr))
      (mkNegotiated net n2 (zlen p1) (zlen p2) (zlen wconf)) ki ∧
    run_authenticated rr_run = mkAuthenticated Responder peer (mkNegotiated net n2 (zlen p1) (zlen p2) (zlen wconf)) kr ∧
    crossed ki kr ∧ fresh_keys ki.
Proof.
  destruct (obfuscate_key (x25519_public ei) ob0) as [obs enc] eqn:Eobs. intros Hcr Hci <-%Ok_inj Hr.
  unfold responder_new in Hr. rewrite (public_ok sr (ho_sr _ _ _ _ Hkeys)) in Hr. apply Ok_inj in Hr as <-.
  unfold driver_start. destruct (deadlines_validate (dc_deadlines ci)); [|done]. destruct (deadlines_validate (dc_deadlines cr)); [|done].
  fold icommon rcommon ob0.
  pose proof (select_padding_length _ MAX_SESSION_REQUEST_PADDING _ ltac:(done) Hp1) as L1.
  pose proof (select_padding_length _ MAX_SESSION_CREATED_PADDING _ ltac:(done) Hp2) as L2. pose proof n2_range as Hn2.
  destruct (request_step si ei sr er Hkeys icommon ob0 ri time1 p1 p3 wconf eq_refl eq_refl Hiv L1 (Hti _) payload_fine eq_refl)
    as (ob1 & i1 & r0 & r1 & e1 & ct1 & Hreq & Le1 & Lc1 & Hd1 & Hob1 & Ha1 & Hm1 & S1 & T1 & O1). rewrite Eobs in O1. injection O1 as <- <-. fold n2 in Hreq, Ha1.
  set (opts := request_of net p1 n2 time1).
  assert (Hopts : request_options_ok opts).
  { constructor; cbn; [done|done| |done|apply Hti]. unfold fits, MAX_SESSION_REQUEST_PADDING in *. pose proof (zlen_nonneg p1). lia. }
  destruct (created_step si ei sr er Hkeys rcommon obs i1 r1 p1 opts time2 p2 eq_refl Hob1 S1 T1 L2 (Htr _))
    as (i2 & i3 & r3 & e2 & ct2 & key & Hcre & Le2 & Lc2 & Hd2 & Ha2 & Hm2 & S3 & T3 & C3 & O2);
    [cbn; unfold AUTH_TAG_LENGTH in *; lia|].
  destruct (confirm_step ed25519_key ed25519_verify si ei sr er Hkeys icommon rcommon i3 r3 key wconf (zlen p1) (zlen p2) net ri p3 h expected peer
    eq_refl eq_refl eq_refl eq_refl S3 T3 C3 payload_fine eq_refl wconf_bytes Hpeer) as (w3 & ki & kr & Hconf & L3 & Hrconf & Hx & Hf).
  fold n2 in Hconf, L3, Hrconf.
  assert (Hw3 : zlen w3 ≤ MAX_HANDSHAKE_BUFFERED_INPUT).
  { rewrite L3. unfold SESSION_CONFIRMED_PART1_LENGTH, KEY_LENGTH, AUTH_TAG_LENGTH, MAX_SESSION_CONFIRMED_PART2, MAX_HANDSHAKE_BUFFERED_INPUT, MAX_SESSION_CONFIRMED_LENGTH, MAX_FRAME_LENGTH in *. lia. }
  edestruct (initiator_sends []) as [k1 Hi1]; [exact Hreq| |].
  { by apply (message_fits _ _ _ _ Le1 Lc1 L1). }
  destruct (decode_head MAX_SESSION_REQUEST_PADDING enc ct1 ltac:(done) Le1 Lc1) as [Hh1 _].
  destruct (decode_head MAX_SESSION_CREATED_PADDING e2 ct2 ltac:(done) Le2 Lc2) as [Hh2 _].
  edestruct (responder_answers rr obs (enc ++ ct1) (mkMessage enc ct1 []) opts r0 r1) as (cache1 & k2 & Hr1);
    [by apply responder_request_step|done|by apply (responder_replay_step si ei sr er Hkeys rcommon ob0 obs enc ct1 r0 r1 p1 n2 time1)|done|done|exact Hcr|exact Hcre| |].
  { by apply (message_fits _ _ _ _ Le2 Lc2 L2). }
  edestruct (initiator_finishes obs i1 i2 i3 (e2 ++ ct2)) as (cache2 & k3 & Hi2); [done| |done|rewrite <- O2 in Hci; exact Hci|exact Hconf|done|].
  { apply (initiator_created_step si ei sr er Hkeys); try done; [|apply Htr]. unfold fits, MAX_SESSION_CREATED_PADDING in *. pose proof (zlen_nonneg p2). lia. }
  rewrite <- app_assoc in Hr1, Hi2.
  edestruct (four_turns MI MR ci cr ti tr ri rr) as (run_i & run_r & Hreach & Hai & Har); [exact Hi1|exact Hr1|exact Hi2| |by exists run_i, run_r, ki, kr].
  eapply drives_read_last; [exact L3|rewrite L3 in Hw3; exact Hw3| |constructor]. apply responder_hm. unfold responder_transition. cbn [interruption].
  cbn [ro_part2_length ro_network_id opts request_of]. rewrite Hrconf. reflexivity.
Qed.
End handshake.

(** ** Properties *)

(** What two routers need for a connection: usable keys that agree, the
    initiator's RouterInfo valid and expected, paddings that fit, deadlines the
    runtime accepts, clocks that show times within both policies whenever they are
    read, and replay caches with room that have not seen the ephemeral keys of the
    connection. *)
Record can_connect `{P : Ntcp2Primitives} `{X : X25519} (ed25519_key : bytes → bool) (ed25519_verify : bytes → bytes → bytes → bool)
    (si ei sr er hash iv : bytes) (net : Z) (ski skr : ClockSkewPolicy) (expected : option bytes) (ri : bytes)
    (peer : AuthenticatedPeer) (ci cr : HandshakeDriverConfig) (ti tr : Z → Z) (cachei cacher : ReplayCache) : Prop := {
  cc_keys : honest si ei sr er;
  cc_iv : zlen iv = AES_BLOCK_LENGTH;
  cc_network : fits 8 net;
  cc_router_info : bytes_ok ri;
  cc_peer : validate ed25519_key ed25519_verify ri MAX_ROUTER_INFO_PAYLOAD expected (x25519_public si) = Ok peer;
  cc_padding1 : is_ok (select_padding (dc_padding ci) MAX_SESSION_REQUEST_PADDING) = true;
  cc_padding2 : is_ok (select_padding (dc_padding cr) MAX_SESSION_CREATED_PADDING) = true;
  cc_padding3 : ∃ p3, select_padding (dc_padding ci) MAX_SESSION_CONFIRMED_PART2_PLAINTEXT = Ok p3 ∧ bytes_ok p3 ∧
    payload_encoded_len (mkPayload ri None (Some p3)) ≤ MAX_SESSION_CONFIRMED_PART2_PLAINTEXT;
  cc_deadlines_i : is_ok (deadlines_validate (dc_deadlines ci)) = true;
  cc_deadlines_r : is_ok (deadlines_validate (dc_deadlines cr)) = true;
  cc_clock_i k : fits 32 (clock_now (dc_clock ci) ti k);
  cc_clock_r k : fits 32 (clock_now (dc_clock cr) tr k);
  cc_skew_i k k' : Z.abs (clock_now (dc_clock ci) ti k - clock_now (dc_clock cr) tr k') ≤ sk_maximum_delta ski;
  cc_skew_r k k' : Z.abs (clock_now (dc_clock ci) ti k - clock_now (dc_clock cr) tr k') ≤ sk_maximum_delta skr;
  cc_caches : let '(ob, enc) := obfuscate_key (x25519_public ei) (mkObfuscation hash iv) in
    cache_admits (sha256 enc) cacher ∧ cache_admits (sha256 (obfuscate_key (x25519_public er) ob).2) cachei;
}.


(** ** Witnesses *)
Section sample.
#[local] Existing Instance toy_primitives.
#[local] Existing Instance toy_x25519.

Definition sample_config_i : HandshakeDriverConfig := config_default.
Definition sample_config_r : HandshakeDriverConfig := mkConfig deadlines_default (ClockFixed 1010) PadMinimum.
(** A system clock that runs. *)
Definition sample_time (k : Z) : Z := 1000 + Z.min (Z.max k 0) 20.
Definition sample_cache : ReplayCache := mkReplayCache 8 {[replicate 32 1 := 5000]}.
Definition sample_peer : AuthenticatedPeer := mkPeer (sha256 (identity_bytes sample_identity)) sample_static.

Lemma sample_can_connect :
  can_connect toy_key toy_verify [4] [5] [2] [3] (replicate 32 9) (replicate 16 8) 2 default_compatibility default_compatibility None ntcp2_router_info_bytes
    sample_peer sample_config_i sample_config_r sample_time sample_time sample_cache sample_cache.
Proof.
  assert (Hrange : ∀ k, 1000 ≤ sample_time k ≤ 1020) by (unfold sample_time; lia).
  assert (Hdelta : ∀ k, Z.abs (sample_time k - 1010) ≤ 60) by (intros k; specialize (Hrange k); lia).
  constructor.
  - vm_compute. done.
  - done.
  - done.
  - apply bytes_okb. vm_compute. reflexivity.
  - vm_compute. reflexivity.
  - done.
  - done.
  - exists (replicate 16 0). split; [done|]. split; [by repeat constructor|]. vm_compute. done.
  - done.
  - done.
  - intros k. cbn [clock_now dc_clock sample_config_i config_default]. specialize (Hrange k). unfold fits. lia.
  - done.
  - intros k k'. apply Hdelta.
  - intros k k'. apply Hdelta.
  - vm_compute. done.
Qed.

End sample.

(** The maximal padding profile asks for 65471 bytes of padding in the third
    message, which with a RouterInfo in front never fit: an initiator that is
    configured with it ends every handshake before it has written anything. *)
Theorem maximum_profile_never_connects (P : Ntcp2Primitives) (X : X25519) common obfuscation transcript ri timestamp p1 p3 :
  select_padding PadMaximum MAX_SESSION_CONFIRMED_PART2_PLAINTEXT = Ok p3 →
  ∃ e, initiator_request common obfuscation transcript ri timestamp p1 p3 = Some (Err e).
Proof.
  intros Hp. unfold initiator_request. destruct (confirmed_payload_new ri None (Some p3)) as [q|e] eqn:E; [|by eexists].
  exfalso. apply payload_new_ok in E as (-> & Hri & _ & Ht). unfold select_padding in Hp. rewrite Z.gtb_ltb, Z.ltb_irrefl in Hp.
  apply Ok_inj in Hp as <-. unfold payload_encoded_len in Ht. cbn [cp_router_info cp_options cp_padding block_size] in Ht.
  unfold zlen in *. rewrite length_replicate in Ht. lia.
Qed.
