(* ===== verification/BuildRecord.v ===== *)
(** * Records of a tunnel build

    Models [i2pr-tunnel/src/short_record.rs]: the request a hop receives, the reply
    it returns, and their fixed-size plaintexts with random padding.  The random
    generator is a parameter, as in [TunnelData]. *)
From S2P Require Import Prelude Codec Common Mapping Tunnel.

Definition SHORT_REQUEST_PLAINTEXT_SIZE : Z := 154.
Definition SHORT_REPLY_PLAINTEXT_SIZE : Z := 202.
Definition MAX_REQUEST_MAPPING_AREA : Z := 98.
Definition MAX_REQUEST_MAPPING_BODY : Z := MAX_REQUEST_MAPPING_AREA - 2.
Definition REQUEST_FIXED_PREFIX_LEN : Z := 56.
Definition MAX_REPLY_MAPPING_AREA : Z := 201.
Definition MAX_REPLY_MAPPING_BODY : Z := MAX_REPLY_MAPPING_AREA - 2.
Definition HOP_ROLE_PARTICIPANT : Z := 0x00.
Definition HOP_ROLE_INBOUND_GATEWAY : Z := 0x80.
Definition HOP_ROLE_OUTBOUND_ENDPOINT : Z := 0x40.
Definition REQUEST_EXPIRATION_SECONDS : Z := 600.

Inductive ShortBuildError :=
  | SbPlaintextLength (actual expected : Z)
  | SbInvalidRoleFlags (flags : Z)
  | SbInvalidRequestPrefixBytes
  | SbZeroTunnelId (field : string)
  | SbUnsupportedLayerEncryption (byte : Z)
  | SbZeroMessageId
  | SbZeroExpiration
  | SbExpirationMismatch (actual expected : Z)
  | SbRequestTimeOverflow (millis : Z)
  | SbUnknownReplyCode (code : Z)
  | SbOptionsEncode (error : CodecError)
  | SbOptionsLength (actual : Z)
  | SbRandomnessUnavailable
  | SbProtocol (error : CodecError).

Inductive HopRole := HopParticipant | HopInboundGateway | HopOutboundEndpoint.
#[export] Instance HopRole_eq_dec : EqDecision HopRole.
Proof. solve_decision. Defined.
Definition role_flag (r : HopRole) : Z :=
  match r with
  | HopParticipant => HOP_ROLE_PARTICIPANT
  | HopInboundGateway => HOP_ROLE_INBOUND_GATEWAY
  | HopOutboundEndpoint => HOP_ROLE_OUTBOUND_ENDPOINT
  end.
Definition role_from_flag (flag : Z) : result ShortBuildError HopRole :=
  if negb (Z.land flag 0x3F =? 0) then Err (SbInvalidRoleFlags flag)
  else if negb (Z.land flag HOP_ROLE_INBOUND_GATEWAY =? 0) then Ok HopInboundGateway
  else if negb (Z.land flag HOP_ROLE_OUTBOUND_ENDPOINT =? 0) then Ok HopOutboundEndpoint
  else Ok HopParticipant.

Inductive LayerEncryptionType := LayerAes.
Definition layer_byte (t : LayerEncryptionType) : Z := match t with LayerAes => 0 end.
Definition layer_from_byte (b : Z) : result ShortBuildError LayerEncryptionType :=
  if b =? 0 then Ok LayerAes else Err (SbUnsupportedLayerEncryption b).

(** Build options are a mapping that fits the request. *)
Record BuildOptions := mkOptions { bo_mapping : Mapping }.
Definition options_empty : BuildOptions := mkOptions mapping_empty.
Definition options_from_mapping (m : Mapping) : result ShortBuildError BuildOptions :=
  body_len ← map_err SbProtocol (encoded_body_len m);
  if body_len >? MAX_REQUEST_MAPPING_BODY then Err (SbOptionsLength body_len) else Ok (mkOptions m).

Record ShortRequestRecord := mkRequest {
  sr_receive_tunnel : Z;
  sr_next_tunnel : Z;
  sr_next_router : bytes;
  sr_role : HopRole;
  sr_layer_encryption_type : LayerEncryptionType;
  sr_request_time : Z;
  sr_expiration_seconds : Z;
  sr_next_message_id : Z;
  sr_options : BuildOptions;
}.

Definition request_try_new (receive_tunnel next_tunnel : Z) (next_router : bytes) (role : HopRole) (layer : LayerEncryptionType)
    (request_time expiration_seconds next_message_id : Z) (options : BuildOptions) : result ShortBuildError ShortRequestRecord :=
  if next_message_id =? 0 then Err SbZeroMessageId
  else if expiration_seconds =? 0 then Err SbZeroExpiration
  else if negb (expiration_seconds =? REQUEST_EXPIRATION_SECONDS)
  then Err (SbExpirationMismatch expiration_seconds REQUEST_EXPIRATION_SECONDS)
  else Ok (mkRequest receive_tunnel next_tunnel next_router role layer request_time expiration_seconds next_message_id options).

Definition request_time_minutes (r : ShortRequestRecord) : result ShortBuildError Z :=
  let seconds := sr_request_time r / 1000 in
  if seconds >? u32_max then Err (SbRequestTimeOverflow (sr_request_time r)) else Ok (seconds / 60).

(** Bytes at fixed offsets. *)
Definition u32_at (i : Z) (input : bytes) : Z := from_be (slice i (i + 4) input).
Definition byte_at (i : nat) (input : bytes) : Z := nth i input 0.

(** The mapping at the start of an area, without the padding behind it. *)
Definition read_mapping (area : bytes) (max_body max_area : Z) (context : string) : result ShortBuildError Mapping :=
  let declared_body := from_be (slice 0 2 area) in
  if declared_body >? max_body then Err (SbProtocol (LengthExceeded 0 declared_body max_body context))
  else
  let mapping_len := 2 + declared_body in
  if mapping_len >? zlen area then Err (SbProtocol (Truncated (zlen area) mapping_len (zlen area)))
  else map_err SbProtocol (mapping_decode (slice 0 mapping_len area) max_area).

Definition request_decode (input : bytes) : result ShortBuildError ShortRequestRecord :=
  if negb (zlen input =? SHORT_REQUEST_PLAINTEXT_SIZE) then Err (SbPlaintextLength (zlen input) SHORT_REQUEST_PLAINTEXT_SIZE)
  else
  let receive_tunnel := u32_at 0 input in
  if receive_tunnel =? 0 then Err (SbZeroTunnelId "receive_tunnel") else
  let next_tunnel := u32_at 4 input in
  if next_tunnel =? 0 then Err (SbZeroTunnelId "next_tunnel") else
  let next_router := slice 8 40 input in
  role ← role_from_flag (byte_at 40 input);
  if negb (byte_at 41 input =? 0) || negb (byte_at 42 input =? 0) then Err SbInvalidRequestPrefixBytes else
  layer ← layer_from_byte (byte_at 43 input);
  let minutes := u32_at 44 input in
  let request_time := saturating_mul u64_max (saturating_mul u64_max minutes 60) 1000 in
  let expiration_seconds := u32_at 48 input in
  if expiration_seconds =? 0 then Err SbZeroExpiration
  else if negb (expiration_seconds =? REQUEST_EXPIRATION_SECONDS)
  then Err (SbExpirationMismatch expiration_seconds REQUEST_EXPIRATION_SECONDS)
  else
  let next_message_id := u32_at 52 input in
  if next_message_id =? 0 then Err SbZeroMessageId else
  let mapping_area := slice REQUEST_FIXED_PREFIX_LEN SHORT_REQUEST_PLAINTEXT_SIZE input in
  mapping ← (if zlen mapping_area <? 2 then Err (SbOptionsLength (zlen mapping_area))
             else read_mapping mapping_area MAX_REQUEST_MAPPING_BODY MAX_REQUEST_MAPPING_AREA "request mapping body");
  options ← options_from_mapping mapping;
  Ok (mkRequest receive_tunnel next_tunnel next_router role layer request_time expiration_seconds next_message_id options).

Inductive ShortResponseCode := BuildAccepted | BandwidthRejected.
#[export] Instance ShortResponseCode_eq_dec : EqDecision ShortResponseCode.
Proof. solve_decision. Defined.
Definition response_byte (r : ShortResponseCode) : Z := match r with BuildAccepted => 0 | BandwidthRejected => 30 end.
Definition response_from_byte (b : Z) : result ShortBuildError ShortResponseCode :=
  if b =? 0 then Ok BuildAccepted else if b =? 30 then Ok BandwidthRejected else Err (SbUnknownReplyCode b).

Record ShortReplyRecord := mkReply { sp_options : BuildOptions; sp_response : ShortResponseCode }.

Definition reply_decode (input : bytes) : result ShortBuildError ShortReplyRecord :=
  if negb (zlen input =? SHORT_REPLY_PLAINTEXT_SIZE) then Err (SbPlaintextLength (zlen input) SHORT_REPLY_PLAINTEXT_SIZE)
  else
  response ← response_from_byte (byte_at (Z.to_nat (SHORT_REPLY_PLAINTEXT_SIZE - 1)) input);
  let mapping_area := slice 0 (SHORT_REPLY_PLAINTEXT_SIZE - 1) input in
  mapping ← (if zlen mapping_area <? 2 then Ok mapping_empty
             else read_mapping mapping_area MAX_REPLY_MAPPING_BODY MAX_REPLY_MAPPING_AREA "reply mapping body");
  options ← options_from_mapping mapping;
  Ok (mkReply options response).

(** ** Encoding, with random padding *)
Section encode.
Context {Rng : Type} (try_fill_bytes : Rng → Z → Rng * option bytes).

Definition fill {E} (unavailable : E) (len : Z) : M Rng E bytes := λ rng,
  match try_fill_bytes rng len with
  | (rng', Some buf) => (rng', Ok buf)
  | (rng', None) => (rng', Err unavailable)
  end.

Definition request_prefix (r : ShortRequestRecord) (minutes : Z) : bytes :=
  to_be 4 (sr_receive_tunnel r) ++ to_be 4 (sr_next_tunnel r) ++ sr_next_router r ++
  [role_flag (sr_role r); 0; 0; layer_byte (sr_layer_encryption_type r)] ++
  to_be 4 minutes ++ to_be 4 (sr_expiration_seconds r) ++ to_be 4 (sr_next_message_id r).

Definition request_encode_with_rng (r : ShortRequestRecord) : M Rng ShortBuildError bytes :=
  minutes ← lift (request_time_minutes r);
  encoded_options ← lift (map_err SbOptionsEncode (mapping_encode (bo_mapping (sr_options r)) MAX_REQUEST_MAPPING_AREA));
  if zlen encoded_options >? MAX_REQUEST_MAPPING_AREA then fail (SbOptionsLength (zlen encoded_options))
  else
  padding ← fill SbRandomnessUnavailable (SHORT_REQUEST_PLAINTEXT_SIZE - (REQUEST_FIXED_PREFIX_LEN + zlen encoded_options));
  mret (request_prefix r minutes ++ encoded_options ++ padding).

Definition reply_encode_with_rng (r : ShortReplyRecord) : M Rng ShortBuildError bytes :=
  encoded ← lift (map_err SbOptionsEncode (mapping_encode (bo_mapping (sp_options r)) MAX_REPLY_MAPPING_AREA));
  if zlen encoded >? SHORT_REPLY_PLAINTEXT_SIZE - 1 then fail (SbOptionsLength (zlen encoded))
  else
  padding ← fill SbRandomnessUnavailable (SHORT_REPLY_PLAINTEXT_SIZE - 1 - zlen encoded);
  mret (encoded ++ padding ++ [response_byte (sp_response r)]).
End encode.

(** Without a generator the padding is zero; a reply whose options do not encode
    loses them, and one whose options are too long is all zero. *)
Definition request_encode_zero_padded (r : ShortRequestRecord) : result ShortBuildError bytes :=
  minutes ← request_time_minutes r;
  encoded_options ← map_err SbOptionsEncode (mapping_encode (bo_mapping (sr_options r)) MAX_REQUEST_MAPPING_AREA);
  if zlen encoded_options >? MAX_REQUEST_MAPPING_AREA then Err (SbOptionsLength (zlen encoded_options))
  else
  Ok (request_prefix r minutes ++ encoded_options ++
      replicate (Z.to_nat (SHORT_REQUEST_PLAINTEXT_SIZE - (REQUEST_FIXED_PREFIX_LEN + zlen encoded_options))) 0).
Definition reply_encode_zero_padded (r : ShortReplyRecord) : bytes :=
  let encoded := match mapping_encode (bo_mapping (sp_options r)) MAX_REPLY_MAPPING_AREA with Ok bs => bs | Err _ => [] end in
  if zlen encoded >? SHORT_REPLY_PLAINTEXT_SIZE - 1 then replicate (Z.to_nat SHORT_REPLY_PLAINTEXT_SIZE) 0
  else encoded ++ replicate (Z.to_nat (SHORT_REPLY_PLAINTEXT_SIZE - 1 - zlen encoded)) 0 ++ [response_byte (sp_response r)].

Definition plaintext_size (is_reply : bool) : Z := if is_reply then SHORT_REPLY_PLAINTEXT_SIZE else SHORT_REQUEST_PLAINTEXT_SIZE.
Definition classify_plaintext_kind (input : bytes) : result ShortBuildError bool :=
  if zlen input =? SHORT_REQUEST_PLAINTEXT_SIZE then Ok false
  else if zlen input =? SHORT_REPLY_PLAINTEXT_SIZE then Ok true
  else Err (SbPlaintextLength (zlen input) 0).
Definition validate_reply_body (body : bytes) : result ShortBuildError () :=
  if zlen body >? MAX_REPLY_MAPPING_AREA then Err (SbOptionsLength (zlen body))
  else match body with
       | [] => Ok ()
       | _ => _ ← map_err SbProtocol (mapping_decode body MAX_REPLY_MAPPING_AREA); Ok ()
       end.

(** ** Round trips *)
Lemma role_from_flag_flag r : role_from_flag (role_flag r) = Ok r.
Proof. by destruct r. Qed.
Lemma response_from_byte_byte c : response_from_byte (response_byte c) = Ok c.
Proof. by destruct c. Qed.

(** A mapping that fits an area is read back whatever the padding is. *)
Lemma mapping_writes m : mapping_ok m → writes (mapping_encode_into m) (mapping_bytes m).
Proof. intros Hm. apply (canonical_writes _ _ _ _ (mapping_canonical (zlen (body_of (entries m))))). by split. Qed.

Lemma mapping_encode_inv m max bs : mapping_ok m → 0 ≤ max → mapping_encode m max = Ok bs → bs = mapping_bytes m ∧ zlen bs ≤ max.
Proof.
  intros Hm H0 He. apply (writes_encode_to_vec _ (mapping_bytes m)) in He as [-> ?]; [done|by apply mapping_writes|done].
Qed.

Lemma mapping_bytes_ok m : mapping_ok m → bytes_ok (mapping_bytes m).
Proof.
  intros [He _ _]. unfold mapping_bytes. rewrite Forall_app. split; [apply to_be_ok|].
  unfold body_of. apply Forall_concat, Forall_fmap. eapply Forall_impl; [exact He|]. intros e [[Hk _] [Hv _] _ _].
  cbn. unfold entry_bytes. rewrite !Forall_app. split_and!; try apply to_be_ok; try done; by constructor.
Qed.

Lemma mapping_bytes_len m : zlen (mapping_bytes m) = 2 + zlen (body_of (entries m)).
Proof. unfold mapping_bytes. by rewrite zlen_app, zlen_to_be. Qed.

Lemma read_mapping_padded m padding max_body max_area context :
  mapping_ok m → zlen (body_of (entries m)) ≤ max_body → max_area = max_body + 2 →
  read_mapping (mapping_bytes m ++ padding) max_body max_area context = Ok m.
Proof.
  intros Hm Hb ->. pose proof (zlen_nonneg (body_of (entries m))) as Hz. pose proof (mapping_size m Hm) as Hs.
  pose proof (mapping_bytes_len m) as Hl. pose proof (zlen_nonneg padding). unfold MAX_MAPPING_BODY_SIZE, u16_max in Hs.
  unfold read_mapping. unfold mapping_bytes at 1 2 3 4 5 6 7 8.
  rewrite <- !app_assoc. rewrite !(slice_app_start 2) by (by rewrite zlen_to_be).
  rewrite !from_to_be by (cbn; lia). rewrite app_assoc. fold (mapping_bytes m).
  destruct (_ >? _) eqn:E; breflect; [lia|]. destruct (_ >? zlen _) eqn:E2; breflect; [rewrite zlen_app in E2; lia|].
  rewrite slice_app_start by lia. unfold mapping_decode.
  rewrite (reads_decode_exact _ _ m); [done| |lia|unfold usize_max; lia].
  apply (canonical_reads _ _ _ _ (mapping_canonical (max_body + 2))). split; [done|lia].
Qed.

Lemma options_from_mapping_ok m : mapping_ok m → zlen (body_of (entries m)) ≤ MAX_REQUEST_MAPPING_BODY →
  options_from_mapping m = Ok (mkOptions m).
Proof.
  intros Hm Hb. unfold options_from_mapping. rewrite (proj2 (encoded_body_len_exact m _)) by (split; [done|apply Hm]).
  cbn. destruct (_ >? _) eqn:E; breflect; [lia|done].
Qed.

(** Fields behind a prefix of known length. *)
Lemma slice_skip {A} n a b (l k : list A) : zlen l = n → n ≤ a → slice a b (l ++ k) = slice (a - n) (b - n) k.
Proof.
  intros <- Ha. unfold slice, zlen in *. rewrite drop_app_ge by lia.
  f_equal; [lia|]. f_equal. lia.
Qed.
Lemma nth_skip n (i : nat) (l k : bytes) : length l = n → (n ≤ i)%nat → nth i (l ++ k) 0 = nth (i - n) k 0.
Proof. intros <-. apply app_nth2. Qed.

Record request_ok (r : ShortRequestRecord) : Prop := {
  request_receive : 0 < sr_receive_tunnel r ≤ u32_max;
  request_next : 0 < sr_next_tunnel r ≤ u32_max;
  request_router : length (sr_next_router r) = 32%nat;
  request_time_ok : 0 ≤ sr_request_time r;
  request_expiration : sr_expiration_seconds r = REQUEST_EXPIRATION_SECONDS;
  request_message_id : 0 < sr_next_message_id r ≤ u32_max;
  request_options : mapping_ok (bo_mapping (sr_options r));
  request_options_fit : zlen (body_of (entries (bo_mapping (sr_options r)))) ≤ MAX_REQUEST_MAPPING_BODY;
}.

(** The request time is floored to its minute. *)
Definition floor_minute (t : Z) : Z := t / 60000 * 60000.
Definition floor_request (r : ShortRequestRecord) : ShortRequestRecord :=
  mkRequest (sr_receive_tunnel r) (sr_next_tunnel r) (sr_next_router r) (sr_role r) (sr_layer_encryption_type r)
    (floor_minute (sr_request_time r)) (sr_expiration_seconds r) (sr_next_message_id r) (sr_options r).

Ltac skip_fields := repeat (first
  [ rewrite (slice_skip 4) by (rewrite ?zlen_to_be; done || reflexivity || lia)
  | rewrite (slice_skip 32) by (unfold zlen; lia)
  | rewrite (nth_skip 4) by (rewrite ?length_to_be; done || reflexivity || lia)
  | rewrite (nth_skip 32) by lia ]).
Ltac u32_field := unfold u32_at, request_prefix; rewrite <- !app_assoc; skip_fields;
  rewrite slice_app_start by (rewrite zlen_to_be; lia); apply from_to_be; cbn; lia.

Lemma zlen_request_prefix r minutes : request_ok r → zlen (request_prefix r minutes) = REQUEST_FIXED_PREFIX_LEN.
Proof.
  intros [_ _ Hr _ _ _ _ _]. unfold request_prefix. rewrite !zlen_app, !zlen_to_be. unfold zlen. rewrite Hr. done.
Qed.

Section prefix_fields.
Context (r : ShortRequestRecord) (minutes : Z) (rest : bytes) (Hr : request_ok r) (Hmin : 0 ≤ minutes ≤ u32_max).
Let input := request_prefix r minutes ++ rest.
Lemma prefix_receive : u32_at 0 input = sr_receive_tunnel r.
Proof. destruct Hr. unfold u32_max in *. unfold input. u32_field. Qed.
Lemma prefix_next : u32_at 4 input = sr_next_tunnel r.
Proof. destruct Hr. unfold u32_max in *. unfold input. u32_field. Qed.
Lemma prefix_router : slice 8 40 input = sr_next_router r.
Proof. destruct Hr. unfold input, request_prefix. rewrite <- !app_assoc. skip_fields. apply slice_app_start. unfold zlen. lia. Qed.
Lemma prefix_flag i : (i < 4)%nat →
  byte_at (40 + i) input = nth i [role_flag (sr_role r); 0; 0; layer_byte (sr_layer_encryption_type r)] 0.
Proof.
  intros Hi. destruct Hr. unfold input, byte_at, request_prefix. rewrite <- !app_assoc.
  rewrite (nth_skip 4), (nth_skip 4), (nth_skip 32) by (rewrite ?length_to_be; done || lia).
  replace (40 + i - 4 - 4 - 32)%nat with i by lia. apply app_nth1. cbn. lia.
Qed.
Lemma prefix_minutes : u32_at 44 input = minutes.
Proof. destruct Hr. unfold u32_max in *. unfold input. u32_field. Qed.
Lemma prefix_expiration : u32_at 48 input = REQUEST_EXPIRATION_SECONDS.
Proof. rewrite <- (request_expiration r Hr). destruct Hr. unfold input, REQUEST_EXPIRATION_SECONDS in *. u32_field. Qed.
Lemma prefix_message_id : u32_at 52 input = sr_next_message_id r.
Proof. destruct Hr. unfold u32_max in *. unfold input. u32_field. Qed.
Lemma prefix_rest : zlen rest = MAX_REQUEST_MAPPING_AREA →
  zlen input = SHORT_REQUEST_PLAINTEXT_SIZE ∧ slice REQUEST_FIXED_PREFIX_LEN SHORT_REQUEST_PLAINTEXT_SIZE input = rest.
Proof.
  intros Hl. pose proof (zlen_request_prefix r minutes Hr) as Hp. unfold input. split.
  - rewrite zlen_app, Hp, Hl. done.
  - apply slice_app_end; [done|]. rewrite Hl. done.
Qed.
End prefix_fields.

Lemma request_decode_bytes r padding : request_ok r → sr_request_time r / 1000 ≤ u32_max →
  zlen padding = SHORT_REQUEST_PLAINTEXT_SIZE - (REQUEST_FIXED_PREFIX_LEN + zlen (mapping_bytes (bo_mapping (sr_options r)))) →
  request_decode (request_prefix r (sr_request_time r / 1000 / 60) ++ mapping_bytes (bo_mapping (sr_options r)) ++ padding)
  = Ok (floor_request r).
Proof.
  intros Hr Ht Hp. set (rest := mapping_bytes _ ++ padding).
  assert (0 ≤ sr_request_time r / 1000 / 60 ≤ 2 ^ 32 - 1) as H9.
  { pose proof (request_time_ok r Hr). unfold u32_max in Ht.
    pose proof (Z.div_pos (sr_request_time r) 1000). pose proof (Z.div_pos (sr_request_time r / 1000) 60).
    pose proof (Z.div_le_upper_bound (sr_request_time r / 1000) 60 (2 ^ 32 - 1)). lia. }
  destruct (prefix_rest r (sr_request_time r / 1000 / 60) rest Hr) as [Hl Hm].
  { unfold rest. rewrite zlen_app, Hp. unfold SHORT_REQUEST_PLAINTEXT_SIZE, REQUEST_FIXED_PREFIX_LEN, MAX_REQUEST_MAPPING_AREA. lia. }
  pose proof (prefix_flag r (sr_request_time r / 1000 / 60) rest Hr) as Hf.
  unfold request_decode. rewrite Hl, Hm, prefix_receive, prefix_next, prefix_router, prefix_minutes, prefix_expiration, prefix_message_id by done.
  assert (Hf0 := Hf 0%nat). assert (Hf1 := Hf 1%nat). assert (Hf2 := Hf 2%nat). assert (Hf3 := Hf 3%nat).
  cbn [Nat.add nth] in Hf0, Hf1, Hf2, Hf3. rewrite Hf0, Hf1, Hf2, Hf3 by lia. cbn [negb Z.eqb orb].
  destruct Hr as [H1 H2 H3 H4 H5 H6 H7 H8].
  destruct (_ =? 0) eqn:E1; breflect; [lia|]. destruct (_ =? 0) eqn:E2; breflect; [lia|].
  rewrite role_from_flag_flag. cbn [mbind result_bind]. destruct (sr_layer_encryption_type r) eqn:Hlayer. cbn [layer_byte layer_from_byte Z.eqb mbind result_bind].
  rewrite !Z.eqb_refl. cbn [negb]. change (REQUEST_EXPIRATION_SECONDS =? 0) with false. cbv iota.
  destruct (_ =? 0) eqn:E3; breflect; [lia|].
  assert ((zlen rest <? 2) = false) as ->.
  { apply Z.ltb_ge. unfold rest. rewrite zlen_app, mapping_bytes_len. pose proof (zlen_nonneg padding).
    pose proof (zlen_nonneg (body_of (entries (bo_mapping (sr_options r))))). lia. }
  unfold rest. rewrite read_mapping_padded by done. cbn [mbind result_bind]. rewrite options_from_mapping_ok by done. cbn [mbind result_bind].
  unfold floor_request. rewrite H5, Hlayer. do 2 f_equal; [|by destruct (sr_options r)].
  unfold saturating_mul, u64_max, floor_minute. rewrite !Z.div_div by lia. rewrite !Z.div_div in H9 by lia. change (1000 * 60) with 60000 in *. lia.
Qed.

Lemma pair_Ok_inj {S E A} (s s' : S) (a a' : A) : (s, @Ok E A a) = (s', Ok a') → s = s' ∧ a = a'.
Proof. by intros [= -> ->]. Qed.

(** ** A random generator that fills what it is asked *)
Definition fills {Rng} (try_fill_bytes : Rng → Z → Rng * option bytes) : Prop :=
  ∀ rng len rng' buf, 0 ≤ len → try_fill_bytes rng len = (rng', Some buf) → zlen buf = len ∧ bytes_ok buf.

(** Some request to the generator fails. *)
Definition generator_fails {Rng} (try_fill_bytes : Rng → Z → Rng * option bytes) : Prop := ∃ rng len, (try_fill_bytes rng len).2 = None.

Section round_trip.
Context {Rng : Type} (try_fill_bytes : Rng → Z → Rng * option bytes) (Hfill : fills try_fill_bytes).

Lemma fill_Ok {E} (e : E) len rng rng' buf :
  fill try_fill_bytes e len rng = (rng', Ok buf) ↔ try_fill_bytes rng len = (rng', Some buf).
Proof. unfold fill. destruct (try_fill_bytes rng len) as [r [b|]]; naive_solver. Qed.

(** A request is encoded exactly when its time fits the minute field and the
    generator delivers; it is read back with its time floored to the minute. *)
Lemma request_encode_Ok r rng rng' bs : request_ok r → request_encode_with_rng try_fill_bytes r rng = (rng', Ok bs) →
  zlen bs = SHORT_REQUEST_PLAINTEXT_SIZE ∧ request_decode bs = Ok (floor_request r).
Proof.
  intros Hr. unfold request_encode_with_rng, request_time_minutes. cbv zeta. unfold lift. unfold mbind, M_bind; cbv beta iota.
  destruct (_ >? u32_max) eqn:Et; [done|]. breflect.
  destruct (mapping_encode _ _) as [eo|] eqn:Eo; [|done]. apply mapping_encode_inv in Eo as [-> Ho]; [|apply Hr|done].
  cbn [map_err]. unfold mbind, M_bind; cbv beta iota. destruct (_ >? MAX_REQUEST_MAPPING_AREA) eqn:El; [done|]. unfold mbind, M_bind; cbv beta iota.
  destruct (fill _ _ _ _) as [rng1 [padding|]] eqn:Ef; [|done]. apply fill_Ok, Hfill in Ef as [Hp _];
    [|unfold SHORT_REQUEST_PLAINTEXT_SIZE, REQUEST_FIXED_PREFIX_LEN, MAX_REQUEST_MAPPING_AREA in *; lia].
  intros [_ <-]%pair_Ok_inj. split; [|by apply request_decode_bytes].
  rewrite !zlen_app, zlen_request_prefix, Hp by done. lia.
Qed.

Record reply_ok (r : ShortReplyRecord) : Prop := {
  reply_options : mapping_ok (bo_mapping (sp_options r));
  reply_options_fit : zlen (body_of (entries (bo_mapping (sp_options r)))) ≤ MAX_REPLY_MAPPING_BODY;
}.

Lemma reply_decode_bytes r padding : reply_ok r →
  zlen padding = SHORT_REPLY_PLAINTEXT_SIZE - 1 - zlen (mapping_bytes (bo_mapping (sp_options r))) →
  reply_decode (mapping_bytes (bo_mapping (sp_options r)) ++ padding ++ [response_byte (sp_response r)])
  = options ← options_from_mapping (bo_mapping (sp_options r)); Ok (mkReply options (sp_response r)).
Proof.
  intros [Hm Hf] Hp. unfold reply_decode. set (area := mapping_bytes (bo_mapping (sp_options r)) ++ padding). rewrite app_assoc. fold area.
  assert (Ha : zlen area = SHORT_REPLY_PLAINTEXT_SIZE - 1) by (unfold area; rewrite zlen_app, Hp; lia).
  rewrite zlen_app, Ha, zlen_one. rewrite slice_app_start by done. rewrite Ha.
  unfold byte_at. rewrite app_nth2 by (unfold zlen in Ha; lia).
  replace (_ - _)%nat with 0%nat by (unfold zlen in Ha; lia). cbn [nth]. rewrite response_from_byte_byte.
  change (negb _) with false. cbv iota. cbn [mbind result_bind]. change (_ <? 2) with false. cbv iota.
  unfold area. by rewrite read_mapping_padded.
Qed.

(** A reply is read back exactly when its options fit a request. *)
Lemma reply_encode_Ok r rng rng' bs : reply_ok r → reply_encode_with_rng try_fill_bytes r rng = (rng', Ok bs) →
  zlen bs = SHORT_REPLY_PLAINTEXT_SIZE ∧
  reply_decode bs = (if zlen (body_of (entries (bo_mapping (sp_options r)))) <=? MAX_REQUEST_MAPPING_BODY then Ok r
                     else Err (SbOptionsLength (zlen (body_of (entries (bo_mapping (sp_options r))))))).
Proof.
  intros Hr. unfold reply_encode_with_rng, lift. unfold mbind, M_bind; cbv beta iota.
  destruct (mapping_encode _ _) as [eo|] eqn:Eo; [|done]. apply mapping_encode_inv in Eo as [-> Ho]; [|apply Hr|done].
  cbn [map_err]. unfold mbind, M_bind; cbv beta iota. destruct (_ >? SHORT_REPLY_PLAINTEXT_SIZE - 1) eqn:El; [done|]. breflect. unfold mbind, M_bind; cbv beta iota.
  destruct (fill _ _ _ _) as [rng1 [padding|]] eqn:Ef; [|done]. apply fill_Ok, Hfill in Ef as [Hp _]; [|lia].
  intros [_ <-]%pair_Ok_inj. split; [rewrite !zlen_app, Hp, zlen_one; lia|].
  rewrite reply_decode_bytes by done. unfold options_from_mapping.
  rewrite (proj2 (encoded_body_len_exact (bo_mapping (sp_options r)) _)) by (split; [done|apply Hr]).
  cbn. destruct (_ >? _) eqn:E1, (_ <=? _) eqn:E2; breflect; try lia; [done|]. destruct r as [[m] c]. done.
Qed.

(** Encoding fails only for the time, the options or the generator. *)
Lemma request_encode_total r rng : request_ok r → sr_request_time r / 1000 ≤ u32_max →
  (∃ rng' bs, request_encode_with_rng try_fill_bytes r rng = (rng', Ok bs)) ∨
  (∃ rng', request_encode_with_rng try_fill_bytes r rng = (rng', Err SbRandomnessUnavailable) ∧ generator_fails try_fill_bytes).
Proof.
  intros Hr Ht. unfold request_encode_with_rng, request_time_minutes, lift. cbv zeta. unfold mbind, M_bind; cbv beta iota.
  destruct (_ >? u32_max) eqn:Et; breflect; [lia|]. destruct Hr as [_ _ _ _ _ _ Hm Hf].
  unfold mapping_encode. rewrite (encode_to_vec_writes _ _ _ (mapping_writes _ Hm)).
  2:{ rewrite mapping_bytes_len. unfold MAX_REQUEST_MAPPING_BODY in Hf. lia. } 2:done.
  cbn [map_err]. unfold mbind, M_bind; cbv beta iota. destruct (_ >? MAX_REQUEST_MAPPING_AREA) eqn:El; breflect.
  { rewrite mapping_bytes_len in El. unfold MAX_REQUEST_MAPPING_BODY in Hf. lia. }
  unfold mbind, M_bind; cbv beta iota. unfold fill. destruct (try_fill_bytes _ _) as [rng1 [b|]] eqn:Ef; [eauto|].
  right. exists rng1. split; [done|]. by eexists _, _; rewrite Ef.
Qed.
End round_trip.

(** The zero-padded request is the random one of a generator of zeros. *)
Lemma request_zero_padded r : request_encode_with_rng (λ _ len, (tt, Some (replicate (Z.to_nat len) 0))) r tt = (tt, request_encode_zero_padded r).
Proof.
  unfold request_encode_with_rng, request_encode_zero_padded, lift, mbind, M_bind, result_bind.
  destruct (request_time_minutes r); [|done]. destruct (mapping_encode _ _) as [eo|]; [|done]. cbn [map_err]. by destruct (_ >? _).
Qed.

(** A plaintext of a request or a reply is recognised by its size. *)
Lemma classify_request r bs : request_ok r → request_encode_zero_padded r = Ok bs → classify_plaintext_kind bs = Ok false.
Proof.
  intros Hr He. pose proof (request_zero_padded r) as Hz. rewrite He in Hz.
  apply (request_encode_Ok _) in Hz as [Hl _]; [|intros ? len ? ? H0 [= _ <-]; split; [unfold zlen; rewrite length_replicate; lia|by apply Forall_replicate]|done].
  unfold classify_plaintext_kind. by rewrite Hl, Z.eqb_refl.
Qed.
