(* ===== verification/BuildCrypto.v ===== *)
(** * Cryptography of tunnel builds

    Models [i2pr-tunnel/src/build_crypto.rs] and [i2pr-crypto/src/hkdf.rs]: key
    derivation, the Noise-N transcript of a request, the sealed request and reply
    records, and the keys a hop and the creator derive from the transcript.
    SHA-256, HMAC and ChaCha20-Poly1305 are the primitives of [Ntcp2Crypto], X25519
    is the one of [Ntcp2Machine], the random generator is the one of [BuildRecord]. *)
From S2P Require Import Prelude Codec Common Mapping I2np Tunnel BuildRecord Ntcp2Crypto Ntcp2Machine.

(** ** HKDF *)
Definition MAX_HKDF_OUTPUT_LEN : Z := 255 * 32.
Inductive HkdfError := OutputLengthExceeded (requested maximum : Z) | InvalidKeyLength.

Section hkdf.
Context `{P : Ntcp2Primitives}.

Definition hkdf_extract (salt ikm : bytes) : result HkdfError bytes := ok_or InvalidKeyLength (hmac salt ikm).

(** The counter is [256 - left]. *)
Fixpoint hkdf_expand_loop (left : nat) (prk info : bytes) (output_len : Z) (previous : option bytes) (output : bytes)
    : result HkdfError bytes :=
  if zlen output <? output_len then
    match left with
    | O => Err (OutputLengthExceeded output_len MAX_HKDF_OUTPUT_LEN)
    | S left' =>
        let counter := 256 - Z.of_nat left in
        block ← ok_or InvalidKeyLength (hmac prk (default [] previous ++ info ++ [counter]));
        match checked_add u8_max counter 1 with
        | Some _ => hkdf_expand_loop left' prk info output_len (Some block) (output ++ block)
        | None => Err (OutputLengthExceeded output_len MAX_HKDF_OUTPUT_LEN)
        end
    end
  else Ok (slice 0 output_len output).
Definition hkdf_expand (prk info : bytes) (output_len : Z) : result HkdfError bytes :=
  hkdf_expand_loop 255 prk info output_len None [].

Definition hkdf_sha256_extract_and_expand (salt ikm info : bytes) (output_len : Z) : result HkdfError bytes :=
  if output_len >? MAX_HKDF_OUTPUT_LEN then Err (OutputLengthExceeded output_len MAX_HKDF_OUTPUT_LEN)
  else
  prk ← hkdf_extract salt ikm;
  hkdf_expand prk info output_len.

(** RFC 5869: [T(0)] is empty, [T(n) = HMAC(prk, T(n-1) | info | n)]. *)
Fixpoint hkdf_block (prk info : bytes) (n : nat) : bytes :=
  match n with
  | O => []
  | S n' => default [] (hmac prk (hkdf_block prk info n' ++ info ++ [Z.of_nat n]))
  end.
Definition hkdf_blocks (prk info : bytes) (n : nat) : bytes := concat (hkdf_block prk info <$> seq 1 n).
End hkdf.

(** ** Records and keys *)
Definition EPHEMERAL_KEY_LEN : Z := 32.
Definition AEAD_KEY_LEN : Z := 32.
Definition AEAD_NONCE_LEN : Z := 12.
Definition TAG_LEN : Z := 16.
Definition HASH_PREFIX_LEN : Z := 16.
Definition RECORD_SLOT_NONCE_OFFSET : nat := 4.
Definition GARLIC_REPLY_TAG_LEN : Z := 8.
Definition NOISE_PROTOCOL_NAME : bytes :=
  [78; 111; 105; 115; 101; 95; 78; 95; 50; 53; 53; 49; 57; 95; 67; 104; 97; 67; 104; 97;
   80; 111; 108; 121; 95; 83; 72; 65; 50; 53; 54].

Inductive BuildCryptographyError :=
  | BcUnavailable
  | BcUnsupportedLayout (layout : string)
  | BcPlaintextLength (actual expected : Z)
  | BcRecordLength (actual expected : Z)
  | BcInvalidDhResult
  | BcAuthenticationFailed
  | BcEncryptionFailed
  | BcHkdfError (error : HkdfError)
  | BcInvalidPeerKey
  | BcInvalidRecordSlot (value : Z)
  | BcHashPrefixMismatch
  | BcReplyAuthenticationFailed
  | BcAllZeroEphemeral
  | BcRandomnessUnavailable
  | BcRecord (error : ShortBuildError).

(** A validated slot is a number in [0..=7]. *)
Definition record_slot (value : Z) : result BuildCryptographyError Z :=
  if value >? 7 then Err (BcInvalidRecordSlot value) else Ok value.
Definition slot_nonce (slot : Z) : bytes :=
  <[RECORD_SLOT_NONCE_OFFSET := slot]> (replicate (Z.to_nat AEAD_NONCE_LEN) 0).

Record NoiseRequestState := mkNoise { ns_ck : bytes; ns_h : bytes }.
Definition layer_keys_new_obep (reply_key layer_key iv_key garlic_reply_key garlic_reply_tag : bytes) : LayerKeys :=
  mkLayerKeys reply_key layer_key iv_key (Some garlic_reply_key) (Some garlic_reply_tag).

Definition LABEL_REPLY : bytes := [83; 77; 84; 117; 110; 110; 101; 108; 82; 101; 112; 108; 121; 75; 101; 121].
Definition LABEL_LAYER : bytes := [83; 77; 84; 117; 110; 110; 101; 108; 76; 97; 121; 101; 114; 75; 101; 121].
Definition LABEL_IV : bytes := [84; 117; 110; 110; 101; 108; 76; 97; 121; 101; 114; 73; 86; 75; 101; 121].
Definition LABEL_GARLIC : bytes := [82; 71; 97; 114; 108; 105; 99; 75; 101; 121; 65; 110; 100; 84; 97; 103].

Definition all_zero (key : bytes) : bool := forallb (λ b, b =? 0) key.

Record SealedShortRequest := mkSealed { sealed_record : bytes; sealed_ephemeral_pub : bytes; sealed_state : NoiseRequestState }.
Record OpenedShortRequest := mkOpened { opened_plaintext : bytes; opened_state : NoiseRequestState }.

Section build_crypto.
Context `{P : Ntcp2Primitives} `{X : X25519}.

Definition noise_init_h0 : bytes := NOISE_PROTOCOL_NAME ++ replicate (32 - length NOISE_PROTOCOL_NAME) 0.
Definition new_for_short_build : NoiseRequestState := mkNoise noise_init_h0 (sha256 noise_init_h0).
Definition noise_mix_hash (data : bytes) (s : NoiseRequestState) : NoiseRequestState :=
  mkNoise (ns_ck s) (sha256 (ns_h s ++ data)).
(** 64 derived bytes, checked as the code checks them. *)
Definition derive_64 (ck input info : bytes) : result BuildCryptographyError bytes :=
  keydata ← map_err BcHkdfError (hkdf_sha256_extract_and_expand ck input info 64);
  if negb (zlen keydata =? 64) then Err (BcHkdfError (OutputLengthExceeded (zlen keydata) 8160)) else Ok keydata.
Definition mix_key_derive (ck input : bytes) : result BuildCryptographyError bytes := derive_64 ck input [].
(** The new state and the AEAD key of the next payload. *)
Definition noise_mix_key (shared : bytes) (s : NoiseRequestState) : result BuildCryptographyError (NoiseRequestState * bytes) :=
  keydata ← mix_key_derive (ns_ck s) shared;
  Ok (mkNoise (slice 0 32 keydata) (ns_h s), slice 32 64 keydata).

Definition validate_peer_key (key : bytes) : result BuildCryptographyError () :=
  if all_zero key then Err BcInvalidPeerKey else Ok ().
Definition ephemeral_public (priv : bytes) : bytes := x25519_public priv.
Definition compute_dh (priv peer_pub : bytes) : result BuildCryptographyError bytes :=
  if all_zero peer_pub then Err BcInvalidDhResult
  else let shared := x25519 priv peer_pub in
  if all_zero shared then Err BcInvalidDhResult else Ok shared.

Definition zero_nonce : bytes := replicate (Z.to_nat AEAD_NONCE_LEN) 0.

Definition seal_short_request_with_ephemeral (plaintext peer_static_key hop_identity_hash ephemeral_priv : bytes)
    : result BuildCryptographyError SealedShortRequest :=
  _ ← validate_peer_key peer_static_key;
  let state := noise_mix_hash peer_static_key new_for_short_build in
  let ephemeral_pub := ephemeral_public ephemeral_priv in
  let state := noise_mix_hash ephemeral_pub state in
  shared ← compute_dh ephemeral_priv peer_static_key;
  '(state, aead_key) ← noise_mix_key shared state;
  ciphertext ← ok_or BcEncryptionFailed (aead_encrypt aead_key zero_nonce (ns_h state) plaintext);
  if negb (zlen ciphertext =? SHORT_REQUEST_PLAINTEXT_SIZE + TAG_LEN) then Err BcEncryptionFailed
  else
  let state := noise_mix_hash ciphertext state in
  Ok (mkSealed (slice 0 HASH_PREFIX_LEN hop_identity_hash ++ ephemeral_pub ++ ciphertext) ephemeral_pub state).

Definition open_short_request (record peer_static_priv hop_identity_hash : bytes)
    : result BuildCryptographyError OpenedShortRequest :=
  if negb (zlen record =? SHORT_BUILD_RECORD_SIZE) then Err (BcRecordLength (zlen record) SHORT_BUILD_RECORD_SIZE)
  else if negb (bool_decide (slice 0 HASH_PREFIX_LEN record = slice 0 HASH_PREFIX_LEN hop_identity_hash)) then Err BcHashPrefixMismatch
  else
  let ephemeral_pub := slice HASH_PREFIX_LEN (HASH_PREFIX_LEN + EPHEMERAL_KEY_LEN) record in
  if all_zero ephemeral_pub then Err BcAllZeroEphemeral
  else
  let ciphertext := slice (HASH_PREFIX_LEN + EPHEMERAL_KEY_LEN) (zlen record) record in
  let state := noise_mix_hash (ephemeral_public peer_static_priv) new_for_short_build in
  let state := noise_mix_hash ephemeral_pub state in
  shared ← compute_dh peer_static_priv ephemeral_pub;
  '(state, aead_key) ← noise_mix_key shared state;
  plaintext ← ok_or BcAuthenticationFailed (aead_decrypt aead_key zero_nonce (ns_h state) ciphertext);
  if negb (zlen plaintext =? SHORT_REQUEST_PLAINTEXT_SIZE)
  then Err (BcPlaintextLength (zlen plaintext) SHORT_REQUEST_PLAINTEXT_SIZE)
  else Ok (mkOpened plaintext (noise_mix_hash ciphertext state)).

Definition seal_short_reply (plaintext : bytes) (layer_keys : LayerKeys) (request_hash : bytes) (slot : Z)
    : result BuildCryptographyError bytes :=
  ciphertext ← ok_or BcEncryptionFailed (aead_encrypt (reply_key layer_keys) (slot_nonce slot) request_hash plaintext);
  if negb (zlen ciphertext =? SHORT_REPLY_PLAINTEXT_SIZE + TAG_LEN) then Err BcEncryptionFailed else Ok ciphertext.

Definition open_short_reply (record : bytes) (layer_keys : LayerKeys) (request_hash : bytes) (slot : Z)
    : result BuildCryptographyError bytes :=
  if negb (zlen record =? SHORT_BUILD_RECORD_SIZE) then Err (BcRecordLength (zlen record) SHORT_BUILD_RECORD_SIZE)
  else
  plaintext ← ok_or BcReplyAuthenticationFailed
    (aead_decrypt (reply_key layer_keys) (slot_nonce slot) request_hash (slice 0 (SHORT_REPLY_PLAINTEXT_SIZE + TAG_LEN) record));
  if negb (zlen plaintext =? SHORT_REPLY_PLAINTEXT_SIZE)
  then Err (BcPlaintextLength (zlen plaintext) SHORT_REPLY_PLAINTEXT_SIZE)
  else Ok plaintext.

Definition derive_layer_keys (s : NoiseRequestState) (is_outbound_endpoint : bool) : result BuildCryptographyError LayerKeys :=
  reply_keydata ← derive_64 (ns_ck s) [] LABEL_REPLY;
  let ck := slice 0 32 reply_keydata in
  let reply_key := slice 32 64 reply_keydata in
  layer_keydata ← derive_64 ck [] LABEL_LAYER;
  let layer_key := slice 32 64 layer_keydata in
  if negb is_outbound_endpoint then Ok (layer_keys_new reply_key layer_key (slice 0 32 layer_keydata))
  else
  let ck := slice 0 32 layer_keydata in
  iv_keydata ← derive_64 ck [] LABEL_IV;
  let ck := slice 0 32 iv_keydata in
  let iv_key := slice 32 64 iv_keydata in
  garlic_keydata ← derive_64 ck [] LABEL_GARLIC;
  Ok (layer_keys_new_obep reply_key layer_key iv_key (slice 32 64 garlic_keydata) (slice 0 GARLIC_REPLY_TAG_LEN garlic_keydata)).

(** With a random ephemeral key. *)
Section random.
Context {Rng : Type} (try_fill_bytes : Rng → Z → Rng * option bytes).
Definition seal_short_request (plaintext peer_static_key hop_identity_hash : bytes) : M Rng BuildCryptographyError SealedShortRequest :=
  _ ← lift (validate_peer_key peer_static_key);
  ephemeral_priv ← fill try_fill_bytes BcRandomnessUnavailable EPHEMERAL_KEY_LEN;
  lift (seal_short_request_with_ephemeral plaintext peer_static_key hop_identity_hash ephemeral_priv).
End random.
End build_crypto.

(** ** HKDF computes RFC 5869, up to 254 blocks *)
Section hkdf_facts.
Context `{P : Ntcp2Primitives} `{L : !Ntcp2Laws P} (prk info : bytes).

Lemma hkdf_block_len n : (0 < n)%nat → zlen (hkdf_block prk info n) = 32.
Proof.
  intros Hn. destruct n as [|n]; [lia|]. cbn [hkdf_block].
  destruct (hmac_total prk (hkdf_block prk info n ++ info ++ [Z.of_nat (S n)])) as (mac & -> & Hl). done.
Qed.

Lemma hkdf_blocks_S n : hkdf_blocks prk info (S n) = hkdf_blocks prk info n ++ hkdf_block prk info (S n).
Proof. unfold hkdf_blocks. rewrite seq_S, fmap_app, concat_app. cbn. by rewrite app_nil_r. Qed.

Lemma zlen_hkdf_blocks n : zlen (hkdf_blocks prk info n) = 32 * Z.of_nat n.
Proof.
  induction n as [|n IH]; [done|]. rewrite hkdf_blocks_S, zlen_app, IH, hkdf_block_len; lia.
Qed.

Definition hkdf_previous (k : nat) : option bytes := if bool_decide (k = 0%nat) then None else Some (hkdf_block prk info k).
Lemma hkdf_previous_default k : default [] (hkdf_previous k) = hkdf_block prk info k.
Proof. unfold hkdf_previous. case_bool_decide; [by subst|done]. Qed.

Lemma hkdf_step k len : (k ≤ 254)%nat → 32 * Z.of_nat k < len →
  hkdf_expand_loop (255 - k) prk info len (hkdf_previous k) (hkdf_blocks prk info k) =
  if bool_decide (k = 254%nat) then Err (OutputLengthExceeded len MAX_HKDF_OUTPUT_LEN)
  else hkdf_expand_loop (255 - S k) prk info len (hkdf_previous (S k)) (hkdf_blocks prk info (S k)).
Proof.
  intros Hk Hlen. replace (255 - k)%nat with (S (254 - k)) by lia. cbn [hkdf_expand_loop].
  rewrite zlen_hkdf_blocks. destruct (_ <? _) eqn:E; breflect; [|lia].
  rewrite hkdf_previous_default. replace (256 - Z.of_nat (S (254 - k))) with (Z.of_nat (S k)) by lia.
  destruct (hmac_total prk (hkdf_block prk info k ++ info ++ [Z.of_nat (S k)])) as (mac & Hm & _).
  rewrite Hm. cbn [ok_or mbind result_bind].
  assert (Hb : hkdf_block prk info (S k) = mac) by (cbn [hkdf_block]; by rewrite Hm).
  destruct (checked_add _ _ _) eqn:Ec; case_bool_decide as Hk'.
  - apply checked_add_Some in Ec. unfold u8_max in Ec. lia.
  - rewrite hkdf_blocks_S, Hb. unfold hkdf_previous. rewrite bool_decide_false by lia. by rewrite Hb.
  - done.
  - apply checked_add_None in Ec. unfold u8_max in Ec. lia.
Qed.

Lemma hkdf_run len n d k : (k + d = n)%nat → (n ≤ 254)%nat → 32 * (Z.of_nat n - 1) < len ≤ 32 * Z.of_nat n →
  hkdf_expand_loop (255 - k) prk info len (hkdf_previous k) (hkdf_blocks prk info k) = Ok (slice 0 len (hkdf_blocks prk info n)).
Proof.
  revert k. induction d as [|d IH]; intros k Hk Hn Hlen.
  - replace k with n by lia. destruct (255 - n)%nat eqn:E; [lia|]. cbn [hkdf_expand_loop].
    rewrite zlen_hkdf_blocks. by destruct (_ <? _) eqn:E2; breflect; [lia|].
  - rewrite hkdf_step by lia. rewrite bool_decide_false by lia. apply IH; lia.
Qed.

Lemma hkdf_overrun len d k : (k + d = 254)%nat → 32 * 254 < len →
  hkdf_expand_loop (255 - k) prk info len (hkdf_previous k) (hkdf_blocks prk info k) = Err (OutputLengthExceeded len MAX_HKDF_OUTPUT_LEN).
Proof.
  revert k. induction d as [|d IH]; intros k Hk Hlen; rewrite hkdf_step by lia; [by rewrite bool_decide_true by lia|].
  rewrite bool_decide_false by lia. apply IH; lia.
Qed.

Lemma hkdf_expand_result len : 0 ≤ len →
  hkdf_expand prk info len =
  if len <=? 32 * 254 then Ok (slice 0 len (hkdf_blocks prk info (Z.to_nat ((len + 31) / 32))))
  else Err (OutputLengthExceeded len MAX_HKDF_OUTPUT_LEN).
Proof.
  intros H0. pose proof (Z.div_mod (len + 31) 32). pose proof (Z.mod_pos_bound (len + 31) 32).
  pose proof (Z.div_pos (len + 31) 32).
  unfold hkdf_expand. change (hkdf_expand_loop 255 _ _ _ None []) with
    (hkdf_expand_loop (255 - 0) prk info len (hkdf_previous 0) (hkdf_blocks prk info 0)).
  destruct (_ <=? _) eqn:E; breflect.
  - apply (hkdf_run len _ (Z.to_nat ((len + 31) / 32))); lia.
  - apply (hkdf_overrun len 254); lia.
Qed.
End hkdf_facts.

(** ** What one side seals the other opens *)
(** Public keys and shared secrets of honest keys are not zero: a clamped scalar is
    a multiple of eight below eight times the order of the base point. *)
Class X25519Nonzero (X : X25519) : Prop := {
  x25519_public_nonzero k : all_zero (x25519_public k) = false;
  x25519_shared_nonzero a b : all_zero (x25519 a (x25519_public b)) = false;
}.

Section seal_open.
Context `{P : Ntcp2Primitives} `{L : !Ntcp2Laws P} `{X : X25519} `{LX : !X25519Laws X} `{ZX : !X25519Nonzero X}.

Lemma derive_64_Ok ck input info : ∃ keydata, derive_64 ck input info = Ok keydata ∧ zlen keydata = 64.
Proof.
  unfold derive_64, hkdf_sha256_extract_and_expand. change (64 >? MAX_HKDF_OUTPUT_LEN) with false. cbv iota.
  unfold hkdf_extract. destruct (hmac_total ck input) as (prk & -> & _). cbn [ok_or mbind result_bind].
  rewrite hkdf_expand_result by lia. change (64 <=? 32 * 254) with true. cbv iota. cbn [map_err mbind result_bind].
  assert (Hl : zlen (slice 0 64 (hkdf_blocks prk info (Z.to_nat ((64 + 31) / 32)))) = 64).
  { rewrite slice_length; [done|lia|]. rewrite zlen_hkdf_blocks. vm_compute. discriminate. }
  rewrite Hl. cbn [negb Z.eqb Pos.eqb]. eauto.
Qed.

Lemma derive_layer_keys_Ok s b : ∃ keys, derive_layer_keys s b = Ok keys.
Proof.
  unfold derive_layer_keys. destruct (derive_64_Ok (ns_ck s) [] LABEL_REPLY) as (k1 & -> & _). cbn [mbind result_bind].
  destruct (derive_64_Ok (slice 0 32 k1) [] LABEL_LAYER) as (k2 & -> & _). cbn [mbind result_bind].
  destruct b; cbn [negb]; [|eauto]. destruct (derive_64_Ok (slice 0 32 k2) [] LABEL_IV) as (k3 & -> & _). cbn [mbind result_bind].
  destruct (derive_64_Ok (slice 0 32 k3) [] LABEL_GARLIC) as (k4 & -> & _). eauto.
Qed.

(** A sealed request has the size of a record and names its hop. *)
Lemma seal_request_shape plaintext peer hash eph s : zlen hash = 32 →
  seal_short_request_with_ephemeral plaintext peer hash eph = Ok s →
  zlen (sealed_record s) = SHORT_BUILD_RECORD_SIZE ∧ slice 0 HASH_PREFIX_LEN (sealed_record s) = slice 0 HASH_PREFIX_LEN hash.
Proof.
  intros Hh. unfold seal_short_request_with_ephemeral. destruct (validate_peer_key peer); [|done]. cbn [mbind result_bind].
  destruct (compute_dh eph peer) as [shared|]; [|done]. cbn [mbind result_bind].
  destruct (noise_mix_key _ _) as [[st key]|]; [|done]. cbn [mbind result_bind].
  destruct (aead_encrypt _ _ _ _) as [ct|]; [|done]. cbn [ok_or mbind result_bind].
  destruct (negb _) eqn:E; [done|]. breflect. intros <-%Ok_inj. cbn [sealed_record].
  assert (Hp : zlen (slice 0 HASH_PREFIX_LEN hash) = 16) by (rewrite slice_length; rewrite ?Hh; unfold HASH_PREFIX_LEN; lia).
  split; [|by apply slice_app_start]. rewrite !zlen_app, Hp, E. unfold ephemeral_public. by rewrite x25519_public_length.
Qed.

Lemma open_sealed_request plaintext priv hash eph s :
  zlen plaintext = SHORT_REQUEST_PLAINTEXT_SIZE → zlen hash = 32 →
  seal_short_request_with_ephemeral plaintext (x25519_public priv) hash eph = Ok s →
  open_short_request (sealed_record s) priv hash = Ok (mkOpened plaintext (sealed_state s)).
Proof.
  intros Hl Hh Hs. destruct (seal_request_shape _ _ _ _ _ Hh Hs) as [H1 H2]. unfold open_short_request.
  rewrite H1, H2, bool_decide_true by done. cbn [negb]. rewrite Z.eqb_refl. cbn [negb].
  revert Hs. unfold seal_short_request_with_ephemeral. destruct (validate_peer_key _); [|done]. cbn [mbind result_bind].
  unfold compute_dh. rewrite !x25519_public_nonzero. cbv iota zeta. rewrite (x25519_agrees eph priv).
  destruct (all_zero (x25519 _ _)) eqn:Ez; [done|]. cbn [mbind result_bind]. unfold ephemeral_public.
  destruct (noise_mix_key _ _) as [[st key]|] eqn:Ek; [|done]. cbn [mbind result_bind].
  destruct (aead_correct key zero_nonce (ns_h st) plaintext) as (ct & He & Hc & Hd); [rewrite Hl; vm_compute; discriminate|].
  rewrite He. cbn [ok_or mbind result_bind]. destruct (negb _) eqn:E; [done|]. breflect. intros <-%Ok_inj. cbn [sealed_record sealed_state] in *.
  assert (Hp : zlen (slice 0 HASH_PREFIX_LEN hash) = 16) by (rewrite slice_length; rewrite ?Hh; unfold HASH_PREFIX_LEN; lia).
  rewrite (slice_app_eq HASH_PREFIX_LEN _ (slice 0 HASH_PREFIX_LEN hash) (x25519_public eph)) by (rewrite ?x25519_public_length; done).
  rewrite app_assoc. rewrite (slice_app_end (HASH_PREFIX_LEN + EPHEMERAL_KEY_LEN) SHORT_BUILD_RECORD_SIZE _ ct) by (rewrite ?zlen_app, ?Hp, ?x25519_public_length, ?E; done).
  rewrite x25519_public_nonzero. cbv iota. rewrite Ez. cbn [mbind result_bind]. rewrite Ek. cbn [mbind result_bind].
  rewrite Hd. cbn [ok_or mbind result_bind]. rewrite Hl. done.
Qed.

(** A request of the right size is always sealed for an honest key. *)
Lemma seal_request_total plaintext priv hash eph : zlen plaintext = SHORT_REQUEST_PLAINTEXT_SIZE →
  ∃ s, seal_short_request_with_ephemeral plaintext (x25519_public priv) hash eph = Ok s.
Proof.
  intros Hl. unfold seal_short_request_with_ephemeral, validate_peer_key, compute_dh.
  rewrite !x25519_public_nonzero, x25519_shared_nonzero. cbn [mbind result_bind]. unfold noise_mix_key at 1, mix_key_derive.
  match goal with |- context [derive_64 ?a ?b ?c] => destruct (derive_64_Ok a b c) as (kd & -> & _) end. cbn [mbind result_bind].
  match goal with |- context [aead_encrypt ?k ?n ?a plaintext] => destruct (aead_correct k n a plaintext) as (ct & -> & Hc & _) end;
    [rewrite Hl; vm_compute; discriminate|].
  cbn [ok_or mbind result_bind]. rewrite Hc, Hl. change (SHORT_REQUEST_PLAINTEXT_SIZE + AUTH_TAG_LENGTH) with (SHORT_REQUEST_PLAINTEXT_SIZE + TAG_LEN).
  rewrite Z.eqb_refl. cbn [negb]. eauto.
Qed.

Lemma open_sealed_reply plaintext keys hash slot : zlen plaintext = SHORT_REPLY_PLAINTEXT_SIZE →
  ∃ record, seal_short_reply plaintext keys hash slot = Ok record ∧ zlen record = SHORT_BUILD_RECORD_SIZE ∧
    open_short_reply record keys hash slot = Ok plaintext.
Proof.
  intros Hl. unfold seal_short_reply, open_short_reply.
  destruct (aead_correct (reply_key keys) (slot_nonce slot) hash plaintext) as (ct & He & Hc & Hd); [rewrite Hl; vm_compute; discriminate|].
  rewrite He. cbn [ok_or mbind result_bind]. rewrite Hl in Hc. unfold AUTH_TAG_LENGTH in Hc.
  assert (Hn : zlen ct = SHORT_BUILD_RECORD_SIZE) by (rewrite Hc; done).
  exists ct. change (SHORT_REPLY_PLAINTEXT_SIZE + TAG_LEN) with SHORT_BUILD_RECORD_SIZE. rewrite Hn, Z.eqb_refl. cbn [negb].
  split_and!; [done..|]. rewrite <- Hn, slice_full, Hd. cbn [ok_or mbind result_bind]. by rewrite Hl, Z.eqb_refl.
Qed.
End seal_open.

(** C15: key derivation is RFC 5869 up to 254 blocks.  The derived bytes are the
    first [len] bytes of the blocks [T(1), T(2), ...] of the RFC, each block the
    HMAC of the previous one, the label and its number.  Longer outputs are refused
    although the documented maximum is 255 blocks: the counter is increased past
    its last value before the loop can end, so 8129 to 8160 bytes are never derived. *)
Theorem hkdf_exact (P : Ntcp2Primitives) (HL : Ntcp2Laws P) salt ikm info len (Hlen : 0 ≤ len) :
  ∃ prk, hmac salt ikm = Some prk ∧
    hkdf_sha256_extract_and_expand salt ikm info len =
      if len <=? MAX_HKDF_OUTPUT_LEN - 32 then Ok (slice 0 len (hkdf_blocks prk info (Z.to_nat ((len + 31) / 32))))
      else Err (OutputLengthExceeded len MAX_HKDF_OUTPUT_LEN).
Proof.
  destruct (hmac_total salt ikm) as (prk & Hm & _). exists prk. split; [done|]. unfold hkdf_sha256_extract_and_expand, hkdf_extract.
  rewrite Hm. cbn [ok_or mbind result_bind]. rewrite hkdf_expand_result by done. change (MAX_HKDF_OUTPUT_LEN - 32) with (32 * 254).
  destruct (_ >? _) eqn:E1, (_ <=? _) eqn:E2; breflect; try done. unfold MAX_HKDF_OUTPUT_LEN in E1. lia.
Qed.

Lemma hkdf_exact_witness :
  ∃ prk, hmac (Ntcp2Primitives := toy_primitives) [1] [2] = Some prk ∧
    hkdf_sha256_extract_and_expand (P := toy_primitives) [1] [2] [3] 64 =
      Ok (slice 0 64 (hkdf_blocks (P := toy_primitives) prk [3] 2)).
Proof. exact (hkdf_exact toy_primitives toy_laws [1] [2] [3] 64 ltac:(lia)). Defined.
