(* ===== verification/TunnelBuild.v ===== *)
(** * Building a tunnel with one message

    Models [i2pr-tunnel/src/multirecord.rs]: the creator seals a request for every
    hop, places the records in random slots among fakes, and layers them with the
    reply keys of earlier hops; every hop opens its own record, replaces it by its
    sealed reply and transforms all others; the creator undoes the layers of the
    replies and opens them.  The raw ChaCha20 keystream is a parameter. *)
From stdpp Require Import sorting.
From S2P Require Import Prelude Codec Common Mapping I2np Tunnel BuildRecord Ntcp2Crypto Ntcp2Machine BuildCrypto.

Definition RECORD_BYTES : Z := SHORT_BUILD_RECORD_SIZE.
Definition MAX_RECORD_COUNT : Z := 8.
Definition MIN_PRODUCTION_RECORD_COUNT : Z := 4.
Definition CHACHA20_KEY_LEN : Z := AEAD_KEY_LEN.

Inductive RecordOwner := RealHop (hop_index : Z) | OriginatorFakeSlot | PaddingFake.
#[export] Instance RecordOwner_eq_dec : EqDecision RecordOwner.
Proof. solve_decision. Defined.
Definition owner_is_fake (o : RecordOwner) : bool := match o with RealHop _ => false | _ => true end.

Record ShortBuildRecordSet := mkRecordSet { rs_count : Z; rs_slots : list (option RecordOwner) }.

Inductive MultiRecordError :=
  | MrEmptyPath
  | MrHopCountExceedsMaximum (actual maximum : Z)
  | MrRecordCountExceedsMaximum (actual maximum : Z)
  | MrSlotExhausted
  | MrMissingOriginatorHash
  | MrRoleTopologyInvalid (reason : string)
  | MrRandomnessUnavailable
  | MrOriginatorFakeModified
  | MrOriginatorFakeLengthMismatch (actual expected : Z)
  | MrOriginatorFakeMissing
  | MrOriginatorFakeUnexpected
  | MrOriginatorFakeCountInvalid (actual : Z)
  | MrHopHashNotFound
  | MrDuplicateHopHash
  | MrHopRejected (code : Z)
  | MrCryptography (error : BuildCryptographyError)
  | MrShortRecord (error : ShortBuildError).

(** How a call can end without a result: an error value, a panic (an index out of
    range), or more rejected random draws than the bound of the model. *)
Inductive BuildStop := Failed (error : MultiRecordError) | Panicked | Diverged.
Definition or_panic {A} (o : option A) : result BuildStop A := ok_or Panicked o.
Definition cryptography {A} : result BuildCryptographyError A → result BuildStop A := map_err (λ e, Failed (MrCryptography e)).
Definition short_record {A} : result ShortBuildError A → result BuildStop A := map_err (λ e, Failed (MrShortRecord e)).

(** ** The record set *)
Definition slot_owner (s : ShortBuildRecordSet) (slot : Z) : option RecordOwner := mjoin (rs_slots s !! Z.to_nat slot).
Definition real_hop_at_slot (s : ShortBuildRecordSet) (slot : Z) : option Z :=
  match slot_owner s slot with Some (RealHop hop_index) => Some hop_index | _ => None end.
Definition slot_for_real_hop (s : ShortBuildRecordSet) (hop_index : Z) : option Z :=
  find (λ index, bool_decide (slot_owner s index = Some (RealHop hop_index))) (seqZ 0 (rs_count s)).
Definition real_hop_indices (s : ShortBuildRecordSet) : list Z :=
  omap (λ entry, match entry with Some (RealHop hop_index) => Some hop_index | _ => None end) (take (Z.to_nat (rs_count s)) (rs_slots s)).
Definition slot_assignments (s : ShortBuildRecordSet) : list (Z * RecordOwner) :=
  omap (λ index, pair index <$> slot_owner s index) (seqZ 0 (rs_count s)).
Definition is_originator_fake_slot (s : ShortBuildRecordSet) (slot : Z) : bool := bool_decide (slot_owner s slot = Some OriginatorFakeSlot).
Definition is_padding_fake_slot (s : ShortBuildRecordSet) (slot : Z) : bool := bool_decide (slot_owner s slot = Some PaddingFake).
Definition originator_fake_count (s : ShortBuildRecordSet) : Z :=
  zlen (filter (λ owner, owner = Some OriginatorFakeSlot) (take (Z.to_nat (rs_count s)) (rs_slots s))).
Definition is_complete (s : ShortBuildRecordSet) (real_hop_count : Z) : bool :=
  let assigned := fold_left (λ assigned entry,
    match entry with Some (RealHop _) => saturating_add u8_max assigned 1 | _ => assigned end)
    (take (Z.to_nat (rs_count s)) (rs_slots s)) 0 in
  assigned =? real_hop_count.

Definition build_minimum_record_count (real_hop_count : Z) (direction : TunnelDirection) : result MultiRecordError Z :=
  if real_hop_count =? 0 then Err MrEmptyPath
  else if real_hop_count >? MAX_RECORD_COUNT then Err (MrHopCountExceedsMaximum real_hop_count MAX_RECORD_COUNT)
  else
  let candidate :=
    match direction with
    | Outbound => if real_hop_count >=? MIN_PRODUCTION_RECORD_COUNT then real_hop_count else MIN_PRODUCTION_RECORD_COUNT
    | Inbound =>
        let with_originator := saturating_add u8_max real_hop_count 1 in
        if with_originator >=? MIN_PRODUCTION_RECORD_COUNT then with_originator else MIN_PRODUCTION_RECORD_COUNT
    end in
  let candidate := Z.max candidate MIN_PRODUCTION_RECORD_COUNT in
  if candidate >? MAX_RECORD_COUNT then Err (MrRecordCountExceedsMaximum candidate MAX_RECORD_COUNT) else Ok candidate.

(** [while mask < value]: the shift drops the top bit, so for a value above
    [2^31] the loop would not end; 33 rounds decide it. *)
Fixpoint mask_loop (fuel : nat) (mask value : Z) : option Z :=
  if mask <? value then
    match fuel with
    | O => None
    | S fuel' => mask_loop fuel' (Z.shiftl mask 1 mod 2 ^ 32) value
    end
  else Some mask.
Definition next_power_of_two_mask (value : Z) : option Z :=
  if value <=? 1 then Some 0 else (λ mask, (mask - 1) mod 2 ^ 32) <$> mask_loop 33 1 value.

(** ** Roles and routing *)
Definition validate_outbound_role (last index : Z) (role : HopRole) : result MultiRecordError () :=
  match role with
  | HopInboundGateway => Err (MrRoleTopologyInvalid "outbound path rejects inbound-gateway hop")
  | _ =>
      if index =? last then
        match role with
        | HopOutboundEndpoint => Ok ()
        | _ => Err (MrRoleTopologyInvalid "outbound path final hop must be OutboundEndpoint")
        end
      else
        match role with
        | HopParticipant => Ok ()
        | _ => Err (MrRoleTopologyInvalid "outbound non-final hop must be Participant")
        end
  end.
Definition validate_inbound_role (index : Z) (role : HopRole) : result MultiRecordError () :=
  match role with
  | HopOutboundEndpoint => Err (MrRoleTopologyInvalid "inbound path rejects outbound-endpoint hop")
  | _ =>
      if index =? 0 then
        match role with
        | HopInboundGateway => Ok ()
        | _ => Err (MrRoleTopologyInvalid "inbound path first hop must be InboundGateway")
        end
      else
        match role with
        | HopParticipant => Ok ()
        | _ => Err (MrRoleTopologyInvalid "inbound non-first hop must be Participant")
        end
  end.
Fixpoint validate_roles (validate : Z → HopRole → result MultiRecordError ()) (index : Z) (roles : list HopRole) : result MultiRecordError () :=
  match roles with
  | [] => Ok ()
  | role :: roles' => _ ← validate index role; validate_roles validate (index + 1) roles'
  end.
Definition validate_role_topology (direction : TunnelDirection) (roles : list HopRole) : result MultiRecordError () :=
  match roles with
  | [] => Err MrEmptyPath
  | _ =>
      match direction with
      | Outbound => validate_roles (validate_outbound_role (zlen roles - 1)) 0 roles
      | Inbound => validate_roles validate_inbound_role 0 roles
      end
  end.

Record MultiRecordHopSpec := mkHopSpec {
  hs_canonical_index : Z;
  hs_router_hash : bytes;
  hs_static_encryption_key : bytes;
  hs_role : HopRole;
  hs_receive_tunnel : Z;
  hs_next_tunnel : Z;
  hs_next_router_hash : bytes;
}.
Fixpoint validate_chain (path_hops : list MultiRecordHopSpec) : result MultiRecordError () :=
  match path_hops with
  | hop :: ((following :: _) as rest) =>
      if negb (hs_next_tunnel hop =? hs_receive_tunnel following)
      then Err (MrRoleTopologyInvalid "intermediate next tunnel id does not match following receive tunnel id")
      else validate_chain rest
  | _ => Ok ()
  end.
Definition validate_routing_chain (path_hops : list MultiRecordHopSpec) : result MultiRecordError () :=
  match path_hops with [] => Err MrEmptyPath | _ => validate_chain path_hops end.

(** ** Payloads: a count and that many records *)
Definition encode_count_prefixed_short_payload (count : Z) (slots : list bytes) : result MultiRecordError bytes :=
  if (count =? 0) || (count >? MAX_RECORD_COUNT) then Err (MrRecordCountExceedsMaximum count MAX_RECORD_COUNT)
  else if negb (zlen slots =? count) then Err MrSlotExhausted
  else Ok (count :: concat slots).
Definition encode_short_tunnel_build_payload (s : ShortBuildRecordSet) (slots : list bytes) : result MultiRecordError bytes :=
  let count := rs_count s in
  if count =? 0 then Err (MrRecordCountExceedsMaximum 0 MAX_RECORD_COUNT)
  else if count >? MAX_RECORD_COUNT then Err (MrRecordCountExceedsMaximum count MAX_RECORD_COUNT)
  else if negb (zlen slots =? count) then Err MrSlotExhausted
  else Ok (count :: concat slots).
Definition encode_outbound_tunnel_build_reply (count : Z) (records : list bytes) : result MultiRecordError bytes :=
  if count =? 0 then Err (MrRecordCountExceedsMaximum 0 MAX_RECORD_COUNT)
  else if count >? MAX_RECORD_COUNT then Err (MrRecordCountExceedsMaximum count MAX_RECORD_COUNT)
  else if negb (zlen records =? count) then Err MrSlotExhausted
  else Ok (count :: concat records).
Definition validate_count_prefixed_short_payload (payload : bytes) : result MultiRecordError (Z * list bytes) :=
  match payload with
  | [] => Err (MrRecordCountExceedsMaximum 0 MAX_RECORD_COUNT)
  | count :: _ =>
      if count =? 0 then Err (MrRecordCountExceedsMaximum 0 MAX_RECORD_COUNT)
      else if count >? MAX_RECORD_COUNT then Err (MrRecordCountExceedsMaximum count MAX_RECORD_COUNT)
      else if negb (zlen payload =? 1 + count * RECORD_BYTES) then Err (MrRecordCountExceedsMaximum count MAX_RECORD_COUNT)
      else Ok (count, (λ index, slice (1 + index * RECORD_BYTES) (1 + index * RECORD_BYTES + RECORD_BYTES) payload) <$> seqZ 0 count)
  end.
Definition decode_short_tunnel_build_payload (payload : bytes) : result MultiRecordError (Z * list bytes) :=
  validate_count_prefixed_short_payload payload.
Definition decode_outbound_tunnel_build_reply (payload : bytes) : result MultiRecordError (Z * list bytes) :=
  decode_short_tunnel_build_payload payload.

Record OriginatorFake := mkFake {
  of_hash_prefix : bytes;
  of_ephemeral_pub : bytes;
  of_wire : bytes;
  of_integrity_hash : bytes;
}.
Record PreparedHopContext := mkContext {
  pc_hop_index : Z;
  pc_own_record : bytes;
  pc_slot : Z;
  pc_state : NoiseRequestState;
  pc_layer_keys : LayerKeys;
  pc_role : HopRole;
}.
Record PreparedShortBuildMessage := mkPrepared {
  pm_record_set : ShortBuildRecordSet;
  pm_hop_contexts : list PreparedHopContext;
  pm_padding_fakes : list bytes;
  pm_originator_fake : option OriginatorFake;
  pm_payload : bytes;
  pm_direction : TunnelDirection;
  pm_first_hop : option bytes;
}.
Record ProcessedHopResult := mkHopResult {
  hr_hop_index : Z;
  hr_slot : Z;
  hr_plaintext : bytes;
  hr_response_code : ShortResponseCode;
  hr_is_obep : bool;
}.

(** ** The raw stream cipher *)
Class ChaCha20 := chacha20_keystream (key nonce : bytes) (position : Z) (len : nat) : bytes.
Class ChaCha20Laws (C : ChaCha20) : Prop := chacha20_keystream_length key nonce position len : length (chacha20_keystream key nonce position len) = len.

Section transform.
Context `{C : ChaCha20}.
Definition chacha20_xor (key : bytes) (slot : Z) (record : bytes) : bytes :=
  xor_bytes record (chacha20_keystream key (slot_nonce slot) 64 (length record)).
Definition chacha20_transform (reply_key : bytes) (slot : Z) (record : bytes) : bytes := chacha20_xor reply_key slot record.
(** [&mut slots[slot]] *)
Definition transform_at (reply_key : bytes) (slot : Z) (slots : list bytes) : result BuildStop (list bytes) :=
  record ← or_panic (slots !! Z.to_nat slot);
  Ok (<[Z.to_nat slot := chacha20_transform reply_key slot record]> slots).
Fixpoint transform_all (keys : list bytes) (slot : Z) (slots : list bytes) : result BuildStop (list bytes) :=
  match keys with
  | [] => Ok slots
  | key :: keys' => slots ← transform_at key slot slots; transform_all keys' slot slots
  end.

Definition reply_key_of (c : PreparedHopContext) : bytes := reply_key (pc_layer_keys c).
Fixpoint preprocess_loop (contexts todo : list PreparedHopContext) (slots : list bytes) : result BuildStop (list bytes) :=
  match todo with
  | [] => Ok slots
  | context :: todo' =>
      let prior := filter (λ other, pc_hop_index other < pc_hop_index context) contexts in
      slots ← transform_all (reply_key_of <$> prior) (pc_slot context) slots;
      preprocess_loop contexts todo' slots
  end.
Definition preprocess_creator_request (contexts : list PreparedHopContext) (slots : list bytes) : result BuildStop (list bytes) :=
  preprocess_loop contexts contexts slots.

Definition hop_index_le (a b : PreparedHopContext) : Prop := pc_hop_index a ≤ pc_hop_index b.
#[export] Instance hop_index_le_dec a b : Decision (hop_index_le a b).
Proof. unfold hop_index_le. apply _. Defined.

(** Undo, on every hop's record, the transforms of the later hops. *)
Fixpoint undo_transforms (ordered : list PreparedHopContext) (slots : list bytes) : result BuildStop (list bytes) :=
  match ordered with
  | [] => Ok slots
  | target :: later => slots ← transform_all (reply_key_of <$> later) (pc_slot target) slots; undo_transforms later slots
  end.
End transform.

Section build.
Context `{P : Ntcp2Primitives} `{X : X25519} `{C : ChaCha20}.
Context {Rng : Type} (next_u32 : Rng → Rng * Z) (try_fill_bytes : Rng → Z → Rng * option bytes) (attempts : nat).

Fixpoint pick_loop (fuel : nat) (bound mask : Z) (remaining : list Z) : M Rng BuildStop (Z * list Z) := λ rng,
  match fuel with
  | O => (rng, Err Diverged)
  | S fuel' =>
      let '(rng', r) := next_u32 rng in
      let truncated := Z.land r mask in
      if truncated <? bound then
        (rng', picked ← or_panic (remaining !! Z.to_nat truncated); Ok (picked, delete (Z.to_nat truncated) remaining))
      else pick_loop fuel' bound mask remaining rng'
  end.
Definition pick_uniform_index (remaining : list Z) : M Rng BuildStop (Z * list Z) :=
  match remaining with
  | [] => fail (Failed MrSlotExhausted)
  | _ =>
      let bound := zlen remaining in
      mask ← lift (ok_or Diverged (next_power_of_two_mask bound));
      pick_loop attempts bound mask remaining
  end.

(** [slot_owners[picked] = Some(owner)] *)
Definition set_owner (picked : Z) (owner : RecordOwner) (owners : list (option RecordOwner)) : result BuildStop (list (option RecordOwner)) :=
  _ ← or_panic (owners !! Z.to_nat picked);
  Ok (<[Z.to_nat picked := Some owner]> owners).
Fixpoint pick_owners (todo : list RecordOwner) (owners : list (option RecordOwner)) (remaining : list Z)
    : M Rng BuildStop (list (option RecordOwner)) :=
  match todo with
  | [] => mret owners
  | owner :: todo' =>
      '(picked, remaining) ← pick_uniform_index remaining;
      owners ← lift (set_owner picked owner owners);
      pick_owners todo' owners remaining
  end.
Definition pad_owner (owner : option RecordOwner) : option RecordOwner := Some (default PaddingFake owner).
Definition assign_record_slots (real_hop_count : Z) (direction : TunnelDirection) : M Rng BuildStop ShortBuildRecordSet :=
  total ← lift (map_err Failed (build_minimum_record_count real_hop_count direction));
  let todo := (if bool_decide (direction = Inbound) then [OriginatorFakeSlot] else []) ++ (RealHop <$> seqZ 0 real_hop_count) in
  owners ← pick_owners todo (replicate (Z.to_nat total) None) (seqZ 0 total);
  let owners := take 8 (pad_owner <$> owners) in
  mret (mkRecordSet total (owners ++ replicate (8 - length owners) None)).

Definition sha256_of (input : bytes) : bytes := sha256 input.
Definition build_originator_fake_record (originator_hash : bytes) : M Rng BuildStop OriginatorFake :=
  let hash_prefix := slice 0 HASH_PREFIX_LEN originator_hash in
  ephemeral_priv ← fill try_fill_bytes (Failed MrRandomnessUnavailable) EPHEMERAL_KEY_LEN;
  let ephemeral_pub := ephemeral_public ephemeral_priv in
  body ← fill try_fill_bytes (Failed MrRandomnessUnavailable) (RECORD_BYTES - (HASH_PREFIX_LEN + EPHEMERAL_KEY_LEN));
  let wire := hash_prefix ++ ephemeral_pub ++ body in
  mret (mkFake hash_prefix ephemeral_pub wire (sha256_of wire)).
Definition verify_originator_fake (fake : OriginatorFake) (wire_after_postprocess : bytes) : result MultiRecordError () :=
  if negb (zlen wire_after_postprocess =? RECORD_BYTES)
  then Err (MrOriginatorFakeLengthMismatch (zlen wire_after_postprocess) RECORD_BYTES)
  else if negb (bool_decide (sha256_of wire_after_postprocess = of_integrity_hash fake)) then Err MrOriginatorFakeModified
  else Ok ().
Definition build_padding_fake_record : M Rng BuildStop bytes := fill try_fill_bytes (Failed MrRandomnessUnavailable) RECORD_BYTES.

(** ** The creator's message *)
Definition build_hop_request_plaintext (hop : MultiRecordHopSpec) (request_time_ms next_message_id : Z) : M Rng BuildStop bytes :=
  record ← lift (short_record (request_try_new (hs_receive_tunnel hop) (hs_next_tunnel hop) (hs_next_router_hash hop) (hs_role hop)
    LayerAes request_time_ms REQUEST_EXPIRATION_SECONDS next_message_id options_empty));
  with_err (λ e, Failed (MrShortRecord e)) (request_encode_with_rng try_fill_bytes record).
Definition derive_layer_keys_for_hop (state : NoiseRequestState) (role : HopRole) : result BuildCryptographyError LayerKeys :=
  derive_layer_keys state (bool_decide (role = HopOutboundEndpoint)).

Definition prepare_hop (record_set : ShortBuildRecordSet) (request_time_ms next_message_id : Z) (hop : MultiRecordHopSpec)
    : M Rng BuildStop PreparedHopContext :=
  slot ← lift (ok_or (Failed MrSlotExhausted) (slot_for_real_hop record_set (hs_canonical_index hop)));
  plaintext ← build_hop_request_plaintext hop request_time_ms next_message_id;
  sealed ← with_err (λ e, Failed (MrCryptography e))
    (seal_short_request try_fill_bytes plaintext (hs_static_encryption_key hop) (hs_router_hash hop));
  layer_keys ← lift (cryptography (derive_layer_keys_for_hop (sealed_state sealed) (hs_role hop)));
  mret (mkContext (hs_canonical_index hop) (sealed_record sealed) slot (sealed_state sealed) layer_keys (hs_role hop)).
Fixpoint prepare_hops (record_set : ShortBuildRecordSet) (request_time_ms next_message_id : Z) (path_hops : list MultiRecordHopSpec)
    : M Rng BuildStop (list PreparedHopContext) :=
  match path_hops with
  | [] => mret []
  | hop :: rest =>
      context ← prepare_hop record_set request_time_ms next_message_id hop;
      contexts ← prepare_hops record_set request_time_ms next_message_id rest;
      mret (context :: contexts)
  end.

(** [slots[index] = record] *)
Definition set_slot (index : Z) (record : bytes) (slots : list bytes) : result BuildStop (list bytes) :=
  _ ← or_panic (slots !! Z.to_nat index);
  Ok (<[Z.to_nat index := record]> slots).
Fixpoint place_records (contexts : list PreparedHopContext) (slots : list bytes) : result BuildStop (list bytes) :=
  match contexts with
  | [] => Ok slots
  | context :: rest => slots ← set_slot (pc_slot context) (pc_own_record context) slots; place_records rest slots
  end.
Fixpoint place_fakes (record_set : ShortBuildRecordSet) (originator_hash : option bytes) (indices : list Z) (slots : list bytes)
    (padding_fakes : list bytes) (originator_fake : option OriginatorFake)
    : M Rng BuildStop (list bytes * list bytes * option OriginatorFake) :=
  match indices with
  | [] => mret (slots, padding_fakes, originator_fake)
  | index :: rest =>
      slot ← lift (ok_or Panicked (match record_slot index with Ok s => Some s | Err _ => None end));
      match slot_owner record_set slot with
      | Some OriginatorFakeSlot =>
          hash ← lift (ok_or (Failed MrEmptyPath) originator_hash);
          fake ← build_originator_fake_record hash;
          slots ← lift (set_slot index (of_wire fake) slots);
          place_fakes record_set originator_hash rest slots padding_fakes (Some fake)
      | Some PaddingFake =>
          fake ← build_padding_fake_record;
          slots ← lift (set_slot index fake slots);
          place_fakes record_set originator_hash rest slots (padding_fakes ++ [fake]) originator_fake
      | Some (RealHop _) => place_fakes record_set originator_hash rest slots padding_fakes originator_fake
      | None => fail (Failed MrSlotExhausted)
      end
  end.

Definition prepare_short_build_message (path_hops : list MultiRecordHopSpec) (direction : TunnelDirection)
    (request_time_ms next_message_id : Z) (first_hop originator_hash : option bytes) : M Rng BuildStop PreparedShortBuildMessage :=
  match path_hops with
  | [] => fail (Failed MrEmptyPath)
  | _ =>
      if bool_decide (direction = Inbound) && bool_decide (originator_hash = None) then fail (Failed MrMissingOriginatorHash)
      else
      _ ← lift (map_err Failed (validate_role_topology direction (hs_role <$> path_hops)));
      _ ← lift (map_err Failed (validate_routing_chain path_hops));
      record_set ← assign_record_slots (zlen path_hops mod 256) direction;
      hop_contexts ← prepare_hops record_set request_time_ms next_message_id path_hops;
      let slots := replicate (Z.to_nat (rs_count record_set)) (replicate (Z.to_nat RECORD_BYTES) 0) in
      slots ← lift (place_records hop_contexts slots);
      '(slots, padding_fakes, originator_fake) ← place_fakes record_set originator_hash (seqZ 0 (rs_count record_set)) slots [] None;
      if bool_decide (direction = Inbound) && match originator_fake with None => true | Some _ => false end then fail (Failed MrOriginatorFakeMissing)
      else
      slots ← lift (preprocess_creator_request hop_contexts slots);
      payload ← lift (map_err Failed (encode_short_tunnel_build_payload record_set slots));
      mret (mkPrepared record_set hop_contexts padding_fakes originator_fake payload direction first_hop)
  end.

(** ** A hop *)
Definition prefix_matches (hop_identity slot : bytes) : bool :=
  bool_decide (slice 0 HASH_PREFIX_LEN slot = slice 0 HASH_PREFIX_LEN hop_identity).
(** Every record but the hop's own. *)
Definition transform_others (reply_key : bytes) (slot_index : Z) (slots : list bytes) : list bytes :=
  imap (λ i other, if Z.of_nat i =? slot_index then other else chacha20_transform reply_key (Z.of_nat i) other) slots.
Definition process_hop (payload hop_static_priv hop_identity : bytes) (response_code : ShortResponseCode)
    : M Rng BuildStop (bytes * ProcessedHopResult) :=
  '(count, slots) ← lift (map_err Failed (decode_short_tunnel_build_payload payload));
  match (filter (λ p, prefix_matches hop_identity p.2) (imap (λ i slot, (Z.of_nat i, slot)) slots)) with
  | [] => fail (Failed MrHopHashNotFound)
  | _ :: _ :: _ => fail (Failed MrDuplicateHopHash)
  | [(slot_index, own)] =>
      opened ← lift (cryptography (open_short_request own hop_static_priv hop_identity));
      decoded_record ← lift (short_record (request_decode (opened_plaintext opened)));
      let is_obep := bool_decide (sr_role decoded_record = HopOutboundEndpoint) in
      layer_keys ← lift (cryptography (derive_layer_keys_for_hop (opened_state opened) (sr_role decoded_record)));
      plaintext ← with_err (λ e, Failed (MrShortRecord e)) (reply_encode_with_rng try_fill_bytes (mkReply options_empty response_code));
      sealed_reply ← lift (cryptography (seal_short_reply plaintext layer_keys (ns_h (opened_state opened)) slot_index));
      slots ← lift (set_slot slot_index sealed_reply slots);
      let slots := transform_others (reply_key layer_keys) slot_index slots in
      new_payload ← lift (map_err Failed (encode_count_prefixed_short_payload count slots));
      mret (new_payload, mkHopResult slot_index slot_index plaintext response_code is_obep)
  end.

(** ** The creator's reply *)
Fixpoint open_replies (contexts : list PreparedHopContext) (slots : list bytes) : result BuildStop (list ProcessedHopResult) :=
  match contexts with
  | [] => Ok []
  | context :: rest =>
      slot_bytes ← or_panic (slots !! Z.to_nat (pc_slot context));
      plaintext ← cryptography (open_short_reply slot_bytes (pc_layer_keys context) (ns_h (pc_state context)) (pc_slot context));
      reply ← short_record (reply_decode plaintext);
      results ← open_replies rest slots;
      Ok (mkHopResult (pc_hop_index context) (pc_slot context) plaintext (sp_response reply)
            (bool_decide (pc_role context = HopOutboundEndpoint)) :: results)
  end.
Definition process_reply (contexts : list PreparedHopContext) (record_set : ShortBuildRecordSet) (reply_payload : bytes)
    (originator_fake : option OriginatorFake) : result BuildStop (list ProcessedHopResult) :=
  '(count, slots) ← map_err Failed (decode_short_tunnel_build_payload reply_payload);
  if negb (count =? rs_count record_set) then Err (Failed MrSlotExhausted)
  else
  _ ← match originator_fake_count record_set, originator_fake with
      | 0, None => Ok ()
      | 0, Some _ => Err (Failed MrOriginatorFakeUnexpected)
      | 1, Some _ => Ok ()
      | 1, None => Err (Failed MrOriginatorFakeMissing)
      | actual, _ => Err (Failed (MrOriginatorFakeCountInvalid actual))
      end;
  let ordered := merge_sort hop_index_le contexts in
  slots ← undo_transforms ordered slots;
  open_replies ordered slots.
End build.

(** ** Layers commute and cancel *)
Section layers.
Context `{C : ChaCha20} `{CL : !ChaCha20Laws C}.

Lemma xor_bytes_length a b : length b = length a → length (xor_bytes a b) = length a.
Proof. unfold xor_bytes. rewrite length_zip_with. lia. Qed.
Lemma xor_bytes_comm a b c : xor_bytes (xor_bytes a b) c = xor_bytes (xor_bytes a c) b.
Proof.
  unfold xor_bytes. revert b c. induction a as [|x a IH]; intros [|y b] [|z c]; cbn; try done.
  by rewrite IH, !Z.lxor_assoc, (Z.lxor_comm y).
Qed.

Lemma transform_length k s r : length (chacha20_transform k s r) = length r.
Proof. apply xor_bytes_length, chacha20_keystream_length. Qed.
Lemma transform_involutive k s r : chacha20_transform k s (chacha20_transform k s r) = r.
Proof.
  unfold chacha20_transform at 1, chacha20_xor. rewrite transform_length. apply xor_bytes_cancel. symmetry. apply chacha20_keystream_length.
Qed.
Lemma transform_comm k1 k2 s r :
  chacha20_transform k1 s (chacha20_transform k2 s r) = chacha20_transform k2 s (chacha20_transform k1 s r).
Proof.
  unfold chacha20_transform at 1 3, chacha20_xor. rewrite !transform_length.
  unfold chacha20_transform, chacha20_xor. apply xor_bytes_comm.
Qed.

Definition layer (keys : list bytes) (slot : Z) (r : bytes) : bytes := fold_left (λ r k, chacha20_transform k slot r) keys r.
Lemma layer_length keys s r : length (layer keys s r) = length r.
Proof. unfold layer. revert r. induction keys as [|k keys IH]; intros r; [done|]. cbn [fold_left]. by rewrite IH, transform_length. Qed.
Lemma layer_transform keys k s r : layer keys s (chacha20_transform k s r) = chacha20_transform k s (layer keys s r).
Proof.
  unfold layer. revert r. induction keys as [|k' keys IH]; intros r; [done|]. cbn [fold_left]. by rewrite transform_comm, IH.
Qed.
Lemma layer_cancel keys s r : layer keys s (layer keys s r) = r.
Proof.
  revert r. induction keys as [|k keys IH]; intros r; [done|]. change (layer (k :: keys) s) with (λ r, layer keys s (chacha20_transform k s r)).
  cbv beta. by rewrite <- layer_transform, transform_involutive, IH.
Qed.
Lemma layer_snoc keys k s r : layer (keys ++ [k]) s r = chacha20_transform k s (layer keys s r).
Proof. unfold layer. by rewrite fold_left_app. Qed.
Lemma layer_cons_cancel keys k s r : chacha20_transform k s (layer (k :: keys) s r) = layer keys s r.
Proof.
  change (layer (k :: keys) s r) with (layer keys s (chacha20_transform k s r)). by rewrite <- layer_transform, transform_involutive.
Qed.

Lemma transform_all_spec keys s slots r : slots !! Z.to_nat s = Some r →
  transform_all keys s slots = Ok (<[Z.to_nat s := layer keys s r]> slots).
Proof.
  revert slots r. induction keys as [|k keys IH]; intros slots r Hr; cbn [transform_all].
  - change (layer [] s r) with r. by rewrite list_insert_id.
  - unfold transform_at. rewrite Hr. cbn [or_panic ok_or mbind result_bind].
    rewrite (IH _ (chacha20_transform k s r)) by (apply list_lookup_insert_eq; by eapply lookup_lt_Some).
    by rewrite list_insert_insert_eq.
Qed.

(** Several slots, each with its keys. *)
Fixpoint transform_each (work : list (Z * list bytes)) (slots : list bytes) : result BuildStop (list bytes) :=
  match work with
  | [] => Ok slots
  | (s, keys) :: work' => slots ← transform_all keys s slots; transform_each work' slots
  end.
Lemma transform_each_spec work slots :
  NoDup work.*1 → Forall (λ w, 0 ≤ w.1 < zlen slots) work →
  ∃ slots', transform_each work slots = Ok slots' ∧ length slots' = length slots ∧
    (∀ s keys, (s, keys) ∈ work → slots' !! Z.to_nat s = layer keys s <$> slots !! Z.to_nat s) ∧
    (∀ i : nat, Z.of_nat i ∉ work.*1 → slots' !! i = slots !! i).
Proof.
  revert slots. induction work as [|[s keys] work IH]; intros slots Hnd Hin; cbn [transform_each].
  { exists slots. split_and!; [done|done| |done]. by intros s keys ?%elem_of_nil. }
  apply Forall_cons in Hin as [[Hs0 Hs] Hin]. cbn [fst] in *. rewrite fmap_cons in Hnd. cbn [fst] in Hnd. apply NoDup_cons in Hnd as [Hni Hnd].
  destruct (lookup_lt_is_Some_2 slots (Z.to_nat s)) as [r Hr]; [unfold zlen in Hs; lia|].
  rewrite (transform_all_spec keys s slots r Hr). cbn [mbind result_bind].
  destruct (IH (<[Z.to_nat s := layer keys s r]> slots)) as (slots' & He & Hl & Hw & Ho); [done| |].
  { eapply Forall_impl; [exact Hin|]. intros w. unfold zlen. by rewrite length_insert. }
  exists slots'. split_and!; [done|by rewrite Hl, length_insert| |].
  - intros s' keys' [[= -> ->]|Hin']%elem_of_cons.
    + rewrite Ho, list_lookup_insert_eq, Hr; [done|by eapply lookup_lt_Some|]. by rewrite Z2Nat.id.
    + rewrite (Hw s' keys') by done. f_equal. apply list_lookup_insert_ne.
      assert (s' ∈ work.*1) by (apply (list_elem_of_fmap_2' fst work (s', keys')); done).
      rewrite Forall_forall in Hin. apply Hin in Hin' as Hr'. cbn [fst] in Hr'. intros Heq. assert (s = s') by lia. by subst.
  - intros i Hi. rewrite fmap_cons, not_elem_of_cons in Hi. destruct Hi as [Hi1 Hi2]. cbn [fst] in Hi1. rewrite Ho by done.
    apply list_lookup_insert_ne. lia.
Qed.
End layers.

(** ** The contexts of a path, in canonical order *)
Record contexts_ok (count : Z) (cs : list PreparedHopContext) : Prop := {
  contexts_slots : NoDup (pc_slot <$> cs);
  contexts_range : Forall (λ c, 0 ≤ pc_slot c < count) cs;
  contexts_index j c : cs !! j = Some c → pc_hop_index c = Z.of_nat j;
}.

Lemma filter_prior (cs : list PreparedHopContext) (k : Z) (m : nat) :
  (∀ j c, cs !! j = Some c → pc_hop_index c = k + Z.of_nat j) →
  filter (λ other, pc_hop_index other < k + Z.of_nat m) cs = take m cs.
Proof.
  revert k m. induction cs as [|c cs IH]; intros k m Hi; [by rewrite take_nil|].
  pose proof (Hi 0%nat c eq_refl) as H0. rewrite filter_cons.
  assert (Hi' : ∀ j c, cs !! j = Some c → pc_hop_index c = (k + 1) + Z.of_nat j).
  { intros j c' Hj. rewrite (Hi (S j) c' Hj). lia. }
  destruct m as [|m]; case_decide; try lia.
  - rewrite take_0.
    destruct (filter _ cs) as [|x l] eqn:E; [done|]. exfalso.
    assert (x ∈ filter (λ other, pc_hop_index other < k + Z.of_nat 0) cs) as [Hx Hin]%list_elem_of_filter by (rewrite E; left).
    apply list_elem_of_lookup_1 in Hin as [j Hj]. apply Hi' in Hj. lia.
  - cbn [firstn]. f_equal. rewrite <- (IH (k + 1) m Hi'). apply list_filter_iff. intros x. lia.
Qed.

Lemma merge_sort_contexts count cs : contexts_ok count cs → merge_sort hop_index_le cs = cs.
Proof.
  intros [_ _ Hi]. assert (Hu : ∀ c1 c2, c1 ∈ cs → c2 ∈ cs → hop_index_le c1 c2 → hop_index_le c2 c1 → c1 = c2).
  { intros c1 c2 [j1 H1]%list_elem_of_lookup_1 [j2 H2]%list_elem_of_lookup_1 Ha Hb.
    unfold hop_index_le in *. pose proof (Hi _ _ H1). pose proof (Hi _ _ H2). assert (j1 = j2) by lia. subst. congruence. }
  assert (Total hop_index_le) by (intros a b; unfold hop_index_le; lia).
  assert (Transitive hop_index_le) by (intros a b c; unfold hop_index_le; lia).
  apply (StronglySorted_unique_strong hop_index_le); [|apply (StronglySorted_merge_sort hop_index_le)| |apply merge_sort_Permutation].
  - intros c1 c2. rewrite merge_sort_Permutation. intros H1 H2 ??. by apply Hu.
  - clear Hu. assert (Hs : ∀ k l, (∀ j c, l !! j = Some c → pc_hop_index c = k + Z.of_nat j) → StronglySorted hop_index_le l);
      [|apply (Hs 0); intros j c Hj; rewrite (Hi j c Hj); lia].
    intros k l. revert k. induction l as [|c l IH]; intros k Hl; constructor.
    + apply (IH (k + 1)). intros j c' Hj. rewrite (Hl (S j) c' Hj). lia.
    + apply Forall_forall. intros c' [j Hj]%list_elem_of_lookup_1. unfold hop_index_le.
      rewrite (Hl 0%nat c eq_refl), (Hl (S j) c' Hj). lia.
Qed.

Section layered.
Context `{C : ChaCha20} `{CL : !ChaCha20Laws C} (cs : list PreparedHopContext).
Let keys := reply_key_of <$> cs.

Lemma preprocess_each todo slots :
  preprocess_loop cs todo slots =
  transform_each ((λ c, (pc_slot c, reply_key_of <$> filter (λ other, pc_hop_index other < pc_hop_index c) cs)) <$> todo) slots.
Proof.
  revert slots. induction todo as [|c todo IH]; intros slots; [done|]. cbn [preprocess_loop fmap list_fmap transform_each].
  destruct (transform_all _ _ _); [|done]. cbn [mbind result_bind]. apply IH.
Qed.

Fixpoint undo_work (l : list PreparedHopContext) : list (Z * list bytes) :=
  match l with [] => [] | c :: later => (pc_slot c, reply_key_of <$> later) :: undo_work later end.
Lemma undo_each l slots : undo_transforms l slots = transform_each (undo_work l) slots.
Proof.
  revert slots. induction l as [|c l IH]; intros slots; [done|]. cbn [undo_transforms undo_work transform_each].
  destruct (transform_all _ _ _); [|done]. cbn [mbind result_bind]. apply IH.
Qed.
Lemma undo_work_slots l : (undo_work l).*1 = pc_slot <$> l.
Proof. induction l as [|c l IH]; [done|]. cbn. by rewrite IH. Qed.
Lemma undo_work_elem l j c : l !! j = Some c → (pc_slot c, reply_key_of <$> drop (S j) l) ∈ undo_work l.
Proof.
  revert j. induction l as [|c' l IH]; intros j; [done|]. destruct j as [|j]; cbn.
  - intros [= ->]. left.
  - intros Hj. right. by apply IH.
Qed.

(** All slots keep their length. *)
Definition build_records_ok (count : Z) (slots : list bytes) : Prop := zlen slots = count ∧ Forall (λ r, zlen r = RECORD_BYTES) slots.

Lemma transform_each_records work count slots slots' : build_records_ok count slots → length slots' = length slots →
  (∀ s ks, (s, ks) ∈ work → slots' !! Z.to_nat s = layer ks s <$> slots !! Z.to_nat s) →
  (∀ i : nat, Z.of_nat i ∉ work.*1 → slots' !! i = slots !! i) → build_records_ok count slots'.
Proof.
  intros [Hc Hf] Hl Hw Ho. split; [unfold zlen in *; lia|]. apply Forall_lookup. intros i r Hr.
  rewrite Forall_lookup in Hf. destruct (decide (Z.of_nat i ∈ work.*1)) as [Hi|Hi].
  - apply list_elem_of_fmap_1 in Hi as ([s ks] & Hs & Hi). cbn [fst] in Hs. subst s. apply Hw in Hi. rewrite Nat2Z.id, Hr in Hi.
    destruct (slots !! i) as [r0|] eqn:E; [|done]. cbn in Hi. injection Hi as ->. unfold zlen. rewrite layer_length. by apply (Hf i).
  - rewrite Ho in Hr by done. by apply (Hf i).
Qed.

Lemma preprocess_spec count slots : contexts_ok count cs → build_records_ok count slots →
  ∃ slots', preprocess_creator_request cs slots = Ok slots' ∧ build_records_ok count slots' ∧
    ∀ j c, cs !! j = Some c → slots' !! Z.to_nat (pc_slot c) = layer (take j keys) (pc_slot c) <$> slots !! Z.to_nat (pc_slot c).
Proof.
  intros [Hnd Hr Hi] Hs. unfold preprocess_creator_request. rewrite preprocess_each. set (work := _ <$> cs).
  assert (Hw1 : work.*1 = pc_slot <$> cs) by (unfold work; by rewrite <- list_fmap_compose).
  destruct (transform_each_spec work slots) as (slots' & He & Hl & Hw & Ho).
  { by rewrite Hw1. }
  { unfold work. apply Forall_fmap. eapply Forall_impl; [exact Hr|]. intros c Hc. cbn. destruct Hs as [-> _]. done. }
  exists slots'. split_and!; [done|by eapply transform_each_records|].
  intros j c Hj. apply Hw. unfold work. apply list_elem_of_fmap. exists c. split; [|by eapply list_elem_of_lookup_2].
  f_equal. unfold keys. rewrite <- fmap_take. f_equal. rewrite (Hi j c Hj). symmetry. by apply (filter_prior cs 0).
Qed.

Lemma undo_spec count slots : contexts_ok count cs → build_records_ok count slots →
  ∃ slots', undo_transforms cs slots = Ok slots' ∧
    ∀ j c, cs !! j = Some c → slots' !! Z.to_nat (pc_slot c) = layer (drop (S j) keys) (pc_slot c) <$> slots !! Z.to_nat (pc_slot c).
Proof.
  intros [Hnd Hr Hi] [Hc Hf]. rewrite undo_each.
  destruct (transform_each_spec (undo_work cs) slots) as (slots' & He & Hl & Hw & Ho).
  { by rewrite undo_work_slots. }
  { apply (Forall_fmap fst (λ s, 0 ≤ s < zlen slots)). rewrite undo_work_slots, Hc. by apply Forall_fmap. }
  exists slots'. split; [done|]. intros j c Hj. unfold keys. rewrite <- fmap_drop. apply Hw. by apply undo_work_elem.
Qed.
End layered.

(** ** Payloads round trip *)
Lemma zlen_concat {A} (n : Z) (l : list (list A)) : Forall (λ r, zlen r = n) l → zlen (concat l) = n * zlen l.
Proof.
  induction 1 as [|r l Hr _ IH]; [by rewrite Z.mul_0_r|]. cbn [concat]. rewrite zlen_app, zlen_cons, IH, Hr. lia.
Qed.

Lemma concat_lookup_slice {A} (n : Z) (l : list (list A)) (i : nat) r : Forall (λ r, zlen r = n) l → l !! i = Some r →
  concat l = concat (take i l) ++ r ++ concat (drop (S i) l) ∧ zlen (concat (take i l)) = n * Z.of_nat i.
Proof.
  intros Hf Hi. split.
  - rewrite <- (take_drop_middle l i r Hi) at 1. by rewrite concat_app.
  - rewrite (zlen_concat n) by by apply Forall_take. f_equal. unfold zlen. rewrite length_take. apply lookup_lt_Some in Hi. lia.
Qed.

Lemma decode_encode_payload count slots : build_records_ok count slots → 1 ≤ count ≤ MAX_RECORD_COUNT →
  encode_count_prefixed_short_payload count slots = Ok (count :: concat slots) ∧
  decode_short_tunnel_build_payload (count :: concat slots) = Ok (count, slots).
Proof.
  intros [Hl Hf] Hc. unfold encode_count_prefixed_short_payload, decode_short_tunnel_build_payload, validate_count_prefixed_short_payload.
  destruct (count =? 0) eqn:E0; breflect; [lia|]. destruct (count >? _) eqn:E1; breflect; [lia|]. cbn [orb].
  rewrite Hl, Z.eqb_refl. cbn [negb]. split; [done|].
  rewrite zlen_cons, (zlen_concat RECORD_BYTES), Hl by done. rewrite (Z.mul_comm RECORD_BYTES), Z.add_comm, Z.eqb_refl. cbn [negb].
  do 2 f_equal. apply list_eq. intros i. rewrite list_lookup_fmap. destruct (slots !! i) as [r|] eqn:Er.
  - rewrite lookup_seqZ_lt by (apply lookup_lt_Some in Er; unfold zlen in Hl; lia). cbn [fmap option_fmap option_map]. f_equal.
    destruct (concat_lookup_slice RECORD_BYTES slots i r Hf Er) as [Hcat Hz]. rewrite Hcat.
    change (count :: concat (take i slots) ++ r ++ concat (drop (S i) slots)) with
      ((count :: concat (take i slots)) ++ r ++ concat (drop (S i) slots)).
    rewrite Forall_lookup in Hf. pose proof (Hf i r Er). apply slice_app_eq; [rewrite zlen_cons, Hz; lia|lia].
  - apply lookup_ge_None in Er. by rewrite lookup_seqZ_ge by (unfold zlen in Hl; lia).
Qed.

(** ** The stages of a message *)
Section stages.
Context `{C : ChaCha20} `{CL : !ChaCha20Laws C} (count : Z) (cs : list PreparedHopContext).
Let keys := reply_key_of <$> cs.

(** What slot [j] holds before hop [i]: the request under the keys of the hops from
    [i] up to [j], or the reply of [j] under the keys of the hops from [j + 1] up to [i]. *)
Definition staged (i : nat) (replies : list bytes) (j : nat) (c : PreparedHopContext) : bytes :=
  if (j <? i)%nat then layer (take (i - S j) (drop (S j) keys)) (pc_slot c) (default [] (replies !! j))
  else layer (take (j - i) (drop i keys)) (pc_slot c) (pc_own_record c).

Record stage (i : nat) (replies slots : list bytes) : Prop := {
  stage_records : build_records_ok count slots;
  stage_replies : length replies = i;
  stage_slots j c : cs !! j = Some c → slots !! Z.to_nat (pc_slot c) = Some (staged i replies j c);
}.

Lemma keys_lookup i c : cs !! i = Some c → keys !! i = Some (reply_key_of c).
Proof. intros Hc. unfold keys. by rewrite list_lookup_fmap, Hc. Qed.

(** The step of hop [i] on the records of all hops. *)
Lemma staged_next i replies reply c j cj : cs !! i = Some c → length replies = i → cs !! j = Some cj →
  staged (S i) (replies ++ [reply]) j cj =
  if decide (j = i) then reply else chacha20_transform (reply_key_of c) (pc_slot cj) (staged i replies j cj).
Proof.
  intros Hc Hl Hj. pose proof (keys_lookup i c Hc) as Hk. unfold staged. case_decide as Hji; [subst j|].
  - destruct (i <? S i)%nat eqn:E; [|apply Nat.ltb_ge in E; lia]. rewrite Nat.sub_diag, take_0.
    rewrite lookup_app_r by lia. rewrite Hl, Nat.sub_diag. done.
  - destruct (j <? i)%nat eqn:E1; [apply Nat.ltb_lt in E1|apply Nat.ltb_ge in E1].
    + destruct (j <? S i)%nat eqn:E2; [|apply Nat.ltb_ge in E2; lia]. rewrite lookup_app_l by lia.
      rewrite <- layer_snoc. f_equal. replace (S i - S j)%nat with (S (i - S j)) by lia. apply take_S_r.
      rewrite lookup_drop. replace (S j + (i - S j))%nat with i by lia. done.
    + destruct (j <? S i)%nat eqn:E2; [apply Nat.ltb_lt in E2; lia|].
      replace (j - i)%nat with (S (j - S i)) by lia. rewrite (drop_S keys (reply_key_of c) i Hk). cbn [firstn].
      by rewrite layer_cons_cancel.
Qed.

Lemma records_step reply s key slots : build_records_ok count slots → zlen reply = RECORD_BYTES →
  build_records_ok count (transform_others key s (<[Z.to_nat s := reply]> slots)).
Proof.
  intros [Hl Hf] Hr. unfold transform_others. split; [unfold zlen in *; by rewrite length_imap, length_insert|].
  apply Forall_lookup. intros i r. rewrite list_lookup_imap. destruct (<[_:=_]> slots !! i) as [r0|] eqn:E; [|done].
  assert (H0 : zlen r0 = RECORD_BYTES).
  { eapply (Forall_lookup_1 (λ r, zlen r = RECORD_BYTES)); [by apply Forall_insert|exact E]. }
  cbn. intros [= <-]. destruct (_ =? _); [done|]. unfold zlen. by rewrite transform_length.
Qed.

Lemma stage_next i replies slots c reply : contexts_ok count cs → stage i replies slots → cs !! i = Some c → zlen reply = RECORD_BYTES →
  stage (S i) (replies ++ [reply]) (transform_others (reply_key_of c) (pc_slot c) (<[Z.to_nat (pc_slot c) := reply]> slots)).
Proof.
  intros [Hnd Hrange Hidx] [Hrec Hlen Hslots] Hc Hr. split; [by apply records_step|rewrite length_app; cbn; lia|].
  intros j cj Hj. rewrite (staged_next i replies reply c j cj) by done. unfold transform_others. rewrite list_lookup_imap.
  rewrite Forall_lookup in Hrange. pose proof (Hrange _ _ Hc) as Hrc. pose proof (Hrange _ _ Hj) as Hrj. cbn beta in Hrc, Hrj.
  case_decide as Hji.
  - subst j. rewrite Hc in Hj. injection Hj as <-. rewrite list_lookup_insert_eq by (destruct Hrec as [Hz _]; unfold zlen in Hz; lia).
    cbn. by rewrite Z2Nat.id, Z.eqb_refl by lia.
  - assert (pc_slot c ≠ pc_slot cj).
    { intros Heq. apply Hji. apply (NoDup_lookup _ _ _ (pc_slot c) Hnd); rewrite list_lookup_fmap; [by rewrite Hj, Heq|by rewrite Hc]. }
    rewrite list_lookup_insert_ne by lia. rewrite (Hslots j cj Hj). cbn. rewrite Z2Nat.id by lia.
    destruct (_ =? _) eqn:E; breflect; [congruence|done].
Qed.

(** At the end the creator finds every reply. *)
Lemma stage_undone replies slots : contexts_ok count cs → stage (length cs) replies slots →
  ∃ slots', undo_transforms cs slots = Ok slots' ∧ ∀ j c, cs !! j = Some c → slots' !! Z.to_nat (pc_slot c) = replies !! j.
Proof.
  intros Hok [Hrec Hlen Hslots]. destruct (undo_spec cs count slots Hok Hrec) as (slots' & He & Hu). exists slots'. split; [done|].
  intros j c Hj. rewrite (Hu j c Hj), (Hslots j c Hj). pose proof (lookup_lt_Some _ _ _ Hj) as Hlt.
  unfold staged. destruct (j <? length cs)%nat eqn:E; [|apply Nat.ltb_ge in E; lia]. cbn. fold keys.
  rewrite take_ge by (rewrite length_drop; unfold keys; rewrite length_fmap; lia). rewrite layer_cancel.
  destruct (lookup_lt_is_Some_2 replies j) as [r Hr]; [lia|]. by rewrite Hr.
Qed.
End stages.

(** ** One hop *)
Lemma empty_mapping_ok : mapping_ok mapping_empty.
Proof. split; [constructor|constructor|by vm_compute]. Qed.
Lemma empty_reply_ok code : reply_ok (mkReply options_empty code).
Proof. split; [apply empty_mapping_ok|by vm_compute]. Qed.

(** The keys a hop derives from the message it receives, as [process_hop] does. *)
Definition keys_from_payload `{P : Ntcp2Primitives} `{X : X25519} (payload hop_static_priv hop_identity : bytes) : option LayerKeys :=
  match decode_short_tunnel_build_payload payload with
  | Err _ => None
  | Ok (_, slots) =>
      match filter (λ p, prefix_matches hop_identity p.2) (imap (λ i slot, (Z.of_nat i, slot)) slots) with
      | [(_, own)] =>
          match open_short_request own hop_static_priv hop_identity with
          | Err _ => None
          | Ok opened =>
              match request_decode (opened_plaintext opened) with
              | Err _ => None
              | Ok request => match derive_layer_keys_for_hop (opened_state opened) (sr_role request) with Ok keys => Some keys | Err _ => None end
              end
          end
      | _ => None
      end
  end.

(** How many records of a message begin as the identity of a hop. *)
Definition records_with_prefix (hop_identity payload : bytes) : nat :=
  match decode_short_tunnel_build_payload payload with
  | Err _ => 0%nat
  | Ok (_, slots) => length (filter (prefix_matches hop_identity) slots)
  end.

Section one_hop.
Context `{P : Ntcp2Primitives} `{L : !Ntcp2Laws P} `{X : X25519} `{LX : !X25519Laws X} `{ZX : !X25519Nonzero X}.
Context `{C : ChaCha20} `{CL : !ChaCha20Laws C}.
Context {Rng : Type} (try_fill_bytes : Rng → Z → Rng * option bytes) (Hfill : fills try_fill_bytes).

Lemma empty_reply_total code rng :
  (∃ rng' bs, reply_encode_with_rng try_fill_bytes (mkReply options_empty code) rng = (rng', Ok bs) ∧
     zlen bs = SHORT_REPLY_PLAINTEXT_SIZE ∧ reply_decode bs = Ok (mkReply options_empty code)) ∨
  (∃ rng', reply_encode_with_rng try_fill_bytes (mkReply options_empty code) rng = (rng', Err SbRandomnessUnavailable) ∧ generator_fails try_fill_bytes).
Proof.
  destruct (reply_encode_with_rng try_fill_bytes (mkReply options_empty code) rng) as [rng' [bs|e]] eqn:E.
  - left. exists rng', bs. split; [done|]. by apply (reply_encode_Ok try_fill_bytes Hfill _ _ _ _ (empty_reply_ok code)) in E.
  - right. exists rng'. revert E. unfold reply_encode_with_rng, lift, mbind, M_bind. cbn [sp_options options_empty bo_mapping].
    change (mapping_encode mapping_empty MAX_REPLY_MAPPING_AREA) with (@Ok CodecError _ [0; 0]). cbn [map_err]. cbv iota beta.
    change (zlen [0; 0] >? SHORT_REPLY_PLAINTEXT_SIZE - 1) with false. cbv iota. unfold fill.
    destruct (try_fill_bytes rng _) as [r [b|]] eqn:Ef; intros [= <- <-]. split; [done|]. by eexists _, _; rewrite Ef.
Qed.

Record hop_ready (priv hash : bytes) (c : PreparedHopContext) : Prop := {
  ready_prefix : prefix_matches hash (pc_own_record c) = true;
  ready_opens : ∃ plaintext request, open_short_request (pc_own_record c) priv hash = Ok (mkOpened plaintext (pc_state c)) ∧
    request_decode plaintext = Ok request ∧ sr_role request = pc_role c;
  ready_keys : derive_layer_keys_for_hop (pc_state c) (pc_role c) = Ok (pc_layer_keys c);
}.
Definition reply_opens (c : PreparedHopContext) (code : ShortResponseCode) (reply : bytes) : Prop :=
  ∃ plaintext, open_short_reply reply (pc_layer_keys c) (ns_h (pc_state c)) (pc_slot c) = Ok plaintext ∧
    reply_decode plaintext = Ok (mkReply options_empty code).

(** The record of the hop is among the matches. *)
Lemma matches_own hash (slots : list bytes) (s : nat) own x l : slots !! s = Some own → prefix_matches hash own = true →
  filter (λ p, prefix_matches hash p.2) (imap (λ i slot, (Z.of_nat i, slot)) slots) = x :: l → l = [] → x = (Z.of_nat s, own).
Proof.
  intros Hs Hp Hf ->. assert (Hin : (Z.of_nat s, own) ∈ filter (λ p, prefix_matches hash p.2) (imap (λ i slot, (Z.of_nat i, slot)) slots)).
  { apply list_elem_of_filter. split; [cbn; by rewrite Hp|]. apply (list_elem_of_lookup_2 _ s). by rewrite list_lookup_imap, Hs. }
  rewrite Hf in Hin. by apply list_elem_of_singleton in Hin.
Qed.
Lemma matches_some hash (slots : list bytes) (s : nat) own : slots !! s = Some own → prefix_matches hash own = true →
  filter (λ p, prefix_matches hash p.2) (imap (λ i slot, (Z.of_nat i, slot)) slots) ≠ [].
Proof.
  intros Hs Hp Hf. assert (Hin : (Z.of_nat s, own) ∈ filter (λ p, prefix_matches hash p.2) (imap (λ i slot, (Z.of_nat i, slot)) slots)).
  { apply list_elem_of_filter. split; [cbn; by rewrite Hp|]. apply (list_elem_of_lookup_2 _ s). by rewrite list_lookup_imap, Hs. }
  rewrite Hf in Hin. by apply elem_of_nil in Hin.
Qed.

Lemma matches_count hash (slots : list bytes) :
  length (filter (λ p, prefix_matches hash p.2) (imap (λ i slot, (Z.of_nat i, slot)) slots)) = length (filter (prefix_matches hash) slots).
Proof.
  cut (∀ f : nat → Z, length (filter (λ p : Z * bytes, prefix_matches hash p.2) (imap (λ i slot, (f i, slot)) slots)) =
    length (filter (prefix_matches hash) slots)); [by intros H; apply H|].
  induction slots as [|r slots IH]; intros f; [done|]. rewrite imap_cons, !filter_cons. cbn [snd].
  destruct (decide (prefix_matches hash r)); cbn [length]; [f_equal|]; apply (IH (f ∘ S)).
Qed.

Lemma process_hop_stage count cs i replies slots c priv hash code rng :
  1 ≤ count ≤ MAX_RECORD_COUNT → contexts_ok count cs → stage count cs i replies slots → cs !! i = Some c → hop_ready priv hash c →
  (∃ rng', process_hop try_fill_bytes (count :: concat slots) priv hash code rng = (rng', Err (Failed MrDuplicateHopHash)) ∧
     (2 ≤ records_with_prefix hash (count :: concat slots))%nat) ∨
  (∃ rng', process_hop try_fill_bytes (count :: concat slots) priv hash code rng = (rng', Err (Failed (MrShortRecord SbRandomnessUnavailable))) ∧
     generator_fails try_fill_bytes) ∨
  (∃ rng' reply slots' plaintext, process_hop try_fill_bytes (count :: concat slots) priv hash code rng =
     (rng', Ok (count :: concat slots', mkHopResult (pc_slot c) (pc_slot c) plaintext code (bool_decide (pc_role c = HopOutboundEndpoint)))) ∧
     stage count cs (S i) (replies ++ [reply]) slots' ∧ reply_opens c code reply ∧
     keys_from_payload (count :: concat slots) priv hash = Some (pc_layer_keys c)).
Proof.
  intros Hcount Hok Hst Hc [Hp (plaintext & request & Ho & Hd & Hrole) Hk].
  destruct (decode_encode_payload count slots (stage_records _ _ _ _ _ Hst) Hcount) as [_ Hdec].
  pose proof (stage_slots _ _ _ _ _ Hst i c Hc) as Hown. unfold staged in Hown.
  destruct (i <? i)%nat eqn:E; [apply Nat.ltb_lt in E; lia|]. rewrite Nat.sub_diag, take_0 in Hown. change (layer [] ?s ?r) with r in Hown.
  pose proof (contexts_range _ _ Hok) as Hrange. rewrite Forall_lookup in Hrange. specialize (Hrange i c Hc). cbn beta in Hrange.
  unfold process_hop, keys_from_payload, records_with_prefix, lift, mbind, M_bind, cryptography, short_record. rewrite Hdec. cbn [map_err].
  rewrite <- (matches_count hash slots).
  destruct (filter _ _) as [|[s own] l] eqn:Ef; [by apply (matches_some hash slots _ _ Hown Hp) in Ef|].
  destruct l as [|y l]; [|left; eexists; split; [done|cbn; lia]]. right.
  apply (matches_own hash slots _ _ _ _ Hown Hp) in Ef; [|done]. rewrite Z2Nat.id in Ef by lia. injection Ef as -> ->.
  rewrite Ho. cbn [map_err opened_plaintext opened_state]. rewrite Hd. cbn [map_err]. rewrite Hrole, Hk. cbn [map_err].
  unfold with_err. destruct (empty_reply_total code rng) as [(rng' & bs & -> & Hl & Hr)|(rng' & -> & Hg)]; [|left; by eexists].
  right. cbn [map_err]. destruct (open_sealed_reply bs (pc_layer_keys c) (ns_h (pc_state c)) (pc_slot c) Hl) as (reply & -> & Hsz & Hop).
  cbn [map_err]. unfold set_slot. rewrite Hown. cbn [or_panic ok_or mbind result_bind].
  pose proof (stage_next count cs i replies slots c reply Hok Hst Hc Hsz) as Hnext. unfold reply_key_of in Hnext.
  destruct (decode_encode_payload count _ (stage_records _ _ _ _ _ Hnext) Hcount) as [-> _]. cbn [map_err].
  exists rng', reply. eexists _, bs. split; [done|]. split; [exact Hnext|]. split; [exists bs; done|done].
Qed.
End one_hop.

(** ** All hops, then the creator *)
Record HopNode (Rng : Type) := mkNode {
  hn_static_priv : bytes;
  hn_identity : bytes;
  hn_response : ShortResponseCode;
  hn_rng : Rng;
}.
Arguments mkNode {_} _ _ _ _.
Arguments hn_static_priv {_} _.
Arguments hn_identity {_} _.
Arguments hn_response {_} _.
Arguments hn_rng {_} _.

Section all_hops.
Context `{P : Ntcp2Primitives} `{X : X25519} `{C : ChaCha20}.
Context {Rng : Type} (try_fill_bytes : Rng → Z → Rng * option bytes).

(** Each hop sends its payload to the next. *)
Fixpoint run_hops (nodes : list (HopNode Rng)) (payload : bytes) : result BuildStop bytes :=
  match nodes with
  | [] => Ok payload
  | n :: nodes' =>
      match process_hop try_fill_bytes payload (hn_static_priv n) (hn_identity n) (hn_response n) (hn_rng n) with
      | (_, Ok (payload', _)) => run_hops nodes' payload'
      | (_, Err e) => Err e
      end
  end.
(** The keys the hops derive on the way. *)
Fixpoint hop_keys_along (nodes : list (HopNode Rng)) (payload : bytes) : option (list LayerKeys) :=
  match nodes with
  | [] => Some []
  | n :: nodes' =>
      match process_hop try_fill_bytes payload (hn_static_priv n) (hn_identity n) (hn_response n) (hn_rng n) with
      | (_, Ok (payload', _)) =>
          keys ← keys_from_payload payload (hn_static_priv n) (hn_identity n);
          rest ← hop_keys_along nodes' payload';
          Some (keys :: rest)
      | _ => None
      end
  end.

(** A hop on the way receives two records that begin as its identity does. *)
Fixpoint prefix_collision (nodes : list (HopNode Rng)) (payload : bytes) : Prop :=
  match nodes with
  | [] => False
  | n :: nodes' =>
      (2 ≤ records_with_prefix (hn_identity n) payload)%nat ∨
      match process_hop try_fill_bytes payload (hn_static_priv n) (hn_identity n) (hn_response n) (hn_rng n) with
      | (_, Ok (payload', _)) => prefix_collision nodes' payload'
      | _ => False
      end
  end.
(** A failure that is chance or the host's, not the protocol's: two records with
    the same 16-byte prefix, or no randomness. *)
Definition by_chance (nodes : list (HopNode Rng)) (payload : bytes) (e : BuildStop) : Prop :=
  (e = Failed MrDuplicateHopHash ∧ prefix_collision nodes payload) ∨
  (e = Failed (MrShortRecord SbRandomnessUnavailable) ∧ generator_fails try_fill_bytes).

Context `{L : !Ntcp2Laws P} `{LX : !X25519Laws X} `{ZX : !X25519Nonzero X} `{CL : !ChaCha20Laws C} (Hfill : fills try_fill_bytes).

Lemma run_hops_stages count cs nodes i replies slots :
  1 ≤ count ≤ MAX_RECORD_COUNT → contexts_ok count cs → stage count cs i replies slots →
  Forall2 (λ c (n : HopNode Rng), hop_ready (hn_static_priv n) (hn_identity n) c) (drop i cs) nodes →
  (∃ e, run_hops nodes (count :: concat slots) = Err e ∧ by_chance nodes (count :: concat slots) e) ∨
  (∃ slots' new, run_hops nodes (count :: concat slots) = Ok (count :: concat slots') ∧
     stage count cs (i + length nodes) (replies ++ new) slots' ∧
     hop_keys_along nodes (count :: concat slots) = Some (pc_layer_keys <$> drop i cs) ∧
     Forall3 (λ c (n : HopNode Rng) r, reply_opens c (hn_response n) r) (drop i cs) nodes new).
Proof.
  intros Hcount Hok. revert i replies slots. induction nodes as [|n nodes IH]; intros i replies slots Hst Hall.
  - right. exists slots, []. cbn. rewrite Nat.add_0_r, app_nil_r. apply Forall2_nil_inv_r in Hall. rewrite Hall. split_and!; [done..|constructor].
  - apply Forall2_cons_inv_r in Hall as (c & rest & Hready & Hall & Hdrop).
    assert (Hc : cs !! i = Some c) by (rewrite <- (Nat.add_0_r i), <- lookup_drop, Hdrop; done).
    assert (Hrest : drop (S i) cs = rest) by (rewrite (drop_S cs c i Hc) in Hdrop; by injection Hdrop).
    cbn [run_hops hop_keys_along]. destruct (process_hop_stage try_fill_bytes Hfill count cs i replies slots c (hn_static_priv n) (hn_identity n) (hn_response n) (hn_rng n)
      Hcount Hok Hst Hc Hready) as [(rng' & -> & H2)|[(rng' & -> & Hg)|(rng' & reply & slots' & pt & Ep & Hst' & Hop & Hkeys)]].
    + left. eexists. split; [done|]. left. split; [done|]. by left.
    + left. eexists. split; [done|]. by right.
    + rewrite <- Hrest in Hall. destruct (IH (S i) _ slots' Hst' Hall) as [(e & He & Hchance)|(slots2 & new & Hrun & Hst2 & Hks & Hnew)]; rewrite Ep.
      { left. exists e. split; [done|]. destruct Hchance as [[-> Hcol]|Hg]; [left|by right]. split; [done|]. right. by rewrite Ep. }
      right. exists slots2, (reply :: new). rewrite Hdrop, <- Hrest. split_and!; [done| |by rewrite Hkeys, Hks|by constructor].
      rewrite <- app_assoc in Hst2. cbn [length]. rewrite Nat.add_succ_r. exact Hst2.
Qed.

Lemma open_replies_ok (cs : list PreparedHopContext) (nodes : list (HopNode Rng)) (replies slots : list bytes) :
  Forall3 (λ c n r, slots !! Z.to_nat (pc_slot c) = Some r ∧ reply_opens c (hn_response n) r) cs nodes replies →
  ∃ results, open_replies cs slots = Ok results ∧
    Forall3 (λ c n res, hr_hop_index res = pc_hop_index c ∧ hr_slot res = pc_slot c ∧ hr_response_code res = hn_response n ∧
      hr_is_obep res = bool_decide (pc_role c = HopOutboundEndpoint)) cs nodes results.
Proof.
  induction 1 as [|c n r cs nodes replies [Hr (pt & Ho & Hd)] _ (results & He & Hres)]; cbn [open_replies]; [eexists; split; [done|constructor]|].
  rewrite Hr. cbn [or_panic ok_or mbind result_bind]. unfold cryptography, short_record. rewrite Ho. cbn [map_err mbind result_bind].
  rewrite Hd. cbn [map_err mbind result_bind]. rewrite He. cbn [mbind result_bind]. eexists. split; [done|]. by constructor.
Qed.
End all_hops.

(** ** Random slots *)
Definition slot_owner_count (o : RecordOwner) (owners : list (option RecordOwner)) : nat := length (filter (λ x, x = Some o) owners).
Definition wanted_count (o : RecordOwner) (todo : list RecordOwner) : nat := length (filter (λ x, x = o) todo).

Lemma owner_count_insert o o' owners i : owners !! i = Some None →
  slot_owner_count o (<[i := Some o']> owners) = (slot_owner_count o owners + if decide (o' = o) then 1 else 0)%nat.
Proof.
  unfold slot_owner_count. revert i. induction owners as [|x owners IH]; intros i Hi; [done|]. destruct i as [|i].
  - injection Hi as ->. change (<[0%nat := Some o']> (None :: owners)) with (Some o' :: owners). rewrite !filter_cons.
    destruct (decide (None = Some o)) as [[=]|]. destruct (decide (o' = o)) as [->|Hn]; case_decide; try congruence; cbn; lia.
  - change (<[S i := Some o']> (x :: owners)) with (x :: <[i := Some o']> owners). rewrite !filter_cons.
    destruct (decide (x = Some o)); cbn [length]; rewrite IH by done; lia.
Qed.
Lemma wanted_count_cons o o' todo : wanted_count o (o' :: todo) = (wanted_count o todo + if decide (o' = o) then 1 else 0)%nat.
Proof. unfold wanted_count. rewrite filter_cons. repeat case_decide; cbn; lia. Qed.
Lemma owner_count_app o l1 l2 : slot_owner_count o (l1 ++ l2) = (slot_owner_count o l1 + slot_owner_count o l2)%nat.
Proof. unfold slot_owner_count. by rewrite filter_app, length_app. Qed.
Lemma owner_count_none o n : slot_owner_count o (replicate n None) = 0%nat.
Proof. unfold slot_owner_count. induction n as [|n IH]; [done|]. cbn [replicate]. rewrite filter_cons. by case_decide. Qed.
Lemma owner_count_pad o owners : o ≠ PaddingFake → slot_owner_count o (pad_owner <$> owners) = slot_owner_count o owners.
Proof.
  intros Ho. unfold slot_owner_count. induction owners as [|x owners IH]; [done|]. rewrite fmap_cons, !filter_cons.
  destruct x as [x|]; unfold pad_owner at 1 2; cbn [default from_option id]; fold pad_owner.
  - destruct (decide (Some x = Some o)); cbn [length]; by rewrite IH.
  - destruct (decide (Some PaddingFake = Some o)); [congruence|]. destruct (decide (None = Some o)); [congruence|]. done.
Qed.

(** The draw behind the next [n], and a generator among whose next [attempts]
    draws, from any state, one ends in three zero bits: no rejection loop of a
    message of at most eight records then takes more of them. *)
Fixpoint draw {Rng} (next_u32 : Rng → Rng * Z) (n : nat) (rng : Rng) : Z :=
  match n with O => (next_u32 rng).2 | S n' => draw next_u32 n' (next_u32 rng).1 end.
Definition fair_draws {Rng} (next_u32 : Rng → Rng * Z) (attempts : nat) : Prop :=
  ∀ rng, ∃ n, (n < attempts)%nat ∧ Z.land (draw next_u32 n rng) 7 = 0.

Lemma mask_range v : 1 ≤ v ≤ 8 → ∃ m, next_power_of_two_mask v = Some m ∧ 0 ≤ m ∧ Z.land 7 m = m.
Proof.
  intros Hv. assert (Hc : Forall (λ v, match next_power_of_two_mask v with Some m => (0 <=? m) && (Z.land 7 m =? m) = true | None => False end) (seqZ 1 8)).
  { apply Forall_forall. intros x Hx. apply elem_of_seqZ in Hx.
    assert (x = 1 ∨ x = 2 ∨ x = 3 ∨ x = 4 ∨ x = 5 ∨ x = 6 ∨ x = 7 ∨ x = 8) as H by lia. by destruct_or! H; subst x; vm_compute. }
  rewrite Forall_forall in Hc. specialize (Hc v). destruct (next_power_of_two_mask v) as [m|]; [|destruct Hc; apply elem_of_seqZ; lia].
  exists m. split; [done|]. specialize (Hc ltac:(apply elem_of_seqZ; lia)). breflect. done.
Qed.

Section slots.
Context {Rng : Type} (next_u32 : Rng → Rng * Z) (attempts : nat) (Hfair : fair_draws next_u32 attempts).

Lemma pick_result remaining rng : 1 ≤ zlen remaining ≤ 8 →
  ∃ rng' p rest, pick_uniform_index next_u32 attempts remaining rng = (rng', Ok (p, rest)) ∧ remaining ≡ₚ p :: rest.
Proof.
  intros Hl. unfold pick_uniform_index. destruct remaining as [|x l]; [by rewrite zlen_nil in Hl; lia|]. set (remaining := x :: l) in *.
  destruct (mask_range (zlen remaining) Hl) as (m & Hm & H0 & H7). cbv zeta. unfold lift, mbind, M_bind. rewrite Hm. cbn [ok_or].
  pose proof (Hfair rng) as (n & Hn & Hz). revert rng n Hn Hz. clear Hfair. induction attempts as [|fuel IH]; intros rng n Hn Hz; [lia|]. cbn [pick_loop].
  destruct (next_u32 rng) as [rng' r] eqn:Er. destruct (_ <? _) eqn:E; breflect.
  2:{ destruct n as [|n]; cbn [draw] in Hz; rewrite Er in Hz; cbn in Hz; [|by apply (IH rng' n); [lia|]].
      rewrite <- H7, Z.land_assoc, Hz, Z.land_0_l in E. lia. }
  assert (0 ≤ Z.land r m) by (apply Z.land_nonneg; by right).
  destruct (lookup_lt_is_Some_2 remaining (Z.to_nat (Z.land r m))) as [p Hp]; [unfold zlen in E; lia|].
  rewrite Hp. cbn. eexists _, _, _. split; [done|]. by apply delete_Permutation.
Qed.

Lemma pick_owners_result todo owners remaining rng :
  NoDup remaining → Forall (λ r, 0 ≤ r ∧ owners !! Z.to_nat r = Some None) remaining → (length todo ≤ length remaining ≤ 8)%nat →
  ∃ rng' owners', pick_owners next_u32 attempts todo owners remaining rng = (rng', Ok owners') ∧
     length owners' = length owners ∧ ∀ o, slot_owner_count o owners' = (slot_owner_count o owners + wanted_count o todo)%nat.
Proof.
  revert owners remaining rng. induction todo as [|o todo IH]; intros owners remaining rng Hnd Hfree Hl; cbn [pick_owners].
  { exists rng, owners. split_and!; [done..|]. intros o. change (wanted_count o []) with 0%nat. lia. }
  cbn [length] in Hl. unfold mbind, M_bind, lift.
  destruct (pick_result remaining rng) as (rng' & p & rest & -> & Hperm); [unfold zlen; lia|].
  rewrite Hperm in Hnd, Hfree, Hl. apply NoDup_cons in Hnd as [Hp Hnd]. apply Forall_cons in Hfree as [[Hp0 Hpn] Hfree].
  unfold set_owner. rewrite Hpn. cbn [or_panic ok_or mbind result_bind].
  destruct (IH (<[Z.to_nat p := Some o]> owners) rest rng') as (rng2 & owners' & He & Hlen & Hcount); [done| |cbn [length] in Hl; lia|].
  { rewrite Forall_forall in Hfree |- *. intros r Hr. destruct (Hfree r Hr) as [Hr0 Hrn]. split; [done|].
    rewrite list_lookup_insert_ne; [done|]. intros Heq. assert (p = r) by lia. by subst. }
  exists rng2, owners'. split_and!; [done|by rewrite Hlen, length_insert|]. intros o'.
  rewrite Hcount, owner_count_insert, wanted_count_cons by done. lia.
Qed.
End slots.

Lemma wanted_count_nodup o todo : NoDup todo → wanted_count o todo = if decide (o ∈ todo) then 1%nat else 0%nat.
Proof.
  induction 1 as [|x l Hx Hnd IH]; [rewrite decide_False; [done|apply not_elem_of_nil]|]. rewrite wanted_count_cons, IH.
  destruct (decide (x = o)) as [->|Hne].
  - rewrite (decide_False (P := o ∈ l)), (decide_True (P := o ∈ o :: l)); [done|by left|done].
  - destruct (decide (o ∈ l)) as [Hin|Hin]; destruct (decide (o ∈ x :: l)) as [Hin2|Hin2]; [done| | |done].
    + destruct Hin2. by right.
    + apply elem_of_cons in Hin2 as [?|?]; congruence.
Qed.

Definition planned_owners (n : Z) (direction : TunnelDirection) : list RecordOwner :=
  (if bool_decide (direction = Inbound) then [OriginatorFakeSlot] else []) ++ (RealHop <$> seqZ 0 n).
Lemma planned_nodup n d : NoDup (planned_owners n d).
Proof.
  unfold planned_owners. apply NoDup_app. split_and!.
  - case_bool_decide; repeat constructor. apply not_elem_of_nil.
  - case_bool_decide; [|by intros x ?%elem_of_nil]. intros x Hx. apply list_elem_of_singleton in Hx as ->.
    rewrite list_elem_of_fmap. by intros (? & ? & _).
  - apply NoDup_fmap_2; [by intros ?? [=]|apply NoDup_seqZ].
Qed.
Lemma planned_length n d : 0 ≤ n → zlen (planned_owners n d) = n + if bool_decide (d = Inbound) then 1 else 0.
Proof. intros Hn. unfold planned_owners. rewrite zlen_app. unfold zlen. rewrite length_fmap, length_seqZ. case_bool_decide; cbn; lia. Qed.
Lemma planned_fits n d total : 0 ≤ n ≤ 255 → build_minimum_record_count n d = Ok total →
  1 ≤ n ∧ zlen (planned_owners n d) ≤ total ∧ MIN_PRODUCTION_RECORD_COUNT ≤ total ≤ MAX_RECORD_COUNT.
Proof.
  intros Hn. unfold build_minimum_record_count. destruct (n =? 0) eqn:E0; [done|]. destruct (n >? _) eqn:E1; [done|]. breflect.
  rewrite planned_length by lia. destruct (_ >? MAX_RECORD_COUNT) eqn:E2; [done|]. breflect. intros <-%Ok_inj.
  unfold saturating_add, u8_max, MAX_RECORD_COUNT, MIN_PRODUCTION_RECORD_COUNT in *.
  split; [lia|]. destruct d; case_bool_decide; try done; destruct (_ >=? _) eqn:E3; breflect; lia.
Qed.

(** Every planned owner has exactly one slot, every other slot in use is padding. *)
Record record_set_ok (n : Z) (d : TunnelDirection) (rs : ShortBuildRecordSet) : Prop := {
  set_count : build_minimum_record_count n d = Ok (rs_count rs);
  set_size : length (rs_slots rs) = 8%nat;
  set_owned i : 0 ≤ i < rs_count rs → is_Some (slot_owner rs i);
  set_unused i : rs_count rs ≤ i < 8 → rs_slots rs !! Z.to_nat i = Some None;
  set_exact o : o ≠ PaddingFake →
    slot_owner_count o (take (Z.to_nat (rs_count rs)) (rs_slots rs)) = if decide (o ∈ planned_owners n d) then 1%nat else 0%nat;
}.

Section assign.
Context {Rng : Type} (next_u32 : Rng → Rng * Z) (attempts : nat) (Hfair : fair_draws next_u32 attempts).

Lemma assign_result n d rng : 0 ≤ n ≤ 255 →
  match build_minimum_record_count n d with
  | Err e => assign_record_slots next_u32 attempts n d rng = (rng, Err (Failed e))
  | Ok _ => ∃ rng' rs, assign_record_slots next_u32 attempts n d rng = (rng', Ok rs) ∧ record_set_ok n d rs
  end.
Proof.
  intros Hn. unfold assign_record_slots, lift, mbind, M_bind. destruct (build_minimum_record_count n d) as [total|e] eqn:Et; [|done].
  cbn [map_err]. destruct (planned_fits n d total Hn Et) as (Hn1 & Hplan & Htot). unfold MIN_PRODUCTION_RECORD_COUNT, MAX_RECORD_COUNT in Htot.
  fold (planned_owners n d).
  destruct (pick_owners_result next_u32 attempts Hfair (planned_owners n d) (replicate (Z.to_nat total) None) (seqZ 0 total) rng)
    as (rng' & owners & -> & Hlen & Hcount).
  - apply NoDup_seqZ.
  - apply Forall_forall. intros r Hr. apply elem_of_seqZ in Hr. split; [lia|]. apply lookup_replicate. split; [done|lia].
  - rewrite length_seqZ. unfold zlen in Hplan. lia.
  - eexists _, _. split; [done|]. rewrite length_replicate in Hlen.
    assert (Hl8 : take 8 (pad_owner <$> owners) = pad_owner <$> owners) by (apply take_ge; rewrite length_fmap; lia).
    rewrite Hl8. assert (Hlp : length (pad_owner <$> owners) = Z.to_nat total) by (by rewrite length_fmap).
    split; cbn [rs_count rs_slots].
    + done.
    + rewrite length_app, length_replicate. lia.
    + intros i Hi. unfold slot_owner. cbn [rs_slots]. rewrite lookup_app_l by lia. rewrite list_lookup_fmap.
      destruct (lookup_lt_is_Some_2 owners (Z.to_nat i)) as [x ->]; [lia|]. cbn. eauto.
    + intros i Hi. rewrite lookup_app_r by lia. apply lookup_replicate. split; [done|lia].
    + intros o Ho. rewrite take_app_le, take_ge by lia. rewrite owner_count_pad, Hcount, owner_count_none by done.
      by rewrite (wanted_count_nodup _ _ (planned_nodup n d)).
Qed.
End assign.

(** ** The creator's message *)
Lemma slot_for_real_hop_Some rs i s : slot_for_real_hop rs i = Some s → 0 ≤ s < rs_count rs ∧ slot_owner rs s = Some (RealHop i).
Proof.
  unfold slot_for_real_hop. intros [Hin Hb]%find_some. apply bool_decide_eq_true in Hb. split; [|done].
  apply list_elem_of_In, elem_of_seqZ in Hin. lia.
Qed.

Lemma place_records_ok count cs slots : NoDup (pc_slot <$> cs) → Forall (λ c, 0 ≤ pc_slot c < count ∧ zlen (pc_own_record c) = RECORD_BYTES) cs →
  build_records_ok count slots →
  ∃ slots', place_records cs slots = Ok slots' ∧ build_records_ok count slots' ∧
    (∀ c, c ∈ cs → slots' !! Z.to_nat (pc_slot c) = Some (pc_own_record c)) ∧
    (∀ i, 0 ≤ i → i ∉ pc_slot <$> cs → slots' !! Z.to_nat i = slots !! Z.to_nat i).
Proof.
  revert slots. induction cs as [|c cs IH]; intros slots Hnd Hall [Hl Hf]; cbn [place_records].
  { exists slots. split_and!; [done|done|by intros c ?%elem_of_nil|done]. }
  rewrite fmap_cons in Hnd. apply NoDup_cons in Hnd as [Hc Hnd]. apply Forall_cons in Hall as [[Hs Hr] Hall].
  unfold set_slot. destruct (lookup_lt_is_Some_2 slots (Z.to_nat (pc_slot c))) as [x ->]; [unfold zlen in Hl; lia|].
  cbn [or_panic ok_or mbind result_bind].
  destruct (IH (<[Z.to_nat (pc_slot c) := pc_own_record c]> slots)) as (slots' & He & Hrec & Hown & Hoth); [done|done| |].
  { split; [unfold zlen in *; by rewrite length_insert|by apply Forall_insert]. }
  exists slots'. split_and!; [done|done| |].
  - intros c' [->|Hin]%elem_of_cons; [|by apply Hown]. rewrite Hoth by (done || lia). apply list_lookup_insert_eq. unfold zlen in Hl. lia.
  - intros i Hi. rewrite fmap_cons, not_elem_of_cons. intros [Hne Hni]. rewrite Hoth by done. apply list_lookup_insert_ne. lia.
Qed.

Section prepare.
Context `{P : Ntcp2Primitives} `{X : X25519} `{C : ChaCha20}.
Context {Rng : Type} (try_fill_bytes : Rng → Z → Rng * option bytes).
Context `{L : !Ntcp2Laws P} `{LX : !X25519Laws X} `{ZX : !X25519Nonzero X} `{CL : !ChaCha20Laws C} (Hfill : fills try_fill_bytes).

Lemma originator_fake_len hash rng rng' fake : zlen hash = 32 →
  build_originator_fake_record try_fill_bytes hash rng = (rng', Ok fake) → zlen (of_wire fake) = RECORD_BYTES.
Proof.
  intros Hh. unfold build_originator_fake_record, mbind, M_bind. cbv zeta.
  destruct (fill _ _ _ _) as [rng1 [priv|]]; [|done]. destruct (fill _ _ _ rng1) as [rng2 [body|]] eqn:Eb; [|done].
  apply fill_Ok, Hfill in Eb as [Hb _]; [|by vm_compute]. intros [_ <-]%pair_Ok_inj. cbn [of_wire].
  rewrite !zlen_app, Hb, slice_length by (rewrite ?Hh; unfold HASH_PREFIX_LEN; lia). unfold ephemeral_public. rewrite x25519_public_length. done.
Qed.

Lemma records_insert count slots i r : build_records_ok count slots → zlen r = RECORD_BYTES → build_records_ok count (<[i := r]> slots).
Proof. intros [Hl Hf] Hr. split; [unfold zlen in *; by rewrite length_insert|by apply Forall_insert]. Qed.

Definition holds_originator (rs : ShortBuildRecordSet) (indices : list Z) : Prop := Exists (λ i, slot_owner rs i = Some OriginatorFakeSlot) indices.

Lemma record_slot_Ok i s : record_slot i = Ok s → s = i.
Proof. unfold record_slot. destruct (_ >? _); [done|]. by intros <-%Ok_inj. Qed.

Lemma place_fakes_ok rs oh count indices slots pads fk rng rng' slots' pads' fk' :
  (∀ hash, oh = Some hash → zlen hash = 32) → Forall (λ i, 0 ≤ i) indices → build_records_ok count slots →
  place_fakes try_fill_bytes rs oh indices slots pads fk rng = (rng', Ok (slots', pads', fk')) →
  build_records_ok count slots' ∧
  (∀ i h, 0 ≤ i → slot_owner rs i = Some (RealHop h) → slots' !! Z.to_nat i = slots !! Z.to_nat i) ∧
  (is_Some fk' ↔ is_Some fk ∨ holds_originator rs indices).
Proof.
  intros Hoh. revert slots pads fk rng. induction indices as [|index indices IH]; intros slots pads fk rng Hpos Hrec; cbn [place_fakes].
  { intros [= -> -> -> ->]. split_and!; [done|done|]. unfold holds_originator. rewrite Exists_nil. naive_solver. }
  apply Forall_cons in Hpos as [Hi Hpos]. unfold lift, mbind, M_bind. destruct (record_slot index) as [s|] eqn:Es; [|done].
  apply record_slot_Ok in Es as ->. cbn [ok_or]. unfold holds_originator. rewrite Exists_cons. fold (holds_originator rs indices).
  destruct (slot_owner rs index) as [[h| |]|] eqn:Eo; [| | |done].
  - intros (H1 & H2 & H3)%IH; [|done..]. split_and!; [done|done|]. rewrite H3. naive_solver.
  - destruct oh as [hash|]; [|done]. cbn [ok_or]. destruct (build_originator_fake_record _ _ _) as [rng1 [fake|]] eqn:Ef; [|done].
    apply originator_fake_len in Ef; [|by apply Hoh]. unfold set_slot. destruct (slots !! Z.to_nat index); [|done]. cbn [or_panic ok_or mbind result_bind].
    intros (H1 & H2 & H3)%IH; [|done|by apply records_insert]. split_and!; [done| |].
    + intros i h Hi0 Ho. rewrite (H2 i h) by done. apply list_lookup_insert_ne. intros Heq. assert (i = index) by lia. congruence.
    + rewrite H3. naive_solver.
  - destruct (build_padding_fake_record _ _) as [rng1 [fake|]] eqn:Ef; [|done].
    unfold build_padding_fake_record in Ef. apply fill_Ok, Hfill in Ef as [Hz _]; [|by vm_compute].
    unfold set_slot. destruct (slots !! Z.to_nat index); [|done]. cbn [or_panic ok_or mbind result_bind].
    intros (H1 & H2 & H3)%IH; [|done|by apply records_insert]. split_and!; [done| |].
    + intros i h Hi0 Ho. rewrite (H2 i h) by done. apply list_lookup_insert_ne. intros Heq. assert (i = index) by lia. congruence.
    + rewrite H3. naive_solver.
Qed.

(** The fields of a hop are of the types the code gives them. *)
Record hop_spec_ok (spec : MultiRecordHopSpec) : Prop := {
  spec_hash : zlen (hs_router_hash spec) = 32;
  spec_next_router : length (hs_next_router_hash spec) = 32%nat;
  spec_receive : 0 < hs_receive_tunnel spec ≤ u32_max;
  spec_next : 0 < hs_next_tunnel spec ≤ u32_max;
}.

Lemma prepare_hop_ok rs t mid spec priv rng rng' c : hop_spec_ok spec → hs_static_encryption_key spec = x25519_public priv → 0 ≤ t → 0 ≤ mid ≤ u32_max →
  prepare_hop try_fill_bytes rs t mid spec rng = (rng', Ok c) →
  slot_for_real_hop rs (hs_canonical_index spec) = Some (pc_slot c) ∧ pc_hop_index c = hs_canonical_index spec ∧ pc_role c = hs_role spec ∧
  zlen (pc_own_record c) = RECORD_BYTES ∧ hop_ready priv (hs_router_hash spec) c.
Proof.
  intros [Hh Hnr Hrt Hnt] Hpk Ht Hmid. unfold prepare_hop, lift, mbind, M_bind.
  destruct (slot_for_real_hop rs _) as [s|]; [|done]. cbn [ok_or].
  unfold build_hop_request_plaintext, lift, mbind, M_bind, with_err, short_record, request_try_new.
  destruct (mid =? 0) eqn:E0; [done|]. change (REQUEST_EXPIRATION_SECONDS =? 0) with false. rewrite Z.eqb_refl. cbn [negb map_err].
  set (record := mkRequest _ _ _ _ _ _ _ _ _). breflect.
  assert (Hrec : request_ok record) by (split; cbn; try done; try lia; apply empty_mapping_ok).
  destruct (request_encode_with_rng _ _ _) as [rng1 [pt|]] eqn:Ee; [|done]. cbn [map_err].
  apply (request_encode_Ok _ Hfill _ _ _ _ Hrec) in Ee as [Hl Hd].
  unfold seal_short_request, lift, mbind, M_bind. rewrite Hpk. destruct (validate_peer_key _); [|done].
  destruct (fill _ _ _ _) as [rng2 [eph|]]; [|done]. destruct (seal_short_request_with_ephemeral _ _ _ _) as [sealed|] eqn:Es; [|done]. cbn [map_err].
  unfold cryptography. destruct (derive_layer_keys_for_hop _ _) as [keys|] eqn:Ek; [|done]. cbn [map_err].
  intros [_ <-]%pair_Ok_inj. cbn [pc_slot pc_hop_index pc_role pc_own_record]. destruct (seal_request_shape _ _ _ _ _ Hh Es) as [H1 H2].
  split_and!; [done..|]. split; cbn [pc_own_record pc_state pc_layer_keys pc_role].
  - unfold prefix_matches. by apply bool_decide_eq_true.
  - exists pt, (floor_request record). split; [by eapply open_sealed_request|]. done.
  - done.
Qed.

Lemma prepare_hops_ok rs t mid path privs rng rng' cs : 0 ≤ t → 0 ≤ mid ≤ u32_max →
  Forall2 (λ spec priv, hop_spec_ok spec ∧ hs_static_encryption_key spec = x25519_public priv) path privs →
  prepare_hops try_fill_bytes rs t mid path rng = (rng', Ok cs) →
  Forall3 (λ spec priv c, slot_for_real_hop rs (hs_canonical_index spec) = Some (pc_slot c) ∧ pc_hop_index c = hs_canonical_index spec ∧
    pc_role c = hs_role spec ∧ zlen (pc_own_record c) = RECORD_BYTES ∧ hop_ready priv (hs_router_hash spec) c) path privs cs.
Proof.
  intros Ht Hmid Hall. revert rng rng' cs. induction Hall as [|spec priv path privs [Hs Hk] Hall IH]; intros rng rng' cs; cbn [prepare_hops].
  { intros [_ <-]%pair_Ok_inj. constructor. }
  unfold mbind, M_bind. destruct (prepare_hop _ _ _ _ _ _) as [rng1 [c|]] eqn:Ec; [|done].
  destruct (prepare_hops _ _ _ _ _ rng1) as [rng2 [cs'|]] eqn:Ecs; [|done]. intros [_ <-]%pair_Ok_inj.
  constructor; [by eapply prepare_hop_ok|by eapply IH].
Qed.
End prepare.

Section build_message.
Context `{P : Ntcp2Primitives} `{X : X25519} `{C : ChaCha20}.
Context {Rng : Type} (try_fill_bytes : Rng → Z → Rng * option bytes).
Context `{L : !Ntcp2Laws P} `{LX : !X25519Laws X} `{ZX : !X25519Nonzero X} `{CL : !ChaCha20Laws C} (Hfill : fills try_fill_bytes).

(** What the creator knows of a hop is what the hop is. *)
Definition hop_known (spec : MultiRecordHopSpec) (n : HopNode Rng) : Prop :=
  hop_spec_ok spec ∧ hs_static_encryption_key spec = x25519_public (hn_static_priv n) ∧ hs_router_hash spec = hn_identity n.

Record prepared_ok (path : list MultiRecordHopSpec) (nodes : list (HopNode Rng)) (msg : PreparedShortBuildMessage) (slots : list bytes) : Prop := {
  prepared_count : 1 ≤ rs_count (pm_record_set msg) ≤ MAX_RECORD_COUNT;
  prepared_payload : pm_payload msg = rs_count (pm_record_set msg) :: concat slots;
  prepared_contexts : contexts_ok (rs_count (pm_record_set msg)) (pm_hop_contexts msg);
  prepared_stage : stage (rs_count (pm_record_set msg)) (pm_hop_contexts msg) 0 [] slots;
  prepared_hops : Forall3 (λ spec n c, pc_hop_index c = hs_canonical_index spec ∧ pc_role c = hs_role spec ∧
    hop_ready (hn_static_priv n) (hn_identity n) c) path nodes (pm_hop_contexts msg);
  prepared_fake : originator_fake_count (pm_record_set msg) = if pm_originator_fake msg is Some _ then 1 else 0;
}.

Lemma holds_originator_count n d rs : record_set_ok n d rs →
  (holds_originator rs (seqZ 0 (rs_count rs)) ↔ originator_fake_count rs = 1) ∧ (originator_fake_count rs = 0 ∨ originator_fake_count rs = 1).
Proof.
  intros Hrs. pose proof (set_exact _ _ _ Hrs OriginatorFakeSlot) as He.
  change (originator_fake_count rs) with (Z.of_nat (slot_owner_count OriginatorFakeSlot (take (Z.to_nat (rs_count rs)) (rs_slots rs)))).
  assert (Hh : holds_originator rs (seqZ 0 (rs_count rs)) ↔ Some OriginatorFakeSlot ∈ take (Z.to_nat (rs_count rs)) (rs_slots rs)).
  { unfold holds_originator. rewrite Exists_exists. split.
    - intros (i & Hi & Ho). apply elem_of_seqZ in Hi. unfold slot_owner in Ho. apply (list_elem_of_lookup_2 _ (Z.to_nat i)).
      rewrite lookup_take_lt by lia. destruct (rs_slots rs !! Z.to_nat i) as [x|]; [|done]. cbn in Ho. by subst.
    - intros [i Hi]%list_elem_of_lookup_1. apply lookup_take_Some in Hi as [Hi Hlt]. exists (Z.of_nat i). split; [apply elem_of_seqZ; lia|].
      unfold slot_owner. rewrite Nat2Z.id, Hi. done. }
  rewrite Hh. rewrite He by done. split; [|case_decide; lia].
  assert (Hc : Some OriginatorFakeSlot ∈ take (Z.to_nat (rs_count rs)) (rs_slots rs) ↔
    slot_owner_count OriginatorFakeSlot (take (Z.to_nat (rs_count rs)) (rs_slots rs)) ≠ 0%nat).
  { unfold slot_owner_count. split.
    - intros Hin H0. apply length_zero_iff_nil in H0.
      assert (Hf : Some OriginatorFakeSlot ∈ filter (λ x, x = Some OriginatorFakeSlot) (take (Z.to_nat (rs_count rs)) (rs_slots rs))) by by apply list_elem_of_filter.
      rewrite H0 in Hf. by apply elem_of_nil in Hf.
    - intros Hn. destruct (filter _ _) as [|x l] eqn:E; [done|].
      assert (x ∈ filter (λ x, x = Some OriginatorFakeSlot) (take (Z.to_nat (rs_count rs)) (rs_slots rs))) as [-> Hin]%list_elem_of_filter by (rewrite E; left). done. }
  rewrite Hc, He by done. case_decide; lia.
Qed.

Lemma contexts_from_path rs path nodes cs :
  (∀ j spec, path !! j = Some spec → hs_canonical_index spec = Z.of_nat j) →
  Forall3 (λ spec (n : HopNode Rng) c, slot_for_real_hop rs (hs_canonical_index spec) = Some (pc_slot c) ∧ pc_hop_index c = hs_canonical_index spec) path nodes cs →
  contexts_ok (rs_count rs) cs.
Proof.
  intros Hidx Hall. assert (Hget : ∀ j c, cs !! j = Some c → slot_for_real_hop rs (Z.of_nat j) = Some (pc_slot c) ∧ pc_hop_index c = Z.of_nat j).
  { intros j c Hj. destruct (Forall3_lookup_r _ _ _ _ _ _ Hall Hj) as (spec & n & Hs & _ & Hslot & Hi). apply Hidx in Hs. rewrite Hs in *. done. }
  split.
  - apply NoDup_alt. intros i j s. rewrite !list_lookup_fmap. destruct (cs !! i) as [ci|] eqn:Ei; [|done]. destruct (cs !! j) as [cj|] eqn:Ej; [|done].
    cbn. intros [= <-] [= Heq]. destruct (Hget i ci Ei) as [H1 _]. destruct (Hget j cj Ej) as [H2 _]. rewrite Heq in H2.
    apply slot_for_real_hop_Some in H1 as [_ H1]. apply slot_for_real_hop_Some in H2 as [_ H2]. rewrite H1 in H2. injection H2 as H2. lia.
  - apply Forall_lookup. intros j c Hj. by apply (slot_for_real_hop_Some rs (Z.of_nat j)), Hget.
  - intros j c Hj. by apply Hget.
Qed.

Lemma encode_stbm_payload rs slots : build_records_ok (rs_count rs) slots → 1 ≤ rs_count rs ≤ MAX_RECORD_COUNT →
  encode_short_tunnel_build_payload rs slots = Ok (rs_count rs :: concat slots).
Proof.
  intros [Hl _] Hc. unfold encode_short_tunnel_build_payload. cbv zeta. destruct (_ =? 0) eqn:E0; breflect; [lia|].
  destruct (_ >? _) eqn:E1; breflect; [lia|]. by rewrite Hl, Z.eqb_refl.
Qed.

(** The contexts of a prepared path. *)
Lemma prepare_contexts rs t mid path nodes rng rng' cs : 0 ≤ t → 0 ≤ mid ≤ u32_max → Forall2 hop_known path nodes →
  (∀ j spec, path !! j = Some spec → hs_canonical_index spec = Z.of_nat j) →
  prepare_hops try_fill_bytes rs t mid path rng = (rng', Ok cs) →
  Forall3 (λ spec (n : HopNode Rng) c, slot_for_real_hop rs (hs_canonical_index spec) = Some (pc_slot c) ∧ pc_hop_index c = hs_canonical_index spec ∧
    pc_role c = hs_role spec ∧ zlen (pc_own_record c) = RECORD_BYTES ∧ hop_ready (hn_static_priv n) (hn_identity n) c) path nodes cs ∧
  contexts_ok (rs_count rs) cs ∧
  Forall (λ c, 0 ≤ pc_slot c < rs_count rs ∧ zlen (pc_own_record c) = RECORD_BYTES) cs.
Proof.
  intros Ht Hmid Hknown Hidx Ecs. apply (prepare_hops_ok try_fill_bytes Hfill rs t mid path (hn_static_priv <$> nodes)) in Ecs; [|done|done|].
  2:{ apply Forall2_fmap_r. eapply Forall2_impl; [exact Hknown|]. by intros ?? (? & ? & _). }
  assert (Hcs : Forall3 (λ spec (n : HopNode Rng) c, slot_for_real_hop rs (hs_canonical_index spec) = Some (pc_slot c) ∧ pc_hop_index c = hs_canonical_index spec ∧
    pc_role c = hs_role spec ∧ zlen (pc_own_record c) = RECORD_BYTES ∧ hop_ready (hn_static_priv n) (hn_identity n) c) path nodes cs).
  { clear -Ecs Hknown. revert cs Ecs. induction Hknown as [|spec n path nodes (_ & _ & Hh) Hk IH]; intros cs Ecs; [inversion Ecs; subst; constructor|].
    rewrite fmap_cons in Ecs. inversion Ecs; subst. constructor; [by rewrite <- Hh|by apply IH]. }
  assert (Hok : contexts_ok (rs_count rs) cs).
  { apply (contexts_from_path rs path nodes); [done|]. eapply Forall3_impl; [exact Hcs|]. naive_solver. }
  split_and!; [done|done|]. apply Forall_lookup. intros j c Hj. split; [by eapply (Forall_lookup_1 _ _ _ _ (contexts_range _ _ Hok))|].
  destruct (Forall3_lookup_r _ _ _ _ _ _ Hcs Hj) as (spec & n & _ & _ & _ & _ & _ & Hz & _). done.
Qed.
Lemma blank_records count : 0 ≤ count → build_records_ok count (replicate (Z.to_nat count) (replicate (Z.to_nat RECORD_BYTES) 0)).
Proof. intros Hc. split; [unfold zlen; rewrite length_replicate; lia|]. by apply Forall_replicate. Qed.

(** A prepared message: every record where its hop will find it. *)
Lemma prepare_result (next_u32 : Rng → Rng * Z) attempts path nodes d t mid first oh rng rng' msg :
  fair_draws next_u32 attempts → (∀ hash, oh = Some hash → zlen hash = 32) → 0 ≤ t → 0 ≤ mid ≤ u32_max → Forall2 hop_known path nodes →
  (∀ j spec, path !! j = Some spec → hs_canonical_index spec = Z.of_nat j) →
  prepare_short_build_message next_u32 try_fill_bytes attempts path d t mid first oh rng = (rng', Ok msg) →
  ∃ slots, prepared_ok path nodes msg slots.
Proof.
  intros Hfair Hoh Ht Hmid Hknown Hidx. unfold prepare_short_build_message. destruct path as [|spec0 path0]; [done|]. set (path := spec0 :: path0) in *.
  destruct (_ && _); [done|]. unfold lift, mbind, M_bind. destruct (validate_role_topology _ _); [|done]. cbn [map_err].
  destruct (validate_routing_chain _); [|done]. cbn [map_err].
  assert (Hmod : 0 ≤ zlen path mod 256 ≤ 255) by (pose proof (Z.mod_pos_bound (zlen path) 256 eq_refl); lia).
  pose proof (assign_result next_u32 attempts Hfair (zlen path mod 256) d rng Hmod) as Ha.
  destruct (assign_record_slots _ _ _ _ _) as [rng1 [rs|e]]; [|done].
  destruct (build_minimum_record_count _ _) eqn:Eb; [|done]. destruct Ha as (? & ? & [= <- <-] & Hrs).
  destruct (planned_fits _ _ _ Hmod (set_count _ _ _ Hrs)) as (_ & _ & Hcount).
  unfold MIN_PRODUCTION_RECORD_COUNT in Hcount.
  destruct (prepare_hops _ _ _ _ _ _) as [rng2 [cs|]] eqn:Ecs; [|done].
  apply (prepare_contexts rs t mid path nodes) in Ecs as (Hcs & Hok & Hsz); [|done..].
  destruct (place_records_ok (rs_count rs) cs _ (contexts_slots _ _ Hok) Hsz (blank_records (rs_count rs) ltac:(lia))) as (slots1 & -> & Hrec1 & Hown & _).
  destruct (place_fakes _ _ _ _ _ _ _ _) as [rng3 [[[slots2 pads] fake]|]] eqn:Ef; [|done].
  apply (place_fakes_ok try_fill_bytes Hfill rs oh (rs_count rs)) in Ef as (Hrec2 & Hreal & Hfake); [|done| |done].
  2:{ apply Forall_forall. intros i Hi. apply elem_of_seqZ in Hi. lia. }
  destruct (_ && _); [done|].
  destruct (preprocess_spec cs (rs_count rs) slots2 Hok Hrec2) as (slots3 & -> & Hrec3 & Hlay).
  rewrite (encode_stbm_payload rs slots3) by (done || lia). cbn [map_err]. intros [_ <-]%pair_Ok_inj.
  exists slots3. split; cbn [pm_record_set pm_payload pm_hop_contexts pm_originator_fake]; [lia|done|done| | |].
  - split; [done|done|]. intros j c Hj. rewrite (Hlay j c Hj).
    destruct (Forall3_lookup_r _ _ _ _ _ _ Hcs Hj) as (spec & n & _ & _ & Hslot & _). apply slot_for_real_hop_Some in Hslot as [Hrange Howner].
    rewrite (Hreal _ _ (proj1 Hrange) Howner), Hown by (by eapply list_elem_of_lookup_2). cbn. unfold staged. destruct j; cbn; by rewrite ?drop_0.
  - eapply Forall3_impl; [exact Hcs|]. cbv beta. naive_solver.
  - destruct (holds_originator_count _ _ _ Hrs) as [Hho H01]. rewrite Hho in Hfake. destruct fake as [fk|].
    + apply proj1 in Hfake. destruct Hfake as [[? [=]]|]; [eauto|done].
    + destruct H01 as [|H1]; [done|]. destruct (proj2 Hfake (or_intror H1)) as [? [=]].
Qed.
End build_message.

(** ** A valid path is always prepared *)
Section total.
Context `{P : Ntcp2Primitives} `{X : X25519} `{C : ChaCha20}.
Context {Rng : Type} (next_u32 : Rng → Rng * Z) (try_fill_bytes : Rng → Z → Rng * option bytes) (attempts : nat).
Context `{L : !Ntcp2Laws P} `{LX : !X25519Laws X} `{ZX : !X25519Nonzero X} `{CL : !ChaCha20Laws C} (Hfill : fills try_fill_bytes).
Context (Hfair : fair_draws next_u32 attempts).

(** The generator failed. *)
Definition randomness_failed (e : BuildStop) : Prop :=
  (e = Failed MrRandomnessUnavailable ∨ e = Failed (MrShortRecord SbRandomnessUnavailable) ∨
   e = Failed (MrCryptography BcRandomnessUnavailable)) ∧ generator_fails try_fill_bytes.
Lemma fill_fails rng len rng' : try_fill_bytes rng len = (rng', None) → generator_fails try_fill_bytes.
Proof. intros E. by eexists _, _; rewrite E. Qed.

Lemma slot_found n d rs i : record_set_ok n d rs → 0 ≤ i < n → is_Some (slot_for_real_hop rs i).
Proof.
  intros Hrs Hi. pose proof (set_exact _ _ _ Hrs (RealHop i) ltac:(done)) as He. rewrite decide_True in He.
  2:{ unfold planned_owners. apply elem_of_app. right. apply list_elem_of_fmap. exists i. split; [done|]. apply elem_of_seqZ. lia. }
  unfold slot_owner_count in He. destruct (filter _ _) as [|x l] eqn:E; [done|].
  assert (x ∈ filter (λ x, x = Some (RealHop i)) (take (Z.to_nat (rs_count rs)) (rs_slots rs))) as [-> Hin]%list_elem_of_filter by (rewrite E; left).
  apply list_elem_of_lookup_1 in Hin as [j Hj]. apply lookup_take_Some in Hj as [Hj Hlt].
  unfold slot_for_real_hop. destruct (find _ _) as [s|] eqn:Ef; [eauto|]. exfalso.
  pose proof (find_none _ _ Ef (Z.of_nat j)) as Hn. cbv beta in Hn.
  rewrite bool_decide_true in Hn; [|unfold slot_owner; by rewrite Nat2Z.id, Hj].
  specialize (Hn ltac:(apply list_elem_of_In, elem_of_seqZ; lia)). done.
Qed.

Lemma prepare_hop_total rs t mid spec priv rng : hop_spec_ok spec → hs_static_encryption_key spec = x25519_public priv →
  0 ≤ t → t / 1000 ≤ u32_max → 0 < mid ≤ u32_max → is_Some (slot_for_real_hop rs (hs_canonical_index spec)) →
  (∃ rng' c, prepare_hop try_fill_bytes rs t mid spec rng = (rng', Ok c)) ∨
  (∃ rng' e, prepare_hop try_fill_bytes rs t mid spec rng = (rng', Err e) ∧ randomness_failed e).
Proof.
  intros [Hh Hnr Hrt Hnt] Hpk Ht0 Ht Hmid [s Hs]. unfold prepare_hop, lift, mbind, M_bind. rewrite Hs. cbn [ok_or].
  unfold build_hop_request_plaintext, lift, mbind, M_bind, with_err, short_record, request_try_new.
  destruct (mid =? 0) eqn:E0; breflect; [lia|]. change (REQUEST_EXPIRATION_SECONDS =? 0) with false. rewrite Z.eqb_refl. cbn [negb map_err].
  set (record := mkRequest _ _ _ _ _ _ _ _ _).
  assert (Hrec : request_ok record) by (split; cbn; try done; try lia; apply empty_mapping_ok).
  destruct (request_encode_total try_fill_bytes record rng Hrec Ht) as [(rng1 & pt & Ee)|(rng1 & Ee & Hg)]; rewrite Ee; cbn [map_err].
  2:{ right. eexists _, _. split; [done|]. unfold randomness_failed. naive_solver. }
  apply (request_encode_Ok _ Hfill _ _ _ _ Hrec) in Ee as [Hl _].
  unfold seal_short_request, lift, mbind, M_bind, validate_peer_key. rewrite Hpk, x25519_public_nonzero.
  unfold fill. destruct (try_fill_bytes rng1 _) as [rng2 [eph|]] eqn:Ef.
  2:{ right. eexists _, _. split; [done|]. apply fill_fails in Ef. unfold randomness_failed. naive_solver. }
  destruct (seal_request_total pt priv (hs_router_hash spec) eph Hl) as [sealed ->]. cbn [map_err]. unfold cryptography, derive_layer_keys_for_hop.
  destruct (derive_layer_keys_Ok (sealed_state sealed) (bool_decide (hs_role spec = HopOutboundEndpoint))) as [keys ->]. left. eauto.
Qed.

(** A record has no room for a request time beyond 32 bits of seconds. *)
Lemma prepare_hop_late rs t mid spec rng : u32_max < t / 1000 → 0 < mid → is_Some (slot_for_real_hop rs (hs_canonical_index spec)) →
  prepare_hop try_fill_bytes rs t mid spec rng = (rng, Err (Failed (MrShortRecord (SbRequestTimeOverflow t)))).
Proof.
  intros Ht Hmid [s Hs]. unfold prepare_hop, lift, mbind, M_bind. rewrite Hs. cbn [ok_or].
  unfold build_hop_request_plaintext, lift, mbind, M_bind, with_err, short_record, request_try_new.
  destruct (mid =? 0) eqn:E0; breflect; [lia|]. change (REQUEST_EXPIRATION_SECONDS =? 0) with false. rewrite Z.eqb_refl. cbn [negb map_err].
  unfold request_encode_with_rng, lift, mbind, M_bind, request_time_minutes. cbn [sr_request_time].
  destruct (t / 1000 >? u32_max) eqn:E; breflect; [done|lia].
Qed.

Lemma prepare_hops_total rs t mid path (nodes : list (HopNode Rng)) rng : 0 ≤ t → t / 1000 ≤ u32_max → 0 < mid ≤ u32_max →
  Forall2 hop_known path nodes → Forall (λ spec, is_Some (slot_for_real_hop rs (hs_canonical_index spec))) path →
  (∃ rng' cs, prepare_hops try_fill_bytes rs t mid path rng = (rng', Ok cs)) ∨
  (∃ rng' e, prepare_hops try_fill_bytes rs t mid path rng = (rng', Err e) ∧ randomness_failed e).
Proof.
  intros Ht0 Ht Hmid Hall. revert rng. induction Hall as [|spec n path nodes (Hs & Hk & _) Hall IH]; intros rng Hslots; cbn [prepare_hops]; [left; by eexists _, _|].
  apply Forall_cons in Hslots as [Hslot Hslots]. unfold mbind, M_bind.
  destruct (prepare_hop_total rs t mid spec (hn_static_priv n) rng Hs Hk Ht0 Ht Hmid Hslot) as [(rng1 & c & ->)|(rng1 & e & -> & He)]; [|right; by eexists _, _].
  destruct (IH rng1 Hslots) as [(rng2 & cs & ->)|(rng2 & e & -> & He)]; [left|right]; by eexists _, _.
Qed.

Lemma place_fakes_total rs oh indices slots pads fk rng :
  Forall (λ i, 0 ≤ i < zlen slots ∧ i ≤ 7 ∧ is_Some (slot_owner rs i) ∧ (slot_owner rs i = Some OriginatorFakeSlot → is_Some oh)) indices →
  (∃ rng' out, place_fakes try_fill_bytes rs oh indices slots pads fk rng = (rng', Ok out)) ∨
  (∃ rng' e, place_fakes try_fill_bytes rs oh indices slots pads fk rng = (rng', Err e) ∧ randomness_failed e).
Proof.
  revert slots pads fk rng. induction indices as [|index indices IH]; intros slots pads fk rng Hall; cbn [place_fakes]; [left; by eexists _, _|].
  apply Forall_cons in Hall as [(Hi & H7 & [o Ho] & Horig) Hall]. unfold lift, mbind, M_bind, record_slot.
  destruct (index >? 7) eqn:E7; breflect; [lia|]. cbn [ok_or]. rewrite Ho.
  destruct (lookup_lt_is_Some_2 slots (Z.to_nat index)) as [x Hx]; [unfold zlen in Hi; lia|].
  assert (Hins : ∀ r : bytes, Forall (λ i, 0 ≤ i < zlen (<[Z.to_nat index := r]> slots) ∧ i ≤ 7 ∧ is_Some (slot_owner rs i) ∧
    (slot_owner rs i = Some OriginatorFakeSlot → is_Some oh)) indices) by (intros r; unfold zlen; by rewrite length_insert).
  unfold set_slot. rewrite Hx. cbn [or_panic ok_or mbind result_bind]. destruct o as [h| |]; [by apply IH| |].
  - destruct (Horig Ho) as [hash ->]. cbn [ok_or]. unfold build_originator_fake_record, mbind, M_bind, fill.
    destruct (try_fill_bytes rng _) as [rng1 [priv|]] eqn:Efrng; [|right; eexists _, _; split; [done|apply fill_fails in Efrng; unfold randomness_failed; naive_solver]].
    destruct (try_fill_bytes rng1 _) as [rng2 [body|]] eqn:Efrng1; [|right; eexists _, _; split; [done|apply fill_fails in Efrng1; unfold randomness_failed; naive_solver]].
    apply IH, Hins.
  - unfold build_padding_fake_record, fill.
    destruct (try_fill_bytes rng _) as [rng1 [body|]] eqn:Efrng; [|right; eexists _, _; split; [done|apply fill_fails in Efrng; unfold randomness_failed; naive_solver]].
    apply IH, Hins.
Qed.

Lemma minimum_count_bound n d total : build_minimum_record_count n d = Ok total → n ≤ MAX_RECORD_COUNT.
Proof. unfold build_minimum_record_count. destruct (n =? 0); [done|]. destruct (n >? _) eqn:E; [done|]. by breflect. Qed.

(** A path the creator may ask for. *)
Record path_valid (d : TunnelDirection) (oh : option bytes) (path : list MultiRecordHopSpec) : Prop := {
  valid_originator : d = Inbound → is_Some oh;
  valid_hash hash : oh = Some hash → zlen hash = 32;
  valid_roles : validate_role_topology d (hs_role <$> path) = Ok ();
  valid_chain : validate_routing_chain path = Ok ();
  valid_count : is_ok (build_minimum_record_count (zlen path) d) = true;
  valid_index j spec : path !! j = Some spec → hs_canonical_index spec = Z.of_nat j;
}.

Lemma originator_only_inbound n d rs i : record_set_ok n d rs → 0 ≤ i < rs_count rs → slot_owner rs i = Some OriginatorFakeSlot → d = Inbound.
Proof.
  intros Hrs Hi Ho. destruct (holds_originator_count _ _ _ Hrs) as [Hh _].
  assert (H1 : originator_fake_count rs = 1). { apply Hh, Exists_exists. exists i. split; [apply elem_of_seqZ; lia|done]. }
  change (originator_fake_count rs) with (Z.of_nat (slot_owner_count OriginatorFakeSlot (take (Z.to_nat (rs_count rs)) (rs_slots rs)))) in H1.
  rewrite (set_exact _ _ _ Hrs) in H1 by done. case_decide as Hin; [|done]. unfold planned_owners in Hin.
  case_bool_decide as Hd; [done|]. apply list_elem_of_fmap in Hin as (? & ? & _). done.
Qed.

Lemma prepare_total path (nodes : list (HopNode Rng)) d t mid first oh rng :
  path_valid d oh path → 0 ≤ t → t / 1000 ≤ u32_max → 0 < mid ≤ u32_max → Forall2 hop_known path nodes →
  (∃ rng' msg, prepare_short_build_message next_u32 try_fill_bytes attempts path d t mid first oh rng = (rng', Ok msg)) ∨
  (∃ rng' e, prepare_short_build_message next_u32 try_fill_bytes attempts path d t mid first oh rng = (rng', Err e) ∧ randomness_failed e).
Proof.
  intros [Horig Hhash Hroles Hchain Hcount Hidx] Ht0 Ht Hmid Hknown. unfold prepare_short_build_message.
  destruct path as [|spec0 path0]; [done|]. set (path := spec0 :: path0) in *.
  assert (bool_decide (d = Inbound) && bool_decide (oh = None) = false) as ->.
  { destruct (bool_decide (d = Inbound)) eqn:Ed; [|done]. apply bool_decide_eq_true, Horig in Ed as [h ->]. done. }
  unfold lift, mbind, M_bind. rewrite Hroles, Hchain. cbn [map_err].
  destruct (build_minimum_record_count (zlen path) d) as [total|] eqn:Eb; [|done]. pose proof (minimum_count_bound _ _ _ Eb) as Hn.
  unfold MAX_RECORD_COUNT in Hn. pose proof (zlen_nonneg path). rewrite Z.mod_small by lia.
  pose proof (assign_result next_u32 attempts Hfair (zlen path) d rng ltac:(lia)) as Ha. rewrite Eb in Ha.
  destruct Ha as (rng1 & rs & -> & Hrs).
  destruct (planned_fits (zlen path) d (rs_count rs) ltac:(lia) (set_count _ _ _ Hrs)) as (_ & _ & Hc). unfold MIN_PRODUCTION_RECORD_COUNT, MAX_RECORD_COUNT in Hc.
  destruct (prepare_hops_total rs t mid path nodes rng1) as [(rng2 & cs & Ecs)|(rng2 & e & -> & He)]; [done..| | |right; by eexists _, _].
  { apply Forall_lookup. intros j spec Hj. rewrite (Hidx j spec Hj). apply (slot_found (zlen path) d); [done|]. apply lookup_lt_Some in Hj. unfold zlen. lia. }
  rewrite Ecs. apply (prepare_contexts try_fill_bytes Hfill rs t mid path nodes) in Ecs as (_ & Hok & Hsz); [|done|lia|done..].
  destruct (place_records_ok (rs_count rs) cs _ (contexts_slots _ _ Hok) Hsz (blank_records (rs_count rs) ltac:(lia))) as (slots1 & -> & Hrec1 & _).
  destruct (place_fakes_total rs oh (seqZ 0 (rs_count rs)) slots1 [] None rng2) as [(rng3 & [[slots2 pads] fake] & Ef)|(rng3 & e & -> & He)]; [| |right; by eexists _, _].
  { apply Forall_forall. intros i Hi. apply elem_of_seqZ in Hi. rewrite (proj1 Hrec1). split_and!; [lia|lia|lia|by apply (set_owned _ _ _ Hrs); lia|].
    intros Ho. apply Horig. by eapply originator_only_inbound; [|split|]; try exact Ho; try exact Hrs; lia. }
  rewrite Ef. apply (place_fakes_ok try_fill_bytes Hfill rs oh (rs_count rs)) in Ef as (Hrec2 & _ & Hfake); [|done| |done].
  2:{ apply Forall_forall. intros i Hi. apply elem_of_seqZ in Hi. lia. }
  destruct (preprocess_spec cs (rs_count rs) slots2 Hok Hrec2) as (slots3 & -> & Hrec3 & _).
  rewrite (encode_stbm_payload rs slots3) by (done || unfold MAX_RECORD_COUNT; lia). cbn [map_err].
  assert (bool_decide (d = Inbound) && match fake with None => true | Some _ => false end = false) as ->; [|left; by eexists _, _].
  destruct (bool_decide (d = Inbound)) eqn:Ed; [|done]. apply bool_decide_eq_true in Ed. destruct fake; [done|]. exfalso.
  destruct (holds_originator_count _ _ _ Hrs) as [Hh _]. destruct (proj2 Hfake) as [? [=]]. right. apply Hh.
  change (originator_fake_count rs) with (Z.of_nat (slot_owner_count OriginatorFakeSlot (take (Z.to_nat (rs_count rs)) (rs_slots rs)))).
  rewrite (set_exact _ _ _ Hrs), decide_True by (done || (unfold planned_owners; rewrite bool_decide_true by done; left)). done.
Qed.

Lemma prepare_late path d t mid first oh rng :
  path_valid d oh path → u32_max < t / 1000 → 0 < mid →
  ∃ rng', prepare_short_build_message next_u32 try_fill_bytes attempts path d t mid first oh rng =
    (rng', Err (Failed (MrShortRecord (SbRequestTimeOverflow t)))).
Proof.
  intros [Horig Hhash Hroles Hchain Hcount Hidx] Ht Hmid. unfold prepare_short_build_message.
  destruct path as [|spec0 path0]; [done|].
  assert (bool_decide (d = Inbound) && bool_decide (oh = None) = false) as ->.
  { destruct (bool_decide (d = Inbound)) eqn:Ed; [|done]. apply bool_decide_eq_true, Horig in Ed as [h ->]. done. }
  unfold lift, mbind, M_bind. rewrite Hroles, Hchain. cbn [map_err].
  set (path := spec0 :: path0) in *. destruct (build_minimum_record_count (zlen path) d) as [total|] eqn:Eb; [|done].
  pose proof (minimum_count_bound _ _ _ Eb) as Hn. unfold MAX_RECORD_COUNT in Hn.
  assert (Hpos : 0 < zlen path) by (unfold path; rewrite zlen_cons; pose proof (zlen_nonneg path0); lia). rewrite Z.mod_small by lia.
  pose proof (assign_result next_u32 attempts Hfair (zlen path) d rng ltac:(lia)) as Ha. rewrite Eb in Ha. destruct Ha as (rng1 & rs & -> & Hrs).
  exists rng1. unfold path at 1. cbn [prepare_hops]. unfold mbind, M_bind. rewrite prepare_hop_late; [done|done|lia|].
  rewrite (Hidx 0%nat spec0 eq_refl). apply (slot_found (zlen path) d); [done|lia].
Qed.
End total.

Section completes.
Context `{P : Ntcp2Primitives} `{X : X25519} `{C : ChaCha20} {Rng : Type} (try_fill_bytes : Rng → Z → Rng * option bytes).
Context `{L : !Ntcp2Laws P} `{LX : !X25519Laws X} `{ZX : !X25519Nonzero X} `{CL : !ChaCha20Laws C} (Hfill : fills try_fill_bytes).

Lemma prepared_completes path nodes msg slots : prepared_ok path nodes msg slots →
  (∃ e, run_hops try_fill_bytes nodes (pm_payload msg) = Err e ∧ by_chance try_fill_bytes nodes (pm_payload msg) e) ∨
  (∃ payload results, run_hops try_fill_bytes nodes (pm_payload msg) = Ok payload ∧
     process_reply (pm_hop_contexts msg) (pm_record_set msg) payload (pm_originator_fake msg) = Ok results ∧
     hop_keys_along try_fill_bytes nodes (pm_payload msg) = Some (pc_layer_keys <$> pm_hop_contexts msg) ∧
     Forall3 (λ spec (n : HopNode Rng) r, hr_hop_index r = hs_canonical_index spec ∧ hr_response_code r = hn_response n ∧
       hr_is_obep r = bool_decide (hs_role spec = HopOutboundEndpoint)) path nodes results).
Proof.
  intros [Hcount Hpay Hok Hst Hhops Hfake]. set (cs := pm_hop_contexts msg) in *.
  assert (Hready : Forall2 (λ c (n : HopNode Rng), hop_ready (hn_static_priv n) (hn_identity n) c) (drop 0 cs) nodes).
  { rewrite drop_0. clear -Hhops. clearbody cs. induction Hhops; constructor; naive_solver. }
  rewrite Hpay. destruct (run_hops_stages try_fill_bytes Hfill _ cs nodes 0 [] slots Hcount Hok Hst Hready)
    as [He|(slots' & replies & Hrun & Hst' & Hkeys & Hopen)]; [by left|right]. rewrite drop_0 in Hopen, Hready, Hkeys. cbn [app Nat.add] in Hst'.
  assert (Hlen : length nodes = length cs) by (symmetry; by eapply Forall2_length). rewrite Hlen in Hst'.
  destruct (stage_undone _ cs replies slots' Hok Hst') as (slots2 & Hundo & Hget).
  assert (H3 : Forall3 (λ c (n : HopNode Rng) r, slots2 !! Z.to_nat (pc_slot c) = Some r ∧ reply_opens c (hn_response n) r) cs nodes replies).
  { clear -Hopen Hget. clearbody cs. revert Hget. induction Hopen as [|c n r cs nodes replies Ho _ IH]; intros Hget; constructor.
    - split; [by apply (Hget 0%nat)|done].
    - apply IH. intros j c' Hj. by apply (Hget (S j)). }
  destruct (open_replies_ok cs nodes replies slots2 H3) as (results & Hres & Hshape).
  exists (rs_count (pm_record_set msg) :: concat slots'), results. split; [done|]. split_and!; [|done|].
  - unfold process_reply. destruct (decode_encode_payload _ _ (stage_records _ _ _ _ _ Hst') Hcount) as [_ ->]. cbn [map_err mbind result_bind].
    rewrite Z.eqb_refl. cbn [negb]. rewrite (merge_sort_contexts _ cs Hok), Hundo, Hfake. destruct (pm_originator_fake msg); cbn [mbind result_bind]; done.
  - clear -Hhops Hshape. clearbody cs. revert results Hshape. induction Hhops as [|spec n c path nodes cs (Hi & Hr & _) _ IH]; intros results Hshape.
    + inversion Hshape. constructor.
    + inversion Hshape as [|? ? res ? ? results' (H1 & _ & H2 & H4) Hrest]; subst. constructor; [|by apply IH]. rewrite H1, H2, H4, Hi, Hr. done.
Qed.
End completes.


(** Slots are assigned without loss.  For a path that needs at most eight
    records, whatever the random draws, the assignment ends and gives every hop of the path exactly one slot and an inbound build exactly
    one slot for the originator's fake; all other slots of the message are padding,
    and slots beyond the count are unused.  Any other path is refused with the error
    of the record count, before the generator is used. *)
Theorem slots_assigned Rng (next_u32 : Rng → Rng * Z) attempts n d rng (Hfair : fair_draws next_u32 attempts) (Hn : 0 ≤ n ≤ 255) :
  match build_minimum_record_count n d with
  | Err e => assign_record_slots next_u32 attempts n d rng = (rng, Err (Failed e))
  | Ok _ => ∃ rng' rs, assign_record_slots next_u32 attempts n d rng = (rng', Ok rs) ∧ record_set_ok n d rs
  end.
Proof. by apply assign_result. Qed.

(** ** Witnesses *)
Definition sample_public (k : bytes) : bytes := 1 :: take 31 (k ++ replicate 31 0).
Definition sample_x25519 : X25519 := {|
  x25519_public := sample_public;
  x25519 k peer := zip_with Z.add (sample_public k) peer;
|}.
Lemma sample_x25519_laws : X25519Laws sample_x25519.
Proof.
  constructor; cbn [x25519_public x25519 sample_x25519].
  - intros k. unfold zlen, sample_public. cbn [length]. rewrite length_take, length_app, length_replicate. unfold KEY_LENGTH. lia.
  - intros a b. generalize (sample_public a) (sample_public b). induction l as [|x l IH]; intros [|y k]; cbn; [done..|]. by rewrite IH, Z.add_comm.
Qed.
Lemma sample_x25519_nonzero : X25519Nonzero sample_x25519.
Proof. by constructor. Qed.
Definition sample_chacha20 : ChaCha20 := λ key nonce position len, replicate len (fold_left Z.add (key ++ nonce) position mod 256).
Lemma sample_chacha20_laws : ChaCha20Laws sample_chacha20.
Proof. intros key nonce position len. apply length_replicate. Qed.
Definition sample_next_u32 (n : Z) : Z * Z := (n + 1, n * 2654435761 mod 2 ^ 32).
Definition sample_fill (n len : Z) : Z * option bytes := (n + 1, Some (replicate (Z.to_nat len) (n mod 256))).
Lemma sample_fills : fills sample_fill.
Proof.
  intros n len n' buf Hl [= <- <-]. split; [unfold zlen; rewrite length_replicate; lia|].
  apply Forall_replicate. unfold fits. apply Z.mod_pos_bound. lia.
Qed.

Lemma sample_draw n rng : draw sample_next_u32 n rng = (rng + Z.of_nat n) * 2654435761 mod 2 ^ 32.
Proof. revert rng. induction n as [|n IH]; intros rng; cbn [draw sample_next_u32 fst snd]; [by rewrite Z.add_0_r|]. rewrite IH. do 2 f_equal. lia. Qed.
Lemma sample_fair : fair_draws sample_next_u32 64.
Proof.
  intros rng. pose proof (Z.mod_pos_bound (- rng) 8 eq_refl) as Hb. exists (Z.to_nat (- rng mod 8)). split; [lia|].
  rewrite sample_draw, Z2Nat.id by lia. change 7 with (Z.ones 3). rewrite Z.land_ones by lia.
  rewrite Z.mod_mod_divide by (by exists (2 ^ 29)). apply Z.mod_divide; [done|]. apply Z.divide_mul_l.
  exists (- (- rng / 8)). change (2 ^ 3) with 8. pose proof (Z.div_mod (- rng) 8). lia.
Qed.

#[local] Existing Instance toy_primitives.
#[local] Existing Instance sample_x25519.
#[local] Existing Instance sample_chacha20.

Definition sample_hash (i : Z) : bytes := (100 + i) :: replicate 31 9.
Definition sample_spec (i : Z) (role : HopRole) : MultiRecordHopSpec :=
  mkHopSpec i (sample_hash i) (sample_public [i; 5]) role (1000 + i) (1001 + i) (sample_hash (i + 1)).
Definition sample_build_path : list MultiRecordHopSpec :=
  [sample_spec 0 HopParticipant; sample_spec 1 HopParticipant; sample_spec 2 HopOutboundEndpoint].
Definition sample_nodes : list (HopNode Z) :=
  [mkNode [0; 5] (sample_hash 0) BuildAccepted 3; mkNode [1; 5] (sample_hash 1) BandwidthRejected 4;
   mkNode [2; 5] (sample_hash 2) BuildAccepted 5].
Abbreviation sample_prepared :=
  (prepare_short_build_message sample_next_u32 sample_fill 64 sample_build_path Outbound 1700000123456 77 None None 1).

(** Three hops, the second of which refuses. *)
Example sample_build :
  match sample_prepared with
  | (_, Ok msg) =>
      match run_hops sample_fill sample_nodes (pm_payload msg) with
      | Ok payload =>
          match process_reply (pm_hop_contexts msg) (pm_record_set msg) payload (pm_originator_fake msg) with
          | Ok results => (λ r, (hr_hop_index r, hr_response_code r, hr_is_obep r)) <$> results =
              [(0, BuildAccepted, false); (1, BandwidthRejected, false); (2, BuildAccepted, true)]
          | Err _ => False
          end
      | Err _ => False
      end
  | _ => False
  end.
Proof. vm_compute. reflexivity. Qed.


Lemma slots_assigned_sample :
  ∃ rng' rs, assign_record_slots sample_next_u32 64 3 Inbound 1 = (rng', Ok rs) ∧ record_set_ok 3 Inbound rs.
Proof. apply (slots_assigned Z sample_next_u32 64 3 Inbound 1 sample_fair). lia. Qed.
