(* ===== verification/ShortBuild.v ===== *)
(** * The state machine of a tunnel build

    Models [i2pr-tunnel/src/short.rs] and the registrar of
    [i2pr-tunnel/src/short_state.rs]: validation of a path, the phases of an
    attempt, the reply, the material of an established tunnel, and its admission to
    the pool of [TunnelPool]. *)
From S2P Require Import Prelude Codec Common Mapping I2np Tunnel TunnelPool BuildRecord Ntcp2Crypto Ntcp2Machine BuildCrypto TunnelBuild.

(** ** Message kinds ([build.rs]) *)
Inductive BuildRecordLayout := LayoutVariable | LayoutShort.
Inductive BuildRequestKind := VariableTunnelBuildRequest | ShortTunnelBuildRequest.
Definition layout_record_size (l : BuildRecordLayout) : Z :=
  match l with LayoutVariable => VARIABLE_BUILD_RECORD_SIZE | LayoutShort => SHORT_BUILD_RECORD_SIZE end.
Definition request_message_kind (l : BuildRecordLayout) : BuildRequestKind :=
  match l with LayoutVariable => VariableTunnelBuildRequest | LayoutShort => ShortTunnelBuildRequest end.
Definition request_message_type (k : BuildRequestKind) : Z := match k with VariableTunnelBuildRequest => 23 | ShortTunnelBuildRequest => 25 end.
Inductive BuildReplyKind := VariableBuildReplyKind | OutboundBuildReplyKind.
Definition reply_message_type (k : BuildReplyKind) : Z := match k with VariableBuildReplyKind => 24 | OutboundBuildReplyKind => 26 end.
Inductive BuildRecordLayoutError := ZeroRecords | TooManyRecords (actual maximum : Z) | LayoutLengthMismatch (actual expected : Z).
Definition layout_validate (l : BuildRecordLayout) (rs : DeferredBuildRecords) : result BuildRecordLayoutError () :=
  let n := count rs in
  if n =? 0 then Err ZeroRecords
  else if n >? MAX_BUILD_RECORDS then Err (TooManyRecords n MAX_BUILD_RECORDS)
  else
  match checked_mul usize_max (layout_record_size l) n with
  | None => Err (LayoutLengthMismatch (zlen (records rs)) usize_max)
  | Some expected => if negb (zlen (records rs) =? expected) then Err (LayoutLengthMismatch (zlen (records rs)) expected) else Ok ()
  end.
Definition matched_layout (k : BuildRequestKind) : BuildRecordLayout :=
  match k with VariableTunnelBuildRequest => LayoutVariable | ShortTunnelBuildRequest => LayoutShort end.

(** ** Paths *)
Record HopSpec := mkSpec {
  hp_router_hash : bytes;
  hp_hop_hash_prefix : bytes;
  hp_static_encryption_key : bytes;
  hp_role : HopRole;
  hp_receive_tunnel : Z;
  hp_next_tunnel : Z;
}.
Definition hop_spec_new (router_hash static_encryption_key : bytes) (role : HopRole) (receive_tunnel next_tunnel : Z) : HopSpec :=
  mkSpec router_hash (slice 0 HASH_PREFIX_LEN router_hash) static_encryption_key role receive_tunnel next_tunnel.

Record ShortBuildPath := mkPath {
  bp_attempt_id : Z;
  bp_direction : TunnelDirection;
  bp_originator_hash : option bytes;
  bp_outbound_reply_router : option bytes;
  bp_creator_tunnel_id : Z;
  bp_hops : list HopSpec;
  bp_request_time : Z;
  bp_next_message_id : Z;
  bp_options : BuildOptions;
}.

Inductive StatePhase :=
  | PhPrepared | PhProtecting | PhReadyForDelivery | PhAwaitingReply | PhEstablished | PhHopRejected
  | PhTimedOut | PhCancelled | PhInvalidReply | PhCryptoFailed | PhDeliveryFailed.
#[export] Instance StatePhase_eq_dec : EqDecision StatePhase.
Proof. solve_decision. Defined.
Definition state_label (s : StatePhase) : string :=
  match s with
  | PhPrepared => "Prepared" | PhProtecting => "Protecting" | PhReadyForDelivery => "ReadyForDelivery"
  | PhAwaitingReply => "AwaitingReply" | PhEstablished => "Established" | PhHopRejected => "HopRejected"
  | PhTimedOut => "TimedOut" | PhCancelled => "Cancelled" | PhInvalidReply => "InvalidReply"
  | PhCryptoFailed => "CryptoFailed" | PhDeliveryFailed => "DeliveryFailed"
  end.

Inductive ShortBuildConstructionError :=
  | ScInvalidPath (reason : string)
  | ScLayout (error : BuildRecordLayoutError)
  | ScCryptography (error : BuildCryptographyError)
  | ScCryptographyUnavailable
  | ScAlreadyTerminal
  | ScInvalidEvent (state event : string)
  | ScReplyRecordSize (actual expected : Z)
  | ScReplyRecordCount (actual expected : Z)
  | ScInvalidReply (reason : string)
  | ScInvalidDeliveryPayload (reason : string)
  | ScRecord (error : ShortBuildError)
  | ScMissingInboundOriginatorIdentity
  | ScMissingOutboundReplyRouter
  | ScNotEstablished
  | ScEstablishedMaterialAlreadyTaken
  | ScEstablishedPathStateInvalid (reason : string).

Fixpoint validate_hops (hops : list HopSpec) : result ShortBuildConstructionError () :=
  match hops with
  | [] => Ok ()
  | hop :: rest =>
      if all_zero (hp_static_encryption_key hop) then Err (ScInvalidPath "a hop static encryption key is zero")
      else if hp_receive_tunnel hop =? 0 then Err (ScInvalidPath "a hop receive tunnel id is zero")
      else if hp_next_tunnel hop =? 0 then Err (ScInvalidPath "a hop next tunnel id is zero")
      else validate_hops rest
  end.
Definition validate_terminals (p : ShortBuildPath) : result ShortBuildConstructionError () :=
  match bp_direction p with
  | Inbound =>
      match bp_originator_hash p, bp_outbound_reply_router p with
      | None, _ => Err ScMissingInboundOriginatorIdentity
      | Some _, Some _ => Err (ScInvalidPath "inbound path must not declare an outbound reply router")
      | Some _, None => Ok ()
      end
  | Outbound =>
      match bp_originator_hash p, bp_outbound_reply_router p with
      | Some _, _ => Err (ScInvalidPath "outbound path must not declare an inbound originator hash")
      | None, None => Err ScMissingOutboundReplyRouter
      | None, Some _ => Ok ()
      end
  end.
Fixpoint validate_continuity (hops : list HopSpec) : result ShortBuildConstructionError () :=
  match hops with
  | hop :: ((following :: _) as rest) =>
      if negb (hp_next_tunnel hop =? hp_receive_tunnel following)
      then Err (ScInvalidPath "intermediate next tunnel id does not match following receive tunnel id")
      else validate_continuity rest
  | _ => Ok ()
  end.
Definition topology_error (e : MultiRecordError) : ShortBuildConstructionError :=
  match e with
  | MrRoleTopologyInvalid reason => ScInvalidPath reason
  | _ => ScInvalidPath "short build role topology is invalid"
  end.
Definition path_validate (p : ShortBuildPath) : result ShortBuildConstructionError () :=
  if zlen (bp_hops p) =? 0 then Err (ScInvalidPath "path must declare at least one hop")
  else if zlen (bp_hops p) >? MAX_BUILD_RECORDS then Err (ScInvalidPath "hop count exceeds I2P maximum")
  else if negb (bool_decide (NoDup (hp_router_hash <$> bp_hops p))) then Err (ScInvalidPath "a router may appear only once in a tunnel path")
  else if bp_request_time p =? 0 then Err (ScInvalidPath "request time must be nonzero")
  else
  _ ← validate_hops (bp_hops p);
  if bp_next_message_id p =? 0 then Err (ScInvalidPath "next message id must be nonzero")
  else
  _ ← validate_terminals p;
  _ ← validate_continuity (bp_hops p);
  map_err topology_error (validate_role_topology (bp_direction p) (hp_role <$> bp_hops p)).

Fixpoint hop_specs_from (index : Z) (hops : list HopSpec) (terminal : bytes) : list MultiRecordHopSpec :=
  match hops with
  | [] => []
  | hop :: rest =>
      let next_router_hash := match rest with following :: _ => hp_router_hash following | [] => terminal end in
      mkHopSpec (index mod 256) (hp_router_hash hop) (hp_static_encryption_key hop) (hp_role hop) (hp_receive_tunnel hop)
        (hp_next_tunnel hop) next_router_hash :: hop_specs_from (index + 1) rest terminal
  end.
Definition build_hop_specs (p : ShortBuildPath) : result ShortBuildConstructionError (list MultiRecordHopSpec) :=
  terminal ← match bp_direction p with
    | Outbound => ok_or ScMissingOutboundReplyRouter (bp_outbound_reply_router p)
    | Inbound => ok_or ScMissingInboundOriginatorIdentity (bp_originator_hash p)
    end;
  Ok (hop_specs_from 0 (bp_hops p) terminal).

Definition short_build_construction_from_multi (e : MultiRecordError) : ShortBuildConstructionError :=
  match e with
  | MrEmptyPath => ScInvalidPath "multi-record path declared no real hops"
  | MrHopCountExceedsMaximum actual maximum =>
      ScInvalidPath (if actual >? maximum then "hop count exceeds I2P maximum" else "hop count out of bounds")
  | MrRecordCountExceedsMaximum _ _ => ScInvalidPath "record count exceeds I2P maximum"
  | MrSlotExhausted => ScInvalidPath "multi-record slot allocator exhausted"
  | MrRoleTopologyInvalid reason => ScInvalidPath reason
  | MrRandomnessUnavailable => ScCryptography BcRandomnessUnavailable
  | MrOriginatorFakeModified => ScInvalidReply "originator fake record was modified after dispatch"
  | MrOriginatorFakeLengthMismatch _ _ => ScInvalidReply "originator fake record length did not match 218 bytes"
  | MrHopHashNotFound => ScInvalidReply "hop hash prefix did not match any record"
  | MrDuplicateHopHash => ScInvalidReply "duplicate hop hash prefix in multi-record message"
  | MrHopRejected _ => ScInvalidReply "hop rejected the build"
  | MrMissingOriginatorHash => ScMissingInboundOriginatorIdentity
  | MrOriginatorFakeMissing => ScInvalidPath "inbound build did not produce its originator fake"
  | MrOriginatorFakeUnexpected => ScInvalidPath "outbound build carried an originator fake"
  | MrOriginatorFakeCountInvalid _ => ScInvalidPath "short build did not contain exactly one originator fake"
  | MrCryptography error => ScCryptography error
  | MrShortRecord error => ScRecord error
  end.

(** ** The machine *)
Inductive ShortBuildAction := Deliver (first_hop message : bytes) (record_count deadline_ms : Z).
Inductive BuildEvent :=
  | EvDeliveryAccepted
  | EvDeliveryFailed (reason : string)
  | EvBuildReply (reply : bytes)
  | EvDeadlineExceeded
  | EvCancelled.
Record PerHopReply := mkHopReply { ph_hop_index : Z; ph_plaintext : bytes }.
Inductive ShortBuildOutcome :=
  | OutEstablished (slot : Z) (per_hop_replies : list PerHopReply)
  | OutHopRejected (hop_index : Z) (reply_code : ShortResponseCode)
  | OutTimedOut
  | OutCancelled
  | OutInvalidReply
  | OutCryptoFailed
  | OutDeliveryFailed.
Record ShortTunnelBuildMessage := mkMessage {
  sm_kind : BuildRequestKind;
  sm_layout : BuildRecordLayout;
  sm_records : bytes;
  sm_nonce : Z;
}.

(** Errors, panics and unbounded rejection, as in [TunnelBuild]. *)
Inductive ShortStop := Refused (error : ShortBuildConstructionError) | ShortPanicked | ShortDiverged.
Definition from_build_stop (e : BuildStop) : ShortStop :=
  match e with
  | Failed error => Refused (short_build_construction_from_multi error)
  | Panicked => ShortPanicked
  | Diverged => ShortDiverged
  end.

(** A [HopCryptoContext] is the prepared context it wraps. *)
Record ShortBuildStateMachine := mkMachine {
  mc_path : ShortBuildPath;
  mc_state : StatePhase;
  mc_contexts : list PreparedHopContext;
  mc_record_set : option ShortBuildRecordSet;
  mc_originator_fake : option OriginatorFake;
  mc_deadline_ms : Z;
  mc_last_payload : option bytes;
}.
Definition machine_new (path : ShortBuildPath) (deadline_ms : Z) : ShortBuildStateMachine :=
  mkMachine path PhPrepared [] None None deadline_ms None.
Definition mc_attempt_id (m : ShortBuildStateMachine) : Z := bp_attempt_id (mc_path m).
Definition mc_direction (m : ShortBuildStateMachine) : TunnelDirection := bp_direction (mc_path m).
Definition with_phase (s : StatePhase) (m : ShortBuildStateMachine) : ShortBuildStateMachine :=
  mkMachine (mc_path m) s (mc_contexts m) (mc_record_set m) (mc_originator_fake m) (mc_deadline_ms m) (mc_last_payload m).
Definition with_contexts (cs : list PreparedHopContext) (m : ShortBuildStateMachine) : ShortBuildStateMachine :=
  mkMachine (mc_path m) (mc_state m) cs (mc_record_set m) (mc_originator_fake m) (mc_deadline_ms m) (mc_last_payload m).

Definition obep_garlic_material (m : ShortBuildStateMachine) : option (bytes * bytes) :=
  head (omap (λ c, match garlic_reply_key (pc_layer_keys c), garlic_reply_tag (pc_layer_keys c) with
                   | Some key, Some tag => Some (key, tag)
                   | _, _ => None
                   end) (mc_contexts m)).

Section machine.
Context `{P : Ntcp2Primitives} `{X : X25519} `{C : ChaCha20}.

Section prepare.
Context {Rng : Type} (next_u32 : Rng → Rng * Z) (try_fill_bytes : Rng → Z → Rng * option bytes) (attempts : nat).
Definition prepare : M (ShortBuildStateMachine * Rng) ShortStop ShortTunnelBuildMessage := λ '(m, rng),
  if negb (bool_decide (mc_state m = PhPrepared)) then ((m, rng), Err (Refused (ScInvalidEvent (state_label (mc_state m)) "prepare")))
  else
  match path_validate (mc_path m) with
  | Err e => ((m, rng), Err (Refused e))
  | Ok _ =>
  let m := with_phase PhProtecting m in
  match build_hop_specs (mc_path m) with
  | Err e => ((m, rng), Err (Refused e))
  | Ok hop_specs =>
  let first_hop := hp_router_hash <$> head (bp_hops (mc_path m)) in
  match prepare_short_build_message next_u32 try_fill_bytes attempts hop_specs (mc_direction m) (bp_request_time (mc_path m))
          (bp_next_message_id (mc_path m)) first_hop (bp_originator_hash (mc_path m)) rng with
  | (rng, Err e) => ((m, rng), Err (from_build_stop e))
  | (rng, Ok prepared) =>
      let message := mkMessage ShortTunnelBuildRequest LayoutShort (pm_payload prepared) (bp_next_message_id (mc_path m)) in
      ((mkMachine (mc_path m) PhReadyForDelivery (pm_hop_contexts prepared) (Some (pm_record_set prepared)) (pm_originator_fake prepared)
          (mc_deadline_ms m) (Some (sm_records message)), rng), Ok message)
  end end end.
End prepare.

Definition deliver_action (message : ShortTunnelBuildMessage) (m : ShortBuildStateMachine) : result ShortBuildConstructionError ShortBuildAction :=
  '(record_count, _) ← map_err (λ _, ScInvalidDeliveryPayload "STBM payload must be count-prefixed with exactly count * 218 record bytes")
    (validate_count_prefixed_short_payload (sm_records message));
  let first_hop := default zero_hash (hp_router_hash <$> head (bp_hops (mc_path m))) in
  Ok (Deliver first_hop (sm_records message) record_count (mc_deadline_ms m)).

Definition mark_dispatched : M ShortBuildStateMachine ShortStop () := λ m,
  if negb (bool_decide (mc_state m = PhReadyForDelivery))
  then (m, Err (Refused (ScInvalidEvent (state_label (mc_state m)) "mark_dispatched")))
  else (with_phase PhAwaitingReply m, Ok ()).

(** The replies in the order of the contexts, and the first hop that refused. *)
Fixpoint collect_replies (contexts : list PreparedHopContext) (results : list ProcessedHopResult) (rejected : option (Z * ShortResponseCode))
    : result ShortStop (list PerHopReply * option (Z * ShortResponseCode)) :=
  match contexts with
  | [] => Ok ([], rejected)
  | context :: rest =>
      let hop_index := pc_hop_index context in
      result ← ok_or ShortPanicked (find (λ value, hr_hop_index value =? hop_index) results);
      let rejected :=
        if negb (bool_decide (hr_response_code result = BuildAccepted)) && negb (is_some rejected)
        then Some (hop_index, hr_response_code result) else rejected in
      '(replies, rejected) ← collect_replies rest results rejected;
      Ok (mkHopReply hop_index (hr_plaintext result) :: replies, rejected)
  end.
Definition complete_build (results : list ProcessedHopResult) : M ShortBuildStateMachine ShortStop ShortBuildOutcome := λ m,
  match collect_replies (mc_contexts m) results None with
  | Err e => (m, Err e)
  | Ok (_, Some (hop_index, code)) => (with_phase PhHopRejected m, Ok (OutHopRejected hop_index code))
  | Ok (replies, None) => (with_phase PhEstablished m, Ok (OutEstablished (bp_creator_tunnel_id (mc_path m)) replies))
  end.
Definition machine_process_reply (reply : bytes) : M ShortBuildStateMachine ShortStop ShortBuildOutcome := λ m,
  match mc_record_set m with
  | None => (with_phase PhInvalidReply m, Ok OutInvalidReply)
  | Some record_set =>
      match process_reply (mc_contexts m) record_set reply (mc_originator_fake m) with
      | Ok results => complete_build results m
      | Err (Failed _) => (with_phase PhInvalidReply m, Ok OutInvalidReply)
      | Err e => (m, Err (from_build_stop e))
      end
  end.

Definition phase_terminal (s : StatePhase) : bool :=
  match s with PhPrepared | PhProtecting | PhReadyForDelivery | PhAwaitingReply => false | _ => true end.
Definition finish_build (s : StatePhase) (outcome : ShortBuildOutcome) : M ShortBuildStateMachine ShortStop (option ShortBuildOutcome) := λ m,
  if phase_terminal (mc_state m) then (m, Err (Refused ScAlreadyTerminal)) else (with_phase s m, Ok (Some outcome)).
Definition handle_event (event : BuildEvent) : M ShortBuildStateMachine ShortStop (option ShortBuildOutcome) := λ m,
  match event with
  | EvDeliveryAccepted =>
      if negb (bool_decide (mc_state m = PhReadyForDelivery))
      then (m, Err (Refused (ScInvalidEvent (state_label (mc_state m)) "DeliveryAccepted")))
      else (with_phase PhAwaitingReply m, Ok None)
  | EvDeliveryFailed _ => finish_build PhDeliveryFailed OutDeliveryFailed m
  | EvDeadlineExceeded => finish_build PhTimedOut OutTimedOut m
  | EvCancelled => finish_build PhCancelled OutCancelled m
  | EvBuildReply reply =>
      if negb (bool_decide (mc_state m = PhAwaitingReply))
      then (m, Err (Refused (ScInvalidEvent (state_label (mc_state m)) "BuildReply")))
      else
      match machine_process_reply reply m with
      | (m, Err e) => (m, Err e)
      | (m, Ok outcome) =>
          (m, Ok (match mc_state m with
                  | PhEstablished | PhHopRejected | PhInvalidReply | PhCryptoFailed => Some outcome
                  | _ => None
                  end))
      end
  end.
Definition machine_cancel (m : ShortBuildStateMachine) : ShortBuildOutcome := OutCancelled.
End machine.

(** ** The material of an established tunnel *)
Definition zero_keys : LayerKeys := layer_keys_new (replicate 32 0) (replicate 32 0) (replicate 32 0).
Definition take_layer_keys (c : PreparedHopContext) : PreparedHopContext * LayerKeys :=
  (mkContext (pc_hop_index c) (pc_own_record c) (pc_slot c) (pc_state c) zero_keys (pc_role c), pc_layer_keys c).
Definition established_role (r : HopRole) : EstablishedRole :=
  match r with HopInboundGateway => InboundGateway | HopParticipant => Participant | HopOutboundEndpoint => OutboundEndpoint end.

(** The hop of [hop_spec], the [rest] of the path behind it. *)
Definition established_hop (p : ShortBuildPath) (hop_spec : HopSpec) (rest : list HopSpec) (keys : LayerKeys)
    : result ShortBuildConstructionError EstablishedHop :=
  let role := established_role (hp_role hop_spec) in
  let peer := hp_router_hash hop_spec in
  match bp_direction p with
  | Outbound =>
      match rest with
      | [] =>
          if negb (bool_decide (role = OutboundEndpoint))
          then Err (ScEstablishedPathStateInvalid "outbound terminal hop is not classified as OBEP")
          else Ok (hop_terminal peer role (hp_receive_tunnel hop_spec) keys)
      | following :: _ =>
          Ok (hop_with_next peer role (hp_receive_tunnel hop_spec) keys (mkNextHop (hp_router_hash following) (hp_next_tunnel hop_spec)))
      end
  | Inbound =>
      next_router ← match rest with
        | following :: _ => Ok (hp_router_hash following)
        | [] => ok_or (ScEstablishedPathStateInvalid "inbound terminal hop has no originator identity") (bp_originator_hash p)
        end;
      Ok (hop_with_next peer role (hp_receive_tunnel hop_spec) keys (mkNextHop next_router (hp_next_tunnel hop_spec)))
  end.
(** Keys are moved out one hop at a time, also when a later hop fails. *)
Fixpoint take_hops (p : ShortBuildPath) (index : nat) (todo : list HopSpec) : M (list PreparedHopContext) ShortStop (list EstablishedHop) :=
  match todo with
  | [] => mret []
  | hop_spec :: rest => λ contexts,
      match contexts !! index with
      | None => (contexts, Err ShortPanicked)
      | Some context =>
          if negb (pc_hop_index context =? Z.of_nat index mod 256)
          then (contexts, Err (Refused (ScEstablishedPathStateInvalid "context hop index does not match declared hop index")))
          else
          let '(emptied, keys) := take_layer_keys context in
          let contexts := <[index := emptied]> contexts in
          match established_hop p hop_spec rest keys with
          | Err e => (contexts, Err (Refused e))
          | Ok hop =>
              match take_hops p (S index) rest contexts with
              | (contexts, Ok hops) => (contexts, Ok (hop :: hops))
              | (contexts, Err e) => (contexts, Err e)
              end
          end
      end
  end.

Definition established_error_reason (e : EstablishedTunnelError) : string :=
  match e with
  | EmptyHopList => "empty hop list"
  | TooManyHops _ _ => "too many hops"
  | MissingInboundGateway => "inbound gateway missing"
  | MissingLocalInboundReceive => "local inbound receive missing"
  | OutboundGatewaySpecified => "outbound gateway field specified"
  | OutboundLocalReceiveSpecified => "outbound local receive field specified"
  | FirstHopRoleInvalid _ _ => "first hop role invalid"
  | LastHopRoleInvalid _ _ => "last hop role invalid"
  | FirstHopRouterMismatch _ _ => "first hop router mismatch"
  | FirstHopReceiveTunnelMismatch _ _ => "first hop receive tunnel mismatch"
  | LocalInboundReceiveMismatch _ _ => "local inbound receive mismatch"
  | MissingNextHop _ => "missing next hop"
  | MissingIntermediateHopNext => "missing intermediate hop next"
  | OutboundEndpointHasNext => "outbound endpoint has next"
  end.

Definition path_gateway (p : ShortBuildPath) : result ShortBuildConstructionError (option (bytes * Z)) :=
  match bp_direction p with
  | Inbound =>
      first ← ok_or (ScEstablishedPathStateInvalid "inbound path declared no hops") (head (bp_hops p));
      Ok (Some (hp_router_hash first, hp_receive_tunnel first))
  | Outbound => Ok None
  end.
Definition path_local_receive (p : ShortBuildPath) : result ShortBuildConstructionError (option Z) :=
  match bp_direction p with
  | Inbound =>
      final ← ok_or (ScEstablishedPathStateInvalid "inbound path declared no hops") (last (bp_hops p));
      Ok (Some (hp_next_tunnel final))
  | Outbound => Ok None
  end.

Definition take_established_material (established_at_seconds : Z) : M ShortBuildStateMachine ShortStop EstablishedMaterial := λ m,
  if negb (bool_decide (mc_state m = PhEstablished)) then (m, Err (Refused ScNotEstablished))
  else if zlen (mc_contexts m) =? 0 then (m, Err (Refused ScEstablishedMaterialAlreadyTaken))
  else if negb (zlen (mc_contexts m) =? zlen (bp_hops (mc_path m)))
  then (m, Err (Refused (ScEstablishedPathStateInvalid "context count does not match declared hop count")))
  else
  match take_hops (mc_path m) 0 (bp_hops (mc_path m)) (mc_contexts m) with
  | (contexts, Err e) => (with_contexts contexts m, Err e)
  | (_, Ok hops) =>
      let m := with_contexts [] m in
      (m, map_err Refused (
            inbound_gateway ← path_gateway (mc_path m);
            local_inbound_receive ← path_local_receive (mc_path m);
            tunnel ← map_err (λ e, ScEstablishedPathStateInvalid (established_error_reason e))
              (established_new (bp_direction (mc_path m)) (bp_creator_tunnel_id (mc_path m)) hops established_at_seconds
                 inbound_gateway local_inbound_receive);
            Ok (into_extracted tunnel)))
  end.

(** ** Admission to the pool ([short_state.rs]) *)
Inductive ShortRegistrarError :=
  | RgNotEstablished
  | RgConstruction (detail : string)
  | RgRegistration (error : RegisterError)
  | RgPool (error : Pool.PoolError)
  | RgAlreadyConsumed
  | RgEstablishedMaterialRequired.

Definition admit_material (established : EstablishedMaterial) (now_seconds : Z) : M ExploratoryPool ShortRegistrarError RegisterOutcome := λ pool,
  let '(pool, _) := Pool.advance_time now_seconds pool in
  let '(pool, outcome) :=
    match em_direction established with
    | Inbound => Pool.register_inbound_with_material established now_seconds pool
    | Outbound => Pool.register_outbound_with_material established now_seconds pool
    end in
  (pool, map_err RgRegistration outcome).

Section registrar.
Context (to_string : ShortBuildConstructionError → string).
Definition registrar_error (e : ShortBuildConstructionError) : ShortRegistrarError :=
  match e with
  | ScNotEstablished => RgNotEstablished
  | ScEstablishedMaterialAlreadyTaken => RgAlreadyConsumed
  | ScEstablishedPathStateInvalid reason => RgConstruction reason
  | other => RgConstruction (to_string other)
  end.
(** [None] is a panic. *)
Definition admit_established_machine (now_seconds : Z) : M (ShortBuildStateMachine * ExploratoryPool) (option ShortRegistrarError) RegisterOutcome :=
  λ '(m, pool),
  match take_established_material now_seconds m with
  | (m, Err (Refused e)) => ((m, pool), Err (Some (registrar_error e)))
  | (m, Err _) => ((m, pool), Err None)
  | (m, Ok material) =>
      let '(pool, outcome) := admit_material material now_seconds pool in
      ((m, pool), map_err Some outcome)
  end.
Definition admit_outcome (outcome : ShortBuildOutcome) (now_seconds : Z) : M ExploratoryPool ShortRegistrarError RegisterOutcome := λ pool,
  let '(pool, _) := Pool.advance_time now_seconds pool in
  (pool, Err (match outcome with OutEstablished _ _ => RgEstablishedMaterialRequired | _ => RgNotEstablished end)).
End registrar.

(** ** Valid paths *)
Lemma validate_hops_Ok hops : validate_hops hops = Ok () →
  Forall (λ h, all_zero (hp_static_encryption_key h) = false ∧ hp_receive_tunnel h ≠ 0 ∧ hp_next_tunnel h ≠ 0) hops.
Proof.
  induction hops as [|h hops IH]; [constructor|]. cbn [validate_hops]. destruct (all_zero _) eqn:E1; [done|].
  destruct (_ =? 0) eqn:E2; [done|]. destruct (hp_next_tunnel h =? 0) eqn:E3; [done|]. breflect. intros H. constructor; [done|by apply IH].
Qed.

(** The conditions a path must meet. *)
Record path_accepted (p : ShortBuildPath) : Prop := {
  accepted_hops : 1 ≤ zlen (bp_hops p) ≤ MAX_BUILD_RECORDS;
  accepted_distinct : NoDup (hp_router_hash <$> bp_hops p);
  accepted_fields : Forall (λ h, all_zero (hp_static_encryption_key h) = false ∧ hp_receive_tunnel h ≠ 0 ∧ hp_next_tunnel h ≠ 0) (bp_hops p);
  accepted_time : bp_request_time p ≠ 0;
  accepted_message_id : bp_next_message_id p ≠ 0;
  accepted_terminals : validate_terminals p = Ok ();
  accepted_chain : validate_continuity (bp_hops p) = Ok ();
  accepted_roles : validate_role_topology (bp_direction p) (hp_role <$> bp_hops p) = Ok ();
}.
Lemma path_validate_Ok p : path_validate p = Ok () → path_accepted p.
Proof.
  unfold path_validate. destruct (_ =? 0) eqn:E1; [done|]. destruct (_ >? _) eqn:E2; [done|]. case_bool_decide as Hnd; [|done]. cbn [negb].
  destruct (bp_request_time p =? 0) eqn:E3; [done|]. destruct (validate_hops _) as [[]|] eqn:Eh; [|done]. cbn [mbind result_bind].
  destruct (bp_next_message_id p =? 0) eqn:E4; [done|]. destruct (validate_terminals p) as [[]|] eqn:Et; [|done]. cbn [mbind result_bind].
  destruct (validate_continuity _) as [[]|] eqn:Ec; [|done]. cbn [mbind result_bind].
  destruct (validate_role_topology _ _) as [[]|] eqn:Er; [|done]. breflect. intros _. pose proof (zlen_nonneg (bp_hops p)).
  split; [lia|done|by apply validate_hops_Ok|done..].
Qed.

Lemma hop_specs_length k hops t : length (hop_specs_from k hops t) = length hops.
Proof. revert k. induction hops as [|h hops IH]; intros k; [done|]. cbn. by rewrite IH. Qed.
Lemma hop_specs_roles k hops t : hs_role <$> hop_specs_from k hops t = hp_role <$> hops.
Proof. revert k. induction hops as [|h hops IH]; intros k; [done|]. cbn. by rewrite IH. Qed.
Lemma hop_specs_index k hops t j spec : 0 ≤ k → k + zlen hops ≤ 256 → hop_specs_from k hops t !! j = Some spec → hs_canonical_index spec = k + Z.of_nat j.
Proof.
  revert k j. induction hops as [|h hops IH]; intros k j Hk Hl; [done|]. rewrite zlen_cons in Hl. pose proof (zlen_nonneg hops).
  destruct j as [|j]; cbn [hop_specs_from lookup list_lookup].
  - intros [= <-]. cbn [hs_canonical_index]. rewrite Z.mod_small; lia.
  - intros Hj. rewrite (IH (k + 1) j) by (done || lia). lia.
Qed.
Lemma hop_specs_chain k hops t : validate_continuity hops = Ok () → validate_chain (hop_specs_from k hops t) = Ok ().
Proof.
  revert k. induction hops as [|h hops IH]; intros k; [done|]. destruct hops as [|h' hops]; [done|].
  cbn [validate_continuity]. destruct (negb _) eqn:E; [done|]. intros Hc. specialize (IH (k + 1) Hc).
  cbn [hop_specs_from validate_chain hs_next_tunnel hs_receive_tunnel] in *. by rewrite E.
Qed.

(** The fields of a path are of the types the code gives them. *)
Record path_typed (p : ShortBuildPath) : Prop := {
  typed_hops : Forall (λ h, length (hp_router_hash h) = 32%nat ∧ 0 ≤ hp_receive_tunnel h ≤ u32_max ∧ 0 ≤ hp_next_tunnel h ≤ u32_max) (bp_hops p);
  typed_originator hash : bp_originator_hash p = Some hash → length hash = 32%nat;
  typed_reply_router hash : bp_outbound_reply_router p = Some hash → length hash = 32%nat;
  typed_time : 0 ≤ bp_request_time p;
  typed_message_id : 0 ≤ bp_next_message_id p ≤ u32_max;
}.

Section known.
Context `{X : X25519} {Rng : Type}.
(** The hop has the keys and the identity the path names. *)
Definition peer_known (h : HopSpec) (n : HopNode Rng) : Prop :=
  hp_static_encryption_key h = x25519_public (hn_static_priv n) ∧ hp_router_hash h = hn_identity n.

Lemma hop_specs_known k hops t nodes : length t = 32%nat →
  Forall (λ h, length (hp_router_hash h) = 32%nat ∧ 0 ≤ hp_receive_tunnel h ≤ u32_max ∧ 0 ≤ hp_next_tunnel h ≤ u32_max) hops →
  Forall (λ h, all_zero (hp_static_encryption_key h) = false ∧ hp_receive_tunnel h ≠ 0 ∧ hp_next_tunnel h ≠ 0) hops →
  Forall2 peer_known hops nodes → Forall2 hop_known (hop_specs_from k hops t) nodes.
Proof.
  intros Ht Hty Hac Hk. revert k. induction Hk as [|h n hops nodes [Hkey Hid] Hk IH]; intros k; [constructor|].
  apply Forall_cons in Hty as [(Hl & Hr & Hn) Hty]. apply Forall_cons in Hac as [(_ & Hr0 & Hn0) Hac].
  cbn [hop_specs_from]. constructor; [|by apply IH]. split; [|done].
  split; cbn [hs_router_hash hs_next_router_hash hs_receive_tunnel hs_next_tunnel]; [unfold zlen; lia| |lia..].
  destruct hops as [|h' hops]; [done|]. by apply Forall_cons in Hty as [(? & _) _].
Qed.
End known.

(** A valid path within the record count is one the creator can ask for. *)
Lemma path_specs p : path_accepted p → path_typed p → is_ok (build_minimum_record_count (zlen (bp_hops p)) (bp_direction p)) = true →
  ∃ terminal, build_hop_specs p = Ok (hop_specs_from 0 (bp_hops p) terminal) ∧ length terminal = 32%nat ∧
    path_valid (bp_direction p) (bp_originator_hash p) (hop_specs_from 0 (bp_hops p) terminal).
Proof.
  intros Hac Hty Hcount. pose proof (accepted_terminals p Hac) as Ht. unfold validate_terminals in Ht. unfold build_hop_specs.
  destruct Hac as [Hn _ _ _ _ _ Hchain Hroles]. unfold MAX_BUILD_RECORDS in Hn. destruct Hty as [_ Ho Hr _ _].
  assert (Hv : ∀ t, length t = 32%nat → (bp_direction p = Inbound → is_Some (bp_originator_hash p)) →
    path_valid (bp_direction p) (bp_originator_hash p) (hop_specs_from 0 (bp_hops p) t)).
  { intros t Hl Hin. split; [done| |by rewrite hop_specs_roles| | |].
    - intros hash Hh. unfold zlen. rewrite (Ho hash Hh). done.
    - unfold validate_routing_chain. destruct (hop_specs_from 0 (bp_hops p) t) eqn:E; [|rewrite <- E; by apply hop_specs_chain].
      apply (f_equal length) in E. rewrite hop_specs_length in E. unfold zlen in Hn. cbn in E. lia.
    - unfold zlen in *. by rewrite hop_specs_length.
    - intros j spec Hj. apply hop_specs_index in Hj; [lia|lia|lia]. }
  destruct (bp_direction p), (bp_originator_hash p) as [oh|], (bp_outbound_reply_router p) as [rr|]; try done; cbn [ok_or mbind result_bind]; eexists; (split; [done|]).
  - split; [by apply Ho|]. apply Hv; [by apply Ho|eauto].
  - split; [by apply Hr|]. apply Hv; [by apply Hr|done].
Qed.

(** ** The established tunnel *)
(** Every hop with its identity, its receive identifier and its keys, forwarding to
    the next; the last hop of an inbound tunnel forwards to its originator, the last
    hop of an outbound tunnel nowhere. *)
Inductive tunnel_chain (p : ShortBuildPath) : list HopSpec → list LayerKeys → list EstablishedHop → Prop :=
  | chain_last h k :
      tunnel_chain p [h] [k] [mkHop (hp_router_hash h) (established_role (hp_role h)) (hp_receive_tunnel h) k
        (match bp_direction p with
         | Outbound => None
         | Inbound => (λ o, mkNextHop o (hp_next_tunnel h)) <$> bp_originator_hash p
         end)]
  | chain_cons h h' hops k ks es : tunnel_chain p (h' :: hops) ks es →
      tunnel_chain p (h :: h' :: hops) (k :: ks)
        (mkHop (hp_router_hash h) (established_role (hp_role h)) (hp_receive_tunnel h) k
           (Some (mkNextHop (hp_router_hash h') (hp_next_tunnel h))) :: es).

(** The roles at the two ends. *)
Lemma validate_roles_lookup f k roles j r : validate_roles f k roles = Ok () → roles !! j = Some r → f (k + Z.of_nat j) r = Ok ().
Proof.
  revert k j. induction roles as [|r' roles IH]; intros k j; [done|]. cbn [validate_roles]. destruct (f k r') as [[]|] eqn:E; [|done].
  cbn [mbind result_bind]. intros Hrec. destruct j as [|j]; cbn.
  - intros [= ->]. by rewrite Z.add_0_r.
  - intros Hj. rewrite <- (IH (k + 1) j Hrec Hj). f_equal. lia.
Qed.
Definition ends_ok (p : ShortBuildPath) : Prop :=
  match bp_direction p with
  | Outbound => ∀ h, last (bp_hops p) = Some h → hp_role h = HopOutboundEndpoint
  | Inbound => is_Some (bp_originator_hash p) ∧ ∀ h, head (bp_hops p) = Some h → hp_role h = HopInboundGateway
  end.
Lemma accepted_ends p : path_accepted p → ends_ok p.
Proof.
  intros [Hn _ _ _ _ Ht _ Hroles]. unfold ends_ok. unfold validate_role_topology in Hroles. unfold validate_terminals in Ht.
  destruct (bp_hops p) as [|h0 hops] eqn:E; [by rewrite zlen_nil in Hn; lia|]. cbn [fmap list_fmap] in Hroles. destruct (bp_direction p).
  - split; [destruct (bp_originator_hash p); [eauto|done]|]. intros h [= ->].
    apply (validate_roles_lookup _ _ _ 0%nat (hp_role h)) in Hroles; [|done]. unfold validate_inbound_role in Hroles. by destruct (hp_role h).
  - intros h Hl. rewrite last_lookup in Hl.
    apply (validate_roles_lookup _ _ _ (Init.Nat.pred (length (h0 :: hops))) (hp_role h)) in Hroles.
    2:{ change (hp_role h0 :: (hp_role <$> hops)) with (hp_role <$> (h0 :: hops)). by rewrite list_lookup_fmap, Hl. }
    unfold validate_outbound_role in Hroles. rewrite zlen_cons in Hroles. unfold zlen in Hroles. rewrite length_fmap in Hroles.
    destruct (_ =? _) eqn:Ei; breflect; [by destruct (hp_role h)|]. cbn in Ei. lia.
Qed.

Lemma take_hops_ok p k todo contexts : 0 ≤ Z.of_nat k → Z.of_nat k + zlen todo ≤ 256 → todo ≠ [] →
  (bp_direction p = Inbound → is_Some (bp_originator_hash p)) →
  (bp_direction p = Outbound → ∀ h, last todo = Some h → hp_role h = HopOutboundEndpoint) →
  length (drop k contexts) = length todo → (∀ j c, contexts !! j = Some c → pc_hop_index c = Z.of_nat j) →
  ∃ contexts' hops, take_hops p k todo contexts = (contexts', Ok hops) ∧ tunnel_chain p todo (pc_layer_keys <$> drop k contexts) hops.
Proof.
  revert k contexts. induction todo as [|h todo IH]; intros k contexts Hk Hl Hne Hin Hout Hlen Hidx; [done|]. rewrite zlen_cons in Hl.
  cbn [take_hops]. pose proof (zlen_nonneg todo). destruct (drop k contexts) as [|c cs] eqn:Ed; [done|].
  assert (Hc : contexts !! k = Some c) by (rewrite <- (Nat.add_0_r k), <- lookup_drop, Ed; done). rewrite Hc.
  rewrite (Hidx k c Hc), Z.mod_small, Z.eqb_refl by lia. cbn [negb take_layer_keys].
  set (contexts2 := <[k := _]> contexts).
  assert (Hd : drop (S k) contexts2 = cs).
  { unfold contexts2. rewrite drop_insert_lt by lia. rewrite (drop_S contexts c k Hc) in Ed. by injection Ed. }
  assert (Hidx2 : ∀ j c', contexts2 !! j = Some c' → pc_hop_index c' = Z.of_nat j).
  { intros j c'. unfold contexts2. rewrite list_lookup_insert_Some. intros [(-> & <- & _)|(_ & Hj)]; [cbn; by apply Hidx|by apply Hidx]. }
  destruct todo as [|h' todo].
  - assert (cs = []) as -> by (destruct cs; [done|cbn in Hlen; lia]). unfold established_hop. destruct (bp_direction p) eqn:Edir.
    + destruct (Hin eq_refl) as [o Ho]. rewrite Ho. cbn. eexists _, _. split; [done|]. pose proof (chain_last p h (pc_layer_keys c)) as Hch.
      rewrite Edir, Ho in Hch. exact Hch.
    + rewrite (Hout eq_refl h eq_refl). cbn. eexists _, _. split; [done|]. pose proof (chain_last p h (pc_layer_keys c)) as Hch.
      rewrite Edir, (Hout eq_refl h eq_refl) in Hch. exact Hch.
  - destruct (IH (S k) contexts2) as (contexts' & hops & He & Hch); [lia|lia|done|done|by intros; apply Hout|rewrite Hd; cbn in *; lia|done|].
    rewrite Hd in Hch. unfold established_hop. destruct (bp_direction p) eqn:Edir; cbn [mbind result_bind]; rewrite He; (eexists _, _; split; [done|]); by constructor.
Qed.

Lemma chain_facts p hops ks es : tunnel_chain p hops ks es →
  length es = length hops ∧ hop_peer <$> es = hp_router_hash <$> hops ∧ hop_receive_tunnel <$> es = hp_receive_tunnel <$> hops ∧
  hop_role <$> es = (established_role ∘ hp_role) <$> hops ∧ hop_layer_keys <$> es = ks.
Proof. induction 1 as [|h h' hops k ks es Hc (H1 & H2 & H3 & H4 & H5)]; cbn in *; [done|]. rewrite H1, H2, H3, H4, H5. done. Qed.

Lemma chain_inbound p hops ks es : tunnel_chain p hops ks es → bp_direction p = Inbound → is_Some (bp_originator_hash p) →
  Forall has_next es ∧ ∃ e h next, last es = Some e ∧ last hops = Some h ∧ hop_next e = Some next ∧ next_tunnel next = hp_next_tunnel h.
Proof.
  intros Hc Hd [o Ho]. induction Hc as [h k|h h' hops k ks es Hc (IHn & e & hl & next & Hl1 & Hl2 & Hn & Ht)].
  - rewrite Hd, Ho. cbn. split; [by repeat constructor|]. eexists _, _, _. done.
  - split; [by constructor|]. exists e, hl, next. split_and!; [|done..]. destruct es; [done|]. done.
Qed.
Lemma chain_outbound p hops ks es : tunnel_chain p hops ks es → bp_direction p = Outbound →
  (∀ h, last hops = Some h → hp_role h = HopOutboundEndpoint) → outbound_chain es.
Proof.
  intros Hc Hd Hl. induction Hc as [h k|h h' hops k ks es Hc IH].
  - constructor. eexists [], _. split; [done|]. cbn. rewrite (Hl h eq_refl), Hd. done.
  - destruct IH as [(before & endpoint & -> & Hb & He)]; [by apply Hl|]. constructor. eexists (_ :: before), endpoint. split; [done|]. split; [by constructor|done].
Qed.

(** What the pool is to receive for a path and the keys of its hops. *)
Definition tunnel_material (p : ShortBuildPath) (keys : list LayerKeys) (now : Z) (material : EstablishedMaterial) : Prop :=
  em_direction material = bp_direction p ∧ em_creator_tunnel_id material = bp_creator_tunnel_id p ∧ em_created_at_seconds material = now ∧
  em_extracted material = true ∧ tunnel_chain p (bp_hops p) keys (em_hops material) ∧
  (bp_direction p = Inbound →
     (∃ h, head (bp_hops p) = Some h ∧ em_inbound_gateway material = (hp_router_hash h, hp_receive_tunnel h)) ∧
     (∃ h, last (bp_hops p) = Some h ∧ em_local_inbound_receive material = hp_next_tunnel h)).

Lemma chain_established p hops ks es : tunnel_chain p hops ks es → hops = bp_hops p → ends_ok p → 1 ≤ zlen hops ≤ 8 →
  ∃ g r, path_gateway p = Ok g ∧ path_local_receive p = Ok r ∧ tunnel_shape (bp_direction p) es g r ∧
    (bp_direction p = Inbound → (∃ h, head hops = Some h ∧ g = Some (hp_router_hash h, hp_receive_tunnel h)) ∧ ∃ h, last hops = Some h ∧ r = Some (hp_next_tunnel h)).
Proof.
  intros Hc -> He Hn. unfold path_gateway, path_local_receive. unfold ends_ok in He. destruct (bp_direction p) eqn:Ed.
  - destruct He as [Ho Hfirst]. destruct (chain_inbound _ _ _ _ Hc Ed Ho) as (Hnext & e & h & next & Hle & Hlh & Hne & Ht).
    destruct (chain_facts _ _ _ _ Hc) as (_ & Hp & Hr & Hro & _).
    destruct (bp_hops p) as [|h0 hops]; [by rewrite zlen_nil in Hn; lia|]. destruct es as [|e0 es]; [done|]. rewrite Hlh. cbn [head ok_or mbind result_bind].
    cbn in Hp, Hr, Hro. injection Hp as Hp _. injection Hr as Hr _. injection Hro as Hro _.
    eexists _, _. split_and!; [done|done| |intros _; split; eauto]. eexists _, _. split_and!; [done..|]. split; [done| |by exists e, next].
    exists e0. split_and!; [done| |congruence]. rewrite Hro. cbn. by rewrite (Hfirst h0 eq_refl).
  - eexists _, _. split_and!; [done|done| |done]. split_and!; [done..|]. by eapply chain_outbound.
Qed.

Lemma take_material_ok m now : path_accepted (mc_path m) → mc_state m = PhEstablished →
  length (mc_contexts m) = length (bp_hops (mc_path m)) → (∀ j c, mc_contexts m !! j = Some c → pc_hop_index c = Z.of_nat j) →
  ∃ material, take_established_material now m = (with_contexts [] m, Ok material) ∧
    tunnel_material (mc_path m) (pc_layer_keys <$> mc_contexts m) now material.
Proof.
  intros Hac Hs Hlen Hidx. pose proof (accepted_hops _ Hac) as Hn. unfold MAX_BUILD_RECORDS in Hn. pose proof (accepted_ends _ Hac) as He.
  unfold take_established_material. rewrite Hs, bool_decide_true by done. cbn [negb].
  destruct (zlen (mc_contexts m) =? 0) eqn:E0; breflect; [unfold zlen in *; lia|].
  replace (zlen (mc_contexts m)) with (zlen (bp_hops (mc_path m))) by (unfold zlen; lia). rewrite Z.eqb_refl. cbn [negb].
  destruct (take_hops_ok (mc_path m) 0 (bp_hops (mc_path m)) (mc_contexts m)) as (cs' & hops & -> & Hc); [lia|lia| | | |by rewrite drop_0|done|].
  { intros Heq. rewrite Heq, zlen_nil in Hn. lia. }
  { intros Hd. unfold ends_ok in He. rewrite Hd in He. apply He. }
  { intros Hd. unfold ends_ok in He. rewrite Hd in He. apply He. }
  rewrite drop_0 in Hc. destruct (chain_established _ _ _ _ Hc eq_refl He) as (g & r & Hg & Hr & Hshape & Hin); [lia|].
  cbn [mc_path with_contexts]. rewrite Hg, Hr. cbn [mbind result_bind].
  destruct (proj2 (established_new_iff (bp_direction (mc_path m)) (bp_creator_tunnel_id (mc_path m)) hops now g r)) as [t Ht].
  { split; [|done]. destruct (chain_facts _ _ _ _ Hc) as (Hl & _). unfold MAX_HOPS_PER_TUNNEL, zlen in *. lia. }
  rewrite Ht. apply established_new_value in Ht as ->. cbn. eexists. split; [done|]. unfold tunnel_material. cbn.
  split_and!; [done..|]. intros Hd. destruct (Hin Hd) as [(h1 & H1 & ->) (h2 & H2 & ->)]. split; eauto.
Qed.

(** ** The replies *)
Lemma find_result (results : list ProcessedHopResult) k j r : (∀ i x, results !! i = Some x → hr_hop_index x = k + Z.of_nat i) → results !! j = Some r →
  find (λ v, hr_hop_index v =? k + Z.of_nat j) results = Some r.
Proof.
  revert k j. induction results as [|x results IH]; intros k j Hidx; [done|]. cbn [find]. pose proof (Hidx 0%nat x eq_refl) as H0.
  destruct j as [|j]; cbn [lookup list_lookup].
  - intros [= ->]. rewrite H0, Z.eqb_refl. done.
  - intros Hj. destruct (_ =? _) eqn:E; breflect; [lia|]. replace (k + Z.of_nat (S j)) with (k + 1 + Z.of_nat j) by lia.
    apply IH; [|done]. intros i y Hi. rewrite (Hidx (S i) y Hi). lia.
Qed.

Section replies.
Context {Rng : Type}.
(** The first hop that does not accept. *)
Fixpoint first_refusal (k : Z) (nodes : list (HopNode Rng)) : option (Z * ShortResponseCode) :=
  match nodes with
  | [] => None
  | n :: nodes' => if bool_decide (hn_response n = BuildAccepted) then first_refusal (k + 1) nodes' else Some (k, hn_response n)
  end.

Lemma collect_replies_ok k cs (nodes : list (HopNode Rng)) results rejected :
  (∀ j c, cs !! j = Some c → pc_hop_index c = k + Z.of_nat j) →
  (∀ j n, nodes !! j = Some n → ∃ r, find (λ v, hr_hop_index v =? k + Z.of_nat j) results = Some r ∧ hr_response_code r = hn_response n) →
  length cs = length nodes →
  ∃ replies, collect_replies cs results rejected = Ok (replies, match rejected with Some x => Some x | None => first_refusal k nodes end) ∧
    ph_hop_index <$> replies = pc_hop_index <$> cs.
Proof.
  revert k nodes rejected. induction cs as [|c cs IH]; intros k nodes rejected Hc Hn Hl; destruct nodes as [|n nodes]; try done.
  { exists []. by destruct rejected as [[]|]. }
  cbn [collect_replies]. pose proof (Hc 0%nat c eq_refl) as Hi. destruct (Hn 0%nat n eq_refl) as (r & Hf & Hr). rewrite Z.add_0_r in Hi, Hf.
  cbv zeta. rewrite Hi, Hf. cbn [ok_or mbind result_bind].
  destruct (IH (k + 1) nodes (if negb (bool_decide (hr_response_code r = BuildAccepted)) && negb (is_some rejected) then Some (k, hr_response_code r) else rejected))
    as (replies & He & Hidx); [| |by injection Hl| ].
  { intros j c' Hj. rewrite (Hc (S j) c' Hj). lia. }
  { intros j n' Hj. destruct (Hn (S j) n' Hj) as (r' & Hf' & Hr'). exists r'. split; [|done]. rewrite <- Hf'. f_equal.
    replace (k + Z.of_nat (S j)) with (k + 1 + Z.of_nat j) by lia. done. }
  rewrite He. cbn [mbind result_bind]. exists (mkHopReply k (hr_plaintext r) :: replies). split; [|cbn; by rewrite Hidx, Hi]. f_equal. f_equal. cbn [first_refusal]. rewrite Hr.
  destruct (bool_decide (hn_response n = BuildAccepted)); cbn [negb andb]; destruct rejected as [[]|]; done.
Qed.
End replies.

(** ** A build from its path to its tunnel *)
Section attempt.
Context `{P : Ntcp2Primitives} `{X : X25519} `{C : ChaCha20}.
Context {Rng : Type} (next_u32 : Rng → Rng * Z) (try_fill_bytes : Rng → Z → Rng * option bytes) (attempts : nat).
Context `{L : !Ntcp2Laws P} `{LX : !X25519Laws X} `{ZX : !X25519Nonzero X} `{CL : !ChaCha20Laws C} (Hfill : fills try_fill_bytes).

(** The machine after a successful [prepare]. *)
Definition prepared_machine (p : ShortBuildPath) (deadline : Z) (msg : PreparedShortBuildMessage) : ShortBuildStateMachine :=
  mkMachine p PhReadyForDelivery (pm_hop_contexts msg) (Some (pm_record_set msg)) (pm_originator_fake msg) deadline (Some (pm_payload msg)).

Lemma prepare_machine p deadline rng (nodes : list (HopNode Rng)) :
  fair_draws next_u32 attempts → path_validate p = Ok () → path_typed p → bp_request_time p / 1000 ≤ u32_max →
  is_ok (build_minimum_record_count (zlen (bp_hops p)) (bp_direction p)) = true → Forall2 peer_known (bp_hops p) nodes →
  (∃ m rng' e, prepare next_u32 try_fill_bytes attempts (machine_new p deadline, rng) = ((m, rng'), Err (from_build_stop e)) ∧ randomness_failed try_fill_bytes e) ∨
  (∃ rng' msg specs slots, prepare next_u32 try_fill_bytes attempts (machine_new p deadline, rng) =
     ((prepared_machine p deadline msg, rng'), Ok (mkMessage ShortTunnelBuildRequest LayoutShort (pm_payload msg) (bp_next_message_id p))) ∧
     prepared_ok specs nodes msg slots ∧ (∀ j spec, specs !! j = Some spec → hs_canonical_index spec = Z.of_nat j)).
Proof.
  intros Hfair Hv Hty Ht Hcount Hk. pose proof (path_validate_Ok p Hv) as Hac. destruct (path_specs p Hac Hty Hcount) as (terminal & Hs & Hl & Hpv).
  assert (Hkn : Forall2 hop_known (hop_specs_from 0 (bp_hops p) terminal) nodes).
  { apply hop_specs_known; [done|apply Hty|apply Hac|done]. }
  assert (Hmid : 0 < bp_next_message_id p ≤ u32_max) by (pose proof (accepted_message_id p Hac); pose proof (typed_message_id p Hty); lia).
  unfold prepare. cbn [mc_state machine_new mc_path]. rewrite bool_decide_true by done. cbn [negb]. rewrite Hv.
  unfold mc_direction, with_phase, machine_new. cbn [mc_path mc_deadline_ms sm_records]. rewrite Hs.
  destruct (prepare_total next_u32 try_fill_bytes attempts Hfill Hfair _ nodes (bp_direction p) (bp_request_time p) (bp_next_message_id p)
    (hp_router_hash <$> head (bp_hops p)) (bp_originator_hash p) rng Hpv (typed_time p Hty) Ht Hmid Hkn) as [(rng' & msg & Hm)|(rng' & e & -> & He)].
  - right. rewrite Hm. apply (prepare_result try_fill_bytes Hfill next_u32 attempts _ nodes) in Hm as (slots & Hok);
      [|done|apply Hpv|apply Hty|lia|done|apply Hpv]. exists rng', msg. eexists _, slots. split; [done|]. split; [exact Hok|apply Hpv].
  - left. by eexists _, _, _.
Qed.

Lemma prepare_machine_late p deadline rng :
  fair_draws next_u32 attempts → path_validate p = Ok () → path_typed p → u32_max < bp_request_time p / 1000 →
  is_ok (build_minimum_record_count (zlen (bp_hops p)) (bp_direction p)) = true →
  ∃ m, prepare next_u32 try_fill_bytes attempts (machine_new p deadline, rng) = (m, Err (Refused (ScRecord (SbRequestTimeOverflow (bp_request_time p))))).
Proof.
  intros Hfair Hv Hty Ht Hcount. pose proof (path_validate_Ok p Hv) as Hac. destruct (path_specs p Hac Hty Hcount) as (terminal & Hs & Hl & Hpv).
  assert (Hmid : 0 < bp_next_message_id p) by (pose proof (accepted_message_id p Hac); pose proof (typed_message_id p Hty); lia).
  unfold prepare. cbn [mc_state machine_new mc_path]. rewrite bool_decide_true by done. cbn [negb]. rewrite Hv.
  unfold mc_direction, with_phase, machine_new. cbn [mc_path mc_deadline_ms sm_records]. rewrite Hs.
  destruct (prepare_late next_u32 try_fill_bytes attempts Hfair _ (bp_direction p) (bp_request_time p) (bp_next_message_id p)
    (hp_router_hash <$> head (bp_hops p)) (bp_originator_hash p) rng Hpv Ht Hmid) as [rng' ->]. by eexists.
Qed.

(** The creator's results, by index. *)
Lemma results_by_index (specs : list MultiRecordHopSpec) (nodes : list (HopNode Rng)) results :
  (∀ j spec, specs !! j = Some spec → hs_canonical_index spec = Z.of_nat j) →
  Forall3 (λ spec (n : HopNode Rng) r, hr_hop_index r = hs_canonical_index spec ∧ hr_response_code r = hn_response n ∧
    hr_is_obep r = bool_decide (hs_role spec = HopOutboundEndpoint)) specs nodes results →
  ∀ j n, nodes !! j = Some n → ∃ r, find (λ v, hr_hop_index v =? 0 + Z.of_nat j) results = Some r ∧ hr_response_code r = hn_response n.
Proof.
  intros Hidx H3 j n Hj. destruct (Forall3_lookup_m _ _ _ _ _ _ H3 Hj) as (spec & r & Hs & Hr & Hi & Hc & _). exists r. split; [|done].
  apply find_result; [|done]. intros i x Hx. destruct (Forall3_lookup_r _ _ _ _ _ _ H3 Hx) as (spec' & ? & Hs' & _ & Hi' & _).
  rewrite Hi', (Hidx i spec' Hs'). lia.
Qed.

Lemma build_ends p deadline specs (nodes : list (HopNode Rng)) msg slots :
  path_accepted p → length specs = length (bp_hops p) → prepared_ok specs nodes msg slots →
  (∀ j spec, specs !! j = Some spec → hs_canonical_index spec = Z.of_nat j) →
  match run_hops try_fill_bytes nodes (pm_payload msg) with
  | Err e => by_chance try_fill_bytes nodes (pm_payload msg) e
  | Ok reply =>
      let awaiting := with_phase PhAwaitingReply (prepared_machine p deadline msg) in
      hop_keys_along try_fill_bytes nodes (pm_payload msg) = Some (pc_layer_keys <$> pm_hop_contexts msg) ∧
      match first_refusal 0 nodes with
      | Some (i, code) => handle_event (EvBuildReply reply) awaiting = (with_phase PhHopRejected awaiting, Ok (Some (OutHopRejected i code)))
      | None => ∃ replies, handle_event (EvBuildReply reply) awaiting =
          (with_phase PhEstablished awaiting, Ok (Some (OutEstablished (bp_creator_tunnel_id p) replies)))
      end
  end.
Proof.
  intros Hac Hlen Hok Hidx. destruct (prepared_completes try_fill_bytes Hfill specs nodes msg slots Hok)
    as [(e & -> & He)|(reply & results & -> & Hr & Hkeys & H3)]; [done|]. cbv zeta. split; [done|].
  unfold handle_event, machine_process_reply, complete_build, with_phase, prepared_machine.
  cbn [mc_state mc_record_set mc_contexts mc_originator_fake mc_path]. rewrite bool_decide_true by done. cbn [negb]. rewrite Hr.
  destruct (collect_replies_ok 0 (pm_hop_contexts msg) nodes results None) as (replies & -> & _).
  - intros j c Hj. by rewrite (contexts_index _ _ (prepared_contexts _ _ _ _ Hok) j c Hj).
  - by eapply results_by_index.
  - pose proof (prepared_hops _ _ _ _ Hok) as H3'. apply Forall3_length_lm in H3' as Hl1. apply Forall3_length_lr in H3'. congruence.
  - destruct (first_refusal 0 nodes) as [[i code]|]; [done|]. by exists replies.
Qed.
End attempt.

(** Terminal phases are final: no event leaves them. *)
Lemma terminal_final `{P : Ntcp2Primitives} `{X : X25519} `{C : ChaCha20} event m :
  phase_terminal (mc_state m) = true → ∃ e, handle_event event m = (m, Err (Refused e)).
Proof.
  intros Ht. unfold handle_event, finish_build. destruct event; try (rewrite Ht; by eexists);
    (rewrite bool_decide_false by (intros Hs; by rewrite Hs in Ht)); by eexists.
Qed.

(** A reply that is not authentic ends the attempt. *)
Lemma bad_reply_ends `{P : Ntcp2Primitives} `{X : X25519} `{C : ChaCha20} reply m rs e :
  mc_state m = PhAwaitingReply → mc_record_set m = Some rs → process_reply (mc_contexts m) rs reply (mc_originator_fake m) = Err (Failed e) →
  handle_event (EvBuildReply reply) m = (with_phase PhInvalidReply m, Ok (Some OutInvalidReply)).
Proof.
  intros Hs Hr Hp. unfold handle_event, machine_process_reply. rewrite Hs, Hr, Hp, bool_decide_true by done. done.
Qed.

(** C4: from a path to a tunnel.  For every path the validator accepts and whose
    records fit a message, with hops that have the keys and identities the path
    names, the state machine of a build prepares its message, unless the request
    time has more seconds than the 32 bits of a record hold: the validator does not
    look at that, and preparing is then refused with RequestTimeOverflow.  When the
    hops have processed the message in turn and it is dispatched, the returned
    message ends the attempt: if a hop refused, with the index and the code of the
    first one that did, and no material can be taken; if all accepted, with a tunnel
    whose material can be taken exactly once, has the hops, roles, identifiers and
    next hops of the path, and holds for every hop all the keys that hop derived from
    its record, the reply and garlic keys among them.  Only a random generator that
    fails, or two records that begin as the identity of a hop, end the attempt
    otherwise. *)
Theorem short_build_completes (P : Ntcp2Primitives) (X : X25519) (C : ChaCha20) Rng (next_u32 : Rng → Rng * Z)
    (try_fill_bytes : Rng → Z → Rng * option bytes) attempts p deadline rng (nodes : list (HopNode Rng)) now
    (HL : Ntcp2Laws P) (XL : X25519Laws X) (XZ : X25519Nonzero X) (CL : ChaCha20Laws C)
    (Hfill : fills try_fill_bytes) (Hfair : fair_draws next_u32 attempts)
    (Hvalid : path_validate p = Ok ()) (Htyped : path_typed p)
    (Hcount : is_ok (build_minimum_record_count (zlen (bp_hops p)) (bp_direction p)) = true)
    (Hknown : Forall2 peer_known (bp_hops p) nodes) :
  match prepare next_u32 try_fill_bytes attempts (machine_new p deadline, rng) with
  | (_, Err e) =>
      if decide (bp_request_time p / 1000 ≤ u32_max)
      then ∃ cause, e = from_build_stop cause ∧ randomness_failed try_fill_bytes cause
      else e = Refused (ScRecord (SbRequestTimeOverflow (bp_request_time p)))
  | ((m, _), Ok message) =>
      bp_request_time p / 1000 ≤ u32_max ∧
      match run_hops try_fill_bytes nodes (sm_records message) with
      | Err e => by_chance try_fill_bytes nodes (sm_records message) e
      | Ok reply =>
          ∃ awaiting ended keys, mark_dispatched m = (awaiting, Ok ()) ∧
            hop_keys_along try_fill_bytes nodes (sm_records message) = Some keys ∧
            match first_refusal 0 nodes with
            | Some (i, code) =>
                handle_event (EvBuildReply reply) awaiting = (ended, Ok (Some (OutHopRejected i code))) ∧
                take_established_material now ended = (ended, Err (Refused ScNotEstablished))
            | None =>
                ∃ replies material, handle_event (EvBuildReply reply) awaiting = (ended, Ok (Some (OutEstablished (bp_creator_tunnel_id p) replies))) ∧
                  take_established_material now ended = (with_contexts [] ended, Ok material) ∧
                  tunnel_material p keys now material ∧
                  take_established_material now (with_contexts [] ended) = (with_contexts [] ended, Err (Refused ScEstablishedMaterialAlreadyTaken))
            end
      end
  end.
Proof.
  pose proof (path_validate_Ok p Hvalid) as Hac. destruct (decide (bp_request_time p / 1000 ≤ u32_max)) as [Htime | Hlate].
  2:{ destruct (prepare_machine_late next_u32 try_fill_bytes attempts p deadline rng Hfair Hvalid Htyped ltac:(lia) Hcount) as [[m rng'] ->]. done. }
  destruct (prepare_machine next_u32 try_fill_bytes attempts Hfill p deadline rng nodes Hfair Hvalid Htyped Htime Hcount Hknown)
    as [(m & rng' & e & -> & He)|(rng' & msg & specs & slots & -> & Hok & Hidx)]; [by exists e|]. cbn [sm_records]. split; [done|].
  assert (Hlen : length (pm_hop_contexts msg) = length (bp_hops p) ∧ length specs = length (bp_hops p)).
  { pose proof (prepared_hops _ _ _ _ Hok) as H3. apply Forall3_length_lm in H3 as H1. apply Forall3_length_lr in H3 as H2. apply Forall2_length in Hknown. lia. }
  pose proof (build_ends try_fill_bytes Hfill p deadline specs nodes msg slots Hac (proj2 Hlen) Hok Hidx) as Hend.
  destruct (run_hops try_fill_bytes nodes (pm_payload msg)) as [reply|e]; [|done]. cbv zeta in Hend. destruct Hend as [Hkeys Hend].
  set (awaiting := with_phase PhAwaitingReply (prepared_machine p deadline msg)) in *.
  exists awaiting. destruct (first_refusal 0 nodes) as [[i code]|].
  - exists (with_phase PhHopRejected awaiting). eexists. split_and!; [done|exact Hkeys|done|done].
  - destruct Hend as [replies Hend]. exists (with_phase PhEstablished awaiting). eexists. split_and!; [done|exact Hkeys|].
    destruct (take_material_ok (with_phase PhEstablished awaiting) now) as (material & Ht & Hm); [done|done|apply Hlen| |].
    { apply (contexts_index _ _ (prepared_contexts _ _ _ _ Hok)). }
    exists replies, material. done.
Qed.

(** ** Into the pool *)
Lemma registered_entry (m : EstablishedMaterial) now pool pool' slot :
  pool_ok pool → em_direction m = Inbound ∨ em_direction m = Outbound →
  (match em_direction m with
   | Inbound => Pool.register_inbound_with_material m now pool
   | Outbound => Pool.register_outbound_with_material m now pool
   end) = (pool', Ok (Inserted slot None)) →
  next_slot pool < u32_max → ∃ r, Pool.find_entry slot pool' = Some (entry_new r m).
Proof.
  intros Hok _ Hr Hlt. pose proof (fresh_slot pool Hok) as [Hi Ho].
  destruct (em_direction m); unfold Pool.register_inbound_with_material, Pool.register_outbound_with_material, Pool.take_slot in Hr; revert Hr.
  - destruct (registration_new _ _ _ _ _ _) as [r|]; [|done]. destruct (Pool.find_by_tunnel_id _ _); [done|]. destruct (_ >=? _); [done|].
    intros [= <- <-]. exists r. unfold Pool.find_entry. cbn. by rewrite lookup_insert_eq.
  - destruct (registration_new _ _ _ _ _ _) as [r|]; [|done]. destruct (Pool.find_by_tunnel_id _ _); [done|]. destruct (_ >=? _); [done|].
    intros [= <- <-]. exists r. unfold Pool.find_entry. cbn. by rewrite Hi, lookup_insert_eq.
Qed.

(** What the registrar admits, the pool hands out: the tunnel with the hops, and so
    the keys, of the material. *)
Lemma admitted_activates (m : EstablishedMaterial) now pool pool' slot : pool_ok pool → next_slot pool < u32_max → em_extracted m = true →
  admit_material m now pool = (pool', Ok (Inserted slot None)) →
  ∃ t, (Pool.activate slot pool').2 = Ok t ∧ et_hops t = em_hops m ∧ et_direction t = em_direction m ∧ et_creator_tunnel_id t = em_creator_tunnel_id m.
Proof.
  intros Hok Hlt Hex. unfold admit_material. pose proof (run_op_ok (OpAdvance now) pool Hok Hlt) as Hok1.
  change (pool_ok (Pool.advance_time now pool).1) in Hok1.
  pose proof (advance_time_run now pool (po_slots pool Hok)) as Hrun.
  destruct (Pool.advance_time now pool) as [pool1 evicted] eqn:Ea. cbn [fst] in Hok1.
  assert (Hlt1 : next_slot pool1 < u32_max) by (replace (next_slot pool1) with (next_slot (pool1, evicted).1) by done; rewrite Hrun; done).
  destruct (match em_direction m with Inbound => _ | Outbound => _ end) as [pool2 [outcome|]] eqn:Er; [|done]. cbn [map_err]. intros [= -> ->].
  destruct (registered_entry m now pool1 pool' slot Hok1 ltac:(destruct (em_direction m); auto) Er Hlt1) as [r Hf].
  unfold Pool.activate. rewrite Hf. cbn [te_material entry_new]. unfold into_established_tunnel. rewrite Hex. cbn. eexists. split; [done|]. done.
Qed.

(** ** Witness *)
#[local] Existing Instance toy_primitives.
#[local] Existing Instance sample_x25519.
#[local] Existing Instance sample_chacha20.

Definition sample_short_path : ShortBuildPath :=
  mkPath 9 Outbound None (Some (sample_hash 7)) 4242
    [hop_spec_new (sample_hash 0) (sample_public [0; 5]) HopParticipant 1000 1001;
     hop_spec_new (sample_hash 1) (sample_public [1; 5]) HopOutboundEndpoint 1001 1002] 1700000123456 77 options_empty.
Definition accepting_nodes : list (HopNode Z) :=
  [mkNode [0; 5] (sample_hash 0) BuildAccepted 3; mkNode [1; 5] (sample_hash 1) BuildAccepted 4].
Abbreviation sample_attempt := (prepare sample_next_u32 sample_fill 64 (machine_new sample_short_path 1700000200000, 1)).

(** The attempt of the sample ends with a tunnel of two hops. *)
Example sample_attempt_runs :
  match sample_attempt with
  | ((m, _), Ok message) =>
      match run_hops sample_fill accepting_nodes (sm_records message) with
      | Ok reply =>
          let awaiting := (mark_dispatched m).1 in
          let ended := (handle_event (EvBuildReply reply) awaiting).1 in
          match (take_established_material 1700000150 ended).2 with
          | Ok material => (λ h, (hop_role h, hop_receive_tunnel h, next_tunnel <$> hop_next h)) <$> em_hops material =
              [(Participant, 1000, Some 1001); (OutboundEndpoint, 1001, None)]
          | Err _ => False
          end
      | Err _ => False
      end
  | _ => False
  end.
Proof. vm_compute. reflexivity. Qed.

Lemma short_build_completes_witness :
  match sample_attempt with
  | (_, Err e) =>
      if decide (bp_request_time sample_short_path / 1000 ≤ u32_max)
      then ∃ cause, e = from_build_stop cause ∧ randomness_failed sample_fill cause
      else e = Refused (ScRecord (SbRequestTimeOverflow (bp_request_time sample_short_path)))
  | ((m, _), Ok message) =>
      bp_request_time sample_short_path / 1000 ≤ u32_max ∧
      match run_hops sample_fill accepting_nodes (sm_records message) with
      | Err e => by_chance sample_fill accepting_nodes (sm_records message) e
      | Ok reply =>
          ∃ awaiting ended keys, mark_dispatched m = (awaiting, Ok ()) ∧
            hop_keys_along sample_fill accepting_nodes (sm_records message) = Some keys ∧
            ∃ replies material, handle_event (EvBuildReply reply) awaiting = (ended, Ok (Some (OutEstablished 4242 replies))) ∧
              take_established_material 1700000150 ended = (with_contexts [] ended, Ok material) ∧
              tunnel_material sample_short_path keys 1700000150 material ∧
              take_established_material 1700000150 (with_contexts [] ended) =
                (with_contexts [] ended, Err (Refused ScEstablishedMaterialAlreadyTaken))
      end
  end.
Proof.
  apply (short_build_completes toy_primitives sample_x25519 sample_chacha20 Z sample_next_u32 sample_fill 64 sample_short_path 1700000200000 1
    accepting_nodes 1700000150 toy_laws sample_x25519_laws sample_x25519_nonzero sample_chacha20_laws sample_fills sample_fair).
  - vm_compute. reflexivity.
  - split; [by repeat constructor; vm_compute|done|by intros hash [= <-]|by vm_compute|by vm_compute].
  - vm_compute. reflexivity.
  - repeat constructor; by vm_compute.
Defined.
