(* ===== verification/Resource.v ===== *)
(** * The resource governor

    Models the resource accounting of [i2pr-core/src/lib.rs]: a budget with one
    limit per class, leases that are returned when they are dropped, and bundles
    that are admitted as one; and [i2pr-transport/src/resource.rs], the limits
    and admissions of the transport manager.  An operation is a transformer of
    the budget; the lock around it makes it one step. *)
From stdpp Require Import sorting.
From S2P Require Import Prelude.

Definition MAX_RESOURCE_CLASSES : Z := 32.

Inductive ResourceClass :=
  | ServiceTasks | ChildTasks | CommandQueueItems | EventQueueItems | BufferedBytes | SimulatedStreamLinks
  | SimulatedDatagramLinks | PendingTimers | TestPeers | Tasks | PendingHandshakes | ActiveLinks | NetDbQueries
  | TunnelBuilds | Destinations | Streams | ApiSessions.

Definition ALL : list ResourceClass :=
  [ServiceTasks; ChildTasks; CommandQueueItems; EventQueueItems; BufferedBytes; SimulatedStreamLinks;
   SimulatedDatagramLinks; PendingTimers; TestPeers; Tasks; PendingHandshakes; ActiveLinks; NetDbQueries;
   TunnelBuilds; Destinations; Streams; ApiSessions].

#[export] Instance ResourceClass_eq_dec : EqDecision ResourceClass.
Proof. solve_decision. Defined.

(** The derived order is that of the declaration. *)
Definition class_index (c : ResourceClass) : nat :=
  match c with
  | ServiceTasks => 0 | ChildTasks => 1 | CommandQueueItems => 2 | EventQueueItems => 3 | BufferedBytes => 4
  | SimulatedStreamLinks => 5 | SimulatedDatagramLinks => 6 | PendingTimers => 7 | TestPeers => 8 | Tasks => 9
  | PendingHandshakes => 10 | ActiveLinks => 11 | NetDbQueries => 12 | TunnelBuilds => 13 | Destinations => 14
  | Streams => 15 | ApiSessions => 16
  end.

Lemma ALL_index c : ALL !! class_index c = Some c.
Proof. by destruct c. Qed.
#[export] Instance class_index_inj : Inj (=) (=) class_index.
Proof. intros c d H. pose proof (ALL_index c) as Hc. rewrite H, ALL_index in Hc. by injection Hc. Qed.
#[export] Instance ResourceClass_countable : Countable ResourceClass :=
  inj_countable class_index (λ n, ALL !! n) ALL_index.

Inductive ResourceError :=
  | ZeroLimit (class : ResourceClass)
  | ZeroRequest (class : ResourceClass)
  | DuplicateLimit (class : ResourceClass)
  | DuplicateRequest (class : ResourceClass)
  | EmptyBundle
  | TooManyClasses (maximum : Z)
  | MissingLimit (class : ResourceClass)
  | Exhausted (class : ResourceClass) (requested available : Z)
  | ArithmeticOverflow (class : ResourceClass) (used requested : Z)
  | Poisoned.

Record ResourceLimit := mkLimit { rl_class : ResourceClass; rl_maximum : Z }.
Definition limit_new (class : ResourceClass) (maximum : Z) : result ResourceError ResourceLimit :=
  if maximum =? 0 then Err (ZeroLimit class) else Ok (mkLimit class maximum).

Record ResourceRequest := mkRequest { rq_class : ResourceClass; rq_amount : Z }.
Definition request_new (class : ResourceClass) (amount : Z) : result ResourceError ResourceRequest :=
  if amount =? 0 then Err (ZeroRequest class) else Ok (mkRequest class amount).

Record ClassState := mkClass {
  bc_limit : Z;
  bc_used : Z;
  bc_high_water : Z;
  bc_denied : Z;
  bc_release_underflow : Z;
}.
Abbreviation ResourceBudget := (gmap ResourceClass ClassState).

(** An owned grant; dropping it is [release]. *)
Record ResourceLease := mkLease { ls_class : ResourceClass; ls_amount : Z }.

Fixpoint budget_insert (limits : list ResourceLimit) (index : Z) (b : ResourceBudget) : result ResourceError ResourceBudget :=
  match limits with
  | [] => Ok b
  | l :: limits' =>
      if index >=? MAX_RESOURCE_CLASSES then Err (TooManyClasses MAX_RESOURCE_CLASSES)
      else if rl_maximum l =? 0 then Err (ZeroLimit (rl_class l))
      else if bool_decide (is_Some (b !! rl_class l)) then Err (DuplicateLimit (rl_class l))
      else budget_insert limits' (index + 1) (<[rl_class l := mkClass (rl_maximum l) 0 0 0 0]> b)
  end.
Definition budget_new (limits : list ResourceLimit) : result ResourceError ResourceBudget := budget_insert limits 0 ∅.

Definition deny (cs : ClassState) : ClassState :=
  mkClass (bc_limit cs) (bc_used cs) (bc_high_water cs) (saturating_add u64_max (bc_denied cs) 1) (bc_release_underflow cs).
Definition grant (next : Z) (cs : ClassState) : ClassState :=
  mkClass (bc_limit cs) next (Z.max (bc_high_water cs) next) (bc_denied cs) (bc_release_underflow cs).

(** The use of a class after a request. *)
Definition next_used (r : ResourceRequest) (cs : ClassState) : result ResourceError Z :=
  let available := saturating_sub (bc_limit cs) (bc_used cs) in
  match checked_add u64_max (bc_used cs) (rq_amount r) with
  | Some next => if next <=? bc_limit cs then Ok next else Err (Exhausted (rq_class r) (rq_amount r) available)
  | None => Err (ArithmeticOverflow (rq_class r) (bc_used cs) (rq_amount r))
  end.

Definition try_acquire (r : ResourceRequest) : M ResourceBudget ResourceError ResourceLease := λ b,
  if rq_amount r =? 0 then (b, Err (ZeroRequest (rq_class r)))
  else
  match b !! rq_class r with
  | None => (b, Err (MissingLimit (rq_class r)))
  | Some cs =>
      match next_used r cs with
      | Err e => (<[rq_class r := deny cs]> b, Err e)
      | Ok next => (<[rq_class r := grant next cs]> b, Ok (mkLease (rq_class r) (rq_amount r)))
      end
  end.

(** ** Bundles *)
Definition class_le (r s : ResourceRequest) : Prop := (class_index (rq_class r) ≤ class_index (rq_class s))%nat.
#[export] Instance class_le_dec : RelDecision class_le.
Proof. intros r s. unfold class_le. apply _. Defined.

Fixpoint check_requests (requests : list ResourceRequest) (count : Z) : result ResourceError () :=
  match requests with
  | [] => Ok ()
  | r :: requests' =>
      if count >=? MAX_RESOURCE_CLASSES then Err (TooManyClasses MAX_RESOURCE_CLASSES)
      else if rq_amount r =? 0 then Err (ZeroRequest (rq_class r))
      else check_requests requests' (count + 1)
  end.

(** [requests.windows(2)] *)
Fixpoint find_duplicate (requests : list ResourceRequest) : option ResourceClass :=
  match requests with
  | r :: (s :: _) as requests' => if bool_decide (rq_class r = rq_class s) then Some (rq_class r) else find_duplicate requests'
  | _ => None
  end.

Definition find_missing (requests : list ResourceRequest) (b : ResourceBudget) : option ResourceClass :=
  rq_class <$> head (filter (λ r, b !! rq_class r = None) requests).

(** The first pass over the classes only reads, but for the count of the denial.
    A missing class has been found before ([expect] in the code). *)
Fixpoint bundle_check (requests : list ResourceRequest) : M ResourceBudget ResourceError (list Z) := λ b,
  match requests with
  | [] => (b, Ok [])
  | r :: requests' =>
      match b !! rq_class r with
      | None => (b, Err (MissingLimit (rq_class r)))
      | Some cs =>
          match next_used r cs with
          | Err e => (<[rq_class r := deny cs]> b, Err e)
          | Ok next =>
              match bundle_check requests' b with
              | (b', Ok rest) => (b', Ok (next :: rest))
              | (b', Err e) => (b', Err e)
              end
          end
      end
  end.

Definition bundle_apply (granted : list (ResourceRequest * Z)) (b : ResourceBudget) : ResourceBudget :=
  fold_left (λ b p, alter (grant p.2) (rq_class p.1) b) granted b.

Definition try_acquire_bundle (requests : list ResourceRequest) : M ResourceBudget ResourceError (list ResourceLease) := λ b,
  match check_requests requests 0 with
  | Err e => (b, Err e)
  | Ok _ =>
  if zlen requests =? 0 then (b, Err EmptyBundle)
  else
  let requests := merge_sort class_le requests in
  match find_duplicate requests with
  | Some c => (b, Err (DuplicateRequest c))
  | None =>
  match find_missing requests b with
  | Some c => (b, Err (MissingLimit c))
  | None =>
  match bundle_check requests b with
  | (b', Err e) => (b', Err e)
  | (b', Ok next_values) =>
      (bundle_apply (zip requests next_values) b', Ok ((λ r, mkLease (rq_class r) (rq_amount r)) <$> requests))
  end
  end
  end
  end.

(** ** Release and reports *)
Definition release_class (amount : Z) (cs : ClassState) : ClassState :=
  if amount <=? bc_used cs then
    mkClass (bc_limit cs) (bc_used cs - amount) (bc_high_water cs) (bc_denied cs) (bc_release_underflow cs)
  else mkClass (bc_limit cs) 0 (bc_high_water cs) (bc_denied cs) (saturating_add u64_max (bc_release_underflow cs) 1).
Definition release (l : ResourceLease) (b : ResourceBudget) : ResourceBudget := alter (release_class (ls_amount l)) (ls_class l) b.
Definition release_bundle (ls : list ResourceLease) (b : ResourceBudget) : ResourceBudget := fold_left (λ b l, release l b) ls b.

Record ResourceUsage := mkUsage { ru_class : ResourceClass; ru_state : ClassState }.
Definition usage (c : ResourceClass) (b : ResourceBudget) : result ResourceError ResourceUsage :=
  mkUsage c <$> ok_or (MissingLimit c) (b !! c).
Definition budget_snapshot (b : ResourceBudget) : list ResourceUsage :=
  omap (λ c, mkUsage c <$> b !! c) ALL.

(** ** The resources of the transport manager *)
Definition MAX_TRANSPORT_RESOURCE_LIMIT : Z := Z.shiftl 1 30.
Definition MAX_TRANSPORT_QUEUE_CAPACITY : Z := 4096.

Record TransportLimits := mkTransportLimits {
  max_pending_handshakes : Z;
  max_active_links : Z;
  max_buffered_bytes : Z;
  max_queued_messages : Z;
  max_links_per_peer : Z;
  max_messages_per_link : Z;
  max_bytes_per_link : Z;
}.

Inductive TransportResourceLimitsError :=
  | TrZero (class : ResourceClass)
  | TrTooLarge (class : ResourceClass) (maximum : Z)
  | TrScopedExceedsGlobal (scoped global : ResourceClass).

(** The loop over the values; [true] marks those of index 3 and 5. *)
Fixpoint check_limits (values : list (ResourceClass * Z * bool)) : result TransportResourceLimitsError () :=
  match values with
  | [] => Ok ()
  | (class, value, queue) :: values' =>
      if value =? 0 then Err (TrZero class)
      else if (value >? MAX_TRANSPORT_RESOURCE_LIMIT) || (queue && (value >? MAX_TRANSPORT_QUEUE_CAPACITY))
      then Err (TrTooLarge class (if queue then MAX_TRANSPORT_QUEUE_CAPACITY else MAX_TRANSPORT_RESOURCE_LIMIT))
      else check_limits values'
  end.

Definition transport_limits_new (l : TransportLimits) : result TransportResourceLimitsError TransportLimits :=
  _ ← check_limits
    [(PendingHandshakes, max_pending_handshakes l, false); (ActiveLinks, max_active_links l, false);
     (BufferedBytes, max_buffered_bytes l, false); (CommandQueueItems, max_queued_messages l, true);
     (ActiveLinks, max_links_per_peer l, false); (CommandQueueItems, max_messages_per_link l, true);
     (BufferedBytes, max_bytes_per_link l, false)];
  if max_links_per_peer l >? max_active_links l then Err (TrScopedExceedsGlobal ActiveLinks ActiveLinks)
  else if max_messages_per_link l >? max_queued_messages l then Err (TrScopedExceedsGlobal CommandQueueItems CommandQueueItems)
  else if max_bytes_per_link l >? max_buffered_bytes l then Err (TrScopedExceedsGlobal BufferedBytes BufferedBytes)
  else Ok l.

Definition transport_resources_new (l : TransportLimits) : result ResourceError ResourceBudget :=
  pending ← limit_new PendingHandshakes (max_pending_handshakes l);
  active ← limit_new ActiveLinks (max_active_links l);
  buffered ← limit_new BufferedBytes (max_buffered_bytes l);
  queued ← limit_new CommandQueueItems (max_queued_messages l);
  budget_new [pending; active; buffered; queued].

Definition admit_resource (class : ResourceClass) (amount : Z) : M ResourceBudget ResourceError ResourceLease :=
  request ← lift (request_new class amount);
  try_acquire request.

Definition admit_queue (message_bytes : Z) : M ResourceBudget ResourceError (list ResourceLease) :=
  item ← lift (request_new CommandQueueItems 1);
  bytes ← lift (request_new BufferedBytes message_bytes);
  try_acquire_bundle [item; bytes].

(** ** Accounting

    [held c ls] is what the owners of the leases [ls] hold of class [c]. *)
Definition held (c : ResourceClass) (ls : list ResourceLease) : Z :=
  foldr (λ l acc, (if bool_decide (ls_class l = c) then ls_amount l else 0) + acc) 0 ls.

Lemma held_cons c l ls : held c (l :: ls) = (if bool_decide (ls_class l = c) then ls_amount l else 0) + held c ls.
Proof. done. Qed.
Lemma held_app c ls ls' : held c (ls ++ ls') = held c ls + held c ls'.
Proof. induction ls as [|l ls IH]; [done|]. cbn [app]. rewrite !held_cons, IH. lia. Qed.
#[export] Instance held_perm c : Proper ((≡ₚ) ==> (=)) (held c).
Proof. induction 1; rewrite ?held_cons; lia. Qed.
Lemma held_nonneg c ls : Forall (λ l, 0 < ls_amount l) ls → 0 ≤ held c ls.
Proof. induction 1; [done|]. rewrite held_cons. case_bool_decide; lia. Qed.

(** The state of a class that has no faults and [n] units in use. *)
Record class_ok (n : Z) (cs : ClassState) : Prop := {
  co_used : bc_used cs = n;
  co_high : n ≤ bc_high_water cs ≤ bc_limit cs;
  co_limit : 0 < bc_limit cs ≤ u64_max;
  co_faults : bc_release_underflow cs = 0;
}.

Record accounted (b : ResourceBudget) (ls : list ResourceLease) : Prop := {
  ac_classes : map_Forall (λ c cs, class_ok (held c ls) cs) b;
  ac_leases : Forall (λ l, 0 < ls_amount l ∧ is_Some (b !! ls_class l)) ls;
}.

#[export] Instance accounted_perm b : Proper ((≡ₚ) ==> (↔)) (accounted b).
Proof.
  assert (H : ∀ ls ls', ls ≡ₚ ls' → accounted b ls → accounted b ls').
  { intros ls ls' Hp [Hc Hl]. split; [|by rewrite <- Hp]. intros c cs Hcs. rewrite <- Hp. by apply Hc. }
  intros ls ls' Hp. split; apply H; done.
Qed.

Lemma accounted_nonneg b ls c : accounted b ls → 0 ≤ held c ls.
Proof. intros [_ H]. apply held_nonneg. eapply Forall_impl; [done|]. by intros l []. Qed.

(** Updating one class. *)
Lemma accounted_insert b ls ls' c cs cs' :
  accounted b ls → b !! c = Some cs → class_ok (held c ls') cs' → (∀ d, d ≠ c → held d ls' = held d ls) →
  Forall (λ l, 0 < ls_amount l ∧ is_Some (b !! ls_class l)) ls' → accounted (<[c := cs']> b) ls'.
Proof.
  intros [Hc _] Hb Hok Hd Hl. split.
  - intros d ds. destruct (decide (c = d)) as [<-|Hne].
    + rewrite lookup_insert_eq. by intros [= <-].
    + rewrite lookup_insert_ne by done. rewrite Hd by done. apply Hc.
  - eapply Forall_impl; [exact Hl|]. intros l [Hp Hs]. split; [done|].
    destruct (decide (c = ls_class l)) as [->|]; [rewrite lookup_insert_eq; eauto|by rewrite lookup_insert_ne].
Qed.

Lemma deny_ok n cs : class_ok n cs → class_ok n (deny cs).
Proof. by intros []. Qed.

(** What a request finds: it is granted exactly when it fits. *)
Lemma next_used_spec r n cs :
  class_ok n cs → 0 ≤ n → 0 < rq_amount r →
  next_used r cs = (if n + rq_amount r <=? bc_limit cs then Ok (n + rq_amount r)
                    else if n + rq_amount r <=? u64_max then Err (Exhausted (rq_class r) (rq_amount r) (bc_limit cs - n))
                    else Err (ArithmeticOverflow (rq_class r) n (rq_amount r))).
Proof.
  intros [Hu Hh Hl Hf] Hn Hr. unfold next_used, checked_add, saturating_sub. rewrite Hu.
  destruct (n + rq_amount r <=? u64_max) eqn:E; breflect.
  - destruct (_ <=? bc_limit cs) eqn:E'; [done|]. by rewrite Z.max_r by lia.
  - destruct (_ <=? bc_limit cs) eqn:E'; breflect; [lia|done].
Qed.

Lemma try_acquire_spec r b ls :
  accounted b ls → 0 ≤ rq_amount r →
  match try_acquire r b with
  | (b', Ok l) => l = mkLease (rq_class r) (rq_amount r) ∧ accounted b' (l :: ls)
  | (b', Err e) => accounted b' ls ∧
      (rq_amount r = 0 ∨ b !! rq_class r = None ∨ ∃ cs, b !! rq_class r = Some cs ∧ bc_limit cs < held (rq_class r) ls + rq_amount r)
  end.
Proof.
  intros Ha Hr. pose proof (accounted_nonneg b ls (rq_class r) Ha) as Hn. unfold try_acquire.
  destruct (rq_amount r =? 0) eqn:E0; breflect; [by auto|].
  destruct (b !! rq_class r) as [cs|] eqn:Eb; [|by auto]. pose proof (ac_classes _ _ Ha _ _ Eb) as Hcs.
  rewrite (next_used_spec r _ cs Hcs) by lia. destruct (_ <=? bc_limit cs) eqn:E; breflect.
  - split; [done|]. eapply accounted_insert; [done|exact Eb| | |].
    + destruct Hcs as [Hu Hh Hl Hf]. rewrite held_cons, bool_decide_eq_true_2 by done. cbn [ls_amount]. constructor; cbn; lia || done.
    + intros d Hd. cbn. by rewrite bool_decide_eq_false_2 by done.
    + constructor; [cbn; split; [lia|eauto]|apply Ha].
  - assert (Hden : accounted (<[rq_class r := deny cs]> b) ls).
    { eapply accounted_insert; [done|exact Eb|by apply deny_ok|done|apply Ha]. }
    destruct (_ <=? u64_max); (split; [done|right; right; eauto with lia]).
Qed.

Lemma release_spec l b ls : accounted b (l :: ls) → accounted (release l b) ls.
Proof.
  intros Ha. pose proof (ac_leases _ _ Ha) as [[Hp [cs Hcs]] Hl]%Forall_cons. unfold release.
  assert (alter (release_class (ls_amount l)) (ls_class l) b = <[ls_class l := release_class (ls_amount l) cs]> b) as ->.
  { apply map_eq. intros c. destruct (decide (ls_class l = c)) as [<-|]; [by rewrite lookup_alter_eq, lookup_insert_eq, Hcs|by rewrite lookup_alter_ne, lookup_insert_ne]. }
  pose proof (ac_classes _ _ Ha _ _ Hcs) as [Hu Hh Hlim Hf]. rewrite held_cons, bool_decide_eq_true_2 in * by done.
  assert (Hn : 0 ≤ held (ls_class l) ls). { apply held_nonneg. eapply Forall_impl; [done|]. by intros ? []. }
  eapply accounted_insert; [done|done| | |done].
  - unfold release_class. rewrite (proj2 (Z.leb_le _ _)) by lia. constructor; cbn; lia || done.
  - intros d Hd. rewrite held_cons. by rewrite bool_decide_eq_false_2 by done.
Qed.

(** ** Bundles *)
Definition lease_of (r : ResourceRequest) : ResourceLease := mkLease (rq_class r) (rq_amount r).

(** A request that fits beside what is held. *)
Definition fits_budget (b : ResourceBudget) (ls : list ResourceLease) (r : ResourceRequest) : Prop :=
  ∃ cs, b !! rq_class r = Some cs ∧ held (rq_class r) ls + rq_amount r ≤ bc_limit cs.

Record admissible (b : ResourceBudget) (ls : list ResourceLease) (requests : list ResourceRequest) : Prop := {
  ad_nonempty : requests ≠ [];
  ad_count : zlen requests ≤ MAX_RESOURCE_CLASSES;
  ad_amounts : Forall (λ r, 0 < rq_amount r) requests;
  ad_distinct : NoDup (rq_class <$> requests);
  ad_fits : Forall (fits_budget b ls) requests;
}.

Lemma check_requests_spec requests count :
  0 ≤ count → Forall (λ r, 0 ≤ rq_amount r) requests →
  (is_ok (check_requests requests count) = true ↔
   (requests = [] ∨ count + zlen requests ≤ MAX_RESOURCE_CLASSES) ∧ Forall (λ r, 0 < rq_amount r) requests).
Proof.
  intros Hc Hf. revert count Hc. induction Hf as [|r l Hr _ IH]; intros count Hc; cbn [check_requests]; [split; auto|].
  rewrite zlen_cons, Forall_cons. pose proof (zlen_nonneg l).
  destruct (_ >=? _) eqn:E1; breflect; [split; [done|intros [[?|?] _]; [done|unfold MAX_RESOURCE_CLASSES in *; lia]]|].
  destruct (_ =? 0) eqn:E2; breflect; [split; [done|intros (_ & ? & _); lia]|].
  rewrite IH by lia. split.
  - intros [Hl Hall]. split_and!; [right|lia|done]. destruct Hl as [->|]; [unfold zlen; cbn; unfold MAX_RESOURCE_CLASSES in *; lia|lia].
  - intros ([?|Hl] & _ & Hall); [done|]. split; [right; lia|done].
Qed.

Lemma find_duplicate_spec l : Sorted class_le l → find_duplicate l = None ↔ NoDup (rq_class <$> l).
Proof.
  induction l as [|r l IH]; intros Hs; [split; [constructor|done]|]. inversion Hs as [|? ? Hs' Hr]; subst.
  destruct l as [|s l]; [cbn; split; [intros _; apply NoDup_singleton|done]|].
  change (find_duplicate (r :: s :: l)) with (if bool_decide (rq_class r = rq_class s) then Some (rq_class r) else find_duplicate (s :: l)).
  rewrite !fmap_cons, NoDup_cons. inversion Hr as [|? ? Hrs]; subst. case_bool_decide as E.
  - split; [done|]. intros [Hin _]. destruct Hin. rewrite E. apply list_elem_of_here.
  - rewrite IH by done. split; [|tauto]. intros Hnd. split; [|done]. intros Hin.
    apply Sorted_StronglySorted in Hs'; [|intros x y z; unfold class_le; lia]. apply StronglySorted_inv in Hs' as [_ Hall].
    change (rq_class s :: (rq_class <$> l)) with (rq_class <$> s :: l) in Hin. apply list_elem_of_fmap in Hin as (t & Et & Ht).
    apply elem_of_cons in Ht as [->|Ht]; [done|]. rewrite Forall_forall in Hall. specialize (Hall t Ht).
    apply E, (inj class_index). unfold class_le in *. rewrite Et in Hrs |- *. lia.
Qed.

Lemma find_missing_spec l b : find_missing l b = None ↔ Forall (λ r, is_Some (b !! rq_class r)) l.
Proof.
  unfold find_missing. induction l as [|r l IH]; [by split|]. rewrite filter_cons, Forall_cons. case_decide as E.
  - cbn. split; [done|]. intros [[? H] _]. congruence.
  - rewrite IH. split; [intros; split; [by apply not_eq_None_Some|done]|tauto].
Qed.

Lemma bundle_check_spec l b ls :
  accounted b ls → Forall (λ r, 0 < rq_amount r) l → Forall (λ r, is_Some (b !! rq_class r)) l →
  match bundle_check l b with
  | (b', Ok nexts) => b' = b ∧ nexts = (λ r, held (rq_class r) ls + rq_amount r) <$> l ∧ Forall (fits_budget b ls) l
  | (b', Err e) => accounted b' ls ∧ ¬ Forall (fits_budget b ls) l
  end.
Proof.
  intros Ha Hp Hs. induction l as [|r l IH]; [done|]. apply Forall_cons in Hp as [Hr Hp]. apply Forall_cons in Hs as [[cs Hcs] Hs].
  specialize (IH Hp Hs). pose proof (ac_classes _ _ Ha _ _ Hcs) as Hok. pose proof (accounted_nonneg _ _ (rq_class r) Ha) as Hn.
  cbn [bundle_check]. rewrite Hcs, (next_used_spec r _ cs Hok Hn Hr). destruct (_ <=? bc_limit cs) eqn:E; breflect.
  - destruct (bundle_check l b) as [b' [nexts|e]].
    + destruct IH as (-> & -> & Hf). split_and!; [done..|]. constructor; [|done]. by exists cs.
    + destruct IH as [Ha' Hno]. split; [done|]. by intros [_ ?]%Forall_cons.
  - assert (Hden : accounted (<[rq_class r := deny cs]> b) ls ∧ ¬ Forall (fits_budget b ls) (r :: l)).
    { split; [eapply accounted_insert; [done|exact Hcs|by apply deny_ok|done|apply Ha]|].
      intros [(cs' & Hcs' & Hle) _]%Forall_cons. rewrite Hcs in Hcs'. injection Hcs' as <-. lia. }
    destruct (_ <=? u64_max); done.
Qed.

Lemma bundle_apply_spec l b ls :
  accounted b ls → Forall (λ r, 0 < rq_amount r) l → NoDup (rq_class <$> l) → Forall (fits_budget b ls) l →
  accounted (bundle_apply (zip l ((λ r, held (rq_class r) ls + rq_amount r) <$> l)) b) ((lease_of <$> l) ++ ls).
Proof.
  intros Ha Hp Hnd Hf. revert b ls Ha Hf. induction l as [|r l IH]; intros b ls Ha Hf; [done|].
  apply Forall_cons in Hp as [Hr Hp]. rewrite fmap_cons, NoDup_cons in Hnd. destruct Hnd as [Hni Hnd].
  apply Forall_cons in Hf as [(cs & Hcs & Hle) Hf]. unfold bundle_apply. rewrite fmap_cons. cbn [zip zip_with fold_left fst snd].
  assert (Halter : alter (grant (held (rq_class r) ls + rq_amount r)) (rq_class r) b =
    <[rq_class r := grant (held (rq_class r) ls + rq_amount r) cs]> b).
  { apply map_eq. intros c. destruct (decide (rq_class r = c)) as [<-|]; [by rewrite lookup_alter_eq, lookup_insert_eq, Hcs|by rewrite lookup_alter_ne, lookup_insert_ne]. }
  rewrite Halter. fold (bundle_apply (zip l ((λ r, held (rq_class r) ls + rq_amount r) <$> l)) (<[rq_class r := grant (held (rq_class r) ls + rq_amount r) cs]> b)).
  assert (Hheld : ∀ d, d ≠ rq_class r → held d (lease_of r :: ls) = held d ls).
  { intros d Hd. rewrite held_cons. cbn [lease_of ls_class]. by rewrite bool_decide_eq_false_2 by done. }
  assert (Hne : ∀ s, s ∈ l → rq_class s ≠ rq_class r).
  { intros s Hs E. apply Hni. rewrite <- E. by apply list_elem_of_fmap_2. }
  assert (Ha' : accounted (<[rq_class r := grant (held (rq_class r) ls + rq_amount r) cs]> b) (lease_of r :: ls)).
  { eapply accounted_insert; [done|exact Hcs| |done|constructor; [cbn; eauto|apply Ha]].
    destruct (ac_classes _ _ Ha _ _ Hcs) as [Hu Hh Hl Hf']. rewrite held_cons. cbn [lease_of ls_class ls_amount].
    rewrite bool_decide_eq_true_2 by done. constructor; cbn; lia || done. }
  specialize (IH Hp Hnd _ _ Ha').
  assert (Hmap : (λ s, held (rq_class s) (lease_of r :: ls) + rq_amount s) <$> l = (λ s, held (rq_class s) ls + rq_amount s) <$> l).
  { apply list_fmap_ext. intros i s Hs. by rewrite Hheld by (by eapply Hne, list_elem_of_lookup_2). }
  rewrite Hmap in IH. rewrite fmap_cons. cbn [app]. rewrite (Permutation_middle (lease_of <$> l) ls (lease_of r)). apply IH.
  apply Forall_forall. intros s Hs. rewrite Forall_forall in Hf. destruct (Hf s Hs) as (cs' & Hcs' & Hle').
  exists cs'. rewrite lookup_insert_ne by (by apply not_eq_sym, Hne). by rewrite Hheld by (by apply Hne).
Qed.

Lemma try_acquire_bundle_spec l b ls :
  accounted b ls → Forall (λ r, 0 ≤ rq_amount r) l →
  match try_acquire_bundle l b with
  | (b', Ok new) => admissible b ls l ∧ new = lease_of <$> merge_sort class_le l ∧ accounted b' (new ++ ls)
  | (b', Err e) => ¬ admissible b ls l ∧ accounted b' ls
  end.
Proof.
  intros Ha H0. unfold try_acquire_bundle. pose proof (check_requests_spec l 0 ltac:(lia) H0) as Hck.
  destruct (check_requests l 0) as [[]|e].
  2: { split; [|done]. intros [? ? ? ? ?]. assert (is_ok (@Err ResourceError () e) = true) as [=]. apply Hck. split; [by right|done]. }
  destruct (proj1 Hck eq_refl) as [Hlen Hpos]. destruct (zlen l =? 0) eqn:El; breflect.
  { split; [|done]. intros [Hne _ _ _ _]. by apply Hne, zlen_0_nil. }
  assert (Hc : zlen l ≤ MAX_RESOURCE_CLASSES) by (destruct Hlen as [->|]; [done|lia]).
  pose proof (merge_sort_Permutation class_le l) as Hperm. set (k := merge_sort class_le l) in *.
  assert (Hsort : Sorted class_le k) by (apply Sorted_merge_sort; intros x y; unfold class_le; lia).
  pose proof (find_duplicate_spec k Hsort) as Hd. destruct (find_duplicate k) as [c|].
  { split; [|done]. intros [_ _ _ Hnd _]. rewrite <- Hperm in Hnd. apply Hd in Hnd. done. }
  pose proof (proj1 Hd eq_refl) as Hnd. pose proof (find_missing_spec k b) as Hm. destruct (find_missing k b) as [c|].
  { split; [|done]. intros [_ _ _ _ Hf]. assert (Hno : Forall (λ r, is_Some (b !! rq_class r)) k); [|by apply Hm in Hno].
    rewrite Hperm. eapply Forall_impl; [exact Hf|]. intros r (cs & -> & _). eauto. }
  rewrite <- Hperm in Hpos. pose proof (bundle_check_spec k b ls Ha Hpos (proj1 Hm eq_refl)) as Hb.
  destruct (bundle_check k b) as [b' [nexts|e]].
  - destruct Hb as (-> & -> & Hf). split_and!; [|done|by apply bundle_apply_spec].
    rewrite Hperm in Hpos, Hnd, Hf. constructor; try done. intros ->. done.
  - destruct Hb as [Ha' Hno]. split; [|done]. intros [_ _ _ _ Hf]. by rewrite Hperm in Hno.
Qed.

(** ** The limits never change *)
Lemma limits_insert c cs cs' (b : ResourceBudget) :
  b !! c = Some cs → bc_limit cs' = bc_limit cs → bc_limit <$> <[c := cs']> b = bc_limit <$> b.
Proof. intros Hb Hl. rewrite fmap_insert, Hl. apply insert_id. by rewrite lookup_fmap, Hb. Qed.
Lemma limits_alter f c (b : ResourceBudget) :
  (∀ cs, bc_limit (f cs) = bc_limit cs) → bc_limit <$> alter f c b = bc_limit <$> b.
Proof.
  intros Hf. apply map_eq. intros d. rewrite !lookup_fmap. destruct (decide (c = d)) as [<-|].
  - rewrite lookup_alter_eq. destruct (b !! c); [|done]. cbn. by rewrite Hf.
  - by rewrite lookup_alter_ne.
Qed.
Lemma try_acquire_limits r b : bc_limit <$> (try_acquire r b).1 = bc_limit <$> b.
Proof.
  unfold try_acquire. destruct (_ =? 0); [done|]. destruct (b !! _) as [cs|] eqn:E; [|done].
  destruct (next_used r cs); by eapply limits_insert.
Qed.
Lemma bundle_check_limits l b : bc_limit <$> (bundle_check l b).1 = bc_limit <$> b.
Proof.
  induction l as [|r l IH]; cbn [bundle_check]; [done|]. destruct (b !! _) as [cs|] eqn:E; [|done].
  destruct (next_used r cs); [|by eapply limits_insert]. destruct (bundle_check l b) as [b' [|]]; done.
Qed.
Lemma bundle_apply_limits l b : bc_limit <$> bundle_apply l b = bc_limit <$> b.
Proof.
  unfold bundle_apply. revert b. induction l as [|p l IH]; intros b; [done|]. cbn [fold_left]. rewrite IH. by apply limits_alter.
Qed.
Lemma try_acquire_bundle_limits l b : bc_limit <$> (try_acquire_bundle l b).1 = bc_limit <$> b.
Proof.
  unfold try_acquire_bundle. destruct (check_requests l 0); [|done]. destruct (_ =? 0); [done|].
  destruct (find_duplicate _); [done|]. destruct (find_missing _ _); [done|].
  pose proof (bundle_check_limits (merge_sort class_le l) b) as H. destruct (bundle_check _ b) as [b' [nexts|]]; [|done].
  cbn [fst] in *. by rewrite bundle_apply_limits.
Qed.
Lemma release_limits l b : bc_limit <$> release l b = bc_limit <$> b.
Proof. apply limits_alter. intros cs. unfold release_class. by destruct (_ <=? _). Qed.
Lemma release_bundle_limits ls b : bc_limit <$> release_bundle ls b = bc_limit <$> b.
Proof. unfold release_bundle. revert b. induction ls as [|l ls IH]; intros b; [done|]. cbn [fold_left]. by rewrite IH, release_limits. Qed.

Lemma release_bundle_spec new b ls : accounted b (new ++ ls) → accounted (release_bundle new b) ls.
Proof.
  unfold release_bundle. revert b. induction new as [|l new IH]; intros b Ha; [done|]. cbn [fold_left]. by apply IH, release_spec.
Qed.

(** ** Runs of a budget *)
Lemma budget_insert_accounted limits index b b' :
  accounted b [] → Forall (λ l, fits 64 (rl_maximum l)) limits → budget_insert limits index b = Ok b' → accounted b' [].
Proof.
  intros Ha Hf. revert index b Ha. induction Hf as [|l limits Hl _ IH]; intros index b Ha; cbn [budget_insert]; [by intros <-%Ok_inj|].
  destruct (_ >=? _); [done|]. destruct (_ =? 0) eqn:E; [done|]. breflect. case_bool_decide as Hs; [done|]. apply IH.
  split; [|constructor]. apply map_Forall_insert_2; [|apply Ha]. unfold fits in Hl. constructor; cbn; unfold u64_max; lia.
Qed.

Lemma budget_new_accounted limits b :
  Forall (λ l, fits 64 (rl_maximum l)) limits → budget_new limits = Ok b → accounted b [].
Proof. apply budget_insert_accounted. split; [apply map_Forall_empty|constructor]. Qed.

(** A budget and the leases its users own.  Any user may ask at any time, and
    any lease may be dropped. *)
Inductive budget_step : ResourceBudget * list ResourceLease → ResourceBudget * list ResourceLease → Prop :=
  | step_acquire r b b' l ls :
      fits 64 (rq_amount r) → try_acquire r b = (b', Ok l) → budget_step (b, ls) (b', l :: ls)
  | step_denied r b b' e ls :
      fits 64 (rq_amount r) → try_acquire r b = (b', Err e) → budget_step (b, ls) (b', ls)
  | step_bundle rs b b' new ls :
      Forall (λ r, fits 64 (rq_amount r)) rs → try_acquire_bundle rs b = (b', Ok new) → budget_step (b, ls) (b', new ++ ls)
  | step_bundle_denied rs b b' e ls :
      Forall (λ r, fits 64 (rq_amount r)) rs → try_acquire_bundle rs b = (b', Err e) → budget_step (b, ls) (b', ls)
  | step_release l b ls ls' :
      budget_step (b, ls ++ l :: ls') (release l b, ls ++ ls').

Lemma budget_step_accounted x y : budget_step x y → accounted x.1 x.2 → accounted y.1 y.2.
Proof.
  intros Hs Ha. destruct Hs as [r b b' l ls Hr E|r b b' e ls Hr E|rs b b' new ls Hr E|rs b b' e ls Hr E|l b ls ls'];
    cbn [fst snd] in *.
  - pose proof (try_acquire_spec r b ls Ha ltac:(unfold fits in Hr; lia)) as H. rewrite E in H. apply H.
  - pose proof (try_acquire_spec r b ls Ha ltac:(unfold fits in Hr; lia)) as H. rewrite E in H. apply H.
  - pose proof (try_acquire_bundle_spec rs b ls Ha) as H. rewrite E in H. apply H.
    eapply Forall_impl; [exact Hr|]. unfold fits. cbn. lia.
  - pose proof (try_acquire_bundle_spec rs b ls Ha) as H. rewrite E in H. apply H.
    eapply Forall_impl; [exact Hr|]. unfold fits. cbn. lia.
  - apply release_spec. by rewrite Permutation_middle.
Qed.

Lemma budget_reachable limits b0 b ls :
  Forall (λ l, fits 64 (rl_maximum l)) limits → budget_new limits = Ok b0 → rtc budget_step (b0, []) (b, ls) → accounted b ls.
Proof.
  intros Hl Hb Hr. assert (H0 : accounted b0 []) by (by apply (budget_new_accounted limits)).
  remember (b0, []) as x eqn:Ex. remember (b, ls) as y eqn:Ey. assert (Hx : accounted x.1 x.2) by (by subst).
  enough (Hy : accounted y.1 y.2) by (by subst). clear -Hr Hx. induction Hr; eauto using budget_step_accounted.
Qed.

(** ** The transport's budget *)
Definition fresh_class (limit : Z) : ClassState := mkClass limit 0 0 0 0.
Lemma transport_resources_exact l :
  max_pending_handshakes l ≠ 0 → max_active_links l ≠ 0 → max_buffered_bytes l ≠ 0 → max_queued_messages l ≠ 0 →
  transport_resources_new l = Ok
    (<[CommandQueueItems := fresh_class (max_queued_messages l)]> (<[BufferedBytes := fresh_class (max_buffered_bytes l)]>
    (<[ActiveLinks := fresh_class (max_active_links l)]> (<[PendingHandshakes := fresh_class (max_pending_handshakes l)]> ∅)))).
Proof.
  intros H1 H2 H3 H4. unfold transport_resources_new, limit_new, budget_new.
  rewrite (proj2 (Z.eqb_neq _ _) H1), (proj2 (Z.eqb_neq _ _) H2), (proj2 (Z.eqb_neq _ _) H3), (proj2 (Z.eqb_neq _ _) H4).
  cbn [mbind result_bind budget_insert rl_class rl_maximum].
  change (0 >=? MAX_RESOURCE_CLASSES) with false. change (0 + 1 >=? MAX_RESOURCE_CLASSES) with false.
  change (0 + 1 + 1 >=? MAX_RESOURCE_CLASSES) with false. change (0 + 1 + 1 + 1 >=? MAX_RESOURCE_CLASSES) with false. cbn [orb].
  rewrite (proj2 (Z.eqb_neq _ _) H1), (proj2 (Z.eqb_neq _ _) H2), (proj2 (Z.eqb_neq _ _) H3), (proj2 (Z.eqb_neq _ _) H4).
  rewrite !bool_decide_eq_false_2; [done|..]; rewrite ?lookup_insert_ne, lookup_empty by done; by intros [].
Qed.

(** The fields are 64-bit integers. *)
Definition limits_u64 (l : TransportLimits) : Prop :=
  Forall (fits 64) [max_pending_handshakes l; max_active_links l; max_buffered_bytes l; max_queued_messages l;
                    max_links_per_peer l; max_messages_per_link l; max_bytes_per_link l].

Record limits_ok (l : TransportLimits) : Prop := {
  lk_pending : 0 < max_pending_handshakes l ≤ MAX_TRANSPORT_RESOURCE_LIMIT;
  lk_active : 0 < max_active_links l ≤ MAX_TRANSPORT_RESOURCE_LIMIT;
  lk_buffered : 0 < max_buffered_bytes l ≤ MAX_TRANSPORT_RESOURCE_LIMIT;
  lk_queued : 0 < max_queued_messages l ≤ MAX_TRANSPORT_QUEUE_CAPACITY;
  lk_per_peer : 0 < max_links_per_peer l ≤ max_active_links l;
  lk_messages : 0 < max_messages_per_link l ≤ max_queued_messages l;
  lk_bytes : 0 < max_bytes_per_link l ≤ max_buffered_bytes l;
}.

Lemma transport_limits_ok l : limits_u64 l → is_ok (transport_limits_new l) = true ↔ limits_ok l.
Proof.
  intros Hu. unfold limits_u64, fits in Hu. repeat (apply Forall_cons in Hu as [? Hu]). clear Hu.
  unfold transport_limits_new. cbn [check_limits andb]. rewrite !orb_false_r.
  assert (Hq : MAX_TRANSPORT_QUEUE_CAPACITY ≤ MAX_TRANSPORT_RESOURCE_LIMIT) by done.
  split.
  - repeat match goal with |- context [if ?c then Err _ else _] => destruct c eqn:?; [done|] end; cbn [mbind result_bind];
    repeat match goal with |- context [if ?c then Err _ else _] => destruct c eqn:?; [done|] end. intros _.
    repeat match goal with H : (_ || _) = false |- _ => apply orb_false_iff in H as [? ?] end. breflect. constructor; lia.
  - intros []. repeat match goal with |- context [if ?c then Err _ else _] =>
      replace c with false by (symmetry; rewrite ?orb_false_iff, ?Z.eqb_neq, ?Z.gtb_ltb, ?Z.ltb_ge; lia) end. cbn [mbind result_bind].
    repeat match goal with |- context [if ?c then Err _ else _] =>
      replace c with false by (symmetry; rewrite ?Z.gtb_ltb, ?Z.ltb_ge; lia) end. done.
Qed.

(** ** Properties *)

(** Resource accounting is exact.  Start a budget from limits and let its users
    acquire, acquire bundles and drop leases in any order: at every moment the
    use of each class is the sum of the leases that are out, never above
    the limit, the high-water mark lies between, and no release has ever found
    less than it returns. *)
Theorem budget_exact limits b0 b ls
    (Hl : Forall (λ l, fits 64 (rl_maximum l)) limits) (Hb : budget_new limits = Ok b0)
    (Hr : rtc budget_step (b0, []) (b, ls)) :
  accounted b ls.
Proof. by apply (budget_reachable limits b0). Qed.

(** Bundles are admitted as a whole.  In every reachable state a bundle is
    granted exactly when it is not empty, has at most 32 requests, none of them zero, no class
    twice, and every request fits beside what is held; then the use grows by
    exactly the requests, and otherwise no use changes. *)
Theorem bundle_exact limits b0 b ls requests
    (Hl : Forall (λ l, fits 64 (rl_maximum l)) limits) (Hb : budget_new limits = Ok b0)
    (Hr : rtc budget_step (b0, []) (b, ls)) (Hq : Forall (λ r, fits 64 (rq_amount r)) requests) :
  let '(b', r) := try_acquire_bundle requests b in
  (is_ok r = true ↔ admissible b ls requests) ∧
  match r with
  | Ok new => new ≡ₚ lease_of <$> requests ∧ accounted b' (new ++ ls)
  | Err _ => accounted b' ls
  end.
Proof.
  pose proof (budget_reachable limits b0 b ls Hl Hb Hr) as Ha.
  pose proof (try_acquire_bundle_spec requests b ls Ha) as H. destruct (try_acquire_bundle requests b) as [b' [new|e]].
  - destruct H as (Had & -> & Ha'); [eapply Forall_impl; [exact Hq|]; unfold fits; cbn; lia|].
    split; [done|]. split; [|done]. by rewrite merge_sort_Permutation.
  - destruct H as (Had & Ha'); [eapply Forall_impl; [exact Hq|]; unfold fits; cbn; lia|]. done.
Qed.

(** ** Witnesses *)
Definition sample_limits : list ResourceLimit := [mkLimit ActiveLinks 2; mkLimit BufferedBytes 100].
Definition sample_budget : ResourceBudget :=
  match budget_new sample_limits with Ok b => b | Err _ => ∅ end.
Definition sample_granted : ResourceBudget := (try_acquire (mkRequest ActiveLinks 1) sample_budget).1.
Lemma sample_run : rtc budget_step (sample_budget, []) (sample_granted, [mkLease ActiveLinks 1]).
Proof. apply rtc_once. apply (step_acquire (mkRequest ActiveLinks 1)); [done|vm_compute; reflexivity]. Qed.

Lemma budget_exact_witness : accounted sample_granted [mkLease ActiveLinks 1].
Proof.
  apply (budget_exact sample_limits sample_budget sample_granted [mkLease ActiveLinks 1]).
  - repeat constructor; done.
  - vm_compute. reflexivity.
  - apply sample_run.
Defined.

Lemma bundle_exact_witness :
  let '(b', r) := try_acquire_bundle [mkRequest BufferedBytes 60; mkRequest ActiveLinks 1] sample_granted in
  (is_ok r = true ↔ admissible sample_granted [mkLease ActiveLinks 1] [mkRequest BufferedBytes 60; mkRequest ActiveLinks 1]) ∧
  match r with
  | Ok new => new ≡ₚ lease_of <$> [mkRequest BufferedBytes 60; mkRequest ActiveLinks 1] ∧ accounted b' (new ++ [mkLease ActiveLinks 1])
  | Err _ => accounted b' [mkLease ActiveLinks 1]
  end.
Proof.
  apply (bundle_exact sample_limits sample_budget sample_granted [mkLease ActiveLinks 1] [mkRequest BufferedBytes 60; mkRequest ActiveLinks 1]).
  - repeat constructor; done.
  - vm_compute. reflexivity.
  - apply sample_run.
  - repeat constructor; done.
Defined.
