(* ===== verification/TransportManager.v ===== *)
(** * The transport manager

    Models [types.rs], [lifecycle.rs], [delivery.rs], [snapshot.rs] and
    [manager.rs] of [i2pr-transport/src/]: link candidates and their lifecycle,
    registration under a duplicate policy, delivery queues with their accounting,
    backoff and reachability records.  Each operation between taking and
    releasing the lock is one transformer of the manager; what its callers own
    (handshake leases, candidates, queued deliveries) is returned to them, and
    dropping it is an operation of its own.  A poisoned lock is not modelled: no
    operation panics while it holds one. *)
From stdpp Require Import sorting.
From S2P Require Import Prelude Common Mapping BTree Resource.

(** ** Vocabulary *)
Definition MAX_LINK_ID : Z := 9223372036854775807.
Definition MAX_DEADLINE : Z := 7 * 24 * 60 * 60 * 1000000000.
Definition MAX_LINK_SNAPSHOT_ENTRIES : Z := 256.
Definition MAX_REACHABILITY_OBSERVATIONS : Z := 64.

Inductive TransportKind := Ntcp2 | Ssu2.
Inductive Direction := Inbound | Outbound.
Inductive LinkIdError := LinkIdZero | LinkIdTooLarge | LinkIdExhausted.
#[export] Instance TransportKind_eq_dec : EqDecision TransportKind.
Proof. solve_decision. Defined.
#[export] Instance Direction_eq_dec : EqDecision Direction.
Proof. solve_decision. Defined.

Definition link_id_new (value : Z) : result LinkIdError Z :=
  if value =? 0 then Err LinkIdZero else if value >? MAX_LINK_ID then Err LinkIdTooLarge else Ok value.

(** The process-wide counter behind [LinkId::generate]. *)
Definition link_id_generate : M Z LinkIdError Z := λ current,
  if current <? MAX_LINK_ID then (current + 1, Ok current) else (current, Err LinkIdExhausted).

(** Durations and times are nanoseconds. *)
Inductive DeadlineError := DeadlineTooFar.
Definition deadline_new (at_ : Z) : result DeadlineError Z := if at_ >? MAX_DEADLINE then Err DeadlineTooFar else Ok at_.
Definition is_elapsed (deadline now : Z) : bool := now >=? deadline.
Definition remaining_time (deadline now : Z) : Z := saturating_sub deadline now.

Inductive AddressOrigin := Configured | Observed.
Inductive AddressFamily := Ipv4 | Ipv6 | UnknownFamily.
#[export] Instance AddressFamily_eq_dec : EqDecision AddressFamily.
Proof. solve_decision. Defined.
Inductive Reachability := ReachUnknown | Unconfirmed | Reachable | Unreachable.
Inductive ValidationState := Unvalidated | Validated | Rejected.
Inductive ConfidenceError := ConfidenceTooLarge.
Definition confidence_new (value : Z) : result ConfidenceError Z := if value >? 100 then Err ConfidenceTooLarge else Ok value.

Inductive TerminationCategory :=
  | LocalShutdown | RemoteTermination | AuthenticationFailure | TimeoutCategory | ReplayOrSkewRejection | MalformedFraming
  | QueueExhaustion | ResourceExhaustion | DuplicateReplacement | IoClosure.

(** ** Lifecycle *)
Inductive LinkState := SCandidate | SHandshaking | SAuthenticated | SDraining | SClosing | SClosed | SFailed.
#[export] Instance LinkState_eq_dec : EqDecision LinkState.
Proof. solve_decision. Defined.

Record InvalidLinkTransition := mkInvalid { it_from : LinkState; it_to : LinkState }.

Definition link_transition (s next : LinkState) : result InvalidLinkTransition LinkState :=
  let valid := bool_decide (s = next) ||
    match s, next with
    | SCandidate, (SHandshaking | SClosing | SFailed) => true
    | SHandshaking, (SAuthenticated | SClosing | SFailed) => true
    | SAuthenticated, (SDraining | SClosing | SFailed) => true
    | SDraining, (SClosing | SClosed | SFailed) => true
    | SClosing, SClosed => true
    | SFailed, SClosed => true
    | _, _ => false
    end in
  if valid then Ok next else Err (mkInvalid s next).
Definition is_authenticated (s : LinkState) : bool :=
  match s with SAuthenticated | SDraining | SClosing => true | _ => false end.
Definition is_live (s : LinkState) : bool := match s with SClosed | SFailed => false | _ => true end.

(** ** Candidates and the duplicate policy *)
Record LinkCandidate := mkCandidate {
  lc_link_id : Z;
  lc_peer : bytes;
  lc_transport : TransportKind;
  lc_direction : Direction;
  lc_state : LinkState;
}.
Definition candidate_with_id (link_id : Z) (peer : bytes) (transport : TransportKind) (direction : Direction) : LinkCandidate :=
  mkCandidate link_id peer transport direction SCandidate.
Definition candidate_new (peer : bytes) (transport : TransportKind) (direction : Direction) : M Z LinkIdError LinkCandidate :=
  link_id ← link_id_generate;
  mret (candidate_with_id link_id peer transport direction).
Definition with_state (s : LinkState) (c : LinkCandidate) : LinkCandidate :=
  mkCandidate (lc_link_id c) (lc_peer c) (lc_transport c) (lc_direction c) s.
Definition candidate_begin_handshake (c : LinkCandidate) : result InvalidLinkTransition LinkCandidate :=
  s ← link_transition (lc_state c) SHandshaking; Ok (with_state s c).
Definition candidate_authenticate (c : LinkCandidate) : result InvalidLinkTransition LinkCandidate :=
  s ← link_transition (lc_state c) SAuthenticated; Ok (with_state s c).

Inductive DuplicateResolution := AcceptNew | ReplaceExisting | RejectNew | RetainExistingDrainNew.

(** Peers are compared by their hashes. *)
Definition peer_lt (p q : bytes) : bool := match units_cmp p q with Lt => true | _ => false end.

Definition decide_duplicate (local_peer : bytes) (existing candidate : LinkCandidate) : DuplicateResolution :=
  if bool_decide (lc_peer existing ≠ lc_peer candidate) then AcceptNew
  else if bool_decide (lc_direction existing = lc_direction candidate) then RejectNew
  else
  let outbound_wins := peer_lt local_peer (lc_peer candidate) in
  let candidate_wins := (outbound_wins && bool_decide (lc_direction candidate = Outbound)) ||
                        (negb outbound_wins && bool_decide (lc_direction candidate = Inbound)) in
  if candidate_wins then ReplaceExisting else RetainExistingDrainNew.

(** ** The manager *)
Inductive RegistrationError :=
  | RegResource (error : ResourceError)
  | MissingLink
  | DuplicateLinkId
  | InvalidTransition (error : InvalidLinkTransition).

Inductive CandidateDecision :=
  | AcceptFirst (link_id : Z)
  | AcceptAdditional (link_id : Z)
  | DReplaceExisting (existing candidate : Z)
  | RejectNewDuplicate (existing : Z)
  | DRetainExistingDrainNew (existing candidate : Z)
  | RejectPeerLimit (maximum : Z)
  | RejectGlobalLimit (maximum : Z)
  | RejectIncompleteAuthentication
  | RejectResourceDenied
  | RejectPeerIdentityMismatch.

Inductive CloseOutcome :=
  | LinkClosed (link_id : Z) (previous : LinkState) (reason : TerminationCategory)
  | LinkStale (link_id : Z).

Record DialBackoff := mkBackoff { db_retry_at : Z; db_attempts : Z }.
Inductive DialBackoffError := BackoffTooFar.
Definition backoff_new (retry_at attempts : Z) : result DialBackoffError DialBackoff :=
  if retry_at >? MAX_DEADLINE then Err BackoffTooFar else Ok (mkBackoff retry_at attempts).

Record ReachabilityObservation := mkObservation {
  ob_transport : TransportKind;
  ob_origin : AddressOrigin;
  ob_family : AddressFamily;
  ob_reachability : Reachability;
  ob_observed_at : Z;
  ob_validation : ValidationState;
  ob_confidence : option Z;
}.
Inductive ReachabilityRecordOutcome := Retained | EvictedOldest.

Record LinkDeliveryCapability := mkCapability { cap_link_id : Z; cap_peer : bytes; cap_transport : TransportKind }.
Record ExistingLink := mkExisting { ex_transport : TransportKind; ex_link : Z }.

Inductive DeliveryOutcome :=
  | Accepted (link_id : Z)
  | NoActiveLink
  | QueueFull
  | LinkClosedBeforeWrite
  | LinkReplaced
  | ResourceDenied
  | DeadlineElapsed
  | DeliveryCancelled
  | ProtocolTerminated (category : TerminationCategory)
  | PeerIdentityMismatch
  | DialScheduled
  | DialAlreadyPending.

Record DeliveryRequest := mkDelivery { dr_id : Z; dr_target : bytes; dr_message : bytes; dr_deadline : Z }.

Record LinkRecord := mkLink {
  lr_candidate : LinkCandidate;
  lr_created_at : Z;
  lr_last_termination : option TerminationCategory;
  lr_queued_messages : Z;
  lr_queued_bytes : Z;
  lr_active_lease : ResourceLease;
}.

Record Manager := mkManager {
  tm_limits : TransportLimits;
  tm_budget : ResourceBudget;
  tm_links : gmap Z LinkRecord;
  tm_peers : gmap bytes (gset Z);
  tm_dials : gmap bytes DialBackoff;
  tm_observations : list ReachabilityObservation;
}.

Definition set_budget (b : ResourceBudget) (m : Manager) : Manager :=
  mkManager (tm_limits m) b (tm_links m) (tm_peers m) (tm_dials m) (tm_observations m).
Definition set_links (links : gmap Z LinkRecord) (m : Manager) : Manager :=
  mkManager (tm_limits m) (tm_budget m) links (tm_peers m) (tm_dials m) (tm_observations m).
Definition set_peers (peers : gmap bytes (gset Z)) (m : Manager) : Manager :=
  mkManager (tm_limits m) (tm_budget m) (tm_links m) peers (tm_dials m) (tm_observations m).

Definition manager_new (limits : TransportLimits) : result ResourceError Manager :=
  budget ← transport_resources_new limits;
  Ok (mkManager limits budget ∅ ∅ ∅ []).

(** Running an operation of the budget. *)
Definition on_budget {E A} (op : M ResourceBudget E A) : M Manager E A := λ m,
  let '(b, r) := op (tm_budget m) in (set_budget b m, r).
Definition drop_lease (l : ResourceLease) (m : Manager) : Manager := set_budget (release l (tm_budget m)) m.

(** The iteration order of the sets of link identifiers. *)
Definition set_asc (s : gset Z) : list Z := merge_sort Z.le (elements s).
Definition set_first (s : gset Z) : option Z := head (set_asc s).

Definition duplicate_resolution (local_peer : bytes) (candidate : LinkCandidate) (m : Manager)
    : result RegistrationError DuplicateResolution :=
  match tm_peers m !! lc_peer candidate with
  | None => Ok AcceptNew
  | Some link_ids =>
      match set_first link_ids with
      | None => Ok AcceptNew
      | Some existing_id =>
          match tm_links m !! existing_id with
          | None => Err MissingLink
          | Some existing => Ok (decide_duplicate local_peer (lr_candidate existing) candidate)
          end
      end
  end.

(** A pending handshake holds its lease until it is dropped. *)
Record PendingHandshake := mkPending { ph_peer : bytes; ph_lease : ResourceLease }.
Definition begin_handshake (peer : bytes) : M Manager RegistrationError PendingHandshake :=
  lease ← with_err RegResource (on_budget (admit_resource PendingHandshakes 1));
  mret (mkPending peer lease).
Definition release_handshake (p : PendingHandshake) (m : Manager) : Manager := drop_lease (ph_lease p) m.

Definition insert_link (candidate : LinkCandidate) (now : Z) (lease : ResourceLease) : M Manager RegistrationError () := λ m,
  let id := lc_link_id candidate in
  let peer := lc_peer candidate in
  let previous := tm_links m !! id in
  let m := set_links (<[id := mkLink candidate now None 0 0 lease]> (tm_links m)) m in
  match previous with
  | Some old => (drop_lease (lr_active_lease old) m, Err DuplicateLinkId)
  | None => (set_peers (<[peer := default ∅ (tm_peers m !! peer) ∪ {[id]}]> (tm_peers m)) m, Ok ())
  end.

Definition admit_active_link : M Manager RegistrationError ResourceLease :=
  with_err RegResource (on_budget (admit_resource ActiveLinks 1)).

Definition remove_peer_link (peer : bytes) (link_id : Z) (m : Manager) : Manager :=
  match tm_peers m !! peer with
  | None => m
  | Some links =>
      let links := links ∖ {[link_id]} in
      set_peers (if bool_decide (links = ∅) then delete peer (tm_peers m) else <[peer := links]> (tm_peers m)) m
  end.

Definition register_authenticated (candidate : LinkCandidate) (now : Z) (duplicate : DuplicateResolution)
    : M Manager RegistrationError CandidateDecision := λ m,
  let link_id := lc_link_id candidate in
  let peer := lc_peer candidate in
  if bool_decide (lc_state candidate ≠ SAuthenticated) then (m, Ok RejectIncompleteAuthentication)
  else if bool_decide (is_Some (tm_links m !! link_id)) then (m, Err DuplicateLinkId)
  else
  let existing := tm_peers m !! peer ≫= set_first in
  let global_full := Z.of_nat (size (tm_links m)) >=? max_active_links (tm_limits m) in
  let accept (decision : CandidateDecision) : M Manager RegistrationError CandidateDecision :=
    lease ← admit_active_link;
    _ ← insert_link candidate now lease;
    mret decision in
  match existing with
  | Some existing =>
      match duplicate with
      | RejectNew => (m, Ok (RejectNewDuplicate existing))
      | RetainExistingDrainNew => (m, Ok (DRetainExistingDrainNew existing link_id))
      | AcceptNew =>
          let count := Z.of_nat (size (default ∅ (tm_peers m !! peer))) in
          if count >=? max_links_per_peer (tm_limits m) then (m, Ok (RejectPeerLimit (max_links_per_peer (tm_limits m))))
          else if global_full then (m, Ok (RejectGlobalLimit (max_active_links (tm_limits m))))
          else accept (AcceptAdditional link_id) m
      | ReplaceExisting =>
          match tm_links m !! existing with
          | None => (m, Err MissingLink)
          | Some old =>
              let m := set_links (delete existing (tm_links m)) m in
              let m := remove_peer_link peer existing m in
              let m := drop_lease (lr_active_lease old) m in
              accept (DReplaceExisting existing link_id) m
          end
      end
  | None =>
      if global_full then (m, Ok (RejectGlobalLimit (max_active_links (tm_limits m))))
      else accept (AcceptFirst link_id) m
  end.

(** The handshake's lease is dropped at the end, whatever happened. *)
Definition register (p : PendingHandshake) (candidate : LinkCandidate) (now : Z) (duplicate : DuplicateResolution)
    : M Manager RegistrationError CandidateDecision := λ m,
  if bool_decide (lc_peer candidate ≠ ph_peer p) then (release_handshake p m, Ok RejectPeerIdentityMismatch)
  else
  let '(m, r) := register_authenticated candidate now duplicate m in
  (release_handshake p m, r).

(** ** Delivery *)
Definition usable (m : Manager) (id : Z) : option LinkRecord :=
  link ← tm_links m !! id;
  if bool_decide (lc_state (lr_candidate link) = SAuthenticated) then Some link else None.

Fixpoint first_usable (m : Manager) (peer : bytes) (ids : list Z) : option LinkDeliveryCapability :=
  match ids with
  | [] => None
  | id :: ids' =>
      match usable m id with
      | Some link => Some (mkCapability id peer (lc_transport (lr_candidate link)))
      | None => first_usable m peer ids'
      end
  end.

Definition delivery_capability (peer : bytes) (m : Manager) : result DeliveryOutcome LinkDeliveryCapability :=
  match tm_peers m !! peer with
  | None => Err NoActiveLink
  | Some link_ids => ok_or LinkClosedBeforeWrite (first_usable m peer (set_asc link_ids))
  end.

Definition existing_le (a b : ExistingLink) : Prop := ex_link a ≤ ex_link b.
#[export] Instance existing_le_dec : RelDecision existing_le.
Proof. intros a b. unfold existing_le. apply _. Defined.
Definition authenticated_links_for (peer : bytes) (m : Manager) : list ExistingLink :=
  let ids := match tm_peers m !! peer with Some link_ids => set_asc link_ids | None => [] end in
  merge_sort existing_le
    (omap (λ id, link ← usable m id;
                 Some (mkExisting (lc_transport (lr_candidate link)) (lc_link_id (lr_candidate link)))) ids).

Definition peer_at_link_limit (peer : bytes) (m : Manager) : bool :=
  Z.of_nat (size (default ∅ (tm_peers m !! peer))) >=? max_links_per_peer (tm_limits m).

(** The checks of a link that are made under the lock, before and after the
    reservation. *)
Definition link_open (capability : LinkDeliveryCapability) (length : Z) (m : Manager) : result DeliveryOutcome LinkRecord :=
  match tm_links m !! cap_link_id capability with
  | None => Err LinkReplaced
  | Some link =>
      if bool_decide (lc_state (lr_candidate link) ≠ SAuthenticated) then Err LinkClosedBeforeWrite
      else if (lr_queued_messages link >=? max_messages_per_link (tm_limits m)) ||
              (saturating_add u64_max (lr_queued_bytes link) length >? max_bytes_per_link (tm_limits m)) then Err QueueFull
      else Ok link
  end.

Definition queue_error (e : ResourceError) : DeliveryOutcome :=
  match e with Exhausted CommandQueueItems _ _ => QueueFull | _ => ResourceDenied end.

(** First half of [enqueue_on_link]: up to the reservation.  The cancellation
    token is read twice.  The code releases its lock between the link check and
    the admission to the queue; [enqueue_commit] checks the link again. *)
Definition enqueue_reserve (capability : LinkDeliveryCapability) (request : DeliveryRequest) (now : Z)
    (cancelled1 cancelled2 : bool) : M Manager DeliveryOutcome (list ResourceLease) := λ m,
  let length := zlen (dr_message request) in
  if bool_decide (dr_target request ≠ cap_peer capability) then (m, Err PeerIdentityMismatch)
  else if cancelled1 then (m, Err DeliveryCancelled)
  else if is_elapsed (dr_deadline request) now then (m, Err DeadlineElapsed)
  else if cancelled2 then (m, Err DeliveryCancelled)
  else
  match link_open capability length m with
  | Err e => (m, Err e)
  | Ok _ => with_err queue_error (on_budget (admit_queue length)) m
  end.

Record QueuedDelivery := mkQueued { qd_request : DeliveryRequest; qd_lease : list ResourceLease; qd_link_id : Z; qd_bytes : Z }.

Definition drop_queue_lease (ls : list ResourceLease) (m : Manager) : Manager := set_budget (release_bundle ls (tm_budget m)) m.

Definition set_queue (messages size : Z) (link : LinkRecord) : LinkRecord :=
  mkLink (lr_candidate link) (lr_created_at link) (lr_last_termination link) messages size (lr_active_lease link).

(** Second half: the link is checked again, and counts the message. *)
Definition enqueue_commit (capability : LinkDeliveryCapability) (request : DeliveryRequest) (lease : list ResourceLease)
    : M Manager DeliveryOutcome QueuedDelivery := λ m,
  let length := zlen (dr_message request) in
  match link_open capability length m with
  | Err e => (drop_queue_lease lease m, Err e)
  | Ok link =>
      match checked_add u64_max (lr_queued_messages link) 1 with
      | None => (drop_queue_lease lease m, Err ResourceDenied)
      | Some messages =>
          match checked_add u64_max (lr_queued_bytes link) length with
          | None =>
              (drop_queue_lease lease
                 (set_links (<[cap_link_id capability := set_queue (saturating_sub messages 1) (lr_queued_bytes link) link]> (tm_links m)) m),
               Err ResourceDenied)
          | Some size =>
              (set_links (<[cap_link_id capability := set_queue messages size link]> (tm_links m)) m,
               Ok (mkQueued request lease (cap_link_id capability) length))
          end
      end
  end.

Definition enqueue_on_link (capability : LinkDeliveryCapability) (request : DeliveryRequest) (now : Z)
    (cancelled1 cancelled2 : bool) : M Manager DeliveryOutcome QueuedDelivery :=
  lease ← enqueue_reserve capability request now cancelled1 cancelled2;
  enqueue_commit capability request lease.

Definition enqueue_delivery (request : DeliveryRequest) (now : Z) (cancelled1 cancelled2 : bool)
    : M Manager DeliveryOutcome QueuedDelivery := λ m,
  match delivery_capability (dr_target request) m with
  | Err e => (m, Err e)
  | Ok capability => enqueue_on_link capability request now cancelled1 cancelled2 m
  end.

(** Dropping the accounting guard of a delivery. *)
Definition drop_accounting (link_id size : Z) (m : Manager) : Manager :=
  match tm_links m !! link_id with
  | None => m
  | Some link =>
      set_links (<[link_id := set_queue (saturating_sub (lr_queued_messages link) 1) (saturating_sub (lr_queued_bytes link) size) link]>
                   (tm_links m)) m
  end.
(** [into_request], and dropping a delivery: the lease first, then the guard. *)
Definition drop_delivery (q : QueuedDelivery) (m : Manager) : Manager :=
  drop_accounting (qd_link_id q) (qd_bytes q) (drop_queue_lease (qd_lease q) m).

(** ** Links, backoff, observations *)
Definition transition_link (link_id : Z) (next : LinkState) : M Manager RegistrationError () := λ m,
  match tm_links m !! link_id with
  | None => (m, Err MissingLink)
  | Some link =>
      match link_transition (lc_state (lr_candidate link)) next with
      | Err e => (m, Err (InvalidTransition e))
      | Ok s =>
          (set_links (<[link_id := mkLink (with_state s (lr_candidate link)) (lr_created_at link) (lr_last_termination link)
                                     (lr_queued_messages link) (lr_queued_bytes link) (lr_active_lease link)]> (tm_links m)) m, Ok ())
      end
  end.

Definition close_link (link_id : Z) (reason : TerminationCategory) : M Manager RegistrationError CloseOutcome := λ m,
  match tm_links m !! link_id with
  | None => (m, Ok (LinkStale link_id))
  | Some link =>
      let m := set_links (delete link_id (tm_links m)) m in
      let m := remove_peer_link (lc_peer (lr_candidate link)) link_id m in
      (drop_lease (lr_active_lease link) m, Ok (LinkClosed link_id (lc_state (lr_candidate link)) reason))
  end.

Definition peer_le (p q : bytes) : Prop := units_cmp p q ≠ Gt.
#[export] Instance peer_le_dec : RelDecision peer_le.
Proof. intros p q. unfold peer_le. apply not_dec. solve_decision. Defined.

Definition record_dial_backoff (peer : bytes) (backoff : DialBackoff) (m : Manager) : Manager :=
  let dials := tm_dials m in
  let dials :=
    if (Z.of_nat (size dials) >=? MAX_REACHABILITY_OBSERVATIONS) && negb (bool_decide (is_Some (dials !! peer))) then
      match head (merge_sort peer_le (map_to_list dials).*1) with Some oldest => delete oldest dials | None => dials end
    else dials in
  mkManager (tm_limits m) (tm_budget m) (tm_links m) (tm_peers m) (<[peer := backoff]> dials) (tm_observations m).

Definition record_reachability (observation : ReachabilityObservation) (m : Manager) : Manager * ReachabilityRecordOutcome :=
  let evicted := zlen (tm_observations m) >=? MAX_REACHABILITY_OBSERVATIONS in
  let kept := if evicted then tail (tm_observations m) else tm_observations m in
  (mkManager (tm_limits m) (tm_budget m) (tm_links m) (tm_peers m) (tm_dials m) (kept ++ [observation]),
   if evicted then EvictedOldest else Retained).

Record LinkResourceUsage := mkLinkUsage { lu_active_link_units : Z; lu_queued_message_units : Z; lu_buffered_byte_units : Z }.
Record LinkSnapshot := mkLinkSnapshot {
  sn_link_id : Z;
  sn_transport : TransportKind;
  sn_direction : Direction;
  sn_lifecycle : LinkState;
  sn_authenticated : bool;
  sn_queued_messages : Z;
  sn_queued_bytes : Z;
  sn_age : Z;
  sn_last_termination : option TerminationCategory;
  sn_resources : LinkResourceUsage;
}.
Record TransportSnapshot := mkSnapshot {
  ts_links : list LinkSnapshot;
  ts_observations : list ReachabilityObservation;
  ts_resources : list ResourceUsage;
  ts_dial_backoff_entries : Z;
}.
Definition link_snapshot (now : Z) (link : LinkRecord) : LinkSnapshot :=
  let c := lr_candidate link in
  mkLinkSnapshot (lc_link_id c) (lc_transport c) (lc_direction c) (lc_state c) (is_authenticated (lc_state c))
    (lr_queued_messages link) (lr_queued_bytes link) (Z.min (saturating_sub now (lr_created_at link)) MAX_DEADLINE)
    (lr_last_termination link) (mkLinkUsage 1 (lr_queued_messages link) (lr_queued_bytes link)).
Definition snapshot (now : Z) (m : Manager) : TransportSnapshot :=
  mkSnapshot (link_snapshot now <$> take (Z.to_nat MAX_LINK_SNAPSHOT_ENTRIES) (omap (λ id, tm_links m !! id) (keys_asc (tm_links m))))
    (tm_observations m) (budget_snapshot (tm_budget m)) (Z.of_nat (size (tm_dials m))).

(** ** Owners

    What the callers of the manager hold.  [OLease] and [OGuard] are the parts of
    a delivery that is being dropped; [OReservation] is a caller between the two
    halves of [enqueue_on_link]. *)
Inductive Owner :=
  | OHandshake (p : PendingHandshake)
  | OCandidate (c : LinkCandidate)
  | OReservation (capability : LinkDeliveryCapability) (request : DeliveryRequest) (lease : list ResourceLease)
  | ODelivery (q : QueuedDelivery)
  | OLease (l : ResourceLease)
  | OGuard (link_id size : Z).

Definition owner_leases (o : Owner) : list ResourceLease :=
  match o with
  | OHandshake p => [ph_lease p]
  | OCandidate _ | OGuard _ _ => []
  | OReservation _ _ ls => ls
  | ODelivery q => qd_lease q
  | OLease l => [l]
  end.
Definition all_leases (ow : list Owner) : list ResourceLease := ow ≫= owner_leases.

(** The deliveries that count on a link, and their bytes. *)
Definition guard_of (o : Owner) : option (Z * Z) :=
  match o with
  | ODelivery q => Some (qd_link_id q, qd_bytes q)
  | OGuard link_id size => Some (link_id, size)
  | _ => None
  end.
Definition owner_count (id : Z) (o : Owner) : Z :=
  match guard_of o with Some (i, _) => if i =? id then 1 else 0 | None => 0 end.
Definition owner_bytes (id : Z) (o : Owner) : Z :=
  match guard_of o with Some (i, n) => if i =? id then n else 0 | None => 0 end.
Definition owner_sum (f : Owner → Z) (ow : list Owner) : Z := foldr (λ o acc, f o + acc) 0 ow.

Lemma owner_sum_cons f o ow : owner_sum f (o :: ow) = f o + owner_sum f ow.
Proof. done. Qed.
Lemma owner_sum_app f ow ow' : owner_sum f (ow ++ ow') = owner_sum f ow + owner_sum f ow'.
Proof. induction ow as [|o ow IH]; [done|]. cbn [app]. rewrite !owner_sum_cons, IH. lia. Qed.
#[export] Instance owner_sum_perm f : Proper ((≡ₚ) ==> (=)) (owner_sum f).
Proof. induction 1; rewrite ?owner_sum_cons; lia. Qed.
Lemma all_leases_cons o ow : all_leases (o :: ow) = owner_leases o ++ all_leases ow.
Proof. done. Qed.
#[export] Instance all_leases_perm : Proper ((≡ₚ) ==> (≡ₚ)) all_leases.
Proof. intros ow ow' H. unfold all_leases. by rewrite H. Qed.

Definition queue_leases (n : Z) : list ResourceLease := [mkLease CommandQueueItems 1; mkLease BufferedBytes n].

(** The shape of what each owner holds. *)
Definition owner_ok (o : Owner) : Prop :=
  match o with
  | OHandshake p => ph_lease p = mkLease PendingHandshakes 1
  | OCandidate _ => True
  | OReservation _ request ls => ls = queue_leases (zlen (dr_message request))
  | ODelivery q => qd_lease q = queue_leases (qd_bytes q) ∧ 0 ≤ qd_bytes q
  | OLease l => ls_class l = CommandQueueItems ∨ ls_class l = BufferedBytes
  | OGuard _ n => 0 ≤ n
  end.

Definition link_leases (m : Manager) : list ResourceLease := lr_active_lease <$> (map_to_list (tm_links m)).*2.

Record link_ok (m : Manager) (ow : list Owner) (id : Z) (link : LinkRecord) : Prop := {
  lo_id : lc_link_id (lr_candidate link) = id;
  lo_lease : lr_active_lease link = mkLease ActiveLinks 1;
  lo_messages : lr_queued_messages link = owner_sum (owner_count id) ow;
  lo_bytes : lr_queued_bytes link = owner_sum (owner_bytes id) ow;
  lo_max_messages : lr_queued_messages link ≤ max_messages_per_link (tm_limits m);
  lo_max_bytes : lr_queued_bytes link ≤ max_bytes_per_link (tm_limits m);
}.

(** The limits of the budget. *)
Definition class_limits (l : TransportLimits) : gmap ResourceClass Z :=
  <[CommandQueueItems := max_queued_messages l]> (<[BufferedBytes := max_buffered_bytes l]>
  (<[ActiveLinks := max_active_links l]> (<[PendingHandshakes := max_pending_handshakes l]> ∅))).

(** The invariant: everything that is counted is what is owned. *)
Record manager_ok (m : Manager) (ow : list Owner) : Prop := {
  mo_limits : limits_ok (tm_limits m);
  mo_classes : bc_limit <$> tm_budget m = class_limits (tm_limits m);
  mo_accounted : accounted (tm_budget m) (all_leases ow ++ link_leases m);
  mo_owners : Forall owner_ok ow;
  mo_links : map_Forall (link_ok m ow) (tm_links m);
  mo_index : ∀ p id, id ∈ default ∅ (tm_peers m !! p) ↔ ∃ link, tm_links m !! id = Some link ∧ lc_peer (lr_candidate link) = p;
  mo_peers : map_Forall (λ _ s, s ≠ ∅ ∧ Z.of_nat (size s) ≤ max_links_per_peer (tm_limits m)) (tm_peers m);
}.

(** Identifiers come from a counter: those in use are below it, and a candidate
    has one that nothing else refers to. *)
Definition owner_id (o : Owner) : option Z :=
  match o with OCandidate c => Some (lc_link_id c) | _ => fst <$> guard_of o end.
Definition candidate_id (o : Owner) : option Z := match o with OCandidate c => Some (lc_link_id c) | _ => None end.
Record ids_ok (m : Manager) (next : Z) (ow : list Owner) : Prop := {
  io_owners : ∀ o id, o ∈ ow → owner_id o = Some id → id < next;
  io_links : ∀ id link, tm_links m !! id = Some link → id < next;
  io_distinct : NoDup (omap candidate_id ow);
  io_fresh : ∀ id, id ∈ omap candidate_id ow → tm_links m !! id = None ∧ ∀ o, o ∈ ow → fst <$> guard_of o ≠ Some id;
}.

(** ** The accounting of each operation *)
#[export] Instance manager_ok_perm m : Proper ((≡ₚ) ==> (↔)) (manager_ok m).
Proof.
  assert (H : ∀ ow ow', ow ≡ₚ ow' → manager_ok m ow → manager_ok m ow').
  { intros ow ow' Hp []. constructor; try done; [by rewrite <- Hp..|]. intros id link Hid. destruct (mo_links0 id link Hid).
    constructor; try done; by rewrite <- Hp. }
  intros ow ow' Hp. split; apply H; done.
Qed.
#[export] Instance ids_ok_perm m next : Proper ((≡ₚ) ==> (↔)) (ids_ok m next).
Proof.
  assert (H : ∀ ow ow', ow ≡ₚ ow' → ids_ok m next ow → ids_ok m next ow').
  { intros ow ow' Hp []. constructor; try done.
    - intros o id Ho. rewrite <- Hp in Ho. eauto.
    - by rewrite <- Hp.
    - intros id. rewrite <- Hp. intros [? Hg]%io_fresh0. split; [done|]. intros o Ho. rewrite <- Hp in Ho. eauto. }
  intros ow ow' Hp. split; apply H; done.
Qed.

Lemma set_budget_id m : set_budget (tm_budget m) m = m.
Proof. by destruct m. Qed.

(** Operations of the budget, and changes of ownership that count the same. *)
Lemma ok_budget m b ow ow' :
  manager_ok m ow → accounted b (all_leases ow' ++ link_leases m) → bc_limit <$> b = bc_limit <$> tm_budget m →
  (∀ id, owner_sum (owner_count id) ow' = owner_sum (owner_count id) ow) →
  (∀ id, owner_sum (owner_bytes id) ow' = owner_sum (owner_bytes id) ow) → Forall owner_ok ow' →
  manager_ok (set_budget b m) ow'.
Proof.
  intros [] Ha Hl Hc Hb Ho. constructor; cbn [tm_limits tm_budget tm_links tm_peers set_budget]; try done; [congruence|].
  intros id link Hid. destruct (mo_links0 id link Hid). constructor; try done; by rewrite ?Hc, ?Hb.
Qed.

Lemma ok_same_owners m b ow :
  manager_ok m ow → accounted b (all_leases ow ++ link_leases m) → bc_limit <$> b = bc_limit <$> tm_budget m →
  manager_ok (set_budget b m) ow.
Proof. intros Hm Ha Hl. eapply ok_budget; try done. apply Hm. Qed.

Lemma ok_reown m ow ow' :
  manager_ok m ow → all_leases ow' ≡ₚ all_leases ow →
  (∀ id, owner_sum (owner_count id) ow' = owner_sum (owner_count id) ow) →
  (∀ id, owner_sum (owner_bytes id) ow' = owner_sum (owner_bytes id) ow) → Forall owner_ok ow' →
  manager_ok m ow'.
Proof.
  intros Hm Hl Hc Hb Ho. rewrite <- (set_budget_id m). eapply ok_budget; try done. rewrite Hl. apply Hm.
Qed.

(** Owners that no link counts. *)
Lemma ok_cons_budget m b o ow :
  manager_ok m ow → accounted b (owner_leases o ++ all_leases ow ++ link_leases m) → bc_limit <$> b = bc_limit <$> tm_budget m →
  guard_of o = None → owner_ok o → manager_ok (set_budget b m) (o :: ow).
Proof.
  intros Hm Ha Hl Hg Ho. eapply ok_budget; [exact Hm|by rewrite all_leases_cons, <- app_assoc|done| | |].
  - intros id. rewrite owner_sum_cons. unfold owner_count at 1. by rewrite Hg.
  - intros id. rewrite owner_sum_cons. unfold owner_bytes at 1. by rewrite Hg.
  - constructor; [done|apply Hm].
Qed.

Lemma ok_uncons_budget m b o ow :
  manager_ok m (o :: ow) → accounted b (all_leases ow ++ link_leases m) → bc_limit <$> b = bc_limit <$> tm_budget m →
  guard_of o = None → manager_ok (set_budget b m) ow.
Proof.
  intros Hm Ha Hl Hg. eapply ok_budget; [exact Hm|done|done| | |exact (proj2 (proj1 (Forall_cons _ _ _) (mo_owners _ _ Hm)))].
  - intros id. rewrite owner_sum_cons. unfold owner_count at 2. by rewrite Hg.
  - intros id. rewrite owner_sum_cons. unfold owner_bytes at 2. by rewrite Hg.
Qed.

Lemma begin_handshake_ok p m ow :
  manager_ok m ow →
  match begin_handshake p m with
  | (m', Ok ph) => manager_ok m' (OHandshake ph :: ow) ∧ tm_links m' = tm_links m
  | (m', Err _) => manager_ok m' ow ∧ tm_links m' = tm_links m
  end.
Proof.
  intros Hm. pose proof (try_acquire_spec (mkRequest PendingHandshakes 1) _ _ (mo_accounted _ _ Hm) ltac:(done)) as Hs.
  pose proof (try_acquire_limits (mkRequest PendingHandshakes 1) (tm_budget m)) as Hl.
  unfold begin_handshake, with_err, on_budget, admit_resource. cbn [request_new Z.eqb]. unfold mbind, M_bind, lift.
  destruct (try_acquire _ _) as [b [l|e]]; cbn [fst] in *.
  - destruct Hs as [-> Ha]. split; [|done]. by apply ok_cons_budget.
  - destruct Hs as [Ha _]. split; [|done]. by apply ok_same_owners.
Qed.

(** Dropping a lease that no link counts. *)
Lemma drop_lease_ok l o m ow :
  owner_leases o = [l] → guard_of o = None → manager_ok m (o :: ow) → manager_ok (drop_lease l m) ow.
Proof.
  intros Hl Hg Hm. eapply ok_uncons_budget; [exact Hm| |by apply release_limits|done].
  apply release_spec. pose proof (mo_accounted _ _ Hm) as Ha. by rewrite all_leases_cons, Hl in Ha.
Qed.

(** ** Links *)
Lemma link_leases_insert m id r :
  tm_links m !! id = None → link_leases (set_links (<[id := r]> (tm_links m)) m) ≡ₚ lr_active_lease r :: link_leases m.
Proof. intros H. unfold link_leases. cbn [tm_links set_links]. by rewrite map_to_list_insert. Qed.
Lemma link_leases_delete m id r :
  tm_links m !! id = Some r → link_leases m ≡ₚ lr_active_lease r :: link_leases (set_links (delete id (tm_links m)) m).
Proof. intros H. unfold link_leases. cbn [tm_links set_links]. rewrite <- (map_to_list_delete _ id r) by done. done. Qed.
Lemma link_leases_update m id r r' :
  tm_links m !! id = Some r → lr_active_lease r' = lr_active_lease r →
  link_leases (set_links (<[id := r']> (tm_links m)) m) ≡ₚ link_leases m.
Proof.
  intros H Hl. rewrite (link_leases_delete m id r H), <- Hl. rewrite <- insert_delete_eq.
  rewrite <- (link_leases_insert (set_links (delete id (tm_links m)) m) id r') by apply lookup_delete_eq. done.
Qed.

(** Changing a link in place. *)
Lemma ok_update m ow ow' id r r' :
  manager_ok m ow → tm_links m !! id = Some r → lr_active_lease r' = lr_active_lease r →
  lc_peer (lr_candidate r') = lc_peer (lr_candidate r) → all_leases ow' ≡ₚ all_leases ow → Forall owner_ok ow' →
  link_ok m ow' id r' →
  (∀ i, i ≠ id → owner_sum (owner_count i) ow' = owner_sum (owner_count i) ow ∧ owner_sum (owner_bytes i) ow' = owner_sum (owner_bytes i) ow) →
  manager_ok (set_links (<[id := r']> (tm_links m)) m) ow'.
Proof.
  intros [] Hid Hl Hp Hle Ho Hok Hsum. constructor; cbn [tm_limits tm_budget tm_links tm_peers set_links]; try done.
  - rewrite link_leases_update by done. by rewrite Hle.
  - intros i ri Hi. apply lookup_insert_Some in Hi as [[<- <-]|[Hne Hi]]; [by destruct Hok|].
    destruct (mo_links0 i ri Hi), (Hsum i) as [H1 H2]; [done|]. constructor; try done; congruence.
  - intros p i. rewrite mo_index0. destruct (decide (id = i)) as [<-|Hne].
    + rewrite Hid, lookup_insert_eq. split; intros (x & [= <-] & <-); eauto.
    + by rewrite lookup_insert_ne.
Qed.

Lemma held_owners ow : Forall owner_ok ow → held ActiveLinks (all_leases ow) = 0.
Proof.
  induction 1 as [|o ow Ho _ IH]; [done|]. rewrite all_leases_cons, held_app, IH.
  destruct o as [p|c|cap req ls|q|l|i n]; cbn [owner_leases owner_ok] in *; try done.
  - by rewrite Ho.
  - by rewrite Ho.
  - by rewrite (proj1 Ho).
  - rewrite held_cons. destruct Ho as [-> | ->]; done.
Qed.

Lemma held_links m ow : map_Forall (link_ok m ow) (tm_links m) → held ActiveLinks (link_leases m) = Z.of_nat (size (tm_links m)).
Proof.
  intros H. unfold link_leases. rewrite <- length_map_to_list.
  assert (Hall : Forall (λ p, lr_active_lease p.2 = mkLease ActiveLinks 1) (map_to_list (tm_links m))).
  { apply Forall_forall. intros [id r] Hin. apply elem_of_map_to_list in Hin. apply (lo_lease _ _ _ _ (H id r Hin)). }
  induction Hall as [|[id r] l Hr _ IH]; [done|]. rewrite !fmap_cons, held_cons, IH. cbn [snd] in *. rewrite Hr.
  rewrite bool_decide_eq_true_2 by done. cbn [length ls_amount]. lia.
Qed.

(** An active link is admitted exactly while there is room. *)
Lemma admit_active_ok m ow :
  manager_ok m ow → Z.of_nat (size (tm_links m)) < max_active_links (tm_limits m) →
  ∃ b, admit_active_link m = (set_budget b m, Ok (mkLease ActiveLinks 1)) ∧
    accounted b (mkLease ActiveLinks 1 :: all_leases ow ++ link_leases m) ∧ bc_limit <$> b = bc_limit <$> tm_budget m.
Proof.
  intros Hm Hroom. pose proof (try_acquire_spec (mkRequest ActiveLinks 1) _ _ (mo_accounted _ _ Hm) ltac:(done)) as Hs.
  pose proof (try_acquire_limits (mkRequest ActiveLinks 1) (tm_budget m)) as Hl.
  unfold admit_active_link, with_err, on_budget, admit_resource. cbn [request_new Z.eqb]. unfold mbind, M_bind, lift.
  destruct (try_acquire _ _) as [b [l|e]]; cbn [fst rq_class rq_amount] in *.
  - destruct Hs as [-> Ha]. by exists b.
  - exfalso. assert (Hcl : bc_limit <$> tm_budget m !! ActiveLinks = Some (max_active_links (tm_limits m))).
    { rewrite <- lookup_fmap, (mo_classes _ _ Hm). unfold class_limits. by rewrite !lookup_insert_ne, lookup_insert_eq by done. }
    destruct Hs as [_ [Hz|[Hn|(cs & Hcs & Hlt)]]]; [done|by rewrite Hn in Hcl|]. rewrite Hcs in Hcl. injection Hcl as Hcl.
    rewrite held_app, (held_owners ow (mo_owners _ _ Hm)), (held_links m ow (mo_links _ _ Hm)) in Hlt. lia.
Qed.

(** ** The index of peers *)
Lemma remove_peer_link_lookup p id m q :
  default ∅ (tm_peers (remove_peer_link p id m) !! q) =
  if decide (q = p) then default ∅ (tm_peers m !! p) ∖ {[id]} else default ∅ (tm_peers m !! q).
Proof.
  unfold remove_peer_link. destruct (tm_peers m !! p) as [s|] eqn:E.
  - cbn [tm_peers set_peers]. case_decide as Hq; [subst q|]; case_bool_decide as Hs.
    + rewrite lookup_delete_eq. cbn. by rewrite Hs.
    + by rewrite lookup_insert_eq.
    + by rewrite lookup_delete_ne by done.
    + by rewrite lookup_insert_ne by done.
  - case_decide; [subst|done]. rewrite E. cbn. set_solver.
Qed.

Lemma remove_peer_link_fields p id m :
  tm_links (remove_peer_link p id m) = tm_links m ∧ tm_limits (remove_peer_link p id m) = tm_limits m ∧
  tm_budget (remove_peer_link p id m) = tm_budget m.
Proof. unfold remove_peer_link. by destruct (tm_peers m !! p). Qed.

Lemma remove_peer_link_sizes p id m n :
  map_Forall (λ _ s, s ≠ ∅ ∧ Z.of_nat (size s) ≤ n) (tm_peers m) →
  map_Forall (λ _ s, s ≠ ∅ ∧ Z.of_nat (size s) ≤ n) (tm_peers (remove_peer_link p id m)).
Proof.
  intros H. unfold remove_peer_link. destruct (tm_peers m !! p) as [s|] eqn:E; [|done]. cbn [tm_peers set_peers].
  case_bool_decide as Hs; [by apply map_Forall_delete|]. apply map_Forall_insert_2; [|done]. split; [done|].
  destruct (H p s E) as [_ Hn]. etrans; [|exact Hn]. apply Nat2Z.inj_le, subseteq_size. set_solver.
Qed.

(** Removing a link with its lease. *)
Definition remove_link (id : Z) (r : LinkRecord) (m : Manager) : Manager :=
  drop_lease (lr_active_lease r) (remove_peer_link (lc_peer (lr_candidate r)) id (set_links (delete id (tm_links m)) m)).

Lemma remove_link_ok id r m ow :
  manager_ok m ow → tm_links m !! id = Some r →
  manager_ok (remove_link id r m) ow ∧ tm_links (remove_link id r m) = delete id (tm_links m) ∧
  tm_limits (remove_link id r m) = tm_limits m.
Proof.
  intros [] Hid. unfold remove_link. set (p := lc_peer (lr_candidate r)). set (m1 := set_links (delete id (tm_links m)) m).
  destruct (remove_peer_link_fields p id m1) as (F1 & F2 & F3). set (m2 := remove_peer_link p id m1) in *.
  assert (Hll : link_leases m2 = link_leases m1) by (unfold link_leases; by rewrite F1).
  split_and!; [|exact F1|exact F2]. constructor; cbn [drop_lease set_budget tm_limits tm_budget tm_links tm_peers]; rewrite ?F1, ?F2, ?F3; try done;
    try change (tm_links m1) with (delete id (tm_links m)).
  - rewrite release_limits. done.
  - change (link_leases (drop_lease (lr_active_lease r) m2)) with (link_leases m2). rewrite Hll. apply release_spec.
    rewrite (link_leases_delete m id r Hid) in mo_accounted0. by rewrite <- Permutation_middle in mo_accounted0.
  - intros i ri [Hne Hi]%lookup_delete_Some. destruct (mo_links0 i ri Hi). by constructor; cbn; rewrite ?F2.
  - intros q i. unfold m2. rewrite remove_peer_link_lookup. cbn [m1 tm_peers set_links]. case_decide as Hq.
    + subst q. rewrite elem_of_difference, elem_of_singleton, mo_index0. setoid_rewrite lookup_delete_Some. naive_solver.
    + rewrite mo_index0. setoid_rewrite lookup_delete_Some. split; [|naive_solver].
      intros (link & Hl & Hp). exists link. split; [split; [|done]|done]. intros <-. rewrite Hid in Hl. injection Hl as <-. done.
  - by apply remove_peer_link_sizes.
Qed.

(** ** Registration *)
Definition new_link (c : LinkCandidate) (now : Z) : LinkRecord := mkLink c now None 0 0 (mkLease ActiveLinks 1).

Lemma insert_link_ok c now m b ow :
  manager_ok m ow → accounted b (mkLease ActiveLinks 1 :: all_leases ow ++ link_leases m) → bc_limit <$> b = bc_limit <$> tm_budget m →
  tm_links m !! lc_link_id c = None →
  owner_sum (owner_count (lc_link_id c)) ow = 0 → owner_sum (owner_bytes (lc_link_id c)) ow = 0 →
  Z.of_nat (size (default ∅ (tm_peers m !! lc_peer c))) < max_links_per_peer (tm_limits m) →
  ∃ m', insert_link c now (mkLease ActiveLinks 1) (set_budget b m) = (m', Ok ()) ∧ manager_ok m' ow ∧
    tm_links m' = <[lc_link_id c := new_link c now]> (tm_links m) ∧ tm_limits m' = tm_limits m.
Proof.
  intros Hm Ha Hl Hid Hc Hb Hs. unfold insert_link. cbn [tm_links set_budget]. rewrite Hid. eexists. split; [done|].
  pose proof (mo_limits _ _ Hm) as Hlim. destruct Hlim, Hm. set (k := lc_link_id c) in *. set (p := lc_peer c) in *.
  assert (Hni : k ∉ default ∅ (tm_peers m !! p)). { rewrite mo_index0. intros (r & Hr & _). congruence. }
  split_and!; [|done..]. constructor; cbn [set_budget set_links set_peers tm_limits tm_budget tm_links tm_peers]; try done.
  - congruence.
  - change (link_leases _) with (link_leases (set_links (<[k := new_link c now]> (tm_links m)) m)).
    rewrite link_leases_insert by done. by rewrite <- Permutation_middle.
  - intros i ri Hi. apply lookup_insert_Some in Hi as [[<- <-]|[Hne Hi]].
    + constructor; cbn; lia || done.
    + destruct (mo_links0 i ri Hi). by constructor.
  - intros q i. destruct (decide (p = q)) as [<-|Hq].
    + rewrite lookup_insert_eq. cbn [from_option id]. rewrite elem_of_union, elem_of_singleton, mo_index0. setoid_rewrite lookup_insert_Some.
      split; [|naive_solver]. intros [(r & Hr & Hp)| ->]; [exists r; split; [right; split; [congruence|done]|done]|]. exists (new_link c now). by auto.
    + rewrite lookup_insert_ne by done. rewrite mo_index0. setoid_rewrite lookup_insert_Some. split.
      * intros (r & Hr & Hp). exists r. split; [right; split; [congruence|done]|done].
      * intros (r & [[<- <-]|[_ Hr]] & Hp); [done|eauto].
  - apply map_Forall_insert_2; [|done]. split; [set_solver|]. rewrite size_union by set_solver. rewrite size_singleton. lia.
Qed.

Lemma elem_of_set_asc s i : i ∈ set_asc s ↔ i ∈ s.
Proof. unfold set_asc. by rewrite merge_sort_Permutation, elem_of_elements. Qed.
Lemma set_first_Some s i : set_first s = Some i → i ∈ s.
Proof. intros H. rewrite <- elem_of_set_asc. unfold set_first in H. destruct (set_asc s); [done|]. injection H as ->. apply list_elem_of_here. Qed.
Lemma set_first_None s : set_first s = None → s = ∅.
Proof.
  intros H. apply elem_of_equiv_empty_L. intros i Hi. rewrite <- elem_of_set_asc in Hi. unfold set_first in H.
  destruct (set_asc s); [by apply elem_of_nil in Hi|done].
Qed.

(** The first link of a peer, as registration finds it. *)
Definition first_link (m : Manager) (p : bytes) : option Z := tm_peers m !! p ≫= set_first.

Lemma first_link_Some m ow p e :
  manager_ok m ow → first_link m p = Some e → ∃ r, tm_links m !! e = Some r ∧ lc_peer (lr_candidate r) = p.
Proof.
  intros Hm H. unfold first_link in H. apply (mo_index _ _ Hm). destruct (tm_peers m !! p); [|done]. by apply set_first_Some.
Qed.
Lemma first_link_None m ow p :
  manager_ok m ow → first_link m p = None → tm_peers m !! p = None.
Proof.
  intros Hm H. unfold first_link in H. destruct (tm_peers m !! p) as [s|] eqn:E; [|done]. apply set_first_None in H.
  by destruct (mo_peers _ _ Hm p s E).
Qed.

(** What is decided about an authenticated candidate. *)
Definition decision (m : Manager) (c : LinkCandidate) (duplicate : DuplicateResolution) : CandidateDecision :=
  let full := Z.of_nat (size (tm_links m)) >=? max_active_links (tm_limits m) in
  match first_link m (lc_peer c) with
  | None => if full then RejectGlobalLimit (max_active_links (tm_limits m)) else AcceptFirst (lc_link_id c)
  | Some e =>
      match duplicate with
      | RejectNew => RejectNewDuplicate e
      | RetainExistingDrainNew => DRetainExistingDrainNew e (lc_link_id c)
      | ReplaceExisting => DReplaceExisting e (lc_link_id c)
      | AcceptNew =>
          if peer_at_link_limit (lc_peer c) m then RejectPeerLimit (max_links_per_peer (tm_limits m))
          else if full then RejectGlobalLimit (max_active_links (tm_limits m)) else AcceptAdditional (lc_link_id c)
      end
  end.
Definition links_after (d : CandidateDecision) (c : LinkCandidate) (now : Z) (links : gmap Z LinkRecord) : gmap Z LinkRecord :=
  match d with
  | AcceptFirst _ | AcceptAdditional _ => <[lc_link_id c := new_link c now]> links
  | DReplaceExisting e _ => <[lc_link_id c := new_link c now]> (delete e links)
  | _ => links
  end.

(** A link identifier nothing refers to. *)
Definition unused (m : Manager) (ow : list Owner) (id : Z) : Prop :=
  tm_links m !! id = None ∧ owner_sum (owner_count id) ow = 0 ∧ owner_sum (owner_bytes id) ow = 0.

Lemma accept_ok c now d m ow :
  manager_ok m ow → unused m ow (lc_link_id c) → Z.of_nat (size (tm_links m)) < max_active_links (tm_limits m) →
  Z.of_nat (size (default ∅ (tm_peers m !! lc_peer c))) < max_links_per_peer (tm_limits m) →
  ∃ m', (lease ← admit_active_link; _ ← insert_link c now lease; mret d : M Manager RegistrationError CandidateDecision) m = (m', Ok d) ∧
    manager_ok m' ow ∧ tm_links m' = <[lc_link_id c := new_link c now]> (tm_links m) ∧ tm_limits m' = tm_limits m.
Proof.
  intros Hm (U1 & U2 & U3) Hroom Hpeer. destruct (admit_active_ok m ow Hm Hroom) as (b & Hadm & Ha & Hl).
  destruct (insert_link_ok c now m b ow Hm Ha Hl U1 U2 U3 Hpeer) as (m' & Hins & Hok & Hlinks & Hlim).
  exists m'. split_and!; try done. unfold mbind at 1, M_bind at 1. rewrite Hadm. unfold mbind, M_bind. by rewrite Hins.
Qed.

Lemma links_bounded m ow : manager_ok m ow → Z.of_nat (size (tm_links m)) ≤ max_active_links (tm_limits m).
Proof.
  intros Hm. assert (Hcl : bc_limit <$> tm_budget m !! ActiveLinks = Some (max_active_links (tm_limits m))).
  { rewrite <- lookup_fmap, (mo_classes _ _ Hm). unfold class_limits. by rewrite !lookup_insert_ne, lookup_insert_eq by done. }
  destruct (tm_budget m !! ActiveLinks) as [cs|] eqn:Ecs; [|done]. injection Hcl as Hcl.
  pose proof (ac_classes _ _ (mo_accounted _ _ Hm) _ _ Ecs) as [_ Hh _ _].
  rewrite held_app, (held_owners ow (mo_owners _ _ Hm)), (held_links m ow (mo_links _ _ Hm)) in Hh. lia.
Qed.

Lemma register_authenticated_ok c now duplicate m ow :
  manager_ok m ow → unused m ow (lc_link_id c) → lc_state c = SAuthenticated →
  ∃ m', register_authenticated c now duplicate m = (m', Ok (decision m c duplicate)) ∧ manager_ok m' ow ∧
    tm_links m' = links_after (decision m c duplicate) c now (tm_links m) ∧ tm_limits m' = tm_limits m.
Proof.
  intros Hm Hu Hst. pose proof Hu as (U1 & U2 & U3). pose proof (mo_limits _ _ Hm) as Hlim.
  unfold register_authenticated. rewrite bool_decide_eq_false_2 by (intros Hn; by apply Hn).
  rewrite bool_decide_eq_false_2 by (rewrite U1; by intros []). unfold decision, peer_at_link_limit. fold (first_link m (lc_peer c)).
  destruct (first_link m (lc_peer c)) as [e|] eqn:Ef.
  - destruct (first_link_Some _ _ _ _ Hm Ef) as (old & Hold & Hp). destruct duplicate.
    + destruct (_ >=? max_links_per_peer _) eqn:Ep; [by exists m|]. destruct (_ >=? max_active_links _) eqn:Eg; [by exists m|]. breflect.
      apply accept_ok; try done; lia.
    + rewrite Hold. destruct (remove_link_ok e old m ow Hm Hold) as (Hok & Hlinks & Hl). unfold remove_link in *. rewrite Hp in *.
      match goal with |- context [drop_lease ?l ?x] => set (m1 := drop_lease l x) in * end.
      assert (Hu1 : unused m1 ow (lc_link_id c)). { split_and!; try done. rewrite Hlinks. by apply lookup_delete_None; right. }
      assert (Hsz : Z.of_nat (size (tm_links m1)) < max_active_links (tm_limits m1)).
      { rewrite Hlinks, Hl, map_size_delete_Some by eauto. pose proof (links_bounded m ow Hm).
        assert (size (tm_links m) ≠ 0%nat) by (intros Hz%map_size_empty_inv; by rewrite Hz, lookup_empty in Hold). lia. }
      destruct (accept_ok c now (DReplaceExisting e (lc_link_id c)) m1 ow Hok Hu1 Hsz) as (m' & Hacc & Hok' & Hlinks' & Hl').
      { change (tm_peers m1) with (tm_peers (remove_peer_link (lc_peer c) e (set_links (delete e (tm_links m)) m))).
        rewrite remove_peer_link_lookup, decide_True by done. rewrite Hl. cbn [tm_peers set_links].
        unfold first_link in Ef. destruct (tm_peers m !! lc_peer c) as [s|] eqn:Es; [|done]. cbn [from_option id].
        apply set_first_Some in Ef. destruct (mo_peers _ _ Hm _ _ Es) as [_ Hs].
        rewrite size_difference by set_solver. rewrite size_singleton. assert (size s ≠ 0%nat) by (intros ?%size_empty_inv; set_solver). lia. }
      exists m'. split_and!; [exact Hacc|done|by rewrite Hlinks', Hlinks|by rewrite Hl', Hl].
    + by exists m.
    + by exists m.
  - pose proof (first_link_None _ _ _ Hm Ef) as Hnone. destruct (_ >=? max_active_links _) eqn:Eg; [by exists m|]. breflect.
    apply accept_ok; try done. rewrite Hnone. cbn [from_option]. rewrite size_empty. destruct Hlim. lia.
Qed.

(** ** Queues *)
Lemma zlen_message_nonneg (r : DeliveryRequest) : 0 ≤ zlen (dr_message r).
Proof. apply zlen_nonneg. Qed.

Lemma link_open_spec capability n m ow link :
  manager_ok m ow → 0 ≤ n → link_open capability n m = Ok link ↔
  tm_links m !! cap_link_id capability = Some link ∧ lc_state (lr_candidate link) = SAuthenticated ∧
  lr_queued_messages link < max_messages_per_link (tm_limits m) ∧ lr_queued_bytes link + n ≤ max_bytes_per_link (tm_limits m).
Proof.
  intros Hm Hn. unfold link_open. destruct (tm_links m !! _) as [r|] eqn:E; [|naive_solver].
  pose proof (mo_limits _ _ Hm) as Hlim. destruct Hlim. destruct (mo_links _ _ Hm _ _ E).
  assert (Hlt : MAX_TRANSPORT_RESOURCE_LIMIT < u64_max) by done.
  case_bool_decide as Hs; [naive_solver|]. unfold saturating_add.
  destruct (_ || _) eqn:Eq; [apply orb_true_iff in Eq|apply orb_false_iff in Eq]; breflect.
  - split; [done|]. intros ([= <-] & _ & H1 & H2). destruct Eq as [Eq|Eq]; breflect; lia.
  - destruct Eq as [E1 E2]. breflect. split; [intros <-%Ok_inj; split_and!; try done; lia|by intros ([= <-] & _)].
Qed.

Lemma enqueue_reserve_ok capability request now c1 c2 m ow :
  manager_ok m ow →
  match enqueue_reserve capability request now c1 c2 m with
  | (m', Ok ls) => manager_ok m' (OReservation capability request ls :: ow) ∧ tm_links m' = tm_links m
  | (m', Err _) => manager_ok m' ow ∧ tm_links m' = tm_links m
  end.
Proof.
  intros Hm. unfold enqueue_reserve. case_bool_decide; [done|]. destruct c1; [done|]. destruct (is_elapsed _ _); [done|].
  destruct c2; [done|]. destruct (link_open _ _ _) as [link|e] eqn:El; [|done]. set (n := zlen (dr_message request)) in *.
  unfold with_err, on_budget, admit_queue, request_new. change (1 =? 0) with false. unfold mbind, M_bind, lift.
  pose proof (zlen_message_nonneg request) as Hn. fold n in Hn. destruct (n =? 0) eqn:En; breflect.
  { rewrite set_budget_id. done. }
  pose proof (try_acquire_bundle_spec [mkRequest CommandQueueItems 1; mkRequest BufferedBytes n] _ _ (mo_accounted _ _ Hm)) as Hs.
  pose proof (try_acquire_bundle_limits [mkRequest CommandQueueItems 1; mkRequest BufferedBytes n] (tm_budget m)) as Hl.
  destruct (try_acquire_bundle _ _) as [b [new|e]]; cbn [fst] in *.
  - destruct Hs as (_ & Hnew & Ha); [repeat constructor; cbn; lia|]. split; [|done].
    assert (Hq : new = queue_leases n) by (by rewrite Hnew). subst new. rewrite Hq in Ha |- *. by apply ok_cons_budget.
  - destruct Hs as [_ Ha]; [repeat constructor; cbn; lia|]. split; [|done]. by apply ok_same_owners.
Qed.

(** Dropping a reservation. *)
Lemma drop_reservation_ok capability request ls m ow :
  manager_ok m (OReservation capability request ls :: ow) → manager_ok (drop_queue_lease ls m) ow.
Proof.
  intros Hm. eapply ok_uncons_budget; [exact Hm| |by apply release_bundle_limits|done].
  apply release_bundle_spec. pose proof (mo_accounted _ _ Hm) as Ha. rewrite all_leases_cons, <- app_assoc in Ha. exact Ha.
Qed.

Lemma enqueue_commit_ok capability request ls m ow :
  manager_ok m (OReservation capability request ls :: ow) →
  match enqueue_commit capability request ls m with
  | (m', Ok q) => manager_ok m' (ODelivery q :: ow) ∧ qd_link_id q = cap_link_id capability ∧ qd_request q = request
  | (m', Err _) => manager_ok m' ow
  end ∧ dom (tm_links (enqueue_commit capability request ls m).1) = dom (tm_links m).
Proof.
  intros Hm. unfold enqueue_commit. set (n := zlen (dr_message request)). pose proof (zlen_message_nonneg request) as Hn. fold n in Hn.
  destruct (link_open capability n m) as [link|e] eqn:El; [|split; [by eapply drop_reservation_ok|done]].
  apply (link_open_spec _ _ _ _ _ Hm Hn) in El as (Hid & Hst & Hmsg & Hbytes).
  pose proof (mo_limits _ _ Hm) as Hlim. destruct Hlim. destruct (mo_links _ _ Hm _ _ Hid).
  assert (Hlt : MAX_TRANSPORT_RESOURCE_LIMIT < u64_max) by done. assert (Hlt' : MAX_TRANSPORT_QUEUE_CAPACITY < u64_max) by done.
  rewrite (proj2 (checked_add_Some u64_max _ _ (lr_queued_messages link + 1))) by (split; [done|lia]).
  rewrite (proj2 (checked_add_Some u64_max _ _ (lr_queued_bytes link + n))) by (split; [done|lia]).
  pose proof (mo_owners _ _ Hm) as [Hls Ho]%Forall_cons. cbn [owner_ok] in Hls. fold n in Hls.
  split; [split_and!; try done|cbn; by rewrite dom_insert_lookup_L by eauto].
  assert (Hcnt : ∀ i, owner_sum (owner_count i) (ODelivery (mkQueued request ls (cap_link_id capability) n) :: ow) =
    (if cap_link_id capability =? i then 1 else 0) + owner_sum (owner_count i) (OReservation capability request ls :: ow)) by done.
  assert (Hbyt : ∀ i, owner_sum (owner_bytes i) (ODelivery (mkQueued request ls (cap_link_id capability) n) :: ow) =
    (if cap_link_id capability =? i then n else 0) + owner_sum (owner_bytes i) (OReservation capability request ls :: ow)) by done.
  eapply ok_update; [exact Hm|exact Hid|done|done|done| | |].
  - constructor; [done|done].
  - constructor; cbn [set_queue lr_candidate lr_active_lease lr_queued_messages lr_queued_bytes]; try done; try lia; rewrite ?Hcnt, ?Hbyt, Z.eqb_refl; lia.
  - intros i Hi. rewrite Hcnt, Hbyt, (proj2 (Z.eqb_neq _ i)) by done. done.
Qed.

Lemma drop_accounting_ok id n m ow :
  manager_ok m (OGuard id n :: ow) → manager_ok (drop_accounting id n m) ow ∧ dom (tm_links (drop_accounting id n m)) = dom (tm_links m).
Proof.
  intros Hm. pose proof (mo_owners _ _ Hm) as [Hn Ho]%Forall_cons. cbn [owner_ok] in Hn.
  assert (Hcnt : ∀ i, owner_sum (owner_count i) (OGuard id n :: ow) = (if id =? i then 1 else 0) + owner_sum (owner_count i) ow) by done.
  assert (Hbyt : ∀ i, owner_sum (owner_bytes i) (OGuard id n :: ow) = (if id =? i then n else 0) + owner_sum (owner_bytes i) ow) by done.
  unfold drop_accounting. destruct (tm_links m !! id) as [link|] eqn:E.
  - split; [|cbn; by rewrite dom_insert_lookup_L by eauto]. destruct (mo_links _ _ Hm _ _ E) as [H1 H2 H3 H4 H5 H6].
    rewrite Hcnt, Z.eqb_refl in H3. rewrite Hbyt, Z.eqb_refl in H4.
    assert (Hc : 0 ≤ owner_sum (owner_count id) ow). { clear. induction ow as [|o ow IH]; [done|]. rewrite owner_sum_cons. unfold owner_count at 1. repeat case_match; lia. }
    assert (Hb : 0 ≤ owner_sum (owner_bytes id) ow).
    { clear -Ho. induction Ho as [|o ow Ho _ IH]; [done|]. rewrite owner_sum_cons. enough (0 ≤ owner_bytes id o) by lia. unfold owner_bytes.
      destruct o; cbn [guard_of owner_ok] in *; try done; case_match; lia || by destruct Ho. }
    eapply ok_update; [exact Hm|exact E|done|done|done|done| |].
    + unfold saturating_sub. constructor; cbn [set_queue lr_candidate lr_active_lease lr_queued_messages lr_queued_bytes]; try done; lia.
    + intros i Hi. by rewrite Hcnt, Hbyt, (proj2 (Z.eqb_neq id i)) by done.
  - split; [|done]. constructor; try apply Hm; [done|]. intros i r Hi. destruct (mo_links _ _ Hm _ _ Hi) as [H1 H2 H3 H4 H5 H6].
    rewrite Hcnt in H3. rewrite Hbyt in H4. destruct (id =? i) eqn:Ei; breflect; [subst; congruence|]. by constructor.
Qed.

Lemma transition_link_ok id next m ow :
  manager_ok m ow → manager_ok (transition_link id next m).1 ow ∧ dom (tm_links (transition_link id next m).1) = dom (tm_links m).
Proof.
  intros Hm. unfold transition_link. destruct (tm_links m !! id) as [link|] eqn:E; [|done]. destruct (link_transition _ _) as [s|]; [|done].
  cbn [fst]. split; [|cbn; by rewrite dom_insert_lookup_L by eauto]. eapply ok_update; try done; [apply Hm|].
  destruct (mo_links _ _ Hm _ _ E). by constructor.
Qed.

(** ** Runs of a manager

    The state is the manager, the next link identifier, and what the callers
    own.  A delivery that is dropped gives its leases and its guard back one by
    one, in any order. *)
Definition system : Type := Manager * Z * list Owner.

Inductive sys_step : system → system → Prop :=
  | st_candidate p t d m n n' c ow :
      candidate_new p t d n = (n', Ok c) → sys_step (m, n, ow) (m, n', OCandidate c :: ow)
  | st_advance c c' m n ow ow' :
      ow ≡ₚ OCandidate c :: ow' → candidate_begin_handshake c = Ok c' ∨ candidate_authenticate c = Ok c' →
      sys_step (m, n, ow) (m, n, OCandidate c' :: ow')
  | st_drop_candidate c m n ow ow' :
      ow ≡ₚ OCandidate c :: ow' → sys_step (m, n, ow) (m, n, ow')
  | st_begin p m m' h n ow :
      begin_handshake p m = (m', Ok h) → sys_step (m, n, ow) (m', n, OHandshake h :: ow)
  | st_begin_denied p m m' e n ow :
      begin_handshake p m = (m', Err e) → sys_step (m, n, ow) (m', n, ow)
  | st_release h m n ow ow' :
      ow ≡ₚ OHandshake h :: ow' → sys_step (m, n, ow) (release_handshake h m, n, ow')
  | st_register_direct c now dup m m' r n ow ow' :
      ow ≡ₚ OCandidate c :: ow' → register_authenticated c now dup m = (m', r) → sys_step (m, n, ow) (m', n, ow')
  | st_register h c now dup m m' r n ow ow' :
      ow ≡ₚ OHandshake h :: OCandidate c :: ow' → register h c now dup m = (m', r) → sys_step (m, n, ow) (m', n, ow')
  | st_reserve cap req now c1 c2 m m' ls n ow :
      enqueue_reserve cap req now c1 c2 m = (m', Ok ls) → sys_step (m, n, ow) (m', n, OReservation cap req ls :: ow)
  | st_reserve_denied cap req now c1 c2 m m' e n ow :
      enqueue_reserve cap req now c1 c2 m = (m', Err e) → sys_step (m, n, ow) (m', n, ow)
  | st_commit cap req ls m m' q n ow ow' :
      ow ≡ₚ OReservation cap req ls :: ow' → enqueue_commit cap req ls m = (m', Ok q) →
      sys_step (m, n, ow) (m', n, ODelivery q :: ow')
  | st_commit_denied cap req ls m m' e n ow ow' :
      ow ≡ₚ OReservation cap req ls :: ow' → enqueue_commit cap req ls m = (m', Err e) → sys_step (m, n, ow) (m', n, ow')
  | st_drop_delivery q m n ow ow' :
      ow ≡ₚ ODelivery q :: ow' →
      sys_step (m, n, ow) (m, n, OGuard (qd_link_id q) (qd_bytes q) :: (OLease <$> qd_lease q) ++ ow')
  | st_drop_lease l m n ow ow' :
      ow ≡ₚ OLease l :: ow' → sys_step (m, n, ow) (drop_lease l m, n, ow')
  | st_drop_guard id size m n ow ow' :
      ow ≡ₚ OGuard id size :: ow' → sys_step (m, n, ow) (drop_accounting id size m, n, ow')
  | st_transition id next m n ow :
      sys_step (m, n, ow) ((transition_link id next m).1, n, ow)
  | st_close id reason m n ow :
      sys_step (m, n, ow) ((close_link id reason m).1, n, ow)
  | st_backoff p b m n ow :
      sys_step (m, n, ow) (record_dial_backoff p b m, n, ow)
  | st_observe o m n ow :
      sys_step (m, n, ow) ((record_reachability o m).1, n, ow).

Definition system_ok (x : system) : Prop := let '(m, n, ow) := x in manager_ok m ow ∧ ids_ok m n ow.

(** Identifiers: when owners keep their references and links only disappear. *)
Lemma ids_mono m m' n ow ow' :
  ids_ok m n ow → dom (tm_links m') ⊆ dom (tm_links m) → omap candidate_id ow' = omap candidate_id ow →
  (∀ o, o ∈ ow' → o ∈ ow ∨ candidate_id o = None ∧
     (guard_of o = None ∨ ∃ o', o' ∈ ow ∧ fst <$> guard_of o = fst <$> guard_of o')) → ids_ok m' n ow'.
Proof.
  intros [I1 I2 I3 I4] Hd Hc Hw. constructor.
  - intros o i Ho Hi. destruct (Hw o Ho) as [Ho'|[Hn Hg]]; [eauto|]. destruct o; try done; cbn [owner_id] in Hi;
      (destruct Hg as [Hg|(o' & Ho' & Hg)]; [by rewrite Hg in Hi|]); rewrite Hg in Hi; apply (I1 o' i Ho'); destruct o'; done.
  - intros i r Hr. assert (Hi : i ∈ dom (tm_links m)) by (by apply Hd, elem_of_dom). apply elem_of_dom in Hi as [r' Hr']. eauto.
  - by rewrite Hc.
  - intros i. rewrite Hc. intros Hi. destruct (I4 i Hi) as [Hl Hg]. split.
    + apply not_elem_of_dom. intros Hin. apply Hd, elem_of_dom in Hin as [r Hr]. congruence.
    + intros o Ho E. destruct (Hw o Ho) as [Ho'|[_ [Hgo|(o' & Ho' & Hgo)]]]; [by eapply Hg|by rewrite Hgo in E|].
      rewrite Hgo in E. by eapply Hg.
Qed.

Lemma candidate_unused m n ow c : ids_ok m n (OCandidate c :: ow) → unused m ow (lc_link_id c).
Proof.
  intros [_ _ _ I4]. destruct (I4 (lc_link_id c)) as [Hl Hg]; [apply list_elem_of_here|].
  assert (Hno : ∀ o, o ∈ ow → fst <$> guard_of o ≠ Some (lc_link_id c)) by (intros o Ho; by apply Hg, list_elem_of_further).
  split; [done|]. clear -Hno. induction ow as [|o ow IH]; [done|]. rewrite !owner_sum_cons.
  destruct IH as [-> ->]; [intros o' Ho'; by apply Hno, list_elem_of_further|].
  pose proof (Hno o (list_elem_of_here o ow)) as H. unfold owner_count, owner_bytes. destruct (guard_of o) as [[i k]|]; [|done].
  cbn in H. destruct (i =? _) eqn:E; breflect; [congruence|done].
Qed.

Lemma ids_register m m' n ow c :
  ids_ok m n (OCandidate c :: ow) → dom (tm_links m') ⊆ {[lc_link_id c]} ∪ dom (tm_links m) → ids_ok m' n ow.
Proof.
  intros [I1 I2 I3 I4] Hd. cbn [omap list_omap candidate_id] in *. apply NoDup_cons in I3 as [Hni Hnd]. constructor.
  - intros o i Ho. apply I1. by apply list_elem_of_further.
  - intros i r Hr. assert (Hi : i ∈ dom (tm_links m')) by (by apply elem_of_dom). apply Hd, elem_of_union in Hi as [->%elem_of_singleton|Hi].
    + apply (I1 (OCandidate c)); [apply list_elem_of_here|done].
    + apply elem_of_dom in Hi as [r' Hr']. eauto.
  - done.
  - intros i Hi. destruct (I4 i) as [Hl Hg]; [by apply list_elem_of_further|]. split.
    + apply not_elem_of_dom. intros Hin%Hd. apply elem_of_union in Hin as [->%elem_of_singleton|Hin]; [done|].
      apply elem_of_dom in Hin as [r Hr]. congruence.
    + intros o Ho. apply Hg. by apply list_elem_of_further.
Qed.

Lemma register_direct_ok c now dup m ow :
  manager_ok m ow → unused m ow (lc_link_id c) →
  manager_ok (register_authenticated c now dup m).1 ow ∧
  dom (tm_links (register_authenticated c now dup m).1) ⊆ {[lc_link_id c]} ∪ dom (tm_links m).
Proof.
  intros Hm Hu. destruct (decide (lc_state c = SAuthenticated)) as [Hs|Hs].
  - destruct (register_authenticated_ok c now dup m ow Hm Hu Hs) as (m' & -> & Hok & Hl & _). split; [done|]. cbn [fst]. rewrite Hl.
    unfold links_after. destruct (decision m c dup); try (apply union_subseteq_r); rewrite dom_insert_L, ?dom_delete_L; set_solver.
  - unfold register_authenticated. rewrite bool_decide_eq_true_2 by done. split; [done|]. apply union_subseteq_r.
Qed.

Lemma without_candidate m ow c : manager_ok m (OCandidate c :: ow) ↔ manager_ok m ow.
Proof.
  split; intros Hm.
  - rewrite <- (set_budget_id m). eapply ok_uncons_budget; [exact Hm| |done|done]. apply (mo_accounted _ _ Hm).
  - rewrite <- (set_budget_id m). apply ok_cons_budget; try done. apply Hm.
Qed.

Lemma handshake_lease_ok h m ow : manager_ok m (OHandshake h :: ow) → manager_ok (release_handshake h m) ow.
Proof. by apply drop_lease_ok. Qed.

Lemma register_ok h c now dup m n ow :
  manager_ok m (OHandshake h :: OCandidate c :: ow) → ids_ok m n (OHandshake h :: OCandidate c :: ow) →
  manager_ok (register h c now dup m).1 ow ∧ dom (tm_links (register h c now dup m).1) ⊆ {[lc_link_id c]} ∪ dom (tm_links m).
Proof.
  intros Hm Hids. assert (Hp : OHandshake h :: OCandidate c :: ow ≡ₚ OCandidate c :: OHandshake h :: ow) by constructor.
  rewrite Hp in Hm, Hids. apply (proj1 (without_candidate _ _ _)) in Hm. apply candidate_unused in Hids. unfold register. destruct (bool_decide _); cbn [fst].
  - split; [by apply handshake_lease_ok|]. cbn. apply union_subseteq_r.
  - destruct (register_direct_ok c now dup m _ Hm Hids) as [Hok Hd]. destruct (register_authenticated c now dup m) as [m' r].
    split; [by apply handshake_lease_ok|done].
Qed.

Lemma close_link_ok id reason m ow :
  manager_ok m ow → manager_ok (close_link id reason m).1 ow ∧ dom (tm_links (close_link id reason m).1) ⊆ dom (tm_links m).
Proof.
  intros Hm. unfold close_link. destruct (tm_links m !! id) as [r|] eqn:E; [|done].
  destruct (remove_link_ok id r m ow Hm E) as (Hok & Hl & _). unfold remove_link in *. cbn [fst]. split; [done|].
  rewrite Hl, dom_delete_L. set_solver.
Qed.

Lemma other_fields_ok m m' ow :
  manager_ok m ow → tm_limits m' = tm_limits m → tm_budget m' = tm_budget m → tm_links m' = tm_links m → tm_peers m' = tm_peers m →
  manager_ok m' ow.
Proof.
  intros [] H1 H2 H3 H4. constructor; unfold link_leases; rewrite ?H1, ?H2, ?H3, ?H4; try done.
  intros i r Hi. destruct (mo_links0 i r Hi). by constructor; rewrite ?H1.
Qed.

(** Steps that change no reference to a link. *)
Lemma ids_same m m' n ow ow' :
  ids_ok m n ow → dom (tm_links m') ⊆ dom (tm_links m) → omap candidate_id ow' = omap candidate_id ow →
  (∀ o, o ∈ ow' → o ∈ ow ∨ candidate_id o = None ∧ guard_of o = None) → ids_ok m' n ow'.
Proof. intros Hi Hd Hc Hw. eapply ids_mono; [done..|]. intros o Ho. destruct (Hw o Ho) as [?|[? ?]]; auto. Qed.

Lemma ids_new m n ow p t d n' c :
  ids_ok m n ow → candidate_new p t d n = (n', Ok c) → ids_ok m n' (OCandidate c :: ow).
Proof.
  intros [I1 I2 I3 I4]. unfold candidate_new, link_id_generate, mbind, M_bind. destruct (n <? MAX_LINK_ID); [|done].
  cbn. intros [= <- <-]. constructor; cbn [omap list_omap candidate_id lc_link_id candidate_with_id].
  - intros o i Ho Hi. apply elem_of_cons in Ho as [->|Ho]; [cbn in Hi; injection Hi as <-; lia|]. specialize (I1 o i Ho Hi). lia.
  - intros i r Hr. specialize (I2 i r Hr). lia.
  - apply NoDup_cons. split; [|done]. intros (o & Ho & Hc)%list_elem_of_omap. destruct o; try done. cbn in Hc. injection Hc as Hc.
    specialize (I1 _ n Ho ltac:(cbn; congruence)). lia.
  - intros i Hi. apply elem_of_cons in Hi as [->|Hi].
    + split; [destruct (tm_links m !! n) as [r|] eqn:E; [|done]; specialize (I2 n r E); lia|].
      intros o Ho Hg. apply elem_of_cons in Ho as [->|Ho]; [done|].
      specialize (I1 o n Ho). destruct o; try done; specialize (I1 Hg); lia.
    + destruct (I4 i Hi) as [Hl Hg]. split; [done|]. intros o Ho. apply elem_of_cons in Ho as [->|Ho]; [done|eauto].
Qed.

Lemma candidate_advance c c' :
  candidate_begin_handshake c = Ok c' ∨ candidate_authenticate c = Ok c' → lc_link_id c' = lc_link_id c.
Proof.
  unfold candidate_begin_handshake, candidate_authenticate. intros [H|H]; destruct (link_transition _ _); try done;
    cbn in H; by injection H as <-.
Qed.

Lemma ids_advance m n ow c c' :
  lc_link_id c' = lc_link_id c → ids_ok m n (OCandidate c :: ow) → ids_ok m n (OCandidate c' :: ow).
Proof.
  intros Hid [I1 I2 I3 I4]. constructor; cbn [omap list_omap candidate_id] in *; rewrite ?Hid; try done.
  - intros o i Ho Hi. apply elem_of_cons in Ho as [->|Ho].
    + apply (I1 (OCandidate c)); [apply list_elem_of_here|]. cbn in *. congruence.
    + apply (I1 o); [by apply list_elem_of_further|done].
  - intros i Hi. destruct (I4 i Hi) as [Hl Hg]. split; [done|]. intros o Ho. apply elem_of_cons in Ho as [->|Ho]; [done|].
    apply Hg. by apply list_elem_of_further.
Qed.

Lemma drop_delivery_ok q m ow :
  manager_ok m (ODelivery q :: ow) → manager_ok m (OGuard (qd_link_id q) (qd_bytes q) :: (OLease <$> qd_lease q) ++ ow).
Proof.
  intros Hm. pose proof (mo_owners _ _ Hm) as [[Hq Hn] Ho]%Forall_cons. eapply ok_reown; [exact Hm| | | |]; rewrite Hq; cbn [queue_leases fmap list_fmap app].
  - by rewrite !all_leases_cons; cbn [owner_leases]; rewrite Hq.
  - done.
  - done.
  - constructor; [done|]. constructor; [by left|]. constructor; [by right|done].
Qed.

Lemma enqueue_commit_link cap req ls m m' q :
  enqueue_commit cap req ls m = (m', Ok q) → is_Some (tm_links m !! qd_link_id q) ∧ dom (tm_links m') = dom (tm_links m).
Proof.
  unfold enqueue_commit, link_open. destruct (tm_links m !! cap_link_id cap) as [link|] eqn:E; [|done]. destruct (bool_decide _); [done|].
  destruct (_ || _); [done|]. destruct (checked_add _ _ 1); [|done]. destruct (checked_add _ _ _); [|done]. intros [= <- <-]. cbn [qd_link_id].
  split; [rewrite E; eauto|]. cbn. by rewrite dom_insert_lookup_L by eauto.
Qed.

Lemma ids_commit m m' n ow cap req ls q :
  ids_ok m n (OReservation cap req ls :: ow) → is_Some (tm_links m !! qd_link_id q) → dom (tm_links m') = dom (tm_links m) →
  ids_ok m' n (ODelivery q :: ow).
Proof.
  intros [I1 I2 I3 I4] [r Hr] Hd. constructor; cbn [omap list_omap candidate_id] in *; try done.
  - intros o i Ho Hi. apply elem_of_cons in Ho as [->|Ho]; [cbn in Hi; injection Hi as <-; eauto|].
    apply (I1 o); [by apply list_elem_of_further|done].
  - intros i r' Hr'. assert (Hi : i ∈ dom (tm_links m)) by (rewrite <- Hd; by apply elem_of_dom). apply elem_of_dom in Hi as [x Hx]. eauto.
  - intros i Hi. destruct (I4 i Hi) as [Hl Hg]. split; [apply not_elem_of_dom; rewrite Hd; by apply not_elem_of_dom|].
    intros o Ho. apply elem_of_cons in Ho as [->|Ho]; [cbn; congruence|]. apply Hg. by apply list_elem_of_further.
Qed.

Ltac keep_ids Hids :=
  eapply ids_same; [exact Hids|try done|done|
    let o := fresh in let Ho := fresh in intros o Ho; try (apply elem_of_cons in Ho as [->|Ho]; [by right|]); left;
    try (by apply list_elem_of_further); done].

Lemma sys_step_ok x y : sys_step x y → system_ok x → system_ok y.
Proof.
  intros Hs Hx. destruct Hs as [p t d m n n' c ow E|c c' m n ow ow' Hp E|c m n ow ow' Hp|p m m' h n ow E|p m m' e n ow E|h m n ow ow' Hp
    |c now dup m m' r n ow ow' Hp E|h c now dup m m' r n ow ow' Hp E|cap req now c1 c2 m m' ls n ow E|cap req now c1 c2 m m' e n ow E
    |cap req ls m m' q n ow ow' Hp E|cap req ls m m' e n ow ow' Hp E|q m n ow ow' Hp|l m n ow ow' Hp|id size m n ow ow' Hp|id next m n ow
    |id reason m n ow|p b m n ow|o m n ow]; destruct Hx as [Hm Hids]; try (rewrite Hp in Hm, Hids; clear Hp).
  - split; [by apply without_candidate|]. by eapply ids_new.
  - split; [by apply without_candidate, (proj1 (without_candidate m ow' c))|]. eapply ids_advance; [by apply candidate_advance|done].
  - split; [by apply (proj1 (without_candidate m ow' c))|]. eapply ids_register; [exact Hids|]. apply union_subseteq_r.
  - pose proof (begin_handshake_ok p m ow Hm) as Hb. rewrite E in Hb. destruct Hb as [Hb Hl]. split; [done|]. keep_ids Hids. by rewrite Hl.
  - pose proof (begin_handshake_ok p m ow Hm) as Hb. rewrite E in Hb. destruct Hb as [Hb Hl]. split; [done|]. keep_ids Hids. by rewrite Hl.
  - split; [by apply handshake_lease_ok|]. keep_ids Hids.
  - destruct (register_direct_ok c now dup m ow') as [Hok Hd]; [by apply (proj1 (without_candidate m ow' c))|by eapply candidate_unused|].
    rewrite E in Hok, Hd. split; [done|]. by eapply ids_register.
  - destruct (register_ok h c now dup m n ow' Hm Hids) as [Hok Hd]. rewrite E in Hok, Hd. split; [done|].
    eapply ids_register; [|exact Hd]. keep_ids Hids.
  - pose proof (enqueue_reserve_ok cap req now c1 c2 m ow Hm) as Hb. rewrite E in Hb. destruct Hb as [Hb Hl]. split; [done|]. keep_ids Hids. by rewrite Hl.
  - pose proof (enqueue_reserve_ok cap req now c1 c2 m ow Hm) as Hb. rewrite E in Hb. destruct Hb as [Hb Hl]. split; [done|]. keep_ids Hids. by rewrite Hl.
  - destruct (enqueue_commit_ok cap req ls m ow' Hm) as [Hok _]. rewrite E in Hok. split; [apply Hok|].
    destruct (enqueue_commit_link _ _ _ _ _ _ E). by eapply ids_commit.
  - destruct (enqueue_commit_ok cap req ls m ow' Hm) as [Hok Hd]. rewrite E in Hok, Hd. split; [done|]. keep_ids Hids. cbn in Hd. by rewrite Hd.
  - split; [by apply drop_delivery_ok|]. pose proof (mo_owners _ _ Hm) as [[Hq _] _]%Forall_cons. rewrite Hq. cbn [queue_leases fmap list_fmap app].
    eapply ids_mono; [exact Hids|done|done|]. intros o Ho. rewrite !elem_of_cons in Ho. destruct Ho as [->|[->|[->|Ho]]].
    + right. split; [done|]. right. exists (ODelivery q). split; [apply list_elem_of_here|done].
    + right. auto.
    + right. auto.
    + left. by apply list_elem_of_further.
  - split; [by apply (drop_lease_ok l (OLease l))|]. keep_ids Hids.
  - destruct (drop_accounting_ok id size m ow' Hm) as [Hok Hd]. split; [done|]. keep_ids Hids. by rewrite Hd.
  - destruct (transition_link_ok id next m ow Hm) as [Hok Hd]. split; [done|]. keep_ids Hids. by rewrite Hd.
  - destruct (close_link_ok id reason m ow Hm) as [Hok Hd]. split; [done|]. keep_ids Hids.
  - split; [by eapply other_fields_ok|]. keep_ids Hids.
  - split; [by eapply other_fields_ok|]. keep_ids Hids.
Qed.

(** ** Two links at once *)

(** How the runtime registers an authenticated link: it resolves the duplicate,
    then registers with its handshake lease. *)
Definition resolve_and_register (local_peer : bytes) (h : PendingHandshake) (c : LinkCandidate) (now : Z)
    : M Manager RegistrationError CandidateDecision := λ m,
  match duplicate_resolution local_peer c m with
  | Err e => (release_handshake h m, Err e)
  | Ok duplicate => register h c now duplicate m
  end.
Definition register_both (local_peer : bytes) (h1 h2 : PendingHandshake) (c1 c2 : LinkCandidate) (now1 now2 : Z) (m : Manager) : Manager :=
  (resolve_and_register local_peer h2 c2 now2 (resolve_and_register local_peer h1 c1 now1 m).1).1.

Lemma set_first_singleton i : set_first {[i]} = Some i.
Proof. unfold set_first, set_asc. by rewrite elements_singleton. Qed.

(** The only link of a peer. *)
Lemma only_link m ow p i r :
  manager_ok m ow → tm_links m !! i = Some r → lc_peer (lr_candidate r) = p →
  (∀ j s, tm_links m !! j = Some s → lc_peer (lr_candidate s) = p → j = i) → tm_peers m !! p = Some {[i]}.
Proof.
  intros Hm Hi Hp Honly. assert (Hs : default ∅ (tm_peers m !! p) = {[i]}).
  { apply set_eq. intros j. rewrite (mo_index _ _ Hm), elem_of_singleton. split; [intros (s & Hs & Hq); eauto|intros ->; eauto]. }
  destruct (tm_peers m !! p); cbn in Hs; [by rewrite Hs|]. set_solver.
Qed.

Lemma only_link_for m ow p i r :
  manager_ok m ow → tm_links m !! i = Some r → lc_peer (lr_candidate r) = p → lc_state (lr_candidate r) = SAuthenticated →
  (∀ j s, tm_links m !! j = Some s → lc_peer (lr_candidate s) = p → j = i) →
  authenticated_links_for p m = [mkExisting (lc_transport (lr_candidate r)) i].
Proof.
  intros Hm Hi Hp Hst Honly. unfold authenticated_links_for. rewrite (only_link m ow p i r Hm Hi Hp Honly). unfold set_asc.
  rewrite elements_singleton. change (merge_sort Z.le [i]) with [i]. cbn [omap list_omap]. unfold usable. rewrite Hi. cbn.
  rewrite bool_decide_eq_true_2 by done. cbn. by rewrite (lo_id _ _ _ _ (mo_links _ _ Hm _ _ Hi)).
Qed.

Lemma decide_both local c1 c2 :
  lc_peer c1 = lc_peer c2 → lc_direction c1 ≠ lc_direction c2 →
  decide_duplicate local c1 c2 =
    if bool_decide (lc_direction c2 = if peer_lt local (lc_peer c2) then Outbound else Inbound) then ReplaceExisting else RetainExistingDrainNew.
Proof.
  intros Hp Hd. unfold decide_duplicate. rewrite bool_decide_eq_false_2 by (intros H; by apply H). rewrite bool_decide_eq_false_2 by done.
  destruct (peer_lt local (lc_peer c2)), (lc_direction c2); done.
Qed.

(** An authenticated candidate presented with its handshake lease: there is
    always a decision, and the links are what it says. *)
Lemma resolve_and_register_ok local h c now m n ow :
  system_ok (m, n, OHandshake h :: OCandidate c :: ow) → ph_peer h = lc_peer c → lc_state c = SAuthenticated →
  ∃ m' dup, duplicate_resolution local c m = Ok dup ∧ resolve_and_register local h c now m = (m', Ok (decision m c dup)) ∧
    system_ok (m', n, ow) ∧ tm_links m' = links_after (decision m c dup) c now (tm_links m) ∧ tm_limits m' = tm_limits m.
Proof.
  intros [Hm Hids] Hp Hs.
  assert (Hdup : ∃ dup, duplicate_resolution local c m = Ok dup).
  { unfold duplicate_resolution. destruct (tm_peers m !! lc_peer c) as [s|] eqn:Es; [|eauto]. destruct (set_first s) as [e|] eqn:Ee; [|eauto].
    destruct (first_link_Some m _ (lc_peer c) e Hm) as (r & -> & _); [unfold first_link; by rewrite Es|eauto]. }
  destruct Hdup as [dup Hdup]. destruct (register_ok h c now dup m n ow Hm Hids) as [Hok Hd].
  assert (Hperm : OHandshake h :: OCandidate c :: ow ≡ₚ OCandidate c :: OHandshake h :: ow) by constructor.
  pose proof Hm as Hm'. rewrite Hperm in Hm'. apply (proj1 (without_candidate _ _ _)) in Hm'.
  pose proof Hids as Hids'. rewrite Hperm in Hids'. pose proof (candidate_unused _ _ _ _ Hids') as Hu.
  destruct (register_authenticated_ok c now dup m _ Hm' Hu Hs) as (m1 & E & _ & Hl & Hlim).
  exists (release_handshake h m1), dup. unfold resolve_and_register. rewrite Hdup.
  assert (Er : register h c now dup m = (release_handshake h m1, Ok (decision m c dup))).
  { unfold register. rewrite bool_decide_eq_false_2 by (intros Hn; by apply Hn). by rewrite E. }
  rewrite Er in Hok, Hd |- *. split_and!; try done. split; [done|]. eapply ids_register; [|exact Hd]. keep_ids Hids.
Qed.

(** One side of the race: whichever link is registered first, the one whose
    direction the order of the hashes prefers stays. *)
Lemma register_both_ok local p m n ow h1 h2 c1 c2 now1 now2 :
  system_ok (m, n, OHandshake h1 :: OCandidate c1 :: OHandshake h2 :: OCandidate c2 :: ow) →
  ph_peer h1 = p → ph_peer h2 = p → lc_peer c1 = p → lc_peer c2 = p → lc_state c1 = SAuthenticated → lc_state c2 = SAuthenticated →
  lc_direction c1 ≠ lc_direction c2 → first_link m p = None → Z.of_nat (size (tm_links m)) < max_active_links (tm_limits m) →
  let w := if bool_decide (lc_direction c2 = if peer_lt local p then Outbound else Inbound) then c2 else c1 in
  system_ok (register_both local h1 h2 c1 c2 now1 now2 m, n, ow) ∧
  authenticated_links_for p (register_both local h1 h2 c1 c2 now1 now2 m) = [mkExisting (lc_transport w) (lc_link_id w)].
Proof.
  intros Hsys Hh1 Hh2 Hp1 Hp2 Hs1 Hs2 Hdir Hnone Hroom w. pose proof Hsys as [Hm _].
  assert (Hnolink : ∀ j s, tm_links m !! j = Some s → lc_peer (lr_candidate s) ≠ p).
  { intros j s Hj Hq. assert (Hin : j ∈ default ∅ (tm_peers m !! p)) by (apply (mo_index _ _ Hm); eauto).
    rewrite (first_link_None _ _ _ Hm Hnone) in Hin. set_solver. }
  destruct (resolve_and_register_ok local h1 c1 now1 m n _ Hsys ltac:(congruence) Hs1) as (m1 & dup1 & _ & E1 & Hsys1 & Hl1 & Hlim1).
  assert (Hd1 : decision m c1 dup1 = AcceptFirst (lc_link_id c1)).
  { unfold decision. rewrite Hp1, Hnone. destruct (_ >=? _) eqn:E; breflect; [lia|done]. }
  rewrite Hd1 in Hl1. cbn [links_after] in Hl1.
  assert (Hone1 : ∀ j s, tm_links m1 !! j = Some s → lc_peer (lr_candidate s) = p → j = lc_link_id c1).
  { intros j s. rewrite Hl1. intros [[<- _]|[_ Hj]]%lookup_insert_Some Hq; [done|]. by destruct (Hnolink j s Hj). }
  assert (Hi1 : tm_links m1 !! lc_link_id c1 = Some (new_link c1 now1)) by (rewrite Hl1; apply lookup_insert_eq).
  destruct (resolve_and_register_ok local h2 c2 now2 m1 n _ Hsys1 ltac:(congruence) Hs2) as (m2 & dup2 & Hdup2 & E2 & Hsys2 & Hl2 & _).
  assert (Er : register_both local h1 h2 c1 c2 now1 now2 m = m2) by (unfold register_both; by rewrite E1; cbn [fst]; rewrite E2).
  rewrite Er. split; [done|]. pose proof Hsys1 as [Hm1 _]. pose proof Hsys2 as [Hm2 _].
  pose proof (only_link m1 _ p _ _ Hm1 Hi1 Hp1 Hone1) as Hpeers.
  assert (Hfirst : first_link m1 p = Some (lc_link_id c1)) by (unfold first_link; rewrite Hpeers; apply set_first_singleton).
  unfold duplicate_resolution in Hdup2. rewrite Hp2, Hpeers, set_first_singleton, Hi1 in Hdup2. apply Ok_inj in Hdup2.
  cbn [lr_candidate new_link] in Hdup2. rewrite decide_both, Hp2 in Hdup2 by congruence. subst dup2.
  unfold decision in Hl2. rewrite Hp2, Hfirst in Hl2. subst w. destruct (bool_decide _); cbn [links_after] in Hl2.
  - eapply (only_link_for m2 _ p (lc_link_id c2) (new_link c2 now2)); [exact Hm2|rewrite Hl2; apply lookup_insert_eq|done|done|].
    intros j s. rewrite Hl2. intros [[<- _]|[_ Hj]]%lookup_insert_Some Hq; [done|]. apply lookup_delete_Some in Hj as [Hne Hj].
    by destruct (Hone1 j s Hj Hq).
  - eapply (only_link_for m2 _ p (lc_link_id c1) (new_link c1 now1)); [exact Hm2|by rewrite Hl2|done|done|].
    intros j s. rewrite Hl2. apply Hone1.
Qed.

(** ** Reachable systems *)
Definition reachable (limits : TransportLimits) (x : system) : Prop :=
  ∃ m0, limits_u64 limits ∧ is_ok (transport_limits_new limits) = true ∧ manager_new limits = Ok m0 ∧ rtc sys_step (m0, 1, []) x.

Lemma manager_new_ok limits :
  limits_ok limits → ∃ m0, manager_new limits = Ok m0 ∧ system_ok (m0, 1, []) ∧ tm_limits m0 = limits.
Proof.
  intros Hl. pose proof Hl as [H1 H2 H3 H4 H5 H6 H7]. unfold manager_new. rewrite transport_resources_exact by lia. cbn [mbind result_bind].
  eexists. split; [done|]. split; [|done]. assert (Hmax : MAX_TRANSPORT_RESOURCE_LIMIT < u64_max ∧ MAX_TRANSPORT_QUEUE_CAPACITY < u64_max) by done.
  split; [constructor; cbn [tm_limits tm_budget tm_links tm_peers]|].
  - done.
  - unfold class_limits. by rewrite !fmap_insert, fmap_empty.
  - split; [|constructor]. assert (Hfresh : ∀ n, 0 < n ≤ u64_max → class_ok 0 (fresh_class n)) by (intros n Hn; constructor; cbn; lia).
    repeat (apply map_Forall_insert_2; [apply Hfresh; lia|]). apply map_Forall_empty.
  - constructor.
  - apply map_Forall_empty.
  - intros p id. rewrite lookup_empty. cbn. split; [set_solver|]. intros (r & Hr & _). by rewrite lookup_empty in Hr.
  - apply map_Forall_empty.
  - constructor; cbn [tm_links].
    + by intros o id Ho%elem_of_nil.
    + intros id r. by rewrite lookup_empty.
    + constructor.
    + by intros id Hid%elem_of_nil.
Qed.

Lemma system_reachable_ok limits x : reachable limits x → system_ok x.
Proof.
  intros (m0 & Hu & Hl & Hn & Hr). apply (transport_limits_ok limits Hu) in Hl. destruct (manager_new_ok limits Hl) as (m0' & Hn' & H0 & _).
  rewrite Hn in Hn'. apply Ok_inj in Hn' as <-. induction Hr; eauto using sys_step_ok.
Qed.

(** Nothing owned, nothing in use. *)
Lemma idle_budget m : manager_ok m [] → tm_links m = ∅ → Forall (λ u, bc_used (ru_state u) = 0) (budget_snapshot (tm_budget m)).
Proof.
  intros Hm Hl. apply Forall_forall. intros u (c & _ & Hc)%list_elem_of_omap. destruct (tm_budget m !! c) as [cs|] eqn:E; [|done].
  injection Hc as <-. pose proof (ac_classes _ _ (mo_accounted _ _ Hm) c cs E) as [Hu _ _ _]. cbn [ru_state].
  rewrite Hu. unfold link_leases. by rewrite Hl, map_to_list_empty.
Qed.

(** Who dialled decides: both ends of a pair of links order them the same way. *)
Lemma peer_lt_antisym p q : p ≠ q → peer_lt q p = negb (peer_lt p q).
Proof.
  intros Hne. unfold peer_lt. rewrite (units_cmp_antisym p q). destruct (units_cmp p q) eqn:E; try done. by apply units_cmp_eq in E.
Qed.

(** A router whose peer has dialled it while it dialled the peer. *)
Record race := mkRace {
  rc_outbound_first : bool;
  rc_out_handshake : PendingHandshake; rc_out : LinkCandidate; rc_out_now : Z;
  rc_in_handshake : PendingHandshake; rc_in : LinkCandidate; rc_in_now : Z;
}.
Definition race_owners (r : race) : list Owner :=
  [OHandshake (rc_out_handshake r); OCandidate (rc_out r); OHandshake (rc_in_handshake r); OCandidate (rc_in r)].
Record race_with (peer : bytes) (m : Manager) (r : race) : Prop := {
  rw_out_peer : ph_peer (rc_out_handshake r) = peer ∧ lc_peer (rc_out r) = peer;
  rw_in_peer : ph_peer (rc_in_handshake r) = peer ∧ lc_peer (rc_in r) = peer;
  rw_directions : lc_direction (rc_out r) = Outbound ∧ lc_direction (rc_in r) = Inbound;
  rw_states : lc_state (rc_out r) = SAuthenticated ∧ lc_state (rc_in r) = SAuthenticated;
  rw_first : tm_peers m !! peer = None;
  rw_room : Z.of_nat (size (tm_links m)) < max_active_links (tm_limits m);
}.
Definition run_race (local_peer : bytes) (r : race) (m : Manager) : Manager :=
  if rc_outbound_first r then
    register_both local_peer (rc_out_handshake r) (rc_in_handshake r) (rc_out r) (rc_in r) (rc_out_now r) (rc_in_now r) m
  else
    register_both local_peer (rc_in_handshake r) (rc_out_handshake r) (rc_in r) (rc_out r) (rc_in_now r) (rc_out_now r) m.

Lemma run_race_ok local peer m n ow r :
  system_ok (m, n, race_owners r ++ ow) → race_with peer m r →
  system_ok (run_race local r m, n, ow) ∧
  authenticated_links_for peer (run_race local r m) =
    (let w := if peer_lt local peer then rc_out r else rc_in r in [mkExisting (lc_transport w) (lc_link_id w)]).
Proof.
  intros [Hm Hids] [[Ho1 Ho2] [Hi1 Hi2] [Hd1 Hd2] [Hs1 Hs2] Hf Hroom].
  assert (Hfirst : first_link m peer = None) by (unfold first_link; by rewrite Hf). unfold run_race. destruct (rc_outbound_first r).
  - destruct (register_both_ok local peer m n ow (rc_out_handshake r) (rc_in_handshake r) (rc_out r) (rc_in r) (rc_out_now r) (rc_in_now r))
      as [Hok Hl]; try done; [by rewrite Hd1, Hd2|]. split; [done|]. rewrite Hl, Hd2. by destruct (peer_lt local peer).
  - assert (Hp : race_owners r ++ ow ≡ₚ
      OHandshake (rc_in_handshake r) :: OCandidate (rc_in r) :: OHandshake (rc_out_handshake r) :: OCandidate (rc_out r) :: ow).
    { apply (Permutation_app_tail ow (Permutation_app_comm [OHandshake (rc_out_handshake r); OCandidate (rc_out r)]
        [OHandshake (rc_in_handshake r); OCandidate (rc_in r)])). }
    rewrite Hp in Hm, Hids.
    destruct (register_both_ok local peer m n ow (rc_in_handshake r) (rc_out_handshake r) (rc_in r) (rc_out r) (rc_in_now r) (rc_out_now r))
      as [Hok Hl]; try done; [by rewrite Hd1, Hd2|]. split; [done|]. rewrite Hl, Hd1. by destruct (peer_lt local peer).
Qed.

(** ** Properties *)

(** C18: Transport accounting is exact under every interleaving.  Build the manager
    from accepted limits and let its callers create, advance and drop candidates,
    begin and drop handshakes, register links, reserve, commit and drop
    deliveries (lease by lease), transition and close links in any order: at every
    moment the use of each resource class is the sum of the leases the callers
    and the links hold, the peer index lists exactly the links, each link's queue
    counters are the deliveries that point to it, no limit is exceeded, and a
    manager without links and owners uses nothing. *)
Theorem manager_accounting limits m n ow (Hr : reachable limits (m, n, ow)) :
  manager_ok m ow ∧ Z.of_nat (size (tm_links m)) ≤ max_active_links (tm_limits m) ∧
  (ow = [] → tm_links m = ∅ → Forall (λ u, bc_used (ru_state u) = 0) (budget_snapshot (tm_budget m))).
Proof.
  destruct (system_reachable_ok _ _ Hr) as [Hm _]. split; [done|]. split; [by eapply links_bounded|]. intros -> Hl. by apply idle_budget.
Qed.

(** Registration never fails.  In every reachable state, an authenticated
    candidate presented with a handshake lease of its peer gets the decision the
    duplicate policy and the limits determine, never an error; the
    links become exactly what the decision says, and the lease is returned. *)
Theorem register_exact limits local_peer h c now m n ow
    (Hr : reachable limits (m, n, OHandshake h :: OCandidate c :: ow))
    (Hp : ph_peer h = lc_peer c) (Hs : lc_state c = SAuthenticated) :
  ∃ m' duplicate,
    duplicate_resolution local_peer c m = Ok duplicate ∧
    resolve_and_register local_peer h c now m = (m', Ok (decision m c duplicate)) ∧
    tm_links m' = links_after (decision m c duplicate) c now (tm_links m) ∧ manager_ok m' ow.
Proof.
  destruct (resolve_and_register_ok local_peer h c now m n ow (system_reachable_ok _ _ Hr) Hp Hs) as (m' & dup & Hd & E & [Hok _] & Hl & _).
  by exists m', dup.
Qed.

(** C19: Two routers that dial each other at the same time keep the same
    connection.  Whatever order the two links are registered in at either router,
    each is left with one link to the other, and it is the connection
    dialled by the router with the smaller hash: outbound there, inbound at its
    peer. *)
Theorem simultaneous_links_agree limits_a limits_b a b ma na owa ra mb nb owb rb
    (Hne : a ≠ b)
    (Ha : reachable limits_a (ma, na, race_owners ra ++ owa)) (Hwa : race_with b ma ra)
    (Hb : reachable limits_b (mb, nb, race_owners rb ++ owb)) (Hwb : race_with a mb rb) :
  let link c := [mkExisting (lc_transport c) (lc_link_id c)] in
  if peer_lt a b then
    authenticated_links_for b (run_race a ra ma) = link (rc_out ra) ∧ authenticated_links_for a (run_race b rb mb) = link (rc_in rb)
  else
    authenticated_links_for b (run_race a ra ma) = link (rc_in ra) ∧ authenticated_links_for a (run_race b rb mb) = link (rc_out rb).
Proof.
  destruct (run_race_ok a b ma na owa ra (system_reachable_ok _ _ Ha) Hwa) as [_ Hla].
  destruct (run_race_ok b a mb nb owb rb (system_reachable_ok _ _ Hb) Hwb) as [_ Hlb]. rewrite (peer_lt_antisym a b Hne) in Hlb.
  destruct (peer_lt a b); done.
Qed.

(** ** Witnesses *)
Module Sample.
Definition limits : TransportLimits := mkTransportLimits 4 2 1000 10 2 5 500.
Definition m0 : Manager := match manager_new limits with Ok m => m | Err _ => mkManager limits ∅ ∅ ∅ ∅ [] end.
Definition alice : bytes := [1]%Z.
Definition bob : bytes := [2]%Z.
Definition handshake (p : bytes) : PendingHandshake := mkPending p (mkLease PendingHandshakes 1).
Definition candidate (id : Z) (p : bytes) (d : Direction) (s : LinkState) : LinkCandidate := mkCandidate id p Ntcp2 d s.
Definition m1 (p : bytes) : Manager := (begin_handshake p m0).1.
Definition m2 (p : bytes) : Manager := (begin_handshake p (m1 p)).1.
Definition the_race (p : bytes) (first : bool) : race :=
  mkRace first (handshake p) (candidate 2 p Outbound SAuthenticated) 5 (handshake p) (candidate 1 p Inbound SAuthenticated) 6.
End Sample.

Lemma authenticating p d m next ow :
  (next <? MAX_LINK_ID) = true →
  rtc sys_step (m, next, ow) (m, next + 1, OCandidate (Sample.candidate next p d SAuthenticated) :: ow).
Proof.
  intros Hlt. eapply rtc_l; [apply (st_candidate p Ntcp2 d m next (next + 1) (Sample.candidate next p d SCandidate))|].
  { unfold candidate_new, mbind, M_bind, link_id_generate. by rewrite Hlt. }
  eapply rtc_l; [apply (st_advance (Sample.candidate next p d SCandidate) (Sample.candidate next p d SHandshaking)); [reflexivity|by left]|].
  apply rtc_once. apply (st_advance (Sample.candidate next p d SHandshaking)); [reflexivity|by right].
Qed.

Lemma sample_one :
  reachable Sample.limits (Sample.m1 Sample.bob, 2,
    [OHandshake (Sample.handshake Sample.bob); OCandidate (Sample.candidate 1 Sample.bob Outbound SAuthenticated)]).
Proof.
  exists Sample.m0. split; [repeat constructor; done|]. split; [vm_compute; reflexivity|]. split; [vm_compute; reflexivity|].
  etrans; [by apply (authenticating Sample.bob Outbound)|]. apply rtc_once. apply (st_begin Sample.bob). vm_compute. reflexivity.
Qed.
Lemma sample_race p first :
  p = Sample.bob ∨ p = Sample.alice → reachable Sample.limits (Sample.m2 p, 3, race_owners (Sample.the_race p first) ++ []).
Proof.
  intros Hp. exists Sample.m0. split; [repeat constructor; done|]. split; [vm_compute; reflexivity|]. split; [vm_compute; reflexivity|].
  etrans; [by apply (authenticating p Inbound)|].
  eapply rtc_l; [apply (st_begin p _ (Sample.m1 p) (Sample.handshake p)); destruct Hp as [-> | ->]; vm_compute; reflexivity|].
  etrans; [by apply (authenticating p Outbound)|].
  apply rtc_once. apply (st_begin p _ (Sample.m2 p) (Sample.handshake p)). destruct Hp as [-> | ->]; vm_compute; reflexivity.
Qed.
Lemma sample_race_with p first : p = Sample.bob ∨ p = Sample.alice → race_with p (Sample.m2 p) (Sample.the_race p first).
Proof. intros [-> | ->]; split; done. Qed.

Lemma manager_accounting_witness :
  manager_ok (Sample.m1 Sample.bob) [OHandshake (Sample.handshake Sample.bob); OCandidate (Sample.candidate 1 Sample.bob Outbound SAuthenticated)].
Proof. apply (manager_accounting Sample.limits _ 2 _ sample_one). Defined.

Lemma register_exact_witness :
  (resolve_and_register Sample.alice (Sample.handshake Sample.bob) (Sample.candidate 1 Sample.bob Outbound SAuthenticated) 7
     (Sample.m1 Sample.bob)).2 = Ok (AcceptFirst 1).
Proof.
  destruct (register_exact Sample.limits Sample.alice (Sample.handshake Sample.bob) (Sample.candidate 1 Sample.bob Outbound SAuthenticated) 7
    (Sample.m1 Sample.bob) 2 [] sample_one eq_refl eq_refl) as (m' & d & Hd & -> & _ & _).
  vm_compute in Hd. injection Hd as <-. vm_compute. reflexivity.
Defined.

Lemma simultaneous_links_agree_witness :
  authenticated_links_for Sample.bob (run_race Sample.alice (Sample.the_race Sample.bob false) (Sample.m2 Sample.bob)) = [mkExisting Ntcp2 2] ∧
  authenticated_links_for Sample.alice (run_race Sample.bob (Sample.the_race Sample.alice true) (Sample.m2 Sample.alice)) = [mkExisting Ntcp2 1].
Proof.
  apply (simultaneous_links_agree Sample.limits Sample.limits Sample.alice Sample.bob (Sample.m2 Sample.bob) 3 [] (Sample.the_race Sample.bob false)
    (Sample.m2 Sample.alice) 3 [] (Sample.the_race Sample.alice true)).
  - done.
  - apply sample_race. by left.
  - apply sample_race_with. by left.
  - apply sample_race. by right.
  - apply sample_race_with. by right.
Defined.
