(* ===== verification/TransportSelect.v ===== *)
(** * Choosing a transport

    Models [i2pr-transport/src/selection.rs]: whether a peer is reached over a
    link it already has, by dialling one address, or by dialling with a fallback.
    The candidates come from validated addresses; the links are those
    [authenticated_links_for] of the manager returns.  Sorting is stable in the
    code; candidates that compare equal are equal here, so the sort of the model
    gives the same list. *)
From stdpp Require Import sorting.
From S2P Require Import Prelude Common Mapping BTree Resource TransportManager.

Definition MAX_SELECTION_CANDIDATES : Z := 16.

Record TransportCandidate := mkTransportCandidate {
  tc_transport : TransportKind;
  tc_family : AddressFamily;
  tc_direct : bool;
  tc_tag : Z;
  tc_valid : bool;
}.
#[export] Instance TransportCandidate_eq_dec : EqDecision TransportCandidate.
Proof. solve_decision. Defined.

Record SelectionPolicy := mkPolicy {
  ntcp2_enabled : bool;
  ssu2_enabled : bool;
  prefer_ssu2 : bool;
  allow_introducer_only : bool;
}.
Definition default_policy : SelectionPolicy := mkPolicy true true true false.
Definition transport_enabled (policy : SelectionPolicy) (t : TransportKind) : bool :=
  match t with Ntcp2 => ntcp2_enabled policy | Ssu2 => ssu2_enabled policy end.

Inductive SelectionOutcome :=
  | Reuse (link : Z) (transport : TransportKind)
  | Dial (transport : TransportKind) (tag : Z)
  | DialFallback (primary_transport : TransportKind) (primary_tag : Z) (secondary_transport : TransportKind) (secondary_tag : Z)
  | NoCompatibleAddress
  | BackedOff
  | SelResourceDenied.

Definition transport_rank (policy : SelectionPolicy) (t : TransportKind) : Z :=
  match t, prefer_ssu2 policy with Ssu2, true | Ntcp2, false => 0 | _, _ => 1 end.

(** Comparisons in sequence. *)
Definition then_with (a b : comparison) : comparison := match a with Eq => b | _ => a end.
Definition bool_cmp (a b : bool) : comparison := Z.b2z a ?= Z.b2z b.
Definition family_index (f : AddressFamily) : Z := match f with Ipv4 => 0 | Ipv6 => 1 | UnknownFamily => 2 end.

Definition compare_links (policy : SelectionPolicy) (left right : ExistingLink) : comparison :=
  then_with (transport_rank policy (ex_transport left) ?= transport_rank policy (ex_transport right)) (ex_link left ?= ex_link right).
Definition compare_candidates (policy : SelectionPolicy) (left right : TransportCandidate) : comparison :=
  then_with (bool_cmp (tc_direct right) (tc_direct left))
  (then_with (transport_rank policy (tc_transport left) ?= transport_rank policy (tc_transport right))
  (then_with (tc_tag left ?= tc_tag right) (family_index (tc_family left) ?= family_index (tc_family right)))).

Definition link_le (policy : SelectionPolicy) (l r : ExistingLink) : Prop := compare_links policy l r ≠ Gt.
Definition candidate_le (policy : SelectionPolicy) (l r : TransportCandidate) : Prop := compare_candidates policy l r ≠ Gt.
#[export] Instance link_le_dec policy : RelDecision (link_le policy).
Proof. intros l r. unfold link_le. apply not_dec. solve_decision. Defined.
#[export] Instance candidate_le_dec policy : RelDecision (candidate_le policy).
Proof. intros l r. unfold candidate_le. apply not_dec. solve_decision. Defined.

Definition select_reuse (existing : list ExistingLink) (policy : SelectionPolicy) : option SelectionOutcome :=
  if zlen existing >? MAX_SELECTION_CANDIDATES then Some SelResourceDenied
  else match merge_sort (link_le policy) existing with
       | [] => None
       | winner :: _ => Some (Reuse (ex_link winner) (ex_transport winner))
       end.

(** The loop over the candidates, with [eligible] and [saw_backed_off]. *)
Fixpoint collect (failed_tags : list Z) (backed_off : list TransportKind) (policy : SelectionPolicy)
    (candidates eligible : list TransportCandidate) (saw_backed_off : bool) : list TransportCandidate * bool :=
  match candidates with
  | [] => (eligible, saw_backed_off)
  | c :: rest =>
      let skip := collect failed_tags backed_off policy rest eligible in
      if negb (tc_valid c) then skip saw_backed_off
      else if bool_decide (tc_family c = UnknownFamily) then skip saw_backed_off
      else if negb (transport_enabled policy (tc_transport c)) then skip saw_backed_off
      else if bool_decide (tc_tag c ∈ failed_tags) then skip saw_backed_off
      else if negb (tc_direct c) && negb (allow_introducer_only policy) then skip saw_backed_off
      else if bool_decide (tc_transport c ∈ backed_off) then skip true
      else collect failed_tags backed_off policy rest (eligible ++ [c]) saw_backed_off
  end.

Definition dial (policy : SelectionPolicy) (eligible : list TransportCandidate) : option SelectionOutcome :=
  let sorted := merge_sort (candidate_le policy) eligible in
  primary ← head sorted;
  Some match list_find (λ c, tc_transport c ≠ tc_transport primary) sorted with
       | Some (_, next) => DialFallback (tc_transport primary) (tc_tag primary) (tc_transport next) (tc_tag next)
       | None => Dial (tc_transport primary) (tc_tag primary)
       end.

Definition select_peer_transport (existing : list ExistingLink) (candidates : list TransportCandidate) (failed_tags : list Z)
    (backed_off : list TransportKind) (policy : SelectionPolicy) (peer_link_limit_reached : bool) : SelectionOutcome :=
  if zlen candidates >? MAX_SELECTION_CANDIDATES then SelResourceDenied
  else match select_reuse existing policy with
  | Some reuse => reuse
  | None =>
      if peer_link_limit_reached then SelResourceDenied
      else
      let '(eligible, saw_backed_off) := collect failed_tags backed_off policy candidates [] false in
      match dial policy eligible with
      | Some outcome => outcome
      | None => if saw_backed_off then BackedOff else NoCompatibleAddress
      end
  end.

(** ** The orders *)
Definition link_key (policy : SelectionPolicy) (l : ExistingLink) : list Z := [transport_rank policy (ex_transport l); ex_link l].
Definition candidate_key (policy : SelectionPolicy) (c : TransportCandidate) : list Z :=
  [1 - Z.b2z (tc_direct c); transport_rank policy (tc_transport c); tc_tag c; family_index (tc_family c)].

Lemma link_le_key policy l r : link_le policy l r ↔ peer_le (link_key policy l) (link_key policy r).
Proof. unfold link_le, peer_le, compare_links, then_with. cbn. by destruct (_ ?= _), (ex_link l ?= ex_link r). Qed.
Lemma candidate_le_key policy l r : candidate_le policy l r ↔ peer_le (candidate_key policy l) (candidate_key policy r).
Proof.
  unfold candidate_le, peer_le, compare_candidates, then_with, bool_cmp. cbn [units_cmp candidate_key].
  replace (1 - Z.b2z (tc_direct l) ?= 1 - Z.b2z (tc_direct r)) with (Z.b2z (tc_direct r) ?= Z.b2z (tc_direct l)) by (by destruct (tc_direct l), (tc_direct r)).
  by repeat match goal with |- context [?a ?= ?b] => destruct (a ?= b) end.
Qed.

#[export] Instance peer_le_total : Total peer_le.
Proof. intros p q. unfold peer_le. rewrite (units_cmp_antisym p q). by destruct (units_cmp p q); [left|left|right]. Qed.
#[export] Instance peer_le_trans : Transitive peer_le.
Proof.
  intros p q r. unfold peer_le. destruct (units_cmp p q) eqn:E1; [apply units_cmp_eq in E1 as ->; done| |done].
  destruct (units_cmp q r) eqn:E2; [apply units_cmp_eq in E2 as <-; by rewrite E1|by rewrite (units_cmp_trans _ _ _ E1 E2)|done].
Qed.
#[export] Instance peer_le_antisym : AntiSymm (=) peer_le.
Proof.
  intros p q H1 H2. apply units_cmp_eq. unfold peer_le in *. rewrite units_cmp_antisym in H2. by destruct (units_cmp p q).
Qed.

#[export] Instance link_le_total policy : Total (link_le policy).
Proof. intros l r. rewrite !link_le_key. apply peer_le_total. Qed.
#[export] Instance link_le_trans policy : Transitive (link_le policy).
Proof. intros l r s. rewrite !link_le_key. apply peer_le_trans. Qed.
#[export] Instance candidate_le_total policy : Total (candidate_le policy).
Proof. intros l r. rewrite !candidate_le_key. apply peer_le_total. Qed.
#[export] Instance candidate_le_trans policy : Transitive (candidate_le policy).
Proof. intros l r s. rewrite !candidate_le_key. apply peer_le_trans. Qed.

Lemma transport_rank_inj policy t u : transport_rank policy t = transport_rank policy u → t = u.
Proof. unfold transport_rank. by destruct t, u, (prefer_ssu2 policy). Qed.
#[export] Instance link_le_antisym policy : AntiSymm (=) (link_le policy).
Proof.
  intros [t i] [u j]. rewrite !link_le_key. intros H1 H2. pose proof (peer_le_antisym _ _ H1 H2) as [= H3 ->].
  by apply transport_rank_inj in H3 as ->.
Qed.
Lemma candidate_le_antisym policy l r :
  tc_valid l = tc_valid r → candidate_le policy l r → candidate_le policy r l → l = r.
Proof.
  destruct l as [t f d g v], r as [t' f' d' g' v']. cbn. intros ->. rewrite !candidate_le_key. intros H1 H2.
  pose proof (peer_le_antisym _ _ H1 H2) as [= Hd Ht -> Hf]. apply transport_rank_inj in Ht as ->.
  f_equal; [by destruct f, f'|by destruct d, d'].
Qed.

(** ** What is selected *)

(** A candidate that passes the filters, before and after backoff. *)
Definition acceptable (failed_tags : list Z) (policy : SelectionPolicy) (c : TransportCandidate) : Prop :=
  tc_valid c = true ∧ tc_family c ≠ UnknownFamily ∧ transport_enabled policy (tc_transport c) = true ∧ (tc_tag c ∉ failed_tags) ∧
  (tc_direct c = true ∨ allow_introducer_only policy = true).
Definition eligible (failed_tags : list Z) (backed_off : list TransportKind) (policy : SelectionPolicy) (c : TransportCandidate) : Prop :=
  acceptable failed_tags policy c ∧ tc_transport c ∉ backed_off.
#[export] Instance acceptable_dec failed_tags policy c : Decision (acceptable failed_tags policy c).
Proof. unfold acceptable. apply _. Defined.
#[export] Instance eligible_dec failed_tags backed_off policy c : Decision (eligible failed_tags backed_off policy c).
Proof. unfold eligible. apply _. Defined.

Lemma collect_filter failed_tags backed_off policy candidates acc saw :
  collect failed_tags backed_off policy candidates acc saw =
  (acc ++ filter (eligible failed_tags backed_off policy) candidates,
   saw || existsb (λ c, bool_decide (acceptable failed_tags policy c ∧ tc_transport c ∈ backed_off)) candidates).
Proof.
  revert acc saw. induction candidates as [|c rest IH]; intros acc saw; cbn [collect existsb]; [by rewrite app_nil_r, orb_false_r|].
  rewrite filter_cons.
  set (kept := filter (eligible failed_tags backed_off policy) rest) in *.
  set (seen := existsb _ rest) in *. set (back := acceptable failed_tags policy c ∧ tc_transport c ∈ backed_off).
  set (expected := ((acc ++ (if decide (eligible failed_tags backed_off policy c) then c :: kept else kept))%list, saw || (bool_decide back || seen))).
  assert (Hskip : ¬ acceptable failed_tags policy c → collect failed_tags backed_off policy rest acc saw = expected).
  { intros Hn. subst expected back. rewrite decide_False by (by intros [? _]). rewrite bool_decide_eq_false_2 by (by intros [? _]). by rewrite IH. }
  assert (Hback : acceptable failed_tags policy c → tc_transport c ∈ backed_off → collect failed_tags backed_off policy rest acc true = expected).
  { intros Ha Hb. subst expected. rewrite decide_False by (by intros [_ ?]). rewrite (bool_decide_eq_true_2 back) by done.
    rewrite IH. cbn [orb]. by rewrite orb_true_r. }
  assert (Hkeep : acceptable failed_tags policy c → tc_transport c ∉ backed_off →
    collect failed_tags backed_off policy rest (acc ++ [c]) saw = expected).
  { intros Ha Hb. subst expected. rewrite decide_True by done. rewrite (bool_decide_eq_false_2 back) by (by intros [_ ?]).
    by rewrite IH, <- app_assoc. }
  destruct (tc_valid c) eqn:E1; cbn [negb]; [|apply Hskip; intros (? & _); congruence].
  case_bool_decide as E2; [apply Hskip; by intros (_ & ? & _)|].
  destruct (transport_enabled _ _) eqn:E3; cbn [negb]; [|apply Hskip; intros (_ & _ & ? & _); congruence].
  case_bool_decide as E4; [apply Hskip; by intros (_ & _ & _ & ? & _)|].
  destruct (tc_direct c) eqn:E5, (allow_introducer_only policy) eqn:E6; cbn [negb andb];
    try (apply Hskip; intros (_ & _ & _ & _ & [?|?]); congruence);
    (assert (Ha : acceptable failed_tags policy c) by (unfold acceptable; rewrite ?E1, ?E3, ?E5, ?E6; tauto));
    case_bool_decide as E7; [by apply Hback|by apply Hkeep|by apply Hback|by apply Hkeep|by apply Hback|by apply Hkeep].
Qed.

(** The least element of a list among those with a property. *)
Record least {A} (R : relation A) (P : A → Prop) (l : list A) (x : A) : Prop := {
  least_elem : x ∈ l;
  least_sat : P x;
  least_le : ∀ y, y ∈ l → P y → R x y;
}.

Section sorted.
Context {A : Type} (R : relation A) `{!RelDecision R, !Total R, !Transitive R}.

Lemma sorted_find (P : A → Prop) `{!∀ x, Decision (P x)} (l : list A) i x :
  StronglySorted R l → list_find P l = Some (i, x) → least R P l x.
Proof.
  intros Hs. revert i. induction Hs as [|z l Hs IH Hz]; intros i; [done|]. cbn [list_find]. destruct (decide (P z)).
  - intros [= <- <-]. constructor; [apply list_elem_of_here|done|]. intros y [->|Hy]%elem_of_cons _; [by destruct (total R z z)|].
    by eapply Forall_forall in Hz.
  - destruct (list_find P l) as [[k y]|] eqn:E; [|done]. intros [= _ <-]. destruct (IH k eq_refl) as [H1 H2 H3].
    constructor; [by apply list_elem_of_further|done|]. intros w [->|Hw]%elem_of_cons; [done|auto].
Qed.

Lemma merge_sort_find (P : A → Prop) `{!∀ x, Decision (P x)} (l : list A) i x :
  list_find P (merge_sort R l) = Some (i, x) → least R P l x.
Proof.
  intros [H1 H2 H3]%sorted_find; [|by apply (StronglySorted_merge_sort R)].
  constructor; [by rewrite merge_sort_Permutation in H1|done|]. intros y Hy. apply H3. by rewrite merge_sort_Permutation.
Qed.

Lemma merge_sort_find_None (P : A → Prop) `{!∀ x, Decision (P x)} (l : list A) :
  list_find P (merge_sort R l) = None → ∀ y, y ∈ l → ¬ P y.
Proof. intros Hn%list_find_None y Hy. rewrite <- (merge_sort_Permutation R) in Hy. by eapply Forall_forall in Hn. Qed.

Lemma merge_sort_head (l : list A) x : head (merge_sort R l) = Some x → least R (λ _, True) l x.
Proof.
  intros Hh. apply (merge_sort_find (λ _, True) l 0). destruct (merge_sort R l); [done|]. injection Hh as ->. done.
Qed.
Lemma merge_sort_head_None (l : list A) : head (merge_sort R l) = None → l = [].
Proof. intros Hh. apply Permutation_nil_r. rewrite <- (merge_sort_Permutation R). by destruct (merge_sort R l). Qed.
End sorted.

(** The orders of preference, as lexicographic orders of keys. *)
Definition link_first (policy : SelectionPolicy) (l r : ExistingLink) : Prop := peer_le (link_key policy l) (link_key policy r).
Definition candidate_first (policy : SelectionPolicy) (l r : TransportCandidate) : Prop :=
  peer_le (candidate_key policy l) (candidate_key policy r).
Lemma least_link policy P l x : least (link_le policy) P l x → least (link_first policy) P l x.
Proof. intros [H1 H2 H3]. constructor; [done..|]. intros y Hy HP. by apply link_le_key, H3. Qed.
Lemma least_candidate policy P l x : least (candidate_le policy) P l x → least (candidate_first policy) P l x.
Proof. intros [H1 H2 H3]. constructor; [done..|]. intros y Hy HP. by apply candidate_le_key, H3. Qed.

Section selection.
Context (existing : list ExistingLink) (candidates : list TransportCandidate) (failed_tags : list Z) (backed_off : list TransportKind)
  (policy : SelectionPolicy) (limit_reached : bool).
Abbreviation eligible := (eligible failed_tags backed_off policy).
Abbreviation select := (select_peer_transport existing candidates failed_tags backed_off policy limit_reached).

(** A dial is considered: the input is in bounds, no link exists, a link is allowed. *)
Definition dialling : Prop :=
  zlen candidates ≤ MAX_SELECTION_CANDIDATES ∧ existing = [] ∧ limit_reached = false.

Definition selects (outcome : SelectionOutcome) : Prop :=
  match outcome with
  | Reuse link transport =>
      zlen candidates ≤ MAX_SELECTION_CANDIDATES ∧ zlen existing ≤ MAX_SELECTION_CANDIDATES ∧
      least (link_first policy) (λ _, True) existing (mkExisting transport link)
  | Dial transport tag =>
      dialling ∧ ∃ p, least (candidate_first policy) eligible candidates p ∧ transport = tc_transport p ∧ tag = tc_tag p ∧
        ∀ c, c ∈ candidates → eligible c → tc_transport c = tc_transport p
  | DialFallback t1 tag1 t2 tag2 =>
      dialling ∧ ∃ p s, least (candidate_first policy) eligible candidates p ∧ t1 = tc_transport p ∧ tag1 = tc_tag p ∧
        least (candidate_first policy) (λ c, eligible c ∧ tc_transport c ≠ tc_transport p) candidates s ∧ t2 = tc_transport s ∧ tag2 = tc_tag s
  | BackedOff =>
      dialling ∧ (∃ c, c ∈ candidates ∧ acceptable failed_tags policy c) ∧
      ∀ c, c ∈ candidates → acceptable failed_tags policy c → tc_transport c ∈ backed_off
  | NoCompatibleAddress => dialling ∧ ∀ c, c ∈ candidates → ¬ acceptable failed_tags policy c
  | SelResourceDenied =>
      MAX_SELECTION_CANDIDATES < zlen candidates ∨ MAX_SELECTION_CANDIDATES < zlen existing ∨ existing = [] ∧ limit_reached = true
  end.

Lemma least_filter {A} (R : relation A) (P Q : A → Prop) `{!∀ x, Decision (P x)} l x :
  least R Q (filter P l) x → least R (λ c, P c ∧ Q c) l x.
Proof.
  intros [H1 H2 H3]. apply list_elem_of_filter in H1 as [H0 H1]. constructor; [done|done|]. intros y Hy [HP HQ].
  apply H3; [by apply list_elem_of_filter|done].
Qed.

Lemma dial_selects outcome :
  dialling → dial policy (filter eligible candidates) = Some outcome → selects outcome.
Proof.
  intros Hd. unfold dial. destruct (head _) as [p|] eqn:Eh; [|done]. apply merge_sort_head, least_filter in Eh; try apply _.
  assert (Hp : least (candidate_first policy) eligible candidates p) by (apply least_candidate; destruct Eh as [H1 [H2 _] H3]; constructor; auto).
  cbn [mbind option_bind]. destruct (list_find _ _) as [[i s]|] eqn:Ef; intros [= <-]; (split; [done|]).
  - apply merge_sort_find, least_filter, least_candidate in Ef; try apply _. by exists p, s.
  - exists p. split_and!; try done. intros c Hc He. eapply (merge_sort_find_None (candidate_le policy)) with (y := c) in Ef.
    + by destruct (decide (tc_transport c = tc_transport p)).
    + by apply list_elem_of_filter.
Qed.

Lemma select_selects : selects select.
Proof.
  unfold select_peer_transport. destruct (zlen candidates >? _) eqn:E1; breflect; [by left|]. unfold select_reuse.
  destruct (zlen existing >? _) eqn:E2; breflect; [by right; left|].
  destruct (merge_sort (link_le policy) existing) as [|w ws] eqn:Ew.
  2: { split_and!; [lia..|]. apply least_link, (merge_sort_head (link_le policy)). rewrite Ew. by destruct w. }
  assert (He : existing = []) by (by apply (merge_sort_head_None (link_le policy)); rewrite Ew).
  destruct limit_reached eqn:El; [by right; right|]. assert (Hd : dialling) by (split_and!; [lia|done|done]).
  rewrite collect_filter. cbn [app orb]. destruct (dial _ _) as [o|] eqn:Eo; [by apply dial_selects|].
  assert (Hnone : filter eligible candidates = []).
  { unfold dial in Eo. destruct (head _) eqn:Eh; [done|]. by apply merge_sort_head_None in Eh. }
  assert (Hno : ∀ c, c ∈ candidates → ¬ eligible c).
  { intros c Hc Hel. assert (Hin : c ∈ filter eligible candidates) by (by apply list_elem_of_filter). rewrite Hnone in Hin. by apply elem_of_nil in Hin. }
  destruct (existsb _ _) eqn:Ex.
  - split; [done|]. apply existsb_exists in Ex as (c & Hc & Ha%bool_decide_eq_true). apply list_elem_of_In in Hc.
    split; [exists c; tauto|]. intros c' Hc' Ha'. destruct (decide (tc_transport c' ∈ backed_off)); [done|]. by destruct (Hno c' Hc').
  - split; [done|]. intros c Hc Ha. destruct (decide (tc_transport c ∈ backed_off)); [|by destruct (Hno c Hc)].
    assert (Ht : existsb (λ c, bool_decide (acceptable failed_tags policy c ∧ tc_transport c ∈ backed_off)) candidates = true); [|congruence].
    apply existsb_exists. exists c. split; [by apply list_elem_of_In|]. by apply bool_decide_eq_true.
Qed.

(** The description determines the outcome. *)
Lemma least_candidate_unique (P : TransportCandidate → Prop) a b :
  (∀ c, P c → eligible c) → least (candidate_first policy) P candidates a → least (candidate_first policy) P candidates b → a = b.
Proof.
  intros HP [A1 A2 A3] [B1 B2 B3]. apply (candidate_le_antisym policy); [|by apply candidate_le_key, A3|by apply candidate_le_key, B3].
  destruct (HP a A2) as [(-> & _) _], (HP b B2) as [(-> & _) _]. done.
Qed.

(** Dialling, reusing and denying exclude each other. *)
Definition dials (outcome : SelectionOutcome) : bool :=
  match outcome with Reuse _ _ | SelResourceDenied => false | _ => true end.
Lemma dials_dialling o : selects o → dials o = true → dialling.
Proof. destruct o; try done; by intros [? _]. Qed.
Lemma dialling_dials o : selects o → dialling → dials o = true.
Proof.
  destruct o; try done; intros Hs (H1 & H2 & H3).
  - destruct Hs as (_ & _ & [Hin _ _]). rewrite H2 in Hin. by apply elem_of_nil in Hin.
  - destruct Hs as [Hs|[Hs|[_ Hs]]]; [lia| |congruence]. rewrite H2 in Hs. cbv in Hs. done.
Qed.

(** With a primary candidate some address is eligible, without one none is. *)
Lemma primary_or_none o : dials o = true → selects o →
  (∃ p, least (candidate_first policy) eligible candidates p ∧
     ((o = Dial (tc_transport p) (tc_tag p) ∧ ∀ c, c ∈ candidates → eligible c → tc_transport c = tc_transport p) ∨
      ∃ s, o = DialFallback (tc_transport p) (tc_tag p) (tc_transport s) (tc_tag s) ∧
        least (candidate_first policy) (λ c, eligible c ∧ tc_transport c ≠ tc_transport p) candidates s)) ∨
  (∀ c, c ∈ candidates → ¬ eligible c) ∧
     ((o = BackedOff ∧ ∃ c, c ∈ candidates ∧ acceptable failed_tags policy c) ∨
      (o = NoCompatibleAddress ∧ ∀ c, c ∈ candidates → ¬ acceptable failed_tags policy c)).
Proof.
  destruct o as [|t g|t g u h| | |]; try done; intros _ [_ Hs].
  - left. destruct Hs as (p & Hl & -> & -> & Hall). exists p. auto.
  - left. destruct Hs as (p & s & Hl & -> & -> & Hs & -> & ->). exists p. split; [done|]. right. by exists s.
  - right. split; [|by right]. intros c Hc [Ha _]. by eapply Hs.
  - right. destruct Hs as [Hex Hb]. split; [|by left]. intros c Hc [Ha Hn]. by apply Hn, Hb.
Qed.

Lemma dials_unique o1 o2 : dials o1 = true → dials o2 = true → selects o1 → selects o2 → o1 = o2.
Proof.
  intros D1 D2 S1%primary_or_none S2%primary_or_none; try done.
  destruct S1 as [(p & Hp & S1)|[N1 S1]], S2 as [(q & Hq & S2)|[N2 S2]].
  - assert (p = q) as <- by (by eapply (least_candidate_unique eligible)).
    destruct S1 as [[-> A1]|(s & -> & L1)], S2 as [[-> A2]|(s' & -> & L2)]; [done| | |].
    + destruct L2 as [I2 [E2 T2] _]. by destruct T2; apply A1.
    + destruct L1 as [I1 [E1 T1] _]. by destruct T1; apply A2.
    + assert (s = s') as <- by (eapply (least_candidate_unique (λ c, eligible c ∧ tc_transport c ≠ tc_transport p)); [by intros c [? _]|done|done]).
      done.
  - destruct Hp as [Hin Hel _]. by destruct (N2 p Hin).
  - destruct Hq as [Hin Hel _]. by destruct (N1 q Hin).
  - destruct S1 as [[-> (c & Hc & Ha)]|[-> A1]], S2 as [[-> (c' & Hc' & Ha')]|[-> A2]]; try done; [by destruct (A2 c)|by destruct (A1 c')].
Qed.

Lemma selects_unique o1 o2 : selects o1 → selects o2 → o1 = o2.
Proof.
  intros S1 S2. destruct (dials o1) eqn:D1.
  { apply dials_unique; try done. apply dialling_dials; [done|]. by apply (dials_dialling o1). }
  destruct (dials o2) eqn:D2.
  { assert (Hd : dials o1 = true) by (apply dialling_dials; [done|]; by apply (dials_dialling o2)). congruence. }
  destruct o1 as [l1 t1| | | | |], o2 as [l2 t2| | | | |]; try done.
  - destruct S1 as (_ & _ & [I1 _ L1]), S2 as (_ & _ & [I2 _ L2]).
    assert (He : mkExisting t1 l1 = mkExisting t2 l2) by (apply (anti_symm (link_le policy)); apply link_le_key; [by apply L1|by apply L2]). by injection He as -> ->.
  - destruct S1 as (H1 & H2 & [I1 _ _]), S2 as [S2|[S2|[S2 _]]]; [lia..|]. rewrite S2 in I1. by apply elem_of_nil in I1.
  - destruct S2 as (H1 & H2 & [I1 _ _]), S1 as [S2|[S2|[S2 _]]]; [lia..|]. rewrite S2 in I1. by apply elem_of_nil in I1.
Qed.
End selection.

(** ** Selection over the links of the manager *)
Lemma authenticated_links_spec m ow p e :
  manager_ok m ow →
  e ∈ authenticated_links_for p m ↔
  ∃ r, tm_links m !! ex_link e = Some r ∧ lc_peer (lr_candidate r) = p ∧ lc_state (lr_candidate r) = SAuthenticated ∧
    lc_transport (lr_candidate r) = ex_transport e.
Proof.
  intros Hm. unfold authenticated_links_for. rewrite merge_sort_Permutation, list_elem_of_omap.
  assert (Hids : ∀ id, id ∈ (match tm_peers m !! p with Some s => set_asc s | None => [] end) ↔
    ∃ link, tm_links m !! id = Some link ∧ lc_peer (lr_candidate link) = p).
  { intros id. rewrite <- (mo_index _ _ Hm). unfold set_asc. destruct (tm_peers m !! p) as [s|]; cbn [default].
    - rewrite merge_sort_Permutation. apply elem_of_elements.
    - set_solver. }
  split.
  - intros (id & Hid%Hids & He). destruct Hid as (r & Hr & Hp). unfold usable in He. rewrite Hr in He. cbn in He.
    case_bool_decide as Hs; [|done]. cbn in He. injection He as <-. cbn [ex_link ex_transport]. exists r.
    by rewrite (lo_id _ _ _ _ (mo_links _ _ Hm _ _ Hr)).
  - intros (r & Hr & Hp & Hs & Ht). exists (ex_link e). split; [apply Hids; eauto|]. unfold usable. rewrite Hr. cbn.
    rewrite bool_decide_eq_true_2 by done. cbn. rewrite (lo_id _ _ _ _ (mo_links _ _ Hm _ _ Hr)), Ht. by destruct e.
Qed.

(** ** Properties *)

(** C20: Transport selection is a choice of least elements.  An outcome is
    selected exactly when it satisfies the specification: a link is reused when
    there is one, the least by preferred transport and identifier; otherwise the
    least eligible address is dialled (direct first, then the preferred transport,
    the tag and the family), with the least eligible address of the other
    transport as fallback when there is one; backoff is reported exactly when
    backoff alone excludes every acceptable address; and only oversized input or the
    link limit denies.  In particular the order of the inputs does not matter. *)
Theorem selection_exact existing candidates failed_tags backed_off policy limit_reached outcome :
  select_peer_transport existing candidates failed_tags backed_off policy limit_reached = outcome ↔
  selects existing candidates failed_tags backed_off policy limit_reached outcome.
Proof.
  split; [intros <-; apply select_selects|]. intros H. eapply selects_unique; [apply select_selects|done].
Qed.

(** A link chosen for reuse is one that delivers.  In every reachable state of
    the manager, when the links of a peer it reports are given to the selection
    with at most 16 candidates and at most 16 links, the outcome reuses a link
    exactly when the peer has an authenticated one, and the link reused is
    registered, authenticated, of that peer and of that transport. *)
Theorem reused_link_delivers limits m n ow p candidates failed_tags backed_off policy limit_reached
    (Hr : reachable limits (m, n, ow)) (Hc : zlen candidates ≤ MAX_SELECTION_CANDIDATES)
    (Hl : zlen (authenticated_links_for p m) ≤ MAX_SELECTION_CANDIDATES) :
  let outcome := select_peer_transport (authenticated_links_for p m) candidates failed_tags backed_off policy limit_reached in
  let delivers id t := ∃ r, tm_links m !! id = Some r ∧ lc_peer (lr_candidate r) = p ∧
    lc_state (lr_candidate r) = SAuthenticated ∧ lc_transport (lr_candidate r) = t in
  (∀ id t, outcome = Reuse id t → delivers id t) ∧
  ((∃ id t, delivers id t) → ∃ id t, outcome = Reuse id t).
Proof.
  destruct (system_reachable_ok _ _ Hr) as [Hm _]. intros outcome delivers.
  pose proof (select_selects (authenticated_links_for p m) candidates failed_tags backed_off policy limit_reached) as Hs. fold outcome in Hs.
  split.
  - intros id t Ho. rewrite Ho in Hs. destruct Hs as (_ & _ & [Hin _ _]). by apply (authenticated_links_spec m ow p _ Hm) in Hin.
  - intros (id & t & Hd). assert (Hin : mkExisting t id ∈ authenticated_links_for p m) by (by apply (authenticated_links_spec m ow p _ Hm)).
    destruct (dials outcome) eqn:D.
    { apply dials_dialling in Hs as (_ & He & _); [|done]. rewrite He in Hin. by apply elem_of_nil in Hin. }
    destruct outcome; try done; [eauto|]. destruct Hs as [Hs|[Hs|[Hs _]]]; [lia..|]. rewrite Hs in Hin. by apply elem_of_nil in Hin.
Qed.

(** ** Witnesses *)
Definition sample_registered : Manager :=
  (register (Sample.handshake Sample.bob) (Sample.candidate 1 Sample.bob Outbound SAuthenticated) 7 AcceptNew (Sample.m1 Sample.bob)).1.
Lemma sample_registered_reachable : reachable Sample.limits (sample_registered, 2, []).
Proof.
  destruct sample_one as (m0 & H1 & H2 & H3 & H4). exists m0. split_and!; try done. etrans; [exact H4|]. apply rtc_once.
  apply (st_register (Sample.handshake Sample.bob) (Sample.candidate 1 Sample.bob Outbound SAuthenticated) 7 AcceptNew _ _ (Ok (AcceptFirst 1)));
    [reflexivity|vm_compute; reflexivity].
Qed.

Lemma reused_link_delivers_witness :
  ∃ r, tm_links sample_registered !! 1 = Some r ∧ lc_peer (lr_candidate r) = Sample.bob ∧
    lc_state (lr_candidate r) = SAuthenticated ∧ lc_transport (lr_candidate r) = Ntcp2.
Proof.
  apply (proj1 (reused_link_delivers Sample.limits sample_registered 2 [] Sample.bob [mkTransportCandidate Ssu2 Ipv4 true 9 true] [] [] default_policy false
    sample_registered_reachable ltac:(done) ltac:(vm_compute; done))).
  vm_compute. reflexivity.
Defined.

(** Two addresses: the preferred transport first, the other as fallback; the same
    in the other order. *)
Example select_fallback :
  select_peer_transport [] [mkTransportCandidate Ntcp2 Ipv4 true 3 true; mkTransportCandidate Ssu2 Ipv6 true 7 true] [] [] default_policy false =
    DialFallback Ssu2 7 Ntcp2 3.
Proof. vm_compute. reflexivity. Qed.
