(* ===== verification/Reachability.v ===== *)
(** * Reachability and network status

    Models [reachability.rs] and [network_status.rs] of [i2pr-transport/src/]:
    signals about the reachability of the router, the conservative state computed
    from those that have not expired, and the status codes derived from it; and
    [network_condition] of [i2pr-runtime/src/ssu2_runtime.rs], which composes the
    two.  Durations are nanoseconds. *)
From stdpp Require Import sorting.
From S2P Require Import Prelude Common Mapping BTree Resource TransportManager.

Definition MAX_TRACKED_OBSERVATIONS : Z := MAX_REACHABILITY_OBSERVATIONS.
Definition DEFAULT_OBSERVATION_TTL : Z := 30 * 60 * 1000000000.
Definition MIN_CORROBORATION_FLOOR : Z := 2.
Definition duration_max : Z := 2 ^ 64 * 1000000000 - 1.

Inductive ReachabilityState := StUnknown | ObservedUnconfirmed | CandidateReachable | StReachable | Firewalled | StUnreachable.
Inductive PeerTestOutcomeKind := Confirmed | AddressMismatch | FirewalledLikely | Inconclusive | PeerTestRejected.
Inductive ReachabilitySignal :=
  | LocalConfiguredBind (f : AddressFamily)
  | AuthenticatedPeerObservedExternalAddress (f : AddressFamily)
  | ValidatedPath (f : AddressFamily)
  | PeerTestResult (f : AddressFamily) (outcome : PeerTestOutcomeKind)
  | RelayFirewalledSignal (f : AddressFamily).
#[export] Instance ReachabilityState_eq_dec : EqDecision ReachabilityState.
Proof. solve_decision. Defined.
#[export] Instance PeerTestOutcomeKind_eq_dec : EqDecision PeerTestOutcomeKind.
Proof. solve_decision. Defined.
#[export] Instance ReachabilitySignal_eq_dec : EqDecision ReachabilitySignal.
Proof. solve_decision. Defined.

Definition family (s : ReachabilitySignal) : AddressFamily :=
  match s with
  | LocalConfiguredBind f | AuthenticatedPeerObservedExternalAddress f | ValidatedPath f | PeerTestResult f _ | RelayFirewalledSignal f => f
  end.
Definition supports_reachability (s : ReachabilitySignal) : bool :=
  match s with
  | LocalConfiguredBind _ | AuthenticatedPeerObservedExternalAddress _ | ValidatedPath _ => true
  | PeerTestResult _ outcome => match outcome with Confirmed => true | _ => false end
  | RelayFirewalledSignal _ => false
  end.
Definition contradicts_reachability (s : ReachabilitySignal) : bool :=
  match s with
  | PeerTestResult _ outcome => match outcome with AddressMismatch | FirewalledLikely => true | _ => false end
  | RelayFirewalledSignal _ => true
  | _ => false
  end.
Definition corroboration_class (s : ReachabilitySignal) : nat :=
  match s with
  | LocalConfiguredBind _ => 0
  | AuthenticatedPeerObservedExternalAddress _ => 1
  | ValidatedPath _ => 2
  | PeerTestResult _ _ => 3
  | RelayFirewalledSignal _ => 4
  end.
Definition is_configured_bind (s : ReachabilitySignal) : bool := match s with LocalConfiguredBind _ => true | _ => false end.
Definition is_relay (s : ReachabilitySignal) : bool := match s with RelayFirewalledSignal _ => true | _ => false end.

Record ReachabilityPolicy := mkReachPolicy { rp_min_corroboration : Z; rp_observation_ttl : Z; rp_configured_direct_allowed : bool }.
Inductive ReachabilityPolicyError := CorroborationTooLow | CorroborationTooHigh | InvalidTtl.
Definition policy_validate (p : ReachabilityPolicy) : result ReachabilityPolicyError ReachabilityPolicy :=
  if rp_min_corroboration p <? MIN_CORROBORATION_FLOOR then Err CorroborationTooLow
  else if rp_min_corroboration p >? MAX_TRACKED_OBSERVATIONS then Err CorroborationTooHigh
  else if (rp_observation_ttl p =? 0) || (rp_observation_ttl p >? MAX_DEADLINE) then Err InvalidTtl
  else Ok p.
Definition default_reach_policy : ReachabilityPolicy := mkReachPolicy 2 DEFAULT_OBSERVATION_TTL false.

Record TrackedSignal := mkTracked { tk_signal : ReachabilitySignal; tk_observed_at : Z }.
Record ReachabilitySnapshot := mkReachSnapshot { rs_state : ReachabilityState; rs_corroboration : Z; rs_expires_at : Z; rs_family : AddressFamily }.
Record ReachabilityTracker := mkTracker {
  rt_policy : ReachabilityPolicy;
  rt_signals : list TrackedSignal;
  rt_state : ReachabilityState;
  rt_state_since : Z;
}.

Definition tracker_new (policy : ReachabilityPolicy) : result ReachabilityPolicyError ReachabilityTracker :=
  policy ← policy_validate policy;
  Ok (mkTracker policy [] StUnknown 0).

(** When the evidence of a signal lapses. *)
Definition expiry (policy : ReachabilityPolicy) (e : TrackedSignal) : Z :=
  saturating_add duration_max (tk_observed_at e) (rp_observation_ttl policy).

Definition with_signals (l : list TrackedSignal) (t : ReachabilityTracker) : ReachabilityTracker :=
  mkTracker (rt_policy t) l (rt_state t) (rt_state_since t).
Fixpoint expire_front (policy : ReachabilityPolicy) (now : Z) (l : list TrackedSignal) : list TrackedSignal :=
  match l with
  | [] => []
  | front :: rest => if expiry policy front >? now then l else expire_front policy now rest
  end.
Definition expire_locked (now : Z) (t : ReachabilityTracker) : ReachabilityTracker :=
  with_signals (expire_front (rt_policy t) now (rt_signals t)) t.

Definition latest_family (t : ReachabilityTracker) : option AddressFamily := family ∘ tk_signal <$> last (rt_signals t).

(** The five flags, one per class, set by the signals that count. *)
Definition mark_classes (counts : ReachabilitySignal → bool) (l : list TrackedSignal) : list bool :=
  fold_left (λ classes e, if counts (tk_signal e) then <[corroboration_class (tk_signal e) := true]> classes else classes) l (replicate 5 false).
Definition count_present (classes : list bool) : Z := zlen (filter (λ b, b = true) classes).

Definition supporting_classes (t : ReachabilityTracker) : Z :=
  match latest_family t with
  | None => 0
  | Some latest =>
      count_present (mark_classes (λ s,
        if bool_decide (family s ≠ latest) || negb (supports_reachability s) then false
        else if is_configured_bind s && negb (rp_configured_direct_allowed (rt_policy t)) then false
        else true) (rt_signals t))
  end.
Definition contradicting_classes (t : ReachabilityTracker) : Z :=
  match latest_family t with
  | None => 0
  | Some latest =>
      count_present (mark_classes (λ s,
        if bool_decide (family s ≠ latest) || negb (contradicts_reachability s) then false else true) (rt_signals t))
  end.
Definition firewalled_classes (t : ReachabilityTracker) : Z :=
  match latest_family t with
  | None => 0
  | Some latest =>
      count_present (mark_classes (λ s,
        if bool_decide (family s ≠ latest) then false else if negb (is_relay s) then false else true) (rt_signals t))
  end.

Definition transition (next : ReachabilityState) (now : Z) (t : ReachabilityTracker) : ReachabilityTracker :=
  if bool_decide (rt_state t ≠ next) then mkTracker (rt_policy t) (rt_signals t) next now else t.

Definition recompute (now : Z) (t : ReachabilityTracker) : ReachabilityTracker :=
  let minimum := rp_min_corroboration (rt_policy t) in
  if bool_decide (rt_signals t = []) then transition StUnknown now t
  else if contradicting_classes t >=? minimum then
    let firewalled := (firewalled_classes t >=? minimum) || existsb (λ e, is_relay (tk_signal e)) (rt_signals t) in
    transition (if firewalled then Firewalled else StUnreachable) now t
  else if contradicting_classes t >? 0 then transition ObservedUnconfirmed now t
  else
  let supporting := supporting_classes t in
  if supporting >? minimum then transition StReachable now t
  else if supporting >=? minimum then transition CandidateReachable now t
  else transition ObservedUnconfirmed now t.

Definition record (signal : ReachabilitySignal) (now : Z) (t : ReachabilityTracker) : ReachabilityTracker :=
  if bool_decide (family signal = UnknownFamily) then t
  else
  let t := expire_locked now t in
  let kept := if zlen (rt_signals t) >=? MAX_TRACKED_OBSERVATIONS then tail (rt_signals t) else rt_signals t in
  recompute now (with_signals (kept ++ [mkTracked signal now]) t).

Definition poll_expiry (now : Z) (t : ReachabilityTracker) : ReachabilityTracker * bool :=
  let t' := recompute now (expire_locked now t) in
  (t', bool_decide (rt_state t' ≠ rt_state t)).

(** [Iterator::min] *)
Definition minimum_of (l : list Z) : option Z :=
  match l with [] => None | x :: rest => Some (fold_left Z.min rest x) end.
Definition reach_snapshot (now : Z) (t : ReachabilityTracker) : ReachabilitySnapshot :=
  let expires_at := default now (minimum_of (expiry (rt_policy t) <$> filter (λ e, supports_reachability (tk_signal e) = true) (rt_signals t))) in
  mkReachSnapshot (rt_state t) (supporting_classes t) expires_at (default UnknownFamily (latest_family t)).

Definition as_transport_observation (transport : TransportKind) (observed_at : Z) (t : ReachabilityTracker) : ReachabilityObservation :=
  let '(reachability, validation) :=
    match rt_state t with
    | StUnknown => (ReachUnknown, Unvalidated)
    | ObservedUnconfirmed => (Unconfirmed, Unvalidated)
    | CandidateReachable => (Unconfirmed, Validated)
    | StReachable => (Reachable, Validated)
    | Firewalled | StUnreachable => (Unreachable, Validated)
    end in
  let origin := if existsb (λ e, is_configured_bind (tk_signal e)) (rt_signals t) then Configured else Observed in
  mkObservation transport origin (default UnknownFamily (latest_family t)) reachability observed_at validation None.

Definition corroboration_confidence (corroboration : Z) : option Z :=
  if corroboration <=? 1 then None
  else match confidence_new (if corroboration =? 2 then 50 else 75) with Ok v => Some v | Err _ => None end.

(** ** Status codes *)
Inductive NetworkStatusCode := NsOk | NsFirewalled | NsUnknown | NsProxy | NsMesh | NsStan.
Inductive NetworkErrorCode := NeNone | NeClockSkew | NeOffline | NeSymmetricNat | NeFullConeNat | NeNoDescriptors.
Definition status_as_i64 (c : NetworkStatusCode) : Z :=
  match c with NsOk => 0 | NsFirewalled => 1 | NsUnknown => 2 | NsProxy => 3 | NsMesh => 4 | NsStan => 5 end.
Definition status_try_from_i64 (v : Z) : option NetworkStatusCode :=
  match v with 0 => Some NsOk | 1 => Some NsFirewalled | 2 => Some NsUnknown | 3 => Some NsProxy | 4 => Some NsMesh | 5 => Some NsStan | _ => None end.
Definition error_as_i64 (c : NetworkErrorCode) : Z :=
  match c with NeNone => 0 | NeClockSkew => 1 | NeOffline => 2 | NeSymmetricNat => 3 | NeFullConeNat => 4 | NeNoDescriptors => 5 end.
Definition error_try_from_i64 (v : Z) : option NetworkErrorCode :=
  match v with
  | 0 => Some NeNone | 1 => Some NeClockSkew | 2 => Some NeOffline | 3 => Some NeSymmetricNat | 4 => Some NeFullConeNat | 5 => Some NeNoDescriptors
  | _ => None
  end.

Record FamilyNetworkCondition := mkCondition { fc_configured : bool; fc_bound : bool; fc_reachability : ReachabilityState }.
Definition inert : FamilyNetworkCondition := mkCondition false false StUnknown.

Definition effective_reachability (snapshot : option ReachabilitySnapshot) (f : AddressFamily) (now : Z) : ReachabilityState :=
  match snapshot with
  | Some s => if bool_decide (rs_family s = f) && (rs_expires_at s >? now) then rs_state s else StUnknown
  | None => StUnknown
  end.
Definition network_status_code (c : FamilyNetworkCondition) : NetworkStatusCode :=
  match fc_reachability c with
  | StReachable => NsOk
  | Firewalled | StUnreachable => NsFirewalled
  | StUnknown | ObservedUnconfirmed | CandidateReachable => NsUnknown
  end.
Definition network_testing_flag (c : FamilyNetworkCondition) : Z :=
  match fc_reachability c with ObservedUnconfirmed | CandidateReachable => 1 | _ => 0 end.
Definition network_error_code (c : FamilyNetworkCondition) (netdb_usable : bool) : NetworkErrorCode :=
  if negb netdb_usable then NeNoDescriptors
  else if fc_configured c && negb (fc_bound c) then NeOffline
  else NeNone.

(** The conditions of both families, IPv4 first. *)
Definition network_condition (requested_v4 requested_v6 bound_v4 bound_v6 : bool) (now : Z) (t : ReachabilityTracker)
    : ReachabilityTracker * (FamilyNetworkCondition * FamilyNetworkCondition) :=
  let t := (poll_expiry now t).1 in
  let snapshot := reach_snapshot now t in
  (t, (mkCondition requested_v4 bound_v4 (effective_reachability (Some snapshot) Ipv4 now),
       mkCondition requested_v6 bound_v6 (effective_reachability (Some snapshot) Ipv6 now))).

(** ** Counting classes *)
Definition classes_of (counts : ReachabilitySignal → bool) (l : list TrackedSignal) : gset nat :=
  list_to_set ((corroboration_class ∘ tk_signal) <$> filter (λ e, counts (tk_signal e) = true) l).

Lemma class_bound s : (corroboration_class s < 5)%nat.
Proof. destruct s; cbn; lia. Qed.

(** Flags and the set of the positions that are set. *)
Definition flags (classes : list bool) (s : gset nat) : Prop :=
  length classes = 5%nat ∧ ∀ i, (i < 5)%nat → classes !! i = Some (bool_decide (i ∈ s)).

Lemma flags_mark classes s i : flags classes s → (i < 5)%nat → flags (<[i := true]> classes) ({[i]} ∪ s).
Proof.
  intros [Hlen Hat] Hi. split; [by rewrite length_insert|]. intros j Hj. destruct (decide (i = j)) as [<-|].
  - rewrite list_lookup_insert_eq by lia. by rewrite bool_decide_eq_true_2 by set_solver.
  - rewrite list_lookup_insert_ne by done. rewrite Hat by done. f_equal. apply bool_decide_ext. set_solver.
Qed.

Lemma flags_count classes s : flags classes s → (∀ i, i ∈ s → (i < 5)%nat) → count_present classes = Z.of_nat (size s).
Proof.
  intros [Hlen Hat] Hs. assert (Hl : classes = (λ i, bool_decide (i ∈ s)) <$> seq 0 5).
  { apply list_eq. intros i. destruct (decide (i < 5)%nat).
    - rewrite Hat by done. rewrite list_lookup_fmap, lookup_seq_lt by lia. done.
    - rewrite !lookup_ge_None_2; [done|by rewrite length_fmap, length_seq; lia|lia]. }
  assert (Hset : s = list_to_set (filter (λ i, i ∈ s) (seq 0 5))).
  { apply set_eq. intros i. rewrite elem_of_list_to_set, list_elem_of_filter, elem_of_seq. split; [|tauto]. intros Hi. specialize (Hs i Hi). split; [done|lia]. }
  rewrite Hset at 1. rewrite size_list_to_set by (apply NoDup_filter, NoDup_seq). rewrite Hl. clear. unfold count_present, zlen. f_equal.
  induction (seq 0 5) as [|i l IH]; [done|]. rewrite fmap_cons, !filter_cons. destruct (decide (i ∈ s)) as [Hi|Hi].
  - rewrite decide_True by (by apply bool_decide_eq_true_2). cbn. by rewrite IH.
  - rewrite decide_False by (by rewrite bool_decide_eq_true). done.
Qed.

Lemma count_classes counts l : count_present (mark_classes counts l) = Z.of_nat (size (classes_of counts l)).
Proof.
  apply flags_count.
  - unfold mark_classes. assert (H0 : flags (replicate 5 false) ∅).
    { split; [done|]. intros i Hi. rewrite lookup_replicate_2 by lia. by rewrite bool_decide_eq_false_2 by set_solver. }
    enough (Hgen : ∀ classes s, flags classes s → flags (fold_left (λ classes e, if counts (tk_signal e) then <[corroboration_class (tk_signal e) := true]> classes else classes) l classes)
      (classes_of counts l ∪ s)).
    { specialize (Hgen _ _ H0). by rewrite (right_id_L ∅ (∪)) in Hgen. }
    clear H0. induction l as [|e l IH]; intros classes s Hf; [change (classes_of counts []) with (∅ : gset nat); by rewrite (left_id_L ∅ (∪))|]. cbn [fold_left].
    unfold classes_of. rewrite filter_cons. destruct (counts (tk_signal e)) eqn:Ec.
    + rewrite decide_True by done. rewrite fmap_cons, list_to_set_cons. fold (classes_of counts l).
      replace ({[(corroboration_class ∘ tk_signal) e]} ∪ classes_of counts l ∪ s) with (classes_of counts l ∪ ({[corroboration_class (tk_signal e)]} ∪ s)) by set_solver.
      apply IH. apply flags_mark; [done|apply class_bound].
    + rewrite decide_False by done. fold (classes_of counts l). by apply IH.
  - intros i (e & -> & _)%elem_of_list_to_set%list_elem_of_fmap. apply class_bound.
Qed.

(** ** The evidence *)

(** The signals that count for and against a family. *)
Definition supports (policy : ReachabilityPolicy) (f : AddressFamily) (s : ReachabilitySignal) : bool :=
  bool_decide (family s = f) && supports_reachability s && (negb (is_configured_bind s) || rp_configured_direct_allowed policy).
Definition contradicts (f : AddressFamily) (s : ReachabilitySignal) : bool :=
  bool_decide (family s = f) && contradicts_reachability s.
Definition support (policy : ReachabilityPolicy) (f : AddressFamily) (l : list TrackedSignal) : Z := Z.of_nat (size (classes_of (supports policy f) l)).
Definition opposition (f : AddressFamily) (l : list TrackedSignal) : Z := Z.of_nat (size (classes_of (contradicts f) l)).

(** What the evidence says about the family of its last signal. *)
Definition verdict (policy : ReachabilityPolicy) (l : list TrackedSignal) : ReachabilityState :=
  match last l with
  | None => StUnknown
  | Some e =>
      let f := family (tk_signal e) in
      if rp_min_corroboration policy <=? opposition f l then
        if bool_decide (Exists (λ r, is_relay (tk_signal r) = true) l) then Firewalled else StUnreachable
      else if 0 <? opposition f l then ObservedUnconfirmed
      else if rp_min_corroboration policy <? support policy f l then StReachable
      else if rp_min_corroboration policy <=? support policy f l then CandidateReachable
      else ObservedUnconfirmed
  end.

Lemma classes_of_ext c1 c2 l : (∀ s, c1 s = c2 s) → classes_of c1 l = classes_of c2 l.
Proof. intros H. unfold classes_of. f_equal. f_equal. apply list_filter_iff. intros e. by rewrite H. Qed.

Lemma supporting_spec t f : latest_family t = Some f → supporting_classes t = support (rt_policy t) f (rt_signals t).
Proof.
  intros Hf. unfold supporting_classes, support. rewrite Hf, count_classes. f_equal. f_equal. apply classes_of_ext. intros s.
  unfold supports. case_bool_decide as H1; [rewrite bool_decide_eq_false_2 by done; done|]. rewrite bool_decide_eq_true_2 by done.
  by destruct (supports_reachability s), (is_configured_bind s), (rp_configured_direct_allowed _).
Qed.
Lemma contradicting_spec t f : latest_family t = Some f → contradicting_classes t = opposition f (rt_signals t).
Proof.
  intros Hf. unfold contradicting_classes, opposition. rewrite Hf, count_classes. f_equal. f_equal. apply classes_of_ext. intros s.
  unfold contradicts. case_bool_decide as H1; [rewrite bool_decide_eq_false_2 by done; done|]. rewrite bool_decide_eq_true_2 by done.
  by destruct (contradicts_reachability s).
Qed.

Lemma classes_of_positive counts l : (0 < size (classes_of counts l))%nat ↔ ∃ e, e ∈ l ∧ counts (tk_signal e) = true.
Proof.
  split.
  - intros (i & Hi)%size_pos_elem_of. apply elem_of_list_to_set, list_elem_of_fmap in Hi as (e & _ & He). apply list_elem_of_filter in He. exists e. tauto.
  - intros (e & He & Hc). assert (Hi : corroboration_class (tk_signal e) ∈ classes_of counts l).
    { apply elem_of_list_to_set, list_elem_of_fmap. exists e. split; [done|]. by apply list_elem_of_filter. }
    destruct (size (classes_of counts l)) eqn:E; [|lia]. apply size_empty_inv in E. set_solver.
Qed.

Lemma transition_state next now t : rt_state (transition next now t) = next.
Proof. unfold transition. by case_bool_decide. Qed.
Lemma transition_same next now t : rt_signals (transition next now t) = rt_signals t ∧ rt_policy (transition next now t) = rt_policy t.
Proof. unfold transition. by destruct (bool_decide _). Qed.

Lemma recompute_spec now t :
  2 ≤ rp_min_corroboration (rt_policy t) →
  rt_state (recompute now t) = verdict (rt_policy t) (rt_signals t) ∧
  rt_signals (recompute now t) = rt_signals t ∧ rt_policy (recompute now t) = rt_policy t.
Proof.
  intros Hmin. split.
  2: { unfold recompute. repeat match goal with |- context [if ?c then _ else _] => destruct c end; apply transition_same. }
  unfold recompute, verdict. destruct (last (rt_signals t)) as [e|] eqn:El.
  2: { apply last_None in El. rewrite bool_decide_eq_true_2 by done. apply transition_state. }
  assert (Hf : latest_family t = Some (family (tk_signal e))) by (unfold latest_family; by rewrite El).
  rewrite bool_decide_eq_false_2 by (intros Hn; by rewrite Hn in El).
  rewrite (contradicting_spec t _ Hf), (supporting_spec t _ Hf). set (f := family (tk_signal e)) in *.
  assert (Hrelay : (firewalled_classes t >=? rp_min_corroboration (rt_policy t)) || existsb (λ e, is_relay (tk_signal e)) (rt_signals t) =
    bool_decide (Exists (λ r, is_relay (tk_signal r) = true) (rt_signals t))).
  { apply eq_bool_prop_intro. rewrite bool_decide_spec, Exists_exists, orb_True. split.
    - intros [H|H].
      + apply Is_true_true in H. breflect. unfold firewalled_classes in H. rewrite Hf, count_classes in H.
        match type of H with _ ≤ Z.of_nat (size ?c) => assert (Hp : (0 < size c)%nat) by lia end.
        apply classes_of_positive in Hp as (r & Hr & Hc). exists r. split; [done|].
        by destruct (bool_decide _), (is_relay (tk_signal r)).
      + apply Is_true_true, existsb_exists in H as (r & Hr & Hc). exists r. by rewrite list_elem_of_In.
    - intros (r & Hr & Hc). right. apply Is_true_true, existsb_exists. exists r. by rewrite <- list_elem_of_In. }
  rewrite Hrelay. rewrite !Z.geb_leb, !Z.gtb_ltb. repeat match goal with |- context [if ?c then transition _ _ _ else _] => destruct c end; apply transition_state.
Qed.

(** ** Histories

    A run of the tracker with a clock that does not go back; the history is the
    signals it was given, but for those of no family, which it ignores. *)
Definition known (signal : ReachabilitySignal) (now : Z) : list TrackedSignal :=
  if bool_decide (family signal = UnknownFamily) then [] else [mkTracked signal now].
Inductive tracker_run (policy : ReachabilityPolicy) : ReachabilityTracker → list TrackedSignal → Z → Prop :=
  | run_new t : tracker_new policy = Ok t → tracker_run policy t [] 0
  | run_record t history clock signal now :
      tracker_run policy t history clock → clock ≤ now < duration_max →
      tracker_run policy (record signal now t) (history ++ known signal now)
        (if bool_decide (family signal = UnknownFamily) then clock else now)
  | run_poll t history clock now :
      tracker_run policy t history clock → clock ≤ now < duration_max → tracker_run policy (poll_expiry now t).1 history now.

Definition lastn {A} (n : nat) (l : list A) : list A := drop (length l - n) l.
Definition fresh (policy : ReachabilityPolicy) (now : Z) (e : TrackedSignal) : Prop := now < expiry policy e.
#[export] Instance fresh_dec policy now e : Decision (fresh policy now e).
Proof. unfold fresh. apply _. Defined.
(** The evidence at a time: the last 64 signals, without those that have lapsed. *)
Definition evidence (policy : ReachabilityPolicy) (now : Z) (history : list TrackedSignal) : list TrackedSignal :=
  filter (fresh policy now) (lastn (Z.to_nat MAX_TRACKED_OBSERVATIONS) history).

(** Times in order. *)
Abbreviation in_order := (StronglySorted (λ e e', tk_observed_at e ≤ tk_observed_at e')).

Lemma expiry_mono policy e e' : tk_observed_at e ≤ tk_observed_at e' → expiry policy e ≤ expiry policy e'.
Proof. unfold expiry, saturating_add. lia. Qed.

Lemma list_filter_id {A} (P : A → Prop) `{!∀ x, Decision (P x)} (l : list A) : (∀ x, x ∈ l → P x) → filter P l = l.
Proof.
  induction l as [|x l IH]; intros Hall; [done|]. rewrite filter_cons_True by (apply Hall, list_elem_of_here). f_equal. apply IH. intros y Hy.
  by apply Hall, list_elem_of_further.
Qed.

Lemma expire_front_filter policy now l : in_order l → expire_front policy now l = filter (fresh policy now) l.
Proof.
  induction 1 as [|e l Hs IH He]; [done|]. cbn [expire_front]. rewrite filter_cons. destruct (expiry policy e >? now) eqn:E; breflect.
  - rewrite decide_True by done. f_equal. symmetry. apply list_filter_id. intros e' He'.
    eapply Forall_forall in He; [|exact He']. apply (expiry_mono policy) in He. unfold fresh. lia.
  - rewrite decide_False by (unfold fresh; lia). done.
Qed.

Lemma in_order_drop n l : in_order l → in_order (drop n l).
Proof. revert n. induction l as [|e l IH]; intros [|n] Hs; [done..|]. apply StronglySorted_inv in Hs as [Hs _]. by apply IH. Qed.
Lemma in_order_filter (P : TrackedSignal → Prop) `{!∀ x, Decision (P x)} l : in_order l → in_order (filter P l).
Proof.
  induction 1 as [|e l Hs IH He]; [constructor|]. rewrite filter_cons. destruct (decide (P e)); [|done]. constructor; [done|].
  apply Forall_forall. intros e' [_ He']%list_elem_of_filter. by eapply Forall_forall in He.
Qed.
Lemma in_order_snoc l e : in_order l → Forall (λ e', tk_observed_at e' ≤ tk_observed_at e) l → in_order (l ++ [e]).
Proof.
  induction 1 as [|e' l Hs IH He']; intros Hle; [by repeat constructor|]. apply Forall_cons in Hle as [H1 H2]. cbn [app]. constructor; [by apply IH|].
  apply Forall_app. split; [done|]. by repeat constructor.
Qed.

Lemma lastn_cons {A} n (l : list A) : (n < length l)%nat → ∃ x, lastn (S n) l = x :: lastn n l.
Proof.
  intros Hn. unfold lastn. replace (length l - n)%nat with (S (length l - S n)) by lia.
  destruct (lookup_lt_is_Some_2 l (length l - S n)) as [x Hx]; [lia|]. exists x. by apply drop_S.
Qed.
Lemma lastn_all {A} n (l : list A) : (length l ≤ n)%nat → lastn n l = l.
Proof. intros Hn. unfold lastn. by replace (length l - n)%nat with 0%nat by lia. Qed.
Lemma lastn_snoc {A} n (l : list A) x : lastn (S n) (l ++ [x]) = lastn n l ++ [x].
Proof. unfold lastn. rewrite length_app. cbn [length]. rewrite drop_app_le by lia. f_equal. f_equal. lia. Qed.
Lemma lastn_length {A} n (l : list A) : (length (lastn n l) ≤ n)%nat.
Proof. unfold lastn. rewrite length_drop. lia. Qed.

(** Evicting the oldest signal from a full window. *)
Lemma evict_filter policy now h n :
  in_order h →
  (if Z.of_nat (length (filter (fresh policy now) (lastn (S n) h))) >=? Z.of_nat (S n)
   then tail (filter (fresh policy now) (lastn (S n) h)) else filter (fresh policy now) (lastn (S n) h)) =
  filter (fresh policy now) (lastn n h).
Proof.
  intros Hs. destruct (decide (length h ≤ n)%nat) as [Hn|Hn].
  - rewrite !lastn_all by lia. pose proof (length_filter (fresh policy now) h). destruct (_ >=? _) eqn:E; breflect; [lia|done].
  - destruct (lastn_cons n h) as [x Hx]; [lia|]. pose proof (lastn_length n h) as Hlen.
    assert (Hsx : in_order (x :: lastn n h)) by (rewrite <- Hx; by apply in_order_drop).
    apply StronglySorted_inv in Hsx as [_ Hall]. rewrite Hx, filter_cons. destruct (decide (fresh policy now x)) as [Hf|Hf].
    + assert (Hid : filter (fresh policy now) (lastn n h) = lastn n h).
      { apply list_filter_id. intros e He. eapply Forall_forall in Hall; [|exact He]. apply (expiry_mono policy) in Hall. unfold fresh in *. lia. }
      rewrite Hid. cbn [length tail]. assert (Hle : length (lastn n h) = n) by (unfold lastn; rewrite length_drop; lia). rewrite Hle.
      destruct (_ >=? _) eqn:E; breflect; [done|lia].
    + pose proof (length_filter (fresh policy now) (lastn n h)). destruct (_ >=? _) eqn:E; breflect; [lia|done].
Qed.

(** The tracker holds the evidence, and its state is the verdict on it. *)
Record tracks (policy : ReachabilityPolicy) (t : ReachabilityTracker) (history : list TrackedSignal) (clock : Z) : Prop := {
  tr_policy : rt_policy t = policy;
  tr_order : in_order history;
  tr_past : Forall (λ e, tk_observed_at e ≤ clock) history;
  tr_signals : rt_signals t = evidence policy clock history;
  tr_state : rt_state t = verdict policy (rt_signals t);
}.

Lemma evidence_later policy clock now history :
  clock ≤ now → filter (fresh policy now) (evidence policy clock history) = evidence policy now history.
Proof.
  intros Hle. unfold evidence. rewrite list_filter_filter. apply list_filter_iff. intros e. unfold fresh. lia.
Qed.

Lemma expire_tracks policy t history clock now :
  tracks policy t history clock → clock ≤ now → rt_signals (expire_locked now t) = evidence policy now history.
Proof.
  intros [Hp Ho _ Hs _] Hle. cbn. rewrite Hp, Hs, expire_front_filter; [by apply evidence_later|]. by apply in_order_filter, in_order_drop.
Qed.

Definition policy_ok (policy : ReachabilityPolicy) : Prop := 2 ≤ rp_min_corroboration policy ∧ 0 < rp_observation_ttl policy.
Lemma policy_validate_ok policy p : 0 ≤ rp_observation_ttl policy → policy_validate policy = Ok p → p = policy ∧ policy_ok policy.
Proof.
  unfold policy_validate, policy_ok. change MIN_CORROBORATION_FLOOR with 2. intros Hn. destruct (_ <? _) eqn:E1; [done|]. destruct (_ >? _); [done|].
  destruct (_ =? 0) eqn:E2; [done|]. cbn [orb]. destruct (_ >? _); [done|]. intros <-%Ok_inj. breflect. split; [done|lia].
Qed.

Lemma record_tracks policy t history clock signal now :
  policy_ok policy → tracks policy t history clock → clock ≤ now < duration_max →
  tracks policy (record signal now t) (history ++ known signal now) (if bool_decide (family signal = UnknownFamily) then clock else now).
Proof.
  intros [Hmin Httl] Ht [Hle Hmax]. unfold record, known. case_bool_decide; [by rewrite app_nil_r|]. pose proof Ht as [Hp Ho Hpast _ _].
  pose proof (expire_tracks _ _ _ _ _ Ht Hle) as Hexp. set (e := mkTracked signal now). set (t1 := expire_locked now t) in *.
  set (kept := if _ >=? _ then _ else _).
  assert (Hp1 : rt_policy t1 = policy) by done.
  assert (Hkept : kept ++ [e] = evidence policy now (history ++ [e])).
  { assert (Hfe : fresh policy now e) by (unfold fresh, expiry, saturating_add; cbn; lia).
    unfold evidence. change (Z.to_nat MAX_TRACKED_OBSERVATIONS) with (S 63). rewrite lastn_snoc, filter_app, filter_cons, decide_True by done.
    f_equal. subst kept. rewrite Hexp. apply (evict_filter policy now history 63 Ho). }
  destruct (recompute_spec now (with_signals (kept ++ [e]) t1)) as (H1 & H2 & H3); [change (2 ≤ rp_min_corroboration (rt_policy t)); by rewrite Hp|].
  constructor.
  - by rewrite H3.
  - apply in_order_snoc; [done|]. eapply Forall_impl; [exact Hpast|]. cbn. lia.
  - apply Forall_app. split; [eapply Forall_impl; [exact Hpast|]; cbn; lia|]. repeat constructor. done.
  - by rewrite H2.
  - rewrite H1, H2. change (rt_policy (with_signals (kept ++ [e]) t1)) with (rt_policy t). by rewrite Hp.
Qed.

Lemma poll_tracks policy t history clock now :
  policy_ok policy → tracks policy t history clock → clock ≤ now → tracks policy (poll_expiry now t).1 history now.
Proof.
  intros [Hmin Httl] Ht Hle. pose proof Ht as [Hp Ho Hpast _ _]. pose proof (expire_tracks _ _ _ _ _ Ht Hle) as Hexp. unfold poll_expiry. cbn [fst].
  destruct (recompute_spec now (expire_locked now t)) as (H1 & H2 & H3); [cbn; by rewrite Hp|]. constructor.
  - by rewrite H3.
  - done.
  - eapply Forall_impl; [exact Hpast|]. cbn. lia.
  - by rewrite H2.
  - rewrite H1, H2. f_equal. done.
Qed.

Lemma run_tracks policy t history clock : 0 ≤ rp_observation_ttl policy → tracker_run policy t history clock → tracks policy t history clock ∧ policy_ok policy.
Proof.
  intros Hn. induction 1 as [t Hnew|t history clock signal now Hr [IH Hok] Ht|t history clock now Hr [IH Hok] Ht].
  - unfold tracker_new in Hnew. destruct (policy_validate policy) as [p|] eqn:E; [|done]. apply policy_validate_ok in E as [-> Hok]; [|done].
    cbn [mbind result_bind] in Hnew. apply Ok_inj in Hnew as <-. split; [|done]. constructor; try done; constructor.
  - split; [|done]. by apply record_tracks.
  - split; [|done]. apply (poll_tracks policy t history clock); [done..|lia].
Qed.

(** ** The reported status *)
Lemma fold_min_elem l x : fold_left Z.min l x ∈ x :: l.
Proof.
  revert x. induction l as [|y l IH]; intros x; cbn [fold_left]; [apply list_elem_of_here|]. specialize (IH (Z.min x y)).
  apply elem_of_cons in IH as [-> |IH]; [|by do 2 apply list_elem_of_further].
  destruct (Z.min_spec x y) as [[_ ->]|[_ ->]]; [apply list_elem_of_here|apply list_elem_of_further, list_elem_of_here].
Qed.
Lemma minimum_of_elem l m : minimum_of l = Some m → m ∈ l.
Proof. destruct l as [|x l]; [done|]. intros [= <-]. apply fold_min_elem. Qed.

(** A snapshot is current exactly when some evidence supports. *)
Lemma snapshot_current policy t history now :
  tracks policy t history now →
  (rs_expires_at (reach_snapshot now t) >? now) = bool_decide (Exists (λ e, supports_reachability (tk_signal e) = true) (evidence policy now history)).
Proof.
  intros [Hp _ _ Hs _]. cbn [reach_snapshot rs_expires_at]. rewrite Hp, Hs. set (ev := evidence policy now history).
  destruct (minimum_of _) as [m|] eqn:Em; cbn [from_option id].
  - apply minimum_of_elem, list_elem_of_fmap in Em as (e & -> & [Hsup He]%list_elem_of_filter).
    rewrite bool_decide_eq_true_2 by (apply Exists_exists; eauto). pose proof He as [Hf _]%list_elem_of_filter. unfold fresh in Hf.
    apply Z.gtb_lt. lia.
  - rewrite bool_decide_eq_false_2; [by rewrite Z.gtb_ltb, Z.ltb_irrefl|]. intros (e & He & Hsup)%Exists_exists.
    assert (Hin : e ∈ filter (λ e, supports_reachability (tk_signal e) = true) ev) by (by apply list_elem_of_filter).
    destruct (filter _ ev); [by apply elem_of_nil in Hin|done].
Qed.

Definition last_family (l : list TrackedSignal) : option AddressFamily := family ∘ tk_signal <$> last l.

(** Status codes of one family, from the evidence. *)
Lemma status_spec policy t history now f b1 b2 :
  tracks policy t history now → f ≠ UnknownFamily →
  network_status_code (mkCondition b1 b2 (effective_reachability (Some (reach_snapshot now t)) f now)) =
  if bool_decide (last_family (evidence policy now history) = Some f ∧
                  Exists (λ e, supports_reachability (tk_signal e) = true) (evidence policy now history))
  then network_status_code (mkCondition b1 b2 (verdict policy (evidence policy now history))) else NsUnknown.
Proof.
  intros Ht Hf. unfold effective_reachability. rewrite (snapshot_current _ _ _ _ Ht). pose proof Ht as [_ _ _ Hs Hst].
  cbn [reach_snapshot rs_family rs_state]. unfold latest_family. rewrite Hst, Hs. fold (last_family (evidence policy now history)).
  rewrite <- bool_decide_and.
  assert (Hiff : default UnknownFamily (last_family (evidence policy now history)) = f ↔ last_family (evidence policy now history) = Some f).
  { destruct (last_family _); cbn; split; congruence. }
  rewrite (bool_decide_ext _ (last_family (evidence policy now history) = Some f ∧
    Exists (λ e, supports_reachability (tk_signal e) = true) (evidence policy now history))); [by destruct (bool_decide _)|].
  by rewrite Hiff.
Qed.

Lemma support_exists policy f l : 0 < support policy f l → Exists (λ e, supports_reachability (tk_signal e) = true) l.
Proof.
  unfold support. intros Hs. destruct (proj1 (classes_of_positive (supports policy f) l) ltac:(lia)) as (e & He & Hc).
  apply Exists_exists. exists e. split; [done|]. unfold supports in Hc. by destruct (bool_decide _), (supports_reachability _).
Qed.

Lemma verdict_reachable policy l :
  2 ≤ rp_min_corroboration policy →
  verdict policy l = StReachable ↔ ∃ f, last_family l = Some f ∧ opposition f l = 0 ∧ rp_min_corroboration policy < support policy f l.
Proof.
  intros Hmin. unfold verdict, last_family. destruct (last l) as [e|]; cbn; [|split; [done|by intros (f & ? & _)]]. set (f := family _).
  assert (Hpos : 0 ≤ opposition f l) by (unfold opposition; lia).
  split.
  - intros Hv. exists f. split; [done|]. repeat (match type of Hv with context [if ?c then _ else _] => destruct c eqn:? end; try done); breflect; lia.
  - intros (f' & [= <-] & Ho & Hs). rewrite Ho. destruct (_ <=? 0) eqn:E; breflect; [lia|]. cbn. by apply Z.ltb_lt in Hs as ->.
Qed.

(** The router's status as the control interface reports it. *)
Lemma condition_spec policy t history clock now r4 r6 b4 b6 :
  0 ≤ rp_observation_ttl policy → tracker_run policy t history clock → clock ≤ now →
  policy_ok policy ∧ tracks policy (poll_expiry now t).1 history now ∧
  network_condition r4 r6 b4 b6 now t = ((poll_expiry now t).1,
    (mkCondition r4 b4 (effective_reachability (Some (reach_snapshot now (poll_expiry now t).1)) Ipv4 now),
     mkCondition r6 b6 (effective_reachability (Some (reach_snapshot now (poll_expiry now t).1)) Ipv6 now))).
Proof. intros Hn Hr Hle. destruct (run_tracks _ _ _ _ Hn Hr) as [Ht Hok]. split; [done|]. split; [by eapply poll_tracks|done]. Qed.

Lemma status_ok_spec policy t history now f b1 b2 :
  policy_ok policy → tracks policy t history now → f ≠ UnknownFamily →
  network_status_code (mkCondition b1 b2 (effective_reachability (Some (reach_snapshot now t)) f now)) = NsOk ↔
  last_family (evidence policy now history) = Some f ∧ opposition f (evidence policy now history) = 0 ∧
  rp_min_corroboration policy < support policy f (evidence policy now history).
Proof.
  intros [Hmin _] Ht Hf. rewrite (status_spec _ _ _ _ _ _ _ Ht Hf). set (ev := evidence policy now history). split.
  - case_bool_decide as H; [|done]. destruct H as [Hl _]. intros Hc. assert (Hv : verdict policy ev = StReachable) by (by destruct (verdict policy ev)).
    apply verdict_reachable in Hv as (f' & Hl' & Ho & Hs); [|done]. rewrite Hl in Hl'. by injection Hl' as <-.
  - intros (Hl & Ho & Hs). rewrite bool_decide_eq_true_2 by (split; [done|]; apply (support_exists policy f); lia).
    by rewrite (proj2 (verdict_reachable policy ev Hmin) (ex_intro _ f (conj Hl (conj Ho Hs)))).
Qed.

(** ** Properties *)

(** The router is reported reachable exactly on corroborated evidence.
    After any run with a clock that does not go back, the status of a
    family is OK if and only if, of the last 64 signals, those that have not
    lapsed end with one of that family, none of that family contradicts, and those that
    support it come from more distinct classes than the policy requires (which is
    at least two): repeated observations of one kind never suffice, and
    nothing that has lapsed counts. *)
Theorem network_status_ok_exact policy t history clock now r4 r6 b4 b6
    (Httl : 0 ≤ rp_observation_ttl policy) (Hr : tracker_run policy t history clock) (Hnow : clock ≤ now) :
  let '(_, (v4, v6)) := network_condition r4 r6 b4 b6 now t in
  let ev := evidence policy now history in
  let qualified f := last_family ev = Some f ∧ opposition f ev = 0 ∧ rp_min_corroboration policy < support policy f ev in
  (network_status_code v4 = NsOk ↔ qualified Ipv4) ∧ (network_status_code v6 = NsOk ↔ qualified Ipv6) ∧ 2 ≤ rp_min_corroboration policy.
Proof.
  destruct (condition_spec policy t history clock now r4 r6 b4 b6 Httl Hr Hnow) as (Hok & Ht & ->).
  split_and!; [by apply status_ok_spec..|apply Hok].
Qed.

(** A firewalled router is not reported as firewalled.  As long as no fresh
    signal supports reachability, the status of both families is Unknown,
    also when corroborated evidence has put the tracker into the state Firewalled
    or Unreachable: the snapshot then expires at the moment it is taken. *)
Theorem firewalled_unreported policy t history clock now r4 r6 b4 b6
    (Httl : 0 ≤ rp_observation_ttl policy) (Hr : tracker_run policy t history clock) (Hnow : clock ≤ now)
    (Hs : Forall (λ e, supports_reachability (tk_signal e) = false) (evidence policy now history)) :
  let '(t', (v4, v6)) := network_condition r4 r6 b4 b6 now t in
  rt_state t' = verdict policy (evidence policy now history) ∧ network_status_code v4 = NsUnknown ∧ network_status_code v6 = NsUnknown.
Proof.
  destruct (condition_spec policy t history clock now r4 r6 b4 b6 Httl Hr Hnow) as (Hok & Ht & ->).
  assert (Hno : ¬ Exists (λ e, supports_reachability (tk_signal e) = true) (evidence policy now history)).
  { intros (e & He & Hc)%Exists_exists. eapply Forall_forall in Hs; [|exact He]. congruence. }
  split_and!.
  - rewrite (tr_state _ _ _ _ Ht). f_equal. apply (tr_signals _ _ _ _ Ht).
  - rewrite (status_spec _ _ _ _ _ _ _ Ht) by done. by rewrite bool_decide_eq_false_2 by (by intros [_ ?]).
  - rewrite (status_spec _ _ _ _ _ _ _ Ht) by done. by rewrite bool_decide_eq_false_2 by (by intros [_ ?]).
Qed.

(** ** Witnesses *)
Definition sample_tracker : ReachabilityTracker := mkTracker default_reach_policy [] StUnknown 0.
Definition sample_confirmed : ReachabilityTracker :=
  record (PeerTestResult Ipv4 Confirmed) 3 (record (AuthenticatedPeerObservedExternalAddress Ipv4) 2 (record (ValidatedPath Ipv4) 1 sample_tracker)).
Definition sample_firewalled : ReachabilityTracker :=
  record (PeerTestResult Ipv4 FirewalledLikely) 2 (record (RelayFirewalledSignal Ipv4) 1 sample_tracker).
Lemma sample_confirmed_run : tracker_run default_reach_policy sample_confirmed
  [mkTracked (ValidatedPath Ipv4) 1; mkTracked (AuthenticatedPeerObservedExternalAddress Ipv4) 2; mkTracked (PeerTestResult Ipv4 Confirmed) 3] 3.
Proof.
  eapply (run_record _ _ [_; _] 2); [|done]. eapply (run_record _ _ [_] 1); [|done]. eapply (run_record _ _ [] 0); [|done]. by apply run_new.
Qed.
Lemma sample_firewalled_run : tracker_run default_reach_policy sample_firewalled
  [mkTracked (RelayFirewalledSignal Ipv4) 1; mkTracked (PeerTestResult Ipv4 FirewalledLikely) 2] 2.
Proof. eapply (run_record _ _ [_] 1); [|done]. eapply (run_record _ _ [] 0); [|done]. by apply run_new. Qed.

Lemma network_status_ok_exact_witness :
  network_status_code (network_condition true false true false 10 sample_confirmed).2.1 = NsOk.
Proof.
  apply (proj1 (network_status_ok_exact default_reach_policy sample_confirmed _ 3 10 true false true false ltac:(done) sample_confirmed_run ltac:(done))).
  split_and!; vm_compute; reflexivity.
Defined.

Lemma firewalled_unreported_witness :
  rt_state (network_condition true false true false 10 sample_firewalled).1 = Firewalled ∧
  network_status_code (network_condition true false true false 10 sample_firewalled).2.1 = NsUnknown.
Proof.
  destruct (firewalled_unreported default_reach_policy sample_firewalled _ 2 10 true false true false ltac:(done) sample_firewalled_run ltac:(done))
    as (Hs & H4 & _); [repeat constructor|].
  split; [|exact H4]. vm_compute. reflexivity.
Defined.

(** A neutral test result of the other family ends the status of this one. *)
Example inconclusive_flips :
  network_status_code (network_condition true true true true 10 (record (PeerTestResult Ipv6 Inconclusive) 4 sample_confirmed)).2.1 = NsUnknown.
Proof. vm_compute. reflexivity. Qed.
(** Thresholds above four are accepted, and no evidence reaches them. *)
Lemma support_at_most_four policy f l : support policy f l ≤ 4.
Proof.
  unfold support. assert (Hsub : classes_of (supports policy f) l ⊆ list_to_set (seq 0 4)).
  { intros i (e & -> & [Hc _]%list_elem_of_filter)%elem_of_list_to_set%list_elem_of_fmap. apply elem_of_list_to_set, elem_of_seq.
    unfold supports in Hc. cbn. destruct (tk_signal e); cbn in Hc |- *; try lia. }
  apply subseteq_size in Hsub. rewrite size_list_to_set in Hsub by apply NoDup_seq. rewrite length_seq in Hsub. lia.
Qed.

(** Status codes round trip. *)
Lemma status_code_roundtrip c : status_try_from_i64 (status_as_i64 c) = Some c.
Proof. by destruct c. Qed.
Lemma error_code_roundtrip c : error_try_from_i64 (error_as_i64 c) = Some c.
Proof. by destruct c. Qed.
