(* ===== verification/StreamPacket.v ===== *)
(** * Streaming packets

    The wire format of the streaming protocol
    ([i2pr-proto/src/streaming/packet.rs]): the packet header, the option region
    whose fields are announced by the flags, the location of the signature and
    what it covers, and the binding of a SYN to its receiver. *)
From S2P Require Import Prelude Utf8 Codec Common Identity.

Definition MIN_STREAMING_HEADER_BYTES : Z := 22.
Definition DEFAULT_ADVERTISED_MAX_PAYLOAD : Z := 1812.
Definition MAX_STREAMING_PAYLOAD_BYTES : Z := 2048.
Definition MAX_STREAMING_OPTION_BYTES : Z := 1024.
Definition MAX_STREAMING_NACK_COUNT : Z := 64.
Definition SYN_REPLAY_NACK_COUNT : Z := 8.
Definition MAX_STREAMING_PACKET_BYTES : Z :=
  MIN_STREAMING_HEADER_BYTES + MAX_STREAMING_NACK_COUNT * 4 + MAX_STREAMING_OPTION_BYTES
  + MAX_STREAMING_PAYLOAD_BYTES.
Definition MAX_I2CP_DATA_BODY_PAYLOAD : Z := 61440.

Definition FLAG_SYNCHRONIZE : Z := 1.
Definition FLAG_CLOSE : Z := 2.
Definition FLAG_RESET : Z := 4.
Definition FLAG_SIGNATURE_INCLUDED : Z := 8.
Definition FLAG_SIGNATURE_REQUESTED : Z := 16.
Definition FLAG_FROM_INCLUDED : Z := 32.
Definition FLAG_DELAY_REQUESTED : Z := 64.
Definition FLAG_MAX_PACKET_SIZE_INCLUDED : Z := 128.
Definition FLAG_PROFILE_INTERACTIVE : Z := 256.
Definition FLAG_ECHO : Z := 512.
Definition FLAG_NO_ACK : Z := 1024.
Definition FLAG_OFFLINE_SIGNATURE : Z := 2048.
Definition FLAG_RESERVED_MASK : Z := 61440.

Definition INITIAL_SYN_FLAGS : Z :=
  Z.lor (Z.lor (Z.lor (Z.lor FLAG_SYNCHRONIZE FLAG_SIGNATURE_INCLUDED) FLAG_FROM_INCLUDED)
           FLAG_MAX_PACKET_SIZE_INCLUDED) FLAG_NO_ACK.
Definition SYN_RESPONSE_FLAGS : Z :=
  Z.lor (Z.lor (Z.lor FLAG_SYNCHRONIZE FLAG_SIGNATURE_INCLUDED) FLAG_FROM_INCLUDED)
    FLAG_MAX_PACKET_SIZE_INCLUDED.
Definition CLOSE_FLAGS : Z := Z.lor FLAG_CLOSE FLAG_SIGNATURE_INCLUDED.
Definition RESET_FLAGS : Z := Z.lor FLAG_RESET FLAG_SIGNATURE_INCLUDED.

(** [StreamingPacketError] *)
Inductive StreamingPacketError :=
  | SpTrailingBytes
  | SpTruncated
  | SpOptionOverflow (declared maximum : Z)
  | SpNackOverflow (declared maximum : Z)
  | SpPayloadOverflow (declared maximum : Z)
  | SpLengthExceeded (context : string) (declared maximum : Z)
  | SpSynMissingFrom
  | SpSynMissingSignature
  | SpSynMissingMaxPacketSize
  | SpSynMissingReplayBinding
  | SpReservedFlagBits (bits : Z)
  | SpSignatureLengthMismatch (expected actual : Z)
  | SpSynReplayNackCountMismatch (observed : Z)
  | SpArithmeticOverflow
  | SpSignatureMissing
  | SpSignatureInvalid
  | SpSignatureContextUnavailable
  | SpUnsupportedOfflineSignature
  | SpCloseMissingSignature
  | SpResetMissingSignature.

Definition packet_error_from (e : CodecError) : StreamingPacketError :=
  match e with
  | Truncated _ _ _ => SpTruncated
  | TrailingBytes _ _ => SpTrailingBytes
  | ArithmeticOverflow _ _ => SpArithmeticOverflow
  | LengthExceeded _ declared maximum _ => SpLengthExceeded "streaming codec" declared maximum
  | _ => SpLengthExceeded "streaming codec" 0 0
  end.

(** [StreamingFlags] is its bits. *)
Module PacketFlags.
Definition new (bits : Z) : result StreamingPacketError Z :=
  if negb (Z.land bits FLAG_RESERVED_MASK =? 0) then Err (SpReservedFlagBits bits) else Ok bits.
Definition union (a b : Z) : result StreamingPacketError Z := new (Z.lor a b).
Definition has (mask flags : Z) : bool := negb (Z.land flags mask =? 0).
Definition synchronize (f : Z) : bool := has FLAG_SYNCHRONIZE f.
Definition close (f : Z) : bool := has FLAG_CLOSE f.
Definition reset (f : Z) : bool := has FLAG_RESET f.
Definition signature_included (f : Z) : bool := has FLAG_SIGNATURE_INCLUDED f.
Definition signature_requested (f : Z) : bool := has FLAG_SIGNATURE_REQUESTED f.
Definition from_included (f : Z) : bool := has FLAG_FROM_INCLUDED f.
Definition delay_requested (f : Z) : bool := has FLAG_DELAY_REQUESTED f.
Definition max_packet_size_included (f : Z) : bool := has FLAG_MAX_PACKET_SIZE_INCLUDED f.
Definition profile_interactive (f : Z) : bool := has FLAG_PROFILE_INTERACTIVE f.
Definition echo (f : Z) : bool := has FLAG_ECHO f.
Definition no_ack (f : Z) : bool := has FLAG_NO_ACK f.
Definition offline_signature (f : Z) : bool := has FLAG_OFFLINE_SIGNATURE f.
End PacketFlags.

(** [StreamingReceiveLimit] and [StreamingSendLimit] have the same fields. *)
Record StreamingLimit := mkLimit {
  max_packet_bytes : Z;
  max_option_bytes : Z;
  max_nack_count : Z;
  max_payload_bytes : Z;
}.
Definition limit_default : StreamingLimit :=
  mkLimit MAX_STREAMING_PACKET_BYTES MAX_STREAMING_OPTION_BYTES MAX_STREAMING_NACK_COUNT
    MAX_STREAMING_PAYLOAD_BYTES.
Definition destination_path : StreamingLimit :=
  mkLimit MAX_I2CP_DATA_BODY_PAYLOAD MAX_STREAMING_OPTION_BYTES MAX_STREAMING_NACK_COUNT
    MAX_I2CP_DATA_BODY_PAYLOAD.

Record StreamingOptions := mkOptions {
  so_delay_requested : option Z;
  so_from_destination : option Destination;
  so_max_payload_size : option Z;
  so_signature : option bytes;
}.

Record SignatureLocation := mkLocation { loc_offset : Z; loc_length : Z }.

Record StreamingPacket := mkPacket {
  sp_send_stream_id : Z;
  sp_receive_stream_id : Z;
  sp_sequence_num : Z;
  sp_ack_through : Z;
  sp_nacks : list Z;
  sp_resend_delay : Z;
  sp_flags : Z;
  sp_option_bytes : bytes;
  sp_options : StreamingOptions;
  sp_payload : bytes;
}.

Record StreamingPacketBuilder := mkBuilder {
  pb_send_stream_id : Z;
  pb_receive_stream_id : Z;
  pb_sequence_num : Z;
  pb_ack_through : Z;
  pb_nacks : list Z;
  pb_resend_delay : Z;
  pb_flags : Z;
  pb_option_bytes : bytes;
  pb_payload : bytes;
}.

Record StreamingHeaderPeek := mkPeek {
  pk_send_stream_id : Z;
  pk_receive_stream_id : Z;
  pk_sequence_num : Z;
  pk_flags_bits : Z;
}.

(** [slice.get(start..stop)] *)
Definition get_range (bs : bytes) (start stop : Z) : option bytes :=
  if (start <=? stop) && (stop <=? zlen bs) then Some (slice start stop bs) else None.
(** [u16::from_be_bytes([b[0], b[1]])] and the like are [from_be]. *)

Definition peek_streaming_header (inp : bytes) : result StreamingPacketError StreamingHeaderPeek :=
  if zlen inp <? MIN_STREAMING_HEADER_BYTES then Err SpTruncated
  else
  let nack_count := from_be (slice 16 17 inp) in
  header_end ← ok_or SpArithmeticOverflow
    (checked_add usize_max MIN_STREAMING_HEADER_BYTES (nack_count * 4));
  if zlen inp <? header_end then Err SpTruncated
  else
  let flags_offset := 18 + nack_count * 4 in
  Ok (mkPeek (from_be (slice 0 4 inp)) (from_be (slice 4 8 inp)) (from_be (slice 8 12 inp))
        (from_be (slice flags_offset (flags_offset + 2) inp))).

(** ** Options *)
Section options.
Local Open Scope Z_scope.

(** [encode_with_placeholder]: the option region with a zeroed signature. *)
Definition encode_with_placeholder (o : StreamingOptions) (flags signature_length : Z)
    : result StreamingPacketError bytes :=
  match so_signature o with
  | Some _ => Err SpSignatureMissing
  | None =>
  delay ← (if PacketFlags.delay_requested flags then
             delay ← ok_or (SpLengthExceeded "delay requested option" 0 0) (so_delay_requested o);
             Ok (to_be 2 delay)
           else Ok []);
  from ← (if PacketFlags.from_included flags then
            destination ← ok_or SpSynMissingFrom (so_from_destination o);
            map_err packet_error_from (destination_encode destination MAX_COMMON_STRUCTURE_SIZE)
          else Ok []);
  size ← (if PacketFlags.max_packet_size_included flags then
            max ← ok_or SpSynMissingMaxPacketSize (so_max_payload_size o);
            Ok (to_be 2 max)
          else Ok []);
  if PacketFlags.offline_signature flags then Err SpUnsupportedOfflineSignature
  else
  let out := delay ++ from ++ size ++
    (if PacketFlags.signature_included flags then repeat 0 (Z.to_nat signature_length) else []) in
  if zlen out >? MAX_STREAMING_OPTION_BYTES
  then Err (SpOptionOverflow (zlen out) MAX_STREAMING_OPTION_BYTES)
  else Ok out
  end.

Definition destination_len (d : Destination) : result StreamingPacketError Z :=
  encoded ← map_err packet_error_from (destination_encode d MAX_COMMON_STRUCTURE_SIZE);
  Ok (zlen encoded).

(** The fields of [parse_options], each with the position after it. *)
Definition parse_u16_field (present : bool) (bs : bytes) (position : Z)
    : result StreamingPacketError (option Z * Z) :=
  if present then
    stop ← ok_or SpArithmeticOverflow (checked_add usize_max position 2);
    field ← ok_or SpTruncated (get_range bs position stop);
    Ok (Some (from_be field), stop)
  else Ok (None, position).

Definition parse_from_field (present : bool) (bs : bytes) (position : Z)
    : result StreamingPacketError (option Destination * Z) :=
  if present then
    remaining ← ok_or SpTruncated (get_range bs position (zlen bs));
    destination ← map_err packet_error_from
      (decode_from_cursor remaining MAX_COMMON_STRUCTURE_SIZE);
    consumed ← destination_len destination;
    Ok (Some destination, position + consumed)
  else Ok (None, position).

(** The length of the signature: by the FROM destination, else by the peer. *)
Definition expected_signature_len (from : option Destination) (peer : option SigningPublicKey)
    : result StreamingPacketError Z :=
  match from, peer with
  | Some d, _ => ok_or SpSignatureContextUnavailable (Signing.signature_len (signing_type (signing_key (destination_keys d))))
  | None, Some key => ok_or SpSignatureContextUnavailable (Signing.signature_len (signing_type key))
  | None, None => Err SpSignatureContextUnavailable
  end.

Definition parse_signature_field (present : bool) (from : option Destination)
    (peer : option SigningPublicKey) (bs : bytes) (option_start position : Z)
    : result StreamingPacketError (option bytes * option SignatureLocation * Z) :=
  if present then
    expected ← expected_signature_len from peer;
    stop ← ok_or SpArithmeticOverflow (checked_add usize_max position expected);
    signature ← ok_or (SpSignatureLengthMismatch expected (saturating_sub (zlen bs) position))
      (get_range bs position stop);
    Ok (Some signature, Some (mkLocation (option_start + position) expected), stop)
  else Ok (None, None, position).

Definition parse_options (flags : Z) (bs : bytes) (option_start : Z) (peer : option SigningPublicKey)
    : result StreamingPacketError (StreamingOptions * option SignatureLocation) :=
  '(delay, position) ← parse_u16_field (PacketFlags.delay_requested flags) bs 0;
  '(from, position) ← parse_from_field (PacketFlags.from_included flags) bs position;
  '(size, position) ← parse_u16_field (PacketFlags.max_packet_size_included flags) bs position;
  if PacketFlags.offline_signature flags then Err SpUnsupportedOfflineSignature
  else
  '(signature, location, position) ←
    parse_signature_field (PacketFlags.signature_included flags) from peer bs option_start position;
  if negb (position =? zlen bs) then Err SpTrailingBytes
  else Ok (mkOptions delay from size signature, location).
End options.

(** ** Packets *)
Abbreviation packet_decoder := (M DecodeCursor StreamingPacketError).

(** A cursor read with [.map_err(StreamingPacketError::from)?]. *)
Abbreviation sp d := (with_err packet_error_from d).

Record packet_header := mkHeader {
  hd_send_stream_id : Z;
  hd_receive_stream_id : Z;
  hd_sequence_num : Z;
  hd_ack_through : Z;
  hd_nacks : list Z;
  hd_resend_delay : Z;
  hd_flags : Z;
  hd_option_size : Z;
}.

Definition read_packet_header (limit : StreamingLimit) : packet_decoder packet_header :=
  send_stream_id ← sp Cursor.read_u32;
  receive_stream_id ← sp Cursor.read_u32;
  sequence_num ← sp Cursor.read_u32;
  ack_through ← sp Cursor.read_u32;
  nack_count ← sp Cursor.read_u8;
  if nack_count >? max_nack_count limit
  then fail (SpNackOverflow nack_count (max_nack_count limit))
  else
  nacks ← sp (read_n Cursor.read_u32 (Z.to_nat nack_count));
  resend_delay ← sp Cursor.read_u8;
  flags_bits ← sp Cursor.read_u16;
  flags ← lift (PacketFlags.new flags_bits);
  option_size ← sp Cursor.read_u16;
  if option_size >? max_option_bytes limit
  then fail (SpOptionOverflow option_size (max_option_bytes limit))
  else
  mret (mkHeader send_stream_id receive_stream_id sequence_num ack_through nacks resend_delay flags
          option_size).

(** What follows the header: the option region and the payload. *)
Definition finish_packet (inp : bytes) (limit : StreamingLimit) (peer : option SigningPublicKey)
    (option_start : Z) (h : packet_header)
    : result StreamingPacketError (StreamingPacket * option SignatureLocation) :=
  option_end ← ok_or SpArithmeticOverflow (checked_add usize_max option_start (hd_option_size h));
  if option_end >? zlen inp then Err SpTruncated
  else
  let option_bytes := slice option_start option_end inp in
  let payload := if option_end <? zlen inp then slice option_end (zlen inp) inp else [] in
  if zlen payload >? max_payload_bytes limit
  then Err (SpPayloadOverflow (zlen payload) (max_payload_bytes limit))
  else
  '(options, location) ← parse_options (hd_flags h) option_bytes option_start peer;
  Ok (mkPacket (hd_send_stream_id h) (hd_receive_stream_id h) (hd_sequence_num h) (hd_ack_through h)
        (hd_nacks h) (hd_resend_delay h) (hd_flags h) option_bytes options payload, location).

Definition decode_streaming_packet (inp : bytes) (limit : StreamingLimit)
    (peer : option SigningPublicKey)
    : result StreamingPacketError (StreamingPacket * option SignatureLocation) :=
  if zlen inp >? max_packet_bytes limit
  then Err (SpPayloadOverflow (zlen inp) (max_packet_bytes limit))
  else if zlen inp <? MIN_STREAMING_HEADER_BYTES then Err SpTruncated
  else
  cursor ← map_err packet_error_from (Cursor.new inp (max_packet_bytes limit));
  match read_packet_header limit cursor with
  | (_, Err e) => Err e
  | (cursor', Ok h) => finish_packet inp limit peer (offset cursor') h
  end.

(** [build_signature_preimage]: the packet with its signature zeroed. *)
Definition build_signature_preimage (wire : bytes) (location : option SignatureLocation) : bytes :=
  match location with
  | None => wire
  | Some loc =>
      let stop := default (zlen wire) (checked_add usize_max (loc_offset loc) (loc_length loc)) in
      if (loc_offset loc <=? zlen wire) && (stop <=? zlen wire)
      then take (Z.to_nat (loc_offset loc)) wire
           ++ repeat 0 (length (take (Z.to_nat (loc_length loc)) (drop (Z.to_nat (loc_offset loc)) wire)))
           ++ drop (Z.to_nat (loc_length loc)) (drop (Z.to_nat (loc_offset loc)) wire)
      else wire
  end.

Definition is_zero_range (bs : bytes) : bool := forallb (λ b, b =? 0) bs.

(** The installers return the packet as they leave it, and the offset. *)
Definition install_packet_signature (wire signature : bytes)
    : result StreamingPacketError (bytes * Z) :=
  if zlen signature =? 0 then Err SpSignatureMissing
  else if zlen wire <? zlen signature then Err SpTruncated
  else
  let offset := zlen wire - zlen signature in
  if negb (is_zero_range (slice offset (zlen wire) wire)) then Err SpSignatureInvalid
  else Ok (take (Z.to_nat offset) wire ++ signature, offset).

Definition install_packet_signature_at (wire : bytes) (location : SignatureLocation) (signature : bytes)
    : result StreamingPacketError (bytes * Z) :=
  if (zlen signature =? 0) || negb (zlen signature =? loc_length location)
  then Err (SpSignatureLengthMismatch (loc_length location) (zlen signature))
  else
  stop ← ok_or SpArithmeticOverflow (checked_add usize_max (loc_offset location) (loc_length location));
  if stop >? zlen wire then Err SpTruncated
  else if negb (is_zero_range (slice (loc_offset location) stop wire)) then Err SpSignatureInvalid
  else Ok (take (Z.to_nat (loc_offset location)) wire ++ signature ++ drop (Z.to_nat stop) wire,
           loc_offset location).

Definition new_initial_syn (send_stream_id receive_stream_id sequence_num : Z) (option_bytes : bytes)
    (nacks : list Z) : result StreamingPacketError StreamingPacketBuilder :=
  flags ← PacketFlags.new INITIAL_SYN_FLAGS;
  Ok (mkBuilder send_stream_id receive_stream_id sequence_num 0 nacks 0 flags option_bytes []).

Definition new_syn_response (send_stream_id receive_stream_id sequence_num ack_through : Z)
    (option_bytes : bytes) : result StreamingPacketError StreamingPacketBuilder :=
  flags ← PacketFlags.new SYN_RESPONSE_FLAGS;
  Ok (mkBuilder send_stream_id receive_stream_id sequence_num ack_through [] 0 flags option_bytes []).

Definition write_packet_header (p : StreamingPacketBuilder) : encoder () :=
  _ ← Buffer.write_u32 (pb_send_stream_id p);
  _ ← Buffer.write_u32 (pb_receive_stream_id p);
  _ ← Buffer.write_u32 (pb_sequence_num p);
  _ ← Buffer.write_u32 (pb_ack_through p);
  _ ← match try_from u8_max (zlen (pb_nacks p)) with
      | None => fail_at (λ b, InvalidFieldValue (Buffer.len b) "nack count conversion")
      | Some cnt => Buffer.write_u8 cnt
      end;
  _ ← write_each Buffer.write_u32 (pb_nacks p);
  _ ← Buffer.write_u8 (pb_resend_delay p);
  _ ← Buffer.write_u16 (pb_flags p);
  _ ← match try_from u16_max (zlen (pb_option_bytes p)) with
      | None => fail_at (λ b, InvalidFieldValue (Buffer.len b) "option bytes conversion")
      | Some len => Buffer.write_u16 len
      end;
  Buffer.write_raw (pb_option_bytes p).

Definition encode_streaming_packet (p : StreamingPacketBuilder) (limit : StreamingLimit)
    : result StreamingPacketError bytes :=
  if zlen (pb_nacks p) >? max_nack_count limit
  then Err (SpNackOverflow (zlen (pb_nacks p)) (max_nack_count limit))
  else if zlen (pb_option_bytes p) >? max_option_bytes limit
  then Err (SpOptionOverflow (zlen (pb_option_bytes p)) (max_option_bytes limit))
  else if zlen (pb_payload p) >? max_payload_bytes limit
  then Err (SpPayloadOverflow (zlen (pb_payload p)) (max_payload_bytes limit))
  else
  header_size ← ok_or SpArithmeticOverflow
    (checked_add usize_max MIN_STREAMING_HEADER_BYTES (zlen (pb_nacks p) * 4));
  total_size ← ok_or SpArithmeticOverflow
    (v ← checked_add usize_max header_size (zlen (pb_option_bytes p));
     checked_add usize_max v (zlen (pb_payload p)));
  if total_size >? max_packet_bytes limit
  then Err (SpPayloadOverflow total_size (max_packet_bytes limit))
  else
  header ← map_err packet_error_from (encode_to_vec (max_packet_bytes limit) (write_packet_header p));
  Ok (header ++ pb_payload p).

(** ** The SYN's replay binding *)
Definition verify_syn_replay_binding (p : StreamingPacket) (receiver_hash : bytes)
    : result StreamingPacketError bool :=
  if negb (zlen (sp_nacks p) =? SYN_REPLAY_NACK_COUNT)
  then Err (SpSynReplayNackCountMismatch (zlen (sp_nacks p)))
  else Ok (bool_decide (concat (to_be 4 <$> sp_nacks p) = receiver_hash)).

Fixpoint words_of (n : nat) (bs : bytes) : list Z :=
  match n with O => [] | S n' => from_be (take 4 bs) :: words_of n' (drop 4 bs) end.
Definition encode_syn_replay_binding (receiver_hash : bytes) : list Z :=
  words_of (Z.to_nat SYN_REPLAY_NACK_COUNT) receiver_hash.

Definition validate_initial_syn (p : StreamingPacket) (receiver_hash : bytes)
    : result StreamingPacketError () :=
  if negb (PacketFlags.synchronize (sp_flags p)) then Err SpSynMissingReplayBinding
  else if negb (PacketFlags.from_included (sp_flags p)) then Err SpSynMissingFrom
  else if negb (PacketFlags.signature_included (sp_flags p)) then Err SpSynMissingSignature
  else if negb (PacketFlags.max_packet_size_included (sp_flags p)) then Err SpSynMissingMaxPacketSize
  else
  bound ← verify_syn_replay_binding p receiver_hash;
  if negb bound then Err SpSynMissingReplayBinding else Ok ().

Definition validate_syn_response (p : StreamingPacket) : result StreamingPacketError () :=
  if negb (PacketFlags.synchronize (sp_flags p)) then Err SpSynMissingFrom
  else if negb (PacketFlags.from_included (sp_flags p)) then Err SpSynMissingFrom
  else if negb (PacketFlags.signature_included (sp_flags p)) then Err SpSynMissingSignature
  else if negb (PacketFlags.max_packet_size_included (sp_flags p)) then Err SpSynMissingMaxPacketSize
  else Ok ().

Definition validate_signature_policy (p : StreamingPacket) (key : SigningPublicKey)
    : result StreamingPacketError () :=
  expected ← ok_or SpSignatureContextUnavailable (Signing.signature_len (signing_type key));
  actual ← ok_or SpSignatureMissing (zlen <$> so_signature (sp_options p));
  if negb (expected =? actual) then Err (SpSignatureLengthMismatch expected actual) else Ok ().

(** ** The option region

    What the flags announce, field by field. *)
Section option_region.
Implicit Types (w : bytes).

Definition u16_field (present : bool) (v : option Z) w : Prop :=
  if present then ∃ n, v = Some n ∧ fits 16 n ∧ w = to_be 2 n else v = None ∧ w = [].
Definition from_field (present : bool) (v : option Destination) w : Prop :=
  if present then ∃ d, v = Some d ∧ destination_ok d ∧ w = destination_bytes d else v = None ∧ w = [].
Definition signature_field (present : bool) (from : option Destination) (peer : option SigningPublicKey)
    (v : option bytes) w : Prop :=
  if present then v = Some w ∧ expected_signature_len from peer = Ok (zlen w) else v = None ∧ w = [].

(** A field parser reads exactly such a field. *)
Definition scans {A} (f : bytes → Z → result StreamingPacketError (A * Z)) (P : A → bytes → Prop) : Prop :=
  ∀ pre rest a pos, bytes_ok rest → zlen (pre ++ rest) ≤ u16_max →
    f (pre ++ rest) (zlen pre) = Ok (a, pos) ↔
    ∃ w post, rest = w ++ post ∧ pos = zlen pre + zlen w ∧ P a w.

Lemma get_range_spec pre rest n w :
  0 ≤ n → get_range (pre ++ rest) (zlen pre) (zlen pre + n) = Some w ↔
  ∃ post, rest = w ++ post ∧ zlen w = n.
Proof.
  intros Hn. unfold get_range. rewrite zlen_app. destruct (_ && _) eqn:E; breflect.
  - unfold slice. replace (Z.to_nat (zlen pre + n - zlen pre)) with (Z.to_nat n) by lia.
    unfold zlen at 1. rewrite Nat2Z.id, drop_app_length. split.
    + intros [= <-]. exists (drop (Z.to_nat n) rest). rewrite take_drop. split; [done|].
      unfold zlen in *. rewrite length_take. lia.
    + intros (post & -> & Hl). f_equal. unfold zlen in Hl. by rewrite take_app_length' by lia.
  - split; [done|]. intros (post & -> & Hl). rewrite zlen_app in *. pose proof (zlen_nonneg post).
    pose proof (zlen_nonneg pre). repeat destruct E as [E|E]; lia.
Qed.

Lemma scans_u16 present : scans (parse_u16_field present) (u16_field present).
Proof.
  intros pre rest a pos Hb Hlen. unfold parse_u16_field, u16_field. destruct present.
  2: { split; [intros [= <- <-]; exists [], rest; rewrite zlen_nil, Z.add_0_r; done|].
       intros (w & post & -> & -> & -> & ->). by rewrite zlen_nil, Z.add_0_r. }
  unfold checked_add. rewrite zlen_app in Hlen. pose proof (zlen_nonneg rest). pose proof (zlen_nonneg pre).
  unfold u16_max, usize_max in *. destruct (_ <=? _) eqn:E; breflect; [|lia]. cbn [ok_or mbind result_bind].
  split.
  - destruct (get_range _ _ _) as [w|] eqn:Eg; [|done]. cbn [ok_or mbind result_bind]. intros [= <- <-].
    apply get_range_spec in Eg as (post & -> & Hl); [|lia]. apply Forall_app in Hb as [Hb _].
    exists w, post. rewrite Hl. split_and!; [done..|]. exists (from_be w).
    pose proof (from_be_bound w Hb) as Hbd. rewrite Hl in Hbd. split_and!; [done|done|].
    assert (length w = 2%nat) as Hl2 by (unfold zlen in Hl; lia). rewrite <- Hl2. by rewrite to_from_be.
  - intros (w & post & -> & -> & n & -> & Hn & ->). rewrite zlen_to_be. change (Z.of_nat 2) with 2.
    rewrite (proj2 (get_range_spec pre _ 2 (to_be 2 n) ltac:(lia))).
    + cbn [ok_or mbind result_bind]. by rewrite from_to_be.
    + exists post. by rewrite zlen_to_be.
Qed.

Lemma decode_from_cursor_exact inp d :
  bytes_ok inp → zlen inp ≤ MAX_COMMON_STRUCTURE_SIZE →
  decode_from_cursor inp MAX_COMMON_STRUCTURE_SIZE = Ok d ↔
  destination_ok d ∧ ∃ post, inp = destination_bytes d ++ post.
Proof.
  intros Hb Hl. destruct destination_canonical as [Hr Hc _]. unfold decode_from_cursor, Cursor.new.
  destruct (_ >? _) eqn:E; breflect; [lia|]. cbn [mbind result_bind]. split.
  - destruct (destination_decode_from _) as [c' r] eqn:Ed. cbn [snd]. intros ->.
    destruct (Hc [] inp c' d Hb Ed) as (w & post & -> & _ & Hok & ->). split; [done|]. by exists post.
  - intros (Hok & post & ->). pose proof (Hr d Hok [] post) as Hrd. cbn [app] in Hrd.
    change (zlen (@nil Z)) with 0 in Hrd. rewrite Hrd; [done|].
    unfold MAX_COMMON_STRUCTURE_SIZE, usize_max in *. lia.
Qed.

Lemma destination_encode_bytes d :
  destination_ok d → zlen (destination_bytes d) ≤ MAX_COMMON_STRUCTURE_SIZE →
  destination_encode d MAX_COMMON_STRUCTURE_SIZE = Ok (destination_bytes d).
Proof.
  intros Hok Hl. apply encode_to_vec_writes; [by apply (canonical_writes _ _ _ _ destination_canonical)|done|done].
Qed.

Lemma scans_from present : scans (parse_from_field present) (from_field present).
Proof.
  intros pre rest a pos Hb Hlen. unfold parse_from_field, from_field. destruct present.
  2: { split; [intros [= <- <-]; exists [], rest; rewrite zlen_nil, Z.add_0_r; done|].
       intros (w & post & -> & -> & -> & ->). by rewrite zlen_nil, Z.add_0_r. }
  pose proof (zlen_nonneg rest). pose proof (zlen_nonneg pre).
  assert (Hg : get_range (pre ++ rest) (zlen pre) (zlen (pre ++ rest)) = Some rest).
  { rewrite zlen_app. apply get_range_spec; [lia|]. exists []. by rewrite app_nil_r. }
  rewrite Hg. cbn [ok_or mbind result_bind]. rewrite zlen_app in Hlen. unfold u16_max in Hlen.
  assert (Hm : zlen rest ≤ MAX_COMMON_STRUCTURE_SIZE) by (unfold MAX_COMMON_STRUCTURE_SIZE; lia).
  assert (Hdl : ∀ d post, destination_ok d → rest = destination_bytes d ++ post →
    destination_len d = Ok (zlen (destination_bytes d))).
  { intros d post Hd ->. unfold destination_len. rewrite zlen_app in Hm. pose proof (zlen_nonneg post).
    rewrite destination_encode_bytes; [done|done|lia]. }
  split.
  - destruct (decode_from_cursor _ _) as [d|] eqn:Ed; [|done]. cbn [map_err mbind result_bind].
    apply decode_from_cursor_exact in Ed as (Hok & post & Heq); [|done|done].
    rewrite (Hdl d post Hok Heq). cbn [mbind result_bind]. intros [= <- <-].
    exists (destination_bytes d), post. split_and!; [done|done|]. by exists d.
  - intros (w & post & Heq & -> & d & -> & Hok & ->).
    rewrite (proj2 (decode_from_cursor_exact rest d Hb Hm)) by eauto. cbn [map_err mbind result_bind].
    by rewrite (Hdl d post Hok Heq).
Qed.

Lemma signature_len_bounds t n : Signing.signature_len t = Some n → 0 < n ≤ 512.
Proof. destruct t; cbn; intros [= <-]; lia. Qed.

Lemma expected_signature_len_bounds from peer n : expected_signature_len from peer = Ok n → 0 < n ≤ 512.
Proof.
  unfold expected_signature_len, ok_or.
  destruct from as [d|]; [|destruct peer as [k|]; [|done]];
    (destruct (Signing.signature_len _) eqn:E; [|done]); intros [= <-]; by apply signature_len_bounds in E.
Qed.

Definition signature_location (start : Z) (v : option bytes) (before : Z) : option SignatureLocation :=
  (λ sig, mkLocation (start + before) (zlen sig)) <$> v.

Lemma scans_signature present from peer start pre rest v loc pos :
  zlen (pre ++ rest) ≤ u16_max →
  parse_signature_field present from peer (pre ++ rest) start (zlen pre) = Ok (v, loc, pos) ↔
  ∃ w post, rest = w ++ post ∧ pos = zlen pre + zlen w ∧ signature_field present from peer v w ∧
    loc = signature_location start v (zlen pre).
Proof.
  intros Hlen. unfold parse_signature_field, signature_field, signature_location. destruct present.
  2: { split; [intros [= <- <- <-]; exists [], rest; rewrite zlen_nil, Z.add_0_r; done|].
       intros (w & post & -> & -> & (-> & ->) & ->). by rewrite zlen_nil, Z.add_0_r. }
  rewrite zlen_app in Hlen. pose proof (zlen_nonneg rest). pose proof (zlen_nonneg pre).
  unfold checked_add, u16_max, usize_max in *. split.
  - destruct (expected_signature_len from peer) as [n|] eqn:En; [|done]. cbn [mbind result_bind].
    pose proof (expected_signature_len_bounds _ _ _ En).
    destruct (_ <=? _) eqn:E; breflect; [|done]. cbn [ok_or mbind result_bind].
    destruct (get_range _ _ _) as [w|] eqn:Eg; [|done]. cbn [ok_or mbind result_bind]. intros [= <- <- <-].
    apply get_range_spec in Eg as (post & -> & Hl); [|lia]. exists w, post. subst n.
    split_and!; done.
  - intros (w & post & -> & -> & (-> & Hn) & ->). rewrite Hn. cbn [mbind result_bind].
    pose proof (expected_signature_len_bounds _ _ _ Hn). rewrite zlen_app in Hlen.
    pose proof (zlen_nonneg post). destruct (_ <=? _) eqn:E; breflect; [|lia]. cbn [ok_or mbind result_bind].
    rewrite (proj2 (get_range_spec pre _ (zlen w) w ltac:(lia))) by eauto. done.
Qed.
End option_region.

(** Options that fit the flags, and their bytes. *)
Definition delay_bytes (o : StreamingOptions) : bytes := from_option (to_be 2) [] (so_delay_requested o).
Definition from_bytes (o : StreamingOptions) : bytes :=
  from_option destination_bytes [] (so_from_destination o).
Definition size_bytes (o : StreamingOptions) : bytes := from_option (to_be 2) [] (so_max_payload_size o).
Definition unsigned_option_bytes (o : StreamingOptions) : bytes :=
  delay_bytes o ++ from_bytes o ++ size_bytes o.
Definition options_bytes (o : StreamingOptions) : bytes :=
  unsigned_option_bytes o ++ default [] (so_signature o).

Record options_ok (flags : Z) (peer : option SigningPublicKey) (o : StreamingOptions) : Prop := {
  oo_delay : u16_field (PacketFlags.delay_requested flags) (so_delay_requested o) (delay_bytes o);
  oo_from : from_field (PacketFlags.from_included flags) (so_from_destination o) (from_bytes o);
  oo_size : u16_field (PacketFlags.max_packet_size_included flags) (so_max_payload_size o) (size_bytes o);
  oo_offline : PacketFlags.offline_signature flags = false;
  oo_signature : signature_field (PacketFlags.signature_included flags) (so_from_destination o) peer
                   (so_signature o) (default [] (so_signature o));
}.

Lemma u16_field_bytes present v w : u16_field present v w → w = from_option (to_be 2) [] v.
Proof. unfold u16_field. destruct present; [by intros (n & -> & _ & ->)|by intros [-> ->]]. Qed.
Lemma from_field_bytes present v w : from_field present v w → w = from_option destination_bytes [] v.
Proof. unfold from_field. destruct present; [by intros (n & -> & _ & ->)|by intros [-> ->]]. Qed.
Lemma signature_field_bytes present from peer v w : signature_field present from peer v w → w = default [] v.
Proof. unfold signature_field. destruct present; [by intros [-> _]|by intros [-> ->]]. Qed.

Lemma scans_at {A} (f : bytes → Z → result StreamingPacketError (A * Z)) P pre rest a pos :
  scans f P → bytes_ok rest → zlen (pre ++ rest) ≤ u16_max →
  f (pre ++ rest) (zlen pre) = Ok (a, pos) →
  ∃ w post, rest = w ++ post ∧ pos = zlen (pre ++ w) ∧ P a w.
Proof.
  intros Hf Hb Hl Hr. apply Hf in Hr as (w & post & -> & -> & HP); [|done|done].
  exists w, post. by rewrite zlen_app.
Qed.

Lemma scans_run {A} (f : bytes → Z → result StreamingPacketError (A * Z)) P pre w post a :
  scans f P → bytes_ok (w ++ post) → zlen (pre ++ w ++ post) ≤ u16_max → P a w →
  f (pre ++ w ++ post) (zlen pre) = Ok (a, zlen (pre ++ w)).
Proof. intros Hf Hb Hl HP. apply Hf; [done|done|]. exists w, post. by rewrite zlen_app. Qed.

Lemma parse_options_inv flags bs start peer o loc :
  bytes_ok bs → zlen bs ≤ u16_max →
  parse_options flags bs start peer = Ok (o, loc) →
  options_ok flags peer o ∧ bs = options_bytes o ∧
  loc = signature_location start (so_signature o) (zlen (unsigned_option_bytes o)).
Proof.
  intros Hb Hlen. unfold parse_options.
  destruct (parse_u16_field _ bs 0) as [[delay p1]|] eqn:E1; [|done]. cbn [mbind result_bind].
  apply (scans_at _ _ [] bs _ _ (scans_u16 _) Hb Hlen) in E1 as (w1 & r1 & -> & -> & H1).
  cbn [app] in *. apply Forall_app in Hb as Hb'. destruct Hb' as [_ Hb1].
  destruct (parse_from_field _ _ _) as [[from p2]|] eqn:E2; [|done]. cbn [mbind result_bind].
  apply (scans_at _ _ w1 r1 _ _ (scans_from _) Hb1 Hlen) in E2 as (w2 & r2 & -> & -> & H2).
  apply Forall_app in Hb1 as [_ Hb2]. rewrite (assoc_L app) in *.
  destruct (parse_u16_field _ _ (zlen (w1 ++ w2))) as [[size p3]|] eqn:E3; [|done]. cbn [mbind result_bind].
  apply (scans_at _ _ (w1 ++ w2) r2 _ _ (scans_u16 _) Hb2 Hlen) in E3 as (w3 & r3 & -> & -> & H3).
  rewrite (assoc_L app) in *.
  destruct (PacketFlags.offline_signature flags) eqn:Eo; [done|].
  destruct (parse_signature_field _ _ _ _ _ _) as [[[sig l] p4]|] eqn:E4; [|done]. cbn [mbind result_bind].
  apply scans_signature in E4 as (w4 & r4 & -> & -> & H4 & ->); [|done].
  rewrite <- zlen_app. destruct (negb _) eqn:Ez; [done|]. breflect. intros Heq%Ok_inj.
  assert (r4 = []) as -> by (apply zlen_0_nil; rewrite !zlen_app in Ez; lia).
  injection Heq as <- <-. unfold options_bytes, unsigned_option_bytes, delay_bytes, from_bytes, size_bytes.
  cbn [so_delay_requested so_from_destination so_max_payload_size so_signature].
  pose proof (u16_field_bytes _ _ _ H1) as <-. pose proof (from_field_bytes _ _ _ H2) as <-.
  pose proof (u16_field_bytes _ _ _ H3) as <-. pose proof (signature_field_bytes _ _ _ _ _ H4) as <-.
  rewrite app_nil_r, !(assoc_L app). split_and!; [|done|done].
  constructor; unfold delay_bytes, from_bytes, size_bytes; cbn; try done.
  + by rewrite <- (u16_field_bytes _ _ _ H1). + by rewrite <- (from_field_bytes _ _ _ H2).
  + by rewrite <- (u16_field_bytes _ _ _ H3). + by rewrite <- (signature_field_bytes _ _ _ _ _ H4).
Qed.

Lemma parse_options_ok flags start peer o :
  bytes_ok (options_bytes o) → zlen (options_bytes o) ≤ u16_max → options_ok flags peer o →
  parse_options flags (options_bytes o) start peer =
  Ok (o, signature_location start (so_signature o) (zlen (unsigned_option_bytes o))).
Proof.
  intros Hb Hlen [H1 H2 H3 Ho H4]. unfold parse_options.
  unfold options_bytes, unsigned_option_bytes in *. rewrite <- !(assoc_L app) in *.
  set (w4 := default [] (so_signature o)) in *.
  pose proof (scans_run _ _ [] (delay_bytes o) (from_bytes o ++ size_bytes o ++ w4) _ (scans_u16 _)
    Hb Hlen H1) as E1. cbn [app] in E1. change (zlen (@nil Z)) with 0 in E1. rewrite E1.
  cbn [mbind result_bind]. apply Forall_app in Hb as Hb'. destruct Hb' as [_ Hb1].
  rewrite (scans_run _ _ (delay_bytes o) (from_bytes o) (size_bytes o ++ w4) _ (scans_from _) Hb1 Hlen H2).
  cbn [mbind result_bind]. apply Forall_app in Hb1 as [_ Hb2].
  pose proof (scans_run _ _ (delay_bytes o ++ from_bytes o) (size_bytes o) w4 (so_max_payload_size o)
    (scans_u16 (PacketFlags.max_packet_size_included flags)) Hb2) as E3.
  rewrite <- !(assoc_L app) in E3. rewrite (E3 Hlen H3). cbn [mbind result_bind]. rewrite Ho.
  pose proof (scans_signature (PacketFlags.signature_included flags) (so_from_destination o) peer start
    (delay_bytes o ++ from_bytes o ++ size_bytes o) w4 (so_signature o)
    (signature_location start (so_signature o) (zlen (delay_bytes o ++ from_bytes o ++ size_bytes o)))
    (zlen ((delay_bytes o ++ from_bytes o ++ size_bytes o) ++ w4))) as E4.
  rewrite <- !(assoc_L app) in E4. rewrite (proj2 (E4 Hlen)).
  2: { exists w4, []. rewrite app_nil_r, !zlen_app. split_and!; [done|lia|done|done]. }
  cbn [mbind result_bind]. rewrite Z.eqb_refl. cbn [negb]. by destruct o.
Qed.

(** ** The header *)
Record packet_header_ok (limit : StreamingLimit) (h : packet_header) : Prop := {
  ph_send : fits 32 (hd_send_stream_id h);
  ph_receive : fits 32 (hd_receive_stream_id h);
  ph_sequence : fits 32 (hd_sequence_num h);
  ph_ack : fits 32 (hd_ack_through h);
  ph_nack_count : zlen (hd_nacks h) ≤ max_nack_count limit;
  ph_nack_byte : zlen (hd_nacks h) ≤ u8_max;
  ph_nacks : Forall (fits 32) (hd_nacks h);
  ph_resend : fits 8 (hd_resend_delay h);
  ph_flags : fits 16 (hd_flags h);
  ph_reserved : Z.land (hd_flags h) FLAG_RESERVED_MASK = 0;
  ph_option_size : fits 16 (hd_option_size h);
  ph_option_limit : hd_option_size h ≤ max_option_bytes limit;
}.

Definition packet_header_bytes (h : packet_header) : bytes :=
  to_be 4 (hd_send_stream_id h) ++ to_be 4 (hd_receive_stream_id h) ++ to_be 4 (hd_sequence_num h)
  ++ to_be 4 (hd_ack_through h) ++ [zlen (hd_nacks h)] ++ concat (to_be 4 <$> hd_nacks h)
  ++ [hd_resend_delay h] ++ to_be 2 (hd_flags h) ++ to_be 2 (hd_option_size h).

Lemma u32_canonical : canonical (fits 32) (to_be 4) Cursor.read_u32 Buffer.write_u32.
Proof.
  constructor; [apply reads_u32| |intros v _; apply writes_write].
  eapply consumes_impl; [apply consumes_u32|]. by intros v w _ [-> ?].
Qed.

Lemma flags_new_exact bits f : PacketFlags.new bits = Ok f ↔ f = bits ∧ Z.land bits FLAG_RESERVED_MASK = 0.
Proof.
  unfold PacketFlags.new. destruct (Z.land bits FLAG_RESERVED_MASK =? 0) eqn:E; cbn [negb]; breflect.
  - split; [by intros <-%Ok_inj|by intros [-> _]].
  - split; [done|]. by intros [_ ?].
Qed.

Lemma zlen_concat_words l : zlen (concat (to_be 4 <$> l)) = 4 * zlen l.
Proof.
  induction l as [|x l IH]; [done|]. rewrite fmap_cons. cbn [concat]. rewrite zlen_app, zlen_to_be, IH, zlen_cons.
  lia.
Qed.

Lemma zlen_packet_header h : zlen (packet_header_bytes h) = MIN_STREAMING_HEADER_BYTES + 4 * zlen (hd_nacks h).
Proof.
  unfold packet_header_bytes. rewrite !zlen_app, !zlen_to_be, !zlen_one, zlen_concat_words.
  unfold MIN_STREAMING_HEADER_BYTES. lia.
Qed.

Lemma reads_packet_header limit h :
  packet_header_ok limit h → reads (read_packet_header limit) (packet_header_bytes h) h.
Proof.
  intros [H1 H2 H3 H4 H5 H6 H7 H8 H9 H10 H11 H12]. unfold read_packet_header, packet_header_bytes.
  do 4 (eapply reads_bind; [by apply reads_with_err, reads_u32|]).
  eapply reads_bind; [apply reads_with_err, reads_u8|].
  destruct (_ >? max_nack_count limit) eqn:E; breflect; [lia|].
  eapply reads_bind.
  { apply reads_with_err. unfold zlen. rewrite Nat2Z.id. by apply (reads_n u32_canonical). }
  eapply reads_bind; [apply reads_with_err, reads_u8|].
  eapply reads_bind; [by apply reads_with_err, reads_u16|].
  eapply reads_silent; [by apply reads_lift, flags_new_exact|].
  eapply reads_map; [by apply reads_with_err, reads_u16|].
  destruct (_ >? max_option_bytes limit) eqn:E2; breflect; [lia|]. destruct h. apply reads_ret.
Qed.

Lemma consumes_packet_header limit :
  consumes (read_packet_header limit) (λ h w, packet_header_ok limit h ∧ w = packet_header_bytes h).
Proof.
  unfold read_packet_header.
  eapply consumes_bind; [apply consumes_with_err, consumes_u32|intros v1 w1 _ [-> H1]].
  eapply consumes_bind; [apply consumes_with_err, consumes_u32|intros v2 w2 _ [-> H2]].
  eapply consumes_bind; [apply consumes_with_err, consumes_u32|intros v3 w3 _ [-> H3]].
  eapply consumes_bind; [apply consumes_with_err, consumes_u32|intros v4 w4 _ [-> H4]].
  eapply consumes_bind; [apply consumes_with_err, consumes_u8|intros cnt w5 _ [-> H5]].
  apply consumes_if; intros E; [apply consumes_fail|]. breflect.
  eapply consumes_bind; [apply consumes_with_err, (consumes_n u32_canonical)|intros nacks w6 _ (H6 & Hl & ->)].
  eapply consumes_bind; [apply consumes_with_err, consumes_u8|intros v7 w7 _ [-> H7]].
  eapply consumes_bind; [apply consumes_with_err, consumes_u16|intros v8 w8 _ [-> H8]].
  eapply (consumes_bind _ _ (λ f w, w = [] ∧ f = v8 ∧ Z.land v8 FLAG_RESERVED_MASK = 0)).
  { apply consumes_lift. intros f [-> Hr]%flags_new_exact. done. }
  intros f w9 _ (-> & -> & Hr).
  eapply consumes_bind; [apply consumes_with_err, consumes_u16|intros v10 w10 _ [-> H10]].
  apply consumes_if; intros E2; [apply consumes_fail|]. breflect. apply consumes_ret.
  assert (Hcnt : zlen nacks = cnt) by (unfold zlen, fits in *; lia).
  assert (Hc2 : cnt ≤ u8_max) by (unfold fits, u8_max in *; lia).
  split; [constructor; cbn; rewrite ?Hcnt; done|]. unfold packet_header_bytes. cbn. by rewrite Hcnt.
Qed.

(** ** Packets *)
Definition header_of (p : StreamingPacket) : packet_header :=
  mkHeader (sp_send_stream_id p) (sp_receive_stream_id p) (sp_sequence_num p) (sp_ack_through p)
    (sp_nacks p) (sp_resend_delay p) (sp_flags p) (zlen (sp_option_bytes p)).
Definition packet_bytes (p : StreamingPacket) : bytes :=
  packet_header_bytes (header_of p) ++ sp_option_bytes p ++ sp_payload p.
Definition packet_location (p : StreamingPacket) : option SignatureLocation :=
  signature_location (MIN_STREAMING_HEADER_BYTES + 4 * zlen (sp_nacks p)) (so_signature (sp_options p))
    (zlen (unsigned_option_bytes (sp_options p))).
Definition builder_of (p : StreamingPacket) : StreamingPacketBuilder :=
  mkBuilder (sp_send_stream_id p) (sp_receive_stream_id p) (sp_sequence_num p) (sp_ack_through p)
    (sp_nacks p) (sp_resend_delay p) (sp_flags p) (sp_option_bytes p) (sp_payload p).

Record packet_ok (limit : StreamingLimit) (peer : option SigningPublicKey) (p : StreamingPacket) : Prop := {
  po_header : packet_header_ok limit (header_of p);
  po_options : options_ok (sp_flags p) peer (sp_options p);
  po_option_bytes : sp_option_bytes p = options_bytes (sp_options p);
  po_payload : zlen (sp_payload p) ≤ max_payload_bytes limit;
  po_total : zlen (packet_bytes p) ≤ max_packet_bytes limit;
}.

(** The slices behind the header, and what [finish_packet] does with them. *)
Lemma finish_packet_run h ob payload limit peer :
  zlen (packet_header_bytes h ++ ob ++ payload) ≤ usize_max → hd_option_size h = zlen ob →
  finish_packet (packet_header_bytes h ++ ob ++ payload) limit peer (zlen (packet_header_bytes h)) h =
  if zlen payload >? max_payload_bytes limit
  then Err (SpPayloadOverflow (zlen payload) (max_payload_bytes limit))
  else
    '(options, location) ← parse_options (hd_flags h) ob (zlen (packet_header_bytes h)) peer;
    Ok (mkPacket (hd_send_stream_id h) (hd_receive_stream_id h) (hd_sequence_num h) (hd_ack_through h)
          (hd_nacks h) (hd_resend_delay h) (hd_flags h) ob options payload, location).
Proof.
  intros Hu Hos. set (hb := packet_header_bytes h) in *. unfold finish_packet, checked_add. rewrite Hos.
  rewrite !zlen_app in *. pose proof (zlen_nonneg payload).
  destruct (_ <=? usize_max) eqn:E1; breflect; [|lia]. cbn [ok_or mbind result_bind].
  destruct (_ >? _ + (_ + _)) eqn:E2; breflect; [lia|].
  assert (Hpl : (if zlen hb + zlen ob <? zlen hb + (zlen ob + zlen payload)
      then slice (zlen hb + zlen ob) (zlen hb + (zlen ob + zlen payload)) (hb ++ ob ++ payload) else [])
      = payload).
  { destruct (_ <? _) eqn:E3; breflect.
    - rewrite (assoc_L app). apply slice_app_end; rewrite ?zlen_app; lia.
    - symmetry. apply zlen_0_nil. lia. }
  rewrite Hpl, slice_app. done.
Qed.

Lemma finish_packet_iff h rest limit peer p loc :
  bytes_ok rest → zlen (packet_header_bytes h ++ rest) ≤ usize_max → packet_header_ok limit h →
  finish_packet (packet_header_bytes h ++ rest) limit peer (zlen (packet_header_bytes h)) h = Ok (p, loc) ↔
  header_of p = h ∧ rest = sp_option_bytes p ++ sp_payload p ∧
  options_ok (sp_flags p) peer (sp_options p) ∧ sp_option_bytes p = options_bytes (sp_options p) ∧
  zlen (sp_payload p) ≤ max_payload_bytes limit ∧ loc = packet_location p.
Proof.
  intros Hb Hu Hh. pose proof (ph_option_size _ _ Hh) as Hos. unfold fits in Hos. split.
  - intros Hf. assert (Hfit : hd_option_size h ≤ zlen rest).
    { unfold finish_packet, checked_add in Hf. destruct (_ <=? usize_max) eqn:E1; [|done].
      cbn [ok_or mbind result_bind] in Hf. destruct (_ >? zlen _) eqn:E2; [done|]. breflect.
      rewrite zlen_app in E2. lia. }
    set (ob := take (Z.to_nat (hd_option_size h)) rest). set (pl := drop (Z.to_nat (hd_option_size h)) rest).
    assert (Hr : rest = ob ++ pl) by (symmetry; apply take_drop). clearbody pl.
    assert (Hl : zlen ob = hd_option_size h) by (unfold ob, zlen in *; rewrite length_take; lia).
    clearbody ob. rewrite Hr in *. rewrite finish_packet_run in Hf by done.
    destruct (_ >? _) eqn:E; [done|]. breflect.
    destruct (parse_options _ _ _ _) as [[o l]|] eqn:Ep; [|done]. cbn [mbind result_bind] in Hf.
    injection Hf as <- <-. apply Forall_app in Hb as [Hb _].
    apply parse_options_inv in Ep as (Ho & Heq & ->); [|done|unfold u16_max; lia].
    unfold header_of, packet_location. cbn. rewrite zlen_packet_header, Hl. split_and!; try done. by destruct h.
  - intros (<- & -> & Ho & Hob & Hp & ->). cbn [hd_option_size header_of] in Hos.
    rewrite finish_packet_run by done. destruct (_ >? _) eqn:E; breflect; [lia|].
    apply Forall_app in Hb as [Hb _]. cbn [hd_flags header_of]. rewrite Hob in *.
    rewrite parse_options_ok; [|done|unfold u16_max; lia|done]. cbn [mbind result_bind].
    unfold packet_location. rewrite zlen_packet_header. rewrite <- Hob. by destruct p.
Qed.

Lemma decode_packet_iff inp limit peer p loc :
  bytes_ok inp → max_packet_bytes limit ≤ usize_max →
  decode_streaming_packet inp limit peer = Ok (p, loc) ↔
  packet_ok limit peer p ∧ inp = packet_bytes p ∧ loc = packet_location p.
Proof.
  intros Hb Hmax. unfold decode_streaming_packet, Cursor.new. split.
  - destruct (_ >? _) eqn:E1; [done|]. destruct (_ <? _) eqn:E2; [done|]. breflect.
    cbn [map_err mbind result_bind].
    destruct (read_packet_header limit _) as [c' [h|]] eqn:Er; [|done].
    destruct (consumes_packet_header limit [] inp c' h Hb Er) as (w & rest & -> & -> & Hh & ->).
    cbn [offset]. change (zlen (@nil Z)) with 0. rewrite Z.add_0_l. apply Forall_app in Hb as [_ Hb].
    intros (<- & -> & Ho & Hob & Hp & ->)%finish_packet_iff; [|done|lia|done].
    split_and!; [|done|done]. by constructor.
  - intros ([Hh Ho Hob Hp Ht] & -> & ->). unfold packet_bytes in *.
    destruct (_ >? _) eqn:E1; breflect; [lia|]. destruct (_ <? _) eqn:E2; breflect.
    { rewrite zlen_app, zlen_packet_header in E2. pose proof (zlen_nonneg (sp_nacks p)).
      pose proof (zlen_nonneg (sp_option_bytes p ++ sp_payload p)). cbn in E2. lia. }
    cbn [map_err mbind result_bind].
    pose proof (reads_packet_header limit _ Hh [] (sp_option_bytes p ++ sp_payload p)) as Hr.
    cbn [app] in Hr. change (zlen (@nil Z)) with 0 in Hr. rewrite Hr by lia. cbn [offset].
    rewrite Z.add_0_l. apply Forall_app in Hb as [_ Hb]. apply finish_packet_iff; [done|lia|done|]. done.
Qed.

Lemma encode_packet_ok limit peer p :
  packet_ok limit peer p → max_packet_bytes limit ≤ usize_max →
  encode_streaming_packet (builder_of p) limit = Ok (packet_bytes p).
Proof.
  intros [Hh Ho Hob Hp Ht] Hmax. unfold encode_streaming_packet.
  cbn [pb_nacks pb_option_bytes pb_payload builder_of].
  pose proof Hh as [H1 H2 H3 H4 H5 H6 H7 H8 H9 H10 H11 H12].
  cbn [hd_nacks hd_option_size header_of] in *. unfold packet_bytes in *.
  rewrite !zlen_app, zlen_packet_header in Ht. cbn [hd_nacks header_of] in Ht.
  pose proof (zlen_nonneg (sp_payload p)). pose proof (zlen_nonneg (sp_option_bytes p)).
  destruct (_ >? max_nack_count limit) eqn:E1; breflect; [lia|].
  destruct (_ >? max_option_bytes limit) eqn:E2; breflect; [lia|].
  destruct (_ >? max_payload_bytes limit) eqn:E3; breflect; [lia|].
  unfold checked_add. rewrite (proj2 (Z.leb_le (_ + zlen (sp_nacks p) * 4) usize_max)) by lia.
  cbn [ok_or mbind result_bind option_bind].
  rewrite (proj2 (Z.leb_le (_ + zlen (sp_option_bytes p)) usize_max)) by lia. cbn [mbind option_bind].
  rewrite (proj2 (Z.leb_le (_ + zlen (sp_payload p)) usize_max)) by lia. cbn [ok_or mbind result_bind].
  destruct (_ >? max_packet_bytes limit) eqn:E4; breflect; [lia|].
  rewrite (encode_to_vec_writes _ (packet_header_bytes (header_of p) ++ sp_option_bytes p)); [| | |done].
  - cbn [map_err mbind result_bind]. by rewrite <- (assoc_L app).
  - unfold write_packet_header, packet_header_bytes, try_from. cbn [builder_of pb_send_stream_id
      pb_receive_stream_id pb_sequence_num pb_ack_through pb_nacks pb_resend_delay pb_flags pb_option_bytes].
    rewrite (proj2 (Z.leb_le (zlen (sp_nacks p)) u8_max)) by lia.
    unfold fits in H11. rewrite (proj2 (Z.leb_le (zlen (sp_option_bytes p)) u16_max)) by (unfold u16_max; lia).
    rewrite <- !(assoc_L app). do 5 (apply writes_bind; [apply writes_write|]).
    apply writes_bind; [by apply (writes_each u32_canonical)|].
    do 3 (apply writes_bind; [apply writes_write|]). apply writes_write.
  - rewrite zlen_app, zlen_packet_header. cbn. lia.
Qed.

(** ** Signing *)
Definition with_signature (sig : option bytes) (o : StreamingOptions) : StreamingOptions :=
  mkOptions (so_delay_requested o) (so_from_destination o) (so_max_payload_size o) sig.
Definition with_options (o : StreamingOptions) (p : StreamingPacket) : StreamingPacket :=
  mkPacket (sp_send_stream_id p) (sp_receive_stream_id p) (sp_sequence_num p) (sp_ack_through p)
    (sp_nacks p) (sp_resend_delay p) (sp_flags p) (options_bytes o) o (sp_payload p).

Lemma encode_with_placeholder_ok flags peer o sig :
  options_ok flags peer (with_signature (Some sig) o) → zlen (unsigned_option_bytes o) ≤ u16_max →
  zlen (unsigned_option_bytes o) + zlen sig ≤ MAX_STREAMING_OPTION_BYTES →
  encode_with_placeholder (with_signature None o) flags (zlen sig) =
  Ok (unsigned_option_bytes o ++ repeat 0 (length sig)).
Proof.
  intros [H1 H2 H3 Ho H4] Hu Hl. unfold encode_with_placeholder.
  cbn [so_signature with_signature so_delay_requested so_from_destination so_max_payload_size] in *.
  assert (Hs : PacketFlags.signature_included flags = true).
  { unfold signature_field in H4. cbn in H4. destruct (PacketFlags.signature_included flags); [done|].
    by destruct H4 as [? _]. }
  rewrite Ho, Hs.
  assert (E1 : (if PacketFlags.delay_requested flags then
      delay ← ok_or (SpLengthExceeded "delay requested option" 0 0) (so_delay_requested o); Ok (to_be 2 delay)
      else Ok []) = Ok (delay_bytes o)).
  { unfold u16_field in H1. destruct (PacketFlags.delay_requested flags);
      [destruct H1 as (n & Hn & _)|destruct H1 as [Hn _]]; unfold delay_bytes; by rewrite Hn. }
  assert (E3 : (if PacketFlags.max_packet_size_included flags then
      max ← ok_or SpSynMissingMaxPacketSize (so_max_payload_size o); Ok (to_be 2 max)
      else Ok []) = Ok (size_bytes o)).
  { unfold u16_field in H3. destruct (PacketFlags.max_packet_size_included flags);
      [destruct H3 as (n & Hn & _)|destruct H3 as [Hn _]]; unfold size_bytes; by rewrite Hn. }
  assert (E2 : (if PacketFlags.from_included flags then
      destination ← ok_or SpSynMissingFrom (so_from_destination o);
      map_err packet_error_from (destination_encode destination MAX_COMMON_STRUCTURE_SIZE)
      else Ok []) = Ok (from_bytes o)).
  { unfold from_field in H2. destruct (PacketFlags.from_included flags);
      [destruct H2 as (d & Hd & Hok & _)|destruct H2 as [Hn _]; unfold from_bytes; by rewrite Hn].
    unfold from_bytes. rewrite Hd. cbn [ok_or mbind result_bind from_option].
    unfold unsigned_option_bytes, from_bytes in Hu. rewrite Hd in Hu. cbn [from_option] in Hu.
    rewrite !zlen_app in Hu. pose proof (zlen_nonneg (delay_bytes o)). pose proof (zlen_nonneg (size_bytes o)).
    rewrite destination_encode_bytes; [done|done|]. unfold MAX_COMMON_STRUCTURE_SIZE, u16_max in *. lia. }
  rewrite E1. cbn [mbind result_bind]. rewrite E2. cbn [mbind result_bind]. rewrite E3.
  cbn [mbind result_bind]. cbv zeta.
  replace (delay_bytes o ++ from_bytes o ++ size_bytes o ++ repeat 0 (Z.to_nat (zlen sig)))
    with (unsigned_option_bytes o ++ repeat 0 (length sig)).
  2: { unfold unsigned_option_bytes, zlen. by rewrite Nat2Z.id, <- !(assoc_L app). }
  assert (Hrep : zlen (repeat 0 (length sig)) = zlen sig) by (unfold zlen; by rewrite repeat_length).
  destruct (zlen _ >? _) eqn:E; breflect; [rewrite zlen_app, Hrep in E; lia|done].
Qed.

Lemma zero_range_repeat n : is_zero_range (repeat 0 n) = true.
Proof. induction n; [done|]. cbn. done. Qed.

Lemma packet_ok_resigned limit peer p sig sig' :
  packet_ok limit peer p → so_signature (sp_options p) = Some sig → length sig' = length sig →
  packet_ok limit peer (with_options (with_signature (Some sig') (sp_options p)) p).
Proof.
  intros [Hh Ho Hob Hp Ht] Hs Hl. set (o := sp_options p) in *.
  assert (Hz : zlen sig' = zlen sig) by (unfold zlen; lia).
  assert (Hlen : zlen (options_bytes (with_signature (Some sig') o)) = zlen (sp_option_bytes p)).
  { rewrite Hob. unfold options_bytes. rewrite Hs.
    change (unsigned_option_bytes (with_signature (Some sig') o)) with (unsigned_option_bytes o).
    cbn [default from_option id with_signature so_signature]. rewrite !zlen_app. unfold default, id. lia. }
  assert (Hhd : header_of (with_options (with_signature (Some sig') o) p) = header_of p).
  { unfold header_of, with_options. cbn [sp_send_stream_id sp_receive_stream_id sp_sequence_num
      sp_ack_through sp_nacks sp_resend_delay sp_flags sp_option_bytes]. by rewrite Hlen. }
  constructor.
  - by rewrite Hhd.
  - destruct Ho as [H1 H2 H3 H4 H5]. rewrite Hs in H5. constructor; try done. cbn in *.
    unfold signature_field in *. destruct (PacketFlags.signature_included _); [|by destruct H5].
    split; [done|]. rewrite Hz. by destruct H5.
  - done.
  - done.
  - unfold packet_bytes in *. rewrite Hhd. cbn [with_options sp_option_bytes sp_payload].
    rewrite !zlen_app in *. by rewrite Hlen.
Qed.

(** A signed packet and the same packet before it was signed differ in the
    signature only. *)
Lemma packet_bytes_signature limit peer p sig sig' :
  packet_ok limit peer p → so_signature (sp_options p) = Some sig → length sig' = length sig →
  packet_bytes (with_options (with_signature (Some sig') (sp_options p)) p) =
  (packet_header_bytes (header_of p) ++ unsigned_option_bytes (sp_options p)) ++ sig' ++ sp_payload p.
Proof.
  intros [_ _ Hob _ _] Hs Hl. unfold packet_bytes, header_of, with_options.
  cbn [sp_send_stream_id sp_receive_stream_id sp_sequence_num sp_ack_through sp_nacks sp_resend_delay
    sp_flags sp_option_bytes sp_payload].
  unfold options_bytes at 2.
  change (unsigned_option_bytes (with_signature (Some sig') (sp_options p)))
    with (unsigned_option_bytes (sp_options p)).
  assert (Hlen : zlen (options_bytes (with_signature (Some sig') (sp_options p))) = zlen (sp_option_bytes p)).
  { rewrite Hob. unfold options_bytes. rewrite Hs.
    change (unsigned_option_bytes (with_signature (Some sig') (sp_options p)))
      with (unsigned_option_bytes (sp_options p)).
    cbn [with_signature so_signature]. rewrite !zlen_app. unfold zlen, default, id. lia. }
  rewrite Hlen. cbn [with_signature so_signature]. unfold default, id. by rewrite <- !(assoc_L app).
Qed.

Lemma install_at_ok pre zeros post sig :
  zeros = repeat 0 (length sig) → zlen sig ≠ 0 → zlen (pre ++ zeros ++ post) ≤ usize_max →
  install_packet_signature_at (pre ++ zeros ++ post) (mkLocation (zlen pre) (zlen sig)) sig =
  Ok (pre ++ sig ++ post, zlen pre).
Proof.
  intros -> Hne Hu. unfold install_packet_signature_at, checked_add. cbn [loc_length loc_offset].
  assert (Hrep : zlen (repeat 0 (length sig)) = zlen sig) by (unfold zlen; by rewrite repeat_length).
  rewrite !zlen_app, Hrep in *. pose proof (zlen_nonneg post). rewrite Z.eqb_refl.
  destruct (zlen sig =? 0) eqn:E; breflect; [done|]. cbn [orb negb].
  destruct (_ <=? usize_max) eqn:E1; breflect; [|lia]. cbn [ok_or mbind result_bind].
  destruct (_ >? _) eqn:E2; breflect; [lia|].
  rewrite slice_app_eq by (rewrite ?Hrep; done). rewrite zero_range_repeat. cbn [negb].
  unfold zlen at 1. rewrite Nat2Z.id, take_app_length. do 2 f_equal. f_equal.
  rewrite (assoc_L app), drop_app_length'; [done|].
  rewrite length_app, repeat_length. unfold zlen. lia.
Qed.

Lemma preimage_at pre sig post :
  zlen (pre ++ sig ++ post) ≤ usize_max →
  build_signature_preimage (pre ++ sig ++ post) (Some (mkLocation (zlen pre) (zlen sig))) =
  pre ++ repeat 0 (length sig) ++ post.
Proof.
  intros Hu. unfold build_signature_preimage, checked_add. cbn [loc_length loc_offset].
  rewrite !zlen_app in *. pose proof (zlen_nonneg post). pose proof (zlen_nonneg sig).
  destruct (_ <=? usize_max) eqn:E1; breflect; [|lia]. cbn [default from_option id].
  rewrite (proj2 (Z.leb_le (zlen pre) _)) by lia. unfold default, id.
  rewrite (proj2 (Z.leb_le (zlen pre + zlen sig) _)) by lia. cbn [andb].
  unfold zlen. rewrite !Nat2Z.id, drop_app_length, !take_app_length, drop_app_length. done.
Qed.

(** ** Properties *)

(** C32: streaming packets have one encoding.  An input is decoded to a packet
    exactly when the packet is well formed (fields in range, no reserved flag,
    NACK, option and payload sizes within the limits, and an option region
    with exactly the fields the flags announce, the signature as long as the
    sender's key requires) and encodes to that very input; the reported location of
    the signature is where it is. *)
Theorem streaming_packet_exact inp limit peer p loc
    (Hb : bytes_ok inp) (Hmax : max_packet_bytes limit ≤ usize_max) :
  decode_streaming_packet inp limit peer = Ok (p, loc) ↔
  packet_ok limit peer p ∧ encode_streaming_packet (builder_of p) limit = Ok inp ∧
  loc = packet_location p.
Proof.
  rewrite decode_packet_iff by done. split.
  - intros (Hok & -> & ->). split_and!; [done| |done]. by eapply encode_packet_ok.
  - intros (Hok & He & ->). rewrite (encode_packet_ok limit peer p Hok Hmax) in He.
    apply Ok_inj in He as <-. done.
Qed.

(** The receiver verifies what the sender signed.  For every well-formed
    packet that carries a signature, the sender's way of making it (options with
    a zeroed signature, encode, install the signature in place) gives the
    packet's bytes; the receiver decodes them to that packet, and the bytes it checks
    the signature against are the bytes the sender had before signing. *)
Theorem signed_packet_agreement limit peer p sig
    (Hok : packet_ok limit peer p) (Hs : so_signature (sp_options p) = Some sig)
    (Hmax : max_packet_bytes limit ≤ usize_max) (Hb : bytes_ok (packet_bytes p))
    (Hopt : zlen (sp_option_bytes p) ≤ MAX_STREAMING_OPTION_BYTES) :
  ∃ placeholder unsigned_wire loc,
    encode_with_placeholder (with_signature None (sp_options p)) (sp_flags p) (zlen sig) = Ok placeholder ∧
    encode_streaming_packet
      (mkBuilder (sp_send_stream_id p) (sp_receive_stream_id p) (sp_sequence_num p) (sp_ack_through p)
         (sp_nacks p) (sp_resend_delay p) (sp_flags p) placeholder (sp_payload p)) limit = Ok unsigned_wire ∧
    install_packet_signature_at unsigned_wire loc sig = Ok (packet_bytes p, loc_offset loc) ∧
    decode_streaming_packet (packet_bytes p) limit peer = Ok (p, Some loc) ∧
    build_signature_preimage (packet_bytes p) (Some loc) = unsigned_wire.
Proof.
  set (zeros := repeat 0 (length sig)). assert (Hz : length zeros = length sig) by apply repeat_length.
  set (p0 := with_options (with_signature (Some zeros) (sp_options p)) p).
  set (pre := packet_header_bytes (header_of p) ++ unsigned_option_bytes (sp_options p)).
  pose proof (packet_ok_resigned limit peer p sig zeros Hok Hs Hz) as Hok0. fold p0 in Hok0.
  pose proof (packet_bytes_signature limit peer p sig zeros Hok Hs Hz) as Hw0. fold p0 pre in Hw0.
  assert (Hp : p = with_options (with_signature (Some sig) (sp_options p)) p).
  { destruct Hok as [_ _ Hob _ _]. unfold with_options, with_signature. rewrite <- Hs.
    destruct p as [? ? ? ? ? ? ? ob [? ? ? ?] ?]. cbn in *. by rewrite Hob. }
  pose proof (packet_bytes_signature limit peer p sig sig Hok Hs eq_refl) as Hw. rewrite <- Hp in Hw. fold pre in Hw.
  pose proof Hok as [Hh Ho Hob _ Ht]. rewrite Hob in Hopt. unfold options_bytes in Hopt. rewrite Hs in Hopt.
  cbn [default from_option id] in Hopt. rewrite zlen_app in Hopt.
  assert (Hne : 0 < zlen sig ∧ zlen (unsigned_option_bytes (sp_options p)) ≤ u16_max).
  { pose proof (oo_signature _ _ _ Ho) as Hsf. rewrite Hs in Hsf. unfold signature_field in Hsf. cbn in Hsf.
    destruct (PacketFlags.signature_included _); [|by destruct Hsf].
    destruct Hsf as [_ Hsf%expected_signature_len_bounds]. unfold MAX_STREAMING_OPTION_BYTES, u16_max in *. lia. }
  assert (Hloc : packet_location p = Some (mkLocation (zlen pre) (zlen sig))).
  { unfold packet_location, signature_location. rewrite Hs. cbn [fmap option_fmap option_map]. unfold pre.
    by rewrite zlen_app, zlen_packet_header. }
  exists (unsigned_option_bytes (sp_options p) ++ zeros), (packet_bytes p0), (mkLocation (zlen pre) (zlen sig)).
  split_and!.
  - apply (encode_with_placeholder_ok _ peer); [|lia|lia]. destruct Ho; constructor; try done. by rewrite <- Hs.
  - pose proof (encode_packet_ok limit peer p0 Hok0 Hmax) as He. done.
  - rewrite Hw0, Hw in *. apply install_at_ok; [done|lia|]. unfold zlen in *. rewrite !length_app, Hz in *. lia.
  - apply decode_packet_iff; [done|done|]. by rewrite Hloc.
  - rewrite Hw0. rewrite Hw in *. apply preimage_at. lia.
Qed.

(** *** The replay binding *)
Lemma words_of_concat n bs :
  bytes_ok bs → length bs = (4 * n)%nat → concat (to_be 4 <$> words_of n bs) = bs.
Proof.
  revert bs. induction n as [|n IH]; intros bs Hb Hl; [by destruct bs|].
  cbn [words_of fmap list_fmap concat].
  assert (Ht : length (take 4 bs) = 4%nat) by (rewrite length_take; lia).
  rewrite <- Ht at 1. rewrite to_from_be by (by apply Forall_take). rewrite IH.
  - apply take_drop.
  - by apply Forall_drop.
  - rewrite length_drop. lia.
Qed.

Lemma words_of_inj n l bs :
  Forall (fits 32) l → length l = n → concat (to_be 4 <$> l) = bs → words_of n bs = l.
Proof.
  revert n bs. induction l as [|x l IH]; intros n bs Hf Hl Hc; cbn in Hl; subst n; [done|].
  apply Forall_cons in Hf as [Hx Hf]. rewrite fmap_cons in Hc. cbn [concat] in Hc. subst bs.
  cbn [words_of length]. assert (Ht : length (to_be 4 x) = 4%nat) by apply length_to_be.
  rewrite take_app_length', drop_app_length' by done. f_equal; [by apply from_to_be|by apply IH].
Qed.

(** A SYN is bound to one receiver.  A SYN passes validation at the holder of
    a destination hash exactly when it carries all the fields a SYN must and
    its NACK words are the encoding of that very hash, so a SYN accepted by one
    destination is refused by every other. *)
Theorem initial_syn_bound p hash
    (Hn : Forall (fits 32) (sp_nacks p)) (Hb : bytes_ok hash) (Hl : zlen hash = 32) :
  validate_initial_syn p hash = Ok () ↔
  PacketFlags.synchronize (sp_flags p) = true ∧ PacketFlags.from_included (sp_flags p) = true ∧
  PacketFlags.signature_included (sp_flags p) = true ∧
  PacketFlags.max_packet_size_included (sp_flags p) = true ∧
  sp_nacks p = encode_syn_replay_binding hash ∧ concat (to_be 4 <$> sp_nacks p) = hash.
Proof.
  assert (Hcat : concat (to_be 4 <$> encode_syn_replay_binding hash) = hash).
  { apply words_of_concat; [done|]. change (Z.to_nat SYN_REPLAY_NACK_COUNT) with 8%nat. unfold zlen in Hl. lia. }
  unfold validate_initial_syn, verify_syn_replay_binding.
  destruct (PacketFlags.synchronize _); cbn [negb]; [|naive_solver].
  destruct (PacketFlags.from_included _); cbn [negb]; [|naive_solver].
  destruct (PacketFlags.signature_included _); cbn [negb]; [|naive_solver].
  destruct (PacketFlags.max_packet_size_included _); cbn [negb]; [|naive_solver].
  split.
  - destruct (_ =? _) eqn:E; [|done]. cbn [negb mbind result_bind]. breflect.
    destruct (bool_decide _) eqn:Ed; [|done]. intros _. apply bool_decide_eq_true in Ed.
    split_and!; [done..| |done]. symmetry. apply words_of_inj; [done| |done].
    unfold zlen, SYN_REPLAY_NACK_COUNT in *. lia.
  - intros (_ & _ & _ & _ & Heq & _). rewrite Heq. change (zlen (encode_syn_replay_binding hash) =? _) with true.
    cbn [negb mbind result_bind]. rewrite Hcat, bool_decide_true by done. done.
Qed.

(** ** Witnesses: a SYN from the sample destination *)
Definition sample_syn_options : StreamingOptions :=
  mkOptions None (Some (mkDestination sample_keys)) (Some 1812) (Some (repeat 7 64)).
Definition sample_syn : StreamingPacket :=
  mkPacket 0 77 0 0 (encode_syn_replay_binding (repeat 3 32)) 0 INITIAL_SYN_FLAGS
    (options_bytes sample_syn_options) sample_syn_options [1; 2; 3].

Lemma sample_syn_ok : packet_ok limit_default None sample_syn.
Proof.
  eapply (decode_packet_iff (packet_bytes sample_syn) limit_default None sample_syn).
  - apply bytes_okb. vm_compute. reflexivity.
  - vm_compute. discriminate.
  - vm_compute. reflexivity.
Qed.

Lemma streaming_packet_exact_witness :
  packet_ok limit_default None sample_syn.
Proof.
  apply (streaming_packet_exact (packet_bytes sample_syn) limit_default None sample_syn
    (packet_location sample_syn)).
  - apply bytes_okb. vm_compute. reflexivity.
  - vm_compute. discriminate.
  - vm_compute. reflexivity.
Defined.

Lemma signed_packet_agreement_witness :
  ∃ placeholder unsigned_wire loc,
    encode_with_placeholder (with_signature None sample_syn_options) INITIAL_SYN_FLAGS 64 = Ok placeholder ∧
    encode_streaming_packet
      (mkBuilder 0 77 0 0 (encode_syn_replay_binding (repeat 3 32)) 0 INITIAL_SYN_FLAGS placeholder [1; 2; 3])
      limit_default = Ok unsigned_wire ∧
    install_packet_signature_at unsigned_wire loc (repeat 7 64) = Ok (packet_bytes sample_syn, loc_offset loc) ∧
    decode_streaming_packet (packet_bytes sample_syn) limit_default None = Ok (sample_syn, Some loc) ∧
    build_signature_preimage (packet_bytes sample_syn) (Some loc) = unsigned_wire.
Proof.
  apply (signed_packet_agreement limit_default None sample_syn (repeat 7 64)).
  - apply sample_syn_ok.
  - reflexivity.
  - vm_compute. discriminate.
  - apply bytes_okb. vm_compute. reflexivity.
  - vm_compute. discriminate.
Defined.

Lemma initial_syn_bound_witness :
  sp_nacks sample_syn = encode_syn_replay_binding (repeat 3 32).
Proof.
  apply (initial_syn_bound sample_syn (repeat 3 32)).
  - repeat (constructor; [by vm_compute|]). constructor.
  - apply bytes_okb. reflexivity.
  - reflexivity.
  - vm_compute. reflexivity.
Defined.
