(* ===== verification/StreamConfig.v ===== *)
(** * Streaming configuration

    Models [src/crates/i2pr-client/src/streaming/config.rs]: the limits of a
    streaming connection and the constructor that enforces every ceiling. *)
From S2P Require Import Prelude.

Definition MAX_PACKET_PAYLOAD_BYTES : Z := 2048.
Definition MAX_ADVERTISED_PACKET_PAYLOAD_BYTES : Z := 1812.
Definition MAX_INBOUND_PENDING_STREAMS : Z := 64.
Definition MAX_OUTBOUND_PENDING_STREAMS : Z := 64.
Definition MAX_STREAMS_PER_DESTINATION_LIMIT : Z := 256.
Definition MAX_LISTENER_BACKLOG : Z := 64.
Definition MAX_SEND_WINDOW_PACKETS : Z := 128.
Definition MAX_RECV_WINDOW_PACKETS : Z := 128.
Definition MAX_UNACKED_PACKETS : Z := 256.
Definition MAX_RETRANSMIT_COUNT : Z := 16.
Definition MAX_PRE_SYN_BUFFER : Z := 8.
Definition DEFAULT_SETUP_TIMEOUT_MS : Z := 30000.
Definition DEFAULT_IDLE_TIMEOUT_MS : Z := 300000.
Definition DEFAULT_CLOSE_TIMEOUT_MS : Z := 10000.
Definition DEFAULT_DELAYED_ACK_MS : Z := 750.
Definition MAX_DELAYED_ACK_MS : Z := 60000.

Record StreamingConfig := mkStreamingConfig {
  max_streams_per_destination : Z;
  max_inbound_pending : Z;
  max_outbound_pending : Z;
  max_listener_backlog : Z;
  max_send_window_packets : Z;
  max_recv_window_packets : Z;
  max_unacked_packets : Z;
  max_retransmit_count : Z;
  setup_timeout_ms : Z;
  idle_timeout_ms : Z;
  close_timeout_ms : Z;
  delayed_ack_ms : Z;
  max_pre_syn_buffer : Z;
}.

Inductive StreamingConfigError :=
  | ZeroMaxStreamsPerDestination
  | MaxStreamsExceedsLimit (actual maximum : Z)
  | ZeroMaxInboundPending
  | InboundPendingExceedsLimit (actual maximum : Z)
  | ZeroMaxOutboundPending
  | OutboundPendingExceedsLimit (actual maximum : Z)
  | ListenerBacklogExceedsLimit (actual maximum : Z)
  | ZeroSendWindow
  | SendWindowExceedsLimit (actual maximum : Z)
  | ZeroRecvWindow
  | RecvWindowExceedsLimit (actual maximum : Z)
  | ZeroMaxUnacked
  | UnackedExceedsLimit (actual maximum : Z)
  | ZeroMaxRetransmit
  | RetransmitExceedsLimit (actual maximum : Z)
  | ZeroSetupTimeout
  | ZeroIdleTimeout
  | ZeroCloseTimeout
  | ZeroDelayedAck
  | DelayedAckExceedsLimit (actual maximum : Z)
  | PreSynBufferExceedsLimit (actual maximum : Z).

(** [StreamingConfig::try_new]: the arguments are the fields of [c]. *)
Definition try_new (c : StreamingConfig) : result StreamingConfigError StreamingConfig :=
  if max_streams_per_destination c =? 0 then Err ZeroMaxStreamsPerDestination
  else if max_streams_per_destination c >? MAX_STREAMS_PER_DESTINATION_LIMIT
  then Err (MaxStreamsExceedsLimit (max_streams_per_destination c)
              MAX_STREAMS_PER_DESTINATION_LIMIT)
  else if max_inbound_pending c =? 0 then Err ZeroMaxInboundPending
  else if max_inbound_pending c >? MAX_INBOUND_PENDING_STREAMS
  then Err (InboundPendingExceedsLimit (max_inbound_pending c) MAX_INBOUND_PENDING_STREAMS)
  else if max_outbound_pending c =? 0 then Err ZeroMaxOutboundPending
  else if max_outbound_pending c >? MAX_OUTBOUND_PENDING_STREAMS
  then Err (OutboundPendingExceedsLimit (max_outbound_pending c) MAX_OUTBOUND_PENDING_STREAMS)
  else if max_listener_backlog c >? MAX_LISTENER_BACKLOG
  then Err (ListenerBacklogExceedsLimit (max_listener_backlog c) MAX_LISTENER_BACKLOG)
  else if max_send_window_packets c =? 0 then Err ZeroSendWindow
  else if max_send_window_packets c >? MAX_SEND_WINDOW_PACKETS
  then Err (SendWindowExceedsLimit (max_send_window_packets c) MAX_SEND_WINDOW_PACKETS)
  else if max_recv_window_packets c =? 0 then Err ZeroRecvWindow
  else if max_recv_window_packets c >? MAX_RECV_WINDOW_PACKETS
  then Err (RecvWindowExceedsLimit (max_recv_window_packets c) MAX_RECV_WINDOW_PACKETS)
  else if max_unacked_packets c =? 0 then Err ZeroMaxUnacked
  else if max_unacked_packets c >? MAX_UNACKED_PACKETS
  then Err (UnackedExceedsLimit (max_unacked_packets c) MAX_UNACKED_PACKETS)
  else if max_retransmit_count c =? 0 then Err ZeroMaxRetransmit
  else if max_retransmit_count c >? MAX_RETRANSMIT_COUNT
  then Err (RetransmitExceedsLimit (max_retransmit_count c) MAX_RETRANSMIT_COUNT)
  else if setup_timeout_ms c =? 0 then Err ZeroSetupTimeout
  else if idle_timeout_ms c =? 0 then Err ZeroIdleTimeout
  else if close_timeout_ms c =? 0 then Err ZeroCloseTimeout
  else if delayed_ack_ms c =? 0 then Err ZeroDelayedAck
  else if delayed_ack_ms c >? MAX_DELAYED_ACK_MS
  then Err (DelayedAckExceedsLimit (delayed_ack_ms c) MAX_DELAYED_ACK_MS)
  else if max_pre_syn_buffer c >? MAX_PRE_SYN_BUFFER
  then Err (PreSynBufferExceedsLimit (max_pre_syn_buffer c) MAX_PRE_SYN_BUFFER)
  else Ok c.

(** [.expect(..)] of a successful [try_new] is its argument. *)
Definition balanced : StreamingConfig :=
  mkStreamingConfig 64 32 32 16 64 64 128 8 DEFAULT_SETUP_TIMEOUT_MS DEFAULT_IDLE_TIMEOUT_MS
    DEFAULT_CLOSE_TIMEOUT_MS DEFAULT_DELAYED_ACK_MS 4.
Definition interactive : StreamingConfig :=
  mkStreamingConfig 64 32 32 16 16 16 32 8 DEFAULT_SETUP_TIMEOUT_MS DEFAULT_IDLE_TIMEOUT_MS
    DEFAULT_CLOSE_TIMEOUT_MS 100 4.

(** What every configuration built by [try_new] satisfies, as the components of
    a connection rely on it. *)
Class ConfigOk (c : StreamingConfig) : Prop := {
  cfg_send_window : 1 ≤ max_send_window_packets c ≤ MAX_SEND_WINDOW_PACKETS;
  cfg_recv_window : 1 ≤ max_recv_window_packets c ≤ MAX_RECV_WINDOW_PACKETS;
  cfg_retransmit : 1 ≤ max_retransmit_count c ≤ MAX_RETRANSMIT_COUNT;
  cfg_setup : fits 64 (setup_timeout_ms c) ∧ setup_timeout_ms c ≠ 0;
  cfg_idle : fits 64 (idle_timeout_ms c) ∧ idle_timeout_ms c ≠ 0;
  cfg_close : fits 64 (close_timeout_ms c) ∧ close_timeout_ms c ≠ 0;
}.

(** The ranges of the argument types. *)
Record config_typed (c : StreamingConfig) : Prop := {
  ct_u16 : Forall (fits 16)
    [max_streams_per_destination c; max_inbound_pending c; max_outbound_pending c;
     max_listener_backlog c; max_send_window_packets c; max_recv_window_packets c;
     max_unacked_packets c; max_pre_syn_buffer c];
  ct_u8 : fits 8 (max_retransmit_count c);
  ct_u64 : Forall (fits 64)
    [setup_timeout_ms c; idle_timeout_ms c; close_timeout_ms c; delayed_ack_ms c];
}.

Lemma try_new_ok c c' : config_typed c → try_new c = Ok c' → c' = c ∧ ConfigOk c.
Proof.
  intros [H16 H8 H64]. unfold try_new.
  repeat (case_match; breflect; [discriminate|]). intros <-%Ok_inj. split; [done|].
  rewrite !Forall_cons in H16. rewrite !Forall_cons in H64. unfold fits in *.
  constructor; (split_and!; lia || (unfold fits; lia)).
Qed.

Lemma balanced_accepted : try_new balanced = Ok balanced.
Proof. reflexivity. Qed.
Lemma interactive_accepted : try_new interactive = Ok interactive.
Proof. reflexivity. Qed.

#[export] Instance balanced_ok : ConfigOk balanced.
Proof. constructor; vm_compute; split_and!; congruence. Qed.
#[export] Instance interactive_ok : ConfigOk interactive.
Proof. constructor; vm_compute; split_and!; congruence. Qed.
