(* ===== verification/RecvWindow.v ===== *)
(** * The receive window

    Models [src/crates/i2pr-client/src/streaming/recv_window.rs]: in-order
    delivery of a packet stream with duplicates and reordering, the bound on the
    reorder buffer, and the acknowledgement state that goes back to the sender. *)
From S2P Require Import Prelude BTree StreamConfig.

Definition MAX_NACK_COUNT : Z := 255.
Definition FIRST_EXPECTED_APPLICATION_SEQUENCE : Z := 1.

Record RecvWindowConfig := mkRecvConfig { max_window_packets : Z }.
Definition from_config (config : StreamingConfig) : RecvWindowConfig :=
  mkRecvConfig (max_recv_window_packets config).

Record ReorderEntry := mkEntry { sequence : Z; payload : bytes }.

Inductive RecvWindowDecision :=
  | Delivered (sequence : Z) (delivered : list ReorderEntry)
  | Buffered (sequence : Z)
  | Duplicate (sequence : Z)
  | TooFarAhead (sequence : Z).

Record RecvWindowPolicy := mkRecvWindow {
  config : RecvWindowConfig;
  reorder : gmap Z ReorderEntry;
  next_expected : Z;
  delivered_count : Z;
  highest_received : option Z;
}.

Definition new (config : RecvWindowConfig) : RecvWindowPolicy :=
  mkRecvWindow config ∅ FIRST_EXPECTED_APPLICATION_SEQUENCE 0 None.

Definition note_accepted_sequence (seq : Z) (w : RecvWindowPolicy) : RecvWindowPolicy :=
  mkRecvWindow (config w) (reorder w) (next_expected w) (delivered_count w)
    (Some (match highest_received w with Some highest => Z.max highest seq | None => seq end)).

(** The loop that removes contiguous entries from the reorder buffer.  Every
    round removes an entry, so the number of entries is enough [fuel]. *)
Fixpoint drain (fuel : nat) (w : RecvWindowPolicy) : RecvWindowPolicy * list ReorderEntry :=
  match fuel with
  | O => (w, [])
  | S fuel' =>
    match reorder w !! next_expected w with
    | None => (w, [])
    | Some entry =>
        let w' := mkRecvWindow (config w) (delete (next_expected w) (reorder w))
                    (wrapping_add 32 (next_expected w) 1)
                    (saturating_add u64_max (delivered_count w) 1) (highest_received w) in
        let '(w'', rest) := drain fuel' w' in
        (w'', entry :: rest)
    end
  end.

Definition receive (seq : Z) (pl : bytes) (w : RecvWindowPolicy)
    : RecvWindowPolicy * RecvWindowDecision :=
  if seq <? next_expected w then (w, Duplicate seq)
  else if seq =? next_expected w then
    let w1 := note_accepted_sequence seq w in
    let w2 := mkRecvWindow (config w1) (reorder w1) (wrapping_add 32 (next_expected w1) 1)
                (saturating_add u64_max (delivered_count w1) 1) (highest_received w1) in
    let '(w3, drained) := drain (size (reorder w2)) w2 in
    (w3, Delivered seq (mkEntry seq pl :: drained))
  else
    let max_sequence := saturating_add u32_max (next_expected w) (max_window_packets (config w)) in
    if seq >=? max_sequence then (w, TooFarAhead seq)
    else
    let w1 := note_accepted_sequence seq w in
    (mkRecvWindow (config w1) (<[seq := mkEntry seq pl]> (reorder w1)) (next_expected w1)
       (delivered_count w1) (highest_received w1), Buffered seq).

(** The [while seq < ack_through] loop: [seq] advances in every round, so
    [ack_through - next_expected] is enough [fuel]. *)
Fixpoint missing_from (fuel : nat) (m : gmap Z ReorderEntry) (seq ack_through limit : Z)
    (missing : list Z) : list Z :=
  match fuel with
  | O => missing
  | S fuel' =>
    if seq <? ack_through then
      if zlen missing >=? limit then missing
      else missing_from fuel' m (wrapping_add 32 seq 1) ack_through limit
             (if bool_decide (is_Some (m !! seq)) then missing else missing ++ [seq])
    else missing
  end.

Definition missing_sequences_bounded (w : RecvWindowPolicy) (ack_through limit : Z) : list Z :=
  missing_from (Z.to_nat (ack_through - next_expected w)) (reorder w) (next_expected w)
    ack_through limit [].

Definition missing_sequences (w : RecvWindowPolicy) (ack_through : Z) : list Z :=
  missing_sequences_bounded w ack_through MAX_NACK_COUNT.

Definition ack_view (w : RecvWindowPolicy) : Z * list Z :=
  match highest_received w with
  | None => (0, [])
  | Some highest =>
      if highest <? next_expected w then (saturating_sub (next_expected w) 1, [])
      else (highest, missing_sequences_bounded w highest MAX_NACK_COUNT)
  end.

Definition reorder_count (w : RecvWindowPolicy) : Z := Z.of_nat (size (reorder w)).

(** ** Invariant *)

(** A state reached from a new window without the sequence counter having
    wrapped: buffered packets lie strictly inside the window, and the highest
    received packet is either delivered or buffered. *)
Record recv_ok (w : RecvWindowPolicy) : Prop := {
  ro_next : 1 ≤ next_expected w ≤ u32_max;
  ro_window : 0 ≤ max_window_packets (config w);
  ro_reorder s e : reorder w !! s = Some e →
    sequence e = s ∧ next_expected w < s < next_expected w + max_window_packets (config w)
    ∧ s < u32_max;
  ro_highest h : highest_received w = Some h →
    1 ≤ h ∧ (h < next_expected w ∨ is_Some (reorder w !! h));
  ro_highest_ge s : is_Some (reorder w !! s) ∨ 1 ≤ s < next_expected w →
    ∃ h, highest_received w = Some h ∧ s ≤ h;
}.

(** A packet sequence number the window has taken in. *)
Definition has_received (w : RecvWindowPolicy) (s : Z) : Prop :=
  1 ≤ s < next_expected w ∨ is_Some (reorder w !! s).

Lemma wrap_succ v : 0 ≤ v < u32_max → wrapping_add 32 v 1 = v + 1.
Proof. unfold wrapping_add, u32_max. intros. apply Z.mod_small. lia. Qed.

Section drain.
Definition drainable (w : RecvWindowPolicy) : Prop :=
  0 ≤ next_expected w ≤ u32_max ∧
  ∀ s e, reorder w !! s = Some e → sequence e = s ∧ next_expected w ≤ s < u32_max.

(** Draining delivers the contiguous run of buffered entries at the front and
    leaves the rest in place; [fuel] is enough to reach the first gap. *)
Lemma drain_spec fuel w :
  drainable w → (size (reorder w) ≤ fuel)%nat →
  let '(w', es) := drain fuel w in
  next_expected w' = next_expected w + zlen es ∧ next_expected w' ≤ u32_max ∧
  sequence <$> es = seqZ (next_expected w) (zlen es) ∧
  Forall (λ e, reorder w !! sequence e = Some e) es ∧
  reorder w' !! next_expected w' = None ∧
  (∀ s, reorder w' !! s = if decide (s < next_expected w') then None else reorder w !! s) ∧
  config w' = config w ∧ highest_received w' = highest_received w ∧
  delivered_count w' = fold_left (λ n _, saturating_add u64_max n 1) es (delivered_count w).
Proof.
  revert w. induction fuel as [|fuel IH]; intros w [Hnext Hre] Hfuel.
  { assert (reorder w = ∅) as He by (apply map_size_empty_iff; lia).
    cbn. rewrite zlen_nil, Z.add_0_r, He. split_and!; try done; [lia|].
    intros s. rewrite lookup_empty. by case_decide. }
  cbn [drain]. destruct (reorder w !! next_expected w) as [entry|] eqn:E.
  2: { rewrite zlen_nil, Z.add_0_r. split_and!; try done; [lia|].
       intros s. case_decide; [|done]. destruct (reorder w !! s) as [e|] eqn:Es; [|done].
       apply Hre in Es. lia. }
  destruct (Hre _ _ E) as [Hseq Hlt].
  rewrite wrap_succ by lia.
  set (w1 := mkRecvWindow _ _ (next_expected w + 1) _ _).
  specialize (IH w1). destruct (drain fuel w1) as [w' es].
  destruct IH as (H1 & H2 & H3 & H4 & H5 & H6 & H7 & H8 & H9).
  { unfold w1. split; cbn [next_expected reorder]; [lia|]. intros s e. intros [Hne Hs]%lookup_delete_Some.
    destruct (Hre s e Hs). split; [done|lia]. }
  { cbn. rewrite map_size_delete_Some by done. lia. }
  cbn in H1, H3, H4, H6, H7, H8, H9. pose proof (zlen_nonneg es). rewrite zlen_cons.
  split_and!; try done.
  - lia.
  - cbn. rewrite H3, Hseq, (seqZ_cons (next_expected w)) by lia. f_equal.
    replace (Z.pred (1 + zlen es)) with (zlen es) by lia. done.
  - constructor; [by rewrite Hseq|]. eapply Forall_impl; [exact H4|]. cbn.
    intros e [_ He]%lookup_delete_Some. done.
  - intros s. rewrite H6. case_decide; [done|]. rewrite lookup_delete_ne by lia. done.
Qed.
End drain.

(** ** One step *)
Definition delivered_by (d : RecvWindowDecision) : list ReorderEntry :=
  match d with Delivered _ es => es | _ => [] end.

(** What receiving packet [seq] does to a window, apart from the invariant. *)
Record receive_effect (w : RecvWindowPolicy) (seq : Z) (pl : bytes)
    (w' : RecvWindowPolicy) (d : RecvWindowDecision) : Prop := {
  re_config : config w' = config w;
  re_mono : next_expected w ≤ next_expected w';
  re_run : sequence <$> delivered_by d =
           seqZ (next_expected w) (next_expected w' - next_expected w);
  re_origin : Forall (λ e, e = mkEntry seq pl ∨ reorder w !! sequence e = Some e)
                (delivered_by d);
  re_buffer s e : reorder w' !! s = Some e → e = mkEntry seq pl ∨ reorder w !! s = Some e;
  re_received s : has_received w' s ↔ has_received w s ∨
    (s = seq ∧ 1 ≤ seq ∧
     (seq = next_expected w ∨ seq < next_expected w + max_window_packets (config w)));
}.

Section receive.
Context (w : RecvWindowPolicy) (seq : Z) (pl : bytes).
Hypothesis Hw : recv_ok w.
Hypothesis Hseq : 0 ≤ seq < u32_max.

Definition top : Z :=
  match highest_received w with Some h => Z.max h seq | None => seq end.

Lemma top_spec :
  seq ≤ top ∧ (highest_received w = Some top ∨ top = seq) ∧
  ∀ h, highest_received w = Some h → h ≤ top.
Proof.
  unfold top. destruct (highest_received w) as [h|]; [|split_and!; [lia|by right|done]].
  split_and!; [lia| |intros ? [= <-]; lia].
  destruct (Z.max_spec h seq) as [[_ ->]|[_ ->]]; auto.
Qed.

(** The parts of the invariant about the highest received packet, for a step
    after which [top] is the highest and [seq] has been taken in. *)
Lemma highest_step w' :
  highest_received w' = Some top → next_expected w ≤ next_expected w' → 1 ≤ seq →
  (∀ s, has_received w' s ↔ has_received w s ∨ s = seq) →
  (∀ h, highest_received w' = Some h →
     1 ≤ h ∧ (h < next_expected w' ∨ is_Some (reorder w' !! h))) ∧
  (∀ s, is_Some (reorder w' !! s) ∨ 1 ≤ s < next_expected w' →
     ∃ h, highest_received w' = Some h ∧ s ≤ h).
Proof.
  intros H8 Hmono Hs1 Hrec. destruct Hw as [Hnext Hwin Hre Hh Hge].
  destruct top_spec as (Htop1 & Htop2 & Htop3). split.
  - intros h. rewrite H8. intros [= <-].
    assert (Hr : has_received w' top).
    { apply Hrec. destruct Htop2 as [Ht| ->]; [|by right]. left.
      apply Hh in Ht as [? [?|?]]; [left; lia|by right]. }
    split; [lia|]. destruct Hr as [?|?]; [left; lia|by right].
  - intros s Hs. rewrite H8. exists top. split; [done|].
    assert (Hr : has_received w' s) by (unfold has_received; tauto).
    apply Hrec in Hr as [Hr| ->]; [|lia].
    destruct (Hge s) as (h & Hhh & ?); [unfold has_received in Hr; tauto|].
    apply Htop3 in Hhh. lia.
Qed.

(** After the expected packet and the drained run, exactly the packets taken
    in before and the new one have been taken in. *)
Lemma drained_received w' es :
  seq = next_expected w →
  next_expected w' = next_expected w + 1 + zlen es →
  sequence <$> es = seqZ (next_expected w + 1) (zlen es) →
  Forall (λ e, reorder w !! sequence e = Some e) es →
  (∀ s, reorder w' !! s = if decide (s < next_expected w') then None else reorder w !! s) →
  ∀ s, has_received w' s ↔ has_received w s ∨ s = seq.
Proof.
  intros Heq H1 H3 H4 H6 s. destruct Hw as [Hnext Hwin Hre Hh Hge].
  pose proof (zlen_nonneg es) as Hz. unfold has_received. rewrite H6. case_decide as Hs.
  - rewrite is_Some_alt. split; [intros [?|[]]|].
    + destruct (decide (s < next_expected w)); [left; left; lia|].
      destruct (decide (s = seq)); [by right|]. left. right.
      assert (Hin : s ∈ sequence <$> es) by (rewrite H3; apply elem_of_seqZ; lia).
      apply list_elem_of_fmap in Hin as (e & -> & He). rewrite Forall_forall in H4.
      exists e. by apply H4.
    + intros [[?|[e He]]|?]; left; [lia| |lia]. apply Hre in He. lia.
  - split; [intros [?|?]; [lia|left; by right]|].
    intros [[?|?]| ?]; [lia|by right|lia].
Qed.

Lemma receive_expected :
  seq = next_expected w →
  let '(w', d) := receive seq pl w in recv_ok w' ∧ receive_effect w seq pl w' d.
Proof.
  intros Heq. pose proof drained_received as Hrec. pose proof highest_step as Hhs.
  destruct Hw as [Hnext Hwin Hre Hh Hge]. unfold receive.
  destruct (_ <? _) eqn:E1; breflect; [lia|]. destruct (_ =? _) eqn:E2; breflect; [|lia].
  clear E1 E2. cbn [reorder note_accepted_sequence config next_expected delivered_count
    highest_received]. rewrite wrap_succ by lia. fold top.
  set (w2 := mkRecvWindow _ _ (next_expected w + 1) _ _).
  pose proof (drain_spec (size (reorder w)) w2) as Hd.
  destruct (drain (size (reorder w)) w2) as [w' es].
  destruct Hd as (H1 & H2 & H3 & H4 & H5 & H6 & H7 & H8 & _).
  { unfold w2. split; cbn [next_expected reorder]; [lia|]. intros s e He. apply Hre in He.
    naive_solver lia. }
  { done. }
  unfold w2 in H1, H3, H4, H6, H7, H8. cbn [next_expected reorder config highest_received] in *.
  pose proof (zlen_nonneg es) as Hz. specialize (Hrec w' es Heq H1 H3 H4 H6).
  destruct (Hhs w' H8 ltac:(lia) ltac:(lia) Hrec) as [Hh' Hge']. split.
  - constructor; [lia|by rewrite H7| |done|done].
    intros s e. rewrite H6, H7. case_decide; [done|]. intros He.
    assert (s ≠ next_expected w').
    { intros ->. rewrite H6 in H5. rewrite decide_False in H5 by lia. congruence. }
    apply Hre in He. naive_solver lia.
  - constructor; cbn [delivered_by].
    + done.
    + lia.
    + cbn [fmap list_fmap]. rewrite (seqZ_cons (next_expected w)) by lia. cbn [sequence].
      rewrite Heq. f_equal. change (list_fmap _ _ sequence es) with (sequence <$> es).
      rewrite H3. f_equal; lia.
    + constructor; [by left|]. eapply Forall_impl; [exact H4|]. auto.
    + intros s e. rewrite H6. case_decide; [done|]. auto.
    + intros s. rewrite Hrec. split; [intros [?| ->]; [by left|right; lia]|].
      intros [?|(-> & _)]; auto.
Qed.

(** A packet beyond the expected one is buffered when it is inside the window. *)
Lemma receive_buffered :
  next_expected w < seq < next_expected w + max_window_packets (config w) →
  let '(w', d) := receive seq pl w in recv_ok w' ∧ receive_effect w seq pl w' d.
Proof.
  intros Hin. pose proof highest_step as Hhs.
  destruct Hw as [Hnext Hwin Hre Hh Hge]. unfold receive.
  destruct (_ <? _) eqn:E1; breflect; [lia|]. destruct (_ =? _) eqn:E2; breflect; [lia|].
  unfold saturating_add. destruct (_ >=? _) eqn:E3; breflect; [lia|]. clear E1 E2 E3.
  cbn [reorder note_accepted_sequence config next_expected delivered_count highest_received].
  fold top. set (w' := mkRecvWindow _ _ _ _ _).
  assert (Hrec : ∀ s, has_received w' s ↔ has_received w s ∨ s = seq).
  { intros s. unfold has_received, w'. cbn [reorder next_expected].
    destruct (decide (s = seq)) as [->|].
    - rewrite lookup_insert_eq. split; [by right|]. intros _. right. eauto.
    - rewrite lookup_insert_ne by done. tauto. }
  destruct (Hhs w' eq_refl ltac:(done) ltac:(lia) Hrec) as [Hh' Hge']. split.
  - constructor; [done|done| |done|done]. intros s e. unfold w'. cbn [reorder next_expected config].
    intros [[<- <-]|[_ He]]%lookup_insert_Some; [|by apply Hre]. cbn. lia.
  - constructor; unfold w'; cbn [delivered_by reorder next_expected config].
    + done.
    + done.
    + by rewrite Z.sub_diag.
    + constructor.
    + intros s e [[<- <-]|[_ He]]%lookup_insert_Some; auto.
    + intros s. fold w'. rewrite Hrec. split; [intros [?| ->]; [by left|right; lia]|].
      intros [?|(-> & _)]; auto.
Qed.

(** Every other packet leaves the window as it is. *)
Lemma receive_ignored :
  seq < next_expected w ∨
  (next_expected w < seq ∧ next_expected w + max_window_packets (config w) ≤ seq) →
  (receive seq pl w).1 = w ∧ receive_effect w seq pl w (receive seq pl w).2.
Proof.
  intros Hcase. destruct Hw as [Hnext Hwin Hre Hh Hge].
  assert (Hout : (receive seq pl w).1 = w ∧ delivered_by (receive seq pl w).2 = []).
  { unfold receive. destruct (_ <? _) eqn:E1; breflect; [done|].
    destruct (_ =? _) eqn:E2; breflect; [lia|].
    unfold saturating_add. destruct (_ >=? _) eqn:E3; breflect; [done|lia]. }
  destruct Hout as [H1 H2]. split; [done|]. constructor; rewrite ?H2.
  - done.
  - done.
  - by rewrite Z.sub_diag.
  - constructor.
  - auto.
  - intros s. split; [by left|]. intros [?|(-> & ?)]; [done|].
    left. lia.
Qed.

Lemma receive_step :
  recv_ok (receive seq pl w).1 ∧
  receive_effect w seq pl (receive seq pl w).1 (receive seq pl w).2.
Proof.
  pose proof receive_expected as H1. pose proof receive_buffered as H2.
  pose proof receive_ignored as H3.
  destruct (receive seq pl w) as [w' d]. cbn [fst snd] in *.
  destruct (Z.lt_trichotomy seq (next_expected w)) as [?|[?|?]].
  - destruct H3 as [-> ?]; auto.
  - auto.
  - destruct (decide (seq < next_expected w + max_window_packets (config w))); [auto|].
    destruct H3 as [-> ?]; [lia|done].
Qed.
End receive.

(** ** Runs *)

(** Receiving a list of packets: the final window and all delivered entries in
    the order of delivery. *)
Fixpoint receive_all (pkts : list (Z * bytes)) (w : RecvWindowPolicy)
    : RecvWindowPolicy * list ReorderEntry :=
  match pkts with
  | [] => (w, [])
  | (seq, pl) :: pkts' =>
      let '(w1, d) := receive seq pl w in
      let '(w2, rest) := receive_all pkts' w1 in
      (w2, delivered_by d ++ rest)
  end.

Definition packet_of (e : ReorderEntry) : Z * bytes := (sequence e, payload e).
Definition packet_ok (p : Z * bytes) : Prop := 0 ≤ p.1 < u32_max.

Section runs.
Lemma new_recv_ok cfg : 0 ≤ max_window_packets cfg → recv_ok (new cfg).
Proof.
  intros Hc. constructor; cbn [new next_expected config reorder highest_received].
  - unfold FIRST_EXPECTED_APPLICATION_SEQUENCE, u32_max. lia.
  - done.
  - intros s e. by rewrite lookup_empty.
  - done.
  - intros s [H|H]; [by rewrite lookup_empty, is_Some_alt in H|].
    unfold FIRST_EXPECTED_APPLICATION_SEQUENCE in H. lia.
Qed.

(** What a run from an arbitrary good state does; [seen] are the packets that
    arrived before it. *)
Lemma receive_all_spec pkts seen w :
  recv_ok w → Forall packet_ok pkts →
  (∀ s e, reorder w !! s = Some e → packet_of e ∈ seen) →
  let '(w', ds) := receive_all pkts w in
  recv_ok w' ∧ config w' = config w ∧ next_expected w ≤ next_expected w' ∧
  sequence <$> ds = seqZ (next_expected w) (next_expected w' - next_expected w) ∧
  Forall (λ e, packet_of e ∈ seen ++ pkts) ds.
Proof.
  revert seen w. induction pkts as [|[seq pl] pkts IH]; intros seen w Hw Hpk Hseen.
  { cbn. rewrite Z.sub_diag. by split_and!. }
  apply Forall_cons in Hpk as [Hp Hpk]. cbn [receive_all].
  destruct (receive_step w seq pl Hw Hp) as [Hw1 [Hc Hm Hrun Horig Hbuf _]].
  destruct (receive seq pl w) as [w1 d]. cbn [fst snd] in *.
  specialize (IH (seen ++ [(seq, pl)]) w1 Hw1 Hpk).
  destruct (receive_all pkts w1) as [w' ds].
  destruct IH as (Hw' & Hc' & Hm' & Hrun' & Horig').
  { intros s e [-> |He]%Hbuf; [set_solver|]. apply Hseen in He. set_solver. }
  split_and!; [done|by rewrite Hc'|lia| |].
  - rewrite fmap_app, Hrun, Hrun'. symmetry.
    replace (next_expected w' - next_expected w) with
      ((next_expected w1 - next_expected w) + (next_expected w' - next_expected w1)) by lia.
    rewrite seqZ_app by lia. do 2 f_equal. lia.
  - apply Forall_app. split.
    + eapply Forall_impl; [exact Horig|]. intros e [-> |He]; [set_solver|].
      apply Hseen in He. set_solver.
    + eapply Forall_impl; [exact Horig'|]. cbn. intros e. rewrite <- app_assoc. done.
Qed.

(** Packets stay received. *)
Lemma receive_all_received pkts w s :
  recv_ok w → Forall packet_ok pkts → has_received w s →
  has_received (receive_all pkts w).1 s.
Proof.
  revert w. induction pkts as [|[seq pl] pkts IH]; intros w Hw Hpk Hs; [done|].
  apply Forall_cons in Hpk as [Hp Hpk]. cbn [receive_all].
  destruct (receive_step w seq pl Hw Hp) as [Hw1 [_ _ _ _ _ Hrec]].
  destruct (receive seq pl w) as [w1 d]. cbn [fst snd] in *.
  specialize (IH w1 Hw1 Hpk). destruct (receive_all pkts w1) as [w' ds]. apply IH, Hrec. by left.
Qed.

(** A packet that arrives while it is inside the window is received. *)
Lemma receive_all_arrived pkts w s pl :
  recv_ok w → Forall packet_ok pkts → 1 ≤ s → s < next_expected w + max_window_packets (config w) →
  (s, pl) ∈ pkts → has_received (receive_all pkts w).1 s.
Proof.
  revert w. induction pkts as [|[seq pl'] pkts IH]; intros w Hw Hpk Hs1 Hs Hin.
  { by apply not_elem_of_nil in Hin. }
  apply Forall_cons in Hpk as [Hp Hpk]. cbn [receive_all].
  destruct (receive_step w seq pl' Hw Hp) as [Hw1 [Hc Hm _ _ _ Hrec]].
  pose proof (receive_all_received pkts (receive seq pl' w).1 s Hw1 Hpk) as Hkeep.
  specialize (IH (receive seq pl' w).1 Hw1 Hpk Hs1).
  destruct (receive seq pl' w) as [w1 d]. cbn [fst snd] in *. rewrite Hc in IH.
  destruct (receive_all pkts w1) as [w' ds]. cbn [fst] in *.
  apply elem_of_cons in Hin as [[= <- <-]|Hin].
  - apply Hkeep, Hrec. right. split_and!; [done|lia|by right].
  - apply IH; [lia|done].
Qed.

(** Nothing outside the arrived range is ever received. *)
Lemma received_in_range pkts w n s :
  recv_ok w → Forall packet_ok pkts → Forall (λ p, 1 ≤ p.1 ≤ n) pkts →
  (∀ s, has_received w s → s ≤ n) → has_received (receive_all pkts w).1 s → s ≤ n.
Proof.
  revert w. induction pkts as [|[seq pl] pkts IH]; intros w Hw Hpk Hr Hle Hs; [by apply Hle|].
  apply Forall_cons in Hpk as [Hp Hpk]. apply Forall_cons in Hr as [Hr0 Hr]. cbn in Hr0.
  cbn [receive_all] in Hs.
  destruct (receive_step w seq pl Hw Hp) as [Hw1 [_ _ _ _ _ Hrec]].
  destruct (receive seq pl w) as [w1 d]. cbn [fst snd] in *.
  apply (IH w1 Hw1 Hpk Hr).
  - intros s' [H'|(-> & _)]%Hrec; [by apply Hle|lia].
  - by destruct (receive_all pkts w1).
Qed.
End runs.

(** The reorder buffer holds fewer packets than the window. *)
Lemma reorder_bounded w : recv_ok w → reorder_count w ≤ max_window_packets (config w).
Proof.
  intros [Hnext Hwin Hre _ _]. unfold reorder_count. rewrite <- length_keys_asc.
  assert (Hsub : keys_asc (reorder w) ⊆ seqZ (next_expected w) (max_window_packets (config w))).
  { intros s [e He]%elem_of_keys_asc. apply Hre in He. apply elem_of_seqZ. lia. }
  apply NoDup_submseteq in Hsub; [|apply NoDup_keys_asc].
  apply submseteq_length in Hsub. rewrite length_seqZ in Hsub. lia.
Qed.

(** ** Acknowledgement *)
Section acks.
Lemma missing_from_spec fuel m seq ack_through limit acc :
  0 ≤ seq → ack_through ≤ u32_max → fuel = Z.to_nat (ack_through - seq) → zlen acc ≤ limit →
  missing_from fuel m seq ack_through limit acc =
  acc ++ take (Z.to_nat (limit - zlen acc))
           (filter (λ s, m !! s = None) (seqZ seq (ack_through - seq))).
Proof.
  revert seq acc. induction fuel as [|fuel IH]; intros seq acc Hseq Hack Hfuel Hacc.
  { rewrite seqZ_nil by lia. cbn. by rewrite take_nil, app_nil_r. }
  cbn [missing_from]. destruct (seq <? ack_through) eqn:E; breflect; [|lia].
  destruct (zlen acc >=? limit) eqn:E2; breflect.
  { replace (limit - zlen acc) with 0 by lia. cbn [Z.to_nat take]. by rewrite app_nil_r. }
  rewrite wrap_succ by lia. rewrite seqZ_cons by lia.
  replace (Z.pred (ack_through - seq)) with (ack_through - (seq + 1)) by lia.
  replace (Z.succ seq) with (seq + 1) by lia.
  rewrite filter_cons. destruct (m !! seq) as [e|] eqn:Em.
  - rewrite bool_decide_eq_true_2 by eauto. rewrite decide_False by done.
    apply IH; lia.
  - rewrite bool_decide_eq_false_2 by (by intros [? ?]). rewrite decide_True by done.
    rewrite IH by (rewrite ?zlen_app; change (zlen [seq]) with 1; lia).
    rewrite zlen_app. change (zlen [seq]) with 1.
    replace (Z.to_nat (limit - zlen acc)) with (S (Z.to_nat (limit - (zlen acc + 1)))) by lia.
    cbn [take]. by rewrite <- app_assoc.
Qed.

(** Inside a window of at most 255 packets no NACK is cut off. *)
Lemma missing_exact w highest :
  recv_ok w → is_Some (reorder w !! highest) → max_window_packets (config w) ≤ MAX_NACK_COUNT →
  missing_sequences_bounded w highest MAX_NACK_COUNT =
  filter (λ s, reorder w !! s = None) (seqZ (next_expected w) (highest - next_expected w)).
Proof.
  intros [Hnext Hwin Hre _ _] [e He] Hmax. unfold MAX_NACK_COUNT in *.
  apply Hre in He as (_ & Hr & Hu). unfold missing_sequences_bounded.
  rewrite missing_from_spec; [|lia|lia|done|done].
  cbn [app]. apply take_ge. etransitivity; [apply length_filter|].
  rewrite length_seqZ. change (zlen []) with 0. lia.
Qed.

(** The acknowledgement names exactly what the receiver has and has not. *)
Lemma ack_view_exact w :
  recv_ok w → max_window_packets (config w) ≤ MAX_NACK_COUNT →
  let '(ack, nacks) := ack_view w in
  (∀ s, 1 ≤ s ≤ ack → s ∈ nacks ↔ ¬ has_received w s) ∧
  (∀ s, has_received w s → s ≤ ack) ∧
  (0 < ack → has_received w ack) ∧ Forall (λ s, next_expected w ≤ s < ack) nacks ∧
  zlen nacks ≤ max_window_packets (config w).
Proof.
  intros Hw Hmax. pose proof Hw as [Hnext Hwin Hre Hh Hge]. unfold ack_view.
  assert (Hnone : highest_received w = None → ∀ s, ¬ has_received w s).
  { intros Hn s Hs. destruct (Hge s) as (? & ? & _); [unfold has_received in Hs; tauto|congruence]. }
  destruct (highest_received w) as [highest|] eqn:E.
  2: { split_and!; [lia| |lia|done|done]. intros s Hs. by apply Hnone in Hs. }
  destruct (Hh _ eq_refl) as [Hh1 Hcase].
  assert (Hge' : ∀ s, has_received w s → s ≤ highest).
  { intros s Hs. destruct (Hge s) as (? & [= <-] & ?); [unfold has_received in Hs; tauto|done]. }
  destruct (highest <? next_expected w) eqn:E2; breflect.
  - unfold saturating_sub.
    assert (Hemp : highest = next_expected w - 1).
    { assert (2 ≤ next_expected w) by lia. enough (next_expected w - 1 ≤ highest) by lia.
      apply Hge'. left. lia. }
    split_and!; [| | |done|done].
    + intros s Hs. rewrite elem_of_nil. split; [done|]. intros Hn. apply Hn. left. lia.
    + intros s Hs%Hge'. lia.
    + intros _. left. lia.
  - destruct Hcase as [?|Hin]; [lia|]. rewrite missing_exact by done.
    split_and!; [| |intros _; by right| |].
    + intros s Hs. rewrite list_elem_of_filter, elem_of_seqZ. unfold has_received.
      split.
      * intros [Hs1 Hs2] [?|Hs3]; [lia|]. rewrite Hs1, is_Some_alt in Hs3. done.
      * intros Hn. destruct (reorder w !! s) eqn:Es; [exfalso; apply Hn; right; eauto|].
        split; [done|]. destruct (decide (s = highest)); [subst; rewrite Es, is_Some_alt in Hin; done|].
        split; [|lia]. destruct (decide (s < next_expected w)); [|lia].
        exfalso. apply Hn. left. lia.
    + done.
    + apply Forall_forall. intros s. rewrite list_elem_of_filter, elem_of_seqZ. lia.
    + unfold zlen. pose proof (length_filter (λ s, reorder w !! s = None)
        (seqZ (next_expected w) (highest - next_expected w))) as Hl.
      rewrite length_seqZ in Hl. destruct Hin as [e He]. apply Hre in He. lia.
Qed.

Lemma ack_view_nonneg w : recv_ok w → 0 ≤ (ack_view w).1.
Proof.
  intros [_ _ _ Hh _]. unfold ack_view. destruct (highest_received w) as [h|]; [|done].
  destruct (Hh h eq_refl) as [H1 _]. unfold saturating_sub. case_match; cbn; lia.
Qed.
End acks.

(** ** Theorems *)

(** The receive window delivers in order and exactly once.  Whatever packets
    arrive, in whatever order and however often, the sequence numbers handed to
    the application are 1, 2, 3, ... without a gap or a repetition up to the one
    before [next_expected], each of them with the payload of a packet that
    arrived under that number, and the reorder buffer holds fewer packets than
    the window. *)
Theorem receive_in_order_exactly_once cfg pkts
    (Hcfg : 0 ≤ max_window_packets cfg) (Hpk : Forall packet_ok pkts) :
  let '(w, ds) := receive_all pkts (new cfg) in
  sequence <$> ds = seqZ 1 (next_expected w - 1) ∧
  Forall (λ e, packet_of e ∈ pkts) ds ∧
  reorder_count w ≤ max_window_packets cfg.
Proof.
  pose proof (receive_all_spec pkts [] (new cfg) (new_recv_ok cfg Hcfg) Hpk) as H.
  destruct (receive_all pkts (new cfg)) as [w ds].
  destruct H as (Hw & Hc & Hm & Hrun & Horig).
  { intros s e. cbn. by rewrite lookup_empty. }
  cbn [new next_expected config] in *. unfold FIRST_EXPECTED_APPLICATION_SEQUENCE in *.
  split_and!; [done|done|].
  rewrite <- Hc. by apply reorder_bounded.
Qed.

(** The receive window loses nothing.  When the packets 1 to [n], [n] at most
    the window, all arrive, in any order and with any repetitions, every one of
    them is delivered: the application has received exactly 1 to [n] and the
    reorder buffer is empty. *)
Theorem receive_complete cfg pkts n
    (Hcfg : n ≤ max_window_packets cfg) (Hn : 0 ≤ n < u32_max)
    (Hrange : Forall (λ p, 1 ≤ p.1 ≤ n) pkts)
    (Hall : ∀ s, 1 ≤ s ≤ n → ∃ pl, (s, pl) ∈ pkts) :
  let '(w, ds) := receive_all pkts (new cfg) in
  sequence <$> ds = seqZ 1 n ∧ reorder w = ∅.
Proof.
  assert (Hpk : Forall packet_ok pkts).
  { eapply Forall_impl; [exact Hrange|]. unfold packet_ok. intros [s pl]. cbn. lia. }
  pose proof (new_recv_ok cfg ltac:(lia)) as Hnew.
  pose proof (receive_all_spec pkts [] (new cfg) Hnew Hpk) as H.
  assert (Harr : ∀ s, 1 ≤ s ≤ n → has_received (receive_all pkts (new cfg)).1 s).
  { intros s Hs. destruct (Hall s Hs) as [pl Hpl].
    apply (receive_all_arrived pkts (new cfg) s pl Hnew Hpk); [lia| |done].
    cbn. unfold FIRST_EXPECTED_APPLICATION_SEQUENCE. lia. }
  pose proof (λ s, received_in_range pkts (new cfg) n s Hnew Hpk Hrange) as Hrng.
  destruct (receive_all pkts (new cfg)) as [w ds]. cbn [fst] in *.
  destruct H as (Hw & Hc & Hm & Hrun & Horig).
  { intros s e. cbn. by rewrite lookup_empty. }
  cbn [new next_expected config] in *. unfold FIRST_EXPECTED_APPLICATION_SEQUENCE in *.
  assert (Hle : ∀ s, has_received w s → s ≤ n).
  { intros s Hs. apply Hrng; [|done]. intros s' [H'|H']; [cbn in H'; unfold FIRST_EXPECTED_APPLICATION_SEQUENCE in H'; lia|].
    cbn in H'. by rewrite lookup_empty, is_Some_alt in H'. }
  pose proof Hw as [Hnext Hwin Hre _ _].
  assert (next_expected w = n + 1) as Hne.
  { destruct (Z.lt_trichotomy (next_expected w) (n + 1)) as [Hlt|[?|Hgt]]; [|done|].
    - destruct (Harr (next_expected w) ltac:(lia)) as [?|[e He]]; [lia|]. apply Hre in He. lia.
    - enough (next_expected w - 1 ≤ n) by lia. apply Hle. left. lia. }
  split; [rewrite Hrun, Hne; f_equal; lia|].
  apply map_eq. intros s. rewrite lookup_empty. destruct (reorder w !! s) as [e|] eqn:Es; [|done].
  assert (s ≤ n) by (apply Hle; right; eauto). apply Hre in Es. lia.
Qed.

(** The acknowledgement a receiver sends is exact.  In every state reached
    from a new window of at most 255 packets, [ack_view] gives the highest
    received sequence and, below it, NACKs exactly the sequences that have not
    been received: a received packet is never NACKed, a missing one is never
    silently acknowledged, and the list fits the wire's one-byte count. *)
Theorem ack_view_sound_complete cfg pkts
    (Hcfg : 0 ≤ max_window_packets cfg ≤ MAX_NACK_COUNT) (Hpk : Forall packet_ok pkts) :
  let w := (receive_all pkts (new cfg)).1 in
  let '(ack, nacks) := ack_view w in
  (∀ s, 1 ≤ s ≤ ack → s ∈ nacks ↔ ¬ has_received w s) ∧
  (∀ s, has_received w s → s ≤ ack) ∧
  (0 < ack → has_received w ack) ∧ Forall (λ s, s < ack) nacks ∧ zlen nacks ≤ MAX_NACK_COUNT.
Proof.
  pose proof (receive_all_spec pkts [] (new cfg) (new_recv_ok cfg ltac:(lia)) Hpk) as H.
  destruct (receive_all pkts (new cfg)) as [w ds]. cbn [fst].
  destruct H as (Hw & Hc & _ & _ & _).
  { intros s e. cbn. by rewrite lookup_empty. }
  cbn [new config] in Hc.
  pose proof (ack_view_exact w Hw ltac:(rewrite Hc; lia)) as Ha.
  destruct (ack_view w) as [ack nacks]. destruct Ha as (H1 & H2 & H3 & H4 & H5).
  split_and!; [done|done|done| |rewrite Hc in H5; lia].
  eapply Forall_impl; [exact H4|]. cbn. lia.
Qed.

(** ** Witnesses *)
Lemma receive_in_order_exactly_once_witness :
  let '(w, ds) := receive_all [(2, [2]); (1, [1]); (2, [9]); (4, [4])] (new (mkRecvConfig 4)) in
  sequence <$> ds = seqZ 1 (next_expected w - 1) ∧
  Forall (λ e, packet_of e ∈ [(2, [2]); (1, [1]); (2, [9]); (4, [4])]) ds ∧
  reorder_count w ≤ 4.
Proof.
  apply (receive_in_order_exactly_once (mkRecvConfig 4) [(2, [2]); (1, [1]); (2, [9]); (4, [4])]).
  - cbn. lia.
  - repeat constructor; vm_compute; congruence.
Defined.

Lemma receive_complete_witness :
  let '(w, ds) := receive_all [(3, [3]); (2, [2]); (3, [7]); (1, [1])] (new (mkRecvConfig 4)) in
  sequence <$> ds = seqZ 1 3 ∧ reorder w = ∅.
Proof.
  apply (receive_complete (mkRecvConfig 4) [(3, [3]); (2, [2]); (3, [7]); (1, [1])] 3).
  - cbn. lia.
  - unfold u32_max. lia.
  - repeat constructor; cbn; lia.
  - intros s Hs. assert (s = 1 ∨ s = 2 ∨ s = 3) as [-> |[-> | ->]] by lia; eexists; rewrite !elem_of_cons; eauto 6.
Defined.

Lemma ack_view_sound_complete_witness :
  zlen (ack_view (receive_all [(1, [1]); (3, [3]); (5, [5])] (new (mkRecvConfig 8))).1).2
    ≤ MAX_NACK_COUNT.
Proof.
  pose proof (ack_view_sound_complete (mkRecvConfig 8) [(1, [1]); (3, [3]); (5, [5])]) as H.
  cbv zeta in H. destruct (ack_view _) as [ack nacks]. apply H.
  - cbn. unfold MAX_NACK_COUNT. lia.
  - repeat constructor; vm_compute; congruence.
Defined.

(** A second packet with a buffered sequence number is reported [Buffered], not
    [Duplicate], and its payload replaces the first one's. *)
Example buffered_duplicate_overwrites :
  let w := (receive 2 [2] (new (mkRecvConfig 4))).1 in
  (receive 2 [9] w).2 = Buffered 2 ∧
  (receive 1 [1] (receive 2 [9] w).1).2 = Delivered 1 [mkEntry 1 [1]; mkEntry 2 [9]].
Proof. vm_compute. split; reflexivity. Qed.
