(* ===== verification/SendWindow.v ===== *)
(** * The send window

    Models [src/crates/i2pr-client/src/streaming/send_window.rs]: the unacked
    packets of a connection, their packet and byte limits, and the cumulative
    acknowledgement with NACKs. *)
From S2P Require Import Prelude BTree StreamConfig.

Record SendWindowConfig := mkSendConfig { max_window_packets : Z; max_window_bytes : Z }.
Definition from_config (config : StreamingConfig) : SendWindowConfig :=
  mkSendConfig (max_send_window_packets config)
    (max_send_window_packets config * MAX_PACKET_PAYLOAD_BYTES).

Record UnackedEntry := mkUnacked {
  sequence : Z;
  payload_len : Z;
  sent_at_ms : Z;
  retransmit_count : Z;
}.

Inductive SendWindowDecision := Accept | Backpressure.
#[export] Instance SendWindowDecision_eq_dec : EqDecision SendWindowDecision.
Proof. solve_decision. Defined.

Record AckOutcome := mkOutcome {
  newly_acked : list UnackedEntry;
  retained_nacks : list Z;
  duplicate_ack : bool;
}.

Definition FIRST_APPLICATION_SEQUENCE : Z := 1.

Record SendWindowPolicy := mkSendWindow {
  config : SendWindowConfig;
  unacked : gmap Z UnackedEntry;
  next_sequence : Z;
  unacked_bytes : Z;
  last_ack : Z;
}.

Definition new (config : SendWindowConfig) : SendWindowPolicy :=
  mkSendWindow config ∅ FIRST_APPLICATION_SEQUENCE 0 0.

Definition evaluate (w : SendWindowPolicy) (len : Z) : SendWindowDecision :=
  let would_be_count := saturating_add usize_max (Z.of_nat (size (unacked w))) 1 in
  let would_be_bytes := saturating_add usize_max (unacked_bytes w) len in
  if (would_be_count >? max_window_packets (config w))
     || (would_be_bytes >? max_window_bytes (config w))
  then Backpressure else Accept.

Definition enqueue (len now_ms : Z) : M SendWindowPolicy SendWindowDecision Z := λ w,
  if bool_decide (evaluate w len = Backpressure) then (w, Err Backpressure)
  else
  let seq := next_sequence w in
  (mkSendWindow (config w) (<[seq := mkUnacked seq len now_ms 0]> (unacked w))
     (wrapping_add 32 (next_sequence w) 1) (saturating_add usize_max (unacked_bytes w) len)
     (last_ack w), Ok seq).

(** The loop of [acknowledge] over the keys up to [ack_through]. *)
Fixpoint acknowledge_keys (nack_set : gset Z) (keys : list Z) (w : SendWindowPolicy)
    (acked : list UnackedEntry) (nacked : list Z)
    : SendWindowPolicy * list UnackedEntry * list Z :=
  match keys with
  | [] => (w, acked, nacked)
  | key :: keys' =>
      if bool_decide (key ∈ nack_set)
      then acknowledge_keys nack_set keys' w acked (nacked ++ [key])
      else
      match unacked w !! key with
      | None => acknowledge_keys nack_set keys' w acked nacked
      | Some entry =>
          acknowledge_keys nack_set keys'
            (mkSendWindow (config w) (delete key (unacked w)) (next_sequence w)
               (saturating_sub (unacked_bytes w) (payload_len entry)) (last_ack w))
            (acked ++ [entry]) nacked
      end
  end.

(** The smallest element of a set, where [BTreeSet::iter] starts. *)
Definition lowest (s : gset Z) : option Z :=
  match elements s with [] => None | x :: l => Some (foldr Z.min x l) end.

Definition acknowledge (ack_through : Z) (nacks : list Z) (w : SendWindowPolicy)
    : SendWindowPolicy * AckOutcome :=
  let nack_set : gset Z := list_to_set (filter (λ s, s < ack_through) nacks) in
  let duplicate_ack := ack_through <? last_ack w in
  if duplicate_ack then (w, mkOutcome [] [] true)
  else
  let keys := filter (λ key, key ≤ ack_through) (keys_asc (unacked w)) in
  let '(w1, acked, nacked) := acknowledge_keys nack_set keys w [] [] in
  let last :=
    match lowest nack_set with
    | Some low => Z.max (last_ack w1) (saturating_sub low 1)
    | None => Z.max (last_ack w1) ack_through
    end in
  (mkSendWindow (config w1) (unacked w1) (next_sequence w1) (unacked_bytes w1) last,
   mkOutcome acked nacked false).

Definition expired_entries (w : SendWindowPolicy) (now_ms rto_ms : Z) : list Z :=
  List.filter (λ seq, match unacked w !! seq with
                      | Some entry => saturating_sub now_ms (sent_at_ms entry) >=? rto_ms
                      | None => false
                      end) (keys_asc (unacked w)).

Definition mark_retransmitted (seq now_ms : Z) (w : SendWindowPolicy) : SendWindowPolicy :=
  match unacked w !! seq with
  | Some entry =>
      mkSendWindow (config w)
        (<[seq := mkUnacked (sequence entry) (payload_len entry) now_ms
                    (saturating_add u32_max (retransmit_count entry) 1)]> (unacked w))
        (next_sequence w) (unacked_bytes w) (last_ack w)
  | None => w
  end.

Definition remove (seq : Z) (w : SendWindowPolicy) : SendWindowPolicy * option UnackedEntry :=
  match unacked w !! seq with
  | None => (w, None)
  | Some entry =>
      (mkSendWindow (config w) (delete seq (unacked w)) (next_sequence w)
         (saturating_sub (unacked_bytes w) (payload_len entry)) (last_ack w), Some entry)
  end.

Definition unacked_count (w : SendWindowPolicy) : Z := Z.of_nat (size (unacked w)).
Definition get_unacked (w : SendWindowPolicy) (seq : Z) : option UnackedEntry :=
  unacked w !! seq.

(** ** Invariant *)
Record send_ok (w : SendWindowPolicy) : Prop := {
  so_next : 1 ≤ next_sequence w ≤ u32_max;
  so_entry s e : unacked w !! s = Some e →
    sequence e = s ∧ 1 ≤ s < next_sequence w ∧ 0 ≤ payload_len e ∧ 0 ≤ retransmit_count e;
  so_bytes : unacked_bytes w = map_sum payload_len (unacked w);
  so_count : Z.of_nat (size (unacked w)) ≤ max_window_packets (config w);
  so_max_bytes : unacked_bytes w ≤ max_window_bytes (config w);
  so_limit : max_window_bytes (config w) < usize_max ∧
             max_window_packets (config w) < usize_max;
}.

Section set_minimum.
Lemma foldr_min_spec x l :
  foldr Z.min x l ∈ x :: l ∧ Forall (λ y, foldr Z.min x l ≤ y) (x :: l).
Proof.
  induction l as [|y l [IH1 IH2]]; cbn [foldr].
  - split; [by left|]. repeat constructor. lia.
  - apply Forall_cons in IH2 as [Hx Hl]. split.
    + destruct (Z.min_spec y (foldr Z.min x l)) as [[_ ->]|[_ ->]]; [set_solver|].
      apply elem_of_cons in IH1 as [->|?]; set_solver.
    + repeat (apply Forall_cons; split); [lia|lia|].
      eapply Forall_impl; [exact Hl|]. cbn. lia.
Qed.

Lemma lowest_Some s x : lowest s = Some x → x ∈ s ∧ ∀ y, y ∈ s → x ≤ y.
Proof.
  unfold lowest. destruct (elements s) as [|z l] eqn:E; [done|]. intros [= <-].
  destruct (foldr_min_spec z l) as [H1 H2]. split.
  - apply elem_of_elements. by rewrite E.
  - intros y Hy%elem_of_elements. rewrite E in Hy. rewrite Forall_forall in H2. by apply H2.
Qed.

Lemma lowest_None s : lowest s = None → s = ∅.
Proof.
  unfold lowest. destruct (elements s) as [|z l] eqn:E; [|done]. intros _.
  apply elements_empty_inv in E. by apply leibniz_equiv.
Qed.
End set_minimum.

(** Removing an entry keeps the byte counter exact. *)
Section removal.
Implicit Types w : SendWindowPolicy.

Definition without (seq : Z) (e : UnackedEntry) w : SendWindowPolicy :=
  mkSendWindow (config w) (delete seq (unacked w)) (next_sequence w)
    (saturating_sub (unacked_bytes w) (payload_len e)) (last_ack w).

Lemma without_ok seq e w : send_ok w → unacked w !! seq = Some e → send_ok (without seq e w).
Proof.
  intros [Hn He Hb Hc Hm Hl] Hs.
  assert (Hpl : ∀ k a, unacked w !! k = Some a → 0 ≤ payload_len a) by (intros k a Ha; apply He in Ha; tauto).
  pose proof (map_sum_ge payload_len (unacked w) seq e Hpl Hs) as Hge.
  pose proof (Hpl _ _ Hs) as Hpos.
  constructor; unfold without; cbn [next_sequence unacked unacked_bytes config].
  - done.
  - intros s a [_ Ha]%lookup_delete_Some. by apply He.
  - rewrite (map_sum_delete payload_len _ _ e Hs). unfold saturating_sub. lia.
  - rewrite map_size_delete_Some by done. lia.
  - unfold saturating_sub. lia.
  - done.
Qed.

Lemma remove_ok seq w : send_ok w → send_ok (remove seq w).1.
Proof.
  intros Hw. unfold remove. destruct (unacked w !! seq) as [e|] eqn:E; [|done].
  by apply without_ok.
Qed.

Lemma mark_retransmitted_ok seq now w : send_ok w → send_ok (mark_retransmitted seq now w).
Proof.
  intros [Hn He Hb Hc Hm Hl]. unfold mark_retransmitted.
  destruct (unacked w !! seq) as [e|] eqn:E; [|by constructor].
  destruct (He _ _ E) as (H1 & H2 & H3 & H4).
  constructor; cbn [next_sequence unacked unacked_bytes config]; try done.
  - intros s a [[<- <-]|[_ Ha]]%lookup_insert_Some; [|by apply He]. cbn.
    unfold saturating_add, u32_max. split_and!; lia.
  - rewrite map_sum_insert, E. cbn. lia.
  - by rewrite map_size_insert_Some by eauto.
Qed.

Lemma enqueue_ok len now w :
  send_ok w → 0 ≤ len → next_sequence w < u32_max → send_ok (enqueue len now w).1.
Proof.
  intros [Hn He Hb Hc Hm Hl] Hlen Hnext. unfold enqueue.
  case_bool_decide as Hev; [by constructor|].
  assert (Hnew : unacked w !! next_sequence w = None).
  { destruct (unacked w !! next_sequence w) as [e|] eqn:E; [|done]. apply He in E. lia. }
  unfold evaluate in Hev. destruct (_ || _) eqn:E; [done|]. breflect.
  assert (Hnn : 0 ≤ map_sum payload_len (unacked w))
    by (apply map_sum_nonneg; intros k a Ha; apply He in Ha; tauto).
  unfold saturating_add, wrapping_add, u32_max in *.
  constructor; cbn [fst next_sequence unacked unacked_bytes config].
  - rewrite Z.mod_small by lia. unfold u32_max. lia.
  - rewrite Z.mod_small by lia. intros s e [[<- <-]|[_ Ha]]%lookup_insert_Some; [cbn; lia|].
    apply He in Ha. naive_solver lia.
  - rewrite map_sum_insert_new by done. cbn. lia.
  - rewrite map_size_insert_None by done. lia.
  - lia.
  - done.
Qed.
End removal.

(** ** Acknowledgement *)
Section acknowledge.
Implicit Types w : SendWindowPolicy.

Lemma acknowledge_keys_spec nack keys w acked nacked :
  send_ok w → NoDup keys → (∀ k, k ∈ keys → is_Some (unacked w !! k)) →
  let '(w', acked', nacked') := acknowledge_keys nack keys w acked nacked in
  send_ok w' ∧
  (∀ s, unacked w' !! s = if decide (s ∈ keys ∧ s ∉ nack) then None else unacked w !! s) ∧
  Some <$> acked' = (Some <$> acked) ++ ((λ s, unacked w !! s) <$> filter (λ s, s ∉ nack) keys) ∧
  nacked' = nacked ++ filter (λ s, s ∈ nack) keys ∧
  config w' = config w ∧ next_sequence w' = next_sequence w ∧ last_ack w' = last_ack w.
Proof.
  revert w acked nacked. induction keys as [|key keys IH]; intros w acked nacked Hw Hnd Hin.
  { cbn. rewrite !app_nil_r. by split_and!. }
  apply NoDup_cons in Hnd as [Hnk Hnd]. cbn [acknowledge_keys]. case_bool_decide as Hk.
  - specialize (IH w acked (nacked ++ [key]) Hw Hnd). 
    destruct (acknowledge_keys nack keys w acked (nacked ++ [key])) as [[w' acked'] nacked'].
    destruct IH as (H1 & H2 & H3 & H4 & H5).
    { intros k Hk'. apply Hin. by right. }
    rewrite !filter_cons. rewrite decide_False by tauto. rewrite decide_True by done.
    split_and!; try done.
    + intros s. rewrite H2. apply decide_ext. set_solver.
    + by rewrite H4, <- app_assoc.
    + apply H5. + apply H5. + apply H5.
  - destruct (Hin key) as [e He]; [by left|]. rewrite He.
    specialize (IH (without key e w) (acked ++ [e]) nacked (without_ok key e w Hw He) Hnd).
    unfold without in IH at 2. destruct (acknowledge_keys _ _ _ _ _) as [[w' acked'] nacked'].
    destruct IH as (H1 & H2 & H3 & H4 & H5).
    { intros k Hk'. cbn. rewrite lookup_delete_ne by (intros ->; done). apply Hin. by right. }
    rewrite !filter_cons. rewrite decide_True by done. rewrite (decide_False (P:=key ∈ nack)) by done.
    split_and!; try done; [| |apply H5..].
    + intros s. rewrite H2. cbn. destruct (decide (s = key)) as [->|Hne].
      * rewrite lookup_delete_eq. rewrite (decide_True (P:=key ∈ key :: keys ∧ _)) by set_solver.
        by case_decide.
      * rewrite lookup_delete_ne by done. apply decide_ext. set_solver.
    + rewrite H3, fmap_app, <- app_assoc. f_equal. cbn. rewrite He. f_equal.
      apply list_fmap_ext. intros i s Hs%list_elem_of_lookup_2. cbn.
      rewrite list_elem_of_filter in Hs. rewrite lookup_delete_ne; [done|]. intros ->. naive_solver.
Qed.

(** [acknowledge] on an acknowledgement that is not older than the floor. *)
Lemma acknowledge_spec ack nacks w :
  send_ok w → 0 ≤ ack → last_ack w ≤ ack →
  let cleared s := s ≤ ack ∧ ¬ (s ∈ nacks ∧ s < ack) in
  let '(w', o) := acknowledge ack nacks w in
  send_ok w' ∧
  (∀ s, unacked w' !! s = if decide (cleared s) then None else unacked w !! s) ∧
  Some <$> newly_acked o =
    (λ s, unacked w !! s) <$> filter (λ s, cleared s) (keys_asc (unacked w)) ∧
  retained_nacks o = filter (λ s, s ∈ nacks ∧ s < ack) (keys_asc (unacked w)) ∧
  duplicate_ack o = false ∧
  config w' = config w ∧ next_sequence w' = next_sequence w ∧
  last_ack w ≤ last_ack w' ≤ ack.
Proof.
  intros Hw Hack Hlast cleared. unfold acknowledge.
  destruct (ack <? last_ack w) eqn:E; breflect; [lia|].
  set (nack := list_to_set _ : gset Z).
  assert (Hnack : ∀ s, s ∈ nack ↔ s ∈ nacks ∧ s < ack).
  { intros s. unfold nack. rewrite elem_of_list_to_set, list_elem_of_filter. tauto. }
  pose proof (acknowledge_keys_spec nack (filter (λ k, k ≤ ack) (keys_asc (unacked w))) w [] []
    Hw) as Hk.
  destruct (acknowledge_keys _ _ _ _ _) as [[w1 acked] nacked].
  destruct Hk as ([Hn He Hb Hc Hm Hl] & H2 & H3 & H4 & H5 & H6 & H7).
  { apply NoDup_filter, NoDup_keys_asc. }
  { intros k [_ Hk]%list_elem_of_filter. by apply elem_of_keys_asc. }
  assert (Hfloor : last_ack w ≤ match lowest nack with
      | Some low => Z.max (last_ack w1) (saturating_sub low 1)
      | None => Z.max (last_ack w1) ack end ≤ ack).
  { rewrite H7. destruct (lowest nack) as [low|] eqn:El; [|lia].
    apply lowest_Some in El as [Hlow _]. apply Hnack in Hlow. unfold saturating_sub. lia. }
  cbn [newly_acked retained_nacks duplicate_ack config next_sequence unacked last_ack].
  split_and!; try done; try lia.
  - intros s. rewrite H2. unfold cleared. destruct (unacked w !! s) as [e|] eqn:Es.
    + apply decide_ext. rewrite list_elem_of_filter, elem_of_keys_asc, Es, Hnack.
      split; [intros [[? _] ?]; tauto|]. intros [? ?]. split_and!; [done|eauto|done].
    + by case_decide; case_decide.
  - rewrite H3. cbn. f_equal. rewrite list_filter_filter. apply list_filter_iff.
    intros s. unfold cleared. rewrite Hnack. tauto.
  - rewrite H4. cbn. rewrite list_filter_filter. apply list_filter_iff.
    intros s. rewrite Hnack. split; [tauto|]. intros [? ?]. split_and!; done || lia.
Qed.
End acknowledge.

(** ** Steps *)
Inductive send_step : SendWindowPolicy → SendWindowPolicy → Prop :=
  | step_enqueue len now w :
      0 ≤ len → next_sequence w < u32_max → send_step w (enqueue len now w).1
  | step_acknowledge ack nacks w : 0 ≤ ack → send_step w (acknowledge ack nacks w).1
  | step_mark_retransmitted seq now w : send_step w (mark_retransmitted seq now w)
  | step_remove seq w : send_step w (remove seq w).1.

Section steps.
Implicit Types w : SendWindowPolicy.

Lemma acknowledge_ok ack nacks w : send_ok w → 0 ≤ ack → send_ok (acknowledge ack nacks w).1.
Proof.
  intros Hw Hack. destruct (decide (last_ack w ≤ ack)) as [Hle|Hgt].
  - pose proof (acknowledge_spec ack nacks w Hw Hack Hle) as H.
    destruct (acknowledge ack nacks w). apply H.
  - unfold acknowledge. destruct (ack <? last_ack w) eqn:E; breflect; [done|lia].
Qed.

Lemma acknowledge_config ack nacks w :
  send_ok w → 0 ≤ ack →
  config (acknowledge ack nacks w).1 = config w ∧
  next_sequence (acknowledge ack nacks w).1 = next_sequence w ∧
  last_ack w ≤ last_ack (acknowledge ack nacks w).1.
Proof.
  intros Hw Hack. destruct (decide (last_ack w ≤ ack)) as [Hle|Hgt].
  - pose proof (acknowledge_spec ack nacks w Hw Hack Hle) as H.
    destruct (acknowledge ack nacks w). cbn. destruct H as (_ & _ & _ & _ & _ & H1 & H2 & H3).
    split_and!; [done|done|lia].
  - unfold acknowledge. destruct (ack <? last_ack w) eqn:E; breflect; [done|lia].
Qed.

Lemma send_step_ok w w' :
  send_step w w' → send_ok w → send_ok w' ∧ config w' = config w ∧ last_ack w ≤ last_ack w'.
Proof.
  intros [len now w1 Hl Hn|ack nacks w1 Ha|seq now w1|seq w1] Hw.
  - split; [by apply enqueue_ok|]. unfold enqueue. by case_bool_decide.
  - split; [by apply acknowledge_ok|]. destruct (acknowledge_config ack nacks w1 Hw Ha). tauto.
  - split; [by apply mark_retransmitted_ok|]. unfold mark_retransmitted. by case_match.
  - split; [by apply remove_ok|]. unfold remove. by case_match.
Qed.

Lemma new_send_ok cfg :
  0 ≤ max_window_packets cfg < usize_max → 0 ≤ max_window_bytes cfg < usize_max →
  send_ok (new cfg).
Proof.
  intros Hp Hb. constructor; cbn [new next_sequence unacked unacked_bytes config].
  - unfold FIRST_APPLICATION_SEQUENCE, u32_max. lia.
  - intros s e. by rewrite lookup_empty.
  - by rewrite map_sum_empty.
  - rewrite map_size_empty. lia.
  - lia.
  - lia.
Qed.

Lemma from_config_limits c :
  ConfigOk c →
  0 ≤ max_window_packets (from_config c) < usize_max ∧
  0 ≤ max_window_bytes (from_config c) < usize_max.
Proof.
  intros [Hs _ _ _ _ _]. cbn. unfold MAX_SEND_WINDOW_PACKETS, MAX_PACKET_PAYLOAD_BYTES, usize_max in *.
  lia.
Qed.
End steps.

(** ** Theorems *)

(** The send window respects its limits.  In every state reached from the
    new window of an accepted configuration by any sequence of enqueues,
    acknowledgements, retransmission marks and removals (short of 2^32 - 2
    packets), at most [max_send_window_packets] packets and that many times
    2048 bytes are in flight, the byte counter is exactly the sum of the tracked
    payload lengths, every tracked sequence is one that was assigned, and the
    acknowledgement floor has never moved back. *)
Theorem send_window_bounded c w
    (Hc : ConfigOk c) (Hreach : rtc send_step (new (from_config c)) w) :
  unacked_count w ≤ max_send_window_packets c ∧
  unacked_bytes w ≤ max_send_window_packets c * MAX_PACKET_PAYLOAD_BYTES ∧
  unacked_bytes w = map_sum payload_len (unacked w) ∧
  (∀ s e, unacked w !! s = Some e → sequence e = s ∧ 1 ≤ s < next_sequence w) ∧
  0 ≤ last_ack w.
Proof.
  destruct (from_config_limits c Hc) as [Hp Hb].
  assert (H : send_ok w ∧ config w = from_config c ∧ 0 ≤ last_ack w).
  { revert Hreach. apply (rtc_ind_r (λ w, send_ok w ∧ config w = from_config c ∧ 0 ≤ last_ack w)).
    - split; [by apply new_send_ok|]. done.
    - intros w1 w2 _ Hst (H1 & H2 & H3). apply send_step_ok in Hst as (H4 & H5 & H6); [|done].
      split_and!; [done|by rewrite H5|lia]. }
  destruct H as ([Hn He Hby Hcnt Hmb Hlim] & Hcfg & Hla). rewrite Hcfg in *. cbn in Hcnt, Hmb.
  split_and!; try done. intros s e Hs. apply He in Hs. tauto.
Qed.

(** An acknowledgement clears exactly what it covers.  When it is not older
    than the acknowledgement floor, a tracked packet is removed if and only if
    its sequence is at most [ack_through] and is not NACKed (a NACK at or above
    [ack_through] does not count), the removed entries are reported in ascending
    order, the NACKed ones stay and are reported, and the floor moves up to at
    most [ack_through]; an older acknowledgement changes nothing. *)
Theorem acknowledge_exact ack nacks w (Hw : send_ok w) (Hack : 0 ≤ ack) :
  let cleared s := s ≤ ack ∧ ¬ (s ∈ nacks ∧ s < ack) in
  let '(w', o) := acknowledge ack nacks w in
  if decide (ack < last_ack w) then w' = w ∧ o = mkOutcome [] [] true
  else
    (∀ s, unacked w' !! s = if decide (cleared s) then None else unacked w !! s) ∧
    sequence <$> newly_acked o = filter (λ s, cleared s) (keys_asc (unacked w)) ∧
    retained_nacks o = filter (λ s, s ∈ nacks ∧ s < ack) (keys_asc (unacked w)) ∧
    last_ack w ≤ last_ack w' ≤ ack.
Proof.
  intros cleared. case_decide as Hdup.
  { unfold acknowledge. destruct (ack <? last_ack w) eqn:E; breflect; [done|lia]. }
  pose proof (acknowledge_spec ack nacks w Hw Hack ltac:(lia)) as H. cbv zeta in H.
  destruct (acknowledge ack nacks w) as [w' o].
  destruct H as (_ & H2 & H3 & H4 & _ & _ & _ & H5).
  split_and!; [exact H2| |exact H4|apply H5|apply H5].
  apply (inj (fmap Some)). rewrite <- !list_fmap_compose.
  transitivity (fmap (λ o, sequence <$> o) (Some <$> newly_acked o)).
  { by rewrite <- list_fmap_compose. }
  rewrite H3, <- list_fmap_compose. apply list_fmap_ext.
  intros i s Hs%list_elem_of_lookup_2. apply list_elem_of_filter in Hs as [_ Hs].
  apply elem_of_keys_asc in Hs as [e He]. cbn. rewrite He. cbn. f_equal.
  by apply (so_entry w Hw) in He as [-> _].
Qed.

(** ** Witnesses *)
Lemma send_window_bounded_witness :
  unacked_count (enqueue 100 0 (new (from_config balanced))).1 ≤ max_send_window_packets balanced.
Proof.
  refine (proj1 (send_window_bounded balanced _ balanced_ok _)).
  apply rtc_once, step_enqueue; vm_compute; congruence.
Defined.

Lemma acknowledge_exact_witness :
  let w := (enqueue 100 0 (new (from_config balanced))).1 in
  sequence <$> newly_acked (acknowledge 1 [] w).2 =
    filter (λ s, s ≤ 1 ∧ ¬ (s ∈ [] ∧ s < 1)) (keys_asc (unacked w)).
Proof.
  intros w.
  pose proof (acknowledge_exact 1 [] w) as H. cbv zeta in H.
  destruct (acknowledge 1 [] w) as [w' o]. rewrite decide_False in H.
  - apply H; [|lia]. apply enqueue_ok; [|lia|vm_compute; congruence].
    apply new_send_ok; apply from_config_limits, balanced_ok.
  - vm_compute. congruence.
Defined.
