(* ===== verification/Stream.v ===== *)
(** * A send window and a receive window over a lossy network

    Composes [SendWindow] and [RecvWindow] the way the two ends of a stream use
    them: the network may lose, duplicate and reorder data packets and
    acknowledgements.  The abstract specification is a byte-preserving FIFO
    queue: what the receiver has delivered is a prefix of what was sent, and
    once the sender tracks no packet any more, and has given none up, it is all
    of it. *)
From S2P Require Import Prelude BTree StreamConfig RecvWindow SendWindow.

Record Link := mkLink {
  sender : SendWindowPolicy;
  receiver : RecvWindowPolicy;
  (** The payloads sent so far; packet [s] carries the payload number [s - 1]. *)
  sent : list bytes;
  (** The acknowledgements produced so far: the network may deliver any of
      them, at any later time, any number of times. *)
  acks : list (Z * list Z);
  (** What the receiving application has been given. *)
  delivered : list ReorderEntry;
  (** The packets the sender has stopped tracking without an acknowledgement:
      [StreamingConnection::advance] removes a packet that has been
      retransmitted as often as the configuration allows. *)
  abandoned : gset Z;
}.

Inductive link_step : Link → Link → Prop :=
  | link_send pl now l w' seq :
      enqueue (zlen pl) now (sender l) = (w', Ok seq) →
      link_step l (mkLink w' (receiver l) (sent l ++ [pl]) (acks l) (delivered l) (abandoned l))
  | link_deliver seq pl l w' d :
      1 ≤ seq → sent l !! Z.to_nat (seq - 1) = Some pl →
      receive seq pl (receiver l) = (w', d) →
      link_step l (mkLink (sender l) w' (sent l) (acks l) (delivered l ++ delivered_by d)
                     (abandoned l))
  | link_ack l :
      link_step l (mkLink (sender l) (receiver l) (sent l) (acks l ++ [ack_view (receiver l)])
                     (delivered l) (abandoned l))
  | link_acknowledge ack nacks l :
      (ack, nacks) ∈ acks l →
      link_step l (mkLink (acknowledge ack nacks (sender l)).1 (receiver l) (sent l) (acks l)
                     (delivered l) (abandoned l))
  | link_retransmitted seq now l :
      link_step l (mkLink (mark_retransmitted seq now (sender l)) (receiver l) (sent l) (acks l)
                     (delivered l) (abandoned l))
  | link_remove seq entry l w' :
      remove seq (sender l) = (w', Some entry) →
      link_step l (mkLink w' (receiver l) (sent l) (acks l) (delivered l) ({[seq]} ∪ abandoned l)).

Definition link_new (c : StreamingConfig) : Link :=
  mkLink (SendWindow.new (SendWindow.from_config c)) (RecvWindow.new (RecvWindow.from_config c))
    [] [] [] ∅.

(** ** Invariant *)

(** The payload packet [s] carries. *)
Definition carries (l : Link) (s : Z) (pl : bytes) : Prop :=
  1 ≤ s ∧ sent l !! Z.to_nat (s - 1) = Some pl.

Record link_ok (l : Link) : Prop := {
  lo_send : send_ok (sender l);
  lo_recv : recv_ok (receiver l);
  lo_window : RecvWindow.max_window_packets (RecvWindow.config (receiver l)) ≤ MAX_NACK_COUNT;
  lo_sent : zlen (sent l) = next_sequence (sender l) - 1;
  (** Buffered packets carry their payload. *)
  lo_buffer s e : reorder (receiver l) !! s = Some e → carries l s (payload e);
  (** The deliveries are the sent payloads in order. *)
  lo_delivered : payload <$> delivered l = take (Z.to_nat (next_expected (receiver l) - 1)) (sent l);
  lo_expected : next_expected (receiver l) - 1 ≤ zlen (sent l);
  (** Acknowledgements name only received packets. *)
  lo_acks a ns s : (a, ns) ∈ acks l → 1 ≤ s ≤ a → s ∉ ns → has_received (receiver l) s;
  lo_acks_ok a ns : (a, ns) ∈ acks l → 0 ≤ a ∧ Forall (λ s, s < a) ns;
  (** Every sent packet is tracked by the sender, has arrived or was given up. *)
  lo_tracked s : 1 ≤ s < next_sequence (sender l) →
    is_Some (unacked (sender l) !! s) ∨ has_received (receiver l) s ∨ s ∈ abandoned l;
}.

Section link.
Implicit Types l : Link.

Lemma link_new_ok c : ConfigOk c → link_ok (link_new c).
Proof.
  intros Hc. destruct (from_config_limits c Hc) as [Hp Hb].
  destruct Hc as [_ Hr _ _ _ _]. unfold MAX_RECV_WINDOW_PACKETS in Hr.
  constructor; cbn [link_new sender receiver sent acks delivered abandoned].
  - by apply new_send_ok.
  - apply new_recv_ok. cbn. lia.
  - cbn. unfold MAX_NACK_COUNT. lia.
  - done.
  - intros s e. cbn. by rewrite lookup_empty.
  - done.
  - done.
  - intros a ns s Ha. by apply not_elem_of_nil in Ha.
  - intros a ns Ha. by apply not_elem_of_nil in Ha.
  - intros s Hs. cbn in Hs. unfold FIRST_APPLICATION_SEQUENCE in Hs. lia.
Qed.

Lemma enqueue_Ok len now w w' seq :
  send_ok w → next_sequence w < u32_max → enqueue len now w = (w', Ok seq) →
  seq = next_sequence w ∧ next_sequence w' = next_sequence w + 1 ∧
  unacked w' = <[seq := mkUnacked seq len now 0]> (unacked w).
Proof.
  intros Hw Hn. unfold enqueue. case_bool_decide; [done|]. intros [= <- <-].
  destruct Hw as [Hnext _ _ _ _ _]. cbn. split_and!; try done.
  apply wrap_succ. lia.
Qed.

Lemma link_send_ok pl now l w' seq :
  link_ok l → next_sequence (sender l) < u32_max →
  enqueue (zlen pl) now (sender l) = (w', Ok seq) →
  link_ok (mkLink w' (receiver l) (sent l ++ [pl]) (acks l) (delivered l) (abandoned l)).
Proof.
  intros [Hs Hr Hw Hsent Hbuf Hdel Hexp Hacks Hao Htr] Hn Henq.
  pose proof (enqueue_ok (zlen pl) now (sender l) Hs (zlen_nonneg pl) Hn) as Hok.
  rewrite Henq in Hok. destruct (enqueue_Ok _ _ _ _ _ Hs Hn Henq) as (-> & Hnext & Hun).
  constructor; cbn [sender receiver sent acks delivered abandoned]; try done.
  - rewrite zlen_app. change (zlen [pl]) with 1. lia.
  - intros s e He. destruct (Hbuf s e He) as [H1 H2]. split; [done|].
    cbn. by apply lookup_app_l_Some.
  - rewrite Hdel. symmetry. apply take_app_le. unfold zlen in *. lia.
  - rewrite zlen_app. change (zlen [pl]) with 1. lia.
  - intros s Hs1. rewrite Hnext in Hs1. rewrite Hun.
    destruct (decide (s = next_sequence (sender l))) as [->|Hne].
    + left. rewrite lookup_insert_eq. eauto.
    + rewrite lookup_insert_ne by done. apply Htr. lia.
Qed.

(** A contiguous run of entries that carry their payloads is a piece of what
    was sent. *)
Lemma run_payloads l n es :
  1 ≤ n → RecvWindow.sequence <$> es = seqZ n (zlen es) →
  (∀ e, e ∈ es → carries l (RecvWindow.sequence e) (payload e)) →
  payload <$> es = take (length es) (drop (Z.to_nat (n - 1)) (sent l)).
Proof.
  intros Hn. revert n Hn. induction es as [|e es IH]; intros n Hn Hrun Hpay; [done|].
  pose proof (zlen_nonneg es). rewrite zlen_cons in Hrun.
  rewrite seqZ_cons in Hrun by lia. cbn in Hrun. injection Hrun as He Hrun.
  destruct (Hpay e ltac:(by left)) as [_ Hp]. rewrite He in Hp.
  cbn [fmap list_fmap length]. erewrite drop_S by exact Hp. cbn [take]. f_equal.
  change (list_fmap _ _ payload es) with (payload <$> es). rewrite (IH (n + 1)).
  - do 2 f_equal. lia.
  - lia.
  - replace (Z.pred (1 + zlen es)) with (zlen es) in Hrun by lia.
    replace (n + 1) with (Z.succ n) by lia. exact Hrun.
  - intros e' He'. apply Hpay. by right.
Qed.

Lemma link_deliver_ok seq pl l w' d :
  link_ok l → 1 ≤ seq → sent l !! Z.to_nat (seq - 1) = Some pl →
  receive seq pl (receiver l) = (w', d) →
  link_ok (mkLink (sender l) w' (sent l) (acks l) (delivered l ++ delivered_by d)
             (abandoned l)).
Proof.
  intros [Hs Hr Hw Hsent Hbuf Hdel Hexp Hacks Hao Htr] Hseq Hpl Hrec.
  pose proof (so_next _ Hs) as Hns. pose proof (ro_next _ Hr) as Hnx.
  assert (Hlt : seq - 1 < zlen (sent l)).
  { apply lookup_lt_Some in Hpl. unfold zlen. lia. }
  destruct (receive_step (receiver l) seq pl Hr) as [Hok Heff]; [lia|].
  rewrite Hrec in Hok, Heff. cbn [fst snd] in *.
  destruct Heff as [Hc Hm Hrun Horig Hbuf' Hrecv].
  assert (Hpay : ∀ e, e ∈ delivered_by d → carries l (RecvWindow.sequence e) (payload e)).
  { intros e He. rewrite Forall_forall in Horig. destruct (Horig e He) as [->|Hb]; [done|].
    by apply Hbuf. }
  assert (Hlen : zlen (delivered_by d) = next_expected w' - next_expected (receiver l)).
  { apply (f_equal length) in Hrun. rewrite length_fmap, length_seqZ in Hrun. unfold zlen. lia. }
  assert (Hlast : next_expected w' - 1 ≤ zlen (sent l)).
  { destruct (decide (next_expected w' = next_expected (receiver l))) as [->|]; [done|].
    assert (Hin : next_expected w' - 1 ∈ RecvWindow.sequence <$> delivered_by d).
    { rewrite Hrun. apply elem_of_seqZ. lia. }
    apply list_elem_of_fmap in Hin as (e & He & Hin). destruct (Hpay e Hin) as [_ Hp].
    apply lookup_lt_Some in Hp. rewrite <- He in Hp. unfold zlen. lia. }
  constructor; cbn [sender receiver sent acks delivered abandoned]; try done.
  - by rewrite Hc.
  - intros s e He. destruct (ro_reorder _ Hok _ _ He) as [Hse _].
    destruct (Hbuf' s e He) as [->|Hb]; [|by apply Hbuf]. cbn in Hse. subst s. done.
  - rewrite fmap_app, Hdel, (run_payloads l (next_expected (receiver l)));
      [|lia|by rewrite Hlen|done].
    rewrite take_take_drop. f_equal. unfold zlen in Hlen. lia.
  - intros a ns s Ha Hs1 Hs2. apply Hrecv. left. by apply (Hacks a ns).
  - intros s Hs1. destruct (Htr s Hs1) as [?|[?|?]]; [by left| |by right; right].
    right; left. apply Hrecv. by left.
Qed.

(** An acknowledgement taken from the receiver names only received packets. *)
Lemma link_ack_ok l :
  link_ok l →
  link_ok (mkLink (sender l) (receiver l) (sent l) (acks l ++ [ack_view (receiver l)])
             (delivered l) (abandoned l)).
Proof.
  intros [Hs Hr Hw Hsent Hbuf Hdel Hexp Hacks Hao Htr].
  pose proof (ack_view_exact (receiver l) Hr Hw) as Hav.
  pose proof (ack_view_nonneg (receiver l) Hr) as Hnn.
  destruct (ack_view (receiver l)) as [ack nacks].
  destruct Hav as (H1 & H2 & H3 & H4 & H5).
  constructor; cbn [sender receiver sent acks delivered abandoned]; try done.
  - intros a ns s [Ha|Ha%list_elem_of_singleton]%elem_of_app Hs1 Hs2; [by apply (Hacks a ns)|].
    injection Ha as -> ->. destruct (decide (has_received (receiver l) s)) as [|Hn]; [done|].
    apply H1 in Hn; done.
  - intros a ns [Ha|Ha%list_elem_of_singleton]%elem_of_app; [by apply Hao|].
    injection Ha as -> ->. split; [exact Hnn|]. eapply Forall_impl; [exact H4|]. cbn. lia.
Qed.

Lemma link_acknowledge_ok ack nacks l :
  link_ok l → (ack, nacks) ∈ acks l →
  link_ok (mkLink (acknowledge ack nacks (sender l)).1 (receiver l) (sent l) (acks l)
             (delivered l) (abandoned l)).
Proof.
  intros [Hs Hr Hw Hsent Hbuf Hdel Hexp Hacks Hao Htr] Ha.
  destruct (Hao _ _ Ha) as [Hpos Hlt].
  destruct (acknowledge_config ack nacks (sender l) Hs Hpos) as (_ & Hnx & _).
  constructor; cbn [sender receiver sent acks delivered abandoned]; try done.
  - by apply acknowledge_ok.
  - by rewrite Hnx.
  - rewrite Hnx. intros s Hs1. destruct (Htr s Hs1) as [Hun|?]; [|by right].
    destruct (decide (last_ack (sender l) ≤ ack)) as [Hle|Hgt].
    + pose proof (acknowledge_spec ack nacks (sender l) Hs Hpos Hle) as H. cbv zeta in H.
      destruct (acknowledge ack nacks (sender l)) as [w' o]. cbn [fst].
      destruct H as (_ & H2 & _). rewrite H2. case_decide as Hcl; [right; left|by left].
      destruct Hcl as [Hcl1 Hcl2]. apply (Hacks ack nacks); [done|lia|].
      intros Hin. apply Hcl2. split; [done|]. rewrite Forall_forall in Hlt. by apply Hlt.
    + left. unfold acknowledge. destruct (ack <? last_ack (sender l)) eqn:E; breflect; [done|lia].
Qed.

Lemma link_retransmitted_ok seq now l :
  link_ok l →
  link_ok (mkLink (mark_retransmitted seq now (sender l)) (receiver l) (sent l) (acks l)
             (delivered l) (abandoned l)).
Proof.
  intros [Hs Hr Hw Hsent Hbuf Hdel Hexp Hacks Hao Htr].
  assert (Hnx : next_sequence (mark_retransmitted seq now (sender l)) = next_sequence (sender l)).
  { unfold mark_retransmitted. by case_match. }
  constructor; cbn [sender receiver sent acks delivered abandoned]; try done.
  - by apply mark_retransmitted_ok.
  - by rewrite Hnx.
  - rewrite Hnx. intros s Hs1. destruct (Htr s Hs1) as [Hun|?]; [left|by right].
    unfold mark_retransmitted. case_match; [|done]. cbn.
    destruct (decide (s = seq)) as [->|]; [rewrite lookup_insert_eq; eauto|].
    by rewrite lookup_insert_ne.
Qed.

Lemma link_remove_ok seq entry l w' :
  link_ok l → remove seq (sender l) = (w', Some entry) →
  link_ok (mkLink w' (receiver l) (sent l) (acks l) (delivered l) ({[seq]} ∪ abandoned l)).
Proof.
  intros [Hs Hr Hw Hsent Hbuf Hdel Hexp Hacks Hao Htr] Hrm.
  pose proof (remove_ok seq (sender l) Hs) as Hok. rewrite Hrm in Hok. cbn [fst] in Hok.
  unfold remove in Hrm. destruct (unacked (sender l) !! seq) as [e|]; [|done].
  injection Hrm as <- <-. constructor; cbn [sender receiver sent acks delivered abandoned]; try done.
  cbn [next_sequence unacked]. intros s Hs1.
  destruct (decide (s = seq)) as [->|Hne]; [right; right; set_solver|].
  rewrite lookup_delete_ne by done. destruct (Htr s Hs1) as [?|[?|?]]; [tauto|tauto|].
  right; right. set_solver.
Qed.

(** No step forgets a payload that was sent. *)
Lemma link_step_sent l l' : link_step l l' → zlen (sent l) ≤ zlen (sent l').
Proof. intros []; cbn [sent]; rewrite ?zlen_app; try change (zlen [pl]) with 1; lia. Qed.

Lemma link_step_ok l l' :
  link_step l l' → zlen (sent l') < u32_max → link_ok l → link_ok l'.
Proof.
  intros [] Hn Hl; eauto using link_deliver_ok, link_ack_ok, link_acknowledge_ok,
    link_retransmitted_ok, link_remove_ok.
  cbn [sent] in Hn. rewrite zlen_app in Hn. change (zlen [pl]) with 1 in Hn.
  eapply link_send_ok; [done| |done]. pose proof (lo_sent _ Hl). lia.
Qed.

Lemma link_reach_ok c l :
  ConfigOk c → rtc link_step (link_new c) l → zlen (sent l) < u32_max → link_ok l.
Proof.
  intros Hc. apply (rtc_ind_r (λ l, zlen (sent l) < u32_max → link_ok l)).
  - intros _. by apply link_new_ok.
  - intros l1 l2 _ Hst IH Hn. eapply link_step_ok; [done|done|]. apply IH.
    pose proof (link_step_sent _ _ Hst). lia.
Qed.

(** When the sender tracks nothing, every packet it has not given up has
    arrived, and so all of them have been delivered if none was. *)
Lemma all_delivered l :
  link_ok l → unacked (sender l) = ∅ → abandoned l = ∅ → payload <$> delivered l = sent l.
Proof.
  intros [Hs Hr Hw Hsent Hbuf Hdel Hexp Hacks Hao Htr] He Ha. rewrite Hdel.
  apply take_ge. enough (next_sequence (sender l) ≤ next_expected (receiver l)).
  { unfold zlen in Hsent. lia. }
  destruct (decide (next_sequence (sender l) ≤ next_expected (receiver l))); [done|].
  pose proof (ro_next _ Hr) as Hnx.
  destruct (Htr (next_expected (receiver l)) ltac:(lia)) as [Hun|[[?|[e Hin]]|Hin]].
  - by rewrite He, lookup_empty, is_Some_alt in Hun.
  - lia.
  - apply (ro_reorder _ Hr) in Hin. lia.
  - by rewrite Ha in Hin.
Qed.

(** Acknowledgements do not account for a packet the receiver lacks: it is
    tracked or the sender gave it up. *)
Lemma missing_tracked l s :
  link_ok l → 1 ≤ s < next_sequence (sender l) → ¬ has_received (receiver l) s →
  s ∉ abandoned l → is_Some (unacked (sender l) !! s).
Proof. intros Hl Hs Hr Ha. destruct (lo_tracked _ Hl s Hs) as [?|[?|?]]; tauto. Qed.
End link.

(** ** Theorems *)


(** C7: an acknowledgement never releases a packet the receiver does not have.
    Over the same network, while fewer than [u32_max] packets have been sent,
    every packet ever sent is still tracked by the sender for retransmission,
    has been taken in by the receiver, or is one the sending connection itself
    removed from its window, as it does after the last retransmission; and when the sender tracks nothing any
    more and gave nothing up, the receiving application has been given exactly
    what was sent. *)
Theorem stream_no_loss c l
    (Hc : ConfigOk c) (Hreach : rtc link_step (link_new c) l) (Hsent : zlen (sent l) < u32_max) :
  (∀ s, 1 ≤ s ≤ zlen (sent l) → ¬ has_received (receiver l) s → s ∉ abandoned l →
     is_Some (unacked (sender l) !! s)) ∧
  (unacked_count (sender l) = 0 → abandoned l = ∅ → payload <$> delivered l = sent l).
Proof.
  pose proof (link_reach_ok c l Hc Hreach Hsent) as Hl. split.
  - intros s Hs. apply missing_tracked; [done|]. pose proof (lo_sent _ Hl). lia.
  - unfold unacked_count. intros H0. apply all_delivered; [done|].
    apply map_size_empty_iff. lia.
Qed.

(** ** Witnesses *)

(** Two packets are sent, arrive in the wrong order, and are acknowledged. *)
Definition demo_link : Link :=
  let s2 := (enqueue 1 5 (enqueue 1 0 (SendWindow.new (SendWindow.from_config balanced))).1).1 in
  let r1 := RecvWindow.new (RecvWindow.from_config balanced) in
  let r2 := (receive 2 [22] r1).1 in
  let r3 := (receive 1 [11] r2).1 in
  mkLink (acknowledge 2 [] s2).1 r3 [[11]; [22]] [ack_view r3]
    [RecvWindow.mkEntry 1 [11]; RecvWindow.mkEntry 2 [22]] ∅.

Lemma demo_link_reachable : rtc link_step (link_new balanced) demo_link.
Proof.
  eapply rtc_l. { eapply (link_send [11] 0). vm_compute; reflexivity. }
  eapply rtc_l. { eapply (link_send [22] 5). vm_compute; reflexivity. }
  eapply rtc_l. { eapply (link_deliver 2 [22]); [lia|reflexivity|vm_compute; reflexivity]. }
  eapply rtc_l. { eapply (link_deliver 1 [11]); [lia|reflexivity|vm_compute; reflexivity]. }
  eapply rtc_l. { apply link_ack. }
  eapply rtc_l. { apply (link_acknowledge 2 []). vm_compute. left. }
  assert (Heq : ∀ a b : Link, a = b → rtc link_step a b) by (intros ? ? ->; apply rtc_refl).
  apply Heq. vm_compute. reflexivity.
Qed.


Lemma stream_no_loss_witness : payload <$> delivered demo_link = [[11]; [22]].
Proof.
  apply (proj2 (stream_no_loss balanced demo_link balanced_ok demo_link_reachable eq_refl)).
  all: vm_compute; reflexivity.
Defined.
