(* ===== verification/Congestion.v ===== *)
(** * Congestion control and retransmission timers

    Models [src/crates/i2pr-client/src/streaming/congestion.rs] (additive
    increase, multiplicative decrease) in module [Congestion] and
    [src/crates/i2pr-client/src/streaming/retransmit.rs] (RTT estimation and
    RTO with exponential backoff) in module [Retransmit]. *)
From S2P Require Import Prelude StreamConfig.

Definition INITIAL_CONGESTION_WINDOW : Z := 16.
Definition MAX_CONGESTION_WINDOW : Z := 256.
Definition MIN_CONGESTION_WINDOW : Z := 1.

Record CongestionConfig := mkCongestionConfig {
  initial_window : Z;
  max_window : Z;
  min_window : Z;
}.

Inductive CongestionDecision :=
  | Allow (additional_packets : Z)
  | Full.

Record CongestionPolicy := mkCongestion {
  congestion_config : CongestionConfig;
  current_window : Z;
  acked_since_increase : Z;
  in_flight : Z;
}.

Module Congestion.
Definition from_config (config : StreamingConfig) : CongestionConfig :=
  let initial := Z.min INITIAL_CONGESTION_WINDOW (max_send_window_packets config) in
  let max := Z.min (max_send_window_packets config) MAX_CONGESTION_WINDOW in
  let max := Z.max (Z.max max initial) MIN_CONGESTION_WINDOW in
  mkCongestionConfig initial max MIN_CONGESTION_WINDOW.

Definition new (config : CongestionConfig) : CongestionPolicy :=
  mkCongestion config (initial_window config) 0 0.

Definition evaluate (p : CongestionPolicy) : CongestionDecision :=
  let available := saturating_sub (current_window p) (in_flight p) in
  if available >? 0 then Allow available else Full.

Definition record_sent (p : CongestionPolicy) : CongestionPolicy :=
  mkCongestion (congestion_config p) (current_window p) (acked_since_increase p)
    (saturating_add u32_max (in_flight p) 1).

Definition record_acked (p : CongestionPolicy) : CongestionPolicy :=
  let in_flight := saturating_sub (in_flight p) 1 in
  let acked := saturating_add u32_max (acked_since_increase p) 1 in
  if acked >=? current_window p then
    mkCongestion (congestion_config p)
      (Z.min (saturating_add u32_max (current_window p) 1) (max_window (congestion_config p)))
      0 in_flight
  else mkCongestion (congestion_config p) (current_window p) acked in_flight.

Definition record_loss (p : CongestionPolicy) : CongestionPolicy :=
  let halved := Z.max (current_window p) (min_window (congestion_config p)) / 2 in
  mkCongestion (congestion_config p) (Z.max halved (min_window (congestion_config p))) 0
    (in_flight p).
End Congestion.

(** ** Retransmission *)
Definition MAX_RETRANSMIT_ATTEMPTS : Z := 16.
Definition MIN_RTO_MILLIS : Z := 100.
Definition MAX_RTO_MILLIS : Z := 60000.

Record RttSample := mkSample {
  rtt_ms : Z;
  sample_sequence : Z;
  was_retransmit : bool;
}.

Record RetransmitConfig := mkRetransmitConfig {
  initial_rto_ms : Z;
  min_rto_ms : Z;
  max_rto_ms : Z;
  max_attempts : Z;
}.

Inductive RetransmitDecision :=
  | DoRetransmit (sequence : Z)
  | Drop (sequence : Z)
  | Wait.

Record RetransmitPolicy := mkRetransmit {
  retransmit_config : RetransmitConfig;
  smoothed_rtt_ms : Z;
  rtt_variance_ms : Z;
  current_rto_ms : Z;
}.

Module Retransmit.
Definition from_config (config : StreamingConfig) : RetransmitConfig :=
  mkRetransmitConfig 5000 MIN_RTO_MILLIS (Z.min MAX_RTO_MILLIS (close_timeout_ms config / 2))
    (max_retransmit_count config).

Definition new (config : RetransmitConfig) : RetransmitPolicy :=
  mkRetransmit config (initial_rto_ms config) (initial_rto_ms config / 2) (initial_rto_ms config).

Definition evaluate (p : RetransmitPolicy) (sent_at_ms retransmit_count now_ms : Z)
    : RetransmitDecision :=
  if retransmit_count >=? max_attempts (retransmit_config p) then Wait
  else if saturating_sub now_ms sent_at_ms >=? current_rto_ms p then DoRetransmit 0
  else Wait.

(** A plain [*] or [+] on [u64]: [None] is the overflow, where a debug build
    panics and a release build wraps. *)
Definition u64_op (v : Z) : option Z := try_from u64_max v.

Definition record_rtt_sample (sample : RttSample) (p : RetransmitPolicy)
    : option RetransmitPolicy :=
  if was_retransmit sample then Some p
  else
  let rtt := rtt_ms sample in
  scaled ← u64_op (smoothed_rtt_ms p * (8 - 1));
  sum ← u64_op (scaled + rtt * 1);
  let smoothed := sum / 8 in
  let diff := abs_diff rtt smoothed in
  scaled_var ← u64_op (rtt_variance_ms p * (4 - 1));
  sum_var ← u64_op (scaled_var + diff * 1);
  let variance := sum_var / 4 in
  four_var ← u64_op (4 * variance);
  let backoff := Z.max four_var 0 in
  let rto := Z.min (Z.max (saturating_add u64_max smoothed backoff)
                          (min_rto_ms (retransmit_config p)))
                   (max_rto_ms (retransmit_config p)) in
  Some (mkRetransmit (retransmit_config p) smoothed variance rto).

Fixpoint backoff_loop (n : nat) (max_rto rto : Z) : Z :=
  match n with
  | O => rto
  | S n' => backoff_loop n' max_rto (Z.min (saturating_mul u64_max rto 2) max_rto)
  end.

Definition rto_for_retransmit (p : RetransmitPolicy) (retransmit_count : Z) : Z :=
  Z.max (backoff_loop (Z.to_nat retransmit_count) (max_rto_ms (retransmit_config p))
           (current_rto_ms p))
    (min_rto_ms (retransmit_config p)).
End Retransmit.

(** ** Invariants *)
Record congestion_ok (p : CongestionPolicy) : Prop := {
  co_config : 1 ≤ min_window (congestion_config p) ≤ max_window (congestion_config p) ∧
              max_window (congestion_config p) < u32_max;
  co_window : min_window (congestion_config p) ≤ current_window p
              ≤ max_window (congestion_config p);
  co_acked : 0 ≤ acked_since_increase p < current_window p;
  co_flight : 0 ≤ in_flight p ≤ u32_max;
}.

Inductive congestion_step : CongestionPolicy → CongestionPolicy → Prop :=
  | step_sent p : congestion_step p (Congestion.record_sent p)
  | step_acked p : congestion_step p (Congestion.record_acked p)
  | step_loss p : congestion_step p (Congestion.record_loss p).

Section congestion.
Implicit Types p : CongestionPolicy.

Lemma record_sent_ok p : congestion_ok p → congestion_ok (Congestion.record_sent p).
Proof.
  intros [H1 H2 H3 H4]. constructor; cbn [Congestion.record_sent congestion_config current_window
    acked_since_increase in_flight]; try done. unfold saturating_add. lia.
Qed.

Lemma record_acked_ok p : congestion_ok p → congestion_ok (Congestion.record_acked p).
Proof.
  intros [H1 H2 H3 H4]. unfold Congestion.record_acked, saturating_add, saturating_sub.
  destruct (_ >=? _) eqn:E; breflect; constructor;
    cbn [congestion_config current_window acked_since_increase in_flight]; lia.
Qed.

Lemma record_loss_ok p : congestion_ok p → congestion_ok (Congestion.record_loss p).
Proof.
  intros [H1 H2 H3 H4]. unfold Congestion.record_loss.
  assert (0 ≤ Z.max (current_window p) (min_window (congestion_config p)) / 2
          ≤ current_window p) by (split; [apply Z.div_pos; lia|];
    apply Z.div_le_upper_bound; lia).
  constructor; cbn [congestion_config current_window acked_since_increase in_flight]; lia.
Qed.

Lemma congestion_step_ok p p' : congestion_step p p' → congestion_ok p →
  congestion_ok p' ∧ congestion_config p' = congestion_config p.
Proof.
  intros [q|q|q] Hq.
  - split; [by apply record_sent_ok|done].
  - split; [by apply record_acked_ok|]. unfold Congestion.record_acked. by case_match.
  - split; [by apply record_loss_ok|done].
Qed.

Lemma new_congestion_ok c : ConfigOk c → congestion_ok (Congestion.new (Congestion.from_config c)).
Proof.
  intros [Hs _ _ _ _ _]. unfold MAX_SEND_WINDOW_PACKETS in Hs.
  unfold Congestion.new, Congestion.from_config, INITIAL_CONGESTION_WINDOW, MAX_CONGESTION_WINDOW,
    MIN_CONGESTION_WINDOW, u32_max.
  constructor; cbn [congestion_config current_window acked_since_increase in_flight initial_window
    max_window min_window]; lia || (unfold u32_max; lia).
Qed.

(** Fewer acknowledgements than the window needs do not change it. *)
Lemma acked_iter n p :
  congestion_ok p → acked_since_increase p + Z.of_nat n < current_window p →
  current_window (Nat.iter n Congestion.record_acked p) = current_window p ∧
  acked_since_increase (Nat.iter n Congestion.record_acked p) =
    acked_since_increase p + Z.of_nat n ∧
  congestion_config (Nat.iter n Congestion.record_acked p) = congestion_config p.
Proof.
  intros Hp Hn. induction n as [|n IH]; [cbn; split_and!; [done|lia|done]|].
  destruct IH as (IH1 & IH2 & IH3); [lia|]. cbn [Nat.iter nat_rect].
  change (nat_rect _ p (λ _, Congestion.record_acked) n) with (Nat.iter n Congestion.record_acked p).
  set (q := Nat.iter n Congestion.record_acked p) in *.
  unfold Congestion.record_acked. rewrite IH1, IH2, IH3.
  destruct Hp as [H1 H2 H3 H4]. unfold saturating_add.
  destruct (_ >=? _) eqn:E; breflect; [lia|].
  cbn [current_window acked_since_increase congestion_config]. split_and!; try done; lia.
Qed.
End congestion.

Section retransmit.
(** The estimator's state after samples of at most [2^60] milliseconds. *)
Record retransmit_ok (p : RetransmitPolicy) : Prop := {
  rt_smoothed : 0 ≤ smoothed_rtt_ms p ≤ 2 ^ 60;
  rt_variance : 0 ≤ rtt_variance_ms p ≤ 2 ^ 60;
  rt_rto : 0 ≤ current_rto_ms p;
  rt_config : 0 ≤ min_rto_ms (retransmit_config p) ∧
              0 ≤ max_rto_ms (retransmit_config p) ≤ u64_max;
}.

Lemma u64_op_Some v : v ≤ u64_max → Retransmit.u64_op v = Some v.
Proof. intros. unfold Retransmit.u64_op, try_from. destruct (_ <=? _) eqn:E; [done|breflect; lia]. Qed.

Lemma record_rtt_sample_spec sample p :
  retransmit_ok p → 0 ≤ rtt_ms sample ≤ 2 ^ 60 →
  ∃ p', Retransmit.record_rtt_sample sample p = Some p' ∧ retransmit_ok p' ∧
    retransmit_config p' = retransmit_config p ∧
    (if was_retransmit sample then p' = p
     else Z.min (min_rto_ms (retransmit_config p)) (max_rto_ms (retransmit_config p))
            ≤ current_rto_ms p' ≤ max_rto_ms (retransmit_config p) ∧
          Z.min (smoothed_rtt_ms p) (rtt_ms sample) ≤ smoothed_rtt_ms p'
            ≤ Z.max (smoothed_rtt_ms p) (rtt_ms sample)).
Proof.
  intros [Hs Hv Hr Hc] Hrtt. unfold Retransmit.record_rtt_sample.
  destruct (was_retransmit sample); [by exists p|].
  set (smoothed := (smoothed_rtt_ms p * (8 - 1) + rtt_ms sample * 1) / 8).
  assert (Hsm : Z.min (smoothed_rtt_ms p) (rtt_ms sample) ≤ smoothed
            ≤ Z.max (smoothed_rtt_ms p) (rtt_ms sample)).
  { unfold smoothed. split; [apply Z.div_le_lower_bound|apply Z.div_le_upper_bound]; lia. }
  rewrite (u64_op_Some (smoothed_rtt_ms p * (8 - 1))) by (unfold u64_max; lia). cbn [mbind option_bind].
  rewrite (u64_op_Some (_ + rtt_ms sample * 1)) by (unfold u64_max; lia).
  cbn [mbind option_bind]. fold smoothed.
  set (diff := abs_diff (rtt_ms sample) smoothed).
  assert (Hd : 0 ≤ diff ≤ 2 ^ 60) by (unfold diff, abs_diff; lia).
  rewrite (u64_op_Some (rtt_variance_ms p * (4 - 1))) by (unfold u64_max; lia).
  cbn [mbind option_bind].
  rewrite (u64_op_Some (_ + diff * 1)) by (unfold u64_max; lia). cbn [mbind option_bind].
  set (variance := (rtt_variance_ms p * (4 - 1) + diff * 1) / 4).
  assert (Hvar : 0 ≤ variance ≤ 2 ^ 60).
  { unfold variance. split; [apply Z.div_pos; lia|apply Z.div_le_upper_bound; lia]. }
  rewrite u64_op_Some by (unfold u64_max; lia). cbn [mbind option_bind].
  eexists. split; [done|]. unfold saturating_add, u64_max in *. split_and!.
  - constructor; cbn [smoothed_rtt_ms rtt_variance_ms current_rto_ms retransmit_config];
      unfold u64_max; lia.
  - done.
  - cbn [current_rto_ms]. lia.
  - cbn [current_rto_ms]. lia.
  - cbn [smoothed_rtt_ms]. lia.
  - cbn [smoothed_rtt_ms]. lia.
Qed.

Lemma backoff_loop_spec n max_rto rto :
  0 ≤ max_rto ≤ u64_max → 0 ≤ rto →
  Retransmit.backoff_loop (S n) max_rto rto = Z.min (rto * 2 ^ Z.of_nat (S n)) max_rto.
Proof.
  intros Hm. revert rto. induction n as [|n IH]; intros rto Hr.
  - cbn [Retransmit.backoff_loop]. unfold saturating_mul. change (2 ^ Z.of_nat 1) with 2. lia.
  - change (Retransmit.backoff_loop (S (S n)) max_rto rto) with
      (Retransmit.backoff_loop (S n) max_rto (Z.min (saturating_mul u64_max rto 2) max_rto)).
    unfold saturating_mul. rewrite IH by lia.
    replace (Z.of_nat (S (S n))) with (Z.of_nat (S n) + 1) by lia.
    rewrite Z.pow_add_r by lia. change (2 ^ 1) with 2.
    assert (0 < 2 ^ Z.of_nat (S n)) by (apply Z.pow_pos_nonneg; lia). nia.
Qed.

Lemma new_retransmit_ok c : ConfigOk c → retransmit_ok (Retransmit.new (Retransmit.from_config c)).
Proof.
  intros [_ _ _ _ _ [Hc _]]. unfold fits in Hc.
  assert (0 ≤ close_timeout_ms c / 2) by (apply Z.div_pos; lia).
  constructor; cbn [Retransmit.new Retransmit.from_config smoothed_rtt_ms rtt_variance_ms
    current_rto_ms retransmit_config min_rto_ms max_rto_ms initial_rto_ms];
    unfold MIN_RTO_MILLIS, MAX_RTO_MILLIS, u64_max; try lia.
  change (5000 / 2) with 2500. lia.
Qed.
End retransmit.

(** ** Theorems *)

(** C38: the congestion window stays inside its limits.  Whatever sends,
    acknowledgements and losses are recorded, the window is at least one packet
    and at most the configured send window, and [evaluate] allows exactly the
    packets that fill it up. *)
Theorem congestion_window_bounded c p
    (Hc : ConfigOk c)
    (Hreach : rtc congestion_step (Congestion.new (Congestion.from_config c)) p) :
  1 ≤ current_window p ≤ max_send_window_packets c ∧
  Congestion.evaluate p =
    (if decide (in_flight p < current_window p)
     then Allow (current_window p - in_flight p) else Full).
Proof.
  assert (H : congestion_ok p ∧ congestion_config p = Congestion.from_config c).
  { revert Hreach. apply (rtc_ind_r (λ p, congestion_ok p ∧ congestion_config p = Congestion.from_config c)).
    - split; [by apply new_congestion_ok|done].
    - intros p1 p2 _ Hst [H1 H2]. apply congestion_step_ok in Hst as [H3 H4]; [|done].
      split; [done|by rewrite H4]. }
  destruct H as [[H1 H2 H3 H4] Hcfg]. rewrite Hcfg in *.
  destruct Hc as [Hs _ _ _ _ _]. cbn in H2.
  unfold INITIAL_CONGESTION_WINDOW, MAX_CONGESTION_WINDOW, MIN_CONGESTION_WINDOW,
    MAX_SEND_WINDOW_PACKETS in *.
  split; [lia|]. unfold Congestion.evaluate, saturating_sub.
  case_decide as Hlt.
  - rewrite Z.max_r by lia. destruct (_ >? 0) eqn:E; breflect; [done|lia].
  - rewrite Z.max_l by lia. done.
Qed.

(** The congestion window grows by one packet per window of
    acknowledgements and halves on a loss.  From a state that has just changed
    its window, any smaller number of acknowledgements leaves the window alone
    and the one that completes a full window raises it by one, up to the
    maximum; a loss at any time halves it, down to the minimum, and starts the
    count again. *)
Theorem congestion_aimd p (Hp : congestion_ok p) :
  (acked_since_increase p = 0 →
     (∀ n, Z.of_nat n < current_window p →
        current_window (Nat.iter n Congestion.record_acked p) = current_window p) ∧
     current_window (Nat.iter (Z.to_nat (current_window p)) Congestion.record_acked p) =
       Z.min (current_window p + 1) (max_window (congestion_config p)) ∧
     acked_since_increase
       (Nat.iter (Z.to_nat (current_window p)) Congestion.record_acked p) = 0) ∧
  current_window (Congestion.record_loss p) =
    Z.max (current_window p / 2) (min_window (congestion_config p)) ∧
  acked_since_increase (Congestion.record_loss p) = 0.
Proof.
  pose proof Hp as [H1 H2 H3 H4]. split_and!; [|cbn; f_equal; f_equal; lia|done].
  intros H0. split; [intros n Hn; apply acked_iter; [done|lia]|].
  replace (Z.to_nat (current_window p)) with (S (Z.to_nat (current_window p - 1))) by lia.
  destruct (acked_iter (Z.to_nat (current_window p - 1)) p Hp ltac:(lia)) as (A1 & A2 & A3).
  cbn [Nat.iter nat_rect]. change (nat_rect _ p _ ?n) with (Nat.iter n Congestion.record_acked p).
  set (q := Nat.iter _ _ p) in *. unfold Congestion.record_acked. rewrite A1, A2, A3, H0.
  unfold saturating_add. destruct (_ >=? _) eqn:E; breflect; [|lia].
  cbn [current_window acked_since_increase]. split; [lia|done].
Qed.

(** The retransmission timeout stays in its range and backs off exactly.
    A sample of at most 2^60 ms never overflows the estimator's 64-bit
    arithmetic; a sample of a retransmitted packet is ignored (Karn's rule), any
    other leaves the smoothed RTT between its old value and the sample and the
    timeout between the smaller of the two limits and the maximum.  The timeout
    of the [n]-th retransmission, [n ≥ 1], is the current one doubled [n] times,
    cut at the maximum and raised to the minimum. *)
Theorem rto_bounded_backoff sample p n
    (Hp : retransmit_ok p) (Hsample : 0 ≤ rtt_ms sample ≤ 2 ^ 60) (Hn : 1 ≤ n) :
  let cfg := retransmit_config p in
  (∃ p', Retransmit.record_rtt_sample sample p = Some p' ∧ retransmit_ok p' ∧
     if was_retransmit sample then p' = p
     else Z.min (min_rto_ms cfg) (max_rto_ms cfg) ≤ current_rto_ms p' ≤ max_rto_ms cfg ∧
          Z.min (smoothed_rtt_ms p) (rtt_ms sample) ≤ smoothed_rtt_ms p'
            ≤ Z.max (smoothed_rtt_ms p) (rtt_ms sample)) ∧
  Retransmit.rto_for_retransmit p n =
    Z.max (Z.min (current_rto_ms p * 2 ^ n) (max_rto_ms cfg)) (min_rto_ms cfg).
Proof.
  intros cfg. split.
  - destruct (record_rtt_sample_spec sample p Hp Hsample) as (p' & H1 & H2 & H3 & H4).
    by exists p'.
  - destruct Hp as [_ _ Hr Hc]. unfold Retransmit.rto_for_retransmit.
    replace (Z.to_nat n) with (S (Z.to_nat (n - 1))) by lia.
    rewrite backoff_loop_spec by (fold cfg in Hc |- *; lia).
    do 2 f_equal. do 2 f_equal. lia.
Qed.

(** ** Witnesses *)
Lemma congestion_window_bounded_witness :
  let p := Congestion.record_loss (Congestion.new (Congestion.from_config balanced)) in
  1 ≤ current_window p ≤ max_send_window_packets balanced.
Proof.
  refine (proj1 (congestion_window_bounded balanced _ balanced_ok _)).
  apply rtc_once, step_loss.
Defined.

Lemma congestion_aimd_witness :
  let p := Congestion.new (Congestion.from_config balanced) in
  current_window (Nat.iter 16 Congestion.record_acked p) = 17.
Proof.
  intros p. destruct (congestion_aimd p (new_congestion_ok balanced balanced_ok)) as [H _].
  destruct (H eq_refl) as (_ & H2 & _). exact H2.
Defined.

Lemma rto_bounded_backoff_witness :
  Retransmit.rto_for_retransmit (Retransmit.new (Retransmit.from_config balanced)) 2 = 5000.
Proof.
  refine (proj2 (rto_bounded_backoff (mkSample 80 1 false) _ 2
    (new_retransmit_ok balanced balanced_ok) _ _)); [cbn; lia|lia].
Defined.

(** A close timeout below 200 ms makes the upper limit of the timeout smaller
    than its lower limit, and a sample then puts the timeout below
    [MIN_RTO_MILLIS]. *)
Example short_close_timeout_breaks_min_rto :
  let c := mkStreamingConfig 64 32 32 16 64 64 128 8 30000 300000 1 750 4 in
  try_new c = Ok c ∧
  current_rto_ms <$> Retransmit.record_rtt_sample (mkSample 80 1 false)
    (Retransmit.new (Retransmit.from_config c)) = Some 0.
Proof. vm_compute. split; reflexivity. Qed.
