(* ===== verification/StreamEvents.v ===== *)
(** * Errors and events of the streaming layer

    Models [src/crates/i2pr-client/src/streaming/errors.rs] and [events.rs], with
    the two payload error types of
    [src/crates/i2pr-proto/src/streaming/payload.rs] that they carry. *)
From S2P Require Import Prelude Codec StreamConfig.

Inductive ClientPayloadEncodeError :=
  | EncodePayloadTooLarge (actual maximum : Z)
  | InvalidProtocol (value : Z)
  | EncodeCodec (error : CodecError).

Inductive ClientPayloadDecodeError :=
  | PayloadTruncated
  | BadMagic
  | UnsupportedCompressionMethod (method : Z)
  | UnsupportedOptionalHeaderLayout (layout : string)
  | ReservedFlagBits (bits : Z)
  | InvalidCrc (declared actual : Z)
  | InvalidIsize (declared actual : Z)
  | DecodePayloadTooLarge (actual maximum : Z)
  | UnsupportedProtocol (protocol : Z)
  | DecompressionFailed (reason : string)
  | PayloadTrailingBytes (offset length : Z)
  | DecodeCodec (error : CodecError).

Inductive StreamingError :=
  | ConfigError (error : StreamingConfigError)
  | ConnectionClosed
  | ConnectionReset
  | SetupTimeout
  | IdleTimeout
  | CloseTimeout
  | WireCodec (reason : string)
  | InvalidStateTransition (from to : string)
  | SendWindowFull
  | RecvWindowFull
  | NoStreamIdAvailable
  | ConnectionTableFull
  | ListenerBacklogFull
  | SignatureInvalid
  | SynReplayBindingMismatch
  | PayloadExceedsMaxPacketSize
  | TransportError (reason : string)
  | RetransmitBudgetExhausted (sequence : Z)
  | MissingField (field : string)
  | UnknownStream
  | CongestionRejected
  | InboundEnvelope (error : ClientPayloadDecodeError)
  | PayloadTooLarge (actual maximum : Z)
  | OutboundEnvelope (error : ClientPayloadEncodeError).

Record AckObservation := mkAck { ack_through : Z; nack_count : Z }.

Inductive InboundStreamEvent :=
  | DataDelivered (sequence payload_len : Z)
  | SynReceived (remote_stream_id : Z)
  | AckReceived (ack : AckObservation)
  | DuplicateDetected (sequence : Z)
  | InboundTooFarAhead (sequence : Z)
  | ResetReceived
  | CloseReceived.

Inductive OutboundStreamEvent :=
  | DataQueued (sequence payload_len : Z)
  | Acked (ack : AckObservation)
  | Retransmitted (sequence : Z)
  | NackReceived (missing_sequence : Z)
  | WindowReduced (new_window : Z)
  | ResetSent
  | CloseSent.
