(* ===== verification/Connection.v ===== *)
(** * The streaming connection state machine

    Models [src/crates/i2pr-client/src/streaming/connection.rs]: the life cycle of
    one stream and how it drives its send window, receive window, congestion
    window and retransmission timer.  Signing keys and destinations are opaque
    payloads here: the types [Key] and [Dest]. *)
From S2P Require Import Prelude BTree StreamConfig RecvWindow SendWindow Congestion StreamEvents.

Inductive StreamDirection := Outbound | Inbound.

Inductive ConnectionState :=
  | OutboundSynSent
  | InboundSynReceived
  | Established
  | ClosingLocal
  | ClosingRemote
  | Reset
  | Closed.
#[export] Instance ConnectionState_eq_dec : EqDecision ConnectionState.
Proof. solve_decision. Defined.

Definition label (s : ConnectionState) : string :=
  match s with
  | OutboundSynSent => "OutboundSynSent"
  | InboundSynReceived => "InboundSynReceived"
  | Established => "Established"
  | ClosingLocal => "ClosingLocal"
  | ClosingRemote => "ClosingRemote"
  | Reset => "Reset"
  | Closed => "Closed"
  end.

Record ConnectionTransition := mkTransition {
  from_state : ConnectionState;
  to_state : ConnectionState;
  at_ms : Z;
}.

Inductive StreamingConnectionEvent :=
  | Transition (t : ConnectionTransition)
  | OutboundData (event : OutboundStreamEvent)
  | InboundData (event : InboundStreamEvent)
  | BackpressureEvent.

Section connection.
Context (Key Dest : Type).

Record StreamingConnection := mkConnection {
  id : Z;
  direction : StreamDirection;
  state : ConnectionState;
  config : StreamingConfig;
  send_window : SendWindowPolicy;
  recv_window : RecvWindowPolicy;
  congestion : CongestionPolicy;
  retransmit : RetransmitPolicy;
  local_stream_id : Z;
  remote_stream_id : Z;
  peer_signing_key : Key;
  peer_destination_hash : bytes;
  peer_destination : option Dest;
  local_port : Z;
  remote_port : Z;
  local_advertised_max_payload : Z;
  remote_advertised_max_payload : option Z;
  max_payload_size : Z;
  last_activity_ms : Z;
  created_at_ms : Z;
}.

Definition new_connection (dir : StreamDirection) (st : ConnectionState) (id : Z)
    (c : StreamingConfig) (local remote : Z) (key : Key) (hash : bytes)
    (lport rport now_ms : Z) : StreamingConnection :=
  mkConnection id dir st c
    (SendWindow.new (SendWindow.from_config c)) (RecvWindow.new (RecvWindow.from_config c))
    (Congestion.new (Congestion.from_config c)) (Retransmit.new (Retransmit.from_config c))
    local remote key hash None lport rport MAX_ADVERTISED_PACKET_PAYLOAD_BYTES None
    MAX_ADVERTISED_PACKET_PAYLOAD_BYTES now_ms now_ms.

Definition new_outbound := new_connection Outbound OutboundSynSent.
Definition new_inbound := new_connection Inbound InboundSynReceived.

(** Field updates. *)
Definition with_state (st : ConnectionState) (now_ms : Z) (c : StreamingConnection)
    : StreamingConnection :=
  mkConnection (id c) (direction c) st (config c) (send_window c) (recv_window c) (congestion c)
    (retransmit c) (local_stream_id c) (remote_stream_id c) (peer_signing_key c)
    (peer_destination_hash c) (peer_destination c) (local_port c) (remote_port c)
    (local_advertised_max_payload c) (remote_advertised_max_payload c) (max_payload_size c)
    now_ms (created_at_ms c).

Definition with_windows (sw : SendWindowPolicy) (rw : RecvWindowPolicy) (cg : CongestionPolicy)
    (now_ms : Z) (c : StreamingConnection) : StreamingConnection :=
  mkConnection (id c) (direction c) (state c) (config c) sw rw cg
    (retransmit c) (local_stream_id c) (remote_stream_id c) (peer_signing_key c)
    (peer_destination_hash c) (peer_destination c) (local_port c) (remote_port c)
    (local_advertised_max_payload c) (remote_advertised_max_payload c) (max_payload_size c)
    now_ms (created_at_ms c).

Definition with_peer (remote : Z) (dest : option Dest) (local_max : Z) (remote_max : option Z)
    (max_payload : Z) (c : StreamingConnection) : StreamingConnection :=
  mkConnection (id c) (direction c) (state c) (config c) (send_window c) (recv_window c)
    (congestion c) (retransmit c) (local_stream_id c) remote (peer_signing_key c)
    (peer_destination_hash c) dest (local_port c) (remote_port c)
    local_max remote_max max_payload (last_activity_ms c) (created_at_ms c).

Definition set_remote_stream_id (remote : Z) (c : StreamingConnection) : StreamingConnection :=
  with_peer remote (peer_destination c) (local_advertised_max_payload c)
    (remote_advertised_max_payload c) (max_payload_size c) c.
Definition set_peer_destination (dest : Dest) (c : StreamingConnection) : StreamingConnection :=
  with_peer (remote_stream_id c) (Some dest) (local_advertised_max_payload c)
    (remote_advertised_max_payload c) (max_payload_size c) c.
Definition set_remote_advertised_max_payload (max : Z) (c : StreamingConnection)
    : StreamingConnection :=
  with_peer (remote_stream_id c) (peer_destination c) (local_advertised_max_payload c)
    (Some max) (max_payload_size c) c.
Definition set_local_advertised_max_payload (max : Z) (c : StreamingConnection)
    : StreamingConnection :=
  with_peer (remote_stream_id c) (peer_destination c) max
    (remote_advertised_max_payload c) (max_payload_size c) c.

Definition ports_match (c : StreamingConnection) (source_port destination_port : Z) : bool :=
  (remote_port c =? source_port) && (local_port c =? destination_port).

Definition clone_for_syn_response (c : StreamingConnection) : StreamingConnection :=
  mkConnection (id c) (direction c) (state c) (config c)
    (SendWindow.new (SendWindow.from_config (config c)))
    (RecvWindow.new (RecvWindow.from_config (config c)))
    (Congestion.new (Congestion.from_config (config c)))
    (Retransmit.new (Retransmit.from_config (config c)))
    (local_stream_id c) (remote_stream_id c) (peer_signing_key c)
    (peer_destination_hash c) (peer_destination c) (local_port c) (remote_port c)
    (local_advertised_max_payload c) (remote_advertised_max_payload c) (max_payload_size c)
    (last_activity_ms c) (created_at_ms c).

(** ** State transitions *)
Definition transition_established (remote_max_payload now_ms : Z)
    : M StreamingConnection StreamingError ConnectionTransition := λ c,
  let from := state c in
  match from with
  | OutboundSynSent | InboundSynReceived =>
      let c1 := with_state Established now_ms c in
      let local_max := local_advertised_max_payload c1 in
      (with_peer (remote_stream_id c1) (peer_destination c1) (local_advertised_max_payload c1)
         (remote_advertised_max_payload c1) (Z.min local_max remote_max_payload) c1,
       Ok (mkTransition from Established now_ms))
  | _ => (c, Err (InvalidStateTransition (label from) "Established"))
  end.

Definition begin_close (now_ms : Z)
    : M StreamingConnection StreamingError ConnectionTransition := λ c,
  if bool_decide (state c ≠ Established)
  then (c, Err (InvalidStateTransition (label (state c)) "ClosingLocal"))
  else (with_state ClosingLocal now_ms c, Ok (mkTransition (state c) ClosingLocal now_ms)).

Definition remote_close_received (now_ms : Z)
    : M StreamingConnection StreamingError ConnectionTransition := λ c,
  if bool_decide (state c ≠ Established)
  then (c, Err (InvalidStateTransition (label (state c)) "ClosingRemote"))
  else (with_state ClosingRemote now_ms c, Ok (mkTransition (state c) ClosingRemote now_ms)).

Definition close (now_ms : Z)
    : M StreamingConnection StreamingError ConnectionTransition := λ c,
  if bool_decide (state c = Closed) then (c, Err ConnectionClosed)
  else (with_state Closed now_ms c, Ok (mkTransition (state c) Closed now_ms)).

Definition reset (now_ms : Z)
    : M StreamingConnection StreamingError ConnectionTransition := λ c,
  if bool_decide (state c = Closed) then (c, Err ConnectionClosed)
  else (with_state Reset now_ms c, Ok (mkTransition (state c) Reset now_ms)).

(** ** Data *)
Definition enqueue_send (payload_len now_ms : Z)
    : M StreamingConnection StreamingError Z := λ c,
  if bool_decide (state c ≠ Established)
  then (c, Err (InvalidStateTransition (label (state c)) "send (need Established)"))
  else
  match Congestion.evaluate (congestion c) with
  | Full => (c, Err CongestionRejected)
  | Allow _ =>
    match SendWindow.evaluate (send_window c) payload_len with
    | Backpressure => (c, Err SendWindowFull)
    | Accept =>
      match enqueue payload_len now_ms (send_window c) with
      | (sw, Err _) => (with_windows sw (recv_window c) (congestion c) (last_activity_ms c) c,
                        Err SendWindowFull)
      | (sw, Ok seq) =>
          (with_windows sw (recv_window c) (Congestion.record_sent (congestion c)) now_ms c, Ok seq)
      end
    end
  end.

Definition receive_packet (seq : Z) (pl : bytes) (now_ms : Z) (c : StreamingConnection)
    : StreamingConnection * RecvWindowDecision :=
  let '(rw, d) := receive seq pl (recv_window c) in
  (with_windows (send_window c) rw (congestion c) now_ms c, d).

Definition receive_ack (ack : Z) (nacks : list Z) (now_ms : Z) (c : StreamingConnection)
    : StreamingConnection * AckObservation :=
  let '(sw, outcome) := acknowledge ack nacks (send_window c) in
  let cg := fold_left (λ cg _, Congestion.record_acked cg) (newly_acked outcome) (congestion c) in
  let cg := match retained_nacks outcome with
            | [] => cg
            | _ => Congestion.record_loss cg
            end in
  (with_windows sw (recv_window c) cg now_ms c, mkAck ack (zlen nacks)).

Definition generate_nacks (c : StreamingConnection) (ack : Z) : list Z :=
  missing_sequences (recv_window c) ack.

(** ** Time *)
Definition check_timeout (c : StreamingConnection) (now_ms : Z) : bool :=
  let timeout :=
    match state c with
    | Closed | Reset => u64_max
    | Established | ClosingLocal | ClosingRemote => idle_timeout_ms (config c)
    | OutboundSynSent | InboundSynReceived => setup_timeout_ms (config c)
    end in
  saturating_sub now_ms (last_activity_ms c) >? timeout.

Definition is_terminal (c : StreamingConnection) : bool :=
  match state c with Closed | Reset => true | _ => false end.

(** One round of the retransmission loop of [advance]. *)
Definition retransmit_one (max_retransmit now_ms seq : Z) (sw : SendWindowPolicy)
    : SendWindowPolicy :=
  match get_unacked sw seq with
  | Some entry =>
      if retransmit_count entry >=? max_retransmit then (remove seq sw).1
      else mark_retransmitted seq now_ms sw
  | None => mark_retransmitted seq now_ms sw
  end.

Definition advance (now_ms : Z) (c : StreamingConnection)
    : StreamingConnection * list StreamingConnectionEvent :=
  if is_terminal c then (c, [])
  else if check_timeout c now_ms then
    match reset now_ms c with
    | (c', Ok t) => (c', [Transition t])
    | (c', Err _) => (c', [])
    end
  else
  let rto := current_rto_ms (retransmit c) in
  let expired := expired_entries (send_window c) now_ms rto in
  let sw := fold_left (λ sw seq, retransmit_one (max_retransmit_count (config c)) now_ms seq sw)
              expired (send_window c) in
  (with_windows sw (recv_window c) (congestion c) (last_activity_ms c) c,
   (λ seq, OutboundData (Retransmitted seq)) <$> expired).
End connection.

Arguments id {Key Dest}. Arguments direction {Key Dest}. Arguments state {Key Dest}.
Arguments config {Key Dest}. Arguments send_window {Key Dest}. Arguments recv_window {Key Dest}.
Arguments congestion {Key Dest}. Arguments retransmit {Key Dest}.
Arguments local_advertised_max_payload {Key Dest}. Arguments max_payload_size {Key Dest}.
Arguments last_activity_ms {Key Dest}. Arguments remote_stream_id {Key Dest}.
Arguments with_state {Key Dest}. Arguments with_windows {Key Dest}. Arguments with_peer {Key Dest}.
Arguments set_remote_stream_id {Key Dest}. Arguments set_peer_destination {Key Dest}.
Arguments set_remote_advertised_max_payload {Key Dest}.
Arguments set_local_advertised_max_payload {Key Dest}.
Arguments transition_established {Key Dest}. Arguments begin_close {Key Dest}.
Arguments remote_close_received {Key Dest}. Arguments close {Key Dest}.
Arguments reset {Key Dest}. Arguments enqueue_send {Key Dest}.
Arguments receive_packet {Key Dest}. Arguments receive_ack {Key Dest}.
Arguments generate_nacks {Key Dest}. Arguments check_timeout {Key Dest}.
Arguments is_terminal {Key Dest}. Arguments advance {Key Dest}.
Arguments new_outbound {Key Dest}. Arguments new_inbound {Key Dest}.
Arguments new_connection {Key Dest}. Arguments clone_for_syn_response {Key Dest}.

(** ** Steps and the invariant *)
Section steps.
Context {Key Dest : Type}.
Abbreviation conn := (StreamingConnection Key Dest).
Implicit Types c : conn.

Inductive conn_step : conn → conn → Prop :=
  | conn_established remote_max now c :
      conn_step c (transition_established remote_max now c).1
  | conn_begin_close now c : conn_step c (begin_close now c).1
  | conn_remote_close now c : conn_step c (remote_close_received now c).1
  | conn_close now c : conn_step c (close now c).1
  | conn_reset now c : conn_step c (reset now c).1
  | conn_send len now c :
      0 ≤ len → next_sequence (send_window c) < u32_max → conn_step c (enqueue_send len now c).1
  | conn_receive seq pl now c : 0 ≤ seq < u32_max → conn_step c (receive_packet seq pl now c).1
  | conn_ack ack nacks now c : 0 ≤ ack → conn_step c (receive_ack ack nacks now c).1
  | conn_advance now c : conn_step c (advance now c).1
  | conn_set_remote_id remote c : conn_step c (set_remote_stream_id remote c)
  | conn_set_destination dest c : conn_step c (set_peer_destination dest c)
  | conn_set_remote_max max c : conn_step c (set_remote_advertised_max_payload max c)
  | conn_set_local_max max c : conn_step c (set_local_advertised_max_payload max c).

Definition within_budget (budget : Z) (w : SendWindowPolicy) : Prop :=
  ∀ s e, unacked w !! s = Some e → retransmit_count e ≤ budget.

Record conn_ok (cfg : StreamingConfig) c : Prop := {
  cn_config : config c = cfg;
  cn_send : send_ok (send_window c);
  cn_send_config : SendWindow.config (send_window c) = SendWindow.from_config cfg;
  cn_recv : recv_ok (recv_window c);
  cn_recv_config : RecvWindow.config (recv_window c) = RecvWindow.from_config cfg;
  cn_congestion : congestion_ok (congestion c);
  cn_congestion_config : congestion_config (congestion c) = Congestion.from_config cfg;
  cn_retransmit : retransmit c = Retransmit.new (Retransmit.from_config cfg);
  cn_flight : unacked_count (send_window c) ≤ in_flight (congestion c)
              ≤ max_send_window_packets cfg;
  cn_budget : within_budget (max_retransmit_count cfg) (send_window c);
}.

(** The invariant depends only on the windows, the timer and the configuration. *)
Lemma conn_ok_windows cfg c c' :
  config c' = config c → send_window c' = send_window c → recv_window c' = recv_window c →
  congestion c' = congestion c → retransmit c' = retransmit c → conn_ok cfg c → conn_ok cfg c'.
Proof.
  intros H1 H2 H3 H4 H5 [].
  by constructor; rewrite ?H1, ?H2, ?H3, ?H4, ?H5.
Qed.

Lemma new_connection_ok cfg dir st n l r k h lp rp now :
  ConfigOk cfg → conn_ok cfg (new_connection dir st n cfg l r k h lp rp now).
Proof.
  intros Hc. destruct (from_config_limits cfg Hc) as [Hp Hb].
  pose proof (cfg_send_window (c := cfg)) as Hs. pose proof (cfg_recv_window (c := cfg)) as Hr.
  constructor; try done.
  - by apply new_send_ok.
  - apply new_recv_ok. cbn. lia.
  - by apply new_congestion_ok.
  - change (0 ≤ 0 ≤ max_send_window_packets cfg). lia.
Qed.

(** *** Sending *)
Lemma window_limit cfg c :
  ConfigOk cfg → conn_ok cfg c → current_window (congestion c) ≤ max_send_window_packets cfg.
Proof.
  intros Hc [_ _ _ _ _ [_ Hw _ _] Hcc _ _ _]. rewrite Hcc in Hw. revert Hw. cbn.
  pose proof (cfg_send_window (c := cfg)) as Hs.
  unfold INITIAL_CONGESTION_WINDOW, MAX_CONGESTION_WINDOW, MIN_CONGESTION_WINDOW,
    MAX_SEND_WINDOW_PACKETS in *. lia.
Qed.

Lemma evaluate_enqueue len now w :
  SendWindow.evaluate w len = Accept →
  ∃ w', enqueue len now w = (w', Ok (next_sequence w)) ∧
    unacked w' = <[next_sequence w := mkUnacked (next_sequence w) len now 0]> (unacked w) ∧
    SendWindow.config w' = SendWindow.config w.
Proof.
  intros He. unfold enqueue. rewrite He. rewrite bool_decide_eq_false_2 by done. by eexists.
Qed.

Lemma enqueue_send_ok cfg len now c :
  ConfigOk cfg → conn_ok cfg c → 0 ≤ len → next_sequence (send_window c) < u32_max →
  conn_ok cfg (enqueue_send len now c).1.
Proof.
  intros Hcfg Hc Hlen Hnext. unfold enqueue_send.
  case_bool_decide; [done|]. destruct (Congestion.evaluate _) eqn:Eg; [|done].
  destruct (SendWindow.evaluate _ _) eqn:Ev; [|done].
  destruct (evaluate_enqueue len now _ Ev) as (w' & Henq & Hun & Hcf).
  pose proof (enqueue_ok len now (send_window c) (cn_send _ _ Hc) Hlen Hnext) as Hok.
  rewrite Henq in Hok |- *. cbn [fst] in Hok |- *.
  pose proof (window_limit cfg c Hcfg Hc) as Hlim. pose proof (cfg_send_window (c := cfg)) as Hmax.
  destruct Hc as [H1 H2 H3 H4 H5 H6 H7 H8 H9 H10].
  assert (Hav : in_flight (congestion c) < current_window (congestion c)).
  { unfold Congestion.evaluate, saturating_sub in Eg. destruct (_ >? 0) eqn:E; [|done].
    breflect. lia. }
  assert (Hnew : unacked (send_window c) !! next_sequence (send_window c) = None).
  { destruct (unacked (send_window c) !! next_sequence (send_window c)) as [e|] eqn:E; [|done].
    apply (so_entry _ H2) in E. lia. }
  constructor; cbn [with_windows config send_window recv_window congestion retransmit]; try done.
  - by rewrite Hcf.
  - by apply record_sent_ok.
  - unfold unacked_count in *. rewrite Hun, map_size_insert_None by done. cbn [in_flight Congestion.record_sent].
    unfold saturating_add, u32_max, MAX_SEND_WINDOW_PACKETS in *. lia.
  - intros s e. rewrite Hun. intros [[<- <-]|[_ He]]%lookup_insert_Some; [|by apply (H10 s)].
    cbn. pose proof (cfg_retransmit (c := cfg)). lia.
Qed.

(** *** Acknowledgements *)

(** Recording [n] acknowledgements. *)
Lemma acked_fold {A} (l : list A) p :
  congestion_ok p →
  let p' := fold_left (λ cg _, Congestion.record_acked cg) l p in
  congestion_ok p' ∧ congestion_config p' = congestion_config p ∧
  in_flight p' = Z.max 0 (in_flight p - zlen l).
Proof.
  revert p. induction l as [|a l IH]; intros p Hp; cbn [fold_left].
  { split_and!; [done|done|]. destruct Hp as [_ _ _ ?]. change (zlen []) with 0. lia. }
  destruct (congestion_step_ok p _ (step_acked p) Hp) as [H1 H2].
  destruct (IH _ H1) as (H3 & H4 & H5). split_and!; [done|by rewrite H4|].
  rewrite H5, zlen_cons. pose proof (zlen_nonneg l).
  replace (in_flight (Congestion.record_acked p)) with (saturating_sub (in_flight p) 1).
  { unfold saturating_sub. lia. }
  unfold Congestion.record_acked. by case_match.
Qed.

(** Clearing acknowledged packets shrinks the window by as many. *)
Lemma acknowledge_count ack nacks w :
  send_ok w → 0 ≤ ack →
  unacked_count (acknowledge ack nacks w).1 =
    unacked_count w - zlen (newly_acked (acknowledge ack nacks w).2).
Proof.
  intros Hw Hack. destruct (decide (last_ack w ≤ ack)) as [Hle|Hgt].
  2: { unfold acknowledge. destruct (ack <? last_ack w) eqn:E; breflect; [|lia].
       cbn. change (zlen []) with 0. lia. }
  pose proof (acknowledge_spec ack nacks w Hw Hack Hle) as H. cbv zeta in H.
  destruct (acknowledge ack nacks w) as [w' o]. cbn [fst snd].
  destruct H as (_ & Hun & Hnew & _).
  apply (f_equal length) in Hnew. rewrite !length_fmap in Hnew.
  set (P := λ s, s ≤ ack ∧ ¬ (s ∈ nacks ∧ s < ack)) in *.
  assert (Hperm : keys_asc (unacked w') ≡ₚ filter (λ s, ¬ P s) (keys_asc (unacked w))).
  { apply NoDup_Permutation; [apply NoDup_keys_asc|apply NoDup_filter, NoDup_keys_asc|].
    intros s. rewrite list_elem_of_filter, !elem_of_keys_asc, Hun. fold (P s).
    case_decide; [rewrite is_Some_alt|]; tauto. }
  unfold unacked_count, zlen. rewrite <- !length_keys_asc, Hperm, Hnew.
  pose proof (filter_length_split P (keys_asc (unacked w))). lia.
Qed.

Lemma acknowledge_budget b ack nacks w :
  send_ok w → 0 ≤ ack → within_budget b w → within_budget b (acknowledge ack nacks w).1.
Proof.
  intros Hw Hack Hb. destruct (decide (last_ack w ≤ ack)) as [Hle|Hgt].
  - pose proof (acknowledge_spec ack nacks w Hw Hack Hle) as H. cbv zeta in H.
    destruct (acknowledge ack nacks w) as [w' o]. destruct H as (_ & Hun & _).
    intros s e. cbn. rewrite Hun. case_decide; [done|]. apply Hb.
  - unfold acknowledge. destruct (ack <? last_ack w) eqn:E; breflect; [done|lia].
Qed.

Lemma receive_ack_ok cfg ack nacks now c :
  conn_ok cfg c → 0 ≤ ack → conn_ok cfg (receive_ack ack nacks now c).1.
Proof.
  intros Hc Hack. destruct Hc as [H1 H2 H3 H4 H5 H6 H7 H8 H9 H10]. unfold receive_ack.
  pose proof (acknowledge_ok ack nacks _ H2 Hack) as A1.
  pose proof (acknowledge_config ack nacks _ H2 Hack) as (A2 & _ & _).
  pose proof (acknowledge_count ack nacks _ H2 Hack) as A3.
  pose proof (acknowledge_budget _ ack nacks _ H2 Hack H10) as A4.
  destruct (acknowledge ack nacks (send_window c)) as [sw o]. cbn [fst snd] in *.
  destruct (acked_fold (newly_acked o) (congestion c) H6) as (B1 & B2 & B3).
  set (cg := fold_left _ _ _) in *.
  assert (Hcg : ∃ cg', match retained_nacks o with [] => cg | _ :: _ => Congestion.record_loss cg end = cg'
    ∧ congestion_ok cg' ∧ congestion_config cg' = congestion_config cg ∧ in_flight cg' = in_flight cg).
  { destruct (retained_nacks o); [by exists cg|]. exists (Congestion.record_loss cg).
    split_and!; try done. by apply record_loss_ok. }
  destruct Hcg as (cg' & -> & C1 & C2 & C3).
  pose proof (zlen_nonneg (newly_acked o)).
  assert (0 ≤ unacked_count sw) by (unfold unacked_count; lia).
  constructor; cbn [fst with_windows config send_window recv_window congestion retransmit]; try done.
  - by rewrite A2.
  - by rewrite C2, B2.
  - rewrite C3, B3, A3. lia.
Qed.

(** *** Retransmission *)
Lemma retransmit_one_ok budget now seq w :
  send_ok w → 0 ≤ budget ≤ u32_max → within_budget budget w →
  let w' := retransmit_one budget now seq w in
  send_ok w' ∧ within_budget budget w' ∧ unacked_count w' ≤ unacked_count w ∧
  SendWindow.config w' = SendWindow.config w ∧ next_sequence w' = next_sequence w.
Proof.
  intros Hw Hbu Hb w'. unfold w', retransmit_one, get_unacked.
  destruct (unacked w !! seq) as [e|] eqn:E.
  2: { unfold mark_retransmitted. rewrite E. split_and!; try done. }
  destruct (_ >=? _) eqn:Ec; breflect.
  - pose proof (remove_ok seq w Hw) as Hr. unfold remove in *. rewrite E in *. cbn [fst] in *.
    split_and!; try done.
    + intros s a. cbn [unacked]. intros [_ Ha]%lookup_delete_Some. by apply (Hb s).
    + unfold unacked_count. cbn. rewrite map_size_delete_Some by done. lia.
  - pose proof (mark_retransmitted_ok seq now w Hw) as Hr. unfold mark_retransmitted in *.
    rewrite E in *. split_and!; try done.
    + intros s a. cbn [unacked]. intros [[<- <-]|[_ Ha]]%lookup_insert_Some; [|by apply (Hb s)].
      cbn [retransmit_count]. unfold saturating_add. lia.
    + unfold unacked_count. cbn. by rewrite map_size_insert_Some by eauto.
Qed.

Lemma retransmit_fold_ok budget now seqs w :
  send_ok w → 0 ≤ budget ≤ u32_max → within_budget budget w →
  let w' := fold_left (λ sw seq, retransmit_one budget now seq sw) seqs w in
  send_ok w' ∧ within_budget budget w' ∧ unacked_count w' ≤ unacked_count w ∧
  SendWindow.config w' = SendWindow.config w ∧ next_sequence w' = next_sequence w.
Proof.
  revert w. induction seqs as [|seq seqs IH]; intros w Hw Hbu Hb; [done|]. cbn [fold_left].
  destruct (retransmit_one_ok budget now seq w Hw Hbu Hb) as (H1 & H2 & H3 & H4 & H5).
  destruct (IH _ H1 Hbu H2) as (I1 & I2 & I3 & I4 & I5).
  split_and!; [done|done|lia|by rewrite I4|by rewrite I5].
Qed.

Lemma advance_ok cfg now c : ConfigOk cfg → conn_ok cfg c → conn_ok cfg (advance now c).1.
Proof.
  intros Hcfg Hc. unfold advance. destruct (is_terminal c); [done|].
  destruct (check_timeout c now).
  { unfold reset. case_bool_decide; cbn [fst]; [done|]. by apply (conn_ok_windows cfg c). }
  pose proof (cfg_retransmit (c := cfg)) as Hr. unfold MAX_RETRANSMIT_COUNT in Hr.
  destruct Hc as [H1 H2 H3 H4 H5 H6 H7 H8 H9 H10]. rewrite H1.
  destruct (retransmit_fold_ok (max_retransmit_count cfg) now
    (expired_entries (send_window c) now (current_rto_ms (retransmit c))) (send_window c))
    as (I1 & I2 & I3 & I4 & I5); [done|unfold u32_max; lia|done|].
  constructor; cbn [fst with_windows config send_window recv_window congestion retransmit]; try done.
  - by rewrite I4.
  - lia.
Qed.

Lemma receive_packet_ok cfg seq pl now c :
  conn_ok cfg c → 0 ≤ seq < u32_max → conn_ok cfg (receive_packet seq pl now c).1.
Proof.
  intros [H1 H2 H3 H4 H5 H6 H7 H8 H9 H10] Hseq. unfold receive_packet.
  destruct (receive_step (recv_window c) seq pl H4 Hseq) as [R1 R2].
  destruct (receive seq pl (recv_window c)) as [rw d]. cbn [fst snd] in *.
  constructor; cbn [with_windows config send_window recv_window congestion retransmit]; try done.
  by rewrite (re_config _ _ _ _ _ R2).
Qed.

Lemma conn_step_ok cfg c c' : ConfigOk cfg → conn_step c c' → conn_ok cfg c → conn_ok cfg c'.
Proof.
  intros Hcfg Hst Hc. destruct Hst.
  - unfold transition_established. destruct (state c) eqn:E; (done || by apply (conn_ok_windows cfg c)).
  - unfold begin_close. case_bool_decide; [done|by apply (conn_ok_windows cfg c)].
  - unfold remote_close_received. case_bool_decide; [done|by apply (conn_ok_windows cfg c)].
  - unfold close. case_bool_decide; [done|by apply (conn_ok_windows cfg c)].
  - unfold reset. case_bool_decide; [done|by apply (conn_ok_windows cfg c)].
  - by apply enqueue_send_ok.
  - by apply receive_packet_ok.
  - by apply receive_ack_ok.
  - by apply advance_ok.
  - by apply (conn_ok_windows cfg c).
  - by apply (conn_ok_windows cfg c).
  - by apply (conn_ok_windows cfg c).
  - by apply (conn_ok_windows cfg c).
Qed.

Lemma conn_steps_ok cfg c c' :
  ConfigOk cfg → rtc conn_step c c' → conn_ok cfg c → conn_ok cfg c'.
Proof. intros Hcfg. induction 1; eauto using conn_step_ok. Qed.

(** *** Life cycle *)
Definition rank (s : ConnectionState) : Z :=
  match s with
  | OutboundSynSent | InboundSynReceived => 0
  | Established => 1
  | ClosingLocal | ClosingRemote => 2
  | Reset => 3
  | Closed => 4
  end.

Lemma conn_step_rank c c' :
  conn_step c c' → state c' = state c ∨ rank (state c) < rank (state c').
Proof.
  destruct 1 as [m now c|now c|now c|now c|now c|len now c|seq pl now c|ack nacks now c|now c|
    |  |  | ]; try by left.
  - unfold transition_established. destruct (state c) eqn:E; cbn; rewrite ?E; auto; right; cbn; lia.
  - unfold begin_close. case_bool_decide as H; [by left|]. right. cbn.
    rewrite H. cbn. lia.
  - unfold remote_close_received. case_bool_decide as H; [by left|]. right. cbn.
    rewrite H. cbn. lia.
  - unfold close. case_bool_decide as H; [by left|]. right. cbn.
    destruct (state c); cbn; lia || done.
  - unfold reset. case_bool_decide as H; [by left|]. cbn.
    destruct (state c); cbn; try (right; lia); by left || done.
  - left. unfold enqueue_send. repeat case_match; done.
  - left. unfold receive_packet. by case_match.
  - left. unfold receive_ack. by case_match.
  - unfold advance, is_terminal, reset.
    destruct (state c) eqn:E; cbn; auto;
      (destruct (check_timeout c now);
       [rewrite bool_decide_eq_false_2 by congruence; right; cbn; lia|left; done]).
Qed.
End steps.

(** ** Theorems *)
Section theorems.
Context {Key Dest : Type}.
Abbreviation conn := (StreamingConnection Key Dest).
Implicit Types c : conn.

(** Every connection keeps every one of its limits.  In every state reached
    from a new outbound or inbound connection with an accepted configuration, by
    any interleaving of transitions, sends, packets, acknowledgements and clock
    ticks: at most [max_send_window_packets] packets are unacked, and no fewer
    are counted in flight, which never exceeds that limit either; the reorder
    buffer holds at most [max_recv_window_packets] packets; the congestion window
    is positive and within the limit; and no tracked packet has been
    retransmitted more than [max_retransmit_count] times. *)
Theorem connection_bounded cfg dir st n l r k h lp rp now c
    (Hcfg : ConfigOk cfg)
    (Hreach : rtc conn_step (new_connection dir st n cfg l r k h lp rp now) c) :
  unacked_count (send_window c) ≤ in_flight (congestion c) ≤ max_send_window_packets cfg ∧
  reorder_count (recv_window c) ≤ max_recv_window_packets cfg ∧
  1 ≤ current_window (congestion c) ≤ max_send_window_packets cfg ∧
  (∀ s e, unacked (send_window c) !! s = Some e →
     0 ≤ retransmit_count e ≤ max_retransmit_count cfg).
Proof.
  pose proof (conn_steps_ok cfg _ c Hcfg Hreach
    (new_connection_ok cfg dir st n l r k h lp rp now Hcfg)) as Hc.
  pose proof (window_limit cfg c Hcfg Hc) as Hlim.
  destruct Hc as [H1 H2 H3 H4 H5 [G1 G2 G3 G4] H7 H8 H9 H10].
  split_and!; [lia|lia| |lia|lia|].
  - pose proof (reorder_bounded _ H4) as Hb. rewrite H5 in Hb. exact Hb.
  - intros s e He. split; [apply (so_entry _ H2) in He; tauto|]. by apply (H10 s).
Qed.

(** The connection state only moves forward.  Along any run, the state
    either stays the same or moves up in the order SYN, established, closing,
    reset, closed; so a closed connection stays closed, a reset one can only be
    closed, and no connection is established twice. *)
Theorem connection_lifecycle c c' (Hrun : rtc conn_step c c') :
  (state c' = state c ∨ rank (state c) < rank (state c')) ∧
  (state c = Closed → state c' = Closed) ∧
  (state c = Reset → state c' = Reset ∨ state c' = Closed) ∧
  (∀ m now, rank (state c) ≠ 0 → is_ok (transition_established m now c').2 = false).
Proof.
  assert (Hrank : state c' = state c ∨ rank (state c) < rank (state c')).
  { induction Hrun as [|c1 c2 c3 Hst _ IH]; [by left|].
    apply conn_step_rank in Hst. destruct Hst as [<-|?], IH as [->|?]; auto; right; lia. }
  split_and!; [done|..].
  - intros E. rewrite E in Hrank. destruct Hrank as [?|Hlt]; [done|]. revert Hlt.
    destruct (state c'); cbn; lia || done.
  - intros E. rewrite E in Hrank. destruct Hrank as [?|Hlt]; [by left|]. revert Hlt.
    destruct (state c'); cbn; auto; lia.
  - intros m now H0. unfold transition_established.
    destruct (state c') eqn:E; try done; exfalso; apply H0;
      (destruct Hrank as [<-|Hlt]; [done|]); revert Hlt; destruct (state c); cbn; lia || done.
Qed.

(** A send is admitted exactly when it may be.  [enqueue_send] succeeds if
    and only if the connection is established, the congestion window is not full
    and the send window has room for the packet and its bytes; it then assigns
    the next sequence number, tracks the packet and counts it in flight, and on
    every error it changes nothing. *)
Theorem enqueue_send_exact cfg len now c
    (Hcfg : ConfigOk cfg) (Hc : conn_ok cfg c) (Hlen : 0 ≤ len) :
  let sw := send_window c in
  let admissible :=
    state c = Established ∧ in_flight (congestion c) < current_window (congestion c) ∧
    unacked_count sw < max_send_window_packets cfg ∧
    unacked_bytes sw + len ≤ max_send_window_packets cfg * MAX_PACKET_PAYLOAD_BYTES in
  match enqueue_send len now c with
  | (c', Ok seq) =>
      admissible ∧ seq = next_sequence sw ∧
      unacked (send_window c') = <[seq := mkUnacked seq len now 0]> (unacked sw) ∧
      in_flight (congestion c') = in_flight (congestion c) + 1 ∧ last_activity_ms c' = now
  | (c', Err e) => ¬ admissible ∧ c' = c
  end.
Proof.
  intros sw admissible. unfold enqueue_send.
  case_bool_decide as Hst.
  { split; [|done]. by intros (? & _). }
  pose proof (window_limit cfg c Hcfg Hc) as Hlim. pose proof (cfg_send_window (c := cfg)) as Hmax.
  destruct Hc as [_ [_ Hent Hby Hcnt Hmb _] Hscfg _ _ [_ _ _ Gfl] _ _ Hfl _].
  fold sw in Hent, Hby, Hcnt, Hmb, Hscfg, Hfl |- *. rewrite Hscfg in *.
  assert (Hnn : 0 ≤ unacked_bytes sw).
  { rewrite Hby. apply map_sum_nonneg. intros s e He. apply Hent in He. tauto. }
  cbn in Hcnt, Hmb. unfold MAX_SEND_WINDOW_PACKETS, MAX_PACKET_PAYLOAD_BYTES, u32_max in *.
  unfold Congestion.evaluate, saturating_sub. destruct (_ >? 0) eqn:Eg; breflect.
  2: { split; [|done]. intros (_ & Hf & _). lia. }
  destruct (SendWindow.evaluate sw len) eqn:Ev.
  2: { split; [|done]. intros (_ & _ & Hp & Hq). revert Ev. unfold SendWindow.evaluate.
       rewrite Hscfg. cbn. unfold saturating_add, MAX_PACKET_PAYLOAD_BYTES, unacked_count in *.
       destruct (_ || _) eqn:E; [|done]. intros _. apply orb_true_iff in E as [E|E]; breflect; lia. }
  destruct (evaluate_enqueue len now sw Ev) as (w' & -> & Hun & _).
  split_and!; [..|done|done|cbn; unfold saturating_add, u32_max; lia|done].
  unfold SendWindow.evaluate in Ev. rewrite Hscfg in Ev. cbn in Ev.
  unfold saturating_add, MAX_PACKET_PAYLOAD_BYTES in Ev.
  destruct (_ || _) eqn:E in Ev; [done|]. breflect. unfold usize_max in *.
  unfold admissible, unacked_count, MAX_PACKET_PAYLOAD_BYTES. split_and!; [done|lia|lia|lia].
Qed.

(** A clock tick does exactly what the timers say.  [advance] leaves a closed
    or reset connection alone; it resets any other that has been silent longer
    than its setup or idle timeout, with that one transition as its event; and
    otherwise it reports, in ascending order, exactly the packets whose
    retransmission timeout has passed, without touching the connection state,
    the receive window or the congestion window. *)
Theorem advance_exact now c :
  let silent := saturating_sub now (last_activity_ms c) in
  let '(c', events) := advance now c in
  match state c with
  | Closed | Reset => c' = c ∧ events = []
  | st =>
      let timeout := match st with
                     | OutboundSynSent | InboundSynReceived => setup_timeout_ms (config c)
                     | _ => idle_timeout_ms (config c)
                     end in
      if decide (timeout < silent)
      then state c' = Reset ∧ events = [Transition (mkTransition st Reset now)]
      else state c' = st ∧ recv_window c' = recv_window c ∧ congestion c' = congestion c ∧
           events = (λ s, OutboundData (Retransmitted s)) <$>
             filter (λ s, match unacked (send_window c) !! s with
                          | Some e => saturating_sub now (sent_at_ms e) >=?
                                        current_rto_ms (retransmit c)
                          | None => false
                          end = true) (keys_asc (unacked (send_window c)))
  end.
Proof.
  intros silent. unfold advance, is_terminal, check_timeout, reset. fold silent.
  assert (Hfilter : ∀ (f : Z → bool) l, List.filter f l = filter (λ s, f s = true) l).
  { intros f l. induction l as [|s l IH]; [done|]. rewrite filter_cons.
    cbn [List.filter]. rewrite IH. destruct (f s); by case_decide. }
  unfold expired_entries. rewrite Hfilter.
  destruct (state c) eqn:E; try done;
    (case_decide as Ht; destruct (silent >? _) eqn:Es; breflect; try lia;
     [by rewrite bool_decide_eq_false_2 by congruence|cbn; by rewrite ?E]).
Qed.

(** A connection whose counted packets have all been given up. *)
Definition stalled c : Prop :=
  unacked (send_window c) = ∅ ∧ current_window (congestion c) ≤ in_flight (congestion c).

Lemma stalled_rejects len now c :
  stalled c → (enqueue_send len now c).1 = c ∧ is_ok (enqueue_send len now c).2 = false.
Proof.
  intros [_ Hfull]. unfold enqueue_send, Congestion.evaluate, saturating_sub.
  case_bool_decide; [done|]. destruct (_ >? 0) eqn:E; breflect; [lia|done].
Qed.

Lemma acknowledge_empty ack nacks w :
  unacked w = ∅ →
  unacked (acknowledge ack nacks w).1 = ∅ ∧
  newly_acked (acknowledge ack nacks w).2 = [] ∧ retained_nacks (acknowledge ack nacks w).2 = [].
Proof.
  intros He. unfold acknowledge. destruct (_ <? _); [done|].
  rewrite He. change (keys_asc (∅ : gmap Z UnackedEntry)) with (@nil Z). by cbn.
Qed.

Lemma stalled_step c c' : conn_step c c' → stalled c → stalled c'.
Proof.
  intros Hst Hs. pose proof Hs as [He Hf].
  destruct Hst as [m now c|now c|now c|now c|now c|len now c|seq pl now c|ack nacks now c|now c|
    |  |  | ]; try done.
  - unfold transition_established. destruct (state c); done.
  - unfold begin_close. by case_bool_decide.
  - unfold remote_close_received. by case_bool_decide.
  - unfold close. by case_bool_decide.
  - unfold reset. by case_bool_decide.
  - by destruct (stalled_rejects len now c Hs) as [-> _].
  - unfold receive_packet. by case_match.
  - unfold receive_ack. destruct (acknowledge_empty ack nacks (send_window c) He) as (A1 & A2 & A3).
    destruct (acknowledge ack nacks (send_window c)) as [sw o]. cbn [fst snd] in *.
    rewrite A2, A3. split; [exact A1|exact Hf].
  - unfold advance. destruct (is_terminal c); [done|].
    destruct (check_timeout c now); [unfold reset; by case_bool_decide|].
    unfold expired_entries. rewrite He.
    change (keys_asc (∅ : gmap Z UnackedEntry)) with (@nil Z). split; cbn; done.
Qed.

Lemma stalled_forever c c' : rtc conn_step c c' → stalled c → stalled c'.
Proof. induction 1; eauto using stalled_step. Qed.
End theorems.

(** An accepted configuration with a one-packet send window and one retry. *)
Definition narrow : StreamingConfig :=
  mkStreamingConfig 64 32 32 16 1 64 128 1 DEFAULT_SETUP_TIMEOUT_MS DEFAULT_IDLE_TIMEOUT_MS
    DEFAULT_CLOSE_TIMEOUT_MS DEFAULT_DELAYED_ACK_MS 4.

Definition narrow_connection : StreamingConnection () () :=
  let c0 := new_outbound 1 narrow 10 20 () [] 80 90 0 in
  let c1 := (transition_established 1812 0 c0).1 in
  let c2 := (enqueue_send 100 0 c1).1 in
  (advance 10000 (advance 5000 c2).1).1.

(** C40: giving up on a packet leaks its place in the congestion window.  When
    [advance] drops a packet whose retransmission budget is used up, it does not
    tell the congestion policy: there is an accepted configuration and a
    reachable established connection with no unacked packet at all, on which,
    whatever happens afterwards, no send is ever admitted again. *)
Theorem dropped_packet_stalls_connection :
  try_new narrow = Ok narrow ∧
  ∃ c : StreamingConnection () (),
    rtc conn_step (new_outbound 1 narrow 10 20 () [] 80 90 0) c ∧
    state c = Established ∧ unacked_count (send_window c) = 0 ∧
    ∀ c' len now, rtc conn_step c c' → is_ok (enqueue_send len now c').2 = false.
Proof.
  split; [vm_compute; reflexivity|]. exists narrow_connection. split_and!.
  - eapply rtc_l; [apply (conn_established 1812 0)|].
    eapply rtc_l; [apply (conn_send 100 0); vm_compute; congruence|].
    eapply rtc_l; [apply (conn_advance 5000)|].
    eapply rtc_l; [apply (conn_advance 10000)|]. apply rtc_refl.
  - vm_compute. reflexivity.
  - vm_compute. reflexivity.
  - intros c' len now Hrun. apply stalled_rejects, (stalled_forever _ _ Hrun).
    split; [vm_compute; reflexivity|vm_compute; congruence].
Qed.

(** ** Witnesses *)
Lemma connection_bounded_witness :
  let c : StreamingConnection () () := (transition_established 1812 0
    (new_connection Outbound OutboundSynSent 1 balanced 10 20 () [] 80 90 0)).1 in
  unacked_count (send_window c) ≤ in_flight (congestion c) ≤ max_send_window_packets balanced.
Proof.
  refine (proj1 (connection_bounded balanced Outbound OutboundSynSent 1 10 20 () [] 80 90 0 _
    balanced_ok _)).
  apply rtc_once, conn_established.
Defined.

Lemma connection_lifecycle_witness :
  let c : StreamingConnection () () := (close 5 (new_outbound 1 balanced 10 20 () [] 80 90 0)).1 in
  state (reset 9 c).1 = Closed.
Proof.
  intros c. refine (proj1 (proj2 (connection_lifecycle c (reset 9 c).1 _)) _).
  - apply rtc_once, conn_reset.
  - vm_compute. reflexivity.
Defined.

Lemma enqueue_send_exact_witness :
  let c : StreamingConnection () () := (transition_established 1812 0
    (new_outbound 1 balanced 10 20 () [] 80 90 0)).1 in
  (enqueue_send 100 7 c).2 = Ok 1 ∧ in_flight (congestion (enqueue_send 100 7 c).1) = 1.
Proof.
  intros c. pose proof (enqueue_send_exact balanced 100 7 c balanced_ok) as H. cbv zeta in H.
  destruct (enqueue_send 100 7 c) as [c' [seq|e]] eqn:E.
  - destruct H as (_ & -> & _ & Hf & _); [|lia|split; [vm_compute; reflexivity|exact Hf]].
    eapply conn_step_ok; [apply balanced_ok|apply (conn_established 1812 0)|].
    apply new_connection_ok, balanced_ok.
  - vm_compute in E. discriminate.
Defined.
